(* ===== verification/_CoqProject ===== *)
-Q . S2P
Prelude.v
ZendString.v
ZendLong.v
ZendSmartStr.v
OrderedMap.v
ZendHash.v
ZendHashInv.v
ZendHashRehash.v
ZendHashUpdate.v
ZendHashDelete.v
ZendHashRekey.v
ZendHashMap.v
ZendSymtable.v
ZendHashOps.v
ZendHashTraverse.v
ZendHashApply.v
ZendHashCopy.v
ZendHashDup.v
ZendHashCast.v
ZendHashCompare.v
ZendHashEdges.v
ZendList.v
ZendHashNext.v
ZendListHash.v
ZendStack.v
ZendSort.v
ZendHashSort.v
ZendLlist.v
ZendObjects.v
Base64.v
Url.v
PhpVariables.v
PhpVariablesSpec.v
PhpVariablesRep.v
PhpVariablesRegister.v
PhpVariablesPath.v
PhpVariablesRequest.v
PhpVariablesEnv.v
PhpVariablesPost.v
PhpVariablesQuery.v
Bridge.v
BridgeCalls.v
ZendGc.v
ZendGcTrace.v
ZendGcScan.v
ZendGcBuffer.v
ZendGcCollect.v
ZendGcGarbage.v
ZendMmBitset.v
ZendMmBins.v
ZendMmChunk.v
ZendMmRuns.v
ZendMmHeap.v
ZendMmRing.v
ZendMmPages.v
ZendMmBlocks.v
FastcgiEnv.v
Fastcgi.v
FastcgiRecords.v
FastcgiOut.v
FastcgiIn.v
Output.v
OutputSpec.v
OutputLayer.v
OutputUser.v
CodeExecutor.v
