(* ===== verification/Prelude.v ===== *)
(** * A verification library for the PHP isolation provider

    The repository is a service that runs PHP code for a Python client.  [index.php] receives programs,
    a C++ extension ([deep_client_php_wrapper.cpp], [PyPhpBridge.cpp]) lets them call functions of the
    module [deep_client_interface], and the sources of the PHP 7.4 engine ([zend_headers/],
    [php_headers/], [ext_php_headers/]) are shipped with it.  The library models the data
    structures of the engine that every request goes through, the connection that brings the requests, the
    layer that collects the output, and the bridge, and proves them correct.
    Paths are relative to [src/].

    ** Conventions

    A C function is a Coq function of the same name; its loops are [Fixpoint]s named after it or after
    what they do.  State is passed explicitly.  Memory is checked: reading a cell that was never written,
    following a pointer to a freed node or leaving a block makes the whole operation [None], so a theorem
    of the form [exists r, f x = Some r /\ ...] includes that the code has no such access.  Errors that
    the code itself reports are ordinary values.  Integers are [Z]; unsigned ones wrap ([u32], [u64]) and a
    signed overflow, which is undefined in C, is [None] ([int], [sint]).  Code outside the repository
    (CPython, the destructors and output handlers of a script, [mmap]) is a parameter.  What the other end of a connection does at
    each [read] and [write] is a list of answers ([peer] in [Fastcgi]).

    Loops without a structural argument take fuel.  The amount is part of the definition, and each theorem
    says that the operation has a result, so it is enough: 16 or 20 rounds for printing 64-bit numbers
    ([ZendLong]); the number of chain links, at most [nNumUsed], in [ZendHash]; [nmemb] calls in
    [ZendSort]; [trace_fuel], which counts nodes and references, in [ZendGc]; 512 pages or the number
    of chunks in [ZendMmChunk] and [ZendMmHeap]; the bytes that are there to read, or the length of what is
    decoded, in [Fastcgi]; the length of the buffer in [PhpVariables]; the nesting depth in [Bridge].  Where the PHP program
    decides how long a loop runs ([ZendObjects]), a bound on what it does is a hypothesis.

    ** The parts

    Strings and numbers.  [ZendString]: [zend_string.h], engine strings and their hash.  [ZendLong]:
    [zend_operators.h] and [zend_hash.c], integers printed and recognised as array keys; [decimal_key] reads
    decimal notation apart from the code, and [ZendSymtable] is stated with it.
    [ZendSmartStr]: [zend_smart_str.c], growable strings.  [Base64], [Url]:
    [ext/standard/base64.c] and [url.c], round trips and the bounds of the decoders.

    Ordered hash tables, [zend_hash.c] and [zend_hash.h].  [OrderedMap] is the specification, an
    association list.  [ZendHash] is the core of the model: the three layouts, chains, tombstones,
    iterators, growth.  [ZendHashInv] has the representation invariant [wf]; [ZendHashRehash],
    [ZendHashUpdate] and [ZendHashDelete] prove the operations against it, and [ZendHashMap] closes
    the refinement for arbitrary sequences of operations.  [ZendHashOps] models what is written on
    top of the core; [ZendHashTraverse], [ZendHashApply] and [ZendHashCopy] prove it.  Five files hold
    operations together with their proofs: [ZendHashSort], [ZendHashDup] (separating an array from its
    copies), [ZendHashCast] (arrays and property tables), [ZendHashCompare] and [ZendHashRekey].
    [ZendSymtable] adds the numeric string keys of PHP arrays, [ZendHashEdges] holds runs that show
    where code and comments part.

    Containers.  [ZendStack]: [zend_stack.c], [zend_ptr_stack.c].  [ZendLlist]: [zend_llist.c],
    linked lists in a store of nodes.  [ZendSort]: [zend_sort.c], used by the lists and tables with a
    comparison that comes from the script, of which nothing is assumed unless said.

    Lifetimes.  [ZendList]: [zend_list.c], resources; it is written against the class
    [IndexTable], and [ZendListHash] is the instance for the engine's hash table.  [ZendObjects]:
    [zend_objects_API.c], the object store with its free list and destructors that re-enter it; the store records
    their calls.

    Cycle collector, [zend_gc.c].  [ZendGc] is the model; [ZendGcBuffer] shows the root buffer to be a
    set of values; [ZendGcTrace] treats the four traversals at once; [ZendGcScan], [ZendGcCollect] and
    [ZendGcGarbage] compose them: a collection finds exactly the garbage and restores every reference
    count.

    Memory manager, [zend_alloc.c].  [ZendMmBitset]: page maps.  [ZendMmBins]: size classes.
    [ZendMmChunk], [ZendMmRuns]: a chunk is a set of runs of pages.  [ZendMmHeap]: the model of the
    heap.  [ZendMmRing], [ZendMmPages]: the ring of chunks, and pages of the whole heap.
    [ZendMmBlocks]: the heap as a set of blocks that do not overlap, the contract of [malloc] and [free].

    FastCGI, [php_headers/fastcgi.c] and [fastcgi.h].  [FastcgiEnv]: the variables of a request, a hash table
    over memory segments of its own, shown to be an ordered map.  [Fastcgi]: the model of a
    connection.  [FastcgiRecords]: the reference encoding of records, and what the loops around [read] and
    [write] do with a peer that answers.  [FastcgiOut]: the buffered answer is a stream of records.
    [FastcgiIn]: the beginning, the parameters and the body of a request are read back as they were sent.

    Bridge, [PyPhpBridge.cpp] and [deep_client_php_wrapper.cpp].  [Bridge]: the conversions, over the
    class [Python] of the CPython functions they use, with [PythonLaws] for their documented
    behaviour.  [BridgeCalls]: whole calls, with results, exceptions, and [SystemExit], which ends the process.  PHP arrays are the ordered maps
    that [ZendHashMap] and [ZendSymtable] implement.

    Output, [php_headers/output.c] and [index.php].  [Output]: the model of the stack of output handlers
    and of the [ob_*] functions; a handler is in a store, the stack holds pointers, and a handler of the
    script, a function of the calls made to it so far, may print while it runs.  [OutputSpec]: the
    specification, a list of buffers, and the invariant [layer]; the class [Headers] says whether [php_header] lets
    output through, and where it does not, bytes that leave the buffers are dropped.  [OutputLayer]: every operation does to
    the buffers what the specification says.  [OutputUser]: a handler of the script.  [CodeExecutor]: what
    [index.php] makes of the layer to run a function.

    Request variables, [php_headers/php_variables.c] and [reentrancy.c].  [PhpVariables]: the model of
    [php_register_variable_ex], which cuts the name of a variable in its buffer and enters the value into nested
    tables of a store.  [PhpVariablesSpec]: arrays as trees, the path a name stands for.  [PhpVariablesRep]: the
    tables that hold a tree, with the addresses they occupy; [PhpVariablesRegister] and [PhpVariablesPath] take one
    step and a whole path into them, [PhpVariablesRequest] is about the function.  On it are built
    [PhpVariablesPost] (the body of a form, read in blocks), [PhpVariablesQuery] (query, cookies, [parse_str], cut by
    [php_strtok_r]) and [PhpVariablesEnv] (the environment), each with its model and its specification.  Inserting
    at the next index is in [ZendHashNext], which the resource lists use too.

    ** The theorems

    Refinements ([zend_hash_refines_ordered_map], [zend_mm_heap_refines_blocks],
    [zend_mm_chunk_refines_runs], [gc_root_buffer_refines_set], [fcgi_hash_refines_map],
    [output_layer_refines_buffers], [php_register_variable_puts], [php_default_treat_data_builds],
    [php_std_post_handler_builds], [fcgi_write_frames], [zend_llist_refines_sequence], [zend_stack_refines_list]) take any sequence of operations, or any single one under the invariant, to
    the abstract structure.  [gc_white_is_garbage], [gc_finds_garbage], [zend_list_destructs_once] and
    [zend_objects_store_call_destructors_all] are about lifetimes: what is in use is kept and what is not
    is released, once.  [zend_array_dup_copies], [zend_hash_sort_sorts] and [zend_hash_compare_equal] say of
    whole arrays what the operators of the language promise; [import_environment_builds], what comes from the
    environment; [php_std_post_handler_reads], that the blocks in which a body arrives do not matter;
    [respond_sends], what the service answers; [user_handler_filters_once],
    that a handler of the script sees every byte of its buffer, in one call.  Functional theorems describe single operations on all branches; round trips cover
    the codecs, the casts of arrays, the requests of FastCGI and the bridge; bounds theorems say that buffers are not left.  Those that describe faults of
    the code ([call_python_function_errors], the runs of [ZendHashEdges], examples of [ZendMmHeap] and others) are
    proved of the code as it is.

    Sizes: the theorems on tables assume fewer than 2^26 elements, those on growable strings up to 2^62
    bytes, those on the root buffer the limit GC_MAX_BUF_SIZE, those on output fewer than 2^26 operations, those on request
    variables input of less than about 2^25 bytes.  The limits keep the products of the code
    inside 32 and 64 bits.

    ** Not modelled

    Reference counts and copy-on-write of values are in the model of the collector, and where [ZendHashDup]
    and [ZendHashCast] look at them.  Of the memory manager, huge blocks, reallocation and shutdown are
    left; of the collector, the second half of [zend_gc_collect_cycles], which runs destructors and
    frees.  The vector versions of base64 need
    the semantics of processor intrinsics.  The compiler and virtual machine would need a semantics of PHP;
    streams and the SAPI are input and output, and so are the parts of [fastcgi.c] that listen, accept and
    look up addresses.  Of output buffering, the registration of aliases and conflicts, handler hooks, [ob_get_status] and
    [ob_list_handlers] are left.  Of the request variables, [$argv], the server variables, the creation and merging
    of the super-globals and the multipart bodies of uploads are left.  Formatted printing is floating point;
    thread-safe variants are not compiled in this build.  The bundled extensions are not called by the
    provider.  The rest of [index.php] and [deep_client_interface.py] connect third-party libraries. *)

(** ** Prelude

    Machine integers, checked accesses to lists and the lemmas the components share. *)

From Stdlib Require Export ZArith Lia.
From stdpp Require Export base tactics list option gmap.
#[global] Open Scope Z_scope.

(** ** Status codes of [zend_types.h] *)
Definition SUCCESS : Z := 0.
Definition FAILURE : Z := -1.

Definition ZEND_LONG_MAX : Z := 2 ^ 63 - 1.

(** ** Machine integers

    An unsigned C integer of width [w] is a [Z] kept in [[0, 2^w)] by [uwrap]; a signed one is a [Z]
    in [[-2^(w-1), 2^(w-1))].  Unsigned arithmetic wraps.  Signed overflow is undefined in C: an
    operation that could overflow goes through [sint], whose [None] is the undefined behaviour. *)
Definition uwrap (w z : Z) : Z := z mod 2 ^ w.
Definition swrap (w z : Z) : Z := (z + 2 ^ (w - 1)) mod 2 ^ w - 2 ^ (w - 1).
Definition u8 (z : Z) : Z := uwrap 8 z.
Definition u32 (z : Z) : Z := uwrap 32 z.
Definition u64 (z : Z) : Z := uwrap 64 z.
Definition i32 (z : Z) : Z := swrap 32 z.
Definition i64 (z : Z) : Z := swrap 64 z.
Definition in_range (lo hi z : Z) : bool := (lo <=? z) && (z <? hi).
Definition sint (w z : Z) : option Z :=
  if in_range (- 2 ^ (w - 1)) (2 ^ (w - 1)) z then Some z else None.
(** The result of an [int] addition or subtraction. *)
Definition int (z : Z) : option Z := sint 32 z.

Definition is_u8 (z : Z) : Prop := 0 <= z < 2 ^ 8.
Definition is_u32 (z : Z) : Prop := 0 <= z < 2 ^ 32.
Definition is_u64 (z : Z) : Prop := 0 <= z < 2 ^ 64.
Definition is_i32 (z : Z) : Prop := - 2 ^ 31 <= z < 2 ^ 31.
Definition is_i64 (z : Z) : Prop := - 2 ^ 63 <= z < 2 ^ 63.

Lemma in_range_iff lo hi z : in_range lo hi z = true <-> lo <= z < hi.
Proof. unfold in_range. lia. Qed.

Lemma int_Some z r : int z = Some r <-> is_i32 z /\ r = z.
Proof.
  unfold int, sint, is_i32. change (2 ^ (32 - 1)) with (2 ^ 31).
  destruct (in_range _ _ z) eqn:E.
  - apply in_range_iff in E. naive_solver.
  - split; [done|]. intros [H _]. apply in_range_iff in H. congruence.
Qed.

Lemma int_ok z : is_i32 z -> int z = Some z.
Proof. intros. by apply int_Some. Qed.

Lemma uwrap_small w z : 0 <= z < 2 ^ w -> uwrap w z = z.
Proof. intros. by apply Z.mod_small. Qed.

Lemma uwrap_range w z : 0 <= w -> 0 <= uwrap w z < 2 ^ w.
Proof. intros. apply Z.mod_pos_bound. by apply Z.pow_pos_nonneg. Qed.

Lemma swrap_range w z : 0 < w -> - 2 ^ (w - 1) <= swrap w z < 2 ^ (w - 1).
Proof.
  intros Hw. unfold swrap. assert (2 ^ w = 2 * 2 ^ (w - 1)) as -> by (rewrite <- Z.pow_succ_r by lia; f_equal; lia).
  assert (0 < 2 ^ (w - 1)) by (apply Z.pow_pos_nonneg; lia).
  pose proof (Z.mod_pos_bound (z + 2 ^ (w - 1)) (2 * 2 ^ (w - 1)) ltac:(lia)). lia.
Qed.

Lemma lor_range n a b : 0 <= n -> 0 <= a < 2 ^ n -> 0 <= b < 2 ^ n -> 0 <= Z.lor a b < 2 ^ n.
Proof.
  intros Hn Ha Hb. assert (0 <= Z.lor a b) by (apply Z.lor_nonneg; lia). split; [done|].
  rewrite <- (Z.mod_small a (2 ^ n)), <- (Z.mod_small b (2 ^ n)) by lia.
  rewrite <- !Z.land_ones, <- Z.land_lor_distr_l, Z.land_ones by lia.
  by apply Z.mod_pos_bound, Z.pow_pos_nonneg.
Qed.

(** [a] has no bit below [n] and [b] none from there on. *)
Lemma lor_disjoint a b n : 0 <= n -> a mod 2 ^ n = 0 -> 0 <= b < 2 ^ n -> Z.lor a b = a + b.
Proof.
  intros Hn Ha Hb. assert (Z.land a b = 0) as E.
  { apply Z.bits_inj'. intros i Hi. rewrite Z.land_spec, Z.bits_0. destruct (Z.ltb_spec i n).
    - rewrite <- (Z.mod_pow2_bits_low a n i), Ha, Z.bits_0 by lia. done.
    - destruct (decide (b = 0)) as [->|]; [rewrite Z.bits_0; apply andb_false_r|].
      rewrite (Z.bits_above_log2 b i); [apply andb_false_r|lia|]. apply Z.log2_lt_pow2; [lia|].
      apply Z.lt_le_trans with (2 ^ n); [lia|]. apply Z.pow_le_mono_r; lia. }
  rewrite Z.add_nocarry_lxor, Z.lxor_lor by done. done.
Qed.

(** The test [flags & bit], and what setting a bit does to it. *)
Definition has (flag bit : Z) : bool := negb (Z.land flag bit =? 0).

Lemma has_lor flags b bit : has (Z.lor flags b) bit = has flags bit || has b bit.
Proof.
  unfold has. rewrite Z.land_lor_distr_l. destruct (Z.eqb_spec (Z.land flags bit) 0) as [->|H1].
  - by rewrite Z.lor_0_l.
  - destruct (Z.eqb_spec (Z.lor (Z.land flags bit) (Z.land b bit)) 0) as [[? _]%Z.lor_eq_0_iff|]; [done|by cbn].
Qed.

Lemma has_set flags b bit : has b bit = false -> has (Z.lor flags b) bit = has flags bit.
Proof. intros H. by rewrite has_lor, H, orb_false_r. Qed.

(** ** Arrays addressed by C integers

    A read or write outside the allocated cells is [None]: undefined behaviour. *)
Section Arrays.
Context {A : Type}.
Implicit Types (l : list A) (i : Z).

Definition aget l i : option A := if 0 <=? i then l !! Z.to_nat i else None.
Definition aset l i (x : A) : option (list A) :=
  if in_range 0 (Z.of_nat (length l)) i then Some (<[Z.to_nat i := x]> l) else None.

Lemma aget_Some l i x : aget l i = Some x -> 0 <= i < Z.of_nat (length l).
Proof.
  unfold aget. destruct (Z.leb_spec 0 i); [|done].
  intros Hl%lookup_lt_Some. lia.
Qed.

Lemma aget_nat l (n : nat) : aget l (Z.of_nat n) = l !! n.
Proof. unfold aget. by rewrite (proj2 (Z.leb_le 0 _)), Nat2Z.id by lia. Qed.

Lemma aget_app_mid l1 x l2 i :
  i = Z.of_nat (length l1) -> aget (l1 ++ x :: l2) i = Some x.
Proof. intros ->. rewrite aget_nat. by apply list_lookup_middle. Qed.

Lemma aset_app_mid l1 x y l2 i :
  i = Z.of_nat (length l1) -> aset (l1 ++ x :: l2) i y = Some (l1 ++ y :: l2).
Proof.
  intros ->. unfold aset, in_range. rewrite length_app, Nat2Z.id. simpl.
  rewrite (proj2 (Z.leb_le _ _)), (proj2 (Z.ltb_lt _ _)) by lia. simpl.
  f_equal. rewrite <- (Nat.add_0_r (length l1)). by rewrite insert_app_r.
Qed.

Lemma aset_Some l i x l' :
  aset l i x = Some l' -> 0 <= i < Z.of_nat (length l) /\ l' = <[Z.to_nat i := x]> l.
Proof.
  unfold aset. destruct (in_range _ _ _) eqn:E; [|done].
  apply in_range_iff in E. naive_solver.
Qed.
End Arrays.

Lemma forallb_false {A} (f : A -> bool) l : forallb f l = false -> exists x, x ∈ l /\ f x = false.
Proof.
  induction l as [|x l IH]; cbn; [done|]. destruct (f x) eqn:E; cbn; [|intros _; exists x; by split; [left|]].
  intros (y & Hy & Hf)%IH. exists y. by split; [right|].
Qed.

Lemma forallb_elem {A} (f : A -> bool) l x : forallb f l = true -> x ∈ l -> f x = true.
Proof. rewrite forallb_forall. intros H Hx. by apply H, list_elem_of_In. Qed.

(** A property of bytes, by trying them all. *)
Lemma byte_check (f : Z -> bool) c : forallb f (Z.of_nat <$> seq 0 256) = true -> is_u8 c -> f c = true.
Proof.
  intros Hf Hc. apply (forallb_elem f _ c Hf), list_elem_of_fmap. exists (Z.to_nat c). unfold is_u8 in Hc.
  split; [lia|]. apply elem_of_seq. lia.
Qed.

(** ** Tactics *)

(** Reduce a boolean comparison of integers in the goal whose truth [lia] can decide. *)
Ltac zbool :=
  repeat match goal with
  | |- context [?a <=? ?b] =>
      first [ rewrite (proj2 (Z.leb_le a b)) by lia | rewrite (proj2 (Z.leb_gt a b)) by lia ]
  | |- context [?a <? ?b] =>
      first [ rewrite (proj2 (Z.ltb_lt a b)) by lia | rewrite (proj2 (Z.ltb_ge a b)) by lia ]
  | |- context [?a =? ?b] =>
      first [ rewrite (proj2 (Z.eqb_eq a b)) by lia | rewrite (proj2 (Z.eqb_neq a b)) by lia ]
  end; cbn [andb orb negb].

(** Case analysis on the first integer comparison of the goal. *)
Ltac zcase :=
  match goal with
  | |- context [?a <=? ?b] => destruct (Z.leb_spec a b)
  | |- context [?a <? ?b] => destruct (Z.ltb_spec a b)
  | |- context [?a =? ?b] => destruct (Z.eqb_spec a b)
  end; cbn [andb orb negb].

(** Break the options and matches of a hypothesis [_ = Some _]. *)
Ltac inv_opt :=
  repeat match goal with
  | H : Some _ = Some _ |- _ => injection H as H; subst
  | H : None = Some _ |- _ => discriminate H
  | H : Some _ = None |- _ => discriminate H
  | H : mbind ?f ?o = Some _ |- _ =>
      let E := fresh "E" in destruct o eqn:E; cbn [mbind option_bind] in H
  | H : ?o ≫= ?f = Some _ |- _ =>
      let E := fresh "E" in destruct o eqn:E; cbn [mbind option_bind] in H
  end.

(** ** Buffers

    A block of memory is a list of bytes that may be uninitialised.  Writes and reads are checked
    against it, and a read against the bytes being written before. *)
(** [memcpy] of known bytes to an offset of a block. *)
Definition copy_to (dst : list (option Z)) (off : Z) (src : list Z) : option (list (option Z)) :=
  if (0 <=? off) && (off + Z.of_nat (length src) <=? Z.of_nat (length dst))
  then Some (take (Z.to_nat off) dst ++ (Some <$> src) ++ drop (Z.to_nat off + length src) dst)
  else None.

(** [len] bytes from an offset. *)
Definition read_from (src : list (option Z)) (off len : Z) : option (list Z) :=
  if (0 <=? off) && (0 <=? len) && (off + len <=? Z.of_nat (length src))
  then mapM id (take (Z.to_nat len) (drop (Z.to_nat off) src))
  else None.

Lemma copy_to_ok dst off src : 0 <= off -> off + Z.of_nat (length src) <= Z.of_nat (length dst) ->
  exists c, copy_to dst off src = Some c /\ length c = length dst /\
    take (Z.to_nat (off + Z.of_nat (length src))) c = take (Z.to_nat off) dst ++ (Some <$> src).
Proof.
  intros H0 Hl. unfold copy_to. zbool. eexists. split; [done|]. split.
  - rewrite !length_app, length_take, length_fmap, length_drop. lia.
  - rewrite app_assoc. rewrite take_app_le by (rewrite length_app, length_take, length_fmap; lia).
    apply take_ge. rewrite length_app, length_take, length_fmap. lia.
Qed.

Lemma aset_copy_to (dst : list (option Z)) off x : 0 <= off < Z.of_nat (length dst) ->
  aset dst off (Some x) = copy_to dst off [x].
Proof.
  intros Hoff. unfold aset, copy_to, in_range. cbn [length fmap list_fmap]. zbool.
  f_equal. rewrite insert_take_drop by lia. cbn. by rewrite Nat.add_1_r.
Qed.

Lemma copy_to_mid l1 mid l2 off (src : list Z) : off = Z.of_nat (length l1) -> length src = length mid ->
  copy_to (l1 ++ mid ++ l2) off src = Some (l1 ++ (Some <$> src) ++ l2).
Proof.
  intros -> Hl. unfold copy_to. rewrite !length_app, Nat2Z.id. zbool. do 2 f_equal.
  - by rewrite take_app_length.
  - f_equal. rewrite app_assoc, drop_app_length'; [done|]. rewrite length_app. lia.
Qed.

Lemma copy_to_end l1 l2 off (src : list Z) : off = Z.of_nat (length l1) -> (length src <= length l2)%nat ->
  copy_to (l1 ++ l2) off src = Some (l1 ++ (Some <$> src) ++ drop (length src) l2).
Proof.
  intros Hoff Hl. rewrite <- (take_drop (length src) l2) at 1. apply copy_to_mid; [done|].
  rewrite length_take. lia.
Qed.

Lemma mapM_Some_id (bs : list Z) : mapM id (Some <$> bs) = Some bs.
Proof. by induction bs as [|b bs IH]; cbn; [|rewrite IH]. Qed.

Lemma read_from_mid l1 bs l2 off len : off = Z.of_nat (length l1) -> len = Z.of_nat (length bs) ->
  read_from (l1 ++ (Some <$> bs) ++ l2) off len = Some bs.
Proof.
  intros -> ->. unfold read_from. rewrite !length_app, length_fmap, !Nat2Z.id. zbool.
  rewrite drop_app_length, take_app_length' by (by rewrite length_fmap). apply mapM_Some_id.
Qed.

Lemma read_from_start bs l2 len : len = Z.of_nat (length bs) -> read_from ((Some <$> bs) ++ l2) 0 len = Some bs.
Proof. by apply (read_from_mid []). Qed.

(** ** Places

    Chains of hash tables visit chosen places from the last to the first. *)
(** The places of the elements that [f] chooses, from the last to the first, when the list starts at [n]. *)
Fixpoint places_from {A} (f : A -> bool) (n : nat) (l : list A) : list nat :=
  match l with [] => [] | x :: l => places_from f (S n) l ++ (if f x then [n] else []) end.

Definition places {A} (f : A -> bool) (l : list A) : list nat := places_from f 0 l.

Section Places.
Context {A : Type} (f : A -> bool).

Lemma places_from_app n (l1 l2 : list A) :
  places_from f n (l1 ++ l2) = places_from f (n + length l1) l2 ++ places_from f n l1.
Proof.
  revert n. induction l1 as [|x l1 IH]; intros n; cbn.
  - by rewrite Nat.add_0_r, app_nil_r.
  - rewrite IH, <- app_assoc. do 2 f_equal. lia.
Qed.

Lemma elem_of_places_from n (l : list A) i :
  i ∈ places_from f n l <-> (n <= i)%nat /\ exists x, l !! (i - n)%nat = Some x /\ f x = true.
Proof.
  revert n. induction l as [|x l IH]; intros n; cbn.
  - rewrite elem_of_nil. split; [done|]. intros (_ & x & Hx & _). by rewrite lookup_nil in Hx.
  - rewrite elem_of_app, IH. split.
    + intros [(Hn & y & Hy & Ho)|Hi].
      * split; [lia|]. exists y. split; [|done]. by replace (i - n)%nat with (S (i - S n)) by lia.
      * destruct (f x) eqn:E; [|by apply elem_of_nil in Hi].
        apply list_elem_of_singleton in Hi as ->. rewrite Nat.sub_diag. split; [lia|]. by exists x.
    + intros (Hn & y & Hy & Ho). destruct (decide (i = n)) as [->|Hne].
      * rewrite Nat.sub_diag in Hy. injection Hy as ->. rewrite Ho. right. by left.
      * left. split; [lia|]. exists y. split; [|done]. by replace (i - n)%nat with (S (i - S n)) in Hy by lia.
Qed.

Lemma elem_of_places (l : list A) i : i ∈ places f l <-> exists x, l !! i = Some x /\ f x = true.
Proof.
  unfold places. rewrite elem_of_places_from, Nat.sub_0_r. split; [tauto|]. intros H. split; [lia|done].
Qed.

Lemma NoDup_places_from n (l : list A) : NoDup (places_from f n l).
Proof.
  revert n. induction l as [|x l IH]; intros n; cbn; [constructor|].
  apply NoDup_app. split_and!; [done | |by destruct (f x); [apply NoDup_singleton|constructor]].
  intros i Hi%elem_of_places_from. destruct (f x); [|apply not_elem_of_nil].
  rewrite list_elem_of_singleton. lia.
Qed.

Lemma length_places_from n (l : list A) : (length (places_from f n l) <= length l)%nat.
Proof.
  revert n. induction l as [|x l IH]; intros n; cbn; [lia|].
  rewrite length_app. specialize (IH (S n)). destruct (f x); cbn; lia.
Qed.

(** Around an element, the chosen places. *)
Lemma places_split (l1 : list A) x l2 :
  places f (l1 ++ x :: l2) = places_from f (S (length l1)) l2 ++ (if f x then [length l1] else []) ++ places f l1.
Proof. unfold places. rewrite places_from_app. cbn. by rewrite <- app_assoc. Qed.

Lemma places_snoc (l : list A) x : places f (l ++ [x]) = (if f x then [length l] else []) ++ places f l.
Proof. by rewrite places_split. Qed.

(** Elements that are not chosen do not matter. *)
Lemma places_skip (l1 l2 : list A) : Forall (fun x => f x = false) l2 -> places f (l1 ++ l2) = places f l1.
Proof.
  unfold places. rewrite places_from_app. intros Hd.
  replace (places_from f (0 + length l1) l2) with (@nil nat); [done|].
  generalize (0 + length l1)%nat. induction Hd as [|x l Hx _ IH]; intros n; [done|]. cbn. by rewrite <- IH, Hx.
Qed.

Lemma places_from_ext n (l l' : list A) : f <$> l = f <$> l' -> places_from f n l = places_from f n l'.
Proof.
  revert n l'. induction l as [|x l IH]; intros n [|x' l']; try done. cbn. intros [= Ex E].
  by rewrite (IH (S n) l' E), Ex.
Qed.
End Places.
