(* ===== verification/ZendString.v ===== *)
(** * Engine strings ([zend_string.h])

    [zend_string] is a string by value: its bytes and whether it is interned.  Two engine strings at
    the same address are the same string, so the pointer comparisons the engine makes before it
    compares contents are shortcuts for the comparison of the contents.  [zend_inline_hash_func] is
    the x86-64 variant, in which [char] is signed; it is shown equal to the textbook DJBX33A
    recurrence the comment of the source describes. *)
From S2P Require Import Prelude.

Record zend_string := { ZSTR_VAL : list Z; ZSTR_IS_INTERNED : bool }.

Definition ZSTR_LEN (s : zend_string) : Z := Z.of_nat (length (ZSTR_VAL s)).

(** [zend_string_init]: a fresh string, which is not interned. *)
Definition zend_string_init (str : list Z) : zend_string :=
  {| ZSTR_VAL := str; ZSTR_IS_INTERNED := false |}.

(** [zend_string_equal_content]: the lengths, then [memcmp]. *)
Definition zend_string_equal_content (s1 s2 : zend_string) : bool :=
  bool_decide (ZSTR_LEN s1 = ZSTR_LEN s2) && bool_decide (ZSTR_VAL s1 = ZSTR_VAL s2).

(** A [char] read through a [const char *]. *)
Definition char (c : Z) : Z := swrap 8 c.

(** The loop over chunks of eight characters; the rest of the string is returned. *)
Fixpoint hash_eight (hash : Z) (str : list Z) {struct str} : Z * list Z :=
  match str with
  | s0 :: s1 :: s2 :: s3 :: s4 :: s5 :: s6 :: s7 :: str' =>
      let hash := u64 (hash * 33 * 33 * 33 * 33 + char s0 * 33 * 33 * 33 + char s1 * 33 * 33
                       + char s2 * 33 + char s3) in
      let hash := u64 (hash * 33 * 33 * 33 * 33 + char s4 * 33 * 33 * 33 + char s5 * 33 * 33
                       + char s6 * 33 + char s7) in
      hash_eight hash str'
  | _ => (hash, str)
  end.

(** The chunk of four that may remain. *)
Definition hash_four (hash : Z) (str : list Z) : Z * list Z :=
  match str with
  | s0 :: s1 :: s2 :: s3 :: str' =>
      (u64 (hash * 33 * 33 * 33 * 33 + char s0 * 33 * 33 * 33 + char s1 * 33 * 33 + char s2 * 33
            + char s3), str')
  | _ => (hash, str)
  end.

(** The last one to three characters. *)
Definition hash_rest (hash : Z) (str : list Z) : Z :=
  match str with
  | [s0; s1; s2] => u64 (hash * 33 * 33 * 33 + char s0 * 33 * 33 + char s1 * 33 + char s2)
  | [s0; s1] => u64 (hash * 33 * 33 + char s0 * 33 + char s1)
  | [s0] => u64 (hash * 33 + char s0)
  | _ => hash
  end.

Definition zend_inline_hash_func (str : list Z) : Z :=
  let '(hash, str) := hash_eight 5381 str in
  let '(hash, str) := hash_four hash str in
  Z.lor (hash_rest hash str) 0x8000000000000000.

Definition zend_string_hash_val (s : zend_string) : Z := zend_inline_hash_func (ZSTR_VAL s).

(** ** The recurrence *)

(** DJBX33A: [hash(i) = hash(i-1) * 33 + str[i]] on 64-bit words. *)
Definition djbx33a (str : list Z) : Z := foldl (fun h c => u64 (h * 33 + char c)) 5381 str.

Lemma u64_mul_add a k c : u64 (u64 a * k + c) = u64 (a * k + c).
Proof.
  unfold u64, uwrap. rewrite Z.add_mod, Z.mul_mod_idemp_l, <- Z.add_mod by lia. done.
Qed.

Lemma hash_step2 h a b : u64 (u64 (h * 33 + a) * 33 + b) = u64 (h * 33 * 33 + a * 33 + b).
Proof. rewrite u64_mul_add. f_equal. ring. Qed.

Lemma hash_step3 h a b c :
  u64 (u64 (u64 (h * 33 + a) * 33 + b) * 33 + c) = u64 (h * 33 * 33 * 33 + a * 33 * 33 + b * 33 + c).
Proof. rewrite (hash_step2 h a b), u64_mul_add. f_equal. ring. Qed.

Lemma hash_step4 h a b c d :
  u64 (u64 (u64 (u64 (h * 33 + a) * 33 + b) * 33 + c) * 33 + d)
  = u64 (h * 33 * 33 * 33 * 33 + a * 33 * 33 * 33 + b * 33 * 33 + c * 33 + d).
Proof. rewrite (hash_step3 h a b c), u64_mul_add. f_equal. ring. Qed.

Lemma hash_eight_spec n : forall hash str h rest, (length str <= n)%nat ->
  hash_eight hash str = (h, rest) ->
  foldl (fun h c => u64 (h * 33 + char c)) hash str
  = foldl (fun h c => u64 (h * 33 + char c)) h rest /\ (length rest < 8)%nat.
Proof.
  induction n as [|n IH]; intros hash str h rest Hn.
  { destruct str; cbn in *; [|lia]. intros [= <- <-]. split; [done | cbn; lia]. }
  destruct str as [|s0 [|s1 [|s2 [|s3 [|s4 [|s5 [|s6 [|s7 str]]]]]]]];
    try (intros [= <- <-]; cbn; split; [done | lia]).
  cbn [hash_eight]. intros [E Hl]%IH; [|cbn in Hn; lia]. split; [|done].
  rewrite <- E. cbn [foldl]. by rewrite !hash_step4.
Qed.

Lemma hash_func_djbx33a str :
  zend_inline_hash_func str = Z.lor (djbx33a str) (2 ^ 63).
Proof.
  unfold zend_inline_hash_func, djbx33a.
  destruct (hash_eight 5381 str) as [h rest] eqn:E.
  destruct (hash_eight_spec _ _ _ _ _ (le_n _) E) as [-> Hl].
  destruct rest as [|a [|b [|c [|d rest]]]]; cbn [length] in Hl;
    cbn [foldl hash_four hash_rest];
    [done | done | by rewrite hash_step2 | by rewrite hash_step3 |].
  rewrite (hash_step4 h (char a) (char b) (char c) (char d)).
  destruct rest as [|e [|f [|g [|? ?]]]]; cbn [length] in Hl; try lia;
    cbn [foldl hash_rest]; rewrite ?hash_step3, ?hash_step2; done.
Qed.

(** C35: the unrolled hash of the source is DJBX33A on 64-bit words with its top bit set, whatever the
    length of the string. *)
Theorem zend_inline_hash_func_djbx33a str :
  zend_inline_hash_func str = Z.lor (djbx33a str) (2 ^ 63).
Proof. apply hash_func_djbx33a. Qed.

Lemma foldl_hash_range str h : 0 <= h < 2 ^ 64 ->
  0 <= foldl (fun h c => u64 (h * 33 + char c)) h str < 2 ^ 64.
Proof.
  revert h. induction str as [|c str IH]; intros h Hh; [done|]. cbn [foldl].
  apply IH. by apply (uwrap_range 64).
Qed.

Lemma hash_val_range s : 0 <= zend_string_hash_val s < 2 ^ 64.
Proof.
  unfold zend_string_hash_val. rewrite hash_func_djbx33a.
  apply (lor_range 64); [lia| |lia]. apply foldl_hash_range. lia.
Qed.

(** A hash is never zero, the engine's mark of a hash that is not computed yet. *)
Lemma hash_val_top_bit s : Z.testbit (zend_string_hash_val s) 63 = true.
Proof.
  unfold zend_string_hash_val. rewrite hash_func_djbx33a, Z.lor_spec. apply orb_true_r.
Qed.

Lemma equal_content_iff s1 s2 :
  zend_string_equal_content s1 s2 = true <-> ZSTR_VAL s1 = ZSTR_VAL s2.
Proof.
  unfold zend_string_equal_content, ZSTR_LEN. rewrite andb_true_iff, !bool_decide_eq_true.
  split; [tauto|]. intros ->. done.
Qed.
