(* ===== verification/ZendLong.v ===== *)
(** * Integers as decimal strings

    The printing loops of [zend_operators.h], which fill a buffer from its end, and the recognition of
    decimal array keys in [zend_hash.c].  A buffer that is filled backwards is a list that grows at
    the front.  The loops get the number of rounds that 64-bit values need. *)
From S2P Require Import Prelude ZendString.

Definition MAX_LENGTH_OF_LONG : Z := 20.

(** [do { *--buf = (char) (num % 10) + '0'; num /= 10; } while (num > 0)] *)
Fixpoint print_loop (fuel : nat) (buf : list Z) (num : Z) : option (list Z) :=
  match fuel with
  | O => None
  | S fuel =>
      let buf := (num mod 10 + 48) :: buf in
      if 0 <? num / 10 then print_loop fuel buf (num / 10) else Some buf
  end.

Definition zend_print_ulong_to_buf (num : Z) : option (list Z) := print_loop 20 [] num.

(** [num] is a [zend_long]. *)
Definition zend_print_long_to_buf (num : Z) : option (list Z) :=
  if num <? 0 then
    result ← zend_print_ulong_to_buf (u64 (u64 (Z.lnot (u64 num)) + 1));
    Some (45 :: result)
  else zend_print_ulong_to_buf num.

(** One digit is a shared one-character string, which is interned. *)
Definition zend_long_to_str (num : Z) : option zend_string :=
  if u64 num <=? 9 then Some {| ZSTR_VAL := [48 + u64 num]; ZSTR_IS_INTERNED := true |}
  else res ← zend_print_long_to_buf num; Some (zend_string_init res).

(** ** Decimal keys *)

(** The loop from the second character on; [tmp] is what is left of the key. *)
Fixpoint numeric_loop (idx : Z) (tmp : list Z) : option Z :=
  match tmp with
  | [] => Some idx
  | c :: tmp =>
      if (char c <=? 57) && (48 <=? char c) then numeric_loop (u64 (u64 (idx * 10) + (char c - 48))) tmp
      else None
  end.

(** A character of the key; the terminating NUL follows the last. *)
Definition first_char (s : list Z) : Z := match s with c :: _ => char c | [] => 0 end.

Definition after_sign (key : list Z) : list Z := if first_char key =? 45 then tail key else key.

(** [None] when the loop would run past the end of the key; [Some None] is the result 0. *)
Definition _zend_handle_numeric_str_ex (key : list Z) : option (option Z) :=
  let tmp := after_sign key in
  if ((first_char tmp =? 48) && (1 <? Z.of_nat (length key)))
     || (MAX_LENGTH_OF_LONG - 1 <? Z.of_nat (length tmp)) then Some None
  else
    match tmp with
    | [] => None
    | c :: tmp =>
        match numeric_loop (u64 (char c - 48)) tmp with
        | None => Some None
        | Some idx =>
            if first_char key =? 45 then
              if ZEND_LONG_MAX <? u64 (idx - 1) then Some None else Some (Some (u64 (0 - idx)))
            else if ZEND_LONG_MAX <? idx then Some None else Some (Some idx)
        end
    end.

Definition _zend_handle_numeric_str (key : list Z) : option (option Z) :=
  if 57 <? first_char key then Some None
  else if first_char key <? 48 then
    if negb (first_char key =? 45) then Some None
    else if (57 <? first_char (tail key)) || (first_char (tail key) <? 48) then Some None
    else _zend_handle_numeric_str_ex key
  else _zend_handle_numeric_str_ex key.

(** ** Decimal notation *)
Definition is_digit (c : Z) : Prop := 48 <= c <= 57.

Definition value (ds : list Z) : Z := foldl (fun v d => v * 10 + (d - 48)) 0 ds.

(** The digits of a number without superfluous leading zeros. *)
Definition decimal (n : Z) (ds : list Z) : Prop :=
  Forall is_digit ds /\ value ds = n /\
  match ds with [] => False | d :: rest => d = 48 -> rest = [] end.

(** ... with a minus sign for a negative one. *)
Definition decimal_string (n : Z) (s : list Z) : Prop :=
  if n <? 0 then exists ds, s = 45 :: ds /\ decimal (- n) ds else decimal n s.

Lemma value_snoc ds d : value (ds ++ [d]) = value ds * 10 + (d - 48).
Proof. unfold value. by rewrite foldl_app. Qed.

Lemma value_bounds ds : Forall is_digit ds -> 0 <= value ds < 10 ^ Z.of_nat (length ds).
Proof.
  induction ds as [|d ds IH] using rev_ind; [done|].
  intros [Hds [Hd _]%Forall_cons]%Forall_app. specialize (IH Hds). unfold is_digit in Hd.
  rewrite value_snoc, length_app. cbn [length]. rewrite Nat2Z.inj_add, Z.pow_add_r by lia. lia.
Qed.

(** A number that is not 0 has a value of at least its leading power of ten. *)
Lemma value_lower d ds : Forall is_digit (d :: ds) -> d <> 48 ->
  10 ^ Z.of_nat (length ds) <= value (d :: ds).
Proof.
  induction ds as [|e ds IH] using rev_ind; intros H Hd.
  - apply Forall_cons in H as [H _]. unfold is_digit in H. cbn. lia.
  - change (d :: ds ++ [e]) with ((d :: ds) ++ [e]) in *.
    apply Forall_app in H as [Hds [He _]%Forall_cons]. specialize (IH Hds Hd). unfold is_digit in He.
    rewrite value_snoc, length_app. cbn [length]. rewrite Nat2Z.inj_add, Z.pow_add_r by lia. lia.
Qed.

Lemma print_loop_decimal fuel : forall n buf, 0 <= n < 10 ^ Z.of_nat fuel ->
  (0 < fuel)%nat -> exists ds, print_loop fuel buf n = Some (ds ++ buf) /\ decimal n ds.
Proof.
  induction fuel as [|fuel IH]; intros n buf Hn H0; [lia|]. cbn [print_loop].
  pose proof (Z.div_mod n 10 ltac:(lia)) as Hdm. pose proof (Z.mod_pos_bound n 10 ltac:(lia)) as Hm.
  rewrite Nat2Z.inj_succ, Z.pow_succ_r in Hn by lia.
  destruct (Z.ltb_spec 0 (n / 10)) as [Hq|Hq].
  - destruct fuel as [|fuel]; [cbn in Hn; lia|].
    destruct (IH (n / 10) ((n mod 10 + 48) :: buf)) as (ds & -> & Hds & Hv & Hl); [lia|lia|].
    exists (ds ++ [n mod 10 + 48]). rewrite <- app_assoc. split; [done|]. split; [|split].
    + apply Forall_app. split; [done|]. apply Forall_singleton. unfold is_digit. lia.
    + rewrite value_snoc. lia.
    + destruct ds as [|d ds]; [done|]. cbn. intros ->. rewrite (Hl eq_refl) in Hv. cbn in Hv. lia.
  - exists [n mod 10 + 48]. split; [done|]. assert (0 <= n / 10) by (apply Z.div_pos; lia). split; [|split].
    + apply Forall_singleton. unfold is_digit. lia.
    + unfold value. cbn. lia.
    + done.
Qed.

Lemma decimal_unique n ds ds' : decimal n ds -> decimal n ds' -> ds = ds'.
Proof.
  revert n ds'. induction ds as [|d ds IH] using rev_ind; intros n ds' (H1 & H2 & H3) (H1' & H2' & H3'); [done|].
  destruct ds' as [|d' ds' _] using rev_ind; [done|].
  apply Forall_app in H1 as [Hds [Hd _]%Forall_cons]. apply Forall_app in H1' as [Hds' [Hd' _]%Forall_cons].
  unfold is_digit in Hd, Hd'. rewrite value_snoc in H2, H2'.
  assert (value ds = value ds') as Ev by lia. assert (d = d') as -> by lia. f_equal.
  pose proof (value_bounds ds Hds). pose proof (value_bounds ds' Hds').
  assert (forall l x, Forall is_digit l -> match l ++ [x] with [] => False | d :: rest => d = 48 -> rest = [] end ->
    l = [] \/ (decimal (value l) l /\ value l <> 0)) as Hcase.
  { intros [|y l] x Hl Hx; [by left|]. right. cbn in Hx.
    assert (y <> 48) as Hy by (intros ->; by destruct l; specialize (Hx eq_refl)).
    pose proof (value_lower y l Hl Hy). split; [|lia]. split; [done|]. split; [done|]. by intros ->. }
  destruct (Hcase ds d' Hds H3) as [->|[Hn Hnz]], (Hcase ds' d' Hds' H3') as [->|[Hn' Hnz']]; try done.
  rewrite Ev in Hn. by apply (IH (value ds')).
Qed.

(** Decimal notation has at most [k] digits below 10^k. *)
Lemma decimal_length n ds k : decimal n ds -> 0 < k -> n < 10 ^ k -> Z.of_nat (length ds) <= k.
Proof.
  intros (Hd & <- & Hl) H0 Hn. destruct ds as [|d ds]; [done|]. cbn [length].
  destruct (Z.eq_dec d 48) as [->|Hne]; [rewrite (Hl eq_refl); cbn; lia|].
  pose proof (value_lower d ds Hd Hne). destruct (Z.le_gt_cases k (Z.of_nat (length ds))); [|lia].
  pose proof (Z.pow_le_mono_r 10 k (Z.of_nat (length ds))). lia.
Qed.

(** ** Recognising decimal keys *)
Lemma char_digit c : is_u8 c -> 48 <= char c <= 57 -> is_digit c.
Proof. unfold is_u8, char, swrap, is_digit. intros H1 H2. Z.to_euclidean_division_equations; lia. Qed.

Lemma digit_char c : is_digit c -> char c = c.
Proof. unfold char, swrap, is_digit. intros H. Z.to_euclidean_division_equations; lia. Qed.

Lemma char_minus c : is_u8 c -> char c = 45 -> c = 45.
Proof. unfold is_u8, char, swrap. intros H1 H2. Z.to_euclidean_division_equations; lia. Qed.

Lemma numeric_loop_digits tmp : forall idx, Forall is_digit tmp -> 0 <= idx ->
  (idx + 1) * 10 ^ Z.of_nat (length tmp) <= 2 ^ 64 ->
  numeric_loop idx tmp = Some (foldl (fun v d => v * 10 + (d - 48)) idx tmp).
Proof.
  induction tmp as [|c tmp IH]; intros idx Hd H0 Hb; [done|].
  apply Forall_cons in Hd as [Hc Hd]. cbn [numeric_loop foldl length] in *.
  rewrite (digit_char c Hc). unfold is_digit in Hc.
  rewrite (proj2 (Z.leb_le _ _)), (proj2 (Z.leb_le 48 c)) by lia. cbn [andb].
  rewrite Nat2Z.inj_succ, Z.pow_succ_r in Hb by lia.
  assert (0 < 10 ^ Z.of_nat (length tmp)) by (apply Z.pow_pos_nonneg; lia).
  assert ((idx * 10 + (c - 48) + 1) * 10 ^ Z.of_nat (length tmp) <= 2 ^ 64) as Hb'.
  { transitivity ((idx + 1) * 10 * 10 ^ Z.of_nat (length tmp)); [|lia].
    apply Z.mul_le_mono_nonneg_r; lia. }
  assert (idx * 10 + (c - 48) < 2 ^ 64) by nia.
  unfold u64. rewrite (uwrap_small 64 (idx * 10)), uwrap_small by lia. apply IH; [done|lia|done].
Qed.

Lemma numeric_loop_Some tmp : forall idx r, Forall is_u8 tmp -> numeric_loop idx tmp = Some r ->
  Forall is_digit tmp.
Proof.
  induction tmp as [|c tmp IH]; intros idx r Hu H; [done|]. apply Forall_cons in Hu as [Hc Hu].
  cbn [numeric_loop] in H. destruct ((char c <=? 57) && (48 <=? char c)) eqn:E; [|done].
  apply andb_prop in E as [E1%Z.leb_le E2%Z.leb_le]. constructor; [|by apply IH in H].
  apply char_digit; [done|lia].
Qed.

(** The part after the sign: at most 19 digits without superfluous zeros give their value. *)
Definition digits_result (ds : list Z) : option Z :=
  match ds with [] => None | c :: tmp => numeric_loop (u64 (char c - 48)) tmp end.

Lemma digits_result_decimal n ds : decimal n ds -> n < 10 ^ 19 -> digits_result ds = Some n.
Proof.
  intros Hd Hn. pose proof (decimal_length n ds 19 Hd ltac:(lia) Hn) as Hl.
  destruct Hd as (Hd & <- & Hz). destruct ds as [|c ds]; [done|]. cbn [digits_result length] in *.
  apply Forall_cons in Hd as [Hc Hd]. rewrite (digit_char c Hc). unfold is_digit in Hc.
  unfold u64. rewrite uwrap_small by lia. rewrite numeric_loop_digits; [done|done|lia|].
  pose proof (Z.pow_le_mono_r 10 (Z.of_nat (length ds)) 18 ltac:(lia) ltac:(lia)).
  assert (0 < 10 ^ Z.of_nat (length ds)) by (apply Z.pow_pos_nonneg; lia). nia.
Qed.

Lemma digits_result_Some ds r : Forall is_u8 ds -> Z.of_nat (length ds) <= 19 ->
  (first_char ds = 48 -> ds = [48]) -> 48 <= first_char ds <= 57 ->
  digits_result ds = Some r -> decimal r ds.
Proof.
  intros Hu Hl Hz Hf Hr. destruct ds as [|c ds]; [done|]. cbn [digits_result first_char] in *.
  apply Forall_cons in Hu as [Hc Hu]. pose proof (char_digit c Hc Hf) as Hdc.
  pose proof (numeric_loop_Some ds _ _ Hu Hr) as Hd.
  assert (decimal (value (c :: ds)) (c :: ds)) as Hdec.
  { split; [by constructor|]. split; [done|]. intros ->. specialize (Hz eq_refl). by injection Hz. }
  assert (value (c :: ds) < 10 ^ 19) as Hlt.
  { pose proof (value_bounds (c :: ds) ltac:(by constructor)) as [_ Hv].
    pose proof (Z.pow_le_mono_r 10 (Z.of_nat (length (c :: ds))) 19 ltac:(lia) ltac:(done)). lia. }
  pose proof (digits_result_decimal _ _ Hdec Hlt) as E. cbn in E. rewrite Hr in E.
  by injection E as ->.
Qed.

(** ** Printing *)
Lemma zend_print_ulong_decimal n : is_u64 n ->
  exists ds, zend_print_ulong_to_buf n = Some ds /\ decimal n ds.
Proof.
  intros Hn. unfold is_u64 in Hn. destruct (print_loop_decimal 20 n [] ltac:(lia) ltac:(lia)) as (ds & E & Hd).
  rewrite app_nil_r in E. by exists ds.
Qed.

Lemma zend_print_long_decimal n s : is_i64 n ->
  zend_print_long_to_buf n = Some s <-> decimal_string n s.
Proof.
  unfold is_i64, zend_print_long_to_buf, decimal_string. intros Hn. destruct (Z.ltb_spec n 0) as [H0|H0].
  - assert (u64 (u64 (Z.lnot (u64 n)) + 1) = - n) as ->
      by (unfold u64, uwrap, Z.lnot; Z.to_euclidean_division_equations; lia).
    destruct (zend_print_ulong_decimal (- n)) as (ds & -> & Hd); [unfold is_u64; lia|].
    cbn [mbind option_bind]. split; [intros [= <-]; by exists ds|].
    intros (ds' & -> & Hd'). by rewrite (decimal_unique _ _ _ Hd Hd').
  - destruct (zend_print_ulong_decimal n) as (ds & -> & Hd); [unfold is_u64; lia|].
    split; [by intros [= <-]|]. intros Hd'. by rewrite (decimal_unique _ _ _ Hd Hd').
Qed.

Lemma zend_print_long_total n : is_i64 n ->
  exists s, zend_print_long_to_buf n = Some s /\ decimal_string n s.
Proof.
  intros Hn. assert (exists s, zend_print_long_to_buf n = Some s) as [s E].
  { unfold zend_print_long_to_buf. destruct (Z.ltb_spec n 0).
    - destruct (zend_print_ulong_decimal (u64 (u64 (Z.lnot (u64 n)) + 1))) as (ds & -> & _);
        [by apply uwrap_range|by eexists].
    - destruct (zend_print_ulong_decimal n) as (ds & -> & _); [unfold is_u64, is_i64 in *; lia|by eexists]. }
  exists s. split; [done|]. by apply zend_print_long_decimal.
Qed.

Lemma decimal_string_chars n s : decimal_string n s -> Forall (fun c => is_digit c \/ c = 45) s.
Proof.
  unfold decimal_string. destruct (n <? 0).
  - intros (ds & -> & Hd & _). constructor; [by right|]. eapply Forall_impl; [done|]. by left.
  - intros (Hd & _). eapply Forall_impl; [done|]. by left.
Qed.

(** [zend_long_to_str] gives the printed form, the shared one-character strings included. *)
Lemma zend_long_to_str_printed n : is_i64 n -> exists s,
  ZSTR_VAL <$> zend_long_to_str n = Some s /\ zend_print_long_to_buf n = Some s /\ decimal_string n s.
Proof.
  intros Hn. destruct (zend_print_long_total n Hn) as (s & E & Hs). exists s. split; [|done].
  unfold zend_long_to_str. destruct (Z.leb_spec (u64 n) 9) as [H9|H9]; [|by rewrite E].
  assert (0 <= n <= 9) as Hr.
  { unfold u64, uwrap, is_i64 in *. Z.to_euclidean_division_equations; lia. }
  cbn. f_equal. unfold u64. rewrite uwrap_small by lia.
  unfold zend_print_long_to_buf, zend_print_ulong_to_buf in E. rewrite (proj2 (Z.ltb_ge n 0)) in E by lia.
  cbn [print_loop] in E. rewrite (Z.mod_small n 10), (Z.div_small n 10) in E by lia.
  injection E as <-. by rewrite Z.add_comm.
Qed.

(** The digits of a decimal string start with a digit, and not with a superfluous 0. *)
Lemma decimal_first n ds : decimal n ds ->
  48 <= first_char ds <= 57 /\ (first_char ds = 48 -> ds = [48]) /\ Forall is_u8 ds.
Proof.
  intros (Hd & _ & Hz). destruct ds as [|d ds]; [done|]. cbn [first_char].
  assert (Forall is_u8 (d :: ds)) as Hu.
  { apply (Forall_impl is_digit); [done|]. unfold is_digit, is_u8. lia. }
  apply Forall_cons in Hd as [Hd _]. rewrite (digit_char d Hd). unfold is_digit in Hd.
  split; [done|]. split; [|done]. intros ->. by rewrite (Hz eq_refl).
Qed.

Lemma u64_neg n : 0 < n <= 2 ^ 63 -> u64 (0 - n) = u64 (- n) /\ u64 (n - 1) = n - 1.
Proof. intros Hn. split; [f_equal; lia|]. unfold u64. rewrite uwrap_small; lia. Qed.

(** Keys that start with a minus sign. *)
Lemma numeric_str_minus ds : Forall is_u8 ds -> exists r,
  _zend_handle_numeric_str (45 :: ds) = Some r /\
  forall idx, r = Some idx <-> exists n, - 2 ^ 63 <= n < 0 /\ decimal (- n) ds /\ idx = u64 n.
Proof.
  intros Hu. unfold _zend_handle_numeric_str, _zend_handle_numeric_str_ex, after_sign.
  cbn [first_char tail]. change (char 45) with 45. cbn [Z.ltb Z.eqb Z.compare Pos.compare Pos.compare_cont Pos.eqb negb].
  assert ((forall n, - 2 ^ 63 <= n < 0 -> ~ decimal (- n) ds) ->
    forall idx, None = Some idx <-> exists n, - 2 ^ 63 <= n < 0 /\ decimal (- n) ds /\ idx = u64 n) as Hno.
  { intros H idx. split; [done|]. intros (n & Hn & Hd & _). by destruct (H n Hn). }
  destruct ((57 <? first_char ds) || (first_char ds <? 48)) eqn:Ef.
  { exists None. split; [done|]. apply Hno. intros n Hn Hd%decimal_first.
    apply orb_prop in Ef as [E%Z.ltb_lt|E%Z.ltb_lt]; lia. }
  apply orb_false_elim in Ef as [Ef1%Z.ltb_ge Ef2%Z.ltb_ge].
  destruct (_ || _) eqn:Eg.
  { exists None. split; [done|]. apply Hno. intros n Hn Hd. pose proof (decimal_first _ _ Hd) as (_ & Hz & _).
    apply orb_prop in Eg as [[E _]%andb_prop|E%Z.ltb_lt].
    - apply Z.eqb_eq in E. rewrite (Hz E) in Hd. destruct Hd as (_ & Hv & _). cbn in Hv. lia.
    - pose proof (decimal_length _ _ 19 Hd ltac:(lia) ltac:(lia)). unfold MAX_LENGTH_OF_LONG in E. lia. }
  apply orb_false_elim in Eg as [Eg1 Eg2%Z.ltb_ge]. unfold MAX_LENGTH_OF_LONG in Eg2.
  destruct ds as [|c ds]; [cbn in Ef2; lia|].
  fold (digits_result (c :: ds)). set (l := c :: ds) in *.
  assert (first_char l <> 48) as H48.
  { intros E. rewrite E in Eg1. cbn [Z.eqb Pos.eqb andb] in Eg1. apply Z.ltb_ge in Eg1. cbn [length] in Eg1.
    unfold l in Eg1. cbn [length] in Eg1. lia. }
  change (numeric_loop (u64 (char c - 48)) ds) with (digits_result l).
  destruct (digits_result l) as [v|] eqn:Ev.
  - pose proof (digits_result_Some l v Hu ltac:(lia) ltac:(done) ltac:(lia) Ev) as Hd.
    assert (0 < v < 10 ^ 19) as Hv.
    { pose proof Hd as (Hds & <- & _). pose proof (value_bounds l Hds).
      pose proof (Z.pow_le_mono_r 10 (Z.of_nat (length l)) 19 ltac:(lia) ltac:(lia)).
      assert (c <> 48) by (intros ->; done).
      pose proof (value_lower c ds Hds ltac:(done)) as Hlow. change (value (c :: ds)) with (value l) in Hlow.
      assert (0 < 10 ^ Z.of_nat (length ds)) by (apply Z.pow_pos_nonneg; lia). lia. }
    assert (forall n, decimal (- n) l -> v = - n) as Huniq by (intros n (_ & <- & _); by destruct Hd as (_ & <- & _)).
    destruct (Z.ltb_spec ZEND_LONG_MAX (u64 (v - 1))) as [Hov|Hov]; unfold ZEND_LONG_MAX in Hov.
    + unfold u64 in Hov. rewrite uwrap_small in Hov by lia. exists None. split; [done|]. apply Hno.
      intros n Hn Hdn. specialize (Huniq n Hdn). lia.
    + unfold u64 in Hov. rewrite uwrap_small in Hov by lia. eexists. split; [done|]. intros idx. split.
      * intros [= <-]. exists (- v). rewrite Z.opp_involutive. split; [lia|]. done.
      * intros (n & Hn & Hdn & ->). rewrite (Huniq n Hdn). f_equal. unfold u64. f_equal. lia.
  - exists None. split; [done|]. apply Hno. intros n Hn Hd.
    rewrite (digits_result_decimal _ _ Hd) in Ev by lia. done.
Qed.

(** Keys without a sign. *)
Lemma numeric_str_plain key : Forall is_u8 key -> first_char key <> 45 -> exists r,
  _zend_handle_numeric_str key = Some r /\
  forall idx, r = Some idx <-> exists n, 0 <= n < 2 ^ 63 /\ decimal n key /\ idx = u64 n.
Proof.
  intros Hu Hm. unfold _zend_handle_numeric_str, _zend_handle_numeric_str_ex, after_sign.
  rewrite (proj2 (Z.eqb_neq _ _) Hm). cbn [negb].
  assert ((forall n, 0 <= n < 2 ^ 63 -> ~ decimal n key) ->
    forall idx, None = Some idx <-> exists n, 0 <= n < 2 ^ 63 /\ decimal n key /\ idx = u64 n) as Hno.
  { intros H idx. split; [done|]. intros (n & Hn & Hd & _). by destruct (H n Hn). }
  destruct (Z.ltb_spec 57 (first_char key)) as [Hf1|Hf1].
  { exists None. split; [done|]. apply Hno. intros n Hn Hd%decimal_first. lia. }
  destruct (Z.ltb_spec (first_char key) 48) as [Hf2|Hf2].
  { exists None. split; [done|]. apply Hno. intros n Hn Hd%decimal_first. lia. }
  destruct (_ || _) eqn:Eg.
  { exists None. split; [done|]. apply Hno. intros n Hn Hd. pose proof (decimal_first _ _ Hd) as (_ & Hz & _).
    apply orb_prop in Eg as [[E E']%andb_prop|E%Z.ltb_lt].
    - apply Z.eqb_eq in E. rewrite (Hz E) in E'. done.
    - pose proof (decimal_length _ _ 19 Hd ltac:(lia) ltac:(lia)). unfold MAX_LENGTH_OF_LONG in E. lia. }
  apply orb_false_elim in Eg as [Eg1 Eg2%Z.ltb_ge]. unfold MAX_LENGTH_OF_LONG in Eg2.
  destruct key as [|c ds]; [cbn in Hf2; lia|]. set (l := c :: ds) in *.
  change (numeric_loop (u64 (char c - 48)) ds) with (digits_result l).
  assert (first_char l = 48 -> l = [48]) as Hz.
  { intros E. rewrite E in Eg1. cbn [Z.eqb Pos.eqb andb] in Eg1. apply Z.ltb_ge in Eg1.
    destruct ds; [|cbn in Eg1; lia]. apply Forall_cons in Hu as [Hc _].
    pose proof (char_digit c Hc ltac:(done)) as Hd. cbn in E. rewrite (digit_char c Hd) in E. unfold l. by subst. }
  destruct (digits_result l) as [v|] eqn:Ev.
  - pose proof (digits_result_Some l v Hu ltac:(lia) Hz ltac:(lia) Ev) as Hd.
    assert (forall n, decimal n l -> v = n) as Huniq by (intros n (_ & <- & _); by destruct Hd as (_ & <- & _)).
    assert (0 <= v) as H0 by (destruct Hd as (Hds & <- & _); apply (value_bounds l Hds)).
    destruct (Z.ltb_spec ZEND_LONG_MAX v) as [Hov|Hov]; unfold ZEND_LONG_MAX in Hov.
    + exists None. split; [done|]. apply Hno. intros n Hn Hdn. specialize (Huniq n Hdn). lia.
    + eexists. split; [done|]. assert (u64 v = v) as Eu by (unfold u64; rewrite uwrap_small; lia). intros idx. split.
      * intros [= <-]. exists v. split; [lia|]. by rewrite Eu.
      * intros (n & Hn & Hdn & ->). by rewrite <- (Huniq n Hdn), Eu.
  - exists None. split; [done|]. apply Hno. intros n Hn Hd.
    rewrite (digits_result_decimal _ _ Hd) in Ev by lia. done.
Qed.

(** ** The integer a key stands for

    A reading of decimal notation that does not follow the code: digits without a superfluous leading
    0, or a minus sign before such digits, the value being in the range of a [zend_long] and not -0. *)
Definition digit (c : Z) : bool := (48 <=? c) && (c <=? 57).

Definition canonical (ds : list Z) : bool :=
  forallb digit ds && match ds with [] => false | [_] => true | d :: _ => negb (d =? 48) end.

Definition decimal_key (s : list Z) : option Z :=
  match s with
  | [] => None
  | c :: ds =>
      if c =? 45 then
        if canonical ds && (0 <? value ds) && (value ds <=? 2 ^ 63) then Some (- value ds) else None
      else if canonical s && (value s <? 2 ^ 63) then Some (value s) else None
  end.

Lemma canonical_decimal n ds : decimal n ds <-> canonical ds = true /\ value ds = n.
Proof.
  unfold decimal, canonical. rewrite andb_true_iff, forallb_forall, Forall_forall. unfold is_digit, digit.
  setoid_rewrite andb_true_iff. setoid_rewrite Z.leb_le.
  assert (match ds with [] => False | d :: rest => d = 48 -> rest = [] end <->
    match ds with [] => false | [_] => true | d :: _ => negb (d =? 48) end = true) as ->.
  { destruct ds as [|d [|e ds]]; [done|done|]. rewrite negb_true_iff, Z.eqb_neq. by split; [intros H E; specialize (H E)|]. }
  setoid_rewrite list_elem_of_In. tauto.
Qed.

Lemma option_same {A} (r r' : option A) : (forall x, r = Some x <-> r' = Some x) -> r = r'.
Proof. intros H. destruct r as [x|]; [symmetry; by apply H|]. destruct r' as [x|]; [by apply H|done]. Qed.

(** The recognition of the code is that reading, the integer as the 64 bits it is stored in. *)
Lemma numeric_str_decimal_key key : Forall is_u8 key ->
  _zend_handle_numeric_str key = Some (u64 <$> decimal_key key).
Proof.
  intros Hu. destruct key as [|c ds]; [done|]. cbn [decimal_key].
  apply Forall_cons in Hu as Hc. destruct Hc as [Hc Hds]. destruct (Z.eqb_spec c 45) as [->|Hm].
  - destruct (numeric_str_minus ds Hds) as (r & -> & Hr). f_equal. apply option_same. intros idx. rewrite Hr.
    setoid_rewrite canonical_decimal. destruct (canonical ds); cbn [andb].
    2:{ split; [by intros (n & _ & [? _] & _)|done]. }
    destruct (Z.ltb_spec 0 (value ds)), (Z.leb_spec (value ds) (2 ^ 63)); cbn [andb fmap option_fmap option_map].
    2, 3, 4: split; [intros (n & Hn & [_ E] & _); lia|done].
    split; [intros (n & _ & [_ E] & ->); do 2 f_equal; lia|].
    intros [= <-]. exists (- value ds). rewrite Z.opp_involutive. split; [lia|]. done.
  - assert (first_char (c :: ds) <> 45) as Hf by (intros E; by apply Hm, char_minus).
    destruct (numeric_str_plain (c :: ds) Hu Hf) as (r & -> & Hr). f_equal. apply option_same. intros idx. rewrite Hr.
    setoid_rewrite canonical_decimal. destruct (canonical (c :: ds)) eqn:Ec; cbn [andb].
    2:{ split; [by intros (n & _ & [? _] & _)|done]. }
    assert (decimal (value (c :: ds)) (c :: ds)) as (Hd & _) by (by apply canonical_decimal).
    pose proof (value_bounds _ Hd) as [H0 _].
    destruct (Z.ltb_spec (value (c :: ds)) (2 ^ 63)); cbn [fmap option_fmap option_map].
    2: split; [intros (n & Hn & [_ E] & _); lia|done].
    split; [by intros (n & _ & [_ <-] & ->)|]. intros [= <-]. by eexists.
Qed.

(** A printed integer is read back. *)
Lemma decimal_key_printed n s : is_i64 n -> zend_print_long_to_buf n = Some s -> decimal_key s = Some n.
Proof.
  intros Hn Hd%zend_print_long_decimal; [|done]. unfold decimal_string, is_i64 in *.
  destruct (Z.ltb_spec n 0) as [H0|H0].
  - destruct Hd as (ds & -> & [Hc Ev]%canonical_decimal). cbn [decimal_key]. cbn [Z.eqb Pos.eqb].
    rewrite Hc, Ev, (proj2 (Z.ltb_lt _ _)), (proj2 (Z.leb_le _ _)) by lia. cbn [andb]. f_equal. lia.
  - pose proof (decimal_first _ _ Hd) as (Hf & _ & _). apply canonical_decimal in Hd as [Hc Ev].
    destruct s as [|c ds]; [done|]. cbn [decimal_key]. destruct (Z.eqb_spec c 45) as [->|_]; [cbn in Hf; change (char 45) with 45 in Hf; lia|].
    rewrite Hc, Ev, (proj2 (Z.ltb_lt _ _)) by lia. done.
Qed.

Lemma numeric_str_prints key : Forall is_u8 key -> exists r,
  _zend_handle_numeric_str key = Some r /\
  forall idx, r = Some idx <->
    exists n, is_i64 n /\ zend_print_long_to_buf n = Some key /\ idx = u64 n.
Proof.
  intros Hu. destruct (Z.eq_dec (first_char key) 45) as [Hm|Hm].
  - destruct key as [|c ds]; [done|]. apply Forall_cons in Hu as [Hc Hu].
    cbn in Hm. apply char_minus in Hm; [|done]. subst c.
    destruct (numeric_str_minus ds Hu) as (r & E & Hr). exists r. split; [done|]. intros idx. rewrite Hr.
    split; intros (n & Hn & Hd & ->); exists n.
    + split; [unfold is_i64; lia|]. split; [|done]. apply zend_print_long_decimal; [unfold is_i64; lia|].
      unfold decimal_string. rewrite (proj2 (Z.ltb_lt _ _)) by lia. by exists ds.
    + apply zend_print_long_decimal in Hd; [|done]. unfold decimal_string, is_i64 in *.
      destruct (Z.ltb_spec n 0) as [H0|H0].
      * destruct Hd as (ds' & [= <-] & Hd). split; [lia|]. done.
      * apply decimal_first in Hd as ([Hd _] & _). cbn in Hd. change (char 45) with 45 in Hd. lia.
  - destruct (numeric_str_plain key Hu Hm) as (r & E & Hr). exists r. split; [done|]. intros idx. rewrite Hr.
    split; intros (n & Hn & Hd & ->); exists n.
    + split; [unfold is_i64; lia|]. split; [|done]. apply zend_print_long_decimal; [unfold is_i64; lia|].
      unfold decimal_string. by rewrite (proj2 (Z.ltb_ge _ _)) by lia.
    + apply zend_print_long_decimal in Hd; [|done]. unfold decimal_string, is_i64 in *.
      destruct (Z.ltb_spec n 0) as [H0|H0].
      * destruct Hd as (ds' & -> & Hd). done.
      * split; [lia|]. done.
Qed.

(** A string key is taken for an integer exactly when it is what the engine prints for that
    integer: ["-0"], ["007"], ["+5"], [" 5"] and numbers that do not fit stay strings.  The recognition
    always ends within the key. *)
Theorem zend_handle_numeric_str_prints key : Forall is_u8 key -> exists r,
  _zend_handle_numeric_str key = Some r /\
  forall idx, r = Some idx <->
    exists n, is_i64 n /\ zend_print_long_to_buf n = Some key /\ idx = u64 n.
Proof. apply numeric_str_prints. Qed.

Lemma zend_handle_numeric_str_prints_witness : exists r,
  _zend_handle_numeric_str [45; 49; 50] = Some r /\
  forall idx, r = Some idx <->
    exists n, is_i64 n /\ zend_print_long_to_buf n = Some [45; 49; 50] /\ idx = u64 n.
Proof. apply zend_handle_numeric_str_prints. repeat constructor; discriminate. Defined.

Example numeric_keys :
  _zend_handle_numeric_str [45; 49; 50] = Some (Some (2 ^ 64 - 12)) /\
  _zend_handle_numeric_str [48] = Some (Some 0) /\ _zend_handle_numeric_str [45; 48] = Some None /\
  _zend_handle_numeric_str [48; 55] = Some None /\ _zend_handle_numeric_str [] = Some None.
Proof. vm_compute. done. Qed.
