(* ===== verification/ZendSmartStr.v ===== *)
(** * Growable strings ([zend_smart_str.c], [zend_smart_str.h])

    A [smart_str] is an engine string with spare room.  The block is a list of bytes that may be
    uninitialised, and every write is checked against it: [None] is a write outside the block.  Sizes
    are [size_t] and wrap. *)
From S2P Require Import Prelude ZendString ZendLong.

Definition size_t (z : Z) : Z := u64 z.

Definition ZEND_MM_ALIGNED_SIZE_EX (size alignment : Z) : Z :=
  Z.land (size_t (size + (alignment - 1))) (size_t (Z.lnot (alignment - 1))).

Definition _ZSTR_HEADER_SIZE : Z := 24.
Definition ZEND_MM_OVERHEAD : Z := 0.
Definition SMART_STR_OVERHEAD : Z := ZEND_MM_OVERHEAD + _ZSTR_HEADER_SIZE + 1.
Definition SMART_STR_START_SIZE : Z := 256.
Definition SMART_STR_START_LEN : Z := SMART_STR_START_SIZE - SMART_STR_OVERHEAD.
Definition SMART_STR_PAGE : Z := 4096.

Definition SMART_STR_NEW_LEN (len : Z) : Z :=
  size_t (ZEND_MM_ALIGNED_SIZE_EX (size_t (len + SMART_STR_OVERHEAD)) SMART_STR_PAGE - SMART_STR_OVERHEAD).

(** The bytes of a string under construction, the terminating NUL included, and its [ZSTR_LEN]. *)
Record block := { cells : list (option Z); blen : Z }.
Record smart_str := { s : option block; a : Z }.

Definition empty_smart_str : smart_str := {| s := None; a := 0 |}.

Definition fresh_cells (n : Z) : list (option Z) := replicate (Z.to_nat n) None.

(** [erealloc2]: only the first [copy] bytes are kept; [perealloc] keeps them all. *)
Definition recells (old : list (option Z)) (copy n : Z) : list (option Z) :=
  let kept := take (Z.to_nat (Z.min copy n)) old in
  kept ++ replicate (Z.to_nat n - length kept) None.

Definition start_len (len : Z) : Z :=
  if len <=? SMART_STR_START_LEN then SMART_STR_START_LEN else SMART_STR_NEW_LEN len.

Definition smart_str_erealloc (str : smart_str) (len : Z) : smart_str :=
  match s str with
  | None =>
      let a := start_len len in
      {| s := Some {| cells := fresh_cells (a + 1); blen := 0 |}; a := a |}
  | Some b =>
      let a := SMART_STR_NEW_LEN len in
      {| s := Some {| cells := recells (cells b) (blen b) (a + 1); blen := blen b |}; a := a |}
  end.

Definition smart_str_realloc (str : smart_str) (len : Z) : smart_str :=
  match s str with
  | None =>
      let a := start_len len in
      {| s := Some {| cells := fresh_cells (a + 1); blen := 0 |}; a := a |}
  | Some b =>
      let a := SMART_STR_NEW_LEN len in
      {| s := Some {| cells := recells (cells b) (Z.of_nat (length (cells b))) (a + 1); blen := blen b |};
         a := a |}
  end.

(** The new length, and the string with room for it. *)
Definition smart_str_alloc (str : smart_str) (len : Z) (persistent : bool) : Z * smart_str :=
  let realloc len := if persistent then smart_str_realloc str len else smart_str_erealloc str len in
  match s str with
  | None => (len, realloc len)
  | Some b =>
      let len := size_t (len + blen b) in
      (len, if a str <=? len then realloc len else str)
  end.

(** The offset of the room, in place of the pointer. *)
Definition smart_str_extend_ex (dest : smart_str) (len : Z) (persistent : bool) : option (Z * smart_str) :=
  let '(new_len, dest) := smart_str_alloc dest len persistent in
  b ← s dest;
  Some (blen b, {| s := Some {| cells := cells b; blen := new_len |}; a := a dest |}).

Definition smart_str_free_ex (str : smart_str) : smart_str := {| s := None; a := 0 |}.

Definition smart_str_0 (str : smart_str) : option smart_str :=
  match s str with
  | Some b =>
      c ← aset (cells b) (blen b) (Some 0);
      Some {| s := Some {| cells := c; blen := blen b |}; a := a str |}
  | None => Some str
  end.

Definition smart_str_get_len (str : smart_str) : Z := match s str with Some b => blen b | None => 0 end.

(** The bytes of a finished string; [None] when one of them was never written. *)
Definition finished (b : block) : option zend_string :=
  bs ← mapM (fun c => c) (take (Z.to_nat (blen b)) (cells b)); Some (zend_string_init bs).

(** The string and what is left of the [smart_str]: [a] stays as it was. *)
Definition smart_str_extract (str : smart_str) : option (zend_string * smart_str) :=
  str ← smart_str_0 str;
  match s str with
  | Some b => res ← finished b; Some (res, {| s := None; a := a str |})
  | None => Some ({| ZSTR_VAL := []; ZSTR_IS_INTERNED := true |}, str)
  end.

Definition smart_str_appendc_ex (dest : smart_str) (ch : Z) (persistent : bool) : option smart_str :=
  let '(new_len, dest) := smart_str_alloc dest 1 persistent in
  b ← s dest;
  c ← aset (cells b) (size_t (new_len - 1)) (Some ch);
  Some {| s := Some {| cells := c; blen := new_len |}; a := a dest |}.

Definition smart_str_appendl_ex (dest : smart_str) (str : list Z) (persistent : bool) : option smart_str :=
  let '(new_len, dest) := smart_str_alloc dest (Z.of_nat (length str)) persistent in
  b ← s dest;
  c ← copy_to (cells b) (blen b) str;
  Some {| s := Some {| cells := c; blen := new_len |}; a := a dest |}.

Definition smart_str_append_ex (dest : smart_str) (src : zend_string) (persistent : bool) : option smart_str :=
  smart_str_appendl_ex dest (ZSTR_VAL src) persistent.

Definition smart_str_append_smart_str_ex (dest src : smart_str) (persistent : bool) : option smart_str :=
  match s src with
  | Some b =>
      if blen b =? 0 then Some dest
      else str ← finished b; smart_str_append_ex dest str persistent
  | None => Some dest
  end.

Definition smart_str_append_long_ex (dest : smart_str) (num : Z) (persistent : bool) : option smart_str :=
  result ← zend_print_long_to_buf num; smart_str_appendl_ex dest result persistent.

Definition smart_str_append_unsigned_ex (dest : smart_str) (num : Z) (persistent : bool) : option smart_str :=
  result ← zend_print_ulong_to_buf num; smart_str_appendl_ex dest result persistent.

Definition smart_str_setl (dest : smart_str) (src : list Z) : option smart_str :=
  smart_str_appendl_ex (smart_str_free_ex dest) src false.

(** ** Escaping *)
Definition VK_ESCAPE : Z := 27.

(** The characters with a letter of their own; [c] is a [char]. *)
Definition short_escape (c : Z) : bool :=
  (c =? 10) || (c =? 13) || (c =? 9) || (c =? 12) || (c =? 11) || (c =? 92) || (c =? VK_ESCAPE).

Fixpoint escaped_len_loop (src : list Z) (len : Z) : Z :=
  match src with
  | [] => len
  | c :: src =>
      let c := char c in
      escaped_len_loop src
        (if short_escape c then size_t (len + 1) else if (c <? 32) || (126 <? c) then size_t (len + 3) else len)
  end.

Definition zend_compute_escaped_string_len (src : list Z) : Z :=
  escaped_len_loop src (Z.of_nat (length src)).

Definition hex_digit (d : Z) : Z := if d <? 10 then d + 48 else d + 65 - 10.

(** What the loop body writes for [c], an [unsigned char]. *)
Definition escape_char (c : Z) : list Z :=
  if (c <? 32) || (c =? 92) || (126 <? c) then
    92 ::
    (if c =? 10 then [110] else if c =? 13 then [114] else if c =? 9 then [116]
     else if c =? 12 then [102] else if c =? 11 then [118] else if c =? 92 then [92]
     else if c =? VK_ESCAPE then [101]
     else [120; hex_digit (Z.shiftr c 4); hex_digit (Z.land c 15)])
  else [c].

(** [*res++ = ...] from offset [res] on. *)
Fixpoint escape_loop (out : list (option Z)) (res : Z) (src : list Z) : option (list (option Z)) :=
  match src with
  | [] => Some out
  | c :: src =>
      let w := escape_char c in
      out ← copy_to out res w; escape_loop out (res + Z.of_nat (length w)) src
  end.

Definition smart_str_append_escaped (str : smart_str) (src : list Z) : option smart_str :=
  let len := zend_compute_escaped_string_len src in
  let '(_, str) := smart_str_alloc str len false in
  b ← s str;
  c ← escape_loop (cells b) (blen b) src;
  Some {| s := Some {| cells := c; blen := size_t (blen b + len) |}; a := a str |}.

Example append_escaped_ex :
  (str ← smart_str_append_escaped empty_smart_str [97; 10; 200; 92]; r ← smart_str_extract str; Some r.1)
  = Some (zend_string_init [97; 92; 110; 92; 120; 67; 56; 92; 92]).
Proof. vm_compute. done. Qed.

(** ** Blocks *)
Lemma escape_loop_ok src : forall out res, 0 <= res ->
  res + Z.of_nat (length (concat (escape_char <$> src))) <= Z.of_nat (length out) ->
  exists c, escape_loop out res src = Some c /\ length c = length out /\
    take (Z.to_nat (res + Z.of_nat (length (concat (escape_char <$> src))))) c
    = take (Z.to_nat res) out ++ (Some <$> concat (escape_char <$> src)).
Proof.
  induction src as [|x src IH]; intros out res H0 Hl; cbn [fmap list_fmap concat escape_loop] in *.
  - exists out. split; [done|]. split; [done|]. by rewrite Z.add_0_r, app_nil_r.
  - rewrite length_app, Nat2Z.inj_add in Hl.
    destruct (copy_to_ok out res (escape_char x) H0 ltac:(lia)) as (c & -> & Hc & Ht). cbn [mbind option_bind].
    destruct (IH c (res + Z.of_nat (length (escape_char x))) ltac:(lia) ltac:(lia)) as (c' & -> & Hc' & Ht').
    exists c'. split; [done|]. split; [lia|].
    rewrite length_app, Nat2Z.inj_add, Z.add_assoc, Ht', Ht, fmap_app. by rewrite app_assoc.
Qed.

(** ** Capacity *)
Lemma aligned_page x : 0 <= x < 2 ^ 63 ->
  ZEND_MM_ALIGNED_SIZE_EX x SMART_STR_PAGE = x + 4095 - (x + 4095) mod 4096.
Proof.
  intros Hx. unfold ZEND_MM_ALIGNED_SIZE_EX, SMART_STR_PAGE, size_t, u64.
  change (4096 - 1) with 4095. rewrite (uwrap_small 64 (x + 4095)) by lia.
  change (uwrap 64 (Z.lnot 4095)) with (Z.land (Z.ones 64) (Z.lnot (Z.ones 12))).
  rewrite Z.land_assoc, Z.land_ones, (Z.mod_small _ (2 ^ 64)) by lia.
  change (Z.land (x + 4095) (Z.lnot (Z.ones 12))) with (Z.land (x + 4095) (Z.lnot (Z.ones 12))).
  rewrite <- Z.ldiff_land, Z.ldiff_ones_r, Z.shiftr_div_pow2, Z.shiftl_mul_pow2 by lia.
  change (2 ^ 12) with 4096. pose proof (Z.div_mod (x + 4095) 4096). lia.
Qed.

Lemma new_len_bounds len : 0 <= len < 2 ^ 62 -> len <= SMART_STR_NEW_LEN len <= len + 4095.
Proof.
  intros Hl. unfold SMART_STR_NEW_LEN. change SMART_STR_OVERHEAD with 25. unfold size_t, u64.
  rewrite (uwrap_small 64 (len + 25)), aligned_page by lia.
  pose proof (Z.mod_pos_bound (len + 25 + 4095) 4096 ltac:(lia)). rewrite uwrap_small; lia.
Qed.

Lemma start_len_bounds len : 0 <= len < 2 ^ 62 -> len <= start_len len <= Z.max 231 (len + 4095).
Proof.
  intros Hl. unfold start_len. pose proof (new_len_bounds len Hl).
  change SMART_STR_START_LEN with 231. destruct (Z.leb_spec len 231); lia.
Qed.

(** ** The invariant *)
Definition content (str : smart_str) : list (option Z) :=
  match s str with Some b => take (Z.to_nat (blen b)) (cells b) | None => [] end.

(** The block has room for [a] bytes and the terminator, and less than a page more than it needs. *)
Definition ok (str : smart_str) : Prop :=
  match s str with
  | Some b => Z.of_nat (length (cells b)) = a str + 1 /\ 0 <= blen b <= a str /\
              a str <= Z.max 231 (blen b + 4095)
  | None => True
  end.

(** A string under construction that holds the bytes [bs]. *)
Definition holds (str : smart_str) (bs : list Z) : Prop :=
  ok str /\ content str = Some <$> bs /\ smart_str_get_len str = Z.of_nat (length bs).

Definition has_room (str : smart_str) (b : block) (n : Z) (bs : list Z) : Prop :=
  s str = Some b /\ blen b = Z.of_nat (length bs) /\ take (length bs) (cells b) = Some <$> bs /\
  Z.of_nat (length (cells b)) = a str + 1 /\ n <= a str /\ a str <= Z.max 231 (n + 4095).

Lemma recells_ok old copy n k : 0 <= k <= Z.min copy n -> k <= Z.of_nat (length old) ->
  length (recells old copy n) = Z.to_nat n /\ take (Z.to_nat k) (recells old copy n) = take (Z.to_nat k) old.
Proof.
  intros Hk Hl. unfold recells. split.
  - rewrite length_app, length_replicate, length_take. lia.
  - rewrite take_app_le by (rewrite length_take; lia). rewrite take_take. f_equal. lia.
Qed.

Lemma smart_str_alloc_ok str len bs p : holds str bs -> 0 <= len -> Z.of_nat (length bs) + len < 2 ^ 62 ->
  exists str' b, smart_str_alloc str len p = (Z.of_nat (length bs) + len, str') /\
    has_room str' b (Z.of_nat (length bs) + len) bs.
Proof.
  intros (Hok & Hc & Hg) Hlen Hb. unfold smart_str_alloc, smart_str_get_len, ok, content in *.
  destruct (s str) as [b|] eqn:Es.
  - destruct Hok as (Hcells & Hbl & Hcap). unfold size_t, u64.
    rewrite (uwrap_small 64 (len + blen b)) by lia.
    replace (len + blen b) with (Z.of_nat (length bs) + len) by lia. rewrite Hg, Nat2Z.id in Hc.
    destruct (Z.leb_spec (a str) (Z.of_nat (length bs) + len)) as [Hle|Hlt].
    + pose proof (new_len_bounds (Z.of_nat (length bs) + len) ltac:(lia)) as Hn.
      destruct p; eexists _, _; (split; [reflexivity|]); unfold has_room, smart_str_realloc, smart_str_erealloc;
        rewrite Es; (split; [done|]); cbn [s a cells blen]; (split; [done|]).
      * destruct (recells_ok (cells b) (Z.of_nat (length (cells b))) (SMART_STR_NEW_LEN (Z.of_nat (length bs) + len) + 1)
          (Z.of_nat (length bs)) ltac:(lia) ltac:(lia)) as [-> Ht]. rewrite Nat2Z.id in Ht. rewrite Ht.
        split; [done|lia].
      * rewrite Hg; destruct (recells_ok (cells b) (Z.of_nat (length bs)) (SMART_STR_NEW_LEN (Z.of_nat (length bs) + len) + 1)
          (Z.of_nat (length bs)) ltac:(lia) ltac:(lia)) as [-> Ht]. rewrite Nat2Z.id in Ht. rewrite Ht.
        split; [done|lia].
    + eexists _, _. split; [done|]. repeat (split; [done|]). lia.
  - assert (bs = []) as -> by (destruct bs; [done|cbn in Hg; lia]). cbn [length] in *.
    pose proof (start_len_bounds len ltac:(lia)) as Hs.
    destruct p; eexists _, _; (split; [reflexivity|]); unfold has_room, smart_str_realloc, smart_str_erealloc;
      rewrite Es; (split; [done|]); cbn [s a cells blen]; (split; [done|]); (split; [done|]);
      unfold fresh_cells; rewrite length_replicate; lia.
Qed.

(** Storing [xs] behind the bytes there are. *)
Lemma stored_holds str b n bs xs c : has_room str b n bs -> n = Z.of_nat (length bs) + Z.of_nat (length xs) ->
  length c = length (cells b) -> take (Z.to_nat n) c = (Some <$> bs) ++ (Some <$> xs) ->
  holds {| s := Some {| cells := c; blen := n |}; a := a str |} (bs ++ xs).
Proof.
  intros (Es & Hb & Ht & Hc & Hn & Hcap) -> Hl Hstored. unfold holds, ok, content, smart_str_get_len.
  cbn [s a cells blen]. rewrite Hl, length_app, fmap_app. split; [lia|]. split; [done|lia].
Qed.

Lemma appendl_holds str src bs p : holds str bs -> Z.of_nat (length (bs ++ src)) < 2 ^ 62 ->
  exists str', smart_str_appendl_ex str src p = Some str' /\ holds str' (bs ++ src).
Proof.
  intros Hh Hb. rewrite length_app in Hb.
  destruct (smart_str_alloc_ok str (Z.of_nat (length src)) bs p Hh ltac:(lia) ltac:(lia)) as (str' & b & E & Hr).
  unfold smart_str_appendl_ex. rewrite E. pose proof Hr as (Es & Hbl & Ht & Hc & Hn & _).
  rewrite Es. cbn [mbind option_bind]. rewrite Hbl.
  destruct (copy_to_ok (cells b) (Z.of_nat (length bs)) src ltac:(lia) ltac:(lia)) as (c & -> & Hlc & Htc).
  cbn [mbind option_bind]. eexists. split; [done|]. rewrite Nat2Z.id, Ht in Htc.
  by eapply stored_holds.
Qed.

Lemma appendc_holds str ch bs p : holds str bs -> Z.of_nat (length (bs ++ [ch])) < 2 ^ 62 ->
  exists str', smart_str_appendc_ex str ch p = Some str' /\ holds str' (bs ++ [ch]).
Proof.
  intros Hh Hb. rewrite length_app in Hb. cbn [length] in Hb.
  destruct (smart_str_alloc_ok str 1 bs p Hh ltac:(lia) ltac:(lia)) as (str' & b & E & Hr).
  unfold smart_str_appendc_ex. rewrite E. pose proof Hr as (Es & Hbl & Ht & Hc & Hn & _).
  rewrite Es. cbn [mbind option_bind]. unfold size_t, u64.
  rewrite uwrap_small, Z.add_simpl_r, aset_copy_to by lia.
  destruct (copy_to_ok (cells b) (Z.of_nat (length bs)) [ch] ltac:(lia) ltac:(cbn; lia)) as (c & -> & Hlc & Htc).
  cbn [mbind option_bind]. eexists. split; [done|]. rewrite Nat2Z.id, Ht in Htc.
  by eapply (stored_holds str' b _ bs [ch]).
Qed.

(** ** Escaping writes what it reserved *)
Lemma length_escape_char c : is_u8 c -> Z.of_nat (length (escape_char c)) =
  if short_escape (char c) then 2 else if (char c <? 32) || (126 <? char c) then 4 else 1.
Proof.
  intros Hc. apply Z.eqb_eq. revert Hc. apply (byte_check (fun c => Z.of_nat (length (escape_char c)) =?
    (if short_escape (char c) then 2 else if (char c <? 32) || (126 <? char c) then 4 else 1))).
  by vm_compute.
Qed.

Lemma escaped_len_loop_spec src : forall len, Forall is_u8 src -> 0 <= len ->
  len + 4 * Z.of_nat (length src) < 2 ^ 64 ->
  escaped_len_loop src len
  = len + Z.of_nat (length (concat (escape_char <$> src))) - Z.of_nat (length src).
Proof.
  induction src as [|c src IH]; intros len Hu H0 Hb; cbn [escaped_len_loop fmap list_fmap concat length]; [lia|].
  apply Forall_cons in Hu as [Hc Hu]. cbn [length] in Hb.
  rewrite length_app, Nat2Z.inj_add, (length_escape_char c Hc). unfold size_t, u64.
  rewrite !(uwrap_small 64 (len + _)) by lia.
  destruct (short_escape (char c)); [|destruct ((char c <? 32) || (126 <? char c))]; rewrite IH by (done || lia); lia.
Qed.

Lemma escaped_len src : Forall is_u8 src -> Z.of_nat (length src) < 2 ^ 60 ->
  zend_compute_escaped_string_len src = Z.of_nat (length (concat (escape_char <$> src))).
Proof. intros Hu Hb. unfold zend_compute_escaped_string_len. rewrite escaped_len_loop_spec; [lia|done|lia|lia]. Qed.

Lemma escape_char_not_empty c : (0 < length (escape_char c))%nat.
Proof. unfold escape_char. case_match; cbn; lia. Qed.

Lemma length_concat_escape src : (length src <= length (concat (escape_char <$> src)))%nat.
Proof.
  induction src as [|c src IH]; cbn; [lia|]. rewrite length_app. pose proof (escape_char_not_empty c). lia.
Qed.

Lemma append_escaped_holds str src bs : holds str bs -> Forall is_u8 src ->
  Z.of_nat (length src) < 2 ^ 60 -> Z.of_nat (length (bs ++ concat (escape_char <$> src))) < 2 ^ 62 ->
  exists str', smart_str_append_escaped str src = Some str' /\ holds str' (bs ++ concat (escape_char <$> src)).
Proof.
  intros Hh Hu Hl Hb. rewrite length_app, Nat2Z.inj_add in Hb. unfold smart_str_append_escaped. rewrite (escaped_len src Hu Hl).
  destruct (smart_str_alloc_ok str (Z.of_nat (length (concat (escape_char <$> src)))) bs false Hh (Nat2Z.is_nonneg _) Hb)
    as (str' & b & -> & Hr). pose proof Hr as (Es & Hbl & Ht & Hc & Hn & _).
  rewrite Es. cbn [mbind option_bind]. rewrite Hbl.
  destruct (escape_loop_ok src (cells b) (Z.of_nat (length bs)) ltac:(lia) ltac:(lia)) as (c & -> & Hlc & Htc).
  cbn [mbind option_bind]. unfold size_t, u64. rewrite uwrap_small by lia.
  eexists. split; [done|]. rewrite Nat2Z.id, Ht in Htc. by eapply stored_holds.
Qed.

(** ** Building a string *)
Inductive append :=
  | AppendC (ch : Z) | AppendL (str : list Z) | AppendStr (src : zend_string) | AppendLong (num : Z)
  | AppendUnsigned (num : Z) | AppendEscaped (src : list Z) | AppendSmartStr (src : smart_str) (bs : list Z).

Definition append_one (p : bool) (dest : smart_str) (op : append) : option smart_str :=
  match op with
  | AppendC ch => smart_str_appendc_ex dest ch p
  | AppendL str => smart_str_appendl_ex dest str p
  | AppendStr src => smart_str_append_ex dest src p
  | AppendLong num => smart_str_append_long_ex dest num p
  | AppendUnsigned num => smart_str_append_unsigned_ex dest num p
  | AppendEscaped src => smart_str_append_escaped dest src
  | AppendSmartStr src _ => smart_str_append_smart_str_ex dest src p
  end.

Fixpoint append_all (p : bool) (dest : smart_str) (ops : list append) : option smart_str :=
  match ops with
  | [] => Some dest
  | op :: ops => dest ← append_one p dest op; append_all p dest ops
  end.

(** What an operation appends. *)
Definition appends (op : append) (bs : list Z) : Prop :=
  match op with
  | AppendC ch => bs = [ch]
  | AppendL str => bs = str
  | AppendStr src => bs = ZSTR_VAL src
  | AppendLong num => is_i64 num /\ decimal_string num bs
  | AppendUnsigned num => is_u64 num /\ decimal num bs
  | AppendEscaped src => Forall is_u8 src /\ Z.of_nat (length src) < 2 ^ 60 /\ bs = concat (escape_char <$> src)
  | AppendSmartStr src bs' => holds src bs' /\ bs = bs'
  end.

Lemma mapM_known (bs : list Z) : mapM (fun c => c) (Some <$> bs) = Some bs.
Proof. induction bs as [|b bs IH]; cbn; [done|]. by rewrite IH. Qed.

Lemma finished_holds (str : smart_str) b bs : s str = Some b -> holds str bs -> finished b = Some (zend_string_init bs).
Proof.
  intros Es (_ & Hc & _). unfold content in Hc. rewrite Es in Hc. unfold finished. rewrite Hc.
  by rewrite mapM_known.
Qed.

Lemma append_one_holds p dest op bs xs : holds dest bs -> appends op xs ->
  Z.of_nat (length (bs ++ xs)) < 2 ^ 62 ->
  exists dest', append_one p dest op = Some dest' /\ holds dest' (bs ++ xs).
Proof.
  intros Hh Hop Hb. destruct op as [ch|str|src|num|num|src|src bs']; cbn [append_one appends] in *.
  - subst xs. by apply appendc_holds.
  - subst xs. by apply appendl_holds.
  - subst xs. by apply appendl_holds.
  - destruct Hop as [Hn Hd]. unfold smart_str_append_long_ex.
    apply zend_print_long_decimal in Hd as ->; [|done]. by apply appendl_holds.
  - destruct Hop as [Hn Hd]. unfold smart_str_append_unsigned_ex.
    destruct (zend_print_ulong_decimal num Hn) as (ds & -> & Hd').
    rewrite (decimal_unique _ _ _ Hd Hd') in *. by apply appendl_holds.
  - destruct Hop as (Hu & Hl & ->). by apply append_escaped_holds.
  - destruct Hop as [Hs ->]. unfold smart_str_append_smart_str_ex.
    pose proof Hs as (_ & Hc & Hg). unfold content, smart_str_get_len in *. destruct (s src) as [b|] eqn:Es.
    + destruct (Z.eqb_spec (blen b) 0) as [E|E].
      * assert (bs' = []) as -> by (destruct bs'; [done|cbn in Hg; lia]). rewrite app_nil_r. by exists dest.
      * rewrite (finished_holds src b bs' Es Hs). cbn [mbind option_bind]. by apply appendl_holds.
    + assert (bs' = []) as -> by (destruct bs'; [done|cbn in Hg; lia]). rewrite app_nil_r. by exists dest.
Qed.

Lemma extract_holds str bs : holds str bs -> exists res rest,
  smart_str_extract str = Some (res, rest) /\ ZSTR_VAL res = bs /\ holds rest [].
Proof.
  intros Hh. pose proof Hh as (Hok & Hc & Hg). unfold smart_str_extract, smart_str_0.
  unfold ok, content, smart_str_get_len in *. destruct (s str) as [b|] eqn:Es.
  - destruct Hok as (Hl & Hb & Hcap). rewrite aset_copy_to by lia.
    destruct (copy_to_ok (cells b) (blen b) [0] ltac:(lia) ltac:(cbn; lia)) as (c & -> & Hlc & Ht).
    cbn [mbind option_bind s]. unfold finished. cbn [blen cells].
    assert (take (Z.to_nat (blen b)) c = Some <$> bs) as ->.
    { rewrite <- Hc. transitivity (take (Z.to_nat (blen b)) (take (Z.to_nat (blen b + Z.of_nat (length [0]))) c)).
      - rewrite take_take. f_equal. cbn. lia.
      - rewrite Ht. rewrite take_app_le by (rewrite length_take; lia). rewrite take_take. f_equal. lia. }
    rewrite mapM_known. by eexists _, _.
  - assert (bs = []) as -> by (destruct bs; [done|cbn in Hg; lia]). cbn [mbind option_bind].
    rewrite Es. eexists _, _. split; [done|]. split; [done|]. unfold holds, ok, content, smart_str_get_len.
    by rewrite Es.
Qed.

(** C15: any sequence of appends to a [smart_str] — characters, strings, printed integers, escaped text,
    other [smart_str]s — builds the concatenation of what they append, every write staying inside the
    block, for up to 2^62 bytes; the block never has a page or more to spare (231 bytes when small), and
    extracting gives the string and leaves an empty [smart_str]. *)
Theorem smart_str_builds p dest bs ops xss : holds dest bs -> Forall2 appends ops xss ->
  Z.of_nat (length (bs ++ concat xss)) < 2 ^ 62 ->
  exists dest', append_all p dest ops = Some dest' /\ holds dest' (bs ++ concat xss) /\
    exists res rest, smart_str_extract dest' = Some (res, rest) /\ ZSTR_VAL res = bs ++ concat xss /\
      holds rest [].
Proof.
  intros Hh Hops. revert dest bs Hh. induction Hops as [|op xs ops xss Hop Hops IH]; intros dest bs Hh Hb.
  - cbn [concat] in *. rewrite app_nil_r in *. exists dest. split; [done|]. split; [done|].
    by apply extract_holds.
  - cbn [concat append_all] in *. rewrite app_assoc in Hb.
    destruct (append_one_holds p dest op bs xs Hh Hop) as (dest' & -> & Hh').
    { rewrite length_app in Hb. lia. }
    cbn [mbind option_bind]. rewrite app_assoc. by apply IH.
Qed.

Lemma smart_str_builds_witness :
  exists dest', append_all false empty_smart_str [AppendC 61; AppendLong (-7); AppendEscaped [10; 200]] = Some dest' /\
    holds dest' [61; 45; 55; 92; 110; 92; 120; 67; 56] /\
    exists res rest, smart_str_extract dest' = Some (res, rest) /\
      ZSTR_VAL res = [61; 45; 55; 92; 110; 92; 120; 67; 56] /\ holds rest [].
Proof.
  apply (smart_str_builds false empty_smart_str []
    [AppendC 61; AppendLong (-7); AppendEscaped [10; 200]]
    [[61]; [45; 55]; [92; 110; 92; 120; 67; 56]]).
  - repeat split.
  - constructor; [reflexivity|]. constructor.
    + split; [unfold is_i64; lia|]. exists [55]. split; [reflexivity|]. split; [|split; [reflexivity|discriminate]].
      repeat constructor; discriminate.
    + constructor; [|constructor]. split; [repeat constructor; discriminate|]. split; reflexivity.
  - reflexivity.
Defined.
