(* ===== verification/OrderedMap.v ===== *)
(** * Ordered maps: the specification of the engine's hash table

    A PHP array is an ordered map: an association list with distinct keys, in insertion order.
    Updating a key keeps its position, a new key goes to the end. *)
From S2P Require Import Prelude.

Section OrderedMap.
Context {K A : Type} `{EqDecision K}.
Implicit Types (m : list (K * A)) (k : K) (x : A).

Fixpoint om_lookup k m : option A :=
  match m with
  | [] => None
  | (k', x) :: m => if decide (k = k') then Some x else om_lookup k m
  end.

Fixpoint om_insert k x m : list (K * A) :=
  match m with
  | [] => [(k, x)]
  | (k', x') :: m => if decide (k = k') then (k, x) :: m else (k', x') :: om_insert k x m
  end.

Fixpoint om_delete k m : list (K * A) :=
  match m with
  | [] => []
  | (k', x') :: m => if decide (k = k') then m else (k', x') :: om_delete k m
  end.

Lemma om_lookup_None k m : om_lookup k m = None <-> k ∉ m.*1.
Proof.
  induction m as [|[k' x'] m IH]; cbn.
  - split; [|done]. intros _ H. by apply elem_of_nil in H.
  - rewrite not_elem_of_cons. destruct (decide (k = k')); [naive_solver|]. naive_solver.
Qed.

Lemma om_lookup_middle k x m1 m2 : k ∉ m1.*1 -> om_lookup k (m1 ++ (k, x) :: m2) = Some x.
Proof.
  induction m1 as [|[k' x'] m1 IH]; cbn.
  - intros _. by rewrite decide_True.
  - rewrite not_elem_of_cons. intros [Hne Hm]. rewrite decide_False by done. by apply IH.
Qed.

Lemma om_insert_middle k x0 x m1 m2 :
  k ∉ m1.*1 -> om_insert k x (m1 ++ (k, x0) :: m2) = m1 ++ (k, x) :: m2.
Proof.
  induction m1 as [|[k' x'] m1 IH]; cbn.
  - intros _. by rewrite decide_True.
  - rewrite not_elem_of_cons. intros [Hne Hm]. rewrite decide_False by done. by rewrite IH.
Qed.

Lemma om_insert_new k x m : k ∉ m.*1 -> om_insert k x m = m ++ [(k, x)].
Proof.
  induction m as [|[k' x'] m IH]; cbn; [done|].
  rewrite not_elem_of_cons. intros [Hne Hm]. rewrite decide_False by done. by rewrite IH.
Qed.

Lemma om_delete_middle k x m1 m2 : k ∉ m1.*1 -> om_delete k (m1 ++ (k, x) :: m2) = m1 ++ m2.
Proof.
  induction m1 as [|[k' x'] m1 IH]; cbn.
  - intros _. by rewrite decide_True.
  - rewrite not_elem_of_cons. intros [Hne Hm]. rewrite decide_False by done. by rewrite IH.
Qed.

Lemma om_delete_new k m : k ∉ m.*1 -> om_delete k m = m.
Proof.
  induction m as [|[k' x'] m IH]; cbn; [done|].
  rewrite not_elem_of_cons. intros [Hne Hm]. rewrite decide_False by done. by rewrite IH.
Qed.

Lemma om_lookup_insert k x m : om_lookup k (om_insert k x m) = Some x.
Proof.
  induction m as [|[k' x'] m IH]; cbn; [by rewrite decide_True|].
  destruct (decide (k = k')) as [<-|Hne]; cbn; [by rewrite decide_True|]. by rewrite decide_False.
Qed.

Lemma om_lookup_insert_ne k k' x m : k <> k' -> om_lookup k (om_insert k' x m) = om_lookup k m.
Proof.
  intros Hk. induction m as [|[k0 x0] m IH]; cbn; [by rewrite decide_False|].
  destruct (decide (k' = k0)) as [<-|Hne]; cbn; [by rewrite !decide_False|]. by rewrite IH.
Qed.

Lemma elem_of_keys_insert k k' x m : k' ∈ (om_insert k x m).*1 <-> k' = k \/ k' ∈ m.*1.
Proof.
  induction m as [|[k0 x0] m IH]; cbn.
  - rewrite list_elem_of_singleton, elem_of_nil. tauto.
  - destruct (decide (k = k0)) as [<-|Hne]; cbn; rewrite !elem_of_cons; [tauto|]. rewrite IH. tauto.
Qed.

Lemma NoDup_keys_insert k x m : NoDup m.*1 -> NoDup (om_insert k x m).*1.
Proof.
  induction m as [|[k0 x0] m IH]; cbn.
  - intros _. apply NoDup_singleton.
  - destruct (decide (k = k0)) as [<-|Hne]; [done|]. cbn. rewrite !NoDup_cons, elem_of_keys_insert.
    naive_solver.
Qed.

Lemma om_delete_keys_sub k k' m : k' ∈ (om_delete k m).*1 -> k' ∈ m.*1.
Proof.
  induction m as [|[k0 x0] m IH]; cbn; [done|].
  destruct (decide (k = k0)); cbn; rewrite !elem_of_cons; [tauto|]. tauto.
Qed.

Lemma NoDup_keys_delete k m : NoDup m.*1 -> NoDup (om_delete k m).*1.
Proof.
  induction m as [|[k0 x0] m IH]; cbn; [done|]. rewrite NoDup_cons. intros [H0 Hm].
  destruct (decide (k = k0)); [done|]. cbn. rewrite NoDup_cons. split; [|by apply IH].
  by intros ?%om_delete_keys_sub.
Qed.

Lemma om_lookup_delete k m : NoDup m.*1 -> om_lookup k (om_delete k m) = None.
Proof.
  induction m as [|[k0 x0] m IH]; cbn; [done|]. rewrite NoDup_cons. intros [H0 Hm].
  destruct (decide (k = k0)) as [<-|Hne]; [by apply om_lookup_None|]. cbn.
  rewrite decide_False by done. by apply IH.
Qed.

Lemma om_lookup_delete_ne k k' m : k <> k' -> om_lookup k (om_delete k' m) = om_lookup k m.
Proof.
  intros Hk. induction m as [|[k0 x0] m IH]; cbn; [done|].
  destruct (decide (k' = k0)) as [<-|Hne]; cbn; [by rewrite decide_False|]. by rewrite IH.
Qed.

Lemma om_insert_length k x m :
  length (om_insert k x m)
  = (length m + match om_lookup k m with Some _ => 0 | None => 1 end)%nat.
Proof.
  induction m as [|[k0 x0] m IH]; cbn; [done|].
  destruct (decide (k = k0)); cbn; [lia|]. rewrite IH. lia.
Qed.
End OrderedMap.
