(* ===== verification/ZendHash.v ===== *)
(** * The engine's hash table ([zend_hash.c], [zend_hash.h], [zend_types.h]): the model

    A [HashTable] is one block of memory: an array of 32-bit chain heads and an array of buckets, the
    first [nNumUsed] of which are in use.  Three layouts share the type: uninitialised (no block),
    packed (bucket [i] holds the integer key [i], the chain heads are empty) and mixed (every live
    bucket is on the chain of its hash).  Deleting leaves an [IS_UNDEF] tombstone that a later rehash
    compacts.

    Memory is explicit: a bucket the code never wrote is [None], and reading it, or anything outside
    the block, makes the operation [None].  Pointers to [zval]s are [zref]s.  What the operations
    change outside the table (the variables [IS_INDIRECT] elements point to, the iterators attached to
    tables and the calls made to [pDestructor]) is in [executor_globals].  Reference counts and
    the allocator are not modelled.  ZEND_DEBUG is 0. *)
From S2P Require Import Prelude ZendString.

Section Model.
Context {V : Type}.

Inductive zval := IS_UNDEF | IS_INDIRECT (slot : Z) | IS_VAL (v : V).

Record Bucket := { val : zval; Z_NEXT : Z; h : Z; key : option zend_string }.

Record HashTable := {
  addr : Z;                      (* the address of the table: its identity *)
  IS_ARRAY_PERSISTENT : bool;
  HASH_FLAG_PACKED : bool;
  HASH_FLAG_UNINITIALIZED : bool;
  HASH_FLAG_STATIC_KEYS : bool;
  HASH_FLAG_HAS_EMPTY_IND : bool;
  nIteratorsCount : Z;
  nTableMask : Z;
  arHash : list Z;               (* the chain heads, at negative indices from arData in the code *)
  arData : list (option Bucket);
  nNumUsed : Z;
  nNumOfElements : Z;
  nTableSize : Z;
  nInternalPointer : Z;
  nNextFreeElement : Z;
  pDestructor : bool }.

Record HashTableIterator := { iter_ht : Z; iter_pos : Z }.

Record executor_globals := {
  ht_iterators : list HashTableIterator;
  ht_iterators_used : Z;
  slots : gmap Z zval;           (* variables that IS_INDIRECT elements point to *)
  destroyed : list zval }.       (* calls to pDestructor, in order *)

(** A pointer to a [zval]: that of a bucket, or a variable. *)
Inductive zref := ZBUCKET (idx : Z) | ZSLOT (slot : Z).

Definition Z_ISUNDEF (z : zval) : bool := match z with IS_UNDEF => true | _ => false end.

(** ** Sizes and addresses ([zend_types.h]) *)
Definition HT_INVALID_IDX : Z := 2 ^ 32 - 1.
Definition HT_MIN_MASK : Z := 2 ^ 32 - 2.
Definition HT_MIN_SIZE : Z := 8.
Definition HT_MAX_SIZE : Z := 0x80000000.
Definition HT_SIZE_TO_MASK (nTableSize : Z) : Z := u32 (- (nTableSize + nTableSize)).
(** The number of chain heads of a mask. *)
Definition HT_HASH_SIZE (nTableMask : Z) : Z := u32 (- i32 nTableMask).

(** The 32-bit word at the signed index [(int32_t)idx] from [data], which points just after the
    chain heads. *)
Definition HT_HASH_EX (hs : list Z) (idx : Z) : option Z :=
  aget hs (Z.of_nat (length hs) + i32 idx).
Definition set_HASH_EX (hs : list Z) (idx x : Z) : option (list Z) :=
  aset hs (Z.of_nat (length hs) + i32 idx) x.

(** [h | nTableMask], truncated to the [uint32_t nIndex]. *)
Definition nIndex (hash mask : Z) : Z := u32 (Z.lor hash mask).

(** A bucket the code reads; [None] outside the block or before it was written. *)
Definition bucket (ar : list (option Bucket)) (idx : Z) : option Bucket := c ← aget ar idx; c.
Definition set_bucket (ar : list (option Bucket)) (idx : Z) (b : Bucket) :
  option (list (option Bucket)) := aset ar idx (Some b).

(** A fresh block: the hash part reset or not, no bucket written. *)
Definition reset_heads (mask : Z) : list Z :=
  replicate (Z.to_nat (HT_HASH_SIZE mask)) HT_INVALID_IDX.
Definition fresh_buckets (nSize : Z) : list (option Bucket) := replicate (Z.to_nat nSize) None.

(** [memcpy(ht->arData, old_buckets, sizeof(Bucket) * n)] into a fresh block of [nSize] buckets. *)
Definition copy_buckets (ar : list (option Bucket)) (n nSize : Z) : list (option Bucket) :=
  take (Z.to_nat n) ar ++ fresh_buckets (nSize - n).

Definition HT_IS_WITHOUT_HOLES (ht : HashTable) : bool := nNumUsed ht =? nNumOfElements ht.
Definition HT_HAS_STATIC_KEYS_ONLY (ht : HashTable) : bool :=
  HASH_FLAG_PACKED ht || HASH_FLAG_STATIC_KEYS ht.
Definition HT_HAS_ITERATORS (ht : HashTable) : bool := negb (nIteratorsCount ht =? 0).
Definition HT_ITERATORS_OVERFLOW (ht : HashTable) : bool := nIteratorsCount ht =? 0xff.

(** ** Initialisation *)

(** [None] is the fatal error of a table that would be too big. *)
Definition zend_hash_check_size (nSize : Z) : option Z :=
  if nSize <=? HT_MIN_SIZE then Some HT_MIN_SIZE
  else if HT_MAX_SIZE <=? nSize then None
  else
    let nSize := nSize - 1 in
    let nSize := Z.lor nSize (Z.shiftr nSize 1) in
    let nSize := Z.lor nSize (Z.shiftr nSize 2) in
    let nSize := Z.lor nSize (Z.shiftr nSize 4) in
    let nSize := Z.lor nSize (Z.shiftr nSize 8) in
    let nSize := Z.lor nSize (Z.shiftr nSize 16) in
    Some (nSize + 1).

Definition _zend_hash_init (self nSize : Z) (dtor persistent : bool) : option HashTable :=
  size ← zend_hash_check_size nSize;
  Some {| addr := self; IS_ARRAY_PERSISTENT := persistent; HASH_FLAG_PACKED := false; HASH_FLAG_UNINITIALIZED := true;
          HASH_FLAG_STATIC_KEYS := false; HASH_FLAG_HAS_EMPTY_IND := false; nIteratorsCount := 0;
          nTableMask := HT_MIN_MASK; arHash := [HT_INVALID_IDX; HT_INVALID_IDX]; arData := [];
          nNumUsed := 0; nNumOfElements := 0; nTableSize := size; nInternalPointer := 0;
          nNextFreeElement := 0; pDestructor := dtor |}.

Definition zend_hash_real_init_packed_ex (ht : HashTable) : HashTable :=
  {| ht with HASH_FLAG_PACKED := true; HASH_FLAG_UNINITIALIZED := false;
     HASH_FLAG_STATIC_KEYS := true; HASH_FLAG_HAS_EMPTY_IND := false;
     arHash := [HT_INVALID_IDX; HT_INVALID_IDX]; arData := fresh_buckets (nTableSize ht) |}.

(** Only the branch for a request table of the minimal size keeps the iterator count: the others write
    the whole 32-bit flag word. *)
Definition zend_hash_real_init_mixed_ex (ht : HashTable) : HashTable :=
  let mask := HT_SIZE_TO_MASK (nTableSize ht) in
  {| ht with HASH_FLAG_PACKED := false; HASH_FLAG_UNINITIALIZED := false;
     HASH_FLAG_STATIC_KEYS := true; HASH_FLAG_HAS_EMPTY_IND := false;
     nIteratorsCount :=
       if negb (IS_ARRAY_PERSISTENT ht) && (nTableSize ht =? HT_MIN_SIZE)
       then nIteratorsCount ht else 0;
     nTableMask := mask; arHash := reset_heads mask; arData := fresh_buckets (nTableSize ht) |}.

Definition zend_hash_real_init (ht : HashTable) (packed : bool) : HashTable :=
  if packed then zend_hash_real_init_packed_ex ht else zend_hash_real_init_mixed_ex ht.

Definition zend_new_pair (self : Z) (val1 val2 : zval) : option HashTable :=
  ht ← _zend_hash_init self HT_MIN_SIZE true false;
  let ht := zend_hash_real_init_packed_ex
              {| ht with nNumUsed := 2; nNumOfElements := 2; nNextFreeElement := 2 |} in
  ar ← set_bucket (arData ht) 0 {| val := val1; Z_NEXT := HT_INVALID_IDX; h := 0; key := None |};
  ar ← set_bucket ar 1 {| val := val2; Z_NEXT := HT_INVALID_IDX; h := 1; key := None |};
  Some {| ht with arData := ar |}.

(** ** Iterators *)

Definition zend_hash_iterators_lower_pos (EG : executor_globals) (ht : HashTable) (start : Z) : Z :=
  foldl (fun res it =>
           if (iter_ht it =? addr ht) && (start <=? iter_pos it) && (iter_pos it <? res)
           then iter_pos it else res)
        (nNumUsed ht) (take (Z.to_nat (ht_iterators_used EG)) (ht_iterators EG)).

(** Apply a change to the iterators in use. *)
Definition map_iterators (EG : executor_globals) (f : HashTableIterator -> HashTableIterator) :
  executor_globals :=
  let n := Z.to_nat (ht_iterators_used EG) in
  {| EG with ht_iterators := (f <$> take n (ht_iterators EG)) ++ drop n (ht_iterators EG) |}.

Definition _zend_hash_iterators_update (EG : executor_globals) (ht : HashTable) (from to : Z) :
  executor_globals :=
  map_iterators EG (fun it =>
    if (iter_ht it =? addr ht) && (iter_pos it =? from)
    then {| it with iter_pos := to |} else it).

Definition zend_hash_iterators_update (EG : executor_globals) (ht : HashTable) (from to : Z) :
  executor_globals :=
  if HT_HAS_ITERATORS ht then _zend_hash_iterators_update EG ht from to else EG.

Definition zend_hash_iterators_advance (EG : executor_globals) (ht : HashTable) (step : Z) :
  executor_globals :=
  map_iterators EG (fun it =>
    if iter_ht it =? addr ht then {| it with iter_pos := u32 (iter_pos it + step) |} else it).

Definition HT_POISONED_PTR : Z := -1.

Definition zend_hash_iterators_remove (EG : executor_globals) (ht : HashTable) :
  executor_globals :=
  if HT_HAS_ITERATORS ht then
    map_iterators EG (fun it =>
      if iter_ht it =? addr ht then {| it with iter_ht := HT_POISONED_PTR |} else it)
  else EG.

(** ** Looking up *)

(** Follow a collision chain from [idx] to the first bucket that passes [test].  The outer [None] is
    an invalid read (or a chain longer than the fuel), the inner one the end of the chain. *)
Fixpoint chase (fuel : nat) (ar : list (option Bucket)) (test : Bucket -> bool) (idx : Z) :
  option (option Z) :=
  match fuel with
  | O => None
  | S fuel =>
      if idx =? HT_INVALID_IDX then Some None
      else p ← bucket ar idx; if test p then Some (Some idx) else chase fuel ar test (Z_NEXT p)
  end.

(** No chain is longer than the block. *)
Definition chain_fuel (ht : HashTable) : nat := S (length (arData ht)).

Definition is_some_key (k : option zend_string) : bool :=
  match k with Some _ => true | None => false end.

Definition key_test (k : zend_string) (p : Bucket) : bool :=
  (h p =? zend_string_hash_val k) &&
  match key p with Some k' => zend_string_equal_content k' k | None => false end.

(** [zend_hash_find_bucket]: the index of the bucket.  The pointer comparisons of the code are
    subsumed by those of the hash and the contents. *)
Definition zend_hash_find_bucket (ht : HashTable) (k : zend_string) : option (option Z) :=
  idx ← HT_HASH_EX (arHash ht) (nIndex (zend_string_hash_val k) (nTableMask ht));
  if idx =? HT_INVALID_IDX then Some None else chase (chain_fuel ht) (arData ht) (key_test k) idx.

Definition str_test (str : list Z) (hash : Z) (p : Bucket) : bool :=
  (h p =? hash) &&
  match key p with
  | Some k => (ZSTR_LEN k =? Z.of_nat (length str)) && bool_decide (ZSTR_VAL k = str)
  | None => false
  end.

Definition zend_hash_str_find_bucket (ht : HashTable) (str : list Z) (hash : Z) :
  option (option Z) :=
  idx ← HT_HASH_EX (arHash ht) (nIndex hash (nTableMask ht));
  chase (chain_fuel ht) (arData ht) (str_test str hash) idx.

Definition index_test (hash : Z) (p : Bucket) : bool := (h p =? hash) && negb (is_some_key (key p)).

Definition zend_hash_index_find_bucket (ht : HashTable) (hash : Z) : option (option Z) :=
  idx ← HT_HASH_EX (arHash ht) (nIndex hash (nTableMask ht));
  chase (chain_fuel ht) (arData ht) (index_test hash) idx.

(** [&p->val], or NULL. *)
Definition zval_ref (r : option Z) : option zref := ZBUCKET <$> r.

Definition zend_hash_find (ht : HashTable) (k : zend_string) : option (option zref) :=
  p ← zend_hash_find_bucket ht k; Some (zval_ref p).

Definition zend_hash_str_find (ht : HashTable) (str : list Z) : option (option zref) :=
  p ← zend_hash_str_find_bucket ht str (zend_inline_hash_func str); Some (zval_ref p).

Definition zend_hash_index_find (ht : HashTable) (hash : Z) : option (option zref) :=
  if HASH_FLAG_PACKED ht then
    if hash <? nNumUsed ht then
      p ← bucket (arData ht) hash;
      if Z_ISUNDEF (val p) then Some None else Some (Some (ZBUCKET hash))
    else Some None
  else p ← zend_hash_index_find_bucket ht hash; Some (zval_ref p).

Definition _zend_hash_index_find (ht : HashTable) (hash : Z) : option (option zref) :=
  p ← zend_hash_index_find_bucket ht hash; Some (zval_ref p).

(** ** Rehashing *)

(** Put bucket [p] in cell [j] and at the head of the chain of its hash. *)
Definition link_bucket (mask : Z) (hs : list Z) (ar : list (option Bucket)) (j : Z) (p : Bucket) :
  option (list Z * list (option Bucket)) :=
  let i := nIndex (h p) mask in
  head ← HT_HASH_EX hs i;
  ar ← set_bucket ar j {| p with Z_NEXT := head |};
  hs ← set_HASH_EX hs i j;
  Some (hs, ar).

(** The [do] loop over [n] buckets from [i] on of a table without holes. *)
Fixpoint rehash_link_loop (n : nat) (mask : Z) (hs : list Z) (ar : list (option Bucket)) (i : Z) :
  option (list Z * list (option Bucket)) :=
  match n with
  | O => Some (hs, ar)
  | S n =>
      p ← bucket ar i;
      '(hs, ar) ← link_bucket mask hs ar i p;
      rehash_link_loop n mask hs ar (i + 1)
  end.

(** [do { update(iter_pos, j); iter_pos = lower_pos(iter_pos + 1) } while (iter_pos < i)]: the
    position grows in every round. *)
Fixpoint move_iterators (fuel : nat) (EG : executor_globals) (ht : HashTable) (iter_pos i j : Z) :
  option (executor_globals * Z) :=
  match fuel with
  | O => None
  | S fuel =>
      let EG := zend_hash_iterators_update EG ht iter_pos j in
      let iter_pos := zend_hash_iterators_lower_pos EG ht (iter_pos + 1) in
      if iter_pos <? i then move_iterators fuel EG ht iter_pos i j else Some (EG, iter_pos)
  end.

(** What the compaction loops carry. *)
Record compaction := {
  c_heads : list Z; c_data : list (option Bucket); c_pointer : Z; c_EG : executor_globals;
  c_iter_pos : Z }.

(** The inner [while] loop: [n] buckets from [i] on, moved down to [j].  The code has it twice, with
    and without iterators. *)
Fixpoint compact_loop (n : nat) (ht : HashTable) (st : compaction) (i j : Z) :
  option (compaction * Z) :=
  match n with
  | O => Some (st, j)
  | S n =>
      p ← bucket (c_data st) i;
      if Z_ISUNDEF (val p) then compact_loop n ht st (i + 1) j
      else
        '(hs, ar) ← link_bucket (nTableMask ht) (c_heads st) (c_data st) j p;
        let ptr := if c_pointer st =? i then j else c_pointer st in
        '(EG, pos) ← (if HT_HAS_ITERATORS ht && (c_iter_pos st <=? i)
                      then move_iterators (S (Z.to_nat (i - c_iter_pos st))) (c_EG st) ht
                             (c_iter_pos st) i j
                      else Some (c_EG st, c_iter_pos st));
        compact_loop n ht {| c_heads := hs; c_data := ar; c_pointer := ptr; c_EG := EG;
                             c_iter_pos := pos |} (i + 1) (j + 1)
  end.

(** The outer [do] loop of a table with holes: up to the first hole the buckets stay in place.  The
    result carries the new [nNumUsed]. *)
Fixpoint rehash_holes_loop (n : nat) (ht : HashTable) (st : compaction) (i : Z) :
  option (compaction * Z) :=
  match n with
  | O => Some (st, nNumUsed ht)
  | S n =>
      p ← bucket (c_data st) i;
      if Z_ISUNDEF (val p) then
        let pos := if HT_HAS_ITERATORS ht
                   then zend_hash_iterators_lower_pos (c_EG st) ht 0 else c_iter_pos st in
        compact_loop n ht {| st with c_iter_pos := pos |} (i + 1) i
      else
        '(hs, ar) ← link_bucket (nTableMask ht) (c_heads st) (c_data st) i p;
        rehash_holes_loop n ht {| st with c_heads := hs; c_data := ar |} (i + 1)
  end.

Definition zend_hash_rehash (EG : executor_globals) (ht : HashTable) :
  option (executor_globals * HashTable) :=
  if nNumOfElements ht =? 0 then
    if HASH_FLAG_UNINITIALIZED ht then Some (EG, ht)
    else Some (EG, {| ht with nNumUsed := 0; arHash := reset_heads (nTableMask ht) |})
  else
    let hs := reset_heads (nTableMask ht) in
    if HT_IS_WITHOUT_HOLES ht then
      '(hs, ar) ← rehash_link_loop (Z.to_nat (nNumUsed ht)) (nTableMask ht) hs (arData ht) 0;
      Some (EG, {| ht with arHash := hs; arData := ar |})
    else
      '(st, used) ← rehash_holes_loop (Z.to_nat (nNumUsed ht)) ht
                      {| c_heads := hs; c_data := arData ht; c_pointer := nInternalPointer ht;
                         c_EG := EG; c_iter_pos := 0 |} 0;
      let EG := if HT_HAS_ITERATORS ht
                then _zend_hash_iterators_update (c_EG st) ht (nNumUsed ht) used else c_EG st in
      Some (EG, {| ht with arHash := c_heads st; arData := c_data st;
                   nInternalPointer := c_pointer st; nNumUsed := used |}).

(** ** Changing the layout *)

(** A new block of [nSize] buckets with the mask of that size, into which the buckets in use are
    copied; the chain heads are written by the rehash that follows. *)
Definition move_to_mixed_block (ht : HashTable) (nSize : Z) : HashTable :=
  let mask := HT_SIZE_TO_MASK nSize in
  {| ht with nTableSize := nSize; nTableMask := mask; arHash := reset_heads mask;
     arData := copy_buckets (arData ht) (nNumUsed ht) nSize |}.

Definition zend_hash_packed_grow (ht : HashTable) : option HashTable :=
  if HT_MAX_SIZE <=? nTableSize ht then None
  else
    let size := u32 (nTableSize ht + nTableSize ht) in
    Some {| ht with nTableSize := size;
            arData := copy_buckets (arData ht) (nNumUsed ht) size |}.

Definition zend_hash_packed_to_hash (EG : executor_globals) (ht : HashTable) :
  option (executor_globals * HashTable) :=
  zend_hash_rehash EG (move_to_mixed_block {| ht with HASH_FLAG_PACKED := false |} (nTableSize ht)).

Definition zend_hash_to_packed (ht : HashTable) : HashTable :=
  {| ht with HASH_FLAG_PACKED := true; HASH_FLAG_STATIC_KEYS := true; nTableMask := HT_MIN_MASK;
     arHash := [HT_INVALID_IDX; HT_INVALID_IDX];
     arData := copy_buckets (arData ht) (nNumUsed ht) (nTableSize ht) |}.

Definition zend_hash_do_resize (EG : executor_globals) (ht : HashTable) :
  option (executor_globals * HashTable) :=
  if u32 (nNumOfElements ht + Z.shiftr (nNumOfElements ht) 5) <? nNumUsed ht then
    zend_hash_rehash EG ht
  else if nTableSize ht <? HT_MAX_SIZE then
    zend_hash_rehash EG (move_to_mixed_block ht (u32 (nTableSize ht + nTableSize ht)))
  else None.

Definition ZEND_HASH_IF_FULL_DO_RESIZE (EG : executor_globals) (ht : HashTable) :
  option (executor_globals * HashTable) :=
  if nTableSize ht <=? nNumUsed ht then zend_hash_do_resize EG ht else Some (EG, ht).

Definition zend_hash_extend (EG : executor_globals) (ht : HashTable) (nSize : Z) (packed : bool) :
  option (executor_globals * HashTable) :=
  if nSize =? 0 then Some (EG, ht)
  else if HASH_FLAG_UNINITIALIZED ht then
    size ← (if nTableSize ht <? nSize then zend_hash_check_size nSize else Some (nTableSize ht));
    Some (EG, zend_hash_real_init {| ht with nTableSize := size |} packed)
  else if negb (nTableSize ht <? nSize) then Some (EG, ht)
  else
    size ← zend_hash_check_size nSize;
    if packed then
      Some (EG, {| ht with nTableSize := size;
                   arData := copy_buckets (arData ht) (nNumUsed ht) size |})
    else zend_hash_rehash EG (move_to_mixed_block ht size).

(** ** Adding and updating *)
Definition HASH_UPDATE : Z := 1.
Definition HASH_ADD : Z := 2.
Definition HASH_UPDATE_INDIRECT : Z := 4.
Definition HASH_ADD_NEW : Z := 8.
Definition HASH_ADD_NEXT : Z := 16.

(** The state after an operation and the pointer it returns ([None] is NULL). *)
Definition result : Type := executor_globals * HashTable * option zref.

(** Read and write through a [zval] pointer. *)
Definition zread (EG : executor_globals) (ht : HashTable) (r : zref) : option zval :=
  match r with ZBUCKET i => val <$> bucket (arData ht) i | ZSLOT s => slots EG !! s end.

Definition zwrite (EG : executor_globals) (ht : HashTable) (r : zref) (z : zval) :
  option (executor_globals * HashTable) :=
  match r with
  | ZBUCKET i =>
      p ← bucket (arData ht) i;
      ar ← set_bucket (arData ht) i {| p with val := z |};
      Some (EG, {| ht with arData := ar |})
  | ZSLOT s => Some ({| EG with slots := <[s := z]> (slots EG) |}, ht)
  end.

(** [if (ht->pDestructor) ht->pDestructor(data)] *)
Definition call_destructor (EG : executor_globals) (ht : HashTable) (z : zval) : executor_globals :=
  if pDestructor ht then {| EG with destroyed := destroyed EG ++ [z] |} else EG.

(** Destroy the value at [data] and store the new one there. *)
Definition replace_at (EG : executor_globals) (ht : HashTable) (data : zref) (pData : zval) :
  option result :=
  old ← zread EG ht data;
  '(EG, ht) ← zwrite (call_destructor EG ht old) ht data pData;
  Some (EG, ht, Some data).

(** The key exists, in bucket [idx]: what [HASH_ADD], [HASH_UPDATE] and [HASH_UPDATE_INDIRECT] make
    of it. *)
Definition found_bucket (EG : executor_globals) (ht : HashTable) (idx : Z) (pData : zval)
    (flag : Z) : option result :=
  data ← zread EG ht (ZBUCKET idx);
  if has flag HASH_ADD then
    if negb (has flag HASH_UPDATE_INDIRECT) then Some (EG, ht, None)
    else match data with
    | IS_INDIRECT s =>
        var ← zread EG ht (ZSLOT s);
        if Z_ISUNDEF var then replace_at EG ht (ZSLOT s) pData else Some (EG, ht, None)
    | _ => Some (EG, ht, None)
    end
  else
    match data with
    | IS_INDIRECT s =>
        if has flag HASH_UPDATE_INDIRECT then replace_at EG ht (ZSLOT s) pData
        else replace_at EG ht (ZBUCKET idx) pData
    | _ => replace_at EG ht (ZBUCKET idx) pData
    end.

(** Use the next bucket for [key], at the head of its chain. *)
Definition add_to_hash (EG : executor_globals) (ht : HashTable) (hash : Z)
    (k : option zend_string) (pData : zval) : option result :=
  let idx := nNumUsed ht in
  '(hs, ar) ← link_bucket (nTableMask ht) (arHash ht) (arData ht) idx
                {| val := pData; Z_NEXT := HT_INVALID_IDX; h := hash; key := k |};
  Some (EG, {| ht with nNumUsed := u32 (idx + 1); nNumOfElements := u32 (nNumOfElements ht + 1);
               arHash := hs; arData := ar |}, Some (ZBUCKET idx)).

(** [if (!ZSTR_IS_INTERNED(key)) { ... HT_FLAGS(ht) &= ~HASH_FLAG_STATIC_KEYS; ... }] *)
Definition note_key (ht : HashTable) (k : zend_string) : HashTable :=
  if ZSTR_IS_INTERNED k then ht else {| ht with HASH_FLAG_STATIC_KEYS := false |}.

Definition _zend_hash_add_or_update_i (EG : executor_globals) (ht : HashTable) (k : zend_string)
    (pData : zval) (flag : Z) : option result :=
  let insert EG ht := add_to_hash EG ht (zend_string_hash_val k) (Some k) pData in
  let make_room EG ht := '(EG, ht) ← ZEND_HASH_IF_FULL_DO_RESIZE EG ht; insert EG ht in
  if HASH_FLAG_UNINITIALIZED ht then
    insert EG (note_key (zend_hash_real_init_mixed_ex ht) k)
  else if HASH_FLAG_PACKED ht then
    '(EG, ht) ← zend_hash_packed_to_hash EG ht;
    make_room EG (note_key ht k)
  else if negb (has flag HASH_ADD_NEW) then
    p ← zend_hash_find_bucket ht k;
    match p with
    | Some idx => found_bucket EG ht idx pData flag
    | None => make_room EG (note_key ht k)
    end
  else make_room EG (note_key ht k).

(** The variant for a C string: the key is copied into a fresh string when it is inserted. *)
Definition _zend_hash_str_add_or_update_i (EG : executor_globals) (ht : HashTable) (str : list Z)
    (hash : Z) (pData : zval) (flag : Z) : option result :=
  let insert EG ht :=
    add_to_hash EG {| ht with HASH_FLAG_STATIC_KEYS := false |} hash
      (Some (zend_string_init str)) pData in
  let make_room EG ht := '(EG, ht) ← ZEND_HASH_IF_FULL_DO_RESIZE EG ht; insert EG ht in
  if HASH_FLAG_UNINITIALIZED ht then insert EG (zend_hash_real_init_mixed_ex ht)
  else if HASH_FLAG_PACKED ht then
    '(EG, ht) ← zend_hash_packed_to_hash EG ht;
    make_room EG ht
  else if negb (has flag HASH_ADD_NEW) then
    p ← zend_hash_str_find_bucket ht str hash;
    match p with
    | Some idx => found_bucket EG ht idx pData flag
    | None => make_room EG ht
    end
  else make_room EG ht.

Definition zend_hash_add EG ht k pData := _zend_hash_add_or_update_i EG ht k pData HASH_ADD.
Definition zend_hash_update EG ht k pData := _zend_hash_add_or_update_i EG ht k pData HASH_UPDATE.
Definition zend_hash_update_ind EG ht k pData :=
  _zend_hash_add_or_update_i EG ht k pData (Z.lor HASH_UPDATE HASH_UPDATE_INDIRECT).
Definition zend_hash_add_new EG ht k pData :=
  _zend_hash_add_or_update_i EG ht k pData HASH_ADD_NEW.

Definition zend_hash_add_or_update EG ht k pData (flag : Z) : option result :=
  if flag =? HASH_ADD then zend_hash_add EG ht k pData
  else if flag =? HASH_ADD_NEW then zend_hash_add_new EG ht k pData
  else if flag =? HASH_UPDATE then zend_hash_update EG ht k pData
  else zend_hash_update_ind EG ht k pData.

Definition zend_hash_str_update EG ht str pData :=
  _zend_hash_str_add_or_update_i EG ht str (zend_inline_hash_func str) pData HASH_UPDATE.
Definition zend_hash_str_update_ind EG ht str pData :=
  _zend_hash_str_add_or_update_i EG ht str (zend_inline_hash_func str) pData
    (Z.lor HASH_UPDATE HASH_UPDATE_INDIRECT).
Definition zend_hash_str_add EG ht str pData :=
  _zend_hash_str_add_or_update_i EG ht str (zend_inline_hash_func str) pData HASH_ADD.
Definition zend_hash_str_add_new EG ht str pData :=
  _zend_hash_str_add_or_update_i EG ht str (zend_inline_hash_func str) pData HASH_ADD_NEW.

Definition zend_hash_str_add_or_update EG ht str pData (flag : Z) : option result :=
  if flag =? HASH_ADD then zend_hash_str_add EG ht str pData
  else if flag =? HASH_ADD_NEW then zend_hash_str_add_new EG ht str pData
  else if flag =? HASH_UPDATE then zend_hash_str_update EG ht str pData
  else zend_hash_str_update_ind EG ht str pData.

(** The label [replace]. *)
Definition replace_index EG ht (idx : Z) (pData : zval) (flag : Z) : option result :=
  if has flag HASH_ADD then Some (EG, ht, None) else replace_at EG ht (ZBUCKET idx) pData.

(** [ZVAL_UNDEF(&q->val)] for [n] buckets from [i] on; nothing else of them is written, and nothing
    else of an [IS_UNDEF] bucket is ever read. *)
Fixpoint undef_buckets (n : nat) (ar : list (option Bucket)) (i : Z) : option (list (option Bucket)) :=
  match n with
  | O => Some ar
  | S n =>
      c ← aget ar i;
      ar ← set_bucket ar i
             (match c with
              | Some p => {| p with val := IS_UNDEF |}
              | None => {| val := IS_UNDEF; Z_NEXT := HT_INVALID_IDX; h := 0; key := None |}
              end);
      undef_buckets n ar (i + 1)
  end.

(** The label [add_to_packed], down to the end of the function: bucket [hash] gets the value, the
    buckets between it and the last one in use become tombstones. *)
Definition add_to_packed EG ht (hash : Z) (pData : zval) (flag : Z) : option result :=
  ar ← (if negb (Z.land flag (Z.lor HASH_ADD_NEW HASH_ADD_NEXT) =? Z.lor HASH_ADD_NEW HASH_ADD_NEXT)
           && (nNumUsed ht <? hash)
        then undef_buckets (Z.to_nat (hash - nNumUsed ht)) (arData ht) (nNumUsed ht)
        else Some (arData ht));
  c ← aget ar hash;
  ar ← set_bucket ar hash
         {| val := pData; Z_NEXT := match c with Some p => Z_NEXT p | None => HT_INVALID_IDX end;
            h := hash; key := None |};
  Some (EG, {| ht with nNextFreeElement := hash + 1; nNumUsed := u32 (hash + 1); arData := ar;
               nNumOfElements := u32 (nNumOfElements ht + 1) |}, Some (ZBUCKET hash)).

(** The insertion of an integer key into a mixed table. *)
Definition add_index_to_hash EG ht (hash : Z) (pData : zval) : option result :=
  add_to_hash EG
    (if i64 (nNextFreeElement ht) <=? i64 hash
     then {| ht with nNextFreeElement := if hash <? ZEND_LONG_MAX then hash + 1 else ZEND_LONG_MAX |}
     else ht) hash None pData.

Definition _zend_hash_index_add_or_update_i EG ht (hash : Z) (pData : zval) (flag : Z) :
  option result :=
  let convert_to_hash ht :=
    '(EG, ht) ← zend_hash_packed_to_hash EG ht; add_index_to_hash EG ht hash pData in
  if HASH_FLAG_PACKED ht then
    if hash <? nNumUsed ht then
      p ← bucket (arData ht) hash;
      if negb (Z_ISUNDEF (val p)) then replace_index EG ht hash pData flag else convert_to_hash ht
    else if hash <? nTableSize ht then add_to_packed EG ht hash pData flag
    else if (Z.shiftr hash 1 <? nTableSize ht) && (Z.shiftr (nTableSize ht) 1 <? nNumOfElements ht)
    then ht ← zend_hash_packed_grow ht; add_to_packed EG ht hash pData flag
    else
      convert_to_hash
        (if nTableSize ht <=? nNumUsed ht
         then {| ht with nTableSize := u32 (nTableSize ht + nTableSize ht) |} else ht)
  else if HASH_FLAG_UNINITIALIZED ht then
    if hash <? nTableSize ht then add_to_packed EG (zend_hash_real_init_packed_ex ht) hash pData flag
    else add_index_to_hash EG (zend_hash_real_init_mixed_ex ht) hash pData
  else
    p ← (if negb (has flag HASH_ADD_NEW) then zend_hash_index_find_bucket ht hash else Some None);
    match p with
    | Some idx => replace_index EG ht idx pData flag
    | None =>
        '(EG, ht) ← ZEND_HASH_IF_FULL_DO_RESIZE EG ht;
        add_index_to_hash EG ht hash pData
    end.

Definition zend_hash_index_add EG ht hash pData :=
  _zend_hash_index_add_or_update_i EG ht hash pData HASH_ADD.
Definition zend_hash_index_add_new EG ht hash pData :=
  _zend_hash_index_add_or_update_i EG ht hash pData (Z.lor HASH_ADD HASH_ADD_NEW).
Definition zend_hash_index_update EG ht hash pData :=
  _zend_hash_index_add_or_update_i EG ht hash pData HASH_UPDATE.
Definition zend_hash_next_index_insert EG ht pData :=
  _zend_hash_index_add_or_update_i EG ht (u64 (nNextFreeElement ht)) pData
    (Z.lor HASH_ADD HASH_ADD_NEXT).
Definition zend_hash_next_index_insert_new EG ht pData :=
  _zend_hash_index_add_or_update_i EG ht (u64 (nNextFreeElement ht)) pData
    (Z.lor HASH_ADD (Z.lor HASH_ADD_NEW HASH_ADD_NEXT)).

Definition zend_hash_index_add_or_update EG ht hash pData (flag : Z) : option result :=
  if flag =? HASH_ADD then zend_hash_index_add EG ht hash pData
  else if flag =? Z.lor HASH_ADD HASH_ADD_NEW then zend_hash_index_add_new EG ht hash pData
  else if flag =? Z.lor HASH_ADD HASH_ADD_NEXT then zend_hash_next_index_insert EG ht pData
  else if flag =? Z.lor HASH_ADD (Z.lor HASH_ADD_NEW HASH_ADD_NEXT)
  then zend_hash_next_index_insert_new EG ht pData
  else zend_hash_index_update EG ht hash pData.

(** ** Deleting *)

(** The first live bucket from [i] on, or [nNumUsed]: [n] bounds the buckets left. *)
Fixpoint next_live (n : nat) (ht : HashTable) (i : Z) : option Z :=
  match n with
  | O => if nNumUsed ht <=? i then Some i else None
  | S n =>
      if nNumUsed ht <=? i then Some i
      else p ← bucket (arData ht) i; if Z_ISUNDEF (val p) then next_live n ht (i + 1) else Some i
  end.

(** [while (nNumUsed > 0 && UNDEF(arData[nNumUsed-1])) nNumUsed--] *)
Fixpoint trim_undef (n : nat) (ar : list (option Bucket)) : option nat :=
  match n with
  | O => Some O
  | S m =>
      p ← bucket ar (Z.of_nat m);
      if Z_ISUNDEF (val p) then trim_undef m ar else Some n
  end.

Definition _zend_hash_del_el_ex EG ht (idx : Z) (prev : option Z) :
  option (executor_globals * HashTable) :=
  p ← bucket (arData ht) idx;
  ht ← (if HASH_FLAG_PACKED ht then Some ht
        else match prev with
        | Some i =>
            q ← bucket (arData ht) i;
            ar ← set_bucket (arData ht) i {| q with Z_NEXT := Z_NEXT p |};
            Some {| ht with arData := ar |}
        | None =>
            hs ← set_HASH_EX (arHash ht) (nIndex (h p) (nTableMask ht)) (Z_NEXT p);
            Some {| ht with arHash := hs |}
        end);
  let ht := {| ht with nNumOfElements := u32 (nNumOfElements ht - 1) |} in
  '(EG, ht) ←
    (if (nInternalPointer ht =? idx) || HT_HAS_ITERATORS ht then
       new_idx ← next_live (Z.to_nat (nNumUsed ht)) ht (idx + 1);
       Some (zend_hash_iterators_update EG ht idx new_idx,
             if nInternalPointer ht =? idx then {| ht with nInternalPointer := new_idx |} else ht)
     else Some (EG, ht));
  ht ← (if nNumUsed ht - 1 =? idx then
          used ← trim_undef (Z.to_nat (nNumUsed ht - 1)) (arData ht);
          Some {| ht with nNumUsed := Z.of_nat used;
                  nInternalPointer := Z.min (nInternalPointer ht) (Z.of_nat used) |}
        else Some ht);
  p ← bucket (arData ht) idx;
  ar ← set_bucket (arData ht) idx {| p with val := IS_UNDEF |};
  Some (call_destructor EG ht (val p), {| ht with arData := ar |}).

(** The [while] of [_zend_hash_del_el]: the bucket whose successor on the chain is [idx]. *)
Fixpoint find_prev (fuel : nat) (ar : list (option Bucket)) (i idx : Z) : option Z :=
  match fuel with
  | O => None
  | S fuel => prev ← bucket ar i; if Z_NEXT prev =? idx then Some i else find_prev fuel ar (Z_NEXT prev) idx
  end.

Definition _zend_hash_del_el EG ht (idx : Z) : option (executor_globals * HashTable) :=
  if HASH_FLAG_PACKED ht then _zend_hash_del_el_ex EG ht idx None
  else
    p ← bucket (arData ht) idx;
    i ← HT_HASH_EX (arHash ht) (nIndex (h p) (nTableMask ht));
    prev ← (if i =? idx then Some None
            else q ← find_prev (chain_fuel ht) (arData ht) i idx; Some (Some q));
    _zend_hash_del_el_ex EG ht idx prev.

Definition zend_hash_del_bucket := _zend_hash_del_el.

(** The deletion loops: follow the chain, keeping the previous bucket, to the first that passes
    [test]. *)
Fixpoint chase_prev (fuel : nat) (ar : list (option Bucket)) (test : Bucket -> bool)
    (prev : option Z) (idx : Z) : option (option (option Z * Z)) :=
  match fuel with
  | O => None
  | S fuel =>
      if idx =? HT_INVALID_IDX then Some None
      else p ← bucket ar idx;
           if test p then Some (Some (prev, idx)) else chase_prev fuel ar test (Some idx) (Z_NEXT p)
  end.

(** [zend_hash_del] and [zend_hash_str_del] differ in the test. *)
Definition del_from_chain EG ht (hash : Z) (test : Bucket -> bool) :
  option (executor_globals * HashTable * Z) :=
  idx ← HT_HASH_EX (arHash ht) (nIndex hash (nTableMask ht));
  r ← chase_prev (chain_fuel ht) (arData ht) test None idx;
  match r with
  | Some (prev, idx) => '(EG, ht) ← _zend_hash_del_el_ex EG ht idx prev; Some (EG, ht, SUCCESS)
  | None => Some (EG, ht, FAILURE)
  end.

Definition zend_hash_del EG ht (k : zend_string) :=
  del_from_chain EG ht (zend_string_hash_val k) (key_test k).

Definition zend_hash_str_del EG ht (str : list Z) :=
  del_from_chain EG ht (zend_inline_hash_func str) (str_test str (zend_inline_hash_func str)).

Definition zend_hash_index_del EG ht (hash : Z) : option (executor_globals * HashTable * Z) :=
  if HASH_FLAG_PACKED ht then
    if hash <? nNumUsed ht then
      p ← bucket (arData ht) hash;
      if Z_ISUNDEF (val p) then Some (EG, ht, FAILURE)
      else '(EG, ht) ← _zend_hash_del_el_ex EG ht hash None; Some (EG, ht, SUCCESS)
    else Some (EG, ht, FAILURE)
  else del_from_chain EG ht hash (index_test hash).

(** [zend_hash_del_ind], [zend_hash_str_del_ind]: an [IS_INDIRECT] element keeps its bucket and its
    variable becomes undefined. *)
Definition del_ind_from_chain EG ht (hash : Z) (test : Bucket -> bool) :
  option (executor_globals * HashTable * Z) :=
  idx ← HT_HASH_EX (arHash ht) (nIndex hash (nTableMask ht));
  r ← chase_prev (chain_fuel ht) (arData ht) test None idx;
  match r with
  | Some (prev, idx) =>
      p ← bucket (arData ht) idx;
      match val p with
      | IS_INDIRECT s =>
          data ← slots EG !! s;
          if Z_ISUNDEF data then Some (EG, ht, FAILURE)
          else Some (call_destructor {| EG with slots := <[s := IS_UNDEF]> (slots EG) |} ht data,
                     {| ht with HASH_FLAG_HAS_EMPTY_IND := true |}, SUCCESS)
      | _ => '(EG, ht) ← _zend_hash_del_el_ex EG ht idx prev; Some (EG, ht, SUCCESS)
      end
  | None => Some (EG, ht, FAILURE)
  end.

Definition zend_hash_del_ind EG ht (k : zend_string) :=
  del_ind_from_chain EG ht (zend_string_hash_val k) (key_test k).

Definition zend_hash_str_del_ind EG ht (str : list Z) :=
  del_ind_from_chain EG ht (zend_inline_hash_func str) (str_test str (zend_inline_hash_func str)).
End Model.

Arguments zval : clear implicits.
Arguments Bucket : clear implicits.
Arguments HashTable : clear implicits.
Arguments executor_globals : clear implicits.
Arguments result : clear implicits.
Arguments compaction : clear implicits.
