(* ===== verification/ZendHashInv.v ===== *)
(** * The engine's hash table: representation invariant and refinement

    [wf ht bs] says that [ht] represents the buckets [bs]: they are the first [nNumUsed] cells, the
    counters agree with them, their keys are distinct and, in a mixed table, every chain holds
    exactly the live buckets of its hash, "always directed from higher to lower buckets" as the source
    puts it.  The contents of the table are the ordered association list [entries bs]. *)
From S2P Require Import Prelude ZendString ZendHash OrderedMap.

Lemma i32_top z : 2 ^ 31 <= z < 2 ^ 32 -> i32 z = z - 2 ^ 32.
Proof.
  intros Hz. unfold i32, swrap. change (32 - 1) with 31.
  rewrite <- (Z.mod_unique_pos (z + 2 ^ 31) (2 ^ 32) 1 (z - 2 ^ 31)); lia.
Qed.

(** The masks of mixed tables, and [HT_MIN_MASK]. *)
Definition good_mask (mask : Z) : Prop := 2 ^ 31 <= mask < 2 ^ 32.

Lemma nIndex_range mask hash : good_mask mask -> mask <= nIndex hash mask < 2 ^ 32.
Proof.
  unfold good_mask, nIndex, u32, uwrap. intros Hm. split; [|by apply Z.mod_pos_bound].
  rewrite <- Z.land_ones, Z.land_lor_distr_l, !Z.land_ones by lia.
  rewrite (Z.mod_small mask) by lia.
  assert (0 <= hash mod 2 ^ 32 < 2 ^ 32) by (by apply Z.mod_pos_bound).
  set (a := hash mod 2 ^ 32) in *.
  assert (Z.ldiff (Z.lor a mask) mask = Z.lor a mask - mask) as E.
  { symmetry. apply Z.sub_nocarry_ldiff. apply Z.bits_inj'. intros n Hn.
    rewrite Z.ldiff_spec, Z.lor_spec, Z.bits_0. by destruct (Z.testbit mask n), (Z.testbit a n). }
  assert (0 <= Z.ldiff (Z.lor a mask) mask); [|lia].
  apply Z.ldiff_nonneg. left. apply Z.lor_nonneg. lia.
Qed.

(** The position in [arHash] of the chain of a hash. *)
Definition slot (mask hash : Z) : nat := Z.to_nat (nIndex hash mask - mask).

Section Heads.
Context (mask : Z) (hs : list Z).
Hypothesis Hmask : good_mask mask.
Hypothesis Hlen : Z.of_nat (length hs) = 2 ^ 32 - mask.

Lemma slot_lt hash : (slot mask hash < length hs)%nat.
Proof. unfold slot. pose proof (nIndex_range mask hash Hmask). lia. Qed.

Lemma head_pos hash :
  Z.of_nat (length hs) + i32 (nIndex hash mask) = Z.of_nat (slot mask hash).
Proof.
  pose proof (nIndex_range mask hash Hmask). unfold good_mask, slot in *. rewrite i32_top; lia.
Qed.

Lemma HT_HASH_EX_slot hash : HT_HASH_EX hs (nIndex hash mask) = hs !! slot mask hash.
Proof. unfold HT_HASH_EX. by rewrite head_pos, aget_nat. Qed.

Lemma set_HASH_EX_slot hash x :
  set_HASH_EX hs (nIndex hash mask) x = Some (<[slot mask hash := x]> hs).
Proof.
  unfold set_HASH_EX, aset. rewrite head_pos, Nat2Z.id. pose proof (slot_lt hash).
  by rewrite (proj2 (in_range_iff _ _ _)) by lia.
Qed.

Lemma head_is_Some hash : exists st, hs !! slot mask hash = Some st.
Proof. apply lookup_lt_is_Some, slot_lt. Qed.
End Heads.

Lemma mask_of_size size : 1 <= size <= 2 ^ 30 ->
  HT_SIZE_TO_MASK size = 2 ^ 32 - 2 * size /\ good_mask (HT_SIZE_TO_MASK size) /\
  HT_HASH_SIZE (HT_SIZE_TO_MASK size) = 2 * size.
Proof.
  intros Hs. assert (HT_SIZE_TO_MASK size = 2 ^ 32 - 2 * size) as E.
  { unfold HT_SIZE_TO_MASK, u32, uwrap. symmetry. apply (Z.mod_unique_pos _ _ (-1)); lia. }
  rewrite E. unfold good_mask. split_and!; [done | lia | lia |].
  unfold HT_HASH_SIZE. rewrite i32_top by lia. unfold u32. rewrite uwrap_small; lia.
Qed.

Section Invariant.
Context {V : Type}.
Implicit Types (b p : Bucket V) (bs : list (Bucket V)) (ar : list (option (Bucket V))).

(** ** Buckets *)
Definition live b : bool := negb (Z_ISUNDEF (val b)).

Inductive hkey := KInt (hash : Z) | KStr (s : list Z).

#[export] Instance hkey_eq_dec : EqDecision hkey.
Proof. solve_decision. Defined.

Definition bkey b : hkey := match key b with None => KInt (h b) | Some k => KStr (ZSTR_VAL k) end.

(** The hash of a key: that of the string, or the integer itself. *)
Definition khash (k : hkey) : Z := match k with KInt hash => hash | KStr s => zend_inline_hash_func s end.

(** The ordered map a list of buckets stands for. *)
Definition entries bs : list (hkey * zval V) := (fun b => (bkey b, val b)) <$> filter live bs.

Lemma entries_app bs1 bs2 : entries (bs1 ++ bs2) = entries bs1 ++ entries bs2.
Proof. unfold entries. by rewrite filter_app, fmap_app. Qed.

Lemma entries_cons b bs :
  entries (b :: bs) = if live b then (bkey b, val b) :: entries bs else entries bs.
Proof.
  unfold entries. rewrite filter_cons. by destruct (decide (live b)), (live b).
Qed.

(** ** Chains *)

(** From [st], the chain visits exactly the buckets [l]. *)
Fixpoint chain bs (st : Z) (l : list nat) : Prop :=
  match l with
  | [] => st = HT_INVALID_IDX
  | i :: l => st = Z.of_nat i /\ exists b, bs !! i = Some b /\ chain bs (Z_NEXT b) l
  end.

Lemma chain_next_ext bs bs' st l :
  (forall i b, i ∈ l -> bs !! i = Some b -> exists b', bs' !! i = Some b' /\ Z_NEXT b' = Z_NEXT b) ->
  chain bs st l -> chain bs' st l.
Proof.
  revert st. induction l as [|i l IH]; intros st Hext; [done|].
  intros [-> (b & Hb & Hc)]. split; [done|].
  destruct (Hext i b) as (b' & Hb' & E); [left|done|]. exists b'. split; [done|]. rewrite E.
  apply IH; [|done]. intros j bj Hj. apply Hext. by right.
Qed.

Lemma chain_app bs bs' st l : chain bs st l -> chain (bs ++ bs') st l.
Proof.
  apply chain_next_ext. intros i b _ Hb. exists b. split; [|done]. by apply lookup_app_l_Some.
Qed.

Lemma chain_lt bs st l i : chain bs st l -> i ∈ l -> (i < length bs)%nat.
Proof.
  revert st. induction l as [|j l IH]; intros st Hc Hi; [by apply elem_of_nil in Hi|].
  destruct Hc as [_ (b & Hb & Hc)]. apply elem_of_cons in Hi as [->|Hi]; [|by apply IH in Hc].
  by apply lookup_lt_Some in Hb.
Qed.

(** Whether bucket [i] is live and on the chain of slot [s]. *)
Definition on_chain (mask : Z) (s : nat) b : bool := live b && bool_decide (slot mask (h b) = s).

(** The buckets the chain of slot [s] must visit, from the last to the first, when [bs] starts at
    bucket [n]. *)
Definition ids_from (mask : Z) (n : nat) bs (s : nat) : list nat := places_from (on_chain mask s) n bs.

Definition ids (mask : Z) bs (s : nat) : list nat := ids_from mask 0 bs s.

Lemma elem_of_ids_from mask n bs s i :
  i ∈ ids_from mask n bs s <->
  (n <= i)%nat /\ exists b, bs !! (i - n)%nat = Some b /\ on_chain mask s b = true.
Proof. apply elem_of_places_from. Qed.

Lemma elem_of_ids mask bs s i :
  i ∈ ids mask bs s <-> exists b, bs !! i = Some b /\ on_chain mask s b = true.
Proof. apply elem_of_places. Qed.

Lemma NoDup_ids_from mask n bs s : NoDup (ids_from mask n bs s).
Proof. apply NoDup_places_from. Qed.

Lemma length_ids_from mask n bs s : (length (ids_from mask n bs s) <= length bs)%nat.
Proof. apply length_places_from. Qed.

(** Around a bucket, the chain of its slot. *)
Lemma ids_split mask bs1 b bs2 s :
  ids mask (bs1 ++ b :: bs2) s
  = ids_from mask (S (length bs1)) bs2 s ++
    (if on_chain mask s b then [length bs1] else []) ++ ids mask bs1 s.
Proof. apply places_split. Qed.

Lemma ids_snoc mask bs b s :
  ids mask (bs ++ [b]) s = (if on_chain mask s b then [length bs] else []) ++ ids mask bs s.
Proof. apply places_snoc. Qed.

(** Only liveness and hashes matter. *)
Lemma ids_from_ext mask n bs bs' s :
  on_chain mask s <$> bs = on_chain mask s <$> bs' -> ids_from mask n bs s = ids_from mask n bs' s.
Proof. apply places_from_ext. Qed.

Lemma ids_dead mask bs1 bs2 s : Forall (fun b => live b = false) bs2 ->
  ids mask (bs1 ++ bs2) s = ids mask bs1 s.
Proof.
  intros Hd. apply places_skip. eapply Forall_impl; [exact Hd|]. intros b Hb. unfold on_chain. by rewrite Hb.
Qed.

(** Every chain of the table is the one its slot must have. *)
Definition chains (mask : Z) (hs : list Z) bs : Prop :=
  Z.of_nat (length hs) = 2 ^ 32 - mask /\
  forall s st, hs !! s = Some st -> chain bs st (ids mask bs s).

Lemma chains_empty mask : good_mask mask -> Z.of_nat (length (reset_heads mask)) = 2 ^ 32 - mask ->
  chains mask (reset_heads mask) [].
Proof.
  intros _ Hl. split; [done|]. intros s st. unfold reset_heads.
  by intros [-> _]%lookup_replicate.
Qed.

(** Linking a new last bucket. *)
Lemma chains_link mask hs bs p head :
  good_mask mask -> chains mask hs bs -> live p = true ->
  hs !! slot mask (h p) = Some head ->
  chains mask (<[slot mask (h p) := Z.of_nat (length bs)]> hs) (bs ++ [{| p with Z_NEXT := head |}]).
Proof.
  intros Hm [Hl Hc] Hp Hh. split; [by rewrite length_insert|].
  intros s st. rewrite ids_snoc. unfold on_chain.
  change (live {| p with Z_NEXT := head |}) with (live p). rewrite Hp. cbn [h andb].
  rewrite list_lookup_insert_Some. intros [(<- & <- & _)|[Hne Hs]].
  - rewrite bool_decide_true by done. cbn. split; [done|].
    exists {| p with Z_NEXT := head |}. rewrite list_lookup_middle by done. split; [done|].
    cbn. by apply chain_app, Hc.
  - rewrite bool_decide_false by done. by apply chain_app, Hc.
Qed.

(** ** Walking a chain *)
Section Walk.
Context (ar : list (option (Bucket V))) (bs : list (Bucket V)).
Hypothesis Hcells : forall i b, bs !! i = Some b -> bucket ar (Z.of_nat i) = Some b.
Hypothesis Hbound : Z.of_nat (length bs) < HT_INVALID_IDX.

Lemma idx_valid i b : bs !! i = Some b -> (Z.of_nat i =? HT_INVALID_IDX) = false.
Proof. intros Hi%lookup_lt_Some. apply Z.eqb_neq. lia. Qed.

Lemma chase_chain test l : forall st fuel, chain bs st l -> (length l < fuel)%nat ->
  chase fuel ar test st = Some (Z.of_nat <$> List.find (fun i => from_option test false (bs !! i)) l).
Proof using Hcells Hbound.
  induction l as [|i l IH]; intros st [|fuel] Hc Hf; cbn in Hf; try lia; cbn [chase].
  - cbn in Hc. subst st. by rewrite Z.eqb_refl.
  - destruct Hc as [-> (b & Hb & Hc)]. rewrite (idx_valid _ _ Hb), (Hcells _ _ Hb).
    cbn [mbind option_bind List.find]. rewrite Hb. cbn [from_option].
    destruct (test b); [done|]. apply IH; [done|lia].
Qed.

Lemma chase_prev_found test hi i lo : forall st fuel prev b,
  chain bs st (hi ++ i :: lo) -> (length hi < fuel)%nat ->
  (forall j bj, j ∈ hi -> bs !! j = Some bj -> test bj = false) ->
  bs !! i = Some b -> test b = true ->
  chase_prev fuel ar test prev st =
  Some (Some (match last hi with Some q => Some (Z.of_nat q) | None => prev end, Z.of_nat i)).
Proof using Hcells Hbound.
  induction hi as [|j hi IH]; intros st [|fuel] prev b Hc Hf Hhi Hb Ht; cbn in Hf; try lia;
    cbn [chase_prev].
  - destruct Hc as [-> _]. rewrite (idx_valid _ _ Hb), (Hcells _ _ Hb). cbn [mbind option_bind].
    by rewrite Ht.
  - destruct Hc as [-> (bj & Hbj & Hc)]. rewrite (idx_valid _ _ Hbj), (Hcells _ _ Hbj).
    cbn [mbind option_bind]. rewrite (Hhi j bj) by (try left; done).
    rewrite (IH _ _ _ b Hc); [|lia| |done|done].
    + rewrite last_cons. by destruct (last hi).
    + intros k bk Hk. apply Hhi. by right.
Qed.

Lemma chase_prev_none test l : forall st fuel prev,
  chain bs st l -> (length l < fuel)%nat ->
  (forall j bj, j ∈ l -> bs !! j = Some bj -> test bj = false) ->
  chase_prev fuel ar test prev st = Some None.
Proof using Hcells Hbound.
  induction l as [|j l IH]; intros st [|fuel] prev Hc Hf Hl; cbn in Hf; try lia; cbn [chase_prev].
  - cbn in Hc. subst st. by rewrite Z.eqb_refl.
  - destruct Hc as [-> (bj & Hbj & Hc)]. rewrite (idx_valid _ _ Hbj), (Hcells _ _ Hbj).
    cbn [mbind option_bind]. rewrite (Hl j bj) by (try left; done).
    apply IH; [done|lia|]. intros k bk Hk. apply Hl. by right.
Qed.

Lemma find_prev_chain hi q i lo : forall st fuel,
  chain bs st (hi ++ q :: i :: lo) -> NoDup (hi ++ q :: i :: lo) -> (length hi < fuel)%nat ->
  find_prev fuel ar st (Z.of_nat i) = Some (Z.of_nat q).
Proof using Hcells.
  induction hi as [|j hi IH]; intros st [|fuel] Hc Hnd Hf; cbn in Hf; try lia; cbn [find_prev].
  - destruct Hc as [-> (b & Hb & Hn & _)]. rewrite (Hcells _ _ Hb). cbn. by rewrite Hn, Z.eqb_refl.
  - destruct Hc as [-> (bj & Hbj & Hc)]. rewrite (Hcells _ _ Hbj). cbn [mbind option_bind].
    assert (Z_NEXT bj <> Z.of_nat i) as Hne.
    { intros E. rewrite E in Hc. apply NoDup_cons in Hnd as [_ Hnd].
      destruct hi as [|k hi]; destruct Hc as [<-%Nat2Z.inj _].
      - apply NoDup_cons in Hnd as [Hq _]. apply Hq. by left.
      - apply NoDup_cons in Hnd as [Hq _]. apply Hq. apply elem_of_app. right. right. by left. }
    rewrite (proj2 (Z.eqb_neq _ _) Hne). apply IH; [done| |lia]. by apply NoDup_cons in Hnd as [_ ?].
Qed.
End Walk.

(** ** The representation invariant *)
Definition no_chains (ht : HashTable V) : Prop :=
  nTableMask ht = HT_MIN_MASK /\ arHash ht = [HT_INVALID_IDX; HT_INVALID_IDX].

(** What each layout asks of the heads and the buckets. *)
Definition layout (ht : HashTable V) bs : Prop :=
  if HASH_FLAG_UNINITIALIZED ht then
    HASH_FLAG_PACKED ht = false /\ no_chains ht /\ bs = []
  else if HASH_FLAG_PACKED ht then
    no_chains ht /\ Z.of_nat (length bs) <= nNextFreeElement ht /\
    forall i b, bs !! i = Some b -> live b = true -> h b = Z.of_nat i /\ key b = None
  else
    nTableMask ht = HT_SIZE_TO_MASK (nTableSize ht) /\ chains (nTableMask ht) (arHash ht) bs.

(** A live bucket holds the hash of its key, and an integer key is below [nNextFreeElement] unless
    that has reached its maximum. *)
Definition bucket_ok (next : Z) b : Prop :=
  live b = true ->
  h b = khash (bkey b) /\ 0 <= h b < 2 ^ 64 /\
  (key b = None -> i64 (h b) < next \/ next = ZEND_LONG_MAX).

Record wf (ht : HashTable V) bs : Prop := {
  wf_cells : exists rest, arData ht = (Some <$> bs) ++ rest;
  wf_used : nNumUsed ht = Z.of_nat (length bs);
  wf_block : Z.of_nat (length (arData ht))
             = if HASH_FLAG_UNINITIALIZED ht then 0 else nTableSize ht;
  wf_size : 8 <= nTableSize ht <= 2 ^ 30;
  wf_elems : nNumOfElements ht = Z.of_nat (length (entries bs));
  wf_keys : NoDup (entries bs).*1;
  wf_buckets : Forall (bucket_ok (nNextFreeElement ht)) bs;
  wf_next : 0 <= nNextFreeElement ht <= ZEND_LONG_MAX;
  wf_pointer : 0 <= nInternalPointer ht;
  wf_layout : layout ht bs }.

Lemma wf_length ht bs : wf ht bs -> (length bs <= length (arData ht))%nat.
Proof. intros [[rest ->] _ _ _ _ _ _ _ _ _]. rewrite length_app, length_fmap. lia. Qed.

Lemma wf_bound ht bs : wf ht bs -> Z.of_nat (length bs) <= nTableSize ht.
Proof.
  intros H. pose proof (wf_length _ _ H). pose proof (wf_block _ _ H). pose proof (wf_size _ _ H).
  destruct (HASH_FLAG_UNINITIALIZED ht); lia.
Qed.

Lemma cells_bucket bs rest i b :
  bs !! i = Some b -> bucket ((Some <$> bs) ++ rest) (Z.of_nat i) = Some b.
Proof.
  intros Hi. unfold bucket. rewrite aget_nat, (lookup_app_l_Some _ _ _ (Some b)); [done|].
  by rewrite list_lookup_fmap, Hi.
Qed.

Lemma wf_bucket ht bs i b : wf ht bs -> bs !! i = Some b -> bucket (arData ht) (Z.of_nat i) = Some b.
Proof. intros [[rest ->] _ _ _ _ _ _ _ _ _]. apply cells_bucket. Qed.

(** Overwrite bucket [i]. *)
Lemma set_bucket_cells bs1 b bs2 rest b' i : i = Z.of_nat (length bs1) ->
  set_bucket ((Some <$> (bs1 ++ b :: bs2)) ++ rest) i b'
  = Some ((Some <$> (bs1 ++ b' :: bs2)) ++ rest).
Proof.
  intros ->. unfold set_bucket. rewrite !fmap_app, !fmap_cons, <- !app_assoc. cbn [app].
  apply aset_app_mid. by rewrite length_fmap.
Qed.

(** Write the first free bucket. *)
Lemma set_bucket_next bs c rest b' i : i = Z.of_nat (length bs) ->
  set_bucket ((Some <$> bs) ++ c :: rest) i b' = Some ((Some <$> (bs ++ [b'])) ++ rest).
Proof.
  intros ->. unfold set_bucket. rewrite fmap_app, <- app_assoc. cbn.
  apply aset_app_mid. by rewrite length_fmap.
Qed.

(** ** Which bucket has a key *)
Lemma elem_of_entries k z bs :
  (k, z) ∈ entries bs <-> exists i b, bs !! i = Some b /\ live b = true /\ bkey b = k /\ val b = z.
Proof.
  unfold entries. rewrite list_elem_of_fmap. split.
  - intros (b & [= -> ->] & [Hb [i Hi]%list_elem_of_lookup]%list_elem_of_filter).
    exists i, b. by destruct (live b).
  - intros (i & b & Hi & Hb & <- & <-). exists b. split; [done|]. apply list_elem_of_filter.
    rewrite Hb. split; [done|]. by apply list_elem_of_lookup_2 in Hi.
Qed.

Lemma elem_of_keys k bs :
  k ∈ (entries bs).*1 <-> exists i b, bs !! i = Some b /\ live b = true /\ bkey b = k.
Proof.
  rewrite list_elem_of_fmap. split.
  - intros ([k' z] & -> & (i & b & H1 & H2 & H3 & _)%elem_of_entries). by exists i, b.
  - intros (i & b & H1 & H2 & H3). exists (k, val b). split; [done|].
    apply elem_of_entries. by exists i, b.
Qed.

(** [bs] has key [k] in bucket [b], after the buckets [bs1]. *)
Definition holds bs (k : hkey) (bs1 : list (Bucket V)) b (bs2 : list (Bucket V)) : Prop :=
  bs = (bs1 ++ b :: bs2) /\ live b = true /\ bkey b = k /\
  k ∉ (entries bs1).*1 /\ k ∉ (entries bs2).*1.

Lemma holds_entries bs k bs1 b bs2 : holds bs k bs1 b bs2 ->
  entries bs = entries bs1 ++ (k, val b) :: entries bs2.
Proof. intros (-> & Hl & <- & _). by rewrite entries_app, entries_cons, Hl. Qed.

Lemma holds_lookup ht bs i b : wf ht bs -> bs !! i = Some b -> live b = true ->
  exists bs1 bs2, holds bs (bkey b) bs1 b bs2 /\ length bs1 = i.
Proof.
  intros Hwf Hi Hl. exists (take i bs), (drop (S i) bs).
  assert (bs = take i bs ++ b :: drop (S i) bs) as E by (by rewrite take_drop_middle).
  split; [|apply length_take_le; apply lookup_lt_Some in Hi; lia].
  unfold holds. split; [done|]. split; [done|]. split; [done|].
  pose proof (wf_keys _ _ Hwf) as Hnd. rewrite E in Hnd.
  rewrite entries_app, entries_cons, Hl, fmap_app, fmap_cons in Hnd. cbn in Hnd.
  apply NoDup_app in Hnd as (_ & H1 & [H2 _]%NoDup_cons). split; [|done].
  intros Hk. apply (H1 _ Hk). by left.
Qed.

Lemma key_cases ht bs k : wf ht bs ->
  (exists bs1 b bs2, holds bs k bs1 b bs2) \/ k ∉ (entries bs).*1.
Proof.
  intros Hwf. destruct (decide (k ∈ (entries bs).*1)) as [Hk|]; [left|by right].
  apply elem_of_keys in Hk as (i & b & Hi & Hl & <-).
  destruct (holds_lookup _ _ _ _ Hwf Hi Hl) as (bs1 & bs2 & H & _). by exists bs1, b, bs2.
Qed.

Lemma holds_unique bs k bs1 b bs2 i b' : holds bs k bs1 b bs2 ->
  bs !! i = Some b' -> live b' = true -> bkey b' = k -> i = length bs1 /\ b' = b.
Proof.
  intros (-> & Hl & <- & H1 & H2) Hi Hl' Hk.
  destruct (lt_eq_lt_dec i (length bs1)) as [[Hlt| ->]|Hgt].
  - exfalso. apply H1, elem_of_keys. exists i, b'. rewrite lookup_app_l in Hi by done. done.
  - rewrite list_lookup_middle in Hi by done. by injection Hi as ->.
  - exfalso. apply H2, elem_of_keys. exists (i - length bs1 - 1)%nat, b'.
    rewrite lookup_app_r in Hi by lia.
    replace (i - length bs1)%nat with (S (i - length bs1 - 1)) in Hi by lia. done.
Qed.

(** The bucket index of a key: what every lookup of the code returns. *)
Definition find_key bs (k : hkey) : option Z :=
  (fun ib => Z.of_nat (fst ib)) <$> list_find (fun b => live b && bool_decide (bkey b = k)) bs.

Lemma find_key_holds bs k bs1 b bs2 : holds bs k bs1 b bs2 ->
  find_key bs k = Some (Z.of_nat (length bs1)).
Proof.
  intros H. unfold find_key.
  rewrite (proj2 (list_find_Some _ _ (length bs1) b)); [done|].
  pose proof H as (-> & Hl & <- & H1 & _). rewrite list_lookup_middle by done.
  split; [done|]. split; [by rewrite Hl, bool_decide_true|].
  intros j y Hj Hlt Hy. apply andb_True in Hy as [Hy1 Hy2]. apply bool_decide_unpack in Hy2.
  apply H1, elem_of_keys. exists j, y. rewrite lookup_app_l in Hj by done.
  split_and!; [done | by destruct (live y) | done].
Qed.

Lemma find_key_None bs k : k ∉ (entries bs).*1 -> find_key bs k = None.
Proof.
  intros Hk. unfold find_key. rewrite (proj2 (list_find_None _ _)); [done|].
  apply Forall_forall. intros b [i Hi]%list_elem_of_lookup [Hl Hb]%andb_True.
  apply bool_decide_unpack in Hb. apply Hk, elem_of_keys. exists i, b.
  split_and!; [done | by destruct (live b) | done].
Qed.

(** ** Lookups *)
Lemma min_mask_good : good_mask HT_MIN_MASK.
Proof. unfold good_mask, HT_MIN_MASK. lia. Qed.

Lemma invalid_head hash : HT_HASH_EX [HT_INVALID_IDX; HT_INVALID_IDX] (nIndex hash HT_MIN_MASK)
  = Some HT_INVALID_IDX.
Proof.
  rewrite HT_HASH_EX_slot by (done || apply min_mask_good).
  pose proof (slot_lt HT_MIN_MASK [HT_INVALID_IDX; HT_INVALID_IDX] min_mask_good eq_refl hash) as Hs.
  cbn in Hs. by destruct (slot HT_MIN_MASK hash) as [|[|?]]; [| |lia].
Qed.

(** A mixed table: initialised and not packed. *)
Definition mixed (ht : HashTable V) : Prop :=
  HASH_FLAG_UNINITIALIZED ht = false /\ HASH_FLAG_PACKED ht = false.

Lemma mixed_layout ht bs : wf ht bs -> mixed ht ->
  nTableMask ht = HT_SIZE_TO_MASK (nTableSize ht) /\ good_mask (nTableMask ht) /\
  chains (nTableMask ht) (arHash ht) bs.
Proof.
  intros Hwf [Hu Hp]. pose proof (wf_layout _ _ Hwf) as Hl. unfold layout in Hl.
  rewrite Hu, Hp in Hl. destruct Hl as [Hm Hc]. split; [done|]. split; [|done].
  rewrite Hm. pose proof (wf_size _ _ Hwf). apply mask_of_size. lia.
Qed.

Lemma not_mixed_heads ht bs : wf ht bs -> ~ mixed ht -> no_chains ht.
Proof.
  intros Hwf Hm. pose proof (wf_layout _ _ Hwf) as Hl. unfold layout, mixed in *.
  destruct (HASH_FLAG_UNINITIALIZED ht), (HASH_FLAG_PACKED ht); naive_solver.
Qed.

Lemma mixed_dec (ht : HashTable V) : {mixed ht} + {~ mixed ht}.
Proof.
  unfold mixed. destruct (HASH_FLAG_UNINITIALIZED ht), (HASH_FLAG_PACKED ht); auto;
    right; by intros [? ?].
Qed.

(** The head of a key's chain. *)
Lemma key_chain ht bs hash : wf ht bs -> mixed ht ->
  exists st, HT_HASH_EX (arHash ht) (nIndex hash (nTableMask ht)) = Some st /\
    chain bs st (ids (nTableMask ht) bs (slot (nTableMask ht) hash)).
Proof.
  intros Hwf Hmx. destruct (mixed_layout _ _ Hwf Hmx) as (_ & Hg & Hlen & Hc).
  destruct (head_is_Some _ _ Hg Hlen hash) as [st Hst]. exists st.
  split; [by rewrite HT_HASH_EX_slot | by apply Hc].
Qed.

(** A test recognises key [k] among buckets that hold the hash of their key. *)
Definition tests (test : Bucket V -> bool) (k : hkey) : Prop :=
  forall b, h b = khash (bkey b) -> test b = bool_decide (bkey b = k).

Lemma key_test_tests k : tests (key_test k) (KStr (ZSTR_VAL k)).
Proof.
  intros b Hb. unfold key_test, bkey in *. destruct (key b) as [k'|].
  - destruct (zend_string_equal_content k' k) eqn:E.
    + apply equal_content_iff in E. rewrite Hb, bool_decide_true by congruence. cbn.
      unfold zend_string_hash_val. rewrite E, Z.eqb_refl. done.
    + rewrite andb_false_r, bool_decide_false; [done|].
      intros [= H]. apply equal_content_iff in H. congruence.
  - rewrite andb_false_r. by rewrite bool_decide_false.
Qed.

Lemma str_test_tests str : tests (str_test str (zend_inline_hash_func str)) (KStr str).
Proof.
  intros b Hb. unfold str_test, bkey, ZSTR_LEN in *. destruct (key b) as [k'|].
  - destruct (decide (ZSTR_VAL k' = str)) as [E|E].
    + rewrite Hb. cbn. rewrite E, !Z.eqb_refl, !bool_decide_true by congruence. done.
    + rewrite (bool_decide_false (ZSTR_VAL k' = str)), !andb_false_r, bool_decide_false by congruence.
      done.
  - rewrite andb_false_r. by rewrite bool_decide_false.
Qed.

Lemma index_test_tests hash : tests (index_test hash) (KInt hash).
Proof.
  intros b Hb. unfold index_test, bkey in *. destruct (key b) as [k'|]; cbn.
  - rewrite andb_false_r. by rewrite bool_decide_false.
  - rewrite andb_true_r. destruct (Z.eqb_spec (h b) hash) as [->|Hne].
    + by rewrite bool_decide_true.
    + rewrite bool_decide_false; [done|]. by intros [= ?].
Qed.

Lemma bucket_hash ht bs i b : wf ht bs -> bs !! i = Some b -> live b = true ->
  h b = khash (bkey b) /\ 0 <= h b < 2 ^ 64.
Proof.
  intros Hwf Hi Hl. pose proof (wf_buckets _ _ Hwf) as Hb.
  rewrite Forall_lookup in Hb. by destruct (Hb i b Hi Hl) as (? & ? & _).
Qed.

Lemma test_key ht bs test k i b : wf ht bs -> tests test k -> bs !! i = Some b ->
  live b = true -> test b = bool_decide (bkey b = k).
Proof. intros Hwf Ht Hi Hl. apply Ht. by apply (bucket_hash ht bs i b). Qed.

Lemma ids_live mask bs s i : i ∈ ids mask bs s ->
  exists b, bs !! i = Some b /\ live b = true /\ slot mask (h b) = s.
Proof.
  intros (b & Hb & Ho)%elem_of_ids. unfold on_chain in Ho. apply andb_true_iff in Ho as [? Hs].
  apply bool_decide_eq_true in Hs. by exists b.
Qed.

(** The chain of key [k], around the bucket that holds it. *)
Lemma chain_around ht bs k bs1 b bs2 : wf ht bs -> holds bs k bs1 b bs2 ->
  let mask := nTableMask ht in let s := slot mask (khash k) in
  ids mask bs s = ids_from mask (S (length bs1)) bs2 s ++ length bs1 :: ids mask bs1 s.
Proof.
  intros Hwf Hh. pose proof Hh as (E & Hl & Hk & _). cbn.
  assert (bs !! length bs1 = Some b) as Hi by (rewrite E; by apply list_lookup_middle).
  destruct (bucket_hash _ _ _ _ Hwf Hi Hl) as [Hb _]. rewrite Hk in Hb.
  rewrite E, ids_split. unfold on_chain. by rewrite Hl, Hb, bool_decide_true.
Qed.

Lemma tests_other ht bs test k bs1 b bs2 j bj : wf ht bs -> tests test k -> holds bs k bs1 b bs2 ->
  bs !! j = Some bj -> live bj = true -> j <> length bs1 -> test bj = false.
Proof.
  intros Hwf Ht Hh Hj Hl Hne. rewrite (test_key _ _ _ _ _ _ Hwf Ht Hj Hl).
  apply bool_decide_eq_false. intros Hk. by destruct (holds_unique _ _ _ _ _ _ _ Hh Hj Hl Hk).
Qed.

Lemma find_app_None {A} (f : A -> bool) l1 l2 :
  (forall x, x ∈ l1 -> f x = false) -> List.find f (l1 ++ l2) = List.find f l2.
Proof.
  induction l1 as [|x l1 IH]; cbn; intros H; [done|]. rewrite (H x) by left.
  apply IH. intros y Hy. apply H. by right.
Qed.

Lemma ids_fuel mask ht bs s : wf ht bs -> (length (ids mask bs s) < chain_fuel ht)%nat.
Proof.
  intros Hwf. pose proof (length_ids_from mask 0 bs s). pose proof (wf_length _ _ Hwf).
  unfold chain_fuel, ids in *. lia.
Qed.

Lemma wf_index_bound ht bs : wf ht bs -> Z.of_nat (length bs) < HT_INVALID_IDX.
Proof.
  intros Hwf. pose proof (wf_bound _ _ Hwf). pose proof (wf_size _ _ Hwf).
  unfold HT_INVALID_IDX. lia.
Qed.

(** Following the chain of a key finds its bucket, in a mixed table. *)
Lemma chase_key ht bs test k : wf ht bs -> mixed ht -> tests test k ->
  (idx ← HT_HASH_EX (arHash ht) (nIndex (khash k) (nTableMask ht));
   chase (chain_fuel ht) (arData ht) test idx) = Some (find_key bs k).
Proof.
  intros Hwf Hmx Ht. destruct (key_chain _ _ (khash k) Hwf Hmx) as (st & -> & Hc).
  cbn [mbind option_bind].
  rewrite (chase_chain _ bs (fun i b => wf_bucket ht bs i b Hwf) (wf_index_bound _ _ Hwf) _ _ _ _ Hc
             (ids_fuel _ _ _ _ Hwf)). f_equal.
  destruct (key_cases _ _ k Hwf) as [(bs1 & b & bs2 & Hh)|Hk].
  - rewrite (find_key_holds _ _ _ _ _ Hh), (chain_around _ _ _ _ _ _ Hwf Hh), find_app_None.
    + cbn [List.find]. pose proof Hh as (E & Hl & Hkb & _).
      assert (bs !! length bs1 = Some b) as Hi by (rewrite E; by apply list_lookup_middle).
      rewrite Hi. cbn [from_option]. by rewrite (test_key _ _ _ _ _ _ Hwf Ht Hi Hl), bool_decide_true.
    + intros j Hj. pose proof Hh as (E & _).
      assert (j ∈ ids (nTableMask ht) bs (slot (nTableMask ht) (khash k))) as Hj'.
      { rewrite (chain_around _ _ _ _ _ _ Hwf Hh). apply elem_of_app. by left. }
      apply ids_live in Hj' as (bj & Hbj & Hl & _). rewrite Hbj. cbn.
      apply (tests_other _ _ _ _ _ _ _ _ _ Hwf Ht Hh Hbj Hl).
      apply elem_of_ids_from in Hj as [Hj _]. lia.
  - rewrite (find_key_None _ _ Hk), <- (app_nil_r (ids _ _ _)), find_app_None; [done|].
    intros j (bj & Hbj & Hl & _)%ids_live. rewrite Hbj. cbn.
    rewrite (test_key _ _ _ _ _ _ Hwf Ht Hbj Hl). apply bool_decide_eq_false. intros E.
    apply Hk, elem_of_keys. by exists j, bj.
Qed.

(** A table without chains has no string key. *)
Lemma no_chains_string ht bs s : wf ht bs -> ~ mixed ht -> KStr s ∉ (entries bs).*1.
Proof.
  intros Hwf Hmx (i & b & Hi & Hl & Hk)%elem_of_keys. pose proof (wf_layout _ _ Hwf) as Hla.
  unfold layout in Hla. destruct (HASH_FLAG_UNINITIALIZED ht) eqn:Eu.
  { destruct Hla as (_ & _ & ->). by rewrite lookup_nil in Hi. }
  destruct (HASH_FLAG_PACKED ht) eqn:Ep; [|by apply Hmx].
  destruct Hla as (_ & _ & Hp). destruct (Hp i b Hi Hl) as [_ Hn]. unfold bkey in Hk.
  by rewrite Hn in Hk.
Qed.

Lemma chase_no_chains ht bs test hash : wf ht bs -> ~ mixed ht ->
  (idx ← HT_HASH_EX (arHash ht) (nIndex hash (nTableMask ht));
   chase (chain_fuel ht) (arData ht) test idx) = Some None.
Proof.
  intros Hwf Hmx. destruct (not_mixed_heads _ _ Hwf Hmx) as [-> ->]. by rewrite invalid_head.
Qed.

Lemma find_bucket_key ht bs k : wf ht bs ->
  zend_hash_find_bucket ht k = Some (find_key bs (KStr (ZSTR_VAL k))).
Proof.
  intros Hwf. unfold zend_hash_find_bucket.
  transitivity (idx ← HT_HASH_EX (arHash ht) (nIndex (zend_string_hash_val k) (nTableMask ht));
                chase (chain_fuel ht) (arData ht) (key_test k) idx).
  { destruct (HT_HASH_EX _ _) as [idx|]; [|done]. cbn [mbind option_bind]. unfold chain_fuel.
    cbn [chase]. by destruct (idx =? HT_INVALID_IDX). }
  destruct (mixed_dec ht) as [Hmx|Hmx].
  - apply (chase_key ht bs (key_test k) (KStr (ZSTR_VAL k)) Hwf Hmx), key_test_tests.
  - rewrite (chase_no_chains _ _ _ _ Hwf Hmx), find_key_None; [done|].
    by apply (no_chains_string ht).
Qed.

Lemma str_find_bucket_key ht bs str : wf ht bs ->
  zend_hash_str_find_bucket ht str (zend_inline_hash_func str) = Some (find_key bs (KStr str)).
Proof.
  intros Hwf. unfold zend_hash_str_find_bucket. destruct (mixed_dec ht) as [Hmx|Hmx].
  - apply (chase_key ht bs _ (KStr str) Hwf Hmx), str_test_tests.
  - rewrite (chase_no_chains _ _ _ _ Hwf Hmx), find_key_None; [done|].
    by apply (no_chains_string ht).
Qed.

Lemma index_find_bucket_key ht bs hash : wf ht bs -> mixed ht ->
  zend_hash_index_find_bucket ht hash = Some (find_key bs (KInt hash)).
Proof.
  intros Hwf Hmx. apply (chase_key ht bs _ (KInt hash) Hwf Hmx), index_test_tests.
Qed.
End Invariant.

(** ** A concrete table

    Integer keys 19 and 3, whose chains collide, a tombstone between them, and the string key "a". *)
Definition ex_globals : executor_globals Z :=
  {| ht_iterators := []; ht_iterators_used := 0; slots := ∅; destroyed := [] |}.

Definition ex_key (s : list Z) : zend_string := {| ZSTR_VAL := s; ZSTR_IS_INTERNED := false |}.

Definition ex_run : option (executor_globals Z * HashTable Z) :=
  ht ← _zend_hash_init 1 8 true false;
  '(EG, ht, _) ← zend_hash_index_update ex_globals ht 19 (IS_VAL 100);
  '(EG, ht, _) ← zend_hash_index_update EG ht 4 (IS_VAL 101);
  '(EG, ht, _) ← zend_hash_index_update EG ht 3 (IS_VAL 102);
  '(EG, ht, _) ← zend_hash_update EG ht (ex_key [97]) (IS_VAL 103);
  '(EG, ht, _) ← zend_hash_index_del EG ht 4;
  Some (EG, ht).

Definition ex_bucket (z : zval Z) (next hash : Z) (k : option zend_string) : Bucket Z :=
  {| val := z; Z_NEXT := next; h := hash; key := k |}.

Definition ex_buckets : list (Bucket Z) :=
  [ex_bucket (IS_VAL 100) HT_INVALID_IDX 19 None; ex_bucket IS_UNDEF HT_INVALID_IDX 4 None;
   ex_bucket (IS_VAL 102) 0 3 None;
   ex_bucket (IS_VAL 103) HT_INVALID_IDX (zend_inline_hash_func [97]) (Some (ex_key [97]))].

Definition ex_table : HashTable Z :=
  {| addr := 1; IS_ARRAY_PERSISTENT := false; HASH_FLAG_PACKED := false; HASH_FLAG_UNINITIALIZED := false;
     HASH_FLAG_STATIC_KEYS := false; HASH_FLAG_HAS_EMPTY_IND := false; nIteratorsCount := 0;
     nTableMask := HT_SIZE_TO_MASK 8;
     arHash := [HT_INVALID_IDX; HT_INVALID_IDX; HT_INVALID_IDX; 2; HT_INVALID_IDX; HT_INVALID_IDX;
                3; HT_INVALID_IDX; HT_INVALID_IDX; HT_INVALID_IDX; HT_INVALID_IDX; HT_INVALID_IDX;
                HT_INVALID_IDX; HT_INVALID_IDX; HT_INVALID_IDX; HT_INVALID_IDX];
     arData := (Some <$> ex_buckets) ++ [None; None; None; None]; nNumUsed := 4; nNumOfElements := 3;
     nTableSize := 8; nInternalPointer := 0; nNextFreeElement := 20; pDestructor := true |}.

Example ex_run_table : snd <$> ex_run = Some ex_table.
Proof. vm_compute. reflexivity. Qed.

Lemma ex_wf : wf ex_table ex_buckets.
Proof.
  split.
  - by eexists.
  - reflexivity.
  - reflexivity.
  - cbn. lia.
  - vm_compute. reflexivity.
  - vm_compute. repeat constructor; set_solver.
  - repeat constructor; intros Hl; try discriminate Hl; vm_compute; try done.
    all: intros; by left.
  - vm_compute. split; discriminate.
  - reflexivity.
  - split; [reflexivity|]. split; [reflexivity|]. intros s st.
    do 16 (destruct s as [|s]; [intros [= <-]; vm_compute; repeat first [split | eexists]; reflexivity|]).
    done.
Qed.
