(* ===== verification/ZendHashRehash.v ===== *)
(** * The engine's hash table: rehashing and resizing keep the contents

    [zend_hash_rehash] rebuilds every chain and squeezes the tombstones out; [zend_hash_do_resize],
    [zend_hash_packed_to_hash] and [zend_hash_extend] move the buckets to another block first.  None
    of them changes the ordered map the table stands for. *)
From S2P Require Import Prelude ZendString ZendHash OrderedMap ZendHashInv.

Section Rehash.
Context {V : Type}.
Implicit Types (b p : Bucket V) (bs : list (Bucket V)) (ar : list (option (Bucket V)))
  (ht : HashTable V) (EG : executor_globals V).

(** A bucket without its place on a chain. *)
Definition strip b : zval V * Z * option zend_string := (val b, h b, key b).

Lemma strip_live b b' : strip b = strip b' -> live b = live b'.
Proof. unfold strip, live. by intros [= -> _ _]. Qed.

Lemma strip_key b b' : strip b = strip b' -> bkey b = bkey b'.
Proof. unfold strip, bkey. by intros [= _ -> ->]. Qed.

Lemma strip_entries bs bs' : strip <$> bs = strip <$> bs' -> entries bs = entries bs'.
Proof.
  revert bs'. induction bs as [|b bs IH]; intros [|b' bs']; try done. rewrite !fmap_cons. intros E.
  assert (strip b = strip b') as Eb by congruence.
  assert (strip <$> bs = strip <$> bs') as Ebs by congruence.
  rewrite !entries_cons, (IH _ Ebs), (strip_live _ _ Eb), (strip_key _ _ Eb).
  unfold strip in Eb. by injection Eb as -> _ _.
Qed.

Lemma strip_bucket_ok next b b' : strip b = strip b' -> bucket_ok next b -> bucket_ok next b'.
Proof.
  intros E. unfold bucket_ok. rewrite (strip_live _ _ E), (strip_key _ _ E).
  unfold strip in E. by injection E as _ -> ->.
Qed.

Lemma strip_buckets_ok next bs bs' : strip <$> bs = strip <$> bs' ->
  Forall (bucket_ok next) bs -> Forall (bucket_ok next) bs'.
Proof.
  revert bs'. induction bs as [|b bs IH]; intros [|b' bs']; try done. rewrite !fmap_cons. intros E.
  assert (strip b = strip b') as Eb by congruence.
  assert (strip <$> bs = strip <$> bs') as Ebs by congruence.
  intros [Hb Hbs]%Forall_cons. apply Forall_cons. split; [|by apply IH].
  by apply (strip_bucket_ok _ b).
Qed.

Lemma entries_filter_live bs : entries (filter live bs) = entries bs.
Proof.
  induction bs as [|b bs IH]; [done|]. rewrite filter_cons, (entries_cons b bs).
  destruct (decide (live b)) as [Hl|Hl]; destruct (live b) eqn:E; try done.
  by rewrite entries_cons, E, IH.
Qed.

Lemma length_entries_live bs : Forall (fun b => live b = true) bs -> length (entries bs) = length bs.
Proof.
  induction 1 as [|b bs Hb _ IH]; [done|]. rewrite entries_cons, Hb. cbn. by rewrite IH.
Qed.

Lemma length_entries bs : length (entries bs) = length (filter live bs).
Proof. unfold entries. by rewrite length_fmap. Qed.

(** ** What the layout operations leave alone *)
Definition same_globals EG EG' : Prop := slots EG' = slots EG /\ destroyed EG' = destroyed EG.

#[export] Instance same_globals_refl : Reflexive same_globals.
Proof. done. Qed.

#[export] Instance same_globals_trans : Transitive same_globals.
Proof. intros E1 E2 E3 [H1 H2] [H3 H4]. split; congruence. Qed.

Definition same_table ht ht' : Prop :=
  addr ht' = addr ht /\ nIteratorsCount ht' = nIteratorsCount ht /\
  nNextFreeElement ht' = nNextFreeElement ht /\ pDestructor ht' = pDestructor ht /\
  nNumOfElements ht' = nNumOfElements ht /\ HASH_FLAG_STATIC_KEYS ht' = HASH_FLAG_STATIC_KEYS ht.

#[export] Instance same_table_refl : Reflexive same_table.
Proof. done. Qed.

#[export] Instance same_table_trans : Transitive same_table.
Proof.
  intros h1 h2 h3 (A1&A2&A3&A4&A5&A6) (B1&B2&B3&B4&B5&B6). unfold same_table.
  split_and!; congruence.
Qed.

(** ** The iterators *)
Lemma lower_pos_ge EG ht start :
  zend_hash_iterators_lower_pos EG ht start = nNumUsed ht \/
  start <= zend_hash_iterators_lower_pos EG ht start.
Proof.
  unfold zend_hash_iterators_lower_pos.
  generalize (take (Z.to_nat (ht_iterators_used EG)) (ht_iterators EG)). intros l.
  assert (forall res, res = nNumUsed ht \/ start <= res ->
    let r := foldl (fun res it =>
           if (iter_ht it =? addr ht) && (start <=? iter_pos it) && (iter_pos it <? res)
           then iter_pos it else res) res l in r = nNumUsed ht \/ start <= r) as H.
  { induction l as [|it l IH]; intros res Hres; [done|]. cbn. apply IH.
    destruct (iter_ht it =? addr ht), (Z.leb_spec start (iter_pos it)), (iter_pos it <? res);
      cbn; auto. }
  apply H. by left.
Qed.

Lemma update_same_globals EG ht from to : same_globals EG (zend_hash_iterators_update EG ht from to).
Proof. unfold zend_hash_iterators_update. by destruct (HT_HAS_ITERATORS ht). Qed.

(** The loop that moves iterators ends: the position grows in every round. *)
Lemma move_iterators_total fuel : forall EG ht iter_pos i j,
  i <= nNumUsed ht -> (Z.to_nat (i - iter_pos) < fuel)%nat ->
  exists EG' pos, move_iterators fuel EG ht iter_pos i j = Some (EG', pos) /\ same_globals EG EG'.
Proof.
  induction fuel as [|fuel IH]; intros EG ht iter_pos i j Hi Hf; [lia|]. cbn [move_iterators].
  set (EG1 := zend_hash_iterators_update EG ht iter_pos j).
  assert (same_globals EG EG1) as H1 by apply update_same_globals.
  pose proof (lower_pos_ge EG1 ht (iter_pos + 1)) as Hge.
  destruct (Z.ltb_spec (zend_hash_iterators_lower_pos EG1 ht (iter_pos + 1)) i).
  - destruct (IH EG1 ht (zend_hash_iterators_lower_pos EG1 ht (iter_pos + 1)) i j)
      as (EG' & pos & E & H2); [done | lia |].
    exists EG', pos. split; [done|]. by transitivity EG1.
  - by eexists _, _.
Qed.

(** ** The loops *)

(** One bucket linked: it becomes the last of the finished part. *)
Lemma link_bucket_step mask hs fin c rest p :
  good_mask mask -> chains mask hs fin -> live p = true ->
  exists hs' p', link_bucket mask hs ((Some <$> fin) ++ c :: rest) (Z.of_nat (length fin)) p
    = Some (hs', (Some <$> (fin ++ [p'])) ++ rest) /\
    chains mask hs' (fin ++ [p']) /\ strip p' = strip p.
Proof.
  intros Hm Hc Hp. pose proof Hc as [Hl _].
  destruct (head_is_Some mask hs Hm Hl (h p)) as [head Hh].
  exists (<[slot mask (h p) := Z.of_nat (length fin)]> hs), {| p with Z_NEXT := head |}.
  split; [|split; [by apply chains_link | done]].
  unfold link_bucket. rewrite HT_HASH_EX_slot, Hh by done. cbn [mbind option_bind].
  rewrite set_bucket_next by done. cbn [mbind option_bind]. by rewrite set_HASH_EX_slot.
Qed.

Lemma read_todo fin mid b todo rest i : i = Z.of_nat (length fin + length mid) ->
  bucket ((Some <$> fin) ++ mid ++ (Some <$> (b :: todo)) ++ rest) i = Some b.
Proof.
  intros ->. unfold bucket. rewrite aget_nat, lookup_app_r by (rewrite length_fmap; lia).
  rewrite length_fmap, lookup_app_r by lia. by replace (length fin + length mid - length fin
    - length mid)%nat with 0%nat by lia.
Qed.

Lemma link_loop todo : forall mask hs fin rest,
  good_mask mask -> chains mask hs fin -> Forall (fun b => live b = true) todo ->
  exists hs' bs', rehash_link_loop (length todo) mask hs ((Some <$> (fin ++ todo)) ++ rest)
      (Z.of_nat (length fin)) = Some (hs', (Some <$> bs') ++ rest) /\
    chains mask hs' bs' /\ strip <$> bs' = strip <$> (fin ++ todo).
Proof.
  induction todo as [|b todo IH]; intros mask hs fin rest Hm Hc Hl; cbn [length rehash_link_loop].
  - exists hs, fin. by rewrite app_nil_r.
  - apply Forall_cons in Hl as [Hb Hl].
    rewrite (cells_bucket _ _ _ b) by (by rewrite list_lookup_middle). cbn [mbind option_bind].
    rewrite fmap_app, fmap_cons, <- app_assoc. cbn [app].
    destruct (link_bucket_step mask hs fin (Some b) ((Some <$> todo) ++ rest) b Hm Hc Hb)
      as (hs1 & b' & -> & Hc1 & Hs). cbn [mbind option_bind].
    replace (Z.of_nat (length fin) + 1) with (Z.of_nat (length (fin ++ [b'])))
      by (rewrite length_app; cbn; lia).
    rewrite app_assoc, <- fmap_app. 
    destruct (IH mask hs1 (fin ++ [b']) rest Hm Hc1 Hl) as (hs2 & bs' & E & Hc2 & Hs2).
    exists hs2, bs'. split; [done|]. split; [done|]. rewrite Hs2, <- app_assoc, !fmap_app. cbn.
    by rewrite Hs.
Qed.

Lemma undef_live b : Z_ISUNDEF (val b) = negb (live b).
Proof. unfold live. by rewrite negb_involutive. Qed.

Lemma filter_live_all bs : Forall (fun b => live b = true) bs -> filter live bs = bs.
Proof.
  induction 1 as [|b bs Hb _ IH]; [done|]. rewrite filter_cons_True by (by rewrite Hb). by rewrite IH.
Qed.

Lemma filter_live_cons b bs :
  filter live (b :: bs) = if live b then b :: filter live bs else filter live bs.
Proof. rewrite filter_cons. by destruct (decide (live b)), (live b). Qed.

(** What the compaction loops guarantee: the live buckets of [bs], relinked, at the front. *)
Definition compacted ht (st : compaction V) bs (r : option (compaction V * Z)) : Prop :=
  exists st' bs' rest, r = Some (st', Z.of_nat (length bs')) /\
    c_data st' = (Some <$> bs') ++ rest /\ length (c_data st') = length (c_data st) /\
    chains (nTableMask ht) (c_heads st') bs' /\ strip <$> bs' = strip <$> filter live bs /\
    same_globals (c_EG st) (c_EG st') /\ 0 <= c_pointer st'.

(** The state of the compaction loops: [fin] is finished, [mid] is free, [todo] is left. *)
Record compacting ht (st : compaction V) fin (mid : list (option (Bucket V))) todo rest : Prop := {
  cp_chains : chains (nTableMask ht) (c_heads st) fin;
  cp_live : Forall (fun b => live b = true) fin;
  cp_data : c_data st = (Some <$> fin) ++ mid ++ (Some <$> todo) ++ rest;
  cp_used : Z.of_nat (length fin + length mid + length todo) <= nNumUsed ht;
  cp_pointer : 0 <= c_pointer st }.

Lemma compact_skip ht st fin mid b todo rest :
  compacting ht st fin mid (b :: todo) rest -> compacting ht st fin (mid ++ [Some b]) todo rest.
Proof.
  intros [Hc Hl Hd Hu Hp]. split; try done.
  - rewrite Hd. cbn. by rewrite <- (app_assoc mid).
  - rewrite length_app. cbn in *. lia.
Qed.

(** The iterators a moved bucket takes along. *)
Lemma compact_iterators ht st i j : i <= nNumUsed ht ->
  exists EG' pos,
    (if HT_HAS_ITERATORS ht && (c_iter_pos st <=? i)
     then move_iterators (S (Z.to_nat (i - c_iter_pos st))) (c_EG st) ht (c_iter_pos st) i j
     else Some (c_EG st, c_iter_pos st)) = Some (EG', pos) /\ same_globals (c_EG st) EG'.
Proof.
  intros Hi. destruct (HT_HAS_ITERATORS ht && _); [|by eexists _, _].
  by apply move_iterators_total; [|lia].
Qed.

Lemma compact_ok todo : forall ht st fin mid rest,
  good_mask (nTableMask ht) -> compacting ht st fin mid todo rest -> mid <> [] ->
  compacted ht st (fin ++ todo)
    (compact_loop (length todo) ht st (Z.of_nat (length fin + length mid)) (Z.of_nat (length fin))).
Proof.
  induction todo as [|b todo IH]; intros ht st fin mid rest Hm Hcp Hmid; cbn [length compact_loop].
  - destruct Hcp as [Hc Hl Hd Hu Hp]. exists st, fin, (mid ++ rest). split_and!; try done.
    by rewrite app_nil_r, filter_live_all.
  - rewrite (cp_data _ _ _ _ _ _ Hcp), read_todo by done. cbn [mbind option_bind].
    rewrite undef_live. destruct (live b) eqn:Hb; cbn [negb].
    + destruct mid as [|c mid]; [done|]. destruct Hcp as [Hc Hl Hd Hu Hp]. cbn [app].
      destruct (link_bucket_step (nTableMask ht) (c_heads st) fin c
        (mid ++ (Some <$> (b :: todo)) ++ rest) b Hm Hc Hb) as (hs1 & b' & -> & Hc1 & Hs).
      cbn [mbind option_bind].
      destruct (compact_iterators ht st (Z.of_nat (length fin + length (c :: mid)))
        (Z.of_nat (length fin))) as (EG' & pos & -> & Hg); [cbn in *; lia|].
      cbn [mbind option_bind].
      match goal with |- compacted _ _ _ (compact_loop _ _ ?s _ _) => set (st1 := s) end.
      assert (compacting ht st1 (fin ++ [b']) (mid ++ [Some b]) todo rest) as Hcp1.
      { split; try done.
        - apply Forall_app. split; [done|]. apply Forall_singleton. by rewrite (strip_live _ _ Hs).
        - cbn. by rewrite <- (app_assoc mid).
        - rewrite !length_app. cbn in *. lia.
        - cbn. destruct (_ =? _); lia. }
      specialize (IH ht st1 _ _ _ Hm Hcp1 ltac:(by destruct mid)).
      rewrite !length_app in IH. cbn [length] in IH.
      replace (Z.of_nat (length fin + 1 + (length mid + 1)))
        with (Z.of_nat (length fin + length (c :: mid)) + 1) in IH by (cbn; lia).
      replace (Z.of_nat (length fin + 1)) with (Z.of_nat (length fin) + 1) in IH by lia.
      destruct IH as (st' & bs' & rest' & E & H1 & H2 & H3 & H4 & H5 & H6).
      exists st', bs', rest'. split_and!; try done.
      * rewrite H2, Hd. cbn. rewrite !length_app, !length_fmap. cbn.
        rewrite !length_app, !length_fmap. cbn. rewrite length_app, length_fmap. lia.
      * rewrite H4, <- app_assoc. rewrite !filter_app, !fmap_app. f_equal. cbn [app].
        rewrite !filter_live_cons, Hb, (strip_live _ _ Hs), Hb, !fmap_cons. by rewrite Hs.
      * by transitivity EG'.
    + specialize (IH ht st _ _ _ Hm (compact_skip _ _ _ _ _ _ _ Hcp) ltac:(by destruct mid)).
      rewrite length_app in IH. cbn [length] in IH.
      replace (Z.of_nat (length fin + (length mid + 1)))
        with (Z.of_nat (length fin + length mid) + 1) in IH by lia.
      destruct IH as (st' & bs' & rest' & E & H1 & H2 & H3 & H4 & H5 & H6).
      exists st', bs', rest'. split_and!; try done.
      rewrite H4, !filter_app, filter_live_cons, Hb. done.
Qed.

Lemma holes_ok todo : forall ht st fin rest,
  good_mask (nTableMask ht) -> compacting ht st fin [] todo rest ->
  nNumUsed ht = Z.of_nat (length fin + length todo) ->
  compacted ht st (fin ++ todo) (rehash_holes_loop (length todo) ht st (Z.of_nat (length fin))).
Proof.
  induction todo as [|b todo IH]; intros ht st fin rest Hm Hcp Hu; cbn [length rehash_holes_loop].
  - destruct Hcp as [Hc Hl Hd _ Hp]. exists st, fin, rest. cbn in Hu. rewrite Hu, Nat.add_0_r.
    split_and!; try done. by rewrite app_nil_r, filter_live_all.
  - rewrite (cp_data _ _ _ _ _ _ Hcp), read_todo by (cbn; lia). cbn [mbind option_bind].
    rewrite undef_live. destruct (live b) eqn:Hb; cbn [negb].
    + destruct Hcp as [Hc Hl Hd Hu' Hp]. cbn [app]. rewrite fmap_cons. cbn [app].
      destruct (link_bucket_step (nTableMask ht) (c_heads st) fin (Some b)
        ((Some <$> todo) ++ rest) b Hm Hc Hb) as (hs1 & b' & -> & Hc1 & Hs).
      cbn [mbind option_bind].
      match goal with |- compacted _ _ _ (rehash_holes_loop _ _ ?s _) => set (st1 := s) end.
      assert (compacting ht st1 (fin ++ [b']) [] todo rest) as Hcp1.
      { split; try done.
        - apply Forall_app. split; [done|]. apply Forall_singleton. by rewrite (strip_live _ _ Hs).
        - rewrite !length_app. cbn in *. lia. }
      specialize (IH ht st1 _ _ Hm Hcp1). rewrite length_app in IH. cbn [length] in IH.
      replace (Z.of_nat (length fin + 1)) with (Z.of_nat (length fin) + 1) in IH by lia.
      destruct IH as (st' & bs' & rest' & E & H1 & H2 & H3 & H4 & H5 & H6); [cbn in Hu; lia|].
      exists st', bs', rest'. split_and!; try done.
      * rewrite H2, Hd. cbn. rewrite !length_app, !length_fmap. cbn.
        rewrite !length_app, !length_fmap. cbn. lia.
      * rewrite H4, <- app_assoc. rewrite !filter_app, !fmap_app. f_equal. cbn [app].
        rewrite !filter_live_cons, Hb, (strip_live _ _ Hs), Hb, !fmap_cons. by rewrite Hs.
    + match goal with |- compacted _ _ _ (compact_loop _ _ ?s _ _) => set (st1 := s) end.
      assert (compacting ht st1 fin [Some b] todo rest) as Hcp1.
      { destruct Hcp as [Hc Hl Hd Hu' Hp]. split; try done. cbn in *. lia. }
      pose proof (compact_ok todo ht st1 fin _ _ Hm Hcp1 ltac:(done)) as IH'.
      cbn [length] in IH'. rewrite Nat2Z.inj_add in IH'. cbn in IH'.
      destruct IH' as (st' & bs' & rest' & E & H1 & H2 & H3 & H4 & H5 & H6).
      exists st', bs', rest'. split_and!; try done; [by rewrite H2, (cp_data _ _ _ _ _ _ Hcp)|].
      rewrite H4, !filter_app, filter_live_cons, Hb. done.
Qed.

(** ** Rehashing *)

(** A mixed table whose chains are still to be built. *)
Record unchained ht bs : Prop := {
  un_cells : exists rest, arData ht = (Some <$> bs) ++ rest;
  un_used : nNumUsed ht = Z.of_nat (length bs);
  un_block : Z.of_nat (length (arData ht)) = nTableSize ht;
  un_size : 8 <= nTableSize ht <= 2 ^ 30;
  un_elems : nNumOfElements ht = Z.of_nat (length (entries bs));
  un_keys : NoDup (entries bs).*1;
  un_buckets : Forall (bucket_ok (nNextFreeElement ht)) bs;
  un_next : 0 <= nNextFreeElement ht <= ZEND_LONG_MAX;
  un_pointer : 0 <= nInternalPointer ht;
  un_mixed : mixed ht;
  un_mask : nTableMask ht = HT_SIZE_TO_MASK (nTableSize ht) }.

Lemma mixed_unchained ht bs : wf ht bs -> mixed ht -> unchained ht bs.
Proof.
  intros Hwf Hmx. destruct (mixed_layout _ _ Hwf Hmx) as (Hm & _). pose proof Hmx as [Hu _].
  destruct Hwf as [H1 H2 H3 H4 H5 H6 H7 H8 H9 H10]. rewrite Hu in H3. by split.
Qed.

Lemma reset_heads_chains mask size : 8 <= size <= 2 ^ 30 -> mask = HT_SIZE_TO_MASK size ->
  good_mask mask /\ chains mask (reset_heads mask) (@nil (Bucket V)).
Proof.
  intros Hs ->. destruct (mask_of_size size) as (E & Hg & El); [lia|]. split; [done|].
  apply chains_empty; [done|]. unfold reset_heads. rewrite length_replicate, El, E. lia.
Qed.

Lemma all_live bs : length (entries bs) = length bs -> Forall (fun b => live b = true) bs.
Proof.
  rewrite length_entries. induction bs as [|b bs IH]; [constructor|].
  rewrite filter_live_cons. intros H. pose proof (length_filter live bs) as Hle.
  destruct (live b) eqn:Hb; cbn in H; [|lia]. constructor; [done|]. apply IH. lia.
Qed.

Lemma filter_live_ok next bs : Forall (bucket_ok next) bs -> Forall (bucket_ok next) (filter live bs).
Proof.
  rewrite !Forall_forall. intros H b [_ Hb]%list_elem_of_filter. by apply H.
Qed.

(** The result of a rehash. *)
Definition rehashed EG ht bs (r : option (executor_globals V * HashTable V)) : Prop :=
  exists EG' ht' bs', r = Some (EG', ht') /\ wf ht' bs' /\ mixed ht' /\
    strip <$> bs' = strip <$> filter live bs /\ same_globals EG EG' /\ same_table ht ht' /\
    nTableSize ht' = nTableSize ht.

Lemma relinked_wf ht ht' bs bs' rest :
  unchained ht bs -> same_table ht ht' -> mixed ht' -> nTableSize ht' = nTableSize ht ->
  nTableMask ht' = nTableMask ht -> strip <$> bs' = strip <$> filter live bs ->
  arData ht' = (Some <$> bs') ++ rest -> length (arData ht') = length (arData ht) ->
  nNumUsed ht' = Z.of_nat (length bs') -> 0 <= nInternalPointer ht' ->
  chains (nTableMask ht') (arHash ht') bs' -> wf ht' bs'.
Proof.
  intros [H1 H2 H3 H4 H5 H6 H7 H8 H9 H10 H11] (A1&A2&A3&A4&A5&A6) [Hu Hp] Hsz Hmk Hs Hd Hlen Hus Hptr Hc.
  assert (entries bs' = entries bs) as E by (by rewrite <- (entries_filter_live bs); apply strip_entries).
  split.
  - by exists rest.
  - done.
  - rewrite Hu, Hlen, Hsz. done.
  - by rewrite Hsz.
  - by rewrite A5, E.
  - by rewrite E.
  - rewrite A3. apply (strip_buckets_ok _ (filter live bs)); [done|]. by apply filter_live_ok.
  - by rewrite A3.
  - done.
  - unfold layout. rewrite Hu, Hp. by rewrite Hsz, Hmk in *.
Qed.

Lemma rehash_ok EG ht bs : unchained ht bs -> rehashed EG ht bs (zend_hash_rehash EG ht).
Proof.
  intros Hun. pose proof Hun as [H1 H2 H3 H4 H5 H6 H7 H8 H9 [Hu Hp] H11].
  destruct (reset_heads_chains _ _ H4 H11) as [Hg Hc]. destruct H1 as [rest Hd].
  unfold zend_hash_rehash. destruct (Z.eqb_spec (nNumOfElements ht) 0) as [H0|H0].
  - rewrite Hu. eexists EG, _, []. split; [done|].
    assert (filter live bs = []) as Hf by (apply length_zero_iff_nil; rewrite <- length_entries; lia).
    split_and!; try done; [|by rewrite Hf].
    apply (relinked_wf ht _ bs [] (arData ht)); try done. by rewrite Hf.
  - unfold HT_IS_WITHOUT_HOLES. destruct (Z.eqb_spec (nNumUsed ht) (nNumOfElements ht)) as [Hn|Hn].
    + assert (Forall (fun b => live b = true) bs) as Hl by (apply all_live; lia).
      destruct (link_loop bs (nTableMask ht) (reset_heads (nTableMask ht)) [] rest Hg Hc Hl)
        as (hs' & bs' & E & Hc' & Hs). cbn [app length] in E. change (Z.of_nat 0) with 0 in E.
      rewrite H2, Nat2Z.id, Hd, E. cbn [mbind option_bind].
      assert (length bs' = length bs) as Elen.
      { apply (f_equal length) in Hs. by rewrite !length_fmap in Hs. }
      eexists EG, _, bs'. split; [done|].
      split_and!; try done; [|by rewrite filter_live_all].
      apply (relinked_wf ht _ bs bs' rest); try done.
      * by rewrite filter_live_all.
      * cbn. rewrite Hd, !length_app, !length_fmap. by rewrite Elen.
      * cbn. by rewrite Elen.
    + set (st := {| c_heads := reset_heads (nTableMask ht); c_data := arData ht;
                    c_pointer := nInternalPointer ht; c_EG := EG; c_iter_pos := 0 |}).
      assert (compacting ht st [] [] bs rest) as Hcp.
      { split; try done. cbn. lia. }
      destruct (holes_ok bs ht st [] rest Hg Hcp H2)
        as (st' & bs' & rest' & E & Hd' & Hlen & Hc' & Hs & Hgl & Hptr).
      rewrite H2, Nat2Z.id. cbn [app length] in E. change (Z.of_nat 0) with 0 in E. rewrite E.
      cbn [mbind option_bind]. eexists _, _, bs'. split; [done|].
      split_and!; try done.
      * by apply (relinked_wf ht _ bs bs' rest').
      * by destruct (HT_HAS_ITERATORS ht).
Qed.

(** ** Moving to another block *)

(** What does not depend on the layout. *)
Record contents ht bs : Prop := {
  ct_cells : exists rest, arData ht = (Some <$> bs) ++ rest;
  ct_used : nNumUsed ht = Z.of_nat (length bs);
  ct_elems : nNumOfElements ht = Z.of_nat (length (entries bs));
  ct_keys : NoDup (entries bs).*1;
  ct_buckets : Forall (bucket_ok (nNextFreeElement ht)) bs;
  ct_next : 0 <= nNextFreeElement ht <= ZEND_LONG_MAX;
  ct_pointer : 0 <= nInternalPointer ht }.

Lemma wf_contents ht bs : wf ht bs -> contents ht bs.
Proof. by intros []. Qed.

Lemma copy_buckets_cells bs rest (size : Z) : Z.of_nat (length bs) <= size ->
  copy_buckets ((Some <$> bs) ++ rest) (Z.of_nat (length bs)) size
  = (Some <$> bs) ++ fresh_buckets (size - Z.of_nat (length bs)) /\
  Z.of_nat (length (copy_buckets ((Some <$> bs) ++ rest) (Z.of_nat (length bs)) size)) = size.
Proof.
  intros Hs. unfold copy_buckets.
  rewrite Nat2Z.id, take_app_length' by (by rewrite length_fmap). split; [done|].
  rewrite length_app, length_fmap. unfold fresh_buckets. rewrite length_replicate. lia.
Qed.

Lemma moved_unchained ht bs size :
  contents ht bs -> mixed ht -> 8 <= size <= 2 ^ 30 -> Z.of_nat (length bs) <= size ->
  unchained (move_to_mixed_block ht size) bs.
Proof.
  intros [[rest H1] H2 H3 H4 H5 H6 H7] Hmx Hs Hb. unfold move_to_mixed_block.
  rewrite H1, H2. destruct (copy_buckets_cells bs rest size Hb) as [E El].
  split; cbn; try done. rewrite E. by eexists.
Qed.

Lemma rehashed_same_table EG ht ht0 bs r :
  rehashed EG ht bs r -> same_table ht0 ht -> exists EG' ht' bs', r = Some (EG', ht') /\
    wf ht' bs' /\ mixed ht' /\ strip <$> bs' = strip <$> filter live bs /\ same_globals EG EG' /\
    same_table ht0 ht' /\ nTableSize ht' = nTableSize ht.
Proof.
  intros (EG' & ht' & bs' & E & H1 & H2 & H3 & H4 & H5 & H6) H.
  exists EG', ht', bs'. split_and!; try done. by transitivity ht.
Qed.

(** Room for one more bucket. *)
Definition room ht bs : Prop := Z.of_nat (length bs) < nTableSize ht.

Lemma strip_length bs bs' : strip <$> bs' = strip <$> filter live bs ->
  length bs' = length (entries bs).
Proof. intros E%(f_equal length). by rewrite !length_fmap, <- length_entries in E. Qed.

(** A mixed table that is full gets room: its contents are kept, and its size at most doubles, only
    when more than 32/33 of the buckets in use are live. *)
Lemma if_full_resize_ok EG ht bs : wf ht bs -> mixed ht -> nTableSize ht <= 2 ^ 29 ->
  exists EG' ht' bs', ZEND_HASH_IF_FULL_DO_RESIZE EG ht = Some (EG', ht') /\
    wf ht' bs' /\ mixed ht' /\ entries bs' = entries bs /\ same_globals EG EG' /\
    same_table ht ht' /\ room ht' bs' /\
    (nTableSize ht' = nTableSize ht \/
     nTableSize ht' = 2 * nTableSize ht /\ nTableSize ht <= 2 * nNumOfElements ht).
Proof.
  intros Hwf Hmx Hsz. unfold ZEND_HASH_IF_FULL_DO_RESIZE, room.
  pose proof (wf_used _ _ Hwf) as Hu. pose proof (wf_bound _ _ Hwf) as Hb.
  pose proof (wf_size _ _ Hwf) as Hs. pose proof (wf_elems _ _ Hwf) as He.
  pose proof (length_filter live bs) as Hle. rewrite <- length_entries in Hle.
  destruct (Z.leb_spec (nTableSize ht) (nNumUsed ht)) as [Hfull|Hroom].
  2:{ eexists EG, ht, bs. split_and!; try done; [lia|by left]. }
  unfold zend_hash_do_resize.
  assert (u32 (nNumOfElements ht + Z.shiftr (nNumOfElements ht) 5)
          = nNumOfElements ht + nNumOfElements ht / 32) as ->.
  { rewrite Z.shiftr_div_pow2 by lia. change (2 ^ 5) with 32. unfold u32. apply uwrap_small.
    pose proof (Z.div_pos (nNumOfElements ht) 32). pose proof (Z.div_le_upper_bound (nNumOfElements ht) 32 (2 ^ 30)). lia. }
  pose proof (Z.div_le_upper_bound (nNumOfElements ht) 32 (nNumOfElements ht)) as Hdiv.
  destruct (Z.ltb_spec (nNumOfElements ht + nNumOfElements ht / 32) (nNumUsed ht)) as [Hh|Hh].
  - destruct (rehash_ok EG ht bs (mixed_unchained _ _ Hwf Hmx))
      as (EG' & ht' & bs' & E & H1 & H2 & H3 & H4 & H5 & H6).
    exists EG', ht', bs'. split_and!; try done; [| |by left].
    + rewrite <- (entries_filter_live bs). by apply strip_entries.
    + apply strip_length in H3. assert (0 <= nNumOfElements ht / 32) by (apply Z.div_pos; lia). lia.
  - rewrite (proj2 (Z.ltb_lt _ _)) by (unfold HT_MAX_SIZE; lia).
    assert (u32 (nTableSize ht + nTableSize ht) = 2 * nTableSize ht) as ->.
    { unfold u32. rewrite uwrap_small; lia. }
    assert (same_table ht (move_to_mixed_block ht (2 * nTableSize ht))) as Hst by done.
    destruct (rehashed_same_table _ _ _ _ _
      (rehash_ok EG _ bs (moved_unchained ht bs (2 * nTableSize ht) (wf_contents _ _ Hwf) Hmx
         ltac:(lia) ltac:(lia))) Hst)
      as (EG' & ht' & bs' & E & H1 & H2 & H3 & H4 & H5 & H6).
    exists EG', ht', bs'. split_and!; try done.
    + rewrite <- (entries_filter_live bs). by apply strip_entries.
    + rewrite H6. cbn. apply strip_length in H3. lia.
    + right. split; [done|]. lia.
Qed.

(** The conversion of a packed table: holes disappear. *)
Lemma packed_to_hash_rehashed EG ht bs :
  contents ht bs -> HASH_FLAG_UNINITIALIZED ht = false -> 8 <= nTableSize ht <= 2 ^ 30 ->
  Z.of_nat (length bs) <= nTableSize ht ->
  exists EG' ht' bs', zend_hash_packed_to_hash EG ht = Some (EG', ht') /\
    wf ht' bs' /\ mixed ht' /\ strip <$> bs' = strip <$> filter live bs /\ same_globals EG EG' /\
    same_table ht ht' /\ nTableSize ht' = nTableSize ht.
Proof.
  intros Hct Hu Hs Hb. unfold zend_hash_packed_to_hash.
  assert (contents {| ht with HASH_FLAG_PACKED := false |} bs) as Hct' by (by destruct Hct).
  by apply (rehashed_same_table EG _ ht _ _
    (rehash_ok EG _ bs (moved_unchained _ bs (nTableSize ht) Hct' ltac:(done) Hs Hb))).
Qed.

Lemma packed_to_hash_ok EG ht bs :
  contents ht bs -> HASH_FLAG_UNINITIALIZED ht = false -> 8 <= nTableSize ht <= 2 ^ 30 ->
  Z.of_nat (length bs) <= nTableSize ht ->
  exists EG' ht' bs', zend_hash_packed_to_hash EG ht = Some (EG', ht') /\
    wf ht' bs' /\ mixed ht' /\ entries bs' = entries bs /\ length bs' = length (entries bs) /\
    same_globals EG EG' /\ same_table ht ht' /\ nTableSize ht' = nTableSize ht.
Proof.
  intros Hct Hu Hs Hb. destruct (packed_to_hash_rehashed EG ht bs Hct Hu Hs Hb)
    as (EG' & ht' & bs' & E & H1 & H2 & H3 & H4 & H5 & H6).
  exists EG', ht', bs'. split_and!; try done; [|by apply strip_length].
  rewrite <- (entries_filter_live bs). by apply strip_entries.
Qed.
End Rehash.
