(* ===== verification/ZendHashUpdate.v ===== *)
(** * The engine's hash table: insertion, update and deletion refine an ordered map

    Each operation of [ZendHash] on a well-formed table succeeds and does to [entries] what the
    ordered map of [OrderedMap] does, on every layout the table can be in. *)
From S2P Require Import Prelude ZendString ZendHash OrderedMap ZendHashInv ZendHashRehash.

Section Update.
Context {V : Type}.
Implicit Types (b p : Bucket V) (bs : list (Bucket V)) (ar : list (option (Bucket V)))
  (ht : HashTable V) (EG : executor_globals V) (z : zval V).

(** ** Changing a value in place *)

(** What the layout depends on. *)
Definition shape b : bool * Z * Z * option zend_string := (live b, Z_NEXT b, h b, key b).

Lemma shape_lookup bs bs' i b' : shape <$> bs = shape <$> bs' -> bs' !! i = Some b' ->
  exists b, bs !! i = Some b /\ shape b = shape b'.
Proof.
  intros E Hi. apply (f_equal (fun l => l !! i)) in E. rewrite !list_lookup_fmap, Hi in E.
  destruct (bs !! i) as [b|]; cbn in E; [|done]. exists b. split; [done|]. congruence.
Qed.

Lemma shape_length bs bs' : shape <$> bs = shape <$> bs' -> length bs = length bs'.
Proof. intros E%(f_equal length). by rewrite !length_fmap in E. Qed.

Lemma shape_ids mask n bs bs' s : shape <$> bs = shape <$> bs' ->
  ids_from mask n bs s = ids_from mask n bs' s.
Proof.
  intros E. apply ids_from_ext. apply list_eq. intros i. rewrite !list_lookup_fmap.
  apply (f_equal (fun l => l !! i)) in E. rewrite !list_lookup_fmap in E.
  destruct (bs !! i), (bs' !! i); try done. cbn in *. f_equal. unfold on_chain.
  by injection E as -> _ -> _.
Qed.

Lemma chains_shape mask hs bs bs' : shape <$> bs = shape <$> bs' ->
  chains mask hs bs -> chains mask hs bs'.
Proof.
  intros E [Hl Hc]. split; [done|]. intros s st Hs. unfold ids.
  rewrite <- (shape_ids mask 0 bs bs' s E). specialize (Hc s st Hs). revert Hc.
  apply chain_next_ext. intros i b _ Hi.
  destruct (shape_lookup bs' bs i b (eq_sym E) Hi) as (b' & Hb' & Es). exists b'.
  split; [done|]. by injection Es.
Qed.

Lemma layout_shape ht bs bs' : shape <$> bs = shape <$> bs' -> layout ht bs -> layout ht bs'.
Proof.
  intros E. unfold layout. destruct (HASH_FLAG_UNINITIALIZED ht).
  - intros (H1 & H2 & ->). split_and!; try done. by destruct bs'.
  - destruct (HASH_FLAG_PACKED ht).
    + rewrite <- (shape_length _ _ E). intros (H1 & H2 & H3). split_and!; try done.
      intros i b' Hi Hl. destruct (shape_lookup _ _ _ _ E Hi) as (b & Hb & Es).
      injection Es as E1 E2 E3 E4. destruct (H3 i b Hb) as [? ?]; [by rewrite E1|].
      split; congruence.
    + intros [H1 H2]. split; [done|]. by apply (chains_shape _ _ bs).
Qed.

(** The table with other buckets of the same shape. *)
Lemma entries_middle bs1 b bs2 : live b = true ->
  entries (bs1 ++ b :: bs2) = entries bs1 ++ (bkey b, val b) :: entries bs2.
Proof. intros Hl. by rewrite entries_app, entries_cons, Hl. Qed.

Definition set_val z b : Bucket V := {| b with val := z |}.

Lemma wf_set_val ht bs1 b bs2 rest z : wf ht (bs1 ++ b :: bs2) -> live b = true ->
  Z_ISUNDEF z = false -> arData ht = (Some <$> (bs1 ++ b :: bs2)) ++ rest ->
  wf {| ht with arData := (Some <$> (bs1 ++ set_val z b :: bs2)) ++ rest |}
     (bs1 ++ set_val z b :: bs2).
Proof.
  intros [_ H2 H3 H4 H5 H6 H7 H8 H9 H10] Hl Hz Hd.
  assert (live (set_val z b) = true) as Hl' by (unfold live; cbn; by rewrite Hz).
  rewrite entries_middle in H5, H6 by done.
  split; cbn; rewrite ?(entries_middle _ _ _ Hl'); try done.
  - by eexists.
  - by rewrite H2, !length_app.
  - rewrite <- H3, Hd. by rewrite !length_app, !length_fmap, !length_app.
  - by rewrite !length_app in *.
  - by rewrite !fmap_app, !fmap_cons in *.
  - apply Forall_app in H7 as [Ha [Hb Hc]%Forall_cons]. apply Forall_app. split; [done|].
    apply Forall_cons. split; [|done]. intros _. apply (Hb Hl).
  - apply (layout_shape _ (bs1 ++ b :: bs2)); [|done].
    rewrite !fmap_app, !fmap_cons. do 2 f_equal. unfold shape. by rewrite Hl, Hl'.
Qed.

(** What a replacement leaves alone besides the counters. *)
Definition same_layout ht ht' : Prop :=
  nTableSize ht' = nTableSize ht /\ HASH_FLAG_PACKED ht' = HASH_FLAG_PACKED ht /\
  HASH_FLAG_UNINITIALIZED ht' = HASH_FLAG_UNINITIALIZED ht /\
  HASH_FLAG_HAS_EMPTY_IND ht' = HASH_FLAG_HAS_EMPTY_IND ht.

(** The calls to the destructor for the value a key had. *)
Definition destroyed_by ht (old : option (zval V)) : list (zval V) :=
  if pDestructor ht then option_list old else [].

Lemma call_destructor_spec EG ht v :
  slots (call_destructor EG ht v) = slots EG /\
  destroyed (call_destructor EG ht v) = destroyed EG ++ destroyed_by ht (Some v) /\
  ht_iterators (call_destructor EG ht v) = ht_iterators EG.
Proof.
  unfold call_destructor, destroyed_by. destruct (pDestructor ht); cbn; [done|].
  by rewrite app_nil_r.
Qed.

Lemma replace_bucket_ok EG ht bs k bs1 b bs2 z :
  wf ht bs -> holds bs k bs1 b bs2 -> Z_ISUNDEF z = false ->
  exists EG' ht', replace_at EG ht (ZBUCKET (Z.of_nat (length bs1))) z
    = Some (EG', ht', Some (ZBUCKET (Z.of_nat (length bs1)))) /\
    wf ht' (bs1 ++ set_val z b :: bs2) /\
    entries (bs1 ++ set_val z b :: bs2) = om_insert k z (entries bs) /\
    om_lookup k (entries bs) = Some (val b) /\
    slots EG' = slots EG /\ destroyed EG' = destroyed EG ++ destroyed_by ht (Some (val b)) /\
    same_table ht ht' /\ same_layout ht ht'.
Proof.
  intros Hwf Hh Hz. pose proof Hh as (-> & Hl & Hk & H1 & H2).
  destruct (wf_cells _ _ Hwf) as [rest Hd].
  assert (bucket (arData ht) (Z.of_nat (length bs1)) = Some b) as Hb.
  { apply (wf_bucket _ _ _ _ Hwf). by apply list_lookup_middle. }
  unfold replace_at, zread, zwrite. rewrite Hb. cbn [fmap option_fmap option_map mbind option_bind].
  rewrite Hd, set_bucket_cells by done. cbn [mbind option_bind].
  destruct (call_destructor_spec EG ht (val b)) as (E1 & E2 & _).
  eexists _, _. split; [done|]. split; [by apply wf_set_val|].
  rewrite (holds_entries _ _ _ _ _ Hh), om_insert_middle, om_lookup_middle by done.
  split_and!; try done. rewrite entries_middle; [by rewrite <- Hk|].
  unfold live. cbn. by rewrite Hz.
Qed.

(** ** A new bucket at the end of a mixed table *)
Lemma add_to_hash_ok EG ht bs hash k z :
  wf ht bs -> mixed ht -> room ht bs -> Z_ISUNDEF z = false ->
  let b := {| val := z; Z_NEXT := HT_INVALID_IDX; h := hash; key := k |} in
  bucket_ok (nNextFreeElement ht) b -> bkey b ∉ (entries bs).*1 ->
  exists ht' bs', add_to_hash EG ht hash k z = Some (EG, ht', Some (ZBUCKET (nNumUsed ht))) /\
    wf ht' bs' /\ mixed ht' /\ entries bs' = entries bs ++ [(bkey b, z)] /\
    val <$> bucket (arData ht') (nNumUsed ht) = Some z /\
    pDestructor ht' = pDestructor ht /\ nTableSize ht' = nTableSize ht /\
    nNextFreeElement ht' = nNextFreeElement ht /\
    HASH_FLAG_STATIC_KEYS ht' = HASH_FLAG_STATIC_KEYS ht.
Proof.
  intros Hwf Hmx Hroom Hz b Hok Hnew.
  destruct (mixed_layout _ _ Hwf Hmx) as (Hm & Hg & Hc). unfold room in Hroom.
  destruct Hwf as [[rest Hd] H2 H3 H4 H5 H6 H7 H8 H9 _]. pose proof Hmx as [Hu Hp].
  rewrite Hu, Hd, length_app, length_fmap in H3.
  destruct rest as [|c rest]; [cbn in H3; lia|].
  assert (live b = true) as Hl by (unfold live; cbn; by rewrite Hz).
  destruct (link_bucket_step (nTableMask ht) (arHash ht) bs c rest b Hg Hc Hl)
    as (hs' & b' & E & Hc' & Hs).
  unfold add_to_hash. fold b. rewrite H2, Hd, E. cbn [mbind option_bind].
  assert (entries (bs ++ [b']) = entries bs ++ [(bkey b, z)]) as Een.
  { rewrite entries_app, entries_cons, (strip_live _ _ Hs), Hl, (strip_key _ _ Hs). cbn.
    unfold strip in Hs. by injection Hs as -> _ _. }
  eexists _, (bs ++ [b']). split; [done|].
  assert (u32 (Z.of_nat (length bs) + 1) = Z.of_nat (length (bs ++ [b']))) as Eu.
  { rewrite length_app. cbn. unfold u32. rewrite uwrap_small; lia. }
  assert (length (entries bs) <= length bs)%nat as Hle.
  { rewrite length_entries. apply length_filter. }
  split_and!; try done.
  - split; cbn; rewrite ?Een; try done.
    + by eexists.
    + rewrite Hu. rewrite <- H3, !length_app, !length_fmap, !length_app. cbn. lia.
    + rewrite length_app, H5. cbn. unfold u32. rewrite uwrap_small; lia.
    + rewrite fmap_app. cbn. apply NoDup_app. split_and!; [done| |apply NoDup_singleton].
      intros k' Hk' ->%list_elem_of_singleton. done.
    + apply Forall_app. split; [done|]. apply Forall_singleton. by apply (strip_bucket_ok _ b).
    + unfold layout. cbn. rewrite Hu, Hp. done.
  - cbn [arData]. rewrite (cells_bucket _ _ _ b') by (by apply list_lookup_middle). cbn.
    unfold strip in Hs. by injection Hs as -> _ _.
Qed.

(** ** The size of the block

    After [n] insertions a table has at most [n] elements, and its block is not more than a constant
    factor bigger. *)
Definition capped (n : Z) ht : Prop :=
  nNumOfElements ht <= n /\
  nTableSize ht <= if mixed_dec ht then Z.max 16 (8 * n) else Z.max 8 (4 * n).

Definition grows ht ht' : Prop := forall n, capped n ht -> capped (n + 1) ht'.

(** ** What an insertion guarantees *)
Definition inserted EG ht bs (k : hkey) z (r : option (result V)) : Prop :=
  exists EG' ht' bs' ref, r = Some (EG', ht', Some ref) /\
    wf ht' bs' /\ entries bs' = om_insert k z (entries bs) /\ zread EG' ht' ref = Some z /\
    slots EG' = slots EG /\
    destroyed EG' = destroyed EG ++ destroyed_by ht (om_lookup k (entries bs)) /\
    pDestructor ht' = pDestructor ht /\ grows ht ht'.

(** The key is there and must not be: nothing changes and the result is NULL. *)
Definition rejected EG ht (r : option (result V)) : Prop := r = Some (EG, ht, None).

Lemma destroyed_by_none ht : destroyed_by ht None = [].
Proof. unfold destroyed_by. by destruct (pDestructor ht). Qed.

Lemma wf_capped ht bs n : wf ht bs ->
  Z.of_nat (length (entries bs)) <= n ->
  nTableSize ht <= (if mixed_dec ht then Z.max 16 (8 * n) else Z.max 8 (4 * n)) -> capped n ht.
Proof. intros Hwf Hn Hs. split; [|done]. by rewrite (wf_elems _ _ Hwf). Qed.

Lemma replaced_inserted EG ht bs k bs1 b bs2 z :
  wf ht bs -> holds bs k bs1 b bs2 -> Z_ISUNDEF z = false ->
  inserted EG ht bs k z (replace_at EG ht (ZBUCKET (Z.of_nat (length bs1))) z).
Proof.
  intros Hwf Hh Hz.
  destruct (replace_bucket_ok EG ht bs k bs1 b bs2 z Hwf Hh Hz)
    as (EG' & ht' & -> & Hwf' & Hen & Hlk & Hs & Hd & Ht & Hlay).
  eexists EG', ht', _, _. split; [done|]. rewrite Hlk.
  split_and!; try done; [|apply Ht|].
  - cbn. rewrite (wf_bucket _ _ _ (set_val z b) Hwf') by (by apply list_lookup_middle). done.
  - intros n [Hn Hc]. destruct Ht as (_ & _ & _ & _ & He & _). destruct Hlay as (Hsz & Hp & Hu & _).
    split; [lia|]. rewrite Hsz. destruct (mixed_dec ht) as [Hm|Hm], (mixed_dec ht') as [Hm'|Hm']; try lia.
    exfalso. apply Hm'. unfold mixed in *. by rewrite Hp, Hu.
Qed.

Lemma fresh_bucket_ok next z k :
  bucket_ok next {| val := z; Z_NEXT := HT_INVALID_IDX; h := zend_string_hash_val k; key := Some k |}.
Proof. intros _. cbn. split; [done|]. split; [apply hash_val_range | done]. Qed.

(** [add_to_hash] on a mixed table with room for a new key. *)
Lemma add_new_ok EG ht bs hash k z m :
  wf ht bs -> mixed ht -> room ht bs -> Z_ISUNDEF z = false -> entries bs = m ->
  let b := {| val := z; Z_NEXT := HT_INVALID_IDX; h := hash; key := k |} in
  bucket_ok (nNextFreeElement ht) b -> bkey b ∉ m.*1 ->
  exists ht' bs' ref, add_to_hash EG ht hash k z = Some (EG, ht', Some ref) /\
    wf ht' bs' /\ mixed ht' /\ entries bs' = om_insert (bkey b) z m /\
    zread EG ht' ref = Some z /\ pDestructor ht' = pDestructor ht /\ nTableSize ht' = nTableSize ht.
Proof.
  intros Hwf Hmx Hroom Hz <- b Hok Hnew.
  destruct (add_to_hash_ok EG ht bs hash k z Hwf Hmx Hroom Hz Hok Hnew)
    as (ht' & bs' & E & Hwf' & Hmx' & Hen & Hr & Hd & Hsz & _).
  exists ht', bs', (ZBUCKET (nNumUsed ht)). split_and!; try done.
  by rewrite om_insert_new.
Qed.

(** The same with the table made bigger first if it is full. *)
Lemma resize_add_ok EG ht bs hash k z m :
  wf ht bs -> mixed ht -> nTableSize ht <= 2 ^ 29 -> Z_ISUNDEF z = false -> entries bs = m ->
  let b := {| val := z; Z_NEXT := HT_INVALID_IDX; h := hash; key := k |} in
  bucket_ok (nNextFreeElement ht) b -> bkey b ∉ m.*1 ->
  exists EG' ht' bs' ref,
    ('(EG, ht) ← ZEND_HASH_IF_FULL_DO_RESIZE EG ht; add_to_hash EG ht hash k z)
      = Some (EG', ht', Some ref) /\
    wf ht' bs' /\ mixed ht' /\ entries bs' = om_insert (bkey b) z m /\
    zread EG' ht' ref = Some z /\ same_globals EG EG' /\ pDestructor ht' = pDestructor ht /\
    (nTableSize ht' = nTableSize ht \/
     nTableSize ht' = 2 * nTableSize ht /\ nTableSize ht <= 2 * nNumOfElements ht).
Proof.
  intros Hwf Hmx Hsz Hz Hm b Hok Hnew.
  destruct (if_full_resize_ok EG ht bs Hwf Hmx Hsz)
    as (EG1 & ht1 & bs1 & -> & Hwf1 & Hmx1 & Hen1 & Hg1 & Ht1 & Hr1 & Hs1).
  cbn [mbind option_bind]. destruct Ht1 as (_ & _ & Hn1 & Hd1 & _).
  destruct (add_new_ok EG1 ht1 bs1 hash k z m Hwf1 Hmx1 Hr1 Hz)
    as (ht' & bs' & ref & E & Hwf' & Hmx' & Hen & Hr & Hd & Hsz'); [congruence|by rewrite Hn1|done|].
  exists EG1, ht', bs', ref. rewrite Hsz', Hd. done.
Qed.

Lemma om_insert_length_le {K A} `{EqDecision K} (k : K) (x : A) m :
  (length (om_insert k x m) <= S (length m))%nat.
Proof. rewrite om_insert_length. destruct (om_lookup k m); lia. Qed.

(** Close an [inserted] goal from what [resize_add_ok] or [add_new_ok] gave for a new key. *)
Lemma fresh_inserted EG ht bs k z EG' ht' bs' ref r :
  wf ht bs -> k ∉ (entries bs).*1 -> r = Some (EG', ht', Some ref) -> wf ht' bs' -> mixed ht' ->
  entries bs' = om_insert k z (entries bs) -> zread EG' ht' ref = Some z -> same_globals EG EG' ->
  pDestructor ht' = pDestructor ht ->
  (nTableSize ht' <= nTableSize ht \/
   (nTableSize ht' <= 2 * nTableSize ht /\ (nTableSize ht <= 2 * nNumOfElements ht \/ ~ mixed ht))) ->
  inserted EG ht bs k z r.
Proof.
  intros Hwf Hk -> Hwf' Hmx' Hen Hr [Hg1 Hg2] Hd Hsz. exists EG', ht', bs', ref.
  split_and!; try done.
  - rewrite (proj2 (om_lookup_None _ _)), destroyed_by_none, app_nil_r by done. done.
  - intros n [Hn Hc]. pose proof (wf_elems _ _ Hwf) as He. apply (wf_capped _ bs'); [done| |].
    + rewrite Hen. pose proof (om_insert_length_le k z (entries bs)). lia.
    + destruct (mixed_dec ht'); [|done]. destruct (mixed_dec ht); [|lia].
      destruct Hsz as [Hsz|[Hsz [Hsz2|?]]]; [lia|lia|done].
Qed.

(** ** String keys *)
Lemma wf_static ht bs f : wf ht bs -> wf {| ht with HASH_FLAG_STATIC_KEYS := f |} bs.
Proof. by intros []. Qed.

Lemma wf_note_key ht bs k : wf ht bs -> wf (note_key ht k) bs.
Proof. unfold note_key. destruct (ZSTR_IS_INTERNED k); [done|]. apply wf_static. Qed.

Lemma note_key_fields ht k :
  (mixed ht -> mixed (note_key ht k)) /\ nTableSize (note_key ht k) = nTableSize ht /\
  nNextFreeElement (note_key ht k) = nNextFreeElement ht /\
  pDestructor (note_key ht k) = pDestructor ht /\
  nNumOfElements (note_key ht k) = nNumOfElements ht.
Proof. unfold note_key. by destruct (ZSTR_IS_INTERNED k). Qed.

(** Initialising an empty table as a mixed one. *)
Lemma init_mixed_ok ht bs : wf ht bs -> HASH_FLAG_UNINITIALIZED ht = true ->
  bs = [] /\ wf (zend_hash_real_init_mixed_ex ht) [] /\ mixed (zend_hash_real_init_mixed_ex ht) /\
  room (zend_hash_real_init_mixed_ex ht) [].
Proof.
  intros [H1 H2 H3 H4 H5 H6 H7 H8 H9 H10] Hu. unfold layout in H10. rewrite Hu in H10.
  destruct H10 as (_ & _ & ->). split; [done|]. split; [|split; [done|unfold room; cbn; lia]].
  destruct (reset_heads_chains (V := V) _ (nTableSize ht) H4 eq_refl) as [_ Hc].
  split; cbn; try done; [by eexists | unfold fresh_buckets; rewrite length_replicate; lia].
Qed.

Section StringKey.
Context (k : zend_string) (z : zval V) (flag : Z).
Hypothesis Hz : Z_ISUNDEF z = false.
Let K : hkey := KStr (ZSTR_VAL k).

(** Inserting a string key that the table does not have, whatever its layout. *)
Lemma string_fresh EG ht bs :
  wf ht bs -> nTableSize ht <= 2 ^ 29 -> K ∉ (entries bs).*1 ->
  inserted EG ht bs K z (_zend_hash_add_or_update_i EG ht k z flag).
Proof using Hz.
  intros Hwf Hsz Hk. unfold _zend_hash_add_or_update_i.
  pose proof (wf_size _ _ Hwf) as Hs.
  destruct (HASH_FLAG_UNINITIALIZED ht) eqn:Hu.
  - destruct (init_mixed_ok ht bs Hwf Hu) as (-> & Hwf1 & Hmx1 & Hr1).
    destruct (note_key_fields (zend_hash_real_init_mixed_ex ht) k) as (Hmx2 & Hsz2 & Hn2 & Hd2 & _).
    destruct (add_new_ok EG _ [] (zend_string_hash_val k) (Some k) z [] (wf_note_key _ _ k Hwf1)
      (Hmx2 Hmx1)) as (ht' & bs' & ref & E & Hwf' & Hmx' & Hen & Hr & Hd & Hsz'); try done.
    { unfold room in *. by rewrite Hsz2. }
    { apply fresh_bucket_ok. }
    apply (fresh_inserted EG ht [] K z EG ht' bs' ref); try done; [by rewrite Hd, Hd2|].
    left. rewrite Hsz', Hsz2. cbn. lia.
  - destruct (HASH_FLAG_PACKED ht) eqn:Hp.
    + destruct (packed_to_hash_ok EG ht bs (wf_contents _ _ Hwf) Hu Hs (wf_bound _ _ Hwf))
        as (EG1 & ht1 & bs1 & -> & Hwf1 & Hmx1 & Hen1 & Hl1 & Hg1 & Ht1 & Hs1).
      cbn [mbind option_bind].
      destruct (note_key_fields ht1 k) as (Hmx2 & Hsz2 & Hn2 & Hd2 & He2).
      destruct (resize_add_ok EG1 _ bs1 (zend_string_hash_val k) (Some k) z (entries bs)
        (wf_note_key _ _ k Hwf1) (Hmx2 Hmx1))
        as (EG' & ht' & bs' & ref & E & Hwf' & Hmx' & Hen & Hr & Hg & Hd & Hsz');
        [lia|done|done|apply fresh_bucket_ok|done|].
      apply (fresh_inserted EG ht bs K z EG' ht' bs' ref); try done.
      * by transitivity EG1.
      * rewrite Hd, Hd2. apply Ht1.
      * rewrite Hsz2, Hs1 in Hsz'. destruct Hsz' as [|[Hsz' _]]; [left; lia|].
        right. split; [lia|]. right. intros [_ ?]. congruence.
    + assert (mixed ht) as Hmx by done.
      assert (inserted EG ht bs K z ('(EG, ht) ← ZEND_HASH_IF_FULL_DO_RESIZE EG (note_key ht k);
        add_to_hash EG ht (zend_string_hash_val k) (Some k) z)) as Hins.
      { destruct (note_key_fields ht k) as (Hmx2 & Hsz2 & Hn2 & Hd2 & He2).
        destruct (resize_add_ok EG _ bs (zend_string_hash_val k) (Some k) z (entries bs)
          (wf_note_key _ _ k Hwf) (Hmx2 Hmx))
          as (EG' & ht' & bs' & ref & E & Hwf' & Hmx' & Hen & Hr & Hg & Hd & Hsz');
          [lia|done|done|apply fresh_bucket_ok|done|].
        apply (fresh_inserted EG ht bs K z EG' ht' bs' ref); try done; [congruence|].
        rewrite Hsz2, He2 in Hsz'. destruct Hsz' as [->|[-> ?]]; [left; lia|].
        right. split; [lia|]. by left. }
      destruct (negb (has flag HASH_ADD_NEW)); [|done].
      rewrite (find_bucket_key _ _ _ Hwf). fold K. by rewrite (find_key_None _ _ Hk).
Qed.

(** A string key the table has is in a mixed table, and the code finds its bucket. *)
Lemma string_found EG ht bs bs1 b bs2 :
  wf ht bs -> holds bs K bs1 b bs2 -> has flag HASH_ADD_NEW = false ->
  _zend_hash_add_or_update_i EG ht k z flag = found_bucket EG ht (Z.of_nat (length bs1)) z flag.
Proof.
  intros Hwf Hh Hf. unfold _zend_hash_add_or_update_i.
  destruct (mixed_dec ht) as [[Hu Hp]|Hmx].
  - rewrite Hu, Hp, Hf, (find_bucket_key _ _ _ Hwf). fold K. by rewrite (find_key_holds _ _ _ _ _ Hh).
  - exfalso. apply (no_chains_string ht bs (ZSTR_VAL k) Hwf Hmx). 
    rewrite (holds_entries _ _ _ _ _ Hh), fmap_app. apply elem_of_app. right. by left.
Qed.
End StringKey.

Lemma update_inserted EG ht bs k z :
  wf ht bs -> nTableSize ht <= 2 ^ 29 -> Z_ISUNDEF z = false ->
  inserted EG ht bs (KStr (ZSTR_VAL k)) z (zend_hash_update EG ht k z).
Proof.
  intros Hwf Hsz Hz. unfold zend_hash_update.
  destruct (key_cases _ _ (KStr (ZSTR_VAL k)) Hwf) as [(bs1 & b & bs2 & Hh)|Hk].
  - rewrite (string_found k z HASH_UPDATE EG ht bs bs1 b bs2 Hwf Hh eq_refl).
    unfold found_bucket. pose proof Hh as (E & _).
    cbn [zread]. rewrite (wf_bucket _ _ _ b Hwf) by (rewrite E; by apply list_lookup_middle).
    cbn. destruct (val b); by apply replaced_inserted with b bs2.
  - by apply string_fresh.
Qed.

(** [zend_hash_update] on a well-formed table of any layout inserts the key at the end or replaces
    its value in place, destroys the old value, returns the element, and keeps the table well formed. *)
Theorem zend_hash_update_inserts EG ht bs k z :
  wf ht bs -> nTableSize ht <= 2 ^ 29 -> Z_ISUNDEF z = false ->
  inserted EG ht bs (KStr (ZSTR_VAL k)) z (zend_hash_update EG ht k z).
Proof. apply update_inserted. Qed.

Lemma add_inserted_or_refused EG ht bs k z :
  wf ht bs -> nTableSize ht <= 2 ^ 29 -> Z_ISUNDEF z = false ->
  match om_lookup (KStr (ZSTR_VAL k)) (entries bs) with
  | Some _ => rejected EG ht (zend_hash_add EG ht k z)
  | None => inserted EG ht bs (KStr (ZSTR_VAL k)) z (zend_hash_add EG ht k z)
  end.
Proof.
  intros Hwf Hsz Hz. unfold zend_hash_add.
  destruct (key_cases _ _ (KStr (ZSTR_VAL k)) Hwf) as [(bs1 & b & bs2 & Hh)|Hk].
  - rewrite (holds_entries _ _ _ _ _ Hh), om_lookup_middle by apply Hh. unfold rejected.
    rewrite (string_found k z HASH_ADD EG ht bs bs1 b bs2 Hwf Hh eq_refl).
    unfold found_bucket. pose proof Hh as (E & _).
    cbn [zread]. rewrite (wf_bucket _ _ _ b Hwf) by (rewrite E; by apply list_lookup_middle). done.
  - rewrite (proj2 (om_lookup_None _ _) Hk). by apply string_fresh.
Qed.

(** Rehashing does not look at [HASH_FLAG_STATIC_KEYS]. *)
Section StaticKeys.
Context (f : bool).
Let mark ht : HashTable V := {| ht with HASH_FLAG_STATIC_KEYS := f |}.

Lemma move_iterators_static fuel : forall EG ht pos i j,
  move_iterators fuel EG (mark ht) pos i j = move_iterators fuel EG ht pos i j.
Proof. induction fuel as [|fuel IH]; intros; [done|]. cbn [move_iterators]. by rewrite IH. Qed.

Lemma compact_static n : forall ht st i j,
  compact_loop n (mark ht) st i j = compact_loop n ht st i j.
Proof.
  induction n as [|n IH]; intros; [done|]. cbn [compact_loop].
  destruct (bucket (c_data st) i) as [p|]; [|done]. cbn [mbind option_bind].
  destruct (Z_ISUNDEF (val p)); [by rewrite IH|].
  change (nTableMask (mark ht)) with (nTableMask ht).
  destruct (link_bucket _ _ _ _ _) as [[hs ar]|]; [|done]. cbn [mbind option_bind].
  rewrite move_iterators_static. change (HT_HAS_ITERATORS (mark ht)) with (HT_HAS_ITERATORS ht).
  destruct (if HT_HAS_ITERATORS ht && _ then _ else _) as [[EG pos]|]; [|done]. cbn. by rewrite IH.
Qed.

Lemma holes_static n : forall ht st i,
  rehash_holes_loop n (mark ht) st i = rehash_holes_loop n ht st i.
Proof.
  induction n as [|n IH]; intros; [done|]. cbn [rehash_holes_loop].
  destruct (bucket (c_data st) i) as [p|]; [|done]. cbn [mbind option_bind].
  destruct (Z_ISUNDEF (val p)); [by rewrite compact_static|].
  change (nTableMask (mark ht)) with (nTableMask ht).
  destruct (link_bucket _ _ _ _ _) as [[hs ar]|]; [|done]. cbn. by rewrite IH.
Qed.

Definition mark_result (r : executor_globals V * HashTable V) := (r.1, mark r.2).

Lemma rehash_static EG ht : zend_hash_rehash EG (mark ht) = mark_result <$> zend_hash_rehash EG ht.
Proof.
  unfold zend_hash_rehash. change (nNumOfElements (mark ht)) with (nNumOfElements ht).
  destruct (nNumOfElements ht =? 0); [by cbn; destruct (HASH_FLAG_UNINITIALIZED ht)|].
  change (HT_IS_WITHOUT_HOLES (mark ht)) with (HT_IS_WITHOUT_HOLES ht).
  destruct (HT_IS_WITHOUT_HOLES ht).
  - cbn. by destruct (rehash_link_loop _ _ _ _ _) as [[hs ar]|].
  - rewrite holes_static. cbn. by destruct (rehash_holes_loop _ _ _ _) as [[st used]|].
Qed.

Lemma resize_static EG ht :
  ZEND_HASH_IF_FULL_DO_RESIZE EG (mark ht) = mark_result <$> ZEND_HASH_IF_FULL_DO_RESIZE EG ht.
Proof.
  unfold ZEND_HASH_IF_FULL_DO_RESIZE, zend_hash_do_resize. cbn.
  destruct (nTableSize ht <=? nNumUsed ht); [|done].
  destruct (_ <? nNumUsed ht); [apply rehash_static|].
  destruct (nTableSize ht <? HT_MAX_SIZE); [|done].
  rewrite <- rehash_static. done.
Qed.
End StaticKeys.

Lemma make_room_static EG ht (ins : executor_globals V -> HashTable V -> option (result V)) :
  ('(EG, ht) ← ZEND_HASH_IF_FULL_DO_RESIZE EG ht; ins EG {| ht with HASH_FLAG_STATIC_KEYS := false |})
  = ('(EG, ht) ← ZEND_HASH_IF_FULL_DO_RESIZE EG {| ht with HASH_FLAG_STATIC_KEYS := false |}; ins EG ht).
Proof.
  rewrite (resize_static false). by destruct (ZEND_HASH_IF_FULL_DO_RESIZE EG ht) as [[? ?]|].
Qed.

Lemma str_add_or_update_same EG ht bs str z flag :
  wf ht bs ->
  _zend_hash_str_add_or_update_i EG ht str (zend_inline_hash_func str) z flag
  = _zend_hash_add_or_update_i EG ht (zend_string_init str) z flag.
Proof.
  intros Hwf. unfold _zend_hash_str_add_or_update_i, _zend_hash_add_or_update_i.
  rewrite (str_find_bucket_key _ _ _ Hwf), (find_bucket_key _ _ _ Hwf).
  unfold note_key, zend_string_hash_val. cbn [zend_string_init ZSTR_VAL ZSTR_IS_INTERNED mbind option_bind].
  assert (forall EG ht, ('(EG, ht) ← ZEND_HASH_IF_FULL_DO_RESIZE EG ht;
      add_to_hash EG {| ht with HASH_FLAG_STATIC_KEYS := false |} (zend_inline_hash_func str)
        (Some (zend_string_init str)) z)
    = ('(EG, ht) ← ZEND_HASH_IF_FULL_DO_RESIZE EG {| ht with HASH_FLAG_STATIC_KEYS := false |};
      add_to_hash EG ht (zend_inline_hash_func str)
        (Some (zend_string_init str)) z)) as E.
  { intros EG0 ht0. apply (make_room_static EG0 ht0 (fun EG ht => add_to_hash EG ht _ _ z)). }
  pose proof (fun EG => E EG ht) as Eht.
  cbv beta zeta. set (marked := {| ht with HASH_FLAG_STATIC_KEYS := false |}) in *.
  clearbody marked.
  destruct (HASH_FLAG_UNINITIALIZED ht); [done|]. destruct (HASH_FLAG_PACKED ht).
  - destruct (zend_hash_packed_to_hash EG ht) as [[EG1 ht1]|]; [|done]. cbn [mbind option_bind].
    apply E.
  - destruct (negb (has flag HASH_ADD_NEW)); [|apply Eht].
    destruct (find_key bs (KStr str)); [done|]. apply Eht.
Qed.

(** The variant for a C string does exactly what the variant for an engine string does with a
    fresh, uninterned copy of it, for every flag. *)
Theorem zend_hash_str_same EG ht bs str z flag :
  wf ht bs ->
  zend_hash_str_add_or_update EG ht str z flag
  = zend_hash_add_or_update EG ht (zend_string_init str) z flag.
Proof.
  intros Hwf. unfold zend_hash_str_add_or_update, zend_hash_add_or_update.
  unfold zend_hash_str_add, zend_hash_str_add_new, zend_hash_str_update, zend_hash_str_update_ind.
  by rewrite !(str_add_or_update_same EG ht bs).
Qed.

(** ** Integer keys: the packed layout *)
Lemma packed_layout ht bs : wf ht bs -> HASH_FLAG_PACKED ht = true ->
  HASH_FLAG_UNINITIALIZED ht = false /\ no_chains ht /\ Z.of_nat (length bs) <= nNextFreeElement ht /\
  forall i b, bs !! i = Some b -> live b = true -> h b = Z.of_nat i /\ key b = None.
Proof.
  intros Hwf Hp. pose proof (wf_layout _ _ Hwf) as Hl. unfold layout in Hl. rewrite Hp in Hl.
  destruct (HASH_FLAG_UNINITIALIZED ht); [by destruct Hl|]. done.
Qed.

Lemma packed_key ht bs k : wf ht bs -> HASH_FLAG_PACKED ht = true -> k ∈ (entries bs).*1 ->
  exists i b, k = KInt (Z.of_nat i) /\ bs !! i = Some b /\ live b = true.
Proof.
  intros Hwf Hp (i & b & Hi & Hl & <-)%elem_of_keys.
  destruct (packed_layout _ _ Hwf Hp) as (_ & _ & _ & Hpk). destruct (Hpk i b Hi Hl) as [E1 E2].
  exists i, b. unfold bkey. by rewrite E2, E1.
Qed.

(** In a packed table, integer key [i] is bucket [i] or nowhere. *)
Lemma packed_lookup ht bs i b : wf ht bs -> HASH_FLAG_PACKED ht = true -> bs !! i = Some b ->
  if live b then exists bs1 bs2, holds bs (KInt (Z.of_nat i)) bs1 b bs2 /\ length bs1 = i
  else KInt (Z.of_nat i) ∉ (entries bs).*1.
Proof.
  intros Hwf Hp Hi. destruct (live b) eqn:Hl.
  - destruct (holds_lookup _ _ _ _ Hwf Hi Hl) as (bs1 & bs2 & Hh & Hlen).
    destruct (packed_layout _ _ Hwf Hp) as (_ & _ & _ & Hpk). destruct (Hpk i b Hi Hl) as [E1 E2].
    exists bs1, bs2. split; [|done]. revert Hh. unfold bkey. by rewrite E2, E1.
  - intros Hk. destruct (packed_key _ _ _ Hwf Hp Hk) as (j & b' & [= E] & Hj & Hl').
    apply Nat2Z.inj in E as <-. congruence.
Qed.

Lemma packed_beyond ht bs hash : wf ht bs -> HASH_FLAG_PACKED ht = true ->
  Z.of_nat (length bs) <= hash -> KInt hash ∉ (entries bs).*1.
Proof.
  intros Hwf Hp Hh Hk. destruct (packed_key _ _ _ Hwf Hp Hk) as (j & b & [= ->] & Hj%lookup_lt_Some & _).
  lia.
Qed.

Lemma undef_buckets_ok n : forall bs rest, (n <= length rest)%nat ->
  exists us, undef_buckets n ((Some <$> bs) ++ rest) (Z.of_nat (length bs))
    = Some ((Some <$> (bs ++ us)) ++ drop n rest) /\
    length us = n /\ Forall (fun b => live b = false) us.
Proof.
  induction n as [|n IH]; intros bs [|c rest] Hn; cbn in Hn; try lia; cbn [undef_buckets].
  - exists []. rewrite (app_nil_r bs). split_and!; [done | done | constructor].
  - exists []. rewrite (app_nil_r bs). split_and!; [done | done | constructor].
  - rewrite aget_app_mid by (by rewrite length_fmap). cbn [mbind option_bind].
    rewrite set_bucket_next by done. cbn [mbind option_bind].
    match goal with |- context [undef_buckets n ((Some <$> (bs ++ [?u])) ++ rest)] => set (b := u) end.
    replace (Z.of_nat (length bs) + 1) with (Z.of_nat (length (bs ++ [b])))
      by (rewrite length_app; cbn; lia).
    destruct (IH (bs ++ [b]) rest) as (us & E & Hl & Hd); [lia|].
    exists (b :: us). rewrite E, <- app_assoc. split_and!; [done | cbn; lia |].
    constructor; [|done]. by destruct c.
Qed.

Lemma entries_dead us : Forall (fun b => live b = false) us -> entries us = [].
Proof. induction 1 as [|b us Hb _ IH]; [done|]. by rewrite entries_cons, Hb. Qed.

Lemma bucket_ok_mono next next' b : (key b = None -> i64 (h b) < next') ->
  bucket_ok next b -> bucket_ok next' b.
Proof. intros Hn Hb Hl. destruct (Hb Hl) as (? & ? & _). auto. Qed.

Lemma i64_small x : - 2 ^ 63 <= x < 2 ^ 63 -> i64 x = x.
Proof. intros H. unfold i64, swrap. change (64 - 1) with 63. rewrite Z.mod_small; lia. Qed.

Lemma fill_flags flag : has flag HASH_ADD_NEW && has flag HASH_ADD_NEXT = false ->
  (Z.land flag (Z.lor HASH_ADD_NEW HASH_ADD_NEXT) =? Z.lor HASH_ADD_NEW HASH_ADD_NEXT) = false.
Proof.
  intros Hfill. apply Z.eqb_neq. intros E. unfold has in Hfill. apply andb_false_iff in Hfill.
  destruct Hfill as [Hf|Hf]; apply negb_false_iff, Z.eqb_eq in Hf;
    unfold HASH_ADD_NEW, HASH_ADD_NEXT in *.
  - apply (f_equal (fun x => Z.land x 8)) in E. rewrite <- Z.land_assoc in E.
    change (Z.land (Z.lor 8 16) 8) with 8 in E. congruence.
  - apply (f_equal (fun x => Z.land x 16)) in E. rewrite <- Z.land_assoc in E.
    change (Z.land (Z.lor 8 16) 16) with 16 in E. congruence.
Qed.

(** The free cell [hash] after tombstones have been written up to it. *)
Lemma packed_fill bs rest hash flag :
  Z.of_nat (length bs) <= hash < Z.of_nat (length bs + length rest) ->
  has flag HASH_ADD_NEW && has flag HASH_ADD_NEXT = false \/ hash = Z.of_nat (length bs) ->
  exists us c rest',
    (if negb (Z.land flag (Z.lor HASH_ADD_NEW HASH_ADD_NEXT) =? Z.lor HASH_ADD_NEW HASH_ADD_NEXT)
        && (Z.of_nat (length bs) <? hash)
     then undef_buckets (Z.to_nat (hash - Z.of_nat (length bs))) ((Some <$> bs) ++ rest)
            (Z.of_nat (length bs))
     else Some ((Some <$> bs) ++ rest)) = Some ((Some <$> (bs ++ us)) ++ c :: rest') /\
    hash = Z.of_nat (length (bs ++ us)) /\ Forall (fun b => live b = false) us /\
    (length us + S (length rest') = length rest)%nat.
Proof.
  intros Hh Hfill. destruct (decide (hash = Z.of_nat (length bs))) as [->|Hne].
  - rewrite Z.ltb_irrefl, andb_false_r. destruct rest as [|c rest']; [cbn in Hh; lia|].
    exists [], c, rest'. rewrite (app_nil_r bs). by split_and!.
  - destruct Hfill as [Hfill|]; [|done]. rewrite (fill_flags _ Hfill).
    rewrite (proj2 (Z.ltb_lt _ _)) by lia. cbn [negb andb].
    destruct (undef_buckets_ok (Z.to_nat (hash - Z.of_nat (length bs))) bs rest)
      as (us & -> & Hl & Hdd); [lia|].
    pose proof (length_drop rest (Z.to_nat (hash - Z.of_nat (length bs)))) as Hdl.
    destruct (drop (Z.to_nat (hash - Z.of_nat (length bs))) rest) as [|c rest'];
      cbn in Hdl; [lia|].
    exists us, c, rest'. rewrite length_app. split_and!; [done | lia | done | lia].
Qed.

Lemma u32_succ i : 0 <= i < 2 ^ 32 - 1 -> u32 (i + 1) = i + 1.
Proof. intros. unfold u32. rewrite uwrap_small; lia. Qed.

(** Tombstones and a last bucket with its index as key keep the packed layout. *)
Lemma packed_extend bs us b :
  (forall i b, bs !! i = Some b -> live b = true -> h b = Z.of_nat i /\ key b = None) ->
  Forall (fun b => live b = false) us -> h b = Z.of_nat (length (bs ++ us)) -> key b = None ->
  forall i b', ((bs ++ us) ++ [b]) !! i = Some b' -> live b' = true ->
  h b' = Z.of_nat i /\ key b' = None.
Proof.
  intros Hpk Hdead Hh Hk i b' [Hi|[Hi1 Hi2]]%lookup_app_Some Hl.
  - apply lookup_app_Some in Hi as [Hi|[_ Hi]]; [by apply Hpk|].
    rewrite Forall_lookup in Hdead. by rewrite (Hdead _ _ Hi) in Hl.
  - apply list_lookup_singleton_Some in Hi2 as [Hi2 <-]. split; [|done]. rewrite Hh. lia.
Qed.

Lemma add_to_packed_ok EG ht bs hash z flag :
  wf ht bs -> HASH_FLAG_PACKED ht = true -> Z_ISUNDEF z = false ->
  Z.of_nat (length bs) <= hash < nTableSize ht ->
  has flag HASH_ADD_NEW && has flag HASH_ADD_NEXT = false \/ hash = Z.of_nat (length bs) ->
  exists ht' bs', add_to_packed EG ht hash z flag = Some (EG, ht', Some (ZBUCKET hash)) /\
    wf ht' bs' /\ entries bs' = entries bs ++ [(KInt hash, z)] /\
    zread EG ht' (ZBUCKET hash) = Some z /\ pDestructor ht' = pDestructor ht /\
    nTableSize ht' = nTableSize ht /\ HASH_FLAG_PACKED ht' = true.
Proof.
  intros Hwf Hp Hz Hh Hfill. pose proof (packed_beyond _ _ hash Hwf Hp ltac:(lia)) as Hnew.
  destruct (packed_layout _ _ Hwf Hp) as (Hu & Hnc & Hnx & Hpk).
  destruct Hwf as [[rest Hd] H2 H3 H4 H5 H6 H7 H8 H9 _]. rewrite Hu, Hd, length_app, length_fmap in H3.
  destruct (packed_fill bs rest hash flag) as (us & c & rest' & E & Hlen & Hdead & Hrest); [lia|done|].
  unfold add_to_packed. rewrite H2, Hd, E. cbn [mbind option_bind].
  rewrite aget_app_mid by (by rewrite length_fmap). cbn [mbind option_bind].
  rewrite set_bucket_next by done. cbn [mbind option_bind].
  match goal with |- context [(bs ++ us) ++ [?x]] => set (b := x) end.
  assert (live b = true) as Hl by (unfold live; cbn; by rewrite Hz).
  assert (entries ((bs ++ us) ++ [b]) = entries bs ++ [(KInt hash, z)]) as Een.
  { by rewrite !entries_app, entries_cons, Hl, (entries_dead us Hdead), app_nil_r. }
  assert (length (entries bs) <= length bs)%nat as Hle.
  { rewrite length_entries. apply length_filter. }
  pose proof (packed_extend bs us b Hpk Hdead Hlen eq_refl) as Hpk'.
  rewrite length_app in Hlen.
  assert (length ((bs ++ us) ++ [b]) = S (length bs + length us)) as Elen
    by (rewrite !length_app; cbn; lia).
  eexists _, ((bs ++ us) ++ [b]). split; [done|]. split_and!; try done.
  2:{ cbn. replace hash with (Z.of_nat (length (bs ++ us))) by (rewrite length_app; lia).
      by rewrite (cells_bucket _ _ _ b) by (by apply list_lookup_middle). }
  split; cbn; rewrite ?Een; try done.
  - by eexists.
  - rewrite Elen, u32_succ; lia.
  - rewrite Hu, length_app, length_fmap, Elen. lia.
  - rewrite u32_succ, length_app; cbn; lia.
  - rewrite fmap_app. apply NoDup_app. split_and!; [done| |apply NoDup_singleton].
    intros k' Hk' ->%list_elem_of_singleton. done.
  - apply Forall_lookup. intros i b' Hi Hl'. destruct (Hpk' i b' Hi Hl') as [Eh Ek].
    apply lookup_lt_Some in Hi. rewrite Elen in Hi. unfold bkey. rewrite Ek. cbn. rewrite Eh.
    split_and!; [done | lia | lia |]. intros _. left. rewrite i64_small; lia.
  - unfold ZEND_LONG_MAX. lia.
  - unfold layout. cbn. rewrite Hu, Hp. split; [done|]. split; [rewrite Elen; lia | done].
Qed.

(** ** Integer keys: every layout *)

(** The precondition of the "new" variants: the key is not there; and when [HASH_ADD_NEXT] is given
    as well, a table that is not mixed has lost no element at its end. *)
Definition index_ok ht bs (hash flag : Z) : Prop :=
  (has flag HASH_ADD_NEW = true -> KInt hash ∉ (entries bs).*1) /\
  (has flag HASH_ADD_NEW && has flag HASH_ADD_NEXT = true -> ~ mixed ht ->
   hash = Z.of_nat (length bs)).

Lemma index_ok_fill ht bs hash flag : index_ok ht bs hash flag -> ~ mixed ht ->
  has flag HASH_ADD_NEW && has flag HASH_ADD_NEXT = false \/ hash = Z.of_nat (length bs).
Proof.
  intros [_ Hok] Hmx. destruct (has flag HASH_ADD_NEW && has flag HASH_ADD_NEXT); [right|by left].
  by apply Hok.
Qed.

Lemma packed_inserted EG ht bs hash z r ht' bs' ref :
  wf ht bs -> KInt hash ∉ (entries bs).*1 -> r = Some (EG, ht', Some ref) -> wf ht' bs' ->
  entries bs' = entries bs ++ [(KInt hash, z)] -> zread EG ht' ref = Some z ->
  pDestructor ht' = pDestructor ht -> HASH_FLAG_PACKED ht' = true -> ~ mixed ht ->
  (nTableSize ht' = nTableSize ht \/
   nTableSize ht' = 2 * nTableSize ht /\ nTableSize ht <= 2 * nNumOfElements ht) ->
  inserted EG ht bs (KInt hash) z r.
Proof.
  intros Hwf Hk -> Hwf' Hen Hr Hd Hp' Hmx Hsz. exists EG, ht', bs', ref.
  rewrite om_insert_new by done. split_and!; try done.
  - rewrite (proj2 (om_lookup_None _ _)), destroyed_by_none, app_nil_r by done. done.
  - intros n [Hn Hc]. pose proof (wf_elems _ _ Hwf) as He. apply (wf_capped _ bs'); [done| |].
    + rewrite Hen, length_app. cbn. lia.
    + destruct (mixed_dec ht') as [[_ ?]|_]; [congruence|]. destruct (mixed_dec ht); [done|]. lia.
Qed.

Lemma wf_next_free ht bs next : wf ht bs -> mixed ht ->
  nNextFreeElement ht <= next <= ZEND_LONG_MAX -> wf {| ht with nNextFreeElement := next |} bs.
Proof.
  intros [H1 H2 H3 H4 H5 H6 H7 H8 H9 H10] [Hu Hp] Hn. split; try done; cbn.
  - apply Forall_forall. intros b Hb Hl. rewrite Forall_forall in H7.
    destruct (H7 b Hb Hl) as (E1 & E2 & E3). split; [done|]. split; [done|]. intros Hk. cbn.
    destruct (E3 Hk); lia.
  - lia.
  - unfold layout in *. cbn. by rewrite Hu, Hp in *.
Qed.

(** The insertion of an absent integer key into a mixed table with room. *)
Lemma add_index_ok EG ht bs hash z m :
  wf ht bs -> mixed ht -> room ht bs -> Z_ISUNDEF z = false -> entries bs = m ->
  0 <= hash < 2 ^ 64 -> KInt hash ∉ m.*1 ->
  exists ht' bs' ref, add_index_to_hash EG ht hash z = Some (EG, ht', Some ref) /\
    wf ht' bs' /\ mixed ht' /\ entries bs' = om_insert (KInt hash) z m /\
    zread EG ht' ref = Some z /\ pDestructor ht' = pDestructor ht /\ nTableSize ht' = nTableSize ht.
Proof.
  intros Hwf Hmx Hroom Hz Hm Hh Hnew. unfold add_index_to_hash.
  pose proof (wf_next _ _ Hwf) as Hn. unfold ZEND_LONG_MAX in *.
  rewrite (i64_small (nNextFreeElement ht)) by lia.
  match goal with |- context [add_to_hash EG ?t] => set (ht1 := t) end.
  assert (nNextFreeElement ht <= nNextFreeElement ht1 <= 2 ^ 63 - 1 /\
    (i64 hash < nNextFreeElement ht1 \/ nNextFreeElement ht1 = 2 ^ 63 - 1)) as [Hn1 Hb1].
  { unfold ht1. destruct (Z.leb_spec (nNextFreeElement ht) (i64 hash)); [|cbn; lia].
    assert (i64 hash = hash) as Ei.
    { destruct (decide (hash < 2 ^ 63)); [by apply i64_small; lia|].
      exfalso. assert (i64 hash = hash - 2 ^ 64); [|lia].
      unfold i64, swrap. change (64 - 1) with 63.
      rewrite <- (Z.mod_unique_pos (hash + 2 ^ 63) (2 ^ 64) 1 (hash - 2 ^ 63)); lia. }
    cbn. destruct (Z.ltb_spec hash (2 ^ 63 - 1)); lia. }
  assert (wf ht1 bs /\ (mixed ht -> mixed ht1) /\ nTableSize ht1 = nTableSize ht /\
          pDestructor ht1 = pDestructor ht) as (Hwf1 & Hmx1 & Hs1 & Hd1).
  { unfold ht1 in *. destruct (_ <=? _); [|done]. split; [|done].
    apply wf_next_free; [done | done |]. cbn in *. unfold ZEND_LONG_MAX. lia. }
  destruct (add_new_ok EG ht1 bs hash None z m Hwf1 (Hmx1 Hmx))
    as (ht' & bs' & ref & E & Hwf' & Hmx' & Hen & Hr & Hd & Hsz);
    [unfold room; by rewrite Hs1 | done | done | | done |].
  { intros _. cbn. split; [done|]. split; [done|]. intros _. unfold ZEND_LONG_MAX. lia. }
  exists ht', bs', ref. rewrite Hd, Hsz. done.
Qed.

Lemma entries_lt bs i b : bs !! i = Some b -> live b = false ->
  (length (entries bs) < length bs)%nat.
Proof.
  intros Hi Hl. rewrite <- (take_drop_middle bs i b Hi).
  rewrite entries_app, entries_cons, Hl, !length_app, !length_entries. cbn.
  pose proof (length_filter live (take i bs)). pose proof (length_filter live (drop (S i) bs)). lia.
Qed.

Lemma wf_packed_grow ht bs : wf ht bs -> HASH_FLAG_PACKED ht = true -> nTableSize ht <= 2 ^ 29 ->
  exists ht', zend_hash_packed_grow ht = Some ht' /\ wf ht' bs /\ HASH_FLAG_PACKED ht' = true /\
    nTableSize ht' = 2 * nTableSize ht /\ pDestructor ht' = pDestructor ht.
Proof.
  intros Hwf Hp Hsz. pose proof (wf_bound _ _ Hwf) as Hb.
  destruct (packed_layout _ _ Hwf Hp) as (Hu & _).
  destruct Hwf as [[rest Hd] H2 H3 H4 H5 H6 H7 H8 H9 H10].
  unfold zend_hash_packed_grow. rewrite (proj2 (Z.leb_gt _ _)) by (unfold HT_MAX_SIZE; lia).
  assert (u32 (nTableSize ht + nTableSize ht) = 2 * nTableSize ht) as E
    by (unfold u32; rewrite uwrap_small; lia).
  rewrite E, H2, Hd. destruct (copy_buckets_cells bs rest (2 * nTableSize ht)) as [Ec El]; [lia|].
  eexists. split; [done|]. split_and!; try done. split; cbn; try done.
  - rewrite Ec. by eexists.
  - by rewrite Hu.
  - lia.
  - unfold layout in *. cbn. by rewrite Hu, Hp in *.
Qed.

Lemma init_packed_ok ht bs : wf ht bs -> HASH_FLAG_UNINITIALIZED ht = true ->
  bs = [] /\ wf (zend_hash_real_init_packed_ex ht) [].
Proof.
  intros [H1 H2 H3 H4 H5 H6 H7 H8 H9 H10] Hu. unfold layout in H10. rewrite Hu in H10.
  destruct H10 as (_ & [Hm _] & ->). split; [done|].
  split; cbn; try done; [by eexists | unfold fresh_buckets; rewrite length_replicate; lia |].
  unfold layout. cbn. split; [done|]. split; [lia|]. intros i b Hi. by rewrite lookup_nil in Hi.
Qed.

Section IndexKey.
Context (hash : Z) (z : zval V) (flag : Z).
Hypothesis Hz : Z_ISUNDEF z = false.
Hypothesis Hhash : 0 <= hash < 2 ^ 64.

(** A packed table turned into a mixed one to take the key. *)
Lemma convert_fresh EG ht0 ht bs :
  wf ht0 bs -> HASH_FLAG_PACKED ht0 = true -> KInt hash ∉ (entries bs).*1 ->
  contents ht bs -> HASH_FLAG_UNINITIALIZED ht = false -> same_table ht0 ht ->
  8 <= nTableSize ht <= 2 ^ 30 -> nTableSize ht <= 2 * nTableSize ht0 ->
  Z.of_nat (length bs) <= nTableSize ht -> Z.of_nat (length (entries bs)) < nTableSize ht ->
  inserted EG ht0 bs (KInt hash) z
    ('(EG, ht) ← zend_hash_packed_to_hash EG ht; add_index_to_hash EG ht hash z).
Proof using Hz Hhash.
  intros Hwf0 Hp0 Hk Hct Hu Ht0 Hs Hs2 Hb He.
  destruct (packed_to_hash_ok EG ht bs Hct Hu Hs Hb)
    as (EG1 & ht1 & bs1 & -> & Hwf1 & Hmx1 & Hen1 & Hl1 & Hg1 & Ht1 & Hs1).
  cbn [mbind option_bind].
  destruct (add_index_ok EG1 ht1 bs1 hash z (entries bs) Hwf1 Hmx1)
    as (ht' & bs' & ref & E & Hwf' & Hmx' & Hen & Hr & Hd & Hsz);
    [unfold room; lia | done | done | done | done |].
  apply (fresh_inserted EG ht0 bs _ z EG1 ht' bs' ref); try done.
  - rewrite Hd. destruct Ht1 as (_&_&_&->&_). apply Ht0.
  - right. split; [lia|]. right. intros [_ ?]. congruence.
Qed.

Lemma index_fresh_packed EG ht bs :
  wf ht bs -> HASH_FLAG_PACKED ht = true -> nTableSize ht <= 2 ^ 29 -> index_ok ht bs hash flag ->
  KInt hash ∉ (entries bs).*1 ->
  inserted EG ht bs (KInt hash) z (_zend_hash_index_add_or_update_i EG ht hash z flag).
Proof using Hz Hhash.
  intros Hwf Hp Hsz Hok Hk. unfold _zend_hash_index_add_or_update_i. rewrite Hp.
  pose proof (wf_size _ _ Hwf) as Hs. pose proof (wf_bound _ _ Hwf) as Hb.
  pose proof (wf_contents _ _ Hwf) as Hct. pose proof (wf_elems _ _ Hwf) as He.
  destruct (packed_layout _ _ Hwf Hp) as (Hu & _).
  assert (~ mixed ht) as Hmx by (intros [_ ?]; congruence).
  pose proof (index_ok_fill _ _ _ _ Hok Hmx) as Hfill.
  rewrite (wf_used _ _ Hwf).
  destruct (Z.ltb_spec hash (Z.of_nat (length bs))) as [Hin|Hout].
  { destruct (lookup_lt_is_Some_2 bs (Z.to_nat hash)) as [b Hb']; [lia|].
    pose proof (packed_lookup _ _ _ _ Hwf Hp Hb') as Hl. rewrite Z2Nat.id in Hl by lia.
    destruct (live b) eqn:El.
    { destruct Hl as (bs1 & bs2 & Hh & _). exfalso. apply Hk.
      rewrite (holds_entries _ _ _ _ _ Hh), fmap_app. apply elem_of_app. right. by left. }
    replace hash with (Z.of_nat (Z.to_nat hash)) at 2 by lia.
    rewrite (wf_bucket _ _ _ _ Hwf Hb'). cbn [mbind option_bind]. rewrite undef_live, El. cbn [negb].
    pose proof (entries_lt _ _ _ Hb' El). apply convert_fresh; try done; lia. }
  destruct (Z.ltb_spec hash (nTableSize ht)) as [Hsmall|Hbig].
  { destruct (add_to_packed_ok EG ht bs hash z flag Hwf Hp Hz ltac:(lia) Hfill)
      as (ht' & bs' & E & Hwf' & Hen & Hr & Hd & Hsz' & Hp').
    apply (packed_inserted EG ht bs hash z _ ht' bs' (ZBUCKET hash)); try done. by left. }
  rewrite !Z.shiftr_div_pow2 by lia. change (2 ^ 1) with 2.
  destruct ((hash / 2 <? nTableSize ht) && (nTableSize ht / 2 <? nNumOfElements ht)) eqn:Hgrow.
  { apply andb_true_iff in Hgrow as [H1%Z.ltb_lt H2%Z.ltb_lt].
    assert (hash < 2 * nTableSize ht /\ nTableSize ht <= 2 * nNumOfElements ht) as [H3 H4]
      by (Z.to_euclidean_division_equations; lia).
    destruct (wf_packed_grow ht bs Hwf Hp Hsz) as (ht1 & -> & Hwf1 & Hp1 & Hs1 & Hd1).
    cbn [mbind option_bind].
    destruct (add_to_packed_ok EG ht1 bs hash z flag Hwf1 Hp1 Hz ltac:(lia) Hfill)
      as (ht' & bs' & E & Hwf' & Hen & Hr & Hd & Hsz' & Hp').
    apply (packed_inserted EG ht bs hash z _ ht' bs' (ZBUCKET hash)); try done; [congruence|].
    right. lia. }
  assert (u32 (nTableSize ht + nTableSize ht) = 2 * nTableSize ht) as E2
    by (unfold u32; rewrite uwrap_small; lia).
  pose proof (length_filter live bs) as Hle. rewrite <- length_entries in Hle.
  destruct (Z.leb_spec (nTableSize ht) (Z.of_nat (length bs))).
  - apply convert_fresh; cbn; rewrite ?E2; try done; try lia. by destruct Hct.
  - apply convert_fresh; try done; lia.
Qed.

Lemma index_fresh EG ht bs :
  wf ht bs -> nTableSize ht <= 2 ^ 29 -> index_ok ht bs hash flag ->
  KInt hash ∉ (entries bs).*1 ->
  inserted EG ht bs (KInt hash) z (_zend_hash_index_add_or_update_i EG ht hash z flag).
Proof using Hz Hhash.
  intros Hwf Hsz Hok Hk. destruct (HASH_FLAG_PACKED ht) eqn:Hp; [by apply index_fresh_packed|].
  unfold _zend_hash_index_add_or_update_i. rewrite Hp. pose proof (wf_size _ _ Hwf) as Hs.
  destruct (HASH_FLAG_UNINITIALIZED ht) eqn:Hu.
  - assert (~ mixed ht) as Hmx by (intros [? _]; congruence).
    destruct (Z.ltb_spec hash (nTableSize ht)) as [Hsmall|Hbig].
    + destruct (init_packed_ok ht bs Hwf Hu) as [-> Hwf1].
      destruct (add_to_packed_ok EG _ [] hash z flag Hwf1 eq_refl Hz ltac:(cbn; lia)
        (index_ok_fill _ _ _ _ Hok Hmx))
        as (ht' & bs' & E & Hwf' & Hen & Hr & Hd & Hsz' & Hp').
      apply (packed_inserted EG ht [] hash z _ ht' bs' (ZBUCKET hash)); try done. by left.
    + destruct (init_mixed_ok ht bs Hwf Hu) as (-> & Hwf1 & Hmx1 & Hr1).
      destruct (add_index_ok EG _ [] hash z [] Hwf1 Hmx1 Hr1 Hz eq_refl Hhash)
        as (ht' & bs' & ref & E & Hwf' & Hmx' & Hen & Hr & Hd & Hsz'); [done|].
      apply (fresh_inserted EG ht [] _ z EG ht' bs' ref); try done. left. rewrite Hsz'. cbn. lia.
  - assert (mixed ht) as Hmx by done.
    assert ((if negb (has flag HASH_ADD_NEW) then zend_hash_index_find_bucket ht hash else Some None)
            = Some None) as ->.
    { destruct (negb _); [|done].
      by rewrite (index_find_bucket_key _ _ _ Hwf Hmx), (find_key_None _ _ Hk). }
    cbn [mbind option_bind].
    destruct (if_full_resize_ok EG ht bs Hwf Hmx Hsz)
      as (EG1 & ht1 & bs1 & -> & Hwf1 & Hmx1 & Hen1 & Hg1 & Ht1 & Hr1 & Hs1).
    cbn [mbind option_bind].
    destruct (add_index_ok EG1 ht1 bs1 hash z (entries bs) Hwf1 Hmx1 Hr1 Hz Hen1 Hhash Hk)
      as (ht' & bs' & ref & E & Hwf' & Hmx' & Hen & Hr & Hd & Hsz').
    apply (fresh_inserted EG ht bs _ z EG1 ht' bs' ref); try done.
    + rewrite Hd. apply Ht1.
    + destruct Hs1 as [|[? ?]]; [left; lia|right; split; [lia|by left]].
Qed.

(** An integer key that is there: its element is the one [replace] works on. *)
Lemma index_found EG ht bs bs1 b bs2 :
  wf ht bs -> holds bs (KInt hash) bs1 b bs2 -> has flag HASH_ADD_NEW = false \/ HASH_FLAG_PACKED ht = true ->
  _zend_hash_index_add_or_update_i EG ht hash z flag
  = replace_index EG ht (Z.of_nat (length bs1)) z flag.
Proof.
  intros Hwf Hh Hf. unfold _zend_hash_index_add_or_update_i. pose proof Hh as (E & Hl & Hk & _).
  assert (bs !! length bs1 = Some b) as Hi by (rewrite E; by apply list_lookup_middle).
  destruct (HASH_FLAG_PACKED ht) eqn:Hp.
  - destruct (packed_layout _ _ Hwf Hp) as (_ & _ & _ & Hpk). destruct (Hpk _ _ Hi Hl) as [E1 E2].
    unfold bkey in Hk. rewrite E2, E1 in Hk. injection Hk as Hk. rewrite <- Hk.
    apply lookup_lt_Some in Hi as Hlt. rewrite (wf_used _ _ Hwf), (proj2 (Z.ltb_lt _ _)) by lia.
    rewrite (wf_bucket _ _ _ _ Hwf Hi). cbn [mbind option_bind]. by rewrite undef_live, Hl.
  - pose proof (wf_layout _ _ Hwf) as Hla. unfold layout in Hla. rewrite Hp in Hla.
    destruct (HASH_FLAG_UNINITIALIZED ht) eqn:Hu.
    { destruct Hla as (_ & _ & ->). by rewrite lookup_nil in Hi. }
    destruct Hf as [Hf|]; [|done]. rewrite Hf. cbn [negb].
    rewrite (index_find_bucket_key _ _ _ Hwf) by done.
    by rewrite (find_key_holds _ _ _ _ _ Hh).
Qed.
End IndexKey.

Lemma index_update_inserted EG ht bs hash z :
  wf ht bs -> nTableSize ht <= 2 ^ 29 -> Z_ISUNDEF z = false -> is_u64 hash ->
  inserted EG ht bs (KInt hash) z (zend_hash_index_update EG ht hash z).
Proof.
  intros Hwf Hsz Hz Hh. unfold zend_hash_index_update.
  destruct (key_cases _ _ (KInt hash) Hwf) as [(bs1 & b & bs2 & Hhl)|Hk].
  - rewrite (index_found hash z _ EG ht bs bs1 b bs2 Hwf Hhl) by (by left).
    by apply replaced_inserted with b bs2.
  - by apply index_fresh.
Qed.

(** [zend_hash_index_update] is insertion into the ordered map for every 64-bit key, in every
    layout: packed buckets are filled or converted to a hash as the key requires. *)
Theorem zend_hash_index_update_inserts EG ht bs hash z :
  wf ht bs -> nTableSize ht <= 2 ^ 29 -> Z_ISUNDEF z = false -> is_u64 hash ->
  inserted EG ht bs (KInt hash) z (zend_hash_index_update EG ht hash z).
Proof. apply index_update_inserted. Qed.

Lemma index_add_inserted_or_refused EG ht bs hash z :
  wf ht bs -> nTableSize ht <= 2 ^ 29 -> Z_ISUNDEF z = false -> is_u64 hash ->
  match om_lookup (KInt hash) (entries bs) with
  | Some _ => rejected EG ht (zend_hash_index_add EG ht hash z)
  | None => inserted EG ht bs (KInt hash) z (zend_hash_index_add EG ht hash z)
  end.
Proof.
  intros Hwf Hsz Hz Hh. unfold zend_hash_index_add.
  destruct (key_cases _ _ (KInt hash) Hwf) as [(bs1 & b & bs2 & Hhl)|Hk].
  - rewrite (holds_entries _ _ _ _ _ Hhl), om_lookup_middle by apply Hhl.
    by rewrite (index_found hash z _ EG ht bs bs1 b bs2 Hwf Hhl) by (by left).
  - rewrite (proj2 (om_lookup_None _ _) Hk). by apply index_fresh.
Qed.

(** [zend_hash_add] and [zend_hash_index_add] refuse a key that is there, leaving the table and
    everything else as they were; a new key is inserted. *)
Theorem zend_hash_add_refuses EG ht bs k hash z :
  wf ht bs -> nTableSize ht <= 2 ^ 29 -> Z_ISUNDEF z = false -> is_u64 hash ->
  match om_lookup (KStr (ZSTR_VAL k)) (entries bs) with
  | Some _ => rejected EG ht (zend_hash_add EG ht k z)
  | None => inserted EG ht bs (KStr (ZSTR_VAL k)) z (zend_hash_add EG ht k z)
  end /\
  match om_lookup (KInt hash) (entries bs) with
  | Some _ => rejected EG ht (zend_hash_index_add EG ht hash z)
  | None => inserted EG ht bs (KInt hash) z (zend_hash_index_add EG ht hash z)
  end.
Proof.
  intros Hwf Hsz Hz Hh. split; [by apply add_inserted_or_refused|by apply index_add_inserted_or_refused].
Qed.

(** Every integer key the table has is below [nNextFreeElement], until that is [ZEND_LONG_MAX]. *)
Lemma next_free_above ht bs hash : wf ht bs -> KInt hash ∈ (entries bs).*1 ->
  i64 hash < nNextFreeElement ht \/ nNextFreeElement ht = ZEND_LONG_MAX.
Proof.
  intros Hwf (i & b & Hi & Hl & Hk)%elem_of_keys. pose proof (wf_buckets _ _ Hwf) as Hb.
  rewrite Forall_lookup in Hb. destruct (Hb i b Hi Hl) as (_ & _ & Hn).
  unfold bkey in Hk. destruct (key b); [done|]. injection Hk as <-. by apply Hn.
Qed.

Lemma next_insert_appended EG ht bs z :
  wf ht bs -> nTableSize ht <= 2 ^ 29 -> Z_ISUNDEF z = false ->
  if decide (KInt (nNextFreeElement ht) ∈ (entries bs).*1)
  then nNextFreeElement ht = ZEND_LONG_MAX /\ rejected EG ht (zend_hash_next_index_insert EG ht z)
  else inserted EG ht bs (KInt (nNextFreeElement ht)) z (zend_hash_next_index_insert EG ht z).
Proof.
  intros Hwf Hsz Hz. unfold zend_hash_next_index_insert. pose proof (wf_next _ _ Hwf) as Hn.
  unfold ZEND_LONG_MAX in Hn.
  assert (u64 (nNextFreeElement ht) = nNextFreeElement ht) as -> by (unfold u64; rewrite uwrap_small; lia).
  destruct (key_cases _ _ (KInt (nNextFreeElement ht)) Hwf) as [(bs1 & b & bs2 & Hhl)|Hk].
  - assert (KInt (nNextFreeElement ht) ∈ (entries bs).*1) as Hin.
    { rewrite (holds_entries _ _ _ _ _ Hhl), fmap_app. apply elem_of_app. right. by left. }
    rewrite decide_True by done. split.
    + destruct (next_free_above _ _ _ Hwf Hin) as [Hlt|]; [|done].
      rewrite i64_small in Hlt by lia. lia.
    + by rewrite (index_found _ z _ EG ht bs bs1 b bs2 Hwf Hhl) by (by left).
  - rewrite decide_False by done. apply index_fresh; done || lia.
Qed.

(** [zend_hash_next_index_insert] appends under the key [nNextFreeElement], which no element has;
    it fails, changing nothing, exactly when that key is [ZEND_LONG_MAX] and taken. *)
Theorem zend_hash_next_index_insert_appends EG ht bs z :
  wf ht bs -> nTableSize ht <= 2 ^ 29 -> Z_ISUNDEF z = false ->
  if decide (KInt (nNextFreeElement ht) ∈ (entries bs).*1)
  then nNextFreeElement ht = ZEND_LONG_MAX /\ rejected EG ht (zend_hash_next_index_insert EG ht z)
  else inserted EG ht bs (KInt (nNextFreeElement ht)) z (zend_hash_next_index_insert EG ht z).
Proof. apply next_insert_appended. Qed.
End Update.

(** ** Witnesses, on the table [ex_table] *)
Lemma zend_hash_update_inserts_witness :
  inserted ex_globals ex_table ex_buckets (KStr [98]) (IS_VAL 7)
    (zend_hash_update ex_globals ex_table (ex_key [98]) (IS_VAL 7)).
Proof. apply (zend_hash_update_inserts ex_globals ex_table ex_buckets (ex_key [98])); [apply ex_wf | discriminate | reflexivity]. Defined.

Lemma zend_hash_add_refuses_witness :
  rejected ex_globals ex_table (zend_hash_add ex_globals ex_table (ex_key [97]) (IS_VAL 7)) /\
  rejected ex_globals ex_table (zend_hash_index_add ex_globals ex_table 19 (IS_VAL 7)).
Proof.
  apply (zend_hash_add_refuses ex_globals ex_table ex_buckets (ex_key [97]) 19 (IS_VAL 7) ex_wf);
    [discriminate | reflexivity | split; [discriminate | reflexivity]].
Defined.

Lemma zend_hash_str_same_witness :
  zend_hash_str_add_or_update ex_globals ex_table [98] (IS_VAL 7) HASH_ADD
  = zend_hash_add_or_update ex_globals ex_table (ex_key [98]) (IS_VAL 7) HASH_ADD.
Proof. apply (zend_hash_str_same ex_globals ex_table ex_buckets), ex_wf. Defined.

Lemma zend_hash_index_update_inserts_witness :
  inserted ex_globals ex_table ex_buckets (KInt 35) (IS_VAL 7)
    (zend_hash_index_update ex_globals ex_table 35 (IS_VAL 7)).
Proof. apply zend_hash_index_update_inserts; [apply ex_wf | discriminate | reflexivity | split; [discriminate | reflexivity]]. Defined.

Lemma zend_hash_next_index_insert_appends_witness :
  inserted ex_globals ex_table ex_buckets (KInt 20) (IS_VAL 7)
    (zend_hash_next_index_insert ex_globals ex_table (IS_VAL 7)).
Proof.
  pose proof (zend_hash_next_index_insert_appends ex_globals ex_table ex_buckets (IS_VAL 7) ex_wf
    ltac:(discriminate) eq_refl) as H.
  rewrite decide_False in H; [exact H|]. vm_compute. set_solver.
Defined.
