(* ===== verification/ZendHashDelete.v ===== *)
(** * The engine's hash table: deletion refines the ordered map

    A deleted bucket is taken off its chain and becomes a tombstone; trailing tombstones are given
    back.  The internal pointer and the iterators on the bucket move to the next live one. *)
From S2P Require Import Prelude ZendString ZendHash OrderedMap ZendHashInv ZendHashRehash ZendHashUpdate.

Section Delete.
Context {V : Type}.
Implicit Types (b p : Bucket V) (bs : list (Bucket V)) (ar : list (option (Bucket V)))
  (ht : HashTable V) (EG : executor_globals V) (z : zval V).

Definition dead b : Prop := live b = false.

(** ** Taking a bucket off its chain *)
Lemma set_bucket_insert bs rest i b' : (i < length bs)%nat ->
  set_bucket ((Some <$> bs) ++ rest) (Z.of_nat i) b' = Some ((Some <$> <[i := b']> bs) ++ rest).
Proof.
  intros Hi. unfold set_bucket, aset. rewrite Nat2Z.id, length_app, length_fmap.
  rewrite (proj2 (in_range_iff _ _ _)) by lia.
  by rewrite insert_app_l, list_fmap_insert by (by rewrite length_fmap).
Qed.

Definition with_next (n : Z) b : Bucket V := {| b with Z_NEXT := n |}.

(** The chain that visited [q] and then [i] goes past [i]. *)
Lemma chain_bypass bs hi q i lo st bq b z :
  chain bs st (hi ++ q :: i :: lo) -> NoDup (hi ++ q :: i :: lo) ->
  bs !! q = Some bq -> bs !! i = Some b ->
  chain (<[i := set_val z b]> (<[q := with_next (Z_NEXT b) bq]> bs)) st (hi ++ q :: lo).
Proof.
  intros Hc Hnd Hq Hi. revert st Hc. induction hi as [|j hi IH]; intros st Hc.
  - destruct Hc as [-> (bq' & Hq' & E & b' & Hi' & Hc)]. simplify_eq.
    apply NoDup_cons in Hnd as [Hqi Hnd]. apply NoDup_cons in Hnd as [Hil _].
    rewrite not_elem_of_cons in Hqi. destruct Hqi as [Hne Hql].
    split; [done|]. exists (with_next (Z_NEXT b) bq).
    rewrite list_lookup_insert_ne, list_lookup_insert_eq by (done || by apply lookup_lt_Some in Hq).
    split; [done|]. cbn. revert Hc. apply chain_next_ext. intros j bj Hj Hbj. exists bj.
    by rewrite !list_lookup_insert_ne by (intros ->; done).
  - destruct Hc as [-> (bj & Hbj & Hc)]. apply NoDup_cons in Hnd as [Hj Hnd].
    split; [done|]. exists bj. rewrite !list_lookup_insert_ne.
    + split; [done|]. by apply IH.
    + intros ->. apply Hj, elem_of_app. right. by left.
    + intros ->. apply Hj, elem_of_app. right. right. by left.
Qed.

(** Chains that do not visit [q] and [i] are as before. *)
Lemma chain_other bs q i st l bq b z n :
  chain bs st l -> q ∉ l -> bs !! q = Some bq -> bs !! i = Some b ->
  chain (<[i := set_val z b]> (<[q := with_next n bq]> bs)) st l.
Proof.
  intros Hc Hq Hbq Hbi. revert Hc. apply chain_next_ext. intros j bj Hj Hbj.
  assert (q <> j) as Hqj by (by intros ->).
  destruct (decide (i = j)) as [->|Hij].
  - exists (set_val z b). rewrite list_lookup_insert_eq by
      (rewrite length_insert; by apply lookup_lt_Some in Hbj). split; [done|]. cbn. congruence.
  - exists bj. by rewrite !list_lookup_insert_ne.
Qed.

Lemma chain_set_val bs i st l b z : chain bs st l -> bs !! i = Some b ->
  chain (<[i := set_val z b]> bs) st l.
Proof.
  intros Hc Hbi. revert Hc. apply chain_next_ext. intros j bj Hj Hbj.
  destruct (decide (i = j)) as [->|Hij].
  - exists (set_val z b). rewrite list_lookup_insert_eq by (by apply lookup_lt_Some in Hbj).
    split; [done|]. cbn. congruence.
  - exists bj. by rewrite list_lookup_insert_ne.
Qed.

Definition tomb b : Bucket V := set_val IS_UNDEF b.

Lemma ids_tomb mask bs1 b bs2 s :
  ids mask (bs1 ++ tomb b :: bs2) s = ids_from mask (S (length bs1)) bs2 s ++ ids mask bs1 s.
Proof. rewrite ids_split. by unfold on_chain, tomb, live. Qed.

Lemma ids_with_next mask bs q bq n s : bs !! q = Some bq ->
  ids mask (<[q := with_next n bq]> bs) s = ids mask bs s.
Proof.
  intros Hq. apply ids_from_ext. rewrite list_fmap_insert. apply list_insert_id.
  by rewrite list_lookup_fmap, Hq.
Qed.

(** What becomes of the heads and the buckets when the bucket after [bs1] leaves its chain: its
    predecessor there, if any, is the last of [hi]. *)
Definition unlink (mask : Z) (hs : list Z) bs1 b bs2 : list Z * list (Bucket V) :=
  match last (ids_from mask (S (length bs1)) bs2 (slot mask (h b))) with
  | Some q => (hs, match (bs1 ++ b :: bs2) !! q with
                   | Some bq => <[q := with_next (Z_NEXT b) bq]> (bs1 ++ b :: bs2)
                   | None => bs1 ++ b :: bs2
                   end)
  | None => (<[slot mask (h b) := Z_NEXT b]> hs, bs1 ++ b :: bs2)
  end.

Lemma unlink_chains mask hs bs1 b bs2 :
  chains mask hs (bs1 ++ b :: bs2) -> live b = true ->
  chains mask (unlink mask hs bs1 b bs2).1 (<[length bs1 := tomb b]> (unlink mask hs bs1 b bs2).2).
Proof.
  intros [Hlen Hc] Hl. set (bs := bs1 ++ b :: bs2) in *. set (i := length bs1).
  assert (bs !! i = Some b) as Hi by (by apply list_lookup_middle).
  set (s := slot mask (h b)). set (hi := ids_from mask (S (length bs1)) bs2 s).
  assert (ids mask bs s = hi ++ i :: ids mask bs1 s) as Hids.
  { unfold bs. rewrite ids_split. unfold on_chain. by rewrite Hl, bool_decide_true. }
  assert (forall s', s' <> s -> ids mask (<[i := tomb b]> bs) s' = ids mask bs s') as Hother.
  { intros s' Hs'. unfold bs, i. rewrite insert_app_r_alt, Nat.sub_diag by lia. cbn.
    rewrite ids_tomb, ids_split. unfold on_chain. by rewrite Hl, bool_decide_false by done. }
  assert (ids mask (<[i := tomb b]> bs) s = hi ++ ids mask bs1 s) as Hsame.
  { unfold bs, i. rewrite insert_app_r_alt, Nat.sub_diag by lia. cbn. by rewrite ids_tomb. }
  unfold unlink. fold s. fold hi. destruct (last hi) as [q|] eqn:Hq.
  - apply last_Some in Hq as [hi' Hhi].
    assert (q ∈ ids mask bs s) as Hqs.
    { rewrite Hids, Hhi. apply elem_of_app. left. apply elem_of_app. right. by left. }
    pose proof Hqs as (bq & Hbq & Ho)%elem_of_ids. fold bs. rewrite Hbq. cbn [fst snd].
    assert (q <> i) as Hqi.
    { intros ->. assert (i ∈ hi) as H by (rewrite Hhi; apply elem_of_app; right; by left).
      apply elem_of_ids_from in H. unfold i in H. lia. }
    assert (forall s', ids mask (<[i := tomb b]> (<[q := with_next (Z_NEXT b) bq]> bs)) s'
                       = ids mask (<[i := tomb b]> bs) s') as Hids'.
    { intros s'. rewrite list_insert_insert_ne by done. apply ids_with_next.
      by rewrite list_lookup_insert_ne. }
    split; [done|]. intros s' st Hst. rewrite Hids'. specialize (Hc s' st Hst).
    destruct (decide (s' = s)) as [->|Hne].
    + rewrite Hsame, Hhi, <- app_assoc. apply chain_bypass; try done.
      * by rewrite Hids, Hhi, <- app_assoc in Hc.
      * pose proof (NoDup_ids_from mask 0 bs s) as Hnd. unfold ids in Hids. rewrite Hids, Hhi in Hnd.
        by rewrite <- app_assoc in Hnd.
    + rewrite (Hother _ Hne). apply chain_other; try done.
      intros (bq' & Hbq' & Ho')%elem_of_ids. simplify_eq. unfold on_chain in Ho, Ho'.
      apply andb_true_iff in Ho as [_ Ho], Ho' as [_ Ho'].
      apply bool_decide_eq_true in Ho, Ho'. congruence.
  - apply last_None in Hq. cbn [fst snd]. fold bs. split; [by rewrite length_insert|].
    intros s' st. rewrite list_lookup_insert_Some. intros [(<- & <- & Hs)|[Hne Hst]].
    + rewrite Hsame, Hq. destruct (lookup_lt_is_Some_2 hs s Hs) as [st Hst].
      specialize (Hc s st Hst). rewrite Hids, Hq in Hc. destruct Hc as [_ (b' & Hb' & Hc)].
      simplify_eq. by apply chain_set_val.
    + rewrite Hother by done. apply chain_set_val; [by apply Hc | done].
Qed.

(** The other buckets keep what [strip] shows of them. *)
Lemma unlink_strip mask hs bs1 b bs2 :
  strip <$> (unlink mask hs bs1 b bs2).2 = strip <$> (bs1 ++ b :: bs2).
Proof.
  unfold unlink. destruct (last _) as [q|]; [|done].
  destruct ((bs1 ++ b :: bs2) !! q) as [bq|] eqn:Hq; [|done]. cbn [snd].
  rewrite list_fmap_insert. apply list_insert_id. by rewrite list_lookup_fmap, Hq.
Qed.

Lemma unlink_self mask hs bs1 b bs2 :
  (unlink mask hs bs1 b bs2).2 !! length bs1 = Some b.
Proof.
  assert ((bs1 ++ b :: bs2) !! length bs1 = Some b) as Hi by (by apply list_lookup_middle).
  unfold unlink. destruct (last _) as [q|] eqn:Hq; [|done].
  destruct ((bs1 ++ b :: bs2) !! q) as [bq|] eqn:Hbq; [|done]. cbn [snd].
  apply last_Some in Hq as [hi' Hhi].
  assert (q ∈ ids_from mask (S (length bs1)) bs2 (slot mask (h b))) as Hm
    by (rewrite Hhi; apply elem_of_app; right; by left).
  apply elem_of_ids_from in Hm as [Hm _]. by rewrite list_lookup_insert_ne by lia.
Qed.

(** ** Trailing tombstones *)
Lemma trim_undef_ok rest bs : exists bs' ds, bs = bs' ++ ds /\ Forall dead ds /\
  trim_undef (length bs) ((Some <$> bs) ++ rest) = Some (length bs').
Proof.
  revert rest. induction bs as [|b bs IH] using rev_ind; intros rest.
  - exists [], []. by split_and!.
  - rewrite length_app, Nat.add_comm. cbn [length Nat.add trim_undef].
    rewrite (cells_bucket _ _ _ b) by (by apply list_lookup_middle). cbn [mbind option_bind].
    rewrite undef_live. destruct (live b) eqn:Hl; cbn [negb].
    + exists (bs ++ [b]), []. rewrite app_nil_r, length_app, Nat.add_comm. by split_and!.
    + rewrite fmap_app, <- app_assoc. destruct (IH ((Some <$> [b]) ++ rest)) as (bs' & ds & E & Hd & Ht).
      exists bs', (ds ++ [b]). rewrite app_assoc, <- E. split_and!; try done.
      apply Forall_app. split; [done|]. by apply Forall_singleton.
Qed.

Lemma chains_trim mask hs bs ds : Forall dead ds -> chains mask hs (bs ++ ds) -> chains mask hs bs.
Proof.
  intros Hd [Hl Hc]. split; [done|]. intros s st Hst. specialize (Hc s st Hst).
  rewrite ids_dead in Hc by done. revert Hc. apply chain_next_ext.
  intros i b Hi%elem_of_ids Hb. destruct Hi as (b' & Hb' & _). exists b.
  split; [|done]. apply lookup_lt_Some in Hb'. by rewrite lookup_app_l in Hb by done.
Qed.

Lemma next_live_ok ht bs n i : (forall j b, bs !! j = Some b -> bucket (arData ht) (Z.of_nat j) = Some b) ->
  nNumUsed ht = Z.of_nat (length bs) -> 0 <= i -> nNumUsed ht - i <= Z.of_nat n ->
  exists j, next_live n ht i = Some j /\ i <= j.
Proof.
  intros Hcells Hu. revert i. induction n as [|n IH]; intros i H0 Hi; cbn [next_live].
  - rewrite (proj2 (Z.leb_le _ _)) by lia. by exists i.
  - destruct (Z.leb_spec (nNumUsed ht) i); [by exists i|].
    destruct (lookup_lt_is_Some_2 bs (Z.to_nat i)) as [b Hb]; [lia|].
    assert (bucket (arData ht) i = Some b) as ->.
    { rewrite <- (Hcells _ _ Hb). by rewrite Z2Nat.id. }
    cbn [mbind option_bind]. destruct (Z_ISUNDEF (val b)); [|by exists i].
    destruct (IH (i + 1)) as (j & E & Hj); [lia|lia|]. exists j. split; [done|lia].
Qed.

(** ** Deleting an element *)

(** The previous bucket the caller passes. *)
Definition prev_ok ht bs1 b bs2 (prev : option Z) : Prop :=
  HASH_FLAG_PACKED ht = true \/
  prev = Z.of_nat <$> last (ids_from (nTableMask ht) (S (length bs1)) bs2 (slot (nTableMask ht) (h b))).

(** What a deletion guarantees. *)
Definition deleted EG ht bs (k : hkey) z (r : option (executor_globals V * HashTable V)) : Prop :=
  exists EG' ht' bs', r = Some (EG', ht') /\ wf ht' bs' /\
    entries bs' = om_delete k (entries bs) /\ slots EG' = slots EG /\
    destroyed EG' = destroyed EG ++ destroyed_by ht (Some z) /\
    pDestructor ht' = pDestructor ht /\ nTableSize ht' = nTableSize ht /\
    HASH_FLAG_PACKED ht' = HASH_FLAG_PACKED ht /\
    HASH_FLAG_UNINITIALIZED ht' = HASH_FLAG_UNINITIALIZED ht.

(** The first step of the deletion: the chain. *)
Lemma del_unlink ht bs bs1 b bs2 rest prev :
  wf ht bs -> bs = bs1 ++ b :: bs2 -> live b = true -> arData ht = (Some <$> bs) ++ rest ->
  prev_ok ht bs1 b bs2 prev ->
  exists hs bsA,
    (if HASH_FLAG_PACKED ht then Some ht
     else match prev with
     | Some i =>
         q ← bucket (arData ht) i;
         ar ← set_bucket (arData ht) i {| q with Z_NEXT := Z_NEXT b |};
         Some {| ht with arData := ar |}
     | None =>
         hs ← set_HASH_EX (arHash ht) (nIndex (h b) (nTableMask ht)) (Z_NEXT b);
         Some {| ht with arHash := hs |}
     end) = Some {| ht with arHash := hs; arData := (Some <$> bsA) ++ rest |} /\
    strip <$> bsA = strip <$> bs /\ bsA !! length bs1 = Some b /\
    (if HASH_FLAG_PACKED ht then hs = arHash ht /\ bsA = bs
     else chains (nTableMask ht) hs (<[length bs1 := tomb b]> bsA)).
Proof.
  intros Hwf E Hl Hd Hprev. destruct (HASH_FLAG_PACKED ht) eqn:Hp.
  { exists (arHash ht), bs. split_and!; try done; [|by rewrite E; apply list_lookup_middle].
    rewrite <- Hd. clear -Hp. destruct ht; cbn in *. by rewrite ?Hp. }
  destruct Hprev as [?| ->]; [congruence|].
  assert (mixed ht) as Hmx.
  { split; [|done]. destruct (HASH_FLAG_UNINITIALIZED ht) eqn:Hu; [|done].
    pose proof (wf_layout _ _ Hwf) as Hla. unfold layout in Hla. rewrite Hu in Hla.
    destruct Hla as (_ & _ & ->). by destruct bs1. }
  destruct (mixed_layout _ _ Hwf Hmx) as (_ & Hg & Hc). rewrite E in Hc.
  pose proof (unlink_chains _ _ _ _ _ Hc Hl) as Hun. pose proof (unlink_self (nTableMask ht) (arHash ht) bs1 b bs2) as Hself.
  pose proof (unlink_strip (nTableMask ht) (arHash ht) bs1 b bs2) as Hstrip.
  exists (unlink (nTableMask ht) (arHash ht) bs1 b bs2).1, (unlink (nTableMask ht) (arHash ht) bs1 b bs2).2.
  rewrite E. split; [|by split_and!].
  unfold unlink. destruct (last _) as [q|] eqn:Hq; cbn [fmap option_fmap option_map].
  - apply last_Some in Hq as [hi' Hhi].
    assert (q ∈ ids_from (nTableMask ht) (S (length bs1)) bs2 (slot (nTableMask ht) (h b))) as Hm
      by (rewrite Hhi; apply elem_of_app; right; by left).
    assert (q ∈ ids (nTableMask ht) bs (slot (nTableMask ht) (h b))) as Hqi.
    { rewrite E, ids_split. apply elem_of_app. by left. }
    apply elem_of_ids in Hqi as (bq & Hbq & _).
    rewrite (wf_bucket _ _ _ _ Hwf Hbq). rewrite E in Hbq. rewrite Hbq. cbn [mbind option_bind fst snd].
    rewrite Hd, E, set_bucket_insert by (by apply lookup_lt_Some in Hbq). cbn [mbind option_bind].
    clear -Hp. destruct ht; cbn in *. by rewrite ?Hp.
  - destruct Hc as [Hlen _]. rewrite set_HASH_EX_slot by done. cbn [mbind option_bind fst snd].
    rewrite <- E, <- Hd. clear -Hp. destruct ht; cbn in *. by rewrite ?Hp.
Qed.

(** The second step: the internal pointer and the iterators on the bucket move on. *)
Lemma del_pointer EG ht bs rest idx :
  arData ht = (Some <$> bs) ++ rest -> nNumUsed ht = Z.of_nat (length bs) -> 0 <= idx ->
  0 <= nInternalPointer ht ->
  exists EG' ptr,
    (if (nInternalPointer ht =? idx) || HT_HAS_ITERATORS ht then
       new_idx ← next_live (Z.to_nat (nNumUsed ht)) ht (idx + 1);
       Some (zend_hash_iterators_update EG ht idx new_idx,
             if nInternalPointer ht =? idx then {| ht with nInternalPointer := new_idx |} else ht)
     else Some (EG, ht)) = Some (EG', {| ht with nInternalPointer := ptr |}) /\
    same_globals EG EG' /\ 0 <= ptr.
Proof.
  intros Hd Hu H0 Hp. destruct (_ || _).
  - destruct (next_live_ok ht bs (Z.to_nat (nNumUsed ht)) (idx + 1)) as (j & -> & Hj); [|done|lia|lia|].
    { intros j b Hj. rewrite Hd. by apply cells_bucket. }
    cbn [mbind option_bind]. destruct (nInternalPointer ht =? idx).
    + eexists _, j. split; [done|]. split; [apply update_same_globals | lia].
    + eexists _, (nInternalPointer ht). split; [by destruct ht|].
      split; [apply update_same_globals | done].
  - exists EG, (nInternalPointer ht). by split; [destruct ht|].
Qed.

(** The third step: tombstones at the end are given back; [i] is one already, as far as the result
    goes. *)
Lemma del_trim ht bs rest i b :
  arData ht = (Some <$> bs) ++ rest -> nNumUsed ht = Z.of_nat (length bs) -> bs !! i = Some b ->
  0 <= nInternalPointer ht ->
  exists bs' ds ptr, <[i := tomb b]> bs = bs' ++ ds /\ Forall dead ds /\ 0 <= ptr /\
    (if nNumUsed ht - 1 =? Z.of_nat i then
       used ← trim_undef (Z.to_nat (nNumUsed ht - 1)) (arData ht);
       Some {| ht with nNumUsed := Z.of_nat used;
               nInternalPointer := Z.min (nInternalPointer ht) (Z.of_nat used) |}
     else Some ht) = Some {| ht with nNumUsed := Z.of_nat (length bs'); nInternalPointer := ptr |}.
Proof.
  intros Hd Hu Hi Hp. destruct (Z.eqb_spec (nNumUsed ht - 1) (Z.of_nat i)) as [E|E].
  - assert (bs = take i bs ++ [b]) as Ebs.
    { rewrite <- (take_drop_middle bs i b Hi) at 1. f_equal. f_equal. apply drop_ge. lia. }
    destruct (trim_undef_ok (Some b :: rest) (take i bs)) as (bs' & ds & E1 & Hds & E2).
    assert (length (take i bs) = i) as Hlen by (apply length_take_le; lia).
    exists bs', (ds ++ [tomb b]), (Z.min (nInternalPointer ht) (Z.of_nat (length bs'))).
    split_and!.
    + rewrite Ebs at 1. rewrite insert_app_r_alt, Hlen, Nat.sub_diag by lia. cbn.
      by rewrite E1, <- app_assoc.
    + apply Forall_app. split; [done|]. by apply Forall_singleton.
    + lia.
    + rewrite E, Nat2Z.id, Hd, Ebs, fmap_app, <- app_assoc. cbn [fmap list_fmap app].
      rewrite <- Hlen at 1. by rewrite E2.
  - exists (<[i := tomb b]> bs), [], (nInternalPointer ht). rewrite app_nil_r.
    split; [done|]. split; [done|]. split; [done|]. rewrite length_insert, <- Hu. by destruct ht.
Qed.

(** What the bucket list is worth after the tombstone is set. *)
Lemma entries_tombed bs bsA bs1 b bs2 : bs = bs1 ++ b :: bs2 -> live b = true ->
  strip <$> bsA = strip <$> bs -> bsA !! length bs1 = Some b -> bkey b ∉ (entries bs1).*1 ->
  entries (<[length bs1 := tomb b]> bsA) = om_delete (bkey b) (entries bs) /\
  length (entries bs) = S (length (entries (<[length bs1 := tomb b]> bsA))).
Proof.
  intros -> Hl Hs Hi Hk.
  assert (<[length bs1 := tomb b]> bsA = take (length bs1) bsA ++ tomb b :: drop (S (length bs1)) bsA) as ->.
  { apply insert_take_drop. by apply lookup_lt_Some in Hi. }
  rewrite (entries_middle bs1 b bs2 Hl), om_delete_middle by done.
  rewrite entries_app, entries_cons. change (live (tomb b)) with false. cbn match.
  rewrite (strip_entries (take (length bs1) bsA) bs1), (strip_entries (drop (S (length bs1)) bsA) bs2).
  - rewrite !length_app. cbn. split; [done|lia].
  - rewrite fmap_drop, Hs, <- fmap_drop. by rewrite (cons_middle b), app_assoc, drop_app_length'
      by (rewrite length_app; cbn; lia).
  - rewrite fmap_take, Hs, <- fmap_take. by rewrite take_app_length.
Qed.

Lemma bucket_ok_dead next b : dead b -> bucket_ok next b.
Proof. unfold dead. intros Hd Hl. congruence. Qed.

Lemma Forall_ok_insert next bs i b : Forall (bucket_ok next) bs ->
  Forall (bucket_ok next) (<[i := tomb b]> bs).
Proof. intros H. apply Forall_insert; [done|]. by apply bucket_ok_dead. Qed.

(** The same with the place of the element: the other buckets stay where they are. *)
Definition deleted_at EG ht bs (k : hkey) (i : nat) b (r : option (executor_globals V * HashTable V)) :
  Prop :=
  exists EG' ht' bs' ds, r = Some (EG', ht') /\ Forall dead ds /\
    strip <$> (bs' ++ ds) = <[i := strip (tomb b)]> (strip <$> bs) /\
    deleted EG ht bs k (val b) (Some (EG', ht')) /\ wf ht' bs' /\
    forall rest, arData ht = (Some <$> bs) ++ rest -> arData ht' = (Some <$> (bs' ++ ds)) ++ rest.

Lemma del_el_ex_at EG ht bs k bs1 b bs2 prev :
  wf ht bs -> holds bs k bs1 b bs2 -> prev_ok ht bs1 b bs2 prev ->
  deleted_at EG ht bs k (length bs1) b (_zend_hash_del_el_ex EG ht (Z.of_nat (length bs1)) prev).
Proof.
  intros Hwf Hh Hprev. pose proof Hh as (E & Hl & Hk & Hk1 & _).
  destruct (wf_cells _ _ Hwf) as [rest Hd]. unfold _zend_hash_del_el_ex.
  assert (bs !! length bs1 = Some b) as Hi by (rewrite E; by apply list_lookup_middle).
  rewrite (wf_bucket _ _ _ _ Hwf Hi). cbn [mbind option_bind].
  destruct (del_unlink ht bs bs1 b bs2 rest prev Hwf E Hl Hd Hprev)
    as (hs & bsA & -> & Hstrip & HiA & Hch). cbn [mbind option_bind].
  assert (length bsA = length bs) as HlenA
    by (apply (f_equal length) in Hstrip; by rewrite !length_fmap in Hstrip).
  match goal with |- context [if (nInternalPointer ?t =? _) || _ then _ else _] => set (ht1 := t) end.
  pose proof (wf_used _ _ Hwf) as Hu.
  destruct (del_pointer EG ht1 bsA rest (Z.of_nat (length bs1))) as (EG1 & ptr & -> & Hg1 & Hptr);
    [done | by rewrite HlenA | lia | apply (wf_pointer _ _ Hwf) |].
  cbn [mbind option_bind]. set (ht2 := {| ht1 with nInternalPointer := ptr |}).
  destruct (del_trim ht2 bsA rest (length bs1) b) as (bs' & ds & ptr' & EB & Hds & Hptr' & ->);
    [done | by rewrite HlenA | done | done |].
  cbn [mbind option_bind arData ht1 ht2].
  rewrite (cells_bucket _ _ _ _ HiA). cbn [mbind option_bind].
  change {| b with val := IS_UNDEF |} with (tomb b).
  rewrite set_bucket_insert by (by apply lookup_lt_Some in HiA). cbn [mbind option_bind].
  rewrite EB. eexists _, _, bs', ds. split; [done|]. split; [done|].
  split; [by rewrite <- EB, list_fmap_insert, Hstrip|].
  destruct (entries_tombed bs bsA bs1 b bs2 E Hl Hstrip HiA) as [Een Elen]; [by rewrite Hk|].
  rewrite Hk, EB, entries_app, (entries_dead ds Hds), app_nil_r in Een.
  rewrite EB, entries_app, (entries_dead ds Hds), app_nil_r in Elen.
  match goal with |- context [call_destructor EG1 ?t _] => set (ht3 := t) end.
  destruct (call_destructor_spec EG1 ht3 (val b)) as (Es & Ed & _). destruct Hg1 as [Hs1 Hd1].
  match goal with |- _ /\ wf ?t _ /\ _ => assert (wf t bs') as Hwf' end.
  2:{ split; [|split; [done|]].
      - eexists _, _, bs'. split; [done|]. split_and!; try done; [congruence | by rewrite Ed, Hd1].
      - intros rest0 Hr. rewrite Hd in Hr. apply app_inv_head in Hr as <-. done. }
  assert (length (bs' ++ ds) = length bs) as Hlen by (by rewrite <- EB, length_insert).
  pose proof (wf_elems _ _ Hwf) as He. pose proof (wf_size _ _ Hwf) as Hsz.
  pose proof (wf_bound _ _ Hwf) as Hbd.
  pose proof (length_filter live bs) as Hle. rewrite <- length_entries in Hle.
  split; cbn.
  - exists ((Some <$> ds) ++ rest). by rewrite fmap_app, app_assoc.
  - done.
  - rewrite <- (wf_block _ _ Hwf), Hd. by rewrite !length_app, !length_fmap, <- Hlen, length_app.
  - done.
  - rewrite He, Elen. unfold u32. rewrite uwrap_small; lia.
  - rewrite Een. apply NoDup_keys_delete, (wf_keys _ _ Hwf).
  - assert (Forall (bucket_ok (nNextFreeElement ht)) (bs' ++ ds)) as Hok.
    { rewrite <- EB. apply Forall_ok_insert. apply (strip_buckets_ok _ bs); [done|apply (wf_buckets _ _ Hwf)]. }
    by apply Forall_app in Hok as [? _].
  - apply (wf_next _ _ Hwf).
  - done.
  - pose proof (wf_layout _ _ Hwf) as Hla. unfold layout in *. cbn.
    destruct (HASH_FLAG_UNINITIALIZED ht).
    { destruct Hla as (_ & _ & ->). by rewrite lookup_nil in Hi. }
    destruct (HASH_FLAG_PACKED ht).
    + destruct Hch as [-> ->]. destruct Hla as (H1 & H2 & H3). split; [done|].
      split; [rewrite length_app in Hlen; lia|]. intros j bj Hj Hlj.
      assert (<[length bs1:=tomb b]> bs !! j = Some bj) as Hj'.
      { rewrite EB. by apply lookup_app_l_Some. }
      apply list_lookup_insert_Some in Hj' as [(_ & <- & _)|[_ Hj']]; [done|]. by apply H3.
    + split; [apply Hla|]. rewrite EB in Hch. by apply chains_trim in Hch.
Qed.

Lemma del_el_ex_ok EG ht bs k bs1 b bs2 prev :
  wf ht bs -> holds bs k bs1 b bs2 -> prev_ok ht bs1 b bs2 prev ->
  deleted EG ht bs k (val b) (_zend_hash_del_el_ex EG ht (Z.of_nat (length bs1)) prev).
Proof.
  intros Hwf Hh Hp. destruct (del_el_ex_at EG ht bs k bs1 b bs2 prev Hwf Hh Hp)
    as (EG' & ht' & bs' & ds & -> & _ & _ & H & _). exact H.
Qed.

(** ** The deletion functions *)

(** What deleting key [k] does: [SUCCESS] and the element is gone, or [FAILURE] and nothing changed. *)
Definition deletes EG ht bs (k : hkey) (r : option (executor_globals V * HashTable V * Z)) : Prop :=
  match om_lookup k (entries bs) with
  | Some z => exists EG' ht', r = Some (EG', ht', SUCCESS) /\ deleted EG ht bs k z (Some (EG', ht'))
  | None => r = Some (EG, ht, FAILURE)
  end.

Lemma deleted_result EG ht bs k z r (f : executor_globals V * HashTable V -> option (executor_globals V * HashTable V * Z)) :
  deleted EG ht bs k z r -> om_lookup k (entries bs) = Some z ->
  (forall EG ht, f (EG, ht) = Some (EG, ht, SUCCESS)) ->
  deletes EG ht bs k (x ← r; f x).
Proof.
  intros (EG' & ht' & bs' & -> & H) Hlk Hf. unfold deletes. rewrite Hlk. cbn [mbind option_bind].
  rewrite Hf. exists EG', ht'. split; [done|]. exists EG', ht', bs'. by split.
Qed.

Lemma del_from_chain_ok EG ht bs k test : wf ht bs -> mixed ht -> tests test k ->
  deletes EG ht bs k (del_from_chain EG ht (khash k) test).
Proof.
  intros Hwf Hmx Ht. unfold del_from_chain.
  destruct (key_chain _ _ (khash k) Hwf Hmx) as (st & -> & Hc). cbn [mbind option_bind].
  destruct (key_cases _ _ k Hwf) as [(bs1 & b & bs2 & Hh)|Hk].
  - rewrite (chain_around _ _ _ _ _ _ Hwf Hh) in Hc. pose proof Hh as (E & Hl & Hkb & _).
    assert (bs !! length bs1 = Some b) as Hi by (rewrite E; by apply list_lookup_middle).
    pose proof (ids_fuel (nTableMask ht) ht bs (slot (nTableMask ht) (khash k)) Hwf) as Hf.
    rewrite (chain_around _ _ _ _ _ _ Hwf Hh), length_app in Hf.
    rewrite (chase_prev_found _ bs (fun i b => wf_bucket ht bs i b Hwf) (wf_index_bound _ _ Hwf)
               test _ _ _ _ _ None b Hc); [|lia| |done|].
    + cbn [mbind option_bind]. apply (deleted_result EG ht bs k (val b)).
      * apply (del_el_ex_ok EG ht bs k bs1 b bs2 _ Hwf Hh). right.
        destruct (bucket_hash _ _ _ _ Hwf Hi Hl) as [Hb _]. rewrite Hb, Hkb. by destruct (last _).
      * by rewrite (holds_entries _ _ _ _ _ Hh), om_lookup_middle by apply Hh.
      * done.
    + intros j bj Hj Hbj. pose proof Hj as [Hge _]%elem_of_ids_from.
      assert (live bj = true) as Hlj.
      { assert (j ∈ ids (nTableMask ht) bs (slot (nTableMask ht) (khash k))) as Hj'.
        { rewrite (chain_around _ _ _ _ _ _ Hwf Hh). apply elem_of_app. by left. }
        apply ids_live in Hj' as (bj' & Hbj' & ? & _). congruence. }
      apply (tests_other _ _ _ _ _ _ _ _ _ Hwf Ht Hh Hbj Hlj). lia.
    + by rewrite (test_key _ _ _ _ _ _ Hwf Ht Hi Hl), bool_decide_true.
  - rewrite (chase_prev_none _ bs (fun i b => wf_bucket ht bs i b Hwf) (wf_index_bound _ _ Hwf)
               test _ _ _ None Hc (ids_fuel _ _ _ _ Hwf)).
    + cbn [mbind option_bind]. unfold deletes. by rewrite (proj2 (om_lookup_None _ _) Hk).
    + intros j bj (bj' & Hbj' & Hl & _)%ids_live Hbj.
      assert (bj' = bj) as -> by congruence.
      rewrite (test_key _ _ _ _ _ _ Hwf Ht Hbj Hl). apply bool_decide_eq_false. intros E.
      apply Hk, elem_of_keys. by exists j, bj.
Qed.

Lemma del_no_chains EG ht bs k hash test : wf ht bs -> ~ mixed ht -> k ∉ (entries bs).*1 ->
  deletes EG ht bs k (del_from_chain EG ht hash test).
Proof.
  intros Hwf Hmx Hk. unfold del_from_chain, deletes. rewrite (proj2 (om_lookup_None _ _) Hk).
  destruct (not_mixed_heads _ _ Hwf Hmx) as [-> ->]. by rewrite invalid_head.
Qed.

Lemma del_deletes EG ht bs k :
  wf ht bs -> deletes EG ht bs (KStr (ZSTR_VAL k)) (zend_hash_del EG ht k).
Proof.
  intros Hwf. destruct (mixed_dec ht) as [Hmx|Hmx].
  - by apply (del_from_chain_ok EG ht bs (KStr (ZSTR_VAL k))), key_test_tests.
  - apply del_no_chains; [done|done|]. by apply (no_chains_string ht).
Qed.

Lemma zend_hash_str_del_removes EG ht bs str :
  wf ht bs -> deletes EG ht bs (KStr str) (zend_hash_str_del EG ht str).
Proof.
  intros Hwf. destruct (mixed_dec ht) as [Hmx|Hmx].
  - by apply (del_from_chain_ok EG ht bs (KStr str)), str_test_tests.
  - apply del_no_chains; [done|done|]. by apply (no_chains_string ht).
Qed.

Lemma index_del_deletes EG ht bs hash :
  wf ht bs -> 0 <= hash -> deletes EG ht bs (KInt hash) (zend_hash_index_del EG ht hash).
Proof.
  intros Hwf H0. unfold zend_hash_index_del. destruct (HASH_FLAG_PACKED ht) eqn:Hp.
  - rewrite (wf_used _ _ Hwf). destruct (Z.ltb_spec hash (Z.of_nat (length bs))) as [Hlt|Hge].
    + destruct (lookup_lt_is_Some_2 bs (Z.to_nat hash)) as [b Hb]; [lia|].
      pose proof (packed_lookup _ _ _ _ Hwf Hp Hb) as Hl. rewrite Z2Nat.id in Hl by lia.
      assert (bucket (arData ht) hash = Some b) as ->.
      { rewrite <- (wf_bucket _ _ _ _ Hwf Hb). by rewrite Z2Nat.id. }
      cbn [mbind option_bind]. rewrite undef_live. destruct (live b) eqn:El; cbn [negb].
      * destruct Hl as (bs1 & bs2 & Hh & Hlen). apply (deleted_result EG ht bs _ (val b)).
        -- replace hash with (Z.of_nat (length bs1)) at 2 by lia.
           apply (del_el_ex_ok EG ht bs _ bs1 b bs2 None Hwf Hh). by left.
        -- by rewrite (holds_entries _ _ _ _ _ Hh), om_lookup_middle by apply Hh.
        -- done.
      * unfold deletes. by rewrite (proj2 (om_lookup_None _ _) Hl).
    + unfold deletes. rewrite (proj2 (om_lookup_None _ _)); [done|].
      by apply (packed_beyond ht).
  - destruct (mixed_dec ht) as [Hmx|Hmx].
    + by apply (del_from_chain_ok EG ht bs (KInt hash)), index_test_tests.
    + apply del_no_chains; [done|done|]. pose proof (wf_layout _ _ Hwf) as Hla. unfold layout in Hla.
      destruct (HASH_FLAG_UNINITIALIZED ht) eqn:Hu; [|by destruct Hmx].
      destruct Hla as (_ & _ & ->). apply not_elem_of_nil.
Qed.

(** [zend_hash_del] and [zend_hash_index_del], in packed and mixed tables, remove exactly the element
    with the key, keeping the order of the others, destroy its value and give SUCCESS; without such an
    element they give FAILURE and change nothing. *)
Theorem zend_hash_del_removes EG ht bs k hash : wf ht bs -> 0 <= hash ->
  deletes EG ht bs (KStr (ZSTR_VAL k)) (zend_hash_del EG ht k) /\
  deletes EG ht bs (KInt hash) (zend_hash_index_del EG ht hash).
Proof. intros Hwf Hh. split; [by apply del_deletes|by apply index_del_deletes]. Qed.

(** The predecessor of a bucket on its chain, found from the head as the code does. *)
Lemma prev_from_head ht bs k bs1 b bs2 : wf ht bs -> mixed ht -> holds bs k bs1 b bs2 ->
  exists st, HT_HASH_EX (arHash ht) (nIndex (h b) (nTableMask ht)) = Some st /\
    (if st =? Z.of_nat (length bs1) then Some None
     else q ← find_prev (chain_fuel ht) (arData ht) st (Z.of_nat (length bs1)); Some (Some q))
    = Some (Z.of_nat <$> last (ids_from (nTableMask ht) (S (length bs1)) bs2 (slot (nTableMask ht) (h b)))).
Proof.
  intros Hwf Hmx Hh. pose proof Hh as (E & Hl & Hkb & _).
  assert (bs !! length bs1 = Some b) as Hi by (rewrite E; by apply list_lookup_middle).
  destruct (bucket_hash _ _ _ _ Hwf Hi Hl) as [Hb _]. rewrite Hb, Hkb.
  destruct (key_chain _ _ (khash k) Hwf Hmx) as (st & -> & Hc). exists st. split; [done|].
  pose proof (ids_fuel (nTableMask ht) ht bs (slot (nTableMask ht) (khash k)) Hwf) as Hf.
  pose proof (NoDup_ids_from (nTableMask ht) 0 bs (slot (nTableMask ht) (khash k))) as Hnd.
  fold (ids (nTableMask ht) bs (slot (nTableMask ht) (khash k))) in Hnd.
  rewrite (chain_around _ _ _ _ _ _ Hwf Hh) in Hc, Hf, Hnd.
  set (hi := ids_from (nTableMask ht) (S (length bs1)) bs2 (slot (nTableMask ht) (khash k))) in *.
  destruct (last hi) as [q|] eqn:Hq.
  - apply last_Some in Hq as [hi' Hhi]. rewrite Hhi, <- app_assoc in Hc, Hnd, Hf.
    cbn [app] in Hc, Hnd, Hf. rewrite length_app in Hf.
    rewrite (proj2 (Z.eqb_neq _ _)).
    + rewrite (find_prev_chain _ bs (fun i b => wf_bucket ht bs i b Hwf) _ _ _ _ _ _ Hc Hnd); [done|lia].
    + intros ->. destruct hi' as [|j hi']; destruct Hc as [Hj%Nat2Z.inj _]; rewrite <- Hj in Hnd;
        apply NoDup_cons in Hnd as [Hnd _]; apply Hnd; [by left|].
      apply elem_of_app. right. right. by left.
  - apply last_None in Hq. rewrite Hq in Hc. destruct Hc as [-> _]. by rewrite Z.eqb_refl.
Qed.

Lemma holds_mixed ht bs k bs1 b bs2 : wf ht bs -> holds bs k bs1 b bs2 -> HASH_FLAG_PACKED ht = false ->
  mixed ht.
Proof.
  intros Hwf (-> & _) Hp. split; [|done]. destruct (HASH_FLAG_UNINITIALIZED ht) eqn:Hu; [|done].
  pose proof (wf_layout _ _ Hwf) as Hla. unfold layout in Hla. rewrite Hu in Hla.
  destruct Hla as (_ & _ & E). by destruct bs1.
Qed.

(** Deleting the bucket at a known place. *)
Lemma del_el_at EG ht bs k bs1 b bs2 : wf ht bs -> holds bs k bs1 b bs2 ->
  deleted_at EG ht bs k (length bs1) b (_zend_hash_del_el EG ht (Z.of_nat (length bs1))).
Proof.
  intros Hwf Hh. unfold _zend_hash_del_el. destruct (HASH_FLAG_PACKED ht) eqn:Hp.
  { apply (del_el_ex_at EG ht bs k bs1 b bs2 None Hwf Hh). by left. }
  assert (bs !! length bs1 = Some b) as Hi by (destruct Hh as (-> & _); by apply list_lookup_middle).
  rewrite (wf_bucket _ _ _ _ Hwf Hi). cbn [mbind option_bind].
  destruct (prev_from_head ht bs k bs1 b bs2 Hwf (holds_mixed _ _ _ _ _ _ Hwf Hh Hp) Hh) as (st & -> & Hq).
  cbn [mbind option_bind]. rewrite Hq. cbn [mbind option_bind].
  apply (del_el_ex_at EG ht bs k bs1 b bs2 _ Hwf Hh). by right.
Qed.

Lemma del_el_ok EG ht bs k bs1 b bs2 : wf ht bs -> holds bs k bs1 b bs2 ->
  deleted EG ht bs k (val b) (_zend_hash_del_el EG ht (Z.of_nat (length bs1))).
Proof.
  intros Hwf Hh. destruct (del_el_at EG ht bs k bs1 b bs2 Hwf Hh)
    as (EG' & ht' & bs' & ds & -> & _ & _ & H & _). exact H.
Qed.

(** [zend_hash_del_bucket] on any live bucket removes that element. *)
Theorem zend_hash_del_bucket_removes EG ht bs i b :
  wf ht bs -> bs !! i = Some b -> live b = true ->
  deleted EG ht bs (bkey b) (val b) (zend_hash_del_bucket EG ht (Z.of_nat i)).
Proof.
  intros Hwf Hi Hl. destruct (holds_lookup _ _ _ _ Hwf Hi Hl) as (bs1 & bs2 & Hh & <-).
  by apply (del_el_ok EG ht bs _ bs1 b bs2).
Qed.
End Delete.

(** ** Witnesses, on the table [ex_table] *)
Lemma zend_hash_del_removes_witness :
  deletes ex_globals ex_table ex_buckets (KStr [97]) (zend_hash_del ex_globals ex_table (ex_key [97])) /\
  deletes ex_globals ex_table ex_buckets (KInt 19) (zend_hash_index_del ex_globals ex_table 19).
Proof.
  apply (zend_hash_del_removes ex_globals ex_table ex_buckets (ex_key [97]) 19); [apply ex_wf|discriminate].
Defined.

Lemma zend_hash_del_bucket_removes_witness :
  deleted ex_globals ex_table ex_buckets (KInt 3) (IS_VAL 102)
    (zend_hash_del_bucket ex_globals ex_table 2).
Proof.
  apply (zend_hash_del_bucket_removes ex_globals ex_table ex_buckets 2
           (ex_bucket (IS_VAL 102) 0 3 None)); [apply ex_wf | reflexivity | reflexivity].
Defined.
