(* ===== verification/ZendHashRekey.v ===== *)
(** * The engine's hash table: operations on the chains themselves

    [zend_hash_set_bucket_key] gives an element a new key without moving it: its bucket goes from one chain
    to another, to the place where the chain stays "directed from higher to lower buckets".
    [zend_hash_discard] drops the last buckets and relies on just that order. *)
From S2P Require Import Prelude ZendString ZendHash OrderedMap ZendHashInv ZendHashRehash ZendHashUpdate ZendHashDelete.

Section Rekey.
Context {V : Type}.
Implicit Types (b p : Bucket V) (bs : list (Bucket V)) (ar : list (option (Bucket V)))
  (ht : HashTable V) (EG : executor_globals V) (k : zend_string).

(** ** The code *)

(** [while (Z_NEXT(p->val) != HT_INVALID_IDX && Z_NEXT(p->val) > idx)], from bucket [i] on: the bucket
    behind which [idx] belongs. *)
Fixpoint find_above (fuel : nat) ar (i idx : Z) : option Z :=
  match fuel with
  | O => None
  | S fuel =>
      p ← bucket ar i;
      if negb (Z_NEXT p =? HT_INVALID_IDX) && (idx <? Z_NEXT p) then find_above fuel ar (Z_NEXT p) idx
      else Some i
  end.

(** The part marked "del from hash": bucket [b] leaves its chain. *)
Definition take_off_chain ht (b : Z) : option (HashTable V) :=
  p ← bucket (arData ht) b;
  i ← HT_HASH_EX (arHash ht) (nIndex (h p) (nTableMask ht));
  if i =? b then
    hs ← set_HASH_EX (arHash ht) (nIndex (h p) (nTableMask ht)) (Z_NEXT p);
    Some {| ht with arHash := hs |}
  else
    q ← find_prev (chain_fuel ht) (arData ht) i b;
    pq ← bucket (arData ht) q;
    ar ← set_bucket (arData ht) q {| pq with Z_NEXT := Z_NEXT p |};
    Some {| ht with arData := ar |}.

(** The part marked "add to hash": bucket [b] gets the key and joins the chain. *)
Definition put_on_chain ht (b : Z) k : option (HashTable V) :=
  p ← bucket (arData ht) b;
  let p := {| p with key := Some k; h := zend_string_hash_val k |} in
  i ← HT_HASH_EX (arHash ht) (nIndex (h p) (nTableMask ht));
  if (i =? HT_INVALID_IDX) || (i <? b) then
    ar ← set_bucket (arData ht) b {| p with Z_NEXT := i |};
    hs ← set_HASH_EX (arHash ht) (nIndex (h p) (nTableMask ht)) b;
    Some {| ht with arHash := hs; arData := ar |}
  else
    q ← find_above (chain_fuel ht) (arData ht) i b;
    pq ← bucket (arData ht) q;
    ar ← set_bucket (arData ht) b {| p with Z_NEXT := Z_NEXT pq |};
    pq ← bucket ar q;
    ar ← set_bucket ar q {| pq with Z_NEXT := b |};
    Some {| ht with arData := ar |}.

(** [b] is the index of the bucket.  Its old key is released, so it must have one. *)
Definition zend_hash_set_bucket_key ht (b : Z) k : option (HashTable V * option zref) :=
  found ← zend_hash_find_bucket ht k;
  match found with
  | Some p => Some (ht, if p =? b then Some (ZBUCKET b) else None)
  | None =>
      let ht := note_key ht k in
      ht ← take_off_chain ht b;
      p ← bucket (arData ht) b;
      _ ← key p;
      ht ← put_on_chain ht b k;
      Some (ht, Some (ZBUCKET b))
  end.

(** [while (p != end)], with [n] buckets above [nNumUsed'] to go. *)
Fixpoint discard_loop (n : nat) (nNumUsed' : Z) ht : option (HashTable V) :=
  match n with
  | O => Some ht
  | S n =>
      p ← bucket (arData ht) (nNumUsed' + Z.of_nat n);
      if Z_ISUNDEF (val p) then discard_loop n nNumUsed' ht
      else
        hs ← set_HASH_EX (arHash ht) (nIndex (h p) (nTableMask ht)) (Z_NEXT p);
        discard_loop n nNumUsed' {| ht with nNumOfElements := u32 (nNumOfElements ht - 1); arHash := hs |}
  end.

Definition zend_hash_discard ht (nNumUsed' : Z) : option (HashTable V) :=
  discard_loop (Z.to_nat (nNumUsed ht - nNumUsed')) nNumUsed' {| ht with nNumUsed := nNumUsed' |}.

(** ** Joining a chain *)

(** The chain [hi ++ q :: lo] with bucket [i] put in behind [q]. *)
Lemma chain_splice bs hi q i lo st bq b :
  chain bs st (hi ++ q :: lo) -> NoDup (hi ++ q :: lo) -> i ∉ hi ++ q :: lo ->
  bs !! q = Some bq -> (i < length bs)%nat ->
  chain (<[i := with_next (Z_NEXT bq) b]> (<[q := with_next (Z.of_nat i) bq]> bs)) st (hi ++ q :: i :: lo).
Proof.
  intros Hc Hnd Hi Hq Hlt. pose proof (lookup_lt_Some _ _ _ Hq) as Hql.
  assert (forall st l, chain bs st l -> q ∉ l -> i ∉ l ->
    chain (<[i := with_next (Z_NEXT bq) b]> (<[q := with_next (Z.of_nat i) bq]> bs)) st l) as Hext.
  { intros st' l Hl Hql' Hil. revert Hl. apply chain_next_ext. intros j bj Hj Hbj. exists bj.
    split; [|done]. by rewrite !list_lookup_insert_ne by (intros ->; done). }
  revert st Hc. induction hi as [|j hi IH]; intros st Hc.
  - destruct Hc as [-> (bq' & Hq' & Hc)]. simplify_eq. cbn [app] in *.
    apply NoDup_cons in Hnd as [Hqlo _]. apply not_elem_of_cons in Hi as [Hiq Hilo].
    split; [done|]. exists (with_next (Z.of_nat i) bq).
    rewrite list_lookup_insert_ne, list_lookup_insert_eq by done. split; [done|]. split; [done|].
    exists (with_next (Z_NEXT bq) b). rewrite list_lookup_insert_eq by (by rewrite length_insert).
    split; [done|]. by apply Hext.
  - destruct Hc as [-> (bj & Hbj & Hc)]. cbn [app] in *. apply NoDup_cons in Hnd as [Hj Hnd].
    apply not_elem_of_cons in Hi as [Hij Hi]. split; [done|]. exists bj.
    assert (q <> j) by (intros ->; apply Hj, elem_of_app; right; by left).
    rewrite !list_lookup_insert_ne by done. split; [done|]. by apply IH.
Qed.

(** The walk stops at the last bucket above [idx]. *)
Lemma find_above_ok bs ar hi q (i : nat) lo : forall st fuel,
  (forall j b, j ∈ hi ++ [q] -> bs !! j = Some b -> bucket ar (Z.of_nat j) = Some b) ->
  Z.of_nat (length bs) < HT_INVALID_IDX ->
  chain bs st (hi ++ q :: lo) -> Forall (fun j => (i < j)%nat) hi -> (i < q)%nat ->
  Forall (fun j => (j < i)%nat) lo -> (length hi < fuel)%nat ->
  find_above fuel ar st (Z.of_nat i) = Some (Z.of_nat q).
Proof.
  induction hi as [|j hi IH]; intros st [|fuel] Hcells Hb Hc Hhi Hq Hlo Hf; cbn in Hf; try lia; cbn [find_above].
  - destruct Hc as [-> (bq & Hbq & Hc)]. rewrite (Hcells q bq) by (done || by left). cbn [mbind option_bind].
    destruct lo as [|m lo]; cbn in Hc; [by rewrite Hc, Z.eqb_refl|]. destruct Hc as [-> _].
    apply Forall_cons in Hlo as [Hm _]. rewrite (proj2 (Z.ltb_ge _ _)) by lia. by rewrite andb_false_r.
  - destruct Hc as [-> (bj & Hbj & Hc)]. rewrite (Hcells j bj) by (done || by left). cbn [mbind option_bind].
    apply Forall_cons in Hhi as [_ Hhi].
    assert (exists m, Z_NEXT bj = Z.of_nat m /\ (i < m < length bs)%nat) as (m & Em & Hm).
    { destruct hi as [|m hi]; destruct Hc as [E (bm & Hbm & _)].
      - exists q. apply lookup_lt_Some in Hbm. lia.
      - exists m. apply lookup_lt_Some in Hbm. apply Forall_cons in Hhi as [Hm _]. lia. }
    rewrite Em. rewrite (proj2 (Z.eqb_neq _ _)), (proj2 (Z.ltb_lt _ _)) by lia. cbn [negb andb].
    rewrite <- Em. apply IH; try done; [|lia]. intros j' b' Hj'. apply Hcells. by right.
Qed.
(** ** Changing a key *)

(** Leaving the chain: the heads and the links of a deletion, with the bucket itself untouched. *)
Lemma take_off_ok ht bs (K : hkey) bs1 b bs2 rest : wf ht bs -> mixed ht -> holds bs K bs1 b bs2 ->
  arData ht = (Some <$> bs) ++ rest ->
  exists hs bsA, take_off_chain ht (Z.of_nat (length bs1))
    = Some {| ht with arHash := hs; arData := (Some <$> bsA) ++ rest |} /\
    strip <$> bsA = strip <$> bs /\ bsA !! length bs1 = Some b /\
    chains (nTableMask ht) hs (<[length bs1 := tomb b]> bsA).
Proof.
  intros Hwf Hmx Hh Hd. pose proof Hh as (E & Hl & _).
  assert (bs !! length bs1 = Some b) as Hi by (rewrite E; by apply list_lookup_middle).
  set (prev := Z.of_nat <$> last (ids_from (nTableMask ht) (S (length bs1)) bs2 (slot (nTableMask ht) (h b)))).
  destruct (del_unlink ht bs bs1 b bs2 rest prev Hwf E Hl Hd) as (hs & bsA & Hu & H1 & H2 & H3); [by right|].
  pose proof Hmx as [_ Hp]. rewrite Hp in H3. exists hs, bsA. split; [|done].
  etransitivity; [|exact Hu]. unfold take_off_chain. rewrite Hp, (wf_bucket _ _ _ _ Hwf Hi). cbn [mbind option_bind].
  destruct (prev_from_head ht bs K bs1 b bs2 Hwf) as (st & -> & Hq); [done..|]. cbn [mbind option_bind].
  fold prev in Hq. clearbody prev. destruct (st =? Z.of_nat (length bs1)).
  { assert (prev = None) as -> by congruence. done. }
  destruct (find_prev _ _ _ _) as [q|]; [|done]. cbn [mbind option_bind] in *.
  assert (prev = Some q) as -> by congruence. done.
Qed.

(** The chain of slot [s] above and below bucket [i]. *)
Lemma ids_around mask bs i b s : bs !! i = Some b -> exists hi lo,
  (forall b', ids mask (<[i := b']> bs) s = hi ++ (if on_chain mask s b' then [i] else []) ++ lo) /\
  Forall (fun j => (i < j)%nat) hi /\ Forall (fun j => (j < i)%nat) lo.
Proof.
  intros Hi. exists (ids_from mask (S i) (drop (S i) bs) s), (ids mask (take i bs) s).
  assert (length (take i bs) = i) as Hlen by (apply length_take_le; apply lookup_lt_Some in Hi; lia).
  split_and!.
  - intros b'. rewrite insert_take_drop by (by apply lookup_lt_Some in Hi). by rewrite ids_split, Hlen.
  - apply Forall_forall. intros j [? _]%elem_of_ids_from. lia.
  - apply Forall_forall. intros j (bj & Hj & _)%elem_of_ids. apply lookup_lt_Some in Hj. lia.
Qed.

Definition keyed k b : Bucket V := {| b with key := Some k; h := zend_string_hash_val k |}.

(** [bs] with the dead bucket [i] made live: the chains of the other slots visit neither [i] nor the
    buckets of the slot it joins. *)
Lemma join_other mask bs i t q st bq b n m s s' :
  chain (<[i := t]> bs) st (ids mask (<[i := t]> bs) s') -> s' <> s -> bs !! i = Some b -> live t = false ->
  q = i \/ (q ∈ ids mask (<[i := t]> bs) s /\ bs !! q = Some bq /\ q <> i) ->
  slot mask (h m) = s ->
  chain (<[i := m]> (<[q := with_next n bq]> bs)) st (ids mask (<[i := m]> (<[q := with_next n bq]> bs)) s').
Proof.
  intros Hc Hs Hi Ht Hq Hm. pose proof (lookup_lt_Some _ _ _ Hi) as Hil.
  assert (ids mask (<[i := m]> (<[q := with_next n bq]> bs)) s' = ids mask (<[i := t]> bs) s') as ->.
  { assert (on_chain mask s' m = false) as Em.
    { unfold on_chain. rewrite bool_decide_false by (by rewrite Hm). apply andb_false_r. }
    assert (on_chain mask s' t = false) as Et by (unfold on_chain; by rewrite Ht).
    apply ids_from_ext. rewrite !list_fmap_insert, Em, Et.
    destruct Hq as [->|(_ & Hq & _)]; [by rewrite list_insert_insert_eq|]. f_equal.
    apply list_insert_id. by rewrite list_lookup_fmap, Hq. }
  revert Hc. apply chain_next_ext. intros j bj (b' & Hb' & Ho)%elem_of_ids Hbj.
  rewrite Hbj in Hb'. injection Hb' as <-. unfold on_chain in Ho. apply andb_true_iff in Ho as [Hlj Hsj]. apply bool_decide_eq_true in Hsj.
  assert (i <> j) as Hij.
  { intros ->. rewrite list_lookup_insert_eq in Hbj by done. simplify_eq. congruence. }
  exists bj. split; [|done]. rewrite list_lookup_insert_ne in Hbj |- * by done.
  assert (q <> j); [|by rewrite list_lookup_insert_ne]. intros ->.
  destruct Hq as [->|((b' & Hb' & Ho)%elem_of_ids & _ & Hne)]; [done|].
  rewrite list_lookup_insert_ne in Hb' by done. simplify_eq.
  unfold on_chain in Ho. apply andb_true_iff in Ho as [_ Ho]. apply bool_decide_eq_true in Ho. congruence.
Qed.

(** Joining a chain whose buckets are all below [i]: at its head. *)
Lemma join_head mask hs bs i t b m st lo : let s := slot mask (h m) in
  chains mask hs (<[i := t]> bs) -> bs !! i = Some b -> live t = false -> live m = true ->
  hs !! s = Some st -> (forall b', ids mask (<[i := b']> bs) s = (if on_chain mask s b' then [i] else []) ++ lo) ->
  i ∉ lo -> chains mask (<[s := Z.of_nat i]> hs) (<[i := with_next st m]> bs).
Proof.
  intros s [Hlen Hc] Hi Ht Hm Hst Hids Hlo. split; [by rewrite length_insert|].
  intros s' st'. rewrite list_lookup_insert_Some. intros [(<- & <- & Hlt)|[Hne Hst']].
  - rewrite Hids. unfold on_chain at 1. cbn [with_next h]. rewrite bool_decide_true by done.
    replace (live (with_next st m)) with true by (by rewrite <- Hm).
    split; [done|]. exists (with_next st m).
    rewrite list_lookup_insert_eq by (by apply lookup_lt_Some in Hi). split; [done|].
    specialize (Hc s st Hst). rewrite Hids in Hc. unfold on_chain in Hc. rewrite Ht in Hc. revert Hc.
    apply chain_next_ext. intros j bj Hj Hbj. exists bj. split; [|done].
    assert (i <> j) by (by intros ->). by rewrite list_lookup_insert_ne in Hbj |- *.
  - rewrite <- (list_insert_insert_eq bs i (with_next st m) (with_next 0 b)).
    apply (join_other mask bs i t i st' b b 0 (with_next st m) s); try done; [by apply Hc|by left].
Qed.

(** Joining a chain behind [q], its last bucket above [i]. *)
Lemma join_behind mask hs bs i t b m q bq hi lo : let s := slot mask (h m) in
  chains mask hs (<[i := t]> bs) -> bs !! i = Some b -> live t = false -> live m = true ->
  bs !! q = Some bq -> q <> i -> i ∉ hi ++ q :: lo ->
  (forall b', ids mask (<[i := b']> bs) s = (hi ++ [q]) ++ (if on_chain mask s b' then [i] else []) ++ lo) ->
  chains mask hs (<[i := with_next (Z_NEXT bq) m]> (<[q := with_next (Z.of_nat i) bq]> bs)).
Proof.
  intros s [Hlen Hc] Hi Ht Hm Hq Hqi Hni Hids. split; [done|]. intros s' st Hst.
  assert (ids mask (<[i := t]> bs) s = hi ++ q :: lo) as Et.
  { rewrite Hids. unfold on_chain. rewrite Ht, <- app_assoc. done. }
  destruct (decide (s' = s)) as [->|Hne].
  - assert (forall b', <[i := b']> (<[q := with_next (Z.of_nat i) bq]> bs)
                       = <[i := b']> (<[q := with_next (Z.of_nat i) bq]> (<[i := t]> bs))) as Eb.
    { intros b'. by rewrite (list_insert_insert_ne bs q i), list_insert_insert_eq by done. }
    rewrite list_insert_insert_ne, ids_with_next by (done || by rewrite list_lookup_insert_ne).
    rewrite Hids, list_insert_insert_ne, Eb by done. unfold on_chain at 1. cbn [with_next h].
    rewrite bool_decide_true by done. replace (live (with_next (Z_NEXT bq) m)) with true by (by rewrite <- Hm).
    rewrite <- app_assoc. cbn [andb app].
    apply chain_splice; [rewrite <- Et; by apply Hc | rewrite <- Et; apply NoDup_ids_from | done | |].
    + by rewrite list_lookup_insert_ne.
    + rewrite length_insert. by apply lookup_lt_Some in Hi.
  - apply (join_other mask bs i t q st bq b (Z.of_nat i) (with_next (Z_NEXT bq) m) s); try done; [by apply Hc|].
    right. split_and!; [|done..]. rewrite Et. apply elem_of_app. right. by left.
Qed.

(** Where the walk from a head above [i] ends. *)
Lemma walk_above ht mask bs rest i b t s st hi q lo : arData ht = (Some <$> bs) ++ rest ->
  bs !! i = Some b -> Z.of_nat (length bs) < HT_INVALID_IDX ->
  ids mask (<[i := t]> bs) s = hi ++ q :: lo -> chain (<[i := t]> bs) st (hi ++ q :: lo) ->
  Forall (fun j => (i < j)%nat) (hi ++ [q]) -> Forall (fun j => (j < i)%nat) lo ->
  (st =? HT_INVALID_IDX) || (st <? Z.of_nat i) = false /\ (q < length bs)%nat /\
  find_above (chain_fuel ht) (arData ht) st (Z.of_nat i) = Some (Z.of_nat q).
Proof.
  intros Hd Hi Hbd Hids Hcs Hhi Hlo.
  pose proof Hhi as [Hhi' [Hq _]%Forall_cons]%Forall_app.
  assert (exists j, st = Z.of_nat j /\ (i < j < length bs)%nat) as (j & -> & Hj).
  { destruct hi as [|j hi]; destruct Hcs as [-> (bj & Hbj & _)]; apply lookup_lt_Some in Hbj;
      rewrite length_insert in Hbj; [by exists q|]. exists j. apply Forall_cons in Hhi' as [? _]. lia. }
  split; [rewrite (proj2 (Z.eqb_neq _ _)), (proj2 (Z.ltb_ge _ _)) by lia; done|]. split.
  { rewrite <- (length_insert bs i t). eapply chain_lt; [exact Hcs|]. apply elem_of_app. right. by left. }
  apply (find_above_ok (<[i := t]> bs) (arData ht) hi q i lo); [|by rewrite length_insert|done..|].
  - intros m bm Hm. rewrite Forall_forall in Hhi. specialize (Hhi _ Hm).
    rewrite list_lookup_insert_ne by lia. rewrite Hd. apply cells_bucket.
  - pose proof (length_ids_from mask 0 (<[i := t]> bs) s) as Hle.
    fold (ids mask (<[i := t]> bs) s) in Hle. rewrite Hids, length_insert, length_app in Hle. cbn in Hle.
    unfold chain_fuel. rewrite Hd, length_app, length_fmap. lia.
Qed.

(** Joining the chain of the new key's slot. *)
Lemma put_on_ok ht bs rest i b k t : arData ht = (Some <$> bs) ++ rest -> bs !! i = Some b ->
  live b = true -> live t = false -> Z.of_nat (length bs) < HT_INVALID_IDX ->
  good_mask (nTableMask ht) -> chains (nTableMask ht) (arHash ht) (<[i := t]> bs) ->
  exists hs bs', put_on_chain ht (Z.of_nat i) k
    = Some {| ht with arHash := hs; arData := (Some <$> bs') ++ rest |} /\
    chains (nTableMask ht) hs bs' /\ strip <$> bs' = <[i := strip (keyed k b)]> (strip <$> bs).
Proof.
  intros Hd Hi Hl Ht Hbd Hg Hch. pose proof Hch as [Hlen Hc]. set (s := slot (nTableMask ht) (h (keyed k b))).
  destruct (head_is_Some _ _ Hg Hlen (h (keyed k b))) as [st Hst]. fold s in Hst.
  destruct (ids_around (nTableMask ht) bs i b s Hi) as (hi & lo & Hids & Hhi & Hlo).
  assert (ids (nTableMask ht) (<[i := t]> bs) s = hi ++ lo) as Et.
  { rewrite Hids. unfold on_chain. by rewrite Ht. }
  pose proof (Hc s st Hst) as Hcs. rewrite Et in Hcs. pose proof (lookup_lt_Some _ _ _ Hi) as Hil.
  assert (i ∉ lo) as Hni by (intros Hin; rewrite Forall_forall in Hlo; specialize (Hlo _ Hin); lia).
  unfold put_on_chain. rewrite Hd, (cells_bucket _ _ _ _ Hi). cbn [mbind option_bind h]. rewrite HT_HASH_EX_slot by done.
  change (zend_string_hash_val k) with (h (keyed k b)). fold s. rewrite Hst. cbn [mbind option_bind].
  destruct (last hi) as [q|] eqn:Hq.
  - apply last_Some in Hq as [hi' ->]. rewrite <- app_assoc in Hcs, Et.
    destruct (walk_above ht (nTableMask ht) bs rest i b t s st hi' q lo) as (-> & Hql & Hw); [done..|].
    rewrite Hd in Hw. rewrite Hw. destruct (lookup_lt_is_Some_2 bs q Hql) as [bq Hbq].
    apply Forall_app in Hhi as [Hhi' [Hq _]%Forall_cons]. cbn [mbind option_bind].
    rewrite (cells_bucket _ _ _ _ Hbq). cbn [mbind option_bind].
    rewrite set_bucket_insert by done. cbn [mbind option_bind].
    rewrite (cells_bucket _ _ _ bq) by (by rewrite list_lookup_insert_ne by lia). cbn [mbind option_bind].
    rewrite set_bucket_insert by (by rewrite length_insert). cbn [mbind option_bind].
    exists (arHash ht), (<[i := with_next (Z_NEXT bq) (keyed k b)]> (<[q := with_next (Z.of_nat i) bq]> bs)).
    split; [by rewrite list_insert_insert_ne by lia|]. split.
    + apply (join_behind _ _ bs i t b (keyed k b) q bq hi' lo); try done; [lia|].
      intros [Hin|[->|Hin]%elem_of_cons]%elem_of_app; [|lia|done].
      rewrite Forall_forall in Hhi'. specialize (Hhi' _ Hin). lia.
    + rewrite !list_fmap_insert. f_equal. apply list_insert_id. by rewrite list_lookup_fmap, Hbq.
  - apply last_None in Hq as ->. cbn [app] in *.
    assert ((st =? HT_INVALID_IDX) || (st <? Z.of_nat i) = true) as ->.
    { destruct lo as [|j lo]; cbn in Hcs; [subst st; by rewrite Z.eqb_refl|]. destruct Hcs as [-> _].
      apply Forall_cons in Hlo as [? _]. rewrite (proj2 (Z.ltb_lt _ _)) by lia. apply orb_true_r. }
    rewrite set_bucket_insert by done. cbn [mbind option_bind]. rewrite set_HASH_EX_slot by done. cbn [mbind option_bind].
    exists (<[s := Z.of_nat i]> (arHash ht)), (<[i := with_next st (keyed k b)]> bs). split; [done|]. split.
    + by apply (join_head _ _ bs i t b (keyed k b) st lo).
    + by rewrite list_fmap_insert.
Qed.

(** What giving element [b] of [bs1 ++ b :: bs2] the key [k] guarantees. *)
Definition rekeyed ht bs1 b bs2 k (r : option (HashTable V * option zref)) : Prop :=
  let bs := bs1 ++ b :: bs2 in
  if bool_decide (bkey b = KStr (ZSTR_VAL k)) then r = Some (ht, Some (ZBUCKET (Z.of_nat (length bs1))))
  else if bool_decide (KStr (ZSTR_VAL k) ∈ (entries bs).*1) then r = Some (ht, None)
  else exists ht' bs', r = Some (ht', Some (ZBUCKET (Z.of_nat (length bs1)))) /\ wf ht' bs' /\
    entries bs' = entries bs1 ++ (KStr (ZSTR_VAL k), val b) :: entries bs2.

Lemma rekeyed_buckets ht bs1 b bs2 k bs' :
  wf ht (bs1 ++ b :: bs2) -> live b = true -> KStr (ZSTR_VAL k) ∉ (entries (bs1 ++ b :: bs2)).*1 ->
  strip <$> bs' = <[length bs1 := strip (keyed k b)]> (strip <$> (bs1 ++ b :: bs2)) ->
  entries bs' = entries bs1 ++ (KStr (ZSTR_VAL k), val b) :: entries bs2 /\
  NoDup (entries bs').*1 /\ length (entries bs') = length (entries (bs1 ++ b :: bs2)) /\
  length bs' = length (bs1 ++ b :: bs2) /\ Forall (bucket_ok (nNextFreeElement ht)) bs'.
Proof.
  intros Hwf Hl Hk Hs.
  assert (strip <$> bs' = strip <$> (bs1 ++ keyed k b :: bs2)) as Hs'.
  { rewrite Hs, !fmap_app, !fmap_cons, insert_app_r_alt, length_fmap, Nat.sub_diag
      by (by rewrite length_fmap). done. }
  assert (entries bs' = entries bs1 ++ (KStr (ZSTR_VAL k), val b) :: entries bs2) as E.
  { rewrite (strip_entries _ _ Hs'), entries_middle by done. done. }
  pose proof (wf_keys _ _ Hwf) as Hnd. rewrite entries_middle in Hk, Hnd |- * by done. split_and!.
  - done.
  - rewrite E, !fmap_app, !fmap_cons in *. cbn [fst] in *. rewrite <- Permutation_middle in Hnd, Hk |- *.
    apply NoDup_cons in Hnd as [_ Hnd]. apply NoDup_cons. split; [|done].
    intros Hin. apply Hk. by right.
  - by rewrite E, !length_app.
  - apply (f_equal length) in Hs'. by rewrite !length_fmap, !length_app in *.
  - apply (strip_buckets_ok _ (bs1 ++ keyed k b :: bs2)); [done|].
    pose proof (wf_buckets _ _ Hwf) as Hb. apply Forall_app in Hb as [H1 [_ H2]%Forall_cons].
    apply Forall_app. split; [done|]. apply Forall_cons. split; [|done].
    intros _. split; [done|]. split; [apply hash_val_range|done].
Qed.

(** C25: giving a bucket of a mixed table a string key: a key that is in use elsewhere is refused, the
    bucket's own key changes nothing, and otherwise the element keeps its place and its value under the
    new key, in a table whose invariant, every chain's order included, holds again. *)
Theorem zend_hash_set_bucket_key_moves ht bs1 b bs2 k : wf ht (bs1 ++ b :: bs2) ->
  HASH_FLAG_PACKED ht = false -> live b = true -> key b <> None ->
  rekeyed ht bs1 b bs2 k (zend_hash_set_bucket_key ht (Z.of_nat (length bs1)) k).
Proof.
  intros Hwf Hp Hl Hkey. unfold rekeyed, zend_hash_set_bucket_key. rewrite (find_bucket_key _ _ _ Hwf).
  cbn [mbind option_bind]. set (bs := bs1 ++ b :: bs2) in *.
  assert (bs !! length bs1 = Some b) as Hi by (by apply list_lookup_middle).
  case_bool_decide as Hb.
  { destruct (holds_lookup _ _ _ _ Hwf Hi Hl) as (x & y & Hh & Hx). rewrite Hb in Hh.
    by rewrite (find_key_holds _ _ _ _ _ Hh), Hx, Z.eqb_refl. }
  case_bool_decide as Hin.
  { destruct (key_cases _ _ (KStr (ZSTR_VAL k)) Hwf) as [(x & c & y & Hh)|]; [|done].
    rewrite (find_key_holds _ _ _ _ _ Hh), (proj2 (Z.eqb_neq _ _)); [done|].
    intros E%Nat2Z.inj. destruct Hh as (E' & _ & Hc & _). apply Hb. rewrite E', <- E in Hi.
    rewrite list_lookup_middle in Hi by done. congruence. }
  rewrite (find_key_None _ _ Hin). destruct (holds_lookup _ _ _ _ Hwf Hi Hl) as (x & y & Hh & Hx).
  assert (wf (note_key ht k) bs) as Hwf' by (by apply wf_note_key).
  set (ht1 := note_key ht k) in *.
  destruct (wf_cells _ _ Hwf') as [rest Hd].
  assert (HASH_FLAG_PACKED ht1 = false) as Hp' by (unfold ht1, note_key; by destruct (ZSTR_IS_INTERNED k)).
  pose proof (holds_mixed _ _ _ _ _ _ Hwf' Hh Hp') as Hmx. rewrite <- Hx.
  destruct (take_off_ok _ _ _ _ _ _ _ Hwf' Hmx Hh Hd) as (hs & bsA & -> & Hs1 & Hi1 & Hc1).
  pose proof (f_equal length Hs1) as Hlen. rewrite !length_fmap in Hlen.
  cbn [mbind option_bind arData]. rewrite (cells_bucket _ _ _ _ Hi1). cbn [mbind option_bind].
  destruct (key b) as [k0|] eqn:Ekey; [cbn [mbind option_bind]|done].
  destruct (mixed_layout _ _ Hwf' Hmx) as (Hmk & Hg & _).
  edestruct (put_on_ok {| ht1 with arHash := hs; arData := (Some <$> bsA) ++ rest |} bsA rest
    (length x) b k (tomb b)) as (hs2 & bs2' & -> & Hc2 & Hs2); [done..| | |exact Hc1|]; [|done|].
  { rewrite Hlen. by apply (wf_index_bound ht1). }
  rewrite Hs1, Hx in Hs2. rewrite Hx. cbn [mbind option_bind].
  destruct (rekeyed_buckets ht1 bs1 b bs2 k bs2' Hwf' Hl Hin Hs2) as (E1 & E2 & E3 & E4 & E5).
  eexists _, bs2'. split; [done|]. split; [|done].
  destruct Hwf' as [_ H2 H3 H4 H5 H6 H7 H8 H9 H10]. split; cbn; try done.
  - by eexists.
  - by rewrite H2, E4.
  - rewrite <- H3, Hd, !length_app, !length_fmap. by rewrite E4.
  - by rewrite H5, E3.
  - destruct Hmx as [Hu _]. unfold layout. cbn. rewrite Hu, Hp'. done.
Qed.

(** ** Dropping the last buckets *)

(** The converse of [chains_link]: the last bucket is the head of its chain. *)
Lemma chains_drop_last mask hs bs p : good_mask mask -> chains mask hs (bs ++ [p]) ->
  chains mask (if live p then <[slot mask (h p) := Z_NEXT p]> hs else hs) bs.
Proof.
  intros Hg Hch. destruct (live p) eqn:Hl.
  2: { by apply (chains_trim _ _ _ [p]); [apply Forall_singleton|]. }
  destruct Hch as [Hlen Hc]. split; [by rewrite length_insert|].
  assert (forall st s, chain (bs ++ [p]) st (ids mask bs s) -> chain bs st (ids mask bs s)) as Hshort.
  { intros st s. apply chain_next_ext. intros j bj (b' & Hb' & _)%elem_of_ids Hj. exists bj.
    split; [|done]. apply lookup_lt_Some in Hb'. by rewrite lookup_app_l in Hj by done. }
  intros s st. rewrite list_lookup_insert_Some. intros [(<- & <- & Hlt)|[Hne Hst]].
  - destruct (lookup_lt_is_Some_2 _ _ Hlt) as [st' Hst']. specialize (Hc _ _ Hst').
    rewrite ids_snoc in Hc. unfold on_chain in Hc. rewrite Hl, bool_decide_true in Hc by done.
    destruct Hc as [-> (b' & Hb' & Hc)]. rewrite list_lookup_middle in Hb' by done. simplify_eq. by apply Hshort.
  - specialize (Hc s st Hst). rewrite ids_snoc in Hc. unfold on_chain in Hc.
    rewrite bool_decide_false, andb_false_r in Hc by done. by apply Hshort.
Qed.

Lemma discard_loop_ok bs n : forall ht mid rest, length mid = n ->
  arData ht = (Some <$> (bs ++ mid)) ++ rest -> good_mask (nTableMask ht) ->
  chains (nTableMask ht) (arHash ht) (bs ++ mid) ->
  nNumOfElements ht = Z.of_nat (length (entries (bs ++ mid))) -> nNumOfElements ht < 2 ^ 32 ->
  exists hs, discard_loop n (Z.of_nat (length bs)) ht
    = Some {| ht with nNumOfElements := Z.of_nat (length (entries bs)); arHash := hs |} /\
    chains (nTableMask ht) hs bs.
Proof.
  induction n as [|n IH]; intros ht mid rest Hn Hd Hg Hc He Hb.
  - apply nil_length_inv in Hn as ->. rewrite app_nil_r in *. exists (arHash ht). rewrite <- He.
    by destruct ht.
  - destruct mid as [|p mid _] using rev_ind; [done|]. rewrite length_app, Nat.add_comm in Hn.
    injection Hn as Hn. cbn [discard_loop].
    rewrite app_assoc in Hd, Hc, He.
    assert (bucket (arData ht) (Z.of_nat (length bs) + Z.of_nat n) = Some p) as ->.
    { rewrite <- Nat2Z.inj_add, Hd. apply cells_bucket, list_lookup_middle. by rewrite length_app, Hn. }
    cbn [mbind option_bind]. rewrite undef_live.
    pose proof (chains_drop_last _ _ _ _ Hg Hc) as Hc'.
    rewrite fmap_app, <- app_assoc in Hd. rewrite entries_app, entries_cons in He.
    destruct (live p); cbn [negb].
    + destruct Hc as [Hlen _]. rewrite set_HASH_EX_slot by done. cbn [mbind option_bind].
      rewrite length_app, Nat2Z.inj_add in He. cbn in He.
      assert (u32 (nNumOfElements ht - 1) = Z.of_nat (length (entries (bs ++ mid)))) as Eu.
      { rewrite He in *. unfold u32. rewrite uwrap_small by lia. lia. }
      rewrite Eu.
      by apply (IH {| ht with nNumOfElements := _; arHash := _ |} mid (([Some p] : list _) ++ rest)); cbn; try lia.
    + cbn in He. rewrite app_nil_r in He. by apply (IH ht mid (([Some p] : list _) ++ rest)).
Qed.

(** Dropping the buckets from [n] on, which relies on every chain going from higher buckets to lower
    ones, leaves a well-formed table with exactly the elements of the first [n] buckets. *)
Theorem zend_hash_discard_keeps ht bs n : wf ht bs -> mixed ht -> (n <= length bs)%nat ->
  exists ht', zend_hash_discard ht (Z.of_nat n) = Some ht' /\ wf ht' (take n bs) /\ mixed ht'.
Proof.
  intros Hwf Hmx Hn. destruct (mixed_layout _ _ Hwf Hmx) as (Hmk & Hg & Hc).
  destruct (wf_cells _ _ Hwf) as [rest Hd]. pose proof (take_drop n bs) as E.
  assert (length (take n bs) = n) as Hlen by (by apply length_take_le).
  unfold zend_hash_discard. rewrite (wf_used _ _ Hwf).
  replace (Z.to_nat (Z.of_nat (length bs) - Z.of_nat n)) with (length (drop n bs)) by (rewrite length_drop; lia).
  pose proof (wf_elems _ _ Hwf) as He. pose proof (length_entries bs) as Hle.
  pose proof (length_filter live bs) as Hlf. pose proof (wf_bound _ _ Hwf). pose proof (wf_size _ _ Hwf).
  edestruct (discard_loop_ok (take n bs) (length (drop n bs)) {| ht with nNumUsed := Z.of_nat n |} (drop n bs) rest)
    as (hs & Hr & Hc'); cbn; rewrite ?E; try done; [lia|].
  rewrite Hlen in Hr. rewrite Hr. eexists. split; [done|]. split; [|done].
  destruct Hwf as [_ H2 H3 H4 H5 H6 H7 H8 H9 H10]. split; cbn; try done.
  - exists ((Some <$> drop n bs) ++ rest). by rewrite app_assoc, <- fmap_app, E.
  - by rewrite Hlen.
  - rewrite <- E, entries_app, fmap_app in H6. by apply NoDup_app in H6 as [? _].
  - by apply Forall_take.
  - destruct Hmx as [Hu Hp]. unfold layout. cbn. by rewrite Hu, Hp.
Qed.
End Rekey.

(** ** Witness, on the table [ex_table]: the key "a" becomes "b" *)
Lemma zend_hash_set_bucket_key_moves_witness :
  rekeyed ex_table (take 3 ex_buckets) (ex_bucket (IS_VAL 103) HT_INVALID_IDX (zend_inline_hash_func [97]) (Some (ex_key [97])))
    [] (ex_key [98]) (zend_hash_set_bucket_key ex_table 3 (ex_key [98])).
Proof.
  apply (zend_hash_set_bucket_key_moves ex_table (take 3 ex_buckets)
    (ex_bucket (IS_VAL 103) HT_INVALID_IDX (zend_inline_hash_func [97]) (Some (ex_key [97]))) [] (ex_key [98]));
    [exact ex_wf | reflexivity | reflexivity | discriminate].
Defined.

(** The key "^" shares its chain with 19 and 3: bucket 3 leaves the chain of "a" and becomes the head there. *)
Example ex_rekey : exists ht, zend_hash_set_bucket_key ex_table 3 (ex_key [94]) = Some (ht, Some (ZBUCKET 3)) /\
  arHash ht !! 3%nat = Some 3 /\ arHash ht !! 6%nat = Some HT_INVALID_IDX /\
  zend_hash_find_bucket ht (ex_key [94]) = Some (Some 3).
Proof. eexists. split; [vm_compute; reflexivity|]. split_and!; vm_compute; reflexivity. Qed.
