(* ===== verification/ZendHashMap.v ===== *)
(** * The engine's hash table as an ordered map

    The abstract specification of a table is the step relation [map_step] on an ordered map and the
    list of values handed to the destructor.  [zend_hash_refines_ordered_map] shows that any sequence
    of operations on a fresh table runs without an invalid memory access and is a run of the
    specification. *)
From S2P Require Import Prelude ZendString ZendHash OrderedMap ZendHashInv ZendHashRehash ZendHashUpdate ZendHashDelete.

Section Map.
Context {V : Type}.
Implicit Types (b p : Bucket V) (bs : list (Bucket V)) (ht : HashTable V) (EG : executor_globals V)
  (z : zval V) (m : list (hkey * zval V)).

(** ** Lookups *)

(** The element a lookup points to is the one the map has, NULL if there is none. *)
Definition looks_up EG ht bs (k : hkey) (r : option (option zref)) : Prop :=
  exists ref, r = Some ref /\
    match ref with
    | Some ref => exists z, zread EG ht ref = Some z /\ om_lookup k (entries bs) = Some z
    | None => om_lookup k (entries bs) = None
    end.

Lemma find_key_looks_up EG ht bs k : wf ht bs ->
  looks_up EG ht bs k (Some (zval_ref (find_key bs k))).
Proof.
  intros Hwf. eexists. split; [done|].
  destruct (key_cases _ _ k Hwf) as [(bs1 & b & bs2 & Hh)|Hk].
  - rewrite (find_key_holds _ _ _ _ _ Hh). cbn. exists (val b). pose proof Hh as (E & _).
    rewrite (wf_bucket _ _ _ b Hwf) by (rewrite E; by apply list_lookup_middle).
    split; [done|]. by rewrite (holds_entries _ _ _ _ _ Hh), om_lookup_middle by apply Hh.
  - rewrite (find_key_None _ _ Hk). cbn. by apply om_lookup_None.
Qed.

Lemma find_looks_up EG ht bs k :
  wf ht bs -> looks_up EG ht bs (KStr (ZSTR_VAL k)) (zend_hash_find ht k).
Proof.
  intros Hwf. unfold zend_hash_find. rewrite (find_bucket_key _ _ _ Hwf).
  by apply find_key_looks_up.
Qed.

Lemma zend_hash_str_find_lookup EG ht bs str :
  wf ht bs -> looks_up EG ht bs (KStr str) (zend_hash_str_find ht str).
Proof.
  intros Hwf. unfold zend_hash_str_find. rewrite (str_find_bucket_key _ _ _ Hwf).
  by apply find_key_looks_up.
Qed.

Lemma index_find_looks_up EG ht bs hash :
  wf ht bs -> 0 <= hash -> looks_up EG ht bs (KInt hash) (zend_hash_index_find ht hash).
Proof.
  intros Hwf H0. unfold zend_hash_index_find. destruct (HASH_FLAG_PACKED ht) eqn:Hp.
  - rewrite (wf_used _ _ Hwf). destruct (Z.ltb_spec hash (Z.of_nat (length bs))) as [Hlt|Hge].
    + destruct (lookup_lt_is_Some_2 bs (Z.to_nat hash)) as [b Hb]; [lia|].
      pose proof (packed_lookup _ _ _ _ Hwf Hp Hb) as Hl. rewrite Z2Nat.id in Hl by lia.
      assert (bucket (arData ht) hash = Some b) as Hbk.
      { rewrite <- (wf_bucket _ _ _ _ Hwf Hb). by rewrite Z2Nat.id. }
      rewrite Hbk. cbn [mbind option_bind]. rewrite undef_live. destruct (live b) eqn:El; cbn [negb].
      * destruct Hl as (bs1 & bs2 & Hh & _). eexists. split; [done|]. exists (val b). cbn.
        rewrite Hbk. split; [done|]. by rewrite (holds_entries _ _ _ _ _ Hh), om_lookup_middle by apply Hh.
      * eexists. split; [done|]. by apply om_lookup_None.
    + eexists. split; [done|]. by apply om_lookup_None, (packed_beyond ht).
  - destruct (mixed_dec ht) as [Hmx|Hmx].
    + rewrite (index_find_bucket_key _ _ _ Hwf Hmx). by apply find_key_looks_up.
    + destruct (not_mixed_heads _ _ Hwf Hmx) as [E1 E2]. unfold zend_hash_index_find_bucket.
      rewrite E1, E2, invalid_head. eexists. split; [done|]. cbn.
      pose proof (wf_layout _ _ Hwf) as Hla. unfold layout in Hla.
      destruct (HASH_FLAG_UNINITIALIZED ht) eqn:Hu; [|by destruct Hmx].
      by destruct Hla as (_ & _ & ->).
Qed.

(** [zend_hash_find] and [zend_hash_index_find] return the element of the key, or NULL when there
    is none: the chain walk, and the position in a packed table, are the lookup of the ordered map. *)
Theorem zend_hash_find_lookup EG ht bs k hash : wf ht bs -> 0 <= hash ->
  looks_up EG ht bs (KStr (ZSTR_VAL k)) (zend_hash_find ht k) /\
  looks_up EG ht bs (KInt hash) (zend_hash_index_find ht hash).
Proof. intros Hwf Hh. split; [by apply find_looks_up|by apply index_find_looks_up]. Qed.

(** ** Creation *)
Lemma init_wf self dtor persistent ht : _zend_hash_init self 8 dtor persistent = Some ht ->
  wf (V := V) ht [] /\ capped 0 ht /\ pDestructor ht = dtor.
Proof.
  intros [= <-]. split; [|split; [|done]].
  - split; cbn; try done; [by exists [] | constructor].
  - split; [done|]. destruct (mixed_dec _) as [[? _]|_]; [done|]. done.
Qed.

Lemma capped_size n ht : capped n ht -> n <= 2 ^ 26 -> nTableSize ht <= 2 ^ 29.
Proof. intros [_ Hc] Hn. destruct (mixed_dec ht); lia. Qed.

Lemma capped_le n n' ht : capped n ht -> n <= n' -> capped n' ht.
Proof. intros [H1 H2] Hn. split; [lia|]. destruct (mixed_dec ht); lia. Qed.

(** A deletion keeps a table small. *)
Lemma deleted_capped n ht bs ht' bs' k : wf ht bs -> wf ht' bs' -> capped n ht ->
  entries bs' = om_delete k (entries bs) -> nTableSize ht' = nTableSize ht ->
  HASH_FLAG_PACKED ht' = HASH_FLAG_PACKED ht -> HASH_FLAG_UNINITIALIZED ht' = HASH_FLAG_UNINITIALIZED ht ->
  capped (n + 1) ht'.
Proof.
  intros Hwf Hwf' Hcap Hen Hsz Hp Hu. apply (wf_capped _ bs'); [done| |].
  - destruct Hcap as [Hn _]. rewrite (wf_elems _ _ Hwf) in Hn. rewrite Hen.
    assert (length (om_delete k (entries bs)) <= length (entries bs))%nat; [|lia].
    clear. induction (entries bs) as [|[k' z'] m' IH]; cbn; [lia|].
    destruct (decide (k = k')); cbn; lia.
  - destruct Hcap as [_ Hc]. rewrite Hsz.
    destruct (mixed_dec ht') as [Hm|Hm], (mixed_dec ht) as [Hm'|Hm']; try lia.
    exfalso. apply Hm. unfold mixed in *. by rewrite Hp, Hu.
Qed.

(** ** The specification *)

(** The calls a client makes.  Integer keys are 64-bit words. *)
Inductive call :=
| Update (k : zend_string) (v : V) | Add (k : zend_string) (v : V)
| IndexUpdate (hash : Z) (v : V) | IndexAdd (hash : Z) (v : V) | NextInsert (v : V)
| Del (k : zend_string) | IndexDel (hash : Z)
| Find (k : zend_string) | IndexFind (hash : Z).

(** What the client sees: the value found, or whether the call succeeded. *)
Inductive answer := Found (z : option (zval V)) | Done (ok : bool).

Definition call_ok (c : call) : Prop :=
  match c with
  | IndexUpdate hash _ | IndexAdd hash _ | IndexDel hash | IndexFind hash => is_u64 hash
  | _ => True
  end.

Definition state : Type := executor_globals V * HashTable V.

Definition insertion (r : option (result V)) : option (state * answer) :=
  '(EG, ht, ref) ← r; Some (EG, ht, Done (match ref with Some _ => true | None => false end)).

Definition lookup_at EG ht (r : option (option zref)) : option (state * answer) :=
  ref ← r;
  match ref with
  | Some ref => z ← zread EG ht ref; Some (EG, ht, Found (Some z))
  | None => Some (EG, ht, Found None)
  end.

Definition deletion (r : option (executor_globals V * HashTable V * Z)) : option (state * answer) :=
  '(EG, ht, status) ← r; Some (EG, ht, Done (status =? SUCCESS)).

Definition run_call (st : state) (c : call) : option (state * answer) :=
  let '(EG, ht) := st in
  match c with
  | Update k v => insertion (zend_hash_update EG ht k (IS_VAL v))
  | Add k v => insertion (zend_hash_add EG ht k (IS_VAL v))
  | IndexUpdate hash v => insertion (zend_hash_index_update EG ht hash (IS_VAL v))
  | IndexAdd hash v => insertion (zend_hash_index_add EG ht hash (IS_VAL v))
  | NextInsert v => insertion (zend_hash_next_index_insert EG ht (IS_VAL v))
  | Del k => deletion (zend_hash_del EG ht k)
  | IndexDel hash => deletion (zend_hash_index_del EG ht hash)
  | Find k => lookup_at EG ht (zend_hash_find ht k)
  | IndexFind hash => lookup_at EG ht (zend_hash_index_find ht hash)
  end.

Fixpoint run_calls (st : state) (cs : list call) : option (state * list answer) :=
  match cs with
  | [] => Some (st, [])
  | c :: cs => '(st, a) ← run_call st c; '(st, answers) ← run_calls st cs; Some (st, a :: answers)
  end.

(** The abstract state: the map, and the values destroyed so far. *)
Definition abstract : Type := list (hkey * zval V) * list (zval V).

Definition dropped (dtor : bool) (old : option (zval V)) : list (zval V) :=
  if dtor then option_list old else [].

Definition spec_insert (dtor : bool) (k : hkey) z (a : abstract) : abstract :=
  (om_insert k z a.1, a.2 ++ dropped dtor (om_lookup k a.1)).

Definition spec_delete (dtor : bool) (k : hkey) (a : abstract) : abstract :=
  (om_delete k a.1, a.2 ++ dropped dtor (om_lookup k a.1)).

(** [i] is above every integer key, as signed integers. *)
Definition above (i : Z) m : Prop := forall hash, KInt hash ∈ m.*1 -> i64 hash < i.

Inductive map_step (dtor : bool) : abstract -> call -> answer -> abstract -> Prop :=
| step_update a k v :
    map_step dtor a (Update k v) (Done true) (spec_insert dtor (KStr (ZSTR_VAL k)) (IS_VAL v) a)
| step_index_update a hash v :
    map_step dtor a (IndexUpdate hash v) (Done true) (spec_insert dtor (KInt hash) (IS_VAL v) a)
| step_add a k v :
    om_lookup (KStr (ZSTR_VAL k)) a.1 = None ->
    map_step dtor a (Add k v) (Done true) (spec_insert dtor (KStr (ZSTR_VAL k)) (IS_VAL v) a)
| step_add_refused a k v z :
    om_lookup (KStr (ZSTR_VAL k)) a.1 = Some z -> map_step dtor a (Add k v) (Done false) a
| step_index_add a hash v :
    om_lookup (KInt hash) a.1 = None ->
    map_step dtor a (IndexAdd hash v) (Done true) (spec_insert dtor (KInt hash) (IS_VAL v) a)
| step_index_add_refused a hash v z :
    om_lookup (KInt hash) a.1 = Some z -> map_step dtor a (IndexAdd hash v) (Done false) a
| step_next a i v :
    KInt i ∉ a.1.*1 -> above i a.1 \/ i = ZEND_LONG_MAX ->
    map_step dtor a (NextInsert v) (Done true) (spec_insert dtor (KInt i) (IS_VAL v) a)
| step_next_refused a v :
    KInt ZEND_LONG_MAX ∈ a.1.*1 -> map_step dtor a (NextInsert v) (Done false) a
| step_del a k z :
    om_lookup (KStr (ZSTR_VAL k)) a.1 = Some z ->
    map_step dtor a (Del k) (Done true) (spec_delete dtor (KStr (ZSTR_VAL k)) a)
| step_del_absent a k :
    om_lookup (KStr (ZSTR_VAL k)) a.1 = None -> map_step dtor a (Del k) (Done false) a
| step_index_del a hash z :
    om_lookup (KInt hash) a.1 = Some z ->
    map_step dtor a (IndexDel hash) (Done true) (spec_delete dtor (KInt hash) a)
| step_index_del_absent a hash :
    om_lookup (KInt hash) a.1 = None -> map_step dtor a (IndexDel hash) (Done false) a
| step_find a k :
    map_step dtor a (Find k) (Found (om_lookup (KStr (ZSTR_VAL k)) a.1)) a
| step_index_find a hash :
    map_step dtor a (IndexFind hash) (Found (om_lookup (KInt hash) a.1)) a.

Inductive map_run (dtor : bool) : abstract -> list call -> list answer -> abstract -> Prop :=
| run_nil a : map_run dtor a [] [] a
| run_cons a c x a1 cs xs a2 :
    map_step dtor a c x a1 -> map_run dtor a1 cs xs a2 -> map_run dtor a (c :: cs) (x :: xs) a2.

(** ** The refinement *)

(** A table after [n] calls stands for the abstract state [a]. *)
Definition stands_for (n : Z) (dtor : bool) (st : state) (a : abstract) : Prop :=
  exists bs, wf st.2 bs /\ capped n st.2 /\ pDestructor st.2 = dtor /\
    a.1 = entries bs /\ a.2 = destroyed st.1.

Definition simulates (n : Z) (dtor : bool) a c (r : option (state * answer)) : Prop :=
  exists st' x a', r = Some (st', x) /\ map_step dtor a c x a' /\ stands_for (n + 1) dtor st' a'.

Lemma inserted_simulates n dtor EG ht a k v r c : stands_for n dtor (EG, ht) a ->
  (forall bs, wf ht bs -> a.1 = entries bs -> inserted EG ht bs k (IS_VAL v) r) ->
  map_step dtor a c (Done true) (spec_insert dtor k (IS_VAL v) a) ->
  simulates n dtor a c (insertion r).
Proof.
  intros (bs & Hwf & Hcap & Hd & Ha1 & Ha2) Hins Hstep. cbn in *.
  destruct (Hins bs Hwf Ha1) as (EG' & ht' & bs' & ref & -> & Hwf' & Hen & Hr & Hs & Hde & Hpd & Hg).
  exists (EG', ht'), (Done true), (spec_insert dtor k (IS_VAL v) a). split; [done|]. split; [done|].
  exists bs'. cbn. split_and!; try done; [by apply Hg | congruence | by rewrite Ha1 |].
  rewrite Hde, Ha1, Ha2. unfold destroyed_by, dropped. by rewrite Hd.
Qed.

Lemma rejected_simulates n dtor EG ht a r c : stands_for n dtor (EG, ht) a ->
  rejected EG ht r -> map_step dtor a c (Done false) a -> simulates n dtor a c (insertion r).
Proof.
  intros (bs & Hwf & Hcap & Hrest) -> Hstep. exists (EG, ht), (Done false), a. split; [done|].
  split; [done|]. exists bs. split; [done|]. split; [|done]. apply (capped_le n); [done|lia].
Qed.

Lemma deletes_simulates n dtor EG ht a k r c : stands_for n dtor (EG, ht) a ->
  (forall bs, wf ht bs -> deletes EG ht bs k r) ->
  (forall z, om_lookup k a.1 = Some z -> map_step dtor a c (Done true) (spec_delete dtor k a)) ->
  (om_lookup k a.1 = None -> map_step dtor a c (Done false) a) ->
  simulates n dtor a c (deletion r).
Proof.
  intros (bs & Hwf & Hcap & Hd & Ha1 & Ha2) Hdel Hs1 Hs2. cbn in *. specialize (Hdel bs Hwf).
  unfold deletes in Hdel. rewrite <- Ha1 in Hdel. destruct (om_lookup k a.1) as [z|] eqn:Hlk.
  - destruct Hdel as (EG1 & ht1 & -> & EG' & ht' & bs' & [= <- <-] & Hwf' & Hen & Hs & Hde & Hpd & Hsz & Hp & Hu).
    exists (EG1, ht1), (Done true), (spec_delete dtor k a). split; [done|].
    split; [by apply (Hs1 z)|]. exists bs'. cbn. split_and!; try done.
    + by apply (deleted_capped n ht bs ht1 bs' k).
    + congruence.
    + by rewrite Ha1.
    + rewrite Hde, Ha2. unfold destroyed_by, dropped. by rewrite Hd, Hlk.
  - rewrite Hdel. exists (EG, ht), (Done false), a. split; [done|]. split; [by apply Hs2|].
    exists bs. split; [done|]. split; [|done]. apply (capped_le n); [done|lia].
Qed.

Lemma lookup_simulates n dtor EG ht a k r c : stands_for n dtor (EG, ht) a ->
  (forall bs, wf ht bs -> looks_up EG ht bs k r) ->
  map_step dtor a c (Found (om_lookup k a.1)) a -> simulates n dtor a c (lookup_at EG ht r).
Proof.
  intros (bs & Hwf & Hcap & Hd & Ha1 & Ha2) Hlk Hstep. cbn in *.
  destruct (Hlk bs Hwf) as (ref & -> & Href).
  exists (EG, ht), (Found (om_lookup k a.1)), a. split.
  - cbn. rewrite Ha1. destruct ref as [ref|]; [|by rewrite Href].
    destruct Href as (z & -> & ->). done.
  - split; [done|]. exists bs. split; [done|]. split; [|done]. apply (capped_le n); [done|lia].
Qed.

Lemma call_simulates n dtor st a c : stands_for n dtor st a -> 0 <= n <= 2 ^ 26 -> call_ok c ->
  simulates n dtor a c (run_call st c).
Proof.
  intros Hst Hn Hok. pose proof Hst as (bs & Hwf & Hcap & Hd & Ha1 & Ha2). destruct st as [EG ht].
  cbn in Hwf, Hcap, Ha1.
  assert (nTableSize ht <= 2 ^ 29) as Hsz by (apply (capped_size n); [done|lia]).
  destruct c as [k v|k v|hash v|hash v|v|k|hash|k|hash]; cbn [run_call call_ok] in *.
  - apply (inserted_simulates n dtor EG ht a (KStr (ZSTR_VAL k)) v); [done| |constructor].
    intros bs0 Hwf0 _. by apply update_inserted.
  - pose proof (add_inserted_or_refused EG ht bs k (IS_VAL v) Hwf Hsz eq_refl) as H.
    rewrite <- Ha1 in H. destruct (om_lookup _ a.1) as [z|] eqn:E.
    + apply (rejected_simulates n dtor EG ht a); [done|done|]. by apply (step_add_refused _ _ _ _ z).
    + apply (inserted_simulates n dtor EG ht a (KStr (ZSTR_VAL k)) v); [done| |by constructor].
      intros bs0 Hwf0 Ha0. pose proof (add_inserted_or_refused EG ht bs0 k (IS_VAL v) Hwf0 Hsz eq_refl) as H0.
      by rewrite <- Ha0, E in H0.
  - apply (inserted_simulates n dtor EG ht a (KInt hash) v); [done| |constructor].
    intros bs0 Hwf0 _. by apply index_update_inserted.
  - pose proof (index_add_inserted_or_refused EG ht bs hash (IS_VAL v) Hwf Hsz eq_refl Hok) as H.
    rewrite <- Ha1 in H. destruct (om_lookup _ a.1) as [z|] eqn:E.
    + apply (rejected_simulates n dtor EG ht a); [done|done|]. by apply (step_index_add_refused _ _ _ _ z).
    + apply (inserted_simulates n dtor EG ht a (KInt hash) v); [done| |by constructor].
      intros bs0 Hwf0 Ha0.
      pose proof (index_add_inserted_or_refused EG ht bs0 hash (IS_VAL v) Hwf0 Hsz eq_refl Hok) as H0.
      by rewrite <- Ha0, E in H0.
  - pose proof (next_insert_appended EG ht bs (IS_VAL v) Hwf Hsz eq_refl) as H.
    destruct (decide (KInt (nNextFreeElement ht) ∈ (entries bs).*1)) as [Hin|Hin].
    + destruct H as [Hmax H]. apply (rejected_simulates n dtor EG ht a); [done|done|]. constructor.
      by rewrite Ha1, <- Hmax.
    + apply (inserted_simulates n dtor EG ht a (KInt (nNextFreeElement ht)) v); [done| |].
      * intros bs0 Hwf0 Ha0.
        pose proof (next_insert_appended EG ht bs0 (IS_VAL v) Hwf0 Hsz eq_refl) as H0.
        rewrite <- Ha0, Ha1 in H0. by rewrite decide_False in H0.
      * constructor; [by rewrite Ha1|]. destruct (decide (nNextFreeElement ht = ZEND_LONG_MAX)); [by right|].
        left. intros hash Hh. rewrite Ha1 in Hh. by destruct (next_free_above _ _ _ Hwf Hh).
  - apply (deletes_simulates n dtor EG ht a (KStr (ZSTR_VAL k))); [done| |by econstructor|by constructor].
    intros bs0 Hwf0. by apply del_deletes.
  - apply (deletes_simulates n dtor EG ht a (KInt hash)); [done| |by econstructor|by constructor].
    intros bs0 Hwf0. apply index_del_deletes; [done|apply Hok].
  - apply (lookup_simulates n dtor EG ht a (KStr (ZSTR_VAL k))); [done| |constructor].
    intros bs0 Hwf0. by apply find_looks_up.
  - apply (lookup_simulates n dtor EG ht a (KInt hash)); [done| |constructor].
    intros bs0 Hwf0. apply index_find_looks_up; [done|apply Hok].
Qed.

Lemma calls_simulate cs : forall n dtor st a, stands_for n dtor st a -> 0 <= n ->
  n + Z.of_nat (length cs) <= 2 ^ 26 -> Forall call_ok cs ->
  exists st' xs a', run_calls st cs = Some (st', xs) /\ map_run dtor a cs xs a' /\
    stands_for (n + Z.of_nat (length cs)) dtor st' a'.
Proof.
  induction cs as [|c cs IH]; intros n dtor st a Hst H0 Hn Hok; cbn [length run_calls] in *.
  - exists st, [], a. rewrite Z.add_0_r. split; [done|]. split; [constructor|done].
  - apply Forall_cons in Hok as [Hc Hok].
    destruct (call_simulates n dtor st a c Hst ltac:(lia) Hc) as (st1 & x & a1 & -> & Hs & Hst1).
    cbn [mbind option_bind].
    destruct (IH (n + 1) dtor st1 a1 Hst1) as (st' & xs & a' & -> & Hr & Hst'); [lia|lia|done|].
    exists st', (x :: xs), a'. split; [done|]. split; [by econstructor|].
    by replace (n + Z.of_nat (S (length cs))) with (n + 1 + Z.of_nat (length cs)) by lia.
Qed.

(** C7: every sequence of up to 2^26 insertions, updates, deletions and lookups on a fresh table
    runs to its end, with no invalid access and no broken chain, and its answers, contents, order and
    destructor calls are those of an ordered map. *)
Theorem zend_hash_refines_ordered_map EG self dtor persistent ht cs :
  _zend_hash_init self 8 dtor persistent = Some ht -> destroyed EG = [] ->
  Z.of_nat (length cs) <= 2 ^ 26 -> Forall call_ok cs ->
  exists EG' ht' bs xs, run_calls (EG, ht) cs = Some (EG', ht', xs) /\ wf ht' bs /\
    map_run dtor ([], []) cs xs (entries bs, destroyed EG').
Proof.
  intros Hi Hd Hn Hok. destruct (init_wf _ _ _ _ Hi) as (Hwf & Hcap & Hpd).
  destruct (calls_simulate cs 0 dtor (EG, ht) ([], [])) as (st' & xs & a' & E & Hr & Hst');
    [by exists [] | lia | lia | done |].
  destruct st' as [EG' ht']. destruct Hst' as (bs & Hwf' & _ & _ & H1 & H2). destruct a' as [m' d'].
  cbn in *. subst. by exists EG', ht', bs, xs.
Qed.
End Map.

(** ** Witnesses *)
Lemma zend_hash_find_lookup_witness :
  looks_up ex_globals ex_table ex_buckets (KStr [97]) (zend_hash_find ex_table (ex_key [97])) /\
  looks_up ex_globals ex_table ex_buckets (KInt 19) (zend_hash_index_find ex_table 19).
Proof.
  apply (zend_hash_find_lookup ex_globals ex_table ex_buckets (ex_key [97]) 19); [apply ex_wf|discriminate].
Defined.

Definition ex_calls : list call :=
  [NextInsert 5; NextInsert 6; Update (ex_key [97]) 7; IndexDel 0; Find (ex_key [97]);
   IndexAdd 1 8; IndexFind 0].

Example ex_calls_answers : forall ht, _zend_hash_init 1 8 true false = Some ht ->
  snd <$> run_calls (ex_globals, ht) ex_calls
  = Some [Done true; Done true; Done true; Done true; Found (Some (IS_VAL 7)); Done false; Found None].
Proof. intros ht [= <-]. vm_compute. reflexivity. Qed.

Lemma zend_hash_refines_ordered_map_witness : exists ht EG' ht' bs xs,
  run_calls (ex_globals, ht) ex_calls = Some (EG', ht', xs) /\ wf ht' bs /\
  map_run true ([], []) ex_calls xs (entries bs, destroyed EG').
Proof.
  eexists. apply (zend_hash_refines_ordered_map ex_globals 1 true false _ ex_calls);
    [reflexivity | reflexivity | discriminate |].
  repeat constructor; cbn; try lia; try discriminate.
Defined.
