(* ===== verification/ZendSymtable.v ===== *)
(** * Symbol tables: string keys that are numbers

    The [zend_symtable_*] functions of [zend_hash.h] are what PHP code reaches with [$a[$k]]: a string
    key that is a decimal integer is that integer.  They are shown to be the operations of the ordered
    map at the key [symtable_key], which reads decimal notation by the specification [decimal_key] of
    [ZendLong]. *)
From S2P Require Import Prelude ZendString ZendLong ZendHash OrderedMap ZendHashInv ZendHashRehash ZendHashUpdate ZendHashDelete ZendHashMap.

Section Symtable.
Context {V : Type}.
Implicit Types (ht : HashTable V) (EG : executor_globals V) (k : zend_string) (z : zval V).

(** [ZEND_HANDLE_NUMERIC]: the integer the key stands for, if any.  The outer [None] is the read past
    the end of a key, which does not happen. *)
Definition ZEND_HANDLE_NUMERIC (k : zend_string) : option (option Z) := _zend_handle_numeric_str (ZSTR_VAL k).

Definition zend_symtable_add_new EG ht k (pData : zval V) : option (result V) :=
  idx ← ZEND_HANDLE_NUMERIC k;
  match idx with
  | Some idx => zend_hash_index_add_new EG ht idx pData
  | None => zend_hash_add_new EG ht k pData
  end.

Definition zend_symtable_update EG ht k (pData : zval V) : option (result V) :=
  idx ← ZEND_HANDLE_NUMERIC k;
  match idx with
  | Some idx => zend_hash_index_update EG ht idx pData
  | None => zend_hash_update EG ht k pData
  end.

Definition zend_symtable_update_ind EG ht k (pData : zval V) : option (result V) :=
  idx ← ZEND_HANDLE_NUMERIC k;
  match idx with
  | Some idx => zend_hash_index_update EG ht idx pData
  | None => zend_hash_update_ind EG ht k pData
  end.

Definition zend_symtable_del EG ht k : option (executor_globals V * HashTable V * Z) :=
  idx ← ZEND_HANDLE_NUMERIC k;
  match idx with
  | Some idx => zend_hash_index_del EG ht idx
  | None => zend_hash_del EG ht k
  end.

Definition zend_symtable_del_ind EG ht k : option (executor_globals V * HashTable V * Z) :=
  idx ← ZEND_HANDLE_NUMERIC k;
  match idx with
  | Some idx => zend_hash_index_del EG ht idx
  | None => zend_hash_del_ind EG ht k
  end.

Definition zend_symtable_find ht k : option (option zref) :=
  idx ← ZEND_HANDLE_NUMERIC k;
  match idx with
  | Some idx => zend_hash_index_find ht idx
  | None => zend_hash_find ht k
  end.

(** [zend_hash_find_ind]: through a pointer to a variable, unless that is undefined. *)
Definition zend_hash_find_ind EG ht k : option (option zref) :=
  zv ← zend_hash_find ht k;
  match zv with
  | None => Some None
  | Some r =>
      z ← zread EG ht r;
      match z with
      | IS_INDIRECT s => var ← slots EG !! s; Some (if Z_ISUNDEF var then None else Some (ZSLOT s))
      | _ => Some (Some r)
      end
  end.

Definition zend_symtable_find_ind EG ht k : option (option zref) :=
  idx ← ZEND_HANDLE_NUMERIC k;
  match idx with
  | Some idx => zend_hash_index_find ht idx
  | None => zend_hash_find_ind EG ht k
  end.

(** The variants for a C string. *)
Definition zend_symtable_str_update_ind EG ht (str : list Z) (pData : zval V) : option (result V) :=
  idx ← _zend_handle_numeric_str str;
  match idx with
  | Some idx => zend_hash_index_update EG ht idx pData
  | None => zend_hash_str_update_ind EG ht str pData
  end.

Definition zend_symtable_str_del EG ht (str : list Z) : option (executor_globals V * HashTable V * Z) :=
  idx ← _zend_handle_numeric_str str;
  match idx with
  | Some idx => zend_hash_index_del EG ht idx
  | None => zend_hash_str_del EG ht str
  end.

Definition zend_symtable_str_find ht (str : list Z) : option (option zref) :=
  idx ← _zend_handle_numeric_str str;
  match idx with
  | Some idx => zend_hash_index_find ht idx
  | None => zend_hash_str_find ht str
  end.

(** ** The key a string stands for

    The integer the string is the decimal notation of, which [decimal_key] reads without the code. *)
Definition symtable_key (s : list Z) : hkey :=
  match decimal_key s with Some n => KInt (u64 n) | None => KStr s end.

Lemma handle_numeric k : Forall is_u8 (ZSTR_VAL k) ->
  (exists idx, ZEND_HANDLE_NUMERIC k = Some (Some idx) /\ symtable_key (ZSTR_VAL k) = KInt idx /\ is_u64 idx) \/
  (ZEND_HANDLE_NUMERIC k = Some None /\ symtable_key (ZSTR_VAL k) = KStr (ZSTR_VAL k)).
Proof.
  intros Hu. unfold ZEND_HANDLE_NUMERIC, symtable_key. rewrite (numeric_str_decimal_key _ Hu).
  destruct (decimal_key (ZSTR_VAL k)) as [n|]; [left|by right].
  exists (u64 n). split; [done|]. split; [done|]. apply (uwrap_range 64). lia.
Qed.

Lemma handle_numeric_str str : Forall is_u8 str ->
  (exists idx, _zend_handle_numeric_str str = Some (Some idx) /\ symtable_key str = KInt idx /\ is_u64 idx) \/
  (_zend_handle_numeric_str str = Some None /\ symtable_key str = KStr str).
Proof. apply (handle_numeric (zend_string_init str)). Qed.

Lemma symtable_str_find_looks_up EG ht bs str : Forall is_u8 str -> wf ht bs ->
  looks_up EG ht bs (symtable_key str) (zend_symtable_str_find ht str).
Proof.
  intros Hu Hwf. unfold zend_symtable_str_find. destruct (handle_numeric_str str Hu) as [(idx & -> & -> & Hi)|[-> ->]]; cbn [mbind option_bind].
  - apply index_find_looks_up; [done|apply Hi].
  - by apply zend_hash_str_find_lookup.
Qed.

Lemma symtable_str_del_deletes EG ht bs str : Forall is_u8 str -> wf ht bs ->
  deletes EG ht bs (symtable_key str) (zend_symtable_str_del EG ht str).
Proof.
  intros Hu Hwf. unfold zend_symtable_str_del. destruct (handle_numeric_str str Hu) as [(idx & -> & -> & Hi)|[-> ->]]; cbn [mbind option_bind].
  - apply index_del_deletes; [done|apply Hi].
  - by apply zend_hash_str_del_removes.
Qed.

(** C17: storing, finding and deleting under a string key, as PHP code does, is storing, finding and
    deleting in the ordered map under the integer the string is the decimal notation of, or under the
    string itself when there is none.  Decimal notation, [decimal_key], is stated apart from the code:
    digits without a superfluous leading 0, or a minus sign and such digits that are not 0, of a value
    from -2^63 to 2^63 - 1; ["007"], ["-0"], ["+5"] and ["9223372036854775808"] are strings. *)
Theorem zend_symtable_maps_keys EG ht bs k z :
  Forall is_u8 (ZSTR_VAL k) -> wf ht bs -> nTableSize ht <= 2 ^ 29 -> Z_ISUNDEF z = false ->
  let key := symtable_key (ZSTR_VAL k) in
  inserted EG ht bs key z (zend_symtable_update EG ht k z) /\
  looks_up EG ht bs key (zend_symtable_find ht k) /\
  deletes EG ht bs key (zend_symtable_del EG ht k) /\
  (key ∉ (entries bs).*1 -> inserted EG ht bs key z (zend_symtable_add_new EG ht k z)).
Proof.
  intros Hu Hwf Hsz Hz key.
  unfold zend_symtable_update, zend_symtable_find, zend_symtable_del, zend_symtable_add_new, key.
  destruct (handle_numeric k Hu) as [(idx & -> & -> & Hidx)|[-> ->]]; cbn [mbind option_bind].
  - split; [by apply index_update_inserted|]. split; [apply index_find_looks_up; [done|apply Hidx]|].
    split; [apply index_del_deletes; [done|apply Hidx]|]. intros Hk. by apply index_fresh.
  - split; [by apply update_inserted|]. split; [by apply find_looks_up|].
    split; [by apply del_deletes|]. intros Hk. by apply string_fresh.
Qed.
End Symtable.

Lemma zend_symtable_maps_keys_witness :
  let key := symtable_key [49; 57] in
  inserted ex_globals ex_table ex_buckets key (IS_VAL 7)
    (zend_symtable_update ex_globals ex_table (ex_key [49; 57]) (IS_VAL 7)) /\
  looks_up ex_globals ex_table ex_buckets key (zend_symtable_find ex_table (ex_key [49; 57])) /\
  deletes ex_globals ex_table ex_buckets key (zend_symtable_del ex_globals ex_table (ex_key [49; 57])) /\
  (key ∉ (entries ex_buckets).*1 ->
   inserted ex_globals ex_table ex_buckets key (IS_VAL 7)
     (zend_symtable_add_new ex_globals ex_table (ex_key [49; 57]) (IS_VAL 7))).
Proof.
  apply (zend_symtable_maps_keys ex_globals ex_table ex_buckets (ex_key [49; 57]) (IS_VAL 7));
    [repeat constructor; discriminate | exact ex_wf | discriminate | reflexivity].
Defined.

Example symtable_key_19 : symtable_key [49; 57] = KInt 19 /\ symtable_key [48; 49] = KStr [48; 49] /\
  symtable_key [45; 49] = KInt (2 ^ 64 - 1) /\ symtable_key [45; 48] = KStr [45; 48].
Proof. vm_compute. done. Qed.
