(* ===== verification/ZendHashOps.v ===== *)
(** * The engine's hash table: positions, traversal, destruction and bulk operations (the model)

    The operations of [zend_hash.c] that are written on top of the core of [ZendHash]: the positions a
    [foreach] uses, the iterators attached to tables, the [apply] family, destruction and cleaning,
    copying, merging, comparing and searching for an extremum. *)
From S2P Require Import Prelude ZendString ZendHash.

Section Ops.
Context {V : Type}.
Implicit Types (ht : HashTable V) (EG : executor_globals V) (z : zval V) (p : Bucket V).

(** ** Positions *)

(** [while (pos < ht->nNumUsed && Z_ISUNDEF(ht->arData[pos].val)) pos++] *)
Definition _zend_hash_get_valid_pos ht (pos : Z) : option Z :=
  if nNumUsed ht <=? pos then Some pos else next_live (Z.to_nat (nNumUsed ht - pos)) ht pos.

Definition zend_hash_get_current_pos ht : option Z := _zend_hash_get_valid_pos ht (nInternalPointer ht).

Definition zend_hash_internal_pointer_reset_ex ht : option Z := _zend_hash_get_valid_pos ht 0.

(** The last live bucket below [n]. *)
Fixpoint prev_live (n : nat) (ar : list (option (Bucket V))) : option (option Z) :=
  match n with
  | O => Some None
  | S m =>
      p ← bucket ar (Z.of_nat m);
      if Z_ISUNDEF (val p) then prev_live m ar else Some (Some (Z.of_nat m))
  end.

Definition zend_hash_internal_pointer_end_ex ht : option Z :=
  r ← prev_live (Z.to_nat (nNumUsed ht)) (arData ht); Some (default (nNumUsed ht) r).

(** The new position and the status. *)
Definition zend_hash_move_forward_ex ht (pos : Z) : option (Z * Z) :=
  idx ← _zend_hash_get_valid_pos ht pos;
  if idx <? nNumUsed ht then
    idx ← next_live (Z.to_nat (nNumUsed ht - (idx + 1))) ht (idx + 1);
    Some (idx, SUCCESS)
  else Some (pos, FAILURE).

Definition zend_hash_move_backwards_ex ht (pos : Z) : option (Z * Z) :=
  if pos <? nNumUsed ht then
    r ← prev_live (Z.to_nat pos) (arData ht);
    Some (default (nNumUsed ht) r, SUCCESS)
  else Some (pos, FAILURE).

(** The key at a position: [HASH_KEY_IS_STRING], [HASH_KEY_IS_LONG], [HASH_KEY_NON_EXISTENT]. *)
Inductive current_key := HASH_KEY_IS_STRING (str_index : zend_string) | HASH_KEY_IS_LONG (num_index : Z)
  | HASH_KEY_NON_EXISTENT.

(** The bucket at a position, [None] past the end. *)
Definition current_bucket ht (pos : Z) : option (option (Bucket V)) :=
  idx ← _zend_hash_get_valid_pos ht pos;
  if idx <? nNumUsed ht then p ← bucket (arData ht) idx; Some (Some p) else Some None.

Definition zend_hash_get_current_key_ex ht (pos : Z) : option current_key :=
  r ← current_bucket ht pos;
  Some (match r with
        | Some p => match key p with Some k => HASH_KEY_IS_STRING k | None => HASH_KEY_IS_LONG (h p) end
        | None => HASH_KEY_NON_EXISTENT
        end).

Definition zend_hash_get_current_data_ex ht (pos : Z) : option (option zref) :=
  idx ← _zend_hash_get_valid_pos ht pos;
  Some (if idx <? nNumUsed ht then Some (ZBUCKET idx) else None).

(** ** Iterators attached to tables *)
Definition null_iterator : HashTableIterator := {| iter_ht := 0; iter_pos := 0 |}.

Definition inc_iterators ht : HashTable V :=
  if HT_ITERATORS_OVERFLOW ht then ht else {| ht with nIteratorsCount := nIteratorsCount ht + 1 |}.

(** The first free slot, from [idx] on. *)
Fixpoint free_slot (its : list HashTableIterator) (idx : Z) : option Z :=
  match its with
  | [] => None
  | it :: its => if iter_ht it =? 0 then Some idx else free_slot its (idx + 1)
  end.

Definition zend_hash_iterator_add EG ht (pos : Z) :
  option (executor_globals V * HashTable V * Z) :=
  let ht := inc_iterators ht in
  let it := {| iter_ht := addr ht; iter_pos := pos |} in
  match free_slot (ht_iterators EG) 0 with
  | Some idx =>
      its ← aset (ht_iterators EG) idx it;
      Some ({| EG with ht_iterators := its;
               ht_iterators_used := Z.max (ht_iterators_used EG) (idx + 1) |}, ht, idx)
  | None =>
      let idx := Z.of_nat (length (ht_iterators EG)) in
      Some ({| EG with ht_iterators := ht_iterators EG ++ it :: replicate 7 null_iterator;
               ht_iterators_used := idx + 1 |}, ht, idx)
  end.

(** [zend_hash_iterator_pos]: when the iterator belongs to another table, it is moved to this one.
    The other table, whose iterator count drops, is the one at [old]. *)
Definition zend_hash_iterator_pos EG (idx : Z) ht (old : option (HashTable V)) :
  option (executor_globals V * HashTable V * option (HashTable V) * Z) :=
  it ← aget (ht_iterators EG) idx;
  if iter_ht it =? addr ht then Some (EG, ht, old, iter_pos it)
  else
    let old := match old with
               | Some t => Some (if HT_ITERATORS_OVERFLOW t then t
                                 else {| t with nIteratorsCount := nIteratorsCount t - 1 |})
               | None => None
               end in
    let ht := inc_iterators ht in
    pos ← zend_hash_get_current_pos ht;
    its ← aset (ht_iterators EG) idx {| iter_ht := addr ht; iter_pos := pos |};
    Some ({| EG with ht_iterators := its |}, ht, old, pos).

(** [while (idx > 0 && EG(ht_iterators)[idx - 1].ht == NULL) idx--] *)
Fixpoint trim_iterators (n : nat) (its : list HashTableIterator) : option nat :=
  match n with
  | O => Some O
  | S m => it ← its !! m; if iter_ht it =? 0 then trim_iterators m its else Some n
  end.

Definition zend_hash_iterator_del EG (idx : Z) (owner : option (HashTable V)) :
  option (executor_globals V * option (HashTable V)) :=
  it ← aget (ht_iterators EG) idx;
  let owner := match owner with
               | Some t => Some (if HT_ITERATORS_OVERFLOW t then t
                                 else {| t with nIteratorsCount := nIteratorsCount t - 1 |})
               | None => None
               end in
  its ← aset (ht_iterators EG) idx {| it with iter_ht := 0 |};
  used ← (if idx =? ht_iterators_used EG - 1
          then n ← trim_iterators (Z.to_nat idx) its; Some (Z.of_nat n)
          else Some (ht_iterators_used EG));
  Some ({| EG with ht_iterators := its; ht_iterators_used := used |}, owner).

(** ** Counting *)
Fixpoint recalc_loop (n : nat) EG (ar : list (option (Bucket V))) (i num : Z) : option Z :=
  match n with
  | O => Some num
  | S n =>
      p ← bucket ar i;
      num ← (match val p with
             | IS_INDIRECT s => z ← slots EG !! s; Some (if Z_ISUNDEF z then num - 1 else num)
             | _ => Some num
             end);
      recalc_loop n EG ar (i + 1) num
  end.

Definition zend_array_recalc_elements EG ht : option Z :=
  recalc_loop (Z.to_nat (nNumUsed ht)) EG (arData ht) 0 (nNumOfElements ht).

(** [symbol_table] tells whether [ht] is the global symbol table. *)
Definition zend_array_count EG ht (symbol_table : bool) : option (HashTable V * Z) :=
  if HASH_FLAG_HAS_EMPTY_IND ht then
    num ← zend_array_recalc_elements EG ht;
    Some (if nNumOfElements ht =? num then {| ht with HASH_FLAG_HAS_EMPTY_IND := false |} else ht, num)
  else if symbol_table then num ← zend_array_recalc_elements EG ht; Some (ht, num)
  else Some (ht, nNumOfElements ht).

(** ** The apply family *)
Definition ZEND_HASH_APPLY_KEEP : Z := 0.
Definition ZEND_HASH_APPLY_REMOVE : Z := 1.
Definition ZEND_HASH_APPLY_STOP : Z := 2.

Section Apply.
Context {S : Type}.

(** The callback: it gets the caller's state, the value and the key, and returns the state, the
    value it leaves in the element, and its verdict. *)
Variable apply_func : S -> zval V -> Z * option zend_string -> S * zval V * Z.

(** One call of the callback and what follows from its verdict; the last result tells to stop. *)
Definition apply_one (s : S) EG ht (idx : Z) :
  option (S * executor_globals V * HashTable V * bool) :=
  p ← bucket (arData ht) idx;
  if Z_ISUNDEF (val p) then Some (s, EG, ht, false)
  else
    let '(s, z, result) := apply_func s (val p) (h p, key p) in
    ar ← set_bucket (arData ht) idx {| p with val := z |};
    let ht := {| ht with arData := ar |} in
    '(EG, ht) ← (if negb (Z.land result ZEND_HASH_APPLY_REMOVE =? 0)
                 then _zend_hash_del_el EG ht idx else Some (EG, ht));
    Some (s, EG, ht, negb (Z.land result ZEND_HASH_APPLY_STOP =? 0)).

(** [for (idx = 0; idx < ht->nNumUsed; idx++)]: the bound is read again in every round. *)
Fixpoint apply_loop (n : nat) (s : S) EG ht (idx : Z) : option (S * executor_globals V * HashTable V) :=
  match n with
  | O => if nNumUsed ht <=? idx then Some (s, EG, ht) else None
  | Datatypes.S n =>
      if nNumUsed ht <=? idx then Some (s, EG, ht)
      else
        '(s, EG, ht, stop) ← apply_one s EG ht idx;
        if (stop : bool) then Some (s, EG, ht) else apply_loop n s EG ht (idx + 1)
  end.

Definition zend_hash_apply (s : S) EG ht : option (S * executor_globals V * HashTable V) :=
  apply_loop (Z.to_nat (nNumUsed ht)) s EG ht 0.

Definition zend_hash_apply_with_argument := zend_hash_apply.
Definition zend_hash_apply_with_arguments := zend_hash_apply.

(** [idx = ht->nNumUsed; while (idx > 0) { idx--; ... }] *)
Fixpoint reverse_apply_loop (n : nat) (s : S) EG ht : option (S * executor_globals V * HashTable V) :=
  match n with
  | O => Some (s, EG, ht)
  | Datatypes.S n =>
      '(s, EG, ht, stop) ← apply_one s EG ht (Z.of_nat n);
      if (stop : bool) then Some (s, EG, ht) else reverse_apply_loop n s EG ht
  end.

Definition zend_hash_reverse_apply (s : S) EG ht : option (S * executor_globals V * HashTable V) :=
  reverse_apply_loop (Z.to_nat (nNumUsed ht)) s EG ht.
End Apply.

(** ** Destroying and cleaning *)

(** [do { ht->pDestructor(&p->val) } while (++p != end)], skipping tombstones when the table has
    holes; [call] is what is done with a value. *)
Fixpoint destroy_values (n : nat) (call : executor_globals V -> zval V -> executor_globals V)
    (holes : bool) EG (ar : list (option (Bucket V))) (i : Z) : option (executor_globals V) :=
  match n with
  | O => Some EG
  | S n =>
      p ← bucket ar i;
      destroy_values n call holes
        (if holes && Z_ISUNDEF (val p) then EG else call EG (val p)) ar (i + 1)
  end.

Definition log_destroyed EG z : executor_globals V := {| EG with destroyed := destroyed EG ++ [z] |}.

(** Whether the block is freed is the second result. *)
Definition zend_hash_destroy EG ht : option (executor_globals V * bool) :=
  if negb (nNumUsed ht =? 0) then
    EG ← (if pDestructor ht
          then destroy_values (Z.to_nat (nNumUsed ht)) log_destroyed
                 (negb (HT_IS_WITHOUT_HOLES ht)) EG (arData ht) 0
          else Some EG);
    Some (zend_hash_iterators_remove EG ht, true)
  else if HASH_FLAG_UNINITIALIZED ht then Some (EG, false)
  else Some (EG, true).

(** [i_zval_ptr_dtor]: nothing to do for an undefined value. *)
Definition i_zval_ptr_dtor EG z : executor_globals V :=
  if Z_ISUNDEF z then EG else log_destroyed EG z.

(** [ptr_dtor]: whether the destructor is [ZVAL_PTR_DTOR]. *)
Definition zend_array_destroy EG ht (ptr_dtor : bool) : option (executor_globals V * bool) :=
  if negb (nNumUsed ht =? 0) then
    if negb ptr_dtor then
      '(EG, freed) ← zend_hash_destroy EG ht; Some (zend_hash_iterators_remove EG ht, freed)
    else
      EG ← destroy_values (Z.to_nat (nNumUsed ht)) i_zval_ptr_dtor
             (negb (HT_HAS_STATIC_KEYS_ONLY ht) && negb (HT_IS_WITHOUT_HOLES ht)) EG (arData ht) 0;
      Some (zend_hash_iterators_remove EG ht, true)
  else Some (zend_hash_iterators_remove EG ht, negb (HASH_FLAG_UNINITIALIZED ht)).

Definition emptied ht : HashTable V :=
  {| ht with nNumUsed := 0; nNumOfElements := 0; nNextFreeElement := 0; nInternalPointer := 0 |}.

Definition zend_hash_clean EG ht : option (executor_globals V * HashTable V) :=
  if negb (nNumUsed ht =? 0) then
    EG ← (if pDestructor ht
          then destroy_values (Z.to_nat (nNumUsed ht)) log_destroyed
                 (negb (HT_IS_WITHOUT_HOLES ht)) EG (arData ht) 0
          else Some EG);
    Some (EG, emptied (if HASH_FLAG_PACKED ht then ht
                       else {| ht with arHash := reset_heads (nTableMask ht) |}))
  else Some (EG, emptied ht).

Definition zend_symtable_clean EG ht : option (executor_globals V * HashTable V) :=
  if negb (nNumUsed ht =? 0) then
    EG ← destroy_values (Z.to_nat (nNumUsed ht)) i_zval_ptr_dtor
           (negb (HT_HAS_STATIC_KEYS_ONLY ht) && negb (HT_IS_WITHOUT_HOLES ht)) EG (arData ht) 0;
    Some (EG, emptied {| ht with arHash := reset_heads (nTableMask ht) |})
  else Some (EG, emptied ht).

(** Delete bucket [idx] unless it is a tombstone. *)
Definition graceful_one EG ht (idx : Z) : option (executor_globals V * HashTable V) :=
  p ← bucket (arData ht) idx;
  if Z_ISUNDEF (val p) then Some (EG, ht) else _zend_hash_del_el EG ht idx.

Fixpoint graceful_loop (n : nat) EG ht (idx : Z) : option (executor_globals V * HashTable V) :=
  match n with
  | O => if nNumUsed ht <=? idx then Some (EG, ht) else None
  | S n =>
      if nNumUsed ht <=? idx then Some (EG, ht)
      else '(EG, ht) ← graceful_one EG ht idx; graceful_loop n EG ht (idx + 1)
  end.

Definition zend_hash_graceful_destroy EG ht : option (executor_globals V * bool) :=
  '(EG, ht) ← graceful_loop (Z.to_nat (nNumUsed ht)) EG ht 0;
  Some (EG, negb (HASH_FLAG_UNINITIALIZED ht)).

Fixpoint graceful_reverse_loop (n : nat) EG ht : option (executor_globals V * HashTable V) :=
  match n with
  | O => Some (EG, ht)
  | S n => '(EG, ht) ← graceful_one EG ht (Z.of_nat n); graceful_reverse_loop n EG ht
  end.

Definition zend_hash_graceful_reverse_destroy EG ht : option (executor_globals V * bool) :=
  '(EG, ht) ← graceful_reverse_loop (Z.to_nat (nNumUsed ht)) EG ht;
  Some (EG, negb (HASH_FLAG_UNINITIALIZED ht)).

(** ** Copying and merging *)

(** The value an element stands for: that of its variable when it is [IS_INDIRECT]. *)
Definition deref EG z : option (zval V) :=
  match z with IS_INDIRECT s => slots EG !! s | _ => Some z end.

(** [pCopyConstructor(new_entry)], as a function on the value; [None] is the NULL pointer. *)
Definition copy_construct (ctor : option (zval V -> zval V)) EG ht (r : option zref) :
  option (executor_globals V * HashTable V) :=
  match ctor, r with
  | Some f, Some ref => z ← zread EG ht ref; zwrite EG ht ref (f z)
  | _, _ => Some (EG, ht)
  end.

Fixpoint copy_loop (n : nat) (ctor : option (zval V -> zval V)) EG (target source : HashTable V)
    (idx : Z) : option (executor_globals V * HashTable V) :=
  match n with
  | O => Some (EG, target)
  | S n =>
      p ← bucket (arData source) idx;
      if Z_ISUNDEF (val p) then copy_loop n ctor EG target source (idx + 1)
      else
        data ← deref EG (val p);
        if Z_ISUNDEF data then copy_loop n ctor EG target source (idx + 1)
        else
          '(EG, target, new_entry) ←
            (match key p with
             | Some k => zend_hash_update EG target k data
             | None => zend_hash_index_update EG target (h p) data
             end);
          '(EG, target) ← copy_construct ctor EG target new_entry;
          copy_loop n ctor EG target source (idx + 1)
  end.

Definition zend_hash_copy EG (target source : HashTable V) (ctor : option (zval V -> zval V)) :
  option (executor_globals V * HashTable V) :=
  copy_loop (Z.to_nat (nNumUsed source)) ctor EG target source 0.

Fixpoint merge_loop (n : nat) (ctor : option (zval V -> zval V)) EG (target source : HashTable V)
    (overwrite : bool) (idx : Z) : option (executor_globals V * HashTable V) :=
  match n with
  | O => Some (EG, target)
  | S n =>
      p ← bucket (arData source) idx;
      s ← deref EG (val p);
      if Z_ISUNDEF s then merge_loop n ctor EG target source overwrite (idx + 1)
      else
        '(EG, target, t) ←
          (match key p with
           | Some k =>
               _zend_hash_add_or_update_i EG target k s
                 (Z.lor (if overwrite then HASH_UPDATE else HASH_ADD) HASH_UPDATE_INDIRECT)
           | None =>
               if overwrite then zend_hash_index_update EG target (h p) s
               else zend_hash_index_add EG target (h p) s
           end);
        '(EG, target) ← copy_construct ctor EG target t;
        merge_loop n ctor EG target source overwrite (idx + 1)
  end.

Definition zend_hash_merge EG (target source : HashTable V) (ctor : option (zval V -> zval V))
    (overwrite : bool) : option (executor_globals V * HashTable V) :=
  merge_loop (Z.to_nat (nNumUsed source)) ctor EG target source overwrite 0.

(** ** Comparing, and the extremum *)
Fixpoint minmax_loop (n : nat) ht (compar : Bucket V -> Bucket V -> Z) (flag : bool) (idx res : Z) :
  option Z :=
  match n with
  | O => Some res
  | S n =>
      p ← bucket (arData ht) idx;
      if Z_ISUNDEF (val p) then minmax_loop n ht compar flag (idx + 1) res
      else
        r ← bucket (arData ht) res;
        let better := if flag then compar r p <? 0 else 0 <? compar r p in
        minmax_loop n ht compar flag (idx + 1) (if (better : bool) then idx else res)
  end.

Definition zend_hash_minmax ht (compar : Bucket V -> Bucket V -> Z) (flag : bool) :
  option (option zref) :=
  if nNumOfElements ht =? 0 then Some None
  else
    idx ← next_live (Z.to_nat (nNumUsed ht)) ht 0;
    if idx =? nNumUsed ht then Some None
    else
      res ← minmax_loop (Z.to_nat (nNumUsed ht - idx)) ht compar flag idx idx;
      Some (Some (ZBUCKET res)).
End Ops.
