(* ===== verification/ZendHashTraverse.v ===== *)
(** * The engine's hash table: traversal and destruction

    A position visits the elements in order, whatever tombstones lie between them; destroying hands
    every value to the destructor once, in order. *)
From S2P Require Import Prelude ZendString ZendHash OrderedMap ZendHashInv ZendHashRehash ZendHashUpdate ZendHashDelete ZendHashOps.

Section Traverse.
Context {V : Type}.
Implicit Types (b p : Bucket V) (bs pre suf ds : list (Bucket V)) (ht : HashTable V)
  (EG : executor_globals V) (z : zval V).

(** ** Positions *)

(** The dead buckets at the front, and the rest. *)
Lemma split_dead suf : exists ds rest, suf = ds ++ rest /\ Forall dead ds /\
  match rest with [] => True | b :: _ => live b = true end.
Proof.
  induction suf as [|b suf IH]; [by exists [], []|]. destruct (live b) eqn:Hl.
  - exists [], (b :: suf). by split_and!.
  - destruct IH as (ds & rest & -> & Hd & Hr). exists (b :: ds), rest. by split_and!; [|constructor|].
Qed.

Lemma next_live_spec ht bs : (forall j b, bs !! j = Some b -> bucket (arData ht) (Z.of_nat j) = Some b) ->
  nNumUsed ht = Z.of_nat (length bs) -> forall ds pre rest n,
  bs = pre ++ ds ++ rest -> Forall dead ds -> match rest with [] => True | b :: _ => live b = true end ->
  (length ds + length rest <= n)%nat ->
  next_live n ht (Z.of_nat (length pre)) = Some (Z.of_nat (length pre + length ds)).
Proof.
  intros Hcells Hu. induction ds as [|d ds IH]; intros pre rest n Hbs Hd Hr Hn.
  - cbn in *. rewrite Nat.add_0_r. assert (length bs = length pre + length rest)%nat as Hlen
      by (by rewrite Hbs, length_app).
    destruct rest as [|b rest]; [|destruct n as [|n]; [cbn in Hn; lia|]].
    + destruct n as [|n]; cbn [next_live]; rewrite (proj2 (Z.leb_le _ _)) by (cbn in *; lia); done.
    + cbn [next_live]. rewrite (proj2 (Z.leb_gt _ _)) by (cbn in *; lia).
      rewrite (Hcells _ b) by (rewrite Hbs; by apply list_lookup_middle). cbn [mbind option_bind].
      by rewrite undef_live, Hr.
  - destruct n as [|n]; [cbn in Hn; lia|]. apply Forall_cons in Hd as [Hdd Hd]. cbn [next_live].
    assert (length bs = length pre + S (length ds + length rest))%nat as Hlen
      by (rewrite Hbs; cbn; rewrite length_app; cbn; rewrite length_app; lia).
    rewrite (proj2 (Z.leb_gt _ _)) by lia.
    rewrite (Hcells _ d) by (rewrite Hbs; by apply list_lookup_middle). cbn [mbind option_bind].
    rewrite undef_live, Hdd. cbn [negb].
    replace (Z.of_nat (length pre) + 1) with (Z.of_nat (length (pre ++ [d])))
      by (rewrite length_app; cbn; lia).
    rewrite (IH (pre ++ [d]) rest n); [| |done|done|cbn in Hn; lia].
    + rewrite length_app. cbn. do 2 f_equal. lia.
    + by rewrite Hbs, <- app_assoc.
Qed.

Section Walk.
Context (ht : HashTable V) (bs : list (Bucket V)).
Hypothesis Hwf : wf ht bs.

Lemma valid_pos_spec pre ds rest : bs = pre ++ ds ++ rest -> Forall dead ds ->
  match rest with [] => True | b :: _ => live b = true end ->
  _zend_hash_get_valid_pos ht (Z.of_nat (length pre)) = Some (Z.of_nat (length pre + length ds)).
Proof using Hwf.
  intros Hbs Hd Hr. unfold _zend_hash_get_valid_pos. rewrite (wf_used _ _ Hwf).
  assert (length bs = length pre + (length ds + length rest))%nat as Hlen
    by (by rewrite Hbs, !length_app).
  destruct (Z.leb_spec (Z.of_nat (length bs)) (Z.of_nat (length pre))).
  - do 2 f_equal. lia.
  - apply (next_live_spec ht bs (fun i b => wf_bucket ht bs i b Hwf) (wf_used _ _ Hwf) ds pre rest);
      [done|done|done|lia].
Qed.

Lemma valid_pos_total pre suf : bs = pre ++ suf -> exists ds rest,
  suf = ds ++ rest /\ Forall dead ds /\ match rest with [] => True | b :: _ => live b = true end /\
  _zend_hash_get_valid_pos ht (Z.of_nat (length pre)) = Some (Z.of_nat (length pre + length ds)).
Proof using Hwf.
  intros Hbs. destruct (split_dead suf) as (ds & rest & -> & Hd & Hr). exists ds, rest.
  split_and!; try done. by apply (valid_pos_spec _ _ rest).
Qed.

Lemma forward_spec pre b ds rest : bs = pre ++ b :: ds ++ rest -> live b = true ->
  Forall dead ds -> match rest with [] => True | b :: _ => live b = true end ->
  zend_hash_move_forward_ex ht (Z.of_nat (length pre))
  = Some (Z.of_nat (length (pre ++ [b]) + length ds), SUCCESS).
Proof using Hwf.
  intros Hbs Hb Hd Hr. unfold zend_hash_move_forward_ex.
  rewrite (valid_pos_spec pre [] (b :: ds ++ rest)) by done. cbn [mbind option_bind length].
  rewrite Nat.add_0_r, (wf_used _ _ Hwf).
  assert (length bs = length pre + S (length ds + length rest))%nat as Hlen
    by (rewrite Hbs, length_app; cbn; by rewrite length_app).
  rewrite (proj2 (Z.ltb_lt _ _)) by lia.
  replace (Z.of_nat (length pre) + 1) with (Z.of_nat (length (pre ++ [b])))
    by (rewrite length_app; cbn; lia).
  rewrite (next_live_spec ht bs (fun i b => wf_bucket ht bs i b Hwf) (wf_used _ _ Hwf) ds _ rest);
    [done| |done|done|].
  - by rewrite Hbs, <- app_assoc.
  - rewrite length_app. cbn. lia.
Qed.

Lemma prev_live_spec ds : forall pre rest n, bs = pre ++ ds ++ rest -> Forall dead ds ->
  match last pre with None => True | Some b => live b = true end -> n = (length pre + length ds)%nat ->
  prev_live n (arData ht) = Some (match last pre with
    None => None | Some _ => Some (Z.of_nat (length pre - 1)) end).
Proof using Hwf.
  induction ds as [|d ds IH] using rev_ind; intros pre rest n Hbs Hd Hp ->.
  - rewrite Nat.add_0_r. destruct (last pre) as [b|] eqn:Hl.
    + apply last_Some in Hl as [pre' ->]. rewrite length_app, Nat.add_comm. cbn [length Nat.add prev_live].
      rewrite (wf_bucket _ _ _ b Hwf) by (rewrite Hbs; cbn; rewrite <- app_assoc; by apply list_lookup_middle).
      cbn [mbind option_bind]. rewrite undef_live, Hp. cbn [negb]. do 3 f_equal. lia.
    + by apply last_None in Hl as ->.
  - apply Forall_app in Hd as [Hd [Hdd _]%Forall_cons].
    rewrite length_app.
    replace (length pre + (length ds + length [d]))%nat with (S (length pre + length ds)) by (cbn; lia).
    cbn [prev_live].
    rewrite (wf_bucket _ _ _ d Hwf).
    2:{ rewrite Hbs, <- (app_assoc ds), app_assoc. cbn. apply list_lookup_middle. by rewrite length_app. }
    cbn [mbind option_bind]. rewrite undef_live, Hdd. cbn [negb].
    apply (IH pre (d :: rest)); [|done|done|done]. by rewrite Hbs, <- app_assoc.
Qed.

(** The key and value at the position of a live bucket. *)
Lemma at_live pre b rest : bs = pre ++ b :: rest -> live b = true ->
  current_bucket ht (Z.of_nat (length pre)) = Some (Some b) /\
  zend_hash_get_current_data_ex ht (Z.of_nat (length pre)) = Some (Some (ZBUCKET (Z.of_nat (length pre)))) /\
  bucket (arData ht) (Z.of_nat (length pre)) = Some b.
Proof using Hwf.
  intros Hbs Hl.
  assert (bucket (arData ht) (Z.of_nat (length pre)) = Some b) as Hb
    by (apply (wf_bucket _ _ _ _ Hwf); rewrite Hbs; by apply list_lookup_middle).
  assert ((Z.of_nat (length pre) <? nNumUsed ht) = true) as Hlt.
  { apply Z.ltb_lt. rewrite (wf_used _ _ Hwf), Hbs, length_app. cbn. lia. }
  unfold current_bucket, zend_hash_get_current_data_ex.
  rewrite (valid_pos_spec pre [] (b :: rest)) by done. cbn [mbind option_bind length].
  by rewrite Nat.add_0_r, Hlt, Hb.
Qed.

Lemma at_end : current_bucket ht (Z.of_nat (length bs)) = Some None.
Proof using Hwf.
  unfold current_bucket. rewrite (valid_pos_spec bs [] []) by (done || by rewrite app_nil_r).
  cbn [mbind option_bind length]. by rewrite Nat.add_0_r, (wf_used _ _ Hwf), Z.ltb_irrefl.
Qed.
End Walk.

(** ** A traversal, as a client writes it *)
Definition key_of (k : current_key) : option hkey :=
  match k with
  | HASH_KEY_IS_STRING s => Some (KStr (ZSTR_VAL s)) | HASH_KEY_IS_LONG i => Some (KInt i)
  | HASH_KEY_NON_EXISTENT => None
  end.

(** Visit the elements from [pos] on, moving with [move], until there is no key. *)
Fixpoint visit (n : nat) (move : HashTable V -> Z -> option (Z * Z)) EG ht (pos : Z) :
  option (list (hkey * zval V)) :=
  match n with
  | O => None
  | S n =>
      k ← zend_hash_get_current_key_ex ht pos;
      match key_of k with
      | None => Some []
      | Some k =>
          data ← zend_hash_get_current_data_ex ht pos;
          ref ← data; z ← zread EG ht ref;
          '(pos, _) ← move ht pos;
          rest ← visit n move EG ht pos; Some ((k, z) :: rest)
      end
  end.

Lemma visit_live n move EG ht bs pre b rest pos' st : wf ht bs -> bs = pre ++ b :: rest ->
  live b = true -> move ht (Z.of_nat (length pre)) = Some (pos', st) ->
  visit (S n) move EG ht (Z.of_nat (length pre))
  = (rest ← visit n move EG ht pos'; Some ((bkey b, val b) :: rest)).
Proof.
  intros Hwf Hbs Hl Hm. destruct (at_live ht bs Hwf pre b rest Hbs Hl) as (H1 & H2 & H3).
  cbn [visit]. unfold zend_hash_get_current_key_ex. rewrite H1. cbn [mbind option_bind].
  rewrite H2. cbn [mbind option_bind zread]. rewrite H3. unfold bkey.
  destruct (key b); cbn [key_of fmap option_fmap option_map mbind option_bind]; by rewrite Hm.
Qed.

Lemma visit_end n move EG ht bs : wf ht bs -> visit (S n) move EG ht (Z.of_nat (length bs)) = Some [].
Proof.
  intros Hwf. cbn [visit]. unfold zend_hash_get_current_key_ex. by rewrite (at_end ht bs Hwf).
Qed.

Lemma visit_forward EG ht bs : wf ht bs -> forall n pre rest, bs = pre ++ rest ->
  match rest with [] => True | b :: _ => live b = true end -> (length (entries rest) < n)%nat ->
  visit n zend_hash_move_forward_ex EG ht (Z.of_nat (length pre)) = Some (entries rest).
Proof.
  intros Hwf. induction n as [|n IH]; intros pre rest Hbs Hr Hn; [lia|].
  destruct rest as [|b rest].
  - rewrite app_nil_r in Hbs. rewrite <- Hbs. by apply visit_end.
  - destruct (split_dead rest) as (ds & rest' & -> & Hd & Hr').
    rewrite (visit_live n _ EG ht bs pre b (ds ++ rest') _ SUCCESS Hwf Hbs Hr
      (forward_spec ht bs Hwf pre b ds rest' Hbs Hr Hd Hr')).
    rewrite entries_cons, Hr in Hn. cbn in Hn.
    rewrite entries_app, (entries_dead ds Hd) in Hn. cbn in Hn.
    rewrite <- (length_app (pre ++ [b]) ds), (IH _ rest').
    + rewrite entries_cons, Hr, entries_app, (entries_dead ds Hd). done.
    + by rewrite Hbs, <- !app_assoc.
    + done.
    + lia.
Qed.

(** A [foreach] that starts with [zend_hash_internal_pointer_reset_ex] and moves with
    [zend_hash_move_forward_ex] visits every element once, in order, and then stops. *)
Lemma forward_traversal EG ht bs : wf ht bs ->
  (pos ← zend_hash_internal_pointer_reset_ex ht;
   visit (S (length (entries bs))) zend_hash_move_forward_ex EG ht pos) = Some (entries bs).
Proof.
  intros Hwf. unfold zend_hash_internal_pointer_reset_ex.
  destruct (valid_pos_total ht bs Hwf [] bs eq_refl) as (ds & rest & E & Hd & Hr & Hp).
  cbn [length] in Hp. change (Z.of_nat 0) with 0 in Hp. rewrite Hp. cbn [mbind option_bind].
  rewrite Nat.add_0_l, (visit_forward EG ht bs Hwf _ ds rest E Hr).
  - by rewrite E, entries_app, (entries_dead ds Hd).
  - rewrite E, entries_app, length_app. lia.
Qed.

Lemma split_dead_end pre : exists pre' ds, pre = pre' ++ ds /\ Forall dead ds /\
  match last pre' with None => True | Some b => live b = true end.
Proof.
  induction pre as [|b pre IH] using rev_ind; [by exists [], []|]. destruct (live b) eqn:Hl.
  - exists (pre ++ [b]), []. rewrite app_nil_r, last_snoc. by split_and!.
  - destruct IH as (pre' & ds & -> & Hd & Hr). exists pre', (ds ++ [b]). rewrite app_assoc.
    split_and!; [done| |done]. apply Forall_app. split; [done|]. by constructor.
Qed.

Lemma visit_backward EG ht bs : wf ht bs -> forall n pre b rest, bs = pre ++ b :: rest ->
  live b = true -> (length (entries (pre ++ [b])) < n)%nat ->
  visit n zend_hash_move_backwards_ex EG ht (Z.of_nat (length pre))
  = Some (reverse (entries (pre ++ [b]))).
Proof.
  intros Hwf. induction n as [|n IH]; intros pre b rest Hbs Hl Hn; [lia|].
  destruct (split_dead_end pre) as (pre' & ds & -> & Hd & Hp).
  assert (zend_hash_move_backwards_ex ht (Z.of_nat (length (pre' ++ ds)))
    = Some (match last pre' with None => Z.of_nat (length bs) | Some _ => Z.of_nat (length pre' - 1) end,
            SUCCESS)) as Hm.
  { unfold zend_hash_move_backwards_ex.
    rewrite (proj2 (Z.ltb_lt _ _)) by (rewrite (wf_used _ _ Hwf), Hbs, !length_app; cbn; lia).
    rewrite Nat2Z.id, (prev_live_spec ht bs Hwf ds pre' (b :: rest));
      [|by rewrite Hbs, <- app_assoc|done|done|by rewrite length_app].
    cbn [mbind option_bind]. rewrite (wf_used _ _ Hwf). by destruct (last pre'). }
  rewrite (visit_live n _ EG ht bs _ b rest _ SUCCESS Hwf Hbs Hl Hm).
  rewrite !entries_app, (entries_dead ds Hd), app_nil_r, entries_cons, Hl in *.
  rewrite reverse_app. cbn [entries]. rewrite length_app in Hn. cbn in Hn.
  destruct (last pre') as [b'|] eqn:Hlast.
  - apply last_Some in Hlast as [pre'' ->]. rewrite length_app. cbn [length].
    replace (length pre'' + 1 - 1)%nat with (length pre'') by lia.
    rewrite (IH pre'' b' (ds ++ b :: rest)); [done| |done|lia].
    rewrite Hbs, <- !app_assoc. done.
  - apply last_None in Hlast as ->. destruct n as [|n]; [cbn in Hn; lia|].
    by rewrite visit_end.
Qed.

(** From [zend_hash_internal_pointer_end_ex], [zend_hash_move_backwards_ex] visits every element
    once, in reverse order, and then stops. *)
Lemma backward_traversal EG ht bs : wf ht bs ->
  (pos ← zend_hash_internal_pointer_end_ex ht;
   visit (S (length (entries bs))) zend_hash_move_backwards_ex EG ht pos)
  = Some (reverse (entries bs)).
Proof.
  intros Hwf. unfold zend_hash_internal_pointer_end_ex.
  destruct (split_dead_end bs) as (pre' & ds & E & Hd & Hp).
  rewrite (wf_used _ _ Hwf), Nat2Z.id, (prev_live_spec ht bs Hwf ds pre' []);
    [|by rewrite app_nil_r|done|done|by rewrite E, length_app].
  cbn [mbind option_bind]. assert (entries bs = entries pre') as Een
    by (by rewrite E, entries_app, (entries_dead ds Hd), app_nil_r).
  destruct (last pre') as [b|] eqn:Hlast; cbn [default].
  - apply last_Some in Hlast as [pre ->]. rewrite length_app. cbn [length].
    replace (length pre + 1 - 1)%nat with (length pre) by lia.
    rewrite (visit_backward EG ht bs Hwf _ pre b ds); [by rewrite Een| |done|rewrite Een; lia].
    by rewrite E, <- app_assoc.
  - apply last_None in Hlast as ->. rewrite (visit_end _ _ EG ht bs Hwf). by rewrite Een.
Qed.

(** ** Destroying every value *)
Lemma destroy_values_spec ar call holes todo : forall EG i,
  (forall j b, todo !! j = Some b -> bucket ar (i + Z.of_nat j) = Some b) ->
  (forall b, b ∈ todo -> live b = false -> holes = true \/ forall EG, call EG (val b) = EG) ->
  destroy_values (length todo) call holes EG ar i = Some (foldl call EG (entries todo).*2).
Proof.
  induction todo as [|b todo IH]; intros EG i Hc Hh; [done|]. cbn [length destroy_values].
  pose proof (Hc 0%nat b eq_refl) as Hb. rewrite Z.add_0_r in Hb. rewrite Hb. cbn [mbind option_bind].
  rewrite IH.
  - rewrite undef_live, entries_cons. destruct (live b) eqn:Hl; cbn [negb].
    + by rewrite andb_false_r.
    + destruct (Hh b) as [->|Hcall]; [by left|done|done|].
      destruct holes; [done|]. cbn [andb]. by rewrite Hcall.
  - intros j bj Hj. rewrite <- (Hc (S j) bj Hj). f_equal. lia.
  - intros b' Hb'. apply Hh. by right.
Qed.

Lemma foldl_log_destroyed zs : forall EG,
  foldl log_destroyed EG zs = {| EG with destroyed := destroyed EG ++ zs |}.
Proof.
  induction zs as [|z zs IH]; intros EG; cbn; [destruct EG; cbn; by rewrite app_nil_r|].
  rewrite IH. cbn. by rewrite <- app_assoc.
Qed.

Lemma without_holes ht bs : wf ht bs -> HT_IS_WITHOUT_HOLES ht = true ->
  Forall (fun b => live b = true) bs.
Proof.
  intros Hwf Hh. apply all_live. unfold HT_IS_WITHOUT_HOLES in Hh. apply Z.eqb_eq in Hh.
  rewrite (wf_used _ _ Hwf), (wf_elems _ _ Hwf) in Hh. lia.
Qed.

(** Every value goes to the destructor, in order. *)
Definition all_destroyed EG EG' ht bs : Prop :=
  destroyed EG' = destroyed EG ++ (if pDestructor ht then (entries bs).*2 else []) /\
  slots EG' = slots EG.

Lemma destroy_all EG ht bs : wf ht bs -> exists EG',
  (if pDestructor ht
   then destroy_values (Z.to_nat (nNumUsed ht)) log_destroyed (negb (HT_IS_WITHOUT_HOLES ht)) EG
          (arData ht) 0
   else Some EG) = Some EG' /\ all_destroyed EG EG' ht bs.
Proof.
  intros Hwf. unfold all_destroyed. destruct (pDestructor ht).
  - rewrite (wf_used _ _ Hwf), Nat2Z.id, (destroy_values_spec (arData ht) _ _ bs).
    + eexists. split; [done|]. by rewrite foldl_log_destroyed.
    + intros j b Hj. by apply (wf_bucket _ _ _ _ Hwf).
    + intros b Hb Hl. left. destruct (HT_IS_WITHOUT_HOLES ht) eqn:Hh; [|done].
      pose proof (without_holes _ _ Hwf Hh) as Hall. rewrite Forall_forall in Hall.
      rewrite (Hall b Hb) in Hl. done.
  - exists EG. split; [done|]. by rewrite app_nil_r.
Qed.

Lemma map_iterators_globals EG (f : HashTableIterator -> HashTableIterator) :
  same_globals EG (map_iterators EG f).
Proof. done. Qed.

Lemma iterators_remove_globals EG ht : same_globals EG (zend_hash_iterators_remove EG ht).
Proof. unfold zend_hash_iterators_remove. by destruct (HT_HAS_ITERATORS ht). Qed.

Lemma empty_used ht bs : wf ht bs -> nNumUsed ht = 0 -> entries bs = [].
Proof.
  intros Hwf H0. rewrite (wf_used _ _ Hwf) in H0. destruct bs; [done|]. cbn in H0. lia.
Qed.

(** [zend_hash_destroy] hands each value of the table to its destructor exactly once, in order,
    tombstones skipped, and frees the block if there is one. *)
Lemma destroy_hands_over EG ht bs : wf ht bs -> exists EG',
  zend_hash_destroy EG ht = Some (EG', negb (HASH_FLAG_UNINITIALIZED ht)) /\
  all_destroyed EG EG' ht bs.
Proof.
  intros Hwf. unfold zend_hash_destroy. destruct (Z.eqb_spec (nNumUsed ht) 0) as [H0|H0]; cbn [negb].
  - exists EG. split; [by destruct (HASH_FLAG_UNINITIALIZED ht)|]. unfold all_destroyed.
    rewrite (empty_used _ _ Hwf H0). split; [|done]. destruct (pDestructor ht); by rewrite app_nil_r.
  - destruct (destroy_all EG ht bs Hwf) as (EG' & -> & Hall). cbn [mbind option_bind].
    eexists. split.
    + pose proof (wf_layout _ _ Hwf) as Hla. unfold layout in Hla. rewrite (wf_used _ _ Hwf) in H0.
      destruct (HASH_FLAG_UNINITIALIZED ht); [|done]. destruct Hla as (_ & _ & ->). done.
    + destruct (iterators_remove_globals EG' ht) as [E1 E2]. unfold all_destroyed. by rewrite E1, E2.
Qed.

Lemma emptied_wf ht bs hs : wf ht bs ->
  hs = (if HASH_FLAG_PACKED ht || HASH_FLAG_UNINITIALIZED ht then arHash ht else reset_heads (nTableMask ht)) ->
  wf (emptied {| ht with arHash := hs |}) [].
Proof.
  intros Hwf ->. pose proof (wf_size _ _ Hwf) as Hs. pose proof (wf_layout _ _ Hwf) as Hla.
  split; cbn; try done.
  - by exists (arData ht).
  - apply (wf_block _ _ Hwf).
  - constructor.
  - unfold layout in *. cbn. destruct (HASH_FLAG_UNINITIALIZED ht).
    + rewrite orb_true_r. destruct Hla as (H1 & H2 & _). split; [done|]. split; [exact H2|done].
    + rewrite orb_false_r. destruct (HASH_FLAG_PACKED ht).
      * destruct Hla as (Hn & _ & _). split; [done|]. split; [cbn; lia|].
        intros i b Hi. by rewrite lookup_nil in Hi.
      * destruct Hla as [Hm _]. split; [done|]. rewrite Hm.
        destruct (reset_heads_chains (V := V) _ (nTableSize ht) Hs eq_refl) as [_ Hc]. exact Hc.
Qed.

(** [zend_hash_clean] destroys every value in order and leaves a well-formed empty table of the
    same size that can be used again. *)
Lemma clean_empties EG ht bs : wf ht bs -> exists EG' ht',
  zend_hash_clean EG ht = Some (EG', ht') /\ wf ht' [] /\ all_destroyed EG EG' ht bs /\
  nTableSize ht' = nTableSize ht /\ nNextFreeElement ht' = 0.
Proof.
  intros Hwf. unfold zend_hash_clean. destruct (Z.eqb_spec (nNumUsed ht) 0) as [H0|H0]; cbn [negb].
  - exists EG, (emptied ht). split; [done|]. split.
    + pose proof (wf_used _ _ Hwf) as Hu. assert (bs = []) as -> by (destruct bs; [done|cbn in Hu; lia]).
      destruct Hwf as [H1 H2 H3 H4 H5 H6 H7 H8 H9 H10]. split; try done. unfold layout in *. cbn.
      destruct (HASH_FLAG_UNINITIALIZED ht); [done|]. destruct (HASH_FLAG_PACKED ht); [|done].
      destruct H10 as (? & _ & ?). split; [done|]. split; [cbn; lia|done].
    + unfold all_destroyed. rewrite (empty_used _ _ Hwf H0). split_and!; try done.
      destruct (pDestructor ht); by rewrite app_nil_r.
  - destruct (destroy_all EG ht bs Hwf) as (EG' & -> & Hall). cbn [mbind option_bind].
    eexists EG', _. split; [done|]. split; [|split; [done|]; by destruct (HASH_FLAG_PACKED ht)].
    assert (HASH_FLAG_UNINITIALIZED ht = false) as Hu.
    { pose proof (wf_layout _ _ Hwf) as Hla. unfold layout in Hla. rewrite (wf_used _ _ Hwf) in H0.
      destruct (HASH_FLAG_UNINITIALIZED ht); [|done]. destruct Hla as (_ & _ & ->). done. }
    destruct (HASH_FLAG_PACKED ht) eqn:Hp.
    + pose proof (emptied_wf ht bs (arHash ht) Hwf) as He. rewrite Hp in He. specialize (He eq_refl).
      destruct ht; cbn in *; subst; exact He.
    + assert (reset_heads (nTableMask ht) = if HASH_FLAG_PACKED ht || HASH_FLAG_UNINITIALIZED ht
        then arHash ht else reset_heads (nTableMask ht)) as Hhs by (by rewrite Hp, Hu).
      pose proof (emptied_wf ht bs _ Hwf Hhs) as He. destruct ht; cbn in *; subst; exact He.
Qed.
(** C36: a [foreach] from [zend_hash_internal_pointer_reset_ex] with [zend_hash_move_forward_ex] visits
    every element once, in order, and then stops; from [zend_hash_internal_pointer_end_ex],
    [zend_hash_move_backwards_ex] visits them in reverse order. *)
Theorem zend_hash_traversal EG ht bs : wf ht bs ->
  (pos ← zend_hash_internal_pointer_reset_ex ht;
   visit (S (length (entries bs))) zend_hash_move_forward_ex EG ht pos) = Some (entries bs) /\
  (pos ← zend_hash_internal_pointer_end_ex ht;
   visit (S (length (entries bs))) zend_hash_move_backwards_ex EG ht pos) = Some (reverse (entries bs)).
Proof. intros Hwf. split; [by apply forward_traversal|by apply backward_traversal]. Qed.

(** [zend_hash_destroy] and [zend_hash_clean] hand each value of the table to its destructor exactly
    once, in order, tombstones skipped; the one frees the block if there is one, the other leaves a
    well-formed empty table of the same size that can be used again. *)
Theorem zend_hash_destroy_clean EG ht bs : wf ht bs ->
  (exists EG', zend_hash_destroy EG ht = Some (EG', negb (HASH_FLAG_UNINITIALIZED ht)) /\
     all_destroyed EG EG' ht bs) /\
  (exists EG' ht', zend_hash_clean EG ht = Some (EG', ht') /\ wf ht' [] /\ all_destroyed EG EG' ht bs /\
     nTableSize ht' = nTableSize ht /\ nNextFreeElement ht' = 0).
Proof. intros Hwf. split; [by apply destroy_hands_over|by apply clean_empties]. Qed.
End Traverse.

(** ** Witnesses *)
Lemma zend_hash_traversal_witness :
  (pos ← zend_hash_internal_pointer_reset_ex ex_table;
   visit (S (length (entries ex_buckets))) zend_hash_move_forward_ex ex_globals ex_table pos)
  = Some (entries ex_buckets) /\
  (pos ← zend_hash_internal_pointer_end_ex ex_table;
   visit (S (length (entries ex_buckets))) zend_hash_move_backwards_ex ex_globals ex_table pos)
  = Some (reverse (entries ex_buckets)).
Proof. exact (zend_hash_traversal ex_globals ex_table ex_buckets ex_wf). Defined.

Lemma zend_hash_destroy_clean_witness :
  (exists EG', zend_hash_destroy ex_globals ex_table = Some (EG', negb (HASH_FLAG_UNINITIALIZED ex_table)) /\
     all_destroyed ex_globals EG' ex_table ex_buckets) /\
  (exists EG' ht', zend_hash_clean ex_globals ex_table = Some (EG', ht') /\ wf ht' [] /\
     all_destroyed ex_globals EG' ex_table ex_buckets /\
     nTableSize ht' = nTableSize ex_table /\ nNextFreeElement ht' = 0).
Proof. exact (zend_hash_destroy_clean ex_globals ex_table ex_buckets ex_wf). Defined.

