(* ===== verification/ZendHashApply.v ===== *)
(** * The engine's hash table: the apply family and the graceful destructors

    [zend_hash_apply] and [zend_hash_reverse_apply] run a callback over the elements; it may change
    an element, remove it, and stop the run.  They are folds over the ordered map, although elements
    disappear, tombstones are trimmed and iterators move under the loop.  The graceful destructors
    are loops of the same shape whose verdict is always to remove. *)
From S2P Require Import Prelude ZendString ZendHash OrderedMap ZendHashInv ZendHashRehash ZendHashUpdate ZendHashDelete ZendHashOps.

Section Apply.
Context {V S : Type}.
Implicit Types (b p : Bucket V) (bs ds all : list (Bucket V)) (ht : HashTable V)
  (EG : executor_globals V) (z : zval V) (s : S).

(** ** The block under a loop *)

(** The block starts with the buckets [all]: those of the table and dead ones after them. *)
Definition laid ht bs all : Prop :=
  exists ds rest, wf ht bs /\ all = bs ++ ds /\ Forall dead ds /\ arData ht = (Some <$> all) ++ rest.

Lemma laid_wf ht bs : wf ht bs -> laid ht bs bs.
Proof.
  intros Hwf. destruct (wf_cells _ _ Hwf) as [rest Hd]. exists [], rest. by rewrite app_nil_r.
Qed.

Lemma laid_cell ht bs all i b : laid ht bs all -> all !! i = Some b ->
  bucket (arData ht) (Z.of_nat i) = Some b.
Proof. intros (ds & rest & _ & _ & _ & ->). apply cells_bucket. Qed.

Lemma laid_live ht bs all i b : laid ht bs all -> all !! i = Some b -> live b = true -> bs !! i = Some b.
Proof.
  intros (ds & rest & _ & -> & Hds & _) Hi Hl. apply lookup_app_Some in Hi as [|[_ Hi]]; [done|].
  rewrite Forall_forall in Hds. specialize (Hds b (list_elem_of_lookup_2 _ _ _ Hi)).
  unfold dead in Hds. congruence.
Qed.

Lemma laid_entries ht bs all : laid ht bs all -> entries bs = entries all.
Proof. intros (ds & rest & _ & -> & Hds & _). by rewrite entries_app, (entries_dead ds Hds), app_nil_r. Qed.

Lemma laid_used ht bs all : laid ht bs all -> nNumUsed ht = Z.of_nat (length bs) /\
  (length bs <= length all)%nat /\ forall i, (length bs <= i)%nat -> entries (drop i all) = [].
Proof.
  intros (ds & rest & Hwf & -> & Hds & _). split; [apply (wf_used _ _ Hwf)|].
  split; [rewrite length_app; lia|]. intros i Hi. rewrite drop_app_ge by done.
  apply entries_dead. by apply Forall_drop.
Qed.

(** What a round leaves alone. *)
Definition same_kind ht ht' : Prop :=
  pDestructor ht' = pDestructor ht /\ HASH_FLAG_UNINITIALIZED ht' = HASH_FLAG_UNINITIALIZED ht.

Lemma same_kind_trans ht1 ht2 ht3 : same_kind ht1 ht2 -> same_kind ht2 ht3 -> same_kind ht1 ht3.
Proof. intros [H1 H2] [H3 H4]. split; congruence. Qed.

(** What one round does: bucket [i] becomes [b'] and [d] goes to the destructor. *)
Definition round EG ht all (i : nat) b' (d : list (zval V)) EG' ht' bs' all' : Prop :=
  laid ht' bs' all' /\ strip <$> all' = <[i := strip b']> (strip <$> all) /\
  slots EG' = slots EG /\ destroyed EG' = destroyed EG ++ d /\ same_kind ht ht'.

Lemma delete_round EG ht bs all i b : laid ht bs all -> all !! i = Some b -> live b = true ->
  exists EG' ht' bs' all', _zend_hash_del_el EG ht (Z.of_nat i) = Some (EG', ht') /\
    round EG ht all i (tomb b) (destroyed_by ht (Some (val b))) EG' ht' bs' all'.
Proof.
  intros Hlaid Hi Hl. pose proof (laid_live _ _ _ _ _ Hlaid Hi Hl) as Hi'.
  destruct Hlaid as (ds & rest & Hwf & -> & Hds & Hd).
  destruct (holds_lookup _ _ _ _ Hwf Hi' Hl) as (bs1 & bs2 & Hh & <-).
  destruct (del_el_at EG ht bs _ bs1 b bs2 Hwf Hh)
    as (EG' & ht' & bs' & ds' & -> & Hds' & Hst & Hdel & Hwf' & Hcells).
  destruct Hdel as (? & ? & ? & [= <- <-] & _ & _ & Hs & Hde & Hpd & _ & _ & Hun).
  rewrite fmap_app, <- app_assoc in Hd. specialize (Hcells _ Hd).
  exists EG', ht', bs', (bs' ++ ds' ++ ds). split; [done|]. split; [|split].
  - exists (ds' ++ ds), rest. split_and!; try done; [by apply Forall_app|].
    by rewrite Hcells, !fmap_app, <- !app_assoc.
  - rewrite app_assoc, fmap_app, Hst, fmap_app, insert_app_l; [done|].
    rewrite length_fmap. by apply lookup_lt_Some in Hi'.
  - done.
Qed.

Lemma set_round EG ht bs all i b z : laid ht bs all -> all !! i = Some b -> live b = true ->
  Z_ISUNDEF z = false ->
  exists ar bs' all', set_bucket (arData ht) (Z.of_nat i) {| b with val := z |} = Some ar /\
    round EG ht all i (set_val z b) [] EG {| ht with arData := ar |} bs' all' /\
    all' !! i = Some (set_val z b).
Proof.
  intros Hlaid Hi Hl Hz. pose proof (laid_live _ _ _ _ _ Hlaid Hi Hl) as Hi'.
  destruct Hlaid as (ds & rest & Hwf & -> & Hds & Hd).
  destruct (list_elem_of_split_length _ _ _ Hi') as (bs1 & bs2 & -> & ->).
  rewrite fmap_app, <- app_assoc in Hd.
  rewrite Hd, set_bucket_cells by done. eexists _, (bs1 ++ set_val z b :: bs2), _.
  split; [done|]. split; [split; [|split; [|split; [done|split; [by rewrite app_nil_r|done]]]]|].
  - exists ds, rest. split; [by apply (wf_set_val ht bs1 b bs2)|]. split; [done|]. split; [done|].
    cbn [arData]. by rewrite (fmap_app _ _ ds), <- app_assoc.
  - rewrite <- !app_assoc. cbn [app]. rewrite !(fmap_app _ bs1), !fmap_cons.
    by rewrite insert_app_r_alt, length_fmap, Nat.sub_diag by (by rewrite length_fmap).
  - rewrite <- app_assoc. by apply list_lookup_middle.
Qed.

(** ** The specification: a fold over the elements *)
Section Callback.
Variable f : S -> zval V -> Z * option zend_string -> S * zval V * Z.

(** The callback does not turn an element into an undefined one. *)
Hypothesis f_live : forall s z k, Z_ISUNDEF z = false -> Z_ISUNDEF (f s z k).1.2 = false.

Definition removes (result : Z) : bool := negb (Z.land result ZEND_HASH_APPLY_REMOVE =? 0).
Definition stops (result : Z) : bool := negb (Z.land result ZEND_HASH_APPLY_STOP =? 0).

(** The caller's state, the elements kept, and the values removed. *)
Fixpoint apply_spec s bs : S * list (hkey * zval V) * list (zval V) :=
  match bs with
  | [] => (s, [], [])
  | b :: bs =>
      if live b then
        let '(s, z, result) := f s (val b) (h b, key b) in
        let kept := if removes result then [] else [(bkey b, z)] in
        let gone := if removes result then [z] else [] in
        if stops result then (s, kept ++ entries bs, gone)
        else let '(s, m, d) := apply_spec s bs in (s, kept ++ m, gone ++ d)
      else apply_spec s bs
  end.

Lemma apply_spec_strip s bs bs' : strip <$> bs = strip <$> bs' -> apply_spec s bs = apply_spec s bs'.
Proof using.
  revert s bs'. induction bs as [|b bs IH]; intros s [|b' bs'] E; try done.
  rewrite !fmap_cons in E. assert (strip b = strip b') as Es by congruence.
  assert (strip <$> bs = strip <$> bs') as Ebs by congruence.
  cbn [apply_spec]. rewrite (strip_live _ _ Es), (strip_key _ _ Es), (strip_entries _ _ Ebs).
  unfold strip in Es. injection Es as -> -> ->. destruct (live b'); [|by apply IH].
  destruct (f s (val b') _) as [[s1 z] r]. destruct (stops r); [done|]. by rewrite (IH s1 bs').
Qed.

Lemma apply_spec_dead s bs : entries bs = [] -> apply_spec s bs = (s, [], []).
Proof using.
  induction bs as [|b bs IH]; [done|]. rewrite entries_cons. cbn [apply_spec].
  destruct (live b); [done|]. apply IH.
Qed.

Lemma apply_one_dead s EG ht bs all i b : laid ht bs all -> all !! i = Some b -> live b = false ->
  apply_one f s EG ht (Z.of_nat i) = Some (s, EG, ht, false).
Proof using.
  intros Hlaid Hi Hl. unfold apply_one. rewrite (laid_cell _ _ _ _ _ Hlaid Hi).
  cbn [mbind option_bind]. by rewrite undef_live, Hl.
Qed.

Lemma apply_one_live s EG ht bs all i b s' z result : laid ht bs all -> all !! i = Some b ->
  live b = true -> f s (val b) (h b, key b) = (s', z, result) ->
  exists EG' ht' bs' all',
    apply_one f s EG ht (Z.of_nat i) = Some (s', EG', ht', stops result) /\
    round EG ht all i (if removes result then tomb b else set_val z b)
      (if removes result then destroyed_by ht (Some z) else []) EG' ht' bs' all'.
Proof using f_live.
  intros Hlaid Hi Hl Hf.
  assert (Z_ISUNDEF z = false) as Hz.
  { pose proof (f_live s (val b) (h b, key b)) as H. rewrite Hf in H. apply H.
    rewrite undef_live, Hl. done. }
  unfold apply_one. rewrite (laid_cell _ _ _ _ _ Hlaid Hi). cbn [mbind option_bind].
  rewrite undef_live, Hl, Hf. cbn [negb].
  destruct (set_round EG ht bs all i b z Hlaid Hi Hl Hz) as (ar & bs1 & all1 & -> & Hr1 & Hi1).
  cbn [mbind option_bind]. fold (removes result) (stops result).
  destruct (removes result); [|by exists EG, {| ht with arData := ar |}, bs1, all1].
  destruct Hr1 as (Hlaid1 & E1 & _).
  destruct (delete_round EG {| ht with arData := ar |} bs1 all1 i (set_val z b) Hlaid1 Hi1)
    as (EG' & ht' & bs' & all' & -> & Hlaid' & E' & Hs & Hd & Hp);
    [by unfold live; cbn; rewrite Hz|].
  exists EG', ht', bs', all'. split; [done|]. split; [done|]. split; [|done].
  rewrite E', E1, list_insert_insert_eq. done.
Qed.

(** After a round, the parts of the block before and after bucket [i] stand for what they did. *)
Lemma round_parts all i b' all' : (i < length all)%nat ->
  strip <$> all' = <[i := strip b']> (strip <$> all) ->
  strip <$> take i all' = strip <$> take i all /\
  strip <$> drop (Datatypes.S i) all' = strip <$> drop (Datatypes.S i) all /\
  entries (take (Datatypes.S i) all') = entries (take i all) ++ entries [b'] /\
  entries (drop i all') = entries [b'] ++ entries (drop (Datatypes.S i) all) /\
  length all' = length all.
Proof using.
  intros Hi E. rewrite <- list_fmap_insert in E. set (y := <[i := b']> all) in *.
  assert (forall n, strip <$> take n all' = strip <$> take n y) as Et by (intros n; by rewrite !fmap_take, E).
  assert (forall n, strip <$> drop n all' = strip <$> drop n y) as Ed by (intros n; by rewrite !fmap_drop, E).
  assert (y !! i = Some b') as Hy by (by apply list_lookup_insert_eq).
  pose proof (f_equal length E) as El. unfold y in El at 1. rewrite !length_fmap, length_insert in El.
  split_and!; [| | | |done].
  - rewrite Et. unfold y. by rewrite take_insert_ge.
  - rewrite Ed. unfold y. rewrite drop_insert_lt by lia. done.
  - rewrite (strip_entries _ _ (Et _)), (take_S_r _ _ _ Hy), entries_app. unfold y. by rewrite take_insert_ge.
  - rewrite (strip_entries _ _ (Ed _)), (drop_S _ _ _ Hy), entries_cons. unfold y.
    rewrite drop_insert_lt by lia. rewrite (entries_cons b' []). by destruct (live b').
Qed.

(** The values that go to the destructor. *)
Definition handed ht (d : list (zval V)) : list (zval V) := if pDestructor ht then d else [].

Lemma handed_app ht d1 d2 : handed ht (d1 ++ d2) = handed ht d1 ++ handed ht d2.
Proof using. unfold handed. by destruct (pDestructor ht). Qed.

(** The outcome of one round, for the loops in both directions. *)
Lemma round_outcome s EG ht bs all i b s' z result : laid ht bs all -> all !! i = Some b ->
  live b = true -> f s (val b) (h b, key b) = (s', z, result) ->
  let kept := if removes result then [] else [(bkey b, z)] in
  let gone := if removes result then [z] else [] in
  exists EG' ht' bs' all',
    apply_one f s EG ht (Z.of_nat i) = Some (s', EG', ht', stops result) /\
    laid ht' bs' all' /\ length all' = length all /\
    strip <$> take i all' = strip <$> take i all /\
    strip <$> drop (Datatypes.S i) all' = strip <$> drop (Datatypes.S i) all /\
    entries (take (Datatypes.S i) all') = entries (take i all) ++ kept /\
    entries (drop i all') = kept ++ entries (drop (Datatypes.S i) all) /\
    slots EG' = slots EG /\ destroyed EG' = destroyed EG ++ handed ht gone /\
    same_kind ht ht'.
Proof using f_live.
  intros Hlaid Hi Hl Hf kept gone.
  destruct (apply_one_live s EG ht bs all i b s' z result Hlaid Hi Hl Hf)
    as (EG' & ht' & bs' & all' & E & Hlaid' & Est & Hs & Hd & Hp).
  destruct (round_parts _ _ _ _ (lookup_lt_Some _ _ _ Hi) Est) as (H1 & H2 & H3 & H4 & H5).
  assert (entries [if removes result then tomb b else set_val z b] = kept) as Ek.
  { unfold kept. destruct (removes result); [done|]. cbn [entries]. rewrite entries_cons.
    pose proof (f_live s (val b) (h b, key b)) as Hz. rewrite Hf in Hz. cbn in Hz.
    unfold live. cbn [val set_val]. rewrite Hz by (rewrite undef_live, Hl; done). done. }
  rewrite Ek in H3, H4. exists EG', ht', bs', all'. split_and!; try done.
  rewrite Hd. f_equal. unfold gone, handed, destroyed_by. by destruct (removes result), (pDestructor ht).
Qed.

Lemma apply_loop_spec n : forall s EG ht bs all i, laid ht bs all -> (length all <= i + n)%nat ->
  let '(s', m, d) := apply_spec s (drop i all) in
  exists EG' ht' bs' all', apply_loop f n s EG ht (Z.of_nat i) = Some (s', EG', ht') /\
    laid ht' bs' all' /\ entries all' = entries (take i all) ++ m /\
    slots EG' = slots EG /\ destroyed EG' = destroyed EG ++ handed ht d /\
    same_kind ht ht'.
Proof using f_live.
  induction n as [|n IH]; intros s EG ht bs all i Hlaid Hn;
    destruct (laid_used _ _ _ Hlaid) as (Hu & Hle & Hrest);
    destruct (decide (length bs <= i)%nat) as [Hi|Hi]; try lia.
  1, 2: rewrite (apply_spec_dead s (drop i all) (Hrest i Hi)); exists EG, ht, bs, all;
    cbn [apply_loop]; rewrite Hu, (proj2 (Z.leb_le _ _)) by lia; split_and!; try done.
  1, 3: rewrite app_nil_r, <- (take_drop i all) at 1; by rewrite entries_app, (Hrest i Hi), app_nil_r.
  1, 2: unfold handed; destruct (pDestructor ht); by rewrite app_nil_r.
  destruct (lookup_lt_is_Some_2 all i) as [b Hb]; [lia|]. rewrite (drop_S _ _ _ Hb).
  cbn [apply_loop apply_spec]. rewrite Hu, (proj2 (Z.leb_gt _ _)) by lia.
  replace (Z.of_nat i + 1) with (Z.of_nat (Datatypes.S i)) by lia.
  destruct (live b) eqn:Hl.
  - destruct (f s (val b) (h b, key b)) as [[s1 z] r] eqn:Hf.
    destruct (round_outcome s EG ht bs all i b s1 z r Hlaid Hb Hl Hf)
      as (EG1 & ht1 & bs1 & all1 & -> & Hlaid1 & Hlen & _ & Ed & Et & Een & Hs1 & Hd1 & Hp1).
    cbn [mbind option_bind]. destruct (stops r).
    + exists EG1, ht1, bs1, all1. split_and!; try done.
      rewrite <- (take_drop (Datatypes.S i) all1), entries_app, Et, (strip_entries _ _ Ed).
      by rewrite <- app_assoc.
    + specialize (IH s1 EG1 ht1 bs1 all1 (Datatypes.S i) Hlaid1).
      rewrite (apply_spec_strip s1 _ _ Ed) in IH.
      destruct (apply_spec s1 (drop (Datatypes.S i) all)) as [[s2 m] d].
      destruct IH as (EG2 & ht2 & bs2 & all2 & -> & Hlaid2 & Een2 & Hs2 & Hd2 & Hp2).
      { lia. }
      exists EG2, ht2, bs2, all2. split_and!; try done; [|congruence| |by apply (same_kind_trans _ ht1)].
      * by rewrite Een2, Et, <- app_assoc.
      * rewrite Hd2, Hd1, <- app_assoc, handed_app. unfold handed. by rewrite (proj1 Hp1).
  - rewrite (apply_one_dead s EG ht bs all i b Hlaid Hb Hl). cbn [mbind option_bind].
    specialize (IH s EG ht bs all (Datatypes.S i) Hlaid).
    destruct (apply_spec s (drop (Datatypes.S i) all)) as [[s2 m] d].
    destruct IH as (EG2 & ht2 & bs2 & all2 & -> & Hlaid2 & Een2 & Hs2 & Hd2 & Hp2); [lia|].
    exists EG2, ht2, bs2, all2. split_and!; try done.
    by rewrite Een2, (take_S_r _ _ _ Hb), entries_app, entries_cons, Hl, app_nil_r.
Qed.

Lemma apply_folds s EG ht bs : wf ht bs ->
  let '(s', m, d) := apply_spec s bs in
  exists EG' ht' bs', zend_hash_apply f s EG ht = Some (s', EG', ht') /\ wf ht' bs' /\
    entries bs' = m /\ destroyed EG' = destroyed EG ++ handed ht d /\ same_kind ht ht'.
Proof using f_live.
  intros Hwf. pose proof (apply_loop_spec (length bs) s EG ht bs bs 0 (laid_wf _ _ Hwf)) as H.
  rewrite drop_0, take_0 in H. unfold zend_hash_apply. rewrite (wf_used _ _ Hwf), Nat2Z.id.
  destruct (apply_spec s bs) as [[s' m] d].
  destruct H as (EG' & ht' & bs' & all' & H1 & H2 & H3 & _ & H4 & H5); [lia|].
  exists EG', ht', bs'. rewrite (laid_entries _ _ _ H2). split_and!; try done.
  by destruct H2 as (? & ? & Hwf' & _).
Qed.

Lemma entries_reverse bs : entries (reverse bs) = reverse (entries bs).
Proof using.
  induction bs as [|b bs IH]; [done|]. rewrite reverse_cons, entries_app, IH, !entries_cons.
  destruct (live b); [by rewrite reverse_cons|]. by rewrite app_nil_r.
Qed.

Lemma reverse_loop_spec n : forall s EG ht bs all, laid ht bs all -> (n <= length all)%nat ->
  let '(s', m, d) := apply_spec s (reverse (take n all)) in
  exists EG' ht' bs' all', reverse_apply_loop f n s EG ht = Some (s', EG', ht') /\
    laid ht' bs' all' /\ entries all' = reverse m ++ entries (drop n all) /\
    destroyed EG' = destroyed EG ++ handed ht d /\ same_kind ht ht'.
Proof using f_live.
  induction n as [|n IH]; intros s EG ht bs all Hlaid Hn.
  { exists EG, ht, bs, all. split_and!; try done. unfold handed.
    by destruct (pDestructor ht); rewrite app_nil_r. }
  destruct (lookup_lt_is_Some_2 all n) as [b Hb]; [lia|].
  rewrite (take_S_r _ _ _ Hb), reverse_app. cbn [reverse_apply_loop]. change (reverse [b]) with [b].
  cbn [app apply_spec]. destruct (live b) eqn:Hl.
  - destruct (f s (val b) (h b, key b)) as [[s1 z] r] eqn:Hf.
    destruct (round_outcome s EG ht bs all n b s1 z r Hlaid Hb Hl Hf)
      as (EG1 & ht1 & bs1 & all1 & -> & Hlaid1 & Hlen & Et & _ & _ & Een & Hs1 & Hd1 & Hp1).
    cbn [mbind option_bind]. destruct (stops r).
    + exists EG1, ht1, bs1, all1. split_and!; try done.
      rewrite <- (take_drop n all1), entries_app, Een, (strip_entries _ _ Et), reverse_app, entries_reverse.
      rewrite reverse_involutive, <- app_assoc. by destruct (removes r).
    + specialize (IH s1 EG1 ht1 bs1 all1 Hlaid1). rewrite Hlen in IH.
      assert (strip <$> reverse (take n all1) = strip <$> reverse (take n all)) as Er
        by (by rewrite !fmap_reverse, Et).
      rewrite (apply_spec_strip s1 _ _ Er) in IH.
      destruct (apply_spec s1 (reverse (take n all))) as [[s2 m] d].
      destruct IH as (EG2 & ht2 & bs2 & all2 & -> & Hlaid2 & Een2 & Hd2 & Hp2); [lia|].
      exists EG2, ht2, bs2, all2. split_and!; try done; [| |by apply (same_kind_trans _ ht1)].
      * rewrite Een2, Een, reverse_app, <- app_assoc. by destruct (removes r).
      * rewrite Hd2, Hd1, <- app_assoc, handed_app. unfold handed. by rewrite (proj1 Hp1).
  - rewrite (apply_one_dead s EG ht bs all n b Hlaid Hb Hl). cbn [mbind option_bind].
    specialize (IH s EG ht bs all Hlaid).
    destruct (apply_spec s (reverse (take n all))) as [[s2 m] d].
    destruct IH as (EG2 & ht2 & bs2 & all2 & -> & Hlaid2 & Een2 & Hd2 & Hp2); [lia|].
    exists EG2, ht2, bs2, all2. split_and!; try done.
    by rewrite Een2, (drop_S _ _ _ Hb), entries_cons, Hl.
Qed.

Lemma reverse_apply_folds s EG ht bs : wf ht bs ->
  let '(s', m, d) := apply_spec s (reverse bs) in
  exists EG' ht' bs', zend_hash_reverse_apply f s EG ht = Some (s', EG', ht') /\ wf ht' bs' /\
    entries bs' = reverse m /\ destroyed EG' = destroyed EG ++ handed ht d /\ same_kind ht ht'.
Proof using f_live.
  intros Hwf. pose proof (reverse_loop_spec (length bs) s EG ht bs bs (laid_wf _ _ Hwf)) as H.
  rewrite take_ge, drop_ge in H by done. unfold zend_hash_reverse_apply.
  rewrite (wf_used _ _ Hwf), Nat2Z.id. destruct (apply_spec s (reverse bs)) as [[s' m] d].
  destruct H as (EG' & ht' & bs' & all' & H1 & H2 & H3 & H4 & H5); [done|].
  exists EG', ht', bs'. rewrite (laid_entries _ _ _ H2). split_and!; try done.
  - by destruct H2 as (? & ? & Hwf' & _).
  - rewrite H3. cbn. by rewrite app_nil_r.
Qed.

(** C37: [zend_hash_apply] is a fold of the callback over the elements in order: each gets its new
    value, those for which the callback says so are removed and destroyed, and the run ends where the
    callback says so; [zend_hash_reverse_apply] is the same fold from the last element to the first.
    The callback has a state of its own, is a function of it, the element and its key, and does not make
    the element undefined or change the table itself. *)
Theorem zend_hash_apply_folds s EG ht bs : wf ht bs ->
  (let '(s', m, d) := apply_spec s bs in
   exists EG' ht' bs', zend_hash_apply f s EG ht = Some (s', EG', ht') /\ wf ht' bs' /\
     entries bs' = m /\ destroyed EG' = destroyed EG ++ handed ht d /\ same_kind ht ht') /\
  (let '(s', m, d) := apply_spec s (reverse bs) in
   exists EG' ht' bs', zend_hash_reverse_apply f s EG ht = Some (s', EG', ht') /\ wf ht' bs' /\
     entries bs' = reverse m /\ destroyed EG' = destroyed EG ++ handed ht d /\ same_kind ht ht').
Proof using f_live. intros Hwf. split; [by apply apply_folds|by apply reverse_apply_folds]. Qed.

End Callback.
End Apply.

(** ** The graceful destructors *)
Section Graceful.
Context {V : Type}.
Implicit Types (b p : Bucket V) (bs : list (Bucket V)) (ht : HashTable V) (EG : executor_globals V).

(** The callback that removes every element. *)
Definition remove_all (s : unit) (z : zval V) (k : Z * option zend_string) : unit * zval V * Z :=
  (s, z, ZEND_HASH_APPLY_REMOVE).

Lemma aset_same {A} (l : list A) i x : aget l i = Some x -> aset l i x = Some l.
Proof.
  intros H. pose proof (aget_Some _ _ _ H) as Hr. unfold aget, aset in *.
  rewrite (proj2 (in_range_iff _ _ _) Hr). rewrite (proj2 (Z.leb_le _ _)) in H by lia.
  f_equal. by apply list_insert_id.
Qed.

Lemma set_bucket_same (ar : list (option (Bucket V))) i p : bucket ar i = Some p ->
  set_bucket ar i p = Some ar.
Proof.
  unfold bucket, set_bucket. destruct (aget ar i) as [[q|]|] eqn:E; try done.
  intros [= ->]. by apply aset_same.
Qed.

Lemma graceful_one_apply EG ht i :
  graceful_one EG ht i = ('(_, EG, ht, _) ← apply_one remove_all tt EG ht i; Some (EG, ht)).
Proof.
  unfold graceful_one, apply_one, remove_all. destruct (bucket (arData ht) i) as [p|] eqn:Hb; [|done].
  cbn [mbind option_bind]. destruct (Z_ISUNDEF (val p)); [done|].
  replace {| p with val := val p |} with p by (by destruct p).
  rewrite (set_bucket_same _ _ _ Hb). cbn [mbind option_bind].
  replace {| ht with arData := arData ht |} with ht by (by destruct ht).
  change (negb (Z.land ZEND_HASH_APPLY_REMOVE ZEND_HASH_APPLY_REMOVE =? 0)) with true. cbv iota.
  destruct (_zend_hash_del_el EG ht i) as [[EG1 ht1]|]; done.
Qed.

Lemma remove_never_stops s EG ht i r : apply_one remove_all s EG ht i = Some r -> r.2 = false.
Proof.
  unfold apply_one, remove_all. destruct (bucket (arData ht) i) as [p|]; [|done].
  cbn [mbind option_bind]. destruct (Z_ISUNDEF (val p)); [by intros [= <-]|].
  destruct (set_bucket _ _ _) as [ar|]; [|done]. cbn [mbind option_bind].
  change (negb (Z.land ZEND_HASH_APPLY_REMOVE ZEND_HASH_APPLY_REMOVE =? 0)) with true. cbv iota.
  destruct (_zend_hash_del_el EG _ i) as [[EG1 ht1]|]; [by intros [= <-]|done].
Qed.

Lemma graceful_loop_apply n : forall EG ht i,
  graceful_loop n EG ht i = ('(_, EG, ht) ← apply_loop remove_all n tt EG ht i; Some (EG, ht)).
Proof.
  induction n as [|n IH]; intros EG ht i; cbn [graceful_loop apply_loop];
    destruct (nNumUsed ht <=? i); try done.
  rewrite graceful_one_apply. destruct (apply_one remove_all tt EG ht i) as [[[[[] EG1] ht1] stop]|] eqn:E;
    [|done].
  apply remove_never_stops in E. cbn in E. subst. cbn [mbind option_bind]. apply IH.
Qed.

Lemma graceful_reverse_apply n : forall EG ht,
  graceful_reverse_loop n EG ht
  = ('(_, EG, ht) ← reverse_apply_loop remove_all n tt EG ht; Some (EG, ht)).
Proof.
  induction n as [|n IH]; intros EG ht; cbn [graceful_reverse_loop reverse_apply_loop]; [done|].
  rewrite graceful_one_apply. destruct (apply_one remove_all tt EG ht (Z.of_nat n))
    as [[[[[] EG1] ht1] stop]|] eqn:E; [|done].
  apply remove_never_stops in E. cbn in E. subst. cbn [mbind option_bind]. apply IH.
Qed.

Lemma remove_all_spec bs : apply_spec remove_all tt bs = (tt, [], (entries bs).*2).
Proof.
  induction bs as [|b bs IH]; [done|]. cbn [apply_spec remove_all]. rewrite entries_cons.
  destruct (live b); [|done]. cbn [removes stops]. 
  change (removes ZEND_HASH_APPLY_REMOVE) with true. change (stops ZEND_HASH_APPLY_REMOVE) with false.
  cbv iota. by rewrite IH.
Qed.

Lemma graceful_destroys EG ht bs : wf ht bs ->
  (exists EG', zend_hash_graceful_destroy EG ht = Some (EG', negb (HASH_FLAG_UNINITIALIZED ht)) /\
     destroyed EG' = destroyed EG ++ handed ht (entries bs).*2) /\
  (exists EG', zend_hash_graceful_reverse_destroy EG ht = Some (EG', negb (HASH_FLAG_UNINITIALIZED ht)) /\
     destroyed EG' = destroyed EG ++ handed ht (reverse (entries bs).*2)).
Proof.
  intros Hwf. split.
  - pose proof (apply_folds remove_all (fun _ _ _ H => H) tt EG ht bs Hwf) as H.
    rewrite remove_all_spec in H. destruct H as (EG' & ht' & bs' & H1 & H2 & H3 & H4 & _ & H5).
    unfold zend_hash_graceful_destroy. rewrite graceful_loop_apply.
    unfold zend_hash_apply in H1. rewrite H1. cbn [mbind option_bind]. exists EG'.
    by rewrite H5.
  - pose proof (reverse_apply_folds remove_all (fun _ _ _ H => H) tt EG ht bs Hwf) as H.
    rewrite remove_all_spec, entries_reverse, fmap_reverse in H.
    destruct H as (EG' & ht' & bs' & H1 & H2 & H3 & H4 & _ & H5).
    unfold zend_hash_graceful_reverse_destroy. rewrite graceful_reverse_apply.
    unfold zend_hash_reverse_apply in H1. rewrite H1. cbn [mbind option_bind]. exists EG'.
    by rewrite H5.
Qed.

(** the graceful destructors delete the elements one by one, first to last or last to first: each
    value goes to the destructor once, and the table is empty when its block is freed. *)
Theorem zend_hash_graceful_destroys EG ht bs : wf ht bs ->
  (exists EG', zend_hash_graceful_destroy EG ht = Some (EG', negb (HASH_FLAG_UNINITIALIZED ht)) /\
     destroyed EG' = destroyed EG ++ handed ht (entries bs).*2) /\
  (exists EG', zend_hash_graceful_reverse_destroy EG ht = Some (EG', negb (HASH_FLAG_UNINITIALIZED ht)) /\
     destroyed EG' = destroyed EG ++ handed ht (reverse (entries bs).*2)).
Proof. apply graceful_destroys. Qed.
End Graceful.

(** ** Witnesses *)

(** A callback that adds up the values, doubles them, removes those above 101, and stops once the
    sum is 300 or more. *)
Definition ex_callback (s : Z) (z : zval Z) (k : Z * option zend_string) : Z * zval Z * Z :=
  match z with
  | IS_VAL v =>
      (s + v, IS_VAL (2 * v),
       (if 101 <? v then ZEND_HASH_APPLY_REMOVE else ZEND_HASH_APPLY_KEEP)
       + (if 300 <=? s + v then ZEND_HASH_APPLY_STOP else 0))
  | _ => (s, z, ZEND_HASH_APPLY_KEEP)
  end.

Lemma ex_callback_live s z k : Z_ISUNDEF z = false -> Z_ISUNDEF (ex_callback s z k).1.2 = false.
Proof. by destruct z. Qed.

Lemma zend_hash_apply_folds_witness :
  (let '(s', m, d) := apply_spec ex_callback 0 ex_buckets in
   exists EG' ht' bs', zend_hash_apply ex_callback 0 ex_globals ex_table = Some (s', EG', ht') /\
     wf ht' bs' /\ entries bs' = m /\ destroyed EG' = destroyed ex_globals ++ handed ex_table d /\
     same_kind ex_table ht') /\
  (let '(s', m, d) := apply_spec ex_callback 0 (reverse ex_buckets) in
   exists EG' ht' bs', zend_hash_reverse_apply ex_callback 0 ex_globals ex_table = Some (s', EG', ht') /\
     wf ht' bs' /\ entries bs' = reverse m /\
     destroyed EG' = destroyed ex_globals ++ handed ex_table d /\ same_kind ex_table ht').
Proof. exact (zend_hash_apply_folds ex_callback ex_callback_live 0 ex_globals ex_table ex_buckets ex_wf). Defined.

Lemma zend_hash_graceful_destroys_witness :
  (exists EG', zend_hash_graceful_destroy ex_globals ex_table
                 = Some (EG', negb (HASH_FLAG_UNINITIALIZED ex_table)) /\
     destroyed EG' = destroyed ex_globals ++ handed ex_table (entries ex_buckets).*2) /\
  (exists EG', zend_hash_graceful_reverse_destroy ex_globals ex_table
                 = Some (EG', negb (HASH_FLAG_UNINITIALIZED ex_table)) /\
     destroyed EG' = destroyed ex_globals ++ handed ex_table (reverse (entries ex_buckets).*2)).
Proof. exact (zend_hash_graceful_destroys ex_globals ex_table ex_buckets ex_wf). Defined.
