(* ===== verification/ZendHashCopy.v ===== *)
(** * The engine's hash table: copying and merging

    [zend_hash_copy] and [zend_hash_merge] are folds of insertion over the elements of the source,
    whatever the layouts of the two tables and however often the target grows on the way. *)
From S2P Require Import Prelude ZendString ZendHash OrderedMap ZendHashInv ZendHashRehash ZendHashUpdate ZendHashDelete ZendHashMap ZendHashOps ZendHashApply.

Section Copy.
Context {V : Type}.
Implicit Types (b p : Bucket V) (bs : list (Bucket V)) (ht : HashTable V) (EG : executor_globals V)
  (z : zval V) (m : list (hkey * zval V)).

(** ** The specification *)

(** What a bucket contributes: its value, or that of the variable it points to; nothing when that is
    undefined.  The outer [None] is a dangling pointer. *)
Definition source_value EG z : option (option (zval V)) :=
  match z with
  | IS_UNDEF => Some None
  | IS_INDIRECT s =>
      match slots EG !! s with Some IS_UNDEF => Some None | Some z => Some (Some z) | None => None end
  | IS_VAL _ => Some (Some z)
  end.

Definition source_values EG bs : list (hkey * zval V) :=
  omap (fun b => match source_value EG (val b) with Some (Some z) => Some (bkey b, z) | _ => None end) bs.

Definition copied m (src : list (hkey * zval V)) : list (hkey * zval V) :=
  foldl (fun m e => om_insert e.1 e.2 m) m src.

Definition merged (overwrite : bool) m (src : list (hkey * zval V)) : list (hkey * zval V) :=
  foldl (fun m e => if overwrite then om_insert e.1 e.2 m
                    else match om_lookup e.1 m with Some _ => m | None => om_insert e.1 e.2 m end) m src.

(** No element is a pointer to a variable. *)
Definition plain z : Prop := match z with IS_INDIRECT _ => False | _ => True end.

(** Every variable a bucket points to exists and holds no pointer itself. *)
Definition sound EG bs : Prop :=
  Forall (fun b => match val b with
                   | IS_INDIRECT s => exists z, slots EG !! s = Some z /\ plain z
                   | _ => True
                   end) bs.

(** A copy constructor that takes a reference, and so leaves the value as it is. *)
Definition takes_reference (ctor : option (zval V -> zval V)) : Prop :=
  match ctor with Some f => forall z, f z = z | None => True end.

(** ** One element *)
Lemma zwrite_same EG ht r z : zread EG ht r = Some z -> zwrite EG ht r z = Some (EG, ht).
Proof.
  destruct r as [i|s]; cbn.
  - destruct (bucket (arData ht) i) as [p|] eqn:E; [|done]. intros [= <-]. cbn [mbind option_bind].
    replace {| p with val := val p |} with p by (by destruct p).
    rewrite (set_bucket_same _ _ _ E). cbn. by destruct ht.
  - intros E. rewrite insert_id by done. by destruct EG.
Qed.

Lemma construct_same ctor EG ht r z : takes_reference ctor -> zread EG ht r = Some z ->
  copy_construct ctor EG ht (Some r) = Some (EG, ht).
Proof.
  intros Hc Hr. destruct ctor as [f|]; [|done]. cbn. rewrite Hr. cbn. rewrite Hc. by apply zwrite_same.
Qed.

(** A target after [n] insertions that stands for [m]. *)
Definition target_ok (n : Z) EG ht m : Prop :=
  exists bs, wf ht bs /\ capped n ht /\ entries bs = m.

Lemma construct_inserted ctor n EG ht bs k z r : takes_reference ctor -> wf ht bs -> capped n ht ->
  inserted EG ht bs k z r ->
  exists EG' ht' ref, r = Some (EG', ht', ref) /\ copy_construct ctor EG' ht' ref = Some (EG', ht') /\
    slots EG' = slots EG /\ target_ok (n + 1) EG' ht' (om_insert k z (entries bs)).
Proof.
  intros Hc Hwf Hcap (EG' & ht' & bs' & ref & -> & Hwf' & Hen & Hr & Hs & _ & _ & Hg).
  exists EG', ht', (Some ref). split; [done|]. split; [by apply construct_same with z|].
  split; [done|]. exists bs'. split; [done|]. split; [by apply Hg|done].
Qed.

Lemma construct_rejected ctor EG ht : copy_construct ctor EG ht None = Some (EG, ht).
Proof. by destruct ctor. Qed.

(** A string key into a table whose elements are plain: the flag [HASH_UPDATE_INDIRECT] is moot. *)
Lemma merge_string EG ht bs k z (overwrite : bool) : wf ht bs -> nTableSize ht <= 2 ^ 29 ->
  Z_ISUNDEF z = false -> Forall (fun e => plain e.2) (entries bs) ->
  let r := _zend_hash_add_or_update_i EG ht k z
             (Z.lor (if overwrite then HASH_UPDATE else HASH_ADD) HASH_UPDATE_INDIRECT) in
  if overwrite then inserted EG ht bs (KStr (ZSTR_VAL k)) z r
  else match om_lookup (KStr (ZSTR_VAL k)) (entries bs) with
       | Some _ => rejected EG ht r
       | None => inserted EG ht bs (KStr (ZSTR_VAL k)) z r
       end.
Proof.
  intros Hwf Hsz Hz Hpl r. destruct (key_cases _ _ (KStr (ZSTR_VAL k)) Hwf) as [(bs1 & b & bs2 & Hh)|Hk].
  - unfold r. rewrite (string_found k z _ EG ht bs bs1 b bs2 Hwf Hh) by (by destruct overwrite).
    pose proof Hh as (E & _). rewrite (holds_entries _ _ _ _ _ Hh) in Hpl |- *.
    rewrite om_lookup_middle by apply Hh. apply Forall_app in Hpl as [_ [Hb _]%Forall_cons]. cbn in Hb.
    unfold found_bucket. cbn [zread].
    rewrite (wf_bucket _ _ _ b Hwf) by (rewrite E; by apply list_lookup_middle).
    cbn [fmap option_fmap option_map mbind option_bind]. destruct (val b) eqn:Ev; try done.
    all: destruct overwrite; [|done].
    all: by apply replaced_inserted with b bs2.
  - pose proof (string_fresh k z (Z.lor (if overwrite then HASH_UPDATE else HASH_ADD) HASH_UPDATE_INDIRECT)
      Hz EG ht bs Hwf Hsz Hk) as H.
    destruct overwrite; [done|]. by rewrite (proj2 (om_lookup_None _ _) Hk).
Qed.

(** ** The loops *)
Section Loops.
Context (ctor : option (zval V -> zval V)) (source : HashTable V) (EG0 : executor_globals V).
Hypothesis Hctor : takes_reference ctor.

Lemma source_value_spec EG b : slots EG = slots EG0 ->
  match val b with IS_INDIRECT s => exists z, slots EG0 !! s = Some z /\ plain z | _ => True end ->
  exists z, deref EG (val b) = Some z /\
    source_value EG0 (val b) = Some (if Z_ISUNDEF z then None else Some z) /\
    (Z_ISUNDEF (val b) = true -> z = IS_UNDEF) /\ plain z.
Proof using.
  intros Hs Hb. unfold deref, source_value. rewrite Hs. destruct (val b) as [|s|v].
  - by exists IS_UNDEF.
  - destruct Hb as (z & -> & Hp). exists z. split_and!; try done. by destruct z.
  - by exists (IS_VAL v).
Qed.

(** The bucket at [idx + j] is the [j]th of [todo]. *)
Definition cells_at (idx : Z) (todo : list (Bucket V)) : Prop :=
  forall j b, todo !! j = Some b -> bucket (arData source) (idx + Z.of_nat j) = Some b.

Lemma cells_at_cons idx b todo : cells_at idx (b :: todo) ->
  bucket (arData source) idx = Some b /\ cells_at (idx + 1) todo.
Proof using.
  intros H. split; [rewrite <- (H 0%nat b eq_refl); f_equal; lia|].
  intros j bj Hj. rewrite <- (H (S j) bj Hj). f_equal. lia.
Qed.

Definition words (todo : list (Bucket V)) : Prop :=
  Forall (fun b => live b = true -> key b = None -> is_u64 (h b)) todo.

Lemma target_mono n n' EG ht m : n <= n' -> target_ok n EG ht m -> target_ok n' EG ht m.
Proof using. intros Hn (bs & H1 & H2 & H3). exists bs. split_and!; [done|by apply (capped_le n)|done]. Qed.

Lemma copy_loop_ok todo : forall idx EG target n m,
  cells_at idx todo -> sound EG0 todo -> words todo -> slots EG = slots EG0 ->
  target_ok n EG target m -> 0 <= n -> n + Z.of_nat (length todo) <= 2 ^ 26 ->
  exists EG' target', copy_loop (length todo) ctor EG target source idx = Some (EG', target') /\
    target_ok (n + Z.of_nat (length todo)) EG' target' (copied m (source_values EG0 todo)).
Proof using Hctor.
  induction todo as [|b todo IH]; intros idx EG target n m Hcells Hsound Hw Hs Ht H0 Hn.
  { exists EG, target. rewrite Z.add_0_r. done. }
  destruct (cells_at_cons _ _ _ Hcells) as [Hb Hcells']. apply Forall_cons in Hsound as [Hsb Hsound].
  apply Forall_cons in Hw as [Hwb Hw]. cbn [length copy_loop] in *. rewrite Hb. cbn [mbind option_bind].
  destruct (source_value_spec EG b Hs Hsb) as (z & Hz & Hsv & Hu & _).
  assert (Z_ISUNDEF z = true -> exists EG' target',
    copy_loop (length todo) ctor EG target source (idx + 1) = Some (EG', target') /\
    target_ok (n + Z.of_nat (S (length todo))) EG' target' (copied m (source_values EG0 (b :: todo)))) as Hskip.
  { intros Ez'. destruct (IH (idx + 1) EG target n m) as (EG' & t' & E & Ht'); try done; [lia|].
    exists EG', t'. split; [done|]. cbn [source_values omap list_omap]. rewrite Hsv, Ez'.
    apply (target_mono (n + Z.of_nat (length todo))); [lia|done]. }
  destruct (Z_ISUNDEF (val b)) eqn:Eb; [apply Hskip; by rewrite (Hu eq_refl)|].
  rewrite Hz. cbn [mbind option_bind]. destruct (Z_ISUNDEF z) eqn:Ez; [by apply Hskip|]. clear Hskip.
  destruct Ht as (bs & Hwf & Hcap & <-).
  assert (nTableSize target <= 2 ^ 29) as Hsz by (apply (capped_size n); [done|lia]).
  set (r := match key b with Some k => _ | None => _ end).
  assert (inserted EG target bs (bkey b) z r) as Hins.
  { unfold r, bkey. destruct (key b); [by apply update_inserted|]. apply index_update_inserted; try done. apply Hwb; [|done].
    unfold live. by rewrite Eb. }
  destruct (construct_inserted ctor n _ _ _ _ _ _ Hctor Hwf Hcap Hins) as (EG1 & t1 & ref & -> & Hc & Hs1 & Ht1).
  cbn [mbind option_bind]. rewrite Hc. cbn [mbind option_bind].
  destruct (IH (idx + 1) EG1 t1 (n + 1) _ Hcells' Hsound Hw ltac:(congruence) Ht1) as (EG' & t' & E & Ht'); [lia|lia|].
  exists EG', t'. split; [done|]. cbn [source_values omap list_omap]. rewrite Hsv. cbn [copied foldl fst snd].
  by replace (n + Z.of_nat (S (length todo))) with (n + 1 + Z.of_nat (length todo)) by lia.
Qed.

Lemma plain_insert k z m : plain z -> Forall (fun e => plain e.2) m -> Forall (fun e => plain e.2) (om_insert k z m).
Proof using.
  intros Hz. induction 1 as [|[k' z'] m Hp Hm IH]; cbn; [by repeat constructor|].
  destruct (decide (k = k')); by constructor.
Qed.

Lemma merge_loop_ok todo (overwrite : bool) : forall idx EG target n m,
  cells_at idx todo -> sound EG0 todo -> words todo -> slots EG = slots EG0 ->
  target_ok n EG target m -> Forall (fun e => plain e.2) m -> 0 <= n ->
  n + Z.of_nat (length todo) <= 2 ^ 26 ->
  exists EG' target', merge_loop (length todo) ctor EG target source overwrite idx = Some (EG', target') /\
    target_ok (n + Z.of_nat (length todo)) EG' target' (merged overwrite m (source_values EG0 todo)).
Proof using Hctor.
  induction todo as [|b todo IH]; intros idx EG target n m Hcells Hsound Hw Hs Ht Hpl H0 Hn.
  { exists EG, target. rewrite Z.add_0_r. done. }
  destruct (cells_at_cons _ _ _ Hcells) as [Hb Hcells']. apply Forall_cons in Hsound as [Hsb Hsound].
  apply Forall_cons in Hw as [Hwb Hw]. cbn [length merge_loop] in *. rewrite Hb. cbn [mbind option_bind].
  destruct (source_value_spec EG b Hs Hsb) as (z & Hz & Hsv & Hu & Hpz).
  rewrite Hz. cbn [mbind option_bind source_values omap list_omap]. rewrite Hsv.
  destruct (Z_ISUNDEF z) eqn:Ez.
  { destruct (IH (idx + 1) EG target n m) as (EG' & t' & E & Ht'); try done; [lia|].
    exists EG', t'. split; [done|]. apply (target_mono (n + Z.of_nat (length todo))); [lia|done]. }
  destruct Ht as (bs & Hwf & Hcap & <-).
  assert (nTableSize target <= 2 ^ 29) as Hsz by (apply (capped_size n); [done|lia]).
  set (r := match key b with Some k => _ | None => _ end).
  assert (if overwrite then inserted EG target bs (bkey b) z r
          else match om_lookup (bkey b) (entries bs) with
               | Some _ => rejected EG target r | None => inserted EG target bs (bkey b) z r end) as Hr.
  { unfold r, bkey. destruct (key b) as [k|]; [by apply (merge_string EG target bs k z overwrite)|].
    destruct overwrite; [apply index_update_inserted|apply index_add_inserted_or_refused]; try done;
      apply Hwb; try done; unfold live; destruct (val b); try done; by rewrite Hu in Ez. }
  destruct (decide (overwrite = false /\ is_Some (om_lookup (bkey b) (entries bs)))) as [[Ho [v Hv]]|Hno].
  - subst overwrite. rewrite Hv in Hr. rewrite Hr. cbn [mbind option_bind].
    rewrite construct_rejected. cbn [mbind option_bind merged foldl fst snd]. rewrite Hv.
    destruct (IH (idx + 1) EG target n (entries bs)) as (EG' & t' & E & Ht'); try done; [by exists bs|lia|].
    exists EG', t'. split; [done|]. apply (target_mono (n + Z.of_nat (length todo))); [lia|done].
  - assert (inserted EG target bs (bkey b) z r) as Hins.
    { destruct overwrite; [done|]. destruct (om_lookup _ _) eqn:E; [|done]. destruct Hno. by eauto. }
    destruct (construct_inserted ctor n _ _ _ _ _ _ Hctor Hwf Hcap Hins) as (EG1 & t1 & ref & -> & Hc & Hs1 & Ht1).
    cbn [mbind option_bind]. rewrite Hc. cbn [mbind option_bind].
    destruct (IH (idx + 1) EG1 t1 (n + 1) _ Hcells' Hsound Hw ltac:(congruence) Ht1) as (EG' & t' & E & Ht');
      [by apply plain_insert|lia|lia|].
    exists EG', t'. split; [done|]. cbn [merged foldl fst snd].
    replace (n + Z.of_nat (S (length todo))) with (n + 1 + Z.of_nat (length todo)) by lia.
    destruct overwrite; [done|]. destruct (om_lookup (bkey b) (entries bs)) eqn:E'; [|done].
    destruct Hno. by eauto.
Qed.
End Loops.

Lemma wf_words ht bs : wf ht bs -> words bs.
Proof.
  intros Hwf. unfold words. apply (Forall_impl (bucket_ok (nNextFreeElement ht))); [apply (wf_buckets _ _ Hwf)|].
  intros b Hb Hl _. apply (Hb Hl).
Qed.

(** [zend_hash_copy] and [zend_hash_merge] insert the elements of the source, in its order, into
    the target: a variable behind a pointer counts as its value, undefined values are left out, and
    without [overwrite] a key of the target keeps its value.  The target stays well formed. *)
Theorem zend_hash_copy_merge_fold ctor EG target source bt bs n (overwrite : bool) :
  takes_reference ctor -> wf target bt -> wf source bs -> sound EG bs ->
  capped n target -> 0 <= n -> n + Z.of_nat (length bs) <= 2 ^ 26 ->
  (exists EG' target' bt', zend_hash_copy EG target source ctor = Some (EG', target') /\
     wf target' bt' /\ entries bt' = copied (entries bt) (source_values EG bs)) /\
  (Forall (fun e => plain e.2) (entries bt) ->
   exists EG' target' bt', zend_hash_merge EG target source ctor overwrite = Some (EG', target') /\
     wf target' bt' /\ entries bt' = merged overwrite (entries bt) (source_values EG bs)).
Proof.
  intros Hc Ht Hs Hsound Hcap H0 Hn.
  assert (cells_at source 0 bs) as Hcells by (intros j b Hj; by apply (wf_bucket _ _ _ _ Hs)).
  assert (target_ok n EG target (entries bt)) as Hok by (by exists bt).
  unfold zend_hash_copy, zend_hash_merge. rewrite (wf_used _ _ Hs), Nat2Z.id. split; [|intros Hpl].
  - destruct (copy_loop_ok ctor source EG Hc bs 0 EG target n (entries bt)) as (EG' & t' & E & bt' & H1 & _ & H2);
      try done; [|by exists EG', t', bt'].
    by apply (wf_words source).
  - destruct (merge_loop_ok ctor source EG Hc bs overwrite 0 EG target n (entries bt))
      as (EG' & t' & E & bt' & H1 & _ & H2); try done; [|by exists EG', t', bt'].
    by apply (wf_words source).
Qed.
End Copy.

Lemma zend_hash_copy_merge_fold_witness :
  (exists EG' target' bt', zend_hash_copy ex_globals ex_table ex_table None = Some (EG', target') /\
     wf target' bt' /\ entries bt' = copied (entries ex_buckets) (source_values ex_globals ex_buckets)) /\
  (Forall (fun e => plain e.2) (entries ex_buckets) ->
   exists EG' target' bt', zend_hash_merge ex_globals ex_table ex_table None true = Some (EG', target') /\
     wf target' bt' /\ entries bt' = merged true (entries ex_buckets) (source_values ex_globals ex_buckets)).
Proof.
  apply (zend_hash_copy_merge_fold None ex_globals ex_table ex_table ex_buckets ex_buckets 3 true).
  - exact I.
  - exact ex_wf.
  - exact ex_wf.
  - repeat constructor.
  - split; [discriminate|]. destruct (mixed_dec ex_table); vm_compute; discriminate.
  - discriminate.
  - vm_compute. discriminate.
Defined.
