(* ===== verification/ZendHashDup.v ===== *)
(** * The engine's hash table: separating an array

    [zend_array_dup] makes the copy of an array that is about to be written to while others still use it.
    It does not insert the elements one by one: the copy gets a block of the same size, elements are put in
    their cells, and only behind the first hole they move up.  The copy is shown to be a well-formed table
    with the elements of the source, each variable behind a pointer taken as its value, and with the internal
    pointer on the same element. *)
From S2P Require Import Prelude ZendString ZendHash OrderedMap ZendHashInv ZendHashRehash ZendHashUpdate ZendHashDelete ZendHashMap ZendHashOps ZendHashApply ZendHashCopy.

Section Dup.
Context {V : Type}.
Implicit Types (b p : Bucket V) (bs : list (Bucket V)) (ar : list (option (Bucket V)))
  (ht source target : HashTable V) (EG : executor_globals V) (z : zval V).

(** What the code reads of a value: the reference count of a reference and the value behind it, and the
    address of an array. *)
Variable Z_REF : V -> option (Z * V).
Variable Z_ARRVAL : V -> option Z.

(** ** The code *)

(** A reference that nothing else holds is copied as the value behind it, unless that is the source
    itself.  Reference counts are not modelled here. *)
Definition dup_value source (v : V) : V :=
  match Z_REF v with
  | Some (refcount, w) =>
      if (refcount =? 1) && negb (match Z_ARRVAL w with Some a => a =? addr source | None => false end)
      then w else v
  | None => v
  end.

Definition dup_zval source z : zval V :=
  match z with IS_VAL v => IS_VAL (dup_value source v) | _ => z end.

Definition is_indirect z : bool := match z with IS_INDIRECT _ => true | _ => false end.

(** The value for the copy; the inner [None] is the result 0 of [zend_array_dup_element]. *)
Definition dup_data EG source (packed with_holes : bool) z : option (option (zval V)) :=
  data ← (if negb packed then deref EG z else Some z);
  Some (if (if with_holes then Z_ISUNDEF data else negb packed && is_indirect z && Z_ISUNDEF data)
        then None else Some (dup_zval source data)).

(** [zend_array_dup_packed_elements], with [n] buckets to go. *)
Fixpoint zend_array_dup_packed_elements (n : nat) EG source ar (with_holes : bool) (i : Z) :
  option (list (option (Bucket V))) :=
  match n with
  | O => Some ar
  | S n =>
      p ← bucket (arData source) i;
      r ← dup_data EG source true with_holes (val p);
      ar ← (match r with
            | Some z => set_bucket ar i {| val := z; Z_NEXT := HT_INVALID_IDX; h := h p; key := None |}
            | None => if with_holes then undef_buckets 1 ar i else Some ar
            end);
      zend_array_dup_packed_elements n EG source ar with_holes (i + 1)
  end.

(** [zend_array_dup_element] for a mixed table: bucket [idx] of the source into bucket [target_idx] of
    the copy.  The last result is that of the function. *)
Definition zend_array_dup_element EG source (with_holes : bool) (hs : list Z) ar (target_idx idx : Z) :
  option (list Z * list (option (Bucket V)) * bool) :=
  p ← bucket (arData source) idx;
  r ← dup_data EG source false with_holes (val p);
  match r with
  | Some z =>
      '(hs, ar) ← link_bucket (nTableMask source) hs ar target_idx
                    {| val := z; Z_NEXT := HT_INVALID_IDX; h := h p; key := key p |};
      Some (hs, ar, true)
  | None => Some (hs, ar, false)
  end.

(** The inner loop, behind the first hole; [ptr] is the internal pointer of the copy. *)
Fixpoint dup_moving (n : nat) EG source (with_holes : bool) (hs : list Z) ar (ptr idx target_idx : Z) :
  option (list Z * list (option (Bucket V)) * Z * Z) :=
  match n with
  | O => Some (hs, ar, ptr, target_idx)
  | S n =>
      '(hs, ar, copied) ← zend_array_dup_element EG source with_holes hs ar target_idx idx;
      if (copied : bool)
      then dup_moving n EG source with_holes hs ar
             (if nInternalPointer source =? idx then target_idx else ptr) (idx + 1) (target_idx + 1)
      else dup_moving n EG source with_holes hs ar ptr (idx + 1) target_idx
  end.

Fixpoint zend_array_dup_elements (n : nat) EG source (with_holes : bool) (hs : list Z) ar (ptr idx : Z) :
  option (list Z * list (option (Bucket V)) * Z * Z) :=
  match n with
  | O => Some (hs, ar, ptr, idx)
  | S n =>
      '(hs, ar, copied) ← zend_array_dup_element EG source with_holes hs ar idx idx;
      if (copied : bool) then zend_array_dup_elements n EG source with_holes hs ar ptr (idx + 1)
      else dup_moving n EG source with_holes hs ar ptr (idx + 1) idx
  end.

Definition valid_pointer ht : Z := if nInternalPointer ht <? nNumUsed ht then nInternalPointer ht else 0.

(** [self] is the address of the copy, [immutable] the flag of the source.  The flags of the source are
    copied and the count of iterators becomes 0. *)
Definition zend_array_dup EG (self : Z) source (immutable : bool) : option (HashTable V) :=
  let target :=
    {| source with addr := self; IS_ARRAY_PERSISTENT := false; pDestructor := true; nIteratorsCount := 0 |} in
  if nNumOfElements source =? 0 then
    Some {| target with HASH_FLAG_PACKED := false; HASH_FLAG_UNINITIALIZED := true;
            HASH_FLAG_STATIC_KEYS := false; HASH_FLAG_HAS_EMPTY_IND := false;
            nTableMask := HT_MIN_MASK; nNumUsed := 0; nNumOfElements := 0; nInternalPointer := 0;
            nTableSize := HT_MIN_SIZE; arHash := [HT_INVALID_IDX; HT_INVALID_IDX]; arData := [] |}
  else if immutable then
    Some {| target with arData := copy_buckets (arData source) (nNumUsed source) (nTableSize source) |}
  else if HASH_FLAG_PACKED source then
    let target := {| target with nTableMask := HT_MIN_MASK; nInternalPointer := valid_pointer source;
                     arHash := [HT_INVALID_IDX; HT_INVALID_IDX] |} in
    ar ← zend_array_dup_packed_elements (Z.to_nat (nNumUsed source)) EG source
           (fresh_buckets (nTableSize target)) (negb (HT_IS_WITHOUT_HOLES target)) 0;
    Some {| target with arData := ar |}
  else
    '(hs, ar, ptr, idx) ← zend_array_dup_elements (Z.to_nat (nNumUsed source)) EG source
       (negb (HT_IS_WITHOUT_HOLES source)) (reset_heads (nTableMask source))
       (fresh_buckets (nTableSize source)) (valid_pointer source) 0;
    Some {| target with arHash := hs; arData := ar; nInternalPointer := ptr; nNumUsed := idx;
            nNumOfElements := idx |}.

(** ** The elements of the copy *)

(** What a bucket of the source becomes. *)
Definition dup_strip EG source b : option (zval V * Z * option zend_string) :=
  match source_value EG (val b) with
  | Some (Some z) => Some (dup_zval source z, h b, key b)
  | _ => None
  end.

Definition dup_strips EG source bs : list (zval V * Z * option zend_string) := omap (dup_strip EG source) bs.

Lemma dup_strips_cons EG source b bs : dup_strips EG source (b :: bs) =
  match dup_strip EG source b with
  | Some s => s :: dup_strips EG source bs | None => dup_strips EG source bs
  end.
Proof. done. Qed.

Definition dup_entries EG source bs : list (hkey * zval V) :=
  (fun e => (e.1, dup_zval source e.2)) <$> source_values EG bs.

Section Copying.
Context (EG : executor_globals V) (source : HashTable V).

Definition sound_bucket b : Prop :=
  match val b with IS_INDIRECT s => exists z, slots EG !! s = Some z /\ plain z | _ => True end.

(** What the code makes of a bucket that points, if at all, to a plain variable. *)
Lemma dup_strip_cases b : sound_bucket b ->
  match dup_strip EG source b with
  | Some s => live b = true /\ s.1.2 = h b /\ s.2 = key b /\ Z_ISUNDEF s.1.1 = false /\
      forall wh, dup_data EG source false wh (val b) = Some (Some s.1.1)
  | None => dup_data EG source false true (val b) = Some None /\
      (live b = true -> dup_data EG source false false (val b) = Some None)
  end.
Proof.
  intros Hb. unfold dup_strip, source_value, dup_data, live. red in Hb. destruct (val b) as [|s|v]; cbn.
  - done.
  - destruct Hb as (z & -> & Hp). destruct z; try done. split_and!; try done. by intros [].
  - split_and!; try done. by intros [].
Qed.

Lemma dup_element_ok wh hs fin c rest idx b :
  good_mask (nTableMask source) -> chains (nTableMask source) hs fin -> sound_bucket b ->
  (wh = false -> live b = true) -> bucket (arData source) idx = Some b ->
  match dup_strip EG source b with
  | Some s => exists hs' b', zend_array_dup_element EG source wh hs ((Some <$> fin) ++ c :: rest)
        (Z.of_nat (length fin)) idx = Some (hs', (Some <$> (fin ++ [b'])) ++ rest, true) /\
      chains (nTableMask source) hs' (fin ++ [b']) /\ strip b' = s
  | None => zend_array_dup_element EG source wh hs ((Some <$> fin) ++ c :: rest)
      (Z.of_nat (length fin)) idx = Some (hs, (Some <$> fin) ++ c :: rest, false)
  end.
Proof.
  intros Hm Hc Hs Hwh Hb. pose proof (dup_strip_cases b Hs) as Hd. unfold zend_array_dup_element.
  rewrite Hb. cbn [mbind option_bind]. destruct (dup_strip EG source b) as [s|].
  - destruct Hd as (_ & Eh & Ek & Hl & Hd). rewrite Hd. cbn [mbind option_bind].
    destruct (link_bucket_step (nTableMask source) hs fin c rest
      {| val := s.1.1; Z_NEXT := HT_INVALID_IDX; h := h b; key := key b |} Hm Hc)
      as (hs' & b' & -> & Hc' & Es); [unfold live; cbn; by rewrite Hl|].
    exists hs', b'. split_and!; [done|done|]. rewrite Es. unfold strip. cbn.
    destruct s as [[z x] k]. cbn in *. by subst.
  - assert (dup_data EG source false wh (val b) = Some None) as ->; [|done].
    destruct Hd as [H1 H2]. destruct wh; [done|]. by apply H2, Hwh.
Qed.

(** The pointer of the copy is on the element of that of the source, when this is among [todo]. *)
Definition follows_pointer (fin_len : nat) (idx : Z) (ptr ptr' : Z) (todo : list (Bucket V)) : Prop :=
  (forall j b, todo !! j = Some b -> nInternalPointer source = idx + Z.of_nat j ->
     is_Some (dup_strip EG source b) ->
     ptr' = Z.of_nat (fin_len + length (dup_strips EG source (take j todo)))) /\
  (nInternalPointer source < idx -> ptr' = ptr) /\ (0 <= ptr -> 0 <= ptr').

(** The result of copying [todo] behind [fin]. *)
Definition dupped (fin todo : list (Bucket V)) (rest : list (option (Bucket V))) (idx ptr : Z)
    (r : option (list Z * list (option (Bucket V)) * Z * Z)) : Prop :=
  exists hs' fin' rest' ptr', r = Some (hs', (Some <$> (fin ++ fin')) ++ rest', ptr',
      Z.of_nat (length (fin ++ fin'))) /\
    chains (nTableMask source) hs' (fin ++ fin') /\ strip <$> fin' = dup_strips EG source todo /\
    (length fin' + length rest' = length rest)%nat /\
    follows_pointer (length fin) idx ptr ptr' todo.

Lemma dup_moving_ok wh todo : forall hs fin rest idx ptr,
  good_mask (nTableMask source) -> chains (nTableMask source) hs fin -> Forall sound_bucket todo ->
  (wh = false -> Forall (fun b => live b = true) todo) -> cells_at source idx todo ->
  (length todo <= length rest)%nat ->
  dupped fin todo rest idx ptr
    (dup_moving (length todo) EG source wh hs ((Some <$> fin) ++ rest) ptr idx (Z.of_nat (length fin))).
Proof.
  induction todo as [|b todo IH]; intros hs fin rest idx ptr Hm Hc Hs Hl Hcells Hlen.
  - exists hs, [], rest, ptr. rewrite app_nil_r. by split_and!.
  - apply cells_at_cons in Hcells as [Hb Hcells]. apply Forall_cons in Hs as [Hsb Hs].
    destruct rest as [|c rest]; [cbn in Hlen; lia|]. cbn [length] in Hlen.
    pose proof (dup_element_ok wh hs fin c rest idx b Hm Hc Hsb) as He.
    assert (wh = false -> Forall (fun b => live b = true) todo) as Hl' by (intros E; by apply Forall_cons in Hl as []).
    specialize (He ltac:(intros E; by apply Forall_cons in Hl as []) Hb). cbn [length dup_moving].
    destruct (dup_strip EG source b) as [s|] eqn:Eb.
    + destruct He as (hs1 & b' & -> & Hc1 & Es). cbn [mbind option_bind].
      destruct (IH hs1 (fin ++ [b']) rest (idx + 1)
        (if nInternalPointer source =? idx then Z.of_nat (length fin) else ptr))
        as (hs' & fin' & rest' & ptr' & E & Hc' & Es' & El & Hp1 & Hp2 & Hp3); try done; [lia|].
      rewrite length_app in E, Hp1. cbn [length] in E, Hp1.
      replace (Z.of_nat (length fin) + 1) with (Z.of_nat (length fin + 1)) by lia. rewrite E.
      rewrite <- !app_assoc in *. cbn [app] in *. exists hs', (b' :: fin'), rest', ptr'. split_and!; try done.
      * by rewrite dup_strips_cons, Eb, fmap_cons, Es, Es'.
      * cbn. lia.
      * split; [|split; [intros Hlt; rewrite Hp2 by lia; by rewrite (proj2 (Z.eqb_neq _ _)) by lia
                       |intros; apply Hp3; destruct (nInternalPointer source =? idx); lia]].
        intros [|j] bj Hj Hptr Hd; cbn [take].
        -- rewrite Hp2 by lia. rewrite (proj2 (Z.eqb_eq _ _)) by lia. cbn. lia.
        -- rewrite (Hp1 j bj Hj) by (done || lia). rewrite dup_strips_cons, Eb. cbn. lia.
    + rewrite He. cbn [mbind option_bind].
      destruct (IH hs fin (c :: rest) (idx + 1) ptr) as (hs' & fin' & rest' & ptr' & E & Hc' & Es' & El & Hp1 & Hp2 & Hp3);
        try done; [cbn; lia|]. rewrite E. exists hs', fin', rest', ptr'. split_and!; try done.
      * by rewrite dup_strips_cons, Eb.
      * split; [|split; [intros Hlt; apply Hp2; lia|done]].
        intros [|j] bj Hj Hptr Hd; [injection Hj as ->; rewrite Eb in Hd; by destruct Hd|].
        cbn [take]. rewrite dup_strips_cons, Eb. apply (Hp1 j bj Hj); [lia|done].
Qed.

(** Up to the first hole the elements stay in their cells. *)
Lemma dup_elements_ok wh todo : forall hs fin rest ptr,
  good_mask (nTableMask source) -> chains (nTableMask source) hs fin -> Forall sound_bucket todo ->
  (wh = false -> Forall (fun b => live b = true) todo) -> cells_at source (Z.of_nat (length fin)) todo ->
  (length todo <= length rest)%nat ->
  (Z.of_nat (length fin) <= nInternalPointer source < Z.of_nat (length fin + length todo) ->
   ptr = nInternalPointer source) ->
  dupped fin todo rest (Z.of_nat (length fin)) ptr
    (zend_array_dup_elements (length todo) EG source wh hs ((Some <$> fin) ++ rest) ptr (Z.of_nat (length fin))).
Proof.
  induction todo as [|b todo IH]; intros hs fin rest ptr Hm Hc Hs Hl Hcells Hlen Hptr0.
  - exists hs, [], rest, ptr. rewrite app_nil_r. by split_and!.
  - pose proof Hcells as Hall. apply cells_at_cons in Hcells as [Hb Hcells].
    apply Forall_cons in Hs as [Hsb Hs].
    destruct rest as [|c rest]; [cbn in Hlen; lia|]. cbn [length] in Hlen.
    pose proof (dup_element_ok wh hs fin c rest (Z.of_nat (length fin)) b Hm Hc Hsb) as He.
    assert (wh = false -> Forall (fun b => live b = true) todo) as Hl' by (intros E; by apply Forall_cons in Hl as []).
    specialize (He ltac:(intros E; by apply Forall_cons in Hl as []) Hb). cbn [length zend_array_dup_elements].
    destruct (dup_strip EG source b) as [s|] eqn:Eb.
    + destruct He as (hs1 & b' & -> & Hc1 & Es). cbn [mbind option_bind].
      assert (length (fin ++ [b']) = length fin + 1)%nat as Ef by (rewrite length_app; cbn; lia).
      destruct (IH hs1 (fin ++ [b']) rest ptr) as (hs' & fin' & rest' & ptr' & E & Hc' & Es' & El & Hp1 & Hp2 & Hp3);
        try done; rewrite ?Ef; [by rewrite Nat2Z.inj_add|lia|intros; apply Hptr0; cbn; lia|].
      rewrite Ef in E, Hp1, Hp2.
      replace (Z.of_nat (length fin) + 1) with (Z.of_nat (length fin + 1)) by lia. rewrite E.
      rewrite <- !app_assoc in *. cbn [app] in *. exists hs', (b' :: fin'), rest', ptr'. split_and!; try done.
      * by rewrite dup_strips_cons, Eb, fmap_cons, Es, Es'.
      * cbn. lia.
      * split; [|split; [intros Hlt; apply Hp2; lia|done]].
        intros [|j] bj Hj Hptr Hd; cbn [take].
        -- rewrite Hp2 by lia. cbn. rewrite Hptr0; cbn; lia.
        -- rewrite (Hp1 j bj Hj) by (done || lia). rewrite dup_strips_cons, Eb. cbn. lia.
    + rewrite He. cbn [mbind option_bind].
      destruct (dup_moving_ok wh todo hs fin (c :: rest) (Z.of_nat (length fin) + 1) ptr)
        as (hs' & fin' & rest' & ptr' & E & Hc' & Es' & El & Hp1 & Hp2 & Hp3);
        try done; [cbn; lia|]. rewrite E. exists hs', fin', rest', ptr'. split_and!; try done.
      * by rewrite dup_strips_cons, Eb.
      * split; [|split; [intros Hlt; apply Hp2; lia|done]].
        intros [|j] bj Hj Hptr Hd; [injection Hj as ->; rewrite Eb in Hd; by destruct Hd|].
        cbn [take]. rewrite dup_strips_cons, Eb. apply (Hp1 j bj Hj); [lia|done].
Qed.

(** ** The copy as a table *)
Definition strip_key_of (s : zval V * Z * option zend_string) : hkey :=
  match s.2 with None => KInt s.1.2 | Some k => KStr (ZSTR_VAL k) end.

Lemma dup_strip_key b s : sound_bucket b -> dup_strip EG source b = Some s ->
  strip_key_of s = bkey b /\ live b = true.
Proof.
  intros Hs Hd. pose proof (dup_strip_cases b Hs) as H. rewrite Hd in H.
  destruct H as (Hl & Eh & Ek & _). unfold strip_key_of, bkey. by rewrite Ek, Eh.
Qed.

Lemma dup_entries_cons b bs : dup_entries EG source (b :: bs) =
  match dup_strip EG source b with
  | Some s => (bkey b, s.1.1) :: dup_entries EG source bs | None => dup_entries EG source bs
  end.
Proof.
  unfold dup_entries, dup_strip, source_values. cbn [omap list_omap].
  by destruct (source_value EG (val b)) as [[z|]|].
Qed.

(** The copy holds the elements, and only live buckets. *)
Lemma dup_strips_entries bs : forall bt, sound EG bs -> strip <$> bt = dup_strips EG source bs ->
  entries bt = dup_entries EG source bs /\ Forall (fun b => live b = true) bt.
Proof.
  induction bs as [|b bs IH]; intros bt Hs E.
  - destruct bt; [|done]. by split.
  - apply Forall_cons in Hs as [Hb Hs]. pose proof (dup_strip_cases b Hb) as Hc.
    rewrite dup_entries_cons. rewrite dup_strips_cons in E.
    destruct (dup_strip EG source b) as [s|] eqn:Eb; [|by apply IH].
    destruct bt as [|b' bt]; [done|]. rewrite fmap_cons in E. injection E as E1 E2.
    destruct (IH bt Hs E2) as [E3 Hl]. destruct (dup_strip_key b s Hb Eb) as [Ek _].
    assert (live b' = true) as Hb'.
    { destruct Hc as (_ & _ & _ & Hu & _). unfold live. rewrite <- E1 in Hu. cbn in Hu. by rewrite Hu. }
    rewrite entries_cons, Hb', E3, <- Ek. split; [|by constructor]. by rewrite <- E1.
Qed.

Lemma dup_keys_sub k bs : sound EG bs -> k ∈ (dup_entries EG source bs).*1 -> k ∈ (entries bs).*1.
Proof.
  induction bs as [|b bs IH]; intros Hs; [done|]. apply Forall_cons in Hs as [Hb Hs].
  rewrite dup_entries_cons, entries_cons. destruct (dup_strip EG source b) as [s|] eqn:Eb.
  - destruct (dup_strip_key b s Hb Eb) as [_ ->]. cbn. rewrite !elem_of_cons. naive_solver.
  - intros Hk. specialize (IH Hs Hk). destruct (live b); [|done]. cbn. rewrite elem_of_cons. by right.
Qed.

Lemma dup_keys_NoDup bs : sound EG bs -> NoDup (entries bs).*1 -> NoDup (dup_entries EG source bs).*1.
Proof.
  induction bs as [|b bs IH]; intros Hs Hn; [constructor|]. apply Forall_cons in Hs as [Hb Hs].
  rewrite entries_cons in Hn. rewrite dup_entries_cons.
  destruct (dup_strip EG source b) as [s|] eqn:Eb.
  - destruct (dup_strip_key b s Hb Eb) as [_ Hl]. rewrite Hl in Hn. cbn in Hn |- *.
    apply NoDup_cons in Hn as [Hk Hn]. apply NoDup_cons. split; [|by apply IH].
    intros H. apply Hk. by apply dup_keys_sub.
  - apply IH; [done|]. destruct (live b); [|done]. by apply NoDup_cons in Hn as [].
Qed.

Lemma dup_buckets_ok next bs bt : sound EG bs -> strip <$> bt = dup_strips EG source bs ->
  Forall (bucket_ok next) bs -> Forall (bucket_ok next) bt.
Proof.
  intros Hs E H. rewrite !Forall_forall in *. intros b' Hb'.
  assert (strip b' ∈ dup_strips EG source bs) as Hin by (rewrite <- E; by apply list_elem_of_fmap_2).
  apply list_elem_of_omap in Hin as (b & Hb & Eb). unfold sound in Hs. rewrite Forall_forall in Hs.
  destruct (dup_strip_key b _ (Hs b Hb) Eb) as [Ek Hl]. pose proof (dup_strip_cases b (Hs b Hb)) as Hc.
  rewrite Eb in Hc. destruct Hc as (_ & Eh & Ey & _). cbn in Eh, Ey. intros _.
  destruct (H b Hb Hl) as (H1 & H2 & H3). change (strip_key_of (strip b')) with (bkey b') in Ek.
  by rewrite Eh, Ey, Ek.
Qed.

(** The internal pointer is on the copy of the element it was on. *)
Definition pointer_kept bs target (bt : list (Bucket V)) : Prop :=
  forall i b s, nInternalPointer source = Z.of_nat i -> bs !! i = Some b -> dup_strip EG source b = Some s ->
    exists b', bt !! Z.to_nat (nInternalPointer target) = Some b' /\ strip b' = s.

Definition duplicate (self : Z) bs target : Prop :=
  exists bt, wf target bt /\ entries bt = dup_entries EG source bs /\ pointer_kept bs target bt /\
    addr target = self /\ nNextFreeElement target = nNextFreeElement source /\ nIteratorsCount target = 0.

Lemma dup_strips_app bs1 bs2 :
  dup_strips EG source (bs1 ++ bs2) = dup_strips EG source bs1 ++ dup_strips EG source bs2.
Proof. apply omap_app. Qed.

Lemma dup_strips_length bs : (length (dup_strips EG source bs) <= length bs)%nat.
Proof.
  induction bs as [|b bs IH]; [done|]. rewrite dup_strips_cons. destruct (dup_strip EG source b); cbn; lia.
Qed.

Lemma dup_strips_take bs i b s : bs !! i = Some b -> dup_strip EG source b = Some s ->
  dup_strips EG source bs !! length (dup_strips EG source (take i bs)) = Some s.
Proof.
  intros Hi Hs. pose proof (take_drop_middle bs i b Hi) as E. apply (f_equal (dup_strips EG source)) in E.
  rewrite <- E, dup_strips_app, dup_strips_cons, Hs. by rewrite list_lookup_middle.
Qed.

Lemma valid_pointer_nonneg bs : wf source bs -> 0 <= valid_pointer source.
Proof. intros Hwf. pose proof (wf_pointer _ _ Hwf). unfold valid_pointer. destruct (_ <? _); lia. Qed.

Lemma dup_mixed_ok self bs : wf source bs -> mixed source -> nNumOfElements source <> 0 -> sound EG bs ->
  exists target, zend_array_dup EG self source false = Some target /\ duplicate self bs target.
Proof.
  intros Hwf Hmx Hn Hs. destruct (mixed_layout _ _ Hwf Hmx) as (Hm & Hl). pose proof Hmx as [Hu Hp].
  pose proof (wf_size _ _ Hwf) as Hsz. pose proof (wf_bound _ _ Hwf) as Hb.
  destruct (@reset_heads_chains V _ _ Hsz Hm) as [Hg Hc]. unfold zend_array_dup.
  rewrite (proj2 (Z.eqb_neq _ _) Hn), Hp. cbn [nTableMask nTableSize]. rewrite (wf_used _ _ Hwf), Nat2Z.id.
  destruct (dup_elements_ok (negb (HT_IS_WITHOUT_HOLES source)) bs (reset_heads (nTableMask source)) []
    (fresh_buckets (nTableSize source)) (valid_pointer source)) as (hs & bt & rest & ptr & E & Hc' & Es & El & Hptr);
    try done.
  { intros Hwh. apply all_live. unfold HT_IS_WITHOUT_HOLES in Hwh.
    rewrite (wf_used _ _ Hwf), (wf_elems _ _ Hwf) in Hwh. lia. }
  { intros j b Hj. rewrite Z.add_0_l. by apply (wf_bucket _ _ _ _ Hwf). }
  { unfold fresh_buckets. rewrite length_replicate. lia. }
  { intros Hin. cbn in Hin. unfold valid_pointer. rewrite (wf_used _ _ Hwf).
    by rewrite (proj2 (Z.ltb_lt _ _)) by lia. }
  cbn [app fmap list_fmap length] in E. change (Z.of_nat 0) with 0 in E. rewrite E.
  cbn [mbind option_bind]. eexists. split; [done|]. cbn [app] in *.
  destruct (dup_strips_entries bs bt Hs Es) as [Ee Hlive].
  assert (length bt <= length bs)%nat as Hle.
  { apply (f_equal length) in Es. rewrite length_fmap in Es. rewrite Es. apply dup_strips_length. }
  exists bt. split_and!; try done.
  - split; cbn; try done.
    + by exists rest.
    + rewrite Hu, length_app, length_fmap. unfold fresh_buckets in El. rewrite length_replicate in El. lia.
    + by rewrite length_entries_live.
    + rewrite Ee. apply dup_keys_NoDup; [done|]. apply (wf_keys _ _ Hwf).
    + apply (dup_buckets_ok _ bs); [done|done|]. apply (wf_buckets _ _ Hwf).
    + apply (wf_next _ _ Hwf).
    + apply Hptr. by apply (valid_pointer_nonneg bs).
    + unfold layout. cbn. rewrite Hu. done.
  - intros i b s Hi Hib Hd. destruct Hptr as (Hp1 & _).
    rewrite (Hp1 i b Hib) by (cbn; rewrite ?Hd; done). cbn [nInternalPointer].
    rewrite Nat2Z.id. pose proof (dup_strips_take bs i b s Hib Hd) as Ht. rewrite <- Es in Ht.
    rewrite list_lookup_fmap, fmap_Some in Ht. destruct Ht as (b' & Hb' & ->). by exists b'.
Qed.

(** *** Packed tables *)

(** The copy of a bucket of a packed table. *)
Definition dup_packed b : Bucket V :=
  if live b then {| val := dup_zval source (val b); Z_NEXT := HT_INVALID_IDX; h := h b; key := None |}
  else {| val := IS_UNDEF; Z_NEXT := HT_INVALID_IDX; h := 0; key := None |}.

Definition plain_bucket b : Prop := plain (val b).

Lemma dup_packed_live b : plain_bucket b -> live (dup_packed b) = live b.
Proof. unfold dup_packed, live, plain_bucket. by destruct (val b). Qed.

Lemma plain_sound bs : Forall plain_bucket bs -> sound EG bs.
Proof. intros H. eapply Forall_impl; [exact H|]. intros b. unfold plain_bucket. by destruct (val b). Qed.

Lemma dup_strip_plain b : plain_bucket b ->
  dup_strip EG source b = if live b then Some (dup_zval source (val b), h b, key b) else None.
Proof. unfold dup_strip, source_value, plain_bucket, live. by destruct (val b). Qed.

Lemma dup_packed_step wh ar i c b : (wh = false -> live b = true) -> plain_bucket b ->
  aget ar i = Some (c : option (Bucket V)) -> c = None ->
  (r ← dup_data EG source true wh (val b);
   match r with
   | Some z => set_bucket ar i {| val := z; Z_NEXT := HT_INVALID_IDX; h := h b; key := None |}
   | None => if wh then undef_buckets 1 ar i else Some ar
   end) = set_bucket ar i (dup_packed b).
Proof.
  intros Hwh Hp Ha ->. unfold dup_data, dup_packed, live in *. cbn [negb mbind option_bind andb].
  unfold plain_bucket in Hp. destruct (val b) as [|s|v]; cbn [Z_ISUNDEF negb] in *; [|done|by destruct wh].
  destruct wh; [|by specialize (Hwh eq_refl)]. cbn [undef_buckets]. rewrite Ha. cbn [mbind option_bind].
  unfold set_bucket. by destruct (aset _ _ _).
Qed.

Lemma dup_packed_loop_ok wh todo : forall fin m,
  Forall plain_bucket todo -> (wh = false -> Forall (fun b => live b = true) todo) ->
  cells_at source (Z.of_nat (length fin)) todo -> (length todo <= m)%nat ->
  zend_array_dup_packed_elements (length todo) EG source ((Some <$> fin) ++ replicate m None) wh
    (Z.of_nat (length fin))
  = Some ((Some <$> (fin ++ (dup_packed <$> todo))) ++ replicate (m - length todo) None).
Proof.
  induction todo as [|b todo IH]; intros fin m Hp Hl Hcells Hm.
  - cbn. by rewrite app_nil_r, Nat.sub_0_r.
  - apply cells_at_cons in Hcells as [Hb Hcells]. apply Forall_cons in Hp as [Hpb Hp].
    destruct m as [|m]; [cbn in Hm; lia|]. cbn [length zend_array_dup_packed_elements replicate].
    rewrite Hb. cbn [mbind option_bind].
    pose proof (dup_packed_step wh ((Some <$> fin) ++ None :: replicate m None) (Z.of_nat (length fin)) None b
      ltac:(intros E; by apply Forall_cons in Hl as []) Hpb
      ltac:(apply aget_app_mid; by rewrite length_fmap) eq_refl) as Hst.
    destruct (dup_data EG source true wh (val b)) as [r|] eqn:Er; cbn [mbind option_bind] in Hst |- *;
      [|by rewrite set_bucket_next in Hst].
    rewrite Hst, set_bucket_next by done. cbn [mbind option_bind].
    specialize (IH (fin ++ [dup_packed b]) m Hp ltac:(intros E; by apply Forall_cons in Hl as [])).
    rewrite length_app, <- app_assoc in IH. cbn in IH, Hm |- *.
    replace (Z.of_nat (length fin) + 1) with (Z.of_nat (length fin + 1)) by lia.
    apply IH; [|lia]. by rewrite Nat2Z.inj_add.
Qed.

Lemma dup_packed_entries bs : Forall plain_bucket bs -> Forall (fun b => live b = true -> key b = None) bs ->
  entries (dup_packed <$> bs) = dup_entries EG source bs.
Proof.
  induction bs as [|b bs IH]; intros Hp Hk; [done|]. apply Forall_cons in Hp as [Hpb Hp].
  apply Forall_cons in Hk as [Hkb Hk]. rewrite fmap_cons, entries_cons, dup_entries_cons.
  rewrite dup_packed_live, dup_strip_plain, (IH Hp Hk) by done. destruct (live b) eqn:Hl; [|done].
  unfold dup_packed, bkey. by rewrite Hl, (Hkb eq_refl).
Qed.

(** Without pointers no element is lost. *)
Lemma dup_entries_length bs : Forall plain_bucket bs -> length (dup_entries EG source bs) = length (entries bs).
Proof.
  induction 1 as [|b bs Hb _ IH]; [done|]. rewrite dup_entries_cons, entries_cons, dup_strip_plain by done.
  destruct (live b); cbn; by rewrite IH.
Qed.

Lemma dup_packed_ok self bs : wf source bs -> HASH_FLAG_PACKED source = true -> nNumOfElements source <> 0 ->
  Forall plain_bucket bs ->
  exists target, zend_array_dup EG self source false = Some target /\ duplicate self bs target.
Proof.
  intros Hwf Hp Hn Hpl. destruct (packed_layout _ _ Hwf Hp) as (Hu & Hnc & Hnx & Hix).
  pose proof (wf_size _ _ Hwf) as Hsz. pose proof (wf_bound _ _ Hwf) as Hb. unfold zend_array_dup.
  rewrite (proj2 (Z.eqb_neq _ _) Hn), Hp. unfold HT_IS_WITHOUT_HOLES. cbn [nTableSize nNumUsed nNumOfElements].
  rewrite (wf_used _ _ Hwf), Nat2Z.id.
  pose proof (dup_packed_loop_ok (negb (Z.of_nat (length bs) =? nNumOfElements source)) bs [] (Z.to_nat (nTableSize source))
    Hpl) as E. cbn in E. change (Z.of_nat 0) with 0 in E. unfold fresh_buckets. rewrite E; [|..|lia].
  2:{ intros Hwh. apply all_live. rewrite (wf_elems _ _ Hwf) in Hwh. lia. }
  2:{ intros j b Hj. rewrite Z.add_0_l. by apply (wf_bucket _ _ _ _ Hwf). }
  cbn [mbind option_bind]. eexists. split; [done|].
  assert (Forall (fun b => live b = true -> key b = None) bs) as Hk.
  { apply Forall_lookup. intros i b Hi Hl. by apply (Hix i b Hi). }
  pose proof (dup_packed_entries bs Hpl Hk) as Ee. exists (dup_packed <$> bs).
  split_and!; try done.
  - split; cbn; try done.
    + by eexists.
    + by rewrite length_fmap.
    + rewrite Hu, length_app, !length_fmap, length_replicate. lia.
    + by rewrite Ee, dup_entries_length, (wf_elems _ _ Hwf).
    + rewrite Ee. apply dup_keys_NoDup; [by apply plain_sound|apply (wf_keys _ _ Hwf)].
    + apply Forall_fmap, Forall_lookup. intros i b Hi. pose proof (proj1 (Forall_lookup _ _) Hpl i b Hi) as Hpb.
      intros Hl. rewrite dup_packed_live in Hl by done. pose proof (wf_buckets _ _ Hwf) as Hbs.
      rewrite Forall_lookup in Hbs. pose proof (Hbs i b Hi Hl) as Hok. destruct (Hix i b Hi Hl) as [Eh Ek].
      revert Hok. unfold dup_packed, bkey. by rewrite Hl, Ek.
    + apply (wf_next _ _ Hwf).
    + by apply (valid_pointer_nonneg bs).
    + unfold layout. cbn. rewrite Hu, length_fmap. split; [done|]. split; [done|].
      intros i b. rewrite list_lookup_fmap, fmap_Some. intros (b0 & Hi & ->) Hl.
      rewrite dup_packed_live in Hl by (by eapply (proj1 (Forall_lookup _ _) Hpl)).
      unfold dup_packed. rewrite Hl. by destruct (Hix i b0 Hi Hl).
  - intros i b s Hi Hib Hd. pose proof (proj1 (Forall_lookup _ _) Hpl i b Hib) as Hpb. cbn [nInternalPointer].
    pose proof (lookup_lt_Some _ _ _ Hib). unfold valid_pointer. rewrite (wf_used _ _ Hwf).
    rewrite (proj2 (Z.ltb_lt _ _)) by lia. rewrite Hi, Nat2Z.id, list_lookup_fmap, Hib.
    eexists. split; [done|]. rewrite dup_strip_plain in Hd by done. unfold dup_packed.
    destruct (live b) eqn:Hl; [|done]. injection Hd as <-. unfold strip. cbn.
    by rewrite (proj1 (Forall_lookup _ _) Hk i b Hib Hl).
Qed.

(** *** Constant arrays and empty ones *)
Lemma dup_immutable_ok self bs : wf source bs -> nNumOfElements source <> 0 -> Forall plain_bucket bs ->
  Forall (fun b => dup_zval source (val b) = val b) bs ->
  exists target, zend_array_dup EG self source true = Some target /\ duplicate self bs target.
Proof.
  intros Hwf Hn Hpl Hv. unfold zend_array_dup. rewrite (proj2 (Z.eqb_neq _ _) Hn).
  eexists. split; [done|]. pose proof (wf_bound _ _ Hwf) as Hb. destruct (wf_cells _ _ Hwf) as [rest Hd].
  assert (HASH_FLAG_UNINITIALIZED source = false) as Hu.
  { destruct (HASH_FLAG_UNINITIALIZED source) eqn:E; [|done]. pose proof (wf_layout _ _ Hwf) as Hl.
    unfold layout in Hl. rewrite E in Hl. destruct Hl as (_ & _ & ->). by rewrite (wf_elems _ _ Hwf) in Hn. }
  destruct (copy_buckets_cells bs rest (nTableSize source) Hb) as [Ec El].
  exists bs. split_and!; try done.
  - destruct Hwf as [H1 H2 H3 H4 H5 H6 H7 H8 H9 H10]. split; cbn; try done; rewrite Hd, H2.
    + rewrite Ec. by eexists.
    + by rewrite Hu, El.
  - clear - Hpl Hv. induction Hpl as [|b bs Hb _ IH]; [done|]. apply Forall_cons in Hv as [Hvb Hv].
    rewrite entries_cons, dup_entries_cons, dup_strip_plain, (IH Hv) by done.
    destruct (live b); [|done]. cbn. by rewrite Hvb.
  - intros i b s Hi Hib Hs. exists b. cbn [nInternalPointer]. rewrite Hi, Nat2Z.id. split; [done|].
    rewrite dup_strip_plain in Hs by (by eapply (proj1 (Forall_lookup _ _) Hpl)).
    pose proof (proj1 (Forall_lookup _ _) Hv i b Hib) as Hvb. cbn in Hvb. rewrite Hvb in Hs.
    destruct (live b); [|done]. by injection Hs as <-.
Qed.

Lemma dup_empty_ok self bs (immutable : bool) : wf source bs -> nNumOfElements source = 0 -> sound EG bs ->
  exists target, zend_array_dup EG self source immutable = Some target /\ duplicate self bs target.
Proof.
  intros Hwf Hn Hs. unfold zend_array_dup. rewrite Hn. cbn [Z.eqb]. eexists. split; [done|].
  assert (entries bs = []) as He by (apply length_zero_iff_nil; pose proof (wf_elems _ _ Hwf); lia).
  assert (dup_entries EG source bs = []) as Hd.
  { destruct (dup_entries EG source bs) as [|[k z] l] eqn:E; [done|].
    assert (k ∈ (entries bs).*1) as Hk by (apply dup_keys_sub; [done|]; rewrite E; by left).
    rewrite He in Hk. by apply elem_of_nil in Hk. }
  exists []. split_and!; try done.
  - split; cbn; try done.
    + by exists [].
    + constructor.
    + apply (wf_next _ _ Hwf).
  - intros i b s Hi Hib Hds. destruct (dup_strip_key b s) as [_ Hl]; [|done|].
    { by eapply (proj1 (Forall_lookup _ _) Hs). }
    assert (bkey b ∈ (entries bs).*1) as Hk by (apply elem_of_keys; by exists i, b).
    rewrite He in Hk. by apply elem_of_nil in Hk.
Qed.
End Copying.

Lemma array_dup_ok EG (self : Z) source bs (immutable : bool) :
  wf source bs -> sound EG bs ->
  (HASH_FLAG_PACKED source = true \/ immutable = true -> Forall plain_bucket bs) ->
  (immutable = true -> Forall (fun b => dup_zval source (val b) = val b) bs) ->
  exists target, zend_array_dup EG self source immutable = Some target /\ duplicate EG source self bs target.
Proof.
  intros Hwf Hs Hpl Him. destruct (Z.eq_dec (nNumOfElements source) 0) as [Hn|Hn]; [by apply dup_empty_ok|].
  destruct immutable; [apply dup_immutable_ok; auto|].
  destruct (HASH_FLAG_PACKED source) eqn:Hp; [apply dup_packed_ok; auto|].
  apply dup_mixed_ok; try done. split; [|done]. destruct (HASH_FLAG_UNINITIALIZED source) eqn:E; [|done].
  pose proof (wf_layout _ _ Hwf) as Hl. unfold layout in Hl. rewrite E in Hl.
  destruct Hl as (_ & _ & ->). by rewrite (wf_elems _ _ Hwf) in Hn.
Qed.

(** C23: [zend_array_dup] copies an array in every layout: the copy is a well-formed table at its own
    address, without iterators, with the elements of the source in order, a variable behind a pointer
    counting as its value, an undefined one being left out, and a reference held by nothing else becoming the
    value behind it.  New elements get the same keys as in the source, and the internal pointer stays on its
    element, although elements move up behind holes. *)
Theorem zend_array_dup_copies EG (self : Z) source bs (immutable : bool) :
  wf source bs -> sound EG bs ->
  (HASH_FLAG_PACKED source = true \/ immutable = true -> Forall plain_bucket bs) ->
  (immutable = true -> Forall (fun b => dup_zval source (val b) = val b) bs) ->
  exists target, zend_array_dup EG self source immutable = Some target /\ duplicate EG source self bs target.
Proof. apply array_dup_ok. Qed.
End Dup.

(** ** An example

    A reference is a number from 1000 on, held once when it is below 2000.  The table of [ZendHashInv] has a
    hole in its second cell. *)
Definition ex_ref (v : Z) : option (Z * Z) :=
  if v <? 1000 then None else if v <? 2000 then Some (1, v - 1000) else Some (2, v - 2000).
Definition ex_arr (v : Z) : option Z := None.

Definition ex_source : HashTable Z :=
  {| ex_table with nInternalPointer := 2;
     arData := <[0%nat := Some (ex_bucket (IS_VAL 1100) HT_INVALID_IDX 19 None)]> (arData ex_table) |}.

Example ex_dup :
  (t ← zend_array_dup ex_ref ex_arr ex_globals 7 ex_source false;
   Some (nNumUsed t, nInternalPointer t, option_map val <$> take 4 (arData t)))
  = Some (3, 1, [Some (IS_VAL 100); Some (IS_VAL 102); Some (IS_VAL 103); None]).
Proof. vm_compute. reflexivity. Qed.

Lemma zend_array_dup_copies_witness :
  exists target, zend_array_dup ex_ref ex_arr ex_globals 7 ex_table false = Some target /\
    duplicate ex_ref ex_arr ex_globals ex_table 7 ex_buckets target.
Proof.
  apply (zend_array_dup_copies ex_ref ex_arr ex_globals 7 ex_table ex_buckets false ex_wf).
  - repeat constructor.
  - by intros [?|?].
  - discriminate.
Defined.
