(* ===== verification/ZendHashCast.v ===== *)
(** * The engine's hash table: arrays as property tables and back

    An array is a symbol table: its keys are integers and strings that are not numbers.  The properties of
    an object are all strings.  [zend_symtable_to_proptable] and [zend_proptable_to_symtable] convert
    between the two, for [(object) $array] and [(array) $object]; a table that is already of the other kind
    is shared, not copied.  A cast there and back is shown to give the array back. *)
From S2P Require Import Prelude ZendString ZendLong ZendHash OrderedMap ZendHashInv ZendHashRehash ZendHashUpdate ZendHashDelete ZendHashMap ZendSymtable ZendHashOps ZendHashApply ZendHashCopy ZendHashDup.

Section Cast.
Context {V : Type}.
Implicit Types (b p : Bucket V) (bs : list (Bucket V)) (ht new_ht : HashTable V)
  (EG : executor_globals V) (z zv : zval V).

(** As in [ZendHashDup]. *)
Variable Z_REF : V -> option (Z * V).
Variable Z_ARRVAL : V -> option Z.

(** ** The code *)
Section Foreach.
Context {X : Type}.

(** The macro: [body] gets the bucket and the value, and tells whether to leave the loop.  There are [n]
    buckets to go. *)
Fixpoint ZEND_HASH_FOREACH (n : nat) EG ht (indirect : bool)
    (body : executor_globals V -> X -> Bucket V -> zval V -> option (executor_globals V * X * bool))
    (x : X) (i : Z) : option (executor_globals V * X) :=
  match n with
  | O => Some (EG, x)
  | S n =>
      p ← bucket (arData ht) i;
      z ← (if indirect then deref EG (val p) else Some (val p));
      if Z_ISUNDEF z then ZEND_HASH_FOREACH n EG ht indirect body x (i + 1)
      else
        '(EG, x, stop) ← body EG x p z;
        if (stop : bool) then Some (EG, x) else ZEND_HASH_FOREACH n EG ht indirect body x (i + 1)
  end.

Definition foreach EG ht (indirect : bool)
    (body : executor_globals V -> X -> Bucket V -> zval V -> option (executor_globals V * X * bool))
    (x : X) : option (executor_globals V * X) :=
  ZEND_HASH_FOREACH (Z.to_nat (nNumUsed ht)) EG ht indirect body x 0.
End Foreach.

(** A reference that only the table holds gives way to its value. *)
Definition unref (v : V) : V :=
  match Z_REF v with Some (refcount, w) => if refcount =? 1 then w else v | None => v end.

Definition unref_zval z : zval V := match z with IS_VAL v => IS_VAL (unref v) | _ => z end.

(** The pointer returned: the table itself, or a new one. *)
Inductive converted := Shared | New (t : HashTable V).

Definition zend_new_array (self nSize : Z) : option (HashTable V) := _zend_hash_init self nSize true false.

(** The loops that look for a key to convert. *)
Definition has_integer_key EG ht : option bool :=
  '(_, found) ← foreach EG ht false
     (fun EG found p _ => if is_some_key (key p) then Some (EG, found, false) else Some (EG, true, true)) false;
  Some found.

Definition has_numeric_key EG ht : option bool :=
  '(_, found) ← foreach EG ht false
     (fun EG found p _ =>
        match key p with
        | Some k =>
            idx ← ZEND_HANDLE_NUMERIC k;
            match idx with Some _ => Some (EG, true, true) | None => Some (EG, found, false) end
        | None => Some (EG, found, false)
        end) false;
  Some found.

(** The bodies of the converting loops. *)
Definition add_property EG new_ht p zv : option (executor_globals V * HashTable V * bool) :=
  str_key ← (match key p with Some k => Some k | None => zend_long_to_str (i64 (h p)) end);
  '(EG, new_ht, _) ← zend_hash_update EG new_ht str_key (unref_zval zv);
  Some (EG, new_ht, false).

Definition add_element EG new_ht p zv : option (executor_globals V * HashTable V * bool) :=
  let zv := unref_zval zv in
  num_key ← (match key p with Some k => ZEND_HANDLE_NUMERIC k | None => Some (Some (h p)) end);
  '(EG, new_ht, _) ← (match num_key, key p with
                      | Some num_key, _ => zend_hash_index_update EG new_ht num_key zv
                      | None, Some k => zend_hash_update EG new_ht k zv
                      | None, None => None
                      end);
  Some (EG, new_ht, false).

(** [self] is the address of a new table. *)
Definition zend_symtable_to_proptable EG (self : Z) ht : option (executor_globals V * converted) :=
  convert ← (if HASH_FLAG_PACKED ht then Some true else has_integer_key EG ht);
  if (convert : bool) then
    new_ht ← zend_new_array self (nNumOfElements ht);
    '(EG, new_ht) ← foreach EG ht false add_property new_ht;
    Some (EG, New new_ht)
  else Some (EG, Shared).

Definition zend_proptable_to_symtable EG (self : Z) ht (always_duplicate immutable : bool) :
  option (executor_globals V * converted) :=
  convert ← has_numeric_key EG ht;
  if (convert : bool) then
    new_ht ← zend_new_array self (nNumOfElements ht);
    '(EG, new_ht) ← foreach EG ht true add_element new_ht;
    Some (EG, New new_ht)
  else if always_duplicate then
    t ← zend_array_dup Z_REF Z_ARRVAL EG self ht immutable; Some (EG, New t)
  else Some (EG, Shared).

(** The table a result stands for. *)
Definition converted_table ht (r : converted) : HashTable V := match r with Shared => ht | New t => t end.

(** ** Fresh tables *)

(** A shift fills in bits below the highest one. *)
Lemma fill_log2 x j : 0 < x -> 0 <= j ->
  0 < Z.lor x (Z.shiftr x j) /\ Z.log2 (Z.lor x (Z.shiftr x j)) = Z.log2 x.
Proof.
  intros Hx Hj. assert (0 <= Z.shiftr x j) by (apply Z.shiftr_nonneg; lia).
  assert (Z.log2 (Z.lor x (Z.shiftr x j)) = Z.log2 x) as E.
  { rewrite Z.log2_lor by lia. rewrite Z.log2_shiftr by lia. pose proof (Z.log2_nonneg x). lia. }
  split; [|done]. assert (0 <= Z.lor x (Z.shiftr x j)) by (apply Z.lor_nonneg; lia).
  assert (Z.lor x (Z.shiftr x j) <> 0); [|lia]. intros [-> _]%Z.lor_eq_0_iff. lia.
Qed.

(** The size of a table for [n] elements is at most twice as much. *)
Lemma check_size_ok n : 0 <= n <= 2 ^ 26 ->
  exists size, zend_hash_check_size n = Some size /\ 8 <= size <= Z.max 8 (2 * n).
Proof.
  intros Hn. unfold zend_hash_check_size, HT_MIN_SIZE, HT_MAX_SIZE. destruct (Z.leb_spec n 8) as [H8|H8].
  { exists 8. split; [done|lia]. }
  rewrite (proj2 (Z.leb_gt _ _)) by lia. eexists. split; [done|].
  destruct (fill_log2 (n - 1) 1) as [P1 E1]; [lia..|]. set (x1 := Z.lor (n - 1) _) in *.
  destruct (fill_log2 x1 2) as [P2 E2]; [lia..|]. set (x2 := Z.lor x1 _) in *.
  destruct (fill_log2 x2 4) as [P3 E3]; [lia..|]. set (x3 := Z.lor x2 _) in *.
  destruct (fill_log2 x3 8) as [P4 E4]; [lia..|]. set (x4 := Z.lor x3 _) in *.
  destruct (fill_log2 x4 16) as [P5 E5]; [lia..|]. set (x5 := Z.lor x4 _) in *.
  pose proof (Z.log2_spec x5 P5) as [L1 L2]. pose proof (Z.log2_spec (n - 1) ltac:(lia)) as [M1 M2].
  assert (Z.log2 x5 = Z.log2 (n - 1)) as E by congruence. rewrite E in L1, L2.
  pose proof (Z.log2_le_mono 8 (n - 1) ltac:(lia)) as Hl. change (Z.log2 8) with 3 in Hl.
  pose proof (Z.pow_le_mono_r 2 3 (Z.log2 (n - 1)) ltac:(lia) Hl).
  rewrite Z.pow_succ_r in L2 by (apply Z.log2_nonneg). lia.
Qed.

Lemma new_array_ok self n : 0 <= n <= 2 ^ 26 ->
  exists t : HashTable V, zend_new_array self n = Some t /\ wf t [] /\ capped n t /\ addr t = self.
Proof.
  intros Hn. unfold zend_new_array, _zend_hash_init. destruct (check_size_ok n Hn) as (size & -> & Hs).
  cbn [mbind option_bind]. eexists. split; [done|]. split; [|split; [|done]].
  - split; cbn; try done; [by exists []|lia|constructor].
  - split; [cbn; lia|]. destruct (mixed_dec _) as [[? _]|_]; [done|]. cbn. lia.
Qed.

(** ** The loops *)
Lemma copied_new {m src : list (hkey * zval V)} : NoDup (m ++ src).*1 -> copied m src = m ++ src.
Proof.
  revert m. induction src as [|[k z] src IH]; intros m Hn; [by rewrite app_nil_r|].
  cbn [copied foldl fst snd]. rewrite fmap_app, fmap_cons in Hn.
  rewrite om_insert_new.
  - fold (copied (m ++ [(k, z)]) src). rewrite IH; [by rewrite <- app_assoc|]. by rewrite !fmap_app, <- app_assoc.
  - intros Hk. apply NoDup_app in Hn as (_ & Hd & _). apply (Hd k Hk). by left.
Qed.

Section Loops.
Context (source : HashTable V) (indirect : bool).

(** A loop whose body inserts the element [f b] for every live bucket [b]. *)
Lemma foreach_inserts body (f : Bucket V -> hkey * zval V) todo :
  Forall plain_bucket todo ->
  Forall (fun b => live b = true -> forall EG target bs, wf target bs -> nTableSize target <= 2 ^ 29 ->
    exists r, body EG target b (val b) = ('(EG, t, _) ← r; Some (EG, t, false)) /\
      inserted EG target bs (f b).1 (f b).2 r) todo ->
  forall idx EG target n m, cells_at source idx todo -> target_ok n EG target m -> 0 <= n ->
  n + Z.of_nat (length (filter live todo)) <= 2 ^ 26 ->
  exists EG' target', ZEND_HASH_FOREACH (length todo) EG source indirect body target idx = Some (EG', target') /\
    target_ok (n + Z.of_nat (length (filter live todo))) EG' target' (copied m (f <$> filter live todo)).
Proof.
  intros Hpl Hbody. induction todo as [|b todo IH]; intros idx EG target n m Hcells Ht H0 Hn.
  { exists EG, target. rewrite Z.add_0_r. done. }
  apply cells_at_cons in Hcells as [Hb Hcells]. apply Forall_cons in Hpl as [Hpb Hpl].
  apply Forall_cons in Hbody as [Hbb Hbody]. cbn [length ZEND_HASH_FOREACH]. rewrite Hb. cbn [mbind option_bind].
  assert ((if indirect then deref EG (val b) else Some (val b)) = Some (val b)) as ->.
  { unfold plain_bucket in Hpb. destruct indirect; [|done]. by destruct (val b). }
  cbn [mbind option_bind]. rewrite undef_live, filter_live_cons in *.
  destruct (live b); cbn [negb]; [|by apply (IH Hpl Hbody)].
  destruct Ht as (bs & Hwf & Hcap & <-). cbn [length] in Hn.
  assert (nTableSize target <= 2 ^ 29) as Hsz by (apply (capped_size n); [done|lia]).
  destruct (Hbb eq_refl EG target bs Hwf Hsz) as (r & -> & Hins).
  destruct Hins as (EG1 & t1 & bs1 & ref & -> & Hwf1 & Hen & _ & _ & _ & _ & Hg). cbn [mbind option_bind].
  destruct (IH Hpl Hbody (idx + 1) EG1 t1 (n + 1) (om_insert (f b).1 (f b).2 (entries bs)) Hcells)
    as (EG' & t' & E & Ht'); [by exists bs1; auto|lia|lia|].
  exists EG', t'. split; [done|]. cbn [length].
  by replace (n + Z.of_nat (S (length (filter live todo)))) with (n + 1 + Z.of_nat (length (filter live todo))) by lia.
Qed.

(** A loop that looks for a bucket that passes [test]. *)
Lemma foreach_finds body (test : Bucket V -> bool) todo :
  Forall plain_bucket todo ->
  Forall (fun b => live b = true -> forall EG found, body EG found b (val b)
    = Some (if test b then (EG, true, true) else (EG, found, false))) todo ->
  forall idx EG, cells_at source idx todo ->
  ZEND_HASH_FOREACH (length todo) EG source indirect body false idx
  = Some (EG, existsb test (filter live todo)).
Proof.
  intros Hpl Hbody. induction todo as [|b todo IH]; intros idx EG Hcells; [done|].
  apply cells_at_cons in Hcells as [Hb Hcells]. apply Forall_cons in Hpl as [Hpb Hpl].
  apply Forall_cons in Hbody as [Hbb Hbody]. cbn [length ZEND_HASH_FOREACH]. rewrite Hb. cbn [mbind option_bind].
  assert ((if indirect then deref EG (val b) else Some (val b)) = Some (val b)) as ->.
  { unfold plain_bucket in Hpb. destruct indirect; [|done]. by destruct (val b). }
  cbn [mbind option_bind]. rewrite undef_live, filter_live_cons.
  destruct (live b); cbn [negb]; [|by apply (IH Hpl Hbody)].
  rewrite (Hbb eq_refl). cbn [existsb]. destruct (test b); [done|]. by apply (IH Hpl Hbody).
Qed.
End Loops.

(** ** Keys *)

(** The name of the property that stands for a key. *)
Definition property_key (k : hkey) : hkey :=
  match k with
  | KInt n => KStr (default [] (zend_print_long_to_buf (i64 n)))
  | KStr s => KStr s
  end.

(** The key a name stands for in an array. *)
Definition element_key (k : hkey) : hkey := match k with KInt n => KInt n | KStr s => symtable_key s end.

Lemma i64_range n : is_i64 (i64 n).
Proof. apply (swrap_range 64). lia. Qed.

Lemma u64_i64 n : is_u64 n -> u64 (i64 n) = n.
Proof.
  unfold is_u64, u64, i64, uwrap, swrap. change (64 - 1) with 63. intros Hn.
  Z.to_euclidean_division_equations. lia.
Qed.

Lemma long_to_str_property n : exists s, zend_long_to_str (i64 n) = Some s /\
  KStr (ZSTR_VAL s) = property_key (KInt n).
Proof.
  destruct (zend_long_to_str_printed (i64 n) (i64_range n)) as (s & E & Ep & _).
  apply fmap_Some in E as (k & E & ->). exists k. split; [done|]. unfold property_key. by rewrite Ep.
Qed.

Lemma printed_symtable_key n : is_u64 n -> exists s, property_key (KInt n) = KStr s /\
  Forall is_u8 s /\ symtable_key s = KInt n.
Proof.
  intros Hn. destruct (zend_print_long_total (i64 n) (i64_range n)) as (s & Ep & Hd).
  unfold property_key. rewrite Ep. exists s. split; [done|].
  assert (Forall is_u8 s) as Hu.
  { apply decimal_string_chars in Hd. eapply Forall_impl; [exact Hd|]. unfold is_digit, is_u8. cbn. lia. }
  split; [done|]. unfold symtable_key. rewrite (decimal_key_printed (i64 n) s (i64_range n) Ep). by rewrite u64_i64.
Qed.

(** The keys of an array: 64-bit integers, and strings that are not numbers. *)
Definition array_key (k : hkey) : Prop :=
  match k with KInt n => is_u64 n | KStr s => Forall is_u8 s /\ symtable_key s = KStr s end.

Lemma element_property k : array_key k -> element_key (property_key k) = k.
Proof.
  destruct k as [n|s]; [|by intros [_ E]]. intros Hn.
  destruct (printed_symtable_key n Hn) as (s & -> & _ & E). done.
Qed.

Lemma property_keys_NoDup ks : Forall array_key ks -> NoDup ks -> NoDup (property_key <$> ks).
Proof.
  intros Ha Hn. induction Hn as [|k ks Hk Hn IH]; [constructor|]. apply Forall_cons in Ha as [Hak Ha].
  rewrite fmap_cons. constructor; [|by apply IH]. intros (k' & E & Hk')%list_elem_of_fmap.
  rewrite Forall_forall in Ha. apply (f_equal element_key) in E.
  rewrite !element_property in E by auto. by subst.
Qed.

(** Bytes of the names, as the recognition of numbers needs them. *)
Definition byte_key (k : hkey) : Prop :=
  match k with KInt n => is_u64 n | KStr s => Forall is_u8 s end.

Lemma property_key_bytes k : array_key k -> byte_key (property_key k).
Proof.
  destruct k as [n|s]; [|by intros []]. intros Hn. destruct (printed_symtable_key n Hn) as (s & -> & H & _).
  done.
Qed.

(** ** What the bodies do *)
Definition held z : Prop := plain z /\ unref_zval z = z.

Lemma add_property_inserts b : live b = true -> held (val b) ->
  forall EG target bs, wf target bs -> nTableSize target <= 2 ^ 29 ->
  exists r, add_property EG target b (val b) = ('(EG, t, _) ← r; Some (EG, t, false)) /\
    inserted EG target bs (property_key (bkey b)) (val b) r.
Proof.
  intros Hl [_ Hr] EG target bs Hwf Hsz. unfold add_property. rewrite Hr.
  assert (Z_ISUNDEF (val b) = false) as Hu by (unfold live in Hl; by destruct (Z_ISUNDEF (val b))).
  unfold bkey. destruct (key b) as [k|].
  - eexists. split; [done|]. by apply update_inserted.
  - destruct (long_to_str_property (h b)) as (s & -> & Es). eexists. split; [done|]. rewrite <- Es.
    by apply update_inserted.
Qed.

Lemma add_element_inserts b : live b = true -> held (val b) -> byte_key (bkey b) ->
  forall EG target bs, wf target bs -> nTableSize target <= 2 ^ 29 ->
  exists r, add_element EG target b (val b) = ('(EG, t, _) ← r; Some (EG, t, false)) /\
    inserted EG target bs (element_key (bkey b)) (val b) r.
Proof.
  intros Hl [_ Hr] Hk EG target bs Hwf Hsz. unfold add_element. rewrite Hr.
  assert (Z_ISUNDEF (val b) = false) as Hu by (unfold live in Hl; by destruct (Z_ISUNDEF (val b))).
  revert Hk. unfold bkey. destruct (key b) as [k|]; cbn [byte_key element_key].
  - intros Hk. destruct (handle_numeric k Hk) as [(idx & -> & -> & Hi)|[-> ->]]; cbn [mbind option_bind].
    + eexists. split; [done|]. by apply index_update_inserted.
    + eexists. split; [done|]. by apply update_inserted.
  - intros Hk. eexists. split; [done|]. by apply index_update_inserted.
Qed.

(** ** The conversions *)
Section Conversion.
Context (EG : executor_globals V) (ht : HashTable V) (bs : list (Bucket V)).
Hypothesis Hwf : wf ht bs.
Hypothesis Hcount : nNumOfElements ht <= 2 ^ 25.
Hypothesis Hheld : Forall (fun e => held e.2) (entries bs).

Lemma live_held : Forall (fun b => live b = true -> held (val b)) bs.
Proof using Hheld.
  apply Forall_forall. intros b Hb Hl. rewrite Forall_forall in Hheld.
  apply (Hheld (bkey b, val b)). apply list_elem_of_lookup in Hb as [i Hi].
  apply elem_of_entries. by exists i, b.
Qed.

Lemma all_plain : Forall plain_bucket bs.
Proof using Hheld.
  eapply Forall_impl; [apply live_held|]. intros b H. unfold plain_bucket, live in *.
  destruct (val b); try done. by apply H.
Qed.

Lemma all_cells : cells_at ht 0 bs.
Proof using Hwf. intros j b Hj. by apply (wf_bucket _ _ _ _ Hwf). Qed.

Lemma live_count : Z.of_nat (length (filter live bs)) = nNumOfElements ht.
Proof using Hwf. by rewrite (wf_elems _ _ Hwf), length_entries. Qed.

Lemma rekeyed_keys (f : hkey -> hkey) (m : list (hkey * zval V)) :
  ((fun e => (f e.1, e.2)) <$> m).*1 = f <$> m.*1.
Proof using. rewrite <- !list_fmap_compose. by apply list_fmap_ext. Qed.

(** A new table with the elements under other keys. *)
Lemma rekeyed (self : Z) (indirect : bool) body (f : hkey -> hkey) :
  (forall b, b ∈ bs -> live b = true -> held (val b) -> forall EG target bs, wf target bs ->
     nTableSize target <= 2 ^ 29 ->
     exists r, body EG target b (val b) = ('(EG, t, _) ← r; Some (EG, t, false)) /\
       inserted EG target bs (f (bkey b)) (val b) r) ->
  NoDup (f <$> (entries bs).*1) ->
  exists EG' t bt,
    (new_ht ← zend_new_array self (nNumOfElements ht);
     '(EG, new_ht) ← foreach EG ht indirect body new_ht; Some (EG, New new_ht)) = Some (EG', New t) /\
    wf t bt /\ entries bt = (fun e => (f e.1, e.2)) <$> entries bs.
Proof using Hwf Hcount Hheld.
  intros Hbody Hnd. assert (0 <= nNumOfElements ht) by (rewrite (wf_elems _ _ Hwf); lia).
  destruct (new_array_ok self (nNumOfElements ht)) as (t0 & -> & Hw0 & Hc0 & _); [lia|].
  cbn [mbind option_bind]. unfold foreach. rewrite (wf_used _ _ Hwf), Nat2Z.id.
  set (g := fun b : Bucket V => (f (bkey b), val b)).
  destruct (foreach_inserts ht indirect body g bs all_plain) with (idx := 0) (EG := EG) (target := t0)
    (n := nNumOfElements ht) (m := @nil (hkey * zval V)) as (EG' & t & -> & bt & Hwt & _ & Ee).
  - pose proof live_held as Hl. rewrite !Forall_forall in Hl |- *. intros b Hb Hlb. by apply Hbody, Hl.
  - apply all_cells.
  - by exists [].
  - lia.
  - rewrite live_count. lia.
  - cbn [mbind option_bind]. exists EG', t, bt. split_and!; [done|done|]. rewrite Ee.
    assert (g <$> filter live bs = (fun e => (f e.1, e.2)) <$> entries bs) as Eg.
    { unfold entries. rewrite <- list_fmap_compose. by apply list_fmap_ext. }
    rewrite copied_new; rewrite Eg; [done|]. cbn. by rewrite rekeyed_keys.
Qed.

Lemma has_integer_key_ok :
  has_integer_key EG ht = Some (existsb (fun b => negb (is_some_key (key b))) (filter live bs)).
Proof using Hwf Hheld.
  unfold has_integer_key, foreach. rewrite (wf_used _ _ Hwf), Nat2Z.id.
  rewrite (foreach_finds ht false _ (fun b => negb (is_some_key (key b))) bs all_plain); [done| |apply all_cells].
  apply Forall_forall. intros b _ _ EG0 found. by destruct (is_some_key (key b)).
Qed.

(** Whether the name is a number. *)
Definition numeric_bucket b : bool :=
  match key b with Some k => bool_decide (symtable_key (ZSTR_VAL k) <> KStr (ZSTR_VAL k)) | None => false end.

Lemma has_numeric_key_ok : Forall byte_key (entries bs).*1 ->
  has_numeric_key EG ht = Some (existsb numeric_bucket (filter live bs)).
Proof using Hwf Hheld.
  intros Hk. unfold has_numeric_key, foreach. rewrite (wf_used _ _ Hwf), Nat2Z.id.
  rewrite (foreach_finds ht false _ numeric_bucket bs all_plain); [done| |apply all_cells].
  apply Forall_forall. intros b Hb Hl EG0 found. unfold numeric_bucket.
  assert (byte_key (bkey b)) as Hbk.
  { rewrite Forall_forall in Hk. apply Hk, elem_of_keys. apply list_elem_of_lookup in Hb as [i Hi]. by exists i, b. }
  revert Hbk. unfold bkey. destruct (key b) as [k|]; [|done]. cbn [byte_key]. intros Hu.
  destruct (handle_numeric k Hu) as [(idx & -> & -> & _)|[-> ->]]; cbn [mbind option_bind].
  - by rewrite bool_decide_true.
  - by rewrite bool_decide_false by (intros H; by apply H).
Qed.

(** When no key changes, the table will do. *)
Lemma keys_unchanged (f : hkey -> hkey) (test : Bucket V -> bool) :
  existsb test (filter live bs) = false -> (forall b, b ∈ bs -> live b = true -> test b = false -> f (bkey b) = bkey b) ->
  (fun e => (f e.1, e.2)) <$> entries bs = entries bs.
Proof using.
  intros Ht Hf. rewrite <- (list_fmap_id (entries bs)) at 2. apply list_fmap_ext. intros i [k z] Hi. cbn.
  apply list_elem_of_lookup_2, elem_of_entries in Hi as (j & b & Hj & Hl & <- & <-).
  f_equal. apply Hf; [by eapply list_elem_of_lookup_2|done|].
  destruct (test b) eqn:E; [|done]. rewrite <- Ht. symmetry. apply existsb_exists. exists b. split; [|done].
  apply list_elem_of_In, list_elem_of_filter. rewrite Hl. split; [done|]. by eapply list_elem_of_lookup_2.
Qed.

Lemma to_proptable_ok self : Forall array_key (entries bs).*1 ->
  exists EG' r bt, zend_symtable_to_proptable EG self ht = Some (EG', r) /\
    wf (converted_table ht r) bt /\ entries bt = (fun e => (property_key e.1, e.2)) <$> entries bs.
Proof using Hwf Hcount Hheld.
  intros Hk. unfold zend_symtable_to_proptable.
  assert (exists convert, (if HASH_FLAG_PACKED ht then Some true else has_integer_key EG ht) = Some convert /\
    (convert = false -> existsb (fun b => negb (is_some_key (key b))) (filter live bs) = false)) as (convert & -> & Hc).
  { destruct (HASH_FLAG_PACKED ht); [by exists true|]. rewrite has_integer_key_ok. by eexists. }
  cbn [mbind option_bind]. destruct convert.
  - destruct (rekeyed self false add_property property_key) as (EG' & t & bt & E & H).
    + intros b _ Hl Hh. by apply add_property_inserts.
    + apply property_keys_NoDup; [done|]. apply (wf_keys _ _ Hwf).
    + by exists EG', (New t), bt.
  - exists EG, Shared, bs. split_and!; [done|done|]. symmetry. apply (keys_unchanged _ _ (Hc eq_refl)).
    intros b _ _ Hb. unfold bkey. by destruct (key b).
Qed.

Lemma dup_held z : held z -> dup_zval Z_REF Z_ARRVAL ht z = z.
Proof using.
  intros [_ Hu]. unfold unref_zval, dup_zval, unref, dup_value in *. destruct z as [| |v]; try done.
  destruct (Z_REF v) as [[rc w]|]; [|done]. destruct (rc =? 1); [|done]. cbn [andb]. by destruct (negb _).
Qed.

Lemma dup_held_entries : dup_entries Z_REF Z_ARRVAL EG ht bs = entries bs.
Proof using Hheld.
  pose proof live_held as Hl. pose proof all_plain as Hp.
  clear Hwf Hcount Hheld. induction bs as [|b l IH]; [done|].
  apply Forall_cons in Hl as [Hlb Hl]. apply Forall_cons in Hp as [Hpb Hp].
  rewrite dup_entries_cons, entries_cons, dup_strip_plain, (IH Hl Hp) by done.
  destruct (live b); [|done]. cbn. by rewrite dup_held by auto.
Qed.

Lemma to_symtable_ok self (always_duplicate immutable : bool) :
  Forall byte_key (entries bs).*1 -> NoDup (element_key <$> (entries bs).*1) ->
  exists EG' r bt, zend_proptable_to_symtable EG self ht always_duplicate immutable = Some (EG', r) /\
    wf (converted_table ht r) bt /\ entries bt = (fun e => (element_key e.1, e.2)) <$> entries bs.
Proof using Hwf Hcount Hheld.
  intros Hk Hnd. unfold zend_proptable_to_symtable. rewrite has_numeric_key_ok by done. cbn [mbind option_bind].
  destruct (existsb numeric_bucket (filter live bs)) eqn:Ec.
  - destruct (rekeyed self true add_element element_key) as (EG' & t & bt & E & H); [|done|by exists EG', (New t), bt].
    intros b Hb Hl Hh. apply add_element_inserts; [done|done|]. rewrite Forall_forall in Hk.
    apply Hk, elem_of_keys. apply list_elem_of_lookup in Hb as [i Hi]. by exists i, b.
  - assert ((fun e => (element_key e.1, e.2)) <$> entries bs = entries bs) as ->.
    { apply (keys_unchanged _ _ Ec). intros b _ _. unfold numeric_bucket, bkey. destruct (key b); [|done].
      intros H%bool_decide_eq_false. cbn. by apply dec_stable. }
    destruct always_duplicate; [|by exists EG, Shared, bs].
    assert (Forall (fun b => dup_zval Z_REF Z_ARRVAL ht (val b) = val b) bs) as Hd.
    { eapply Forall_impl; [apply live_held|]. intros b Hb. cbn in Hb.
      destruct (live b) eqn:El; [by apply dup_held, Hb|]. unfold live in El. by destruct (val b). }
    destruct (array_dup_ok Z_REF Z_ARRVAL EG self ht bs immutable Hwf) as (t & -> & bt & H1 & H2 & _);
      [by apply plain_sound, all_plain|intros; apply all_plain|done|].
    exists EG, (New t), bt. split_and!; [done|done|]. by rewrite H2, dup_held_entries.
Qed.
End Conversion.

(** A run of both conversions. *)
Definition cast_there_and_back EG (self self' : Z) ht (always_duplicate immutable : bool) :
  option (HashTable V * HashTable V) :=
  '(EG, r) ← zend_symtable_to_proptable EG self ht;
  let properties := converted_table ht r in
  '(_, r') ← zend_proptable_to_symtable EG self' properties always_duplicate immutable;
  Some (properties, converted_table properties r').

(** C24: casting an array to an object and back gives the array: the property table has the elements in
    order, each integer key as its decimal notation, and converting that again recognises exactly these
    names, so that every element has its old key.  It does not matter whether the tables are converted,
    shared or duplicated on the way.  The values are no references that the table alone holds, which both
    conversions replace by what they refer to. *)
Theorem zend_symtable_proptable_roundtrip EG (self self' : Z) ht bs (always_duplicate immutable : bool) :
  wf ht bs -> nNumOfElements ht <= 2 ^ 25 -> Forall array_key (entries bs).*1 ->
  Forall (fun e => held e.2) (entries bs) ->
  exists properties bp array ba,
    cast_there_and_back EG self self' ht always_duplicate immutable = Some (properties, array) /\
    wf properties bp /\ entries bp = (fun e => (property_key e.1, e.2)) <$> entries bs /\
    wf array ba /\ entries ba = entries bs.
Proof.
  intros Hwf Hn Hk Hh. unfold cast_there_and_back.
  destruct (to_proptable_ok EG ht bs Hwf Hn Hh self Hk) as (EG1 & r & bp & -> & Hwp & Ep).
  cbn [mbind option_bind]. set (properties := converted_table ht r) in *.
  assert (nNumOfElements properties <= 2 ^ 25) as Hnp.
  { rewrite (wf_elems _ _ Hwp), Ep, length_fmap, <- (wf_elems _ _ Hwf). done. }
  assert (Forall (fun e => held e.2) (entries bp)) as Hhp by (rewrite Ep, Forall_fmap; exact Hh).
  assert ((entries bp).*1 = property_key <$> (entries bs).*1) as Ek by (by rewrite Ep, rekeyed_keys).
  assert (element_key <$> (property_key <$> (entries bs).*1) = (entries bs).*1) as Eback.
  { rewrite <- list_fmap_compose. rewrite <- (list_fmap_id (entries bs).*1) at 2.
    apply list_fmap_ext. intros i k Hi. apply element_property. by eapply (proj1 (Forall_lookup _ _) Hk). }
  destruct (to_symtable_ok EG1 properties bp Hwp Hnp Hhp self' always_duplicate immutable)
    as (EG2 & r' & ba & -> & Hwa & Ea).
  - rewrite Ek, Forall_fmap. eapply Forall_impl; [exact Hk|]. apply property_key_bytes.
  - rewrite Ek, Eback. apply (wf_keys _ _ Hwf).
  - cbn [mbind option_bind]. exists properties, bp, (converted_table properties r'), ba.
    split_and!; try done. rewrite Ea, Ep, <- list_fmap_compose.
    rewrite <- (list_fmap_id (entries bs)) at 2. apply list_fmap_ext. intros i [k z] Hi. cbn. f_equal.
    apply element_property. eapply (proj1 (Forall_lookup _ _) Hk i). by rewrite list_lookup_fmap, Hi.
Qed.
End Cast.

Arguments converted : clear implicits.

(** ** An example

    The table of [ZendHashInv] has the keys 19, 3 and "a". *)
Definition ex_no_ref (v : Z) : option (Z * Z) := None.

Example ex_cast :
  ('(properties, array) ← cast_there_and_back ex_no_ref ex_arr ex_globals 7 8 ex_table true false;
   Some ((fun c => option_map ZSTR_VAL (c ≫= key)) <$> take 3 (arData properties),
         (fun c => option_map h c) <$> take 2 (arData array)))
  = Some ([Some [49; 57]; Some [51]; Some [97]], [Some 19; Some 3]).
Proof. vm_compute. reflexivity. Qed.

Lemma zend_symtable_proptable_roundtrip_witness :
  exists properties bp array ba,
    cast_there_and_back ex_no_ref ex_arr ex_globals 7 8 ex_table true false = Some (properties, array) /\
    wf properties bp /\ entries bp = (fun e => (property_key e.1, e.2)) <$> entries ex_buckets /\
    wf array ba /\ entries ba = entries ex_buckets.
Proof.
  apply (zend_symtable_proptable_roundtrip ex_no_ref ex_arr ex_globals 7 8 ex_table ex_buckets true false ex_wf).
  - discriminate.
  - assert ((entries ex_buckets).*1 = [KInt 19; KInt 3; KStr [97]]) as -> by (vm_compute; reflexivity).
    apply Forall_cons. split; [split; [discriminate|reflexivity]|].
    apply Forall_cons. split; [split; [discriminate|reflexivity]|].
    apply Forall_singleton. split; [repeat constructor; discriminate|vm_compute; reflexivity].
  - assert ((entries ex_buckets) = [(KInt 19, IS_VAL 100); (KInt 3, IS_VAL 102); (KStr [97], IS_VAL 103)])
      as -> by (vm_compute; reflexivity). repeat constructor.
Defined.
