(* ===== verification/ZendHashCompare.v ===== *)
(** * The engine's hash table: comparing

    [zend_hash_compare] orders two tables by their numbers of elements and then element by element, either
    in the order of the tables or by key.  It is shown to answer 0 exactly for equal tables. *)
From S2P Require Import Prelude ZendString ZendHash OrderedMap ZendHashInv ZendHashRehash ZendHashUpdate ZendHashDelete ZendHashMap ZendHashOps ZendHashApply ZendHashCopy ZendHashDup.

Section Compare.
Context {V : Type}.
Implicit Types (b p : Bucket V) (bs : list (Bucket V)) (ar : list (option (Bucket V)))
  (ht : HashTable V) (EG : executor_globals V) (z : zval V) (m : list (hkey * zval V)).

(** The comparison of two values. *)
Variable compar : zval V -> zval V -> Z.

(** ** The code *)

(** [memcmp] on strings of the same length. *)
Fixpoint memcmp (s1 s2 : list Z) : Z :=
  match s1, s2 with
  | c1 :: s1, c2 :: s2 => if c1 =? c2 then memcmp s1 s2 else c1 - c2
  | _, _ => 0
  end.

(** The keys of two buckets: a string key is larger than an integer. *)
Definition compare_keys p1 p2 : Z :=
  match key p1, key p2 with
  | None, None => if h p1 =? h p2 then 0 else if h p2 <? h p1 then 1 else -1
  | Some k1, Some k2 =>
      if negb (ZSTR_LEN k1 =? ZSTR_LEN k2) then if ZSTR_LEN k2 <? ZSTR_LEN k1 then 1 else -1
      else memcmp (ZSTR_VAL k1) (ZSTR_VAL k2)
  | Some _, None => 1
  | None, Some _ => -1
  end.

(** The next live bucket of the second table from [idx2] on, with at most [n] to look at. *)
Fixpoint skip_undef (n : nat) ar (idx2 : Z) : option (Z * Bucket V) :=
  match n with
  | O => None
  | S n =>
      p2 ← bucket ar idx2;
      if Z_ISUNDEF (val p2) then skip_undef n ar (idx2 + 1) else Some (idx2, p2)
  end.

(** The value to compare that of [p1] with, and the next [idx2]; or the result of the function. *)
Definition partner EG ht2 (ordered : bool) p1 (idx2 : Z) : option (Z + zval V * Z) :=
  if ordered then
    '(idx2, p2) ← skip_undef (Z.to_nat (nNumUsed ht2 - idx2)) (arData ht2) idx2;
    let result := compare_keys p1 p2 in
    Some (if negb (result =? 0) then inl result else inr (val p2, idx2 + 1))
  else
    r ← (match key p1 with None => zend_hash_index_find ht2 (h p1) | Some k => zend_hash_find ht2 k end);
    match r with
    | None => Some (inl 1)
    | Some ref => z ← zread EG ht2 ref; Some (inr (z, idx2))
    end.

(** The end of the body: 0 is to go on. *)
Definition compare_values EG z1 z2 : option Z :=
  z1 ← deref EG z1; z2 ← deref EG z2;
  Some (if Z_ISUNDEF z1 then if negb (Z_ISUNDEF z2) then -1 else 0
        else if Z_ISUNDEF z2 then 1 else compar z1 z2).

Fixpoint compare_loop (n : nat) EG ht1 ht2 (ordered : bool) (idx1 idx2 : Z) : option Z :=
  match n with
  | O => Some 0
  | S n =>
      p1 ← bucket (arData ht1) idx1;
      if Z_ISUNDEF (val p1) then compare_loop n EG ht1 ht2 ordered (idx1 + 1) idx2
      else
        r ← partner EG ht2 ordered p1 idx2;
        match r with
        | inl result => Some result
        | inr (pData2, idx2) =>
            result ← compare_values EG (val p1) pData2;
            if negb (result =? 0) then Some result
            else compare_loop n EG ht1 ht2 ordered (idx1 + 1) idx2
        end
  end.

Definition zend_hash_compare_impl EG ht1 ht2 (ordered : bool) : option Z :=
  if negb (nNumOfElements ht1 =? nNumOfElements ht2)
  then Some (if nNumOfElements ht2 <? nNumOfElements ht1 then 1 else -1)
  else compare_loop (Z.to_nat (nNumUsed ht1)) EG ht1 ht2 ordered 0 0.

(** [recursive]: whether the first table is being compared already, which is a fatal error.  Here the flag is
    a parameter, as [compar] cannot set it. *)
Inductive compared := Result (result : Z) | Fatal_error.

Definition zend_hash_compare EG ht1 ht2 (ordered recursive : bool) : option compared :=
  if addr ht1 =? addr ht2 then Some (Result 0)
  else if recursive then Some Fatal_error
  else result ← zend_hash_compare_impl EG ht1 ht2 ordered; Some (Result result).

(** ** Equal tables *)

(** Two values that the loop goes over: both undefined, or both not and the same for [compar]. *)
Definition same_value z1 z2 : Prop :=
  if Z_ISUNDEF z1 then Z_ISUNDEF z2 = true else Z_ISUNDEF z2 = false /\ compar z1 z2 = 0.

(** The value behind a pointer. *)
Definition content EG z : zval V := default IS_UNDEF (deref EG z).

Definition same_element EG (e1 e2 : hkey * zval V) : Prop :=
  e1.1 = e2.1 /\ same_value (content EG e1.2) (content EG e2.2).

(** The same keys with the same values; when [ordered] in the same order. *)
Definition same_map EG (ordered : bool) m1 m2 : Prop :=
  if ordered then Forall2 (same_element EG) m1 m2
  else length m1 = length m2 /\
    Forall (fun e1 => exists z2, om_lookup e1.1 m2 = Some z2 /\ same_element EG e1 (e1.1, z2)) m1.

(** ** The parts of the loop *)
Lemma memcmp_zero s1 : forall s2, length s1 = length s2 -> memcmp s1 s2 = 0 <-> s1 = s2.
Proof using.
  induction s1 as [|c1 s1 IH]; intros [|c2 s2] Hl; try done. cbn [memcmp]. injection Hl as Hl.
  destruct (Z.eqb_spec c1 c2) as [->|Hne].
  - rewrite (IH s2 Hl). split; congruence.
  - split; [lia|congruence].
Qed.

Lemma compare_keys_zero p1 p2 : compare_keys p1 p2 = 0 <-> bkey p1 = bkey p2.
Proof using.
  unfold compare_keys, bkey. destruct (key p1) as [k1|], (key p2) as [k2|]; try (split; [lia|congruence]).
  - unfold ZSTR_LEN. destruct (Z.eqb_spec (Z.of_nat (length (ZSTR_VAL k1))) (Z.of_nat (length (ZSTR_VAL k2)))) as [E|E];
      cbn [negb].
    + rewrite memcmp_zero by lia. split; congruence.
    + split; [destruct (_ <? _); lia|]. intros [= Es]. by rewrite Es in E.
  - destruct (Z.eqb_spec (h p1) (h p2)) as [->|E]; [done|]. split; [destruct (_ <? _); lia|congruence].
Qed.

Section Loop.
Context (EG : executor_globals V) (ht1 ht2 : HashTable V).

Lemma deref_content b : sound_bucket EG b -> deref EG (val b) = Some (content EG (val b)).
Proof using.
  intros Hb. unfold content, deref, sound_bucket in *. destruct (val b); try done. by destruct Hb as (z & -> & _).
Qed.

Lemma compare_values_zero b1 b2 : sound_bucket EG b1 -> sound_bucket EG b2 ->
  exists r, compare_values EG (val b1) (val b2) = Some r /\
    (r = 0 <-> same_value (content EG (val b1)) (content EG (val b2))).
Proof using.
  intros H1 H2. unfold compare_values. rewrite !deref_content by done. cbn [mbind option_bind].
  eexists. split; [done|]. unfold same_value.
  destruct (Z_ISUNDEF (content EG (val b1))), (Z_ISUNDEF (content EG (val b2))); cbn [negb]; try done.
  all: split; [lia|]; try done. all: intros []; try done; lia.
Qed.

Lemma skip_undef_ok todo2 : forall n idx2, cells_at ht2 idx2 todo2 -> (length todo2 <= n)%nat ->
  (0 < length (entries todo2))%nat ->
  exists dead b rest, todo2 = dead ++ b :: rest /\ live b = true /\ entries dead = [] /\
    skip_undef n (arData ht2) idx2 = Some (idx2 + Z.of_nat (length dead), b).
Proof using.
  induction todo2 as [|b todo2 IH]; intros n idx2 Hc Hn Hl; [cbn in Hl; lia|].
  destruct n as [|n]; [cbn in Hn; lia|]. apply cells_at_cons in Hc as [Hb Hc]. cbn [skip_undef].
  rewrite Hb. cbn [mbind option_bind]. rewrite undef_live. rewrite entries_cons in Hl.
  destruct (live b) eqn:El; cbn [negb].
  - exists [], b, todo2. by rewrite Z.add_0_r.
  - destruct (IH n (idx2 + 1) Hc) as (dead & b' & rest & -> & Hb' & He & Es); [cbn in Hn; lia|done|].
    exists (b :: dead), b', rest. split_and!; [done|done|by rewrite entries_cons, El|].
    rewrite Es. cbn [length]. do 2 f_equal. lia.
Qed.

Lemma cells_at_app idx bs1 bs2 : cells_at ht2 idx (bs1 ++ bs2) -> cells_at ht2 (idx + Z.of_nat (length bs1)) bs2.
Proof using.
  intros H j b Hj. specialize (H (length bs1 + j)%nat b). rewrite Nat2Z.inj_add, Z.add_assoc in H. apply H.
  rewrite lookup_app_r by lia. rewrite <- Hj. f_equal. lia.
Qed.

(** In the order of the tables. *)
Lemma compare_ordered_ok todo1 : forall todo2 idx1 idx2,
  cells_at ht1 idx1 todo1 -> cells_at ht2 idx2 todo2 -> nNumUsed ht2 = idx2 + Z.of_nat (length todo2) ->
  Forall (sound_bucket EG) todo1 -> Forall (sound_bucket EG) todo2 ->
  length (entries todo1) = length (entries todo2) ->
  exists r, compare_loop (length todo1) EG ht1 ht2 true idx1 idx2 = Some r /\
    (r = 0 <-> Forall2 (same_element EG) (entries todo1) (entries todo2)).
Proof using.
  induction todo1 as [|b1 todo1 IH]; intros todo2 idx1 idx2 Hc1 Hc2 Hu Hs1 Hs2 Hl.
  - exists 0. split; [done|]. symmetry in Hl. cbn in Hl. apply length_zero_iff_nil in Hl as ->.
    split; [constructor|done].
  - apply cells_at_cons in Hc1 as [Hb1 Hc1]. apply Forall_cons in Hs1 as [Hsb1 Hs1].
    cbn [length compare_loop]. rewrite Hb1. cbn [mbind option_bind]. rewrite undef_live.
    rewrite entries_cons in Hl |- *. destruct (live b1) eqn:El; cbn [negb]; [|by apply IH].
    cbn [length] in Hl. cbn [partner].
    destruct (skip_undef_ok todo2 (Z.to_nat (nNumUsed ht2 - idx2)) idx2 Hc2) as (dead & b2 & rest & -> & El2 & Ed & ->);
      [lia|lia|]. cbn [mbind option_bind].
    rewrite entries_app, Ed, entries_cons, El2 in Hl |- *. cbn [app length] in Hl |- *.
    apply Forall_app in Hs2 as [_ Hs2]. apply Forall_cons in Hs2 as [Hsb2 Hs2].
    setoid_rewrite Forall2_cons. unfold same_element at 1. cbn [fst snd].
    destruct (Z.eqb_spec (compare_keys b1 b2) 0) as [Ek|Ek]; cbn [negb].
    2:{ eexists. split; [done|]. split; [done|]. intros [[H _] _]. by apply compare_keys_zero in H. }
    apply compare_keys_zero in Ek. destruct (compare_values_zero b1 b2 Hsb1 Hsb2) as (r & -> & Hr).
    cbn [mbind option_bind]. destruct (Z.eqb_spec r 0) as [E0|E0]; cbn [negb].
    2:{ exists r. split; [done|]. split; [done|]. intros [[_ H] _]. by apply Hr in H. }
    apply Hr in E0. apply cells_at_app in Hc2. apply cells_at_cons in Hc2 as [_ Hc2].
    destruct (IH rest (idx1 + 1) (idx2 + Z.of_nat (length dead) + 1) Hc1 Hc2) as (r' & -> & Hr'); try done; [|lia|].
    { rewrite length_app in Hu. cbn in Hu. lia. }
    exists r'. split; [done|]. rewrite Hr'. tauto.
Qed.

(** By key. *)
Context (bs2 : list (Bucket V)).
Hypothesis Hwf2 : wf ht2 bs2.
Hypothesis Hsound2 : Forall (sound_bucket EG) bs2.

Lemma partner_by_key b idx2 : live b = true -> bucket_ok (nNextFreeElement ht1) b ->
  exists r, partner EG ht2 false b idx2 = Some r /\
    match om_lookup (bkey b) (entries bs2) with
    | None => r = inl 1
    | Some z => r = inr (z, idx2) /\ exists b2, z = val b2 /\ sound_bucket EG b2
    end.
Proof using Hwf2 Hsound2.
  intros Hl Hok. destruct (Hok Hl) as (_ & Hh & _). unfold partner.
  assert (looks_up EG ht2 bs2 (bkey b)
    (match key b with None => zend_hash_index_find ht2 (h b) | Some k => zend_hash_find ht2 k end)) as Hlk.
  { unfold bkey. destruct (key b); [by apply find_looks_up|by apply index_find_looks_up; [|lia]]. }
  destruct Hlk as (ref & -> & Hr). cbn [mbind option_bind]. destruct ref as [ref|].
  - destruct Hr as (z & Hz & Hr). rewrite Hz, Hr. cbn [mbind option_bind].
    eexists. split; [done|]. split; [done|].
    destruct (key_cases _ _ (bkey b) Hwf2) as [(bs1 & b2 & bs3 & Hhd)|Hk].
    + exists b2. rewrite (holds_entries _ _ _ _ _ Hhd), om_lookup_middle in Hr by apply Hhd.
      injection Hr as ->. split; [done|]. rewrite Forall_forall in Hsound2. apply Hsound2.
      destruct Hhd as (-> & _). apply elem_of_app. right. by left.
    + apply om_lookup_None in Hk. congruence.
  - eexists. split; [done|]. by rewrite Hr.
Qed.

Lemma compare_by_key_ok todo1 : forall idx1 idx2,
  cells_at ht1 idx1 todo1 -> Forall (sound_bucket EG) todo1 ->
  Forall (bucket_ok (nNextFreeElement ht1)) todo1 ->
  exists r, compare_loop (length todo1) EG ht1 ht2 false idx1 idx2 = Some r /\
    (r = 0 <-> Forall (fun e1 => exists z2, om_lookup e1.1 (entries bs2) = Some z2 /\
                        same_element EG e1 (e1.1, z2)) (entries todo1)).
Proof using Hwf2 Hsound2.
  induction todo1 as [|b1 todo1 IH]; intros idx1 idx2 Hc1 Hs1 Hok.
  - exists 0. split; [done|]. split; [constructor|done].
  - apply cells_at_cons in Hc1 as [Hb1 Hc1]. apply Forall_cons in Hs1 as [Hsb1 Hs1].
    apply Forall_cons in Hok as [Hokb Hok]. cbn [length compare_loop]. rewrite Hb1. cbn [mbind option_bind].
    rewrite undef_live, entries_cons. destruct (live b1) eqn:El; cbn [negb]; [|by apply IH].
    destruct (partner_by_key b1 idx2 El Hokb) as (r & -> & Hr). cbn [mbind option_bind].
    setoid_rewrite Forall_cons. cbn [fst snd]. destruct (om_lookup (bkey b1) (entries bs2)) as [z|].
    2:{ subst r. exists 1. split; [done|]. split; [done|]. by intros [(z2 & H & _) _]. }
    destruct Hr as (-> & b2 & -> & Hsb2).
    destruct (compare_values_zero b1 b2 Hsb1 Hsb2) as (r & -> & Hr). cbn [mbind option_bind].
    destruct (Z.eqb_spec r 0) as [E0|E0]; cbn [negb].
    2:{ exists r. split; [done|]. split; [done|]. intros [(z2 & [= <-] & _ & H) _]. by apply Hr in H. }
    apply Hr in E0. destruct (IH (idx1 + 1) idx2 Hc1 Hs1 Hok) as (r' & -> & Hr').
    exists r'. split; [done|]. rewrite Hr'. split; [|by intros [_ H]]. intros H. split; [|done].
    exists (val b2). by split.
Qed.
End Loop.

Lemma same_map_length EG (ordered : bool) m1 m2 : same_map EG ordered m1 m2 -> length m1 = length m2.
Proof using. unfold same_map. destruct ordered; [apply Forall2_length|by intros []]. Qed.

(** C26: comparing two different tables always gives a number: -1 or 1 when one has fewer or more elements, and
    0 exactly when they are equal, that is, when they have the same keys, with values, or variables behind
    pointers, that [compar] does not tell apart or that are both undefined; and, if asked for, in the same
    order. *)
Theorem zend_hash_compare_equal EG ht1 ht2 bs1 bs2 (ordered : bool) :
  wf ht1 bs1 -> wf ht2 bs2 -> sound EG bs1 -> sound EG bs2 -> addr ht1 <> addr ht2 ->
  exists r, zend_hash_compare EG ht1 ht2 ordered false = Some (Result r) /\
    (r = 0 <-> same_map EG ordered (entries bs1) (entries bs2)) /\
    ((length (entries bs1) < length (entries bs2))%nat -> r = -1) /\
    ((length (entries bs2) < length (entries bs1))%nat -> r = 1).
Proof using.
  intros Hwf1 Hwf2 Hs1 Hs2 Ha. unfold zend_hash_compare, zend_hash_compare_impl.
  rewrite (proj2 (Z.eqb_neq _ _) Ha), (wf_elems _ _ Hwf1), (wf_elems _ _ Hwf2).
  destruct (Z.eqb_spec (Z.of_nat (length (entries bs1))) (Z.of_nat (length (entries bs2)))) as [E|E]; cbn [negb].
  - rewrite (wf_used _ _ Hwf1), Nat2Z.id.
    assert (cells_at ht1 0 bs1) as Hc1 by (intros j b Hj; by apply (wf_bucket _ _ _ _ Hwf1)).
    assert (cells_at ht2 0 bs2) as Hc2 by (intros j b Hj; by apply (wf_bucket _ _ _ _ Hwf2)).
    destruct ordered.
    + destruct (compare_ordered_ok EG ht1 ht2 bs1 bs2 0 0 Hc1 Hc2 (wf_used _ _ Hwf2) Hs1 Hs2) as (r & -> & Hr); [lia|].
      exists r. split; [done|]. split; [done|]. lia.
    + destruct (compare_by_key_ok EG ht1 ht2 bs2 Hwf2 Hs2 bs1 0 0 Hc1 Hs1 (wf_buckets _ _ Hwf1)) as (r & -> & Hr).
      exists r. split; [done|]. split; [|lia]. cbn [same_map]. rewrite Hr. split; [|by intros []].
      split; [lia|done].
  - eexists. split; [done|]. split.
    + split; [destruct (_ <? _); lia|]. intros H%same_map_length. lia.
    + destruct (Z.ltb_spec (Z.of_nat (length (entries bs2))) (Z.of_nat (length (entries bs1)))); lia.
Qed.
End Compare.

Arguments compared : clear implicits.

(** ** An example *)
Definition ex_difference (z1 z2 : zval Z) : Z :=
  match z1, z2 with IS_VAL v1, IS_VAL v2 => v1 - v2 | _, _ => 0 end.

(** The table of [ZendHashInv] at another address, with the value of its first element changed. *)
Definition ex_other (v : Z) : HashTable Z :=
  {| ex_table with addr := 2;
     arData := <[0%nat := Some (ex_bucket (IS_VAL v) HT_INVALID_IDX 19 None)]> (arData ex_table) |}.

Example ex_compared :
  zend_hash_compare ex_difference ex_globals ex_table (ex_other 100) true false = Some (Result 0) /\
  zend_hash_compare ex_difference ex_globals ex_table (ex_other 105) false false = Some (Result (-5)).
Proof. vm_compute. done. Qed.

Definition ex_twin : HashTable Z := {| ex_table with addr := 2 |}.

Lemma ex_twin_wf : wf ex_twin ex_buckets.
Proof. by destruct ex_wf. Qed.

Lemma zend_hash_compare_equal_witness :
  exists r, zend_hash_compare ex_difference ex_globals ex_table ex_twin false false = Some (Result r) /\
    (r = 0 <-> same_map ex_difference ex_globals false (entries ex_buckets) (entries ex_buckets)) /\
    ((length (entries ex_buckets) < length (entries ex_buckets))%nat -> r = -1) /\
    ((length (entries ex_buckets) < length (entries ex_buckets))%nat -> r = 1).
Proof.
  apply (zend_hash_compare_equal ex_difference ex_globals ex_table ex_twin ex_buckets ex_buckets false ex_wf ex_twin_wf).
  - repeat constructor.
  - repeat constructor.
  - discriminate.
Defined.
