(* ===== verification/ZendHashEdges.v ===== *)
(** * The engine's hash table: behaviours at the edges

    Concrete runs of the model that show where the code departs from what its comments or its
    callers expect. *)
From S2P Require Import Prelude ZendString ZendHash OrderedMap ZendHashInv ZendHashOps.

(** The next power of two after 2^30 is still below [HT_MAX_SIZE], but a table of that size has the
    mask 0, hence no chain heads at all: [nIndex] is then the hash itself. *)
Lemma largest_size_has_no_heads :
  HT_SIZE_TO_MASK (2 ^ 31) = 0 /\ HT_HASH_SIZE (HT_SIZE_TO_MASK (2 ^ 31)) = 0 /\
  2 ^ 30 < HT_MAX_SIZE.
Proof. by vm_compute. Qed.

(** A table with a tombstone at 1 and an iterator on element 0. *)
Definition iterated : option (executor_globals Z * HashTable Z) :=
  ht ← _zend_hash_init 1 8 false false;
  '(EG, ht, _) ← zend_hash_index_update ex_globals ht 20 (IS_VAL 100);
  '(EG, ht, _) ← zend_hash_index_update EG ht 21 (IS_VAL 101);
  '(EG, ht, _) ← zend_hash_index_update EG ht 22 (IS_VAL 102);
  '(EG, ht, _) ← zend_hash_iterator_add EG ht 0;
  '(EG, ht, _) ← zend_hash_index_del EG ht 21;
  Some (EG, ht).

(** The value under iterator 0, and those of the first two buckets. *)
Definition under_iterator (st : executor_globals Z * HashTable Z) :
  option (zval Z * list (option (zval Z))) :=
  it ← ht_iterators st.1 !! 0%nat;
  p ← bucket (arData st.2) (iter_pos it);
  Some (val p, map (option_map val) (take 2 (arData st.2))).

(** Compacting the table moves the iterator from element 0, which stays where it is, to the element
    that follows the hole. *)
Lemma rehash_moves_iterator_before_hole :
  (st ← iterated; under_iterator st) = Some (IS_VAL 100, [Some (IS_VAL 100); Some IS_UNDEF]) /\
  (st ← iterated; st ← zend_hash_rehash st.1 st.2; under_iterator st)
  = Some (IS_VAL 102, [Some (IS_VAL 100); Some (IS_VAL 102)]).
Proof. vm_compute. split; reflexivity. Qed.

(** An empty table created for 16 elements with an iterator on it: allocating its block forgets the
    iterator count. *)
Lemma real_init_forgets_iterators :
  (ht ← _zend_hash_init (V := Z) 1 16 false false;
   '(EG, ht, _) ← zend_hash_iterator_add ex_globals ht 0;
   '(EG', ht', _) ← zend_hash_update EG ht (ex_key [97]) (IS_VAL 1);
   Some (nIteratorsCount ht, nIteratorsCount ht')) = Some (1, 0).
Proof. vm_compute. reflexivity. Qed.

(** A full packed table whose last element was deleted, to which [zend_hash_next_index_insert_new]
    appends: the bucket of the deleted element lies below [nNumUsed] but was never written in the
    block that [zend_hash_packed_grow] allocated. *)
Fixpoint append (n : nat) (EG : executor_globals Z) (ht : HashTable Z) :
  option (executor_globals Z * HashTable Z) :=
  match n with
  | O => Some (EG, ht)
  | S n => '(EG, ht, _) ← zend_hash_next_index_insert EG ht (IS_VAL 1); append n EG ht
  end.

Lemma insert_new_leaves_bucket_unwritten :
  (ht ← _zend_hash_init 1 8 false false;
   '(EG, ht, _) ← zend_hash_index_update ex_globals ht 0 (IS_VAL 1);
   '(EG, ht) ← append 7 EG ht;
   '(EG, ht, _) ← zend_hash_index_del EG ht 7;
   '(EG, ht, _) ← zend_hash_next_index_insert_new EG ht (IS_VAL 2);
   Some (nNumUsed ht, arData ht !! 7%nat)) = Some (9, Some None).
Proof. vm_compute. reflexivity. Qed.
