(* ===== verification/ZendList.v ===== *)
(** * Resource lists ([zend_list.c])

    A resource is a counted pointer of some registered type.  The regular list maps the handles to the
    resources that are alive, the table [list_destructors] the types to their destructors.  Both are hash
    tables with integer keys; what this file needs of them is the class [IndexTable] with its laws, which
    [ZendListHash] discharges for the engine's hash table.

    The destructors of resources are C functions outside the model: a call is recorded with the function
    and the resource it gets.  They are taken not to touch the lists themselves. *)
From S2P Require Import Prelude OrderedMap.

(** ** Tables with integer keys *)
Class IndexTable (T A : Type) := {
  next_free_element : T -> Z;
  set_next_free_element : T -> Z -> T;
  (** The new table and the stored pointer, [None] for NULL. *)
  index_add_new : T -> Z -> A -> option (T * option A);
  next_index_insert : T -> A -> option (T * option A);
  index_del : T -> Z -> option (T * Z);
  index_find_ptr : T -> Z -> option (option A);
  (** The elements a [foreach] visits. *)
  foreach_ptr : T -> option (list A);
  graceful_reverse_destroy : T -> option T;
  (** What the destructor of the table has been called with. *)
  destroyed_values : T -> list A }.

Arguments next_free_element {T A _}.
Arguments set_next_free_element {T A _}.
Arguments graceful_reverse_destroy {T A _}.

(** [represents n t m]: after at most [n] calls, the table [t] holds the elements [m], in this order. *)
Class IndexTableLaws (T A : Type) `{IndexTable T A} := {
  represents : Z -> T -> list (Z * A) -> Prop;
  table_later : forall n n' t m, represents n t m -> n <= n' -> represents n' t m;
  table_keys : forall n t m, represents n t m ->
    0 <= next_free_element t <= ZEND_LONG_MAX /\ NoDup m.*1 /\ forall k, k ∈ m.*1 -> 0 <= k < next_free_element t;
  table_add : forall n t m k x, represents n t m -> 0 <= n < 2 ^ 26 -> next_free_element t <= k < ZEND_LONG_MAX ->
    exists t', index_add_new t k x = Some (t', Some x) /\ represents (n + 1) t' (m ++ [(k, x)]) /\
      next_free_element t' = k + 1 /\ destroyed_values t' = destroyed_values t;
  table_next_insert : forall n t m x, represents n t m -> 0 <= n < 2 ^ 26 -> next_free_element t < ZEND_LONG_MAX ->
    exists t', next_index_insert t x = Some (t', Some x) /\
      represents (n + 1) t' (m ++ [(next_free_element t, x)]) /\
      next_free_element t' = next_free_element t + 1 /\ destroyed_values t' = destroyed_values t;
  table_del : forall n t m k x, represents n t m -> 0 <= n < 2 ^ 26 -> om_lookup k m = Some x ->
    exists t', index_del t k = Some (t', SUCCESS) /\ represents (n + 1) t' (om_delete k m) /\
      next_free_element t' = next_free_element t /\ destroyed_values t' = destroyed_values t ++ [x];
  table_find : forall n t m k, represents n t m -> 0 <= k < 2 ^ 63 -> index_find_ptr t k = Some (om_lookup k m);
  table_foreach : forall n t m, represents n t m -> foreach_ptr t = Some m.*2;
  table_destroy : forall n t m, represents n t m -> exists t',
    graceful_reverse_destroy t = Some t' /\ destroyed_values t' = destroyed_values t ++ reverse m.*2 }.

(** ** Resources *)
Definition INT_MAX : Z := 2 ^ 31 - 1.

Record zend_resource := { refcount : Z; handle : Z; type : Z; ptr : Z }.

(** Function pointers are numbers, [None] is NULL. *)
Record zend_rsrc_list_dtors_entry := {
  list_dtor_ex : option Z; plist_dtor_ex : option Z; type_name : option (list Z); module_number : Z;
  resource_id : Z }.

Inductive warning := UnknownType (type : Z) | InvalidResource.

Section List.
Context {T D : Type} `{IndexTable T Z, IndexTable D zend_rsrc_list_dtors_entry}.

(** The globals: the resources are at their addresses in [heap]; [calls] are the calls of destructors. *)
Record executor := {
  regular_list : T; list_destructors : D; heap : gmap Z zend_resource; calls : list (Z * zend_resource);
  warnings : list warning }.

Implicit Types st : executor.

Definition set_resource st (a : Z) (r : zend_resource) : executor := {| st with heap := <[a := r]> (heap st) |}.

(** The [int] that is passed for the [zend_ulong] key. *)
Definition int_key (i : Z) : Z := u64 i.

Definition zend_resource_dtor st (res : Z) : option executor :=
  r ← heap st !! res;
  let st := set_resource st res {| r with type := -1; ptr := 0 |} in
  ld ← index_find_ptr (list_destructors st) (int_key (type r));
  match ld with
  | Some ld =>
      match list_dtor_ex ld with
      | Some f => Some {| st with calls := calls st ++ [(f, r)] |}
      | None => Some st
      end
  | None => Some {| st with warnings := warnings st ++ [UnknownType (type r)] |}
  end.

Definition list_entry_destructor st (res : Z) : option executor :=
  r ← heap st !! res;
  st ← (if 0 <=? type r then zend_resource_dtor st res else Some st);
  Some {| st with heap := delete res (heap st) |}.

(** The table has a new state, and its destructor runs for every value it gave up. *)
Fixpoint destroy_entries st (zvs : list Z) : option executor :=
  match zvs with
  | [] => Some st
  | res :: zvs => st ← list_entry_destructor st res; destroy_entries st zvs
  end.

Definition with_list st (t : T) : option executor :=
  let old := length (destroyed_values (regular_list st)) in
  destroy_entries {| st with regular_list := t |} (drop old (destroyed_values t)).

(** [emalloc] gives the address [a].  [Some None] is the fatal error. *)
Definition zend_list_insert st (a ptr type : Z) : option (option (executor * option Z)) :=
  let index := i32 (next_free_element (regular_list st)) in
  if (negb (index =? 0)) && (index =? INT_MAX) then Some None
  else
    let index := if index =? 0 then 1 else index in
    let st := set_resource st a {| refcount := 1; handle := index; type := type; ptr := ptr |} in
    '(t, zv) ← index_add_new (regular_list st) (int_key index) a;
    Some (Some ({| st with regular_list := t |}, zv)).

(** The address of the resource. *)
Definition zend_register_resource st (a rsrc_pointer rsrc_type : Z) : option (option (executor * Z)) :=
  r ← zend_list_insert st a rsrc_pointer rsrc_type;
  match r with
  | Some (st, zv) => res ← zv; Some (Some (st, res))
  | None => Some None
  end.

Definition list_remove st (r : zend_resource) : option (executor * Z) :=
  '(t, status) ← index_del (regular_list st) (int_key (handle r));
  st ← with_list st t;
  Some (st, status).

(** The reference count is unsigned. *)
Definition zend_list_delete st (res : Z) : option (executor * Z) :=
  r ← heap st !! res;
  let r := {| r with refcount := u32 (refcount r - 1) |} in
  let st := set_resource st res r in
  if refcount r <=? 0 then list_remove st r else Some (st, SUCCESS).

Definition zend_list_free st (res : Z) : option (executor * Z) :=
  r ← heap st !! res;
  if refcount r <=? 0 then list_remove st r else Some (st, SUCCESS).

Definition zend_list_close st (res : Z) : option (executor * Z) :=
  r ← heap st !! res;
  if refcount r <=? 0 then zend_list_free st res
  else if 0 <=? type r then st ← zend_resource_dtor st res; Some (st, SUCCESS)
  else Some (st, SUCCESS).

(** The result is 0 for NULL; [named] says whether a type name was passed. *)
Definition zend_fetch_resource st (res : Z) (named : bool) (resource_type : Z) : option (executor * Z) :=
  r ← heap st !! res;
  if resource_type =? type r then Some (st, ptr r)
  else Some (if named then {| st with warnings := warnings st ++ [InvalidResource] |} else st, 0).

(** [res] is [None] for NULL. *)
Definition zend_fetch_resource2 st (res : option Z) (named : bool) (type1 type2 : Z) : option (executor * Z) :=
  let fail := Some (if named then {| st with warnings := warnings st ++ [InvalidResource] |} else st, 0) in
  match res with
  | None => fail
  | Some res =>
      r ← heap st !! res;
      if type1 =? type r then Some (st, ptr r) else if type2 =? type r then Some (st, ptr r) else fail
  end.

(** The loop of [zend_close_rsrc_list]. *)
Fixpoint close_all st (entries : list Z) : option executor :=
  match entries with
  | [] => Some st
  | res :: entries =>
      r ← heap st !! res;
      st ← (if 0 <=? type r then zend_resource_dtor st res else Some st);
      close_all st entries
  end.

Definition zend_close_rsrc_list st : option executor :=
  entries ← foreach_ptr (regular_list st); close_all st (reverse entries).

Definition zend_destroy_rsrc_list st : option executor :=
  t ← graceful_reverse_destroy (regular_list st); with_list st t.

(** ** Types *)
Definition zend_init_rsrc_list_dtors st (empty : D) : executor * Z :=
  ({| st with list_destructors := set_next_free_element empty 1 |}, SUCCESS).

Definition zend_register_list_destructors_ex st (ld pld : option Z) (name : option (list Z)) (module : Z) :
  option (executor * Z) :=
  let lde := {| list_dtor_ex := ld; plist_dtor_ex := pld; type_name := name; module_number := module;
                resource_id := i32 (next_free_element (list_destructors st)) |} in
  '(d, zv) ← next_index_insert (list_destructors st) lde;
  let st := {| st with list_destructors := d |} in
  match zv with
  | None => Some (st, FAILURE)
  | Some _ => Some (st, i32 (next_free_element d - 1))
  end.

Fixpoint find_type (name : list Z) (ldes : list zend_rsrc_list_dtors_entry) : Z :=
  match ldes with
  | [] => 0
  | lde :: ldes => if bool_decide (type_name lde = Some name) then resource_id lde else find_type name ldes
  end.

Definition zend_fetch_list_dtor_id st (name : list Z) : option Z :=
  ldes ← foreach_ptr (list_destructors st); Some (find_type name ldes).

Definition zend_rsrc_list_get_rsrc_type st (res : Z) : option (option (list Z)) :=
  r ← heap st !! res;
  lde ← index_find_ptr (list_destructors st) (int_key (type r));
  Some (match lde with Some lde => type_name lde | None => None end).

(** ** What clients do, by the address of the resource *)
Inductive event := Insert (a ptr type : Z) | AddRef (a : Z) | Delete (a : Z) | Close (a : Z).

Definition run_event st (ev : event) : option executor :=
  match ev with
  | Insert a p t =>
      r ← zend_register_resource st a p t;
      match r with Some (st, _) => Some st | None => None end
  | AddRef a => r ← heap st !! a; Some (set_resource st a {| r with refcount := u32 (refcount r + 1) |})
  | Delete a => r ← zend_list_delete st a; Some r.1
  | Close a => r ← zend_list_close st a; Some r.1
  end.

Fixpoint run_events st (evs : list event) : option executor :=
  match evs with
  | [] => Some st
  | ev :: evs => st ← run_event st ev; run_events st evs
  end.

(** The end of a request. *)
Definition shutdown st : option executor := st ← zend_close_rsrc_list st; zend_destroy_rsrc_list st.
End List.
Arguments executor : clear implicits.

(** ** Specification

    A live resource is its number of references and, until it is closed, its type and pointer; they are
    listed in the order of registration.  The log has the calls of the destructors of types [dm]. *)
Definition rsrc : Type := Z * option (Z * Z).

Section Spec.
Context (dm : list (Z * zend_rsrc_list_dtors_entry)).

Definition dtor_call (tp : Z * Z) : list (Z * Z * Z) :=
  match om_lookup tp.1 dm with
  | Some ld => match list_dtor_ex ld with Some f => [(f, tp.1, tp.2)] | None => [] end
  | None => []
  end.

Definition closing (o : option (Z * Z)) : list (Z * Z * Z) := match o with Some tp => dtor_call tp | None => [] end.

Definition registered (t : Z) : bool :=
  in_range 0 (2 ^ 31) t && match om_lookup t dm with Some _ => true | None => false end.

(** [None] for an event no client may cause. *)
Definition spec_event (m : list (Z * rsrc)) (log : list (Z * Z * Z)) (ev : event) :
  option (list (Z * rsrc) * list (Z * Z * Z)) :=
  match ev with
  | Insert a p t =>
      match om_lookup a m with
      | Some _ => None
      | None => if registered t then Some (m ++ [(a, (1, Some (t, p)))], log) else None
      end
  | AddRef a =>
      '(n, o) ← om_lookup a m;
      if n <? 2 ^ 31 then Some (om_insert a (n + 1, o) m, log) else None
  | Delete a =>
      '(n, o) ← om_lookup a m;
      if n =? 1 then Some (om_delete a m, log ++ closing o) else Some (om_insert a (n - 1, o) m, log)
  | Close a => '(n, o) ← om_lookup a m; Some (om_insert a (n, None) m, log ++ closing o)
  end.

Fixpoint spec_events m log (evs : list event) : option (list (Z * rsrc) * list (Z * Z * Z)) :=
  match evs with
  | [] => Some (m, log)
  | ev :: evs => '(m, log) ← spec_event m log ev; spec_events m log evs
  end.

(** The destructor calls due for what a run registers. *)
Definition due (evs : list event) : list (Z * Z * Z) :=
  concat ((fun ev => match ev with Insert _ p t => dtor_call (t, p) | _ => [] end) <$> evs).

Definition open_calls (m : list (Z * rsrc)) : list (Z * Z * Z) := concat ((fun e => closing e.2.2) <$> m).

Lemma om_split (m : list (Z * rsrc)) a x : om_lookup a m = Some x -> exists m1 m2,
  m = m1 ++ (a, x) :: m2 /\ a ∉ m1.*1.
Proof.
  induction m as [|[b y] m IH]; cbn; [done|]. destruct (decide (a = b)) as [<-|Hne].
  - intros [= ->]. exists [], m. split; [done|]. apply not_elem_of_nil.
  - intros (m1 & m2 & -> & Hm1)%IH. exists ((b, y) :: m1), m2. split; [done|]. cbn.
    apply not_elem_of_cons. by split.
Qed.

(** Every call that is due has been made, or is for a resource that is still open. *)
Lemma spec_event_conserves m log ev m' log' : spec_event m log ev = Some (m', log') ->
  log' ++ open_calls m' ≡ₚ log ++ open_calls m ++ due [ev].
Proof.
  unfold open_calls, due. destruct ev as [a p t|a|a|a]; cbn [spec_event fmap list_fmap concat];
    rewrite ?app_nil_r.
  - destruct (om_lookup a m); [done|]. destruct (registered t); [|done]. intros [= <- <-].
    rewrite fmap_app, concat_app. cbn. by rewrite app_nil_r.
  - destruct (om_lookup a m) as [[n o]|] eqn:E; [|done]. cbn. case_match; [|done]. intros [= <- <-].
    apply om_split in E as (m1 & m2 & -> & Hm1). rewrite om_insert_middle by done.
    by rewrite !fmap_app, !concat_app.
  - destruct (om_lookup a m) as [[n o]|] eqn:E; [|done]. cbn.
    apply om_split in E as (m1 & m2 & -> & Hm1). rewrite om_insert_middle, om_delete_middle by done.
    case_match; intros [= <- <-]; rewrite !fmap_app, !concat_app; [|done]. cbn. solve_Permutation.
  - destruct (om_lookup a m) as [[n o]|] eqn:E; [|done]. cbn. intros [= <- <-].
    apply om_split in E as (m1 & m2 & -> & Hm1). rewrite om_insert_middle by done.
    rewrite !fmap_app, !concat_app. cbn. solve_Permutation.
Qed.

Lemma spec_events_conserve evs : forall m log m' log', spec_events m log evs = Some (m', log') ->
  log' ++ open_calls m' ≡ₚ log ++ open_calls m ++ due evs.
Proof.
  induction evs as [|ev evs IH]; intros m log m' log' E; cbn [spec_events] in E.
  - injection E as <- <-. by rewrite app_nil_r.
  - destruct (spec_event m log ev) as [[m1 log1]|] eqn:E1; [|done]. cbn in E. apply IH in E as ->.
    apply spec_event_conserves in E1. rewrite app_assoc, E1. unfold due. cbn.
    by rewrite app_nil_r, <- !app_assoc.
Qed.
End Spec.

(** ** The lists implement the specification *)
Section Refinement.
Context {T D : Type} `{IndexTableLaws T Z, IndexTableLaws D zend_rsrc_list_dtors_entry}.
Context (dm : list (Z * zend_rsrc_list_dtors_entry)).
Implicit Types (st : executor T D) (m : list (Z * rsrc)) (hm : list (Z * Z)).

Definition resource_of (h : Z) (x : rsrc) : zend_resource :=
  {| refcount := x.1; handle := h;
     type := match x.2 with Some (t, _) => t | None => -1 end;
     ptr := match x.2 with Some (_, p) => p | None => 0 end |}.

Definition open_ok (o : option (Z * Z)) : Prop :=
  match o with Some (t, _) => registered dm t = true | None => True end.

Definition logged (c : Z * zend_resource) : Z * Z * Z := (c.1, type c.2, ptr c.2).

(** The entry of the table, handle and address, of a live resource. *)
Definition entry_ok (hp : gmap Z zend_resource) (e : Z * Z) (r : Z * rsrc) : Prop :=
  e.2 = r.1 /\ 1 <= e.1 < INT_MAX /\ hp !! r.1 = Some (resource_of e.1 r.2) /\ 1 <= r.2.1 <= 2 ^ 31 /\ open_ok r.2.2.

(** Everything but the regular list and the heap. *)
Record same_globals st st' : Prop := {
  sg_dtors : list_destructors st' = list_destructors st;
  sg_warnings : warnings st' = warnings st }.

(** After at most [n] calls [st] stands for the live resources [m] and the log. *)
Record rep (n : Z) st hm m (log : list (Z * Z * Z)) : Prop := {
  rep_table : represents n (regular_list st) hm;
  rep_entries : Forall2 (entry_ok (heap st)) hm m;
  rep_keys : NoDup m.*1;
  rep_dom : forall a, a ∉ m.*1 -> heap st !! a = None;
  rep_next : next_free_element (regular_list st) <= n + 1;
  rep_log : logged <$> calls st = log;
  rep_types : exists n2, represents n2 (list_destructors st) dm }.

Lemma entries_frame hp hp' hm m : Forall2 (entry_ok hp) hm m ->
  (forall a, a ∈ m.*1 -> hp' !! a = hp !! a) -> Forall2 (entry_ok hp') hm m.
Proof.
  induction 1 as [|e [a x] hm m (E1 & E2 & E3 & E4) Hm IH]; intros Hf; constructor.
  - unfold entry_ok in *. cbn [fst] in *. rewrite Hf; [done|]. by left.
  - apply IH. intros b Hb. apply Hf. by right.
Qed.

(** What the entry of a live resource is surrounded by. *)
Lemma rep_split n st hm m log a x : rep n st hm m log -> om_lookup a m = Some x ->
  exists m1 m2 hm1 h hm2, m = m1 ++ (a, x) :: m2 /\ hm = hm1 ++ (h, a) :: hm2 /\
    Forall2 (entry_ok (heap st)) hm1 m1 /\ Forall2 (entry_ok (heap st)) hm2 m2 /\
    entry_ok (heap st) (h, a) (a, x) /\ a ∉ m1.*1 /\ a ∉ m2.*1 /\ h ∉ hm1.*1.
Proof.
  intros Hr (m1 & m2 & -> & Hm1)%om_split. destruct Hr as [Ht He Hk _ _ _ _].
  apply Forall2_app_inv_r in He as (hm1 & l & He1 & He2 & ->).
  apply Forall2_cons_inv_r in He2 as ([h b] & hm2 & He & He2 & ->).
  pose proof He as (Hb & _). cbn in Hb. subst b.
  exists m1, m2, hm1, h, hm2. split_and!; try done.
  - rewrite fmap_app in Hk. cbn in Hk. apply NoDup_app in Hk as (_ & _ & Hk). by apply NoDup_cons in Hk as [? _].
  - destruct (table_keys _ _ _ Ht) as (_ & Hn & _). rewrite fmap_app in Hn. cbn in Hn.
    apply NoDup_app in Hn as (_ & Hn & _). intros Hin. apply (Hn h Hin). by left.
Qed.

Lemma handle_key h : 1 <= h < INT_MAX -> int_key h = h.
Proof. unfold INT_MAX, int_key, u64. intros Hh. rewrite uwrap_small; lia. Qed.

Lemma registered_key t : registered dm t = true ->
  0 <= t < 2 ^ 31 /\ exists ld, om_lookup t dm = Some ld.
Proof.
  unfold registered. intros [Ht Hl]%andb_prop. apply in_range_iff in Ht. split; [done|].
  destruct (om_lookup t dm) as [ld|]; [by exists ld|done].
Qed.

(** Calling the destructor of an open resource closes it. *)
Lemma resource_dtor_spec n2 st a h n t p : represents n2 (list_destructors st) dm ->
  heap st !! a = Some (resource_of h (n, Some (t, p))) -> registered dm t = true ->
  exists cs, logged <$> cs = dtor_call dm (t, p) /\
    zend_resource_dtor st a = Some {| regular_list := regular_list st; list_destructors := list_destructors st;
      heap := <[a := resource_of h (n, None)]> (heap st); calls := calls st ++ cs; warnings := warnings st |}.
Proof.
  intros Hd Ha Ht. destruct (registered_key t Ht) as (Hr & ld & Hld).
  unfold zend_resource_dtor, dtor_call. rewrite Ha. cbn [mbind option_bind fst snd resource_of type set_resource list_destructors].
  assert (int_key t = t) as -> by (unfold int_key, u64; rewrite uwrap_small; lia).
  rewrite (table_find n2 _ dm) by (done || lia). rewrite Hld. cbn [mbind option_bind].
  destruct (list_dtor_ex ld) as [f|].
  - by exists [(f, resource_of h (n, Some (t, p)))].
  - exists []. rewrite app_nil_r. by destruct st.
Qed.

(** The loop body of [zend_close_rsrc_list], the core of [zend_list_close], and of the entry destructor. *)
Lemma close_spec n2 st a h x : represents n2 (list_destructors st) dm ->
  heap st !! a = Some (resource_of h x) -> open_ok x.2 ->
  exists cs, logged <$> cs = closing dm x.2 /\
    (if 0 <=? type (resource_of h x) then zend_resource_dtor st a else Some st) =
    Some {| regular_list := regular_list st; list_destructors := list_destructors st;
      heap := <[a := resource_of h (x.1, None)]> (heap st); calls := calls st ++ cs; warnings := warnings st |}.
Proof.
  intros Hd Ha Ho. destruct x as [n [[t p]|]].
  - destruct (registered_key t Ho) as (Hr & _). cbn [snd resource_of type]. zbool. cbn [closing].
    by apply (resource_dtor_spec n2).
  - exists []. split; [done|]. cbn [snd resource_of type]. rewrite (insert_id _ _ _ Ha), app_nil_r. by destruct st.
Qed.

Lemma entry_destructor_spec n2 st a h x : represents n2 (list_destructors st) dm ->
  heap st !! a = Some (resource_of h x) -> open_ok x.2 ->
  exists cs, logged <$> cs = closing dm x.2 /\
    list_entry_destructor st a = Some {| regular_list := regular_list st;
      list_destructors := list_destructors st; heap := delete a (heap st); calls := calls st ++ cs;
      warnings := warnings st |}.
Proof.
  intros Hd Ha Ho. destruct (close_spec n2 st a h x Hd Ha Ho) as (cs & Hcs & E). exists cs.
  split; [done|]. unfold list_entry_destructor. rewrite Ha. cbn [mbind option_bind]. rewrite E.
  cbn [mbind option_bind heap]. by rewrite delete_insert_eq.
Qed.

(** Removing the table entry destroys the resource. *)
Lemma list_remove_spec n st hm m log a h x hm1 hm2 m1 m2 : rep n st hm m log -> 0 <= n < 2 ^ 26 ->
  m = m1 ++ (a, x) :: m2 -> hm = hm1 ++ (h, a) :: hm2 -> h ∉ hm1.*1 -> 1 <= h < INT_MAX ->
  Forall2 (entry_ok (heap st)) hm1 m1 -> Forall2 (entry_ok (heap st)) hm2 m2 -> open_ok x.2 ->
  let r := resource_of h (0, x.2) in
  exists st', list_remove (set_resource st a r) r = Some (st', SUCCESS) /\
    rep (n + 1) st' (hm1 ++ hm2) (m1 ++ m2) (log ++ closing dm x.2) /\ same_globals st st'.
Proof.
  intros Hrep Hn -> -> Hh Hhr He1 He2 Ho r. destruct Hrep as [Ht He Hk Hdom Hnext Hlog [n2 Hd]].
  destruct (table_del n _ _ h a Ht Hn (om_lookup_middle _ _ _ _ Hh)) as (t' & Edel & Ht' & Enext & Edes).
  rewrite om_delete_middle in Ht' by done.
  unfold list_remove. cbn [handle resource_of r]. rewrite handle_key by done. cbn [set_resource regular_list].
  rewrite Edel. cbn [mbind option_bind]. unfold with_list. cbn [regular_list set_resource].
  rewrite Edes, drop_app_length. cbn [destroy_entries].
  rewrite fmap_app in Hk. cbn in Hk. apply NoDup_app in Hk as (Hk1 & Hk2 & Hk3).
  apply NoDup_cons in Hk3 as [Hk3 Hk4].
  edestruct (entry_destructor_spec n2 {| regular_list := t'; list_destructors := list_destructors st;
      heap := <[a := r]> (heap st); calls := calls st; warnings := warnings st |} a h (0, x.2))
    as (cs & Hcs & E); [exact Hd|cbn [heap]; by rewrite lookup_insert_eq|exact Ho|].
  unfold set_resource in *. cbn [heap calls warnings list_destructors regular_list] in *. rewrite E.
  cbn [mbind option_bind]. eexists. split; [done|]. split; [|done]. rewrite delete_insert_eq.
  assert (forall b, b ∈ (m1 ++ m2).*1 -> b <> a) as Hne.
  { intros b Hb ->. rewrite fmap_app, elem_of_app in Hb. destruct Hb as [Hb|Hb]; [|done].
    apply (Hk2 a Hb). by left. }
  constructor; cbn [regular_list heap calls list_destructors].
  - done.
  - apply Forall2_app; eapply entries_frame; try done; intros b Hb; apply lookup_delete_ne;
      intros <-; eapply Hne; try done; rewrite fmap_app, elem_of_app; tauto.
  - rewrite fmap_app. apply NoDup_app. split; [done|]. split; [|done]. intros b Hb Hb'. apply (Hk2 b Hb). by right.
  - intros b Hb. destruct (decide (b = a)) as [->|Hba]; [apply lookup_delete_eq|].
    rewrite lookup_delete_ne by done. apply Hdom. rewrite fmap_app in *. cbn.
    rewrite elem_of_app, elem_of_cons. rewrite elem_of_app in Hb. naive_solver.
  - lia.
  - by rewrite fmap_app, Hlog, Hcs.
  - by exists n2.
Qed.

(** A resource changes in place. *)
Lemma rep_update n st st' hm m log log' a x h m1 m2 hm1 hm2 y : rep n st hm m log ->
  m = m1 ++ (a, x) :: m2 -> hm = hm1 ++ (h, a) :: hm2 ->
  Forall2 (entry_ok (heap st)) hm1 m1 -> Forall2 (entry_ok (heap st)) hm2 m2 -> a ∉ m1.*1 -> a ∉ m2.*1 ->
  1 <= h < INT_MAX -> 1 <= y.1 <= 2 ^ 31 -> open_ok y.2 ->
  regular_list st' = regular_list st -> list_destructors st' = list_destructors st ->
  heap st' = <[a := resource_of h y]> (heap st) -> logged <$> calls st' = log' ->
  rep n st' hm (m1 ++ (a, y) :: m2) log'.
Proof.
  intros Hrep -> -> He1 He2 Ha1 Ha2 Hh Hy Ho Et Ed Eh El. destruct Hrep as [Ht He Hk Hdom Hnext Hlog Hd].
  assert (forall l hl, Forall2 (entry_ok (heap st)) hl l -> a ∉ l.*1 -> Forall2 (entry_ok (heap st')) hl l) as Hf.
  { intros l hl Hl Ha. eapply entries_frame; [done|]. intros b Hb. rewrite Eh. apply lookup_insert_ne.
    by intros <-. }
  constructor; rewrite ?Et, ?Ed; try done.
  - apply Forall2_app; [by apply Hf|]. constructor; [|by apply Hf].
    unfold entry_ok. cbn. split; [done|]. split; [done|]. split; [|done]. rewrite Eh. apply lookup_insert_eq.
  - rewrite fmap_app in *. done.
  - intros b Hb. rewrite Eh, lookup_insert_ne; [|intros ->; apply Hb; rewrite fmap_app, elem_of_app; right; by left].
    apply Hdom. by rewrite fmap_app in *.
Qed.

Lemma rep_later n n' st hm m log : rep n st hm m log -> n <= n' -> rep n' st hm m log.
Proof.
  intros [Ht He Hk Hdom Hnext Hlog Hd] Hn. constructor; try done; [by eapply table_later|lia].
Qed.

Lemma insert_refines n st hm m log a p t : rep n st hm m log -> 0 <= n < 2 ^ 26 -> a ∉ m.*1 ->
  registered dm t = true -> exists st' h, zend_register_resource st a p t = Some (Some (st', a)) /\
    rep (n + 1) st' (hm ++ [(h, a)]) (m ++ [(a, (1, Some (t, p)))]) log /\ same_globals st st'.
Proof.
  intros Hrep Hn Ha Ht. destruct Hrep as [Htab He Hk Hdom Hnext Hlog [n2 Hd]].
  destruct (table_keys _ _ _ Htab) as ([Hn0 _] & _ & _).
  set (next := next_free_element (regular_list st)) in *.
  set (h := if next =? 0 then 1 else next).
  assert (1 <= h < INT_MAX /\ next <= h <= n + 1) as [Hh Hhn].
  { unfold h, INT_MAX. destruct (Z.eqb_spec next 0); lia. }
  unfold zend_register_resource, zend_list_insert. fold next.
  assert (i32 next = next) as ->.
  { unfold i32, swrap. rewrite Z.mod_small; lia. }
  assert (negb (next =? 0) && (next =? INT_MAX) = false) as -> by (unfold h, INT_MAX in *; lia).
  fold h. cbn [set_resource regular_list]. rewrite handle_key by done.
  destruct (table_add n (regular_list st) hm h a Htab Hn) as (t' & -> & Ht' & Enext & Edes);
    [unfold ZEND_LONG_MAX, INT_MAX in *; fold next; lia|].
  cbn [mbind option_bind]. eexists _, h. split; [done|]. split; [|done]. constructor; cbn [set_resource regular_list heap calls list_destructors].
  - done.
  - apply Forall2_app.
    + eapply entries_frame; [done|]. intros b Hb. apply lookup_insert_ne. by intros <-.
    + constructor; [|constructor]. unfold entry_ok. cbn [fst snd]. split; [done|]. split; [done|].
      split; [apply lookup_insert_eq|]. split; [lia|done].
  - rewrite fmap_app. apply NoDup_app. split; [done|]. split; [|apply NoDup_singleton].
    intros b Hb ->%list_elem_of_singleton. done.
  - intros b Hb. rewrite fmap_app, elem_of_app in Hb. rewrite lookup_insert_ne; [apply Hdom; tauto|].
    intros <-. apply Hb. right. by left.
  - lia.
  - done.
  - by exists n2.
Qed.

(** One event. *)
Lemma event_refines n st hm m log ev m' log' : rep n st hm m log -> 0 <= n < 2 ^ 26 ->
  spec_event dm m log ev = Some (m', log') ->
  exists st' hm', run_event st ev = Some st' /\ rep (n + 1) st' hm' m' log' /\ same_globals st st'.
Proof.
  intros Hrep Hn E. destruct ev as [a p t|a|a|a]; cbn [spec_event run_event] in *.
  - destruct (om_lookup a m) eqn:Ea; [done|]. apply om_lookup_None in Ea.
    destruct (registered dm t) eqn:Et; [|done]. injection E as <- <-.
    destruct (insert_refines n st hm m log a p t Hrep Hn Ea Et) as (st' & h & -> & Hr & Hs).
    exists st'. by eexists.
  - destruct (om_lookup a m) as [[k o]|] eqn:Ea; [|done]. cbn in E. destruct (Z.ltb_spec k (2 ^ 31)); [|done].
    injection E as <- <-.
    destruct (rep_split _ _ _ _ _ _ _ Hrep Ea) as (m1 & m2 & hm1 & h & hm2 & -> & -> & He1 & He2 & He & Ha1 & Ha2 & Hh).
    destruct He as (_ & Hhr & Hheap & Hk & Ho). cbn [fst snd] in *. rewrite Hheap. cbn [mbind option_bind resource_of refcount fst].
    rewrite om_insert_middle by done. eexists _, _. split; [done|]. split; [|done].
    apply (rep_later n); [|lia]. eapply (rep_update n st _ _ _ log log a (k, o)); try done; cbn [fst]; [lia| |by destruct Hrep].
    cbn [heap set_resource]. f_equal. unfold resource_of, u32. cbn. by rewrite uwrap_small by lia.
  - destruct (om_lookup a m) as [[k o]|] eqn:Ea; [|done]. cbn in E.
    destruct (rep_split _ _ _ _ _ _ _ Hrep Ea) as (m1 & m2 & hm1 & h & hm2 & -> & -> & He1 & He2 & He & Ha1 & Ha2 & Hh).
    destruct He as (_ & Hhr & Hheap & Hk & Ho). cbn [fst snd] in *. unfold zend_list_delete. rewrite Hheap.
    cbn [mbind option_bind resource_of refcount fst]. unfold u32. rewrite uwrap_small by lia.
    destruct (Z.eqb_spec k 1) as [->|Hk1]; injection E as <- <-.
    + zbool. rewrite om_delete_middle by done.
      destruct (list_remove_spec n st _ _ log a h (1, o) hm1 hm2 m1 m2 Hrep Hn eq_refl eq_refl Hh Hhr He1 He2 Ho)
        as (st' & Er & Hr & Hs).
      match goal with |- context [list_remove ?s ?r] => change (list_remove s r) with
        (list_remove (set_resource st a (resource_of h (0, o))) (resource_of h (0, o))) end.
      cbn [snd] in Er. rewrite Er. cbn. by exists st', (hm1 ++ hm2).
    + zbool. rewrite om_insert_middle by done. cbn [mbind option_bind fst]. eexists _, _. split; [done|]. split; [|done].
      apply (rep_later n); [|lia]. eapply (rep_update n st _ _ _ log log a (k, o)); try done; cbn [fst]; [lia|by destruct Hrep].
  - destruct (om_lookup a m) as [[k o]|] eqn:Ea; [|done]. cbn in E. injection E as <- <-.
    destruct (rep_split _ _ _ _ _ _ _ Hrep Ea) as (m1 & m2 & hm1 & h & hm2 & -> & -> & He1 & He2 & He & Ha1 & Ha2 & Hh).
    destruct He as (_ & Hhr & Hheap & Hk & Ho). cbn [fst snd] in *. unfold zend_list_close. rewrite Hheap.
    cbn [mbind option_bind resource_of refcount fst]. zbool.
    pose proof Hrep as [_ _ _ _ _ Hlog [n2 Hd]].
    destruct (close_spec n2 st a h (k, o) Hd Hheap Ho) as (cs & Hcs & Ec). cbn [fst snd] in *.
    rewrite om_insert_middle by done.
    assert (forall b, (if b : bool then st' ← zend_resource_dtor st a; Some (st', SUCCESS) else Some (st, SUCCESS))
      = (st' ← (if b then zend_resource_dtor st a else Some st); Some (st', SUCCESS))) as Hif by (by intros []).
    change (match o with Some (t, _) => t | None => -1 end) with (type (resource_of h (k, o))).
    rewrite Hif, Ec. cbn [mbind option_bind fst]. eexists _, _. split; [done|]. split; [|done].
    apply (rep_later n); [|lia]. eapply (rep_update n st _ _ _ log _ a (k, o)); try done; cbn [fst].
    cbn [calls]. by rewrite fmap_app, Hlog, Hcs.
Qed.

Lemma events_refine evs : forall n st hm m log m' log', rep n st hm m log -> 0 <= n ->
  n + Z.of_nat (length evs) <= 2 ^ 26 ->
  spec_events dm m log evs = Some (m', log') ->
  exists st' hm', run_events st evs = Some st' /\ rep (n + Z.of_nat (length evs)) st' hm' m' log' /\
    same_globals st st'.
Proof.
  induction evs as [|ev evs IH]; intros n st hm m log m' log' Hrep Hn Hb E; cbn [spec_events length run_events] in *.
  - injection E as <- <-. rewrite Z.add_0_r. by exists st, hm.
  - destruct (spec_event dm m log ev) as [[m1 log1]|] eqn:E1; [|done]. cbn in E.
    destruct (event_refines n st hm m log ev m1 log1 Hrep ltac:(lia) E1) as (st1 & hm1 & -> & Hrep1 & Hs1).
    destruct (IH (n + 1) st1 hm1 m1 log1 m' log' Hrep1 ltac:(lia) ltac:(lia) E) as (st' & hm' & Er & Hrep' & Hs').
    exists st', hm'. split; [done|]. split; [by replace (n + Z.of_nat (S (length evs))) with (n + 1 + Z.of_nat (length evs)) by lia|].
    destruct Hs1, Hs'. constructor; congruence.
Qed.

(** Entries of closed resources. *)
Definition closed_entry (hp : gmap Z zend_resource) (a : Z) : Prop :=
  exists h n, hp !! a = Some (resource_of h (n, None)).

(** The loop of [zend_close_rsrc_list] over the entries [rm], the last of them first. *)
Lemma close_all_spec n2 rhm : forall rm st, represents n2 (list_destructors st) dm ->
  Forall2 (entry_ok (heap st)) rhm rm -> NoDup rm.*1 ->
  exists st', close_all st rhm.*2 = Some st' /\ same_globals st st' /\
    regular_list st' = regular_list st /\
    logged <$> calls st' = (logged <$> calls st) ++ open_calls dm rm /\
    (forall a, a ∈ rm.*1 -> closed_entry (heap st') a) /\
    (forall a, a ∉ rm.*1 -> heap st' !! a = heap st !! a).
Proof.
  induction rhm as [|[h b] rhm IH]; intros rm st Hd He Hk.
  - inversion He; subst. exists st. split_and!; try done; [by rewrite app_nil_r|]. intros a []%elem_of_nil.
  - apply Forall2_cons_inv_l in He as ([a x] & rm' & He & He' & ->). pose proof He as (Eb & Hh & Ha & _ & Ho).
    cbn [fst snd] in *. subst b. cbn in Hk. apply NoDup_cons in Hk as [Hak Hk].
    cbn [fmap list_fmap snd close_all]. rewrite Ha. cbn [mbind option_bind].
    destruct (close_spec n2 st a h x Hd Ha Ho) as (cs & Hcs & ->). cbn [mbind option_bind].
    edestruct (IH rm') as (st' & -> & [Hs1 Hs2] & Ht & Hl & Hc & Hf); [|eapply entries_frame; [exact He'|]|exact Hk|].
    + exact Hd.
    + intros c Hc. cbn [heap]. apply lookup_insert_ne. by intros <-.
    + cbn [list_destructors warnings regular_list calls heap] in *. exists st'. split; [done|].
      split; [done|]. split; [done|]. split; [|split].
      * rewrite Hl, fmap_app, Hcs, <- app_assoc. done.
      * intros c [->|Hin]%elem_of_cons; [|by apply Hc]. unfold closed_entry. rewrite Hf by done.
        rewrite lookup_insert_eq. by exists h, x.1.
      * intros c [Hne Hin]%not_elem_of_cons. rewrite Hf by done. by apply lookup_insert_ne.
Qed.

Lemma destroy_entries_spec n2 addrs : forall st, represents n2 (list_destructors st) dm -> NoDup addrs ->
  Forall (closed_entry (heap st)) addrs ->
  exists st', destroy_entries st addrs = Some st' /\ same_globals st st' /\
    regular_list st' = regular_list st /\ logged <$> calls st' = logged <$> calls st /\
    (forall a, a ∈ addrs -> heap st' !! a = None) /\ (forall a, a ∉ addrs -> heap st' !! a = heap st !! a).
Proof.
  induction addrs as [|a addrs IH]; intros st Hd Hk Hc.
  { exists st. split_and!; try done. intros a []%elem_of_nil. }
  apply NoDup_cons in Hk as [Ha Hk]. apply Forall_cons in Hc as [(h & k & Hc) Hcs]. cbn [destroy_entries].
  destruct (entry_destructor_spec n2 st a h (k, None) Hd Hc I) as (cs & Ecs & ->). cbn [mbind option_bind].
  apply fmap_nil_inv in Ecs as ->.
  edestruct IH as (st' & -> & [Hs1 Hs2] & Ht & Hl & Hn & Hf); [exact Hd|exact Hk| |].
  - cbn [heap]. apply Forall_forall. intros b Hb. rewrite Forall_forall in Hcs.
    destruct (Hcs b Hb) as (h' & k' & Hb'). exists h', k'. rewrite lookup_delete_ne; [done|]. by intros <-.
  - cbn [list_destructors warnings regular_list calls heap] in *. exists st'. split; [done|]. split; [done|].
    split; [done|]. rewrite Hl, app_nil_r. split; [done|]. split.
    + intros b [->|Hb]%elem_of_cons; [|by apply Hn]. rewrite Hf by done. apply lookup_delete_eq.
    + intros b [Hne Hb]%not_elem_of_cons. rewrite Hf by done. by apply lookup_delete_ne.
Qed.

(** Shutting down closes what is still open, the last registered first, and frees everything. *)
Lemma shutdown_spec n st hm m log : rep n st hm m log -> exists st', shutdown st = Some st' /\
  heap st' = ∅ /\ logged <$> calls st' = log ++ open_calls dm (reverse m) /\ warnings st' = warnings st.
Proof.
  intros [Ht He Hk Hdom Hnext Hlog [n2 Hd]]. unfold shutdown, zend_close_rsrc_list.
  rewrite (table_foreach n _ hm) by done. cbn [mbind option_bind]. rewrite <- fmap_reverse.
  destruct (close_all_spec n2 (reverse hm) (reverse m) st Hd) as (st1 & -> & [Hs1 Hs2] & Ht1 & Hl1 & Hc1 & Hf1).
  { by apply Forall2_reverse. }
  { by rewrite fmap_reverse, reverse_Permutation. }
  cbn [mbind option_bind]. unfold zend_destroy_rsrc_list. rewrite Ht1.
  destruct (table_destroy _ _ _ Ht) as (t' & -> & Hdes). cbn [mbind option_bind]. unfold with_list.
  rewrite Ht1, Hdes, drop_app_length.
  assert (hm.*2 = m.*1) as Haddr.
  { clear -He. induction He as [|? ? ? ? (E & _) _ IH]; cbn; [done|]. by rewrite E, IH. }
  edestruct (destroy_entries_spec n2 (reverse hm.*2)) as (st' & -> & [Hs3 Hs4] & _ & Hl2 & Hn2 & Hf2).
  - cbn [list_destructors]. rewrite Hs1. exact Hd.
  - by rewrite Haddr, reverse_Permutation.
  - cbn [heap]. apply Forall_forall. intros a Ha. apply Hc1. rewrite fmap_reverse, <- Haddr. done.
  - cbn [heap calls warnings] in *. exists st'. split; [done|]. split; [|split; [by rewrite Hl2, Hl1, Hlog|congruence]].
    apply map_empty. intros a. destruct (decide (a ∈ reverse m.*1)) as [Hin|Hin].
    + apply Hn2. by rewrite Haddr.
    + rewrite Hf2 by (by rewrite Haddr). rewrite Hf1 by (by rewrite fmap_reverse).
      apply Hdom. by rewrite elem_of_reverse in Hin.
Qed.

(** No request has begun. *)
Definition fresh_lists st : Prop :=
  represents 0 (regular_list st) [] /\ next_free_element (regular_list st) <= 1 /\ heap st = ∅ /\ calls st = [] /\
  exists n2, represents n2 (list_destructors st) dm.

Lemma fresh_rep st : fresh_lists st -> rep 0 st [] [] [].
Proof.
  intros (Ht & Hn & Hh & Hc & Hd). constructor; [done|constructor|apply NoDup_nil_2| |lia|by rewrite Hc|done].
  intros a _. by rewrite Hh, lookup_empty.
Qed.

(** C14: in every run of registrations, reference counts up and down, and explicit closings of resources of
    known types, and the shutdown that ends it, each registered resource has its destructor called exactly
    once, with the type and pointer it was registered with: when it is closed, when its last reference goes,
    or at shutdown; no resource is leaked and no call fails. *)
Theorem zend_list_destructs_once st evs m log :
  fresh_lists st ->
  Z.of_nat (length evs) <= 2 ^ 26 -> spec_events dm [] [] evs = Some (m, log) ->
  exists st' st'', run_events st evs = Some st' /\ logged <$> calls st' = log /\
    shutdown st' = Some st'' /\ heap st'' = ∅ /\ warnings st'' = warnings st /\
    logged <$> calls st'' = log ++ open_calls dm (reverse m) /\
    logged <$> calls st'' ≡ₚ due dm evs.
Proof.
  intros Hst Hb E.
  destruct (events_refine evs 0 st [] [] [] m log (fresh_rep st Hst) ltac:(lia) ltac:(lia) E)
    as (st' & hm' & -> & Hrep & [_ Hw]).
  destruct (shutdown_spec _ _ _ _ _ Hrep) as (st'' & E2 & Hh & Hl & Hw2).
  exists st', st''. split_and!; try done; [by destruct Hrep|congruence|]. rewrite Hl.
  apply spec_events_conserve in E. cbn in E. rewrite <- E. apply Permutation_app_head.
  unfold open_calls. rewrite fmap_reverse.
  clear. induction ((fun e => closing dm e.2.2) <$> m) as [|l ls IH]; [done|].
  rewrite reverse_cons, concat_app. cbn. rewrite app_nil_r, IH. apply Permutation_app_comm.
Qed.
End Refinement.
