(* ===== verification/ZendHashNext.v ===== *)
(** * The next free integer key of a hash table

    [nNextFreeElement] is the key that [$a[] = x] uses.  Insertions move it behind integer keys, nothing else
    does.  In a packed table it is also the end of the array as long as nothing was deleted ([dense]): after a
    deletion at the end, an insertion behind the last bucket moves it back. *)
From S2P Require Import Prelude ZendString ZendHash OrderedMap ZendHashInv ZendHashRehash ZendHashUpdate ZendHashDelete ZendHashMap.

Section Next.
Context {V : Type}.
Implicit Types (ht : HashTable V) (EG : executor_globals V).

(** ** What happens to [nNextFreeElement] *)
Ltac next_same := intros; repeat (inv_opt || case_match || simplify_eq/=); try done.

Lemma rehash_next EG ht EG' ht' : zend_hash_rehash EG ht = Some (EG', ht') ->
  nNextFreeElement ht' = nNextFreeElement ht.
Proof. unfold zend_hash_rehash. next_same. Qed.

Lemma if_full_next EG ht EG' ht' : ZEND_HASH_IF_FULL_DO_RESIZE EG ht = Some (EG', ht') ->
  nNextFreeElement ht' = nNextFreeElement ht.
Proof.
  unfold ZEND_HASH_IF_FULL_DO_RESIZE, zend_hash_do_resize. intros E. repeat case_match; simplify_eq/=; try done;
    by apply rehash_next in E.
Qed.

Lemma packed_to_hash_next EG ht EG' ht' : zend_hash_packed_to_hash EG ht = Some (EG', ht') ->
  nNextFreeElement ht' = nNextFreeElement ht.
Proof. by intros E%rehash_next. Qed.

Lemma add_index_next EG ht hash z EG' ht' r : add_index_to_hash EG ht hash z = Some (EG', ht', r) ->
  0 <= nNextFreeElement ht <= hash -> hash < ZEND_LONG_MAX -> nNextFreeElement ht' = hash + 1.
Proof.
  unfold add_index_to_hash, add_to_hash, ZEND_LONG_MAX. intros E Hn Hh.
  rewrite (i64_small (nNextFreeElement ht)), (i64_small hash) in E by lia.
  rewrite (proj2 (Z.leb_le _ _)), (proj2 (Z.ltb_lt hash _)) in E by lia. next_same.
Qed.

Lemma add_to_packed_next EG ht hash z flag EG' ht' r : add_to_packed EG ht hash z flag = Some (EG', ht', r) ->
  nNextFreeElement ht' = hash + 1.
Proof. unfold add_to_packed. next_same. Qed.

Lemma replace_index_refused EG ht idx z flag EG' ht' r : has flag HASH_ADD = true ->
  replace_index EG ht idx z flag = Some (EG', ht', r) -> r = None.
Proof. unfold replace_index. intros ->. by intros [= <- <- <-]. Qed.

Lemma convert_next EG ht hash z EG' ht' r :
  ('(EG, ht) ← zend_hash_packed_to_hash EG ht; add_index_to_hash EG ht hash z) = Some (EG', ht', r) ->
  0 <= nNextFreeElement ht <= hash -> hash < ZEND_LONG_MAX -> nNextFreeElement ht' = hash + 1.
Proof.
  intros E Hn Hh. destruct (zend_hash_packed_to_hash EG ht) as [[EG1 ht1]|] eqn:E1; [|done].
  apply packed_to_hash_next in E1. cbn in E. apply add_index_next in E; [done| |done]. by rewrite E1.
Qed.

(** A new key that is not below [nNextFreeElement] moves it behind the key. *)
Lemma index_add_next EG ht hash z flag EG' ht' r : has flag HASH_ADD = true ->
  _zend_hash_index_add_or_update_i EG ht hash z flag = Some (EG', ht', Some r) ->
  0 <= nNextFreeElement ht <= hash -> hash < ZEND_LONG_MAX -> nNextFreeElement ht' = hash + 1.
Proof.
  intros Hf E Hn Hh. unfold _zend_hash_index_add_or_update_i in E.
  destruct (HASH_FLAG_PACKED ht); [destruct (hash <? nNumUsed ht)|destruct (HASH_FLAG_UNINITIALIZED ht)].
  - destruct (bucket (arData ht) hash) as [p|]; [|done]. cbn in E. destruct (negb (Z_ISUNDEF (val p))).
    + by apply replace_index_refused in E.
    + by apply convert_next in E.
  - destruct (hash <? nTableSize ht); [by apply add_to_packed_next in E|].
    destruct (_ && _).
    + destruct (zend_hash_packed_grow ht) as [ht1|]; [|done]. by apply add_to_packed_next in E.
    + apply convert_next in E; [done| |done]. by destruct (nTableSize ht <=? nNumUsed ht).
  - destruct (hash <? nTableSize ht); [by apply add_to_packed_next in E|].
    apply add_index_next in E; [done| |done]. by destruct ht.
  - destruct (if negb (has flag HASH_ADD_NEW) then _ else _) as [[idx|]|]; [| |done]; cbn in E.
    + by apply replace_index_refused in E.
    + destruct (ZEND_HASH_IF_FULL_DO_RESIZE EG ht) as [[EG1 ht1]|] eqn:E1; [|done].
      apply if_full_next in E1. cbn in E. apply add_index_next in E; [done| |done]. by rewrite E1.
Qed.

Lemma del_el_ex_next EG ht idx prev EG' ht' : _zend_hash_del_el_ex EG ht idx prev = Some (EG', ht') ->
  nNextFreeElement ht' = nNextFreeElement ht.
Proof.
  unfold _zend_hash_del_el_ex. intros E. repeat (inv_opt || case_match || simplify_eq/=); done.
Qed.

Lemma index_del_next EG ht hash EG' ht' r : zend_hash_index_del EG ht hash = Some (EG', ht', r) ->
  nNextFreeElement ht' = nNextFreeElement ht.
Proof.
  unfold zend_hash_index_del, del_from_chain. intros E. repeat (inv_opt || case_match || simplify_eq/=); try done;
    by eapply del_el_ex_next.
Qed.

(** ** Dense tables *)

(** Nothing was deleted from the end: the next key is behind the last bucket of a packed table, and a table
    without a block has had no keys. *)
Definition dense ht : Prop :=
  (HASH_FLAG_PACKED ht = true -> nNumUsed ht = nNextFreeElement ht) /\
  (HASH_FLAG_UNINITIALIZED ht = true -> nNextFreeElement ht = 0).

(** Where the insertion of the key [hash] moves [nNextFreeElement]. *)
Definition bumped (next hash : Z) : Z :=
  if next <=? i64 hash then if hash <? ZEND_LONG_MAX then hash + 1 else ZEND_LONG_MAX else next.

(** A mixed table is dense. *)
Lemma dense_mixed ht : mixed ht -> dense ht.
Proof. intros [Hu Hp]. split; congruence. Qed.

Lemma rehash_flags EG ht EG' ht' : zend_hash_rehash EG ht = Some (EG', ht') ->
  HASH_FLAG_PACKED ht' = HASH_FLAG_PACKED ht /\ HASH_FLAG_UNINITIALIZED ht' = HASH_FLAG_UNINITIALIZED ht.
Proof. unfold zend_hash_rehash. next_same. Qed.

Lemma if_full_flags EG ht EG' ht' : mixed ht -> ZEND_HASH_IF_FULL_DO_RESIZE EG ht = Some (EG', ht') -> mixed ht'.
Proof.
  unfold ZEND_HASH_IF_FULL_DO_RESIZE, zend_hash_do_resize. intros Hm E. repeat case_match; simplify_eq/=; try done;
    apply rehash_flags in E as [Ep Eu]; cbn in *; destruct Hm; split; congruence.
Qed.

Lemma packed_to_hash_mixed EG ht EG' ht' : HASH_FLAG_UNINITIALIZED ht = false ->
  zend_hash_packed_to_hash EG ht = Some (EG', ht') -> mixed ht'.
Proof. intros Hu [Ep Eu]%rehash_flags. split; [by rewrite Eu|done]. Qed.

Lemma add_to_hash_mixed EG ht hash k z EG' ht' r : add_to_hash EG ht hash k z = Some (EG', ht', r) ->
  nNextFreeElement ht' = nNextFreeElement ht /\ (mixed ht -> mixed ht').
Proof. unfold add_to_hash. next_same. Qed.

Lemma add_index_bumped EG ht hash z EG' ht' r : 0 <= nNextFreeElement ht <= ZEND_LONG_MAX ->
  add_index_to_hash EG ht hash z = Some (EG', ht', r) ->
  nNextFreeElement ht' = bumped (nNextFreeElement ht) hash /\ (mixed ht -> mixed ht').
Proof.
  unfold add_index_to_hash, bumped, ZEND_LONG_MAX. intros Hn. rewrite (i64_small (nNextFreeElement ht)) by lia.
  intros [E Hm]%add_to_hash_mixed. rewrite E. by destruct (_ <=? _).
Qed.

(** A new integer key. *)
Lemma index_fresh_next EG ht bs hash z flag EG' ht' r : wf ht bs -> dense ht -> is_u64 hash -> KInt hash ∉ (entries bs).*1 ->
  _zend_hash_index_add_or_update_i EG ht hash z flag = Some (EG', ht', r) ->
  nNextFreeElement ht' = bumped (nNextFreeElement ht) hash /\ dense ht'.
Proof.
  intros Hwf [Hd Hd0] Hh Hk E. pose proof (wf_next _ _ Hwf) as Hn. pose proof (wf_size _ _ Hwf) as Hs. unfold is_u64 in Hh.
  assert (forall ht, 0 <= nNextFreeElement ht -> nNextFreeElement ht <= hash -> hash < nTableSize ht -> nTableSize ht <= 2 ^ 31 ->
    add_to_packed EG ht hash z flag = Some (EG', ht', r) -> HASH_FLAG_UNINITIALIZED ht = false ->
    nNextFreeElement ht' = bumped (nNextFreeElement ht) hash /\ dense ht') as Hpacked.
  { clear. intros ht H0 Hle Hlt Hs E Hu. unfold add_to_packed in E. inv_opt. unfold bumped, dense, ZEND_LONG_MAX. cbn.
    rewrite i64_small by lia. zbool. unfold u32. rewrite uwrap_small, Hu by lia. done. }
  assert (forall ht0, HASH_FLAG_UNINITIALIZED ht0 = false -> nNextFreeElement ht0 = nNextFreeElement ht ->
    ('(EG, ht) ← zend_hash_packed_to_hash EG ht0; add_index_to_hash EG ht hash z) = Some (EG', ht', r) ->
    nNextFreeElement ht' = bumped (nNextFreeElement ht) hash /\ dense ht') as Hconv.
  { clear -Hn. intros ht0 Hu En E. destruct (zend_hash_packed_to_hash EG ht0) as [[EG1 ht1]|] eqn:E1; [|done]. cbn [mbind option_bind] in E.
    pose proof (packed_to_hash_mixed _ _ _ _ Hu E1) as Hm. apply packed_to_hash_next in E1.
    apply add_index_bumped in E as [-> Hm']; [|lia]. rewrite E1, En. split; [done|]. by apply dense_mixed, Hm'. }
  unfold _zend_hash_index_add_or_update_i in E. destruct (HASH_FLAG_PACKED ht) eqn:Hp.
  - destruct (packed_layout _ _ Hwf Hp) as (Hu & _ & _ & Hpk). specialize (Hd eq_refl). destruct (Z.ltb_spec hash (nNumUsed ht)) as [Hlt|Hge].
    + destruct (bucket (arData ht) hash) as [p|] eqn:Eb; [|done]. cbn [mbind option_bind] in E. destruct (negb (Z_ISUNDEF (val p))) eqn:El; [|by apply (Hconv ht)].
      destruct Hk. rewrite (wf_used _ _ Hwf) in Hlt. destruct (lookup_lt_is_Some_2 bs (Z.to_nat hash)) as [b Hb]; [lia|].
      pose proof (wf_bucket _ _ _ _ Hwf Hb) as Eb'. rewrite Z2Nat.id, Eb in Eb' by lia. injection Eb' as ->.
      destruct (Hpk _ _ Hb El) as [E1 E2]. apply elem_of_keys. exists (Z.to_nat hash), b. split; [done|]. split; [done|].
      unfold bkey. rewrite E2, E1. f_equal. lia.
    + destruct (Z.ltb_spec hash (nTableSize ht)); [apply (Hpacked ht); [lia..|done|done]|].
      destruct (Z.ltb_spec (Z.shiftr hash 1) (nTableSize ht)) as [Hg|]; cbn [andb] in E.
      2:{ revert E. apply Hconv; by destruct (_ <=? _). }
      destruct (_ <? nNumOfElements ht); [|revert E; apply Hconv; by destruct (_ <=? _)].
      unfold zend_hash_packed_grow in E. destruct (HT_MAX_SIZE <=? nTableSize ht); [done|]. cbn [mbind option_bind] in E.
      apply Hpacked in E; cbn; [done|lia|lia| |unfold u32; rewrite uwrap_small; lia|done].
      unfold u32. rewrite uwrap_small by lia. rewrite Z.shiftr_div_pow2 in Hg by lia.
      pose proof (Z.div_mod hash 2). pose proof (Z.mod_pos_bound hash 2). change (2 ^ 1) with 2 in Hg. lia.
  - destruct (HASH_FLAG_UNINITIALIZED ht) eqn:Hu.
    + specialize (Hd0 eq_refl). destruct (Z.ltb_spec hash (nTableSize ht)).
      * apply Hpacked in E; cbn in *; [done|lia..|done].
      * apply add_index_bumped in E as [-> Hm]; [|cbn; lia]. split; [done|]. by apply dense_mixed, Hm.
    + assert (mixed ht) as Hm by done.
      assert ((if negb (has flag HASH_ADD_NEW) then zend_hash_index_find_bucket ht hash else Some None) = Some None) as Ef.
      { destruct (negb _); [|done]. by rewrite (index_find_bucket_key _ _ _ Hwf Hm), (find_key_None _ _ Hk). }
      rewrite Ef in E. cbn [mbind option_bind] in E.
      destruct (ZEND_HASH_IF_FULL_DO_RESIZE EG ht) as [[EG1 ht1]|] eqn:E1; [|done]. cbn [mbind option_bind] in E.
      pose proof (if_full_flags _ _ _ _ Hm E1) as Hm1. apply if_full_next in E1.
      apply add_index_bumped in E as [-> Hm']; [|lia]. rewrite E1. split; [done|]. by apply dense_mixed, Hm'.
Qed.

(** Writing to an element that is there. *)
Lemma zwrite_next EG ht ref z EG' ht' : zwrite EG ht ref z = Some (EG', ht') ->
  nNextFreeElement ht' = nNextFreeElement ht /\ (dense ht -> dense ht').
Proof. unfold zwrite, dense. destruct ref; intros E; inv_opt; done. Qed.

Lemma replace_at_next EG ht ref z EG' ht' r : replace_at EG ht ref z = Some (EG', ht', r) ->
  nNextFreeElement ht' = nNextFreeElement ht /\ (dense ht -> dense ht').
Proof.
  unfold replace_at. intros E. destruct (zread EG ht ref); [|done]. cbn [mbind option_bind] in E.
  destruct (zwrite _ ht ref z) as [[EG1 ht1]|] eqn:E1; [|done]. injection E as <- <- <-. by apply zwrite_next in E1.
Qed.

Lemma found_bucket_next EG ht idx z flag EG' ht' r : found_bucket EG ht idx z flag = Some (EG', ht', r) ->
  nNextFreeElement ht' = nNextFreeElement ht /\ (dense ht -> dense ht').
Proof.
  unfold found_bucket. intros E. inv_opt. repeat case_match; inv_opt; try done; try (by eapply replace_at_next); repeat case_match; inv_opt; try done;
    by eapply replace_at_next.
Qed.

(** An integer key, new or not. *)
Lemma index_update_next EG ht bs hash z EG' ht' r : wf ht bs -> dense ht -> is_u64 hash ->
  zend_hash_index_update EG ht hash z = Some (EG', ht', r) ->
  nNextFreeElement ht' = (if decide (KInt hash ∈ (entries bs).*1) then nNextFreeElement ht else bumped (nNextFreeElement ht) hash) /\ dense ht'.
Proof.
  intros Hwf Hd Hh E. unfold zend_hash_index_update in E. destruct (decide _) as [Hk|Hk]; [|by eapply index_fresh_next].
  destruct (key_cases _ _ (KInt hash) Hwf) as [(bs1 & b & bs2 & Hhl)|]; [|done].
  rewrite (index_found hash z _ EG ht bs bs1 b bs2 Hwf Hhl) in E by (by left). apply replace_at_next in E as [-> Hd']. split; [done|]. by apply Hd'.
Qed.

(** A string key. *)
Lemma make_room_next EG ht (f : HashTable V -> HashTable V) hash k z EG' ht' r :
  (forall ht, nNextFreeElement (f ht) = nNextFreeElement ht /\ (mixed ht -> mixed (f ht))) -> mixed ht ->
  ('(EG, ht) ← ZEND_HASH_IF_FULL_DO_RESIZE EG ht; add_to_hash EG (f ht) hash k z) = Some (EG', ht', r) ->
  nNextFreeElement ht' = nNextFreeElement ht /\ dense ht'.
Proof.
  intros Hf Hm E. destruct (ZEND_HASH_IF_FULL_DO_RESIZE EG ht) as [[EG1 ht1]|] eqn:E1; [|done]. cbn [mbind option_bind] in E.
  pose proof (if_full_flags _ _ _ _ Hm E1) as Hm1. apply if_full_next in E1. destruct (Hf ht1) as [En Hmf].
  apply add_to_hash_mixed in E as [-> Hm']. rewrite En, E1. split; [done|]. apply dense_mixed, Hm', Hmf, Hm1.
Qed.

Lemma add_or_update_next EG ht k z flag EG' ht' r : dense ht -> _zend_hash_add_or_update_i EG ht k z flag = Some (EG', ht', r) ->
  nNextFreeElement ht' = nNextFreeElement ht /\ dense ht'.
Proof.
  intros Hd E. unfold _zend_hash_add_or_update_i in E.
  assert (forall ht, nNextFreeElement (note_key ht k) = nNextFreeElement ht /\ (mixed ht -> mixed (note_key ht k))) as Hk.
  { intros ht0. by destruct (note_key_fields ht0 k) as (Hm & _ & Hn & _). }
  destruct (HASH_FLAG_UNINITIALIZED ht) eqn:Hu; [|destruct (HASH_FLAG_PACKED ht) eqn:Hp].
  - apply add_to_hash_mixed in E as [-> Hm]. destruct (Hk (zend_hash_real_init_mixed_ex ht)) as [-> Hm0]. split; [done|]. by apply dense_mixed, Hm, Hm0.
  - destruct (zend_hash_packed_to_hash EG ht) as [[EG1 ht1]|] eqn:E1; [|done]. cbn [mbind option_bind] in E.
    pose proof (packed_to_hash_mixed _ _ _ _ Hu E1) as Hm. apply packed_to_hash_next in E1. destruct (Hk ht1) as [En Hm1]. rewrite <- E1, <- En.
    revert E. apply (make_room_next _ _ id); [done|by apply Hm1].
  - assert (mixed ht) as Hm by done. destruct (Hk ht) as [En Hm1]. destruct (negb (has flag HASH_ADD_NEW)).
    + destruct (zend_hash_find_bucket ht k) as [[idx|]|]; [| |done]; cbn [mbind option_bind] in E.
      * apply found_bucket_next in E as [-> Hd']. split; [done|]. by apply Hd'.
      * rewrite <- En. revert E. apply (make_room_next _ _ id); [done|by apply Hm1].
    + rewrite <- En. revert E. apply (make_room_next _ _ id); [done|by apply Hm1].
Qed.
End Next.
