(* ===== verification/ZendListHash.v ===== *)
(** * Hash tables as tables of pointers

    The engine's hash table satisfies the laws [ZendList] asks of a table with integer keys, so its
    theorem holds for the code as it is.  The tables hold pointers, and their destructor is the one of the
    list; after [n] insertions or deletions the table is small enough for every law while [n < 2^26]. *)
From S2P Require Import Prelude ZendString ZendLong OrderedMap ZendHash ZendHashInv ZendHashRehash ZendHashUpdate ZendHashDelete ZendHashMap ZendHashOps ZendHashApply ZendHashNext ZendList.

(** ** Reading a table in order *)
Section Foreach.
Context {A : Type}.
Implicit Types (ht : HashTable A) (EG : executor_globals A).

(** [Z_PTR_P] of a value that is a pointer. *)
Definition Z_PTR (z : zval A) : option A := match z with IS_VAL p => Some p | _ => None end.

(** The pointers [ZEND_HASH_FOREACH_PTR] visits, from bucket [i] on. *)
Fixpoint foreach_loop (n : nat) ht (i : Z) : option (list A) :=
  match n with
  | O => Some []
  | S n =>
      p ← bucket (arData ht) i;
      if Z_ISUNDEF (val p) then foreach_loop n ht (i + 1)
      else x ← Z_PTR (val p); xs ← foreach_loop n ht (i + 1); Some (x :: xs)
  end.

Definition ZEND_HASH_FOREACH_PTR ht : option (list A) := foreach_loop (Z.to_nat (nNumUsed ht)) ht 0.

Lemma foreach_entries ht bs : wf ht bs -> forall xs, (entries bs).*2 = IS_VAL <$> xs ->
  ZEND_HASH_FOREACH_PTR ht = Some xs.
Proof.
  intros Hwf xs Hx. unfold ZEND_HASH_FOREACH_PTR. rewrite (wf_used _ _ Hwf), Nat2Z.id.
  assert (forall done todo xs, bs = done ++ todo -> (entries todo).*2 = IS_VAL <$> xs ->
    foreach_loop (length todo) ht (Z.of_nat (length done)) = Some xs) as Hloop; [|by apply (Hloop [] bs)].
  clear xs Hx. intros dn todo. revert dn. induction todo as [|b todo IH]; intros dn xs E Hx; cbn [length foreach_loop].
  - by destruct xs.
  - rewrite (wf_bucket _ _ _ b Hwf) by (rewrite E; by apply list_lookup_middle). cbn [mbind option_bind].
    replace (Z.of_nat (length dn) + 1) with (Z.of_nat (length (dn ++ [b]))) by (rewrite length_app; cbn; lia).
    rewrite entries_cons in Hx. unfold live in Hx. destruct (Z_ISUNDEF (val b)) eqn:Eu; cbn [negb] in Hx.
    + apply IH; [by rewrite <- app_assoc|done].
    + destruct xs as [|x xs]; [done|]. cbn in Hx. injection Hx as Hv Hx. rewrite Hv. cbn [Z_PTR mbind option_bind].
      by rewrite (IH (dn ++ [b]) xs) by (by rewrite <- ?app_assoc).
Qed.
End Foreach.

(** ** The instance *)
Section Instance.
Context {A : Type}.

Definition hash_table : Type := executor_globals A * HashTable A.

Implicit Types (t : hash_table) (m : list (Z * A)).

(** The pointer at the place an insertion gives. *)
Definition stored (r : option (result A)) : option (hash_table * option A) :=
  '(EG, ht, ref) ← r;
  match ref with
  | Some ref => z ← zread EG ht ref; p ← Z_PTR z; Some (EG, ht, Some p)
  | None => Some (EG, ht, None)
  end.

Definition found (EG : executor_globals A) (ht : HashTable A) (r : option (option zref)) : option (option A) :=
  ref ← r;
  match ref with
  | Some ref => z ← zread EG ht ref; p ← Z_PTR z; Some (Some p)
  | None => Some None
  end.

#[export] Instance hash_index_table : IndexTable hash_table A := {
  next_free_element t := nNextFreeElement t.2;
  set_next_free_element t n := let ht := t.2 in (t.1, {| ht with nNextFreeElement := n |});
  index_add_new t k x := stored (zend_hash_index_add_new t.1 t.2 k (IS_VAL x));
  next_index_insert t x := stored (zend_hash_next_index_insert t.1 t.2 (IS_VAL x));
  index_del t k := '(EG, ht, status) ← zend_hash_index_del t.1 t.2 k; Some ((EG, ht), status);
  index_find_ptr t k := found t.1 t.2 (zend_hash_index_find t.2 k);
  foreach_ptr t := ZEND_HASH_FOREACH_PTR t.2;
  graceful_reverse_destroy t := r ← zend_hash_graceful_reverse_destroy t.1 t.2; Some (r.1, t.2);
  destroyed_values t := omap Z_PTR (destroyed t.1) }.

Definition hkeys m : list (hkey * zval A) := (fun e => (KInt e.1, IS_VAL e.2)) <$> m.

Lemma hkeys_lookup m k : om_lookup (KInt k) (hkeys m) = IS_VAL <$> om_lookup k m.
Proof.
  induction m as [|[k' x] m IH]; cbn; [done|]. destruct (decide (k = k')) as [<-|Hne].
  - by rewrite decide_True.
  - rewrite decide_False by congruence. done.
Qed.

Lemma hkeys_delete m k : om_delete (KInt k) (hkeys m) = hkeys (om_delete k m).
Proof.
  induction m as [|[k' x] m IH]; cbn; [done|]. destruct (decide (k = k')) as [<-|Hne].
  - by rewrite decide_True.
  - rewrite decide_False by congruence. unfold hkeys in *. cbn. by rewrite IH.
Qed.

Lemma hkeys_values m : (hkeys m).*2 = IS_VAL <$> m.*2.
Proof. unfold hkeys. by rewrite <- !list_fmap_compose. Qed.

Lemma hkeys_new m k : k ∉ m.*1 -> KInt k ∉ (hkeys m).*1.
Proof.
  intros Hk (e & E & He)%list_elem_of_fmap. apply list_elem_of_fmap in He as (e' & -> & He'). cbn in E.
  injection E as ->. apply Hk, list_elem_of_fmap. by exists e'.
Qed.

(** The hash table after at most [n] calls. *)
Record holds (n : Z) t m : Prop := {
  h_wf : exists bs, wf t.2 bs /\ entries bs = hkeys m;
  h_capped : capped n t.2;
  h_dtor : pDestructor t.2 = true;
  h_keys : forall k, k ∈ m.*1 -> 0 <= k < nNextFreeElement t.2 }.

(** Both insertions, under a key that is not below [nNextFreeElement]. *)
Lemma insert_holds n t m k x flag : holds n t m -> has flag HASH_ADD = true ->
  nNextFreeElement t.2 <= k < ZEND_LONG_MAX ->
  (forall bs, wf t.2 bs -> entries bs = hkeys m -> inserted t.1 t.2 bs (KInt k) (IS_VAL x)
     (_zend_hash_index_add_or_update_i t.1 t.2 k (IS_VAL x) flag)) ->
  exists t', stored (_zend_hash_index_add_or_update_i t.1 t.2 k (IS_VAL x) flag) = Some (t', Some x) /\
    holds (n + 1) t' (m ++ [(k, x)]) /\ nNextFreeElement t'.2 = k + 1 /\
    omap Z_PTR (destroyed t'.1) = omap Z_PTR (destroyed t.1).
Proof.
  intros [(bs & Hwf & Hen) Hcap Hd Hk] Hf Hkr Hins. pose proof (wf_next _ _ Hwf) as Hn0.
  destruct (Hins bs Hwf Hen) as (EG' & ht' & bs' & ref & E & Hwf' & Hen' & Hr & Hs & Hde & Hpd & Hg).
  pose proof E as En. rewrite E. cbn [stored mbind option_bind]. rewrite Hr. cbn [mbind option_bind Z_PTR].
  apply index_add_next in En; [|done|lia|lia].
  assert (k ∉ m.*1) as Hnew by (intros Hin; specialize (Hk k Hin); lia).
  exists (EG', ht'). split; [done|]. cbn [fst snd]. split; [|split; [done|]].
  - constructor; cbn [fst snd].
    + exists bs'. split; [done|]. rewrite Hen', Hen, om_insert_new by by apply hkeys_new.
      unfold hkeys. by rewrite fmap_app.
    + by apply Hg.
    + by rewrite Hpd.
    + intros k'. rewrite fmap_app, elem_of_app, En. cbn. rewrite list_elem_of_singleton.
      intros [Hin%Hk| ->]; lia.
  - rewrite Hde, Hen, hkeys_lookup, (proj2 (om_lookup_None _ _) Hnew). cbn. by rewrite destroyed_by_none, app_nil_r.
Qed.

Lemma holds_size n t m : holds n t m -> n <= 2 ^ 26 -> nTableSize t.2 <= 2 ^ 29.
Proof. intros [_ Hc _ _] Hn. by apply (capped_size n). Qed.

Lemma holds_delete n t m k x : holds n t m -> om_lookup k m = Some x -> 0 <= k ->
  exists t', index_del t k = Some (t', SUCCESS) /\ holds (n + 1) t' (om_delete k m) /\
    nNextFreeElement t'.2 = nNextFreeElement t.2 /\ destroyed_values t' = destroyed_values t ++ [x].
Proof.
  intros [(bs & Hwf & Hen) Hcap Hd Hk] Hl H0. cbn [index_del hash_index_table].
  pose proof (index_del_deletes t.1 t.2 bs k Hwf H0) as Hdel. unfold deletes in Hdel.
  rewrite Hen, hkeys_lookup, Hl in Hdel. cbn in Hdel.
  destruct Hdel as (EG1 & ht1 & E & EG' & ht' & bs' & [= <- <-] & Hwf' & Hen' & Hs & Hde & Hpd & Hsz & Hp & Hu).
  pose proof E as En. rewrite E. apply index_del_next in En. cbn [mbind option_bind].
  exists (EG1, ht1). split; [done|]. cbn [fst snd destroyed_values hash_index_table]. split; [|split; [done|]].
  - constructor; cbn [fst snd].
    + exists bs'. split; [done|]. by rewrite Hen', Hen, hkeys_delete.
    + by apply (deleted_capped n t.2 bs ht1 bs' (KInt k)).
    + by rewrite Hpd.
    + intros k' Hin%om_delete_keys_sub. rewrite En. by apply Hk.
  - rewrite Hde. unfold destroyed_by. rewrite Hd, omap_app. done.
Qed.

#[export] Instance hash_index_laws : IndexTableLaws hash_table A.
Proof.
  refine {| represents := holds |}.
  - intros n n' t m [? Hc ? ?] Hn. split; try done. by apply (capped_le n).
  - intros n t m [(bs & Hwf & Hen) _ _ Hk]. split; [apply (wf_next _ _ Hwf)|]. split; [|done].
    pose proof (wf_keys _ _ Hwf) as Hnd. rewrite Hen in Hnd. unfold hkeys in Hnd.
    rewrite <- list_fmap_compose in Hnd. apply (NoDup_fmap_1 KInt). by rewrite <- list_fmap_compose.
  - intros n t m k x Ht Hn Hk. cbn [index_add_new hash_index_table]. unfold zend_hash_index_add_new.
    apply (insert_holds n t m k x); [done|done|done|]. intros bs Hwf Hen.
    pose proof Ht as [_ _ _ Hks]. pose proof (wf_next _ _ Hwf) as Hn0. cbn in Hk. unfold ZEND_LONG_MAX in *.
    assert (KInt k ∉ (entries bs).*1) as Hnew.
    { rewrite Hen. apply hkeys_new. intros Hin%Hks. lia. }
    apply index_fresh; [done|lia|done|apply (holds_size n t m); [done|lia]| |done]. by split.
  - intros n t m x Ht Hn Hk. cbn [next_index_insert hash_index_table next_free_element] in *.
    unfold zend_hash_next_index_insert.
    pose proof Ht as [(bs0 & Hwf0 & _) _ _ Hks]. pose proof (wf_next _ _ Hwf0) as Hn0. unfold ZEND_LONG_MAX in *.
    assert (u64 (nNextFreeElement t.2) = nNextFreeElement t.2) as Hu by (unfold u64; rewrite uwrap_small; lia).
    rewrite Hu. apply (insert_holds n t m _ x); [done|done|unfold ZEND_LONG_MAX; lia|]. intros bs Hwf Hen.
    pose proof (next_insert_appended t.1 t.2 bs (IS_VAL x) Hwf) as Hins.
    unfold zend_hash_next_index_insert in Hins. rewrite Hu, decide_False in Hins.
    + apply Hins; [apply (holds_size n t m); [done|lia]|done].
    + rewrite Hen. apply hkeys_new. intros Hin%Hks. lia.
  - intros n t m k x Ht Hn Hl. apply holds_delete; [done|done|].
    assert (k ∈ m.*1) as Hin; [|destruct Ht as [_ _ _ Hk]; by apply Hk].
    destruct (decide (k ∈ m.*1)) as [|Hno]; [done|]. apply om_lookup_None in Hno. congruence.
  - intros n t m k [(bs & Hwf & Hen) _ _ _] Hk. cbn [index_find_ptr hash_index_table]. unfold found.
    destruct (index_find_looks_up t.1 t.2 bs k Hwf ltac:(lia)) as (ref & -> & Href). cbn [mbind option_bind].
    rewrite Hen, hkeys_lookup in Href. destruct ref as [ref|].
    + destruct Href as (z & -> & Hz). cbn [mbind option_bind]. destruct (om_lookup k m); [|done]. by injection Hz as <-.
    + by destruct (om_lookup k m).
  - intros n t m [(bs & Hwf & Hen) _ _ _]. cbn [foreach_ptr hash_index_table].
    apply (foreach_entries t.2 bs Hwf). by rewrite Hen, hkeys_values.
  - intros n t m [(bs & Hwf & Hen) _ Hd _]. cbn [graceful_reverse_destroy destroyed_values hash_index_table].
    destruct (graceful_destroys t.1 t.2 bs Hwf) as (_ & EG' & -> & Hde). cbn [mbind option_bind fst snd].
    eexists. split; [done|]. cbn [fst]. unfold handed in Hde. rewrite Hd in Hde.
    rewrite Hde, omap_app, Hen. f_equal. rewrite hkeys_values, <- fmap_reverse. generalize (reverse m.*2). clear.
    intros l. induction l as [|x l IH]; cbn; [done|]. by rewrite IH.
Defined.
End Instance.

(** ** The lists of the engine *)
Definition no_globals (A : Type) : executor_globals A :=
  {| ht_iterators := []; ht_iterators_used := 0; slots := ∅; destroyed := [] |}.

Definition engine_lists : Type := executor (hash_table (A := Z)) (hash_table (A := zend_rsrc_list_dtors_entry)).

(** [zend_init_rsrc_list]: the new regular list, a table at the address [self]. *)
Definition zend_init_rsrc_list (self : Z) : option (hash_table (A := Z)) :=
  ht ← _zend_hash_init self 8 true false; Some (no_globals Z, ht).

(** The table [zend_init_rsrc_list_dtors] creates. *)
Definition list_destructors_init (self : Z) : option (hash_table (A := zend_rsrc_list_dtors_entry)) :=
  ht ← _zend_hash_init self 64 true false; Some (no_globals _, ht).

Lemma init_rsrc_list_holds self t : zend_init_rsrc_list self = Some t -> holds 0 t [] /\ next_free_element t = 0.
Proof.
  unfold zend_init_rsrc_list. destruct (_zend_hash_init self 8 true false) as [ht|] eqn:E; [|done].
  intros [= <-]. pose proof E as Ew. apply (init_wf self true false ht) in Ew as (Hwf & Hc & Hd).
  injection E as <-. split; [|done]. constructor; cbn [fst snd]; try done; [by exists []|]. intros k []%elem_of_nil.
Qed.

Lemma init_dtors_holds self t : list_destructors_init self = Some t ->
  holds 16 (set_next_free_element t 1) [].
Proof.
  intros [= <-]. constructor; cbn [fst snd]; try done.
  - exists []. split; [|done]. split; cbn; try done; [by exists []|constructor].
  - split; [done|]. destruct (mixed_dec _) as [[? _]|_]; [done|]. by vm_compute.
  - intros k []%elem_of_nil.
Qed.

(** One type, whose destructor is the function 7. *)
Definition ex_lde : zend_rsrc_list_dtors_entry :=
  {| list_dtor_ex := Some 7; plist_dtor_ex := None; type_name := Some [115]; module_number := 3; resource_id := 1 |}.

Definition ex_lists : option engine_lists :=
  t ← zend_init_rsrc_list 1;
  d ← list_destructors_init 2;
  let st := (zend_init_rsrc_list_dtors
    {| regular_list := t; list_destructors := d; heap := ∅; calls := []; warnings := [] |} d).1 in
  r ← zend_register_list_destructors_ex st (Some 7) None (Some [115]) 3;
  Some r.1.

Lemma ex_lists_fresh st : ex_lists = Some st -> fresh_lists [(1, ex_lde)] st.
Proof.
  unfold ex_lists. destruct (zend_init_rsrc_list 1) as [t|] eqn:Et; [|done]. cbn [mbind option_bind].
  destruct (list_destructors_init 2) as [d|] eqn:Ed; [|done].
  cbn [mbind option_bind zend_init_rsrc_list_dtors fst list_destructors].
  apply init_rsrc_list_holds in Et as [Ht Hn]. apply init_dtors_holds in Ed.
  unfold zend_register_list_destructors_ex. cbn [list_destructors].
  assert (represents (T := hash_table) 16 (set_next_free_element d 1) []) as Hd0 by exact Ed.
  destruct (table_next_insert 16 _ [] ex_lde Hd0 ltac:(lia) eq_refl) as (d' & E & Hd & _).
  change (i32 (next_free_element (set_next_free_element d 1))) with 1.
  change {| list_dtor_ex := Some 7; plist_dtor_ex := None; type_name := Some [115]; module_number := 3;
            resource_id := 1 |} with ex_lde.
  rewrite E. cbn [mbind option_bind fst]. intros [= <-]. split; [done|]. cbn [regular_list heap calls list_destructors]. split; [lia|].
  split; [done|]. split; [done|]. by exists 17.
Qed.

(** Two resources, one closed by hand and one released, and a third for the shutdown. *)
Definition ex_events : list event :=
  [Insert 16 100 1; Insert 32 200 1; AddRef 32; Close 16; Insert 48 300 1; Delete 16; Delete 32; Delete 32].

Lemma zend_list_destructs_once_witness : exists st, ex_lists = Some st /\
  exists st' st'', run_events st ex_events = Some st' /\ logged <$> calls st' = [(7, 1, 100); (7, 1, 200)] /\
    shutdown st' = Some st'' /\ heap st'' = ∅ /\ warnings st'' = warnings st /\
    logged <$> calls st'' = [(7, 1, 100); (7, 1, 200); (7, 1, 300)] /\
    logged <$> calls st'' ≡ₚ due [(1, ex_lde)] ex_events.
Proof.
  destruct ex_lists as [st|] eqn:E; [|vm_compute in E; discriminate E]. exists st. split; [reflexivity|].
  exact (zend_list_destructs_once [(1, ex_lde)] st ex_events [(48, (1, Some (1, 300)))] [(7, 1, 100); (7, 1, 200)]
    (ex_lists_fresh st E) ltac:(discriminate) eq_refl).
Defined.
