(* ===== verification/ZendStack.v ===== *)
(** The engine's growable stacks.

    [Stack] models [zend_headers/zend_stack.c]: a stack of elements of [size] bytes each, in a
    block that grows by [STACK_BLOCK_SIZE] elements.  [PtrStack] models
    [zend_headers/zend_ptr_stack.c] and the inline functions of [zend_ptr_stack.h]: a stack of
    pointers that also keeps a [top_element] pointer into its block.  An element of the block is
    [None] while it is uninitialised; a step that reads one, or that leaves the block, is [None]
    (undefined behaviour), and the theorems show that no operation of a represented stack does.
    The callbacks get a pointer to the element, so they may change it: a callback takes the state
    of its caller and the element, and returns its [int], the element and the state. *)

From S2P Require Import Prelude.

(** [realloc]: the cells that fit are kept, the new ones are uninitialised. *)
Definition realloc {A} (old : option (list (option A))) (n : Z) : list (option A) :=
  let l := default [] old in
  take (Z.to_nat n) l ++ replicate (Z.to_nat n - length l) None.

Lemma realloc_length {A} (old : option (list (option A))) n :
  0 <= n -> Z.of_nat (length (realloc old n)) = n.
Proof.
  intros. unfold realloc. rewrite length_app, length_take, length_replicate. lia.
Qed.

Lemma realloc_grow {A} (l : list (option A)) n :
  Z.of_nat (length l) <= n -> exists rest, realloc (Some l) n = l ++ rest.
Proof. intros. unfold realloc. simpl. rewrite take_ge by lia. eauto. Qed.

(** A block of [max] cells whose first cells hold [xs]. *)
Definition block_holds {A} (els : option (list (option A))) (max : Z) (xs : list A) : Prop :=
  match els with
  | None => max = 0 /\ xs = []
  | Some buf => Z.of_nat (length buf) = max /\ exists rest, buf = map Some xs ++ rest
  end.

Section Blocks.
Context {A : Type}.
Implicit Types (els : option (list (option A))) (xs : list A).

Lemma block_holds_length els max xs :
  block_holds els max xs -> 0 <= Z.of_nat (length xs) <= max.
Proof.
  destruct els as [buf|]; simpl.
  - intros [<- [rest ->]]. rewrite length_app, length_map. lia.
  - intros [-> ->]. simpl. lia.
Qed.

Lemma block_holds_grow els max n xs :
  block_holds els max xs -> max <= n -> 0 < n -> block_holds (Some (realloc els n)) n xs.
Proof.
  intros H Hn Hpos. destruct els as [buf|]; simpl in *.
  - destruct H as [<- [rest ->]]. split; [apply realloc_length; lia|].
    destruct (realloc_grow (map Some xs ++ rest) n) as [rest' ->]; [lia|].
    exists (rest ++ rest'). by rewrite app_assoc.
  - destruct H as [-> ->]. split; [apply realloc_length; lia|]. by eexists.
Qed.

Lemma block_holds_write buf max xs x i :
  block_holds (Some buf) max xs -> i = Z.of_nat (length xs) -> i < max ->
  exists buf', aset buf i (Some x) = Some buf' /\ block_holds (Some buf') max (xs ++ [x]).
Proof.
  intros [Hl [rest ->]] -> Hlt. rewrite length_app, length_map in Hl.
  destruct rest as [|y rest]; simpl in *; [lia|].
  eexists. split; [apply aset_app_mid; by rewrite length_map|].
  rewrite !length_app, length_map. simpl. split; [lia|].
  exists rest. by rewrite map_app, <- app_assoc.
Qed.

Lemma block_holds_update (buf : list (option A)) max pre (x y : A) post i :
  block_holds (Some buf) max (pre ++ x :: post) -> i = Z.of_nat (length pre) ->
  exists buf', aset buf i (Some y) = Some buf'
    /\ block_holds (Some buf') max (pre ++ y :: post).
Proof.
  intros [Hl [rest ->]] ->. rewrite map_app, <- app_assoc in *. simpl in *.
  eexists. split; [apply aset_app_mid; by rewrite length_map|].
  rewrite !length_app in *. simpl in *. split; [done|].
  exists rest. by rewrite map_app, <- app_assoc.
Qed.

Lemma block_holds_read buf max xs i :
  block_holds (Some buf) max xs -> 0 <= i < Z.of_nat (length xs) ->
  aget buf i = Some <$> aget xs i.
Proof.
  intros [_ [rest ->]] Hi. unfold aget. zbool.
  rewrite lookup_app_l by (rewrite length_map; lia). apply list_lookup_fmap.
Qed.

Lemma block_holds_shrink els max xs ys :
  block_holds els max (xs ++ ys) -> block_holds els max xs.
Proof.
  destruct els as [buf|]; simpl.
  - intros [H [rest ->]]. split; [done|]. exists (map Some ys ++ rest).
    by rewrite map_app, <- app_assoc.
  - by intros [-> [-> _]%app_nil].
Qed.
End Blocks.

Create HintDb zstack.
#[export] Hint Resolve block_holds_length block_holds_grow block_holds_shrink : zstack.

Module Stack.
Section Ops.
Context {E St : Type}.

Record zend_stack := MkStack {
  size : Z;
  top : Z;
  max : Z;
  elements : option (list (option E))
}.

Definition STACK_BLOCK_SIZE : Z := 16.
Definition ZEND_STACK_APPLY_TOPDOWN : Z := 1.
Definition ZEND_STACK_APPLY_BOTTOMUP : Z := 2.

(** [ZEND_STACK_ELEMENT(stack, n)], read: the element the pointer points to. *)
Definition ZEND_STACK_ELEMENT (stack : zend_stack) (n : Z) : option E :=
  buf ← elements stack; cell ← aget buf n; cell.

(** [ZEND_STACK_ELEMENT(stack, n)], written through. *)
Definition set_stack_element (stack : zend_stack) (n : Z) (x : E) : option zend_stack :=
  buf ← elements stack; buf' ← aset buf n (Some x);
  Some {| stack with elements := Some buf' |}.

Definition zend_stack_init (sz : Z) : Z * zend_stack :=
  (SUCCESS, {| size := sz; top := 0; max := 0; elements := None |}).

Definition zend_stack_push (stack : zend_stack) (element : E) : option (Z * zend_stack) :=
  stack' ← (if max stack <=? top stack
            then m ← int (max stack + STACK_BLOCK_SIZE);
                 Some {| stack with max := m; elements := Some (realloc (elements stack) m) |}
            else Some stack);
  stack'' ← set_stack_element stack' (top stack') element;
  t ← int (top stack'' + 1);
  Some (top stack'', {| stack'' with top := t |}).

(** The pointer [zend_stack_top] returns, as the index of the element; [None] is [NULL]. *)
Definition zend_stack_top (stack : zend_stack) : option Z :=
  if 0 <? top stack then Some (top stack - 1) else None.

Definition zend_stack_del_top (stack : zend_stack) : option (Z * zend_stack) :=
  t ← int (top stack - 1); Some (SUCCESS, {| stack with top := t |}).

(** [int] elements: the element type seen through [as_int]. *)
Definition zend_stack_int_top (as_int : E -> Z) (stack : zend_stack) : option Z :=
  match zend_stack_top stack with
  | Some e => as_int <$> ZEND_STACK_ELEMENT stack e
  | None => Some FAILURE
  end.

Definition zend_stack_is_empty (stack : zend_stack) : bool := top stack =? 0.

Definition zend_stack_destroy (stack : zend_stack) : Z * zend_stack :=
  (SUCCESS, match elements stack with
            | Some _ => {| stack with elements := None |}
            | None => stack
            end).

Definition zend_stack_base (stack : zend_stack) : option (list (option E)) := elements stack.

Definition zend_stack_count (stack : zend_stack) : Z := top stack.

(** The two loops of [zend_stack_apply]: [n] is the number of iterations left.  Top-down, the
    index of the iteration is [n - 1]; bottom-up, it is [top - n]. *)
Fixpoint apply_topdown (f : St -> E -> Z * E * St) (n : nat) (stack : zend_stack) (s : St)
  : option (zend_stack * St) :=
  match n with
  | O => Some (stack, s)
  | S i =>
      x ← ZEND_STACK_ELEMENT stack (Z.of_nat i);
      let '(r, x', s') := f s x in
      stack' ← set_stack_element stack (Z.of_nat i) x';
      if r =? 0 then apply_topdown f i stack' s' else Some (stack', s')
  end.

Fixpoint apply_bottomup (f : St -> E -> Z * E * St) (n : nat) (i : Z) (stack : zend_stack)
  (s : St) : option (zend_stack * St) :=
  match n with
  | O => Some (stack, s)
  | S n' =>
      x ← ZEND_STACK_ELEMENT stack i;
      let '(r, x', s') := f s x in
      stack' ← set_stack_element stack i x';
      if r =? 0 then apply_bottomup f n' (i + 1) stack' s' else Some (stack', s')
  end.

Definition zend_stack_apply (stack : zend_stack) (type : Z) (f : St -> E -> Z * E * St) (s : St)
  : option (zend_stack * St) :=
  if type =? ZEND_STACK_APPLY_TOPDOWN then apply_topdown f (Z.to_nat (top stack)) stack s
  else if type =? ZEND_STACK_APPLY_BOTTOMUP
       then apply_bottomup f (Z.to_nat (top stack)) 0 stack s
       else Some (stack, s).

Definition zend_stack_apply_with_argument {A} (stack : zend_stack) (type : Z)
  (f : St -> E -> A -> Z * E * St) (arg : A) (s : St) : option (zend_stack * St) :=
  if type =? ZEND_STACK_APPLY_TOPDOWN
  then apply_topdown (fun s x => f s x arg) (Z.to_nat (top stack)) stack s
  else if type =? ZEND_STACK_APPLY_BOTTOMUP
       then apply_bottomup (fun s x => f s x arg) (Z.to_nat (top stack)) 0 stack s
       else Some (stack, s).

(** [func] is [NULL] when [None]; its result is ignored, so the loop is the bottom-up one with
    a callback that never stops it. *)
Definition zend_stack_clean (stack : zend_stack) (func : option (St -> E -> E * St))
  (free_elements : bool) (s : St) : option (zend_stack * St) :=
  '(stack', s') ← match func with
                  | Some f => apply_bottomup (fun s x => let '(x', s') := f s x in (0, x', s'))
                                (Z.to_nat (top stack)) 0 stack s
                  | None => Some (stack, s)
                  end;
  Some (if free_elements
        then {| stack' with elements := None; top := 0; max := 0 |}
        else stack', s').
End Ops.


(** ** Representation: the stack holds the list [xs], bottom first. *)
Section Facts.
Context {E St : Type}.
Implicit Types (st : zend_stack (E:=E)) (xs : list E) (s : St).

Definition repr st xs : Prop :=
  top st = Z.of_nat (length xs) /\ is_i32 (max st) /\ block_holds (elements st) (max st) xs.

Lemma repr_elements st xs :
  repr st xs -> xs <> [] -> exists buf, elements st = Some buf.
Proof.
  intros (_ & _ & H) Hne. destruct (elements st); [eauto|]. by destruct H.
Qed.

Lemma repr_get st pre x post i :
  repr st (pre ++ x :: post) -> i = Z.of_nat (length pre) -> ZEND_STACK_ELEMENT st i = Some x.
Proof.
  intros H ->. destruct (repr_elements _ _ H) as [buf Hb]; [by destruct pre|].
  destruct H as (_ & _ & H). unfold ZEND_STACK_ELEMENT. rewrite Hb in *. simpl.
  rewrite (block_holds_read _ _ _ _ H) by (rewrite length_app; simpl; lia).
  by rewrite aget_app_mid.
Qed.

Lemma repr_set st pre x y post i :
  repr st (pre ++ x :: post) -> i = Z.of_nat (length pre) ->
  exists st', set_stack_element st i y = Some st' /\ repr st' (pre ++ y :: post)
    /\ top st' = top st.
Proof.
  intros H Hi. destruct (repr_elements _ _ H) as [buf Hb]; [by destruct pre|].
  destruct H as (Ht & Hm & H). unfold set_stack_element. rewrite Hb in *. simpl.
  destruct (block_holds_update _ _ _ _ y _ _ H Hi) as (buf' & -> & H'). simpl.
  eexists. split; [done|]. split; [|done]. split; [|done].
  simpl. rewrite Ht, !length_app. done.
Qed.

Lemma repr_snoc_inv st xs :
  repr st xs -> 0 < top st -> exists ys x, xs = ys ++ [x].
Proof.
  intros (Ht & _). destruct xs as [|y ys _] using rev_ind; simpl in *; [lia|eauto].
Qed.

Lemma init_repr sz : repr (snd (zend_stack_init sz)) [].
Proof. by repeat split. Qed.

Lemma push_repr st xs x :
  repr st xs -> is_i32 (max st + STACK_BLOCK_SIZE) ->
  exists st', zend_stack_push st x = Some (Z.of_nat (length xs), st') /\ repr st' (xs ++ [x])
    /\ (max st' <= max st + STACK_BLOCK_SIZE).
Proof.
  unfold STACK_BLOCK_SIZE, is_i32. intros (Ht & Hm & Hb) Hi. unfold zend_stack_push, is_i32 in *.
  pose proof (block_holds_length _ _ _ Hb) as Hlen.
  set (st1 := if max st <=? top st
              then {| st with max := max st + 16; elements := Some (realloc (elements st)
                      (max st + 16)) |} else st).
  assert (repr st1 xs /\ top st1 < max st1 /\ max st1 <= max st + 16 /\ is_i32 (max st1)
          /\ elements st1 <> None) as (Hr & Hlt & Hle & Hi1 & Hne).
  { unfold st1. zcase; unfold repr, is_i32; simpl.
    - split; [|repeat split; try lia; done]. repeat split; [lia..| |].
      + apply realloc_length. lia.
      + apply (block_holds_grow _ (max st)); [done|lia|lia].
    - split; [|repeat split; try lia]. { done. }
      destruct (elements st); simpl in *; [done|lia]. }
  replace (if max st <=? top st then _ else _) with (Some st1).
  2:{ unfold st1, STACK_BLOCK_SIZE. zcase; [by rewrite int_ok|done]. }
  simpl. destruct Hr as (Ht1 & _ & Hb1). unfold set_stack_element.
  destruct (elements st1) as [buf|]; [|done]. simpl.
  destruct (block_holds_write _ _ _ x (top st1) Hb1) as (buf' & -> & Hb'); [done|done|].
  unfold is_i32 in *. simpl. rewrite int_ok by (unfold is_i32; lia). simpl. rewrite Ht1.
  eexists. split; [done|]. split; [|done]. unfold repr, is_i32. simpl.
  rewrite length_app. simpl. repeat split; try lia; apply Hb'.
Qed.

Lemma del_top_repr st xs x :
  repr st (xs ++ [x]) ->
  exists st', zend_stack_del_top st = Some (SUCCESS, st') /\ repr st' xs /\ max st' = max st.
Proof.
  intros (Ht & Hm & Hb). unfold zend_stack_del_top.
  pose proof (block_holds_length _ _ _ Hb). rewrite length_app in *. simpl in *.
  unfold is_i32 in *. rewrite int_ok by (unfold is_i32; lia). simpl.
  eexists. split; [done|]. unfold repr, is_i32. simpl.
  repeat split; try lia. eauto with zstack.
Qed.

Lemma top_repr st xs :
  repr st xs ->
  (zend_stack_top st ≫= ZEND_STACK_ELEMENT st) = last xs
  /\ (zend_stack_top st = None <-> xs = []).
Proof.
  intros H. unfold zend_stack_top. pose proof H as (Ht & _).
  destruct xs as [|x xs _] using rev_ind; simpl in Ht.
  - by zbool.
  - rewrite last_snoc. rewrite length_app in Ht. simpl in Ht.
    assert (0 < top st) by lia. zbool. simpl. split.
    + eapply repr_get; [apply H|lia].
    + split; [done|]. by intros ?%app_nil%proj2.
Qed.

(** What a callback loop does to the list it visits, first to last. *)
Fixpoint visit (f : St -> E -> Z * E * St) xs s : list E * St :=
  match xs with
  | [] => ([], s)
  | x :: xs' =>
      let '(r, x', s') := f s x in
      if r =? 0 then let '(ys, s'') := visit f xs' s' in (x' :: ys, s'') else (x' :: xs', s')
  end.

Lemma bottomup_visit f xs : forall pre st s n i,
  repr st (pre ++ xs) -> i = Z.of_nat (length pre) -> n = length xs ->
  exists st', apply_bottomup f n i st s = Some (st', snd (visit f xs s))
    /\ repr st' (pre ++ fst (visit f xs s)).
Proof.
  induction xs as [|x xs IH]; intros pre st s n i H -> ->; simpl; [eauto|].
  rewrite (repr_get _ _ _ _ _ H eq_refl). simpl. destruct (f s x) as [[r x'] s'].
  destruct (repr_set _ _ _ x' _ _ H eq_refl) as (st' & -> & H' & _). simpl.
  destruct (r =? 0); [|by eauto].
  rewrite cons_middle, app_assoc in H'.
  destruct (IH _ _ s' (length xs) (Z.of_nat (length pre) + 1) H') as (st'' & -> & H''); [|done|].
  { rewrite length_app. simpl. lia. }
  destruct (visit f xs s') as [ys s'']. simpl in *.
  rewrite <- app_assoc in H''. eauto.
Qed.

Lemma topdown_visit f xs : forall post st s n,
  repr st (reverse xs ++ post) -> n = length xs ->
  exists st', apply_topdown f n st s = Some (st', snd (visit f xs s))
    /\ repr st' (reverse (fst (visit f xs s)) ++ post).
Proof.
  induction xs as [|x xs IH]; intros post st s n H ->; simpl; [eauto|].
  rewrite reverse_cons, <- app_assoc in H. simpl in H.
  assert (Z.of_nat (length xs) = Z.of_nat (length (reverse xs))) as Hl
    by (by rewrite length_reverse).
  rewrite (repr_get _ _ _ _ _ H Hl). simpl. destruct (f s x) as [[r x'] s'].
  destruct (repr_set _ _ _ x' _ _ H Hl) as (st' & -> & H' & _). simpl.
  destruct (r =? 0).
  - destruct (IH _ _ s' (length xs) H') as (st'' & -> & H''); [done|].
    destruct (visit f xs s') as [ys s'']. simpl in *.
    rewrite reverse_cons, <- app_assoc. eauto.
  - simpl. rewrite reverse_cons, <- app_assoc. eauto.
Qed.

(** *** The operations against the list they implement *)
Inductive stack_op := OpPush (x : E) | OpPop | OpTop | OpCount.
Inductive stack_obs := ObsInt (z : Z) | ObsElem (x : option E).

Definition stack_step st (o : stack_op) : option (stack_obs * zend_stack (E:=E)) :=
  match o with
  | OpPush x => '(r, st') ← zend_stack_push st x; Some (ObsInt r, st')
  | OpPop => '(r, st') ← zend_stack_del_top st; Some (ObsInt r, st')
  | OpTop => match zend_stack_top st with
             | Some i => x ← ZEND_STACK_ELEMENT st i; Some (ObsElem (Some x), st)
             | None => Some (ObsElem None, st)
             end
  | OpCount => Some (ObsInt (zend_stack_count st), st)
  end.

(** The specification, on the list of the elements; popping an empty stack is excluded. *)
Definition list_step xs (o : stack_op) : option (stack_obs * list E) :=
  match o with
  | OpPush x => Some (ObsInt (Z.of_nat (length xs)), xs ++ [x])
  | OpPop => match xs with [] => None | _ => Some (ObsInt SUCCESS, removelast xs) end
  | OpTop => Some (ObsElem (last xs), xs)
  | OpCount => Some (ObsInt (Z.of_nat (length xs)), xs)
  end.

Fixpoint run {S} (step : S -> stack_op -> option (stack_obs * S)) (ops : list stack_op) (st : S)
  : option (list stack_obs * S) :=
  match ops with
  | [] => Some ([], st)
  | o :: ops' => '(r, st') ← step st o; '(rs, st'') ← run step ops' st'; Some (r :: rs, st'')
  end.

Lemma stack_step_refines st xs o r ys :
  repr st xs -> max st + STACK_BLOCK_SIZE < 2 ^ 31 -> list_step xs o = Some (r, ys) ->
  exists st', stack_step st o = Some (r, st') /\ repr st' ys
    /\ max st' <= max st + STACK_BLOCK_SIZE.
Proof.
  intros H Hb Ho. pose proof H as (Ht & Hm & _).
  assert (is_i32 (max st + STACK_BLOCK_SIZE)) as Hi
    by (unfold is_i32, STACK_BLOCK_SIZE in *; lia).
  assert (max st <= max st + STACK_BLOCK_SIZE) by (unfold STACK_BLOCK_SIZE; lia).
  destruct o as [x| | |]; simpl in *; inv_opt.
  - destruct (push_repr _ _ x H Hi) as (st' & -> & ? & ?). simpl. eauto.
  - destruct xs as [|x xs _] using rev_ind; [done|].
    destruct (del_top_repr _ _ _ H) as (st' & -> & H' & <-). simpl.
    rewrite removelast_last in Ho.
    assert (r = ObsInt SUCCESS /\ ys = xs) as [-> ->] by (by destruct xs; simpl in *; simplify_eq).
    exists st'. unfold STACK_BLOCK_SIZE. repeat split; [apply H'..|lia].
  - destruct (top_repr _ _ H) as [Hv Hn]. simplify_eq.
    destruct (zend_stack_top st) as [i|] eqn:Et; simpl in *.
    + destruct (last ys) eqn:El; [rewrite Hv; simpl; eauto|].
      apply last_None in El. by apply (proj2 Hn) in El.
    + rewrite <- Hv. eauto.
  - simplify_eq. unfold zend_stack_count. rewrite Ht. eauto.
Qed.

(** C30: for every sequence of pushes, pops, tops and counts that the list of the elements
    allows, the stack computes the results the list computes, and ends representing the final
    list; no step is undefined behaviour, whatever reallocations the pushes cause. *)
Theorem zend_stack_refines_list ops : forall st xs rs ys,
  repr st xs -> max st + STACK_BLOCK_SIZE * Z.of_nat (length ops) < 2 ^ 31 ->
  run list_step ops xs = Some (rs, ys) ->
  exists st', run stack_step ops st = Some (rs, st') /\ repr st' ys.
Proof.
  unfold STACK_BLOCK_SIZE.
  induction ops as [|o ops IH]; intros st xs rs ys H Hb Ho; cbn [run length] in *.
  - simplify_eq. eauto.
  - destruct (list_step xs o) as [[r xs']|] eqn:E1; [|done]. simpl in Ho.
    destruct (run list_step ops xs') as [[rs' ys']|] eqn:E2; [|done].
    simpl in Ho. simplify_eq.
    destruct (stack_step_refines _ _ _ _ _ H ltac:(unfold STACK_BLOCK_SIZE; lia) E1)
      as (st' & -> & H' & Hm'). simpl.
    unfold STACK_BLOCK_SIZE in Hm'.
    destruct (IH _ _ _ _ H' ltac:(lia) E2) as (st'' & -> & H''). simpl. eauto.
Qed.

(** [zend_stack_apply] calls its function on the elements from the top down or from the
    bottom up, stops after the first call whose result is non-zero, and keeps what the calls
    wrote into the elements; any other type visits nothing. *)
Theorem zend_stack_apply_visits st xs f type s :
  repr st xs ->
  exists st' zs s', zend_stack_apply st type f s = Some (st', s') /\ repr st' zs
    /\ (type = ZEND_STACK_APPLY_TOPDOWN -> (reverse zs, s') = visit f (reverse xs) s)
    /\ (type = ZEND_STACK_APPLY_BOTTOMUP -> (zs, s') = visit f xs s)
    /\ (type <> ZEND_STACK_APPLY_TOPDOWN -> type <> ZEND_STACK_APPLY_BOTTOMUP ->
        zs = xs /\ s' = s).
Proof.
  intros H. pose proof H as (Ht & _).
  assert (Z.to_nat (top st) = length xs) as Hn by lia.
  unfold zend_stack_apply, ZEND_STACK_APPLY_TOPDOWN, ZEND_STACK_APPLY_BOTTOMUP. rewrite Hn.
  destruct (Z.eqb_spec type 1) as [->|]; [|destruct (Z.eqb_spec type 2) as [->|]].
  - destruct (topdown_visit f (reverse xs) [] st s (length xs)) as (st' & -> & H').
    { by rewrite reverse_involutive, app_nil_r. } { by rewrite length_reverse. }
    rewrite app_nil_r in H'. eexists _, _, _. split; [done|]. split; [done|].
    rewrite reverse_involutive. split; [|split; [lia|lia]]. intros _. by destruct (visit _ _ _).
  - destruct (bottomup_visit f xs [] st s (length xs) 0 H) as (st' & -> & H'); [done..|].
    eexists _, _, _. split; [done|]. split; [done|].
    split; [lia|]. split; [|lia]. intros _. by destruct (visit _ _ _).
  - eexists _, _, _. split; [done|]. split; [done|].
    split; [lia|]. split; [lia|]. done.
Qed.
End Facts.

Definition ex_stack : zend_stack (E:=Z) := snd (zend_stack_init 4).

Lemma zend_stack_refines_list_witness :
  exists st', run stack_step [OpPush 5; OpPush 7; OpTop; OpPop; OpCount; OpTop] ex_stack
    = Some ([ObsInt 0; ObsInt 1; ObsElem (Some 7); ObsInt 0; ObsInt 1; ObsElem (Some 5)], st')
    /\ repr st' [5].
Proof.
  apply (zend_stack_refines_list [OpPush 5; OpPush 7; OpTop; OpPop; OpCount; OpTop] ex_stack []);
    [apply init_repr|vm_compute; done|vm_compute; done].
Defined.

Definition ex_stop_at_7 (s x : Z) : Z * Z * Z := ((if x =? 7 then 1 else 0), x + 1, s + x).
Definition ex_stack_567 : zend_stack (E:=Z) :=
  {| size := 4; top := 3; max := 4; elements := Some [Some 5; Some 7; Some 9; None] |}.

Lemma zend_stack_apply_visits_witness :
  exists st' zs s', zend_stack_apply ex_stack_567 ZEND_STACK_APPLY_TOPDOWN ex_stop_at_7 0
      = Some (st', s') /\ repr st' zs
      /\ (1 = ZEND_STACK_APPLY_TOPDOWN ->
          (reverse zs, s') = visit ex_stop_at_7 (reverse [5; 7; 9]) 0)
      /\ (1 = ZEND_STACK_APPLY_BOTTOMUP -> (zs, s') = visit ex_stop_at_7 [5; 7; 9] 0)
      /\ (1 <> ZEND_STACK_APPLY_TOPDOWN -> 1 <> ZEND_STACK_APPLY_BOTTOMUP ->
          zs = [5; 7; 9] /\ s' = 0).
Proof.
  apply (zend_stack_apply_visits ex_stack_567 [5; 7; 9] ex_stop_at_7 1 0).
  split; [done|]. split; [vm_compute; split; congruence|].
  split; [done|]. exists [None]. reflexivity.
Defined.
End Stack.

Module PtrStack.
Section Ops.
Context {P St : Type}.

(** [top_element] is [elements + i]: its index [i] in the block, [None] when it is [NULL]. *)
Record zend_ptr_stack := MkPtrStack {
  top : Z;
  max : Z;
  elements : option (list (option P));
  top_element : option Z;
  persistent : bool
}.

Definition PTR_STACK_BLOCK_SIZE : Z := 64.

Definition zend_ptr_stack_init_ex (pers : bool) : zend_ptr_stack :=
  {| top := 0; max := 0; elements := None; top_element := None; persistent := pers |}.

Definition zend_ptr_stack_init : zend_ptr_stack := zend_ptr_stack_init_ex false.

(** [do max += PTR_STACK_BLOCK_SIZE; while (top + count > max)]. *)
Fixpoint grow_max (fuel : nat) (need m : Z) : option Z :=
  match fuel with
  | O => None
  | S fuel' =>
      m' ← int (m + PTR_STACK_BLOCK_SIZE);
      if m' <? need then grow_max fuel' need m' else Some m'
  end.

Definition ZEND_PTR_STACK_RESIZE_IF_NEEDED (stack : zend_ptr_stack) (count : Z)
  : option zend_ptr_stack :=
  need ← int (top stack + count);
  if max stack <? need
  then m ← grow_max (S (Z.to_nat (need - max stack))) need (max stack);
       Some {| stack with max := m; elements := Some (realloc (elements stack) m);
               top_element := Some (top stack) |}
  else Some stack.

(** [*(stack->top_element++) = elem]. *)
Definition store_top (stack : zend_ptr_stack) (elem : P) : option zend_ptr_stack :=
  i ← top_element stack; buf ← elements stack; buf' ← aset buf i (Some elem);
  Some {| stack with elements := Some buf'; top_element := Some (i + 1) |}.

(** [*(--stack->top_element)]. *)
Definition load_top (stack : zend_ptr_stack) : option (P * zend_ptr_stack) :=
  i ← top_element stack; buf ← elements stack; cell ← aget buf (i - 1); x ← cell;
  Some (x, {| stack with top_element := Some (i - 1) |}).

(** The variable arguments of the two functions are a list; [count] is its length. *)
Fixpoint n_push_loop (stack : zend_ptr_stack) (elems : list P) : option zend_ptr_stack :=
  match elems with
  | [] => Some stack
  | elem :: elems' =>
      t ← int (top stack + 1);
      stack' ← store_top {| stack with top := t |} elem;
      n_push_loop stack' elems'
  end.

Definition zend_ptr_stack_n_push (stack : zend_ptr_stack) (elems : list P)
  : option zend_ptr_stack :=
  stack' ← ZEND_PTR_STACK_RESIZE_IF_NEEDED stack (Z.of_nat (length elems));
  n_push_loop stack' elems.

Fixpoint zend_ptr_stack_n_pop (stack : zend_ptr_stack) (count : nat)
  : option (list P * zend_ptr_stack) :=
  match count with
  | O => Some ([], stack)
  | S count' =>
      '(x, stack') ← load_top stack;
      t ← int (top stack' - 1);
      '(xs, stack'') ← zend_ptr_stack_n_pop {| stack' with top := t |} count';
      Some (x :: xs, stack'')
  end.

Definition zend_ptr_stack_push (stack : zend_ptr_stack) (ptr : P) : option zend_ptr_stack :=
  stack' ← ZEND_PTR_STACK_RESIZE_IF_NEEDED stack 1;
  t ← int (top stack' + 1);
  store_top {| stack' with top := t |} ptr.

Definition zend_ptr_stack_pop (stack : zend_ptr_stack) : option (P * zend_ptr_stack) :=
  t ← int (top stack - 1);
  load_top {| stack with top := t |}.

Definition zend_ptr_stack_2_push (stack : zend_ptr_stack) (a b : P) : option zend_ptr_stack :=
  stack' ← ZEND_PTR_STACK_RESIZE_IF_NEEDED stack 2;
  t ← int (top stack' + 2);
  s1 ← store_top {| stack' with top := t |} a;
  store_top s1 b.

Definition zend_ptr_stack_3_push (stack : zend_ptr_stack) (a b c : P) : option zend_ptr_stack :=
  stack' ← ZEND_PTR_STACK_RESIZE_IF_NEEDED stack 3;
  t ← int (top stack' + 3);
  s1 ← store_top {| stack' with top := t |} a;
  s2 ← store_top s1 b;
  store_top s2 c.

Definition zend_ptr_stack_2_pop (stack : zend_ptr_stack) : option (P * P * zend_ptr_stack) :=
  '(a, s1) ← load_top stack;
  '(b, s2) ← load_top s1;
  t ← int (top s2 - 2);
  Some (a, b, {| s2 with top := t |}).

Definition zend_ptr_stack_3_pop (stack : zend_ptr_stack)
  : option (P * P * P * zend_ptr_stack) :=
  '(a, s1) ← load_top stack;
  '(b, s2) ← load_top s1;
  '(c, s3) ← load_top s2;
  t ← int (top s3 - 3);
  Some (a, b, c, {| s3 with top := t |}).

Definition zend_ptr_stack_top (stack : zend_ptr_stack) : option P :=
  buf ← elements stack; cell ← aget buf (top stack - 1); cell.

(** [pefree] of the block only: the fields keep their values, so the block dangles. *)
Definition zend_ptr_stack_destroy (stack : zend_ptr_stack) : zend_ptr_stack :=
  match elements stack with
  | Some _ => {| stack with elements := None |}
  | None => stack
  end.

(** [while (--i >= 0) func(stack->elements[i])] with [i] iterations left. *)
Fixpoint apply_down (func : St -> P -> St) (i : nat) (stack : zend_ptr_stack) (s : St)
  : option St :=
  match i with
  | O => Some s
  | S i' =>
      buf ← elements stack; cell ← aget buf (Z.of_nat i'); x ← cell;
      apply_down func i' stack (func s x)
  end.

Definition zend_ptr_stack_apply (stack : zend_ptr_stack) (func : St -> P -> St) (s : St)
  : option St := apply_down func (Z.to_nat (top stack)) stack s.

(** [while (i < top) func(stack->elements[i++])] with [n] iterations left. *)
Fixpoint apply_up (func : St -> P -> St) (n : nat) (i : Z) (stack : zend_ptr_stack) (s : St)
  : option St :=
  match n with
  | O => Some s
  | S n' =>
      buf ← elements stack; cell ← aget buf i; x ← cell;
      apply_up func n' (i + 1) stack (func s x)
  end.

Definition zend_ptr_stack_reverse_apply (stack : zend_ptr_stack) (func : St -> P -> St) (s : St)
  : option St := apply_up func (Z.to_nat (top stack)) 0 stack s.

(** [free] is [pefree] of one element, an effect on the caller's state like [func]. *)
Definition zend_ptr_stack_clean (stack : zend_ptr_stack) (func : St -> P -> St)
  (free : bool -> St -> P -> St) (free_elements : bool) (s : St)
  : option (zend_ptr_stack * St) :=
  s' ← zend_ptr_stack_apply stack func s;
  s'' ← (if free_elements
         then apply_down (free (persistent stack)) (Z.to_nat (top stack)) stack s'
         else Some s');
  Some ({| stack with top := 0;
           top_element := (fun _ => 0) <$> elements stack |}, s'').

Definition zend_ptr_stack_num_elements (stack : zend_ptr_stack) : Z := top stack.
End Ops.

(** ** Representation: the stack holds the pointers [xs], bottom first. *)
Section Facts.
Context {P St : Type}.
Implicit Types (st : zend_ptr_stack (P:=P)) (xs ys : list P).

Definition repr st xs : Prop :=
  top st = Z.of_nat (length xs) /\ is_i32 (max st) /\ block_holds (elements st) (max st) xs
  /\ top_element st = (fun _ => top st) <$> elements st.

Lemma ptr_init_repr pers : repr (zend_ptr_stack_init_ex pers) [].
Proof. by repeat split. Qed.

(** The growth loop stops, at the first size of the form [m + 64 k], [k >= 1], that fits. *)
Lemma grow_max_ok fuel : forall need m,
  (Z.to_nat (need - m) < fuel)%nat -> 0 <= m -> need + PTR_STACK_BLOCK_SIZE < 2 ^ 31 ->
  m < need ->
  exists m', grow_max fuel need m = Some m' /\ need <= m' < need + PTR_STACK_BLOCK_SIZE.
Proof.
  unfold PTR_STACK_BLOCK_SIZE.
  induction fuel as [|fuel IH]; intros need m Hf Hm Hb Hlt; [lia|].
  cbn [grow_max]. unfold PTR_STACK_BLOCK_SIZE.
  rewrite int_ok by (unfold is_i32; lia). cbn [mbind option_bind].
  zcase; [|eexists; split; [done|lia]]. apply IH; lia.
Qed.

(** After the check the block has room for [count] more pointers. *)
Lemma resize_repr st xs count :
  repr st xs -> 0 < count -> top st + count + PTR_STACK_BLOCK_SIZE < 2 ^ 31 ->
  exists st', ZEND_PTR_STACK_RESIZE_IF_NEEDED st count = Some st' /\ repr st' xs
    /\ top st' + count <= max st'.
Proof.
  intros (Ht & Hm & Hb & Hte) Hc Hbd. unfold ZEND_PTR_STACK_RESIZE_IF_NEEDED.
  pose proof (block_holds_length _ _ _ Hb). unfold PTR_STACK_BLOCK_SIZE in Hbd.
  rewrite int_ok by (unfold is_i32; lia). cbn [mbind option_bind].
  zcase; [|by exists st].
  destruct (grow_max_ok (S (Z.to_nat (top st + count - max st))) (top st + count) (max st))
    as (m & -> & Hge); unfold PTR_STACK_BLOCK_SIZE in *; try lia.
  cbn [mbind option_bind]. eexists. split; [done|]. cbn [top max]. split; [|lia].
  split; [done|]. split; [unfold is_i32; cbn [max]; lia|]. split; [|done].
  cbn [elements max]. apply (block_holds_grow _ (max st)); [done|lia|lia].
Qed.

Lemma store_top_repr st xs x t :
  repr st xs -> top st < max st ->
  exists st', store_top {| st with top := t |} x = Some {| st' with top := t |}
    /\ repr st' (xs ++ [x]) /\ max st' = max st /\ persistent st' = persistent st.
Proof.
  intros (Ht & Hm & Hb & Hte) Hlt. unfold store_top.
  destruct (elements st) as [buf|] eqn:Ee; cbn [elements top_element];
    [|destruct Hb; lia].
  cbn [fmap option_fmap option_map] in Hte. rewrite Hte. cbn [mbind option_bind].
  destruct (block_holds_write _ _ _ x (top st) Hb Ht) as (buf' & -> & Hb'); [done|].
  cbn [mbind option_bind].
  exists {| top := top st + 1; max := max st; elements := Some buf';
            top_element := Some (top st + 1); persistent := persistent st |}.
  split; [done|]. split; [|done]. split; [|done]. cbn [top].
  rewrite length_app. cbn [length]. lia.
Qed.

Lemma load_top_repr st xs x :
  repr st (xs ++ [x]) ->
  exists st', load_top st = Some (x, st') /\ repr {| st' with top := top st - 1 |} xs
    /\ top st' = top st /\ max st' = max st.
Proof.
  intros (Ht & Hm & Hb & Hte). unfold load_top.
  destruct (elements st) as [buf|] eqn:Ee; [|by destruct Hb as [_ [_ ?]%app_nil]].
  cbn [fmap option_fmap option_map] in Hte. rewrite Hte. cbn [mbind option_bind].
  rewrite length_app in Ht. cbn [length] in Ht.
  rewrite (block_holds_read _ _ _ _ Hb) by (rewrite length_app; cbn [length]; lia).
  rewrite aget_app_mid by lia. cbn [mbind option_bind fmap option_fmap option_map].
  eexists. split; [done|]. split; [|done].
  split; [cbn [top]; lia|]. split; [done|]. split; [|done].
  cbn [elements max]. eauto with zstack.
Qed.

Lemma n_push_loop_repr ys : forall st xs,
  repr st xs -> top st + Z.of_nat (length ys) <= max st ->
  exists st', n_push_loop st ys = Some st' /\ repr st' (xs ++ ys) /\ max st' = max st.
Proof.
  induction ys as [|y ys IH]; intros st xs H Hle; cbn [n_push_loop length] in *.
  - exists st. by rewrite app_nil_r.
  - pose proof H as (Ht & Hm & Hb & _). unfold is_i32 in Hm.
    rewrite int_ok by (unfold is_i32; lia). cbn [mbind option_bind].
    destruct (store_top_repr st xs y (top st + 1) H) as (st' & -> & H' & Hmax & _); [lia|].
    cbn [mbind option_bind].
    assert ({| st' with top := top st + 1 |} = st') as ->.
    { destruct H' as (Ht' & _). rewrite length_app in Ht'. cbn [length] in Ht'.
      destruct st'; cbn [top] in *. f_equal. lia. }
    destruct (IH st' (xs ++ [y]) H') as (st'' & -> & H'' & Hm'').
    { destruct H' as (-> & _). rewrite length_app. cbn [length]. lia. }
    exists st''. rewrite cons_middle, app_assoc. split_and!; [done|done|congruence].
Qed.

Lemma n_push_repr st xs ys :
  repr st xs -> top st + Z.of_nat (length ys) + PTR_STACK_BLOCK_SIZE < 2 ^ 31 -> ys <> [] ->
  exists st', zend_ptr_stack_n_push st ys = Some st' /\ repr st' (xs ++ ys).
Proof.
  intros H Hb Hne. unfold zend_ptr_stack_n_push.
  destruct (resize_repr st xs (Z.of_nat (length ys)) H) as (st1 & -> & H1 & Hle);
    [destruct ys; cbn [length]; [done|lia]|done|]. cbn [mbind option_bind].
  destruct (n_push_loop_repr ys st1 xs H1 Hle) as (st' & -> & H' & _). eauto.
Qed.

Lemma n_pop_repr ys : forall st xs,
  repr st (xs ++ reverse ys) ->
  exists st', zend_ptr_stack_n_pop st (length ys) = Some (ys, st') /\ repr st' xs.
Proof.
  induction ys as [|y ys IH]; intros st xs H; cbn [zend_ptr_stack_n_pop length].
  - exists st. by rewrite app_nil_r in H.
  - rewrite reverse_cons, app_assoc in H.
    destruct (load_top_repr _ _ _ H) as (st1 & -> & H1 & Ht1 & Hm1). cbn [mbind option_bind].
    pose proof H as (Ht & Hm & Hb & _). pose proof (block_holds_length _ _ _ Hb).
    rewrite length_app in *. cbn [length] in *. unfold is_i32 in Hm.
    rewrite int_ok by (unfold is_i32; lia). rewrite Ht1. cbn [mbind option_bind].
    destruct (IH _ _ H1) as (st2 & -> & H2). cbn [mbind option_bind]. eauto.
Qed.

(** Pushing any number of pointers at once and popping as many gives them back in reverse
    order and leaves the stack with the contents it had; the growth loop of the push ends. *)
Theorem zend_ptr_stack_n_push_n_pop st xs ys :
  repr st xs -> ys <> [] -> top st + Z.of_nat (length ys) + PTR_STACK_BLOCK_SIZE < 2 ^ 31 ->
  exists st1 st2, zend_ptr_stack_n_push st ys = Some st1 /\ repr st1 (xs ++ ys)
    /\ zend_ptr_stack_n_pop st1 (length ys) = Some (reverse ys, st2) /\ repr st2 xs.
Proof.
  intros H Hne Hb. destruct (n_push_repr st xs ys H Hb Hne) as (st1 & -> & H1).
  destruct (n_pop_repr (reverse ys) st1 xs) as (st2 & E & H2); [by rewrite reverse_involutive|].
  rewrite length_reverse in E. eauto 10.
Qed.

(** The unrolled push of three is the general push of three. *)
Lemma zend_ptr_stack_3_push_n st xs a b c :
  repr st xs -> top st + 3 + PTR_STACK_BLOCK_SIZE < 2 ^ 31 ->
  exists st', zend_ptr_stack_3_push st a b c = Some st' /\ repr st' (xs ++ [a; b; c]).
Proof.
  intros H Hb. unfold zend_ptr_stack_3_push.
  destruct (resize_repr st xs 3 H) as (st1 & -> & H1 & Hle); [lia|done|].
  cbn [mbind option_bind]. pose proof H1 as (Ht & Hm & _). unfold is_i32 in Hm.
  rewrite int_ok by (unfold is_i32; lia). cbn [mbind option_bind].
  destruct (store_top_repr st1 xs a (top st1 + 3) H1) as (s1 & -> & R1 & M1 & _); [lia|].
  cbn [mbind option_bind]. pose proof R1 as (T1 & _).
  rewrite length_app in T1; cbn [length] in T1.
  destruct (store_top_repr s1 _ b (top st1 + 3) R1) as (s2 & -> & R2 & M2 & _); [lia|].
  cbn [mbind option_bind]. pose proof R2 as (T2 & _).
  rewrite !length_app in T2; cbn [length] in T2.
  destruct (store_top_repr s2 _ c (top st1 + 3) R2) as (s3 & -> & R3 & _ & _); [lia|].
  rewrite <- !app_assoc in R3. cbn [app] in R3. pose proof R3 as (T3 & _).
  rewrite length_app in T3; cbn [length] in T3.
  replace (top st1 + 3) with (top s3) by lia. destruct s3; eauto.
Qed.
End Facts.

Lemma zend_ptr_stack_n_push_n_pop_witness :
  exists st1 st2, zend_ptr_stack_n_push (zend_ptr_stack_init (P:=Z)) [10; 20; 30] = Some st1
    /\ repr st1 [10; 20; 30] /\ zend_ptr_stack_n_pop st1 3 = Some ([30; 20; 10], st2)
    /\ repr st2 [].
Proof.
  apply (zend_ptr_stack_n_push_n_pop (zend_ptr_stack_init (P:=Z)) [] [10; 20; 30]);
    [apply ptr_init_repr|done|vm_compute; done].
Defined.
End PtrStack.
