(* ===== verification/ZendSort.v ===== *)
(** Sorting in place: [zend_headers/zend_sort.c].

    The functions reach the array only through two callbacks, a comparison of two cells and an exchange
    of two cells; a pointer [base + k * siz] is the index [k].  On arrays of elements that are exchanged as
    a whole ([swp], [gt_at] with a pure [cmp]) leaving the array is [None], undefined behaviour.
    The comparison comes from the PHP program ([usort], [sort] on mixed values), so nothing can be
    assumed of it: for every [cmp] whatever, [zend_insert_sort] and [zend_sort] stay inside the
    range they are given, terminate and permute it; when [cmp] is a total preorder the range ends
    sorted.  The recursion of [zend_sort] is on fuel; [nmemb] recursive steps are enough.
    [zend_sort_follows] carries all this over to arrays whose cells are exchanged in part. *)

From S2P Require Import Prelude.

Section Code.
(** An array of type [L] is accessed through two callbacks: [gt_at l p q] is [cmp(p, q) > 0], and
    [swp l p q] exchanges what [p] and [q] point to. *)
Context {L : Type} (gt_at : L -> nat -> nat -> option bool) (swp : L -> nat -> nat -> option L).
Implicit Types (l : L).

Definition zend_sort_2 l (a b : nat) : option L :=
  g ← gt_at l a b; if (g : bool) then swp l a b else Some l.

Definition zend_sort_3 l (a b c : nat) : option L :=
  ab ← gt_at l a b;
  if negb ab then
    bc ← gt_at l b c;
    if negb bc then Some l
    else l1 ← swp l b c;
         ab' ← gt_at l1 a b;
         if (ab' : bool) then swp l1 a b else Some l1
  else
    cb ← gt_at l c b;
    if negb cb then swp l a c
    else l1 ← swp l a b;
         bc ← gt_at l1 b c;
         if (bc : bool) then swp l1 b c else Some l1.

Definition zend_sort_4 l (a b c d : nat) : option L :=
  l1 ← zend_sort_3 l a b c;
  cd ← gt_at l1 c d;
  if (cd : bool) then
    l2 ← swp l1 c d;
    bc ← gt_at l2 b c;
    if (bc : bool) then
      l3 ← swp l2 b c;
      ab ← gt_at l3 a b;
      if (ab : bool) then swp l3 a b else Some l3
    else Some l2
  else Some l1.

Definition zend_sort_5 l (a b c d e : nat) : option L :=
  l1 ← zend_sort_4 l a b c d;
  de ← gt_at l1 d e;
  if (de : bool) then
    l2 ← swp l1 d e;
    cd ← gt_at l2 c d;
    if (cd : bool) then
      l3 ← swp l2 c d;
      bc ← gt_at l3 b c;
      if (bc : bool) then
        l4 ← swp l3 b c;
        ab ← gt_at l4 a b;
        if (ab : bool) then swp l4 a b else Some l4
      else Some l3
    else Some l2
  else Some l1.

(** [while (j != start) { j--; if (!(cmp(j, i) > 0)) { j++; break; } }]. *)
Fixpoint insert_pos_linear (fuel : nat) l (start i j : nat) : option nat :=
  match fuel with
  | O => None
  | S fuel' =>
      if Nat.eqb j start then Some j
      else let j' := (j - 1)%nat in
           g ← gt_at l j' i;
           if negb g then Some (j' + 1)%nat else insert_pos_linear fuel' l start i j'
  end.

(** The [do ... while (1)] search of the second loop, two cells at a time. *)
Fixpoint insert_pos_double (fuel : nat) l (start i j : nat) : option nat :=
  match fuel with
  | O => None
  | S fuel' =>
      if (j <? start + 2)%nat then None (* the pointer would leave the range *)
      else
        let j2 := (j - 2)%nat in
        g ← gt_at l j2 i;
        if negb g then
          let j1 := (j2 + 1)%nat in
          g1 ← gt_at l j1 i;
          Some (if negb g1 then (j1 + 1)%nat else j1)
        else if Nat.eqb j2 start then Some j2
        else if Nat.eqb j2 (start + 1) then
          let j0 := (j2 - 1)%nat in
          g0 ← gt_at l i j0;
          Some (if (g0 : bool) then (j0 + 1)%nat else j0)
        else insert_pos_double fuel' l start i j2
  end.

(** [for (k = i; k > j; k--) swp(k, k - 1)], with [n = i - j] iterations. *)
Fixpoint rotate (n : nat) l (k : nat) : option L :=
  match n with
  | O => Some l
  | S n' => l' ← swp l k (k - 1); rotate n' l' (k - 1)
  end.

(** One iteration of the first and of the second loop of the [default] case. *)
Definition insert_step_linear l (start i : nat) : option L :=
  let j := (i - 1)%nat in
  g ← gt_at l j i;
  if negb g then Some l
  else p ← insert_pos_linear (S (j - start)) l start i j; rotate (i - p) l i.

Definition insert_step_double l (start i : nat) : option L :=
  let j := (i - 1)%nat in
  g ← gt_at l j i;
  if negb g then Some l
  else p ← insert_pos_double (S (j - start)) l start i j; rotate (i - p) l i.

(** A [for] loop over the [n] cells from [i] on. *)
Fixpoint insert_loop (step : L -> nat -> nat -> option L) (n : nat) l (start i : nat)
  : option L :=
  match n with
  | O => Some l
  | S n' => l' ← step l start i; insert_loop step n' l' start (i + 1)
  end.

Definition zend_insert_sort l (base nmemb : nat) : option L :=
  match nmemb with
  | 0%nat | 1%nat => Some l
  | 2%nat => zend_sort_2 l base (base + 1)
  | 3%nat => zend_sort_3 l base (base + 1) (base + 2)
  | 4%nat => zend_sort_4 l base (base + 1) (base + 2) (base + 3)
  | 5%nat => zend_sort_5 l base (base + 1) (base + 2) (base + 3) (base + 4)
  | _ =>
      l1 ← insert_loop insert_step_linear 5 l base (base + 1);
      insert_loop insert_step_double (nmemb - 6) l1 base (base + 6)
  end.

(** [while (cmp(pivot, i) > 0) { i++; if (i == j) goto done; }]: the new [i], and whether the
    jump was taken. *)
Fixpoint scan_up (fuel : nat) l (pivot i j : nat) : option (nat * bool) :=
  match fuel with
  | O => None
  | S fuel' =>
      g ← gt_at l pivot i;
      if (g : bool) then
        if Nat.eqb (i + 1) j then Some ((i + 1)%nat, true)
        else scan_up fuel' l pivot (i + 1) j
      else Some (i, false)
  end.

(** [while (cmp(j, pivot) > 0) { j--; if (j == i) goto done; }]. *)
Fixpoint scan_down (fuel : nat) l (pivot i j : nat) : option (nat * bool) :=
  match fuel with
  | O => None
  | S fuel' =>
      g ← gt_at l j pivot;
      if (g : bool) then
        if Nat.eqb (j - 1) i then Some ((j - 1)%nat, true)
        else scan_down fuel' l pivot i (j - 1)
      else Some (j, false)
  end.

(** The partition loop; the result is the array and [i] at the label [done]. *)
Fixpoint partition_loop (fuel : nat) l (pivot i j : nat) : option (L * nat) :=
  match fuel with
  | O => None
  | S fuel' =>
      '(i1, fin1) ← scan_up (S (j - i)) l pivot i j;
      if (fin1 : bool) then Some (l, i1)
      else
        let j1 := (j - 1)%nat in
        if Nat.eqb j1 i1 then Some (l, i1)
        else
          '(j2, fin2) ← scan_down (S (j1 - i1)) l pivot i1 j1;
          if (fin2 : bool) then Some (l, i1)
          else
            l1 ← swp l i1 j2;
            if Nat.eqb (i1 + 1) j2 then Some (l1, (i1 + 1)%nat)
            else partition_loop fuel' l1 pivot (i1 + 1) j2
  end.

(** From the choice of the pivot to the label [done] and the exchange after it: the array and
    the index [i] that separates the two parts. *)
Definition partition l (start nmemb : nat) : option (L * nat) :=
  let end' := (start + nmemb)%nat in
  let offset := (nmemb / 2)%nat in
  let pivot := (start + offset)%nat in
  l1 ← (if (0 <? nmemb / 1024)%nat
        then let delta := (offset / 2)%nat in
             zend_sort_5 l start (start + delta) pivot (pivot + delta) (end' - 1)
        else zend_sort_3 l start pivot (end' - 1));
  l2 ← swp l1 (start + 1) pivot;
  '(l3, i) ← partition_loop nmemb l2 (start + 1) (start + 2) (end' - 1);
  l4 ← swp l3 (start + 1) (i - 1);
  Some (l4, i).

Fixpoint zend_sort (fuel : nat) l (base nmemb : nat) : option L :=
  match fuel with
  | O => None
  | S fuel' =>
      if (nmemb <=? 16)%nat then zend_insert_sort l base nmemb
      else
        let start := base in
        let end' := (start + nmemb)%nat in
        '(l', i) ← partition l start nmemb;
        if ((i - 1) - start <? end' - i)%nat then
          l'' ← zend_sort fuel' l' start ((i - start) - 1);
          zend_sort fuel' l'' i (end' - i)
        else
          l'' ← zend_sort fuel' l' i (end' - i);
          zend_sort fuel' l'' base ((i - start) - 1)
  end.
End Code.

(** ** Arrays of elements that are exchanged as a whole *)
Section Cells.
Context {A : Type} (cmp : A -> A -> Z).
Implicit Types (l : list A).

Definition swp l (p q : nat) : option (list A) :=
  x ← l !! p; y ← l !! q; Some (<[p := y]> (<[q := x]> l)).

Definition gt_at l (p q : nat) : option bool :=
  x ← l !! p; y ← l !! q; Some (0 <? cmp x y).
End Cells.

Definition ex_cmp (x y : Z) : Z := x - y.
Example zend_sort_ex :
  zend_sort (gt_at ex_cmp) swp 20 [9;1;8;2;7;3;6;4;5;0;11;19;13;17;12;14;18;15;16;10] 0 20
  = Some [0;1;2;3;4;5;6;7;8;9;10;11;12;13;14;15;16;17;18;19].
Proof. vm_compute. reflexivity. Qed.

(** ** Exchanges inside a range *)
Section Swaps.
Context {A : Type}.
Implicit Types (l : list A) (P : A -> Prop).

(** [l'] is reached from [l] by exchanging cells of the range [[lo, hi)]. *)
Inductive swaps (lo hi : nat) : list A -> list A -> Prop :=
| swaps_refl l : swaps lo hi l l
| swaps_step l p q l1 l2 :
    (lo <= p < hi)%nat -> (lo <= q < hi)%nat -> swp l p q = Some l1 -> swaps lo hi l1 l2 ->
    swaps lo hi l l2.

Lemma swp_Some l p q :
  (p < length l)%nat -> (q < length l)%nat -> exists l', swp l p q = Some l'.
Proof.
  intros [x Hx]%lookup_lt_is_Some [y Hy]%lookup_lt_is_Some. unfold swp.
  rewrite Hx, Hy. eauto.
Qed.

Lemma swp_length l p q l' : swp l p q = Some l' -> length l' = length l.
Proof. unfold swp. intros. inv_opt. by rewrite !length_insert. Qed.

Lemma swp_lookup l p q l' k :
  swp l p q = Some l' ->
  l' !! k = if decide (k = p) then l !! q else if decide (k = q) then l !! p else l !! k.
Proof.
  unfold swp. intros H.
  destruct (l !! p) as [x|] eqn:Ep; [|done]. destruct (l !! q) as [y|] eqn:Eq; [|done].
  injection H as <-.
  assert (p < length l)%nat by (by eapply lookup_lt_Some).
  assert (q < length l)%nat by (by eapply lookup_lt_Some).
  rewrite !list_lookup_insert, length_insert.
  repeat case_decide; subst; first [done | congruence | lia].
Qed.

Lemma swp_same l p l' : swp l p p = Some l' -> l' = l.
Proof.
  intros H. apply list_eq. intros k. rewrite (swp_lookup _ _ _ _ k H).
  repeat case_decide; by subst.
Qed.

Lemma swaps_swp lo hi l p q l' :
  (lo <= p < hi)%nat -> (lo <= q < hi)%nat -> swp l p q = Some l' -> swaps lo hi l l'.
Proof. intros ? ? H. eapply (swaps_step _ _ _ p q); [done|done|exact H|constructor]. Qed.

Lemma swaps_trans lo hi l1 l2 l3 : swaps lo hi l1 l2 -> swaps lo hi l2 l3 -> swaps lo hi l1 l3.
Proof.
  induction 1 as [|l p q l' l2 Hp Hq H _ IH]; [done|]. intros H3.
  exact (swaps_step _ _ _ _ _ _ _ Hp Hq H (IH H3)).
Qed.

Lemma swaps_mono lo hi lo' hi' l l' :
  swaps lo hi l l' -> (lo' <= lo)%nat -> (hi <= hi')%nat -> swaps lo' hi' l l'.
Proof.
  induction 1 as [|l p q l1 l2 Hp Hq H _ IH]; [constructor|]. intros.
  apply (swaps_step _ _ _ p q l1); [lia|lia|done|auto].
Qed.

Lemma swaps_length lo hi l l' : swaps lo hi l l' -> length l' = length l.
Proof. induction 1 as [|l p q l1 l2 ? ? H%swp_length]; congruence. Qed.

Lemma swaps_outside lo hi l l' k :
  swaps lo hi l l' -> ~ (lo <= k < hi)%nat -> l' !! k = l !! k.
Proof.
  induction 1 as [|l p q l1 l2 ? ? H]; [done|]. intros. rewrite IHswaps by done.
  rewrite (swp_lookup _ _ _ _ k H). repeat case_decide; [lia|lia|done].
Qed.

(** What holds of every cell of the range still does. *)
Lemma swaps_Forall lo hi l l' P :
  swaps lo hi l l' -> (forall k x, (lo <= k < hi)%nat -> l !! k = Some x -> P x) ->
  forall k x, (lo <= k < hi)%nat -> l' !! k = Some x -> P x.
Proof.
  induction 1 as [|l p q l1 l2 ? ? H]; [done|]. intros HP. apply IHswaps.
  intros k x Hk. rewrite (swp_lookup _ _ _ _ k H). repeat case_decide; eauto.
Qed.

Lemma swp_perm l p q l' : swp l p q = Some l' -> l' ≡ₚ l.
Proof.
  unfold swp. intros H.
  destruct (l !! p) as [x|] eqn:Ep; [|done]. destruct (l !! q) as [y|] eqn:Eq; [|done].
  injection H as <-. destruct (decide (p = q)) as [->|Hne].
  - simplify_eq. rewrite list_insert_insert_eq, list_insert_id; done.
  - apply Permutation_inj. split; [by rewrite !length_insert|].
    exists (fun k => if decide (k = p) then q else if decide (k = q) then p else k). split.
    + intros a b. repeat case_decide; congruence.
    + intros k.
      assert (swp l p q = Some (<[p := y]> (<[q := x]> l))) as Hs
        by (unfold swp; by rewrite Ep, Eq).
      rewrite (swp_lookup _ _ _ _ k Hs). repeat case_decide; congruence.
Qed.

Lemma swaps_perm lo hi l l' : swaps lo hi l l' -> l' ≡ₚ l.
Proof. induction 1 as [|l p q l1 l2 ? ? H%swp_perm]; [done|]. by rewrite IHswaps. Qed.
End Swaps.
Create HintDb zsort.
#[export] Hint Resolve swaps_trans swaps_swp swaps_refl : zsort.

(** ** The sorts of two to five cells *)
Section Networks.
Context {A : Type} (cmp : A -> A -> Z).
Implicit Types (l : list A).

Lemma swp_lookup_l l p q l' : swp l p q = Some l' -> l' !! p = l !! q.
Proof. intros H. rewrite (swp_lookup _ _ _ _ p H). by rewrite decide_True. Qed.
Lemma swp_lookup_r l p q l' : swp l p q = Some l' -> l' !! q = l !! p.
Proof. intros H. rewrite (swp_lookup _ _ _ _ q H). repeat case_decide; congruence. Qed.
Lemma swp_lookup_ne l p q l' k :
  swp l p q = Some l' -> k <> p -> k <> q -> l' !! k = l !! k.
Proof. intros H ? ?. rewrite (swp_lookup _ _ _ _ k H). by rewrite !decide_False. Qed.

Lemma gt_at_Some l p q :
  (p < length l)%nat -> (q < length l)%nat -> exists b, gt_at cmp l p q = Some b.
Proof.
  intros [x Hx]%lookup_lt_is_Some [y Hy]%lookup_lt_is_Some. unfold gt_at.
  rewrite Hx, Hy. eauto.
Qed.

Lemma gt_at_spec l p q b x y :
  gt_at cmp l p q = Some b -> l !! p = Some x -> l !! q = Some y ->
  if b then 0 < cmp x y else cmp x y <= 0.
Proof.
  unfold gt_at. intros H Hx Hy. rewrite Hx, Hy in H. cbn in H. injection H as <-.
  destruct (Z.ltb_spec 0 (cmp x y)); lia.
Qed.
End Networks.

(** Run the next comparison or exchange of the goal: both succeed inside the array. *)
Ltac net_step :=
  match goal with
  | |- context [gt_at ?cmp ?l ?p ?q] =>
      let b := fresh "b" in let G := fresh "G" in
      destruct (gt_at_Some cmp l p q) as [b G]; [lia|lia|];
      rewrite G; cbn [mbind option_bind]; destruct b; cbn [negb]
  | |- context [swp ?l ?p ?q] =>
      let l' := fresh "l" in let S := fresh "S" in
      destruct (swp_Some l p q) as [l' S]; [lia|lia|];
      pose proof (swp_length _ _ _ _ S); rewrite S; cbn [mbind option_bind]
  end.

Ltac net_done :=
  eexists; split; [reflexivity|];
  repeat match goal with
  | S : swp ?l ?p ?q = Some ?l' |- swaps _ _ ?l _ =>
      apply (swaps_step _ _ _ p q l'); [lia|lia|exact S|]
  end; apply swaps_refl.

Ltac net := repeat net_step; net_done.

Section NetworkSafety.
Context {A : Type} (cmp : A -> A -> Z) (l : list A) (lo hi : nat).
Context (Hhi : (hi <= length l)%nat).

Lemma zend_sort_2_safe a b :
  (lo <= a < hi)%nat -> (lo <= b < hi)%nat ->
  exists l', zend_sort_2 (gt_at cmp) swp l a b = Some l' /\ swaps lo hi l l'.
Proof. intros. unfold zend_sort_2. net. Qed.

Lemma zend_sort_3_safe a b c :
  (lo <= a < hi)%nat -> (lo <= b < hi)%nat -> (lo <= c < hi)%nat ->
  exists l', zend_sort_3 (gt_at cmp) swp l a b c = Some l' /\ swaps lo hi l l'.
Proof. intros. unfold zend_sort_3. net. Qed.

Lemma zend_sort_4_safe a b c d :
  (lo <= a < hi)%nat -> (lo <= b < hi)%nat -> (lo <= c < hi)%nat -> (lo <= d < hi)%nat ->
  exists l', zend_sort_4 (gt_at cmp) swp l a b c d = Some l' /\ swaps lo hi l l'.
Proof.
  intros. unfold zend_sort_4.
  destruct (zend_sort_3_safe a b c) as (l1 & -> & S1); [done..|].
  pose proof (swaps_length _ _ _ _ S1). cbn [mbind option_bind].
  assert (forall l', swaps lo hi l1 l' -> swaps lo hi l l') by eauto with zsort.
  enough (exists l', _ = Some l' /\ swaps lo hi l1 l') as (l' & -> & ?) by eauto. net.
Qed.

Lemma zend_sort_5_safe a b c d e :
  (lo <= a < hi)%nat -> (lo <= b < hi)%nat -> (lo <= c < hi)%nat -> (lo <= d < hi)%nat ->
  (lo <= e < hi)%nat ->
  exists l', zend_sort_5 (gt_at cmp) swp l a b c d e = Some l' /\ swaps lo hi l l'.
Proof.
  intros. unfold zend_sort_5.
  destruct (zend_sort_4_safe a b c d) as (l1 & -> & S1); [done..|].
  pose proof (swaps_length _ _ _ _ S1). cbn [mbind option_bind].
  enough (exists l', _ = Some l' /\ swaps lo hi l1 l') as (l' & -> & ?) by eauto with zsort. net.
Qed.
End NetworkSafety.

(** ** Insertion: inside the range, whatever the comparison *)
Section InsertSafety.
Context {A : Type} (cmp : A -> A -> Z).
Implicit Types (l : list A).

Lemma rotate_safe n : forall l k lo hi,
  (lo <= k - n)%nat -> (n <= k < hi)%nat -> (hi <= length l)%nat ->
  exists l', rotate swp n l k = Some l' /\ swaps lo hi l l'.
Proof.
  induction n as [|n IH]; intros l k lo hi Hlo Hk Hhi; cbn [rotate].
  - eexists. split; [done|constructor].
  - destruct (swp_Some l k (k - 1)) as [l1 S1]; [lia|lia|].
    pose proof (swp_length _ _ _ _ S1). rewrite S1. cbn [mbind option_bind].
    destruct (IH l1 (k - 1)%nat lo hi) as (l' & -> & S2); [lia..|].
    exists l'. split; [done|]. apply (swaps_step _ _ _ k (k - 1) l1); [lia|lia|done|done].
Qed.

Lemma insert_pos_linear_safe fuel : forall l start i j,
  (j - start < fuel)%nat -> (start <= j)%nat -> (j < length l)%nat -> (i < length l)%nat ->
  exists p, insert_pos_linear (gt_at cmp) fuel l start i j = Some p /\ (start <= p <= j)%nat.
Proof.
  induction fuel as [|fuel IH]; intros l start i j Hf Hj Hl Hi; [lia|].
  cbn [insert_pos_linear]. destruct (Nat.eqb_spec j start); [eexists; split; [done|lia]|].
  destruct (gt_at_Some cmp l (j - 1) i) as [g G]; [lia|lia|].
  rewrite G. cbn [mbind option_bind]. destruct g; cbn [negb]; [|eexists; split; [done|lia]].
  destruct (IH l start i (j - 1)%nat) as (p & -> & ?); [lia..|].
  exists p. split; [done|lia].
Qed.

Lemma insert_pos_double_safe fuel : forall l start i j,
  (j - start < fuel)%nat -> (start + 2 <= j)%nat -> (j < length l)%nat -> (i < length l)%nat ->
  exists p, insert_pos_double (gt_at cmp) fuel l start i j = Some p /\ (start <= p <= j)%nat.
Proof.
  induction fuel as [|fuel IH]; intros l start i j Hf Hj Hl Hi; [lia|].
  cbn [insert_pos_double]. rewrite (proj2 (Nat.ltb_ge _ _)) by lia.
  destruct (gt_at_Some cmp l (j - 2) i) as [g G]; [lia|lia|].
  rewrite G. cbn [mbind option_bind]. destruct g; cbn [negb].
  - destruct (Nat.eqb_spec (j - 2) start); [eexists; split; [done|lia]|].
    destruct (Nat.eqb_spec (j - 2) (start + 1)).
    + destruct (gt_at_Some cmp l i (j - 2 - 1)) as [g0 G0]; [lia|lia|].
      rewrite G0. cbn [mbind option_bind]. eexists. split; [done|]. destruct g0; lia.
    + destruct (IH l start i (j - 2)%nat) as (p & -> & ?); [lia..|].
      exists p. split; [done|lia].
  - destruct (gt_at_Some cmp l (j - 2 + 1) i) as [g1 G1]; [lia|lia|].
    rewrite G1. cbn [mbind option_bind]. eexists. split; [done|]. destruct g1; cbn [negb]; lia.
Qed.

(** A step of either loop, [i] being far enough from the start for its search. *)
Definition step_safe (step : list A -> nat -> nat -> option (list A)) (start d : nat) : Prop :=
  forall l i hi, (start + d <= i < hi)%nat -> (hi <= length l)%nat ->
  exists l', step l start i = Some l' /\ swaps start hi l l'.

Lemma insert_step_linear_safe start : step_safe (insert_step_linear (gt_at cmp) swp) start 1.
Proof.
  intros l i hi Hi Hhi. unfold insert_step_linear.
  destruct (gt_at_Some cmp l (i - 1) i) as [g G]; [lia|lia|].
  rewrite G. cbn [mbind option_bind]. destruct g; cbn [negb]; [|eexists; split; [done|constructor]].
  destruct (insert_pos_linear_safe (S (i - 1 - start)) l start i (i - 1)) as (p & -> & Hp);
    [lia..|]. cbn [mbind option_bind]. apply rotate_safe; lia.
Qed.

Lemma insert_step_double_safe start : step_safe (insert_step_double (gt_at cmp) swp) start 3.
Proof.
  intros l i hi Hi Hhi. unfold insert_step_double.
  destruct (gt_at_Some cmp l (i - 1) i) as [g G]; [lia|lia|].
  rewrite G. cbn [mbind option_bind]. destruct g; cbn [negb]; [|eexists; split; [done|constructor]].
  destruct (insert_pos_double_safe (S (i - 1 - start)) l start i (i - 1)) as (p & -> & Hp);
    [lia..|]. cbn [mbind option_bind]. apply rotate_safe; lia.
Qed.

Lemma insert_loop_safe step start d n : forall l i hi,
  step_safe step start d -> (start + d <= i)%nat -> (i + n <= hi)%nat -> (hi <= length l)%nat ->
  exists l', insert_loop step n l start i = Some l' /\ swaps start hi l l'.
Proof.
  induction n as [|n IH]; intros l i hi Hs Hi Hn Hhi; cbn [insert_loop].
  - eexists. split; [done|constructor].
  - destruct (Hs l i hi) as (l1 & -> & S1); [lia|lia|]. cbn [mbind option_bind].
    destruct (IH l1 (i + 1)%nat hi Hs) as (l' & -> & S2); [lia|lia| |eauto with zsort].
    rewrite (swaps_length _ _ _ _ S1). lia.
Qed.

Lemma zend_insert_sort_safe l base nmemb :
  (base + nmemb <= length l)%nat ->
  exists l', zend_insert_sort (gt_at cmp) swp l base nmemb = Some l' /\ swaps base (base + nmemb) l l'.
Proof.
  intros H. destruct nmemb as [|[|[|[|[|[|n]]]]]]; unfold zend_insert_sort.
  1,2: eexists; split; [done|constructor].
  - apply zend_sort_2_safe; lia.
  - apply zend_sort_3_safe; lia.
  - apply zend_sort_4_safe; lia.
  - apply zend_sort_5_safe; lia.
  - destruct (insert_loop_safe _ base 1 5 l (base + 1) (base + S (S (S (S (S (S n))))))
      (insert_step_linear_safe base)) as (l1 & -> & S1); [lia..|]. cbn [mbind option_bind].
    destruct (insert_loop_safe _ base 3 (S (S (S (S (S (S n))))) - 6) l1 (base + 6)
      (base + S (S (S (S (S (S n)))))) (insert_step_double_safe base))
      as (l2 & -> & S2); [lia|lia| |eauto with zsort].
    rewrite (swaps_length _ _ _ _ S1). lia.
Qed.

(** *** The partition and the recursion *)
Lemma scan_up_safe fuel : forall l pivot i j,
  (j - i < fuel)%nat -> (i < j)%nat -> (j < length l)%nat -> (pivot < length l)%nat ->
  exists i' b, scan_up (gt_at cmp) fuel l pivot i j = Some (i', b) /\ (i <= i' <= j)%nat
    /\ (if b then i' = j else (i' < j)%nat).
Proof.
  induction fuel as [|fuel IH]; intros l pivot i j Hf Hij Hj Hp; [lia|]. cbn [scan_up].
  destruct (gt_at_Some cmp l pivot i) as [g G]; [lia|lia|]. rewrite G. cbn [mbind option_bind].
  destruct g; [|eexists _, _; split; [done|cbn; lia]].
  destruct (Nat.eqb_spec (i + 1) j); [eexists _, _; split; [done|cbn; lia]|].
  destruct (IH l pivot (i + 1)%nat j) as (i' & b & -> & ? & ?); [lia..|].
  eexists _, _. split; [done|]. split; [lia|done].
Qed.

Lemma scan_down_safe fuel : forall l pivot i j,
  (j - i < fuel)%nat -> (i < j)%nat -> (j < length l)%nat -> (pivot < length l)%nat ->
  exists j' b, scan_down (gt_at cmp) fuel l pivot i j = Some (j', b) /\ (i <= j' <= j)%nat
    /\ (if b then j' = i else (i < j')%nat).
Proof.
  induction fuel as [|fuel IH]; intros l pivot i j Hf Hij Hj Hp; [lia|]. cbn [scan_down].
  destruct (gt_at_Some cmp l j pivot) as [g G]; [lia|lia|]. rewrite G. cbn [mbind option_bind].
  destruct g; [|eexists _, _; split; [done|cbn; lia]].
  destruct (Nat.eqb_spec (j - 1) i); [eexists _, _; split; [done|cbn; lia]|].
  destruct (IH l pivot i (j - 1)%nat) as (i' & b & -> & ? & ?); [lia..|].
  eexists _, _. split; [done|]. split; [lia|done].
Qed.

Lemma partition_loop_safe fuel : forall l pivot i j,
  (j - i < fuel)%nat -> (pivot < i < j)%nat -> (j < length l)%nat ->
  exists l' i', partition_loop (gt_at cmp) swp fuel l pivot i j = Some (l', i') /\ (i <= i' <= j)%nat
    /\ swaps i j l l'.
Proof.
  induction fuel as [|fuel IH]; intros l pivot i j Hf Hij Hj; [lia|]. cbn [partition_loop].
  destruct (scan_up_safe (S (j - i)) l pivot i j) as (i1 & b1 & -> & Hi1 & Hb1); [lia..|].
  cbn [mbind option_bind].
  destruct b1; [eexists _, _; split; [done|]; split; [lia|constructor]|].
  destruct (Nat.eqb_spec (j - 1) i1).
  { eexists _, _; split; [done|]; split; [lia|constructor]. }
  destruct (scan_down_safe (S (j - 1 - i1)) l pivot i1 (j - 1)) as (j2 & b2 & -> & Hj2 & Hb2);
    [lia..|]. cbn [mbind option_bind].
  destruct b2; [eexists _, _; split; [done|]; split; [lia|constructor]|].
  destruct (swp_Some l i1 j2) as [l1 S1]; [lia|lia|]. rewrite S1. cbn [mbind option_bind].
  pose proof (swp_length _ _ _ _ S1).
  assert (swaps i j l l1) as R1 by (apply (swaps_swp _ _ _ i1 j2); [lia|lia|done]).
  destruct (Nat.eqb_spec (i1 + 1) j2); [eexists _, _; split; [done|]; split; [lia|done]|].
  destruct (IH l1 pivot (i1 + 1)%nat j2) as (l' & i' & -> & ? & S2); [lia..|].
  eexists _, _. split; [done|]. split; [lia|].
  eapply swaps_trans; [exact R1|]. eapply swaps_mono; [exact S2|lia|lia].
Qed.

(** The separation index is inside the range, so both parts are smaller than it. *)
Lemma partition_safe l start nmemb :
  (16 < nmemb)%nat -> (start + nmemb <= length l)%nat ->
  exists l' i, partition (gt_at cmp) swp l start nmemb = Some (l', i)
    /\ (start + 2 <= i <= start + nmemb - 1)%nat /\ swaps start (start + nmemb) l l'.
Proof.
  intros Hn Hl. unfold partition.
  pose proof (Nat.div_mod_eq nmemb 2). pose proof (Nat.mod_upper_bound nmemb 2).
  pose proof (Nat.div_mod_eq (nmemb / 2) 2). pose proof (Nat.mod_upper_bound (nmemb / 2) 2).
  assert (exists l1, (if (0 <? nmemb / 1024)%nat
        then zend_sort_5 (gt_at cmp) swp l start (start + (nmemb / 2) / 2) (start + nmemb / 2)
               (start + nmemb / 2 + (nmemb / 2) / 2) (start + nmemb - 1)
        else zend_sort_3 (gt_at cmp) swp l start (start + nmemb / 2) (start + nmemb - 1)) = Some l1
        /\ swaps start (start + nmemb) l l1) as (l1 & -> & S1).
  { destruct (0 <? nmemb / 1024)%nat; [apply zend_sort_5_safe|apply zend_sort_3_safe]; lia. }
  cbn [mbind option_bind]. pose proof (swaps_length _ _ _ _ S1).
  destruct (swp_Some l1 (start + 1) (start + nmemb / 2)) as [l2 S2]; [lia|lia|].
  rewrite S2. cbn [mbind option_bind]. pose proof (swp_length _ _ _ _ S2).
  destruct (partition_loop_safe nmemb l2 (start + 1) (start + 2) (start + nmemb - 1))
    as (l3 & i & -> & Hi & S3); [lia..|]. cbn [mbind option_bind].
  pose proof (swaps_length _ _ _ _ S3).
  destruct (swp_Some l3 (start + 1) (i - 1)) as [l4 S4]; [lia|lia|].
  rewrite S4. cbn [mbind option_bind]. eexists _, _. split; [done|]. split; [lia|].
  eapply swaps_trans; [exact S1|].
  apply (swaps_step _ _ _ (start + 1) (start + nmemb / 2) l2); [lia|lia|done|].
  eapply swaps_trans; [eapply swaps_mono; [exact S3|lia|lia]|].
  apply (swaps_swp _ _ _ (start + 1) (i - 1)); [lia|lia|done].
Qed.

Lemma zend_sort_safe fuel : forall l base nmemb,
  (nmemb < fuel)%nat -> (base + nmemb <= length l)%nat ->
  exists l', zend_sort (gt_at cmp) swp fuel l base nmemb = Some l' /\ swaps base (base + nmemb) l l'.
Proof.
  induction fuel as [|fuel IH]; intros l base nmemb Hf Hl; [lia|]. cbn [zend_sort].
  destruct (Nat.leb_spec nmemb 16); [by apply zend_insert_sort_safe|].
  destruct (partition_safe l base nmemb) as (l1 & i & -> & Hi & S1); [lia|lia|].
  cbn [mbind option_bind]. pose proof (swaps_length _ _ _ _ S1).
  set (p1 := (i - base - 1)%nat). set (p2 := (base + nmemb - i)%nat).
  assert (forall l0, length l0 = length l -> exists l', zend_sort (gt_at cmp) swp fuel l0 base p1 = Some l'
            /\ swaps base (base + nmemb) l0 l') as Hleft.
  { intros l0 E. destruct (IH l0 base p1) as (l' & -> & S); [lia|lia|].
    exists l'. split; [done|]. eapply swaps_mono; [exact S|lia|lia]. }
  assert (forall l0, length l0 = length l -> exists l', zend_sort (gt_at cmp) swp fuel l0 i p2 = Some l'
            /\ swaps base (base + nmemb) l0 l') as Hright.
  { intros l0 E. destruct (IH l0 i p2) as (l' & -> & S); [lia|lia|].
    exists l'. split; [done|]. eapply swaps_mono; [exact S|lia|lia]. }
  destruct (_ <? _)%nat.
  - destruct (Hleft l1) as (l2 & -> & S2); [done|]. cbn [mbind option_bind].
    destruct (Hright l2) as (l3 & -> & S3); [apply swaps_length in S2; congruence|].
    eauto with zsort.
  - destruct (Hright l1) as (l2 & -> & S2); [done|]. cbn [mbind option_bind].
    destruct (Hleft l2) as (l3 & -> & S3); [apply swaps_length in S2; congruence|].
    eauto with zsort.
Qed.
End InsertSafety.

(** ** Sortedness, for a comparison that is a total preorder *)
Ltac look :=
  match goal with
  | H : ?l !! ?k = Some _ |- ?l !! ?k = Some _ => exact H
  | S : swp ?l ?p ?q = Some ?l' |- ?l' !! ?p = _ => rewrite (swp_lookup_l _ _ _ _ S); look
  | S : swp ?l ?p ?q = Some ?l' |- ?l' !! ?q = _ => rewrite (swp_lookup_r _ _ _ _ S); look
  | S : swp ?l ?p ?q = Some ?l' |- ?l' !! ?k = _ =>
      rewrite (swp_lookup_ne _ _ _ _ k S) by lia; look
  end.

(** Turn the recorded comparisons into inequalities between the values of the cells. *)
Ltac gt_facts :=
  repeat match goal with
  | G : gt_at ?cmp ?l ?p ?q = Some ?b |- _ =>
      let X := fresh "X" in
      epose proof (gt_at_spec cmp l p q b _ _ G ltac:(look) ltac:(look)) as X;
      clear G; cbv iota in X
  end.

(** A cell the exchanges do not touch. *)
Ltac look_ne :=
  repeat match goal with
  | S : swp ?l ?p ?q = Some ?l' |- ?l' !! ?k = _ =>
      rewrite (swp_lookup_ne _ _ _ _ k S) by lia
  end; first [reflexivity | assumption | eauto].

Section Sorted.
Context {A : Type} (cmp : A -> A -> Z).
Context (cmp_total : forall x y, 0 < cmp x y -> cmp y x <= 0).
Context (cmp_trans : forall x y z, cmp x y <= 0 -> cmp y z <= 0 -> cmp x z <= 0).
Implicit Types (l : list A).

Definition sorted_range l (lo hi : nat) : Prop :=
  forall i j x y, (lo <= i < j)%nat -> (j < hi)%nat -> l !! i = Some x -> l !! j = Some y ->
  cmp x y <= 0.

Ltac order :=
  repeat match goal with
  | X : 0 < cmp _ _ |- _ => apply cmp_total in X
  end; solve [eauto 4 using cmp_trans].

Lemma zend_sort_2_sorted l a b x y :
  a <> b -> l !! a = Some x -> l !! b = Some y ->
  exists l' x' y', zend_sort_2 (gt_at cmp) swp l a b = Some l' /\ l' !! a = Some x' /\ l' !! b = Some y'
    /\ cmp x' y' <= 0.
Proof.
  intros Hab Ha Hb. pose proof (lookup_lt_Some _ _ _ Ha). pose proof (lookup_lt_Some _ _ _ Hb).
  unfold zend_sort_2. repeat net_step; gt_facts; do 3 eexists; split_and!;
    first [reflexivity | look | order].
Qed.

Lemma zend_sort_3_sorted l a b c x y z :
  a <> b -> a <> c -> b <> c -> l !! a = Some x -> l !! b = Some y -> l !! c = Some z ->
  exists l' x' y' z', zend_sort_3 (gt_at cmp) swp l a b c = Some l'
    /\ l' !! a = Some x' /\ l' !! b = Some y' /\ l' !! c = Some z'
    /\ cmp x' y' <= 0 /\ cmp y' z' <= 0
    /\ (forall k, k <> a -> k <> b -> k <> c -> l' !! k = l !! k).
Proof.
  intros Hab Hac Hbc Ha Hb Hc. pose proof (lookup_lt_Some _ _ _ Ha).
  pose proof (lookup_lt_Some _ _ _ Hb). pose proof (lookup_lt_Some _ _ _ Hc).
  unfold zend_sort_3. repeat net_step; gt_facts; do 4 eexists; split_and!;
    first [reflexivity | look | order | intros; look_ne].
Qed.

Lemma zend_sort_4_sorted l a b c d x y z w :
  NoDup [a; b; c; d] ->
  l !! a = Some x -> l !! b = Some y -> l !! c = Some z -> l !! d = Some w ->
  exists l' x' y' z' w', zend_sort_4 (gt_at cmp) swp l a b c d = Some l'
    /\ l' !! a = Some x' /\ l' !! b = Some y' /\ l' !! c = Some z' /\ l' !! d = Some w'
    /\ cmp x' y' <= 0 /\ cmp y' z' <= 0 /\ cmp z' w' <= 0
    /\ (forall k, k <> a -> k <> b -> k <> c -> k <> d -> l' !! k = l !! k).
Proof.
  rewrite !NoDup_cons, !not_elem_of_cons. intros Hnd Ha Hb Hc Hd. destruct_and!.
  unfold zend_sort_4.
  destruct (zend_sort_3_sorted l a b c x y z) as (l1 & x1 & y1 & z1 & -> & ? & ? & ? & ? & ? & F1);
    [done..|]. cbn [mbind option_bind].
  assert (l1 !! d = Some w) by (rewrite F1 by done; done).
  pose proof (lookup_lt_Some l1 a _ ltac:(eassumption)).
  pose proof (lookup_lt_Some l1 b _ ltac:(eassumption)).
  pose proof (lookup_lt_Some l1 c _ ltac:(eassumption)).
  pose proof (lookup_lt_Some l1 d _ ltac:(eassumption)).
  repeat net_step; gt_facts; do 5 eexists; split_and!;
    first [reflexivity | look | order | intros; rewrite <- F1 by done; look_ne].
Qed.

Lemma zend_sort_5_sorted l a b c d e x y z w v :
  NoDup [a; b; c; d; e] ->
  l !! a = Some x -> l !! b = Some y -> l !! c = Some z -> l !! d = Some w -> l !! e = Some v ->
  exists l' x' y' z' w' v', zend_sort_5 (gt_at cmp) swp l a b c d e = Some l'
    /\ l' !! a = Some x' /\ l' !! b = Some y' /\ l' !! c = Some z' /\ l' !! d = Some w'
    /\ l' !! e = Some v'
    /\ cmp x' y' <= 0 /\ cmp y' z' <= 0 /\ cmp z' w' <= 0 /\ cmp w' v' <= 0.
Proof.
  intros Hnd Ha Hb Hc Hd He.
  assert (NoDup [a; b; c; d]) as Hnd4 by (apply (NoDup_app [a; b; c; d] [e]) in Hnd; apply Hnd).
  unfold zend_sort_5.
  destruct (zend_sort_4_sorted l a b c d x y z w Hnd4)
    as (l1 & x1 & y1 & z1 & w1 & -> & ? & ? & ? & ? & ? & ? & ? & F1); [done..|].
  cbn [mbind option_bind].
  rewrite !NoDup_cons, !not_elem_of_cons in Hnd. destruct_and!.
  assert (l1 !! e = Some v) by (rewrite F1 by done; done).
  pose proof (lookup_lt_Some l1 a _ ltac:(eassumption)).
  pose proof (lookup_lt_Some l1 b _ ltac:(eassumption)).
  pose proof (lookup_lt_Some l1 c _ ltac:(eassumption)).
  pose proof (lookup_lt_Some l1 d _ ltac:(eassumption)).
  pose proof (lookup_lt_Some l1 e _ ltac:(eassumption)).
  repeat net_step; gt_facts; do 6 eexists; split_and!; first [reflexivity | look | order].
Qed.

(** *** Insertion *)
Lemma rotate_spec n : forall l k l',
  (n <= k)%nat -> rotate swp n l k = Some l' ->
  l' !! (k - n)%nat = l !! k
  /\ (forall m, (k - n < m <= k)%nat -> l' !! m = l !! (m - 1)%nat)
  /\ (forall m, (m < k - n \/ k < m)%nat -> l' !! m = l !! m).
Proof.
  induction n as [|n IH]; intros l k l' Hn H; cbn [rotate] in H.
  - injection H as ->. rewrite Nat.sub_0_r. repeat split; intros; lia.
  - destruct (swp l k (k - 1)) as [l1|] eqn:S; [|done]. cbn [mbind option_bind] in H.
    destruct (IH l1 (k - 1)%nat l') as (H1 & H2 & H3); [lia|done|].
    replace (k - 1 - n)%nat with (k - Datatypes.S n)%nat in * by lia.
    split; [|split].
    + rewrite H1. apply (swp_lookup_r _ _ _ _ S).
    + intros m Hm. destruct (decide (m = k)) as [->|].
      * rewrite H3 by lia. apply (swp_lookup_l _ _ _ _ S).
      * rewrite H2 by lia. apply (swp_lookup_ne _ _ _ _ _ S); lia.
    + intros m Hm. rewrite H3 by lia. apply (swp_lookup_ne _ _ _ _ _ S); lia.
Qed.

(** [p] splits the cells before [i] around the value [x] to insert. *)
Definition splits l (start i : nat) (x : A) (p : nat) : Prop :=
  (start <= p <= i)%nat
  /\ (forall k y, (start <= k < p)%nat -> l !! k = Some y -> cmp y x <= 0)
  /\ (forall k y, (p <= k < i)%nat -> l !! k = Some y -> cmp x y <= 0).

Lemma rotate_sorted l start i x p l' :
  sorted_range l start i -> l !! i = Some x -> splits l start i x p ->
  rotate swp (i - p) l i = Some l' -> sorted_range l' start (i + 1).
Proof.
  intros Hs Hx (Hp & Hlo & Hhi) Hr.
  destruct (rotate_spec (i - p) l i l' ltac:(lia) Hr) as (H1 & H2 & H3).
  replace (i - (i - p))%nat with p in H1, H2, H3 by lia.
  intros a b u v Hab Hb Hu Hv.
  assert (forall m, (start <= m < i + 1)%nat -> l' !! m =
    if decide (m = p) then Some x else if decide (m < p)%nat then l !! m else l !! (m - 1)%nat)
    as L.
  { intros m Hm. destruct (decide (m = p)) as [->|]; [by rewrite H1|].
    destruct (decide (m < p)%nat); [apply H3|apply H2]; lia. }
  rewrite L in Hu, Hv by lia. repeat case_decide; simplify_eq; try lia;
    first [ by eapply (Hs a b); [lia|lia| |] | by eapply (Hs a (b - 1)%nat); [lia|lia| |]
          | by eapply (Hs (a - 1)%nat (b - 1)%nat); [lia|lia| |]
          | eapply Hlo; [|eassumption]; lia | eapply Hhi; [|eassumption]; lia ].
Qed.

(** All the cells from [j] on are above [x] as soon as [j] is. *)
Lemma above_from l start i j x y :
  sorted_range l start i -> (start <= j)%nat -> l !! j = Some y -> cmp x y <= 0 ->
  forall k z, (j <= k < i)%nat -> l !! k = Some z -> cmp x z <= 0.
Proof.
  intros Hs Hj Hy Hxy k z Hk Hz. destruct (decide (k = j)) as [->|]; [by simplify_eq|].
  eapply cmp_trans; [exact Hxy|]. eapply (Hs j k); [| |done|done]; lia.
Qed.

Lemma below_to l start i j x y :
  sorted_range l start i -> (j < i)%nat -> l !! j = Some y -> cmp y x <= 0 ->
  forall k z, (start <= k <= j)%nat -> l !! k = Some z -> cmp z x <= 0.
Proof.
  intros Hs Hj Hy Hxy k z Hk Hz. destruct (decide (k = j)) as [->|]; [by simplify_eq|].
  eapply cmp_trans; [|exact Hxy]. eapply (Hs k j); [| |done|done]; lia.
Qed.

Lemma gt_at_values l p q b :
  gt_at cmp l p q = Some b ->
  exists x y, l !! p = Some x /\ l !! q = Some y /\ (if b then 0 < cmp x y else cmp x y <= 0).
Proof.
  unfold gt_at. destruct (l !! p) as [x|]; [|done]. destruct (l !! q) as [y|]; [|done].
  cbn [mbind option_bind]. intros [= <-]. exists x, y. split_and!; [done|done|].
  destruct (Z.ltb_spec 0 (cmp x y)); lia.
Qed.

Lemma insert_pos_linear_splits fuel : forall l start i j x p,
  sorted_range l start i -> l !! i = Some x -> (start <= j < i)%nat ->
  (forall k y, (j <= k < i)%nat -> l !! k = Some y -> cmp x y <= 0) ->
  insert_pos_linear (gt_at cmp) fuel l start i j = Some p -> splits l start i x p.
Proof.
  induction fuel as [|fuel IH]; intros l start i j x p Hs Hx Hj Hhi H; [done|].
  cbn [insert_pos_linear] in H. destruct (Nat.eqb_spec j start).
  { injection H as <-. split; [lia|]. split; [intros; lia|done]. }
  destruct (gt_at cmp l (j - 1) i) as [g|] eqn:G; [|done]. cbn [mbind option_bind] in H.
  destruct (gt_at_values _ _ _ _ G) as (y & x' & Hy & Hx' & C). simplify_eq.
  destruct g; cbn [negb] in H.
  - eapply (IH l start i (j - 1)%nat); [done|done|lia| |done].
    eapply (above_from _ start); [done|lia|exact Hy|by apply cmp_total].
  - injection H as <-. replace (j - 1 + 1)%nat with j by lia.
    split; [lia|]. split; [|done]. intros k z Hk Hz.
    eapply (below_to l start i (j - 1)); [done|lia|exact Hy|done| |done]. lia.
Qed.

Lemma insert_pos_double_splits fuel : forall l start i j x p,
  sorted_range l start i -> l !! i = Some x -> (start <= j < i)%nat ->
  (forall k y, (j <= k < i)%nat -> l !! k = Some y -> cmp x y <= 0) ->
  insert_pos_double (gt_at cmp) fuel l start i j = Some p -> splits l start i x p.
Proof.
  induction fuel as [|fuel IH]; intros l start i j x p Hs Hx Hj Hhi H; [done|].
  cbn [insert_pos_double] in H. destruct (Nat.ltb_spec j (start + 2)); [done|].
  destruct (gt_at cmp l (j - 2) i) as [g|] eqn:G; [|done]. cbn [mbind option_bind] in H.
  destruct (gt_at_values _ _ _ _ G) as (y & x' & Hy & Hx' & C). simplify_eq.
  destruct g; cbn [negb] in H.
  - assert (forall k z, (j - 2 <= k < i)%nat -> l !! k = Some z -> cmp x z <= 0) as Hab.
    { eapply (above_from _ start); [done|lia|exact Hy|by apply cmp_total]. }
    destruct (Nat.eqb_spec (j - 2) start) as [E|].
    { injection H as <-. split; [lia|]. split; [intros; lia|done]. }
    destruct (Nat.eqb_spec (j - 2) (start + 1)) as [E|]; 
      [|by eapply (IH l start i (j - 2)%nat); [| |lia| |]].
    destruct (gt_at cmp l i (j - 2 - 1)) as [g0|] eqn:G0; [|done]. cbn [mbind option_bind] in H.
    destruct (gt_at_values _ _ _ _ G0) as (x' & y0 & Hx1 & Hy0 & C0). simplify_eq.
    destruct g0; cbn iota; (split; [lia|]).
    + replace (j - 2 - 1 + 1)%nat with (j - 2)%nat by lia. split; [|done].
      intros k z Hk Hz. assert (k = j - 2 - 1)%nat as -> by lia. simplify_eq.
      by apply cmp_total.
    + split; [intros; lia|]. eapply (above_from _ start); [done|lia|exact Hy0|done].
  - destruct (gt_at cmp l (j - 2 + 1) i) as [g1|] eqn:G1; [|done]. cbn [mbind option_bind] in H.
    destruct (gt_at_values _ _ _ _ G1) as (y1 & x' & Hy1 & Hx1 & C1). simplify_eq.
    destruct g1; cbn [negb]; (split; [lia|]).
    + split.
      * intros k z Hk Hz. eapply (below_to l start i (j - 2)); [done|lia|exact Hy|done| |done]. lia.
      * eapply (above_from _ start); [done|lia|exact Hy1|by apply cmp_total].
    + replace (j - 2 + 1 + 1)%nat with j by lia. split; [|done].
      intros k z Hk Hz.
      eapply (below_to l start i (j - 2 + 1)); [done|lia|exact Hy1|done| |done]. lia.
Qed.

Definition step_sorts (step : list A -> nat -> nat -> option (list A)) (start : nat) : Prop :=
  forall l i l', (start < i)%nat -> sorted_range l start i -> step l start i = Some l' ->
  sorted_range l' start (i + 1).

(** The cell before [i] is not above it: the prefix is already one longer. *)
Lemma sorted_extend l start i :
  (start < i)%nat -> sorted_range l start i -> gt_at cmp l (i - 1) i = Some false ->
  sorted_range l start (i + 1).
Proof.
  intros Hi Hs (y & x & Hy & Hx & C)%gt_at_values a b u v Hab Hb Hu Hv.
  destruct (decide (b = i)) as [->|]; [|eapply (Hs a b); [| |done|done]; lia]. simplify_eq.
  eapply (below_to l start i (i - 1)); [done|lia|exact Hy|done| |done]. lia.
Qed.

(** What an insertion step does once the cell before [i] is above it. *)
Lemma step_by_splits (find : list A -> nat -> nat -> nat -> option nat) start l i l' :
  (forall x p, sorted_range l start i -> l !! i = Some x ->
     (forall k y, (i - 1 <= k < i)%nat -> l !! k = Some y -> cmp x y <= 0) ->
     find l start i (i - 1)%nat = Some p -> splits l start i x p) ->
  (start < i)%nat -> sorted_range l start i ->
  (g ← gt_at cmp l (i - 1) i;
   if negb g then Some l
   else p ← find l start i (i - 1)%nat; rotate swp (i - p) l i) = Some l' ->
  sorted_range l' start (i + 1).
Proof.
  intros Hfind Hi Hs H.
  destruct (gt_at cmp l (i - 1) i) as [g|] eqn:G; [|done]. cbn [mbind option_bind] in H.
  destruct g; cbn [negb] in H; [|injection H as <-; by apply sorted_extend].
  destruct (gt_at_values _ _ _ _ G) as (y & x & Hy & Hx & C).
  destruct (find l start i (i - 1)%nat) as [p|] eqn:F; [|done]. cbn [mbind option_bind] in H.
  eapply rotate_sorted; [done|exact Hx| |exact H]. apply Hfind; [done|done| |done].
  eapply (above_from _ start); [done|lia|exact Hy|by apply cmp_total].
Qed.

Lemma insert_step_linear_sorts start : step_sorts (insert_step_linear (gt_at cmp) swp) start.
Proof.
  intros l i l' Hi Hs H. eapply (step_by_splits
    (fun l start i j => insert_pos_linear (gt_at cmp) (S (j - start)) l start i j)); [|done|done|exact H].
  intros. eapply insert_pos_linear_splits; [done|done| |done|done]. lia.
Qed.

Lemma insert_step_double_sorts start : step_sorts (insert_step_double (gt_at cmp) swp) start.
Proof.
  intros l i l' Hi Hs H. eapply (step_by_splits
    (fun l start i j => insert_pos_double (gt_at cmp) (S (j - start)) l start i j)); [|done|done|exact H].
  intros. eapply insert_pos_double_splits; [done|done| |done|done]. lia.
Qed.

Lemma insert_loop_sorts step start n : forall l i l',
  step_sorts step start -> (start < i)%nat -> sorted_range l start i ->
  insert_loop step n l start i = Some l' -> sorted_range l' start (i + n).
Proof.
  induction n as [|n IH]; intros l i l' Hst Hi Hs H; cbn [insert_loop] in H.
  - injection H as <-. by rewrite Nat.add_0_r.
  - destruct (step l start i) as [l1|] eqn:E; [|done]. cbn [mbind option_bind] in H.
    replace (i + S n)%nat with (i + 1 + n)%nat by lia.
    eapply IH; [done|lia| |exact H]. by eapply Hst.
Qed.

Lemma adjacent_sorted l lo hi :
  (hi <= length l)%nat ->
  (forall i x y, (lo <= i)%nat -> (S i < hi)%nat -> l !! i = Some x -> l !! (S i) = Some y ->
     cmp x y <= 0) ->
  sorted_range l lo hi.
Proof.
  intros Hl H i j x y Hi Hj Hx Hy. revert y Hj Hy.
  induction j as [|j IH]; intros y Hj Hy; [lia|].
  destruct (decide (j = i)) as [->|]; [eapply (H i); eauto; lia|].
  destruct (lookup_lt_is_Some_2 l j) as [z Hz]; [lia|].
  eapply cmp_trans; [apply (IH ltac:(lia) z); [lia|done]|].
  eapply (H j); eauto; lia.
Qed.

Lemma zend_insert_sort_large_sorted l base nmemb l' :
  (5 < nmemb)%nat -> zend_insert_sort (gt_at cmp) swp l base nmemb = Some l' ->
  sorted_range l' base (base + nmemb).
Proof.
  intros Hn H. destruct nmemb as [|[|[|[|[|[|n]]]]]]; [lia..|]. unfold zend_insert_sort in H.
  destruct (insert_loop (insert_step_linear (gt_at cmp) swp) 5 l base (base + 1)) as [l1|] eqn:E1;
    [|done]. cbn [mbind option_bind] in H.
  eapply insert_loop_sorts in E1; [|apply insert_step_linear_sorts|lia|intros i j; lia].
  replace (base + 1 + 5)%nat with (base + 6)%nat in E1 by lia.
  eapply insert_loop_sorts in H; [|apply insert_step_double_sorts|lia|done].
  by replace (base + 6 + _)%nat with (base + S (S (S (S (S (S n))))))%nat in H by lia.
Qed.

(** A range whose cells are the values [vs], in order. *)
Lemma cells_sorted l base vs :
  (base + length vs <= length l)%nat ->
  (forall k v, vs !! k = Some v -> l !! (base + k)%nat = Some v) ->
  (forall k x y, vs !! k = Some x -> vs !! S k = Some y -> cmp x y <= 0) ->
  sorted_range l base (base + length vs).
Proof.
  intros Hl Hc Hs. apply adjacent_sorted; [done|]. intros i x y Hi Hi2 Hx Hy.
  replace i with (base + (i - base))%nat in Hx by lia.
  replace (S i) with (base + S (i - base))%nat in Hy by lia.
  destruct (lookup_lt_is_Some_2 vs (i - base)) as [u Hu]; [lia|].
  destruct (lookup_lt_is_Some_2 vs (S (i - base))) as [v Hv]; [lia|].
  rewrite (Hc _ _ Hu) in Hx. rewrite (Hc _ _ Hv) in Hy. simplify_eq. eauto.
Qed.

Ltac cells :=
  let k := fresh "k" in
  intros k; do 5 (destruct k as [|k]; [simpl; intros; simplify_eq; rewrite ?Nat.add_0_r;
    first [done | assumption] | ]); simpl; intros; simplify_eq.

Ltac distinct :=
  rewrite !NoDup_cons, !not_elem_of_cons; repeat split; try lia;
  solve [apply not_elem_of_nil | apply NoDup_nil_2].

Lemma zend_insert_sort_small_sorted l base nmemb l' :
  (nmemb <= 5)%nat -> (base + nmemb <= length l)%nat ->
  zend_insert_sort (gt_at cmp) swp l base nmemb = Some l' -> sorted_range l' base (base + nmemb).
Proof.
  intros Hn Hl H.
  destruct (zend_insert_sort_safe cmp l base nmemb Hl) as (l0 & E & Sw). simplify_eq.
  pose proof (swaps_length _ _ _ _ Sw) as Hlen.
  assert (forall k, (k < nmemb)%nat -> exists x, l !! (base + k)%nat = Some x) as V.
  { intros k Hk. apply lookup_lt_is_Some_2. lia. }
  destruct nmemb as [|[|[|[|[|[|n]]]]]]; unfold zend_insert_sort in H; [| | | | | |lia].
  1,2: intros i j x y; lia.
  all: destruct (V 0%nat) as [v0 V0]; [lia|]; destruct (V 1%nat) as [v1 V1]; [lia|];
    rewrite Nat.add_0_r in V0; try (destruct (V 2%nat) as [v2 V2]; [lia|]);
    try (destruct (V 3%nat) as [v3 V3]; [lia|]); try (destruct (V 4%nat) as [v4 V4]; [lia|]).
  - destruct (zend_sort_2_sorted l base (base + 1) v0 v1) as (? & w0 & w1 & ? & ? & ? & ?);
      [lia|done..|]. simplify_eq. apply (cells_sorted l' base [w0; w1]); [cbn; lia|cells..].
  - destruct (zend_sort_3_sorted l base (base + 1) (base + 2) v0 v1 v2)
      as (? & w0 & w1 & w2 & ? & ? & ? & ? & ? & ? & _); [lia..|done|done|done|]. simplify_eq.
    apply (cells_sorted l' base [w0; w1; w2]); [cbn; lia|cells..].
  - destruct (zend_sort_4_sorted l base (base + 1) (base + 2) (base + 3) v0 v1 v2 v3)
      as (? & w0 & w1 & w2 & w3 & ? & ? & ? & ? & ? & ? & ? & ? & _); [distinct|done..|].
    simplify_eq. apply (cells_sorted l' base [w0; w1; w2; w3]); [cbn; lia|cells..].
  - destruct (zend_sort_5_sorted l base (base + 1) (base + 2) (base + 3) (base + 4) v0 v1 v2 v3 v4)
      as (? & w0 & w1 & w2 & w3 & w4 & ? & ? & ? & ? & ? & ? & ? & ? & ? & ?); [distinct|done..|].
    simplify_eq. apply (cells_sorted l' base [w0; w1; w2; w3; w4]); [cbn; lia|cells..].
Qed.

Lemma zend_insert_sort_sorted l base nmemb l' :
  (base + nmemb <= length l)%nat -> zend_insert_sort (gt_at cmp) swp l base nmemb = Some l' ->
  sorted_range l' base (base + nmemb).
Proof.
  destruct (decide (5 < nmemb)%nat); [by intros _; apply zend_insert_sort_large_sorted|].
  apply zend_insert_sort_small_sorted. lia.
Qed.

(** *** The partition *)
Lemma scan_up_spec fuel : forall l pivot i j i' b v,
  l !! pivot = Some v -> (i < j)%nat -> scan_up (gt_at cmp) fuel l pivot i j = Some (i', b) ->
  (forall k x, (i <= k < i')%nat -> l !! k = Some x -> cmp x v <= 0)
  /\ (b = false -> exists x, l !! i' = Some x /\ cmp v x <= 0).
Proof.
  induction fuel as [|fuel IH]; intros l pivot i j i' b v Hv Hij H; [done|].
  cbn [scan_up] in H. destruct (gt_at cmp l pivot i) as [g|] eqn:G; [|done].
  cbn [mbind option_bind] in H.
  destruct (gt_at_values _ _ _ _ G) as (v' & x & Hv' & Hx & C). simplify_eq.
  destruct g; [|injection H as <- <-; split; [intros; lia|eauto]].
  assert (forall k y, k = i -> l !! k = Some y -> cmp y v <= 0) as Hi.
  { intros k y -> Hy. simplify_eq. by apply cmp_total. }
  destruct (Nat.eqb_spec (i + 1) j).
  - injection H as <- <-. split; [|done]. intros k y Hk. apply Hi. lia.
  - destruct (IH l pivot (i + 1)%nat j i' b v Hv ltac:(lia) H) as [H1 H2]. split; [|done].
    intros k y Hk. destruct (decide (k = i)); [by apply Hi|]. apply H1. lia.
Qed.

Lemma scan_down_spec fuel : forall l pivot i j j' b v,
  l !! pivot = Some v -> (i < j)%nat -> scan_down (gt_at cmp) fuel l pivot i j = Some (j', b) ->
  (forall k x, (j' < k <= j)%nat -> l !! k = Some x -> cmp v x <= 0)
  /\ (b = false -> exists x, l !! j' = Some x /\ cmp x v <= 0).
Proof.
  induction fuel as [|fuel IH]; intros l pivot i j j' b v Hv Hij H; [done|].
  cbn [scan_down] in H. destruct (gt_at cmp l j pivot) as [g|] eqn:G; [|done].
  cbn [mbind option_bind] in H.
  destruct (gt_at_values _ _ _ _ G) as (x & v' & Hx & Hv' & C). simplify_eq.
  destruct g; [|injection H as <- <-; split; [intros; lia|eauto]].
  assert (forall k y, k = j -> l !! k = Some y -> cmp v y <= 0) as Hj.
  { intros k y -> Hy. simplify_eq. by apply cmp_total. }
  destruct (Nat.eqb_spec (j - 1) i).
  - injection H as <- <-. split; [|done]. intros k y Hk. apply Hj. lia.
  - destruct (IH l pivot i (j - 1)%nat j' b v Hv ltac:(lia) H) as [H1 H2]. split; [|done].
    intros k y Hk. destruct (decide (k = j)); [by apply Hj|]. apply H1. lia.
Qed.

(** Around the index [i] the cells of [[lo, hi]] are below, then above, the value [v]. *)
Definition parted l (lo i hi : nat) (v : A) : Prop :=
  (forall k x, (lo <= k < i)%nat -> l !! k = Some x -> cmp x v <= 0)
  /\ (forall k x, (i <= k <= hi)%nat -> l !! k = Some x -> cmp v x <= 0).

(** An exchange of a cell above the pivot with a later one below it, and the rest of the loop. *)
Lemma partition_after_swap (rest : list A -> nat -> nat -> option (list A * nat))
  l l1 i i1 j2 j l' i' v x1 x2 :
  (forall l1, swp l i1 j2 = Some l1 -> rest l1 (i1 + 1)%nat j2 = Some (l', i') ->
     (i1 + 1 < j2)%nat -> (i1 + 1 <= i' <= j2)%nat /\ swaps (i1 + 1) j2 l1 l'
     /\ parted l' (i1 + 1) i' j2 v) ->
  (i <= i1 < j2)%nat -> (j2 <= j)%nat ->
  (forall k x, (i <= k < i1)%nat -> l !! k = Some x -> cmp x v <= 0) ->
  (forall k x, (j2 < k <= j)%nat -> l !! k = Some x -> cmp v x <= 0) ->
  l !! i1 = Some x1 -> cmp v x1 <= 0 -> l !! j2 = Some x2 -> cmp x2 v <= 0 ->
  swp l i1 j2 = Some l1 ->
  (if Nat.eqb (i1 + 1) j2 then Some (l1, (i1 + 1)%nat) else rest l1 (i1 + 1)%nat j2)
    = Some (l', i') ->
  parted l' i i' j v.
Proof.
  intros Hrest Hi Hj Lo Up Hx1 C1 Hx2 C2 Sw H.
  assert (l1 !! i1 = Some x2) as V1 by (by rewrite (swp_lookup_l _ _ _ _ Sw)).
  assert (l1 !! j2 = Some x1) as V2 by (by rewrite (swp_lookup_r _ _ _ _ Sw)).
  assert (forall k, k <> i1 -> k <> j2 -> l1 !! k = l !! k) as V
    by (intros; by apply (swp_lookup_ne _ _ _ _ _ Sw)).
  destruct (Nat.eqb_spec (i1 + 1) j2) as [E|].
  - injection H as <- <-. split; intros k x Hk Hx.
    + destruct (decide (k = i1)) as [->|]; [by simplify_eq|].
      rewrite V in Hx by lia. apply (Lo k); [lia|done].
    + destruct (decide (k = j2)) as [->|]; [by simplify_eq|].
      rewrite V in Hx by lia. apply (Up k); [lia|done].
  - destruct (Hrest _ Sw H) as (Hi' & Sws & P1 & P2); [lia|].
    assert (forall k, ~ (i1 + 1 <= k < j2)%nat -> l' !! k = l1 !! k) as F
      by (intros; by apply (swaps_outside _ _ _ _ _ Sws)).
    split; intros k x Hk Hx.
    + destruct (decide (i1 + 1 <= k)%nat); [apply (P1 k); [lia|done]|].
      rewrite F in Hx by lia. destruct (decide (k = i1)) as [->|]; [by simplify_eq|].
      rewrite V in Hx by lia. apply (Lo k); [lia|done].
    + destruct (decide (k <= j2)%nat); [apply (P2 k); [lia|done]|].
      rewrite F, V in Hx by lia. apply (Up k); [lia|done].
Qed.

Lemma partition_loop_spec fuel : forall l pivot i j l' i' v,
  (j - i < fuel)%nat -> l !! pivot = Some v -> (pivot < i < j)%nat -> (j < length l)%nat ->
  (forall x, l !! j = Some x -> cmp v x <= 0) ->
  partition_loop (gt_at cmp) swp fuel l pivot i j = Some (l', i') -> parted l' i i' j v.
Proof.
  induction fuel as [|fuel IH]; intros l pivot i j l' i' v Hf Hv Hij Hj Hjv H; [done|].
  cbn [partition_loop] in H.
  destruct (scan_up_safe cmp (S (j - i)) l pivot i j) as (i1 & b1 & E1 & Hi1 & Hb1); [lia..|].
  destruct (scan_up_spec _ _ _ _ _ _ _ _ Hv (proj2 Hij) E1) as [Lo1 Hi1'].
  rewrite E1 in H. cbn [mbind option_bind] in H.
  destruct b1.
  { injection H as <- <-. split; [done|]. subst i1. intros k x Hk.
    assert (k = j) as -> by lia. apply Hjv. }
  destruct (Hi1' eq_refl) as (x1 & Hx1 & Cx1). clear Hi1'.
  destruct (Nat.eqb_spec (j - 1) i1).
  { injection H as <- <-. split; [done|]. intros k x Hk Hx.
    destruct (decide (k = j)) as [->|]; [by apply Hjv|].
    assert (k = i1) as -> by lia. by simplify_eq. }
  destruct (scan_down_safe cmp (S (j - 1 - i1)) l pivot i1 (j - 1)) as (j2 & b2 & E2 & Hj2 & Hb2);
    [lia..|].
  destruct (scan_down_spec _ l pivot i1 (j - 1)%nat j2 b2 v Hv ltac:(lia) E2) as [Up2 Hj2'].
  rewrite E2 in H. cbn [mbind option_bind] in H.
  assert (forall k x, (j2 < k <= j)%nat -> l !! k = Some x -> cmp v x <= 0) as Up.
  { intros k x Hk Hx. destruct (decide (k = j)) as [->|]; [by apply Hjv|].
    apply (Up2 k); [lia|done]. }
  destruct b2.
  { injection H as <- <-. split; [done|]. intros k x Hk Hx.
    destruct (decide (k = i1)) as [->|]; [by simplify_eq|]. apply (Up k); [lia|done]. }
  destruct (Hj2' eq_refl) as (x2 & Hx2 & Cx2). clear Hj2'.
  destruct (swp l i1 j2) as [l1|] eqn:Sw; [|done]. cbn [mbind option_bind] in H.
  eapply (partition_after_swap (fun l i j => partition_loop (gt_at cmp) swp fuel l pivot i j)
            l l1 i i1 j2 j); [|lia|lia|done..|exact H].
  clear l1 Sw H. intros l1 Sw H Hlt. pose proof (swp_length _ _ _ _ Sw).
  destruct (partition_loop_safe cmp fuel l1 pivot (i1 + 1) j2) as (l0 & i0 & E & ? & ?);
    [lia..|].
  simplify_eq. split; [done|]. split; [done|].
  eapply (IH l1 pivot); [lia| |lia|lia| |exact H].
  - by rewrite (swp_lookup_ne _ _ _ _ _ Sw) by lia.
  - intros x. rewrite (swp_lookup_r _ _ _ _ Sw). intros. by simplify_eq.
Qed.

(** The median of three or of five puts the first cell below the pivot and the last above. *)
Lemma median_spec l start nmemb l1 :
  (16 < nmemb)%nat -> (start + nmemb <= length l)%nat ->
  (if (0 <? nmemb / 1024)%nat
   then zend_sort_5 (gt_at cmp) swp l start (start + (nmemb / 2) / 2) (start + nmemb / 2)
          (start + nmemb / 2 + (nmemb / 2) / 2) (start + nmemb - 1)
   else zend_sort_3 (gt_at cmp) swp l start (start + nmemb / 2) (start + nmemb - 1)) = Some l1 ->
  exists x v y, l1 !! start = Some x /\ l1 !! (start + nmemb / 2)%nat = Some v
    /\ l1 !! (start + nmemb - 1)%nat = Some y /\ cmp x v <= 0 /\ cmp v y <= 0.
Proof.
  intros Hn Hl H.
  pose proof (Nat.div_mod_eq nmemb 2). pose proof (Nat.mod_upper_bound nmemb 2).
  pose proof (Nat.div_mod_eq (nmemb / 2) 2). pose proof (Nat.mod_upper_bound (nmemb / 2) 2).
  destruct (lookup_lt_is_Some_2 l start) as [v0 V0]; [lia|].
  destruct (lookup_lt_is_Some_2 l (start + nmemb / 2)) as [v1 V1]; [lia|].
  destruct (lookup_lt_is_Some_2 l (start + nmemb - 1)) as [v2 V2]; [lia|].
  destruct (0 <? nmemb / 1024)%nat.
  - destruct (lookup_lt_is_Some_2 l (start + (nmemb / 2) / 2)) as [v3 V3]; [lia|].
    destruct (lookup_lt_is_Some_2 l (start + nmemb / 2 + (nmemb / 2) / 2)) as [v4 V4]; [lia|].
    destruct (zend_sort_5_sorted l start (start + (nmemb / 2) / 2) (start + nmemb / 2)
          (start + nmemb / 2 + (nmemb / 2) / 2) (start + nmemb - 1) v0 v3 v1 v4 v2)
      as (? & w0 & w3 & w1 & w4 & w2 & ? & ? & ? & ? & ? & ? & ? & ? & ? & ?);
      [distinct|done..|]. simplify_eq. exists w0, w1, w2. split_and!; eauto using cmp_trans.
  - destruct (zend_sort_3_sorted l start (start + nmemb / 2) (start + nmemb - 1) v0 v1 v2)
      as (? & w0 & w1 & w2 & ? & ? & ? & ? & ? & ? & _); [lia..|done|done|done|].
    simplify_eq. exists w0, w1, w2. done.
Qed.

(** The two parts of a partition, and the pivot between them. *)
Definition pivoted l (start i end' : nat) : Prop :=
  exists v, l !! (i - 1)%nat = Some v
    /\ (forall k x, (start <= k < i - 1)%nat -> l !! k = Some x -> cmp x v <= 0)
    /\ (forall k x, (i <= k < end')%nat -> l !! k = Some x -> cmp v x <= 0).

Lemma partition_pivoted l start nmemb l' i :
  (16 < nmemb)%nat -> (start + nmemb <= length l)%nat ->
  partition (gt_at cmp) swp l start nmemb = Some (l', i) -> pivoted l' start i (start + nmemb).
Proof.
  intros Hn Hl H. unfold partition in H.
  pose proof (Nat.div_mod_eq nmemb 2). pose proof (Nat.mod_upper_bound nmemb 2).
  destruct (if (0 <? nmemb / 1024)%nat then _ else _) as [l1|] eqn:E1; [|done].
  cbn [mbind option_bind] in H.
  destruct (median_spec _ _ _ _ Hn Hl E1) as (x & v & y & Lx & Lv & Ly & Cxv & Cvy).
  pose proof (lookup_lt_Some _ _ _ Ly).
  destruct (swp l1 (start + 1) (start + nmemb / 2)) as [l2|] eqn:S2; [|done].
  cbn [mbind option_bind] in H. pose proof (swp_length _ _ _ _ S2).
  assert (l2 !! (start + 1)%nat = Some v) as P2 by (by rewrite (swp_lookup_l _ _ _ _ S2)).
  destruct (partition_loop_safe cmp nmemb l2 (start + 1) (start + 2) (start + nmemb - 1))
    as (l3 & i0 & E3 & Hi & S3); [lia..|].
  rewrite E3 in H. cbn [mbind option_bind] in H.
  apply (partition_loop_spec nmemb l2 (start + 1) (start + 2) (start + nmemb - 1) l3 i0 v)
    in E3 as [Lo Up]; [|lia|done|lia|lia|].
  2:{ intros z. rewrite (swp_lookup_ne _ _ _ _ _ S2) by lia. intros. by simplify_eq. }
  assert (l3 !! (start + 1)%nat = Some v) as P3
    by (rewrite (swaps_outside _ _ _ _ _ S3) by lia; done).
  assert (l3 !! start = Some x) as X3.
  { rewrite (swaps_outside _ _ _ _ _ S3) by lia. by rewrite (swp_lookup_ne _ _ _ _ _ S2) by lia. }
  destruct (swp l3 (start + 1) (i0 - 1)) as [l4|] eqn:S4; [|done].
  cbn [mbind option_bind] in H. injection H as <- <-.
  exists v. split; [by rewrite (swp_lookup_r _ _ _ _ S4)|].
  split; intros k z Hk; rewrite (swp_lookup _ _ _ _ k S4); repeat case_decide; subst; try lia.
  - intros. apply (Lo (i0 - 1)%nat); [lia|done].
  - intros. destruct (decide (k = start)) as [->|]; [by simplify_eq|]. apply (Lo k); [lia|done].
  - intros. apply (Up k); [lia|done].
Qed.

Lemma pivoted_sorted l start i end' :
  (start < i)%nat ->
  pivoted l start i end' -> sorted_range l start (i - 1) -> sorted_range l i end' ->
  sorted_range l start end'.
Proof.
  intros Hi (v & Hv & Lo & Up) S1 S2 a b x y Ha Hb Hx Hy.
  destruct (decide (b < i - 1)%nat); [by eapply (S1 a b); [lia|lia| |]|].
  destruct (decide (i <= a)%nat); [by eapply (S2 a b); [lia|lia| |]|].
  destruct (decide (a = i - 1)%nat) as [->|].
  - simplify_eq. apply (Up b); [lia|done].
  - assert (cmp x v <= 0) by (apply (Lo a); [lia|done]).
    destruct (decide (b = i - 1)%nat) as [->|]; [by simplify_eq|].
    eapply cmp_trans; [done|]. apply (Up b); [lia|done].
Qed.

(** Exchanges inside one part keep the array parted around the pivot. *)
Lemma pivoted_swaps l l' start i end' lo hi :
  pivoted l start i end' -> swaps lo hi l l' -> (start < i)%nat ->
  (start <= lo /\ hi <= i - 1 \/ i <= lo /\ hi <= end')%nat -> pivoted l' start i end'.
Proof.
  intros (v & Hv & Lo & Up) Sw Hi Hr. exists v.
  split; [by rewrite (swaps_outside _ _ _ _ _ Sw) by lia|].
  split; intros k x Hk Hx; destruct (decide (lo <= k < hi)%nat) as [Hin|].
  - by eapply (swaps_Forall _ _ _ _ (fun x => cmp x v <= 0) Sw); [|exact Hin|];
      [intros; eapply Lo; [|done]; lia|].
  - rewrite (swaps_outside _ _ _ _ _ Sw) in Hx by done. by eapply Lo.
  - by eapply (swaps_Forall _ _ _ _ (fun x => cmp v x <= 0) Sw); [|exact Hin|];
      [intros; eapply Up; [|done]; lia|].
  - rewrite (swaps_outside _ _ _ _ _ Sw) in Hx by done. by eapply Up.
Qed.

Lemma sorted_range_swaps_disjoint l l' a b lo hi :
  sorted_range l a b -> swaps lo hi l l' -> (b <= lo \/ hi <= a)%nat -> sorted_range l' a b.
Proof.
  intros Hs Sw Hd i j x y Hi Hj Hx Hy.
  rewrite (swaps_outside _ _ _ _ _ Sw) in Hx by lia.
  rewrite (swaps_outside _ _ _ _ _ Sw) in Hy by lia. by eapply (Hs i j).
Qed.

Lemma zend_sort_sorted fuel : forall l base nmemb l',
  (nmemb < fuel)%nat -> (base + nmemb <= length l)%nat ->
  zend_sort (gt_at cmp) swp fuel l base nmemb = Some l' -> sorted_range l' base (base + nmemb).
Proof.
  induction fuel as [|fuel IH]; intros l base nmemb l' Hf Hl H; [lia|]. cbn [zend_sort] in H.
  destruct (Nat.leb_spec nmemb 16); [by apply (zend_insert_sort_sorted l)|].
  destruct (partition_safe cmp l base nmemb) as (l1 & i & E1 & Hi & S1); [lia|lia|].
  pose proof (partition_pivoted _ _ _ _ _ ltac:(done) Hl E1) as Pv.
  rewrite E1 in H. cbn [mbind option_bind] in H. pose proof (swaps_length _ _ _ _ S1).
  assert (exists l2 a n a' n', zend_sort (gt_at cmp) swp fuel l1 a n = Some l2
    /\ zend_sort (gt_at cmp) swp fuel l2 a' n' = Some l'
    /\ ((a = base /\ a + n = i - 1 /\ a' = i /\ a' + n' = base + nmemb)
       \/ (a = i /\ a + n = base + nmemb /\ a' = base /\ a' + n' = i - 1))%nat)
    as (l2 & a & n & a' & n' & E2 & E3 & Hc).
  { destruct (_ <? _)%nat;
      [destruct (zend_sort (gt_at cmp) swp fuel l1 base (i - base - 1)) as [l2|] eqn:E2
      |destruct (zend_sort (gt_at cmp) swp fuel l1 i (base + nmemb - i)) as [l2|] eqn:E2]; try done;
      cbn [mbind option_bind] in H; do 5 eexists; (split; [exact E2|]); (split; [exact H|]); lia. }
  destruct (zend_sort_safe cmp fuel l1 a n) as (? & ? & S2); [lia|lia|]. simplify_eq.
  pose proof (swaps_length _ _ _ _ S2).
  destruct (zend_sort_safe cmp fuel l2 a' n') as (? & ? & S3); [lia|lia|]. simplify_eq.
  pose proof (IH l1 a n l2 ltac:(lia) ltac:(lia) E2) as O2.
  pose proof (IH l2 a' n' l' ltac:(lia) ltac:(lia) E3) as O3.
  apply (sorted_range_swaps_disjoint _ l' _ _ a' (a' + n')) in O2; [|done|lia].
  apply (pivoted_swaps _ l2 _ _ _ a (a + n)) in Pv; [|done|lia|lia].
  apply (pivoted_swaps _ l' _ _ _ a' (a' + n')) in Pv; [|done|lia|lia].
  apply (pivoted_sorted _ _ i); [lia|done|..];
    destruct Hc as [(-> & E & -> & E')|(-> & E & -> & E')]; rewrite ?E, ?E' in *; done.
Qed.
End Sorted.

(** ** The same sort on two representations of an array

    [l] is the array of the code and [l'] an abstraction of it, [R l l'].  When the callbacks on [l] do what
    those on [l'] do wherever these are defined, so do the sorts. *)
Section Simulation.

(** Whatever [r'] gives, [r] gives something related to it. *)
Definition follows {B C : Type} (RR : B -> C -> Prop) (r : option B) (r' : option C) : Prop :=
  forall c, r' = Some c -> exists b, r = Some b /\ RR b c.

Lemma follows_ret {B C} (RR : B -> C -> Prop) b c : RR b c -> follows RR (Some b) (Some c).
Proof. intros H c' [= <-]. eauto. Qed.

Lemma follows_none {B C} (RR : B -> C -> Prop) r : follows RR r None.
Proof. by intros c. Qed.

Lemma follows_bind {B C B' C'} (RR : B -> C -> Prop) (SS : B' -> C' -> Prop) r r' f g :
  follows RR r r' -> (forall b c, RR b c -> follows SS (f b) (g c)) ->
  follows SS (r ≫= f) (r' ≫= g).
Proof.
  intros Hr Hf c Hc. destruct r' as [c0|]; [|done]. destruct (Hr c0 eq_refl) as (b0 & -> & Hb).
  by apply (Hf b0 c0).
Qed.

Context {L L' : Type} (R : L -> L' -> Prop).
Context (gt : L -> nat -> nat -> option bool) (gt' : L' -> nat -> nat -> option bool).
Context (sw : L -> nat -> nat -> option L) (sw' : L' -> nat -> nat -> option L').
Context (Hgt : forall l l' p q, R l l' -> follows eq (gt l p q) (gt' l' p q)).
Context (Hsw : forall l l' p q, R l l' -> follows R (sw l p q) (sw' l' p q)).

(** Both sides take the same step. *)
Local Ltac sim_step :=
  match goal with
  | |- follows _ (gt _ _ _ ≫= _) _ => eapply follows_bind; [by apply Hgt|intros ?? <-]
  | |- follows _ (sw _ _ _ ≫= _) _ => eapply follows_bind; [by apply Hsw|intros ???]
  | |- follows _ (if ?b then _ else _) (if ?b then _ else _) => destruct b
  | |- follows _ (Some _) (Some _) => apply follows_ret
  | |- follows _ None None => apply follows_none
  | |- follows _ (sw _ _ _) _ => by apply Hsw
  | |- follows _ (_ ≫= _) (_ ≫= _) => eapply follows_bind; [by eauto|intros ???]
  end.
Local Ltac sim := repeat sim_step; try done; eauto.

Lemma zend_sort_3_follows l l' a b c : R l l' ->
  follows R (zend_sort_3 gt sw l a b c) (zend_sort_3 gt' sw' l' a b c).
Proof using Hgt Hsw. intros H. unfold zend_sort_3. sim. Qed.

Lemma zend_sort_4_follows l l' a b c d : R l l' ->
  follows R (zend_sort_4 gt sw l a b c d) (zend_sort_4 gt' sw' l' a b c d).
Proof using Hgt Hsw.
  intros H. unfold zend_sort_4. eapply follows_bind; [by apply zend_sort_3_follows|intros ???]. sim.
Qed.

Lemma zend_sort_5_follows l l' a b c d e : R l l' ->
  follows R (zend_sort_5 gt sw l a b c d e) (zend_sort_5 gt' sw' l' a b c d e).
Proof using Hgt Hsw.
  intros H. unfold zend_sort_5. eapply follows_bind; [by apply zend_sort_4_follows|intros ???]. sim.
Qed.

Lemma rotate_follows n : forall l l' k, R l l' -> follows R (rotate sw n l k) (rotate sw' n l' k).
Proof using Hsw. induction n as [|n IH]; intros l l' k H; cbn [rotate]; sim. Qed.

Lemma insert_pos_linear_follows fuel : forall l l' start i j, R l l' ->
  follows eq (insert_pos_linear gt fuel l start i j) (insert_pos_linear gt' fuel l' start i j).
Proof using Hgt. induction fuel as [|fuel IH]; intros l l' start i j H; cbn [insert_pos_linear]; sim. Qed.

Lemma insert_pos_double_follows fuel : forall l l' start i j, R l l' ->
  follows eq (insert_pos_double gt fuel l start i j) (insert_pos_double gt' fuel l' start i j).
Proof using Hgt. induction fuel as [|fuel IH]; intros l l' start i j H; cbn [insert_pos_double]; sim. Qed.

Definition steps_follow (step : L -> nat -> nat -> option L) (step' : L' -> nat -> nat -> option L') :=
  forall l l' start i, R l l' -> follows R (step l start i) (step' l' start i).

Lemma insert_step_linear_follows : steps_follow (insert_step_linear gt sw) (insert_step_linear gt' sw').
Proof using Hgt Hsw.
  intros l l' start i H. unfold insert_step_linear. repeat sim_step; try done.
  eapply follows_bind; [by apply insert_pos_linear_follows|intros ?? <-]. by apply rotate_follows.
Qed.

Lemma insert_step_double_follows : steps_follow (insert_step_double gt sw) (insert_step_double gt' sw').
Proof using Hgt Hsw.
  intros l l' start i H. unfold insert_step_double. repeat sim_step; try done.
  eapply follows_bind; [by apply insert_pos_double_follows|intros ?? <-]. by apply rotate_follows.
Qed.

Lemma insert_loop_follows step step' n : steps_follow step step' -> forall l l' start i, R l l' ->
  follows R (insert_loop step n l start i) (insert_loop step' n l' start i).
Proof using Type.
  intros Hs. induction n as [|n IH]; intros l l' start i H; cbn [insert_loop]; [by apply follows_ret|].
  eapply follows_bind; [by apply Hs|intros ???]. by apply IH.
Qed.

Lemma zend_insert_sort_follows l l' base nmemb : R l l' ->
  follows R (zend_insert_sort gt sw l base nmemb) (zend_insert_sort gt' sw' l' base nmemb).
Proof using Hgt Hsw.
  intros H. unfold zend_insert_sort, zend_sort_2. repeat case_match; sim.
  - by apply zend_sort_3_follows.
  - by apply zend_sort_4_follows.
  - by apply zend_sort_5_follows.
  - eapply follows_bind; [by apply insert_loop_follows, H; apply insert_step_linear_follows|intros ???].
    by apply insert_loop_follows; [apply insert_step_double_follows|].
Qed.

Lemma scan_up_follows fuel : forall l l' pivot i j, R l l' ->
  follows eq (scan_up gt fuel l pivot i j) (scan_up gt' fuel l' pivot i j).
Proof using Hgt. induction fuel as [|fuel IH]; intros l l' pivot i j H; cbn [scan_up]; sim. Qed.

Lemma scan_down_follows fuel : forall l l' pivot i j, R l l' ->
  follows eq (scan_down gt fuel l pivot i j) (scan_down gt' fuel l' pivot i j).
Proof using Hgt. induction fuel as [|fuel IH]; intros l l' pivot i j H; cbn [scan_down]; sim. Qed.

(** Related arrays and the same index. *)
Definition with_index (x : L * nat) (x' : L' * nat) : Prop := R x.1 x'.1 /\ x.2 = x'.2.

Lemma partition_loop_follows fuel : forall l l' pivot i j, R l l' ->
  follows with_index (partition_loop gt sw fuel l pivot i j) (partition_loop gt' sw' fuel l' pivot i j).
Proof using Hgt Hsw.
  induction fuel as [|fuel IH]; intros l l' pivot i j H; cbn [partition_loop]; [apply follows_none|].
  eapply follows_bind; [by apply scan_up_follows|intros [i1 b1] ? <-]. repeat sim_step; try done.
  eapply follows_bind; [by apply scan_down_follows|intros [j2 b2] ? <-]. repeat sim_step; try done.
  by apply IH.
Qed.

Lemma partition_follows l l' start nmemb : R l l' ->
  follows with_index (partition gt sw l start nmemb) (partition gt' sw' l' start nmemb).
Proof using Hgt Hsw.
  intros H. unfold partition. eapply (follows_bind R).
  { destruct (0 <? _)%nat; [by apply zend_sort_5_follows|by apply zend_sort_3_follows]. }
  intros l1 l1' H1. repeat sim_step.
  eapply follows_bind; [by apply partition_loop_follows|intros [l3 i] [l3' i'] [H3 E]]. cbn in *. subst i'.
  repeat sim_step. done.
Qed.

Lemma zend_sort_follows fuel : forall l l' base nmemb, R l l' ->
  follows R (zend_sort gt sw fuel l base nmemb) (zend_sort gt' sw' fuel l' base nmemb).
Proof using Hgt Hsw.
  induction fuel as [|fuel IH]; intros l l' base nmemb H; cbn [zend_sort]; [apply follows_none|].
  destruct (nmemb <=? 16)%nat; [by apply zend_insert_sort_follows|].
  eapply follows_bind; [by apply partition_follows|intros [l1 i] [l1' i'] [H1 E]]. cbn in *. subst i'.
  repeat sim_step; by apply IH.
Qed.
End Simulation.

(** C39: whatever the comparison function answers, [zend_sort] returns, after at most [nmemb]
    nested calls, never leaves the [nmemb] cells at [base], and permutes them: the array is a
    permutation of what it was and the cells outside the range are untouched. *)
Theorem zend_sort_any_comparison {A} (cmp : A -> A -> Z) (l : list A) (base nmemb : nat) :
  (base + nmemb <= length l)%nat ->
  exists l', zend_sort (gt_at cmp) swp (S nmemb) l base nmemb = Some l' /\ l' ≡ₚ l
    /\ forall k, ~ (base <= k < base + nmemb)%nat -> l' !! k = l !! k.
Proof.
  intros H. destruct (zend_sort_safe cmp (S nmemb) l base nmemb) as (l' & -> & S); [lia|done|].
  exists l'. split_and!; [done|by eapply swaps_perm|]. intros. by eapply swaps_outside.
Qed.

Lemma zend_sort_any_comparison_witness :
  exists l', zend_sort (gt_at (fun _ _ : Z => 1)) swp 4 [3; 1; 2; 0; 5] 1 3 = Some l' /\ l' ≡ₚ [3; 1; 2; 0; 5]
    /\ forall k, ~ (1 <= k < 1 + 3)%nat -> l' !! k = [3; 1; 2; 0; 5] !! k.
Proof. apply (zend_sort_any_comparison (fun _ _ => 1) [3; 1; 2; 0; 5] 1 3). simpl. lia. Defined.

(** C21: when [cmp(x, y) > 0] is the strict part of a total preorder, [zend_sort] on a whole array
    ends with it sorted: no earlier element compares above a later one. *)
Theorem zend_sort_sorts {A} (cmp : A -> A -> Z) (l : list A) :
  (forall x y, 0 < cmp x y -> cmp y x <= 0) ->
  (forall x y z, cmp x y <= 0 -> cmp y z <= 0 -> cmp x z <= 0) ->
  exists l', zend_sort (gt_at cmp) swp (S (length l)) l 0 (length l) = Some l' /\ l' ≡ₚ l
    /\ forall i j x y, (i < j)%nat -> l' !! i = Some x -> l' !! j = Some y -> cmp x y <= 0.
Proof.
  intros Htot Htr.
  destruct (zend_sort_safe cmp (S (length l)) l 0 (length l)) as (l' & E & S); [lia|lia|].
  exists l'. split_and!; [done|by eapply swaps_perm|]. intros i j x y Hij Hi Hj.
  assert (j < length l)%nat as Hl
    by (rewrite <- (swaps_length _ _ _ _ S); by eapply lookup_lt_Some).
  by apply (zend_sort_sorted cmp Htot Htr) in E; [eapply (E i j)|lia|lia]; [lia|..].
Qed.

Lemma zend_sort_sorts_witness :
  exists l', zend_sort (gt_at ex_cmp) swp 4 [3; 1; 2] 0 3 = Some l' /\ l' ≡ₚ [3; 1; 2]
    /\ forall i j x y, (i < j)%nat -> l' !! i = Some x -> l' !! j = Some y -> ex_cmp x y <= 0.
Proof. apply (zend_sort_sorts ex_cmp [3; 1; 2]); unfold ex_cmp; lia. Defined.
