(* ===== verification/ZendHashSort.v ===== *)
(** * The engine's hash table: sorting

    [zend_hash_sort_ex] squeezes the tombstones out, hands the buckets to the sort of [ZendSort] and then
    repairs the table: it rebuilds the chains, or, when the keys are to be renumbered, makes the table
    packed.  How two buckets are exchanged depends on the layout and on [renumber]; the sort is connected to
    the one of plain lists by [zend_sort_follows]. *)
From S2P Require Import Prelude ZendString ZendHash OrderedMap ZendHashInv ZendHashRehash ZendHashUpdate ZendSort.

Section Sort.
Context {V : Type}.
Implicit Types (b p q : Bucket V) (bs : list (Bucket V)) (ar : list (option (Bucket V)))
  (ht : HashTable V) (EG : executor_globals V).

(** ** The code *)

(** The two buckets after the exchange.  [ZVAL_COPY_VALUE] leaves [Z_NEXT] where it is. *)
Definition zend_hash_bucket_swap p q : Bucket V * Bucket V :=
  ({| p with val := val q; h := h q; key := key q |},
   {| q with val := val p; h := h p; key := key p |}).

Definition zend_hash_bucket_renum_swap p q : Bucket V * Bucket V :=
  ({| p with val := val q |}, {| q with val := val p |}).

Definition zend_hash_bucket_packed_swap p q : Bucket V * Bucket V :=
  ({| p with val := val q; h := h q |}, {| q with val := val p; h := h p |}).

(** The callbacks of a sort on [arData]. *)
Definition cell_gt (compar : Bucket V -> Bucket V -> Z) ar (i j : nat) : option bool :=
  p ← bucket ar (Z.of_nat i); q ← bucket ar (Z.of_nat j); Some (0 <? compar p q).

Definition cell_swp (exchange : Bucket V -> Bucket V -> Bucket V * Bucket V) ar (i j : nat) :
  option (list (option (Bucket V))) :=
  p ← bucket ar (Z.of_nat i); q ← bucket ar (Z.of_nat j);
  ar ← set_bucket ar (Z.of_nat i) (exchange p q).1;
  set_bucket ar (Z.of_nat j) (exchange p q).2.

Definition sort_func_t : Type :=
  (list (option (Bucket V)) -> nat -> nat -> option bool) ->
  (list (option (Bucket V)) -> nat -> nat -> option (list (option (Bucket V)))) ->
  list (option (Bucket V)) -> nat -> nat -> option (list (option (Bucket V))).

(** [for (j = 0, i = 0; j < ht->nNumUsed; j++)], with [n] buckets to go. *)
Fixpoint squeeze_loop (n : nat) ar (j i : Z) : option (list (option (Bucket V)) * Z) :=
  match n with
  | O => Some (ar, i)
  | S n =>
      p ← bucket ar j;
      if Z_ISUNDEF (val p) then squeeze_loop n ar (j + 1) i
      else
        ar ← (if i =? j then Some ar else set_bucket ar i p);
        squeeze_loop n ar (j + 1) (i + 1)
  end.

(** [for (j = 0; j < i; j++)], with [n] buckets to go. *)
Fixpoint renumber_loop (n : nat) ar (j : Z) : option (list (option (Bucket V))) :=
  match n with
  | O => Some ar
  | S n =>
      p ← bucket ar j;
      ar ← set_bucket ar j {| p with h := j; key := None |};
      renumber_loop n ar (j + 1)
  end.

(** The last case of the code repeats [zend_hash_to_packed]. *)
Definition zend_hash_sort_ex EG ht (sort : sort_func_t) (compar : Bucket V -> Bucket V -> Z)
    (renumber : bool) : option (executor_globals V * HashTable V * Z) :=
  if negb (1 <? nNumOfElements ht) && negb (renumber && (0 <? nNumOfElements ht))
  then Some (EG, ht, SUCCESS)
  else
    '(ar, i) ← (if HT_IS_WITHOUT_HOLES ht then Some (arData ht, nNumUsed ht)
                else squeeze_loop (Z.to_nat (nNumUsed ht)) (arData ht) 0 0);
    ar ← sort (cell_gt compar)
           (cell_swp (if renumber then zend_hash_bucket_renum_swap
                      else if HASH_FLAG_PACKED ht then zend_hash_bucket_packed_swap
                      else zend_hash_bucket_swap)) ar 0%nat (Z.to_nat i);
    let ht := {| ht with arData := ar; nNumUsed := i; nInternalPointer := 0 |} in
    ht ← (if renumber
          then ar ← renumber_loop (Z.to_nat i) (arData ht) 0;
               Some {| ht with arData := ar; nNextFreeElement := i |}
          else Some ht);
    '(EG, ht) ← (if HASH_FLAG_PACKED ht
                 then if renumber then Some (EG, ht) else zend_hash_packed_to_hash EG ht
                 else if renumber then Some (EG, zend_hash_to_packed ht)
                 else zend_hash_rehash EG ht);
    Some (EG, ht, SUCCESS).

(** [zend_hash_sort]: the hybrid sort of [zend_sort.c]. *)
Definition zend_hash_sort EG ht (compar : Bucket V -> Bucket V -> Z) (renumber : bool) :
  option (executor_globals V * HashTable V * Z) :=
  zend_hash_sort_ex EG ht (fun gt sw ar base n => zend_sort gt sw (S n) ar base n) compar renumber.

(** ** Squeezing out the tombstones *)
Lemma squeeze_step ar n j i : squeeze_loop (S n) ar j i =
  (p ← bucket ar j;
   if Z_ISUNDEF (val p) then squeeze_loop n ar (j + 1) i
   else
     ar ← (if i =? j then Some ar else set_bucket ar i p);
     squeeze_loop n ar (j + 1) (i + 1)).
Proof. done. Qed.

(** [fin] is squeezed, [mid] is what was left behind, [todo] is still to be read. *)
Lemma squeeze_ok todo : forall fin mid rest,
  exists mid', squeeze_loop (length todo) ((Some <$> fin) ++ mid ++ (Some <$> todo) ++ rest)
    (Z.of_nat (length fin + length mid)) (Z.of_nat (length fin))
  = Some ((Some <$> (fin ++ filter live todo)) ++ mid' ++ rest,
          Z.of_nat (length (fin ++ filter live todo))) /\
  (length (filter live todo) + length mid' = length mid + length todo)%nat.
Proof.
  induction todo as [|b todo IH]; intros fin mid rest.
  - exists mid. cbn. by rewrite app_nil_r, Nat.add_0_r.
  - cbn [length]. rewrite squeeze_step, (read_todo fin mid b todo rest) by done.
    cbn [mbind option_bind]. rewrite undef_live, filter_live_cons. destruct (live b) eqn:Hb; cbn [negb].
    + assert (forall X, (fin ++ [b]) ++ X = fin ++ b :: X) as Ea by (intros; by rewrite <- app_assoc).
      destruct mid as [|c mid].
      * rewrite Nat.add_0_r, Z.eqb_refl. cbn [mbind option_bind].
        destruct (IH (fin ++ [b]) [] rest) as (mid' & E & El). rewrite Ea in E. exists mid'.
        split; [|cbn in *; lia]. rewrite <- E. f_equal; [|rewrite length_app; cbn; lia..].
        by rewrite fmap_app, <- app_assoc.
      * rewrite (proj2 (Z.eqb_neq _ _)) by (cbn; lia). cbn [app].
        rewrite set_bucket_next by done. cbn [mbind option_bind].
        destruct (IH (fin ++ [b]) (mid ++ [Some b]) rest) as (mid' & E & El). rewrite Ea in E.
        exists mid'. split; [|rewrite length_app in El; cbn in *; lia]. rewrite <- E.
        f_equal; [|rewrite !length_app; cbn; lia..]. by rewrite <- (app_assoc mid).
    + destruct (IH fin (mid ++ [Some b]) rest) as (mid' & E & El). exists mid'.
      split; [|rewrite length_app in El; cbn in *; lia]. rewrite <- E.
      f_equal; [|rewrite ?length_app; cbn; lia..]. by rewrite <- (app_assoc mid).
Qed.

(** ** Sorting the buckets in use

    What an exchange moves of a bucket; a comparison may look at nothing else. *)
Definition moved (renumber : bool) b : zval V * Z * option zend_string :=
  if renumber then (val b, 0, None) else strip b.

Definition of_moved (m : zval V * Z * option zend_string) : Bucket V :=
  {| val := m.1.1; Z_NEXT := 0; h := m.1.2; key := m.2 |}.

Lemma moved_of_moved renumber b : moved renumber (of_moved (moved renumber b)) = moved renumber b.
Proof. by destruct renumber. Qed.

Definition exchange (renumber packed : bool) : Bucket V -> Bucket V -> Bucket V * Bucket V :=
  if renumber then zend_hash_bucket_renum_swap
  else if packed then zend_hash_bucket_packed_swap else zend_hash_bucket_swap.

Section Cells.
Context (renumber packed : bool) (compar : Bucket V -> Bucket V -> Z).
Hypothesis Hcompar : forall p p' q q', moved renumber p = moved renumber p' ->
  moved renumber q = moved renumber q' -> compar p q = compar p' q'.

Definition keyless bs : Prop := packed = true -> Forall (fun b => key b = None) bs.

(** The cells in use, as the list of what is moved. *)
Definition sorting (rest : list (option (Bucket V))) ar (l : list (zval V * Z * option zend_string)) : Prop :=
  exists bs, ar = (Some <$> bs) ++ rest /\ moved renumber <$> bs = l /\ keyless bs.

Definition compar_moved (m m' : zval V * Z * option zend_string) : Z := compar (of_moved m) (of_moved m').

Lemma compar_moved_eq p q : compar_moved (moved renumber p) (moved renumber q) = compar p q.
Proof using Hcompar. apply Hcompar; apply moved_of_moved. Qed.

Lemma exchange_moved p q : (packed = true -> key p = None /\ key q = None) ->
  moved renumber (exchange renumber packed p q).1 = moved renumber q /\
  moved renumber (exchange renumber packed p q).2 = moved renumber p.
Proof.
  intros Hk. unfold moved, exchange, strip. destruct renumber; [done|]. destruct packed; [|done].
  destruct (Hk eq_refl) as [Hp Hq]. cbn. by rewrite Hp, Hq.
Qed.

Lemma exchange_keyless p q : (packed = true -> key p = None /\ key q = None) -> packed = true ->
  key (exchange renumber packed p q).1 = None /\ key (exchange renumber packed p q).2 = None.
Proof. intros Hk Hp. unfold exchange. rewrite Hp. by destruct renumber; apply Hk. Qed.

Lemma sorting_cell bs rest l i m : moved renumber <$> bs = l -> l !! i = Some m ->
  exists b, bs !! i = Some b /\ moved renumber b = m /\
    bucket ((Some <$> bs) ++ rest) (Z.of_nat i) = Some b.
Proof.
  intros <-. rewrite list_lookup_fmap, fmap_Some. intros (b & Hb & ->). exists b.
  split_and!; [done|done|]. by apply cells_bucket.
Qed.

Lemma set_cell bs rest i b b' : bs !! i = Some b ->
  set_bucket ((Some <$> bs) ++ rest) (Z.of_nat i) b' = Some ((Some <$> <[i := b']> bs) ++ rest).
Proof.
  intros Hi. pose proof (lookup_lt_Some _ _ _ Hi). rewrite <- (take_drop_middle bs i b Hi) at 1.
  rewrite (set_bucket_cells _ _ _ _ _ (Z.of_nat i)) by (rewrite length_take_le; lia).
  by rewrite (insert_take_drop bs i b').
Qed.

Lemma cell_gt_follows rest ar l i j : sorting rest ar l ->
  follows eq (cell_gt compar ar i j) (gt_at compar_moved l i j).
Proof using Hcompar.
  intros (bs & -> & Hl & _) g. unfold gt_at, cell_gt.
  destruct (l !! i) as [m|] eqn:Ei; [|done]. destruct (l !! j) as [m'|] eqn:Ej; [|done].
  destruct (sorting_cell _ rest _ _ _ Hl Ei) as (p & _ & <- & ->).
  destruct (sorting_cell _ rest _ _ _ Hl Ej) as (q & _ & <- & ->). cbn.
  intros [= <-]. eexists. split; [done|]. by rewrite compar_moved_eq.
Qed.

Lemma cell_swp_follows rest ar l i j : sorting rest ar l ->
  follows (sorting rest) (cell_swp (exchange renumber packed) ar i j) (swp l i j).
Proof.
  intros (bs & -> & Hl & Hk) l2. unfold swp, cell_swp.
  destruct (l !! i) as [m|] eqn:Ei; [|done]. destruct (l !! j) as [m'|] eqn:Ej; [|done].
  destruct (sorting_cell _ rest _ _ _ Hl Ei) as (p & Hp & <- & ->).
  destruct (sorting_cell _ rest _ _ _ Hl Ej) as (q & Hq & <- & ->). cbn [mbind option_bind].
  assert (packed = true -> key p = None /\ key q = None) as Hpq.
  { intros E. specialize (Hk E). rewrite Forall_forall in Hk.
    split; apply Hk; by eapply list_elem_of_lookup_2. }
  destruct (exchange_moved p q Hpq) as [E1 E2]. pose proof (exchange_keyless p q Hpq) as Ek.
  destruct (exchange renumber packed p q) as [p' q']. cbn [fst snd] in *.
  rewrite (set_cell bs rest i p p' Hp). cbn [mbind option_bind].
  assert (exists q0, <[i:=p']> bs !! j = Some q0) as [q0 Hq0].
  { apply lookup_lt_is_Some. rewrite length_insert. by eapply lookup_lt_Some. }
  rewrite (set_cell _ rest j q0 q' Hq0). intros [= <-]. eexists. split; [done|].
  exists (<[j:=q']> (<[i:=p']> bs)). split_and!; [done| |].
  - rewrite !list_fmap_insert, E1, E2, Hl. destruct (decide (i = j)) as [->|Hne].
    + rewrite !list_insert_insert_eq. congruence.
    + by rewrite list_insert_insert_ne.
  - intros E. destruct (Ek E) as [K1 K2]. by repeat apply Forall_insert; [apply Hk|..].
Qed.

(** The sort on the cells in use. *)
Lemma sort_cells_ok bs rest : keyless bs ->
  exists bs', zend_sort (cell_gt compar) (cell_swp (exchange renumber packed)) (S (length bs))
      ((Some <$> bs) ++ rest) 0 (length bs) = Some ((Some <$> bs') ++ rest) /\
    moved renumber <$> bs' ≡ₚ moved renumber <$> bs /\ keyless bs' /\
    ((forall x y, 0 < compar x y -> compar y x <= 0) ->
     (forall x y z, compar x y <= 0 -> compar y z <= 0 -> compar x z <= 0) ->
     forall i j x y, (i < j)%nat -> bs' !! i = Some x -> bs' !! j = Some y -> compar x y <= 0).
Proof using Hcompar.
  intros Hk. set (l := moved renumber <$> bs).
  destruct (zend_sort_safe compar_moved (S (length bs)) l 0 (length bs)) as (l' & E & Sw);
    [lia|by unfold l; rewrite length_fmap|].
  destruct (zend_sort_follows (sorting rest) (cell_gt compar) (gt_at compar_moved)
    (cell_swp (exchange renumber packed)) swp) with (fuel := S (length bs)) (l := (Some <$> bs) ++ rest)
    (l' := l) (base := 0%nat) (nmemb := length bs) (c := l')
    as (ar & Ear & bs' & -> & Hl & Hk'); [|apply cell_swp_follows|by exists bs|exact E|].
  { intros ar0 l0 i j. apply cell_gt_follows. }
  exists bs'. split_and!; [exact Ear| |done|].
  - rewrite Hl. by eapply swaps_perm.
  - intros Htot Htr i j x y Hij Hi Hj.
    assert (j < length bs)%nat as Hlt.
    { apply lookup_lt_Some in Hj. apply swaps_length in Sw.
      rewrite <- Hl in Sw. unfold l in Sw. rewrite !length_fmap in Sw. lia. }
    apply (zend_sort_sorted compar_moved) in E; [|intros ??; apply Htot|intros ???; apply Htr|lia|
      by unfold l; rewrite length_fmap].
    rewrite <- compar_moved_eq.
    apply (E i j); [lia|lia|by rewrite <- Hl, list_lookup_fmap, Hi|by rewrite <- Hl, list_lookup_fmap, Hj].
Qed.
End Cells.

(** ** The whole operation *)
Lemma strip_permuted bs bs' : strip <$> bs' ≡ₚ strip <$> bs ->
  exists bs0, bs0 ≡ₚ bs /\ strip <$> bs' = strip <$> bs0.
Proof.
  intros (bs0 & E & Hp)%Permutation_map_inv. by exists bs0.
Qed.

Lemma entries_permuted bs bs' : bs' ≡ₚ bs -> entries bs' ≡ₚ entries bs.
Proof. intros H. unfold entries. by rewrite H. Qed.

(** The buckets in use after the first loop. *)
Lemma squeezed_ok ht bs : wf ht bs -> exists rest,
  (if HT_IS_WITHOUT_HOLES ht then Some (arData ht, nNumUsed ht)
   else squeeze_loop (Z.to_nat (nNumUsed ht)) (arData ht) 0 0)
  = Some ((Some <$> filter live bs) ++ rest, Z.of_nat (length (filter live bs))) /\
  length (arData ht) = (length (filter live bs) + length rest)%nat.
Proof.
  intros Hwf. destruct (wf_cells _ _ Hwf) as [rest Hd]. unfold HT_IS_WITHOUT_HOLES.
  pose proof (wf_elems _ _ Hwf) as He. pose proof (wf_used _ _ Hwf) as Hu.
  destruct (Z.eqb_spec (nNumUsed ht) (nNumOfElements ht)) as [E|E].
  - exists rest. rewrite filter_live_all by (apply all_live; lia).
    rewrite Hd, Hu, length_app, length_fmap. done.
  - destruct (squeeze_ok bs [] [] rest) as (mid & Es & El). cbn in Es, El.
    exists (mid ++ rest). rewrite Hd, Hu, Nat2Z.id. split; [exact Es|].
    rewrite !length_app, length_fmap. lia.
Qed.

Lemma live_filter bs : Forall (fun b => live b = true) (filter live bs).
Proof. apply Forall_forall. intros b [Hb _]%list_elem_of_filter. by destruct (live b). Qed.

(** The table the sort leaves, before it is repaired. *)
Definition resorted ht ar (i : Z) : HashTable V :=
  {| ht with arData := ar; nNumUsed := i; nInternalPointer := 0 |}.

Lemma sorted_contents ht bs bs' rest : wf ht bs -> strip <$> bs' ≡ₚ strip <$> filter live bs ->
  contents (resorted ht ((Some <$> bs') ++ rest) (Z.of_nat (length bs'))) bs' /\
  entries bs' ≡ₚ entries bs /\ filter live bs' = bs'.
Proof.
  intros Hwf (bs0 & Hp & Hs)%strip_permuted.
  assert (entries bs' ≡ₚ entries bs) as He.
  { rewrite (strip_entries _ _ Hs), <- (entries_filter_live bs). by apply entries_permuted. }
  destruct Hwf as [H1 H2 H3 H4 H5 H6 H7 H8 H9 H10]. split_and!; [|done|].
  - split; cbn; try done.
    + by exists rest.
    + rewrite H5. by rewrite He.
    + by rewrite He.
    + apply (strip_buckets_ok _ bs0); [done|]. rewrite Hp. by apply filter_live_ok.
  - apply filter_live_all, all_live. rewrite (strip_entries _ _ Hs), length_entries_live.
    + apply (f_equal length) in Hs. by rewrite !length_fmap in Hs.
    + rewrite Hp. apply live_filter.
Qed.

(** *** New keys *)
Definition renumbered (j : nat) b : Bucket V := {| b with h := Z.of_nat j; key := None |}.

Lemma renumber_ok todo : forall fin rest,
  renumber_loop (length todo) ((Some <$> (fin ++ todo)) ++ rest) (Z.of_nat (length fin))
  = Some ((Some <$> (fin ++ imap (fun k => renumbered (length fin + k)) todo)) ++ rest).
Proof.
  induction todo as [|b todo IH]; intros fin rest; cbn [length renumber_loop imap]; [done|].
  rewrite (cells_bucket _ _ (length fin) b) by (by rewrite list_lookup_middle). cbn [mbind option_bind].
  rewrite set_bucket_cells by done. cbn [mbind option_bind].
  specialize (IH (fin ++ [renumbered (length fin) b]) rest). rewrite <- !app_assoc, length_app in IH.
  cbn [app length] in IH. replace (Z.of_nat (length fin) + 1) with (Z.of_nat (length fin + 1)) by lia.
  unfold renumbered in IH at 1. rewrite IH. rewrite Nat.add_0_r. do 5 f_equal.
  apply imap_ext. intros k x _. cbn. f_equal. lia.
Qed.

Lemma imap_entries bs (n : nat) : Forall (fun b => live b = true) bs ->
  entries (imap (fun k => renumbered (n + k)) bs)
  = imap (fun k v => (KInt (Z.of_nat (n + k)), v)) (entries bs).*2.
Proof.
  intros Hl. revert n. induction Hl as [|b bs Hb _ IH]; intros n; [done|]. cbn [imap].
  rewrite !entries_cons. change (live (renumbered (n + 0) b)) with (live b). rewrite Hb. cbn.
  f_equal. specialize (IH (S n)).
  rewrite (imap_ext _ (fun k => renumbered (S n + k))) by (intros; cbn; f_equal; lia). rewrite IH.
  apply imap_ext. intros k v _. cbn. do 2 f_equal. lia.
Qed.

Lemma renumbered_wf ht bs rest :
  Forall (fun b => live b = true) bs -> HASH_FLAG_PACKED ht = true ->
  HASH_FLAG_UNINITIALIZED ht = false -> no_chains ht ->
  arData ht = (Some <$> imap renumbered bs) ++ rest ->
  Z.of_nat (length (arData ht)) = nTableSize ht -> 8 <= nTableSize ht <= 2 ^ 30 ->
  nNumUsed ht = Z.of_nat (length bs) -> nNumOfElements ht = Z.of_nat (length bs) ->
  nNextFreeElement ht = Z.of_nat (length bs) -> nInternalPointer ht = 0 ->
  wf ht (imap renumbered bs).
Proof.
  intros Hl Hp Hu Hnc Hd Hb Hs Hus He Hn Hptr. pose proof (imap_entries bs 0 Hl) as Ee.
  change (fun k => renumbered (0 + k)) with renumbered in Ee.
  assert (Z.of_nat (length bs) <= nTableSize ht) as Hle.
  { rewrite <- Hb, Hd, length_app, length_fmap, length_imap. lia. }
  assert (forall i b, imap renumbered bs !! i = Some b ->
    exists b0, bs !! i = Some b0 /\ b = renumbered i b0) as Hi.
  { intros i b. rewrite list_lookup_imap, fmap_Some. intros (b0 & H0 & ->). by exists b0. }
  split.
  - by exists rest.
  - by rewrite length_imap.
  - by rewrite Hu.
  - done.
  - by rewrite Ee, length_imap, length_fmap, length_entries_live, He.
  - rewrite Ee, fmap_imap. apply NoDup_alt. intros i j x. rewrite !list_lookup_imap, !fmap_Some.
    intros (? & _ & ->) (? & _ & E). injection E as E. lia.
  - apply Forall_lookup. intros i b (b0 & H0%lookup_lt_Some & ->)%Hi _. cbn.
    split; [done|]. split; [lia|]. intros _. left. rewrite i64_small by lia. lia.
  - unfold ZEND_LONG_MAX. lia.
  - lia.
  - unfold layout. rewrite Hu, Hp. split; [done|]. rewrite length_imap. split; [lia|].
    by intros i b (b0 & _ & ->)%Hi _.
Qed.

(** With at most one live bucket there is nothing to sort. *)
Lemma one_live bs i j x y : (i < j)%nat -> bs !! i = Some x -> bs !! j = Some y ->
  live x = true -> live y = true -> (2 <= length (entries bs))%nat.
Proof.
  intros Hij Hi Hj Hx Hy. rewrite <- (take_drop_middle bs i x Hi), entries_app, entries_cons, Hx.
  assert (y ∈ drop (S i) bs) as Hd.
  { apply list_elem_of_lookup. exists (j - S i)%nat. rewrite lookup_drop. rewrite <- Hj. f_equal. lia. }
  apply list_elem_of_split in Hd as (l1 & l2 & ->). rewrite entries_app, entries_cons, Hy.
  rewrite !length_app. cbn. rewrite length_app. cbn. lia.
Qed.

Definition in_order (compar : Bucket V -> Bucket V -> Z) bs : Prop :=
  (forall x y, 0 < compar x y -> compar y x <= 0) ->
  (forall x y z, compar x y <= 0 -> compar y z <= 0 -> compar x z <= 0) ->
  forall i j x y, (i < j)%nat -> bs !! i = Some x -> bs !! j = Some y ->
    live x = true -> live y = true -> compar x y <= 0.

(** The elements after a sort: the same ones, or the same values with new keys. *)
Definition sorted_entries (renumber : bool) bs bs' : Prop :=
  if renumber
  then exists vs, vs ≡ₚ (entries bs).*2 /\
         entries bs' = imap (fun i v => (KInt (Z.of_nat i), v)) vs
  else entries bs' ≡ₚ entries bs.

Lemma in_order_strip compar bs bs' :
  (forall p p' q q', strip p = strip p' -> strip q = strip q' -> compar p q = compar p' q') ->
  strip <$> bs' = strip <$> bs -> in_order compar bs -> in_order compar bs'.
Proof.
  intros Hc Hs Ho H1 H2 i j x y Hij Hi Hj Hx Hy.
  assert (forall k z, bs' !! k = Some z -> exists z0, bs !! k = Some z0 /\ strip z0 = strip z) as Hk.
  { intros k z Hz. apply (f_equal (lookup k)) in Hs. rewrite !list_lookup_fmap, Hz in Hs. cbn in Hs.
    symmetry in Hs. by apply fmap_Some in Hs as (z0 & ? & ?); exists z0. }
  destruct (Hk _ _ Hi) as (x0 & Hi0 & Ex). destruct (Hk _ _ Hj) as (y0 & Hj0 & Ey).
  rewrite (Hc x x0 y y0) by done. apply (Ho H1 H2 i j); try done.
  - by rewrite (strip_live _ _ Ex).
  - by rewrite (strip_live _ _ Ey).
Qed.

(** *** Repairing the table *)
Lemma repair_chains EG ht bs bs1 rest :
  wf ht bs -> HASH_FLAG_UNINITIALIZED ht = false -> strip <$> bs1 ≡ₚ strip <$> filter live bs ->
  length (arData ht) = (length bs1 + length rest)%nat ->
  let ht1 := resorted ht ((Some <$> bs1) ++ rest) (Z.of_nat (length bs1)) in
  exists EG' ht' bs', (if HASH_FLAG_PACKED ht then zend_hash_packed_to_hash EG ht1
                       else zend_hash_rehash EG ht1) = Some (EG', ht') /\
    wf ht' bs' /\ same_globals EG EG' /\ strip <$> bs' = strip <$> bs1.
Proof.
  intros Hwf Hu Hp Hlen ht1. destruct (sorted_contents ht bs bs1 rest Hwf Hp) as (Hct & He & Hf).
  pose proof (wf_block _ _ Hwf) as Hb. rewrite Hu in Hb. pose proof (wf_size _ _ Hwf) as Hs.
  destruct (HASH_FLAG_PACKED ht) eqn:Hpk.
  - destruct (packed_to_hash_rehashed EG ht1 bs1 Hct Hu Hs) as (EG' & ht' & bs' & E & H1 & _ & H3 & H4 & _);
      [cbn; lia|]. exists EG', ht', bs'. by rewrite H3, Hf.
  - assert (unchained ht1 bs1) as Hun.
    { destruct Hct as [C1 C2 C3 C4 C5 C6 C7]. pose proof (wf_layout _ _ Hwf) as Hl.
      unfold layout in Hl. rewrite Hu, Hpk in Hl. destruct Hl as [Hm _]. split; try done.
      cbn. rewrite length_app, length_fmap. lia. }
    destruct (rehash_ok EG ht1 bs1 Hun) as (EG' & ht' & bs' & E & H1 & _ & H3 & H4 & _).
    exists EG', ht', bs'. by rewrite H3, Hf.
Qed.

Lemma repair_packed ht bs bs1 rest :
  wf ht bs -> HASH_FLAG_UNINITIALIZED ht = false -> Forall (fun b => live b = true) bs1 ->
  length bs1 = length (entries bs) -> length (arData ht) = (length bs1 + length rest)%nat ->
  let ht0 := resorted ht ((Some <$> imap renumbered bs1) ++ rest) (Z.of_nat (length bs1)) in
  let ht1 := {| ht0 with nNextFreeElement := Z.of_nat (length bs1) |} in
  wf (if HASH_FLAG_PACKED ht then ht1 else zend_hash_to_packed ht1) (imap renumbered bs1).
Proof.
  intros Hwf Hu Hl He Hlen ht0 ht1. pose proof (wf_block _ _ Hwf) as Hb. rewrite Hu in Hb.
  pose proof (wf_size _ _ Hwf) as Hs. pose proof (wf_elems _ _ Hwf) as Hn.
  destruct (HASH_FLAG_PACKED ht) eqn:Hpk.
  - destruct (packed_layout _ _ Hwf Hpk) as (_ & Hnc & _).
    apply (renumbered_wf ht1 bs1 rest); try done; cbn; [|lia].
    rewrite length_app, length_fmap, length_imap. lia.
  - pose proof (copy_buckets_cells (imap renumbered bs1) rest (nTableSize ht)) as Hcp.
    rewrite length_imap in Hcp. destruct Hcp as [Ec El]; [lia|].
    eapply (renumbered_wf (zend_hash_to_packed ht1) bs1); try done. cbn. lia.
Qed.

Lemma renumbered_in_order compar bs :
  (forall p p' q q', val p = val p' -> val q = val q' -> compar p q = compar p' q') ->
  in_order compar bs -> in_order compar (imap renumbered bs).
Proof.
  intros Hc Ho H1 H2 i j x y Hij. rewrite !list_lookup_imap, !fmap_Some.
  intros (x0 & Hx0 & ->) (y0 & Hy0 & ->) Hx Hy. rewrite (Hc _ x0 _ y0) by done.
  by apply (Ho H1 H2 i j).
Qed.

(** The values, whether the sort moves keys or not. *)
Lemma strips_values bs : val <$> bs = (fun m : zval V * Z * option zend_string => m.1.1) <$> (moved true <$> bs).
Proof. rewrite <- list_fmap_compose. by apply list_fmap_ext. Qed.

Lemma entries_values bs : (entries bs).*2 = val <$> filter live bs.
Proof. unfold entries. rewrite <- list_fmap_compose. by apply list_fmap_ext. Qed.

Lemma live_by_values bs bs' : val <$> bs ≡ₚ val <$> bs' ->
  Forall (fun b => live b = true) bs' -> Forall (fun b => live b = true) bs.
Proof.
  intros Hp. set (P := fun z : zval V => negb (Z_ISUNDEF z) = true).
  change (Forall (P ∘ val) bs' -> Forall (P ∘ val) bs). rewrite <- !Forall_fmap. by rewrite Hp.
Qed.

Lemma not_empty_initialised ht bs : wf ht bs -> 0 < nNumOfElements ht -> HASH_FLAG_UNINITIALIZED ht = false.
Proof.
  intros Hwf Hn. destruct (HASH_FLAG_UNINITIALIZED ht) eqn:E; [|done]. rewrite (wf_elems _ _ Hwf) in Hn.
  pose proof (wf_layout _ _ Hwf) as Hl. unfold layout in Hl. rewrite E in Hl.
  destruct Hl as (_ & _ & ->). cbn in Hn. lia.
Qed.

Lemma packed_keyless ht bs : wf ht bs -> keyless (HASH_FLAG_PACKED ht) (filter live bs).
Proof.
  intros Hwf Hp. apply Forall_forall. intros b [Hb (i & Hi)%list_elem_of_lookup]%list_elem_of_filter.
  destruct (packed_layout _ _ Hwf Hp) as (_ & _ & _ & H). apply (H i b Hi). by destruct (live b).
Qed.

Lemma nothing_to_sort (renumber : bool) compar bs :
  (length (entries bs) <= if renumber then 0 else 1)%nat ->
  sorted_entries renumber bs bs /\ in_order compar bs.
Proof.
  intros Hn. split.
  - unfold sorted_entries. destruct renumber; [|done].
    assert (entries bs = []) as -> by (apply length_zero_iff_nil; lia). by exists [].
  - intros _ _ i j x y Hij Hi Hj Hx Hy. pose proof (one_live _ _ _ _ _ Hij Hi Hj Hx Hy).
    destruct renumber; lia.
Qed.

(** C22: sorting a table keeps it well formed and its elements, in a new order: whatever the comparison
    answers, the elements are a permutation of what they were, and when it is a total preorder no
    element compares above a later one.  With [renumber] the values get the keys 0, 1, 2, ... and the table
    becomes packed.  This goes for packed and mixed tables, with and without tombstones, of every size; the
    comparison may look at what the sort moves of an element, its value and, unless it is renumbered, its
    key. *)
Theorem zend_hash_sort_sorts EG ht bs compar renumber :
  wf ht bs ->
  (forall p p' q q', moved renumber p = moved renumber p' -> moved renumber q = moved renumber q' ->
     compar p q = compar p' q') ->
  exists EG' ht' bs', zend_hash_sort EG ht compar renumber = Some (EG', ht', SUCCESS) /\
    wf ht' bs' /\ same_globals EG EG' /\ sorted_entries renumber bs bs' /\ in_order compar bs'.
Proof.
  intros Hwf Hc. pose proof (wf_elems _ _ Hwf) as Hn. unfold zend_hash_sort, zend_hash_sort_ex.
  destruct (negb _ && negb _) eqn:Hearly.
  { exists EG, ht, bs. destruct (nothing_to_sort renumber compar bs); [destruct renumber; lia|done]. }
  destruct (squeezed_ok ht bs Hwf) as (rest & -> & Hlen). cbn [mbind option_bind].
  assert (HASH_FLAG_UNINITIALIZED ht = false) as Hu.
  { apply (not_empty_initialised _ _ Hwf). destruct renumber; lia. }
  pose proof (packed_keyless ht bs Hwf) as Hk.
  destruct (sort_cells_ok renumber (HASH_FLAG_PACKED ht) compar Hc (filter live bs) rest Hk)
    as (bs1 & Es & Hp & _ & Ho). rewrite Nat2Z.id.
  change (if renumber then zend_hash_bucket_renum_swap
          else if HASH_FLAG_PACKED ht then zend_hash_bucket_packed_swap else zend_hash_bucket_swap)
    with (exchange renumber (HASH_FLAG_PACKED ht)). rewrite Es. cbn [mbind option_bind].
  assert (length bs1 = length (filter live bs)) as El.
  { apply Permutation_length in Hp. by rewrite !length_fmap in Hp. }
  assert (in_order compar bs1) as Ho1 by (intros H1 H2 i j x y Hij Hi Hj _ _; by apply (Ho H1 H2 i j)).
  rewrite <- El in *. clear Ho.
  destruct renumber.
  - pose proof (renumber_ok bs1 [] rest) as Er. cbn in Er. change (Z.of_nat 0) with 0 in Er. cbn. rewrite Er.
    cbn [mbind option_bind]. 
    assert (Forall (fun b => live b = true) bs1) as Hl1.
    { apply (live_by_values _ (filter live bs)); [|apply live_filter]. by rewrite !strips_values, Hp. }
    pose proof (repair_packed ht bs bs1 rest Hwf Hu Hl1 ltac:(by rewrite El, length_entries) Hlen) as Hw.
    assert (sorted_entries true bs (imap renumbered bs1)) as Hse.
    { exists (entries bs1).*2. split; [|apply (imap_entries bs1 0 Hl1)].
      rewrite !entries_values, (filter_live_all bs1) by done. by rewrite !strips_values, Hp. }
    assert (in_order compar (imap renumbered bs1)) as Hio.
    { apply renumbered_in_order; [|done]. intros. apply Hc; cbn; congruence. }
    cbn in Hw |- *. destruct (HASH_FLAG_PACKED ht); exists EG; eexists; exists (imap renumbered bs1); done.
  - destruct (repair_chains EG ht bs bs1 rest Hwf Hu Hp Hlen) as (EG' & ht' & bs' & E & H1 & H2 & H3).
    unfold resorted in E. cbn [HASH_FLAG_PACKED mbind option_bind]. rewrite E. cbn [mbind option_bind].
    exists EG', ht', bs'. split_and!; try done.
    + unfold sorted_entries. rewrite (strip_entries _ _ H3).
      by apply (sorted_contents ht bs bs1 rest Hwf).
    + by apply (in_order_strip _ bs1).
Qed.
End Sort.

Arguments sort_func_t : clear implicits.

(** ** An example

    The table of [ZendHashInv], with a tombstone, sorted by value from the largest down. *)
Definition ex_value (p : Bucket Z) : Z := match val p with IS_VAL v => v | _ => 0 end.
Definition ex_descending (p q : Bucket Z) : Z := ex_value q - ex_value p.
(** The keys and values of the first buckets of a table. *)
Definition ex_contents (r : option (executor_globals Z * HashTable Z * Z)) :
  option (list (option (Z * option (list Z) * Z)) * bool * Z) :=
  '(_, ht, _) ← r;
  Some ((fun c => b ← c; Some (if key b then 0 else h b, ZSTR_VAL <$> key b, ex_value b)) <$>
          take (Z.to_nat (nNumUsed ht)) (arData ht), HASH_FLAG_PACKED ht, nNextFreeElement ht).

Example ex_sorted : ex_contents (zend_hash_sort ex_globals ex_table ex_descending false)
  = Some ([Some (0, Some [97], 103); Some (3, None, 102); Some (19, None, 100)], false, 20).
Proof. vm_compute. reflexivity. Qed.

Example ex_renumbered : ex_contents (zend_hash_sort ex_globals ex_table ex_descending true)
  = Some ([Some (0, None, 103); Some (1, None, 102); Some (2, None, 100)], true, 3).
Proof. vm_compute. reflexivity. Qed.

Lemma zend_hash_sort_sorts_witness :
  exists EG' ht' bs', zend_hash_sort ex_globals ex_table ex_descending false = Some (EG', ht', SUCCESS) /\
    wf ht' bs' /\ same_globals ex_globals EG' /\ sorted_entries false ex_buckets bs' /\
    in_order ex_descending bs'.
Proof.
  apply (zend_hash_sort_sorts ex_globals ex_table ex_buckets ex_descending false ex_wf).
  intros p p' q q' [= Ep _ _] [= Eq _ _]. unfold ex_descending, ex_value. by rewrite Ep, Eq.
Defined.
