(* ===== verification/ZendLlist.v ===== *)
(** Doubly linked lists: [zend_headers/zend_llist.c].

    The nodes live in a store from addresses to nodes; a list is the C structure with its [head]
    and [tail] pointers ([None] is [NULL]).  Allocation takes the next address, so an address is
    never used twice and a use after free is a missing node: [None], undefined behaviour.  The
    calls of the list's destructor are recorded in [destroyed], in order.  Callbacks that may
    change the data they are given thread the caller's state.  [repr] ties a list to the sequence
    of its nodes and data; the operations are proved to be the list operations one expects, to
    keep the links of every other node, and to free exactly the nodes they unlink. *)

From stdpp Require Import sorting.
From S2P Require Import Prelude ZendSort.

Section Code.
Context {D St : Type}.

Record zend_llist_element := MkElement {
  next : option Z;
  prev : option Z;
  data : D
}.

Record zend_llist := MkLlist {
  head : option Z;
  tail : option Z;
  count : Z;
  size : Z;
  dtor : bool; (* whether the destructor is not NULL *)
  persistent : bool;
  traverse_ptr : option Z
}.

Record store := MkStore {
  cells : gmap Z zend_llist_element;
  brk : Z;
  destroyed : list D
}.

Definition pemalloc (m : store) (e : zend_llist_element) : Z * store :=
  (brk m, {| m with cells := <[brk m := e]> (cells m); brk := brk m + 1 |}).

(** [pefree]: freeing an address that is not allocated is undefined. *)
Definition pefree (m : store) (p : Z) : option store :=
  _ ← cells m !! p; Some {| m with cells := delete p (cells m) |}.

Definition set_next (m : store) (p : Z) (n : option Z) : option store :=
  e ← cells m !! p; Some {| m with cells := <[p := {| e with next := n |}]> (cells m) |}.
Definition set_prev (m : store) (p : Z) (n : option Z) : option store :=
  e ← cells m !! p; Some {| m with cells := <[p := {| e with prev := n |}]> (cells m) |}.
Definition set_data (m : store) (p : Z) (x : D) : option store :=
  e ← cells m !! p; Some {| m with cells := <[p := {| e with data := x |}]> (cells m) |}.

(** [if (l->dtor) l->dtor(x)]. *)
Definition call_dtor (l : zend_llist) (m : store) (x : D) : store :=
  if dtor l then {| m with destroyed := destroyed m ++ [x] |} else m.

Definition zend_llist_init (sz : Z) (dt : bool) (pers : bool) (trav : option Z) : zend_llist :=
  {| head := None; tail := None; count := 0; size := sz; dtor := dt; persistent := pers;
     traverse_ptr := trav |}.

Definition zend_llist_add_element (l : zend_llist) (m : store) (element : D)
  : option (zend_llist * store) :=
  let (tmp, m1) := pemalloc m {| next := None; prev := tail l; data := element |} in
  '(l1, m2) ← match tail l with
              | Some t => m' ← set_next m1 t (Some tmp); Some (l, m')
              | None => Some ({| l with head := Some tmp |}, m1)
              end;
  Some ({| l1 with tail := Some tmp; count := u64 (count l1 + 1) |}, m2).

Definition zend_llist_prepend_element (l : zend_llist) (m : store) (element : D)
  : option (zend_llist * store) :=
  let (tmp, m1) := pemalloc m {| next := head l; prev := None; data := element |} in
  '(l1, m2) ← match head l with
              | Some h => m' ← set_prev m1 h (Some tmp); Some (l, m')
              | None => Some ({| l with tail := Some tmp |}, m1)
              end;
  Some ({| l1 with head := Some tmp; count := u64 (count l1 + 1) |}, m2).

Definition DEL_LLIST_ELEMENT (current : Z) (l : zend_llist) (m : store)
  : option (zend_llist * store) :=
  e ← cells m !! current;
  '(l1, m1) ← match prev e with
              | Some p => m' ← set_next m p (next e); Some (l, m')
              | None => Some ({| l with head := next e |}, m)
              end;
  e1 ← cells m1 !! current;
  '(l2, m2) ← match next e1 with
              | Some n => m' ← set_prev m1 n (prev e1); Some (l1, m')
              | None => Some ({| l1 with tail := prev e1 |}, m1)
              end;
  e2 ← cells m2 !! current;
  m3 ← pefree (call_dtor l2 m2 (data e2)) current;
  Some ({| l2 with count := u64 (count l2 - 1) |}, m3).

(** The traversals follow pointers, on fuel: one unit per node visited. *)
Fixpoint del_element_loop (fuel : nat) (current : option Z) (compare : D -> D -> bool)
  (element : D) (l : zend_llist) (m : store) : option (zend_llist * store) :=
  match current with
  | None => Some (l, m)
  | Some c =>
      match fuel with
      | O => None
      | S fuel' =>
          e ← cells m !! c;
          if compare (data e) element then DEL_LLIST_ELEMENT c l m
          else del_element_loop fuel' (next e) compare element l m
      end
  end.

Definition zend_llist_del_element (fuel : nat) (l : zend_llist) (m : store) (element : D)
  (compare : D -> D -> bool) : option (zend_llist * store) :=
  del_element_loop fuel (head l) compare element l m.

Fixpoint destroy_loop (fuel : nat) (current : option Z) (l : zend_llist) (m : store)
  : option store :=
  match current with
  | None => Some m
  | Some c =>
      match fuel with
      | O => None
      | S fuel' =>
          e ← cells m !! c;
          m' ← pefree (call_dtor l m (data e)) c;
          destroy_loop fuel' (next e) l m'
      end
  end.

Definition zend_llist_destroy (fuel : nat) (l : zend_llist) (m : store)
  : option (zend_llist * store) :=
  m' ← destroy_loop fuel (head l) l m; Some ({| l with count := 0 |}, m').

Definition zend_llist_clean (fuel : nat) (l : zend_llist) (m : store)
  : option (zend_llist * store) :=
  '(l', m') ← zend_llist_destroy fuel l m;
  Some ({| l' with head := None; tail := None |}, m').

Definition zend_llist_remove_tail (l : zend_llist) (m : store) : option (zend_llist * store) :=
  match tail l with
  | None => Some (l, m)
  | Some old_tail =>
      e ← cells m !! old_tail;
      '(l1, m1) ← match prev e with
                  | Some p => m' ← set_next m p None; Some (l, m')
                  | None => Some ({| l with head := None |}, m)
                  end;
      e1 ← cells m1 !! old_tail;
      m2 ← pefree (call_dtor l1 m1 (data e1)) old_tail;
      Some ({| l1 with tail := prev e1; count := u64 (count l1 - 1) |}, m2)
  end.

Fixpoint copy_loop (fuel : nat) (ptr : option Z) (dst : zend_llist) (m : store)
  : option (zend_llist * store) :=
  match ptr with
  | None => Some (dst, m)
  | Some p =>
      match fuel with
      | O => None
      | S fuel' =>
          e ← cells m !! p;
          '(dst', m') ← zend_llist_add_element dst m (data e);
          e' ← cells m' !! p;
          copy_loop fuel' (next e') dst' m'
      end
  end.

(** [trav] is the [traverse_ptr] that [dst] had: [zend_llist_init] leaves it alone. *)
Definition zend_llist_copy (fuel : nat) (trav : option Z) (src : zend_llist) (m : store)
  : option (zend_llist * store) :=
  copy_loop fuel (head src) (zend_llist_init (size src) (dtor src) (persistent src) trav) m.

(** The callback returns its [int] and the data and state it leaves. *)
Fixpoint apply_with_del_loop (fuel : nat) (element : option Z) (func : St -> D -> Z * D * St)
  (l : zend_llist) (m : store) (s : St) : option (zend_llist * store * St) :=
  match element with
  | None => Some (l, m, s)
  | Some p =>
      match fuel with
      | O => None
      | S fuel' =>
          e ← cells m !! p;
          let nx := next e in
          let '(r, x', s') := func s (data e) in
          m' ← set_data m p x';
          '(l1, m1) ← (if r =? 0 then Some (l, m') else DEL_LLIST_ELEMENT p l m');
          apply_with_del_loop fuel' nx func l1 m1 s'
      end
  end.

Definition zend_llist_apply_with_del (fuel : nat) (l : zend_llist) (m : store)
  (func : St -> D -> Z * D * St) (s : St) : option (zend_llist * store * St) :=
  apply_with_del_loop fuel (head l) func l m s.

Fixpoint apply_loop (fuel : nat) (element : option Z) (func : St -> D -> D * St) (m : store)
  (s : St) : option (store * St) :=
  match element with
  | None => Some (m, s)
  | Some p =>
      match fuel with
      | O => None
      | S fuel' =>
          e ← cells m !! p;
          let '(x', s') := func s (data e) in
          m' ← set_data m p x';
          e' ← cells m' !! p;
          apply_loop fuel' (next e') func m' s'
      end
  end.

Definition zend_llist_apply (fuel : nat) (l : zend_llist) (m : store)
  (func : St -> D -> D * St) (s : St) : option (store * St) :=
  apply_loop fuel (head l) func m s.

Definition zend_llist_apply_with_argument {Arg} (fuel : nat) (l : zend_llist) (m : store)
  (func : St -> D -> Arg -> D * St) (arg : Arg) (s : St) : option (store * St) :=
  apply_loop fuel (head l) (fun s x => func s x arg) m s.

(** The pointers of the list, as [zend_llist_sort] writes them into its array; each comes with
    the data of its node, which the comparison reads through it and the sort does not change. *)
Fixpoint collect (fuel : nat) (element : option Z) (m : store) : option (list (Z * D)) :=
  match element with
  | None => Some []
  | Some p =>
      match fuel with
      | O => None
      | S fuel' => e ← cells m !! p; ps ← collect fuel' (next e) m; Some ((p, data e) :: ps)
      end
  end.

(** [for (i = 1; i < count; i++) { elements[i]->prev = elements[i-1];
    elements[i-1]->next = elements[i]; }], [p] being [elements[i-1]]; the result is the last. *)
Fixpoint relink (p : Z) (rest : list Z) (m : store) : option (Z * store) :=
  match rest with
  | [] => Some (p, m)
  | q :: rest' =>
      m1 ← set_prev m q (Some p); m2 ← set_next m1 p (Some q); relink q rest' m2
  end.

Definition compare_at (comp_func : D -> D -> Z) (a b : Z * D) : Z := comp_func a.2 b.2.

(** The array has [count] cells: a list that does not have [count] nodes writes past it, or
    leaves a cell of it uninitialised. *)
Definition zend_llist_sort (fuel : nat) (l : zend_llist) (m : store)
  (comp_func : D -> D -> Z) : option (zend_llist * store) :=
  if count l =? 0 then Some (l, m)
  else
    elements ← collect fuel (head l) m;
    let n := Z.to_nat (count l) in
    elements' ← (if Nat.eqb (length elements) n
                 then zend_sort (gt_at (compare_at comp_func)) swp (S n) elements 0 n
                 else None);
    match elements' with
    | [] => None
    | (p, _) :: rest =>
        m1 ← set_prev m p None;
        '(lst, m2) ← relink p rest.*1 m1;
        m3 ← set_next m2 lst None;
        Some ({| l with head := Some p; tail := Some lst |}, m3)
    end.

Definition zend_llist_count (l : zend_llist) : Z := count l.

(** The traversal functions, on a position [pos] of the caller: the data of the new position
    ([None] is [NULL]) and the new position.  With no position of the caller they run on the
    list's [traverse_ptr]. *)
Definition position_data (m : store) (pos : option Z) : option (option D * option Z) :=
  match pos with
  | Some p => e ← cells m !! p; Some (Some (data e), pos)
  | None => Some (None, None)
  end.

Definition zend_llist_get_first_ex (l : zend_llist) (m : store)
  : option (option D * option Z) := position_data m (head l).

Definition zend_llist_get_last_ex (l : zend_llist) (m : store)
  : option (option D * option Z) := position_data m (tail l).

Definition zend_llist_get_next_ex (m : store) (pos : option Z)
  : option (option D * option Z) :=
  match pos with
  | Some p => e ← cells m !! p; position_data m (next e)
  | None => Some (None, None)
  end.

Definition zend_llist_get_prev_ex (m : store) (pos : option Z)
  : option (option D * option Z) :=
  match pos with
  | Some p => e ← cells m !! p; position_data m (prev e)
  | None => Some (None, None)
  end.
End Code.

(** ** Representation *)
Section Repr.
Context {D St : Type}.
Implicit Types (m : store (D:=D)) (ns : list (Z * D)) (l : zend_llist).

Definition first ns (nx : option Z) : option Z :=
  match ns with [] => nx | (p, _) :: _ => Some p end.

Definition final ns (pv : option Z) : option Z :=
  match last ns with Some (p, _) => Some p | None => pv end.

(** The nodes [ns] are linked in this order, between [pv] before them and [nx] after them. *)
Fixpoint seg m (pv : option Z) ns (nx : option Z) : Prop :=
  match ns with
  | [] => True
  | (p, x) :: ns' =>
      cells m !! p = Some {| next := first ns' nx; prev := pv; data := x |}
      /\ seg m (Some p) ns' nx
  end.

Lemma first_app ns ns' nx : first (ns ++ ns') nx = first ns (first ns' nx).
Proof. by destruct ns as [|[p x] ns]. Qed.

Lemma final_cons p x ns pv : final ((p, x) :: ns) pv = final ns (Some p).
Proof. unfold final. rewrite last_cons. by destruct (last ns) as [[q y]|]. Qed.

Lemma final_snoc ns p x pv : final (ns ++ [(p, x)]) pv = Some p.
Proof. unfold final. by rewrite last_snoc. Qed.

Lemma final_app ns ns' pv : final (ns ++ ns') pv = final ns' (final ns pv).
Proof.
  revert pv. induction ns as [|[p x] ns IH]; intros pv; [done|].
  cbn [app]. by rewrite !final_cons.
Qed.

Lemma seg_app m pv ns ns' nx :
  seg m pv (ns ++ ns') nx <-> seg m pv ns (first ns' nx) /\ seg m (final ns pv) ns' nx.
Proof.
  revert pv. induction ns as [|[p x] ns IH]; intros pv; cbn [app seg].
  - unfold final. cbn. tauto.
  - rewrite IH, first_app, final_cons. tauto.
Qed.

Lemma seg_frame m m' pv ns nx :
  seg m pv ns nx -> (forall p, p ∈ ns.*1 -> cells m' !! p = cells m !! p) -> seg m' pv ns nx.
Proof.
  revert pv. induction ns as [|[p x] ns IH]; intros pv; cbn [seg]; [done|].
  intros [H1 H2] F. split; [rewrite F; [done|left]|]. apply IH; [done|].
  intros q Hq. apply F. by right.
Qed.

(** [l] is the list of the nodes [ns]: the links, the two ends, the count; the addresses are
    distinct and were all handed out by the allocator. *)
Record repr m l ns : Prop := {
  repr_seg : seg m None ns None;
  repr_head : head l = first ns None;
  repr_tail : tail l = final ns None;
  repr_count : count l = u64 (Z.of_nat (length ns));
  repr_nodup : NoDup ns.*1;
  repr_fresh : forall p, p ∈ ns.*1 -> p < brk m
}.

Lemma seg_lookup m pv ns nx p x :
  seg m pv ns nx -> (p, x) ∈ ns -> exists e, cells m !! p = Some e /\ data e = x.
Proof.
  revert pv. induction ns as [|[q y] ns IH]; intros pv; cbn [seg].
  - intros _ ?%elem_of_nil. done.
  - intros [H1 H2] [E|Hin]%elem_of_cons; [injection E as -> ->; eauto|]. by eapply IH.
Qed.

(** Changing the [next] of the last node, the [prev] of the first one. *)
Lemma seg_set_next m pv ns p x nx nx' :
  seg m pv (ns ++ [(p, x)]) nx -> NoDup (ns ++ [(p, x)]).*1 ->
  exists m', set_next m p nx' = Some m' /\ seg m' pv (ns ++ [(p, x)]) nx'
    /\ (forall q, q <> p -> cells m' !! q = cells m !! q)
    /\ brk m' = brk m /\ destroyed m' = destroyed m.
Proof.
  rewrite !seg_app. cbn [seg first]. intros [H1 [H2 _]] Hnd.
  unfold set_next. rewrite H2. cbn [mbind option_bind]. eexists. split; [done|].
  assert (forall q, q <> p -> (<[p := {| next := nx'; prev := final ns pv; data := x |}]>
    (cells m)) !! q = cells m !! q) as F by (intros; by apply lookup_insert_ne).
  rewrite fmap_app, NoDup_app in Hnd. destruct Hnd as (_ & Hnd & _).
  split; [|split; [done|done]]. rewrite seg_app. cbn [seg first cells].
  split; [|split; [by rewrite lookup_insert_eq|done]].
  eapply seg_frame; [done|]. intros q Hq. apply F. intros ->. apply (Hnd p Hq). left.
Qed.

Lemma seg_set_prev m pv pv' p x ns nx :
  seg m pv ((p, x) :: ns) nx -> NoDup ((p, x) :: ns).*1 ->
  exists m', set_prev m p pv' = Some m' /\ seg m' pv' ((p, x) :: ns) nx
    /\ (forall q, q <> p -> cells m' !! q = cells m !! q)
    /\ brk m' = brk m /\ destroyed m' = destroyed m.
Proof.
  cbn [seg]. intros [H1 H2] Hnd. unfold set_prev. rewrite H1. cbn [mbind option_bind].
  eexists. split; [done|].
  assert (forall q, q <> p -> (<[p := {| next := first ns nx; prev := pv'; data := x |}]>
    (cells m)) !! q = cells m !! q) as F by (intros; by apply lookup_insert_ne).
  cbn [fmap list_fmap fst] in Hnd. apply NoDup_cons in Hnd as [Hp _].
  split; [|split; [done|done]]. cbn [cells seg]. split; [by rewrite lookup_insert_eq|].
  eapply seg_frame; [done|]. intros q Hq. apply F. by intros ->.
Qed.

(** *** Insertion at the two ends *)
Lemma add_element_repr m l ns x :
  repr m l ns ->
  exists l' m', zend_llist_add_element l m x = Some (l', m')
    /\ repr m' l' (ns ++ [(brk m, x)])
    /\ (forall q, q ∉ ns.*1 -> q <> brk m -> cells m' !! q = cells m !! q)
    /\ brk m' = brk m + 1 /\ destroyed m' = destroyed m
    /\ dtor l' = dtor l /\ size l' = size l /\ persistent l' = persistent l.
Proof.
  intros [Hs Hh Ht Hc Hnd Hf]. unfold zend_llist_add_element, pemalloc.
  set (m1 := {| m with cells := _; brk := _ |}).
  assert (brk m ∉ ns.*1) as Hfresh by (intros ?%Hf; lia).
  assert (NoDup (ns ++ [(brk m, x)]).*1) as Hnd'.
  { rewrite fmap_app, NoDup_app. split; [done|]. split; [|apply NoDup_singleton].
    intros q Hq E. cbn in E. apply list_elem_of_singleton in E. by subst. }
  assert (forall p, p ∈ (ns ++ [(brk m, x)]).*1 -> p < brk m + 1) as Hf'.
  { intros p. rewrite fmap_app, elem_of_app. intros [Hp|Hp].
    - specialize (Hf p Hp). lia.
    - cbn in Hp. apply list_elem_of_singleton in Hp. lia. }
  assert (forall q, q <> brk m -> cells m1 !! q = cells m !! q) as F1
    by (intros; by apply lookup_insert_ne).
  assert (seg m1 None ns None) as Hs1.
  { eapply seg_frame; [done|]. intros p Hp. apply F1. by intros ->. }
  assert (cells m1 !! brk m = Some {| next := None; prev := tail l; data := x |}) as C1
    by apply lookup_insert_eq.
  assert (u64 (count l + 1) = u64 (Z.of_nat (length (ns ++ [(brk m, x)])))) as Hc'.
  { rewrite Hc, length_app. cbn. unfold u64, uwrap. rewrite Nat2Z.inj_add.
    by rewrite Zplus_mod_idemp_l. }
  rewrite Ht. destruct ns as [|[p y] ns _] using rev_ind.
  - cbn. do 2 eexists. split; [done|]. split; [|split; [by intros; apply F1|done]].
    split; try done. cbn [seg]. split; [by rewrite C1, Ht|done].
  - rewrite final_snoc. rewrite final_snoc in Ht.
    destruct (seg_set_next m1 None ns p y None (Some (brk m)) Hs1 Hnd)
      as (m2 & -> & Hs2 & F2 & B2 & D2). cbn [mbind option_bind].
    assert (brk m <> p) as Hne.
    { intros E. apply Hfresh. rewrite E, fmap_app, elem_of_app. right. by left. }
    do 2 eexists. split; [done|]. split; [|split; [|done]].
    + split; cbn; [|by rewrite Hh, !first_app|by rewrite final_snoc|done|done|by rewrite B2].
      apply seg_app. cbn. rewrite final_snoc. split; [done|]. split; [|done].
      by rewrite F2, C1, Ht by done.
    + intros q Hq Hq'. rewrite F2; [by apply F1|]. intros ->. apply Hq.
      rewrite fmap_app, elem_of_app. right. by left.
Qed.

(** *** Unlinking a node: both halves of [DEL_LLIST_ELEMENT] *)
Lemma unlink_next m l ns nx nx' :
  seg m None ns nx -> NoDup ns.*1 -> head l = first ns nx ->
  exists h m1, match final ns None with
               | Some q => m' ← set_next m q nx'; Some (l, m')
               | None => Some ({| l with head := nx' |}, m)
               end = Some ({| l with head := h |}, m1)
    /\ h = first ns nx' /\ seg m1 None ns nx'
    /\ (forall q, q ∉ ns.*1 -> cells m1 !! q = cells m !! q)
    /\ brk m1 = brk m /\ destroyed m1 = destroyed m.
Proof.
  intros Hs Hnd Hh. destruct ns as [|[q y] ns _] using rev_ind.
  - cbn. by exists nx', m.
  - rewrite final_snoc. destruct (seg_set_next m None ns q y nx nx' Hs Hnd)
      as (m1 & -> & Hs1 & F & B & De). cbn [mbind option_bind].
    exists (head l), m1. split; [by destruct l|]. rewrite Hh, !first_app.
    split_and!; try done. intros r Hr. apply F. intros ->. apply Hr.
    rewrite fmap_app, elem_of_app. right. by left.
Qed.

Lemma unlink_prev m l ns pv pv' :
  seg m pv ns None -> NoDup ns.*1 -> tail l = final ns pv ->
  exists t m1, match first ns None with
               | Some q => m' ← set_prev m q pv'; Some (l, m')
               | None => Some ({| l with tail := pv' |}, m)
               end = Some ({| l with tail := t |}, m1)
    /\ t = final ns pv' /\ seg m1 pv' ns None
    /\ (forall q, q ∉ ns.*1 -> cells m1 !! q = cells m !! q)
    /\ brk m1 = brk m /\ destroyed m1 = destroyed m.
Proof.
  intros Hs Hnd Ht. destruct ns as [|[q y] ns].
  - cbn. by exists pv', m.
  - cbn [first]. destruct (seg_set_prev m pv pv' q y ns None Hs Hnd)
      as (m1 & -> & Hs1 & F & B & De). cbn [mbind option_bind].
    exists (tail l), m1. split; [by destruct l|].
    rewrite Ht, !final_cons. split_and!; try done.
    intros r Hr. apply F. intros ->. apply Hr. by left.
Qed.

Lemma count_pred z n : z = u64 (Z.of_nat (S n)) -> u64 (z - 1) = u64 (Z.of_nat n).
Proof. intros ->. unfold u64, uwrap. rewrite Zminus_mod_idemp_l. f_equal. lia. Qed.

(** The calls of the destructor for the data [xs]. *)
Definition dtor_calls (l : zend_llist) (xs : list D) : list D := if dtor l then xs else [].

Lemma call_dtor_cells l m x : cells (call_dtor l m x) = cells m.
Proof. unfold call_dtor. by destruct (dtor l). Qed.
Lemma call_dtor_brk l m x : brk (call_dtor l m x) = brk m.
Proof. unfold call_dtor. by destruct (dtor l). Qed.
Lemma call_dtor_destroyed l m x :
  destroyed (call_dtor l m x) = destroyed m ++ dtor_calls l [x].
Proof. unfold call_dtor, dtor_calls. destruct (dtor l); [done|]. by rewrite app_nil_r. Qed.

Lemma DEL_LLIST_ELEMENT_repr m l ns1 p x ns2 :
  repr m l (ns1 ++ (p, x) :: ns2) ->
  exists l' m', DEL_LLIST_ELEMENT p l m = Some (l', m') /\ repr m' l' (ns1 ++ ns2)
    /\ cells m' !! p = None
    /\ (forall q, q ∉ (ns1 ++ (p, x) :: ns2).*1 -> cells m' !! q = cells m !! q)
    /\ destroyed m' = destroyed m ++ dtor_calls l [x] /\ brk m' = brk m /\ dtor l' = dtor l.
Proof.
  intros [Hs Hh Ht Hc Hnd Hf].
  apply seg_app in Hs as [S1 S2]. cbn [seg first] in S1, S2. destruct S2 as [Cp S2].
  rewrite fmap_app, NoDup_app in Hnd. cbn [fmap list_fmap fst] in Hnd.
  rewrite NoDup_cons in Hnd. destruct Hnd as (N1 & Nd & Np & N2).
  assert (p ∉ ns1.*1) as Hp1 by (intros Hp; apply (Nd p Hp); left).
  unfold DEL_LLIST_ELEMENT. rewrite Cp. cbn [mbind option_bind prev next].
  destruct (unlink_next m l ns1 (Some p) (first ns2 None) S1 N1)
    as (h & m1 & E1 & -> & S1' & F1 & B1 & De1); [by rewrite Hh, first_app|].
  rewrite E1. cbn [mbind option_bind]. rewrite (F1 p Hp1), Cp.
  cbn [mbind option_bind prev next].
  destruct (unlink_prev m1 {| l with head := first ns1 (first ns2 None) |} ns2 (Some p)
    (final ns1 None)) as (t & m2 & E2 & -> & S2' & F2 & B2 & De2); [|done| |].
  { eapply seg_frame; [done|]. intros q Hq. apply F1. intros Hq1. apply (Nd q Hq1). by right. }
  { cbn [tail]. by rewrite Ht, final_app, final_cons. }
  rewrite E2. cbn [mbind option_bind]. rewrite (F2 p Np), (F1 p Hp1), Cp.
  cbn [mbind option_bind data].
  unfold pefree. rewrite call_dtor_cells, (F2 p Np), (F1 p Hp1), Cp. cbn [mbind option_bind].
  assert (forall q, q <> p -> delete p (cells m2) !! q = cells m2 !! q) as F3
    by (intros; by apply lookup_delete_ne).
  do 2 eexists. split; [done|]. split; [|split; [|split; [|split; [|split; [|done]]]]].
  - split; cbn [head tail count cells brk seg].
    + apply seg_app. split; (eapply seg_frame; [eassumption|]); cbn [cells].
      * intros q Hq. rewrite F3 by (by intros ->). apply F2. intros Hq2. apply (Nd q Hq). by right.
      * intros q Hq. apply F3. by intros ->.
    + by rewrite first_app.
    + by rewrite final_app.
    + rewrite length_app in *. cbn [length] in Hc. rewrite Nat.add_succ_r in Hc.
      by apply count_pred.
    + rewrite fmap_app, NoDup_app. split; [done|]. split; [|done].
      intros q Hq Hq'. apply (Nd q Hq). by right.
    + intros q Hq. rewrite fmap_app, elem_of_app in Hq.
      rewrite call_dtor_brk, B2, B1. apply Hf. rewrite fmap_app, elem_of_app. cbn. rewrite elem_of_cons. tauto.
  - apply lookup_delete_eq.
  - intros q Hq. rewrite fmap_app, elem_of_app in Hq. cbn in Hq. rewrite elem_of_cons in Hq.
    cbn [cells]. rewrite F3, F2, F1; [done|naive_solver..].
  - cbn [destroyed]. by rewrite call_dtor_destroyed, De2, De1.
  - cbn [brk]. by rewrite call_dtor_brk, B2, B1.
Qed.

(** *** The operations on a represented list *)
Lemma prepend_element_repr m l ns x :
  repr m l ns ->
  exists l' m', zend_llist_prepend_element l m x = Some (l', m')
    /\ repr m' l' ((brk m, x) :: ns) /\ destroyed m' = destroyed m /\ dtor l' = dtor l.
Proof.
  intros [Hs Hh Ht Hc Hnd Hf]. unfold zend_llist_prepend_element, pemalloc.
  set (m1 := {| m with cells := _; brk := _ |}).
  assert (brk m ∉ ns.*1) as Hfresh by (intros ?%Hf; lia).
  assert (forall q, q <> brk m -> cells m1 !! q = cells m !! q) as F1
    by (intros; by apply lookup_insert_ne).
  assert (seg m1 None ns None) as Hs1.
  { eapply seg_frame; [done|]. intros p Hp. apply F1. by intros ->. }
  assert (u64 (count l + 1) = u64 (Z.of_nat (length ((brk m, x) :: ns)))) as Hc'.
  { rewrite Hc. cbn [length]. rewrite Nat2Z.inj_succ. unfold u64, uwrap.
    by rewrite Zplus_mod_idemp_l. }
  destruct (unlink_prev m1 l ns None (Some (brk m)) Hs1 Hnd Ht)
    as (t & m2 & E & -> & Hs2 & F2 & B2 & D2).
  rewrite <- Hh in E. rewrite E. cbn [mbind option_bind]. do 2 eexists.
  split; [done|]. split; [|done]. split; cbn [head tail count seg first].
  - split; [|done]. rewrite F2 by done. subst m1. cbn [cells].
    rewrite lookup_insert_eq. by rewrite Hh.
  - done.
  - by rewrite final_cons.
  - done.
  - cbn. by apply NoDup_cons.
  - intros p. rewrite B2. cbn. rewrite elem_of_cons. intros [->|?%Hf]; lia.
Qed.

Lemma remove_tail_repr m l ns p x :
  repr m l (ns ++ [(p, x)]) ->
  exists l' m', zend_llist_remove_tail l m = Some (l', m') /\ repr m' l' ns
    /\ cells m' !! p = None /\ destroyed m' = destroyed m ++ dtor_calls l [x]
    /\ dtor l' = dtor l.
Proof.
  intros [Hs Hh Ht Hc Hnd Hf]. unfold zend_llist_remove_tail. rewrite final_snoc in Ht.
  rewrite Ht.
  apply seg_app in Hs as [S1 S2]. cbn [seg first] in S1, S2. destruct S2 as [Cp _].
  rewrite fmap_app, NoDup_app in Hnd. destruct Hnd as (N1 & Nd & _).
  assert (p ∉ ns.*1) as Hp by (intros Hp; apply (Nd p Hp); by left).
  rewrite Cp. cbn [mbind option_bind prev].
  destruct (unlink_next m l ns (Some p) None S1 N1) as (h & m1 & E & -> & S1' & F & B & De);
    [by rewrite Hh, first_app|].
  rewrite Ht in E. rewrite E. cbn [mbind option_bind]. rewrite (F p Hp), Cp. cbn [mbind option_bind data].
  unfold pefree. rewrite call_dtor_cells, (F p Hp), Cp. cbn [mbind option_bind].
  do 2 eexists. split; [done|]. split; [|split; [|split; [|done]]].
  - split; cbn [head tail count cells brk].
    + eapply seg_frame; [done|]. cbn [cells]. intros q Hq. apply lookup_delete_ne. by intros ->.
    + done.
    + done.
    + rewrite length_app in Hc. cbn [length] in Hc. rewrite Nat.add_1_r in Hc.
      by apply count_pred.
    + done.
    + intros q Hq. rewrite call_dtor_brk, B. apply Hf. rewrite fmap_app, elem_of_app. by left.
  - apply lookup_delete_eq.
  - cbn [destroyed]. by rewrite call_dtor_destroyed, De.
Qed.

Lemma repr_node m l ns1 p x ns2 :
  repr m l (ns1 ++ (p, x) :: ns2) ->
  cells m !! p = Some {| next := first ns2 None; prev := final ns1 None; data := x |}.
Proof. intros [Hs _ _ _ _ _]. apply seg_app in Hs as [_ [H _]]. done. Qed.

(** Writing the data of a node. *)
Lemma set_data_repr m l ns1 p x ns2 y :
  repr m l (ns1 ++ (p, x) :: ns2) ->
  exists m', set_data m p y = Some m' /\ repr m' l (ns1 ++ (p, y) :: ns2)
    /\ destroyed m' = destroyed m.
Proof.
  intros H. unfold set_data. rewrite (repr_node _ _ _ _ _ _ H). cbn [mbind option_bind].
  eexists. split; [done|]. split; [|done]. destruct H as [Hs Hh Ht Hc Hnd Hf].
  assert ((ns1 ++ (p, x) :: ns2).*1 = (ns1 ++ (p, y) :: ns2).*1) as E1
    by (by rewrite !fmap_app).
  apply seg_app in Hs as [S1 [Cp S2]]. cbn [first] in S1.
  pose proof Hnd as Hnd'. rewrite fmap_app, NoDup_app in Hnd'. cbn in Hnd'.
  rewrite NoDup_cons in Hnd'. destruct Hnd' as (_ & Nd & Np & _).
  split; cbn [cells brk].
  - apply seg_app. cbn [seg first cells]. split; [|split; [by rewrite lookup_insert_eq|]];
      (eapply seg_frame; [eassumption|]); intros q Hq; apply lookup_insert_ne; intros ->; [|done].
    apply (Nd q Hq). by left.
  - by rewrite Hh, !first_app.
  - by rewrite Ht, !final_app, !final_cons.
  - rewrite Hc. by rewrite !length_app.
  - by rewrite <- E1.
  - by rewrite <- E1.
Qed.

(** *** Deleting the first element that matches *)
Fixpoint remove_first (f : D -> bool) ns : list (Z * D) :=
  match ns with
  | [] => []
  | (p, x) :: ns' => if f x then ns' else (p, x) :: remove_first f ns'
  end.

Fixpoint find_first (f : D -> bool) ns : list D :=
  match ns with
  | [] => []
  | (_, x) :: ns' => if f x then [x] else find_first f ns'
  end.

Lemma del_element_loop_repr compare element ns2 : forall fuel m l ns1,
  repr m l (ns1 ++ ns2) -> (length ns2 <= fuel)%nat ->
  exists l' m', del_element_loop fuel (first ns2 None) compare element l m = Some (l', m')
    /\ repr m' l' (ns1 ++ remove_first (fun x => compare x element) ns2)
    /\ destroyed m' = destroyed m
         ++ dtor_calls l (find_first (fun x => compare x element) ns2)
    /\ dtor l' = dtor l.
Proof.
  induction ns2 as [|[p x] ns2 IH]; intros fuel m l ns1 H Hf; cbn [length] in Hf.
  - exists l, m. destruct fuel; cbn; (split; [done|]); (split; [done|]); (split; [|done]);
      unfold dtor_calls; destruct (dtor l); by rewrite app_nil_r.
  - destruct fuel as [|fuel]; [lia|]. cbn [first del_element_loop].
    rewrite (repr_node _ _ _ _ _ _ H). cbn [mbind option_bind data next remove_first find_first].
    destruct (compare x element).
    + destruct (DEL_LLIST_ELEMENT_repr _ _ _ _ _ _ H) as (l' & m' & -> & R & _ & _ & De & _ & Dt).
      eauto 10.
    + destruct (IH fuel m l (ns1 ++ [(p, x)])) as (l' & m' & E & R & De);
        [by rewrite <- app_assoc|lia|].
      rewrite E. do 2 eexists. split; [done|]. split; [|done]. by rewrite <- app_assoc in R.
Qed.

(** *** Destroying the list *)
Lemma destroy_loop_seg ns : forall fuel m l pv,
  seg m pv ns None -> NoDup ns.*1 -> (length ns <= fuel)%nat ->
  exists m', destroy_loop fuel (first ns None) l m = Some m'
    /\ destroyed m' = destroyed m ++ dtor_calls l ns.*2
    /\ (forall q, q ∈ ns.*1 -> cells m' !! q = None)
    /\ (forall q, q ∉ ns.*1 -> cells m' !! q = cells m !! q) /\ brk m' = brk m.
Proof.
  induction ns as [|[p x] ns IH]; intros fuel m l pv Hs Hnd Hf; cbn [length] in Hf.
  - exists m. destruct fuel; cbn; (split; [done|]); unfold dtor_calls; destruct (dtor l);
      rewrite app_nil_r; (split; [done|]); (split; [|done]); by intros q ?%elem_of_nil.
  - destruct fuel as [|fuel]; [lia|]. cbn [seg] in Hs. destruct Hs as [Cp Hs].
    cbn [fmap list_fmap fst] in Hnd. apply NoDup_cons in Hnd as [Np Hnd].
    cbn [first destroy_loop]. rewrite Cp. cbn [mbind option_bind data next].
    unfold pefree. rewrite call_dtor_cells, Cp. cbn [mbind option_bind].
    set (m1 := {| (call_dtor l m x) with cells := delete p (cells m) |}).
    assert (forall q, q <> p -> cells m1 !! q = cells m !! q) as F1
      by (intros; unfold m1; cbn [cells]; by rewrite lookup_delete_ne).
    destruct (IH fuel m1 l (Some p)) as (m' & E & De & Hin & Hout & B); [|done|lia|].
    { eapply seg_frame; [done|]. intros q Hq. apply F1. by intros ->. }
    exists m'. split; [done|]. split; [|split; [|split]].
    + rewrite De. cbn [m1 destroyed]. rewrite call_dtor_destroyed, <- app_assoc.
      unfold dtor_calls. by destruct (dtor l).
    + cbn [fmap list_fmap fst]. intros q [->|Hq]%elem_of_cons; [|by apply Hin].
      rewrite Hout by done. apply lookup_delete_eq.
    + cbn [fmap list_fmap fst]. intros q Hq. rewrite elem_of_cons in Hq.
      rewrite Hout by tauto. apply F1. intros ->. apply Hq. by left.
    + rewrite B. apply call_dtor_brk.
Qed.

(** *** Visiting with deletion *)
Fixpoint visit_del (func : St -> D -> Z * D * St) ns (s : St) : list (Z * D) * list D * St :=
  match ns with
  | [] => ([], [], s)
  | (p, x) :: ns' =>
      let '(r, x', s') := func s x in
      let '(kept, gone, s'') := visit_del func ns' s' in
      if r =? 0 then ((p, x') :: kept, gone, s'') else (kept, x' :: gone, s'')
  end.

Lemma apply_with_del_repr func ns2 : forall fuel m l ns1 s,
  repr m l (ns1 ++ ns2) -> (length ns2 <= fuel)%nat ->
  exists l' m', apply_with_del_loop fuel (first ns2 None) func l m s
      = Some (l', m', (visit_del func ns2 s).2)
    /\ repr m' l' (ns1 ++ (visit_del func ns2 s).1.1)
    /\ destroyed m' = destroyed m ++ dtor_calls l (visit_del func ns2 s).1.2
    /\ dtor l' = dtor l.
Proof.
  induction ns2 as [|[p x] ns2 IH]; intros fuel m l ns1 s H Hf; cbn [length] in Hf.
  - exists l, m. destruct fuel; cbn; (split; [done|]); (split; [done|]); (split; [|done]);
      unfold dtor_calls; destruct (dtor l); by rewrite app_nil_r.
  - destruct fuel as [|fuel]; [lia|]. cbn [first apply_with_del_loop visit_del].
    rewrite (repr_node _ _ _ _ _ _ H). cbn [mbind option_bind data next].
    destruct (func s x) as [[r x'] s'].
    destruct (set_data_repr _ _ _ _ _ _ x' H) as (m1 & -> & R1 & De1). cbn [mbind option_bind].
    destruct (r =? 0).
    + cbn [mbind option_bind].
      destruct (IH fuel m1 l (ns1 ++ [(p, x')]) s') as (l' & m' & E & R & De & Dt);
        [by rewrite <- app_assoc|lia|]. rewrite E. do 2 eexists.
      destruct (visit_del func ns2 s') as [[kept gone] s'']. cbn [fst snd] in *.
      split; [done|]. rewrite <- app_assoc in R. split; [done|]. by rewrite De, De1.
    + destruct (DEL_LLIST_ELEMENT_repr _ _ _ _ _ _ R1)
        as (l2 & m2 & -> & R2 & _ & _ & De2 & _ & Dt2). cbn [mbind option_bind].
      destruct (IH fuel m2 l2 ns1 s' R2) as (l' & m' & E & R & De & Dt); [lia|].
      rewrite E. do 2 eexists.
      destruct (visit_del func ns2 s') as [[kept gone] s'']. cbn [fst snd] in *.
      split; [done|]. split; [done|]. split; [|congruence].
      rewrite De, De2, De1. unfold dtor_calls. rewrite Dt2.
      destruct (dtor l); rewrite <- app_assoc; done.
Qed.

(** *** Copying *)
Lemma repr_frame m m' l ns :
  repr m l ns -> (forall q, q ∈ ns.*1 -> cells m' !! q = cells m !! q) -> brk m <= brk m' ->
  repr m' l ns.
Proof.
  intros [Hs Hh Ht Hc Hnd Hf] F B. split; [eapply seg_frame; [exact Hs|exact F]|done..|].
  intros p Hp%Hf. lia.
Qed.

Lemma copy_loop_repr ns2 : forall fuel m src dst ns1 ds,
  repr m src (ns1 ++ ns2) -> repr m dst ds ->
  (forall p q, p ∈ (ns1 ++ ns2).*1 -> q ∈ ds.*1 -> p < q) ->
  (length ns2 <= fuel)%nat ->
  exists dst' m' ds', copy_loop fuel (first ns2 None) dst m = Some (dst', m')
    /\ repr m' src (ns1 ++ ns2) /\ repr m' dst' (ds ++ ds') /\ ds'.*2 = ns2.*2
    /\ destroyed m' = destroyed m
    /\ (dtor dst', size dst', persistent dst') = (dtor dst, size dst, persistent dst).
Proof.
  induction ns2 as [|[p x] ns2 IH]; intros fuel m src dst ns1 ds Rs Rd Hlt Hf;
    cbn [length] in Hf.
  - exists dst, m, []. rewrite !app_nil_r in *. destruct fuel; cbn; split_and!; done.
  - destruct fuel as [|fuel]; [lia|]. cbn [first copy_loop].
    rewrite (repr_node _ _ _ _ _ _ Rs). cbn [mbind option_bind data].
    destruct (add_element_repr m dst ds x Rd)
      as (dst1 & m1 & -> & Rd1 & F1 & B1 & De1 & Ed & Es & Ep).
    cbn [mbind option_bind].
    assert (repr m1 src (ns1 ++ (p, x) :: ns2)) as Rs1.
    { eapply repr_frame; [done| |lia]. intros q Hq. apply F1.
      - intros Hq'. specialize (Hlt q q Hq Hq'). lia.
      - pose proof (repr_fresh _ _ _ Rs q Hq). lia. }
    rewrite (repr_node _ _ _ _ _ _ Rs1). cbn [mbind option_bind next].
    destruct (IH fuel m1 src dst1 (ns1 ++ [(p, x)]) (ds ++ [(brk m, x)]))
      as (dst' & m' & ds' & E & Rs' & Rd' & Ex & De & Ef).
    + by rewrite <- app_assoc.
    + done.
    + rewrite <- app_assoc. cbn [app]. intros a b Ha Hb.
      rewrite fmap_app, elem_of_app in Hb. destruct Hb as [Hb|Hb]; [by apply Hlt|].
      apply list_elem_of_singleton in Hb. cbn in Hb. subst b. by apply (repr_fresh _ _ _ Rs).
    + lia.
    + rewrite E. exists dst', m', ((brk m, x) :: ds').
      rewrite <- !app_assoc in *. cbn [app fmap list_fmap snd] in *.
      split_and!; try done; congruence.
Qed.

(** *** Traversals *)
Fixpoint walk (fuel : nat) (step : store -> option Z -> option (option D * option Z)) m
  (cur : option D * option Z) : option (list D) :=
  match cur with
  | (None, _) => Some []
  | (Some x, pos) =>
      match fuel with
      | O => None
      | S fuel' => cur' ← step m pos; xs ← walk fuel' step m cur'; Some (x :: xs)
      end
  end.

(** The position of the first node of [ns2], or past the end. *)
Definition cursor ns2 : option D * option Z :=
  match ns2 with [] => (None, None) | (p, x) :: _ => (Some x, Some p) end.

Lemma position_first m l ns1 ns2 :
  repr m l (ns1 ++ ns2) -> position_data m (first ns2 None) = Some (cursor ns2).
Proof.
  destruct ns2 as [|[p x] ns2]; [done|]. intros H. cbn [first position_data].
  by rewrite (repr_node _ _ _ _ _ _ H).
Qed.

Lemma position_final m l ns1 ns2 :
  repr m l (ns1 ++ ns2) -> position_data m (final ns1 None) = Some (cursor (reverse ns1)).
Proof.
  destruct ns1 as [|[p x] ns1 _] using rev_ind; [done|]. intros H.
  rewrite final_snoc, reverse_snoc. cbn [cursor position_data].
  rewrite <- app_assoc in H. cbn [app] in H. by rewrite (repr_node _ _ _ _ _ _ H).
Qed.

Lemma walk_forward m l ns2 : forall fuel ns1,
  repr m l (ns1 ++ ns2) -> (length ns2 <= fuel)%nat ->
  walk fuel zend_llist_get_next_ex m (cursor ns2) = Some ns2.*2.
Proof.
  induction ns2 as [|[p x] ns2 IH]; intros fuel ns1 H Hf; cbn [length] in Hf;
    destruct fuel as [|fuel]; try lia; try done.
  cbn [cursor walk zend_llist_get_next_ex].
  rewrite (repr_node _ _ _ _ _ _ H). cbn [mbind option_bind next].
  rewrite cons_middle, app_assoc in H. rewrite (position_first _ _ _ _ H).
  cbn [mbind option_bind]. by rewrite (IH fuel _ H) by lia.
Qed.

Lemma walk_backward m l ns1 : forall fuel ns2,
  repr m l (ns1 ++ ns2) -> (length ns1 <= fuel)%nat ->
  walk fuel zend_llist_get_prev_ex m (cursor (reverse ns1)) = Some (reverse ns1.*2).
Proof.
  induction ns1 as [|[p x] ns1 IH] using rev_ind; intros fuel ns2 H Hf.
  { by destruct fuel. }
  rewrite length_app in Hf. cbn [length] in Hf. destruct fuel as [|fuel]; [lia|].
  rewrite reverse_snoc. cbn [cursor walk zend_llist_get_prev_ex].
  rewrite <- app_assoc in H. cbn [app] in H.
  rewrite (repr_node _ _ _ _ _ _ H). cbn [mbind option_bind prev].
  rewrite (position_final _ _ _ _ H). cbn [mbind option_bind].
  rewrite (IH fuel _ H) by lia. cbn [mbind option_bind].
  by rewrite fmap_app, reverse_app.
Qed.

(** *** Sorting *)
Lemma collect_repr m l ns2 : forall fuel ns1,
  repr m l (ns1 ++ ns2) -> (length ns2 <= fuel)%nat ->
  collect fuel (first ns2 None) m = Some ns2.
Proof.
  induction ns2 as [|[p x] ns2 IH]; intros fuel ns1 H Hf; cbn [length] in Hf;
    destruct fuel as [|fuel]; try lia; try done.
  cbn [first collect]. rewrite (repr_node _ _ _ _ _ _ H). cbn [mbind option_bind next data].
  rewrite cons_middle, app_assoc in H. by rewrite (IH fuel _ H) by lia.
Qed.

(** The nodes [ns] exist and hold their data; their links are whatever they are. *)
Definition holds m ns : Prop :=
  forall p x, (p, x) ∈ ns -> exists e, cells m !! p = Some e /\ data e = x.

Lemma holds_frame m m' ns :
  holds m ns -> (forall p, p ∈ ns.*1 -> cells m' !! p = cells m !! p) -> holds m' ns.
Proof.
  intros H F p x Hin. rewrite F; [by apply H|]. apply list_elem_of_fmap. by exists (p, x).
Qed.

Lemma relink_seg ns : forall m pv p x nx e,
  cells m !! p = Some e -> data e = x -> prev e = pv -> holds m ns -> NoDup ((p, x) :: ns).*1 ->
  exists lst m1 m2, relink p ns.*1 m = Some (lst, m1) /\ set_next m1 lst nx = Some m2
    /\ lst = (default (p, x) (last ns)).1 /\ seg m2 pv ((p, x) :: ns) nx
    /\ (forall q, q ∉ ((p, x) :: ns).*1 -> cells m2 !! q = cells m !! q)
    /\ brk m2 = brk m /\ destroyed m2 = destroyed m.
Proof.
  induction ns as [|[q y] ns IH]; intros m pv p x nx e Ep <- <- Hh Hnd.
  - exists p, m. unfold set_next. rewrite Ep. cbn [mbind option_bind relink fmap list_fmap].
    eexists. do 3 (split; [done|]). cbn [seg first cells fst].
    split; [split; [by rewrite lookup_insert_eq|done]|]. split; [|done].
    intros r Hr. apply lookup_insert_ne. intros ->. apply Hr. left.
  - cbn [fmap list_fmap fst snd] in Hnd. apply NoDup_cons in Hnd as [Np Hnd].
    assert (p <> q) as Hpq by (intros ->; apply Np; left).
    destruct (Hh q y) as (e' & Eq & <-); [left|].
    cbn [fmap list_fmap fst relink]. unfold set_prev. rewrite Eq. cbn [mbind option_bind].
    unfold set_next at 1. cbn [cells]. rewrite lookup_insert_ne, Ep by done.
    cbn [mbind option_bind]. set (m1 := MkStore _ _ _).
    assert (cells m1 !! q = Some {| next := next e'; prev := Some p; data := data e' |}) as Eq1.
    { unfold m1. cbn [cells]. by rewrite lookup_insert_ne, lookup_insert_eq. }
    assert (forall r, r <> p -> r <> q -> cells m1 !! r = cells m !! r) as F1.
    { intros r ? ?. unfold m1. cbn [cells]. by rewrite !lookup_insert_ne. }
    destruct (IH m1 (Some p) q (data e') nx _ Eq1) as (lst & m2 & m3 & E & En & El & Sg & F & B & De).
    + done.
    + done.
    + eapply (holds_frame m); [intros r z Hr; apply Hh; by right|].
      intros r Hr. apply F1; intros ->.
      * apply Np. by right.
      * apply NoDup_cons in Hnd as [Hq _]. done.
    + done.
    + rewrite E. exists lst, m2, m3. split; [done|]. split; [done|]. split.
      { rewrite El, last_cons. by destruct (last ns). }
      split; [|split; [|by rewrite B, De]].
      * cbn [seg first]. split; [|done]. rewrite F by done.
        unfold m1. cbn [cells]. by rewrite lookup_insert_eq.
      * cbn [fmap list_fmap fst]. intros r Hr. rewrite !not_elem_of_cons in Hr.
        rewrite F by (cbn [fmap list_fmap fst]; rewrite not_elem_of_cons; tauto).
        apply F1; tauto.
Qed.

Lemma seg_holds m pv ns nx : seg m pv ns nx -> holds m ns.
Proof. intros H p x Hin. by eapply seg_lookup. Qed.

Lemma zend_llist_sort_repr fuel m l ns ns' comp :
  repr m l ns -> Z.of_nat (length ns) < 2 ^ 64 -> (length ns <= fuel)%nat ->
  zend_sort (gt_at (compare_at comp)) swp (S (length ns)) ns 0 (length ns) = Some ns' -> ns' ≡ₚ ns ->
  exists l' m', zend_llist_sort fuel l m comp = Some (l', m') /\ repr m' l' ns'
    /\ destroyed m' = destroyed m.
Proof.
  intros H Hlt Hf Hs Hp. pose proof H as [Sg Hh Ht Hc Hnd Hfr].
  assert (count l = Z.of_nat (length ns)) as Hc'
    by (rewrite Hc; apply uwrap_small; lia).
  unfold zend_llist_sort. rewrite Hc'. zcase.
  - destruct ns; [|done]. injection Hs as <-. eauto.
  - rewrite Hh, (collect_repr m l ns fuel [] H Hf). cbn [mbind option_bind].
    rewrite Nat2Z.id, Nat.eqb_refl, Hs. cbn [mbind option_bind].
    destruct ns' as [|[p x] ns']; [apply Permutation_nil in Hp; by subst|].
    assert (NoDup ((p, x) :: ns').*1) as Hnd' by (by rewrite Hp).
    assert (holds m ((p, x) :: ns')) as Hh'.
    { intros r z Hr. rewrite Hp in Hr. by eapply seg_lookup. }
    destruct (Hh' p x) as (e & Ep & <-); [left|].
    unfold set_prev at 1. rewrite Ep. cbn [mbind option_bind].
    set (m0 := {| m with cells := _ |}).
    destruct (relink_seg ns' m0 None p (data e) None {| e with prev := None |})
      as (lst & m1 & m2 & E1 & E2 & El & Sg' & F & B & De); try done.
    { apply lookup_insert_eq. }
    { eapply (holds_frame m); [intros r z Hr; apply Hh'; by right|].
      intros r Hr. apply lookup_insert_ne. intros ->.
      cbn in Hnd'. by apply NoDup_cons in Hnd' as [? _]. }
    rewrite E1. cbn [mbind option_bind]. rewrite E2. cbn [mbind option_bind].
    do 2 eexists. split; [done|]. split; [|done].
    split; cbn [head tail count]; [done|done| | |done|].
    + rewrite El. unfold final. rewrite last_cons. by destruct (last ns') as [[? ?]|].
    + rewrite (Permutation_length Hp), <- Hc. congruence.
    + intros r. rewrite Hp, B. apply Hfr.
Qed.
End Repr.

(** ** The list against the sequence of its data *)
Section Properties.
Context {D : Type}.
Implicit Types (m : store (D:=D)) (l : zend_llist) (xs : list D).

(** [l] holds the data [xs], in this order. *)
Definition contents m l xs : Prop := exists ns, repr m l ns /\ ns.*2 = xs.

Inductive llist_op :=
| OpAdd (x : D)
| OpPrepend (x : D)
| OpRemoveTail
| OpDel (x : D).

Context (compare : D -> D -> bool).

Definition llist_step (fuel : nat) (o : llist_op) (l : zend_llist) m
  : option (zend_llist * store) :=
  match o with
  | OpAdd x => zend_llist_add_element l m x
  | OpPrepend x => zend_llist_prepend_element l m x
  | OpRemoveTail => zend_llist_remove_tail l m
  | OpDel x => zend_llist_del_element fuel l m x compare
  end.

Fixpoint llist_run (fuel : nat) (ops : list llist_op) (l : zend_llist) m
  : option (zend_llist * store) :=
  match ops with
  | [] => Some (l, m)
  | o :: ops' => '(l', m') ← llist_step fuel o l m; llist_run fuel ops' l' m'
  end.

Fixpoint remove_first_data (f : D -> bool) xs : list D :=
  match xs with [] => [] | x :: xs' => if f x then xs' else x :: remove_first_data f xs' end.

(** The specification: the sequence after the operation and the data that leave it. *)
Definition seq_step (o : llist_op) xs : list D * list D :=
  match o with
  | OpAdd x => (xs ++ [x], [])
  | OpPrepend x => (x :: xs, [])
  | OpRemoveTail => (removelast xs, match last xs with Some x => [x] | None => [] end)
  | OpDel x => (remove_first_data (fun y => compare y x) xs,
                match list_find (fun y => compare y x = true) xs with
                | Some (_, y) => [y]
                | None => []
                end)
  end.

Fixpoint seq_run (ops : list llist_op) xs : list D * list D :=
  match ops with
  | [] => (xs, [])
  | o :: ops' => let (ys, gone) := seq_step o xs in
                 let (zs, gone') := seq_run ops' ys in (zs, gone ++ gone')
  end.

Lemma remove_first_fmap f (ns : list (Z * D)) :
  (remove_first f ns).*2 = remove_first_data f ns.*2.
Proof.
  induction ns as [|[p x] ns IH]; [done|]. cbn. destruct (f x); [done|]. cbn. by rewrite <- IH.
Qed.

Lemma find_first_fmap (f : D -> bool) (ns : list (Z * D)) :
  find_first f ns = match list_find (fun y => f y = true) ns.*2 with
                    | Some (_, y) => [y] | None => [] end.
Proof.
  induction ns as [|[p x] ns IH]; [done|]. cbn. destruct (f x).
  - by rewrite decide_True by done.
  - rewrite decide_False by done. rewrite IH. cbn.
    by destruct (list_find _ ns.*2) as [[? ?]|].
Qed.


Lemma remove_first_data_length f xs : (length (remove_first_data f xs) <= length xs)%nat.
Proof. induction xs as [|x xs IH]; cbn; [done|]. destruct (f x); cbn; lia. Qed.

Lemma seq_step_length o xs : (length (seq_step o xs).1 <= S (length xs))%nat.
Proof.
  destruct o; cbn; rewrite ?length_app; cbn; try lia.
  - destruct xs as [|y ys _] using rev_ind; [cbn; lia|].
    rewrite removelast_last, length_app. cbn. lia.
  - pose proof (remove_first_data_length (fun y => compare y x) xs). lia.
Qed.

Lemma llist_step_contents fuel o l m xs :
  contents m l xs -> (length xs <= fuel)%nat ->
  exists l' m', llist_step fuel o l m = Some (l', m') /\ contents m' l' (seq_step o xs).1
    /\ destroyed m' = destroyed m ++ dtor_calls l (seq_step o xs).2 /\ dtor l' = dtor l.
Proof.
  intros (ns & R & <-) Hf. rewrite length_fmap in Hf.
  assert (destroyed m = destroyed m ++ dtor_calls l []) as Hnil
    by (unfold dtor_calls; destruct (dtor l); by rewrite app_nil_r).
  destruct o as [x|x| |x]; cbn [llist_step seq_step fst snd].
  - destruct (add_element_repr _ _ _ x R) as (l' & m' & -> & R' & _ & _ & De & Dt & _).
    do 2 eexists. split; [done|]. rewrite De. split; [|done]. eexists. split; [done|]. by rewrite fmap_app.
  - destruct (prepend_element_repr _ _ _ x R) as (l' & m' & -> & R' & De & Dt).
    do 2 eexists. split; [done|]. rewrite De. split; [|done]. by eexists.
  - destruct ns as [|[p x] ns _] using rev_ind.
    + unfold zend_llist_remove_tail. rewrite (repr_tail _ _ _ R). cbn. do 2 eexists.
      split; [done|]. split; [|done]. by exists [].
    + destruct (remove_tail_repr _ _ _ _ _ R) as (l' & m' & -> & R' & _ & De & Dt).
      do 2 eexists. split; [done|]. rewrite fmap_app. cbn [fmap list_fmap snd].
      rewrite removelast_last, last_snoc. split; [|done]. by eexists.
  - unfold zend_llist_del_element. rewrite (repr_head _ _ _ R).
    destruct (del_element_loop_repr compare x ns fuel m l [] R Hf)
      as (l' & m' & -> & R' & De & Dt).
    do 2 eexists. split; [done|]. cbn [app] in R'. split; [|split; [|done]].
    + eexists. split; [done|]. apply remove_first_fmap.
    + by rewrite De, find_first_fmap.
Qed.

(** C29: any sequence of appends, prepends, tail removals and deletions by value, run on a list
    that holds [xs], leaves it holding the sequence that the operations on sequences give, and
    calls the destructor exactly on the data that left it, in order; no step follows a freed or
    missing pointer, and each traversal ends. *)
Theorem zend_llist_refines_sequence fuel ops : forall l m xs,
  contents m l xs -> (length xs + length ops <= fuel)%nat ->
  exists l' m', llist_run fuel ops l m = Some (l', m') /\ contents m' l' (seq_run ops xs).1
    /\ destroyed m' = destroyed m ++ dtor_calls l (seq_run ops xs).2.
Proof.
  induction ops as [|o ops IH]; intros l m xs H Hf; cbn [llist_run seq_run length] in *.
  - do 2 eexists. split; [done|]. split; [done|].
    unfold dtor_calls. destruct (dtor l); by rewrite app_nil_r.
  - destruct (llist_step_contents fuel o l m xs H) as (l1 & m1 & -> & H1 & De1 & Dt1); [lia|].
    cbn [mbind option_bind]. pose proof (seq_step_length o xs).
    destruct (seq_step o xs) as [ys gone]. cbn [fst snd] in *.
    destruct (IH l1 m1 ys H1) as (l2 & m2 & -> & H2 & De2); [lia|].
    destruct (seq_run ops ys) as [zs gone']. cbn [fst snd] in *.
    do 2 eexists. split; [done|]. split; [done|].
    rewrite De2, De1. unfold dtor_calls. rewrite Dt1.
    destruct (dtor l); by rewrite <- app_assoc.
Qed.

(** Walking a list with [zend_llist_get_first_ex] and [zend_llist_get_next_ex] until they
    return [NULL] gives its data in order, and walking it back from [zend_llist_get_last_ex]
    with [zend_llist_get_prev_ex] gives them in reverse. *)
Theorem zend_llist_traversal m l xs :
  contents m l xs ->
  (zend_llist_get_first_ex l m ≫= walk (length xs) zend_llist_get_next_ex m) = Some xs
  /\ (zend_llist_get_last_ex l m ≫= walk (length xs) zend_llist_get_prev_ex m)
       = Some (reverse xs).
Proof.
  intros (ns & R & <-). unfold zend_llist_get_first_ex, zend_llist_get_last_ex.
  rewrite (repr_head _ _ _ R), (repr_tail _ _ _ R), length_fmap.
  rewrite (position_first m l [] ns R). cbn [mbind option_bind].
  rewrite (walk_forward m l ns _ [] R) by done. split; [done|].
  rewrite <- (app_nil_r ns) in R. rewrite (position_final m l ns [] R). cbn [mbind option_bind].
  by apply (walk_backward m l ns _ [] R).
Qed.

(** [zend_llist_sort] with a total preorder leaves a well-linked list whose data are a
    permutation of what they were, in non-decreasing order; no data is destroyed. *)
Theorem zend_llist_sort_sorted fuel m l xs comp :
  contents m l xs -> (length xs <= fuel)%nat -> Z.of_nat (length xs) < 2 ^ 64 ->
  (forall x y, 0 < comp x y -> comp y x <= 0) ->
  (forall x y z, comp x y <= 0 -> comp y z <= 0 -> comp x z <= 0) ->
  exists l' m' ys, zend_llist_sort fuel l m comp = Some (l', m') /\ contents m' l' ys
    /\ ys ≡ₚ xs /\ StronglySorted (fun x y => comp x y <= 0) ys
    /\ destroyed m' = destroyed m.
Proof.
  intros (ns & R & <-) Hf Hlt Htot Htr. rewrite length_fmap in *.
  destruct (zend_sort_safe (compare_at comp) (S (length ns)) ns 0 (length ns))
    as (ns' & E & Sw); [lia|lia|].
  pose proof (swaps_perm _ _ _ _ Sw) as Hp.
  destruct (zend_llist_sort_repr fuel m l ns ns' comp R Hlt Hf E Hp) as (l' & m' & E' & R' & De).
  exists l', m', ns'.*2. split; [done|]. split; [by exists ns'|].
  split; [by rewrite Hp|]. split; [|done].
  assert (sorted_range (compare_at comp) ns' 0 (length ns')) as Hs.
  { rewrite (swaps_length _ _ _ _ Sw).
    refine (zend_sort_sorted (compare_at comp) _ _ (S (length ns)) ns 0 (length ns) ns' _ _ E);
      [unfold compare_at; eauto..|lia|lia]. }
  clear -Hs. induction ns' as [|[p x] ns' IH]; cbn; constructor.
  - apply IH. intros i j a b Hi Hj Ha Hb. by eapply (Hs (S i) (S j)); [lia|cbn; lia| |].
  - apply Forall_lookup. intros j y Hy. rewrite list_lookup_fmap_Some in Hy.
    destruct Hy as ([q z] & -> & Hz).
    apply (Hs 0%nat (S j) (p, x) (q, z)); [lia| |done|done].
    apply lookup_lt_Some in Hz. cbn. lia.
Qed.
End Properties.

(** ** Examples *)
Definition ex_store : store (D:=Z) := {| cells := ∅; brk := 1; destroyed := [] |}.
Definition ex_llist : zend_llist := zend_llist_init 8 true false None.

Lemma ex_llist_contents : contents ex_store ex_llist [].
Proof.
  exists []. split; [|done]. split; try done; [apply NoDup_nil_2|]. by intros p ?%elem_of_nil.
Qed.

Lemma zend_llist_refines_sequence_witness :
  exists l' m', llist_run Z.eqb 5 [OpAdd 3; OpPrepend 7; OpAdd 5; OpDel 3; OpRemoveTail]
      ex_llist ex_store = Some (l', m') /\ contents m' l' [7] /\ destroyed m' = [3; 5].
Proof.
  apply (zend_llist_refines_sequence Z.eqb 5
    [OpAdd 3; OpPrepend 7; OpAdd 5; OpDel 3; OpRemoveTail] ex_llist ex_store []);
    [apply ex_llist_contents|cbn; lia].
Defined.

Definition ex_three : zend_llist * store (D:=Z) :=
  default (ex_llist, ex_store) (llist_run Z.eqb 3 [OpAdd 3; OpAdd 1; OpAdd 2] ex_llist ex_store).

Lemma ex_three_contents : contents ex_three.2 ex_three.1 [3; 1; 2].
Proof.
  exists [(1, 3); (2, 1); (3, 2)]. split; [|done]. split; try reflexivity.
  - repeat split; vm_compute; reflexivity.
  - by apply (bool_decide_unpack _); vm_compute.
  - cbn. intros p. rewrite !elem_of_cons. vm_compute. intros [->|[->|[->|H]]]; [done..|].
    by apply elem_of_nil in H.
Qed.

Lemma zend_llist_traversal_witness :
  (zend_llist_get_first_ex ex_three.1 ex_three.2 ≫= walk 3 zend_llist_get_next_ex ex_three.2)
    = Some [3; 1; 2]
  /\ (zend_llist_get_last_ex ex_three.1 ex_three.2 ≫= walk 3 zend_llist_get_prev_ex ex_three.2)
    = Some [2; 1; 3].
Proof. apply (zend_llist_traversal ex_three.2 ex_three.1 [3; 1; 2]), ex_three_contents. Defined.

Lemma zend_llist_sort_sorted_witness :
  exists l' m' ys, zend_llist_sort 3 ex_three.1 ex_three.2 ex_cmp = Some (l', m')
    /\ contents m' l' ys /\ ys ≡ₚ [3; 1; 2]
    /\ StronglySorted (fun x y => ex_cmp x y <= 0) ys /\ destroyed m' = destroyed ex_three.2.
Proof.
  apply (zend_llist_sort_sorted 3 ex_three.2 ex_three.1 [3; 1; 2] ex_cmp);
    [apply ex_three_contents|cbn; lia|cbn; lia|unfold ex_cmp; lia|unfold ex_cmp; lia].
Defined.
