(* ===== verification/ZendObjects.v ===== *)
(** * The object store ([zend_objects_API.c])

    Every object has a handle, its index in [object_buckets].  A bucket holds a pointer, or, with the
    lowest bit set, the handle of the next free bucket: freed handles form a list that starts at
    [free_list_head], and new objects take handles from it before the array grows.

    A word is a 64-bit Z; an object is a record in a heap keyed by its address.  The handlers
    [dtor_obj] and [free_obj] of an object run PHP code or an extension: they are parameters, functions
    on the whole state, as they may create and release objects themselves. *)
From S2P Require Import Prelude.

(** [std_dtor]: [handlers->dtor_obj == zend_objects_destroy_object && !ce->destructor], the case in
    which there is nothing to call; [std_free]: [handlers->free_obj == zend_object_std_dtor];
    [released]: the collector made it [IS_NULL]. *)
Record zend_object := {
  handle : Z; refcount : Z; IS_OBJ_DESTRUCTOR_CALLED : bool; IS_OBJ_FREE_CALLED : bool;
  released : bool; std_dtor : bool; std_free : bool }.

(** The store, the heap of objects, and the bit [EG_FLAGS_OBJECT_STORE_NO_REUSE] of the executor.
    [object_buckets] is [None] when it is NULL; a cell that was never written is [None].  [dtor_calls]
    is not data of the code: it is the record of the calls of [dtor_obj], the handle of the object each
    was for, in the order of the calls. *)
Record store := {
  object_buckets : option (list (option Z)); top : Z; size : Z; free_list_head : Z;
  heap : gmap Z zend_object; NO_REUSE : bool; dtor_calls : list Z }.

Definition OBJ_BUCKET_INVALID : Z := 1.
Definition IS_OBJ_VALID (o : Z) : bool := Z.land o OBJ_BUCKET_INVALID =? 0.
Definition SET_OBJ_INVALID (o : Z) : Z := Z.lor o OBJ_BUCKET_INVALID.

(** [((zend_intptr_t)(o)) >> 1], assigned to an [int]. *)
Definition GET_OBJ_BUCKET_NUMBER (o : Z) : Z := i32 (Z.shiftr (i64 o) 1).

(** [(((zend_uintptr_t)(n)) << 1) | OBJ_BUCKET_INVALID] *)
Definition SET_OBJ_BUCKET_NUMBER (n : Z) : Z := Z.lor (u64 (Z.shiftl (u64 n) 1)) OBJ_BUCKET_INVALID.

Section Store.
Implicit Types (s : store) (o : zend_object) (a h i : Z).

(** ** Access *)
Definition bucket_at s i : option Z := cells ← object_buckets s; c ← aget cells i; c.

Definition set_bucket_at s i (w : Z) : option store :=
  cells ← object_buckets s;
  cells ← aset cells i (Some w);
  Some {| s with object_buckets := Some cells |}.

Definition update_object s a (f : zend_object -> zend_object) : option store :=
  o ← heap s !! a; Some {| s with heap := <[a := f o]> (heap s) |}.

(** ** Creating and destroying the store *)
Definition zend_objects_store_init s (init_size : Z) : option store :=
  cells ← aset (replicate (Z.to_nat init_size) None) 0 (Some 0);
  Some {| s with object_buckets := Some cells; top := 1; size := init_size; free_list_head := -1 |}.

Definition zend_objects_store_destroy s : store := {| s with object_buckets := None |}.

(** ** Storing an object *)
Definition set_handle (h : Z) o : zend_object := {| o with handle := h |}.

(** [object->handle = handle; EG(objects_store).object_buckets[handle] = object;] *)
Definition put_at s h a : option store := s ← update_object s a (set_handle (u32 h)); set_bucket_at s h a.

Definition zend_objects_store_put_cold s a : option store :=
  cells ← object_buckets s;
  let new_size := u32 (2 * size s) in
  let s := {| s with object_buckets := Some (resize (Z.to_nat new_size) None cells); size := new_size |} in
  let h := i32 (top s) in
  let s := {| s with top := u32 (top s + 1) |} in
  put_at s h a.

Definition zend_objects_store_put s a : option store :=
  if negb (free_list_head s =? -1) && negb (NO_REUSE s) then
    let h := free_list_head s in
    w ← bucket_at s h;
    let s := {| s with free_list_head := GET_OBJ_BUCKET_NUMBER w |} in
    put_at s h a
  else if top s =? size s then zend_objects_store_put_cold s a
  else
    let h := i32 (top s) in
    let s := {| s with top := u32 (top s + 1) |} in
    put_at s h a.

(** ** Releasing objects *)
Definition ZEND_OBJECTS_STORE_ADD_TO_FREE_LIST s h : option store :=
  s ← set_bucket_at s h (SET_OBJ_BUCKET_NUMBER (free_list_head s));
  Some {| s with free_list_head := i32 h |}.

Definition destructor_called o : zend_object := {| o with IS_OBJ_DESTRUCTOR_CALLED := true |}.
Definition free_called o : zend_object := {| o with IS_OBJ_FREE_CALLED := true |}.
Definition set_refcount (n : Z) o : zend_object := {| o with refcount := n |}.
Definition addref o : zend_object := {| o with refcount := u32 (refcount o + 1) |}.
Definition delref o : zend_object := {| o with refcount := u32 (refcount o - 1) |}.

(** The handlers of an object. *)
Context (dtor_obj free_obj : Z -> store -> option store).

(** [obj->handlers->dtor_obj(obj)], recorded. *)
Definition run_dtor s a : option store :=
  o ← heap s !! a; dtor_obj a {| s with dtor_calls := dtor_calls s ++ [handle o] |}.

(** The flag is set before the destructor runs; [hold] and [delref] keep a reference around it. *)
Definition call_dtor s a (hold : zend_object -> zend_object) : option store :=
  o ← heap s !! a;
  if IS_OBJ_DESTRUCTOR_CALLED o then Some s
  else
    s ← update_object s a destructor_called;
    if std_dtor o then Some s
    else s ← update_object s a hold; s ← run_dtor s a; update_object s a delref.

Definition zend_objects_store_del s a : option store :=
  o ← heap s !! a;
  if released o then Some s
  else
    s ← call_dtor s a (set_refcount 1);
    o ← heap s !! a;
    if negb (refcount o =? 0) then Some s
    else
      let h := handle o in
      s ← set_bucket_at s h (SET_OBJ_INVALID a);
      s ← (if IS_OBJ_FREE_CALLED o then Some s
           else s ← update_object s a free_called;
                s ← update_object s a (set_refcount 1); free_obj a s);
      let s := {| s with heap := delete a (heap s) |} in
      ZEND_OBJECTS_STORE_ADD_TO_FREE_LIST s h.

(** An object whose constructor failed does not get its destructor called. *)
Definition zend_object_store_ctor_failed s a : option store := update_object s a destructor_called.

(** ** Shutdown *)

(** [for (i = 1; i < objects->top; i++)]: objects created by the destructors are reached too, which
    is why [top] is read again in every round. *)
Fixpoint call_destructors_loop (fuel : nat) s i : option store :=
  match fuel with
  | O => None
  | S fuel =>
      if negb (i <? top s) then Some s
      else
        obj ← bucket_at s i;
        s ← (if IS_OBJ_VALID obj then call_dtor s obj addref else Some s);
        call_destructors_loop fuel s (i + 1)
  end.

Definition zend_objects_store_call_destructors (fuel : nat) s : option store :=
  let s := {| s with NO_REUSE := true |} in
  if 1 <? top s then call_destructors_loop fuel s 1 else Some s.

Fixpoint mark_loop (n : nat) s i : option store :=
  match n with
  | O => Some s
  | S n =>
      obj ← bucket_at s i;
      s ← (if IS_OBJ_VALID obj then update_object s obj destructor_called else Some s);
      mark_loop n s (i + 1)
  end.

Definition zend_objects_store_mark_destructed s : option store :=
  match object_buckets s with
  | Some _ => if 1 <? top s then mark_loop (Z.to_nat (top s - 1)) s 1 else Some s
  | None => Some s
  end.

(** From [top - 1] down to 1; the handlers of the standard class are skipped in a fast shutdown.  The
    loop walks a pointer into the array it found, of [size0] buckets: were a handler to make the store
    grow, the array would be another one, and the read is invalid. *)
Fixpoint free_loop (n : nat) (size0 : Z) s (fast_shutdown : bool) : option store :=
  match n with
  | O => Some s
  | S n =>
      obj ← (if size s =? size0 then bucket_at s (Z.of_nat (S n)) else None);
      s ← (if IS_OBJ_VALID obj then
             o ← heap s !! obj;
             if IS_OBJ_FREE_CALLED o then Some s
             else
               s ← update_object s obj free_called;
               if fast_shutdown && std_free o then Some s
               else s ← update_object s obj addref; free_obj obj s
           else Some s);
      free_loop n size0 s fast_shutdown
  end.

Definition zend_objects_store_free_object_storage s (fast_shutdown : bool) : option store :=
  if top s <=? 1 then Some s else free_loop (Z.to_nat (top s - 1)) (size s) s fast_shutdown.

(** [zend_object_release], without the collector's buffer of possible roots. *)
Definition zend_object_release s a : option store :=
  s ← update_object s a delref;
  o ← heap s !! a;
  if refcount o =? 0 then zend_objects_store_del s a else Some s.
End Store.

(** ** Words *)
Definition pointer (a : Z) : Prop := 0 < a < 2 ^ 64 /\ a mod 2 = 0.

Lemma lor_1 y : y mod 2 = 0 -> Z.lor y 1 = y + 1.
Proof.
  intros H. pose proof (Z.add_lor_land y 1) as E.
  assert (Z.land y 1 = 0) as E' by (change 1 with (Z.ones 1); by rewrite Z.land_ones by lia). lia.
Qed.

Lemma valid_even w : IS_OBJ_VALID w = true <-> w mod 2 = 0.
Proof.
  unfold IS_OBJ_VALID, OBJ_BUCKET_INVALID. change 1 with (Z.ones 1). rewrite Z.land_ones by lia.
  change (2 ^ 1) with 2. apply Z.eqb_eq.
Qed.

Lemma invalid_odd w : w mod 2 = 1 -> IS_OBJ_VALID w = false.
Proof. intros H. destruct (IS_OBJ_VALID w) eqn:E; [|done]. apply valid_even in E. lia. Qed.

Lemma set_invalid a : pointer a -> IS_OBJ_VALID (SET_OBJ_INVALID a) = false.
Proof.
  intros [_ H]. apply invalid_odd. unfold SET_OBJ_INVALID, OBJ_BUCKET_INVALID.
  rewrite (lor_1 a H). Z.to_euclidean_division_equations; lia.
Qed.

Lemma bucket_number_eq n : - 1 <= n < 2 ^ 31 -> SET_OBJ_BUCKET_NUMBER n = (2 * n) mod 2 ^ 64 + 1.
Proof.
  intros Hn. unfold SET_OBJ_BUCKET_NUMBER, OBJ_BUCKET_INVALID. rewrite Z.shiftl_mul_pow2 by lia.
  assert (u64 (u64 n * 2 ^ 1) = (2 * n) mod 2 ^ 64) as ->
    by (unfold u64, uwrap; Z.to_euclidean_division_equations; lia).
  apply lor_1. Z.to_euclidean_division_equations; lia.
Qed.

Lemma bucket_number_invalid n : - 1 <= n < 2 ^ 31 -> IS_OBJ_VALID (SET_OBJ_BUCKET_NUMBER n) = false.
Proof.
  intros Hn. apply invalid_odd. rewrite bucket_number_eq by done.
  Z.to_euclidean_division_equations; lia.
Qed.

(** The number written into a free bucket is the number read back, -1 included. *)
Lemma bucket_number_roundtrip n : - 1 <= n < 2 ^ 31 ->
  GET_OBJ_BUCKET_NUMBER (SET_OBJ_BUCKET_NUMBER n) = n.
Proof.
  intros Hn. rewrite bucket_number_eq by done. unfold GET_OBJ_BUCKET_NUMBER.
  assert (i64 ((2 * n) mod 2 ^ 64 + 1) = 2 * n + 1) as ->
    by (unfold i64, swrap; Z.to_euclidean_division_equations; lia).
  rewrite Z.shiftr_div_pow2 by lia. unfold i32, swrap. Z.to_euclidean_division_equations; lia.
Qed.

(** ** The invariant *)
Section Invariant.
Implicit Types (s : store) (o : zend_object) (a h : Z) (live : gmap Z Z) (free pending : list Z).

(** The list of free buckets that starts at [head]. *)
Fixpoint free_chain s (head : Z) free : Prop :=
  match free with
  | [] => head = -1
  | h :: free =>
      head = h /\ 1 <= h < top s /\
      exists n, - 1 <= n < 2 ^ 31 /\ bucket_at s h = Some (SET_OBJ_BUCKET_NUMBER n) /\ free_chain s n free
  end.

(** An array of the recorded size. *)
Definition array_ok s : Prop := exists cells, object_buckets s = Some cells /\ Z.of_nat (length cells) = size s.

(** [live] maps the handles in use to objects, [free] are the handles on the free list, and [pending]
    those of objects that are being freed. *)
Record store_ok s live free pending : Prop := {
  so_array : array_ok s;
  so_top : 1 <= top s <= size s;
  so_size : size s < 2 ^ 31;
  so_live : forall h a, live !! h = Some a -> 1 <= h < top s /\ bucket_at s h = Some a /\ pointer a /\
    exists o, heap s !! a = Some o /\ handle o = h;
  so_free : free_chain s (free_list_head s) free;
  so_pending : forall h, h ∈ pending -> 1 <= h < top s /\
    forall w, bucket_at s h = Some w -> IS_OBJ_VALID w = false;
  so_parts : forall h, 1 <= h < top s -> is_Some (live !! h) \/ h ∈ free \/ h ∈ pending;
  so_nodup : NoDup (free ++ pending);
  so_fresh : forall i, top s <= i -> bucket_at s i = None }.

(** Every bucket in use was written. *)
Definition initialised s : Prop := forall h, 1 <= h < top s -> is_Some (bucket_at s h).

Lemma bucket_at_cells s cells i : object_buckets s = Some cells ->
  bucket_at s i = mjoin (aget cells i).
Proof. intros E. unfold bucket_at. rewrite E. cbn. by destruct (aget cells i). Qed.

Lemma set_bucket_ok s i w : array_ok s -> 0 <= i < size s ->
  exists s', set_bucket_at s i w = Some s' /\ bucket_at s' i = Some w /\
    (forall j, j <> i -> bucket_at s' j = bucket_at s j) /\ array_ok s' /\
    top s' = top s /\ size s' = size s /\ free_list_head s' = free_list_head s /\ heap s' = heap s /\
    NO_REUSE s' = NO_REUSE s /\ dtor_calls s' = dtor_calls s.
Proof.
  intros (cells & E & Hl) Hi.
  assert (aset cells i (Some w) = Some (<[Z.to_nat i := Some w]> cells)) as Ea.
  { unfold aset. by rewrite (proj2 (in_range_iff _ _ _)) by lia. }
  eexists. unfold set_bucket_at. rewrite E. cbn [mbind option_bind]. rewrite Ea. cbn [mbind option_bind].
  split; [done|]. split_and!; try done.
  - erewrite bucket_at_cells by done. unfold aget. rewrite (proj2 (Z.leb_le _ _)) by lia.
    rewrite list_lookup_insert_eq by lia. done.
  - intros j Hj. erewrite bucket_at_cells by done. rewrite (bucket_at_cells _ _ _ E). unfold aget.
    destruct (Z.leb_spec 0 j); [|done]. by rewrite list_lookup_insert_ne by lia.
  - eexists. split; [done|]. by rewrite length_insert.
Qed.

Lemma free_chain_ext s s' free : forall head, top s <= top s' ->
  (forall h, h ∈ free -> bucket_at s' h = bucket_at s h) -> free_chain s head free -> free_chain s' head free.
Proof.
  induction free as [|h free IH]; intros head Ht Hb Hc; [done|].
  destruct Hc as (-> & Hh & n & Hn & E & Hc). split; [done|]. split; [lia|]. exists n. split; [done|].
  split; [rewrite Hb; [done|by left]|]. apply IH; [done| |done]. intros h' Hh'. apply Hb. by right.
Qed.

Lemma free_chain_in s free : forall head h, free_chain s head free -> h ∈ free ->
  1 <= h < top s /\ exists w, bucket_at s h = Some w /\ IS_OBJ_VALID w = false.
Proof.
  induction free as [|h' free IH]; intros head h Hc Hin; [by apply elem_of_nil in Hin|].
  destruct Hc as (_ & Hh & n & Hn & E & Hc). apply elem_of_cons in Hin as [->|Hin]; [|by apply (IH n)].
  split; [done|]. eexists. split; [done|]. by apply bucket_number_invalid.
Qed.

(** No handle in use is free or pending. *)
Lemma live_not_free s live free pending h a : store_ok s live free pending -> live !! h = Some a ->
  h ∉ free ++ pending.
Proof.
  intros Hok Hl Hin. destruct (so_live _ _ _ _ Hok h a Hl) as (_ & E & [_ Hp] & _).
  apply valid_even in Hp. apply elem_of_app in Hin as [Hin|Hin].
  - destruct (free_chain_in _ _ _ _ (so_free _ _ _ _ Hok) Hin) as (_ & w & E' & Hw). congruence.
  - destruct (so_pending _ _ _ _ Hok h Hin) as (_ & Hw). rewrite (Hw a E) in Hp. done.
Qed.

(** An object takes a handle that is set aside for it. *)
Lemma put_at_ok s live free pending h a o : store_ok s live free (h :: pending) ->
  heap s !! a = Some o -> pointer a -> (forall h', live !! h' <> Some a) ->
  exists s', put_at s h a = Some s' /\ store_ok s' (<[h := a]> live) free pending /\
    heap s' = <[a := set_handle h o]> (heap s) /\ top s' = top s /\ size s' = size s /\
    NO_REUSE s' = NO_REUSE s /\ live !! h = None /\
    ((forall h', 1 <= h' < top s -> h' <> h -> is_Some (bucket_at s h')) -> initialised s').
Proof.
  intros Hok Ho Ha Hnew. pose proof (so_pending _ _ _ _ Hok h ltac:(by left)) as [Hh _].
  pose proof (so_top _ _ _ _ Hok) as Ht. pose proof (so_size _ _ _ _ Hok) as Hs.
  assert (u32 h = h) as Eh by (unfold u32; rewrite uwrap_small; lia).
  unfold put_at, update_object. rewrite Ho, Eh. cbn [mbind option_bind].
  set (s1 := {| s with heap := <[a := set_handle h o]> (heap s) |}).
  destruct (set_bucket_ok s1 h a (so_array _ _ _ _ Hok) ltac:(cbn; lia))
    as (s' & E & Eb & Eo & Harr & Et & Esz & Ef & Ehp & En & _).
  change (top s1) with (top s) in Et. change (size s1) with (size s) in Esz.
  change (free_list_head s1) with (free_list_head s) in Ef.
  assert (forall j, j <> h -> bucket_at s' j = bucket_at s j) as Eo' by (intros j Hj; by rewrite Eo).
  pose proof (so_nodup _ _ _ _ Hok) as Hnd.
  assert (live !! h = None) as Hnone.
  { destruct (live !! h) eqn:El; [|done]. destruct (live_not_free _ _ _ _ _ _ Hok El).
    apply elem_of_app. right. by left. }
  assert ((h ∉ free) /\ (h ∉ pending)) as [Hnf Hnp].
  { apply NoDup_app in Hnd as (_ & H1 & [H2 _]%NoDup_cons). split; [|done]. intros H. apply (H1 h H); by left. }
  exists s'. split; [done|]. split; [|split_and!; try done].
  2:{ intros Hi h' Hh'. destruct (Z.eq_dec h' h) as [->|Hne]; [by rewrite Eb|]. rewrite Eo' by done.
      apply Hi; [|done]. lia. }
  split; rewrite ?Et, ?Esz, ?Ef; try done.
  - intros h' a' Hl. destruct (Z.eq_dec h' h) as [->|Hne].
    + rewrite lookup_insert_eq in Hl. injection Hl as <-. split; [done|]. split; [done|]. split; [done|].
      exists (set_handle h o). rewrite Ehp. cbn. by rewrite lookup_insert_eq.
    + rewrite lookup_insert_ne in Hl by done. destruct (so_live _ _ _ _ Hok h' a' Hl) as (H1 & H2 & H3 & o' & H4 & H5).
      split; [done|]. rewrite Eo' by done. split; [done|]. split; [done|]. exists o'. rewrite Ehp. cbn.
      rewrite lookup_insert_ne; [done|]. intros ->. by apply (Hnew h').
  - apply (free_chain_ext s); [lia| |apply (so_free _ _ _ _ Hok)]. intros h' Hh'. apply Eo'. by intros ->.
  - intros h' Hh'. destruct (so_pending _ _ _ _ Hok h' ltac:(by right)) as [H1 H2]. split; [done|].
    rewrite Eo' by (by intros ->). done.
  - intros h' Hh'. destruct (Z.eq_dec h' h) as [->|Hne]; [left; by rewrite lookup_insert_eq|].
    rewrite lookup_insert_ne by done.
    destruct (so_parts _ _ _ _ Hok h' Hh') as [?|[?|[?|?]%elem_of_cons]]; [by left|by right; left|done|by right; right].
  - apply NoDup_app in Hnd as (H1 & H2 & [_ H3]%NoDup_cons). apply NoDup_app. split; [done|]. split; [|done].
    intros x Hx Hx'. apply (H2 x Hx). by right.
  - intros i Hi. rewrite Eo' by lia. by apply (so_fresh _ _ _ _ Hok).
Qed.

(** Setting a new handle aside leaves the rest as it was. *)
Lemma open_ok s s1 live free pending h : store_ok s live free pending ->
  array_ok s1 -> heap s1 = heap s -> top s <= h < top s1 -> top s1 <= size s1 -> size s1 < 2 ^ 31 ->
  top s1 = top s + 1 -> free_list_head s1 = free_list_head s ->
  (forall j, 1 <= j < top s -> bucket_at s1 j = bucket_at s j) ->
  (forall j, top s <= j -> bucket_at s1 j = None) ->
  store_ok s1 live free (h :: pending).
Proof.
  intros Hok Harr Hhp Hh Hts Hs Ht Hf Hb Hn. pose proof (so_top _ _ _ _ Hok) as Ht0.
  assert (forall x, x ∈ free ++ pending -> 1 <= x < top s) as Hin.
  { intros x [Hx|Hx]%elem_of_app.
    - apply (free_chain_in _ _ _ _ (so_free _ _ _ _ Hok) Hx).
    - apply (so_pending _ _ _ _ Hok x Hx). }
  split; try done; rewrite ?Hf; try lia.
  - intros h' a Hl. destruct (so_live _ _ _ _ Hok h' a Hl) as (H1 & H2 & H3 & H4). rewrite Hhp, Hb by done.
    split; [lia|]. done.
  - apply (free_chain_ext s); [lia| |apply (so_free _ _ _ _ Hok)]. intros x Hx. apply Hb, Hin.
    apply elem_of_app. by left.
  - intros x [->|Hx]%elem_of_cons; [split; [lia|intros w; by rewrite Hn by lia]|].
    destruct (so_pending _ _ _ _ Hok x Hx) as [H1 H2]. split; [lia|]. by rewrite Hb.
  - intros x Hx. destruct (Z.eq_dec x h) as [->|Hne]; [right; right; by left|].
    destruct (so_parts _ _ _ _ Hok x ltac:(lia)) as [?|[?|?]]; [by left|by right; left|right; right; by right].
  - rewrite <- Permutation_middle. apply NoDup_cons. split; [|apply (so_nodup _ _ _ _ Hok)].
    intros Hx. specialize (Hin h Hx). lia.
  - intros j Hj. apply Hn. lia.
Qed.

(** [zend_objects_store_put] stores the object under a handle that nothing uses, the head of the
    free list if there is one (and reuse is on), the next one of the array otherwise; the array is
    doubled when it is full; every other handle keeps its object and the free list stays a list of
    exactly the free buckets. *)
Theorem zend_objects_store_put_fresh s live free pending a o :
  store_ok s live free pending -> initialised s -> 2 * size s < 2 ^ 31 ->
  heap s !! a = Some o -> pointer a -> (forall h, live !! h <> Some a) ->
  exists s' h free', zend_objects_store_put s a = Some s' /\
    store_ok s' (<[h := a]> live) free' pending /\ initialised s' /\ live !! h = None /\
    heap s' = <[a := set_handle h o]> (heap s) /\
    match free with
    | h0 :: rest => if NO_REUSE s then h = top s /\ free' = free else h = h0 /\ free' = rest
    | [] => h = top s /\ free' = []
    end.
Proof.
  intros Hok Hinit Hsz Ho Ha Hnew. pose proof (so_free _ _ _ _ Hok) as Hf.
  pose proof (so_top _ _ _ _ Hok) as Ht. unfold zend_objects_store_put.
  destruct (so_array _ _ _ _ Hok) as (cells & Ec & El).
  destruct (negb (free_list_head s =? -1) && negb (NO_REUSE s)) eqn:Ereuse.
  - apply andb_prop in Ereuse as [Eh Er]. apply negb_true_iff in Er.
    destruct free as [|h free]; [cbn in Hf; by rewrite Hf in Eh|].
    destruct Hf as (Ehd & Hh & n & Hn & Eb & Hc). rewrite Ehd, Eb. cbn [mbind option_bind].
    rewrite bucket_number_roundtrip by done.
    set (s1 := {| s with free_list_head := n |}).
    assert (store_ok s1 live free (h :: pending)) as Hok1.
    { destruct Hok as [H1 H2 H3 H4 H5 H6 H7 H8]. split; try done.
      - by apply (free_chain_ext s).
      - intros x [->|Hx]%elem_of_cons; [|by apply H6]. split; [done|]. intros w Ew.
        assert (w = SET_OBJ_BUCKET_NUMBER n) as -> by (change (bucket_at s h = Some w) in Ew; congruence).
        by apply bucket_number_invalid.
      - intros x Hx. destruct (H7 x Hx) as [?|[[->|?]%elem_of_cons|?]];
          [by left|right; right; by left|by right; left|right; right; by right].
      - by rewrite <- Permutation_middle. }
    destruct (put_at_ok s1 live free pending h a o Hok1 Ho Ha Hnew) as (s' & -> & H1 & H2 & H3 & H4 & H5 & H6 & H7).
    exists s', h, free. rewrite Er. split_and!; try done. apply H7. intros h' Hh' _. by apply Hinit.
  - assert (match free with h0 :: rest => if NO_REUSE s then top s = top s /\ free = free else top s = h0 /\ free = rest
            | [] => top s = top s /\ free = [] end) as Hres.
    { destruct free as [|h0 rest]; [done|]. destruct Hf as (Ehd & Hh & _).
      rewrite Ehd, (proj2 (Z.eqb_neq _ _)) in Ereuse by lia. by destruct (NO_REUSE s). }
    pose proof (so_size _ _ _ _ Hok) as Hs31.
    assert (i32 (top s) = top s) as Ei by (unfold i32, swrap; Z.to_euclidean_division_equations; lia).
    assert (u32 (top s + 1) = top s + 1) as Eu by (unfold u32; rewrite uwrap_small; lia).
    destruct (Z.eqb_spec (top s) (size s)) as [Efull|Efull].
    + unfold zend_objects_store_put_cold. rewrite Ec. cbn [mbind option_bind top size].
      assert (u32 (2 * size s) = 2 * size s) as -> by (unfold u32; rewrite uwrap_small; lia).
      rewrite Ei, Eu. match goal with |- context [put_at ?t _ _] => set (s1 := t) end.
      assert (forall j, 1 <= j < top s -> bucket_at s1 j = bucket_at s j) as Hsame.
      { intros j Hj. rewrite (bucket_at_cells s cells j Ec).
        rewrite (bucket_at_cells s1 (resize (Z.to_nat (2 * size s)) None cells) j eq_refl).
        unfold aget. rewrite (proj2 (Z.leb_le _ _)) by lia. by rewrite lookup_resize by lia. }
      assert (store_ok s1 live free (top s :: pending)) as Hok1.
      { apply (open_ok s); try done; cbn [s1 top size]; try lia.
        - exists (resize (Z.to_nat (2 * size s)) None cells). split; [done|]. rewrite length_resize. cbn. lia.
        - intros j Hj. rewrite (bucket_at_cells s1 (resize (Z.to_nat (2 * size s)) None cells) j eq_refl).
          unfold aget. rewrite (proj2 (Z.leb_le _ _)) by lia.
          destruct (decide (j < 2 * size s)); [by rewrite lookup_resize_new by lia|].
          by rewrite lookup_resize_old by lia. }
      destruct (put_at_ok s1 live free pending (top s) a o Hok1 Ho Ha Hnew)
        as (s' & -> & H1 & H2 & H3 & H4 & H5 & H6 & H7).
      exists s', (top s), free. split_and!; try done. apply H7. cbn [s1 top]. intros h' Hh' Hne.
      rewrite Hsame by lia. apply Hinit. lia.
    + rewrite Ei, Eu. set (s1 := {| s with top := top s + 1 |}).
      assert (store_ok s1 live free (top s :: pending)) as Hok1.
      { apply (open_ok s); try done; cbn [s1 top size]; try lia; [by exists cells|].
        apply (so_fresh _ _ _ _ Hok). }
      destruct (put_at_ok s1 live free pending (top s) a o Hok1 Ho Ha Hnew)
        as (s' & -> & H1 & H2 & H3 & H4 & H5 & H6 & H7).
      exists s', (top s), free. split_and!; try done. apply H7. cbn [s1 top]. intros h' Hh' Hne.
      apply Hinit. lia.
Qed.

(** ** Releasing *)
Lemma update_object_ok s live free pending a o f : store_ok s live free pending -> initialised s ->
  heap s !! a = Some o -> handle (f o) = handle o ->
  exists s', update_object s a f = Some s' /\ store_ok s' live free pending /\ initialised s' /\
    heap s' = <[a := f o]> (heap s) /\ top s' = top s /\ NO_REUSE s' = NO_REUSE s.
Proof.
  intros [H1 H2 H3 H4 H5 H6 H7 H8 H9] Hi Ho Hf. unfold update_object. rewrite Ho. cbn [mbind option_bind].
  eexists. split; [done|]. split; [|done]. split; try done.
  - intros h a' Hl. destruct (H4 h a' Hl) as (G1 & G2 & G3 & o' & G4 & G5). split_and!; try done; try apply G1.
    cbn [heap]. destruct (Z.eq_dec a a') as [<-|Hne].
    + exists (f o). rewrite lookup_insert_eq. split; [done|]. congruence.
    + exists o'. by rewrite lookup_insert_ne.
  - by apply (free_chain_ext s).
Qed.

(** The invalid bit goes into the bucket of an object that is about to be freed. *)
Lemma invalidate_ok s live free pending h a : store_ok s live free pending -> initialised s ->
  live !! h = Some a ->
  exists s', set_bucket_at s h (SET_OBJ_INVALID a) = Some s' /\
    store_ok s' (delete h live) free (h :: pending) /\ initialised s' /\ heap s' = heap s.
Proof.
  intros Hok Hi Hl. destruct (so_live _ _ _ _ Hok h a Hl) as (Hh & Eb & Hp & _).
  pose proof (live_not_free _ _ _ _ _ _ Hok Hl) as Hnf. pose proof (so_top _ _ _ _ Hok) as Ht.
  destruct (set_bucket_ok s h (SET_OBJ_INVALID a) (so_array _ _ _ _ Hok) ltac:(lia))
    as (s' & E & Eb' & Eo & Harr & Et & Esz & Ef & Ehp & En & _).
  exists s'. split; [done|]. split; [|split; [|done]].
  2:{ intros j Hj. destruct (Z.eq_dec j h) as [->|Hne]; [by rewrite Eb'|]. rewrite Eo by done. apply Hi. lia. }
  destruct Hok as [H1 H2 H3 H4 H5 H6 H7 H8 H9]. split; rewrite ?Et, ?Esz, ?Ef; try done.
  - intros h' a' [Hne Hl']%lookup_delete_Some. rewrite Eo, Ehp by done. by apply H4.
  - apply (free_chain_ext s); [lia| |done]. intros x Hx. apply Eo. intros ->. apply Hnf, elem_of_app. by left.
  - intros x [->|Hx]%elem_of_cons; [split; [done|]|].
    + rewrite Eb'. intros w [= <-]. by apply set_invalid.
    + rewrite Eo by (intros ->; apply Hnf, elem_of_app; by right). by apply H6.
  - intros x Hx. destruct (Z.eq_dec x h) as [->|Hne]; [right; right; by left|].
    rewrite lookup_delete_ne by done. destruct (H7 x Hx) as [?|[?|?]]; [by left|by right; left|right; right; by right].
  - rewrite <- Permutation_middle. by apply NoDup_cons.
  - intros x Hx. rewrite Eo by lia. by apply H9.
Qed.

Lemma add_to_free_list_ok s live free pending h : store_ok s live free (h :: pending) -> initialised s ->
  exists s', ZEND_OBJECTS_STORE_ADD_TO_FREE_LIST s h = Some s' /\ store_ok s' live (h :: free) pending /\
    initialised s' /\ heap s' = heap s /\ free_list_head s' = h.
Proof.
  intros Hok Hi. destruct (so_pending _ _ _ _ Hok h ltac:(by left)) as [Hh Hw].
  pose proof (so_top _ _ _ _ Hok) as Ht. pose proof (so_size _ _ _ _ Hok) as Hs.
  assert (live !! h = None) as Hnone.
  { destruct (live !! h) eqn:El; [|done]. destruct (live_not_free _ _ _ _ _ _ Hok El).
    apply elem_of_app. right. by left. }
  assert (- 1 <= free_list_head s < 2 ^ 31) as Hhd.
  { pose proof (so_free _ _ _ _ Hok) as Hf. destruct free; cbn in Hf; [lia|]. lia. }
  unfold ZEND_OBJECTS_STORE_ADD_TO_FREE_LIST.
  destruct (set_bucket_ok s h (SET_OBJ_BUCKET_NUMBER (free_list_head s)) (so_array _ _ _ _ Hok) ltac:(lia))
    as (s' & -> & Eb' & Eo & Harr & Et & Esz & Ef & Ehp & En & _). cbn [mbind option_bind].
  assert (i32 h = h) as -> by (unfold i32, swrap; Z.to_euclidean_division_equations; lia).
  set (s2 := {| s' with free_list_head := h |}).
  assert (forall x, bucket_at s2 x = bucket_at s' x) as Ex by done.
  eexists. split; [done|]. split; [|split; [|done]].
  2:{ intros j Hj. destruct (Z.eq_dec j h) as [->|Hne]; [by rewrite Ex, Eb'|]. rewrite Ex, Eo by done. apply Hi.
      cbn in Hj. lia. }
  pose proof (so_nodup _ _ _ _ Hok) as Hnd. rewrite <- Permutation_middle in Hnd.
  apply NoDup_cons in Hnd as [Hnin Hnd].
  destruct Hok as [H1 H2 H3 H4 H5 H6 H7 H8 H9].
  split; cbn [s2 top size free_list_head heap]; rewrite ?Et, ?Esz; try done.
  - intros h' a' Hl. rewrite Ex, Ehp, Eo by congruence. by apply H4.
  - split; [done|]. split; [cbn; lia|]. exists (free_list_head s). split; [done|]. split; [done|].
    apply (free_chain_ext s); [cbn; lia| |done]. intros x Hx. rewrite Ex. apply Eo. intros ->.
    apply Hnin, elem_of_app. by left.
  - intros x Hx. rewrite Ex, Eo; [apply H6; by right|]. intros ->. apply Hnin, elem_of_app. by right.
  - intros x Hx. destruct (H7 x Hx) as [?|[?|[->|?]%elem_of_cons]];
      [by left|right; left; by right|right; left; by left|by right; right].
  - cbn. by apply NoDup_cons.
  - intros x Hx. rewrite Ex, Eo by lia. by apply H9.
Qed.

Lemma delete_heap_ok s live free pending a : store_ok s live free pending ->
  (forall h, live !! h <> Some a) -> store_ok {| s with heap := delete a (heap s) |} live free pending.
Proof.
  intros [H1 H2 H3 H4 H5 H6 H7 H8 H9] Hno. split; try done.
  - intros h a' Hl. destruct (H4 h a' Hl) as (G1 & G2 & G3 & o' & G4 & G5). split_and!; try done; try apply G1.
    exists o'. cbn [heap]. rewrite lookup_delete_ne; [done|]. intros ->. by apply (Hno h).
  - by apply (free_chain_ext s).
Qed.

Lemma store_ok_log s live free pending calls : store_ok s live free pending ->
  store_ok {| s with dtor_calls := calls |} live free pending.
Proof. intros [H1 H2 H3 H4 H5 H6 H7 H8 H9]. split; try done. by apply (free_chain_ext s). Qed.

(** What a handler may do: create and release other objects.  It returns, keeps the store in order, and
    does not touch the object it is called for while the caller holds a reference. *)
Definition handler_ok (cb : Z -> store -> option store) : Prop :=
  forall s live free pending a o, store_ok s live free pending -> initialised s ->
    heap s !! a = Some o -> live !! handle o = Some a \/ handle o ∈ pending ->
  exists s' live' free' o', cb a s = Some s' /\ store_ok s' live' free' pending /\ initialised s' /\
    heap s' !! a = Some o' /\ handle o' = handle o /\
    (live !! handle o = Some a -> live' !! handle o = Some a).

Lemma call_dtor_ok dtor_obj s live free pending h a o hold : handler_ok dtor_obj ->
  store_ok s live free pending -> initialised s -> live !! h = Some a -> heap s !! a = Some o ->
  handle o = h -> (forall o, handle (hold o) = handle o) ->
  exists s' live' free' o', call_dtor dtor_obj s a hold = Some s' /\ store_ok s' live' free' pending /\
    initialised s' /\ live' !! h = Some a /\ heap s' !! a = Some o' /\ handle o' = h.
Proof.
  intros Hcb Hok Hi Hl Ho Hh Hhold. unfold call_dtor. rewrite Ho. cbn [mbind option_bind].
  destruct (IS_OBJ_DESTRUCTOR_CALLED o); [by exists s, live, free, o|].
  destruct (update_object_ok s live free pending a o destructor_called Hok Hi Ho eq_refl)
    as (s1 & -> & Hok1 & Hi1 & Ehp1 & _). cbn [mbind option_bind].
  assert (heap s1 !! a = Some (destructor_called o)) as Ho1 by (by rewrite Ehp1, lookup_insert_eq).
  destruct (std_dtor o); [by exists s1, live, free, (destructor_called o)|].
  destruct (update_object_ok s1 live free pending a _ hold Hok1 Hi1 Ho1 (Hhold _))
    as (s2 & -> & Hok2 & Hi2 & Ehp2 & _). cbn [mbind option_bind].
  assert (heap s2 !! a = Some (hold (destructor_called o))) as Ho2 by (by rewrite Ehp2, lookup_insert_eq).
  assert (handle (hold (destructor_called o)) = h) as Eh by (by rewrite Hhold).
  unfold run_dtor. rewrite Ho2. cbn [mbind option_bind]. set (s2' := {| s2 with dtor_calls := _ |}).
  destruct (Hcb s2' live free pending a _ (store_ok_log s2 _ _ _ _ Hok2) Hi2 Ho2) as (s3 & live3 & free3 & o3 & -> & Hok3 & Hi3 & Ho3 & Eh3 & Hl3);
    [left; by rewrite Eh|]. cbn [mbind option_bind]. rewrite Eh in Eh3, Hl3.
  destruct (update_object_ok s3 live3 free3 pending a _ delref Hok3 Hi3 Ho3 eq_refl)
    as (s4 & -> & Hok4 & Hi4 & Ehp4 & _).
  exists s4, live3, free3, (delref o3). split; [done|]. split; [done|]. split; [done|].
  split; [by apply Hl3|]. rewrite Ehp4, lookup_insert_eq. done.
Qed.

(** Releasing an object whose last reference is gone calls its destructor; if that stored the
    object somewhere it stays, under its handle, and otherwise it is freed and its handle becomes the
    head of the free list.  Either way the store stays in order, whatever objects the handlers create
    and release on the way. *)
Theorem zend_objects_store_del_releases dtor_obj free_obj s live free pending h a o :
  handler_ok dtor_obj -> handler_ok free_obj ->
  store_ok s live free pending -> initialised s -> live !! h = Some a -> heap s !! a = Some o ->
  released o = false ->
  exists s' live' free', zend_objects_store_del dtor_obj free_obj s a = Some s' /\
    store_ok s' live' free' pending /\ initialised s' /\
    ((live' !! h = Some a /\ exists o', heap s' !! a = Some o' /\ refcount o' <> 0) \/
     (live' !! h = None /\ heap s' !! a = None /\ free_list_head s' = h)).
Proof.
  intros Hd Hf Hok Hi Hl Ho Hr. unfold zend_objects_store_del. rewrite Ho. cbn [mbind option_bind]. rewrite Hr.
  destruct (so_live _ _ _ _ Hok h a Hl) as (_ & _ & _ & o0 & Ho0 & Hh). rewrite Ho in Ho0. injection Ho0 as <-.
  destruct (call_dtor_ok dtor_obj s live free pending h a o (set_refcount 1) Hd Hok Hi Hl Ho Hh (fun _ => eq_refl))
    as (s1 & live1 & free1 & o1 & -> & Hok1 & Hi1 & Hl1 & Ho1 & Hh1). cbn [mbind option_bind]. rewrite Ho1.
  cbn [mbind option_bind]. destruct (Z.eqb_spec (refcount o1) 0) as [H0|H0]; cbn [negb].
  2:{ exists s1, live1, free1. split_and!; try done. left. split; [done|]. by exists o1. }
  rewrite Hh1. destruct (invalidate_ok s1 live1 free1 pending h a Hok1 Hi1 Hl1)
    as (s2 & -> & Hok2 & Hi2 & Ehp2). cbn [mbind option_bind]. rewrite <- Ehp2 in Ho1.
  assert (exists s3 live3 free3 o3, (if IS_OBJ_FREE_CALLED o1 then Some s2
    else s ← update_object s2 a free_called; s ← update_object s a (set_refcount 1); free_obj a s) = Some s3 /\
    store_ok s3 live3 free3 (h :: pending) /\ initialised s3 /\ heap s3 !! a = Some o3 /\ handle o3 = h) as H3.
  { destruct (IS_OBJ_FREE_CALLED o1); [by exists s2, (delete h live1), free1, o1|].
    destruct (update_object_ok s2 _ _ _ a o1 free_called Hok2 Hi2 Ho1 eq_refl) as (sa & -> & Ha1 & Ha2 & Ha3 & _).
    cbn [mbind option_bind]. assert (heap sa !! a = Some (free_called o1)) as Ha4 by (by rewrite Ha3, lookup_insert_eq).
    destruct (update_object_ok sa _ _ _ a _ (set_refcount 1) Ha1 Ha2 Ha4 eq_refl) as (sb & -> & Hb1 & Hb2 & Hb3 & _).
    cbn [mbind option_bind].
    assert (heap sb !! a = Some (set_refcount 1 (free_called o1))) as Hb4 by (by rewrite Hb3, lookup_insert_eq).
    destruct (Hf sb _ _ _ a _ Hb1 Hb2 Hb4) as (s3 & live3 & free3 & o3 & E & H3 & H4 & H5 & H6 & _).
    { right. cbn. rewrite Hh1. by left. }
    exists s3, live3, free3, o3. split_and!; try done. by rewrite H6. }
  destruct H3 as (s3 & live3 & free3 & o3 & -> & Hok3 & Hi3 & Ho3 & Hh3). cbn [mbind option_bind].
  assert (live3 !! h = None) as Hnone.
  { destruct (live3 !! h) eqn:El; [|done]. destruct (live_not_free _ _ _ _ _ _ Hok3 El).
    apply elem_of_app. right. by left. }
  assert (forall h', live3 !! h' <> Some a) as Hno.
  { intros h' El. destruct (so_live _ _ _ _ Hok3 h' a El) as (_ & _ & _ & o' & Ho' & Hh').
    rewrite Ho3 in Ho'. injection Ho' as <-. congruence. }
  destruct (add_to_free_list_ok _ live3 free3 pending h (delete_heap_ok _ _ _ _ a Hok3 Hno) Hi3)
    as (s4 & E4 & Hok4 & Hi4 & Ehp4 & Ehd).
  exists s4, live3, (h :: free3). split_and!; try done. right. split_and!; try done.
  rewrite Ehp4. cbn [heap]. by rewrite lookup_delete_eq.
Qed.

(** ** Shutdown *)

(** The object in the bucket of handle [h]. *)
Definition stored s h a o : Prop := bucket_at s h = Some a /\ IS_OBJ_VALID a = true /\ heap s !! a = Some o.

(** Every object with a handle below [i] is marked. *)
Definition destructed s i : Prop := forall h a o, 1 <= h < i -> stored s h a o -> IS_OBJ_DESTRUCTOR_CALLED o = true.

Section Accounts.
(** [excused]: the handles of objects that something else marks, the flag being set when the shutdown
    starts or the constructor having failed; [owed]: those that have a destructor to come;
    [log]: the calls before. *)
Context (excused owed : Z -> Prop) (log : list Z).

(** The marks of the objects agree with the calls recorded since [log]. *)
Record accounts s (calls : list Z) : Prop := {
  ac_log : dtor_calls s = log ++ calls;
  ac_nodup : NoDup calls;
  ac_called : forall h, h ∈ calls -> 1 <= h < top s /\ ~ excused h /\
    forall a o, stored s h a o -> std_dtor o = false;
  ac_marked : forall h a o, 1 <= h < top s -> h ∈ calls \/ excused h -> stored s h a o ->
    IS_OBJ_DESTRUCTOR_CALLED o = true;
  ac_mark : forall h a o, 1 <= h < top s -> stored s h a o -> IS_OBJ_DESTRUCTOR_CALLED o = true ->
    std_dtor o = true \/ h ∈ calls \/ excused h;
  ac_owed : forall h, owed h -> 1 <= h < top s /\ ~ excused h /\
    (h ∈ calls \/ exists a o, stored s h a o /\ std_dtor o = false) }.

Definition accounted s : Prop := exists calls, accounts s calls.

Lemma accounts_start s : dtor_calls s = log ->
  (forall h a o, 1 <= h < top s -> stored s h a o -> IS_OBJ_DESTRUCTOR_CALLED o = true <-> excused h) ->
  (forall h, owed h -> exists a o, 1 <= h < top s /\ stored s h a o /\ std_dtor o = false /\ ~ excused h) ->
  accounts s [].
Proof.
  intros El Hex How. split.
  - by rewrite app_nil_r.
  - apply NoDup_nil_2.
  - by intros h Hh%elem_of_nil.
  - intros h a o Hh [Hc%elem_of_nil|He] Hs; [done|]. by apply (Hex h a o).
  - intros h a o Hh Hs Hf. right. right. by apply (Hex h a o).
  - intros h (a & o & Hh & Hs & Hsd & He)%How. split; [done|]. split; [done|]. right. by exists a, o.
Qed.

(** A change of one object: its mark stays, or is set with nothing to call, or is set and the call recorded. *)
Definition step_of o o' (h : Z) (new : list Z) : Prop :=
  (new = [] /\ (IS_OBJ_DESTRUCTOR_CALLED o' = IS_OBJ_DESTRUCTOR_CALLED o \/
    std_dtor o = true /\ IS_OBJ_DESTRUCTOR_CALLED o' = true)) \/
  (new = [h] /\ IS_OBJ_DESTRUCTOR_CALLED o = false /\ std_dtor o = false /\
    IS_OBJ_DESTRUCTOR_CALLED o' = true).

Lemma stored_step s s' h a o o' : stored s h a o -> (forall j, bucket_at s' j = bucket_at s j) ->
  heap s' = <[a := o']> (heap s) -> (forall j o1, 1 <= j < top s -> stored s j a o1 -> j = h) ->
  forall j w oj, 1 <= j < top s -> stored s' j w oj -> (j = h /\ w = a /\ oj = o') \/ (j <> h /\ w <> a /\ stored s j w oj).
Proof.
  intros (Hb & Hv & Ho) Eb Eh Hone j w oj Hj (Hw & Hvw & Hoj). rewrite Eb in Hw. rewrite Eh in Hoj.
  destruct (Z.eq_dec a w) as [<-|Hne].
  - left. rewrite lookup_insert_eq in Hoj. injection Hoj as <-. split; [|done]. by apply (Hone j o).
  - right. rewrite lookup_insert_ne in Hoj by done. split; [|done]. intros ->. congruence.
Qed.

Lemma accounts_step s s' h a o o' calls new : accounts s calls -> 1 <= h < top s -> stored s h a o ->
  (forall j, bucket_at s' j = bucket_at s j) -> heap s' = <[a := o']> (heap s) -> top s' = top s ->
  (forall j o1, 1 <= j < top s -> stored s j a o1 -> j = h) ->
  dtor_calls s' = dtor_calls s ++ new -> std_dtor o' = std_dtor o -> step_of o o' h new ->
  accounts s' (calls ++ new).
Proof.
  intros [A1 A2 A3 A4 A5 A6] Hh Hs Eb Eh Et Hone El Es Hstep.
  pose proof (stored_step s s' h a o o' Hs Eb Eh Hone) as Hst. pose proof Hs as (Hb & Hv & Ho).
  assert (new = [h] -> (h ∉ calls) /\ ~ excused h) as Hfresh.
  { intros ->. destruct Hstep as [[? _]|(_ & Ef & _ & _)]; [done|].
    split; intros H; (assert (IS_OBJ_DESTRUCTOR_CALLED o = true) by (apply (A4 h a o Hh); auto)); congruence. }
  assert (forall j, j ∈ calls ++ new <-> j ∈ calls \/ (new = [h] /\ j = h)) as Hin.
  { intros j. rewrite elem_of_app. clear -Hstep. destruct Hstep as [[-> _]|[-> _]].
    - rewrite elem_of_nil. split; [intros [?|[]]; by left|intros [?|[? _]]; [by left|done]].
    - rewrite list_elem_of_singleton. split; [intros [?|?]; auto|intros [?|[_ ?]]; auto]. }
  split; rewrite ?Et; try done.
  - by rewrite El, A1, app_assoc.
  - destruct Hstep as [[-> _]|[-> _]]; [by rewrite app_nil_r|]. apply NoDup_app. split; [done|].
    split; [|by apply NoDup_singleton]. intros j Hj ->%list_elem_of_singleton. by destruct (Hfresh eq_refl).
  - intros j Hj%Hin. assert (1 <= j < top s /\ ~ excused j) as [Hjt Hje].
    { destruct Hj as [Hj|[E ->]]; [by destruct (A3 j Hj) as (? & ? & _)|]. split; [done|]. by destruct (Hfresh E). }
    split; [done|]. split; [done|]. intros w oj Hsj. destruct (Hst j w oj Hjt Hsj) as [(-> & -> & ->)|(Hne & _ & Hs0)].
    + rewrite Es. destruct Hj as [Hj|[E _]]; [by apply (A3 h Hj) with a|]. by destruct Hstep as [[-> _]|(_ & _ & ? & _)].
    + destruct Hj as [Hj|[_ ->]]; [by apply (A3 j Hj) with w|done].
  - intros j w oj Hj Hjc Hsj. destruct (Hst j w oj Hj Hsj) as [(-> & -> & ->)|(Hne & _ & Hs0)].
    + destruct Hstep as [[-> [Ef|[_ Ef]]]|(-> & _ & _ & Ef)]; [|done|done]. rewrite app_nil_r in Hjc. rewrite Ef.
      by apply (A4 h a).
    + apply (A4 j w oj Hj); [|done]. destruct Hjc as [[?|[_ ->]]%Hin|?]; [by left|done|by right].
  - intros j w oj Hj Hsj Hf. destruct (Hst j w oj Hj Hsj) as [(-> & -> & ->)|(Hne & _ & Hs0)].
    + rewrite Es. destruct Hstep as [[-> [Ef|[E _]]]|(-> & _)]; [|by left|].
      * rewrite app_nil_r. apply (A5 h a); [done|done|congruence].
      * right. left. apply elem_of_app. right. by left.
    + destruct (A5 j w oj Hj Hs0 Hf) as [?|[?|?]]; [by left|right; left; apply elem_of_app; by left|by right; right].
  - intros j Hj. destruct (A6 j Hj) as (H1 & H2 & H3). split; [done|]. split; [done|].
    destruct H3 as [H3|(w & oj & (Hb' & Hv' & Ho') & Hsd)]; [left; apply elem_of_app; by left|right].
    destruct (Z.eq_dec a w) as [<-|Hne].
    + exists a, o'. unfold stored. rewrite Eb, Eh, lookup_insert_eq. split; [done|]. congruence.
    + exists w, oj. unfold stored. rewrite Eb, Eh, lookup_insert_ne by done. done.
Qed.

(** A destructor during shutdown: handles are not reused, so what it creates comes after everything
    that is there; it does not touch the marks of its own object, which the caller has set; the
    destructors it causes to be called are called for unmarked objects, which are marked first; and the
    script does not create more than [N] handles. *)
Definition shutdown_step (N : Z) (cb : Z -> store -> option store) : Prop :=
  forall s live free a o, store_ok s live free [] -> initialised s -> NO_REUSE s = true -> top s <= N ->
    heap s !! a = Some o -> live !! handle o = Some a ->
  exists s' live' free' o', cb a s = Some s' /\ store_ok s' live' free' [] /\ initialised s' /\
    NO_REUSE s' = true /\ top s <= top s' <= N /\ heap s' !! a = Some o' /\ handle o' = handle o /\
    IS_OBJ_DESTRUCTOR_CALLED o' = IS_OBJ_DESTRUCTOR_CALLED o /\ std_dtor o' = std_dtor o /\
    live' !! handle o = Some a /\
    (forall i, i <= top s -> destructed s i -> destructed s' i) /\ (accounted s -> accounted s').
End Accounts.

(** [excused] says which of the objects that the script creates are marked without a call; the law
    holds from any record of calls on. *)
Definition shutdown_handler (excused : Z -> Prop) (N : Z) (cb : Z -> store -> option store) : Prop :=
  forall owed log, shutdown_step excused owed log N cb.

(** A valid bucket holds the object of its handle, and no other handle has that object. *)
Lemma valid_live s live free h w : store_ok s live free [] -> 1 <= h < top s -> bucket_at s h = Some w ->
  IS_OBJ_VALID w = true -> live !! h = Some w.
Proof.
  intros Hok Hh Hw Ev. destruct (so_parts _ _ _ _ Hok h Hh) as [[a Ha]|[Hin|Hin%elem_of_nil]]; [| |done].
  - destruct (so_live _ _ _ _ Hok h a Ha) as (_ & Eb & _). congruence.
  - destruct (free_chain_in _ _ _ _ (so_free _ _ _ _ Hok) Hin) as (_ & w' & Ew & Hw'). congruence.
Qed.

Lemma live_stored s live free h a : store_ok s live free [] -> live !! h = Some a ->
  exists o, stored s h a o /\ handle o = h /\ 1 <= h < top s /\
    forall j o1, 1 <= j < top s -> stored s j a o1 -> j = h.
Proof.
  intros Hok Hl. destruct (so_live _ _ _ _ Hok h a Hl) as (Hh & Eb & [_ Hp] & o & Ho & Eh).
  exists o. split; [by rewrite <- valid_even in Hp|]. split; [done|]. split; [done|].
  intros j o1 Hj (Hb & Hv & _). pose proof (valid_live s live free j a Hok Hj Hb Hv) as Hlj.
  destruct (so_live _ _ _ _ Hok j a Hlj) as (_ & _ & _ & o' & Ho' & <-). congruence.
Qed.

Lemma update_object_eq s s' a o f : heap s !! a = Some o -> update_object s a f = Some s' ->
  (forall j, bucket_at s' j = bucket_at s j) /\ dtor_calls s' = dtor_calls s /\ heap s' = <[a := f o]> (heap s).
Proof. unfold update_object. intros ->. by intros [= <-]. Qed.

(** Marking the object of [h] is what the round at [h] is for. *)
Lemma destructed_next s s' h a o o' : destructed s h -> 1 <= h < top s -> stored s h a o ->
  (forall j, bucket_at s' j = bucket_at s j) -> heap s' = <[a := o']> (heap s) ->
  (forall j o1, 1 <= j < top s -> stored s j a o1 -> j = h) ->
  IS_OBJ_DESTRUCTOR_CALLED o' = true -> destructed s' (h + 1).
Proof.
  intros Hd Hh Hs Eb Eh Hone Hf j w oj Hj Hsj.
  destruct (stored_step s s' h a o o' Hs Eb Eh Hone j w oj ltac:(lia) Hsj) as [(_ & _ & ->)|(Hne & _ & Hs0)]; [done|].
  apply (Hd j w); [lia|done].
Qed.

(** The state a destructor runs in: the object marked, held and its call recorded. *)
Lemma call_dtor_runs dtor_obj s live free h a o : store_ok s live free [] -> initialised s ->
  stored s h a o -> handle o = h -> IS_OBJ_DESTRUCTOR_CALLED o = false -> std_dtor o = false ->
  exists s1, call_dtor dtor_obj s a addref = (s ← dtor_obj a s1; update_object s a delref) /\
    store_ok s1 live free [] /\ initialised s1 /\ NO_REUSE s1 = NO_REUSE s /\ top s1 = top s /\
    (forall j, bucket_at s1 j = bucket_at s j) /\
    heap s1 = <[a := addref (destructor_called o)]> (heap s) /\ dtor_calls s1 = dtor_calls s ++ [h].
Proof.
  intros Hok Hi (_ & _ & Ho) Eh Ef Es. unfold call_dtor. rewrite Ho. cbn [mbind option_bind]. rewrite Ef.
  destruct (update_object_ok s live free [] a o destructor_called Hok Hi Ho eq_refl)
    as (s1 & E1 & Hok1 & Hi1 & Ehp1 & Et1 & En1). rewrite E1. cbn [mbind option_bind]. rewrite Es.
  assert (heap s1 !! a = Some (destructor_called o)) as Ho1 by (by rewrite Ehp1, lookup_insert_eq).
  destruct (update_object_ok s1 live free [] a _ addref Hok1 Hi1 Ho1 eq_refl)
    as (s2 & E2 & Hok2 & Hi2 & Ehp2 & Et2 & En2). rewrite E2. cbn [mbind option_bind].
  destruct (update_object_eq _ _ _ _ _ Ho E1) as (Eb1 & El1 & _).
  destruct (update_object_eq _ _ _ _ _ Ho1 E2) as (Eb2 & El2 & _).
  assert (heap s2 !! a = Some (addref (destructor_called o))) as Ho2 by (by rewrite Ehp2, lookup_insert_eq).
  unfold run_dtor. rewrite Ho2. cbn [mbind option_bind addref destructor_called handle].
  eexists. split; [done|]. split; [by apply store_ok_log|]. split; [done|]. split; [cbn; congruence|].
  split; [cbn; congruence|]. split; [intros j; change (bucket_at s2 j = bucket_at s j); congruence|].
  split; [|cbn; congruence]. cbn [heap]. by rewrite Ehp2, Ehp1, insert_insert_eq.
Qed.

Section Rounds.
Context (excused owed : Z -> Prop) (log : list Z) (N : Z) (dtor_obj : Z -> store -> option store).
Hypothesis Hcb : shutdown_step excused owed log N dtor_obj.

(** One round of the loop, at a valid bucket. *)
Lemma shutdown_round s live free h a : store_ok s live free [] -> initialised s -> NO_REUSE s = true ->
  top s <= N -> live !! h = Some a -> destructed s h -> accounted excused owed log s ->
  exists s' live' free', call_dtor dtor_obj s a addref = Some s' /\ store_ok s' live' free' [] /\
    initialised s' /\ NO_REUSE s' = true /\ top s <= top s' <= N /\ destructed s' (h + 1) /\
    accounted excused owed log s'.
Proof.
  intros Hok Hi Hn HN Hl Hd [calls Ha]. destruct (live_stored s live free h a Hok Hl) as (o & Hs & Eh & Hh & Hone).
  pose proof Hs as (_ & _ & Ho). destruct (IS_OBJ_DESTRUCTOR_CALLED o) eqn:Ef; [|destruct (std_dtor o) eqn:Es].
  - exists s, live, free. unfold call_dtor. rewrite Ho. cbn [mbind option_bind]. rewrite Ef. split_and!; try done; try lia.
    + apply (destructed_next s s h a o o); try done. by rewrite insert_id.
    + by exists calls.
  - unfold call_dtor. rewrite Ho. cbn [mbind option_bind]. rewrite Ef.
    destruct (update_object_ok s live free [] a o destructor_called Hok Hi Ho eq_refl)
      as (s1 & E1 & Hok1 & Hi1 & Ehp1 & Et1 & En1). rewrite E1. cbn [mbind option_bind]. rewrite Es.
    destruct (update_object_eq _ _ _ _ _ Ho E1) as (Eb1 & El1 & _).
    exists s1, live, free. split_and!; try done; try congruence; try lia.
    + by apply (destructed_next s s1 h a o (destructor_called o)).
    + exists (calls ++ []). apply (accounts_step excused owed log s s1 h a o (destructor_called o)); try done; [by rewrite app_nil_r|].
      left. split; [done|]. by right.
  - destruct (call_dtor_runs dtor_obj s live free h a o Hok Hi Hs Eh Ef Es)
      as (s1 & -> & Hok1 & Hi1 & En1 & Et1 & Eb1 & Ehp1 & El1).
    set (o1 := addref (destructor_called o)) in *.
    assert (heap s1 !! a = Some o1) as Ho1 by (by rewrite Ehp1, lookup_insert_eq).
    destruct (Hcb s1 live free a o1 Hok1 Hi1) as (s2 & live2 & free2 & o2 & -> & Hok2 & Hi2 & En2 & Et2 & Ho2 & Eh2 & Ef2 & Es2 & Hl2 & Hd2 & Ha2);
      [congruence|lia|done|cbn; by rewrite Eh|]. cbn [mbind option_bind]. cbn [o1 addref destructor_called handle] in Hl2. rewrite Eh in Hl2.
    destruct Ha2 as [calls2 Ha2].
    { exists (calls ++ [h]). apply (accounts_step excused owed log s s1 h a o o1); try done. by right. }
    assert (destructed s2 (h + 1)) as Hd2'.
    { apply Hd2; [lia|]. by apply (destructed_next s s1 h a o o1). }
    destruct (live_stored s2 live2 free2 h a Hok2 Hl2) as (o2' & Hs2 & _ & Hh2 & Hone2).
    assert (o2' = o2) as -> by (destruct Hs2 as (_ & _ & E); congruence).
    destruct (update_object_ok s2 live2 free2 [] a o2 delref Hok2 Hi2 Ho2 eq_refl)
      as (s3 & E3 & Hok3 & Hi3 & Ehp3 & Et3 & En3). rewrite E3.
    destruct (update_object_eq _ _ _ _ _ Ho2 E3) as (Eb3 & El3 & _).
    exists s3, live2, free2. split_and!; try done; try congruence; try lia.
    + apply (destructed_next s2 s3 h a o2 (delref o2)); try done.
      intros j w oj Hj Hsj. apply (Hd2' j w); [lia|done].
    + exists (calls2 ++ []). apply (accounts_step excused owed log s2 s3 h a o2 (delref o2)); try done; [by rewrite app_nil_r|].
      left. split; [done|]. by left.
Qed.

Lemma shutdown_loop fuel : forall s live free i, store_ok s live free [] -> initialised s ->
  NO_REUSE s = true -> 1 <= i <= top s -> top s <= N -> destructed s i -> accounted excused owed log s ->
  (Z.to_nat (N - i) < fuel)%nat ->
  exists s', call_destructors_loop dtor_obj fuel s i = Some s' /\ destructed s' (top s') /\
    accounted excused owed log s'.
Proof.
  induction fuel as [|fuel IH]; intros s live free i Hok Hi Hn Hit HN Hd Ha Hf; [lia|].
  cbn [call_destructors_loop]. destruct (Z.ltb_spec i (top s)) as [Hlt|Hge]; cbn [negb].
  2:{ exists s. split; [done|]. split; [|done]. by replace (top s) with i by lia. }
  destruct (Hi i ltac:(lia)) as [w Hw]. rewrite Hw. cbn [mbind option_bind].
  destruct (IS_OBJ_VALID w) eqn:Ev.
  - pose proof (valid_live s live free i w Hok ltac:(lia) Hw Ev) as Hl.
    destruct (shutdown_round s live free i w Hok Hi Hn HN Hl Hd Ha)
      as (s1 & live1 & free1 & -> & Hok1 & Hi1 & Hn1 & Ht1 & Hd1 & Ha1). cbn [mbind option_bind].
    apply (IH s1 live1 free1 (i + 1)); try done; lia.
  - cbn [mbind option_bind]. apply (IH s live free (i + 1)); try done; try lia.
    intros j a o Hj Hs. pose proof Hs as (Hb & Hv & _). destruct (Z.eq_dec j i) as [->|Hne]; [congruence|].
    apply (Hd j a o); [lia|done].
Qed.
End Rounds.

End Invariant.

(** ** Witnesses *)
Definition ex_object (h : Z) : zend_object :=
  {| handle := h; refcount := 0; IS_OBJ_DESTRUCTOR_CALLED := false; IS_OBJ_FREE_CALLED := false;
     released := false; std_dtor := false; std_free := false |}.

(** Two objects, and handle 3 free. *)
Definition ex_store : store :=
  {| object_buckets := Some [Some 0; Some 16; Some 32; Some (SET_OBJ_BUCKET_NUMBER (-1)); None; None; None; None];
     top := 4; size := 8; free_list_head := 3;
     heap := {[16 := ex_object 1; 32 := ex_object 2; 48 := ex_object 0]}; NO_REUSE := false; dtor_calls := [] |}.

Definition ex_live : gmap Z Z := {[1 := 16; 2 := 32]}.

Lemma ex_store_ok : store_ok ex_store ex_live [3] [].
Proof.
  split; try done.
  - by eexists.
  - intros h a. unfold ex_live. rewrite lookup_insert_Some, lookup_singleton_Some.
    intros [[<- <-]|[_ [<- <-]]]; (split; [done|]); (split; [done|]); (split; [done|]).
    + by exists (ex_object 1).
    + by exists (ex_object 2).
  - split; [done|]. split; [done|]. by exists (-1).
  - intros h Hh%elem_of_nil. done.
  - intros h Hh. cbn in Hh. assert (h = 1 \/ h = 2 \/ h = 3) as [->|[->| ->]] by lia; [left|left|right; left].
    1, 2: vm_compute; by eexists.
    by left.
  - repeat constructor. apply not_elem_of_nil.
  - intros i Hi. cbn in Hi. unfold bucket_at. cbn [ex_store object_buckets mbind option_bind].
    destruct (aget _ i) as [c|] eqn:E; [|done]. apply aget_Some in E as Hlt. cbn in Hlt.
    assert (i = 4 \/ i = 5 \/ i = 6 \/ i = 7) as [->|[->|[->| ->]]] by lia; vm_compute in E; by injection E as <-.
Qed.

Lemma ex_store_initialised : initialised ex_store.
Proof.
  intros h Hh. cbn in Hh. assert (h = 1 \/ h = 2 \/ h = 3) as [->|[->| ->]] by lia; vm_compute; by eexists.
Qed.

(** A destructor that stores a reference to its object, and one that does nothing. *)
Definition resurrect (a : Z) (s : store) : option store := update_object s a addref.
Definition nothing (a : Z) (s : store) : option store := Some s.

Lemma resurrect_ok : handler_ok resurrect.
Proof.
  intros s live free pending a o Hok Hi Ho _.
  destruct (update_object_ok s live free pending a o addref Hok Hi Ho eq_refl) as (s' & E & H1 & H2 & H3 & _).
  exists s', live, free, (addref o). split_and!; try done. by rewrite H3, lookup_insert_eq.
Qed.

Lemma nothing_ok : handler_ok nothing.
Proof. intros s live free pending a o Hok Hi Ho _. exists s, live, free, o. by split_and!. Qed.

(** A destructor that creates an object: the first time it is called for the object at 16 it
    allocates one at 64, which has a destructor too. *)
Definition spawn (a : Z) (s : store) : option store :=
  if (a =? 16) && NO_REUSE s && bool_decide (heap s !! 64 = None) && (top s <? Z.min 8 (size s)) then
    zend_objects_store_put {| s with heap := <[64 := ex_object 0]> (heap s) |} 64
  else Some s.

Lemma put_at_log s h a s' : put_at s h a = Some s' -> dtor_calls s' = dtor_calls s.
Proof.
  unfold put_at, update_object, set_bucket_at. destruct (heap s !! a); [|done]. cbn [mbind option_bind object_buckets].
  destruct (object_buckets s) as [cells|]; [|done]. cbn [mbind option_bind].
  destruct (aset cells h (Some a)); [|done]. by intros [= <-].
Qed.

(** Without reuse of handles and with room in the array, an object takes the next handle. *)
Lemma put_next_ok s live free a o : store_ok s live free [] -> initialised s -> NO_REUSE s = true ->
  top s < size s -> heap s !! a = Some o -> pointer a -> (forall h, live !! h <> Some a) ->
  exists s', zend_objects_store_put s a = Some s' /\ store_ok s' (<[top s := a]> live) free [] /\
    initialised s' /\ heap s' = <[a := set_handle (top s) o]> (heap s) /\ top s' = top s + 1 /\
    NO_REUSE s' = true /\ dtor_calls s' = dtor_calls s /\ live !! top s = None.
Proof.
  intros Hok Hi Hn Hlt Ho Ha Hnew. pose proof (so_size _ _ _ _ Hok) as Hs. pose proof (so_top _ _ _ _ Hok) as Ht.
  unfold zend_objects_store_put. rewrite (proj2 (Z.eqb_neq (top s) _)) by lia.
  assert (negb (free_list_head s =? -1) && negb (NO_REUSE s) = false) as -> by (rewrite Hn; apply andb_false_r).
  assert (i32 (top s) = top s) as -> by (unfold i32, swrap; Z.to_euclidean_division_equations; lia).
  assert (u32 (top s + 1) = top s + 1) as -> by (unfold u32; rewrite uwrap_small; lia).
  set (s1 := {| s with top := top s + 1 |}).
  assert (store_ok s1 live free (top s :: [])) as Hok1.
  { apply (open_ok s); try done; cbn [s1 top size]; try lia; [apply (so_array _ _ _ _ Hok)|].
    apply (so_fresh _ _ _ _ Hok). }
  destruct (put_at_ok s1 live free [] (top s) a o Hok1 Ho Ha Hnew) as (s' & E & H1 & H2 & H3 & H4 & H5 & H6 & H7).
  exists s'. split; [done|]. split; [done|]. split; [|split_and!; try done; [by rewrite H5|by apply put_at_log in E]].
  apply H7. cbn [s1 top]. intros h' Hh' Hne. apply Hi. lia.
Qed.

(** A new, unmarked object leaves the accounts as they are. *)
Lemma accounted_put owed log s live free s' free' a o : accounted (fun _ => False) owed log s ->
  store_ok s live free [] -> store_ok s' (<[top s := a]> live) free' [] ->
  live !! top s = None -> (forall h, live !! h <> Some a) ->
  heap s' = <[a := o]> (heap s) -> IS_OBJ_DESTRUCTOR_CALLED o = false -> top s' = top s + 1 ->
  dtor_calls s' = dtor_calls s ->
  accounted (fun _ => False) owed log s' /\ forall i, i <= top s -> destructed s i -> destructed s' i.
Proof.
  intros [calls [A1 A2 A3 A4 A5 A6]] Hok Hok' Hnone Hnew Eh Ef Et El.
  assert (forall h w ow, 1 <= h < top s' -> stored s' h w ow -> h = top s /\ ow = o \/ 1 <= h < top s /\ stored s h w ow) as Hback.
  { intros h w ow Hh (Hb & Hv & Ho). pose proof (valid_live s' _ _ h w Hok' Hh Hb Hv) as Hl.
    destruct (Z.eq_dec h (top s)) as [->|Hne].
    - left. rewrite lookup_insert_eq in Hl. injection Hl as <-. rewrite Eh, lookup_insert_eq in Ho. by injection Ho as <-.
    - right. rewrite lookup_insert_ne in Hl by done. destruct (so_live _ _ _ _ Hok h w Hl) as (Hh' & Hb' & _).
      split; [done|]. split; [done|]. split; [done|]. rewrite Eh, lookup_insert_ne in Ho; [done|]. intros ->. by apply (Hnew h). }
  assert (forall h w ow, 1 <= h < top s -> stored s h w ow -> stored s' h w ow) as Hforth.
  { intros h w ow Hh (Hb & Hv & Ho). pose proof (valid_live s _ _ h w Hok Hh Hb Hv) as Hl.
    destruct (so_live _ _ _ _ Hok' h w) as (_ & Hb' & _); [by rewrite lookup_insert_ne by lia|].
    split; [done|]. split; [done|]. rewrite Eh, lookup_insert_ne; [done|]. intros ->. by apply (Hnew h). }
  split.
  2:{ intros i Hi Hd h w ow Hh Hs. destruct (Z.lt_ge_cases h (top s')) as [Hlt|Hge]; [|lia].
      destruct (Hback h w ow ltac:(lia) Hs) as [[? _]|[_ Hs']]; [lia|]. by apply (Hd h w). }
  exists calls. split; rewrite ?Et, ?El; try done.
  - intros h Hc. destruct (A3 h Hc) as (Hh & He & Hsd). split; [lia|]. split; [done|]. intros w ow Hs.
    destruct (Hback h w ow ltac:(lia) Hs) as [[? _]|[_ Hs']]; [lia|]. by apply (Hsd w).
  - intros h w ow Hh [Hc|[]] Hs. destruct (A3 h Hc) as (Hh' & _).
    destruct (Hback h w ow ltac:(lia) Hs) as [[? _]|[_ Hs']]; [lia|]. apply (A4 h w); auto.
  - intros h w ow Hh Hs Hf. destruct (Hback h w ow ltac:(lia) Hs) as [[_ ->]|[Hh' Hs']]; [congruence|]. by apply (A5 h w).
  - intros h Ho. destruct (A6 h Ho) as (Hh & He & Hc). split; [lia|]. split; [done|].
    destruct Hc as [?|(w & ow & Hs & Hsd)]; [by left|right]. exists w, ow. split; [by apply Hforth|done].
Qed.

Lemma spawn_shutdown : shutdown_handler (fun _ => False) 8 spawn.
Proof.
  intros owed log s live free a o Hok Hi Hn HN Ho Hl. unfold spawn.
  destruct (_ && _) eqn:E; [|exists s, live, free, o; split_and!; try done; lia].
  apply andb_prop in E as [[[->%Z.eqb_eq _]%andb_prop E]%andb_prop Hlt%Z.ltb_lt]. apply bool_decide_eq_true in E.
  set (s1 := {| s with heap := <[64 := ex_object 0]> (heap s) |}).
  assert (forall h, live !! h <> Some 64) as Hnew.
  { intros h Hl'. destruct (so_live _ _ _ _ Hok h 64 Hl') as (_ & _ & _ & o' & Ho' & _). congruence. }
  assert (store_ok s1 live free []) as Hok1.
  { destruct Hok as [H1 H2 H3 H4 H5 H6 H7 H8 H9]. split; try done; [|by apply (free_chain_ext s)].
    intros h w Hw. destruct (H4 h w Hw) as (G1 & G2 & G3 & ow & G4 & G5). split_and!; try done; try apply G1.
    exists ow. split; [|done]. cbn [s1 heap]. rewrite lookup_insert_ne; [done|]. intros <-. by apply (Hnew h). }
  destruct (put_next_ok s1 live free 64 (ex_object 0) Hok1 Hi Hn) as (s2 & -> & Hok2 & Hi2 & Eh2 & Et2 & En2 & El2 & Hnone);
    [cbn; lia|by cbn; rewrite lookup_insert_eq|done|done|].
  cbn [s1 heap top] in Eh2, Et2, Hok2, Hnone. rewrite insert_insert_eq in Eh2.
  exists s2, (<[top s := 64]> live), free, o. split; [done|]. split; [done|]. split; [done|]. split; [done|].
  split; [lia|]. split; [by rewrite Eh2, lookup_insert_ne|]. split; [done|]. split; [done|]. split; [done|].
  split; [rewrite lookup_insert_ne; [done|congruence]|].
  split; [|intros Ha; by apply (accounted_put owed log s live free s2 free 64 (set_handle (top s) (ex_object 0)))].
  intros i Hit Hd h w ow Hh (Hb & Hv & How).
  pose proof (valid_live s2 _ _ h w Hok2 ltac:(lia) Hb Hv) as Hlw. rewrite lookup_insert_ne in Hlw by lia.
  destruct (so_live _ _ _ _ Hok h w Hlw) as (_ & Hb' & _). apply (Hd h w); [done|]. split; [done|]. split; [done|].
  rewrite Eh2, lookup_insert_ne in How; [done|]. intros <-. by apply (Hnew h).
Qed.

Lemma zend_objects_store_put_fresh_witness : exists s' h free',
  zend_objects_store_put ex_store 48 = Some s' /\
  store_ok s' (<[h := 48]> ex_live) free' [] /\ initialised s' /\ ex_live !! h = None /\
  heap s' = <[48 := set_handle h (ex_object 0)]> (heap ex_store) /\ (h = 3 /\ free' = []).
Proof.
  apply (zend_objects_store_put_fresh ex_store ex_live [3] [] 48 (ex_object 0) ex_store_ok ex_store_initialised);
    [reflexivity | reflexivity | split; [split; reflexivity | reflexivity] |].
  intros h. unfold ex_live. rewrite lookup_insert_Some, lookup_singleton_Some.
  intros [[_ E]|[_ [_ E]]]; discriminate E.
Defined.

Lemma zend_objects_store_del_releases_witness : exists s' live' free',
  zend_objects_store_del resurrect nothing ex_store 16 = Some s' /\
  store_ok s' live' free' [] /\ initialised s' /\
  ((live' !! 1 = Some 16 /\ exists o', heap s' !! 16 = Some o' /\ refcount o' <> 0) \/
   (live' !! 1 = None /\ heap s' !! 16 = None /\ free_list_head s' = 1)).
Proof.
  exact (zend_objects_store_del_releases resurrect nothing ex_store ex_live [3] [] 1 16 (ex_object 1)
    resurrect_ok nothing_ok ex_store_ok ex_store_initialised eq_refl eq_refl eq_refl).
Defined.


Example spawned_is_destructed :
  (fun s => (top s, dtor_calls s)) <$> zend_objects_store_call_destructors spawn 9 ex_store = Some (5, [1; 2; 4]).
Proof. vm_compute. done. Qed.
