(* ===== verification/Base64.v ===== *)
(** * Base64 ([ext/standard/base64.c])

    The scalar encoder and decoder, which are the whole of it on a plain target and the tail of the
    vector variants.  The decoder writes into a block of [length + 1] bytes that starts uninitialised;
    a read of a byte never written, or an access outside the block, has no result. *)
From S2P Require Import Prelude ZendString.

Definition base64_table : list Z :=
  [65; 66; 67; 68; 69; 70; 71; 72; 73; 74; 75; 76; 77; 78; 79; 80; 81; 82; 83; 84; 85; 86; 87; 88; 89; 90;
   97; 98; 99; 100; 101; 102; 103; 104; 105; 106; 107; 108; 109; 110; 111; 112; 113; 114; 115; 116; 117;
   118; 119; 120; 121; 122; 48; 49; 50; 51; 52; 53; 54; 55; 56; 57; 43; 47; 0].

Definition base64_pad : Z := 61.

Definition base64_reverse_table : list Z :=
  [-2; -2; -2; -2; -2; -2; -2; -2; -2; -1; -1; -2; -2; -1; -2; -2;
   -2; -2; -2; -2; -2; -2; -2; -2; -2; -2; -2; -2; -2; -2; -2; -2;
   -1; -2; -2; -2; -2; -2; -2; -2; -2; -2; -2; 62; -2; -2; -2; 63;
   52; 53; 54; 55; 56; 57; 58; 59; 60; 61; -2; -2; -2; -2; -2; -2;
   -2;  0;  1;  2;  3;  4;  5;  6;  7;  8;  9; 10; 11; 12; 13; 14;
   15; 16; 17; 18; 19; 20; 21; 22; 23; 24; 25; -2; -2; -2; -2; -2;
   -2; 26; 27; 28; 29; 30; 31; 32; 33; 34; 35; 36; 37; 38; 39; 40;
   41; 42; 43; 44; 45; 46; 47; 48; 49; 50; 51; -2; -2; -2; -2; -2]
  ++ replicate 128 (-2).

(** ** Encoding *)

(** [base64_table[i]] *)
Definition digit (i : Z) : option Z := aget base64_table i.

(** The loop over groups of three bytes and the tail; the bytes written through [out]. *)
Fixpoint php_base64_encode_impl (inp : list Z) : option (list Z) :=
  match inp with
  | in0 :: in1 :: in2 :: inp =>
      d0 ← digit (Z.shiftr in0 2);
      d1 ← digit (Z.shiftl (Z.land in0 3) 4 + Z.shiftr in1 4);
      d2 ← digit (Z.shiftl (Z.land in1 15) 2 + Z.shiftr in2 6);
      d3 ← digit (Z.land in2 63);
      out ← php_base64_encode_impl inp;
      Some (d0 :: d1 :: d2 :: d3 :: out)
  | [in0; in1] =>
      d0 ← digit (Z.shiftr in0 2);
      d1 ← digit (Z.shiftl (Z.land in0 3) 4 + Z.shiftr in1 4);
      d2 ← digit (Z.shiftl (Z.land in1 15) 2);
      Some [d0; d1; d2; base64_pad]
  | [in0] =>
      d0 ← digit (Z.shiftr in0 2);
      d1 ← digit (Z.shiftl (Z.land in0 3) 4);
      Some [d0; d1; base64_pad; base64_pad]
  | [] => Some []
  end.

(** The result has room for [(length + 2) / 3 * 4] bytes. *)
Definition php_base64_encode (str : list Z) : option zend_string :=
  out ← php_base64_encode_impl str;
  if Z.of_nat (length out) <=? (Z.of_nat (length str) + 2) / 3 * 4 then Some (zend_string_init out)
  else None.

(** ** Decoding *)

(** The counters of the loop and the block. *)
Record decoding := { d_i : Z; d_padding : Z; d_j : Z; d_out : list (option Z) }.

Definition put (out : list (option Z)) (j v : Z) : option (list (option Z)) := aset out j (Some (u8 v)).

(** [out[j] |= v] *)
Definition or_into (out : list (option Z)) (j v : Z) : option (list (option Z)) :=
  c ← aget out j; w ← c; put out j (Z.lor w v).

(** The [switch]: store the six bits [ch]. *)
Definition store_bits (st : decoding) (ch : Z) : option decoding :=
  let out := d_out st in
  let j := d_j st in
  let next j out := Some {| d_i := d_i st + 1; d_padding := d_padding st; d_j := j; d_out := out |} in
  match d_i st mod 4 with
  | 0 => out ← put out j (Z.shiftl ch 2); next j out
  | 1 =>
      out ← or_into out j (Z.shiftr ch 4);
      out ← put out (j + 1) (Z.shiftl (Z.land ch 15) 4); next (j + 1) out
  | 2 =>
      out ← or_into out j (Z.shiftr ch 2);
      out ← put out (j + 1) (Z.shiftl (Z.land ch 3) 6); next (j + 1) out
  | _ => out ← or_into out j ch; next (j + 1) out
  end.

(** The loop over the input.  The outer option is an invalid access, the inner one [goto fail]. *)
Fixpoint decode_loop (strict : bool) (inp : list Z) (st : decoding) : option (option decoding) :=
  match inp with
  | [] => Some (Some st)
  | c :: inp =>
      if c =? base64_pad then
        decode_loop strict inp
          {| d_i := d_i st; d_padding := d_padding st + 1; d_j := d_j st; d_out := d_out st |}
      else
        ch ← aget base64_reverse_table c;
        if negb strict && (ch <? 0) then decode_loop strict inp st
        else if strict && (ch =? -1) then decode_loop strict inp st
        else if strict && ((ch =? -2) || negb (d_padding st =? 0)) then Some None
        else st ← store_bits st ch; decode_loop strict inp st
  end.

(** The bytes in front of index [n], all of them written. *)
Fixpoint written (n : nat) (out : list (option Z)) : option (list Z) :=
  match n, out with
  | O, _ => Some []
  | S n, Some b :: out => bs ← written n out; Some (b :: bs)
  | S _, _ => None
  end.

Definition php_base64_decode_impl (inp : list Z) (out : list (option Z)) (outl : Z) (strict : bool) :
  option (option (list (option Z) * Z)) :=
  r ← decode_loop strict inp {| d_i := 0; d_padding := 0; d_j := outl; d_out := out |};
  match r with
  | None => Some None
  | Some st =>
      if strict && (d_i st mod 4 =? 1) then Some None
      else if strict && negb (d_padding st =? 0)
              && ((2 <? d_padding st) || negb ((d_i st + d_padding st) mod 4 =? 0)) then Some None
      else out ← put (d_out st) (d_j st) 0; Some (Some (out, d_j st))
  end.

(** [Some None] is NULL. *)
Definition php_base64_decode_ex (str : list Z) (strict : bool) : option (option zend_string) :=
  r ← php_base64_decode_impl str (replicate (S (length str)) None) 0 strict;
  match r with
  | None => Some None
  | Some (out, outl) => bs ← written (Z.to_nat outl) out; Some (Some (zend_string_init bs))
  end.

Example encode_hello :
  (ZSTR_VAL <$> php_base64_encode [104; 101; 108; 108; 111]) = Some [97; 71; 86; 115; 98; 71; 56; 61].
Proof. reflexivity. Qed.

Example decode_cases :
  php_base64_decode_ex [97; 71; 86; 115; 98; 71; 56; 61] true
  = Some (Some (zend_string_init [104; 101; 108; 108; 111])) /\
  php_base64_decode_ex [97; 42; 71] true = Some None /\
  php_base64_decode_ex [97; 42; 71] false = Some (Some (zend_string_init [104])).
Proof. vm_compute. done. Qed.

(** ** Facts about the tables and the bits, by enumeration *)
Definition below (n : nat) : list Z := Z.of_nat <$> seq 0 n.

Lemma forallb_below (f : Z -> bool) (n : nat) x : forallb f (below n) = true -> 0 <= x < Z.of_nat n -> f x = true.
Proof.
  intros H Hx. rewrite forallb_forall in H. apply H. apply list_elem_of_In. unfold below.
  apply list_elem_of_fmap. exists (Z.to_nat x). rewrite Z2Nat.id by lia. split; [done|].
  apply elem_of_seq. lia.
Qed.

(** A digit stands for its six bits and is not the padding. *)
Lemma digit_spec x : 0 <= x < 64 -> exists d, digit x = Some d /\ (d =? base64_pad) = false /\
  aget base64_reverse_table d = Some x.
Proof.
  intros Hx. assert ((match digit x with
    | Some d => negb (d =? base64_pad) &&
                match aget base64_reverse_table d with Some y => y =? x | None => false end
    | None => false end) = true) as H.
  { apply (forallb_below (fun x => match digit x with
      | Some d => negb (d =? base64_pad) &&
                  match aget base64_reverse_table d with Some y => y =? x | None => false end
      | None => false end) 64); [vm_compute; reflexivity|lia]. }
  destruct (digit x) as [d|]; [|done]. exists d. apply andb_prop in H as [H1%negb_true_iff H2].
  split; [done|]. split; [done|]. destruct (aget _ d) as [y|]; [|done]. apply Z.eqb_eq in H2. by subst.
Qed.

(** The three bytes of a group, from its four digits. *)
Lemma group_bits_1 a b : is_u8 a -> is_u8 b ->
  u8 (Z.lor (u8 (Z.shiftl (Z.shiftr a 2) 2)) (Z.shiftr (Z.shiftl (Z.land a 3) 4 + Z.shiftr b 4) 4)) = a /\
  0 <= Z.shiftr a 2 < 64 /\ 0 <= Z.shiftl (Z.land a 3) 4 + Z.shiftr b 4 < 64.
Proof.
  intros Ha Hb.
  pose (f := fun a b => (u8 (Z.lor (u8 (Z.shiftl (Z.shiftr a 2) 2))
      (Z.shiftr (Z.shiftl (Z.land a 3) 4 + b) 4)) =? a) && (Z.shiftr a 2 <? 64) && (0 <=? Z.shiftr a 2) &&
      (0 <=? Z.shiftl (Z.land a 3) 4 + b) && (Z.shiftl (Z.land a 3) 4 + b <? 64)).
  assert (f a (Z.shiftr b 4) = true) as H.
  { apply (forallb_below (f a) 16).
    - apply (forallb_below (fun a => forallb (f a) (below 16)) 256); [vm_compute; reflexivity|exact Ha].
    - rewrite Z.shiftr_div_pow2 by lia. unfold is_u8 in Hb. Z.to_euclidean_division_equations; lia. }
  unfold f in H. rewrite !andb_true_iff, !Z.ltb_lt, !Z.leb_le, Z.eqb_eq in H. lia.
Qed.

Lemma group_bits_2 a b c : is_u8 a -> is_u8 b -> is_u8 c ->
  let x1 := Z.shiftl (Z.land a 3) 4 + Z.shiftr b 4 in
  let x2 := Z.shiftl (Z.land b 15) 2 + Z.shiftr c 6 in
  u8 (Z.lor (u8 (Z.shiftl (Z.land x1 15) 4)) (Z.shiftr x2 2)) = b /\ 0 <= x2 < 64.
Proof.
  intros Ha Hb Hc x1 x2.
  pose (f := fun a b c => let x1 := Z.shiftl a 4 + Z.shiftr b 4 in let x2 := Z.shiftl (Z.land b 15) 2 + c in
    (u8 (Z.lor (u8 (Z.shiftl (Z.land x1 15) 4)) (Z.shiftr x2 2)) =? b) && (0 <=? x2) && (x2 <? 64)).
  assert (f (Z.land a 3) b (Z.shiftr c 6) = true) as H.
  { apply (forallb_below (f (Z.land a 3) b) 4).
    - apply (forallb_below (fun b => forallb (f (Z.land a 3) b) (below 4)) 256); [|exact Hb].
      apply (forallb_below (fun a => forallb (fun b => forallb (f a b) (below 4)) (below 256)) 4);
        [vm_compute; reflexivity|]. change 3 with (Z.ones 2). rewrite Z.land_ones by lia.
      apply Z.mod_pos_bound. lia.
    - rewrite Z.shiftr_div_pow2 by lia. unfold is_u8 in Hc. Z.to_euclidean_division_equations; lia. }
  unfold f in H. rewrite !andb_true_iff, Z.ltb_lt, Z.leb_le, Z.eqb_eq in H. fold x1 x2 in H. lia.
Qed.

Lemma group_bits_3 b c : is_u8 b -> is_u8 c ->
  let x2 := Z.shiftl (Z.land b 15) 2 + Z.shiftr c 6 in
  u8 (Z.lor (u8 (Z.shiftl (Z.land x2 3) 6)) (Z.land c 63)) = c /\ 0 <= Z.land c 63 < 64.
Proof.
  intros Hb Hc x2.
  pose (f := fun b c => let x2 := Z.shiftl b 2 + Z.shiftr c 6 in
    (u8 (Z.lor (u8 (Z.shiftl (Z.land x2 3) 6)) (Z.land c 63)) =? c) && (0 <=? Z.land c 63) && (Z.land c 63 <? 64)).
  assert (f (Z.land b 15) c = true) as H.
  { apply (forallb_below (f (Z.land b 15)) 256); [|exact Hc].
    apply (forallb_below (fun b => forallb (f b) (below 256)) 16); [vm_compute; reflexivity|].
    change 15 with (Z.ones 4). rewrite Z.land_ones by lia. apply Z.mod_pos_bound. lia. }
  unfold f in H. rewrite !andb_true_iff, Z.ltb_lt, Z.leb_le, Z.eqb_eq in H. fold x2 in H. lia.
Qed.

(** ** One digit *)
Section Store.
Implicit Types (st : decoding) (pre rest : list (option Z)).

Definition advance st j out : decoding :=
  {| d_i := d_i st + 1; d_padding := d_padding st; d_j := j; d_out := out |}.

Lemma put_mid pre c rest j v : j = Z.of_nat (length pre) ->
  put (pre ++ c :: rest) j v = Some (pre ++ Some (u8 v) :: rest).
Proof. intros ->. unfold put. by apply aset_app_mid. Qed.

Lemma or_into_mid pre w rest j v : j = Z.of_nat (length pre) ->
  or_into (pre ++ Some w :: rest) j v = Some (pre ++ Some (u8 (Z.lor w v)) :: rest).
Proof.
  intros ->. unfold or_into. rewrite (aget_app_mid pre (Some w)) by done. cbn [mbind option_bind].
  by apply put_mid.
Qed.

Lemma store_bits_0 st ch pre c rest : d_out st = pre ++ c :: rest -> d_j st = Z.of_nat (length pre) ->
  d_i st mod 4 = 0 ->
  store_bits st ch = Some (advance st (d_j st) (pre ++ Some (u8 (Z.shiftl ch 2)) :: rest)).
Proof. intros Eo Ej Em. unfold store_bits. rewrite Em, Eo, put_mid by done. done. Qed.

Lemma put_second pre w c rest j v : j = Z.of_nat (length pre) ->
  put (pre ++ w :: c :: rest) (j + 1) v = Some (pre ++ w :: Some (u8 v) :: rest).
Proof.
  intros ->. change (pre ++ w :: c :: rest) with (pre ++ [w] ++ c :: rest). rewrite app_assoc.
  rewrite put_mid by (rewrite length_app; cbn; lia). by rewrite <- app_assoc.
Qed.

Lemma store_bits_1 st ch pre w c rest : d_out st = pre ++ Some w :: c :: rest ->
  d_j st = Z.of_nat (length pre) -> d_i st mod 4 = 1 ->
  store_bits st ch = Some (advance st (d_j st + 1)
    (pre ++ Some (u8 (Z.lor w (Z.shiftr ch 4))) :: Some (u8 (Z.shiftl (Z.land ch 15) 4)) :: rest)).
Proof.
  intros Eo Ej Em. unfold store_bits. rewrite Em, Eo, or_into_mid by done. cbn [mbind option_bind].
  by rewrite put_second by done.
Qed.

Lemma store_bits_2 st ch pre w c rest : d_out st = pre ++ Some w :: c :: rest ->
  d_j st = Z.of_nat (length pre) -> d_i st mod 4 = 2 ->
  store_bits st ch = Some (advance st (d_j st + 1)
    (pre ++ Some (u8 (Z.lor w (Z.shiftr ch 2))) :: Some (u8 (Z.shiftl (Z.land ch 3) 6)) :: rest)).
Proof.
  intros Eo Ej Em. unfold store_bits. rewrite Em, Eo, or_into_mid by done. cbn [mbind option_bind].
  by rewrite put_second by done.
Qed.

Lemma store_bits_3 st ch pre w rest : d_out st = pre ++ Some w :: rest ->
  d_j st = Z.of_nat (length pre) -> d_i st mod 4 = 3 ->
  store_bits st ch = Some (advance st (d_j st + 1) (pre ++ Some (u8 (Z.lor w ch)) :: rest)).
Proof. intros Eo Ej Em. unfold store_bits. rewrite Em, Eo, or_into_mid by done. done. Qed.
End Store.

(** ** The round trip *)
Lemma loop_digit strict inp st x d st' : digit x = Some d -> 0 <= x < 64 -> d_padding st = 0 ->
  store_bits st x = Some st' -> decode_loop strict (d :: inp) st = decode_loop strict inp st'.
Proof.
  intros Hd Hx Hp Hs. destruct (digit_spec x Hx) as (d' & E & Hne & Hr). rewrite Hd in E. injection E as <-.
  cbn [decode_loop]. rewrite Hne, Hr. cbn [mbind option_bind]. rewrite Hp, Hs.
  rewrite (proj2 (Z.ltb_ge x 0)), (proj2 (Z.eqb_neq x (-1))), (proj2 (Z.eqb_neq x (-2))) by lia.
  by rewrite !andb_false_r.
Qed.

Lemma loop_pad strict inp st : decode_loop strict (base64_pad :: inp) st =
  decode_loop strict inp {| d_i := d_i st; d_padding := d_padding st + 1; d_j := d_j st; d_out := d_out st |}.
Proof. done. Qed.

(** The state after the bytes [s] have been decoded behind [pre]. *)
Definition decoded st pre (s : list Z) st' : Prop :=
  exists cells, d_out st' = pre ++ (Some <$> s) ++ cells /\
    d_j st' = Z.of_nat (length pre + length s) /\ (d_i st' + d_padding st') mod 4 = 0 /\
    d_i st' mod 4 <> 1 /\ 0 <= d_padding st' <= 2 /\ length (d_out st') = length (d_out st).

(** A state at the start of a group. *)
Definition at_group st (pre cells : list (option Z)) : Prop :=
  d_out st = pre ++ cells /\ d_j st = Z.of_nat (length pre) /\ d_i st mod 4 = 0 /\ d_padding st = 0.

Lemma mod4_add i k : i mod 4 = 0 -> 0 <= k < 4 -> (i + k) mod 4 = k.
Proof. intros Hi Hk. Z.to_euclidean_division_equations; lia. Qed.

(** The first two digits of a group complete its first byte. *)
Lemma decode_two strict a b pre c0 c1 cells st inp d0 d1 : is_u8 a -> is_u8 b ->
  at_group st pre (c0 :: c1 :: cells) -> digit (Z.shiftr a 2) = Some d0 ->
  digit (Z.shiftl (Z.land a 3) 4 + Z.shiftr b 4) = Some d1 ->
  exists st', decode_loop strict (d0 :: d1 :: inp) st = decode_loop strict inp st' /\
    d_i st' = d_i st + 2 /\ d_padding st' = 0 /\ d_j st' = Z.of_nat (length pre) + 1 /\
    d_out st' = (pre ++ [Some a]) ++
      Some (u8 (Z.shiftl (Z.land (Z.shiftl (Z.land a 3) 4 + Z.shiftr b 4) 15) 4)) :: cells.
Proof.
  intros Ha Hb (Eo & Ej & Ei & Ep) H0 H1. destruct (group_bits_1 a b Ha Hb) as (Ebits & R0 & R1).
  erewrite (loop_digit strict (d1 :: inp) st); [|done|done|done|by apply (store_bits_0 _ _ pre c0 (c1 :: cells))].
  erewrite loop_digit; [|done|done|done|].
  2:{ apply (store_bits_1 _ _ pre (u8 (Z.shiftl (Z.shiftr a 2) 2)) c1 cells); [done|done|].
      cbn [d_i advance]. apply mod4_add; [done|lia]. }
  rewrite Ebits. eexists. split; [done|]. cbn [d_i d_padding d_j d_out advance]. rewrite Ej, <- app_assoc.
  split; [lia|]. done.
Qed.

(** The third completes the second byte. *)
Lemma decode_three strict a b c pre c0 c1 c2 cells st inp d0 d1 d2 : is_u8 a -> is_u8 b -> is_u8 c ->
  at_group st pre (c0 :: c1 :: c2 :: cells) -> digit (Z.shiftr a 2) = Some d0 ->
  digit (Z.shiftl (Z.land a 3) 4 + Z.shiftr b 4) = Some d1 ->
  digit (Z.shiftl (Z.land b 15) 2 + Z.shiftr c 6) = Some d2 ->
  exists st', decode_loop strict (d0 :: d1 :: d2 :: inp) st = decode_loop strict inp st' /\
    d_i st' = d_i st + 3 /\ d_padding st' = 0 /\ d_j st' = Z.of_nat (length pre) + 2 /\
    d_out st' = (pre ++ [Some a; Some b]) ++
      Some (u8 (Z.shiftl (Z.land (Z.shiftl (Z.land b 15) 2 + Z.shiftr c 6) 3) 6)) :: cells.
Proof.
  intros Ha Hb Hc Hg H0 H1 H2. pose proof Hg as (_ & _ & Ei & _).
  destruct (decode_two strict a b pre c0 c1 (c2 :: cells) st (d2 :: inp) d0 d1 Ha Hb Hg H0 H1)
    as (st1 & -> & Ei1 & Ep1 & Ej1 & Eo1).
  destruct (group_bits_2 a b c Ha Hb Hc) as (Ebits & R2).
  erewrite loop_digit; [|done|done|done|].
  2:{ eapply (store_bits_2 _ _ (pre ++ [Some a]) _ c2 cells); [by rewrite Eo1|rewrite length_app; cbn; lia|].
      rewrite Ei1. apply mod4_add; [done|lia]. }
  rewrite Ebits. eexists. split; [done|]. cbn [d_i d_padding d_j d_out advance].
  split; [lia|]. split; [done|]. split; [lia|]. by rewrite <- !app_assoc.
Qed.

(** A whole group. *)
Lemma decode_group strict a b c pre c0 c1 c2 cells st inp d0 d1 d2 d3 : is_u8 a -> is_u8 b -> is_u8 c ->
  at_group st pre (c0 :: c1 :: c2 :: cells) -> digit (Z.shiftr a 2) = Some d0 ->
  digit (Z.shiftl (Z.land a 3) 4 + Z.shiftr b 4) = Some d1 ->
  digit (Z.shiftl (Z.land b 15) 2 + Z.shiftr c 6) = Some d2 -> digit (Z.land c 63) = Some d3 ->
  exists st', decode_loop strict (d0 :: d1 :: d2 :: d3 :: inp) st = decode_loop strict inp st' /\
    at_group st' (pre ++ [Some a; Some b; Some c]) cells.
Proof.
  intros Ha Hb Hc Hg H0 H1 H2 H3. pose proof Hg as (_ & _ & Ei & _).
  destruct (decode_three strict a b c pre c0 c1 c2 cells st (d3 :: inp) d0 d1 d2 Ha Hb Hc Hg H0 H1 H2)
    as (st1 & -> & Ei1 & Ep1 & Ej1 & Eo1).
  destruct (group_bits_3 b c Hb Hc) as (Ebits & R3).
  erewrite loop_digit; [|done|done|done|].
  2:{ eapply (store_bits_3 _ _ (pre ++ [Some a; Some b]) _ cells); [by rewrite Eo1|rewrite length_app; cbn; lia|].
      rewrite Ei1. apply mod4_add; [done|lia]. }
  rewrite Ebits. eexists. split; [done|]. unfold at_group. cbn [d_i d_padding d_j d_out advance].
  split; [by rewrite <- !app_assoc|]. rewrite !length_app. cbn [length]. split; [lia|]. split; [|done].
  rewrite Ei1. Z.to_euclidean_division_equations; lia.
Qed.

Lemma digit_Some x : 0 <= x < 64 -> exists d, digit x = Some d.
Proof. intros Hx. destruct (digit_spec x Hx) as (d & -> & _). by exists d. Qed.

(** Encoding succeeds with four characters for each three bytes, and decoding them gives the bytes. *)
Lemma decode_encode strict n : forall s, (length s <= n)%nat -> Forall is_u8 s ->
  exists out, php_base64_encode_impl s = Some out /\
    Z.of_nat (length out) = (Z.of_nat (length s) + 2) / 3 * 4 /\
    forall st pre cells, at_group st pre cells -> (length s < length cells)%nat ->
    exists st', decode_loop strict out st = Some (Some st') /\ decoded st pre s st'.
Proof.
  assert (is_u8 0) as Hzero by (split; done).
  induction n as [|n IH]; intros s Hn Hs.
  { destruct s; [|cbn in Hn; lia]. exists []. split; [done|]. split; [done|].
    intros st pre cells (Eo & Ej & Ei & Ep) Hl. exists st. split; [done|]. exists cells.
    rewrite Ep, Z.add_0_r, Ej, Ei. cbn [length]. rewrite Nat.add_0_r. done. }
  destruct s as [|a [|b [|c s]]].
  - apply (IH []); [cbn; lia|done].
  - apply Forall_cons in Hs as [Ha _]. destruct (group_bits_1 a 0 Ha Hzero) as (_ & R0 & R1).
    change (Z.shiftr 0 4) with 0 in R1. rewrite Z.add_0_r in R1.
    destruct (digit_Some _ R0) as [d0 E0], (digit_Some _ R1) as [d1 E1].
    exists [d0; d1; base64_pad; base64_pad]. split; [cbn [php_base64_encode_impl]; by rewrite E0, E1|].
    split; [done|]. intros st pre cells Hg Hl. destruct cells as [|c0 [|c1 cells]]; [cbn in Hl; lia|cbn in Hl; lia|].
    rewrite <- (Z.add_0_r (Z.shiftl (Z.land a 3) 4)) in E1. change 0 with (Z.shiftr 0 4) in E1 at 1.
    destruct (decode_two strict a 0 pre c0 c1 cells st [base64_pad; base64_pad] d0 d1 Ha Hzero Hg E0 E1)
      as (st1 & -> & Ei1 & Ep1 & Ej1 & Eo1).
    rewrite !loop_pad. eexists. split; [done|]. unfold decoded. cbn [d_i d_padding d_j d_out].
    pose proof Hg as (Eo & _ & Ei & _).
    eexists. split; [rewrite Eo1, <- app_assoc; done|]. split; [cbn; lia|]. rewrite Ei1, Ep1.
    split; [Z.to_euclidean_division_equations; lia|]. split; [Z.to_euclidean_division_equations; lia|].
    split; [lia|]. rewrite Eo1, Eo, !length_app. cbn. lia.
  - apply Forall_cons in Hs as [Ha [Hb _]%Forall_cons]. destruct (group_bits_1 a b Ha Hb) as (_ & R0 & R1).
    destruct (group_bits_2 a b 0 Ha Hb Hzero) as (_ & R2). change (Z.shiftr 0 6) with 0 in R2. rewrite Z.add_0_r in R2.
    destruct (digit_Some _ R0) as [d0 E0], (digit_Some _ R1) as [d1 E1], (digit_Some _ R2) as [d2 E2].
    exists [d0; d1; d2; base64_pad]. split; [cbn [php_base64_encode_impl]; by rewrite E0, E1, E2|].
    split; [done|]. intros st pre cells Hg Hl.
    destruct cells as [|c0 [|c1 [|c2 cells]]]; [cbn in Hl; lia|cbn in Hl; lia|cbn in Hl; lia|].
    rewrite <- (Z.add_0_r (Z.shiftl (Z.land b 15) 2)) in E2. change 0 with (Z.shiftr 0 6) in E2 at 1.
    destruct (decode_three strict a b 0 pre c0 c1 c2 cells st [base64_pad] d0 d1 d2 Ha Hb Hzero Hg E0 E1 E2)
      as (st1 & -> & Ei1 & Ep1 & Ej1 & Eo1).
    rewrite loop_pad. eexists. split; [done|]. unfold decoded. cbn [d_i d_padding d_j d_out].
    pose proof Hg as (Eo & _ & Ei & _).
    eexists. split; [rewrite Eo1, <- app_assoc; done|]. split; [cbn; lia|]. rewrite Ei1, Ep1.
    split; [Z.to_euclidean_division_equations; lia|]. split; [Z.to_euclidean_division_equations; lia|].
    split; [lia|]. rewrite Eo1, Eo, !length_app. cbn. lia.
  - apply Forall_cons in Hs as [Ha [Hb [Hc Hs]%Forall_cons]%Forall_cons].
    destruct (group_bits_1 a b Ha Hb) as (_ & R0 & R1). destruct (group_bits_2 a b c Ha Hb Hc) as (_ & R2).
    destruct (group_bits_3 b c Hb Hc) as (_ & R3).
    destruct (digit_Some _ R0) as [d0 E0], (digit_Some _ R1) as [d1 E1], (digit_Some _ R2) as [d2 E2],
      (digit_Some _ R3) as [d3 E3].
    destruct (IH s) as (out & Eout & Elen & Hdec); [cbn in Hn; lia|done|].
    exists (d0 :: d1 :: d2 :: d3 :: out).
    split; [cbn [php_base64_encode_impl]; by rewrite E0, E1, E2, E3, Eout|].
    split; [cbn [length]; rewrite !Nat2Z.inj_succ, Elen; Z.to_euclidean_division_equations; lia|].
    intros st pre cells Hg Hl.
    destruct cells as [|c0 [|c1 [|c2 cells]]]; [cbn in Hl; lia|cbn in Hl; lia|cbn in Hl; lia|].
    destruct (decode_group strict a b c pre c0 c1 c2 cells st out d0 d1 d2 d3 Ha Hb Hc Hg E0 E1 E2 E3)
      as (st1 & -> & Hg1).
    destruct (Hdec st1 _ cells Hg1) as (st' & E & cells' & Eo' & Ej' & Em & Em1 & Hp & Hlen); [cbn in Hl; lia|].
    exists st'. split; [done|]. exists cells'. split; [by rewrite Eo', <- app_assoc|].
    split; [rewrite Ej', length_app; cbn; lia|]. split; [done|]. split; [done|]. split; [done|].
    rewrite Hlen. destruct Hg as (-> & _). destruct Hg1 as (-> & _). rewrite !length_app. cbn. lia.
Qed.

Lemma written_app s rest : written (length s) ((Some <$> s) ++ rest) = Some s.
Proof. induction s as [|b s IH]; [done|]. cbn. by rewrite IH. Qed.

(** C31: every byte string is encoded, in four characters per three bytes, and decoding the result, in
    strict mode or not, gives the byte string back. *)
Theorem php_base64_roundtrip s strict : Forall is_u8 s ->
  exists e, php_base64_encode s = Some e /\
    ZSTR_LEN e = (Z.of_nat (length s) + 2) / 3 * 4 /\
    php_base64_decode_ex (ZSTR_VAL e) strict = Some (Some (zend_string_init s)).
Proof.
  intros Hs. destruct (decode_encode strict (length s) s ltac:(lia) Hs) as (out & E & El & Hdec).
  exists (zend_string_init out). unfold php_base64_encode. rewrite E. cbn [mbind option_bind].
  rewrite (proj2 (Z.leb_le _ _)) by lia. split; [done|]. split; [done|].
  unfold php_base64_decode_ex, php_base64_decode_impl. cbn [ZSTR_VAL zend_string_init].
  set (st := {| d_i := 0; d_padding := 0; d_j := 0; d_out := replicate (S (length out)) None |}).
  assert (length s <= length out)%nat as Hle by (Z.to_euclidean_division_equations; lia).
  destruct (Hdec st [] (replicate (S (length out)) None)) as (st' & -> & cells & Eo & Ej & Em & Em1 & Hp & Hlen);
    [done|rewrite length_replicate; lia|]. cbn [mbind option_bind].
  rewrite (proj2 (Z.eqb_neq _ _)) by done. rewrite andb_false_r.
  rewrite (proj2 (Z.ltb_ge _ _)) by lia. rewrite (proj2 (Z.eqb_eq ((_ + _) mod 4) 0)) by done.
  cbn [negb orb]. rewrite !andb_false_r. cbn [app] in Eo. cbn in Ej.
  cbn [st d_out] in Hlen. rewrite Eo, length_app, length_fmap, length_replicate in Hlen.
  destruct cells as [|c cells]; [cbn in Hlen; lia|].
  rewrite Eo, Ej, put_mid by (by rewrite length_fmap). cbn [mbind option_bind].
  by rewrite Nat2Z.id, written_app.
Qed.

(** ** Safety on every input *)

(** The bytes in front of [d_j] were written, and the byte at [d_j] too within a group. *)
Definition in_bounds (size consumed : Z) (st : decoding) : Prop :=
  exists bs rest, d_out st = (Some <$> bs) ++ rest /\ d_j st = Z.of_nat (length bs) /\
    Z.of_nat (length (d_out st)) = size + 1 /\ 0 <= d_i st <= consumed /\
    Z.of_nat (length bs) = 3 * (d_i st / 4) + Z.max 0 (d_i st mod 4 - 1) /\
    (d_i st mod 4 <> 0 -> exists w rest', rest = Some w :: rest').

Lemma store_bits_safe size consumed st ch : in_bounds size consumed st -> consumed < size ->
  exists st', store_bits st ch = Some st' /\ in_bounds size (consumed + 1) st'.
Proof.
  intros (bs & rest & Eo & Ej & El & Ei & Eb & Hw) Hc.
  assert (Z.of_nat (length bs) + Z.of_nat (length rest) = size + 1) as Erest
    by (rewrite <- El, Eo, length_app, length_fmap; lia).
  assert (forall w r, (Some <$> bs) ++ Some w :: r = (Some <$> (bs ++ [w])) ++ r) as Hsnoc
    by (intros w r; by rewrite fmap_app, <- app_assoc).
  assert (forall l : list Z, Z.of_nat (length l) = Z.of_nat (length (Some <$> l))) as Hfl
    by (intros l; by rewrite length_fmap).
  pose proof (Z.mod_pos_bound (d_i st) 4 ltac:(lia)) as Hm.
  assert (d_i st mod 4 = 0 \/ d_i st mod 4 = 1 \/ d_i st mod 4 = 2 \/ d_i st mod 4 = 3) as [Er|[Er|[Er|Er]]] by lia.
  - destruct rest as [|c rest]; [cbn in Erest; Z.to_euclidean_division_equations; lia|].
    rewrite (store_bits_0 st ch (Some <$> bs) c rest) by (done || by rewrite <- Hfl).
    eexists. split; [done|]. exists bs. eexists. split; [done|]. cbn [d_i d_j d_out advance].
    rewrite length_app, length_fmap in *. cbn [length] in *.
    split; [done|]. split; [lia|]. split; [lia|]. split; [|by do 2 eexists].
    Z.to_euclidean_division_equations; lia.
  - destruct (Hw ltac:(lia)) as (w & rest' & ->).
    destruct rest' as [|c rest]; [cbn in Erest; Z.to_euclidean_division_equations; lia|].
    rewrite (store_bits_1 st ch (Some <$> bs) w c rest) by (done || by rewrite <- Hfl).
    eexists. split; [done|]. eexists (bs ++ [_]), _. cbn [d_i d_j d_out advance]. split; [apply Hsnoc|].
    rewrite !length_app, length_fmap in *. cbn [length] in *.
    split; [lia|]. split; [lia|]. split; [lia|]. split; [|by do 2 eexists].
    Z.to_euclidean_division_equations; lia.
  - destruct (Hw ltac:(lia)) as (w & rest' & ->).
    destruct rest' as [|c rest]; [cbn in Erest; Z.to_euclidean_division_equations; lia|].
    rewrite (store_bits_2 st ch (Some <$> bs) w c rest) by (done || by rewrite <- Hfl).
    eexists. split; [done|]. eexists (bs ++ [_]), _. cbn [d_i d_j d_out advance]. split; [apply Hsnoc|].
    rewrite !length_app, length_fmap in *. cbn [length] in *.
    split; [lia|]. split; [lia|]. split; [lia|]. split; [|by do 2 eexists].
    Z.to_euclidean_division_equations; lia.
  - destruct (Hw ltac:(lia)) as (w & rest' & ->).
    rewrite (store_bits_3 st ch (Some <$> bs) w rest') by (done || by rewrite <- Hfl).
    eexists. split; [done|]. eexists (bs ++ [_]), _. cbn [d_i d_j d_out advance]. split; [apply Hsnoc|].
    rewrite !length_app, length_fmap in *. cbn [length] in *.
    split; [lia|]. split; [lia|]. split; [lia|]. split; [Z.to_euclidean_division_equations; lia|].
    intros Hne. destruct Hne. Z.to_euclidean_division_equations; lia.
Qed.

Lemma in_bounds_mono size consumed consumed' st : in_bounds size consumed st -> consumed <= consumed' ->
  in_bounds size consumed' st.
Proof.
  intros (bs & rest & H1 & H2 & H3 & H4 & H5) Hle. exists bs, rest.
  do 3 (split; [done|]). split; [lia|done].
Qed.

Lemma decode_loop_safe strict size inp : forall st consumed, Forall is_u8 inp -> in_bounds size consumed st ->
  consumed + Z.of_nat (length inp) = size ->
  exists r, decode_loop strict inp st = Some r /\
    match r with Some st' => in_bounds size size st' | None => True end.
Proof.
  induction inp as [|c inp IH]; intros st consumed Hu Hb Hs.
  - exists (Some st). split; [done|]. apply (in_bounds_mono _ consumed); [done|cbn in Hs; lia].
  - apply Forall_cons in Hu as [Hc Hu]. cbn [decode_loop length] in *.
    assert (in_bounds size (consumed + 1) st) as Hb' by (apply (in_bounds_mono _ consumed); [done|lia]).
    destruct (c =? base64_pad).
    { apply (IH _ (consumed + 1)); [done| |lia]. exact Hb'. }
    assert (exists ch, aget base64_reverse_table c = Some ch) as [ch ->].
    { unfold is_u8 in Hc. unfold aget. rewrite (proj2 (Z.leb_le _ _)) by lia. apply lookup_lt_is_Some_2.
      change (length base64_reverse_table) with 256%nat. lia. }
    cbn [mbind option_bind].
    destruct (negb strict && (ch <? 0)); [by apply (IH _ (consumed + 1)); [|done|lia]|].
    destruct (strict && (ch =? -1)); [by apply (IH _ (consumed + 1)); [|done|lia]|].
    destruct (strict && _); [by exists None|].
    destruct (store_bits_safe size consumed st ch Hb ltac:(lia)) as (st' & -> & Hb1). cbn [mbind option_bind].
    apply (IH _ (consumed + 1)); [done|done|lia].
Qed.

(** On every byte string, in strict mode or not, the decoder stays within its block of
    [length + 1] bytes and reads only bytes it wrote; the result is at most three quarters of the
    input. *)
Theorem php_base64_decode_safe inp strict : Forall is_u8 inp ->
  exists r, php_base64_decode_ex inp strict = Some r /\
    match r with Some s => 4 * ZSTR_LEN s <= 3 * Z.of_nat (length inp) | None => True end.
Proof.
  intros Hu. unfold php_base64_decode_ex, php_base64_decode_impl.
  set (st := {| d_i := 0; d_padding := 0; d_j := 0; d_out := replicate (S (length inp)) None |}).
  destruct (decode_loop_safe strict (Z.of_nat (length inp)) inp st 0 Hu) as (r & -> & Hr); [|lia|].
  { exists [], (replicate (S (length inp)) None). cbn [st d_out d_j d_i]. rewrite length_replicate.
    split; [done|]. split; [done|]. split; [lia|]. split; [lia|]. done. }
  cbn [mbind option_bind]. destruct r as [st'|]; [|by exists None].
  destruct (strict && (_ =? 1)); [by exists None|]. destruct (_ && (_ || _)); [by exists None|].
  destruct Hr as (bs & rest & Eo & Ej & El & Ei & Eb & _).
  rewrite Eo, length_app, length_fmap in El.
  assert (4 * Z.of_nat (length bs) <= 3 * Z.of_nat (length inp)) as Hlen
    by (Z.to_euclidean_division_equations; lia).
  destruct rest as [|c rest]; [cbn in El; lia|].
  rewrite Eo, Ej, put_mid by (by rewrite length_fmap). cbn [mbind option_bind].
  rewrite Nat2Z.id, written_app. eexists. split; [done|]. exact Hlen.
Qed.

Lemma php_base64_roundtrip_witness : exists e, php_base64_encode [104; 255; 0; 7] = Some e /\
  ZSTR_LEN e = (Z.of_nat (length [104; 255; 0; 7]) + 2) / 3 * 4 /\
  php_base64_decode_ex (ZSTR_VAL e) true = Some (Some (zend_string_init [104; 255; 0; 7])).
Proof. apply php_base64_roundtrip. repeat constructor; discriminate. Defined.

Lemma php_base64_decode_safe_witness : exists r, php_base64_decode_ex [97; 61; 10; 200; 98; 99] false = Some r /\
  match r with Some s => 4 * ZSTR_LEN s <= 3 * Z.of_nat (length [97; 61; 10; 200; 98; 99]) | None => True end.
Proof. apply php_base64_decode_safe. repeat constructor; discriminate. Defined.
