(* ===== verification/Url.v ===== *)
(** * URL encoding ([ext/standard/url.c])

    [urlencode] and [rawurlencode] write into a fresh block; the decoders work in place, reading ahead
    of what they write in the same buffer.  A byte is a Z in [[0, 256)]. *)
From S2P Require Import Prelude ZendString.

(** ** Character classes of the C locale *)
Definition isdigit (c : Z) : bool := (48 <=? c) && (c <=? 57).
Definition isupper (c : Z) : bool := (65 <=? c) && (c <=? 90).
Definition isxdigit (c : Z) : bool :=
  isdigit c || ((65 <=? c) && (c <=? 70)) || ((97 <=? c) && (c <=? 102)).
Definition tolower (c : Z) : Z := if isupper c then c + 32 else c.

Definition hexchars : list Z := [48; 49; 50; 51; 52; 53; 54; 55; 56; 57; 65; 66; 67; 68; 69; 70].

Definition hex_value (c : Z) : Z :=
  let c := if isupper c then tolower c else c in if (48 <=? c) && (c <=? 57) then c - 48 else c - 97 + 10.

(** The value of two hexadecimal digits. *)
Definition php_htoi (s0 s1 : Z) : Z := hex_value s0 * 16 + hex_value s1.

(** ** Encoding *)

(** [%] and two digits. *)
Definition percent (c : Z) : option (list Z) :=
  hi ← aget hexchars (Z.shiftr c 4);
  lo ← aget hexchars (Z.land c 15);
  Some [37; hi; lo].

Definition encode_char (c : Z) : option (list Z) :=
  if c =? 32 then Some [43]
  else if ((c <? 48) && negb (c =? 45) && negb (c =? 46)) || ((c <? 65) && (57 <? c))
          || ((90 <? c) && (c <? 97) && negb (c =? 95)) || (122 <? c)
  then percent c
  else Some [c].

(** Here [c] is a signed [char]. *)
Definition raw_encode_char (s : Z) : option (list Z) :=
  let c := char s in
  if ((c <? 48) && negb (c =? 45) && negb (c =? 46)) || ((c <? 65) && (57 <? c))
     || ((90 <? c) && (c <? 97) && negb (c =? 95)) || ((122 <? c) && negb (c =? 126))
  then percent s
  else Some [s].

Fixpoint encode_loop (enc : Z -> option (list Z)) (from : list Z) : option (list Z) :=
  match from with
  | [] => Some []
  | c :: from => to ← enc c; rest ← encode_loop enc from; Some (to ++ rest)
  end.

(** The block has [3 * len] bytes. *)
Definition php_url_encode (s : list Z) : option zend_string :=
  to ← encode_loop encode_char s;
  if Z.of_nat (length to) <=? 3 * Z.of_nat (length s) then Some (zend_string_init to) else None.

Definition php_raw_url_encode (s : list Z) : option zend_string :=
  to ← encode_loop raw_encode_char s;
  if Z.of_nat (length to) <=? 3 * Z.of_nat (length s) then Some (zend_string_init to) else None.

(** ** Decoding in place

    [len] is the count of the [while (len--)] loop, [data] and [dest] the two positions in the buffer;
    [plus] tells the two decoders apart. *)
Fixpoint decode_loop (plus : bool) (len : nat) (str : list Z) (data dest : Z) : option (list Z * Z) :=
  match len with
  | O => str ← aset str dest 0; Some (str, dest)
  | S len =>
      c ← aget str data;
      if plus && (c =? 43) then
        str ← aset str dest 32; decode_loop plus len str (data + 1) (dest + 1)
      else if c =? 37 then
        match len with
        | S (S len2) =>
            c1 ← aget str (data + 1);
            c2 ← aget str (data + 2);
            if isxdigit c1 && isxdigit c2 then
              str ← aset str dest (u8 (php_htoi c1 c2)); decode_loop plus len2 str (data + 3) (dest + 1)
            else str ← aset str dest c; decode_loop plus len str (data + 1) (dest + 1)
        | _ => str ← aset str dest c; decode_loop plus len str (data + 1) (dest + 1)
        end
      else str ← aset str dest c; decode_loop plus len str (data + 1) (dest + 1)
  end.

(** The buffer afterwards and the new length. *)
Definition php_url_decode (str : list Z) (len : nat) : option (list Z * Z) := decode_loop true len str 0 0.
Definition php_raw_url_decode (str : list Z) (len : nat) : option (list Z * Z) := decode_loop false len str 0 0.

(** [urldecode] and [rawurldecode]: a copy of the string, with its terminating NUL, is decoded. *)
Definition decode_copy (decode : list Z -> nat -> option (list Z * Z)) (in_str : zend_string) :
  option zend_string :=
  '(out, len) ← decode (ZSTR_VAL in_str ++ [0]) (length (ZSTR_VAL in_str));
  Some (zend_string_init (take (Z.to_nat len) out)).

Definition urldecode : zend_string -> option zend_string := decode_copy php_url_decode.
Definition rawurldecode : zend_string -> option zend_string := decode_copy php_raw_url_decode.

(** ** What the decoders compute *)
Fixpoint url_decoded (plus : bool) (s : list Z) : list Z :=
  match s with
  | [] => []
  | c :: t =>
      if plus && (c =? 43) then 32 :: url_decoded plus t
      else if c =? 37 then
        match t with
        | c1 :: c2 :: u =>
            if isxdigit c1 && isxdigit c2 then u8 (php_htoi c1 c2) :: url_decoded plus u
            else c :: url_decoded plus t
        | _ => c :: url_decoded plus t
        end
      else c :: url_decoded plus t
  end.

(** Writing at [dest] while [c] at [data] has been read: the gap between them keeps its length. *)
Lemma write_behind dst gap (c : Z) todo v : exists gap', length gap' = length gap /\
  aset (dst ++ gap ++ c :: todo) (Z.of_nat (length dst)) v = Some ((dst ++ [v]) ++ gap' ++ todo).
Proof.
  destruct gap as [|g gap].
  - exists []. split; [done|]. cbn. rewrite <- app_assoc. by apply aset_app_mid.
  - exists (gap ++ [c]). split; [rewrite length_app; cbn; lia|]. cbn [app].
    rewrite aset_app_mid by done. by rewrite <- !app_assoc.
Qed.

Lemma aget_in (dst gap todo : list Z) c i : i = Z.of_nat (length dst + length gap) ->
  aget (dst ++ gap ++ c :: todo) i = Some c.
Proof. intros ->. rewrite app_assoc. apply aget_app_mid. by rewrite length_app. Qed.

(** The in-place loop computes [url_decoded], writes a NUL behind it and nothing behind the byte after [todo]. *)
Lemma decode_loop_spec plus n : forall todo dst gap x tail, length todo = n ->
  exists rest, decode_loop plus n (dst ++ gap ++ todo ++ x :: tail)
      (Z.of_nat (length dst + length gap)) (Z.of_nat (length dst))
    = Some (dst ++ url_decoded plus todo ++ 0 :: rest ++ tail,
            Z.of_nat (length dst + length (url_decoded plus todo))) /\
    (length (url_decoded plus todo) + length rest = length gap + length todo)%nat.
Proof.
  induction (lt_wf n) as [n _ IH]. intros todo dst gap x tail Hn.
  assert (forall c t v, todo = c :: t -> exists rest,
    (str ← aset (dst ++ gap ++ todo ++ x :: tail) (Z.of_nat (length dst)) v;
     decode_loop plus (length t) str (Z.of_nat (length dst + length gap) + 1) (Z.of_nat (length dst) + 1))
    = Some (dst ++ (v :: url_decoded plus t) ++ 0 :: rest ++ tail,
            Z.of_nat (length dst + length (v :: url_decoded plus t))) /\
    (length (v :: url_decoded plus t) + length rest = length gap + length todo)%nat) as Hstep.
  { intros c t v ->. destruct (write_behind dst gap c (t ++ x :: tail) v) as (gap' & Hg & Hset).
    cbn [app]. rewrite Hset. cbn [mbind option_bind]. cbn in Hn.
    destruct (IH (length t) ltac:(lia) t (dst ++ [v]) gap' x tail eq_refl) as (rest & Hr & Hl).
    exists rest. rewrite length_app, Hg in Hr. cbn [length] in Hr.
    replace (Z.of_nat (length dst + length gap) + 1) with (Z.of_nat (length dst + 1 + length gap)) by lia.
    replace (Z.of_nat (length dst) + 1) with (Z.of_nat (length dst + 1)) by lia.
    rewrite Hr. rewrite <- app_assoc. cbn [length]. rewrite <- Nat.add_assoc. split; [done|]. lia. }
  destruct todo as [|c t]; cbn in Hn; subst n; cbn [decode_loop].
  - destruct gap as [|g gap]; cbn [app url_decoded].
    + exists []. rewrite aset_app_mid by done. cbn. by rewrite Nat.add_0_r.
    + exists (gap ++ [x]). rewrite aset_app_mid by done. cbn. rewrite Nat.add_0_r, <- app_assoc, length_app. cbn. split; [done|lia].
  - cbn [app]. rewrite (aget_in dst gap (t ++ x :: tail) c _ eq_refl). cbn [mbind option_bind url_decoded].
    destruct (plus && (c =? 43)); [apply (Hstep c t 32 eq_refl)|].
    destruct (Z.eqb_spec c 37) as [->|Hc]; [|apply (Hstep c t c eq_refl)].
    destruct t as [|c1 [|c2 u]]; [apply (Hstep 37 [] 37 eq_refl)|apply (Hstep 37 [c1] 37 eq_refl)|].
    cbn [length app]. pose proof (Hstep 37 (c1 :: c2 :: u) 37 eq_refl) as Hplain.
    assert (aget (dst ++ gap ++ 37 :: c1 :: c2 :: u ++ x :: tail) (Z.of_nat (length dst + length gap) + 1) = Some c1) as ->.
    { change (gap ++ 37 :: c1 :: c2 :: u ++ x :: tail) with (gap ++ [37] ++ c1 :: c2 :: u ++ x :: tail).
      rewrite (app_assoc gap). apply aget_in. rewrite length_app. cbn. lia. }
    assert (aget (dst ++ gap ++ 37 :: c1 :: c2 :: u ++ x :: tail) (Z.of_nat (length dst + length gap) + 2) = Some c2) as ->.
    { change (gap ++ 37 :: c1 :: c2 :: u ++ x :: tail) with (gap ++ [37; c1] ++ c2 :: u ++ x :: tail).
      rewrite (app_assoc gap). apply aget_in. rewrite length_app. cbn. lia. }
    cbn [mbind option_bind]. destruct (isxdigit c1 && isxdigit c2); [|exact Hplain].
    destruct (write_behind dst gap 37 (c1 :: c2 :: u ++ x :: tail) (u8 (php_htoi c1 c2))) as (gap' & Hg & ->).
    cbn [mbind option_bind].
    destruct (IH (length u) ltac:(cbn; lia) u (dst ++ [u8 (php_htoi c1 c2)]) (gap' ++ [c1; c2]) x tail eq_refl)
      as (rest & Hr & Hl).
    exists rest. rewrite <- (app_assoc gap') in Hr. cbn [app] in Hr. rewrite !length_app, Hg in Hr. rewrite length_app in Hl.
    cbn [length] in Hr, Hl |- *. replace (Z.of_nat (length dst + length gap) + 3) with (Z.of_nat (length dst + 1 + (length gap + 2))) by lia.
    replace (Z.of_nat (length dst) + 1) with (Z.of_nat (length dst + 1)) by lia.
    rewrite Hr, <- app_assoc. cbn [length app]. rewrite <- Nat.add_assoc. split; [done|]. lia.
Qed.

(** The beginning of a buffer is decoded, and what is behind the byte after it stays where it is. *)
Lemma url_decode_front plus todo x tail : exists rest,
  decode_loop plus (length todo) (todo ++ x :: tail) 0 0 = Some (url_decoded plus todo ++ 0 :: rest ++ tail, Z.of_nat (length (url_decoded plus todo))) /\
  (length (url_decoded plus todo) + length rest = length todo)%nat.
Proof. destruct (decode_loop_spec plus (length todo) todo [] [] x tail eq_refl) as (rest & E & Hl). by exists rest. Qed.

(** ** The round trip *)

(** What may appear in an encoded string: letters, digits, [-_.], and [+], [~] and [%]. *)
Definition url_char (c : Z) : bool :=
  isdigit c || isupper c || ((97 <=? c) && (c <=? 122)) ||
  (c =? 45) || (c =? 46) || (c =? 95) || (c =? 43) || (c =? 126) || (c =? 37).

(** One byte encodes to at most three characters of the safe set, and decodes to itself. *)
Definition encodes (plus : bool) (enc : Z -> option (list Z)) (c : Z) : bool :=
  match enc c with
  | Some [d] => url_char d && negb (d =? 37) && (if plus && (d =? 43) then c =? 32 else c =? d)
  | Some [p; d1; d2] => (p =? 37) && url_char d1 && url_char d2 && isxdigit d1 && isxdigit d2 &&
                        (u8 (php_htoi d1 d2) =? c)
  | _ => false
  end.

Lemma encodes_all c : is_u8 c -> encodes true encode_char c = true /\ encodes false raw_encode_char c = true.
Proof.
  intros Hc. unfold is_u8 in Hc.
  assert (forall f, forallb f (Z.of_nat <$> seq 0 256) = true -> f c = true) as H.
  { intros f Hf. rewrite forallb_forall in Hf. apply Hf, list_elem_of_In, list_elem_of_fmap.
    exists (Z.to_nat c). split; [lia|]. apply elem_of_seq. lia. }
  split; apply H; vm_compute; reflexivity.
Qed.

Lemma encode_loop_spec plus enc s : (forall c, is_u8 c -> encodes plus enc c = true) -> Forall is_u8 s ->
  exists to, encode_loop enc s = Some to /\ (length to <= 3 * length s)%nat /\
    Forall (fun c => url_char c = true) to /\ url_decoded plus to = s.
Proof.
  intros He. induction s as [|c s IH]; intros Hs; [by exists []|].
  apply Forall_cons in Hs as [Hc Hs]. destruct (IH Hs) as (to & Eto & Hl & Hsafe & Hdec).
  pose proof (He c Hc) as H. unfold encodes in H. cbn [encode_loop].
  destruct (enc c) as [[|d [|d1 [|d2 [|]]]]|]; try done; cbn [mbind option_bind]; rewrite Eto; cbn [mbind option_bind].
  - rewrite !andb_true_iff, negb_true_iff in H. destruct H as [[Hd Hp] Hv]. exists (d :: to).
    split; [done|]. split; [cbn; lia|]. split; [by constructor|]. cbn [url_decoded]. rewrite Hdec, Hp.
    destruct (plus && (d =? 43)); apply Z.eqb_eq in Hv; by subst.
  - rewrite !andb_true_iff in H. destruct H as [[[[[Hp H1] H2] H3] H4] Hv]. apply Z.eqb_eq in Hp as ->, Hv.
    exists (37 :: d1 :: d2 :: to). split; [done|]. split; [cbn; lia|].
    split; [by repeat constructor|]. cbn [url_decoded]. rewrite H3, H4, Hdec, Hv.
    change (37 =? 43) with false. by rewrite andb_false_r.
Qed.

Lemma decode_copy_spec plus s :
  decode_copy (fun str len => decode_loop plus len str 0 0) s = Some (zend_string_init (url_decoded plus (ZSTR_VAL s))).
Proof.
  unfold decode_copy. destruct (decode_loop_spec plus (length (ZSTR_VAL s)) (ZSTR_VAL s) [] [] 0 [] eq_refl)
    as (rest & E & _). cbn [app length Nat.add] in E. change (Z.of_nat 0) with 0 in E. rewrite E.
  cbn [mbind option_bind]. by rewrite Nat2Z.id, take_app_length.
Qed.

(** C32: [urlencode] and [rawurlencode] succeed on every byte string, within their block, with letters,
    digits and [-_.+~%] only, and [urldecode] and [rawurldecode], working in place, give the string
    back. *)
Theorem php_url_roundtrip s : Forall is_u8 s ->
  (exists e, php_url_encode s = Some e /\ Forall (fun c => url_char c = true) (ZSTR_VAL e) /\
     urldecode e = Some (zend_string_init s)) /\
  (exists e, php_raw_url_encode s = Some e /\ Forall (fun c => url_char c = true) (ZSTR_VAL e) /\
     rawurldecode e = Some (zend_string_init s)).
Proof.
  intros Hs. split.
  - destruct (encode_loop_spec true encode_char s (fun c Hc => proj1 (encodes_all c Hc)) Hs) as (to & E & Hl & Hsafe & Hd).
    exists (zend_string_init to). unfold php_url_encode. rewrite E. cbn [mbind option_bind].
    rewrite (proj2 (Z.leb_le _ _)) by lia. split; [done|]. split; [done|].
    unfold urldecode, php_url_decode. rewrite (decode_copy_spec true). cbn. by rewrite Hd.
  - destruct (encode_loop_spec false raw_encode_char s (fun c Hc => proj2 (encodes_all c Hc)) Hs) as (to & E & Hl & Hsafe & Hd).
    exists (zend_string_init to). unfold php_raw_url_encode. rewrite E. cbn [mbind option_bind].
    rewrite (proj2 (Z.leb_le _ _)) by lia. split; [done|]. split; [done|].
    unfold rawurldecode, php_raw_url_decode. rewrite (decode_copy_spec false). cbn. by rewrite Hd.
Qed.

Lemma php_url_roundtrip_witness :
  (exists e, php_url_encode [97; 32; 43; 200; 126] = Some e /\ Forall (fun c => url_char c = true) (ZSTR_VAL e) /\
     urldecode e = Some (zend_string_init [97; 32; 43; 200; 126])) /\
  (exists e, php_raw_url_encode [97; 32; 43; 200; 126] = Some e /\
     Forall (fun c => url_char c = true) (ZSTR_VAL e) /\
     rawurldecode e = Some (zend_string_init [97; 32; 43; 200; 126])).
Proof. apply php_url_roundtrip. repeat constructor; discriminate. Defined.
