(* ===== verification/PhpVariables.v ===== *)
(** * Request variables ([php_headers/php_variables.c])

    The variables of a request (the query, the cookies, the body of a form) are entered into nested arrays:
    [a[b][]=x] puts [x] at the next index of the array at [b] of the array [a].  Arrays are hash tables in a store,
    named by their addresses; strings are bytes.

    A C string is a buffer with a NUL in it, a pointer into it a position: the name of a variable is cut into
    pieces in place.  The arrays that are being filled are not shared, so [SEPARATE_ARRAY] leaves them as they
    are; what is replaced or destroyed is not taken out of the store, where nothing points to it any more. *)
From S2P Require Import Prelude ZendString ZendLong ZendHash ZendSymtable Url.

(** ** C strings *)
Fixpoint strlen (s : list Z) : option Z :=
  match s with
  | [] => None
  | c :: s => if c =? 0 then Some 0 else n ← strlen s; Some (n + 1)
  end.

Definition strlen_at (buf : list Z) (p : Z) : option Z := if 0 <=? p then strlen (drop (Z.to_nat p) buf) else None.

(** The position of the first [c], [Some None] when the string ends before. *)
Fixpoint strchr (s : list Z) (c : Z) : option (option Z) :=
  match s with
  | [] => None
  | x :: s => if x =? c then Some (Some 0) else if x =? 0 then Some None else r ← strchr s c; Some (option_map Z.succ r)
  end.

Definition strchr_at (buf : list Z) (p c : Z) : option (option Z) :=
  if 0 <=? p then r ← strchr (drop (Z.to_nat p) buf) c; Some (option_map (Z.add p) r) else None.

(** [len] bytes from a position. *)
Definition bytes_at (buf : list Z) (p len : Z) : option (list Z) :=
  if (0 <=? p) && (0 <=? len) && (p + len <=? Z.of_nat (length buf)) then Some (take (Z.to_nat len) (drop (Z.to_nat p) buf)) else None.

Definition isspace (c : Z) : bool := (c =? 32) || ((9 <=? c) && (c <=? 13)).

(** [strncmp(s, prefix, sizeof(prefix) - 1) == 0] *)
Fixpoint starts_with (prefix s : list Z) : bool :=
  match prefix, s with
  | [], _ => true
  | p :: prefix, c :: s => (p =? c) && starts_with prefix s
  | _, [] => false
  end.

Definition str_host : list Z := [95; 95; 72; 111; 115; 116; 45].                 (* __Host- *)
Definition str_secure : list Z := [95; 95; 83; 101; 99; 117; 114; 101; 45].      (* __Secure- *)
Definition str_this : list Z := [116; 104; 105; 115].                            (* this *)
Definition str_GLOBALS : list Z := [71; 76; 79; 66; 65; 76; 83].                 (* GLOBALS *)

(** ** State *)

(** What is in the arrays. *)
Inductive input := VString (s : list Z) | VArray (a : Z).

Inductive error := Nesting_exceeded | Input_vars_exceeded | Reassigns_this.

Record php_vars := {
  EG : executor_globals input; tables : gmap Z (HashTable input); fresh_table : Z; errors : list error;
  (* PG(http_globals) at [TRACK_VARS_COOKIE], [TRACK_VARS_GET] and [TRACK_VARS_POST] *)
  cookies : option Z; http_get : option Z; http_post : option Z }.

(** [symbol_table] is that of the globals, [user_table] that of the innermost function of the script, if it has one. *)
Record settings := {
  max_input_nesting_level : Z; max_input_vars : Z; display_errors : bool; arg_separator : list Z;
  symbol_table : Z; user_table : option Z }.

Implicit Types (st : php_vars) (z : zval input) (ref : option zref) (buf : list Z).

Definition add_error st (e : error) : php_vars := {| st with errors := errors st ++ [e] |}.

(** An operation on the table at [a]. *)
Definition on_table {B} st (a : Z) (f : executor_globals input -> HashTable input -> option (executor_globals input * HashTable input * B)) :
  option (php_vars * B) :=
  ht ← tables st !! a;
  '(G, ht, r) ← f (EG st) ht;
  Some ({| st with EG := G; tables := <[a := ht]> (tables st) |}, r).

Definition read_at st (a : Z) (r : zref) : option (zval input) := ht ← tables st !! a; zread (EG st) ht r.

Definition write_at st (a : Z) (r : zref) z : option php_vars :=
  '(st, _) ← on_table st a (fun G ht => '(G, ht) ← zwrite G ht r z; Some (G, ht, Some r)); Some st.

Definition array_init st : option (php_vars * zval input) :=
  ht ← _zend_hash_init (fresh_table st) 8 true false;
  Some ({| st with tables := <[fresh_table st := ht]> (tables st); fresh_table := fresh_table st + 1 |}, IS_VAL (VArray (fresh_table st))).

(** ** Registering a variable *)
Section Register.
Variable PG : settings.

Definition php_register_variable_quick st (name : list Z) z (a : Z) : option php_vars :=
  let key := {| ZSTR_VAL := name; ZSTR_IS_INTERNED := true |} in
  '(st, _) ← on_table st a (fun G ht => zend_hash_update_ind G ht key z); Some st.

(** Spaces and dots become underscores, the first bracket ends the name: the buffer, the end of the name, and
    whether there was a bracket. *)
Fixpoint mangle_loop (n : nat) buf (p : Z) : option (list Z * Z * bool) :=
  match n with
  | O => None
  | S n =>
      c ← aget buf p;
      if c =? 0 then Some (buf, p, false)
      else if (c =? 32) || (c =? 46) then buf ← aset buf p 95; mangle_loop n buf (p + 1)
      else if c =? 91 then buf ← aset buf p 0; Some (buf, p, true)
      else mangle_loop n buf (p + 1)
  end.

(** The element at the key is an array, if need be a new one; its address, or nothing when a new key is refused. *)
Definition array_element st (a : Z) buf (index : option Z) (index_len : Z) : option (php_vars * option Z) :=
  '(st, ref) ←
    (match index with
     | None =>
         '(st, z) ← array_init st;
         '(st, ref) ← on_table st a (fun G ht => zend_hash_next_index_insert G ht z);
         match ref with
         | None => Some ({| st with tables := delete (fresh_table st - 1) (tables st) |}, None)
         | Some r => Some (st, Some r)
         end
     | Some i =>
         key ← bytes_at buf i index_len;
         ht ← tables st !! a;
         found ← zend_symtable_str_find ht key;
         match found with
         | None =>
             '(st, z) ← array_init st;
             on_table st a (fun G ht => zend_symtable_str_update_ind G ht key z)
         | Some r =>
             z ← read_at st a r;
             let r := match z with IS_INDIRECT s => ZSLOT s | _ => r end in
             z ← read_at st a r;
             match z with
             | IS_VAL (VArray _) => Some (st, Some r)
             | _ => '(st, z) ← array_init st; st ← write_at st a r z; Some (st, Some r)
             end
         end
     end);
  match ref with
  | None => Some (st, None)
  | Some r => z ← read_at st a r; match z with IS_VAL (VArray b) => Some (st, Some b) | _ => None end
  end.

(** The loop over the brackets returns, or goes on at [plain_var]. *)
Inductive walk := Returned (st : php_vars) | Plain_var (st : php_vars) (buf : list Z) (a : Z) (index : option Z) (index_len : Z).

(** One level: the buffer, the position of the closing bracket, and the next index. *)
Definition next_index buf (ip : Z) : option (list Z * option (Z * option Z * Z)) :=
  let ip := ip + 1 in
  let index_s := ip in
  c ← aget buf ip;
  let ip := if isspace c then ip + 1 else ip in
  c ← aget buf ip;
  if c =? 93 then Some (buf, Some (ip, None, 0))
  else
    close ← strchr_at buf ip 93;
    match close with
    | None => buf ← aset buf (index_s - 1) 95; Some (buf, None)
    | Some ip =>
        buf ← aset buf ip 0;
        new_idx_len ← strlen_at buf index_s;
        Some (buf, Some (ip, Some index_s, new_idx_len))
    end.

Fixpoint index_loop (fuel : nat) st buf (ip : Z) (index : option Z) (index_len a nest_level track var_len : Z) : option walk :=
  match fuel with
  | O => None
  | S fuel =>
      nest_level ← int (nest_level + 1);
      if max_input_nesting_level PG <? nest_level then
        var ← bytes_at buf 0 var_len;
        '(st, _) ← on_table st track (fun G ht => zend_symtable_str_del G ht var);
        Some (Returned (if negb (display_errors PG) then add_error st Nesting_exceeded else st))
      else
        '(buf, found) ← next_index buf ip;
        match found with
        | None =>
            index_len ← (match index with Some i => strlen_at buf i | None => Some 0 end);
            Some (Plain_var st buf a index index_len)
        | Some (ip, index_s, new_idx_len) =>
            '(st, b) ← array_element st a buf index index_len;
            match b with
            | None => Some (Returned st)
            | Some b =>
                let ip := ip + 1 in
                c ← aget buf ip;
                if c =? 91 then
                  buf ← aset buf ip 0;
                  index_loop fuel st buf ip index_s new_idx_len b nest_level track var_len
                else Some (Plain_var st buf b index_s new_idx_len)
            end
        end
  end.

(** [plain_var:] *)
Definition plain_var st buf (a : Z) (index : option Z) (index_len : Z) z : option php_vars :=
  match index with
  | None => '(st, _) ← on_table st a (fun G ht => zend_hash_next_index_insert G ht z); Some st
  | Some i =>
      key ← bytes_at buf i index_len;
      ht ← tables st !! a;
      found ← (if bool_decide (cookies st = Some a) then zend_symtable_str_find ht key else Some None);
      match found with
      | Some _ => Some st
      | None =>
          idx ← _zend_handle_numeric_str key;
          match idx with
          | Some idx => '(st, _) ← on_table st a (fun G ht => zend_hash_index_update G ht idx z); Some st
          | None => php_register_variable_quick st key z a
          end
      end
  end.

(** The leading spaces are skipped. *)
Fixpoint skip_spaces (s : list Z) : list Z := match s with c :: t => if c =? 32 then skip_spaces t else s | [] => [] end.

(** [var_name] is a C string; [track] is the array, if there is one. *)
Definition php_register_variable_ex st (var_name : list Z) z (track : option Z) : option php_vars :=
  match track with
  | None => Some st
  | Some track =>
      let var_name := skip_spaces var_name in
      var_len ← strlen var_name;
      let var := take (Z.to_nat (var_len + 1)) var_name in
      '(buf, p, is_array) ← mangle_loop (length var) var 0;
      let var_len := p in
      if (starts_with str_host buf && negb (starts_with str_host var_name))
         || (starts_with str_secure buf && negb (starts_with str_secure var_name)) then Some st
      else if var_len =? 0 then Some st
      else
        name ← bytes_at buf 0 var_len;
        if bool_decide (user_table PG = Some track) && bool_decide (name = str_this) then Some (add_error st Reassigns_this)
        else if (track =? symbol_table PG) && bool_decide (name = str_GLOBALS) then Some st
        else if (is_array : bool) then
          w ← index_loop (length buf) st buf p (Some 0) var_len track 0 track var_len;
          match w with
          | Returned st => Some st
          | Plain_var st buf a index index_len => plain_var st buf a index index_len z
          end
        else plain_var st buf track (Some 0) var_len z
  end.

(** The value is a copy of the bytes. *)
Definition php_register_variable_safe st (var strval : list Z) (track : option Z) : option php_vars :=
  php_register_variable_ex st var (IS_VAL (VString strval)) track.

Definition php_register_variable st (var strval : list Z) (track : option Z) : option php_vars :=
  str_len ← strlen strval; php_register_variable_safe st var (take (Z.to_nat str_len) strval) track.
End Register.
