(* ===== verification/PhpVariablesSpec.v ===== *)
(** * What the names of request variables mean

    The specification of [PhpVariables]: nested arrays are trees, the name of a variable is a path in them, and
    registering a variable puts a leaf at the end of the path.  The name is read here without a buffer: [target]
    says what the pieces of a name are, and the first part of the proof shows that cutting the buffer gives them. *)
From S2P Require Import Prelude ZendString ZendLong ZendHash OrderedMap ZendHashInv ZendHashNext ZendSymtable PhpVariables.

(** ** Trees *)

(** An array has the key that the next element without one gets, and its elements in order. *)
Inductive tree := Leaf (s : list Z) | Node (next : Z) (m : list (hkey * tree)).

Definition array : Type := Z * list (hkey * tree).
Definition node (arr : array) : tree := Node arr.1 arr.2.

Implicit Types (arr : array) (m : list (hkey * tree)) (k : hkey).

Definition next_after (next : Z) k : Z := match k with KInt h => bumped next h | KStr _ => next end.

Definition set_key k (t : tree) arr : array := (if decide (k ∈ arr.2.*1) then arr.1 else next_after arr.1 k, om_insert k t arr.2).

(** An element without a key is refused when the keys are used up. *)
Definition append (t : tree) arr : array := if decide (KInt arr.1 ∈ arr.2.*1) then arr else set_key (KInt arr.1) t arr.

(** The array at a key; a string there gives way to an empty array. *)
Definition sub_array k arr : array := match om_lookup k arr.2 with Some (Node next m) => (next, m) | _ => (0, []) end.

(** A path is a list of keys; [None] is a pair of brackets without one.  With [keep], a variable that is there stays. *)
Fixpoint put (keep : bool) (path : list (option (list Z))) (s : list Z) arr : array :=
  match path with
  | [] => arr
  | [Some key] =>
      let k := symtable_key key in
      if keep && bool_decide (k ∈ arr.2.*1) then arr else set_key k (Leaf s) arr
  | [None] => append (Leaf s) arr
  | Some key :: path => let k := symtable_key key in set_key k (node (put false path s (sub_array k arr))) arr
  | None :: path => append (node (put false path s (0, []))) arr
  end.

(** ** Names *)
Definition mangle (s : list Z) : list Z := (fun c => if (c =? 32) || (c =? 46) then 95 else c) <$> s.

(** What is before the first [c], and behind it if there is one. *)
Fixpoint cut (c : Z) (s : list Z) : list Z * option (list Z) :=
  match s with
  | [] => ([], None)
  | x :: s => if x =? c then ([], Some s) else let '(a, b) := cut c s in (x :: a, b)
  end.

(** A space at the beginning is apart. *)
Definition space_of (r : list Z) : list Z * list Z :=
  match r with c :: t => if isspace c then ([c], t) else ([], r) | [] => ([], []) end.

(** The key in a pair of brackets, of which the first is gone, and what is behind them; a space is no key. *)
Definition bracket (r : list Z) : option (option (list Z) * list Z) :=
  let inside := (space_of r).2 in
  if bool_decide (head inside = Some 93) then Some (None, tail inside)
  else match cut 93 r with (key, Some rest) => Some (Some key, rest) | (_, None) => None end.

(** The keys of the pairs of brackets, at most [depth] of them, and whether there are more.  What follows a
    bracket that is not closed, or is not a bracket, counts for nothing. *)
Fixpoint keys_in (fuel : nat) (depth : Z) (r : list Z) : list (option (list Z)) * bool :=
  if depth <? 1 then ([], true)
  else
    match fuel, bracket r with
    | S fuel, Some (key, rest) =>
        match rest with
        | 91 :: rest => let '(keys, more) := keys_in fuel (depth - 1) rest in (key :: keys, more)
        | _ => ([key], false)
        end
    | _, _ => ([], false)
    end.

(** The whole path, when it is short enough; a name whose first bracket is not closed has one as a letter. *)
Inductive target_of := Ignored | Too_deep (path : list (option (list Z))) | At (path : list (option (list Z))).

(** A name that mangling would turn into one of a protected cookie, or an empty one, is ignored. *)
Definition forbidden (name raw : list Z) : bool :=
  (starts_with str_host name && negb (starts_with str_host raw)) ||
  (starts_with str_secure name && negb (starts_with str_secure raw)) || bool_decide (name = []).

(** Where a variable goes. *)
Definition target (max_depth : Z) (reserved : list Z -> bool) (s : list Z) : target_of :=
  let s := skip_spaces s in
  let '(raw, brackets) := cut 91 s in
  let name := mangle raw in
  if forbidden name s || reserved name then Ignored
  else
    match brackets with
    | None => At [Some name]
    | Some r =>
        let '(keys, more) := keys_in (length r) max_depth r in
        if more : bool then Too_deep (Some name :: keys)
        else At (match bracket r with Some _ => Some name :: keys | None => [Some (name ++ 95 :: r)] end)
    end.

(** Whether a pair of brackets without a key on the path is at an array that is full. *)
Fixpoint refuses (path : list (option (list Z))) arr : bool :=
  match path with
  | [] => false
  | Some key :: path => refuses path (sub_array (symtable_key key) arr)
  | None :: path => bool_decide (KInt arr.1 ∈ arr.2.*1) || refuses path (0, [])
  end.

(** The elements of the array afterwards; a path that is too long removes the variable, unless it ends at a full
    array before. *)
Definition registered (keep : bool) (tg : target_of) (s : list Z) m : list (hkey * tree) :=
  match tg with
  | Ignored => m
  | Too_deep path =>
      if refuses (removelast path) (0, m) then m
      else match path with Some name :: _ => om_delete (symtable_key name) m | _ => m end
  | At path => (put keep path s (0, m)).2
  end.

(** ** Cutting the buffer *)
Definition no_nul (s : list Z) : Prop := Forall (fun c => c <> 0) s.

Lemma strlen_nul s t : no_nul s -> strlen (s ++ 0 :: t) = Some (Z.of_nat (length s)).
Proof.
  induction 1 as [|c s Hc _ IH]; [done|]. cbn [app strlen length]. rewrite (proj2 (Z.eqb_neq c 0)), IH by done. cbn. f_equal. lia.
Qed.

Lemma strlen_at_mid pre s t : no_nul s -> strlen_at (pre ++ s ++ 0 :: t) (Z.of_nat (length pre)) = Some (Z.of_nat (length s)).
Proof. intros H. unfold strlen_at. zbool. rewrite Nat2Z.id, drop_app_length. by apply strlen_nul. Qed.

Lemma bytes_at_mid pre s t : bytes_at (pre ++ s ++ t) (Z.of_nat (length pre)) (Z.of_nat (length s)) = Some s.
Proof. unfold bytes_at. rewrite !length_app. zbool. by rewrite !Nat2Z.id, drop_app_length, take_app_length. Qed.

Lemma strchr_cut c s t : no_nul s -> c <> 0 ->
  strchr (s ++ 0 :: t) c = Some (match cut c s with (a, Some _) => Some (Z.of_nat (length a)) | (_, None) => None end).
Proof.
  intros H Hc. induction H as [|x s Hx _ IH]; cbn [app strchr cut].
  - by rewrite (proj2 (Z.eqb_neq 0 c)) by done.
  - destruct (x =? c); [done|]. rewrite (proj2 (Z.eqb_neq x 0)), IH by done. cbn [mbind option_bind].
    destruct (cut c s) as [a [b|]]; cbn; [|done]. do 2 f_equal. lia.
Qed.

Lemma cut_eq c s : match cut c s with (a, Some b) => s = a ++ c :: b /\ Forall (fun x => x <> c) a | (a, None) => s = a /\ Forall (fun x => x <> c) a end.
Proof.
  induction s as [|x s IH]; cbn; [done|]. destruct (Z.eqb_spec x c) as [->|Hx]; [by split|].
  destruct (cut c s) as [a [b|]]; destruct IH as [-> Hf]; cbn; (split; [done|by constructor]).
Qed.

Lemma aget_head pre s t : aget (pre ++ s ++ 0 :: t) (Z.of_nat (length pre)) = Some (default 0 (head s)).
Proof. destruct s; cbn [app]; by rewrite aget_app_mid. Qed.

Lemma strchr_at_mid pre s t c : no_nul s -> c <> 0 -> strchr_at (pre ++ s ++ 0 :: t) (Z.of_nat (length pre)) c =
  Some (match cut c s with (a, Some _) => Some (Z.of_nat (length (pre ++ a))) | (_, None) => None end).
Proof.
  intros H Hc. unfold strchr_at. zbool. rewrite Nat2Z.id, drop_app_length, strchr_cut by done. cbn [mbind option_bind].
  destruct (cut c s) as [a [b|]]; [|done]. cbn. do 2 f_equal. rewrite length_app. lia.
Qed.

(** The positions of a buffer whose beginning grows. *)
Lemma snoc_pos (pre : list Z) x : Z.of_nat (length pre) + 1 = Z.of_nat (length (pre ++ [x])).
Proof. rewrite length_app. cbn. lia. Qed.

Lemma snoc_buf (pre t : list Z) x : pre ++ x :: t = (pre ++ [x]) ++ t.
Proof. by rewrite <- app_assoc. Qed.

(** The name of the variable in the buffer. *)
Lemma mangle_loop_ok todo : forall done t n, no_nul todo -> (length todo < n)%nat ->
  mangle_loop n (done ++ todo ++ 0 :: t) (Z.of_nat (length done)) =
    Some (match cut 91 todo with
          | (raw, Some r) => (done ++ mangle raw ++ 0 :: r ++ 0 :: t, Z.of_nat (length (done ++ raw)), true)
          | (raw, None) => (done ++ mangle raw ++ 0 :: t, Z.of_nat (length (done ++ raw)), false)
          end).
Proof.
  induction todo as [|c todo IH]; intros dn t n H Hn; (destruct n as [|n]; [cbn in Hn; lia|]); cbn [mangle_loop app].
  { rewrite aget_app_mid by done. cbn. by rewrite app_nil_r. }
  apply Forall_cons in H as [Hc H]. rewrite aget_app_mid by done. cbn [mbind option_bind cut].
  rewrite (proj2 (Z.eqb_neq c 0)) by done. assert (Hr : (length todo < n)%nat) by (cbn in Hn; lia).
  assert (forall x, match cut 91 todo with
     | (raw, Some r) => Some ((dn ++ [x]) ++ mangle raw ++ 0 :: r ++ 0 :: t, Z.of_nat (length ((dn ++ [x]) ++ raw)), true)
     | (raw, None) => Some ((dn ++ [x]) ++ mangle raw ++ 0 :: t, Z.of_nat (length ((dn ++ [x]) ++ raw)), false) end =
     mangle_loop n (dn ++ x :: todo ++ 0 :: t) (Z.of_nat (length dn) + 1)) as Hx.
  { intros x. rewrite (snoc_pos dn x), (snoc_buf dn (todo ++ 0 :: t) x), IH by done. by destruct (cut 91 todo) as [raw [r|]]. }
  destruct (Z.eqb_spec c 91) as [->|H91]; [cbn; by rewrite aset_app_mid, app_nil_r by done|].
  destruct ((c =? 32) || (c =? 46)) eqn:Em.
  - rewrite aset_app_mid by done. cbn [mbind option_bind]. rewrite <- Hx. destruct (cut 91 todo) as [raw [r|]]; cbn; rewrite Em, <- !app_assoc; cbn;
      rewrite !length_app; done.
  - rewrite <- Hx. destruct (cut 91 todo) as [raw [r|]]; cbn; rewrite Em, <- !app_assoc; cbn; rewrite !length_app; done.
Qed.

Lemma space_of_ok r : let '(sp, inside) := space_of r in
  r = sp ++ inside /\ cut 93 r = (sp ++ (cut 93 inside).1, (cut 93 inside).2).
Proof.
  unfold space_of. destruct r as [|c r]; [done|]. destruct (isspace c) eqn:Es.
  - split; [done|]. cbn. destruct (Z.eqb_spec c 93) as [->|]; [done|]. by destruct (cut 93 r).
  - split; [done|]. cbn [app]. by destruct (cut 93 (c :: r)).
Qed.

Lemma space_skipped (pre r : list Z) :
  (if isspace (default 0 (head r)) then Z.of_nat (length pre) + 1 else Z.of_nat (length pre)) = Z.of_nat (length (pre ++ (space_of r).1)).
Proof.
  destruct r as [|c r]; cbn; [by rewrite app_nil_r|]. destruct (isspace c); cbn; [apply snoc_pos|by rewrite app_nil_r].
Qed.

(** The step over one pair of brackets; [x] was the first of them. *)
Lemma next_index_ok pre x r t : no_nul r ->
  match bracket r with
  | None => next_index (pre ++ x :: r ++ 0 :: t) (Z.of_nat (length pre)) = Some (pre ++ 95 :: r ++ 0 :: t, None)
  | Some (None, rest) => exists skipped, r = skipped ++ rest /\
      next_index (pre ++ x :: r ++ 0 :: t) (Z.of_nat (length pre)) =
        Some (pre ++ x :: r ++ 0 :: t, Some (Z.of_nat (length (pre ++ skipped)), None, 0))
  | Some (Some key, rest) => r = key ++ 93 :: rest /\
      next_index (pre ++ x :: r ++ 0 :: t) (Z.of_nat (length pre)) =
        Some (pre ++ x :: key ++ 0 :: rest ++ 0 :: t,
              Some (Z.of_nat (length (pre ++ [x] ++ key)), Some (Z.of_nat (length (pre ++ [x]))), Z.of_nat (length key)))
  end.
Proof.
  intros H. unfold next_index. rewrite (snoc_pos pre x), (snoc_buf pre (r ++ 0 :: t) x).
  replace (Z.of_nat (length (pre ++ [x])) - 1) with (Z.of_nat (length pre)) by (rewrite <- snoc_pos; lia).
  rewrite aget_head. cbn [mbind option_bind]. rewrite space_skipped. unfold bracket. pose proof (space_of_ok r) as Hsp. pose proof (cut_eq 93 r) as Hcut.
  destruct (space_of r) as [sp ins]. cbn [fst snd]. destruct Hsp as [Er Ecut].
  replace ((pre ++ [x]) ++ r ++ 0 :: t) with (((pre ++ [x]) ++ sp) ++ ins ++ 0 :: t) by (rewrite Er; by rewrite <- !app_assoc).
  rewrite aget_head. cbn [mbind option_bind]. destruct (Z.eqb_spec (default 0 (head ins)) 93) as [E93|N93].
  { destruct ins as [|c ins]; [done|]. cbn in E93. subst c. exists (sp ++ [93]). split; [rewrite Er; by rewrite <- app_assoc|].
    replace (length (pre ++ sp ++ [93])) with (length ((pre ++ [x]) ++ sp)) by (rewrite !length_app; cbn; lia). done. }
  assert (Hins : no_nul ins) by (rewrite Er in H; by apply Forall_app in H as [_ H]).
  rewrite bool_decide_eq_false_2 by (intros E; rewrite E in N93; done). rewrite strchr_at_mid by done. cbn [mbind option_bind].
  rewrite Ecut in Hcut |- *. destruct (cut 93 ins) as [a [b|]] eqn:Ea; cbn [fst snd] in *.
  - destruct Hcut as [Er' _]. split; [done|]. pose proof (cut_eq 93 ins) as Hi. rewrite Ea in Hi. destruct Hi as [-> _].
    rewrite Er' in H. apply Forall_app in H as [Hk _].
    replace (((pre ++ [x]) ++ sp) ++ (a ++ 93 :: b) ++ 0 :: t) with ((((pre ++ [x]) ++ sp) ++ a) ++ 93 :: b ++ 0 :: t) by by rewrite <- !app_assoc.
    rewrite aset_app_mid by done. cbn [mbind option_bind].
    replace ((((pre ++ [x]) ++ sp) ++ a) ++ 0 :: b ++ 0 :: t) with ((pre ++ [x]) ++ (sp ++ a) ++ 0 :: b ++ 0 :: t) by by rewrite <- !app_assoc.
    rewrite strlen_at_mid by done. cbn [mbind option_bind]. rewrite <- !app_assoc. done.
  - destruct Hcut as [Er' _]. rewrite Er. rewrite <- !app_assoc. cbn [app]. by rewrite aset_app_mid.
Qed.
