(* ===== verification/PhpVariablesRep.v ===== *)
(** * Arrays in the store are trees

    A tree is represented by a table for every array in it; the addresses of these tables are its footprint.
    Footprints of different elements are disjoint, so a change to the tables of one of them leaves the others
    alone.  [array_at] describes one array, for which nothing is known of the next key unless it is [strict]:
    the table of the variables themselves may have lost elements. *)
From S2P Require Import Prelude ZendString ZendLong ZendHash OrderedMap ZendHashInv ZendHashRehash ZendHashUpdate ZendHashDelete ZendHashMap ZendHashNext ZendSymtable PhpVariables PhpVariablesSpec.

Inductive rep (n : Z) (T : gmap Z (HashTable input)) : zval input -> tree -> gset Z -> Prop :=
| rep_leaf s : rep n T (IS_VAL (VString s)) (Leaf s) ∅
| rep_node a ht bs m F : T !! a = Some ht -> wf ht bs -> capped n ht -> dense ht -> reps n T (entries bs) m F -> a ∉ F ->
    rep n T (IS_VAL (VArray a)) (Node (nNextFreeElement ht) m) ({[a]} ∪ F)
with reps (n : Z) (T : gmap Z (HashTable input)) : list (hkey * zval input) -> list (hkey * tree) -> gset Z -> Prop :=
| reps_nil : reps n T [] [] ∅
| reps_cons k z t zs m F1 F2 : rep n T z t F1 -> reps n T zs m F2 -> F1 ## F2 -> reps n T ((k, z) :: zs) ((k, t) :: m) (F1 ∪ F2).

Scheme rep_mind := Minimality for rep Sort Prop with reps_mind := Minimality for reps Sort Prop.
Combined Scheme rep_reps_mind from rep_mind, reps_mind.

(** [T'] has the tables of [T] in [F]. *)
Definition same_on (F : gset Z) (T T' : gmap Z (HashTable input)) : Prop := forall x, x ∈ F -> T' !! x = T !! x.

Section Rep.
Implicit Types (T : gmap Z (HashTable input)) (zs : list (hkey * zval input)) (m : list (hkey * tree)) (F : gset Z) (n : Z).

Lemma rep_frame_both n n' T T' : n <= n' ->
  (forall z t F, rep n T z t F -> same_on F T T' -> rep n' T' z t F) /\
  (forall zs m F, reps n T zs m F -> same_on F T T' -> reps n' T' zs m F).
Proof.
  intros Hn. apply rep_reps_mind.
  - intros s _. constructor.
  - intros a ht bs m F Ha Hwf Hc Hd _ IH Haf HT. econstructor; [|done|by apply (capped_le n)|done| |done].
    + rewrite HT; [done|]. set_solver.
    + apply IH. intros x Hx. apply HT. set_solver.
  - constructor.
  - intros k z t zs m F1 F2 _ IH1 _ IH2 Hd HT. constructor; [apply IH1|apply IH2|done]; intros x Hx; apply HT; set_solver.
Qed.

Lemma rep_frame n n' T T' z t F : rep n T z t F -> n <= n' -> same_on F T T' -> rep n' T' z t F.
Proof. intros H Hn. by apply (proj1 (rep_frame_both n n' T T' Hn)). Qed.

Lemma reps_frame n n' T T' zs m F : reps n T zs m F -> n <= n' -> same_on F T T' -> reps n' T' zs m F.
Proof. intros H Hn. by apply (proj2 (rep_frame_both n n' T T' Hn)). Qed.

Lemma rep_dom_both n T :
  (forall z t F, rep n T z t F -> forall x, x ∈ F -> is_Some (T !! x)) /\ (forall zs m F, reps n T zs m F -> forall x, x ∈ F -> is_Some (T !! x)).
Proof.
  apply rep_reps_mind.
  - set_solver.
  - intros a ht bs m F Ha _ _ _ _ IH _ x [->%elem_of_singleton|Hx]%elem_of_union; [by eexists|by apply IH].
  - set_solver.
  - intros k z t zs m F1 F2 _ IH1 _ IH2 _ x [Hx|Hx]%elem_of_union; auto.
Qed.

Lemma reps_dom n T zs m F x : reps n T zs m F -> x ∈ F -> is_Some (T !! x).
Proof. intros H. by apply (proj2 (rep_dom_both n T) zs m F). Qed.

Lemma reps_keys n T zs m F : reps n T zs m F -> zs.*1 = m.*1.
Proof. induction 1 as [|k z t zs m F1 F2 _ _ IH _]; [done|]. cbn. by rewrite IH. Qed.

(** One element can be taken out and put back changed. *)
Lemma reps_focus n T zs m F k z : reps n T zs m F -> om_lookup k zs = Some z ->
  exists t F1 F2, om_lookup k m = Some t /\ rep n T z t F1 /\ F = F1 ∪ F2 /\ F1 ## F2 /\
    forall n' T' z' t' F', n <= n' -> rep n' T' z' t' F' -> F' ## F2 -> same_on F2 T T' ->
      reps n' T' (om_insert k z' zs) (om_insert k t' m) (F' ∪ F2).
Proof.
  induction 1 as [|k0 z0 t0 zs m F1 F2 Hr Hrs IH Hdis]; cbn; [done|]. destruct (decide (k = k0)) as [<-|Hne].
  - intros [= ->]. exists t0, F1, F2. split_and!; try done. intros n' T' z' t' F' Hn Hr' Hd HT. constructor; [done| |done]. by apply (reps_frame n n' T).
  - intros Hl. destruct (IH Hl) as (t & Fa & Fb & Hm & Hrt & -> & Hd & Hput). exists t, Fa, (Fb ∪ F1). split; [done|]. split; [done|].
    split; [clear; set_solver|]. split; [clear -Hd Hdis; set_solver|]. intros n' T' z' t' F' Hn Hr' Hd' HT.
    replace (F' ∪ (Fb ∪ F1)) with (F1 ∪ (F' ∪ Fb)) by (clear; set_solver). constructor.
    + apply (rep_frame n n' T); [done|done|]. intros x Hx. apply HT. clear -Hx. set_solver.
    + apply Hput; [done|done|clear -Hd'; set_solver|]. intros x Hx. apply HT. clear -Hx. set_solver.
    + clear -Hdis Hd'. set_solver.
Qed.

Lemma reps_None n T zs m F k : reps n T zs m F -> om_lookup k zs = None <-> om_lookup k m = None.
Proof. intros H. by rewrite !om_lookup_None, (reps_keys _ _ _ _ _ H). Qed.

Lemma reps_insert n T zs m F k z t F1 : reps n T zs m F -> rep n T z t F1 -> F1 ## F ->
  exists F', reps n T (om_insert k z zs) (om_insert k t m) (F1 ∪ F') /\ F' ⊆ F.
Proof.
  intros H Hr Hd. destruct (om_lookup k zs) as [z0|] eqn:E.
  - destruct (reps_focus _ _ _ _ _ _ _ H E) as (t0 & Fa & Fb & _ & _ & -> & _ & Hput). exists Fb. split; [|clear; set_solver].
    apply Hput; [lia|done|clear -Hd; set_solver|by intros x].
  - exists F. split; [|done]. revert Hd E. induction H as [|k0 z0 t0 zs m Fa Fb Hr0 Hrs IH Hdis]; intros Hd E; cbn in *.
    + by constructor; [|constructor|].
    + destruct (decide (k = k0)); [done|]. replace (F1 ∪ (Fa ∪ Fb)) with (Fa ∪ (F1 ∪ Fb)) by (clear; set_solver).
      constructor; [done|apply IH; [clear -Hd; set_solver|done]|clear -Hd Hdis; set_solver].
Qed.

Lemma reps_delete n T zs m F k : reps n T zs m F -> exists F', reps n T (om_delete k zs) (om_delete k m) F' /\ F' ⊆ F.
Proof.
  induction 1 as [|k0 z0 t0 zs m Fa Fb Hr0 Hrs (F' & H' & Hs) Hdis]; cbn; [exists ∅; by split; [constructor|]|].
  destruct (decide (k = k0)); [exists Fb; split; [done|clear; set_solver]|].
  exists (Fa ∪ F'). split; [|clear -Hs; set_solver]. constructor; [done|done|clear -Hdis Hs; set_solver].
Qed.

(** ** One array *)
Definition array_at (strict : bool) n T (a : Z) (arr : array) F : Prop :=
  exists ht bs Fm, T !! a = Some ht /\ wf ht bs /\ capped n ht /\ (strict = true -> dense ht /\ nNextFreeElement ht = arr.1) /\
    reps n T (entries bs) arr.2 Fm /\ a ∉ Fm /\ F = {[a]} ∪ Fm.

Lemma rep_array n T a t F : rep n T (IS_VAL (VArray a)) t F <-> exists arr, t = node arr /\ array_at true n T a arr F.
Proof.
  split.
  - intros H. remember (IS_VAL (VArray a)) as z. destruct H as [|a' ht bs m F Ha Hwf Hc Hd Hr Haf]; [done|]. injection Heqz as ->.
    exists (nNextFreeElement ht, m). split; [done|]. exists ht, bs, F. by split_and!.
  - intros ([next m] & -> & ht & bs & Fm & Ha & Hwf & Hc & Hs & Hr & Haf & ->). destruct (Hs eq_refl) as [Hd E]. cbn in E.
    subst next. by apply (rep_node n T a ht bs).
Qed.

Lemma array_dom strict n T a arr F x : array_at strict n T a arr F -> x ∈ F -> is_Some (T !! x).
Proof. intros (ht & bs & Fm & Ha & _ & _ & _ & Hr & _ & ->) [->%elem_of_singleton|Hx]%elem_of_union; [by eexists|exact (reps_dom _ _ _ _ _ x Hr Hx)]. Qed.

Lemma array_root strict n T a arr F : array_at strict n T a arr F -> a ∈ F.
Proof. intros (ht & bs & Fm & _ & _ & _ & _ & _ & _ & ->). set_solver. Qed.

Lemma array_frame strict n n' T T' a arr F : array_at strict n T a arr F -> n <= n' -> same_on F T T' -> array_at strict n' T' a arr F.
Proof.
  intros (ht & bs & Fm & Ha & Hwf & Hc & Hs & Hr & Haf & ->) Hn HT. exists ht, bs, Fm. split_and!; try done.
  - rewrite HT; [done|clear; set_solver].
  - by apply (capped_le n).
  - apply (reps_frame n n' T); [done|done|]. intros x Hx. apply HT. clear -Hx. set_solver.
Qed.

Lemma array_weaken strict n T a arr F : array_at strict n T a arr F -> array_at false n T a arr F.
Proof. intros (ht & bs & Fm & Ha & Hwf & Hc & _ & H). exists ht, bs, Fm. split_and!; [done..| |apply H|apply H|apply H]. intros [=]. Qed.
End Rep.
