(* ===== verification/PhpVariablesRegister.v ===== *)
(** * Registering a request variable

    [php_register_variable_ex] puts the value where the name says: the tables that represent a tree represent,
    afterwards, the tree with a leaf at the end of the path. *)
From S2P Require Import Prelude ZendString ZendLong ZendHash OrderedMap ZendHashInv ZendHashRehash ZendHashUpdate ZendHashDelete ZendHashMap ZendHashNext ZendSymtable PhpVariables PhpVariablesSpec PhpVariablesRep.

Implicit Types (st : php_vars) (arr : array) (F : gset Z) (k : hkey) (z : zval input).

(** ** Steps on the store *)

(** Only the table at [a] is different. *)
Record touches (a : Z) st st' : Prop := {
  tc_tables : forall x, x <> a -> tables st' !! x = tables st !! x;
  tc_fresh : fresh_table st' = fresh_table st;
  tc_errors : errors st' = errors st;
  tc_cookies : cookies st' = cookies st }.

(** What an insertion under the key [k] does to a table and its next key. *)
Definition inserts_at ht (bs : list (Bucket input)) k z (r : option (result input)) : Prop :=
  (exists G' ht' bs' ref, r = Some (G', ht', Some ref) /\ wf ht' bs' /\ entries bs' = om_insert k z (entries bs) /\
     zread G' ht' ref = Some z /\ grows ht ht') /\
  forall G' ht' ref, dense ht -> r = Some (G', ht', ref) ->
    nNextFreeElement ht' = (if decide (k ∈ (entries bs).*1) then nNextFreeElement ht else next_after (nNextFreeElement ht) k) /\ dense ht'.

Definition inserts (f : executor_globals input -> HashTable input -> option (result input)) k z : Prop :=
  forall G ht bs, wf ht bs -> nTableSize ht <= 2 ^ 29 -> (forall s, om_lookup k (entries bs) <> Some (IS_INDIRECT s)) ->
    inserts_at ht bs k z (f G ht).

Lemma inserted_at G ht bs k z r : inserted G ht bs k z r ->
  exists G' ht' bs' ref, r = Some (G', ht', Some ref) /\ wf ht' bs' /\ entries bs' = om_insert k z (entries bs) /\
     zread G' ht' ref = Some z /\ grows ht ht'.
Proof. intros (G' & ht' & bs' & ref & ? & ? & ? & ? & _ & _ & _ & ?). by exists G', ht', bs', ref. Qed.

(** The element of the table at [a] under the key. *)
Definition entry_at (T : gmap Z (HashTable input)) (a : Z) k z : Prop := exists ht bs, T !! a = Some ht /\ wf ht bs /\ om_lookup k (entries bs) = Some z.

Lemma reps_direct n T zs m F k s : reps n T zs m F -> om_lookup k zs <> Some (IS_INDIRECT s).
Proof. intros H E. destruct (reps_focus _ _ _ _ _ _ _ H E) as (t & F1 & F2 & _ & Hr & _). inversion Hr. Qed.

Lemma on_table_inserts strict n st a arr F k z t F1 f : array_at strict n (tables st) a arr F -> rep n (tables st) z t F1 -> F1 ## F ->
  0 <= n < 2 ^ 26 ->
  (forall ht bs, tables st !! a = Some ht -> wf ht bs -> nTableSize ht <= 2 ^ 29 -> (forall s, om_lookup k (entries bs) <> Some (IS_INDIRECT s)) ->
    inserts_at ht bs k z (f (EG st) ht)) ->
  exists st' r F', on_table st a f = Some (st', Some r) /\ array_at strict (n + 1) (tables st') a (set_key k t arr) (F1 ∪ F') /\ F' ⊆ F /\
    touches a st st' /\ read_at st' a r = Some z /\ entry_at (tables st') a k z.
Proof.
  intros (ht & bs & Fm & Ha & Hwf & Hc & Hs & Hr & Haf & ->) Hz Hd Hn Hf.
  assert (Hsz : nTableSize ht <= 2 ^ 29) by (apply (capped_size n); [done|lia]).
  destruct (Hf ht bs Ha Hwf Hsz) as [(G' & ht' & bs' & r & E & Hwf' & Hen & Hread & Hg) Hnext]; [intros s; by eapply reps_direct|].
  destruct (reps_insert n (tables st) (entries bs) arr.2 Fm k z t F1 Hr Hz) as (F' & Hr' & Hsub); [clear -Hd; set_solver|].
  eexists _, r, ({[a]} ∪ F'). unfold on_table. rewrite Ha. cbn [mbind option_bind]. rewrite E. cbn [mbind option_bind]. split; [done|]. split; [|split; [clear -Hsub; set_solver|]].
  - assert (Hsame : same_on (F1 ∪ F') (tables st) (<[a := ht']> (tables st))).
    { intros x Hx. rewrite lookup_insert_ne; [done|]. intros ->. clear -Hx Haf Hd Hsub. set_solver. }
    exists ht', bs', (F1 ∪ F'). cbn [tables]. split_and!.
    + by rewrite lookup_insert_eq.
    + done.
    + by apply Hg.
    + intros E1. destruct (Hs E1) as [Hde Enx]. destruct (Hnext _ _ _ Hde E) as [E2 Hde']. split; [done|]. rewrite E2, Enx. cbn.
      by rewrite (reps_keys _ _ _ _ _ Hr).
    + rewrite Hen. apply (reps_frame n _ (tables st)); [done|lia|done].
    + clear -Haf Hsub Hd. set_solver.
    + clear. set_solver.
  - split.
    + constructor; try done. intros x Hx. cbn. by rewrite lookup_insert_ne.
    + unfold read_at, entry_at. cbn. rewrite lookup_insert_eq. split; [done|]. exists ht', bs'. split_and!; [done|done|].
      rewrite Hen. apply om_lookup_insert.
Qed.

(** ** The operations of the tables *)
Lemma update_ind_inserts (s : list Z) z (interned : bool) : Z_ISUNDEF z = false ->
  inserts (fun G ht => zend_hash_update_ind G ht {| ZSTR_VAL := s; ZSTR_IS_INTERNED := interned |} z) (KStr s) z.
Proof.
  intros Hz G ht bs Hwf Hsz Hdirect. set (key := {| ZSTR_VAL := s; ZSTR_IS_INTERNED := interned |}). split.
  - unfold zend_hash_update_ind. change (KStr s) with (KStr (ZSTR_VAL key)).
    destruct (key_cases _ _ (KStr (ZSTR_VAL key)) Hwf) as [(bs1 & b & bs2 & Hh)|Hk]; [|by eapply inserted_at, string_fresh].
    rewrite (string_found key z (Z.lor HASH_UPDATE HASH_UPDATE_INDIRECT) G ht bs bs1 b bs2 Hwf Hh eq_refl). pose proof Hh as (E & Hl & _). unfold found_bucket.
    cbn [zread]. rewrite (wf_bucket _ _ _ b Hwf) by (rewrite E; by apply list_lookup_middle). cbn [fmap option_fmap option_map mbind option_bind].
    change (has (Z.lor HASH_UPDATE HASH_UPDATE_INDIRECT) HASH_ADD) with false. cbn iota.
    destruct (val b) eqn:Ev; [by eapply inserted_at, (replaced_inserted _ _ _ _ _ b bs2)| |by eapply inserted_at, (replaced_inserted _ _ _ _ _ b bs2)].
    destruct (Hdirect slot). cbn in Hh. by rewrite (holds_entries _ _ _ _ _ Hh), om_lookup_middle, Ev by apply Hh.
  - intros G' ht' r Hd E. apply add_or_update_next in E as [-> Hd']; [|done]. split; [|done]. by destruct (decide _).
Qed.

Lemma symtable_update_inserts (s : list Z) z : Forall is_u8 s -> Z_ISUNDEF z = false ->
  inserts (fun G ht => zend_symtable_str_update_ind G ht s z) (symtable_key s) z.
Proof.
  intros Hu Hz G ht bs Hwf Hsz Hdirect. unfold zend_symtable_str_update_ind.
  destruct (handle_numeric_str s Hu) as [(idx & -> & E & Hi)|[-> E]]; rewrite E in *; cbn [mbind option_bind].
  - split; [by eapply inserted_at, index_update_inserted|]. intros G' ht' r Hd E'. by apply (index_update_next G ht bs idx z G' ht' r).
  - unfold zend_hash_str_update_ind. rewrite (str_add_or_update_same G ht bs) by done.
    by apply (update_ind_inserts s z false Hz G ht bs).
Qed.

(** [php_register_variable_quick] or [zend_hash_index_update], as the key is a number or not. *)
Lemma index_update_inserts idx z : is_u64 idx -> Z_ISUNDEF z = false -> inserts (fun G ht => zend_hash_index_update G ht idx z) (KInt idx) z.
Proof.
  intros Hi Hz G ht bs Hwf Hsz _. split; [by eapply inserted_at, index_update_inserted|]. intros G' ht' r Hd E. by apply (index_update_next G ht bs idx z G' ht' r).
Qed.

Lemma wf_unique (ht : HashTable input) bs bs' : wf ht bs -> wf ht bs' -> bs = bs'.
Proof.
  intros Hwf Hwf'. destruct (wf_cells _ _ Hwf) as [r1 E1], (wf_cells _ _ Hwf') as [r2 E2]. rewrite E1 in E2.
  pose proof (wf_used _ _ Hwf). pose proof (wf_used _ _ Hwf'). apply app_inj_1 in E2 as [E2 _]; [|rewrite !length_fmap; lia].
  by apply (inj (fmap Some)) in E2.
Qed.

(** An element without a key: it is refused when the keys are used up. *)
Lemma append_inserts n T a arr F z : array_at true n T a arr F -> Z_ISUNDEF z = false -> n <= 2 ^ 26 ->
  exists ht, T !! a = Some ht /\ forall G,
    if decide (KInt arr.1 ∈ arr.2.*1) then zend_hash_next_index_insert G ht z = Some (G, ht, None)
    else forall bs, wf ht bs -> inserts_at ht bs (KInt arr.1) z (zend_hash_next_index_insert G ht z).
Proof.
  intros (ht & bs & Fm & Ha & Hwf & Hc & Hs & Hr & Haf & ->) Hz Hn. destruct (Hs eq_refl) as [Hde Enx]. exists ht. split; [done|]. intros G.
  assert (Hsz : nTableSize ht <= 2 ^ 29) by by apply (capped_size n). pose proof (wf_next _ _ Hwf) as Hn0. unfold ZEND_LONG_MAX in Hn0.
  assert (Hu : u64 (nNextFreeElement ht) = nNextFreeElement ht) by (unfold u64; rewrite uwrap_small; lia).
  pose proof (next_insert_appended G ht bs z Hwf Hsz Hz) as Hins. rewrite Enx in Hins. rewrite <- (reps_keys _ _ _ _ _ Hr).
  destruct (decide (KInt arr.1 ∈ (entries bs).*1)) as [Hk|Hk]; [by destruct Hins as [_ Hins]|].
  intros bs1 Hwf1. rewrite <- (wf_unique ht bs bs1 Hwf Hwf1). split; [by eapply inserted_at|].
  intros G' ht' r Hde' E. unfold zend_hash_next_index_insert in E. rewrite Hu, Enx in E.
  rewrite decide_False by done. by apply (index_fresh_next G ht bs arr.1 z _ G' ht' r Hwf Hde' ltac:(unfold is_u64; lia)) in E.
Qed.

(** Writing to an element that is there. *)
Lemma zwrite_inserts (ht : HashTable input) bs k bs1 b bs2 z : wf ht bs -> holds bs k bs1 b bs2 -> Z_ISUNDEF z = false ->
  forall G, inserts_at ht bs k z ('(G, ht) ← zwrite G ht (ZBUCKET (Z.of_nat (length bs1))) z; Some (G, ht, Some (ZBUCKET (Z.of_nat (length bs1))))).
Proof.
  intros Hwf Hh Hz G. destruct (replaced_inserted G ht bs k bs1 b bs2 z Hwf Hh Hz) as (G' & ht' & bs' & ref & E & Hwf' & Hen & Hread & _ & _ & _ & Hg).
  assert (exists G1, zwrite G ht (ZBUCKET (Z.of_nat (length bs1))) z = Some (G1, ht') /\ ref = ZBUCKET (Z.of_nat (length bs1))) as (G1 & Ew & ->).
  { unfold replace_at in E. destruct (zread G ht _) as [old|]; [|done]. cbn [mbind option_bind] in E. unfold zwrite in E |- *.
    destruct (bucket (arData ht) _) as [p|]; [|done]. cbn [mbind option_bind] in E |- *. destruct (set_bucket _ _ _) as [ar|]; [|done].
    cbn [mbind option_bind] in E |- *. injection E as <- <- <-. by exists G. }
  rewrite Ew. cbn [mbind option_bind]. split; [by exists G1, ht', bs', (ZBUCKET (Z.of_nat (length bs1)))|].
  intros G2 ht2 r Hd [= <- <- <-]. apply zwrite_next in Ew as [-> Hd']. split; [|by apply Hd']. rewrite decide_True; [done|].
  rewrite (holds_entries _ _ _ _ _ Hh), fmap_app. apply elem_of_app. right. by left.
Qed.

(** The pointer that a look-up gives is to the bucket of the key. *)
Lemma symtable_find_holds (ht : HashTable input) bs (s : list Z) : Forall is_u8 s -> wf ht bs ->
  match om_lookup (symtable_key s) (entries bs) with
  | Some z => exists bs1 b bs2, holds bs (symtable_key s) bs1 b bs2 /\ val b = z /\
      zend_symtable_str_find ht s = Some (Some (ZBUCKET (Z.of_nat (length bs1))))
  | None => zend_symtable_str_find ht s = Some None
  end.
Proof.
  intros Hu Hwf. pose proof (symtable_str_find_looks_up {| ht_iterators := []; ht_iterators_used := 0; slots := ∅; destroyed := [] |} ht bs s Hu Hwf) as (ref & E & Href).
  rewrite E. destruct (om_lookup (symtable_key s) (entries bs)) as [z|] eqn:El.
  2:{ destruct ref as [ref|]; [|done]. by destruct Href as (z & _ & [=]). }
  destruct ref as [ref|]; [|done]. destruct Href as (z' & Hr & [= ->]).
  destruct (key_cases _ _ (symtable_key s) Hwf) as [(bs1 & b & bs2 & Hh)|Hk]; [|apply om_lookup_None in Hk; congruence].
  exists bs1, b, bs2. split; [done|]. split.
  { rewrite (holds_entries _ _ _ _ _ Hh), om_lookup_middle in El by apply Hh. by injection El. }
  do 2 f_equal. unfold zend_symtable_str_find in E. destruct (handle_numeric_str s Hu) as [(idx & Ei & Ek & Hi)|[Ei Ek]]; rewrite Ei in E; cbn [mbind option_bind] in E; rewrite Ek in *.
  - unfold zend_hash_index_find in E. destruct (HASH_FLAG_PACKED ht) eqn:Hp.
    + destruct (idx <? nNumUsed ht); [|done]. destruct (bucket (arData ht) idx); [|done]. cbn [mbind option_bind] in E. destruct (Z_ISUNDEF _); [done|]. injection E as <-.
      destruct (packed_layout _ _ Hwf Hp) as (_ & _ & _ & Hpk). destruct Hh as (Ebs & Hl & Hkb & _).
      destruct (Hpk (length bs1) b) as [Eh Ekey]; [rewrite Ebs; by apply list_lookup_middle|done|]. unfold bkey in Hkb. rewrite Ekey, Eh in Hkb. by injection Hkb as ->.
    + destruct (mixed_dec ht) as [Hm|Hm].
      * rewrite (index_find_bucket_key _ _ _ Hwf Hm), (find_key_holds _ _ _ _ _ Hh) in E. by injection E as <-.
      * pose proof (wf_layout _ _ Hwf) as Hla. unfold layout in Hla. destruct (HASH_FLAG_UNINITIALIZED ht) eqn:Hun; [|by destruct Hm].
        destruct Hla as (_ & _ & ->). by destruct Hh as (Ebs & _); destruct bs1.
  - unfold zend_hash_str_find in E. rewrite (str_find_bucket_key _ _ _ Hwf), (find_key_holds _ _ _ _ _ Hh) in E. by injection E as <-.
Qed.

(** ** An array inside another *)
Lemma om_insert_same {A} k (x : A) m : om_lookup k m = Some x -> om_insert k x m = m.
Proof.
  induction m as [|[k' x'] m IH]; cbn; [done|]. destruct (decide (k = k')) as [->|]; [by intros [= ->]|]. intros E. by rewrite IH.
Qed.

Lemma om_insert_twice {A} k (x y : A) m : om_insert k x (om_insert k y m) = om_insert k x m.
Proof.
  induction m as [|[k' x'] m IH]; cbn; [by rewrite decide_True|]. destruct (decide (k = k')) as [->|]; cbn; [by rewrite decide_True|]. rewrite decide_False by done. by rewrite IH.
Qed.

Lemma set_key_present k t arr : k ∈ arr.2.*1 -> set_key k t arr = (arr.1, om_insert k t arr.2).
Proof. intros H. unfold set_key. by rewrite decide_True. Qed.

Lemma set_key_twice k t t' arr : set_key k t (set_key k t' arr) = set_key k t arr.
Proof.
  rewrite set_key_present; [|apply elem_of_keys_insert; by left]. unfold set_key. cbn. by rewrite om_insert_twice.
Qed.

(** The array at the element [z] of the array at [a] can change by itself. *)
Lemma array_focus strict n T a arr F k z : array_at strict n T a arr F -> entry_at T a k z ->
  exists t F1 F2, om_lookup k arr.2 = Some t /\ rep n T z t F1 /\ F = F1 ∪ F2 /\ F1 ## F2 /\ a ∈ F2 /\
    forall n' T' t' F', n <= n' -> rep n' T' z t' F' -> F' ## F2 -> same_on F2 T T' -> array_at strict n' T' a (set_key k t' arr) (F' ∪ F2).
Proof.
  intros (ht & bs & Fm & Ha & Hwf & Hc & Hs & Hr & Haf & ->) (ht1 & bs1 & Ha1 & Hwf1 & El).
  assert (ht1 = ht) as -> by congruence. rewrite <- (wf_unique _ _ _ Hwf Hwf1) in El.
  destruct (reps_focus _ _ _ _ _ _ _ Hr El) as (t & F1 & F2 & Em & Hz & -> & Hd & Hput).
  exists t, F1, ({[a]} ∪ F2). split; [done|]. split; [done|]. split; [clear; set_solver|]. split; [clear -Hd Haf; set_solver|]. split; [clear; set_solver|].
  intros n' T' t' F' Hn Hz' Hd' HT. rewrite set_key_present.
  2:{ destruct (decide (k ∈ arr.2.*1)) as [|Hk]; [done|]. apply om_lookup_None in Hk. congruence. }
  exists ht, bs, (F' ∪ F2). split_and!; try done.
  - rewrite HT; [done|clear; set_solver].
  - by apply (capped_le n).
  - rewrite <- (om_insert_same k z (entries bs) El). apply Hput; [done|done|clear -Hd'; set_solver|]. intros x Hx. apply HT. clear -Hx. set_solver.
  - clear -Hd' Haf. set_solver.
  - clear. set_solver.
Qed.

(** From [st] to [st'], only the tables in [F] changed and new ones came; [F'] is among these. *)
Record evolves st st' F F' : Prop := {
  ev_tables : forall x, x < fresh_table st -> x ∉ F -> tables st' !! x = tables st !! x;
  ev_foot : forall x, x ∈ F' -> x ∈ F \/ fresh_table st <= x;
  ev_fresh : fresh_table st <= fresh_table st';
  ev_below : forall x, is_Some (tables st' !! x) -> x < fresh_table st';
  ev_errors : errors st' = errors st;
  ev_cookies : cookies st' = cookies st }.

Definition fresh_ok st : Prop := forall x, is_Some (tables st !! x) -> x < fresh_table st.

Lemma evolves_refl st F : fresh_ok st -> evolves st st F F.
Proof. intros H. constructor; try done; auto. Qed.

Lemma evolves_trans st st1 st2 F F1 F2 : evolves st st1 F F1 -> evolves st1 st2 F1 F2 -> evolves st st2 F F2.
Proof.
  intros [T1 P1 N1 B1 E1 C1] [T2 P2 N2 B2 E2 C2]. constructor; try congruence; try lia; try done.
  - intros x Hx Hn. rewrite T2, T1; [done..|lia|]. intros [?|?]%P1; [done|lia].
  - intros x [Hx|Hx]%P2; [by apply P1|right; lia].
Qed.

Lemma evolves_foot st st' F F1 F2 : evolves st st' F F1 -> (forall x, x ∈ F2 -> x ∈ F1 \/ x ∈ F \/ fresh_table st <= x) -> evolves st st' F F2.
Proof. intros [T1 P1 N1 B1 E1 C1] H. constructor; try done. intros x [Hx|Hx]%H; [by apply P1|done]. Qed.

Lemma touches_evolves a st st' F F' : fresh_ok st -> touches a st st' -> a ∈ F -> is_Some (tables st !! a) -> F' ⊆ F -> evolves st st' F F'.
Proof.
  intros Hf [T1 N1 E1 C1] Ha Hs Hsub. constructor; rewrite ?N1; try done.
  - intros x _ Hx. apply T1. by intros ->.
  - intros x Hx. left. by apply Hsub.
  - intros x Hx. destruct (decide (x = a)) as [->|Hne]; [by apply Hf|]. apply Hf. by rewrite <- T1.
Qed.

Lemma array_init_ok st n F : fresh_ok st -> 0 <= n -> exists st', let b := fresh_table st in
  array_init st = Some (st', IS_VAL (VArray b)) /\ evolves st st' F (F ∪ {[b]}) /\ fresh_table st' = b + 1 /\
  (forall x, x <> b -> tables st' !! x = tables st !! x) /\
  rep n (tables st') (IS_VAL (VArray b)) (Node 0 []) {[b]}.
Proof.
  intros Hf Hn. unfold array_init. destruct (_zend_hash_init (fresh_table st) 8 true false) as [ht|] eqn:E; [|done]. cbn [mbind option_bind].
  pose proof E as Ei. apply init_wf in E as (Hwf & Hc & _). eexists. split; [done|]. split; [|split; [done|split]].
  - constructor; cbn; try done.
    + intros x Hx _. rewrite lookup_insert_ne; [done|lia].
    + intros x [Hx|Hx%elem_of_singleton]%elem_of_union; [by left|right; lia].
    + lia.
    + intros x [->|[_ Hx%Hf]]%lookup_insert_is_Some; lia.
  - intros x Hx. cbn. by rewrite lookup_insert_ne.
  - cbn [tables]. replace 0 with (nNextFreeElement ht) at 1 by by injection Ei as <-. replace {[fresh_table st]} with ({[fresh_table st]} ∪ ∅ : gset Z) by (clear; set_solver).
    apply (rep_node n _ _ ht []); [by rewrite lookup_insert_eq|done|by apply (capped_le 0)| |constructor|clear; set_solver].
    injection Ei as <-. by split.
Qed.

(** ** Into an element and back *)

(** The array at [b] is inside the one at [a]; when it has become [arr2], the one at [a] is [back arr2]. *)
Definition enters (strict : bool) n st F st' a (b : Z) (sub : array) (back : array -> array) : Prop :=
  exists Fb, array_at true (n + 1) (tables st') b sub Fb /\ a ∉ Fb /\ evolves st st' F Fb /\
    forall n2 st2 arr2 F2, n + 1 <= n2 -> evolves st' st2 Fb F2 -> array_at true n2 (tables st2) b arr2 F2 ->
      exists F', array_at strict n2 (tables st2) a (back arr2) F' /\ evolves st st2 F F'.

Lemma focus_enters strict n n' st st1 F F1 a arr1 k b sub : evolves st st1 F F1 -> array_at strict n' (tables st1) a arr1 F1 -> n' <= n + 1 ->
  entry_at (tables st1) a k (IS_VAL (VArray b)) -> om_lookup k arr1.2 = Some (node sub) ->
  enters strict n st F st1 a b sub (fun arr2 => set_key k (node arr2) arr1).
Proof.
  intros Hev Ha Hn Hent Hl. destruct (array_focus _ _ _ _ _ _ _ _ Ha Hent) as (t & Fb & Fr & El & Hr & -> & Hd & Har & Hput).
  assert (t = node sub) as -> by congruence. apply rep_array in Hr as ([next m] & En & Hb). destruct sub as [nx ms]. injection En as -> ->.
  pose proof (ev_below _ _ _ _ Hev) as Hbel. exists Fb. split; [|split; [clear -Hd Har; set_solver|split]].
  - apply (array_frame true n' _ (tables st1)); [done|done|by intros x].
  - eapply evolves_foot; [exact Hev|]. intros x Hx. left. clear -Hx. set_solver.
  - intros n2 st2 arr2 F2 Hn2 Hev2 Hb2. assert (Hold : forall x, x ∈ Fr -> x < fresh_table st1).
    { intros x Hx. apply Hbel. eapply array_dom; [exact Ha|]. clear -Hx. set_solver. }
    exists (F2 ∪ Fr). split.
    + apply Hput; [lia| | |].
      * apply rep_array. by exists arr2.
      * intros x Hx Hx2. apply (ev_foot _ _ _ _ Hev2) in Hx as [Hx|Hx]; [clear -Hd Hx Hx2; set_solver|]. specialize (Hold x Hx2). lia.
      * intros x Hx. apply (ev_tables _ _ _ _ Hev2); [by apply Hold|]. clear -Hd Hx. set_solver.
    + eapply evolves_foot; [eapply evolves_trans; [|exact Hev2]|].
      * eapply evolves_foot; [exact Hev|]. intros x Hx. left. clear -Hx. set_solver.
      * intros x [Hx|Hx]%elem_of_union; [by left|right]. apply (ev_foot _ _ _ _ Hev). clear -Hx. set_solver.
Qed.

Lemma enters_back strict n st F st' a b sub back back' : (forall arr2, back arr2 = back' arr2) ->
  enters strict n st F st' a b sub back -> enters strict n st F st' a b sub back'.
Proof. intros Hb (Fb & H1 & H2 & H3 & H4). exists Fb. split_and!; try done. intros. rewrite <- Hb. eauto. Qed.

(** The next key, in the buffer. *)
Definition index_at (buf : list Z) (index : option Z) (len : Z) (key : option (list Z)) : Prop :=
  match key with
  | Some key => exists i, index = Some i /\ bytes_at buf i len = Some key /\ Forall is_u8 key
  | None => index = None
  end.

Definition child (key : option (list Z)) arr : array := match key with Some key => sub_array (symtable_key key) arr | None => (0, []) end.

Definition put_in (key : option (list Z)) (sub : array) arr : array :=
  match key with Some key => set_key (symtable_key key) (node sub) arr | None => append (node sub) arr end.

(** A new array goes into the one at [a], by the insertion [f]. *)
Lemma new_element strict n st st1 a arr F k f : fresh_ok st -> array_at strict n (tables st) a arr F -> 0 <= n < 2 ^ 26 ->
  array_init st = Some (st1, IS_VAL (VArray (fresh_table st))) ->
  (forall ht bs, tables st !! a = Some ht -> wf ht bs -> nTableSize ht <= 2 ^ 29 -> (forall s, om_lookup k (entries bs) <> Some (IS_INDIRECT s)) ->
    inserts_at ht bs k (IS_VAL (VArray (fresh_table st))) (f (EG st1) ht)) ->
  exists st' r, on_table st1 a f = Some (st', Some r) /\ read_at st' a r = Some (IS_VAL (VArray (fresh_table st))) /\
    enters strict n st F st' a (fresh_table st) (0, []) (fun arr2 => set_key k (node arr2) arr).
Proof.
  intros Hf Ha Hn Ei Hins. destruct (array_init_ok st n F Hf ltac:(lia)) as (st1' & E & Hev & Hfr & Hne & Hz).
  rewrite Ei in E. injection E as <-. set (b := fresh_table st) in *.
  assert (Hab : b ∉ F). { intros Hb. apply (array_dom _ _ _ _ _ _ _ Ha) in Hb. apply Hf in Hb. unfold b in Hb. lia. }
  assert (Hanb : a <> b). { intros ->. apply Hab. by eapply array_root. }
  assert (Ha1 : array_at strict n (tables st1) a arr F).
  { apply (array_frame strict n _ (tables st)); [done|lia|]. intros x Hx. apply Hne. by intros ->. }
  destruct (on_table_inserts strict n st1 a arr F k _ _ {[b]} f Ha1 Hz) as (st' & r & F' & E & Ha' & Hsub & Ht & Hread & Hent); [clear -Hab; set_solver|done| |].
  { intros ht bs Hht. apply Hins. by rewrite <- Hne. }
  exists st', r. split; [done|]. split; [done|].
  assert (Hf1 : fresh_ok st1) by (intros x; apply (ev_below _ _ _ _ Hev)).
  assert (Hev1 : evolves st st' F ({[b]} ∪ F')).
  { eapply evolves_trans; [exact Hev|]. apply (touches_evolves a); [done|done|..].
    - apply elem_of_union_l. by eapply array_root.
    - eapply array_dom; [exact Ha1|]. by eapply array_root.
    - clear -Hsub. set_solver. }
  eapply enters_back; [|eapply (focus_enters strict n (n + 1) st st' F _ a _ k b (0, []) Hev1 Ha'); [lia|done|apply om_lookup_insert]].
  intros arr2. cbn. by rewrite set_key_twice.
Qed.

(** What [array_element] does to the array at [a]. *)
Definition element_reached (strict : bool) n st a arr F (key : option (list Z)) (r : option (php_vars * option Z)) : Prop :=
  exists st' ob, r = Some (st', ob) /\
    match ob with
    | Some b => enters strict n st F st' a b (child key arr) (fun sub => put_in key sub arr) /\ (key = None -> KInt arr.1 ∉ arr.2.*1)
    | None => exists F', array_at strict (n + 1) (tables st') a arr F' /\ evolves st st' F F' /\ key = None /\ KInt arr.1 ∈ arr.2.*1
    end.

Lemma array_element_append n st a arr F buf len : fresh_ok st -> array_at true n (tables st) a arr F -> 0 <= n < 2 ^ 26 ->
  element_reached true n st a arr F None (array_element st a buf None len).
Proof.
  intros Hf Ha Hn. destruct (array_init_ok st n F Hf ltac:(lia)) as (st1 & Ei & Hev & Hfr & Hne & Hz). unfold element_reached, array_element.
  rewrite Ei. cbn [mbind option_bind].
  assert (Ha1 : array_at true n (tables st1) a arr F).
  { apply (array_frame true n _ (tables st)); [done|lia|]. intros x Hx. apply Hne. intros ->. apply (array_dom _ _ _ _ _ _ _ Ha), Hf in Hx. lia. }
  destruct (append_inserts n (tables st1) a arr F (IS_VAL (VArray (fresh_table st))) Ha1 eq_refl ltac:(lia)) as (ht & Hht1 & Hins).
  specialize (Hins (EG st1)). destruct (decide (KInt arr.1 ∈ arr.2.*1)) as [Hk|Hk].
  + unfold on_table. rewrite Hht1. cbn [mbind option_bind]. rewrite Hins. cbn [mbind option_bind]. eexists _, None. split; [done|].
    exists F. cbn [tables fresh_table]. rewrite insert_id, Hfr by done. replace (fresh_table st + 1 - 1) with (fresh_table st) by lia.
    assert (Hsame : forall x, x <> fresh_table st -> delete (fresh_table st) (tables st1) !! x = tables st !! x).
    { intros x Hx. rewrite lookup_delete_ne by done. by apply Hne. }
    split; [|split].
    * apply (array_frame true n _ (tables st)); [done|lia|]. intros x Hx. apply Hsame. intros ->. apply (array_dom _ _ _ _ _ _ _ Ha), Hf in Hx. lia.
    * constructor; cbn; rewrite ?Hfr; try done; try apply Hev.
      -- intros x Hx _. apply Hsame. lia.
      -- intros x Hx. by left.
      -- lia.
      -- intros x [_ Hx]%lookup_delete_is_Some. rewrite <- Hfr. by apply (ev_below _ _ _ _ Hev).
    * done.
  + destruct (new_element true n st st1 a arr F (KInt arr.1) (fun G ht => zend_hash_next_index_insert G ht (IS_VAL (VArray (fresh_table st)))) Hf Ha Hn Ei)
      as (st' & r & E & Hr1 & Hen).
    { intros ht1 bs1 Hht2 Hwf1 _ _. assert (ht1 = ht) as ->; [|by apply Hins]. rewrite <- Hne in Hht2; [congruence|].
      intros ->. assert (is_Some (tables st !! fresh_table st)) as Hx by by eexists. apply Hf in Hx. lia. }
    rewrite E. cbn [mbind option_bind]. rewrite Hr1. cbn [mbind option_bind]. eexists _, (Some _). split; [done|]. split; [|done]. cbn [child put_in].
    eapply enters_back; [|exact Hen]. intros arr2. cbn. unfold append. by rewrite decide_False.
Qed.

Lemma array_element_ok strict n st a arr F buf index len key : fresh_ok st -> array_at strict n (tables st) a arr F ->
  index_at buf index len key -> (key = None -> strict = true) -> 0 <= n < 2 ^ 26 ->
  element_reached strict n st a arr F key (array_element st a buf index len).
Proof.
  intros Hf Ha Hi Hst Hn. destruct key as [key|]; [|cbn in Hi; subst index; rewrite (Hst eq_refl) in *; by apply array_element_append].
  unfold element_reached. destruct (array_init_ok st n F Hf ltac:(lia)) as (st1 & Ei & Hev & Hfr & Hne & Hz). unfold array_element.
  pose proof Ha as (ht & bs & Fm & Hht & Hwf & Hc & Hs & Hr & Haf & EF). cbn [index_at] in Hi.
  destruct Hi as (i & -> & -> & Hu). cbn [mbind option_bind]. rewrite Hht. cbn [mbind option_bind].
  pose proof (symtable_find_holds ht bs key Hu Hwf) as Hfind. destruct (om_lookup (symtable_key key) (entries bs)) as [z|] eqn:El.
  + destruct Hfind as (bs1 & b & bs2 & Hh & Ev & ->). cbn [mbind option_bind].
    assert (Hread : read_at st a (ZBUCKET (Z.of_nat (length bs1))) = Some z).
    { unfold read_at. rewrite Hht. cbn [mbind option_bind zread]. destruct Hh as (Eb & _). rewrite (wf_bucket _ _ _ b Hwf) by (rewrite Eb; by apply list_lookup_middle). cbn. by rewrite Ev. }
    clear Ev. rewrite Hread. cbn [mbind option_bind]. destruct (reps_focus _ _ _ _ _ _ _ Hr El) as (t & F1 & F2 & Em & Hrt & _).
    inversion Hrt as [s' E1 E2 E3|a' ht' bs' m' F' Ha' Hwf' Hc' Hd' Hrs' Haf' E1 E2 E3]; subst z t; rewrite Hread; cbn [mbind option_bind].
    * rewrite Ei. cbn [mbind option_bind].
      destruct (new_element strict n st st1 a arr F (symtable_key key) (fun G ht => '(G, ht) ← zwrite G ht (ZBUCKET (Z.of_nat (length bs1))) (IS_VAL (VArray (fresh_table st))); Some (G, ht, Some (ZBUCKET (Z.of_nat (length bs1))))) Hf Ha Hn Ei)
        as (st' & r & E & Hr1 & Hen).
      { intros ht1 bs3 Hht1 Hwf1 _ _. assert (ht1 = ht) as -> by congruence. rewrite <- (wf_unique _ _ _ Hwf Hwf1). by apply (zwrite_inserts ht bs _ bs1 b bs2). }
      unfold write_at. rewrite E. cbn [mbind option_bind].
      assert (r = ZBUCKET (Z.of_nat (length bs1))) as ->.
      { unfold on_table in E. destruct (tables st1 !! a); [|done]. cbn [mbind option_bind] in E. destruct (zwrite _ _ _ _) as [[? ?]|]; [|done]. cbn [mbind option_bind] in E. by injection E as _ <-. }
      rewrite Hr1. cbn [mbind option_bind]. eexists _, (Some _). split; [done|]. split; [|by intros [=]]. cbn [child put_in]. unfold sub_array. by rewrite Em.
    * rewrite Hread. cbn [mbind option_bind]. eexists _, (Some _). split; [done|]. split; [|by intros [=]]. cbn [child put_in]. unfold sub_array. rewrite Em.
      apply (focus_enters strict n n st st F F); [by apply evolves_refl|done|lia| |done]. by exists ht, bs.
  + rewrite Hfind. cbn [mbind option_bind]. rewrite Ei. cbn [mbind option_bind].
    destruct (new_element strict n st st1 a arr F (symtable_key key) (fun G ht => zend_symtable_str_update_ind G ht key (IS_VAL (VArray (fresh_table st)))) Hf Ha Hn Ei)
      as (st' & r & E & Hr1 & Hen).
    { intros ht1 bs3 _ Hwf1 Hsz1 Hd1. by apply symtable_update_inserts. }
    rewrite E. cbn [mbind option_bind]. rewrite Hr1. cbn [mbind option_bind]. eexists _, (Some _). split; [done|]. split; [|by intros [=]]. cbn [child put_in]. unfold sub_array.
    by rewrite (proj1 (reps_None _ _ _ _ _ _ Hr) El).
Qed.

(** ** The end of the path *)
Lemma found_present n T zs m F ht bs (key : list Z) : reps n T zs m F -> zs = entries bs -> Forall is_u8 key -> wf ht bs ->
  exists found, zend_symtable_str_find ht key = Some found /\ bool_decide (symtable_key key ∈ m.*1) = match found with Some _ => true | None => false end.
Proof.
  intros Hr -> Hu Hwf. pose proof (symtable_find_holds ht bs key Hu Hwf) as Hfind. rewrite <- (reps_keys _ _ _ _ _ Hr).
  destruct (om_lookup (symtable_key key) (entries bs)) as [z|] eqn:El.
  - destruct Hfind as (bs1 & b & bs2 & _ & _ & ->). eexists. split; [done|]. apply bool_decide_eq_true_2.
    destruct (decide (symtable_key key ∈ (entries bs).*1)) as [|Hk]; [done|]. apply om_lookup_None in Hk. congruence.
  - exists None. split; [done|]. by apply bool_decide_eq_false_2, om_lookup_None.
Qed.

Lemma insert_leaf strict n st a arr F k (s : list Z) f : fresh_ok st -> array_at strict n (tables st) a arr F -> 0 <= n < 2 ^ 26 ->
  (forall ht bs, tables st !! a = Some ht -> wf ht bs -> nTableSize ht <= 2 ^ 29 -> (forall s, om_lookup k (entries bs) <> Some (IS_INDIRECT s)) ->
    inserts_at ht bs k (IS_VAL (VString s)) (f (EG st) ht)) ->
  exists st' r F', on_table st a f = Some (st', Some r) /\ array_at strict (n + 1) (tables st') a (set_key k (Leaf s) arr) F' /\ evolves st st' F F'.
Proof.
  intros Hf Ha Hn Hins. destruct (on_table_inserts strict n st a arr F k _ _ ∅ f Ha (rep_leaf n (tables st) s)) as (st' & r & F' & E & Ha' & Hsub & Ht & _);
    [set_solver|done|done|].
  exists st', r, (∅ ∪ F'). split_and!; try done. apply (touches_evolves a); try done; [by eapply array_root| |clear -Hsub; set_solver].
  eapply array_dom; [exact Ha|]. by eapply array_root.
Qed.

Lemma plain_var_ok strict n st a arr F buf index len key (s : list Z) : fresh_ok st -> array_at strict n (tables st) a arr F ->
  index_at buf index len key -> (key = None -> strict = true) -> 0 <= n < 2 ^ 26 ->
  exists st' F', plain_var st buf a index len (IS_VAL (VString s)) = Some st' /\
    array_at strict (n + 1) (tables st') a (put (bool_decide (cookies st = Some a)) [key] s arr) F' /\ evolves st st' F F'.
Proof.
  intros Hf Ha Hi Hst Hn. unfold plain_var.
  assert (Hsame : exists st' F', Some st = Some st' /\ array_at strict (n + 1) (tables st') a arr F' /\ evolves st st' F F').
  { exists st, F. split; [done|]. split; [|by apply evolves_refl]. apply (array_frame strict n _ (tables st)); [done|lia|by intros x]. }
  destruct key as [key|]; cbn [index_at] in Hi.
  - destruct Hi as (i & -> & -> & Hu). cbn [mbind option_bind]. pose proof Ha as (ht & bs & Fm & Hht & Hwf & _ & _ & Hr & _).
    rewrite Hht. cbn [mbind option_bind put]. destruct (found_present _ _ _ _ _ _ _ key Hr eq_refl Hu Hwf) as (found & Efind & ->). rewrite Efind.
    assert (Hput : exists st' F', (idx ← _zend_handle_numeric_str key;
        match idx with
        | Some idx => '(st, _) ← on_table st a (fun G ht => zend_hash_index_update G ht idx (IS_VAL (VString s))); Some st
        | None => php_register_variable_quick st key (IS_VAL (VString s)) a
        end) = Some st' /\ array_at strict (n + 1) (tables st') a (set_key (symtable_key key) (Leaf s) arr) F' /\ evolves st st' F F').
    { destruct (handle_numeric_str key Hu) as [(idx & -> & -> & Hidx)|[-> ->]]; cbn [mbind option_bind].
      - destruct (insert_leaf strict n st a arr F (KInt idx) s (fun G ht => zend_hash_index_update G ht idx (IS_VAL (VString s))) Hf Ha Hn) as (st' & r & F' & -> & Hres).
        { intros ht' bs' _ Hwf' Hsz' Hd'. by apply index_update_inserts. }
        by exists st', F'.
      - destruct (insert_leaf strict n st a arr F (KStr key) s (fun G ht => zend_hash_update_ind G ht {| ZSTR_VAL := key; ZSTR_IS_INTERNED := true |} (IS_VAL (VString s))) Hf Ha Hn) as (st' & r & F' & E & Hres).
        { intros ht' bs' _ Hwf' Hsz' Hd'. by apply update_ind_inserts. }
        unfold php_register_variable_quick. rewrite E. by exists st', F'. }
    destruct (bool_decide (cookies st = Some a)); [destruct found; [exact Hsame|]|]; exact Hput.
  - subst index. rewrite (Hst eq_refl) in *. cbn [put]. destruct (append_inserts n (tables st) a arr F (IS_VAL (VString s)) Ha eq_refl ltac:(lia)) as (ht & Hht & Hins).
    specialize (Hins (EG st)). unfold append. destruct (decide (KInt arr.1 ∈ arr.2.*1)) as [Hk|Hk].
    + unfold on_table. rewrite Hht. cbn [mbind option_bind]. rewrite Hins. cbn [mbind option_bind]. rewrite insert_id by done.
      destruct Hsame as (st' & F' & [= <-] & H1 & H2). eexists _, F'. split; [done|]. split; [exact H1|]. by destruct H2.
    + destruct (insert_leaf true n st a arr F (KInt arr.1) s (fun G ht => zend_hash_next_index_insert G ht (IS_VAL (VString s))) Hf Ha Hn) as (st' & r & F' & E & Hres).
      { intros ht1 bs1 Hht1 Hwf1 _ _. assert (ht1 = ht) as -> by congruence. by apply Hins. }
      rewrite E. cbn [mbind option_bind]. by exists st', F'.
Qed.
