(* ===== verification/PhpVariablesPath.v ===== *)
(** * The path of a request variable

    The loop over the brackets of a name, and the theorem on [php_register_variable_ex]. *)
From S2P Require Import Prelude ZendString ZendLong ZendHash OrderedMap ZendHashInv ZendHashRehash ZendHashUpdate ZendHashDelete ZendHashMap ZendHashNext ZendSymtable PhpVariables PhpVariablesSpec PhpVariablesRep PhpVariablesRegister.

Implicit Types (st : php_vars) (arr : array) (F : gset Z) (k : hkey) (z : zval input).

(** ** Full arrays *)
Lemma sub_array_empty k : sub_array k (0, []) = (0, []).
Proof. done. Qed.

Lemma refuses_empty path : refuses path (0, []) = false.
Proof. induction path as [|[key|] path IH]; [done|exact IH|]. cbn [refuses]. rewrite IH. done. Qed.

Lemma refuses_cons key path arr : refuses (key :: path) arr = true ->
  (key = None /\ KInt arr.1 ∈ arr.2.*1) \/ (refuses path (child key arr) = true /\ put_in key (child key arr) arr = arr).
Proof.
  destruct key as [key|]; cbn [refuses child put_in].
  - intros H. right. split; [done|]. unfold sub_array in H |- *. destruct (om_lookup (symtable_key key) arr.2) as [[s|next m]|] eqn:E; [by rewrite refuses_empty in H| |by rewrite refuses_empty in H].
    rewrite set_key_present.
    + destruct arr as [nx ms]. unfold node. cbn in *. by rewrite (om_insert_same _ _ _ E).
    + destruct (decide (symtable_key key ∈ arr.2.*1)) as [|Hk]; [done|]. apply om_lookup_None in Hk. congruence.
  - rewrite refuses_empty, orb_false_r. intros H%bool_decide_eq_true. by left.
Qed.

Lemma refuses_cons_false key path arr : refuses (key :: path) arr = false -> refuses path (child key arr) = false /\ (key = None -> KInt arr.1 ∉ arr.2.*1).
Proof.
  destruct key as [key|]; cbn [refuses child]; [done|]. intros [H1 H2]%orb_false_iff. split; [done|]. by apply bool_decide_eq_false in H1.
Qed.

Lemma put_cons keep key key' path s arr : put keep (key :: key' :: path) s arr = put_in key (put false (key' :: path) s (child key arr)) arr.
Proof. by destruct key. Qed.

Lemma put_refused keep key key' path s arr : key = None -> KInt arr.1 ∈ arr.2.*1 -> put keep (key :: key' :: path) s arr = arr.
Proof. intros -> H. cbn [put]. unfold append. by rewrite decide_True. Qed.

(** ** The position in the buffer *)

(** [pre] is what has been read; the next key is in it, at its end. *)
Definition cursor (first : bool) (pre : list Z) (index : option Z) (len : Z) (key : option (list Z)) : Prop :=
  match key with
  | Some key => no_nul key /\ Forall is_u8 key /\ len = Z.of_nat (length key) /\
      exists p0, pre = p0 ++ key ++ (if first then [] else [0]) /\ index = Some (Z.of_nat (length p0)) /\ (first = true -> p0 = [])
  | None => index = None /\ first = false
  end.

Lemma cursor_index first pre index len key t : cursor first pre index len key -> index_at (pre ++ t) index len key.
Proof.
  destruct key as [key|]; cbn; [|by intros [-> _]]. intros (_ & Hu & -> & p0 & -> & -> & _). eexists. split; [done|]. split; [|done].
  rewrite <- !app_assoc. apply bytes_at_mid.
Qed.

(** A name that goes on at its first bracket, when that is not closed. *)
Definition opened (first : bool) (r : list Z) (key : option (list Z)) : option (list Z) :=
  match key with Some key => Some (if first && bool_decide (bracket r = None) then key ++ 95 :: r else key) | None => None end.

Lemma cursor_unclosed first pre index len key r t : cursor first pre index len key -> no_nul r -> Forall is_u8 r -> bracket r = None ->
  exists len', (match index with Some i => strlen_at (pre ++ 95 :: r ++ 0 :: t) i | None => Some 0 end) = Some len' /\
    index_at (pre ++ 95 :: r ++ 0 :: t) index len' (opened first r key).
Proof.
  intros Hc Hr Hu Hb. destruct key as [key|]; cbn [cursor opened] in *.
  - destruct Hc as (Hk & Hku & _ & p0 & -> & -> & Hp0). rewrite bool_decide_eq_true_2 by done. destruct first; cbn [andb].
    + rewrite (Hp0 eq_refl). cbn [app]. rewrite app_nil_r. change (Z.of_nat 0) with (Z.of_nat (length (@nil Z))).
      assert (E : key ++ 95 :: r ++ 0 :: t = [] ++ (key ++ 95 :: r) ++ 0 :: t) by (cbn; by rewrite <- app_assoc).
      rewrite E, strlen_at_mid. 2:{ apply Forall_app. split; [done|]. by constructor. }
      eexists. split; [done|]. eexists. split; [done|]. split; [apply bytes_at_mid|]. apply Forall_app. split; [done|]. constructor; [by split|done].
    + rewrite <- !app_assoc. cbn [app]. rewrite strlen_at_mid by done. eexists. split; [done|]. eexists. split; [done|]. split; [|done]. apply bytes_at_mid.
  - destruct Hc as [-> _]. by exists 0.
Qed.

Lemma bracket_length r key rest : no_nul r -> bracket r = Some (key, rest) -> (length rest < length r)%nat.
Proof.
  intros H E. pose proof (next_index_ok [] 0 r [] H) as Hn. rewrite E in Hn. unfold bracket in E. destruct key as [key|].
  - destruct Hn as [-> _]. rewrite length_app. cbn. lia.
  - pose proof (space_of_ok r) as Hs. destruct (space_of r) as [sp ins]. destruct Hs as [-> _]. cbn [snd] in E. destruct (bool_decide_reflect (head ins = Some 93)) as [Eh|].
    + injection E as <-. destruct ins; [done|]. rewrite length_app. cbn. lia.
    + destruct (cut 93 _) as [? []]; done.
Qed.

Section Loop.
Context (PG : settings) (track : Z) (name s : list Z).

Definition go_on (w : walk) : option php_vars :=
  match w with Returned st => Some st | Plain_var st buf a index len => plain_var st buf a index len (IS_VAL (VString s)) end.

(** The variable is removed and the loop returns. *)
Definition too_deep st : option walk :=
  '(st, _) ← on_table st track (fun G ht => zend_symtable_str_del G ht name);
  Some (Returned (if negb (display_errors PG) then add_error st Nesting_exceeded else st)).

(** What the loop does to the array at [a], which it goes into at the first key of the path. *)
Definition loop_result (strict : bool) n st a arr F (keep : bool) path (more : bool) (r : option walk) : Prop :=
  if more then
    if refuses (removelast path) arr then exists st' F', r = Some (Returned st') /\ array_at strict n (tables st') a arr F' /\ evolves st st' F F'
    else exists st1 F1 arr1, r = too_deep st1 /\ array_at strict n (tables st1) a arr1 F1 /\ evolves st st1 F F1 /\
           (arr1 = arr \/ exists key key' path' sub, path = key :: key' :: path' /\ arr1 = put_in key sub arr)
  else exists st' F', (w ← r; go_on w) = Some st' /\ array_at strict n (tables st') a (put keep path s arr) F' /\ evolves st st' F F'.

Lemma loop_result_mono strict n n' st a arr F keep path more r : n <= n' -> loop_result strict n st a arr F keep path more r ->
  loop_result strict n' st a arr F keep path more r.
Proof.
  intros Hn. unfold loop_result. destruct more; [destruct (refuses _ _)|].
  - intros (st' & F' & E & Ha & Hev). exists st', F'. split_and!; try done. by apply (array_frame strict n _ (tables st')).
  - intros (st1 & F1 & arr1 & E & Ha & Hev). exists st1, F1, arr1. split_and!; try done; try apply Hev. by apply (array_frame strict n _ (tables st1)).
  - intros (st' & F' & E & Ha & Hev). exists st', F'. split_and!; try done. by apply (array_frame strict n _ (tables st')).
Qed.

(** What happens inside the element at the first key. *)
Lemma loop_result_back strict n n2 st F st' a b arr Fb keep key key' path more r : n + 1 <= n2 ->
  (forall n2 st2 arr2 F2, n + 1 <= n2 -> evolves st' st2 Fb F2 -> array_at true n2 (tables st2) b arr2 F2 ->
     exists F', array_at strict n2 (tables st2) a (put_in key arr2 arr) F' /\ evolves st st2 F F') ->
  (key = None -> KInt arr.1 ∉ arr.2.*1) -> loop_result true n2 st' b (child key arr) Fb false (key' :: path) more r ->
  loop_result strict n2 st a arr F keep (key :: key' :: path) more r.
Proof.
  intros Hn Hback Hkey. unfold loop_result. destruct more.
  - change (removelast (key :: key' :: path)) with (key :: removelast (key' :: path)). destruct (refuses (removelast (key' :: path)) (child key arr)) eqn:Er.
    + intros (st2 & F2 & -> & Ha & Hev). destruct (Hback _ _ _ _ Hn Hev Ha) as (F' & Ha' & Hev'). destruct key as [key|]; [|by rewrite refuses_empty in Er].
      assert (refuses (Some key :: removelast (key' :: path)) arr = true) as Hr by exact Er. rewrite Hr. exists st2, F'. split_and!; try done; try apply Hev'.
      destruct (refuses_cons _ _ _ Hr) as [[? _]|[_ E]]; [done|]. by rewrite E in Ha'.
    + intros (st2 & F2 & arr2 & -> & Ha & Hev & _). destruct (Hback _ _ _ _ Hn Hev Ha) as (F' & Ha' & Hev').
      assert (refuses (key :: removelast (key' :: path)) arr = false) as ->.
      { destruct key as [key|]; [exact Er|]. cbn [refuses]. rewrite refuses_empty, bool_decide_eq_false_2 by by apply Hkey. done. }
      exists st2, F', (put_in key arr2 arr). split; [done|]. split; [done|]. split; [done|]. right. by exists key, key', path, arr2.
  - intros (st2 & F2 & -> & Ha & Hev). destruct (Hback _ _ _ _ Hn Hev Ha) as (F' & Ha' & Hev'). exists st2, F'. rewrite put_cons. by split_and!.
Qed.

Definition cookies_ok st a F : Prop := forall c, cookies st = Some c -> c < fresh_table st /\ (c = a \/ c ∉ F).

(** The cookies are not inside the element. *)
Lemma cookies_inside st st' a b F Fb : cookies_ok st a F -> evolves st st' F Fb -> a ∉ Fb -> b ∈ Fb ->
  cookies_ok st' b Fb /\ bool_decide (cookies st' = Some b) = false.
Proof.
  intros Hc Hev Ha Hb. assert (Hout : forall c, cookies st' = Some c -> c < fresh_table st' /\ c ∉ Fb).
  { intros c E. rewrite (ev_cookies _ _ _ _ Hev) in E. destruct (Hc c E) as [Hlt Hc']. pose proof (ev_fresh _ _ _ _ Hev). split; [lia|].
    intros Hin. destruct (ev_foot _ _ _ _ Hev c Hin); [|lia]. destruct Hc' as [->|]; done. }
  split; [intros c E; destruct (Hout c E); by split; [|right]|]. apply bool_decide_eq_false_2. intros E. by destruct (Hout b E).
Qed.

(** The hypotheses on one turn of the loop. *)
Record turn (strict : bool) n st a arr F (first : bool) (pre r : list Z) (index : option Z) (len : Z) (key : option (list Z)) (nest : Z) : Prop := {
  tn_fresh : fresh_ok st;
  tn_array : array_at strict n (tables st) a arr F;
  tn_cursor : cursor first pre index len key;
  tn_strict : key = None -> strict = true;
  tn_nul : no_nul r;
  tn_bytes : Forall is_u8 r;
  tn_size : 0 <= n /\ n + Z.of_nat (length r) + 1 <= 2 ^ 26;
  tn_nest : 0 <= nest /\ nest + Z.of_nat (length r) + 1 < 2 ^ 31;
  tn_name : exists p1, pre = name ++ p1;
  tn_cookies : cookies_ok st a F }.

Section Turn.
Context (strict : bool) (n : Z) (st : php_vars) (a : Z) (arr : array) (F : gset Z) (first : bool) (pre : list Z) (x : Z) (r t : list Z)
  (index : option Z) (len : Z) (key : option (list Z)) (nest : Z) (Hturn : turn strict n st a arr F first pre r index len key nest).

(** One call of the loop, and what it should do. *)
Definition loop (fuel : nat) : option walk := index_loop PG fuel st (pre ++ x :: r ++ 0 :: t) (Z.of_nat (length pre)) index len a nest track (Z.of_nat (length name)).
Definition goal (path : list (option (list Z))) (more : bool) (w : option walk) : Prop :=
  loop_result strict (n + Z.of_nat (length r) + 1) st a arr F (bool_decide (cookies st = Some a)) path more w.

Lemma turn_deep fuel : (max_input_nesting_level PG - nest <? 1) = true -> goal [opened first r key] true (loop (S fuel)).
Proof.
  intros Hd. pose proof (tn_nest _ _ _ _ _ _ _ _ _ _ _ _ _ Hturn). pose proof (tn_size _ _ _ _ _ _ _ _ _ _ _ _ _ Hturn).
  destruct (tn_name _ _ _ _ _ _ _ _ _ _ _ _ _ Hturn) as [p1 Ep]. unfold goal, loop. cbn [index_loop]. rewrite int_ok by (unfold is_i32; lia). cbn [mbind option_bind].
  rewrite (proj2 (Z.ltb_lt (max_input_nesting_level PG) (nest + 1))) by lia.
  assert (bytes_at (pre ++ x :: r ++ 0 :: t) 0 (Z.of_nat (length name)) = Some name) as ->.
  { rewrite Ep, <- app_assoc. apply (bytes_at_mid [] name). }
  cbn [mbind option_bind loop_result removelast refuses]. exists st, F, arr. split; [done|]. split; [|split; [|by left]].
  - apply (array_frame strict n _ (tables st)); [apply Hturn|lia|by intros y].
  - apply evolves_refl, Hturn.
Qed.

Lemma turn_unclosed fuel : (max_input_nesting_level PG - nest <? 1) = false -> bracket r = None -> goal [opened first r key] false (loop (S fuel)).
Proof.
  intros Hd Hb. pose proof (tn_nest _ _ _ _ _ _ _ _ _ _ _ _ _ Hturn). pose proof (tn_size _ _ _ _ _ _ _ _ _ _ _ _ _ Hturn).
  unfold goal, loop. cbn [index_loop]. rewrite int_ok by (unfold is_i32; lia). cbn [mbind option_bind].
  rewrite (proj2 (Z.ltb_ge (max_input_nesting_level PG) (nest + 1))) by lia.
  pose proof (next_index_ok pre x r t (tn_nul _ _ _ _ _ _ _ _ _ _ _ _ _ Hturn)) as Hni. rewrite Hb in Hni. rewrite Hni. cbn [mbind option_bind].
  destruct (cursor_unclosed first pre index len key r t) as (len' & -> & Hi); [apply Hturn..|done|]. cbn [mbind option_bind loop_result go_on].
  destruct (plain_var_ok strict n st a arr F (pre ++ 95 :: r ++ 0 :: t) index len' (opened first r key) s) as (st' & F' & E & Ha & Hev); [apply Hturn|apply Hturn|exact Hi| |lia|].
  { destruct key; [by intros [=]|]. intros _. by apply Hturn. }
  exists st', F'. split; [exact E|]. split; [|done]. apply (array_frame strict (n + 1) _ (tables st')); [done|lia|by intros y].
Qed.

(** The element at the key, and the key in the brackets. *)
Lemma turn_bracket fuel key' rest : (max_input_nesting_level PG - nest <? 1) = false -> bracket r = Some (key', rest) ->
  exists pre' index' len', cursor false pre' index' len' key' /\ (exists p1, pre' = name ++ p1) /\
    loop (S fuel) =
      ('(st, b) ← array_element st a (pre' ++ rest ++ 0 :: t) index len;
       match b with
       | None => Some (Returned st)
       | Some b =>
           if default 0 (head rest) =? 91 then
             buf ← aset (pre' ++ rest ++ 0 :: t) (Z.of_nat (length pre')) 0;
             index_loop PG fuel st buf (Z.of_nat (length pre')) index' len' b (nest + 1) track (Z.of_nat (length name))
           else Some (Plain_var st (pre' ++ rest ++ 0 :: t) b index' len')
       end) /\
    index_at (pre' ++ rest ++ 0 :: t) index len key.
Proof.
  intros Hd Hb. pose proof (tn_nest _ _ _ _ _ _ _ _ _ _ _ _ _ Hturn). pose proof (tn_nul _ _ _ _ _ _ _ _ _ _ _ _ _ Hturn) as Hnul.
  destruct (tn_name _ _ _ _ _ _ _ _ _ _ _ _ _ Hturn) as [p1 Ep]. unfold loop.
  cbn [index_loop]. rewrite int_ok by (unfold is_i32; lia). cbn [mbind option_bind].
  rewrite (proj2 (Z.ltb_ge (max_input_nesting_level PG) (nest + 1))) by lia.
  pose proof (next_index_ok pre x r t Hnul) as Hni. rewrite Hb in Hni. destruct key' as [key'|].
  - destruct Hni as [Er Hni]. rewrite Hni. cbn [mbind option_bind].
    exists ((pre ++ [x]) ++ key' ++ [0]), (Some (Z.of_nat (length (pre ++ [x])))), (Z.of_nat (length key')).
    assert (Eb : pre ++ x :: key' ++ 0 :: rest ++ 0 :: t = ((pre ++ [x]) ++ key' ++ [0]) ++ rest ++ 0 :: t) by (by rewrite <- !app_assoc).
    assert (El : Z.of_nat (length (pre ++ [x] ++ key')) + 1 = Z.of_nat (length ((pre ++ [x]) ++ key' ++ [0]))) by (rewrite !length_app; cbn; lia).
    split; [|split; [exists (p1 ++ [x] ++ key' ++ [0]); rewrite Ep; by rewrite <- !app_assoc|split]].
    + pose proof (tn_bytes _ _ _ _ _ _ _ _ _ _ _ _ _ Hturn) as Hu. rewrite Er in Hnul, Hu. apply Forall_app in Hnul as [Hk _], Hu as [Hku _].
      split; [done|]. split; [done|]. split; [done|]. by exists (pre ++ [x]).
    + rewrite Eb, El, aget_head. done.
    + rewrite <- !app_assoc. eapply cursor_index. apply Hturn.
  - destruct Hni as (skipped & Er & Hni). rewrite Hni. cbn [mbind option_bind]. exists (pre ++ x :: skipped), None, 0.
    assert (Eb : pre ++ x :: r ++ 0 :: t = (pre ++ x :: skipped) ++ rest ++ 0 :: t) by (rewrite Er, <- !app_assoc; done).
    assert (El : Z.of_nat (length (pre ++ skipped)) + 1 = Z.of_nat (length (pre ++ x :: skipped))) by (rewrite !length_app; cbn; lia).
    split; [done|split; [exists (p1 ++ x :: skipped); rewrite Ep; by rewrite <- !app_assoc|split]].
    + rewrite Eb, El, aget_head. done.
    + rewrite <- !app_assoc. eapply cursor_index. apply Hturn.
Qed.
End Turn.

Lemma opened_closed first r key : is_Some (bracket r) -> opened first r key = key.
Proof. intros [e E]. destruct key; [|done]. cbn. by rewrite bool_decide_eq_false_2, andb_false_r by (rewrite E; done). Qed.

Lemma head_bracket {A} (rest : list Z) (f : list Z -> A) (d : A) :
  match rest with 91 :: r => f r | _ => d end = if default 0 (head rest) =? 91 then f (tail rest) else d.
Proof.
  destruct rest as [|c rest]; [done|]. cbn. destruct (Z.eqb_spec c 91) as [->|Hne]; [done|]. repeat (case_match; try done).
Qed.

Lemma index_loop_ok fuel : forall strict n st a arr F first pre x r t index len key nest,
  turn strict n st a arr F first pre r index len key nest -> (length r <= fuel)%nat ->
  goal strict n st a arr F r (opened first r key :: (keys_in fuel (max_input_nesting_level PG - nest) r).1) (keys_in fuel (max_input_nesting_level PG - nest) r).2
    (loop st a pre x r t index len nest (S fuel)).
Proof.
  induction fuel as [|fuel IH]; intros strict n st a arr F first pre x r t index len key nest Ht Hlen; cbn [keys_in].
  all: destruct (max_input_nesting_level PG - nest <? 1) eqn:Hd; [by apply turn_deep|].
  { destruct r; [|cbn in Hlen; lia]. by eapply turn_unclosed. }
  destruct (bracket r) as [[key' rest]|] eqn:Hb; [|by eapply turn_unclosed].
  destruct (turn_bracket strict n st a arr F first pre x r t index len key nest Ht (S fuel) key' rest Hd Hb) as (pre' & index' & len' & Hcur & Hname & -> & Hi).
  pose proof Ht as [Hf Ha _ Hst Hnul Hu Hn Hnest _ Hck]. pose proof (bracket_length r key' rest Hnul Hb) as Hrest.
  assert (Hrest2 : no_nul rest /\ Forall is_u8 rest).
  { pose proof (next_index_ok pre x r t Hnul) as Hni. rewrite Hb in Hni. destruct key'; [destruct Hni as [Er _]|destruct Hni as (sk & Er & _)]; rewrite Er in Hnul, Hu;
      apply Forall_app in Hnul as [_ Hnul], Hu as [_ Hu]; [apply Forall_cons in Hnul as [_ ?], Hu as [_ ?]|]; done. }
  rewrite opened_closed by by rewrite Hb. unfold goal.
  destruct (array_element_ok strict n st a arr F (pre' ++ rest ++ 0 :: t) index len key Hf Ha Hi Hst ltac:(lia)) as (st' & ob & -> & Hob). cbn [mbind option_bind].
  assert (Hkeys : (match rest with 91 :: rest => let '(keys, more) := keys_in fuel (max_input_nesting_level PG - nest - 1) rest in (key' :: keys, more) | _ => ([key'], false) end) =
    (key' :: (if default 0 (head rest) =? 91 then (keys_in fuel (max_input_nesting_level PG - nest - 1) (tail rest)).1 else []),
     if default 0 (head rest) =? 91 then (keys_in fuel (max_input_nesting_level PG - nest - 1) (tail rest)).2 else false)).
  { rewrite (head_bracket rest (fun rest => let '(keys, more) := keys_in fuel (max_input_nesting_level PG - nest - 1) rest in (key' :: keys, more)) ([key'], false)). destruct (_ =? 91); [|done]. by destruct (keys_in _ _ _). }
  rewrite Hkeys. cbn [fst snd]. destruct ob as [b|].
  - destruct Hob as ((Fb & Hb1 & Hab & Hev & Hback) & Hkey).
    destruct (cookies_inside st st' a b F Fb Hck Hev Hab ltac:(by eapply array_root)) as [Hck' Hno].
    apply (loop_result_back strict n _ st F st' a b arr Fb); [lia|exact Hback|exact Hkey|].
    assert (Hf' : fresh_ok st') by (intros y; apply (ev_below _ _ _ _ Hev)).
    destruct (Z.eqb_spec (default 0 (head rest)) 91) as [E91|N91].
    + destruct rest as [|c rest]; [done|]. cbn in E91. subst c. cbn [app tail]. rewrite aset_app_mid by done. cbn [mbind option_bind].
      destruct Hrest2 as [Hn2 Hu2]. apply Forall_cons in Hn2 as [_ Hn2], Hu2 as [_ Hu2]. cbn [length] in Hrest.
      assert (Ht' : turn true (n + 1) st' b (child key arr) Fb false pre' rest index' len' key' (nest + 1)) by (constructor; try done; lia).
      specialize (IH true (n + 1) st' b (child key arr) Fb false pre' 0 rest t index' len' key' (nest + 1) Ht' ltac:(lia)).
      replace (max_input_nesting_level PG - (nest + 1)) with (max_input_nesting_level PG - nest - 1) in IH by lia.
      unfold goal, loop in IH. rewrite Hno in IH. assert (opened false rest key' = key') as Ho by by destruct key'. rewrite Ho in IH.
      revert IH. apply loop_result_mono. lia.
    + unfold loop_result. cbn [mbind option_bind go_on].
      destruct (plain_var_ok true (n + 1) st' b (child key arr) Fb (pre' ++ rest ++ 0 :: t) index' len' key' s Hf' Hb1) as (st2 & F2 & E & Ha2 & Hev2);
        [by eapply cursor_index|done|lia|].
      exists st2, F2. split; [exact E|]. rewrite Hno in Ha2. split; [|done]. apply (array_frame true (n + 1 + 1) _ (tables st2)); [done|lia|by intros y].
  - destruct Hob as (F' & Ha' & Hev & -> & Hfull). unfold loop_result. set (more := if default 0 (head rest) =? 91 then _ else false).
    assert (Hres : exists st'0 F'0, Some (Returned st') = Some (Returned st'0) /\ array_at strict (n + Z.of_nat (length r) + 1) (tables st'0) a arr F'0 /\ evolves st st'0 F F'0).
    { exists st', F'. split; [done|]. split; [|done]. apply (array_frame strict (n + 1) _ (tables st')); [done|lia|by intros y]. }
    destruct more.
    + set (ks := if default 0 (head rest) =? 91 then _ else []). change (removelast (None :: key' :: ks)) with (None :: removelast (key' :: ks)).
      cbn [refuses]. rewrite bool_decide_eq_true_2 by done. exact Hres.
    + rewrite put_refused by done. destruct Hres as (st2 & F2 & [= <-] & H1 & H2). by exists st', F2.
Qed.
End Loop.

Lemma keys_in_fuel f1 : forall f2 depth r, no_nul r -> (length r <= f1)%nat -> (length r <= f2)%nat -> keys_in f1 depth r = keys_in f2 depth r.
Proof.
  induction f1 as [|f1 IH]; intros f2 depth r Hr H1 H2.
  { destruct r; [|cbn in H1; lia]. destruct f2; cbn; by destruct (_ <? _). }
  destruct f2 as [|f2]; cbn [keys_in]; [destruct r; [|cbn in H2; lia]; cbn; by destruct (_ <? _)|].
  destruct (_ <? _); [done|]. destruct (bracket r) as [[key rest]|] eqn:E; [|done]. pose proof (bracket_length r key rest Hr E) as Hl.
  rewrite !(head_bracket rest (fun rest => let '(keys, more) := keys_in _ (depth - 1) rest in (key :: keys, more)) ([key], false)).
  destruct (_ =? 91); [|done]. rewrite (IH f2); [done| |destruct rest; cbn in *; lia..].
  assert (no_nul rest) as Hrest; [|destruct rest; [done|by apply Forall_cons in Hrest as [_ ?]]].
  pose proof (next_index_ok [] 0 r [] Hr) as Hni. rewrite E in Hni. destruct key; [destruct Hni as [-> _]|destruct Hni as (sk & -> & _)]; apply Forall_app in Hr as [_ Hr]; [|done].
  by apply Forall_cons in Hr as [_ ?].
Qed.

(** ** The whole function *)
Lemma skip_spaces_app s t : skip_spaces (s ++ 0 :: t) = skip_spaces s ++ 0 :: t.
Proof. induction s as [|c s IH]; [done|]. cbn. by destruct (c =? 32). Qed.

Lemma skip_spaces_suffix s : exists sp, s = sp ++ skip_spaces s.
Proof. induction s as [|c s [sp IH]]; [by exists []|]. cbn. destruct (c =? 32); [|by exists []]. exists (c :: sp). cbn. congruence. Qed.

Lemma starts_with_nul prefix s t : no_nul prefix -> starts_with prefix (s ++ 0 :: t) = starts_with prefix s.
Proof.
  intros H. revert s. induction H as [|p prefix Hp _ IH]; intros s; [by destruct s|]. destruct s as [|c s]; cbn.
  - by rewrite (proj2 (Z.eqb_neq p 0)).
  - by rewrite IH.
Qed.

Lemma mangle_ok (s : list Z) : no_nul s -> Forall is_u8 s -> no_nul (mangle s) /\ Forall is_u8 (mangle s).
Proof.
  intros H1 H2. split; apply Forall_fmap; eapply Forall_impl; [exact H1| |exact H2|]; intros c Hc; cbn; destruct (_ || _); done.
Qed.

(** A variable of this name is not registered in the table [root]. *)
Definition reserved (PG : settings) (root : Z) (name : list Z) : bool :=
  (bool_decide (user_table PG = Some root) && bool_decide (name = str_this)) || ((root =? symbol_table PG) && bool_decide (name = str_GLOBALS)).

(** After at most [n] changes of any table, the table [root] holds the variables [m]. *)
Definition vars_at n st (root : Z) (m : list (hkey * tree)) F : Prop :=
  fresh_ok st /\ array_at false n (tables st) root (0, m) F /\ cookies_ok st root F.

Lemma vars_evolve n st st' root m m' F F' : vars_at n st root m F -> array_at false n (tables st') root (0, m') F' -> evolves st st' F F' -> vars_at n st' root m' F'.
Proof.
  intros (Hf & Ha & Hc) Ha' Hev. split; [intros x; apply (ev_below _ _ _ _ Hev)|]. split; [done|]. intros c E. rewrite (ev_cookies _ _ _ _ Hev) in E.
  destruct (Hc c E) as [Hlt Hc']. pose proof (ev_fresh _ _ _ _ Hev). split; [lia|]. destruct Hc' as [->|Hc']; [by left|]. right. intros [?|?]%(ev_foot _ _ _ _ Hev); [done|lia].
Qed.

Lemma on_table_delete n st a m F (name : list Z) : fresh_ok st -> array_at false n (tables st) a (0, m) F -> Forall is_u8 name ->
  exists st' r F', on_table st a (fun G ht => zend_symtable_str_del G ht name) = Some (st', r) /\
    array_at false (n + 1) (tables st') a (0, om_delete (symtable_key name) m) F' /\ evolves st st' F F'.
Proof.
  intros Hf Ha Hu. pose proof Ha as (ht & bs & Fm & Hht & Hwf & Hc & _ & Hr & Haf & EF).
  pose proof (symtable_str_del_deletes (EG st) ht bs name Hu Hwf) as Hdel. unfold deletes in Hdel. unfold on_table. rewrite Hht. cbn [mbind option_bind].
  destruct (om_lookup (symtable_key name) (entries bs)) as [z|] eqn:El.
  - destruct Hdel as (G' & ht' & -> & (G2 & ht2 & bs' & [= <- <-] & Hwf' & Hen & _ & _ & _ & Hsz & Hp & Hu')). cbn [mbind option_bind].
    destruct (reps_delete _ _ _ _ _ (symtable_key name) Hr) as (F' & Hr' & Hsub). eexists _, _, ({[a]} ∪ F'). split; [done|].
    assert (Hsame : same_on F' (tables st) (<[a := ht']> (tables st))).
    { intros x Hx. rewrite lookup_insert_ne; [done|]. intros ->. clear -Hx Haf Hsub. set_solver. }
    split.
    + exists ht', bs', F'. cbn [tables]. rewrite lookup_insert_eq, Hen. split_and!; try done.
      * by apply (deleted_capped n ht bs ht' bs' (symtable_key name)).
      * by apply (reps_frame n _ (tables st)); [|lia|].
      * clear -Haf Hsub. set_solver.
    + apply (touches_evolves a); [done| |subst F; clear; set_solver|by eexists|subst F; clear -Hsub; set_solver].
      constructor; try done. intros x Hx. cbn. by rewrite lookup_insert_ne.
  - rewrite Hdel. cbn [mbind option_bind]. eexists _, _, F. split; [done|]. cbn [tables]. rewrite insert_id by done. split.
    + rewrite om_delete_new; [apply (array_frame false n _ (tables st)); [done|lia|by intros x]|]. apply om_lookup_None. by apply (reps_None _ _ _ _ _ _ Hr).
    + destruct (evolves_refl st F Hf). constructor; cbn; rewrite ?insert_id by done; done.
Qed.

(** The errors of a state do not matter to its variables. *)
Definition with_errors st (e : list error) : php_vars := {| st with errors := e |}.

Lemma with_errors_same st : with_errors st (errors st) = st.
Proof. by destruct st. Qed.

(** The variables are [m'] afterwards, and only their tables have changed. *)
Definition registers n st root F (m' : list (hkey * tree)) (r : option php_vars) : Prop :=
  exists st' F' e, r = Some st' /\ vars_at n st' root m' F' /\ errors st' = errors st ++ e /\ evolves st (with_errors st' (errors st)) F F'.

Lemma registers_quietly n st root m m' F st' F' : vars_at n st root m F -> array_at false n (tables st') root (0, m') F' -> evolves st st' F F' ->
  registers n st root F m' (Some st').
Proof.
  intros Hv Ha Hev. exists st', F', []. split; [done|]. split; [by eapply vars_evolve|]. rewrite app_nil_r, <- (ev_errors _ _ _ _ Hev). split; [done|]. by rewrite with_errors_same.
Qed.

Lemma vars_mono n n' st root m F : n <= n' -> vars_at n st root m F -> vars_at n' st root m F.
Proof. intros Hn (Hf & Ha & Hc). split; [done|]. split; [|done]. by apply (array_frame false n _ (tables st)). Qed.

Lemma registers_nothing n n' st root m F e : n <= n' -> vars_at n st root m F -> registers n' st root F m (Some (with_errors st (errors st ++ e))).
Proof.
  intros Hn Hv. apply (vars_mono n n') in Hv as (Hf & Ha & Hc); [|done]. eexists _, F, e. split; [done|]. split; [by split_and!|]. split; [done|].
  replace (with_errors (with_errors st (errors st ++ e)) (errors st)) with st by by destruct st. by apply evolves_refl.
Qed.

Lemma om_delete_insert {A} k (x : A) (m : list (hkey * A)) : om_delete k (om_insert k x m) = om_delete k m.
Proof.
  induction m as [|[k' x'] m IH]; cbn; [by rewrite decide_True|]. destruct (decide (k = k')) as [->|]; cbn; [by rewrite decide_True|]. rewrite decide_False by done. by rewrite IH.
Qed.

Lemma keys_in_unclosed fuel depth r : bracket r = None -> keys_in fuel depth r = ([], depth <? 1).
Proof. intros E. destruct fuel; cbn; rewrite ?E; by destruct (depth <? 1). Qed.

(** The variable is removed. *)
Lemma registers_deletion PG n st st1 root m m1 F F1 name s : vars_at n st root m F -> Forall is_u8 name ->
  array_at false n (tables st1) root (0, m1) F1 -> evolves st st1 F F1 -> om_delete (symtable_key name) m1 = om_delete (symtable_key name) m ->
  registers (n + 1) st root F (om_delete (symtable_key name) m) (w ← too_deep PG root name st1; go_on s w).
Proof.
  intros Hv Hu Ha1 Hev Hm. destruct (on_table_delete n st1 root m1 F1 name (ev_below _ _ _ _ Hev) Ha1 Hu) as (st2 & rr & F2 & E & Ha2 & Hev2).
  unfold too_deep. rewrite E. cbn [mbind option_bind go_on]. rewrite Hm in Ha2.
  destruct (registers_quietly (n + 1) st root m (om_delete (symtable_key name) m) F st2 F2) as (st3 & F3 & e & [= <-] & Hv3 & He & Hev3).
  { apply (vars_mono n); [lia|done]. }
  { done. }
  { by eapply evolves_trans. }
  destruct (negb (display_errors PG)); [|by exists st2, F3, e]. exists (add_error st2 Nesting_exceeded), F3, (e ++ [Nesting_exceeded]).
  split; [done|]. split; [done|]. split; [cbn; by rewrite He, app_assoc|done].
Qed.

(** The loop over the brackets of a name, and what follows it. *)
Lemma registers_path PG n st root m F name r s : vars_at n st root m F -> no_nul name -> Forall is_u8 name -> no_nul r -> Forall is_u8 r ->
  0 <= n -> n + Z.of_nat (length r) + 2 <= 2 ^ 26 ->
  registers (n + Z.of_nat (length r) + 2) st root F
    (registered (bool_decide (cookies st = Some root))
       (let '(keys, more) := keys_in (length r) (max_input_nesting_level PG) r in
        if more : bool then Too_deep (Some name :: keys) else At (match bracket r with Some _ => Some name :: keys | None => [Some (name ++ 95 :: r)] end)) s m)
    (w ← index_loop PG (length (name ++ 0 :: r ++ [0])) st (name ++ 0 :: r ++ [0]) (Z.of_nat (length name)) (Some 0) (Z.of_nat (length name)) root 0 root (Z.of_nat (length name));
     go_on s w).
Proof.
  intros Hv Hnn Hnu Hr Hu Hn Hn2. pose proof Hv as (Hf & Ha & Hc).
  assert (Ht : turn name false n st root (0, m) F true name r (Some 0) (Z.of_nat (length name)) (Some name) 0).
  { constructor; try done; try lia; [|by exists []; rewrite app_nil_r]. split; [done|]. split; [done|]. split; [done|]. exists []. cbn. by rewrite app_nil_r. }
  assert (El : length (name ++ 0 :: r ++ [0]) = S (S (length name + length r))) by (rewrite length_app; cbn; rewrite length_app; cbn; lia). rewrite El.
  pose proof (index_loop_ok PG root name s (S (length name + length r)) false n st root (0, m) F true name 0 r [] (Some 0) (Z.of_nat (length name)) (Some name) 0 Ht ltac:(lia)) as Hl.
  rewrite Z.sub_0_r, (keys_in_fuel _ (length r) _ r Hr) in Hl by lia. unfold goal, loop, loop_result in Hl.
  apply (vars_mono n (n + Z.of_nat (length r) + 1)) in Hv; [|lia]. replace (n + Z.of_nat (length r) + 2) with (n + Z.of_nat (length r) + 1 + 1) by lia.
  assert (Hq : forall m' st' F', array_at false (n + Z.of_nat (length r) + 1) (tables st') root (0, m') F' -> evolves st st' F F' ->
    registers (n + Z.of_nat (length r) + 1 + 1) st root F m' (Some st')).
  { intros m' st' F' Ha' Hev. eapply registers_quietly; [apply (vars_mono (n + Z.of_nat (length r) + 1)); [lia|exact Hv]| |exact Hev].
    apply (array_frame false _ _ (tables st') _ _ _ _ Ha'); [lia|by intros y]. }
  assert (Hw : forall arr F' T, array_at false (n + Z.of_nat (length r) + 1) T root arr F' -> array_at false (n + Z.of_nat (length r) + 1) T root (0, arr.2) F').
  { intros arr F' T (ht & bs & Fm & ? & ? & ? & _ & ?). exists ht, bs, Fm. split_and!; try done; naive_solver. }
  destruct (bracket r) as [e|] eqn:Eb.
  - rewrite opened_closed in Hl by by rewrite Eb. destruct (keys_in (length r) (max_input_nesting_level PG) r) as [keys more]. cbn [fst snd] in Hl. destruct more; cbn [registered].
    + destruct (refuses (removelast (Some name :: keys)) (0, m)).
      * destruct Hl as (st' & F' & -> & Ha' & Hev). by apply (Hq m st' F').
      * destruct Hl as (st1 & F1 & arr1 & -> & Ha1 & Hev & Harr). eapply registers_deletion; [exact Hv|done|by apply Hw|exact Hev|].
        destruct Harr as [->|(key & key' & path' & sub & [= <- _] & ->)]; [done|]. apply om_delete_insert.
    + destruct Hl as (st' & F' & -> & Ha' & Hev). apply (Hq _ st' F'); [by apply Hw|done].
  - rewrite keys_in_unclosed in Hl |- * by done. cbn [fst snd opened andb] in Hl. rewrite bool_decide_eq_true_2 in Hl by done. destruct (_ <? 1); cbn [registered].
    + cbn [removelast refuses] in Hl |- *. destruct Hl as (st1 & F1 & arr1 & -> & Ha1 & Hev & Harr). eapply registers_deletion; [exact Hv|done|by apply Hw|exact Hev|].
      by destruct Harr as [->|(key & key' & path' & sub & [=] & _)].
    + destruct Hl as (st' & F' & -> & Ha' & Hev). apply (Hq _ st' F'); [by apply Hw|done].
Qed.
