(* ===== verification/PhpVariablesRequest.v ===== *)
(** * Registering the variables of a request

    [php_register_variable_ex] puts a variable where its name says: the cases of its head, the theorem, and how one
    registration follows another. *)
From S2P Require Import Prelude ZendString ZendLong ZendHash OrderedMap ZendHashInv ZendHashRehash ZendHashUpdate ZendHashDelete ZendHashMap ZendHashNext ZendSymtable PhpVariables PhpVariablesSpec PhpVariablesRep PhpVariablesRegister PhpVariablesPath.

Implicit Types (st : php_vars) (arr : array) (F : gset Z) (k : hkey) (z : zval input).

(** The buffer at the head of the function, cut at the first bracket. *)
Lemma mangled s : no_nul s -> mangle_loop (length (s ++ [0])) (s ++ [0]) 0 =
  Some (match cut 91 s with
        | (raw, Some r) => (mangle raw ++ 0 :: r ++ [0], Z.of_nat (length raw), true)
        | (raw, None) => (mangle raw ++ [0], Z.of_nat (length raw), false)
        end).
Proof. intros H. pose proof (mangle_loop_ok s [] [] (length (s ++ [0])) H) as E. cbn in E. apply E. rewrite length_app. cbn. lia. Qed.

Lemma cut_ok s : no_nul s -> Forall is_u8 s -> let '(raw, r) := cut 91 s in
  no_nul raw /\ Forall is_u8 raw /\ (length raw <= length s)%nat /\
  (forall r', r = Some r' -> no_nul r' /\ Forall is_u8 r' /\ (length r' + 1 <= length s)%nat).
Proof.
  intros H1 H2. pose proof (cut_eq 91 s) as E. destruct (cut 91 s) as [raw [r|]]; destruct E as [-> _].
  - apply Forall_app in H1 as [? [_ ?]%Forall_cons], H2 as [? [_ ?]%Forall_cons]. rewrite length_app. cbn.
    split_and!; try done; [lia|]. intros r' [= <-]. split_and!; [done|done|lia].
  - split_and!; try done.
Qed.

(** What is left when the name has been looked at. *)
Definition tail_of PG st buf (root len : Z) (is_array : bool) z : option php_vars :=
  if is_array then
    w ← index_loop PG (length buf) st buf len (Some 0) len root 0 root len;
    match w with Returned st => Some st | Plain_var st buf a index index_len => plain_var st buf a index index_len z end
  else plain_var st buf root (Some 0) len z.

Lemma register_cases PG st root s t z : no_nul s -> Forall is_u8 s ->
  let s' := skip_spaces s in
  let name := mangle (cut 91 s').1 in
  php_register_variable_ex PG st (s ++ 0 :: t) z (Some root) =
    (if forbidden name s' then Some st
     else if bool_decide (user_table PG = Some root) && bool_decide (name = str_this) then Some (add_error st Reassigns_this)
     else if (root =? symbol_table PG) && bool_decide (name = str_GLOBALS) then Some st
     else tail_of PG st (name ++ 0 :: match (cut 91 s').2 with Some r => r ++ [0] | None => [] end) root (Z.of_nat (length name))
            (bool_decide (is_Some (cut 91 s').2)) z).
Proof.
  intros Hn Hu s' name. unfold php_register_variable_ex. rewrite skip_spaces_app. fold s'.
  destruct (skip_spaces_suffix s) as [sp E]. fold s' in E. assert (Hn' : no_nul s') by (rewrite E in Hn; by apply Forall_app in Hn as [_ ?]).
  assert (Hu' : Forall is_u8 s') by (rewrite E in Hu; by apply Forall_app in Hu as [_ ?]). rewrite strlen_nul by done. cbn [mbind option_bind].
  replace (Z.to_nat (Z.of_nat (length s') + 1)) with (length (s' ++ [0])) by (rewrite length_app; cbn; lia).
  replace (s' ++ 0 :: t) with ((s' ++ [0]) ++ t) by by rewrite <- app_assoc. rewrite take_app_length, mangled by done. cbn [mbind option_bind].
  rewrite <- app_assoc. cbn [app]. pose proof (cut_ok s' Hn' Hu') as Hc. destruct (cut 91 s') as [raw br]. destruct Hc as (Hr & Hru & _).
  destruct (mangle_ok raw Hr Hru) as [Hm Hmu]. subst name. cbn [fst snd].
  assert (Hl : length raw = length (mangle raw)) by (unfold mangle; by rewrite length_fmap). rewrite Hl.
  assert (Hbuf : match br with Some r => (mangle raw ++ 0 :: r ++ [0], Z.of_nat (length (mangle raw)), true) | None => (mangle raw ++ [0], Z.of_nat (length (mangle raw)), false) end
     = (mangle raw ++ 0 :: match br with Some r => r ++ [0] | None => [] end, Z.of_nat (length (mangle raw)), bool_decide (is_Some br))) by by destruct br.
  rewrite Hbuf. generalize (match br with Some r => r ++ [0] | None => [] end) as rest. intros rest.
  rewrite !starts_with_nul by (repeat constructor; done). unfold forbidden.
  rewrite (bytes_at_mid [] (mangle raw) (0 :: rest) : bytes_at (mangle raw ++ 0 :: rest) 0 _ = _). cbn [mbind option_bind].
  destruct (_ || _) eqn:Ef; cbn [orb]; [done|]. destruct (mangle raw) as [|c m] eqn:Em; [done|]. cbn [length].
  rewrite (bool_decide_eq_false_2 (c :: m = [])) by done. replace (Z.of_nat (S (length m)) =? 0) with false by (symmetry; apply Z.eqb_neq; lia). done.
Qed.

(** Only the C string counts. *)
Lemma register_c_string PG st s t value track : no_nul s -> php_register_variable_safe PG st (s ++ 0 :: t) value track = php_register_variable_safe PG st (s ++ [0]) value track.
Proof.
  intros H. destruct track as [root|]; [|done]. unfold php_register_variable_safe, php_register_variable_ex. rewrite !skip_spaces_app.
  assert (H' : no_nul (skip_spaces s)) by (destruct (skip_spaces_suffix s) as [sp E]; rewrite E in H; by apply Forall_app in H as [_ ?]).
  rewrite !strlen_nul by done. cbn [mbind option_bind].
  assert (Htake : forall u, take (Z.to_nat (Z.of_nat (length (skip_spaces s)) + 1)) (skip_spaces s ++ 0 :: u) = skip_spaces s ++ [0]).
  { intros u. replace (Z.to_nat (Z.of_nat (length (skip_spaces s)) + 1)) with (length (skip_spaces s ++ [0])) by (rewrite length_app; cbn; lia).
    replace (skip_spaces s ++ 0 :: u) with ((skip_spaces s ++ [0]) ++ u) by by rewrite <- app_assoc. apply take_app_length. }
  rewrite !Htake. by rewrite !(starts_with_nul _ (skip_spaces s)) by (repeat constructor; done).
Qed.

Lemma registers_name PG n st root m F name r s : vars_at n st root m F -> no_nul name -> Forall is_u8 name ->
  (forall r', r = Some r' -> no_nul r' /\ Forall is_u8 r') -> 0 <= n -> n + Z.of_nat (length (default [] r)) + 2 <= 2 ^ 26 ->
  registers (n + Z.of_nat (length (default [] r)) + 2) st root F
    (registered (bool_decide (cookies st = Some root))
       (match r with
        | None => At [Some name]
        | Some r =>
            let '(keys, more) := keys_in (length r) (max_input_nesting_level PG) r in
            if more : bool then Too_deep (Some name :: keys) else At (match bracket r with Some _ => Some name :: keys | None => [Some (name ++ 95 :: r)] end)
        end) s m)
    (tail_of PG st (name ++ 0 :: match r with Some r => r ++ [0] | None => [] end) root (Z.of_nat (length name)) (bool_decide (is_Some r)) (IS_VAL (VString s))).
Proof.
  intros Hv Hn Hu Hr H0 H26. destruct r as [r|]; cbn [default] in *.
  - destruct (Hr r eq_refl) as [Hrn Hru]. exact (registers_path PG n st root m F name r s Hv Hn Hu Hrn Hru H0 H26).
  - cbn [length] in H26 |- *. pose proof Hv as (Hf & Ha & _). unfold tail_of. rewrite (bool_decide_eq_false_2 (is_Some None)) by by intros [? ?].
    destruct (plain_var_ok false n st root (0, m) F (name ++ [0]) (Some 0) (Z.of_nat (length name)) (Some name) s Hf Ha) as (st' & F' & -> & Ha' & Hev); [|done|lia|].
    { exists 0. split_and!; try done. exact (bytes_at_mid [] name [0]). }
    apply (registers_quietly _ st root m _ F st' F'); [apply (vars_mono n); [lia|done]| |done].
    assert (Hw : array_at false (n + 1) (tables st') root (0, (put (bool_decide (cookies st = Some root)) [Some name] s (0, m)).2) F').
    { destruct Ha' as (ht & bs & Fm & ? & ? & ? & _ & ?). exists ht, bs, Fm. split_and!; try done; naive_solver. }
    apply (array_frame false _ _ (tables st') _ _ _ _ Hw); [lia|by intros y].
Qed.

Lemma keep_mono n n' st root F m r : n <= n' -> registers n st root F m r -> registers n' st root F m r.
Proof. intros Hn (st' & F' & e & E & Hv & He & Hev). exists st', F', e. split_and!; try done. by apply (vars_mono n). Qed.

Lemma php_register_variable_ok PG n st root m F s t value :
  vars_at n st root m F -> no_nul s -> Forall is_u8 s -> 0 <= n -> n + Z.of_nat (length s) + 2 <= 2 ^ 26 ->
  registers (n + Z.of_nat (length s) + 2) st root F
    (registered (bool_decide (cookies st = Some root)) (target (max_input_nesting_level PG) (reserved PG root) s) value m)
    (php_register_variable_safe PG st (s ++ 0 :: t) value (Some root)).
Proof.
  intros Hv Hn Hu H0 H26. unfold php_register_variable_safe. rewrite register_cases by done. unfold target, reserved.
  destruct (skip_spaces_suffix s) as [sp E]. assert (Hn' : no_nul (skip_spaces s)) by (rewrite E in Hn; by apply Forall_app in Hn as [_ ?]).
  assert (Hu' : Forall is_u8 (skip_spaces s)) by (rewrite E in Hu; by apply Forall_app in Hu as [_ ?]).
  assert (El : (length (skip_spaces s) <= length s)%nat) by (rewrite E at 2; rewrite length_app; lia).
  pose proof (cut_ok _ Hn' Hu') as Hc. destruct (cut 91 (skip_spaces s)) as [raw br]. destruct Hc as (Hr & Hru & Hl & Hbr). cbn [fst snd].
  destruct (mangle_ok raw Hr Hru) as [Hm Hmu].
  assert (Hsame : forall e, registers (n + Z.of_nat (length s) + 2) st root F m (Some (with_errors st (errors st ++ e)))) by (intros e; apply (registers_nothing n); [lia|done]).
  pose proof (Hsame []) as Hs. rewrite app_nil_r, with_errors_same in Hs.
  destruct (forbidden _ _); [done|]. cbn [orb]. destruct (_ && bool_decide (mangle raw = str_this)); [exact (Hsame [Reassigns_this])|]. cbn [orb].
  destruct (_ && bool_decide (mangle raw = str_GLOBALS)); [exact Hs|].
  assert (Hd : (length (default [] br) <= length s)%nat) by (destruct br as [r|]; cbn; [destruct (Hbr r eq_refl) as (_ & _ & ?); lia|lia]).
  apply (keep_mono (n + Z.of_nat (length (default [] br)) + 2)); [lia|]. apply registers_name; try done; [|lia].
  intros r Er. by destruct (Hbr r Er) as (? & ? & _).
Qed.

(** One registration after another. *)
Lemma evolves_with_errors st st' F F' e : evolves st (with_errors st' (errors st)) F F' -> evolves (with_errors st e) (with_errors st' e) F F'.
Proof. by intros []. Qed.

Lemma registers_then n st root F m1 st1 : registers n st root F m1 (Some st1) ->
  exists F1, vars_at n st1 root m1 F1 /\ cookies st1 = cookies st /\ forall n2 m2 r, registers n2 st1 root F1 m2 r -> registers n2 st root F m2 r.
Proof.
  intros (st' & F1 & e & [= <-] & Hv & He & Hev). exists F1. split; [done|]. split; [exact (ev_cookies _ _ _ _ Hev)|].
  intros n2 m2 r (st2 & F2 & e2 & -> & Hv2 & He2 & Hev2). exists st2, F2, (e ++ e2). split; [done|]. split; [done|]. split; [by rewrite He2, He, app_assoc|].
  apply (evolves_trans _ _ _ _ F1 _ Hev). by apply (evolves_with_errors st1).
Qed.

(** The variables of an array when one more has been registered. *)
Definition variable_put (PG : settings) st (root : Z) (name value : list Z) (m : list (hkey * tree)) : list (hkey * tree) :=
  registered (bool_decide (cookies st = Some root)) (target (max_input_nesting_level PG) (reserved PG root) name) value m.


(** An array of variables that is empty. *)
Definition no_tables : php_vars :=
  {| EG := {| ht_iterators := []; ht_iterators_used := 0; slots := ∅; destroyed := [] |}; tables := ∅; fresh_table := 1; errors := []; cookies := None; http_get := None; http_post := None |}.
Definition no_variables : php_vars := match array_init no_tables with Some (st, _) => st | None => no_tables end.

Lemma no_variables_ok n : 0 <= n -> vars_at n no_variables 1 [] {[1]}.
Proof.
  intros Hn. destruct (array_init_ok no_tables n ∅) as (st' & E & Hev & _ & _ & Hr); [by intros x [? ?]|done|]. unfold no_variables. rewrite E.
  split; [intros x; apply (ev_below _ _ _ _ Hev)|]. split; [|by intros c [=]%(eq_trans (eq_sym (ev_cookies _ _ _ _ Hev)))].
  apply rep_array in Hr as ([next m] & [= <- <-] & Ha). destruct Ha as (ht & bs & Fm & ? & ? & ? & _ & ?). exists ht, bs, Fm. split_and!; try done; naive_solver.
Qed.

Definition plain_settings : settings :=
  {| max_input_nesting_level := 64; max_input_vars := 1000; display_errors := false; arg_separator := [38]; symbol_table := 0; user_table := None |}.


(** The check of the cookies' names is before the underscore for a bracket that is not closed. *)
Example host_cookie_from_bracket : target 64 (fun _ => false) [95; 91; 72; 111; 115; 116; 45; 97] = At [Some (str_host ++ [97])].
Proof. reflexivity. Qed.
