(* ===== verification/PhpVariablesEnv.v ===== *)
(** * The environment ([php_headers/php_variables.c])

    [php_import_environment_variables] registers the variables of the environment of the process, without taking
    their names apart. *)
From S2P Require Import Prelude ZendString ZendLong ZendHash OrderedMap ZendHashInv ZendHashMap ZendSymtable PhpVariables PhpVariablesSpec PhpVariablesRep PhpVariablesRegister PhpVariablesPath PhpVariablesRequest.

Implicit Types (st : php_vars) (F : gset Z).

Definition valid_environment_name (name : list Z) : bool := forallb (fun s => negb ((s =? 32) || (s =? 46) || (s =? 91))) name.

(** [env] is a C string, [ht] the address of the table. *)
Definition import_environment_variable st (ht : Z) (env : list Z) : option php_vars :=
  p ← strchr env 61;
  match p with
  | None => Some st
  | Some p =>
      name ← bytes_at env 0 p;
      if (p =? 0) || negb (valid_environment_name name) then Some st
      else
        let name_len := p in
        let p := p + 1 in
        len ← strlen_at env p;
        val ← bytes_at env p len;
        let val := IS_VAL (VString val) in
        idx ← _zend_handle_numeric_str name;
        match idx with
        | Some idx => '(st, _) ← on_table st ht (fun G ht => zend_hash_index_update G ht idx val); Some st
        | None => php_register_variable_quick st name val ht
        end
  end.

(** [environ] is the array of the strings of the environment, without the NULL at its end. *)
Fixpoint _php_import_environment_variables st (array_ptr : Z) (environ : list (list Z)) : option php_vars :=
  match environ with
  | [] => Some st
  | env :: environ => st ← import_environment_variable st array_ptr env; _php_import_environment_variables st array_ptr environ
  end.

(** ** What the environment means *)

(** The name and the value of a string of the environment; one that is malformed has none. *)
Definition env_variable (s : list Z) : option (list Z * list Z) :=
  match cut 61 s with
  | (name, Some v) => if bool_decide (name = []) || negb (valid_environment_name name) then None else Some (name, v)
  | (_, None) => None
  end.

(** Every variable at its name, later ones in the place of earlier ones. *)
Definition environment (strings : list (list Z)) (m : list (hkey * tree)) : list (hkey * tree) :=
  foldl (fun m v => om_insert (symtable_key v.1) (Leaf v.2) m) m (omap env_variable strings).

(** Without cookies in the way, a variable with a plain name. *)
Lemma import_ok n st a m F s t : vars_at n st a m F -> cookies st <> Some a -> no_nul s -> Forall is_u8 s -> 0 <= n < 2 ^ 26 ->
  registers (n + 1) st a F (environment [s] m) (import_environment_variable st a (s ++ 0 :: t)).
Proof.
  intros Hv Hck Hn Hu Hb. unfold import_environment_variable, environment, env_variable. rewrite strchr_cut by done. cbn [mbind option_bind omap list_omap].
  assert (Hsame : registers (n + 1) st a F m (Some st)).
  { pose proof (registers_nothing n (n + 1) st a m F [] ltac:(lia) Hv) as H. by rewrite app_nil_r, with_errors_same in H. }
  pose proof (cut_eq 61 s) as E. destruct (cut 61 s) as [name [v|]]; [|done]. destruct E as [-> _]. rewrite <- (app_assoc name). cbn [app].
  apply Forall_app in Hn as [Hnn [_ Hvn]%Forall_cons], Hu as [Hnu _].
  rewrite (bytes_at_mid [] name (61 :: v ++ 0 :: t) : bytes_at (name ++ 61 :: v ++ 0 :: t) 0 _ = _). cbn [mbind option_bind].
  assert ((Z.of_nat (length name) =? 0) = bool_decide (name = [])) as ->.
  { destruct name; [by rewrite bool_decide_eq_true_2|]. rewrite bool_decide_eq_false_2 by done. apply Z.eqb_neq. cbn. lia. }
  destruct (_ || _); [done|]. rewrite (snoc_pos name 61), (snoc_buf name _ 61), strlen_at_mid by done. cbn [mbind option_bind]. rewrite bytes_at_mid. cbn [mbind option_bind foldl fst snd].
  pose proof Hv as (Hf & Ha & _).
  destruct (plain_var_ok false n st a (0, m) F (name ++ [0]) (Some 0) (Z.of_nat (length name)) (Some name) v Hf Ha) as (st' & F' & Ep & Ha' & Hev); [|done|lia|].
  { exists 0. split_and!; try done. exact (bytes_at_mid [] name [0]). }
  destruct Ha as (ht & bs & Fm & Hht & _). unfold plain_var in Ep.
  rewrite (bytes_at_mid [] name [0] : bytes_at (name ++ [0]) 0 _ = _), Hht, (bool_decide_eq_false_2 _ Hck) in Ep. cbn [mbind option_bind] in Ep. rewrite Ep.
  apply (registers_quietly _ st a m _ F st' F'); [apply (vars_mono n); [lia|done]| |done].
  rewrite (bool_decide_eq_false_2 _ Hck) in Ha'. destruct Ha' as (ht' & bs' & Fm' & ? & ? & ? & _ & ?). exists ht', bs', Fm'. split_and!; try done; naive_solver.
Qed.

(** C20: The variables of the environment come into the array under their whole names, as integers where these are
    numbers: a string without [=], with an empty name or with a space, a dot or a bracket in the name is passed over,
    and of two strings with a name the later one counts.  Nothing else changes. *)
Theorem import_environment_builds n st a m F strings : vars_at n st a m F -> cookies st <> Some a -> Forall (fun s => no_nul s /\ Forall is_u8 s) strings ->
  0 <= n -> n + Z.of_nat (length strings) <= 2 ^ 26 ->
  registers (n + Z.of_nat (length strings)) st a F (environment strings m) (_php_import_environment_variables st a ((fun s => s ++ [0]) <$> strings)).
Proof.
  intros Hv Hck Hs. revert n st m F Hv Hck. induction Hs as [|s strings [Hsn Hsu] _ IH]; intros n st m F Hv Hck Hn Hb; cbn [fmap list_fmap _php_import_environment_variables length] in *.
  { pose proof (registers_nothing n (n + Z.of_nat 0) st a m F [] ltac:(lia) Hv) as H. by rewrite app_nil_r, with_errors_same in H. }
  pose proof (import_ok n st a m F s [] Hv Hck Hsn Hsu ltac:(lia)) as Hreg.
  destruct (import_environment_variable _ _ _) as [st1|]; [|by destruct Hreg as (? & ? & ? & [=] & _)]. cbn [mbind option_bind].
  apply registers_then in Hreg as (F1 & Hv1 & Hck1 & Hthen). apply Hthen. replace (n + Z.of_nat (S (length strings))) with (n + 1 + Z.of_nat (length strings)) by lia.
  assert (environment (s :: strings) m = environment strings (environment [s] m)) as ->.
  { unfold environment. cbn [omap list_omap]. by destruct (env_variable s). }
  apply IH; [done|by rewrite Hck1|lia|lia].
Qed.

(** [A=1], [B C=2], [A=3] and [7=x]. *)
Lemma import_environment_builds_witness :
  registers 4 no_variables 1 {[1]} [(KStr [65], Leaf [51]); (KInt 7, Leaf [120])]
    (_php_import_environment_variables no_variables 1 ((fun s => s ++ [0]) <$> [[65; 61; 49]; [66; 32; 67; 61; 50]; [65; 61; 51]; [55; 61; 120]])).
Proof.
  apply (import_environment_builds 0 no_variables 1 [] {[1]} [[65; 61; 49]; [66; 32; 67; 61; 50]; [65; 61; 51]; [55; 61; 120]]).
  - by apply no_variables_ok.
  - done.
  - repeat constructor; done.
  - done.
  - done.
Defined.
