(* ===== verification/PhpVariablesPost.v ===== *)
(** * The body of a form ([php_headers/php_variables.c])

    The body is read in blocks; a variable ends at the next [&], which may come in a later block.  Names are
    decoded in place, in the block of the [smart_str] that collects what has been read: [s] is its contents, and
    there is a byte behind them, which [smart_str_appendl] leaves free and which is written before it is read; what
    it is to begin with is [room].  The theorem says that the blocks do not matter. *)
From S2P Require Import Prelude ZendString ZendLong ZendHash OrderedMap ZendHashInv ZendHashMap ZendSymtable Url PhpVariables PhpVariablesSpec PhpVariablesRep PhpVariablesRegister PhpVariablesPath PhpVariablesRequest.

(** The position of a byte among [len] bytes. *)
Fixpoint find_byte (s : list Z) (c : Z) : option Z :=
  match s with [] => None | x :: s => if x =? c then Some 0 else option_map Z.succ (find_byte s c) end.

Definition memchr buf (p c len : Z) : option (option Z) :=
  s ← bytes_at buf p len; Some (option_map (Z.add p) (find_byte s c)).

(** [PARSE_POST] and so on; there is one filter for all of them. *)
Inductive parse := PARSE_POST | PARSE_GET | PARSE_COOKIE | PARSE_STRING.

(** The new value, when the variable is to be registered. *)
Definition php_default_input_filter (arg : parse) (var val : list Z) : option (list Z) := Some val.

Record post_var_data := { str : option (list Z); ptr : Z; end_ : Z; cnt : Z; already_scanned : Z }.

Definition SAPI_POST_HANDLER_BUFSIZ : Z := 8192.

Section Post.
Variables (PG : settings) (input_filter : parse -> list Z -> list Z -> option (list Z)) (room : Z) (arr : option Z).

(** A variable, when the filter lets it through; [var] is a C string. *)
Definition register_filtered st (arg : parse) (var val : list Z) : option php_vars :=
  name_len ← strlen var;
  match input_filter arg (take (Z.to_nat name_len) var) val with
  | Some val => php_register_variable_safe PG st var val arr
  | None => Some st
  end.

(** The variable from [p] to [vsep] is cut at the [=], decoded and registered. *)
Definition register_post_var st buf (p vsep : Z) : option (php_vars * list Z) :=
  ksep ← memchr buf p 61 (vsep - p);
  '(buf, klen) ← (match ksep with Some ksep => buf ← aset buf ksep 0; Some (buf, ksep - p) | None => Some (buf, vsep - p) end);
  '(decoded, _) ← php_url_decode (drop (Z.to_nat p) buf) (Z.to_nat klen);
  let buf := take (Z.to_nat p) buf ++ decoded in
  val ← (match ksep with Some ksep => bytes_at buf (ksep + 1) (vsep - (ksep + 1)) | None => Some [] end);
  val ← (match val with
         | [] => Some []
         | _ => '(val_buf, vlen) ← php_url_decode (val ++ [0]) (length val); Some (take (Z.to_nat vlen) val_buf)
         end);
  st ← register_filtered st PARSE_POST (drop (Z.to_nat p) buf) val;
  Some (st, buf).

(** [buf] is [str] and the byte of room. *)
Definition add_post_var st buf (var : post_var_data) (eof : bool) : option (php_vars * list Z * post_var_data * bool) :=
  if end_ var <=? ptr var then Some (st, buf, var, false)
  else
    let start := ptr var + already_scanned var in
    vsep ← memchr buf start 38 (end_ var - start);
    match (match vsep with Some vsep => Some vsep | None => if eof then Some (end_ var) else None end) with
    | None => Some (st, buf, {| var with already_scanned := end_ var - ptr var |}, false)
    | Some vsep =>
        '(st, buf) ← register_post_var st buf (ptr var) vsep;
        Some (st, buf, {| var with ptr := if vsep =? end_ var then vsep else vsep + 1; already_scanned := 0 |}, true)
    end.

Fixpoint add_post_loop (fuel : nat) st buf (vars : post_var_data) (eof : bool) : option (php_vars * list Z * post_var_data * bool) :=
  match fuel with
  | O => None
  | S fuel =>
      '(st, buf, vars, added) ← add_post_var st buf vars eof;
      if (added : bool) then
        let vars := {| vars with cnt := u64 (cnt vars + 1) |} in
        if u64 (max_input_vars PG) <? cnt vars then Some (add_error st Input_vars_exceeded, buf, vars, false)
        else add_post_loop fuel st buf vars eof
      else Some (st, buf, vars, true)
  end.

(** The last result is SUCCESS. *)
Definition add_post_vars st (vars : post_var_data) (eof : bool) : option (php_vars * post_var_data * bool) :=
  s ← str vars;
  let vars := {| vars with ptr := 0; end_ := Z.of_nat (length s) |} in
  '(st, buf, vars, success) ← add_post_loop (S (length s)) st (s ++ [room]) vars eof;
  if (success : bool) then
    s ← (if negb eof && negb (ptr vars =? 0) then bytes_at buf (ptr vars) (end_ vars - ptr vars) else bytes_at buf 0 (Z.of_nat (length s)));
    Some (st, {| vars with str := Some s |}, true)
  else Some (st, vars, false).

Definition smart_str_appendl (data : post_var_data) (buf : list Z) : post_var_data := {| data with str := Some (default [] (str data) ++ buf) |}.

(** What the reads of the stream give, up to its end; the result says whether the limit was reached. *)
Fixpoint read_body_loop st (post_data : post_var_data) (reads : list (list Z)) : option (php_vars * post_var_data * bool) :=
  match reads with
  | [] => Some (st, post_data, true)
  | buf :: reads =>
      let len := Z.of_nat (length buf) in
      '(st, post_data, success) ← (if 0 <? len then add_post_vars st (smart_str_appendl post_data buf) false else Some (st, post_data, true));
      if negb success then Some (st, post_data, false)
      else if negb (len =? SAPI_POST_HANDLER_BUFSIZ) then Some (st, post_data, true)
      else read_body_loop st post_data reads
  end.

(** [None] is no body, or one that cannot be read from the beginning. *)
Definition php_std_post_handler st (body : option (list (list Z))) : option php_vars :=
  match body with
  | None => Some st
  | Some reads =>
      '(st, post_data, success) ← read_body_loop st {| str := None; ptr := 0; end_ := 0; cnt := 0; already_scanned := 0 |} reads;
      if negb success then Some st
      else match str post_data with Some _ => '(st, _, _) ← add_post_vars st post_data true; Some st | None => Some st end
  end.
End Post.

(** ** What the body means *)

(** The pieces that an [&] ends, and what is behind the last one. *)
Fixpoint complete (s : list Z) : list (list Z) * list Z :=
  match s with
  | [] => ([], [])
  | c :: s =>
      let '(ps, last) := complete s in
      if c =? 38 then ([] :: ps, last) else match ps with [] => ([], c :: last) | p :: ps => ((c :: p) :: ps, last) end
  end.

(** At the end, what is behind the last [&] is a piece too, unless it is empty. *)
Definition pieces (eof : bool) (s : list Z) : list (list Z) * list Z :=
  let '(ps, last) := complete s in
  match last with [] => (ps, []) | _ => if eof then (ps ++ [last], []) else (ps, last) end.

(** What comes before the first NUL. *)
Definition c_string (s : list Z) : list Z := (cut 0 s).1.

Definition variable_of (piece : list Z) : list Z * list Z :=
  let '(k, v) := cut 61 piece in (c_string (url_decoded true k), url_decoded true (default [] v)).

Section Meaning.
Context (PG : settings) (input_filter : parse -> list Z -> list Z -> option (list Z)) (arr : option Z).

Definition register_one st (arg : parse) (v : list Z * list Z) : option php_vars :=
  match input_filter arg v.1 v.2 with Some val => php_register_variable_safe PG st (v.1 ++ [0]) val arr | None => Some st end.

(** The variables one after the other, up to the first behind the limit. *)
Fixpoint register_pieces st (count : Z) (ps : list (list Z)) : option (php_vars * Z * bool) :=
  match ps with
  | [] => Some (st, count, true)
  | p :: ps =>
      st ← register_one st PARSE_POST (variable_of p);
      if u64 (max_input_vars PG) <? count + 1 then Some (add_error st Input_vars_exceeded, count + 1, false) else register_pieces st (count + 1) ps
  end.
End Meaning.

(** The reads that the handler makes: a short one is the last. *)
Fixpoint body_read (reads : list (list Z)) : list Z :=
  match reads with [] => [] | buf :: reads => buf ++ (if Z.of_nat (length buf) =? SAPI_POST_HANDLER_BUFSIZ then body_read reads else []) end.

(** ** Pieces *)
Lemma complete_piece p s : Forall (fun c => c <> 38) p -> complete (p ++ 38 :: s) = (p :: (complete s).1, (complete s).2).
Proof.
  induction 1 as [|c p Hc _ IH]; cbn; [by destruct (complete s)|]. rewrite IH, (proj2 (Z.eqb_neq c 38)) by done. done.
Qed.

Lemma complete_last p : Forall (fun c => c <> 38) p -> complete p = ([], p).
Proof. induction 1 as [|c p Hc _ IH]; cbn; [done|]. rewrite IH, (proj2 (Z.eqb_neq c 38)) by done. done. Qed.

Lemma complete_app s t : complete (s ++ t) = ((complete s).1 ++ (complete ((complete s).2 ++ t)).1, (complete ((complete s).2 ++ t)).2).
Proof.
  induction s as [|c s IH]; cbn [app complete fst snd]; [by destruct (complete t)|]. rewrite IH. destruct (complete s) as [ps last]. cbn [fst snd].
  destruct (Z.eqb_spec c 38) as [->|Hc]; [done|]. destruct ps as [|p ps]; [|done]. cbn [app fst snd complete]. rewrite (proj2 (Z.eqb_neq c 38)) by done.
  by destruct (complete (last ++ t)) as [[|q qs] last'].
Qed.

Lemma find_byte_cut (s : list Z) c : find_byte s c = match cut c s with (a, Some _) => Some (Z.of_nat (length a)) | (_, None) => None end.
Proof. induction s as [|x s IH]; cbn; [done|]. destruct (x =? c); [done|]. rewrite IH. destruct (cut c s) as [a [b|]]; cbn; [|done]. f_equal. lia. Qed.

Lemma memchr_mid pre s t c : memchr (pre ++ s ++ t) (Z.of_nat (length pre)) c (Z.of_nat (length s)) =
  Some (match cut c s with (a, Some _) => Some (Z.of_nat (length pre) + Z.of_nat (length a)) | (_, None) => None end).
Proof. unfold memchr. rewrite bytes_at_mid. cbn [mbind option_bind]. rewrite find_byte_cut. by destruct (cut c s) as [a [b|]]. Qed.

Lemma c_string_split s t : exists t', s ++ 0 :: t = c_string s ++ 0 :: t' /\ no_nul (c_string s).
Proof.
  unfold c_string. pose proof (cut_eq 0 s) as E. destruct (cut 0 s) as [a [b|]]; destruct E as [-> Ha]; cbn [fst].
  - exists (b ++ 0 :: t). by rewrite <- app_assoc.
  - by exists t.
Qed.

Lemma pieces_piece eof p s : Forall (fun c => c <> 38) p -> pieces eof (p ++ 38 :: s) = (p :: (pieces eof s).1, (pieces eof s).2).
Proof. intros H. unfold pieces. rewrite complete_piece by done. destruct (complete s) as [ps [|c last]]; [done|]. by destruct eof. Qed.

Lemma pieces_last eof p : Forall (fun c => c <> 38) p -> p <> [] -> pieces eof p = if eof then ([p], []) else ([], p).
Proof. intros H Hp. unfold pieces. rewrite complete_last by done. by destruct p. Qed.

Lemma pieces_false s : pieces false s = complete s.
Proof. unfold pieces. by destruct (complete s) as [ps [|c last]]. Qed.

Lemma complete_rest s : Forall (fun c => c <> 38) (complete s).2.
Proof.
  induction s as [|c s IH]; cbn [complete]; [constructor|]. destruct (complete s) as [ps last]. destruct (Z.eqb_spec c 38); [done|].
  destruct ps; [by constructor|done].
Qed.

Lemma pieces_true s : (pieces true s).1 = (complete s).1 ++ (pieces true (complete s).2).1.
Proof.
  pose proof (complete_rest s) as H. unfold pieces at 1. destruct (complete s) as [ps [|c last]]; cbn [fst snd] in *; [by rewrite app_nil_r|].
  by rewrite pieces_last.
Qed.

Lemma cut_skip c a s : Forall (fun x => x <> c) a -> cut c (a ++ s) = (a ++ (cut c s).1, (cut c s).2).
Proof.
  induction 1 as [|x a Hx _ IH]; cbn [app cut]; [by destruct (cut c s)|]. by rewrite (proj2 (Z.eqb_neq x c)), IH by done.
Qed.

(** ** One variable *)
Section Post_proof.
Context (PG : settings) (input_filter : parse -> list Z -> list Z -> option (list Z)) (room : Z) (arr : option Z).
Implicit Types (st : php_vars).

Lemma register_filtered_eq st arg s t val :
  register_filtered PG input_filter arr st arg (s ++ 0 :: t) val = register_one PG input_filter arr st arg (c_string s, val).
Proof.
  destruct (c_string_split s t) as (t' & -> & Hn). unfold register_filtered, register_one. rewrite strlen_nul by done. cbn [mbind option_bind fst snd].
  rewrite Nat2Z.id, take_app_length. destruct (input_filter _ _ _); [|done]. by apply register_c_string.
Qed.

Lemma php_url_decode_front todo x tail : exists rest,
  php_url_decode (todo ++ x :: tail) (length todo) = Some (url_decoded true todo ++ 0 :: rest ++ tail, Z.of_nat (length (url_decoded true todo))) /\
  (length (url_decoded true todo) + length rest = length todo)%nat.
Proof. exact (url_decode_front true todo x tail). Qed.

Lemma decoded_copy (v : list Z) :
  (match v with [] => Some [] | _ => '(val_buf, vlen) ← php_url_decode (v ++ [0]) (length v); Some (take (Z.to_nat vlen) val_buf) end) = Some (url_decoded true v).
Proof.
  destruct v as [|c v]; [done|]. destruct (php_url_decode_front (c :: v) 0 []) as (rest & E & _). rewrite E.
  cbn [mbind option_bind]. by rewrite Nat2Z.id, take_app_length.
Qed.

Lemma register_post_var_ok st dn piece x tail : exists dn', length dn' = (length dn + length piece + 1)%nat /\
  register_post_var PG input_filter arr st (dn ++ piece ++ x :: tail) (Z.of_nat (length dn)) (Z.of_nat (length dn + length piece)) =
    (st ← register_one PG input_filter arr st PARSE_POST (variable_of piece); Some (st, dn' ++ tail)).
Proof.
  unfold register_post_var, variable_of. replace (Z.of_nat (length dn + length piece) - Z.of_nat (length dn)) with (Z.of_nat (length piece)) by lia.
  rewrite memchr_mid. cbn [mbind option_bind]. pose proof (cut_eq 61 piece) as E. destruct (cut 61 piece) as [k [v|]]; destruct E as [-> _]; cbn [default].
  - replace (dn ++ (k ++ 61 :: v) ++ x :: tail) with ((dn ++ k) ++ 61 :: v ++ x :: tail) by (rewrite <- !app_assoc; done).
    replace (Z.of_nat (length dn) + Z.of_nat (length k)) with (Z.of_nat (length (dn ++ k))) by (rewrite length_app; lia).
    rewrite aset_app_mid by done. cbn [mbind option_bind]. rewrite <- (app_assoc dn k), !Nat2Z.id, drop_app_length.
    replace (Z.to_nat (Z.of_nat (length (dn ++ k)) - Z.of_nat (length dn))) with (length k) by (rewrite length_app; lia).
    destruct (php_url_decode_front k 0 (v ++ x :: tail)) as (rest & Ed & Hl). rewrite Ed. cbn [mbind option_bind].
    rewrite take_app_length.
    pose proof (bytes_at_mid (dn ++ url_decoded true k ++ 0 :: rest) v (x :: tail)) as Hb. rewrite <- !app_assoc in Hb. cbn [app] in Hb.
    replace (bytes_at _ _ _) with (Some v); cycle 1.
    { rewrite <- Hb. f_equal; rewrite !length_app; cbn; lia. }
    cbn [mbind option_bind]. rewrite decoded_copy. cbn [mbind option_bind]. rewrite drop_app_length, register_filtered_eq.
    exists (dn ++ url_decoded true k ++ 0 :: rest ++ v ++ [x]). split; [rewrite !length_app; cbn; rewrite !length_app; cbn; lia|].
    rewrite <- !app_assoc. cbn [app]. by rewrite <- !app_assoc.
  - cbn [mbind option_bind]. rewrite !Nat2Z.id, drop_app_length, take_app_length. destruct (php_url_decode_front k x tail) as (rest & Ed & Hl).
    rewrite Ed. cbn [mbind option_bind]. rewrite drop_app_length, register_filtered_eq.
    exists (dn ++ url_decoded true k ++ 0 :: rest). split; [rewrite !length_app; cbn; lia|]. rewrite <- !app_assoc. cbn [app]. done.
Qed.
(** [rest] is still to be gone through, of which [already_scanned] bytes have no [&]. *)
Definition at_rest (dn rest : list Z) (vars : post_var_data) (count : Z) : Prop :=
  ptr vars = Z.of_nat (length dn) /\ end_ vars = Z.of_nat (length dn + length rest) /\ cnt vars = count /\
  exists k, already_scanned vars = Z.of_nat k /\ (k <= length rest)%nat /\ Forall (fun c => c <> 38) (take k rest).

Lemma scan_ok dn rest t vars count : at_rest dn rest vars count ->
  memchr (dn ++ rest ++ t) (ptr vars + already_scanned vars) 38 (end_ vars - (ptr vars + already_scanned vars)) =
    Some (match cut 38 rest with (a, Some _) => Some (Z.of_nat (length dn + length a)) | (_, None) => None end).
Proof.
  intros (-> & -> & _ & k & -> & Hk & Hf). rewrite <- (take_drop k rest) at 1 3. rewrite cut_skip by done.
  pose proof (memchr_mid (dn ++ take k rest) (drop k rest) t 38) as E. rewrite <- !app_assoc in E |- *.
  replace (Z.of_nat (length dn) + Z.of_nat k) with (Z.of_nat (length (dn ++ take k rest))) by (rewrite length_app, length_take; lia).
  replace (Z.of_nat (length dn + length rest) - Z.of_nat (length (dn ++ take k rest))) with (Z.of_nat (length (drop k rest))) by (rewrite length_app, length_take, length_drop; lia).
  rewrite E. destruct (cut 38 (drop k rest)) as [a [b|]]; cbn [fst snd]; [|done]. do 2 f_equal. rewrite !length_app. lia.
Qed.

(** A piece that ends at [vsep], with the byte there. *)
Lemma add_post_var_piece (eof : bool) st dn p x t vars v : ptr vars = Z.of_nat (length dn) -> Z.of_nat (length dn + length p) <= end_ vars -> ptr vars < end_ vars ->
  memchr (dn ++ p ++ x :: t) (ptr vars + already_scanned vars) 38 (end_ vars - (ptr vars + already_scanned vars)) = Some v ->
  match v with Some vsep => Some vsep | None => if eof then Some (end_ vars) else None end = Some (Z.of_nat (length dn + length p)) ->
  exists dn', length dn' = (length dn + length p + 1)%nat /\
    add_post_var PG input_filter arr st (dn ++ p ++ x :: t) vars eof =
      (st ← register_one PG input_filter arr st PARSE_POST (variable_of p);
       Some (st, dn' ++ t, {| vars with ptr := Z.min (Z.of_nat (length dn')) (end_ vars); already_scanned := 0 |}, true)).
Proof.
  intros Hp He Hlt Hm Hv. destruct (register_post_var_ok st dn p x t) as (dn' & Hl & E). exists dn'. split; [done|]. unfold add_post_var.
  rewrite (proj2 (Z.leb_gt _ _)), Hm by done. cbn [mbind option_bind]. rewrite Hv, Hp, E.
  destruct (register_one _ _ _ _ _ _) as [st'|]; [|done]. cbn [mbind option_bind]. do 4 f_equal. rewrite Hl.
  destruct (Z.eqb_spec (Z.of_nat (length dn + length p)) (end_ vars)); lia.
Qed.

(** What the loop leaves: [spec] says what is registered. *)
Definition loop_ok (last : list Z) vars (r : option (php_vars * list Z * post_var_data * bool)) (spec : option (php_vars * Z * bool)) : Prop :=
  match spec with
  | None => r = None
  | Some (st', _, false) => exists buf vars', r = Some (st', buf, vars', false)
  | Some (st', count, true) => exists dn x vars', r = Some (st', dn ++ last ++ [x], vars', true) /\
      at_rest dn last vars' count /\ end_ vars' = end_ vars /\ str vars' = str vars
  end.

Lemma add_post_loop_ok (eof : bool) fuel : forall st dn rest x vars count, at_rest dn rest vars count -> (length rest < fuel)%nat ->
  0 <= count -> count + Z.of_nat (length rest) < 2 ^ 64 ->
  loop_ok (pieces eof rest).2 vars (add_post_loop PG input_filter arr fuel st (dn ++ rest ++ [x]) vars eof) (register_pieces PG input_filter arr st count (pieces eof rest).1).
Proof.
  induction fuel as [|fuel IH]; intros st dn rest x vars count Hat Hf H0 Hc; [lia|]. cbn [add_post_loop].
  pose proof Hat as (Hp & He & Hcnt & k & Hk & Hk' & Hnone). pose proof (scan_ok dn rest [x] vars count Hat) as Hscan. pose proof (cut_eq 38 rest) as Hcut.
  assert (Hreg : forall p t x', rest ++ [x] = p ++ x' :: t -> Z.of_nat (length dn + length p) <= end_ vars -> ptr vars < end_ vars ->
    (forall v, memchr (dn ++ rest ++ [x]) (ptr vars + already_scanned vars) 38 (end_ vars - (ptr vars + already_scanned vars)) = Some v ->
      match v with Some vsep => Some vsep | None => if eof then Some (end_ vars) else None end = Some (Z.of_nat (length dn + length p))) ->
    exists dn', length dn' = (length dn + length p + 1)%nat /\ add_post_var PG input_filter arr st (dn ++ rest ++ [x]) vars eof =
      (st ← register_one PG input_filter arr st PARSE_POST (variable_of p);
       Some (st, dn' ++ t, {| vars with ptr := Z.min (Z.of_nat (length dn')) (end_ vars); already_scanned := 0 |}, true))).
  { intros p t x' E H1 H2 H3. rewrite E in Hscan, H3 |- *. eapply add_post_var_piece; try done. by apply H3. }
  destruct (cut 38 rest) as [p [rest'|]]; destruct Hcut as [E Hno].
  - destruct (Hreg p (rest' ++ [x]) 38) as (dn' & Hl & ->); [rewrite E, <- app_assoc; done| | | |].
    { rewrite He, E, length_app. lia. }
    { rewrite Hp, He, E, length_app. cbn. lia. }
    { intros v. rewrite Hscan. by intros [= <-]. }
    rewrite E, pieces_piece by done. cbn [fst snd register_pieces]. destruct (register_one _ _ _ _ _ _) as [st'|]; [|done]. cbn [mbind option_bind cnt].
    assert (Hlen : length rest = (length p + 1 + length rest')%nat) by (rewrite E, length_app; cbn; lia).
    rewrite Hcnt. replace (u64 (count + 1)) with (count + 1) by (symmetry; apply Z.mod_small; change (2 ^ 64) with 18446744073709551616 in *; lia).
    destruct (_ <? count + 1); [by eexists _, _|].
    refine (IH st' dn' rest' x _ (count + 1) _ _ _ _); cbn; [|lia|lia|lia].
    split_and!; [cbn; lia|cbn; lia|done|]. exists 0%nat. split_and!; [done|lia|by constructor].
  - subst p. destruct (decide (rest = [])) as [->|Hne].
    { unfold add_post_var. rewrite Hp, He. cbn [length]. rewrite (proj2 (Z.leb_le _ _)) by lia. cbn.
      exists dn, x, vars. by split_and!. }
    rewrite pieces_last by done. assert (0 < length rest)%nat by (destruct rest; [done|cbn; lia]). destruct eof; cbn [fst snd register_pieces].
    + destruct (Hreg rest [] x) as (dn' & Hl & ->); [done|lia|lia|intros v; rewrite Hscan; intros [= <-]; by rewrite He|].
      destruct (register_one _ _ _ _ _ _) as [st'|]; [|done]. cbn [mbind option_bind cnt].
      rewrite Hcnt. replace (u64 (count + 1)) with (count + 1) by (symmetry; apply Z.mod_small; change (2 ^ 64) with 18446744073709551616 in *; lia).
      destruct (_ <? count + 1); [by eexists _, _|].
      destruct (exists_last (l := dn')) as (dn2 & x2 & ->); [intros ->; cbn in Hl; lia|]. rewrite length_app in Hl |- *. cbn [length] in Hl |- *. rewrite app_nil_r.
      refine (IH st' dn2 [] x2 _ (count + 1) _ _ _ _); cbn [length]; [|lia|lia|lia].
      split_and!; cbn; [lia|lia|done|]. exists 0%nat. split_and!; [done|lia|by constructor].
    + unfold add_post_var. rewrite (proj2 (Z.leb_gt _ _)), Hscan by lia. cbn.
      eexists dn, x, _. split; [done|]. split; [|done].
      split_and!; [done..|]. exists (length rest). split_and!; [cbn; lia|lia|by rewrite firstn_all].
Qed.
(** What has been read and not gone through is [last]. *)
Definition collected (last : list Z) (count : Z) (data : post_var_data) : Prop :=
  default [] (str data) = last /\ cnt data = count /\
  exists k, already_scanned data = Z.of_nat k /\ (k <= length last)%nat /\ Forall (fun c => c <> 38) (take k last).

(** The result is what [spec] says, and the data satisfy [P] when the limit is not reached. *)
Definition goes_on (P : Z -> post_var_data -> Prop) (r : option (php_vars * post_var_data * bool)) (spec : option (php_vars * Z * bool)) : Prop :=
  match spec with
  | None => r = None
  | Some (st', _, false) => exists vars', r = Some (st', vars', false)
  | Some (st', count, true) => exists vars', r = Some (st', vars', true) /\ P count vars'
  end.

Lemma kept_ok (eof : bool) dn last x vars n : ptr vars = Z.of_nat (length dn) -> end_ vars = Z.of_nat (length dn + length last) -> end_ vars = Z.of_nat n ->
  exists s, (if negb eof && negb (ptr vars =? 0) then bytes_at (dn ++ last ++ [x]) (ptr vars) (end_ vars - ptr vars) else bytes_at (dn ++ last ++ [x]) 0 (Z.of_nat n)) = Some s /\
    (eof = false -> s = last).
Proof.
  intros Hp He Hn. pose proof (bytes_at_mid [] (dn ++ last) [x]) as Hfront. rewrite <- app_assoc in Hfront. cbn [app] in Hfront.
  replace (Z.of_nat (length (dn ++ last))) with (Z.of_nat n) in Hfront by (rewrite length_app; lia). cbn [length] in Hfront. change (Z.of_nat 0) with 0 in Hfront.
  destruct eof; cbn [negb andb]; [by eexists|]. destruct (Z.eqb_spec (ptr vars) 0) as [E|E]; cbn [negb].
  - destruct dn; [|cbn in *; lia]. by eexists.
  - exists last. split; [|done]. replace (end_ vars - ptr vars) with (Z.of_nat (length last)) by lia. rewrite Hp. apply bytes_at_mid.
Qed.

Lemma add_post_vars_ok (eof : bool) st vars s count : str vars = Some s -> collected s count vars -> 0 <= count -> count + Z.of_nat (length s) < 2 ^ 64 ->
  goes_on (fun count' vars' => is_Some (str vars') /\ (eof = false -> collected (complete s).2 count' vars')) (add_post_vars PG input_filter room arr st vars eof)
    (register_pieces PG input_filter arr st count (pieces eof s).1).
Proof.
  intros Hs (_ & Hcnt & k & Hk & Hk' & Hnone) H0 Hc. unfold add_post_vars. rewrite Hs. cbn [mbind option_bind].
  pose proof (add_post_loop_ok eof (S (length s)) st [] s room {| vars with ptr := 0; end_ := Z.of_nat (length s) |} count) as Hloop. unfold loop_ok in Hloop. rewrite Hs in Hloop.
  unfold goes_on. cbn [app] in Hloop. specialize (Hloop ltac:(split_and!; [done|done|done|by exists k]) ltac:(lia) H0 Hc).
  destruct (register_pieces _ _ _ _ _ _) as [[[st' count'] [|]]|]; [| |by rewrite Hloop].
  - destruct Hloop as (dn & x & vars' & -> & (Hp & He & Hcnt' & Hk2) & He' & Hs'). cbn [mbind option_bind str end_] in *.
    destruct (kept_ok eof dn (pieces eof s).2 x vars' (length s) Hp He He') as (s0 & -> & Hs0). cbn [mbind option_bind].
    eexists. split; [done|]. split; [by eexists|]. intros ->. rewrite Hs0, pieces_false in * by done. by split_and!.
  - destruct Hloop as (buf & vars' & ->). by exists vars'.
Qed.
Lemma register_pieces_app st count ps qs : register_pieces PG input_filter arr st count (ps ++ qs) =
  ('(st, count, ok) ← register_pieces PG input_filter arr st count ps; if (ok : bool) then register_pieces PG input_filter arr st count qs else Some (st, count, false)).
Proof.
  revert st count. induction ps as [|p ps IH]; intros st count; [done|]. cbn. destruct (register_one _ _ _ _ _ _); [|done]. cbn. by destruct (_ <? _).
Qed.

Lemma register_pieces_count st count ps st' count' ok : register_pieces PG input_filter arr st count ps = Some (st', count', ok) -> count <= count' <= count + Z.of_nat (length ps).
Proof.
  revert st count. induction ps as [|p ps IH]; intros st count E; cbn in E; [injection E; cbn; lia|].
  destruct (register_one _ _ _ _ _ _); [|done]. cbn in E. destruct (_ <? _); [injection E as <- <- <-; cbn; lia|]. apply IH in E. cbn. lia.
Qed.

Lemma complete_length s : (length (complete s).1 + length (complete s).2 <= length s)%nat.
Proof. induction s as [|c s IH]; cbn; [lia|]. destruct (complete s) as [ps last]. cbn in IH. destruct (c =? 38); cbn; [lia|]. destruct ps; cbn in *; lia. Qed.

Lemma collected_append last count data buf : collected last count data -> collected (last ++ buf) count (smart_str_appendl data buf).
Proof.
  intros (<- & Hc & k & Hk & Hk' & Hf). split; [done|]. split; [done|]. exists k. split; [done|]. rewrite length_app. split; [lia|]. by rewrite take_app_le.
Qed.

Lemma post_read_loop_ok reads : forall st data last count, collected last count data -> Forall (fun c => c <> 38) last -> 0 <= count ->
  count + Z.of_nat (length last + length (body_read reads)) < 2 ^ 64 ->
  goes_on (collected (complete (last ++ body_read reads)).2) (read_body_loop PG input_filter room arr st data reads)
    (register_pieces PG input_filter arr st count (complete (last ++ body_read reads)).1).
Proof.
  induction reads as [|buf reads IH]; intros st data last count Hcol Hlast H0 Hc; cbn [read_body_loop body_read] in *.
  { rewrite app_nil_r, complete_last by done. by exists data. }
  set (more := if Z.of_nat (length buf) =? SAPI_POST_HANDLER_BUFSIZ then body_read reads else []) in *. rewrite length_app in Hc.
  rewrite app_assoc, complete_app. cbn [fst snd]. rewrite register_pieces_app.
  pose proof (complete_length (last ++ buf)) as Hlen. rewrite length_app in Hlen. pose proof (complete_rest (last ++ buf)) as Hrest.
  assert (Hr : goes_on (collected (complete (last ++ buf)).2)
     (if 0 <? Z.of_nat (length buf) then add_post_vars PG input_filter room arr st (smart_str_appendl data buf) false else Some (st, data, true))
     (register_pieces PG input_filter arr st count (complete (last ++ buf)).1)).
  { destruct buf as [|c buf]; [rewrite app_nil_r, complete_last by done; by exists data|]. cbn [length Z.of_nat Z.ltb Z.compare].
    pose proof (collected_append _ _ _ (c :: buf) Hcol) as Hcol'. pose proof Hcol as (Hd & _).
    pose proof (add_post_vars_ok false st (smart_str_appendl data (c :: buf)) (last ++ c :: buf) count) as Hadd. rewrite pieces_false in Hadd.
    unfold goes_on in Hadd |- *. specialize (Hadd ltac:(cbn; by rewrite Hd) Hcol' H0 ltac:(rewrite length_app; lia)).
    destruct (register_pieces _ _ _ _ _ _) as [[[? ?] [|]]|]; [|done..]. destruct Hadd as (vars' & E & _ & Hv). exists vars'. split; [done|]. by apply Hv. }
  unfold goes_on in Hr at 1. destruct (register_pieces PG input_filter arr st count _) as [[[st' count'] ok]|] eqn:Er; cbn [mbind option_bind]; [|by rewrite Hr].
  apply register_pieces_count in Er. destruct ok; [|destruct Hr as (d & ->); by exists d].
  destruct Hr as (d & -> & Hd). cbn [mbind option_bind negb]. subst more. destruct (_ =? SAPI_POST_HANDLER_BUFSIZ); cbn [negb].
  - apply IH; [done|done|lia|lia].
  - rewrite app_nil_r, complete_last by done. by exists d.
Qed.

Lemma php_std_post_handler_blocks st reads : Z.of_nat (length (body_read reads)) < 2 ^ 64 ->
  php_std_post_handler PG input_filter room arr st (Some reads) =
    ('(st, _, _) ← register_pieces PG input_filter arr st 0 (pieces true (body_read reads)).1; Some st).
Proof.
  intros Hlen. unfold php_std_post_handler. rewrite pieces_true, register_pieces_app.
  pose proof (complete_length (body_read reads)) as Hl.
  pose proof (post_read_loop_ok reads st {| str := None; ptr := 0; end_ := 0; cnt := 0; already_scanned := 0 |} [] 0) as H. unfold goes_on in H. cbn [app] in H.
  specialize (H ltac:(split_and!; [done|done|]; exists 0%nat; split_and!; [done|cbn; lia|constructor]) ltac:(constructor) ltac:(lia) Hlen).
  destruct (register_pieces _ _ _ _ 0 _) as [[[st' count'] [|]]|] eqn:Er; cbn [mbind option_bind]; [| |by rewrite H].
  - apply register_pieces_count in Er. destruct H as (d & -> & Hd). cbn [mbind option_bind negb]. destruct (str d) as [s|] eqn:Es.
    + pose proof Hd as (Hs & _). rewrite Es in Hs. cbn in Hs. subst s.
      pose proof (add_post_vars_ok true st' d _ count' Es Hd ltac:(lia) ltac:(lia)) as Ha. unfold goes_on in Ha.
      destruct (register_pieces _ _ _ _ count' _) as [[[st2 c2] [|]]|]; [| |by rewrite Ha]; [destruct Ha as (v & -> & _)|destruct Ha as (v & ->)]; done.
    + destruct Hd as (Hs & _). rewrite Es in Hs. cbn in Hs. by rewrite <- Hs.
  - destruct H as (d & ->). done.
Qed.
(** C6: However the body of a form is cut into blocks by the reads, the handler goes through its pieces between the
    [&] in order: a piece is cut at its first [=], name and value are decoded, and what the filter makes of the value
    is registered under the name up to its first NUL.  It ends with the body or with a warning; the variable that
    exceeds the limit is still registered.  The bytes behind the contents of the buffer do not matter. *)
Theorem php_std_post_handler_reads st reads : Z.of_nat (length (body_read reads)) < 2 ^ 64 ->
  php_std_post_handler PG input_filter room arr st (Some reads) =
    ('(st, _, _) ← register_pieces PG input_filter arr st 0 (pieces true (body_read reads)).1; Some st).
Proof. apply php_std_post_handler_blocks. Qed.
End Post_proof.

(** ** The arrays afterwards *)
Lemma url_decoded_u8 plus n : forall s, (length s <= n)%nat -> Forall is_u8 s -> Forall is_u8 (url_decoded plus s) /\ (length (url_decoded plus s) <= length s)%nat.
Proof.
  induction n as [|n IH]; intros s Hn Hs; [by destruct s; [|cbn in Hn; lia]|]. destruct Hs as [|c t Hc Ht]; [done|]. cbn in Hn. cbn [url_decoded length].
  assert (Hstep : forall x, is_u8 x -> Forall is_u8 (x :: url_decoded plus t) /\ (length (x :: url_decoded plus t) <= S (length t))%nat).
  { intros x Hx. destruct (IH t ltac:(lia) Ht). split; [by constructor|cbn; lia]. }
  destruct (plus && (c =? 43)); [by apply Hstep|]. destruct (c =? 37); [|by apply Hstep]. destruct t as [|c1 [|c2 u]]; [by apply Hstep..|].
  destruct (isxdigit c1 && isxdigit c2); [|by apply Hstep]. apply Forall_cons in Ht as [_ [_ Hu]%Forall_cons]. destruct (IH u ltac:(cbn in Hn; lia) Hu).
  split; [constructor; [by apply Z.mod_pos_bound|done]|cbn; lia].
Qed.

Lemma c_string_ok s : no_nul (c_string s) /\ (Forall is_u8 s -> Forall is_u8 (c_string s)) /\ (length (c_string s) <= length s)%nat.
Proof.
  unfold c_string. pose proof (cut_eq 0 s) as E. destruct (cut 0 s) as [a [b|]]; destruct E as [-> Ha]; cbn [fst]; split_and!; try done.
  - by intros [? _]%Forall_app.
  - rewrite length_app. lia.
Qed.

Lemma variable_of_ok p : Forall is_u8 p -> let '(name, v) := variable_of p in no_nul name /\ Forall is_u8 name /\ (length name <= length p)%nat.
Proof.
  intros Hp. unfold variable_of. pose proof (cut_eq 61 p) as E. destruct (cut 61 p) as [k v].
  assert (Forall is_u8 k /\ (length k <= length p)%nat) as [Hk Hl].
  { destruct v; destruct E as [-> _]; [|done]. apply Forall_app in Hp as [? _]. rewrite length_app. split; [done|lia]. }
  destruct (url_decoded_u8 true _ k (le_n _) Hk) as [Hd Hdl]. destruct (c_string_ok (url_decoded true k)) as (Hn & Hu & Hcl). split_and!; [done|by apply Hu|lia].
Qed.

Section Builds.
Context (PG : settings) (root : Z).

(** The arrays when the variables have been registered one after the other. *)
Definition built (keep : bool) (vars : list (list Z * list Z)) (m : list (hkey * tree)) : list (hkey * tree) :=
  foldl (fun m v => registered keep (target (max_input_nesting_level PG) (reserved PG root) v.1) v.2 m) m vars.

(** Registering pieces changes the tables no more often than this. *)
Fixpoint changes (ps : list (list Z)) : Z := match ps with [] => 0 | p :: ps => Z.of_nat (length p) + 2 + changes ps end.

Lemma changes_pos ps : 0 <= changes ps.
Proof. induction ps; cbn; lia. Qed.

(** One variable, whose name is not longer than the piece it is from. *)
Lemma register_one_builds n st arg m F name v (p : list Z) : vars_at n st root m F -> no_nul name -> Forall is_u8 name -> (length name <= length p)%nat ->
  0 <= n -> n + (Z.of_nat (length p) + 2) <= 2 ^ 26 ->
  exists st1 F1, register_one PG php_default_input_filter (Some root) st arg (name, v) = Some st1 /\ cookies st1 = cookies st /\
    vars_at (n + (Z.of_nat (length p) + 2)) st1 root (built (bool_decide (cookies st = Some root)) [(name, v)] m) F1 /\
    forall n2 m2 r, registers n2 st1 root F1 m2 r -> registers n2 st root F m2 r.
Proof.
  intros Hv Hnn Hnu Hl Hn H26. unfold register_one, php_default_input_filter. cbn [fst snd].
  pose proof (php_register_variable_ok PG n st root m F name [] v Hv Hnn Hnu Hn ltac:(lia)) as Hreg.
  apply (keep_mono _ (n + (Z.of_nat (length p) + 2))) in Hreg; [|lia].
  destruct (php_register_variable_safe _ _ _ _ _) as [st1|] eqn:E; [|by destruct Hreg as (? & ? & ? & [=] & _)].
  apply registers_then in Hreg as (F1 & Hv1 & Hck & Hthen). exists st1, F1. by split_and!.
Qed.

Lemma register_pieces_builds ps : forall n st m F count, vars_at n st root m F -> Forall (Forall is_u8) ps -> 0 <= n -> n + changes ps <= 2 ^ 26 ->
  0 <= count <= u64 (max_input_vars PG) ->
  registers (n + changes ps) st root F (built (bool_decide (cookies st = Some root)) (variable_of <$> take (Z.to_nat (u64 (max_input_vars PG) + 1 - count)) ps) m)
    ('(st, _, _) ← register_pieces PG php_default_input_filter (Some root) st count ps; Some st).
Proof.
  induction ps as [|p ps IH]; intros n st m F count Hv Hu Hn H26 Hc; cbn [register_pieces changes] in *.
  { rewrite take_nil. cbn. pose proof (registers_nothing n (n + 0) st root m F [] ltac:(lia) Hv) as H. by rewrite app_nil_r, with_errors_same in H. }
  apply Forall_cons in Hu as [Hp Hu]. pose proof (variable_of_ok p Hp) as Hvar. pose proof (changes_pos ps).
  replace (Z.to_nat (u64 (max_input_vars PG) + 1 - count)) with (S (Z.to_nat (u64 (max_input_vars PG) + 1 - (count + 1)))) by lia. cbn [take fmap list_fmap].
  destruct (variable_of p) as [name v]. destruct Hvar as (Hnn & Hnu & Hl).
  destruct (register_one_builds n st PARSE_POST m F name v p Hv Hnn Hnu Hl Hn ltac:(lia)) as (st1 & F1 & -> & Hck & Hv1 & Hthen). cbn [mbind option_bind].
  apply Hthen. rewrite <- Hck in Hv1 |- *. destruct (Z.ltb_spec (u64 (max_input_vars PG)) (count + 1)).
  - cbn [mbind option_bind]. replace (Z.to_nat _) with 0%nat by lia. refine (registers_nothing _ _ st1 root _ F1 [Input_vars_exceeded] _ Hv1). lia.
  - rewrite Z.add_assoc. apply (IH _ st1 _ F1); [done|done|lia|lia|lia].
Qed.

Lemma changes_app ps qs : changes (ps ++ qs) = changes ps + changes qs.
Proof. induction ps; cbn [app changes]; lia. Qed.

Lemma complete_changes s : changes (complete s).1 + 2 * Z.of_nat (length (complete s).2) <= 2 * Z.of_nat (length s).
Proof.
  induction s as [|c s IH]; cbn [complete]; [done|]. destruct (complete s) as [ps last]. cbn [fst snd length] in *.
  destruct (c =? 38); [cbn [fst snd changes length]; lia|]. destruct ps as [|p ps]; cbn [fst snd changes length] in *; lia.
Qed.

Lemma pieces_changes s : changes (pieces true s).1 <= 2 * Z.of_nat (length s) + 2.
Proof.
  pose proof (complete_changes s). rewrite pieces_true. pose proof (complete_rest s) as Hr. destruct (complete s) as [ps last]. cbn [fst snd] in *.
  rewrite changes_app.
  destruct last as [|c last]; [cbn in *; lia|]. rewrite pieces_last by done. cbn [fst changes length] in *. lia.
Qed.

Lemma pieces_u8 eof s : Forall is_u8 s -> Forall (Forall is_u8) (pieces eof s).1.
Proof.
  intros Hs. assert (Forall (Forall is_u8) (complete s).1 /\ Forall is_u8 (complete s).2) as [H1 H2].
  { induction Hs as [|c s Hc _ [IH1 IH2]]; cbn [complete]; [by split; constructor|]. destruct (complete s) as [ps last]. cbn [fst snd] in *.
    destruct (c =? 38); [split; [by constructor; [constructor|]|done]|].
    destruct IH1; cbn [fst snd]; (split; [|by try constructor]); [constructor|]. constructor; [by constructor|done]. }
  unfold pieces. destruct (complete s) as [ps [|c last]]; [done|]. destruct eof; [|done]. by apply Forall_app_2; [|constructor].
Qed.

(** C5: The body of a form builds the arrays that its pieces say: from any arrays of variables, with the filter that
    is there by default, the handler ends and the arrays, as trees, are the former ones with each piece's variable
    put at the path of its name, in order, up to one variable more than [max_input_vars]. *)
Theorem php_std_post_handler_builds room st m F reads : vars_at 0 st root m F -> Forall is_u8 (body_read reads) ->
  2 * Z.of_nat (length (body_read reads)) + 2 <= 2 ^ 26 ->
  registers (2 * Z.of_nat (length (body_read reads)) + 2) st root F
    (built (bool_decide (cookies st = Some root)) (variable_of <$> take (Z.to_nat (u64 (max_input_vars PG) + 1)) (pieces true (body_read reads)).1) m)
    (php_std_post_handler PG php_default_input_filter room (Some root) st (Some reads)).
Proof.
  intros Hv Hu Hl. pose proof (pieces_changes (body_read reads)). rewrite php_std_post_handler_blocks by lia.
  apply (keep_mono (0 + changes (pieces true (body_read reads)).1)); [lia|].
  rewrite <- (Z.sub_0_r (u64 (max_input_vars PG) + 1)). apply register_pieces_builds; [done|by apply pieces_u8|done|lia|].
  split; [done|]. by apply Z.mod_pos_bound.
Qed.
End Builds.

Lemma php_std_post_handler_reads_witness :
  php_std_post_handler plain_settings php_default_input_filter 7 (Some 1) no_variables (Some [[97; 61; 98; 38; 99]]) =
    ('(st, _, _) ← register_pieces plain_settings php_default_input_filter (Some 1) no_variables 0 [[97; 61; 98]; [99]]; Some st).
Proof. apply (php_std_post_handler_reads plain_settings php_default_input_filter 7 (Some 1) no_variables [[97; 61; 98; 38; 99]]). done. Defined.

Lemma php_std_post_handler_builds_witness :
  registers 32 no_variables 1 {[1]} [(KStr [97], Node 2 [(KInt 0, Leaf [49]); (KInt 1, Leaf [50])])]
    (php_std_post_handler plain_settings php_default_input_filter 7 (Some 1) no_variables (Some [[97; 91; 93; 61; 49; 38; 97; 91; 93; 61; 37; 51; 50]])).
Proof.
  apply (keep_mono 28); [lia|].
  apply (php_std_post_handler_builds plain_settings 1 7 no_variables [] {[1]} [[97; 91; 93; 61; 49; 38; 97; 91; 93; 61; 37; 51; 50]]).
  - by apply no_variables_ok.
  - repeat constructor; done.
  - done.
Defined.
