(* ===== verification/PhpVariablesQuery.v ===== *)
(** * The query and the cookies ([php_headers/php_variables.c], [php_headers/reentrancy.c])

    [php_default_treat_data] cuts a copy of the query, of the cookies or of any string into tokens with
    [php_strtok_r] and registers a variable for each of them, in place.  The body of a form goes to the handler for
    its type of content, which is a parameter here ([sapi_handle_post]). *)
From S2P Require Import Prelude ZendString ZendLong ZendHash OrderedMap ZendHashInv ZendHashMap ZendSymtable Url PhpVariables PhpVariablesSpec PhpVariablesRep PhpVariablesRegister PhpVariablesPath PhpVariablesRequest PhpVariablesPost.

(** ** Tokens *)
Section Tokens.
Variable delim : list Z.         (* what is before its NUL *)

Definition is_delim (c : Z) : bool := existsb (Z.eqb c) delim.

(** The first byte that is no delimiter, and the position behind it. *)
Fixpoint skip_delim (n : nat) buf (s : Z) : option (Z * Z) :=
  match n with
  | O => None
  | S n => c ← aget buf s; if is_delim c then skip_delim n buf (s + 1) else Some (c, s + 1)
  end.

(** The token ends at a delimiter, which becomes a NUL, or with the string. *)
Fixpoint scan_token (n : nat) buf (s : Z) : option (list Z * option Z) :=
  match n with
  | O => None
  | S n =>
      c ← aget buf s;
      if c =? 0 then Some (buf, None)
      else if is_delim c then buf ← aset buf s 0; Some (buf, Some (s + 1))
      else scan_token n buf (s + 1)
  end.

(** The buffer, the token and the new [*last]. *)
Definition php_strtok_r buf (s last : option Z) : option (list Z * option Z * option Z) :=
  match (match s with Some s => Some s | None => last end) with
  | None => Some (buf, None, last)
  | Some s =>
      '(c, s) ← skip_delim (length buf) buf s;
      if c =? 0 then Some (buf, None, None)
      else
        let tok := s - 1 in
        '(buf, last) ← scan_token (length buf) buf s;
        Some (buf, Some tok, last)
  end.
End Tokens.

(** ** Variables *)
Section Treat.
Variables (PG : settings) (input_filter : parse -> list Z -> list Z -> option (list Z)).

Fixpoint skip_isspace (n : nat) buf (var : Z) : option Z :=
  match n with
  | O => None
  | S n => c ← aget buf var; if isspace c then skip_isspace n buf (var + 1) else Some var
  end.

Definition is_cookie (arg : parse) : bool := match arg with PARSE_COOKIE => true | _ => false end.

(** A decoder at a position of the buffer. *)
Definition decode_at (decode : list Z -> nat -> option (list Z * Z)) buf (p : Z) : option (list Z * Z) :=
  len ← strlen_at buf p;
  '(decoded, n) ← decode (drop (Z.to_nat p) buf) (Z.to_nat len);
  Some (take (Z.to_nat p) buf ++ decoded, n).

(** The value at [val], if there is one, and the name at [var] are decoded, and the variable is registered. *)
Definition treat_variable st (arg : parse) (array : Z) buf (var : Z) (val : option Z) : option (php_vars * list Z) :=
  '(buf, val) ←
    (match val with
     | Some val =>
         buf ← aset buf val 0;
         let val := val + 1 in
         '(buf, val_len) ← decode_at (if is_cookie arg then php_raw_url_decode else php_url_decode) buf val;
         val ← bytes_at buf val val_len;
         Some (buf, val)
     | None => Some (buf, [])
     end);
  buf ← (if is_cookie arg then Some buf else '(buf, _) ← decode_at php_url_decode buf var; Some buf);
  st ← register_filtered PG input_filter (Some array) st arg (drop (Z.to_nat var) buf) val;
  Some (st, buf).

(** One turn of the loop: the token at [var] is registered in [array].  The result says whether the loop goes on. *)
Definition treat_token st (arg : parse) (array : Z) buf (var count : Z) : option (php_vars * list Z * Z * bool) :=
  val ← strchr_at buf var 61;
  var ← (if is_cookie arg then skip_isspace (length buf) buf var else Some var);
  c ← aget buf var;
  if is_cookie arg && (bool_decide (val = Some var) || (c =? 0)) then Some (st, buf, count, true)
  else
    let count := count + 1 in
    if max_input_vars PG <? count then Some (add_error st Input_vars_exceeded, buf, count, false)
    else '(st, buf) ← treat_variable st arg array buf var val; Some (st, buf, count, true).

Fixpoint treat_loop (fuel : nat) st (arg : parse) (array : Z) (separator : list Z) buf (var strtok_buf : option Z) (count : Z) : option php_vars :=
  match var with
  | None => Some st
  | Some var =>
      match fuel with
      | O => None
      | S fuel =>
          '(st, buf, count, on) ← treat_token st arg array buf var count;
          if (on : bool) then
            '(buf, var, strtok_buf) ← php_strtok_r separator buf None strtok_buf;
            treat_loop fuel st arg array separator buf var strtok_buf count
          else Some st
      end
  end.

Variable sapi_handle_post : php_vars -> Z -> option php_vars.

(** The array of the variables: a new one, the former of the request being given up, or [destArray]. *)
Definition treat_array st (arg : parse) (destArray : Z) : option (php_vars * Z) :=
  match arg with
  | PARSE_STRING => Some (st, destArray)
  | _ =>
      '(st, z) ← array_init st;
      array ← (match z with IS_VAL (VArray a) => Some a | _ => None end);
      Some (match arg with
            | PARSE_POST => {| st with http_post := Some array |}
            | PARSE_GET => {| st with http_get := Some array |}
            | _ => {| st with cookies := Some array |}
            end, array)
  end.

(** A copy of a C string that is there and not empty. *)
Definition copy_of (c_var : option (list Z)) : option (option (list Z)) :=
  match c_var with
  | None => Some None
  | Some c_var => c ← aget c_var 0; if c =? 0 then Some None else len ← strlen c_var; Some (Some (take (Z.to_nat (len + 1)) c_var))
  end.

(** [query_string] and [cookie_data] are those of the request. *)
Definition php_default_treat_data st (arg : parse) (query_string cookie_data str : option (list Z)) (destArray : Z) : option php_vars :=
  '(st, array) ← treat_array st arg destArray;
  match arg with
  | PARSE_POST => sapi_handle_post st array
  | _ =>
      res ← (match arg with PARSE_GET => copy_of query_string | PARSE_COOKIE => copy_of cookie_data | _ => Some str end);
      match res with
      | None => Some st
      | Some res =>
          let separator := if is_cookie arg then [59] else arg_separator PG in
          '(buf, var, strtok_buf) ← php_strtok_r separator res (Some 0) None;
          treat_loop (length res) st arg array separator buf var strtok_buf 0
      end
  end.
End Treat.

(** ** What the string means *)

(** The pieces between delimiters that are not empty. *)
Fixpoint split_at (delim s : list Z) : list (list Z) :=
  match s with
  | [] => [[]]
  | c :: s => if is_delim delim c then [] :: split_at delim s else match split_at delim s with p :: ps => (c :: p) :: ps | [] => [[c]] end
  end.

Definition tokens (delim s : list Z) : list (list Z) := filter (fun p => p <> []) (split_at delim s).

Fixpoint skip_white (s : list Z) : list Z := match s with c :: t => if isspace c then skip_white t else s | [] => [] end.

(** The name and the value of a token; a cookie without a name is none. *)
Definition token_variable (arg : parse) (tok : list Z) : option (list Z * list Z) :=
  let '(k, v) := cut 61 tok in
  if is_cookie arg then match skip_white k with [] => None | name => Some (name, url_decoded false (default [] v)) end
  else Some (c_string (url_decoded true k), url_decoded true (default [] v)).

Section Meaning.
Context (PG : settings) (input_filter : parse -> list Z -> list Z -> option (list Z)).

(** The variables of the tokens one after the other, before the limit. *)
Fixpoint register_tokens st (arg : parse) (array count : Z) (toks : list (list Z)) : option php_vars :=
  match toks with
  | [] => Some st
  | tok :: toks =>
      match token_variable arg tok with
      | None => register_tokens st arg array count toks
      | Some v =>
          if max_input_vars PG <? count + 1 then Some (add_error st Input_vars_exceeded)
          else st ← register_one PG input_filter (Some array) st arg v; register_tokens st arg array (count + 1) toks
      end
  end.
End Meaning.

(** ** Tokens in the buffer *)
Section Tokens_proof.
Context (delim : list Z) (Hdelim : no_nul delim).
Notation delims := (Forall (fun c => is_delim delim c = true)).
Notation letters := (Forall (fun c => is_delim delim c = false)).

Lemma is_delim_nul : is_delim delim 0 = false.
Proof. unfold is_delim. clear -Hdelim. induction Hdelim as [|c d Hc Hd IH]; [done|]. cbn [existsb]. rewrite (proj2 (Z.eqb_neq 0 c)) by done. exact (IH Hd). Qed.

Lemma skip_delim_ok seps : forall n dn c t, delims seps -> is_delim delim c = false -> (length seps < n)%nat ->
  skip_delim delim n (dn ++ seps ++ c :: t) (Z.of_nat (length dn)) = Some (c, Z.of_nat (length dn + length seps + 1)).
Proof.
  induction seps as [|x seps IH]; intros n dn c t Hs Hc Hn; (destruct n as [|n]; [cbn in Hn; lia|]); cbn [skip_delim app length]; rewrite aget_app_mid by done; cbn [mbind option_bind].
  - rewrite Hc. do 2 f_equal. lia.
  - apply Forall_cons in Hs as [-> Hs]. rewrite (snoc_pos dn x), (snoc_buf dn _ x), IH by (done || (cbn in Hn; lia)).
    rewrite length_app. cbn. do 2 f_equal. lia.
Qed.

Lemma scan_token_ok tok : forall n dn x t, letters tok -> no_nul tok -> x = 0 \/ is_delim delim x = true -> (length tok < n)%nat ->
  scan_token delim n (dn ++ tok ++ x :: t) (Z.of_nat (length dn)) =
    Some (dn ++ tok ++ 0 :: t, if x =? 0 then None else Some (Z.of_nat (length dn + length tok + 1))).
Proof.
  induction tok as [|c tok IH]; intros n dn x t Hl Hn Hx Hf; (destruct n as [|n]; [cbn in Hf; lia|]); cbn [scan_token app length].
  - rewrite aget_app_mid by done. cbn [mbind option_bind]. destruct (Z.eqb_spec x 0) as [->|Hne]; [done|]. destruct Hx as [?| ->]; [done|].
    rewrite aset_app_mid by done. cbn [mbind option_bind]. do 3 f_equal. lia.
  - apply Forall_cons in Hl as [Hc Hl], Hn as [Hc0 Hn]. rewrite aget_app_mid by done. cbn [mbind option_bind]. rewrite (proj2 (Z.eqb_neq c 0)), Hc by done.
    rewrite (snoc_pos dn c), (snoc_buf dn _ c), IH by (done || (cbn in Hf; lia)). rewrite <- app_assoc, length_app. cbn [app length]. destruct (x =? 0); [done|]. do 3 f_equal. lia.
Qed.

Lemma split_at_cons s : exists p ps, split_at delim s = p :: ps.
Proof. induction s as [|c s (p & ps & E)]; cbn; [by eexists _, _|]. rewrite E. destruct (is_delim delim c); by eexists _, _. Qed.

Lemma tokens_cases s : (delims s /\ tokens delim s = []) \/
  exists seps tok, tok <> [] /\ delims seps /\ letters tok /\
    ((s = seps ++ tok /\ tokens delim s = [tok]) \/
     exists d more, is_delim delim d = true /\ s = seps ++ tok ++ d :: more /\ tokens delim s = tok :: tokens delim more).
Proof.
  unfold tokens. induction s as [|c s IH]; [by left|]. cbn [split_at]. destruct (is_delim delim c) eqn:Ec.
  - rewrite filter_cons_False by (intros []; done). destruct IH as [[H1 H2]|(seps & tok & Ht & Hs & Hl & Hcase)]; [left; by split; [constructor|]|right].
    exists (c :: seps), tok. split_and!; [done|by constructor|done|]. destruct Hcase as [[-> E]|(d & more & Hd & -> & E)]; [by left|right]. by exists d, more.
  - right. destruct (split_at_cons s) as (p & ps & Es). rewrite Es in *. rewrite filter_cons_True by done. destruct s as [|x s].
    { injection Es as <- <-. exists [], [c]. split_and!; [done|done|by constructor|by left]. }
    destruct (is_delim delim x) eqn:Ex.
    { cbn in Es. rewrite Ex in Es. injection Es as <- <-. exists [], [c]. split_and!; [done|done|by constructor|]. right. by exists x, s. }
    assert (Hp : p <> []).
    { cbn in Es. rewrite Ex in Es. destruct (split_at_cons s) as (q & qs & E). rewrite E in Es. by injection Es as <- <-. }
    rewrite filter_cons_True in IH by done. destruct IH as [[H _]|(seps & tok & Ht & Hs & Hl & Hcase)]; [apply Forall_cons in H as [H _]; congruence|].
    exists [], (c :: tok). assert (seps = []) as ->.
    { destruct Hs as [|y seps Hy _]; [done|]. destruct Hcase as [[[= -> _] _]|(d & more & _ & [= -> _] & _)]; congruence. }
    split_and!; [done|done|by constructor|]. destruct Hcase as [[-> E]|(d & more & Hd & -> & E)]; injection E as -> ->; [by left|right]. by exists d, more.
Qed.
Lemma strtok_token dn seps tok x t s last : (match s with Some s => Some s | None => last end) = Some (Z.of_nat (length dn)) ->
  tok <> [] -> delims seps -> letters tok -> no_nul tok -> x = 0 \/ is_delim delim x = true ->
  php_strtok_r delim (dn ++ seps ++ tok ++ x :: t) s last =
    Some ((dn ++ seps) ++ tok ++ 0 :: t, Some (Z.of_nat (length (dn ++ seps))), if x =? 0 then None else Some (Z.of_nat (length (dn ++ seps) + length tok + 1))).
Proof.
  intros Hs Ht Hd Hl Hn Hx. unfold php_strtok_r. rewrite Hs. destruct tok as [|c tok]; [done|]. apply Forall_cons in Hl as [Hc Hl], Hn as [Hc0 Hn]. cbn [app].
  rewrite skip_delim_ok by (done || (rewrite !length_app; cbn [length]; lia)). cbn [mbind option_bind]. rewrite (proj2 (Z.eqb_neq c 0)) by done.
  pose proof (scan_token_ok tok (length (dn ++ seps ++ c :: tok ++ x :: t)) (dn ++ seps ++ [c]) x t Hl Hn Hx) as E.
  replace ((dn ++ seps ++ [c]) ++ tok ++ x :: t) with (dn ++ seps ++ c :: tok ++ x :: t) in E by by rewrite <- !app_assoc.
  replace (Z.of_nat (length dn + length seps + 1)) with (Z.of_nat (length (dn ++ seps ++ [c]))) by (rewrite !length_app; cbn; lia).
  rewrite E by (rewrite !length_app; cbn; rewrite length_app; lia). cbn [mbind option_bind]. rewrite <- !app_assoc, !length_app. cbn [app length].
  destruct (x =? 0); repeat (f_equal; try lia).
Qed.

Lemma strtok_end dn seps t s last : (match s with Some s => Some s | None => last end) = Some (Z.of_nat (length dn)) -> delims seps ->
  php_strtok_r delim (dn ++ seps ++ 0 :: t) s last = Some (dn ++ seps ++ 0 :: t, None, None).
Proof.
  intros Hs Hd. unfold php_strtok_r. rewrite Hs, skip_delim_ok; [done|done|apply is_delim_nul|]. rewrite !length_app. cbn. lia.
Qed.
(** The next token of [rest], and where the search goes on. *)
Lemma php_strtok_r_ok dn rest t s last : no_nul rest -> (match s with Some s => Some s | None => last end) = Some (Z.of_nat (length dn)) ->
  (exists buf last', php_strtok_r delim (dn ++ rest ++ 0 :: t) s last = Some (buf, None, last') /\ tokens delim rest = []) \/
  exists dn' tok, no_nul tok /\ (0 < length tok <= length rest)%nat /\
    ((php_strtok_r delim (dn ++ rest ++ 0 :: t) s last = Some (dn' ++ tok ++ 0 :: t, Some (Z.of_nat (length dn')), None) /\ tokens delim rest = [tok]) \/
     exists more, php_strtok_r delim (dn ++ rest ++ 0 :: t) s last =
        Some (dn' ++ tok ++ 0 :: more ++ 0 :: t, Some (Z.of_nat (length dn')), Some (Z.of_nat (length dn' + length tok + 1))) /\
      tokens delim rest = tok :: tokens delim more /\ no_nul more /\ (length tok + 1 + length more <= length rest)%nat).
Proof.
  intros Hn Hs. destruct (tokens_cases rest) as [[Hd E]|(seps & tok & Ht & Hd & Hl & Hcase)].
  { left. eexists _, _. split; [by apply strtok_end|done]. }
  right. exists (dn ++ seps), tok. assert (Hpos : (0 < length tok)%nat) by (destruct tok; [done|cbn; lia]).
  destruct Hcase as [[-> E]|(d & more & Hdel & -> & E)]; apply Forall_app in Hn as [_ Hn].
  - split_and!; [done|done|rewrite length_app; lia|]. left. split; [|done]. rewrite <- (app_assoc seps). apply (strtok_token dn seps tok 0 t); try done. by left.
  - apply Forall_app in Hn as [Hn [Hd0 Hm]%Forall_cons]. split_and!; [done|done|rewrite !length_app; lia|]. right. exists more.
    split; [|split_and!; [done|done|rewrite !length_app; cbn; lia]].
    rewrite <- (app_assoc seps), <- (app_assoc tok). cbn [app]. rewrite (strtok_token dn seps tok d) by (done || by right).
    by rewrite (proj2 (Z.eqb_neq d 0)) by done.
Qed.
End Tokens_proof.

(** ** One variable *)
Lemma decode_at_ok (raw : bool) dn s t : no_nul s -> exists rest,
  decode_at (if raw then php_raw_url_decode else php_url_decode) (dn ++ s ++ 0 :: t) (Z.of_nat (length dn)) =
    Some (dn ++ url_decoded (negb raw) s ++ 0 :: rest ++ t, Z.of_nat (length (url_decoded (negb raw) s))) /\
  (length (url_decoded (negb raw) s) + length rest = length s)%nat.
Proof.
  intros Hs. destruct (url_decode_front (negb raw) s 0 t) as (rest & E & Hl). exists rest. split; [|done]. unfold decode_at.
  rewrite strlen_at_mid by done. cbn [mbind option_bind]. rewrite !Nat2Z.id, drop_app_length, take_app_length.
  assert ((if raw then php_raw_url_decode else php_url_decode) (s ++ 0 :: t) (length s) = decode_loop (negb raw) (length s) (s ++ 0 :: t) 0 0) as -> by by destruct raw.
  rewrite E. done.
Qed.

Lemma skip_isspace_ok sp : forall n dn c t, Forall (fun c => isspace c = true) sp -> isspace c = false -> (length sp < n)%nat ->
  skip_isspace n (dn ++ sp ++ c :: t) (Z.of_nat (length dn)) = Some (Z.of_nat (length (dn ++ sp))).
Proof.
  induction sp as [|x sp IH]; intros n dn c t Hs Hc Hn; (destruct n as [|n]; [cbn in Hn; lia|]); cbn [skip_isspace app length]; rewrite aget_app_mid by done; cbn [mbind option_bind].
  - by rewrite Hc, app_nil_r.
  - apply Forall_cons in Hs as [-> Hs]. rewrite (snoc_pos dn x), (snoc_buf dn _ x), IH by (done || (cbn in Hn; lia)). by rewrite <- app_assoc.
Qed.

Lemma skip_white_split s : exists sp, s = sp ++ skip_white s /\ Forall (fun c => isspace c = true) sp /\ isspace (default 0 (head (skip_white s))) = false.
Proof.
  induction s as [|c s (sp & E & Hs & Hh)]; [by exists []|]. cbn. destruct (isspace c) eqn:Ec; [|by exists []].
  exists (c :: sp). cbn [app]. rewrite <- E. split_and!; [done|by constructor|done].
Qed.

(** The name of a cookie begins behind the white space. *)
Lemma name_at (arg : parse) dn k x t : no_nul k -> x = 0 \/ x = 61 -> exists sp name,
  k = sp ++ name /\ name = (if is_cookie arg then skip_white k else k) /\
  (if is_cookie arg then skip_isspace (length (dn ++ k ++ x :: t)) (dn ++ k ++ x :: t) (Z.of_nat (length dn)) else Some (Z.of_nat (length dn))) =
    Some (Z.of_nat (length (dn ++ sp))).
Proof.
  intros Hk Hx. destruct (is_cookie arg); [|exists [], k; by rewrite app_nil_r]. destruct (skip_white_split k) as (sp & E & Hs & Hh). exists sp, (skip_white k).
  split_and!; [done|done|]. rewrite E at 2. destruct (skip_white k) as [|c name]; cbn in Hh.
  - rewrite app_nil_r. apply skip_isspace_ok; [done|by destruct Hx as [-> | ->]|]. rewrite E, !length_app. cbn. lia.
  - rewrite <- app_assoc. cbn [app]. apply skip_isspace_ok; [done|done|]. rewrite E, !length_app. cbn. lia.
Qed.

Section Treat_proof.
Context (PG : settings) (input_filter : parse -> list Z -> list Z -> option (list Z)) (arg : parse) (array : Z).

Definition final_name (name : list Z) : list Z := if is_cookie arg then name else c_string (url_decoded true name).

Lemma register_name st pre name t val : no_nul name -> exists dn, length dn = (length pre + length name + 1)%nat /\
  (buf ← (if is_cookie arg then Some (pre ++ name ++ 0 :: t) else '(buf, _) ← decode_at php_url_decode (pre ++ name ++ 0 :: t) (Z.of_nat (length pre)); Some buf);
   st ← register_filtered PG input_filter (Some array) st arg (drop (Z.to_nat (Z.of_nat (length pre))) buf) val;
   Some (st, buf)) = (st ← register_one PG input_filter (Some array) st arg (final_name name, val); Some (st, dn ++ t)).
Proof.
  intros Hn. unfold final_name. destruct (is_cookie arg) eqn:Ec.
  - exists (pre ++ name ++ [0]). split; [rewrite !length_app; cbn; lia|]. cbn [mbind option_bind]. rewrite Nat2Z.id, drop_app_length, register_filtered_eq.
    assert (c_string name = name) as ->. { unfold c_string. pose proof (cut_skip 0 name [] Hn) as E. rewrite !app_nil_r in E. by rewrite E. }
    by rewrite <- !app_assoc.
  - destruct (decode_at_ok false pre name t Hn) as (rest & E & Hl). cbn in E, Hl. exists (pre ++ url_decoded true name ++ 0 :: rest).
    split; [rewrite !length_app; cbn; lia|]. rewrite E. cbn [mbind option_bind]. rewrite Nat2Z.id, drop_app_length, register_filtered_eq. by rewrite <- !app_assoc.
Qed.

Lemma treat_value_ok st pre name v t : no_nul name -> no_nul v -> exists dn, length dn = (length pre + length name + 1 + length v + 1)%nat /\
  treat_variable PG input_filter st arg array (pre ++ name ++ 61 :: v ++ 0 :: t) (Z.of_nat (length pre)) (Some (Z.of_nat (length (pre ++ name)))) =
    (st ← register_one PG input_filter (Some array) st arg (final_name name, url_decoded (negb (is_cookie arg)) v); Some (st, dn ++ t)).
Proof.
  intros Hn Hv. unfold treat_variable. rewrite (app_assoc pre), aset_app_mid by done. cbn [mbind option_bind]. rewrite (snoc_pos (pre ++ name) 0).
  replace ((pre ++ name) ++ 0 :: v ++ 0 :: t) with (((pre ++ name) ++ [0]) ++ v ++ 0 :: t) by by rewrite <- !app_assoc.
  destruct (decode_at_ok (is_cookie arg) ((pre ++ name) ++ [0]) v t Hv) as (rest & E & Hl). rewrite E. cbn [mbind option_bind]. rewrite bytes_at_mid. cbn [mbind option_bind].
  replace (((pre ++ name) ++ [0]) ++ url_decoded (negb (is_cookie arg)) v ++ 0 :: rest ++ t) with (pre ++ name ++ 0 :: (url_decoded (negb (is_cookie arg)) v ++ 0 :: rest) ++ t)
    by (rewrite <- !app_assoc; done).
  destruct (register_name st pre name ((url_decoded (negb (is_cookie arg)) v ++ 0 :: rest) ++ t) (url_decoded (negb (is_cookie arg)) v) Hn) as (dn & Hdn & E2).
  exists (dn ++ url_decoded (negb (is_cookie arg)) v ++ 0 :: rest). split; [rewrite !length_app; cbn; lia|]. etransitivity; [exact E2|]. by rewrite <- (app_assoc dn).
Qed.

(** A cookie whose name is empty. *)
Lemma no_name_test dn sp name (v : option (list Z)) t : no_nul name ->
  let x := match v with Some _ => 61 | None => 0 end in
  exists c, aget ((dn ++ sp) ++ name ++ x :: t) (Z.of_nat (length (dn ++ sp))) = Some c /\
    bool_decide (match v with Some _ => Some (Z.of_nat (length (dn ++ sp ++ name))) | None => None end = Some (Z.of_nat (length (dn ++ sp)))) || (c =? 0) = bool_decide (name = []).
Proof.
  intros Hn x. rewrite (app_assoc dn), (length_app (dn ++ sp)). destruct name as [|c name].
  - exists x. split; [by apply aget_app_mid|]. rewrite (bool_decide_eq_true_2 ([] = [])), Nat.add_0_r by done. subst x. destruct v; [by rewrite bool_decide_eq_true_2|by rewrite orb_true_r].
  - exists c. split; [by apply aget_app_mid|]. apply Forall_cons in Hn as [Hc _]. rewrite (proj2 (Z.eqb_neq c 0)), orb_false_r by done.
    rewrite !bool_decide_eq_false_2; [done|done|]. destruct v; [|done]. cbn. intros [=]. lia.
Qed.

Lemma token_variable_name tok k v name : cut 61 tok = (k, v) -> name = (if is_cookie arg then skip_white k else k) ->
  token_variable arg tok = if is_cookie arg && bool_decide (name = []) then None else Some (final_name name, url_decoded (negb (is_cookie arg)) (default [] v)).
Proof. intros E ->. unfold token_variable, final_name. rewrite E. destruct (is_cookie arg); [|done]. by destruct (skip_white k). Qed.

(** The token, with the NUL behind it. *)
Lemma treat_token_ok st dn tok t count : no_nul tok -> exists dn', length dn' = (length dn + length tok + 1)%nat /\
  treat_token PG input_filter st arg array (dn ++ tok ++ 0 :: t) (Z.of_nat (length dn)) count =
    match token_variable arg tok with
    | None => Some (st, dn' ++ t, count, true)
    | Some v =>
        if max_input_vars PG <? count + 1 then Some (add_error st Input_vars_exceeded, dn' ++ t, count + 1, false)
        else st ← register_one PG input_filter (Some array) st arg v; Some (st, dn' ++ t, count + 1, true)
    end.
Proof.
  intros Hn. unfold treat_token. rewrite strchr_at_mid by done. cbn [mbind option_bind].
  pose proof (cut_eq 61 tok) as E. destruct (cut 61 tok) as [k v] eqn:Ecut.
  set (x := match v with Some _ => 61 | None => 0 end). set (t' := match v with Some v => v ++ 0 :: t | None => t end).
  assert (Hbuf : dn ++ tok ++ 0 :: t = dn ++ k ++ x :: t') by (subst x t'; destruct v; destruct E as [-> _]; rewrite <- ?app_assoc; done).
  assert (Hk : no_nul k) by (destruct v; destruct E as [-> _]; [by apply Forall_app in Hn as [? _]|done]).
  destruct (name_at arg dn k x t' Hk) as (sp & name & Ek & Ename & Evar); [subst x; destruct v; auto|]. rewrite Hbuf, Evar. cbn [mbind option_bind].
  assert (Hbuf' : dn ++ k ++ x :: t' = (dn ++ sp) ++ name ++ x :: t') by (rewrite Ek, <- !app_assoc; done).
  assert (Hname : no_nul name) by (rewrite Ek in Hk; by apply Forall_app in Hk as [_ ?]).
  rewrite (token_variable_name tok k v name) by done. destruct (no_name_test dn sp name v t' Hname) as (c & Hc & Htest). fold x in Hc. rewrite Hbuf', Hc. cbn [mbind option_bind].
  assert (Hval : (match (k, v) with (a, Some _) => Some (Z.of_nat (length (dn ++ a))) | (_, None) => None end) =
    match v with Some _ => Some (Z.of_nat (length (dn ++ sp ++ name))) | None => None end) by (rewrite Ek; by destruct v).
  rewrite Hval, Htest. assert (Hstay : length (dn ++ tok ++ [0]) = (length dn + length tok + 1)%nat /\ (dn ++ tok ++ [0]) ++ t = (dn ++ sp) ++ name ++ x :: t').
  { split; [rewrite !length_app; cbn; lia|]. by rewrite <- Hbuf', <- Hbuf, <- !app_assoc. }
  destruct (is_cookie arg && bool_decide (name = [])); [exists (dn ++ tok ++ [0]); destruct Hstay as [? ->]; done|].
  destruct (max_input_vars PG <? count + 1); [exists (dn ++ tok ++ [0]); destruct Hstay as [? ->]; done|].
  assert (Hreg : exists dn', length dn' = (length dn + length tok + 1)%nat /\
    treat_variable PG input_filter st arg array ((dn ++ sp) ++ name ++ x :: t') (Z.of_nat (length (dn ++ sp))) (match v with Some _ => Some (Z.of_nat (length (dn ++ sp ++ name))) | None => None end) =
      (st ← register_one PG input_filter (Some array) st arg (final_name name, url_decoded (negb (is_cookie arg)) (default [] v)); Some (st, dn' ++ t))).
  { subst x t'. destruct v as [v|]; destruct E as [E _].
    - destruct (treat_value_ok st (dn ++ sp) name v t Hname) as (dn' & Hl & Ht); [rewrite E in Hn; by apply Forall_app in Hn as [_ [_ ?]%Forall_cons]|].
      exists dn'. rewrite (app_assoc dn). split; [|exact Ht]. rewrite Hl, E, Ek, !length_app. cbn. lia.
    - destruct (register_name st (dn ++ sp) name t [] Hname) as (dn' & Hl & Ht). exists dn'. split; [rewrite Hl, E, Ek, !length_app; lia|]. exact Ht. }
  destruct Hreg as (dn' & Hl & ->). exists dn'. split; [done|]. by destruct (register_one _ _ _ _ _ _).
Qed.
Lemma treat_then K st dn tok t count toks : no_nul tok ->
  (forall dn' st' count', length dn' = (length dn + length tok + 1)%nat -> K st' (dn' ++ t) count' = register_tokens PG input_filter st' arg array count' toks) ->
  ('(st, buf, count, on) ← treat_token PG input_filter st arg array (dn ++ tok ++ 0 :: t) (Z.of_nat (length dn)) count; if (on : bool) then K st buf count else Some st) =
    register_tokens PG input_filter st arg array count (tok :: toks).
Proof.
  intros Hn HK. destruct (treat_token_ok st dn tok t count Hn) as (dn' & Hl & ->). cbn [register_tokens]. destruct (token_variable arg tok) as [v|]; [|by apply HK].
  destruct (_ <? _); [done|]. destruct (register_one _ _ _ _ _ _); [|done]. by apply HK.
Qed.

Lemma treat_loop_ok delim fuel : no_nul delim -> forall st dn rest t s last count, no_nul rest -> (length rest <= fuel)%nat ->
  (match s with Some s => Some s | None => last end) = Some (Z.of_nat (length dn)) ->
  ('(buf, var, strtok_buf) ← php_strtok_r delim (dn ++ rest ++ 0 :: t) s last; treat_loop PG input_filter fuel st arg array delim buf var strtok_buf count) =
    register_tokens PG input_filter st arg array count (tokens delim rest).
Proof.
  intros Hd. induction fuel as [|fuel IH]; intros st dn rest t s last count Hn Hf Hs;
    (destruct (php_strtok_r_ok delim Hd dn rest t s last Hn Hs) as [(buf & last' & -> & ->)|(dn1 & tok & Htok & Hl & Hcase)]; [done|]); [lia|].
  destruct Hcase as [[-> ->]|(more & -> & -> & Hmore & Hlen)]; cbn [mbind option_bind treat_loop].
  - apply (treat_then (fun st buf count => '(buf, var, strtok_buf) ← php_strtok_r delim buf None None; treat_loop PG input_filter fuel st arg array delim buf var strtok_buf count)
      st dn1 tok t count [] Htok). intros dn' st' count' _. cbn. by destruct fuel.
  - apply (treat_then (fun st buf count => '(buf, var, strtok_buf) ← php_strtok_r delim buf None (Some (Z.of_nat (length dn1 + length tok + 1)));
        treat_loop PG input_filter fuel st arg array delim buf var strtok_buf count) st dn1 tok (more ++ 0 :: t) count _ Htok).
    intros dn' st' count' Hl'. apply IH; [done|lia|by rewrite Hl'].
Qed.
End Treat_proof.

(** The string that is cut. *)
Definition source_of (arg : parse) (query_string cookie_data str : option (list Z)) : option (list Z) :=
  match arg with PARSE_GET => query_string | PARSE_COOKIE => cookie_data | PARSE_STRING => str | PARSE_POST => None end.

Definition separators PG (arg : parse) : list Z := if is_cookie arg then [59] else arg_separator PG.

(** Whatever is behind the NUL of the string, its tokens are registered one after the other. *)
Lemma php_default_treat_data_tokens PG input_filter sapi_handle_post st arg query_string cookie_data str destArray s t :
  source_of arg query_string cookie_data str = Some (s ++ 0 :: t) -> no_nul s -> no_nul (arg_separator PG) ->
  php_default_treat_data PG input_filter sapi_handle_post st arg query_string cookie_data str destArray =
    ('(st, array) ← treat_array st arg destArray; register_tokens PG input_filter st arg array 0 (tokens (separators PG arg) s)).
Proof.
  intros Hs Hn Hsep. unfold php_default_treat_data. destruct (treat_array st arg destArray) as [[st1 array]|]; [|done]. cbn [mbind option_bind].
  assert (Hd : no_nul (separators PG arg)) by (unfold separators; destruct (is_cookie arg); [by repeat constructor|done]).
  assert (Hloop : forall t', ('(buf, var, strtok_buf) ← php_strtok_r (separators PG arg) (s ++ 0 :: t') (Some 0) None;
     treat_loop PG input_filter (length (s ++ 0 :: t')) st1 arg array (separators PG arg) buf var strtok_buf 0) =
     register_tokens PG input_filter st1 arg array 0 (tokens (separators PG arg) s)).
  { intros t'. apply (treat_loop_ok PG input_filter arg array _ _ Hd st1 [] s t' (Some 0) None 0 Hn); [rewrite length_app; lia|done]. }
  assert (Hcopy : copy_of (Some (s ++ 0 :: t)) = Some (match s with [] => None | _ => Some (s ++ [0]) end)).
  { unfold copy_of. destruct s as [|c s']; [done|]. cbn [app]. change (aget (c :: s' ++ 0 :: t) 0) with (Some c). cbn [mbind option_bind].
    pose proof Hn as [Hc _]%Forall_cons. rewrite (proj2 (Z.eqb_neq c 0)) by done. change (c :: s' ++ 0 :: t) with ((c :: s') ++ 0 :: t).
    rewrite strlen_nul by done. cbn [mbind option_bind]. do 2 f_equal.
    replace (Z.to_nat (Z.of_nat (length (c :: s')) + 1)) with (length ((c :: s') ++ [0])) by (rewrite length_app; cbn; lia).
    replace ((c :: s') ++ 0 :: t) with (((c :: s') ++ [0]) ++ t) by by rewrite <- app_assoc. apply take_app_length. }
  destruct arg; cbn [source_of] in Hs; [done| | |]; rewrite Hs; [rewrite Hcopy; destruct s; [done|]; exact (Hloop [])..|exact (Hloop t)].
Qed.

(** ** The arrays afterwards *)
Lemma skip_white_ok s : no_nul s -> Forall is_u8 s -> no_nul (skip_white s) /\ Forall is_u8 (skip_white s) /\ (length (skip_white s) <= length s)%nat.
Proof.
  intros Hn Hu. destruct (skip_white_split s) as (sp & E & _). rewrite E in Hn, Hu. apply Forall_app in Hn as [_ Hn], Hu as [_ Hu]. split_and!; [done|done|].
  rewrite E at 2. rewrite length_app. lia.
Qed.

Lemma token_variable_ok arg tok name v : no_nul tok -> Forall is_u8 tok -> token_variable arg tok = Some (name, v) ->
  no_nul name /\ Forall is_u8 name /\ (length name <= length tok)%nat.
Proof.
  intros Hn Hu. unfold token_variable. pose proof (cut_eq 61 tok) as E. destruct (cut 61 tok) as [k w].
  assert (no_nul k /\ Forall is_u8 k /\ (length k <= length tok)%nat) as (Hkn & Hku & Hkl).
  { destruct w; destruct E as [-> _]; [|done]. apply Forall_app in Hn as [? _], Hu as [? _]. rewrite length_app. split_and!; [done|done|lia]. }
  destruct (is_cookie arg).
  - destruct (skip_white_ok k Hkn Hku) as (? & ? & ?). destruct (skip_white k); [done|]. intros [= <- <-]. split_and!; [done|done|lia].
  - intros [= <- <-]. destruct (url_decoded_u8 true _ k (le_n _) Hku) as [Hd Hdl]. destruct (c_string_ok (url_decoded true k)) as (? & ? & ?). split_and!; [done|auto|lia].
Qed.

Lemma tokens_ok delim s : no_nul s -> Forall is_u8 s -> Forall (fun tok => no_nul tok /\ Forall is_u8 tok) (tokens delim s) /\
  changes (tokens delim s) <= 2 * Z.of_nat (length s) + 2.
Proof.
  intros Hn Hu. unfold tokens. assert (Forall (fun tok => no_nul tok /\ Forall is_u8 tok) (split_at delim s) /\
    (changes (filter (fun p => p <> []) (tail (split_at delim s))) + 2 * Z.of_nat (length (default [] (head (split_at delim s)))) <= 2 * Z.of_nat (length s))) as [Hs Hc].
  { induction s as [|c s IH]; cbn [split_at]; [split; [by constructor; [split; constructor|]|done]|]. apply Forall_cons in Hn as [Hc Hn], Hu as [Hcu Hu].
    destruct (IH Hn Hu) as [IH1 IH2]. destruct (split_at_cons delim s) as (p & ps & E). rewrite E in *. cbn [tail head default from_option id length] in *.
    destruct (is_delim delim c); cbn [tail head default from_option id length].
    - split; [by constructor; [split; constructor|]|]. destruct p as [|x p]; [rewrite filter_cons_False by (intros []; done)|rewrite filter_cons_True by done; cbn [changes]]; cbn [length] in *; lia.
    - apply Forall_cons in IH1 as [[? ?] ?]. split; [by constructor; [split; constructor|]|lia]. }
  split; [apply Forall_forall; intros x [_ Hx]%list_elem_of_filter; by apply (proj1 (Forall_forall _ _) Hs)|]. destruct (split_at_cons delim s) as (p & ps & E). rewrite E in *. cbn [tail head default from_option id] in Hc.
  destruct p as [|x p]; [rewrite filter_cons_False by (intros []; done)|rewrite filter_cons_True by done; cbn [changes]]; cbn [length] in *; lia.
Qed.

Section Builds.
Context (PG : settings) (root : Z).

Lemma register_tokens_builds arg toks : forall n st m F count, vars_at n st root m F -> Forall (fun tok => no_nul tok /\ Forall is_u8 tok) toks -> 0 <= n ->
  n + changes toks <= 2 ^ 26 ->
  registers (n + changes toks) st root F (built PG root (bool_decide (cookies st = Some root)) (take (Z.to_nat (max_input_vars PG - count)) (omap (token_variable arg) toks)) m)
    (register_tokens PG php_default_input_filter st arg root count toks).
Proof.
  induction toks as [|tok toks IH]; intros n st m F count Hv Ht Hn H26; cbn [register_tokens changes omap list_omap] in *.
  { rewrite take_nil. pose proof (registers_nothing n (n + 0) st root m F [] ltac:(lia) Hv) as H. by rewrite app_nil_r, with_errors_same in H. }
  apply Forall_cons in Ht as [[Htn Htu] Ht]. pose proof (changes_pos toks). destruct (token_variable arg tok) as [[name v]|] eqn:E; cycle 1.
  { apply (keep_mono (n + changes toks)); [lia|]. apply (IH _ _ _ _ _ Hv Ht Hn). lia. }
  destruct (Z.ltb_spec (max_input_vars PG) (count + 1)).
  { replace (Z.to_nat (max_input_vars PG - count)) with 0%nat by lia. refine (registers_nothing n _ st root m F [Input_vars_exceeded] _ Hv). lia. }
  destruct (token_variable_ok arg tok name v Htn Htu E) as (Hnn & Hnu & Hl).
  destruct (register_one_builds PG root n st arg m F name v tok Hv Hnn Hnu Hl Hn ltac:(lia)) as (st1 & F1 & -> & Hck & Hv1 & Hthen). cbn [mbind option_bind].
  replace (Z.to_nat (max_input_vars PG - count)) with (S (Z.to_nat (max_input_vars PG - (count + 1)))) by lia. cbn [take].
  apply Hthen. rewrite <- Hck in Hv1 |- *. rewrite Z.add_assoc. apply (IH _ st1 _ F1); [done|done|lia|lia].
Qed.
(** What the variables are added to: those of the array that is given, or none. *)
Definition begins st (arg : parse) (destArray : Z) (m : list (hkey * tree)) F : Prop :=
  match arg with
  | PARSE_POST => False
  | PARSE_STRING => root = destArray /\ vars_at 0 st root m F
  | _ => root = fresh_table st /\ m = [] /\ F = {[root]} /\ fresh_ok st /\ forall c, cookies st = Some c -> c < fresh_table st
  end.

(** The first of two cookies of a name is kept. *)
Definition keeps st (arg : parse) : bool := match arg with PARSE_STRING => bool_decide (cookies st = Some root) | _ => is_cookie arg end.

Lemma treat_array_ok st arg destArray m F : begins st arg destArray m F ->
  exists st1, treat_array st arg destArray = Some (st1, root) /\ vars_at 0 st1 root m F /\ bool_decide (cookies st1 = Some root) = keeps st arg /\
    errors st1 = errors st /\ forall x, x < fresh_table st -> tables st1 !! x = tables st !! x.
Proof.
  intros Hb. assert (Hnew : forall ck get, root = fresh_table st -> m = [] -> F = {[root]} -> fresh_ok st -> (forall c, ck = Some c -> c <= root) ->
    exists st1, array_init st = Some (st1, IS_VAL (VArray root)) /\ vars_at 0 {| st1 with cookies := ck; http_get := get |} root m F /\
      cookies st1 = cookies st /\ errors st1 = errors st /\ forall x, x < fresh_table st -> tables st1 !! x = tables st !! x).
  { intros ck get Er -> -> Hf Hck. destruct (array_init_ok st 0 {[root]} Hf ltac:(lia)) as (st1 & E & Hev & Hfr & Htab & Hr). exists st1.
    rewrite Er at 1. split; [done|]. split; [|split; [apply (ev_cookies _ _ _ _ Hev)|split; [apply (ev_errors _ _ _ _ Hev)|intros x Hx; apply Htab; lia]]].
    split; [exact (ev_below _ _ _ _ Hev)|]. split; cycle 1.
    { intros c Ec. cbn in Ec. specialize (Hck c Ec). cbn. rewrite Hfr. split; [lia|]. destruct (decide (c = root)) as [->|Hne]; [by left|right]. clear -Hne. set_solver. }
    rewrite <- Er in Hr. apply rep_array in Hr as ([next m'] & [= <- <-] & Ha). destruct Ha as (ht & bs & Fm & ? & ? & ? & _ & ?). exists ht, bs, Fm. cbn.
    split_and!; try done; naive_solver. }
  destruct arg; cbn [begins keeps is_cookie treat_array] in Hb |- *; [done| | |by destruct Hb as [-> Hv]; exists st; split_and!].
  - destruct Hb as (Er & -> & -> & Hf & Hc). destruct (Hnew (cookies st) (Some root) Er eq_refl eq_refl Hf) as (st1 & -> & Hv & Hck & He & Ht); [intros c E; specialize (Hc c E); lia|].
    cbn [mbind option_bind]. eexists. split; [done|]. split; [by rewrite <- Hck in Hv|]. split; [|done]. cbn. rewrite Hck. apply bool_decide_eq_false_2. intros E. specialize (Hc _ E). lia.
  - destruct Hb as (Er & -> & -> & Hf & Hc). destruct (Hnew (Some root) None Er eq_refl eq_refl Hf) as (st1 & -> & Hv & Hck & He & Ht); [intros c [= <-]; lia|].
    cbn [mbind option_bind]. eexists. split; [done|]. split; [by apply Hv|]. split; [by apply bool_decide_eq_true_2|done].
Qed.

(** C4: The query and the cookies build the arrays that their tokens say: an empty array (for [parse_str], the one
    that is given) gets, in order and as trees, for each piece between separators that is not empty the decoded value
    at the path of the name.  Names of cookies are not decoded, white space before them is skipped, those without a
    name are no variables, and the first cookie of a name without brackets stays.  No more than [max_input_vars] are
    registered. *)
Theorem php_default_treat_data_builds sapi_handle_post st arg query_string cookie_data str destArray m F s t :
  begins st arg destArray m F -> source_of arg query_string cookie_data str = Some (s ++ 0 :: t) ->
  no_nul s -> Forall is_u8 s -> no_nul (arg_separator PG) -> 2 * Z.of_nat (length s) + 2 <= 2 ^ 26 ->
  exists st1, treat_array st arg destArray = Some (st1, root) /\ errors st1 = errors st /\ (forall x, x < fresh_table st -> tables st1 !! x = tables st !! x) /\
    registers (2 * Z.of_nat (length s) + 2) st1 root F
      (built PG root (keeps st arg) (take (Z.to_nat (max_input_vars PG)) (omap (token_variable arg) (tokens (separators PG arg) s))) m)
      (php_default_treat_data PG php_default_input_filter sapi_handle_post st arg query_string cookie_data str destArray).
Proof.
  intros Hb Hs Hn Hu Hsep Hl. destruct (treat_array_ok st arg destArray m F Hb) as (st1 & E & Hv & Hk & He & Ht). exists st1. split_and!; [done..|].
  rewrite (php_default_treat_data_tokens PG _ _ st arg _ _ _ _ s t Hs Hn Hsep), E. cbn [mbind option_bind].
  destruct (tokens_ok (separators PG arg) s Hn Hu) as [Htok Hch]. apply (keep_mono (0 + changes (tokens (separators PG arg) s))); [lia|].
  rewrite <- Hk, <- (Z.sub_0_r (max_input_vars PG)). apply register_tokens_builds; [done|done|lia|lia].
Qed.
End Builds.

(** The cookies [a[b]=1; a[b]=2;=3]. *)
Definition some_cookies : list Z := [97; 91; 98; 93; 61; 49; 59; 32; 97; 91; 98; 93; 61; 50; 59; 61; 51].

Lemma php_default_treat_data_builds_witness :
  exists st1, treat_array no_tables PARSE_COOKIE 0 = Some (st1, 1) /\ errors st1 = [] /\ (forall x, x < 1 -> tables st1 !! x = None) /\
    registers 36 st1 1 {[1]} (built plain_settings 1 true [([97; 91; 98; 93], [49]); ([97; 91; 98; 93], [50])] [])
      (php_default_treat_data plain_settings php_default_input_filter (fun st _ => Some st) no_tables PARSE_COOKIE None (Some (some_cookies ++ [0])) None 0).
Proof.
  apply (php_default_treat_data_builds plain_settings 1 (fun st _ => Some st) no_tables PARSE_COOKIE None (Some (some_cookies ++ [0])) None 0 [] {[1]} some_cookies []).
  - split_and!; [done..| |done]. by intros x [? ?].
  - done.
  - repeat constructor; done.
  - repeat constructor; done.
  - repeat constructor; done.
  - done.
Defined.

(** Of two cookies whose name has brackets, the second is the one that stays. *)
Example bracketed_cookie_replaced :
  built plain_settings 1 true (take 1000 (omap (token_variable PARSE_COOKIE) (tokens [59] some_cookies))) [] = [(KStr [97], Node 0 [(KStr [98], Leaf [50])])].
Proof. reflexivity. Qed.
