(* ===== verification/Bridge.v ===== *)
(** * The bridge between PHP and Python ([PyPhpBridge.cpp], [deep_client_php_wrapper.cpp])

    Values of PHP code are converted to Python objects to call a function of the module
    [deep_client_interface], and its result is converted back.  The CPython API is the class [Python]: an
    abstract type of objects with the functions the bridge calls; [PythonLaws] states the documented
    behaviour the theorems rely on.  PHP arrays are ordered maps, as [ZendSymtable] justifies.

    The conversions recurse on nested containers; the fuel is the nesting depth. *)
From S2P Require Import Prelude ZendString ZendLong ZendHash OrderedMap ZendHashInv ZendSymtable.
From stdpp Require Import strings.
Open Scope Z_scope.

(** ** The CPython API *)
Class Python (double PyObject : Type) := {
  PyLong_Check : PyObject -> bool; PyFloat_Check : PyObject -> bool; PyUnicode_Check : PyObject -> bool;
  PyDict_Check : PyObject -> bool; PyList_Check : PyObject -> bool; PyTuple_Check : PyObject -> bool;
  PyBool_Check : PyObject -> bool; PySet_Check : PyObject -> bool; PyFrozenSet_Check : PyObject -> bool;
  PyBytes_Check : PyObject -> bool; PyByteArray_Check : PyObject -> bool;
  PyMemoryView_Check : PyObject -> bool; PyCallable_Check : PyObject -> bool;
  (** -1 when the integer does not fit. *)
  PyLong_AsLong : PyObject -> Z;
  PyFloat_AsDouble : PyObject -> double;
  (** The bytes up to the terminating NUL; [None] is NULL, for an object that is not a string. *)
  PyUnicode_AsUTF8 : PyObject -> option (list Z);
  (** The pairs [PyDict_Next] goes through, and the items of a list. *)
  PyDict_items : PyObject -> list (PyObject * PyObject);
  PyList_items : PyObject -> list PyObject;
  PyFloat_FromDouble : double -> PyObject;
  PyUnicode_DecodeUTF8_replace : list Z -> PyObject;
  PyUnicode_DecodeFSDefault : list Z -> PyObject;
  Py_BuildValue_s : list Z -> PyObject;
  PyDict_New : PyObject;
  PyDict_SetItem : PyObject -> PyObject -> PyObject -> PyObject;
  (** [PyList_New] and [PyList_SET_ITEM] for every index. *)
  PyList_of : list PyObject -> PyObject;
  PyTuple_Pack : list PyObject -> PyObject;
  (** The attribute, [None] for NULL, and the exception value of the error indicator after the call. *)
  PyObject_GetAttrString : PyObject -> string -> option PyObject * option PyObject;
  (** The result, [None] for NULL, and the exception value of the error indicator after the call. *)
  PyObject_CallObject : PyObject -> PyObject -> option PyObject * option PyObject;
  PyObject_Str : PyObject -> option PyObject;
  (** The exception is an instance of [SystemExit]. *)
  is_SystemExit : PyObject -> bool;
  (** The error indicator after printing it, [None] when the call ends the process. *)
  PyErr_Print : option PyObject -> option (option PyObject);
  (** A C integer as a C double. *)
  double_of_int64 : Z -> double }.

(** What the documentation of the API promises. *)
Class PythonLaws (double PyObject : Type) `{Python double PyObject} := {
  (** Byte strings that are valid UTF-8 without NUL; ASCII is. *)
  utf8 : list Z -> Prop;
  utf8_ascii : forall s : list Z, Forall (fun c : Z => 0 < c < 128) s -> utf8 s;
  utf8_bytes : forall s : list Z, utf8 s -> Forall (fun c : Z => 0 < c < 256) s;
  decode_utf8 : forall s, utf8 s -> PyUnicode_AsUTF8 (PyUnicode_DecodeUTF8_replace s) = Some s;
  decode_fs : forall s, utf8 s -> PyUnicode_AsUTF8 (PyUnicode_DecodeFSDefault s) = Some s;
  fs_checks : forall s, PyUnicode_Check (PyUnicode_DecodeFSDefault s) = true;
  unicode_checks : forall o, PyUnicode_Check o = true ->
    PyLong_Check o = false /\ PyFloat_Check o = false;
  float_checks : forall d, PyLong_Check (PyFloat_FromDouble d) = false /\
    PyFloat_Check (PyFloat_FromDouble d) = true /\ PyFloat_AsDouble (PyFloat_FromDouble d) = d;
  list_checks : forall l, PyLong_Check (PyList_of l) = false /\ PyFloat_Check (PyList_of l) = false /\
    PyUnicode_Check (PyList_of l) = false /\ PyDict_Check (PyList_of l) = false /\
    PyList_Check (PyList_of l) = true /\ PyList_items (PyList_of l) = l;
  dict_checks : forall d, PyDict_Check d = true -> PyLong_Check d = false /\ PyFloat_Check d = false /\
    PyUnicode_Check d = false /\ PyList_Check d = false /\ PyTuple_Check d = false;
  dict_new : PyDict_Check PyDict_New = true /\ PyDict_items PyDict_New = [];
  (** Dictionaries keep insertion order. *)
  dict_set : forall d k o, PyDict_Check d = true -> PyDict_Check (PyDict_SetItem d k o) = true /\
    (PyUnicode_AsUTF8 k ∉ (PyUnicode_AsUTF8 ∘ fst) <$> PyDict_items d ->
     PyDict_items (PyDict_SetItem d k o) = PyDict_items d ++ [(k, o)]);
  (** [bool] is a subclass of [int]. *)
  bool_is_long : forall o, PyBool_Check o = true -> PyLong_Check o = true;
  (** Printing an error clears the indicator, unless the error is a [SystemExit]: then the process
      exits. *)
  print_clears : forall e, is_SystemExit e = false -> PyErr_Print (Some e) = Some None;
  print_exits : forall e, is_SystemExit e = true -> PyErr_Print (Some e) = None;
  (** The indicator is set after a call that failed and clear after a call that gave a result. *)
  call_error : forall f args err, PyObject_CallObject f args = (None, err) -> is_Some err;
  call_result : forall f args o err, PyObject_CallObject f args = (Some o, err) -> err = None }.

(** A call gives a result or throws [Php::Exception]. *)
Inductive res (A : Type) := Ok (a : A) | Throw (message : list Z).
Arguments Ok {A}.
Arguments Throw {A}.

(** A call of the wrapper comes back, or the process ends in it. *)
Inductive ending (A : Type) := Returns (r : res A) | Exits.
Arguments Returns {A}.
Arguments Exits {A}.

Section Bridge.
Context {double PyObject : Type} `{Python double PyObject}.

(** ** Values of PHP *)
Inductive Value := Null | Bool (b : bool) | Numeric (z : Z) | Float (d : double) | String (s : list Z)
  | Array (m : list (hkey * Value)) | Other.

Fixpoint bytes (s : string) : list Z :=
  match s with
  | EmptyString => []
  | String.String c s => Z.of_N (Ascii.N_of_ascii c) :: bytes s
  end.

Definition undefined : list Z := bytes "Runtime error, variable undefined".

Definition isNumeric (v : Value) : bool := match v with Numeric _ => true | _ => false end.
Definition isString (v : Value) : bool := match v with String _ => true | _ => false end.
Definition isArray (v : Value) : bool := match v with Array _ => true | _ => false end.
Definition isNull (v : Value) : bool := match v with Null => true | _ => false end.

Definition key_isNumeric (k : hkey) : bool := match k with KInt _ => true | KStr _ => false end.

(** [pair.first.stringValue()] *)
Definition key_string (k : hkey) : option (list Z) :=
  match k with KStr s => Some s | KInt h => ZSTR_VAL <$> zend_long_to_str (i64 h) end.

(** A C string ends at the first NUL. *)
Fixpoint c_str (s : list Z) : list Z :=
  match s with [] => [] | c :: s => if c =? 0 then [] else c :: c_str s end.

(** [setType(Type::Array)] on a null or an array. *)
Definition members (v : Value) : list (hkey * Value) := match v with Array m => m | _ => [] end.

(** [phpArray[phpKey] = x], where [phpKey] was made from a C string, or is null when that was NULL:
    a null key is the empty string.  [add_assoc_zval_ex] updates the symbol table; a key that starts
    with NUL is ignored. *)
Definition set_key (arr : Value) (key : option (list Z)) (x : Value) : Value :=
  let key := match key with Some s => s | None => [] end in
  match key with
  | 0 :: _ => Array (members arr)
  | _ => Array (om_insert (symtable_key key) x (members arr))
  end.

(** [phpArray[i] = x]: the index becomes an [int], and then a [zend_ulong]. *)
Definition set_index (arr : Value) (i : Z) (x : Value) : Value :=
  Array (om_insert (KInt (u64 (i32 i))) x (members arr)).

(** [phpArray[i]] of an array; a missing element is undefined. *)
Definition get_index (m : list (hkey * Value)) (i : Z) : Value :=
  default Null (om_lookup (KInt (u64 (i32 i))) m).

(** ** From Python to PHP *)

(** The loop over a dictionary; [conv] converts a value. *)
Fixpoint dict_items_loop (conv : PyObject -> option Value) (phpArray : Value)
    (items : list (PyObject * PyObject)) : option Value :=
  match items with
  | [] => Some phpArray
  | (pyKey, pyValue) :: items =>
      x ← conv pyValue;
      dict_items_loop conv (set_key phpArray (PyUnicode_AsUTF8 pyKey) x) items
  end.

Fixpoint list_items_loop (conv : PyObject -> option Value) (phpArray : Value) (i : Z)
    (items : list PyObject) : option Value :=
  match items with
  | [] => Some phpArray
  | pyValue :: items => x ← conv pyValue; list_items_loop conv (set_index phpArray i x) (i + 1) items
  end.

(** [Php::Value] of a C string: null for NULL. *)
Definition string_value (s : option (list Z)) : Value :=
  match s with Some s => String s | None => Null end.

(** The body of the loop over a dictionary. *)
Definition dict_item (convertPyDictToPhpArray convertPyListToPhpArray : PyObject -> option Value)
    (pyValue : PyObject) : option Value :=
  if PyLong_Check pyValue then Some (Numeric (PyLong_AsLong pyValue))
  else if PyFloat_Check pyValue then Some (Float (PyFloat_AsDouble pyValue))
  else if PyUnicode_Check pyValue then Some (string_value (PyUnicode_AsUTF8 pyValue))
  else if PyDict_Check pyValue then convertPyDictToPhpArray pyValue
  else if PyList_Check pyValue then convertPyListToPhpArray pyValue
  else Some Null.

(** The body of the loop over a list. *)
Definition list_item (convertPyDictToPhpArray convertPyListToPhpArray : PyObject -> option Value)
    (pyValue : PyObject) : option Value :=
  if PyLong_Check pyValue then Some (Numeric (PyLong_AsLong pyValue))
  else if PyFloat_Check pyValue then Some (Float (PyFloat_AsDouble pyValue))
  else if PyUnicode_Check pyValue then Some (string_value (PyUnicode_AsUTF8 pyValue))
  else if PyList_Check pyValue then convertPyListToPhpArray pyValue
  else if PyDict_Check pyValue then convertPyDictToPhpArray pyValue
  else Some Null.

Fixpoint convertPyDictToPhpArray (n : nat) (pyDict : PyObject) : option Value :=
  match n with
  | O => None
  | S n =>
      dict_items_loop (dict_item (convertPyDictToPhpArray n) (convertPyListToPhpArray n)) Null
        (PyDict_items pyDict)
  end
with convertPyListToPhpArray (n : nat) (pyList : PyObject) : option Value :=
  match n with
  | O => None
  | S n =>
      list_items_loop (list_item (convertPyDictToPhpArray n) (convertPyListToPhpArray n)) Null 0
        (PyList_items pyList)
  end.

(** ** From PHP to Python *)
Definition isAssociativeArray (phpArray : Value) : bool :=
  match phpArray with
  | Array m => existsb (fun pair => negb (key_isNumeric pair.1)) m
  | _ => false
  end.

Section Containers.
Variable conv : Value -> option (res PyObject).

(** [convertPhpArrayToPyDict]. *)
Fixpoint dict_loop (pyDict : PyObject) (pairs : list (hkey * Value)) : option (res PyObject) :=
  match pairs with
  | [] => Some (Ok pyDict)
  | (k, v) :: pairs =>
      key ← key_string k;
      r ← conv v;
      match r with
      | Throw e => Some (Throw e)
      | Ok pyValue =>
          dict_loop (PyDict_SetItem pyDict (PyUnicode_DecodeUTF8_replace key) pyValue) pairs
      end
  end.

(** [convertPhpArrayToPyList]: the elements at the indices from [i] on. *)
Fixpoint list_loop (m : list (hkey * Value)) (n : nat) (i : Z) (pyList : list PyObject) :
  option (res PyObject) :=
  match n with
  | O => Some (Ok (PyList_of pyList))
  | S n =>
      r ← conv (get_index m i);
      match r with
      | Throw e => Some (Throw e)
      | Ok pyValue => list_loop m n (i + 1) (pyList ++ [pyValue])
      end
  end.
End Containers.

Fixpoint convertPhpValueToPyObject (n : nat) (phpValue : Value) : option (res PyObject) :=
  match n with
  | O => None
  | S n =>
      match phpValue with
      | Numeric z => Some (Ok (PyFloat_FromDouble (double_of_int64 z)))
      | String s => Some (Ok (PyUnicode_DecodeFSDefault (c_str s)))
      | Array m =>
          if (Z.of_nat (length m) =? 0) then Some (Ok (PyList_of []))
          else if isAssociativeArray phpValue then dict_loop (convertPhpValueToPyObject n) PyDict_New m
          else list_loop (convertPhpValueToPyObject n) m (length m) 0 []
      | _ => Some (Throw undefined)
      end
  end.
(** ** The wrapper class *)
Record DeepClientPhpWrapper := { token : list Z; url : list Z; deepClientModule : option PyObject }.

(** [Value::stringValue] of the values without elements; a float is printed by the C library. *)
Definition stringValue (v : Value) : option (list Z) :=
  match v with
  | Null => Some []
  | Bool b => Some (if b then [49] else [])
  | Numeric z => ZSTR_VAL <$> zend_long_to_str z
  | String s => Some s
  | _ => None
  end.

Definition __construct (w : DeepClientPhpWrapper) (params : list Value) :
  option (res DeepClientPhpWrapper) :=
  match params with
  | p0 :: p1 :: _ =>
      if isNull p0 || isNull p1 then Some (Throw (bytes "Both token and url are required."))
      else
        t ← stringValue p0;
        u ← stringValue p1;
        Some (Ok {| token := t; url := u; deepClientModule := deepClientModule w |})
  | _ => Some (Throw (bytes "Both token and url are required."))
  end.

Definition unknown_error : list Z := bytes "Unknown runtime error".

(** The error indicator is left as it was; [None] when the C string would be a null pointer. *)
Definition getPythonErrorText (err : option PyObject) : option (list Z) :=
  match err with
  | Some exc_value =>
      match PyObject_Str exc_value with
      | Some str_exc_value => PyUnicode_AsUTF8 str_exc_value
      | None => Some unknown_error
      end
  | None => Some unknown_error
  end.

(** What the wrapper makes of the result of the function. *)
Definition python_result (n : nat) (err : option PyObject) (pyResult : PyObject) : option (res Value) :=
  if PyLong_Check pyResult then Some (Ok (Numeric (PyLong_AsLong pyResult)))
  else if PyFloat_Check pyResult then Some (Ok (Float (PyFloat_AsDouble pyResult)))
  else if PyUnicode_Check pyResult then str_value ← PyUnicode_AsUTF8 pyResult; Some (Throw str_value)
  else if PyList_Check pyResult then Ok <$> convertPyListToPhpArray n pyResult
  else if PyTuple_Check pyResult then Some (Ok (String (bytes "Tuple")))
  else if PyDict_Check pyResult then Ok <$> convertPyDictToPhpArray n pyResult
  else if PyBool_Check pyResult then Some (Ok (String (bytes "Bool")))
  else if PySet_Check pyResult then Some (Ok (String (bytes "Set")))
  else if PyFrozenSet_Check pyResult then Some (Ok (String (bytes "FrozenSet")))
  else if PyBytes_Check pyResult then Some (Ok (String (bytes "Bytes")))
  else if PyByteArray_Check pyResult then Some (Ok (String (bytes "ByteArray")))
  else if PyMemoryView_Check pyResult then Some (Ok (String (bytes "MemoryView")))
  else if PyCallable_Check pyResult then Some (Ok (String (bytes "Callable")))
  else errorText ← getPythonErrorText err; Some (Throw errorText).

(** The token and the url, the query and, unless it is null, the second query. *)
Definition python_args (n : nat) (w : DeepClientPhpWrapper) (query query2 : Value) :
  option (res (list PyObject)) :=
  r ← convertPhpValueToPyObject n query;
  match r with
  | Throw e => Some (Throw e)
  | Ok q =>
      let args := [Py_BuildValue_s (c_str (token w)); Py_BuildValue_s (c_str (url w)); q] in
      if isNull query2 then Some (Ok args)
      else
        r2 ← convertPhpValueToPyObject n query2;
        match r2 with Throw e => Some (Throw e) | Ok q2 => Some (Ok (args ++ [q2])) end
  end.

(** [PyErr_Print()], and what follows it with the indicator it leaves. *)
Definition printing (err : option PyObject) (k : option PyObject -> option (res Value)) : option (ending Value) :=
  match PyErr_Print err with Some err => Returns <$> k err | None => Some Exits end.

Definition call_python_function (n : nat) (w : DeepClientPhpWrapper) (function_name : string)
    (query query2 : Value) : option (ending Value) :=
  match deepClientModule w with
  | Some module =>
      let not_loaded err := printing err (fun _ => Some (Throw (bytes "Failed to load required Python modules"))) in
      let '(pyFunc, err) := PyObject_GetAttrString module function_name in
      match pyFunc with
      | Some pyFunc =>
          if PyCallable_Check pyFunc then
            r ← python_args n w query query2;
            match r with
            | Throw e => Some (Returns (Throw e))
            | Ok args =>
                let '(pyResult, err) := PyObject_CallObject pyFunc (PyTuple_Pack args) in
                match pyResult with
                | Some pyResult => Returns <$> python_result n err pyResult
                | None => printing err (fun err => errorText ← getPythonErrorText err; Some (Throw errorText))
                end
            end
          else not_loaded err
      | None => not_loaded err
      end
  | None => Some (Returns (Throw (bytes "Failed to import required Python modules")))
  end.

(** The methods; PHP-CPP checks that the declared parameters are there. *)
Definition select n w (params : list Value) : option (ending Value) :=
  query ← params !! 0%nat; call_python_function n w "select" query Null.

Definition insert n w (params : list Value) : option (ending Value) :=
  query ← params !! 0%nat; call_python_function n w "insert" query Null.

Definition update n w (params : list Value) : option (ending Value) :=
  query ← params !! 0%nat; call_python_function n w "update" query Null.

Definition deleteFunc n w (params : list Value) : option (ending Value) :=
  query ← params !! 0%nat; call_python_function n w "delete" query Null.

Definition serial n w (params : list Value) : option (ending Value) :=
  query ← params !! 0%nat; call_python_function n w "serial" query Null.

Definition id_ n w (params : list Value) : option (ending Value) :=
  query ← params !! 0%nat; query2 ← params !! 1%nat; call_python_function n w "id" query query2.

(** ** Specification *)

Fixpoint depth (v : Value) : nat :=
  match v with Array m => S (foldr (fun p d => Nat.max (depth p.2) d) 0%nat m) | _ => 0 end.

(** Arrays of PHP: distinct keys, and positions that fit an [int]. *)
Inductive wf_value : Value -> Prop :=
  | wf_scalar v : isArray v = false -> wf_value v
  | wf_array m : NoDup m.*1 -> Z.of_nat (length m) <= 2 ^ 31 ->
      Forall (fun k => match k with KInt h => is_u64 h | KStr _ => True end) m.*1 ->
      Forall wf_value m.*2 -> wf_value (Array m).

(** An array without string keys has exactly the positions below its size. *)
Definition sequential (m : list (hkey * Value)) : bool :=
  forallb (fun p => match p.1 with KInt h => h <? Z.of_nat (length m) | KStr _ => false end) m.

(** Values the bridge can pass to Python. *)
Fixpoint convertible (v : Value) : bool :=
  match v with
  | Numeric _ | String _ => true
  | Array m => (isAssociativeArray v || sequential m) && forallb (fun p => convertible p.2) m
  | _ => false
  end.

(** What comes back of a value that went to Python and back. *)
Fixpoint lossy (v : Value) : Value :=
  match v with
  | Numeric z => Float (double_of_int64 z)
  | Array [] => Null
  | Array m => Array ((fun p => (p.1, lossy p.2)) <$> m)
  | _ => v
  end.

(** ** Sequential arrays *)
Lemma seq_keys (ks : list hkey) : NoDup ks ->
  Forall (fun k => match k with KInt h => is_u64 h | KStr _ => True end) ks ->
  Forall (fun k => match k with KInt h => h < Z.of_nat (length ks) | KStr _ => False end) ks ->
  ks ≡ₚ KInt <$> seqZ 0 (Z.of_nat (length ks)).
Proof.
  intros Hnd Hw Hf. apply submseteq_length_Permutation.
  - apply NoDup_submseteq; [done|]. intros k Hk.
    rewrite Forall_forall in Hw, Hf. specialize (Hw k Hk). specialize (Hf k Hk). destruct k as [h|s]; [|done].
    apply list_elem_of_fmap. exists h. split; [done|]. apply elem_of_seqZ. unfold is_u64 in Hw. lia.
  - rewrite length_fmap, length_seqZ. lia.
Qed.

Lemma keys_seq (ks : list hkey) : Forall (fun k => k ∈ ks) (KInt <$> seqZ 0 (Z.of_nat (length ks))) ->
  Forall (fun k => match k with KInt h => h < Z.of_nat (length ks) | KStr _ => False end) ks.
Proof.
  intros Hf. assert (KInt <$> seqZ 0 (Z.of_nat (length ks)) ≡ₚ ks) as Hp.
  { apply submseteq_length_Permutation.
    - apply NoDup_submseteq; [|by apply Forall_forall].
      apply NoDup_fmap_2_strong; [by intros ?? _ _ [= ->]|apply NoDup_seqZ].
    - rewrite length_fmap, length_seqZ. lia. }
  apply Forall_forall. intros k Hk. rewrite <- Hp in Hk.
  apply list_elem_of_fmap in Hk as (h & -> & Hh%elem_of_seqZ). lia.
Qed.

Lemma om_lookup_elem (m : list (hkey * Value)) k v : om_lookup k m = Some v -> (k, v) ∈ m.
Proof.
  induction m as [|[k' v'] m IH]; cbn; [done|]. destruct (decide (k = k')) as [<-|Hne].
  - intros [= ->]. by left.
  - intros H1. right. by apply IH.
Qed.

Lemma elem_om_lookup (m : list (hkey * Value)) k v : NoDup m.*1 -> (k, v) ∈ m -> om_lookup k m = Some v.
Proof.
  induction m as [|[k' v'] m IH]; cbn; [intros _ []%elem_of_nil|]. rewrite NoDup_cons. intros [Hk Hn].
  intros [[= -> ->]|Hin]%elem_of_cons; [by rewrite decide_True|]. rewrite decide_False; [by apply IH|].
  intros ->. apply Hk. apply list_elem_of_fmap. by exists (k', v).
Qed.

Lemma small_index i : 0 <= i < 2 ^ 31 -> u64 (i32 i) = i.
Proof.
  intros Hi. unfold u64, i32, swrap. rewrite uwrap_small; rewrite (Z.mod_small (i + _)); lia.
Qed.

(** ** Passing a value to Python *)
Definition fails (conv : Value -> option (res PyObject)) v : Prop := conv v = Some (Throw undefined).
Definition passes (conv : Value -> option (res PyObject)) v : Prop := exists o, conv v = Some (Ok o).

Lemma list_loop_passes conv m n : forall i acc,
  (forall j, i <= j < i + Z.of_nat n -> passes conv (get_index m j)) ->
  exists l, list_loop conv m n i acc = Some (Ok (PyList_of l)).
Proof.
  induction n as [|n IH]; intros i acc Hp; [by exists acc|]. cbn [list_loop].
  destruct (Hp i ltac:(lia)) as [o ->]. cbn. apply IH. intros j Hj. apply Hp. lia.
Qed.

Lemma list_loop_fails conv m n : forall i acc,
  (forall j, i <= j < i + Z.of_nat n -> passes conv (get_index m j) \/ fails conv (get_index m j)) ->
  (exists j, i <= j < i + Z.of_nat n /\ fails conv (get_index m j)) ->
  list_loop conv m n i acc = Some (Throw undefined).
Proof.
  induction n as [|n IH]; intros i acc Hp (j & Hj & Hf); [lia|]. cbn [list_loop].
  destruct (Hp i ltac:(lia)) as [[o E]|E]; rewrite E; cbn; [|done].
  apply IH; [intros k Hk; apply Hp; lia|]. exists j. split; [|done].
  destruct (Z.eq_dec i j) as [<-|]; [|lia]. unfold fails in Hf. congruence.
Qed.

Lemma key_string_total k : exists s, key_string k = Some s.
Proof.
  destruct k as [h|s]; [|by exists s].
  destruct (zend_long_to_str_printed (i64 h)) as (s & E & _); [by apply (swrap_range 64)|by exists s].
Qed.

Definition outcome (conv : Value -> option (res PyObject)) v : Prop :=
  if convertible v then passes conv v else fails conv v.

Lemma outcome_either conv v : outcome conv v -> passes conv v \/ fails conv v.
Proof. unfold outcome. case_match; tauto. Qed.

Lemma dict_loop_outcome conv m : forall d, Forall (outcome conv) m.*2 ->
  if forallb (fun p => convertible p.2) m then exists d', dict_loop conv d m = Some (Ok d')
  else dict_loop conv d m = Some (Throw undefined).
Proof.
  induction m as [|[k v] m IH]; intros d Hm; [by exists d|]. cbn [fmap list_fmap snd] in Hm.
  apply Forall_cons in Hm as [Hv Hm]. cbn [forallb snd dict_loop].
  destruct (key_string_total k) as [s ->]. cbn [mbind option_bind]. unfold outcome in Hv.
  destruct (convertible v); cbn [andb]; [|by rewrite Hv].
  destruct Hv as [o ->]. cbn [mbind option_bind]. by apply IH.
Qed.

Lemma get_index_elem m i v : 0 <= i < 2 ^ 31 -> NoDup m.*1 -> (KInt i, v) ∈ m -> get_index m i = v.
Proof. intros Hi Hn Hin. unfold get_index. by rewrite small_index, (elem_om_lookup m _ v). Qed.

Lemma get_index_cases m i : 0 <= i < 2 ^ 31 ->
  (~ KInt i ∈ m.*1 /\ get_index m i = Null) \/ (KInt i, get_index m i) ∈ m.
Proof.
  intros Hi. unfold get_index. rewrite small_index by done.
  destruct (om_lookup (KInt i) m) as [v|] eqn:E; cbn.
  - right. by apply om_lookup_elem.
  - left. split; [|done]. by apply om_lookup_None.
Qed.

Lemma key_bound m k : NoDup m.*1 ->
  sequential m = true -> k ∈ m.*1 -> exists h, k = KInt h /\ h < Z.of_nat (length m).
Proof.
  intros _ Hs ([k' v] & -> & Hin)%list_elem_of_fmap. unfold sequential in Hs.
  rewrite forallb_forall in Hs. specialize (Hs (k', v)). cbn in Hs.
  destruct k' as [h|s]; [|by discriminate Hs; apply list_elem_of_In].
  exists h. split; [done|]. assert ((h <? Z.of_nat (length m)) = true) by (by apply Hs, list_elem_of_In). lia.
Qed.

(** The elements of an array without string keys, by position: one is not convertible, or missing,
    unless the array is sequential with convertible elements. *)
Lemma list_loop_outcome conv m : NoDup m.*1 -> Z.of_nat (length m) <= 2 ^ 31 ->
  Forall (fun k => match k with KInt h => is_u64 h | KStr _ => True end) m.*1 ->
  isAssociativeArray (Array m) = false -> fails conv Null -> Forall (outcome conv) m.*2 ->
  if sequential m && forallb (fun p => convertible p.2) m
  then exists o, list_loop conv m (length m) 0 [] = Some (Ok o)
  else list_loop conv m (length m) 0 [] = Some (Throw undefined).
Proof.
  intros Hn Hl Hw Ha Hnull Hm.
  assert (forall k v, (k, v) ∈ m -> outcome conv v) as Hout.
  { intros k v Hin. rewrite Forall_forall in Hm. apply Hm. apply list_elem_of_fmap. by exists (k, v). }
  assert (forall j, 0 <= j < 0 + Z.of_nat (length m) ->
            passes conv (get_index m j) \/ fails conv (get_index m j)) as Heither.
  { intros j Hj. destruct (get_index_cases m j ltac:(lia)) as [[_ ->]|Hin]; [by right|].
    by eapply outcome_either, Hout. }
  destruct (sequential m) eqn:Es; cbn [andb].
  - assert (forall k, k ∈ m.*1 -> exists h, k = KInt h /\ 0 <= h < Z.of_nat (length m)) as Hb.
    { intros k Hk. destruct (key_bound m k Hn Es Hk) as (h & -> & Hh). exists h. split; [done|].
      rewrite Forall_forall in Hw. specialize (Hw _ Hk). cbn in Hw. unfold is_u64 in Hw. lia. }
    destruct (forallb _ m) eqn:Ec.
    + eassert _ as Hp; [|destruct (list_loop_passes conv m (length m) 0 [] Hp) as [l ->]; by eexists].
      intros j Hj. destruct (get_index_cases m j ltac:(lia)) as [[Hmiss _]|Hin].
      * exfalso. apply Hmiss. rewrite (seq_keys m.*1 Hn Hw).
        -- rewrite length_fmap. apply list_elem_of_fmap. exists j. split; [done|]. apply elem_of_seqZ. lia.
        -- apply Forall_forall. intros k Hk. destruct (Hb k Hk) as (h & -> & Hh). rewrite length_fmap. lia.
      * pose proof (Hout _ _ Hin) as Ho. unfold outcome in Ho. pose proof (forallb_elem _ _ _ Ec Hin) as Hv.
        cbn in Hv. by rewrite Hv in Ho.
    + apply list_loop_fails; [done|]. apply forallb_false in Ec as ([k v] & Hin & Hv).
      destruct (Hb k) as (h & -> & Hh); [apply list_elem_of_fmap; by exists (k, v)|].
      exists h. split; [lia|]. rewrite (get_index_elem m h v) by (done || lia).
      pose proof (Hout _ _ Hin) as Ho. unfold outcome in Ho. cbn in Hv. by rewrite Hv in Ho.
  - apply list_loop_fails; [done|].
    destruct (decide (Forall (fun k => k ∈ m.*1) (KInt <$> seqZ 0 (Z.of_nat (length m.*1))))) as [Hf|Hf].
    + exfalso. apply keys_seq in Hf. apply not_true_iff_false in Es. apply Es. unfold sequential.
      apply forallb_forall. intros [k v] Hin. rewrite Forall_forall in Hf.
      specialize (Hf k). rewrite length_fmap in Hf. cbn.
      assert (k ∈ m.*1) as Hk by (apply list_elem_of_fmap; exists (k, v); split; [done|by apply list_elem_of_In]).
      specialize (Hf Hk). destruct k; [lia|done].
    + apply not_Forall_Exists in Hf; [|apply _]. apply Exists_exists in Hf as (k & Hk & Hmiss).
      rewrite length_fmap in Hk. apply list_elem_of_fmap in Hk as (j & -> & Hj%elem_of_seqZ). exists j.
      split; [lia|]. destruct (get_index_cases m j ltac:(lia)) as [[_ ->]|Hin]; [done|].
      exfalso. apply Hmiss. apply list_elem_of_fmap. by exists (KInt j, get_index m j).
Qed.

Lemma depth_elem m v : v ∈ m.*2 -> (depth v < depth (Array m))%nat.
Proof.
  intros (p & -> & Hin)%list_elem_of_fmap. cbn [depth]. apply Nat.lt_succ_r.
  induction Hin as [p m|p [k0 v0] m Hin IH]; cbn [foldr]; lia.
Qed.

Lemma convert_outcome n : forall v, wf_value v -> (depth v < n)%nat ->
  outcome (convertPhpValueToPyObject n) v.
Proof.
  induction n as [|n IH]; intros v Hwf Hd; [lia|]. unfold outcome.
  destruct v; try (by eexists); try done.
  inversion Hwf as [? Ha|m' Hn Hl Hw Hm]; subst; [done|].
  assert (Forall (outcome (convertPhpValueToPyObject n)) m.*2) as Hout.
  { apply Forall_forall. intros v Hv. pose proof (depth_elem m v Hv).
    rewrite Forall_forall in Hm. apply IH; [by apply Hm|lia]. }
  assert (n <> 0)%nat as Hn0 by (cbn in Hd; lia).
  unfold passes, fails. cbn [convertible convertPhpValueToPyObject].
  destruct (Z.eqb_spec (Z.of_nat (length m)) 0) as [E|E].
  { destruct m; [by eexists|cbn in E; lia]. }
  destruct (isAssociativeArray (Array m)) eqn:Ea.
  - by apply dict_loop_outcome.
  - apply list_loop_outcome; [done..| |done]. destruct n; [lia|done].
Qed.

(** C16: converting a value to Python always ends, with nesting depth as the recursion bound, and
    succeeds exactly on numbers, strings, and arrays of such values that either have a string key or
    whose integer keys are 0 to the size less one, in any order; everything else — null, booleans,
    floats, arrays with gaps, anywhere inside — throws "variable undefined".  Values are finite trees: an
    array that contains itself by reference is outside, and the recursion would not end on it. *)
Theorem convertPhpValueToPyObject_outcome n v : wf_value v -> (depth v < n)%nat ->
  if convertible v then exists o, convertPhpValueToPyObject n v = Some (Ok o)
  else convertPhpValueToPyObject n v = Some (Throw undefined).
Proof. apply convert_outcome. Qed.

End Bridge.
