(* ===== verification/BridgeCalls.v ===== *)
(** * Calls through the bridge

    What a PHP value becomes on its way to a Python function and back ([PyPhpBridge.cpp]), and what the
    wrapper makes of every outcome of a call ([deep_client_php_wrapper.cpp]). *)
From stdpp Require Import strings.
From S2P Require Import Prelude ZendString ZendLong ZendHash OrderedMap ZendHashInv ZendSymtable Bridge.
Open Scope Z_scope.

Section RoundTrip.
Context {double PyObject : Type} `{PythonLaws double PyObject}.
Implicit Types (v : Value (double := double)) (m : list (hkey * Value (double := double))) (o d : PyObject)
  (w : DeepClientPhpWrapper (PyObject := PyObject)).

(** Keys PHP gives to an array, as valid text. *)
Definition key_bridgeable (k : hkey) : Prop :=
  match k with KInt h => is_u64 h | KStr s => utf8 s /\ symtable_key s = KStr s end.

(** Values that survive the way to Python and back, up to [lossy]. *)
Inductive bridgeable : Value -> Prop :=
  | bridge_numeric z : bridgeable (Numeric z)
  | bridge_string s : utf8 s -> bridgeable (String s)
  | bridge_list m : m.*1 = KInt <$> seqZ 0 (Z.of_nat (length m)) -> Z.of_nat (length m) <= 2 ^ 31 ->
      Forall bridgeable m.*2 -> bridgeable (Array m)
  | bridge_dict m : isAssociativeArray (Array m) = true -> NoDup m.*1 -> Forall key_bridgeable m.*1 ->
      Forall bridgeable m.*2 -> bridgeable (Array m).

(** The object a value becomes. *)
Inductive sent : Value -> PyObject -> Prop :=
  | sent_numeric z : sent (Numeric z) (PyFloat_FromDouble (double_of_int64 z))
  | sent_string s : utf8 s -> sent (String s) (PyUnicode_DecodeFSDefault s)
  | sent_list m l : m.*1 = KInt <$> seqZ 0 (Z.of_nat (length m)) -> Z.of_nat (length m) <= 2 ^ 31 ->
      Forall2 sent m.*2 l -> sent (Array m) (PyList_of l)
  | sent_dict m d : m <> [] -> NoDup m.*1 -> Forall key_bridgeable m.*1 -> PyDict_Check d = true ->
      key_string <$> m.*1 = (PyUnicode_AsUTF8 ∘ fst) <$> PyDict_items d ->
      Forall2 sent m.*2 (PyDict_items d).*2 -> sent (Array m) d.

Lemma c_str_id s : Forall (fun c : Z => 0 < c < 256) s -> c_str s = s.
Proof. induction 1 as [|c s Hc Hs IH]; [done|]. cbn. zbool. by rewrite IH. Qed.

Lemma key_string_back k : key_bridgeable k -> exists s,
  key_string k = Some s /\ utf8 s /\ symtable_key s = k.
Proof.
  destruct k as [h|s]; [|intros [Hu Hs]; by exists s]. cbn. intros Hh.
  destruct (zend_long_to_str_printed (i64 h)) as (ds & E & Ep & Hd); [by apply (swrap_range 64)|].
  apply decimal_string_chars in Hd as Hc.
  exists ds. split; [done|]. split.
  { apply utf8_ascii. eapply Forall_impl; [done|]. unfold is_digit. intros c. lia. }
  unfold symtable_key. rewrite (decimal_key_printed (i64 h) ds); [|by apply (swrap_range 64)|done].
  f_equal. unfold u64, i64, uwrap, swrap, is_u64 in *. Z.to_euclidean_division_equations; lia.
Qed.

Lemma key_string_inj k k' : key_bridgeable k -> key_bridgeable k' -> key_string k = key_string k' -> k = k'.
Proof.
  intros (s & E & _ & <-)%key_string_back (s' & E' & _ & <-)%key_string_back Hk. congruence.
Qed.

Definition sends (conv : Value -> option (res PyObject)) v : Prop :=
  exists o, conv v = Some (Ok o) /\ sent v o.

Lemma dict_loop_sent conv m : forall d, Forall (sends conv) m.*2 -> NoDup m.*1 ->
  Forall key_bridgeable m.*1 -> PyDict_Check d = true ->
  Forall (fun k => key_string k ∉ (PyUnicode_AsUTF8 ∘ fst) <$> PyDict_items d) m.*1 ->
  exists d' l, dict_loop conv d m = Some (Ok d') /\ PyDict_Check d' = true /\
    PyDict_items d' = PyDict_items d ++ l /\
    key_string <$> m.*1 = (PyUnicode_AsUTF8 ∘ fst) <$> l /\ Forall2 sent m.*2 l.*2.
Proof.
  induction m as [|[k v] m IH]; intros d Hs Hn Hk Hd Hnew.
  { exists d, []. cbn. by rewrite app_nil_r. }
  cbn [fmap list_fmap fst snd] in *. apply Forall_cons in Hs as [(o & Eo & Ho) Hs].
  apply NoDup_cons in Hn as [Hkm Hn]. apply Forall_cons in Hk as [Hk Hks].
  apply Forall_cons in Hnew as [Hnk Hnew]. destruct (key_string_back k Hk) as (s & Ek & Hu & Hsk).
  cbn [dict_loop]. rewrite Ek, Eo. cbn [mbind option_bind].
  destruct (dict_set d (PyUnicode_DecodeUTF8_replace s) o Hd) as [Hd' Hitems].
  rewrite (decode_utf8 s Hu), <- Ek in Hitems. specialize (Hitems Hnk).
  destruct (IH (PyDict_SetItem d (PyUnicode_DecodeUTF8_replace s) o) Hs Hn Hks Hd')
    as (d' & l & E & Hc & Hi & Hkeys & Hsent).
  - rewrite Hitems, fmap_app. apply Forall_forall. intros k' Hk'. rewrite Forall_forall in Hnew, Hks.
    rewrite not_elem_of_app. split; [by apply Hnew|]. cbn. rewrite (decode_utf8 s Hu), <- Ek.
    intros Heq%list_elem_of_singleton. apply key_string_inj in Heq as ->; [done|by apply Hks|done].
  - exists d', ((PyUnicode_DecodeUTF8_replace s, o) :: l). split_and!; [done|done| | |].
    + by rewrite Hi, Hitems, <- app_assoc.
    + cbn. by rewrite (decode_utf8 s Hu), Hkeys.
    + by constructor.
Qed.

Lemma list_loop_sent conv m vs : forall i acc,
  (forall k v, vs !! k = Some v -> get_index m (i + Z.of_nat k) = v) -> Forall (sends conv) vs ->
  exists l, list_loop conv m (length vs) i acc = Some (Ok (PyList_of (acc ++ l))) /\ Forall2 sent vs l.
Proof.
  induction vs as [|v vs IH]; intros i acc Hg Hs; [exists []; by rewrite app_nil_r|].
  apply Forall_cons in Hs as [(o & Eo & Ho) Hs]. cbn [length list_loop].
  pose proof (Hg 0%nat v eq_refl) as H0g. rewrite Z.add_0_r in H0g. rewrite H0g, Eo. cbn [mbind option_bind].
  destruct (IH (i + 1) (acc ++ [o])) as (l & -> & Hl); [|done|].
  - intros k w Hw. rewrite <- (Hg (S k) w Hw). f_equal. lia.
  - exists (o :: l). rewrite <- app_assoc. split; [done|by constructor].
Qed.

Lemma seq_index m k v : m.*1 = KInt <$> seqZ 0 (Z.of_nat (length m)) -> Z.of_nat (length m) <= 2 ^ 31 ->
  m.*2 !! k = Some v -> get_index m (Z.of_nat k) = v.
Proof.
  intros Hm Hl Hk. apply list_lookup_fmap_Some in Hk as ([k' v'] & -> & Hk).
  pose proof (lookup_lt_Some _ _ _ Hk) as Hlt.
  assert (k' = KInt (Z.of_nat k)) as ->.
  { assert (m.*1 !! k = Some k') as E by (by rewrite list_lookup_fmap, Hk).
    rewrite Hm, list_lookup_fmap, lookup_seqZ_lt in E by lia. by injection E as <-. }
  apply get_index_elem; [lia| |by eapply list_elem_of_lookup_2].
  rewrite Hm. apply NoDup_fmap_2_strong; [by intros ?? _ _ [= ->]|apply NoDup_seqZ].
Qed.

Lemma seq_not_assoc m : m.*1 = KInt <$> seqZ 0 (Z.of_nat (length m)) -> isAssociativeArray (Array m) = false.
Proof.
  intros Hm. cbn. apply not_true_iff_false. intros (p & Hp & Hk)%existsb_exists.
  assert (p.1 ∈ m.*1) as He by (apply list_elem_of_fmap; exists p; by rewrite list_elem_of_In).
  rewrite Hm in He. apply list_elem_of_fmap in He as (h & Eh & _). by rewrite Eh in Hk.
Qed.

Lemma convert_sent n : forall v, bridgeable v -> (depth v < n)%nat -> sends (convertPhpValueToPyObject n) v.
Proof.
  induction n as [|n IH]; intros v Hb Hd; [lia|].
  assert (forall m, Array m = v -> Forall bridgeable m.*2 ->
    Forall (sends (convertPhpValueToPyObject n)) m.*2) as Hall.
  { intros m <- Hm. apply Forall_forall. intros w Hw. pose proof (depth_elem m w Hw).
    rewrite Forall_forall in Hm. apply IH; [by apply Hm|lia]. }
  destruct Hb as [z|s Hs|m Hk Hl Hm|m Ha Hn Hk Hm]; unfold sends; cbn [convertPhpValueToPyObject].
  - by eexists; split; [|constructor].
  - eexists. split; [done|]. rewrite c_str_id by by apply utf8_bytes. by constructor.
  - destruct (Z.eqb_spec (Z.of_nat (length m)) 0) as [E|E].
    { destruct m; [|cbn in E; lia]. eexists. split; [done|]. constructor; [done|cbn; lia|constructor]. }
    rewrite (seq_not_assoc m Hk).
    destruct (list_loop_sent (convertPhpValueToPyObject n) m m.*2 0 []) as (l & El & Hsent);
      [intros k v; by apply seq_index|by apply Hall|].
    rewrite length_fmap in El. exists (PyList_of l). split; [done|]. by constructor.
  - destruct (Z.eqb_spec (Z.of_nat (length m)) 0) as [E|E]; [by destruct m|]. rewrite Ha.
    destruct dict_new as [Hc Hi].
    destruct (dict_loop_sent (convertPhpValueToPyObject n) m PyDict_New) as (d & l & Ed & Hcd & Hid & Hkeys & Hsent);
      [by apply Hall|done|done|done| |].
    { apply Forall_forall. intros k _. rewrite Hi. apply not_elem_of_nil. }
    exists d. split; [done|]. rewrite Hi in Hid. cbn in Hid. subst l. constructor; try done. by intros ->.
Qed.

(** ** Receiving it back *)
Definition lossy_pairs m : list (hkey * Value (double := double)) := (fun p => (p.1, lossy p.2)) <$> m.

(** [arr] with the received members of [m] at the end. *)
Definition appended (arr : Value (double := double)) m : Value :=
  match m with [] => arr | _ => Array (members arr ++ lossy_pairs m) end.

Lemma appended_cons (arr : Value) k v m :
  appended (Array (members arr ++ [(k, lossy v)])) m = appended arr ((k, v) :: m).
Proof. destruct m; cbn; [done|]. by rewrite <- app_assoc. Qed.

Lemma appended_Null m : appended Null m = lossy (Array m).
Proof. by destruct m. Qed.

Lemma set_key_new (arr : Value (double := double)) k x : key_bridgeable k -> k ∉ (members arr).*1 ->
  set_key arr (key_string k) x = Array (members arr ++ [(k, x)]).
Proof.
  intros Hk Hnew. destruct (key_string_back k Hk) as (s & -> & Hu & Hs). unfold set_key. rewrite Hs.
  rewrite om_insert_new by done. apply utf8_bytes in Hu. destruct Hu as [|c s Hc _]; [done|].
  destruct c; [lia|done|lia].
Qed.

Lemma dict_items_back conv m : forall arr items,
  key_string <$> m.*1 = (PyUnicode_AsUTF8 ∘ fst) <$> items ->
  Forall2 (fun v o => conv o = Some (lossy v)) m.*2 items.*2 ->
  Forall key_bridgeable m.*1 -> NoDup ((members arr).*1 ++ m.*1) ->
  dict_items_loop conv arr items = Some (appended arr m).
Proof.
  induction m as [|[k v] m IH]; intros arr items Hkeys Hv Hb Hn.
  { destruct items as [|[ko vo] items]; [done|]. inversion Hv. }
  destruct items as [|[ko vo] items]; [inversion Hv|]. cbn in Hkeys, Hv, Hn.
  injection Hkeys as Hk Hkeys. apply Forall2_cons in Hv as [Hv Hvs]. apply Forall_cons in Hb as [Hb Hbs].
  apply NoDup_app in Hn as (Hn1 & Hn2 & Hn3). apply NoDup_cons in Hn3 as [Hkm Hn3].
  assert (k ∉ (members arr).*1) as Hnew by (intros Hin; apply (Hn2 k Hin); by left).
  cbn [dict_items_loop]. rewrite Hv. cbn [mbind option_bind]. rewrite <- Hk, set_key_new by done.
  rewrite <- appended_cons. apply IH; [done..|]. cbn. rewrite fmap_app, <- app_assoc.
  apply NoDup_app. split; [done|]. split; [done|]. by apply NoDup_cons.
Qed.

Lemma list_items_back conv m : forall arr i l, 0 <= i -> i + Z.of_nat (length m) <= 2 ^ 31 ->
  m.*1 = KInt <$> seqZ i (Z.of_nat (length m)) ->
  Forall2 (fun v o => conv o = Some (lossy v)) m.*2 l ->
  (forall h, KInt h ∈ (members arr).*1 -> h < i) ->
  list_items_loop conv arr i l = Some (appended arr m).
Proof.
  induction m as [|[k v] m IH]; intros arr i l Hi0 Hi Hkeys Hv Harr.
  { inversion Hv. by destruct arr. }
  destruct l as [|o l]; [inversion Hv|]. cbn [length] in *. cbn in Hv. apply Forall2_cons in Hv as [Hv Hvs].
  rewrite seqZ_cons in Hkeys by lia. cbn in Hkeys. injection Hkeys as -> Hkeys.
  cbn [list_items_loop]. rewrite Hv. cbn [mbind option_bind]. unfold set_index.
  rewrite small_index, om_insert_new; [| |lia].
  2: { intros Hin%Harr. lia. }
  rewrite <- appended_cons. apply IH; [lia|lia| |done|].
  - rewrite Hkeys. f_equal. f_equal; lia.
  - cbn. intros h. rewrite fmap_app, elem_of_app. cbn. rewrite list_elem_of_singleton.
    intros [Hin%Harr|[= ->]]; lia.
Qed.

(** Both dispatches of the conversion give the value back. *)
Definition received n v o : Prop :=
  dict_item (convertPyDictToPhpArray n) (convertPyListToPhpArray n) o = Some (lossy v) /\
  list_item (convertPyDictToPhpArray n) (convertPyListToPhpArray n) o = Some (lossy v).

Lemma received_all n m l : (forall v o, sent v o -> (depth v <= n)%nat -> received n v o) ->
  (depth (Array m) <= S n)%nat -> Forall2 sent m.*2 l ->
  Forall2 (received n) m.*2 l.
Proof.
  intros IH Hd Hs. apply Forall2_same_length_lookup. pose proof (Forall2_length _ _ _ Hs) as Hlen.
  split; [done|]. intros i v o Hv Ho. pose proof (Forall2_lookup_lr _ _ _ _ _ _ Hs Hv Ho).
  apply IH; [done|]. pose proof (depth_elem m v ltac:(by eapply list_elem_of_lookup_2)). lia.
Qed.

(** The result of a container conversion, by the kind of container the array became. *)
Lemma convert_received n : forall m o, sent (Array m) o -> (depth (Array m) <= n)%nat ->
  (PyList_Check o = true /\ PyDict_Check o = false /\ convertPyListToPhpArray n o = Some (lossy (Array m))) \/
  (PyDict_Check o = true /\ convertPyDictToPhpArray n o = Some (lossy (Array m))).
Proof.
  induction n as [|n IHc]; intros m o Hs Hd; [cbn in Hd; lia|].
  assert (forall v o, sent v o -> (depth v <= n)%nat -> received n v o) as IH.
  { intros v o' Hs' Hd'. unfold received, dict_item, list_item. destruct v as [|b|z|d|s|m'|].
    1, 2, 4, 7: inversion Hs'.
    - inversion Hs'; subst. destruct (float_checks (double_of_int64 z)) as (-> & -> & ->). done.
    - inversion Hs'; subst. destruct (unicode_checks _ (fs_checks s)) as [-> ->].
      by rewrite fs_checks, decode_fs.
    - destruct (IHc m' o' Hs' Hd') as [(HL & HD & E)|(HD & E)].
      + assert (PyLong_Check o' = false /\ PyFloat_Check o' = false /\ PyUnicode_Check o' = false)
          as (-> & -> & ->).
        { inversion Hs'; subst; [|congruence]. destruct (list_checks l) as (? & ? & ? & _). done. }
        by rewrite HL, HD.
      + destruct (dict_checks o' HD) as (-> & -> & -> & -> & _). by rewrite HD. }
  inversion Hs as [| |m' l Hk Hl Hall|m' d Hne Hn Hk Hd' Hkeys Hall]; subst.
  - left. destruct (list_checks l) as (_ & _ & _ & HD & HL & Hitems). split; [done|]. split; [done|].
    cbn [convertPyListToPhpArray]. rewrite Hitems, <- appended_Null. apply list_items_back; [lia|lia|done| |].
    + eapply Forall2_impl; [by eapply received_all|]. by intros v o' [_ ?].
    + intros h. cbn. by intros ?%elem_of_nil.
  - right. split; [done|]. cbn [convertPyDictToPhpArray]. rewrite <- appended_Null.
    apply dict_items_back; [done| |done|done].
    eapply Forall2_impl; [by eapply received_all|]. by intros v o' [? _].
Qed.

Lemma result_received n err v o : sent v o -> (depth v <= n)%nat ->
  python_result n err o = match v with String s => Some (Throw s) | _ => Some (Ok (lossy v)) end.
Proof.
  intros Hs Hd. unfold python_result. destruct v as [|b|z|d|s|m|]. 1, 2, 4, 7: inversion Hs.
  - inversion Hs; subst. destruct (float_checks (double_of_int64 z)) as (-> & -> & ->). done.
  - inversion Hs; subst. destruct (unicode_checks _ (fs_checks s)) as [-> ->].
    by rewrite fs_checks, decode_fs.
  - destruct (convert_received n m o Hs Hd) as [(HL & HD & E)|(HD & E)].
    + assert (PyLong_Check o = false /\ PyFloat_Check o = false /\ PyUnicode_Check o = false)
        as (-> & -> & ->).
      { inversion Hs; subst; [|congruence]. destruct (list_checks l) as (? & ? & ? & _). done. }
      by rewrite HL, E.
    + destruct (dict_checks o HD) as (-> & -> & -> & -> & ->). by rewrite HD, E.
Qed.

(** A module whose function [name] can be called. *)
Definition has_function w (name : string) (pyFunc : PyObject) : Prop :=
  exists module, deepClientModule w = Some module /\
    (PyObject_GetAttrString module name).1 = Some pyFunc /\ PyCallable_Check pyFunc = true.

(** The arguments of a call with one query. *)
Definition call_args w (q : PyObject) : PyObject :=
  PyTuple_Pack [Py_BuildValue_s (c_str (token w)); Py_BuildValue_s (c_str (url w)); q].

Lemma call_with n w name pyFunc (query : Value) q : has_function w name pyFunc ->
  convertPhpValueToPyObject n query = Some (Ok q) ->
  call_python_function n w name query Null =
  match PyObject_CallObject pyFunc (call_args w q) with
  | (Some o, err) => Returns <$> python_result n err o
  | (None, err) => printing err (fun err => errorText ← getPythonErrorText err; Some (Throw errorText))
  end.
Proof.
  intros (module & Em & Ef & Ec) Eq. unfold call_python_function, python_args, call_args.
  rewrite Em. destruct (PyObject_GetAttrString module name) as [f e]. cbn [fst] in Ef. subst f.
  rewrite Ec, Eq. cbn [mbind option_bind isNull]. by destruct (PyObject_CallObject _ _) as [[]].
Qed.

(** C33: a value handed to a Python function that returns its query comes back as it was, key for key
    and in order, except that integers have become floats and empty arrays null; when it is a string
    the wrapper throws it as an exception instead of returning it.  The value is [bridgeable]: an
    integer, a string of valid UTF-8 without NUL, or an array of such values whose keys are either 0, 1,
    2, ... in this order, at most 2^31 of them, or include a string, the string keys being valid UTF-8
    without NUL (and no decimal integers, as in every PHP array).  Null, booleans and floats are not
    passed at all, an array such as [[1 => 5, 0 => 'x']] comes back in the order of its positions, and a
    string is cut at a NUL. *)
Theorem call_python_function_echo n w name pyFunc (query : Value) : has_function w name pyFunc ->
  (forall q, PyObject_CallObject pyFunc (call_args w q) = (Some q, None)) ->
  bridgeable query -> (depth query < n)%nat ->
  call_python_function n w name query Null =
  match query with String s => Some (Returns (Throw s)) | _ => Some (Returns (Ok (lossy query))) end.
Proof.
  intros Hf Hecho Hb Hd. destruct (convert_sent n query Hb Hd) as (q & Eq & Hs).
  rewrite (call_with n w name pyFunc query q Hf Eq), Hecho.
  rewrite (result_received n None query q) by (done || lia). by destruct query.
Qed.

Lemma list_items_array (conv : PyObject -> option Value) l : forall arr i v, isString arr = false ->
  list_items_loop conv arr i l = Some v -> isString v = false.
Proof.
  induction l as [|o l IH]; intros arr i v Harr Hv; cbn in Hv; [by simplify_eq|].
  inv_opt. by eapply IH; [|exact Hv].
Qed.

Lemma dict_items_array (conv : PyObject -> option Value) l : forall arr v, isString arr = false ->
  dict_items_loop conv arr l = Some v -> isString v = false.
Proof.
  induction l as [|[k o] l IH]; intros arr v Harr Hv; cbn in Hv; [by simplify_eq|].
  inv_opt. eapply IH; [|exact Hv]. unfold set_key. by repeat case_match.
Qed.

Lemma containers_not_strings n o v : convertPyListToPhpArray n o = Some v \/
  convertPyDictToPhpArray n o = Some v -> isString v = false.
Proof.
  destruct n; intros [Hv|Hv]; [done..| |];
    [by eapply list_items_array in Hv|by eapply dict_items_array in Hv].
Qed.

(** The result is of none of the kinds the wrapper knows. *)
Definition unsupported o : Prop :=
  Forall (fun check : PyObject -> bool => check o = false)
    [PyLong_Check; PyFloat_Check; PyUnicode_Check; PyList_Check; PyTuple_Check; PyDict_Check; PyBool_Check;
     PySet_Check; PyFrozenSet_Check; PyBytes_Check; PyByteArray_Check; PyMemoryView_Check; PyCallable_Check].

(** What the wrapper makes of a result when the indicator is clear. *)
Lemma result_kinds n o :
  (unsupported o -> python_result n None o = Some (Throw unknown_error)) /\
  (forall s, PyUnicode_Check o = true -> PyUnicode_AsUTF8 o = Some s -> python_result n None o = Some (Throw s)) /\
  (PyBool_Check o = true -> python_result n None o = Some (Ok (Numeric (PyLong_AsLong o)))) /\
  python_result n None o <> Some (Ok (String (bytes "Bool"))).
Proof.
  unfold python_result. split; [|split; [|split]].
  - unfold unsupported. rewrite !Forall_cons.
    intros (-> & -> & -> & -> & -> & -> & -> & -> & -> & -> & -> & -> & -> & _). done.
  - intros s Hu Hs. destruct (unicode_checks o Hu) as [-> ->]. by rewrite Hu, Hs.
  - by intros ->%bool_is_long.
  - destruct (PyLong_Check o) eqn:EL; [done|]. destruct (PyFloat_Check o); [done|].
    destruct (PyUnicode_Check o); [by destruct (PyUnicode_AsUTF8 o)|]. destruct (PyList_Check o).
    { intros (v & Ev & Hv)%fmap_Some. injection Hv as <-. by pose proof (containers_not_strings _ _ _ (or_introl Ev)). }
    destruct (PyTuple_Check o); [done|]. destruct (PyDict_Check o).
    { intros (v & Ev & Hv)%fmap_Some. injection Hv as <-. by pose proof (containers_not_strings _ _ _ (or_intror Ev)). }
    destruct (PyBool_Check o) eqn:EB; [apply bool_is_long in EB; congruence|].
    by repeat case_match.
Qed.

(** C34: when a Python function raises an exception, whatever it says, the wrapper throws "Unknown
    runtime error", except for [SystemExit], which ends the process; "Unknown runtime error" is also
    what it throws for a result of an unsupported kind such as None; a string result is thrown as the
    message of an exception; a boolean comes back as the integer, never as the text "Bool". *)
Theorem call_python_function_errors n w name pyFunc (query : Value) q : has_function w name pyFunc ->
  convertPhpValueToPyObject n query = Some (Ok q) ->
  let call := call_python_function n w name query Null in
  match PyObject_CallObject pyFunc (call_args w q) with
  | (None, err) => exists e, err = Some e /\
      call = if is_SystemExit e then Some Exits else Some (Returns (Throw unknown_error))
  | (Some o, _) =>
      (unsupported o -> call = Some (Returns (Throw unknown_error))) /\
      (forall s, PyUnicode_Check o = true -> PyUnicode_AsUTF8 o = Some s -> call = Some (Returns (Throw s))) /\
      (PyBool_Check o = true -> call = Some (Returns (Ok (Numeric (PyLong_AsLong o))))) /\
      call <> Some (Returns (Ok (String (bytes "Bool"))))
  end.
Proof.
  intros Hf Eq. cbn zeta. rewrite (call_with n w name pyFunc query q Hf Eq).
  destruct (PyObject_CallObject pyFunc (call_args w q)) as [[o|] err] eqn:E.
  2:{ destruct (call_error _ _ _ E) as [e ->]. exists e. split; [done|]. unfold printing.
      destruct (is_SystemExit e) eqn:Ex; [by rewrite print_exits|by rewrite print_clears]. }
  apply call_result in E as ->. destruct (result_kinds n o) as (H1 & H2 & H3 & H4). split_and!.
  - intros Hu. by rewrite H1.
  - intros s Hu Hs. by rewrite (H2 s Hu Hs).
  - intros Hb. by rewrite H3.
  - intros (r & Er & [= <-])%fmap_Some. done.
Qed.
End RoundTrip.

(** ** A Python to try the bridge with *)
Inductive pyobject := PNone | PBool (b : bool) | PInt (z : Z) | PFloat (z : Z) | PStr (s : list Z)
  | PDict (items : list (pyobject * pyobject)) | PList (l : list pyobject) | PTuple (l : list pyobject)
  | PFunction (name : string) | PExit.

Definition py_text o : option (list Z) := match o with PStr s => Some s | _ => None end.

Fixpoint py_set (items : list (pyobject * pyobject)) (k o : pyobject) : list (pyobject * pyobject) :=
  match items with
  | [] => [(k, o)]
  | (k', o') :: items => if decide (py_text k = py_text k') then (k', o) :: items else (k', o') :: py_set items k o
  end.

(** [select] returns its query, [insert] None and [serial] True; [update] raises, and [delete] calls
    [sys.exit()]. *)
Definition py_call (f args : pyobject) : option pyobject * option pyobject :=
  match f, args with
  | PFunction name, PTuple (_ :: _ :: q :: _) =>
      if String.eqb name "select" then (Some q, None)
      else if String.eqb name "insert" then (Some PNone, None)
      else if String.eqb name "serial" then (Some (PBool true), None)
      else if String.eqb name "delete" then (None, Some PExit)
      else (None, Some (PStr (bytes "value is missing")))
  | _, _ => (None, Some (PStr (bytes "not callable")))
  end.

#[export] Instance ex_python : Python Z pyobject := {
  PyLong_Check o := match o with PBool _ | PInt _ => true | _ => false end;
  PyFloat_Check o := match o with PFloat _ => true | _ => false end;
  PyUnicode_Check o := match o with PStr _ => true | _ => false end;
  PyDict_Check o := match o with PDict _ => true | _ => false end;
  PyList_Check o := match o with PList _ => true | _ => false end;
  PyTuple_Check o := match o with PTuple _ => true | _ => false end;
  PyBool_Check o := match o with PBool _ => true | _ => false end;
  PySet_Check _ := false; PyFrozenSet_Check _ := false; PyBytes_Check _ := false;
  PyByteArray_Check _ := false; PyMemoryView_Check _ := false;
  PyCallable_Check o := match o with PFunction _ => true | _ => false end;
  PyLong_AsLong o := match o with PBool b => Z.b2z b | PInt z => z | _ => -1 end;
  PyFloat_AsDouble o := match o with PFloat z => z | _ => -1 end;
  PyUnicode_AsUTF8 := py_text;
  PyDict_items o := match o with PDict l => l | _ => [] end;
  PyList_items o := match o with PList l => l | _ => [] end;
  PyFloat_FromDouble := PFloat; PyUnicode_DecodeUTF8_replace := PStr; PyUnicode_DecodeFSDefault := PStr;
  Py_BuildValue_s := PStr; PyDict_New := PDict [];
  PyDict_SetItem d k o := match d with PDict l => PDict (py_set l k o) | _ => d end;
  PyList_of := PList; PyTuple_Pack := PTuple;
  PyObject_GetAttrString _ name := (Some (PFunction name), None);
  PyObject_CallObject := py_call; PyObject_Str := Some; double_of_int64 z := z;
  is_SystemExit o := match o with PExit => true | _ => false end;
  PyErr_Print err := match err with Some PExit => None | _ => Some None end }.

Lemma py_set_new items k o : py_text k ∉ (py_text ∘ fst) <$> items -> py_set items k o = items ++ [(k, o)].
Proof.
  induction items as [|[k' o'] items IH]; cbn; [done|]. rewrite not_elem_of_cons. intros [Hne Hin].
  rewrite decide_False by done. by rewrite IH.
Qed.

#[export] Instance ex_python_laws : PythonLaws Z pyobject.
Proof.
  refine {| utf8 s := Forall (fun c : Z => 0 < c < 128) s |}; try done.
  - intros s Hs. eapply Forall_impl; [done|]. cbn. lia.
  - by intros [].
  - by intros [].
  - intros [] k o; try done. intros _. split; [done|]. cbn. apply py_set_new.
  - by intros [].
  - by intros [].
  - by intros [].
  - intros f args err. destruct f; cbn; [by intros [= <-]..| |by intros [= <-]].
    destruct args as [| | | | | | |[|? [|? [|]]]| |]; cbn; repeat case_match; intros [=]; subst; done.
  - intros f args o err. destruct f; try done. cbn. destruct args as [| | | | | | |[|? [|? [|]]]| |]; try done.
    by repeat case_match; intros [= <- <-].
Defined.

Definition ex_wrapper : DeepClientPhpWrapper (PyObject := pyobject) :=
  {| token := bytes "t"; url := bytes "u"; deepClientModule := Some PNone |}.

(** [["a" => 1, 7 => ["x", []]]] *)
Definition ex_query : Value (double := Z) :=
  Array [(KStr [97], Numeric 1); (KInt 7, Array [(KInt 0, String [120]); (KInt 1, Array [])])].

Lemma ex_function name : has_function ex_wrapper name (PFunction name).
Proof. by exists PNone. Qed.

Lemma ex_query_bridgeable : bridgeable ex_query.
Proof.
  apply bridge_dict; [done| | |].
  - apply NoDup_cons; split; [|apply NoDup_singleton]. by intros H%list_elem_of_singleton.
  - repeat constructor; cbn; unfold is_u64; lia.
  - constructor; [constructor|]. constructor; [|constructor]. apply bridge_list; [done|cbn; lia|].
    constructor; [apply bridge_string; by repeat constructor|]. constructor; [|constructor].
    by apply bridge_list; [done|cbn; lia|constructor].
Qed.

Lemma call_python_function_echo_witness :
  call_python_function 4 ex_wrapper "select" ex_query Null =
  Some (Returns (Ok (Array [(KStr [97], Float 1); (KInt 7, Array [(KInt 0, String [120]); (KInt 1, Null)])]))).
Proof.
  etrans; [apply (call_python_function_echo 4 ex_wrapper "select" (PFunction "select") ex_query)|reflexivity];
    [apply ex_function|reflexivity|apply ex_query_bridgeable|apply Nat.ltb_lt; reflexivity].
Defined.

Lemma call_python_function_errors_witness :
  (exists e, Some (PStr (bytes "value is missing")) = Some e /\
    call_python_function 1 ex_wrapper "update" (Numeric 1) Null =
    if is_SystemExit e then Some Exits else Some (Returns (Throw unknown_error))) /\
  (exists e, Some PExit = Some e /\
    call_python_function 1 ex_wrapper "delete" (Numeric 1) Null =
    if is_SystemExit e then Some Exits else Some (Returns (Throw unknown_error))).
Proof.
  split.
  - exact (call_python_function_errors 1 ex_wrapper "update" (PFunction "update") (Numeric 1) (PFloat 1)
             (ex_function "update") eq_refl).
  - exact (call_python_function_errors 1 ex_wrapper "delete" (PFunction "delete") (Numeric 1) (PFloat 1)
             (ex_function "delete") eq_refl).
Defined.

(** Positions may come in any order; a gap throws. *)
Definition ex_unordered : Value (double := Z) := Array [(KInt 1, Numeric 5); (KInt 0, String [120])].

Lemma convertPhpValueToPyObject_outcome_witness :
  convertible ex_unordered = true /\
  exists o, convertPhpValueToPyObject 2 ex_unordered = Some (Ok o).
Proof.
  split; [reflexivity|]. apply (convertPhpValueToPyObject_outcome 2 ex_unordered).
  - apply wf_array; [|discriminate| |].
    + apply NoDup_cons; split; [|apply NoDup_singleton]. intros H%list_elem_of_singleton. discriminate H.
    + repeat constructor; discriminate.
    + repeat constructor.
  - apply Nat.ltb_lt; reflexivity.
Defined.

Example unsupported_results :
  call_python_function 1 ex_wrapper "insert" (Numeric 1) Null = Some (Returns (Throw unknown_error)) /\
  call_python_function 1 ex_wrapper "serial" (Numeric 1) Null = Some (Returns (Ok (Numeric 1))) /\
  call_python_function 2 ex_wrapper "select" (Array [(KInt 1, Numeric 1)]) Null = Some (Returns (Throw undefined)) /\
  call_python_function 2 ex_wrapper "select" (String [97]) Null = Some (Returns (Throw [97])) /\
  call_python_function 1 ex_wrapper "delete" (Numeric 1) Null = Some Exits.
Proof. vm_compute. done. Qed.
