(* ===== verification/ZendGc.v ===== *)
(** * The cycle collector ([zend_headers/zend_gc.c])

    Reference-counted values live in a heap by address; a header is a reference count, the colour and
    the address of the value in the root buffer (the two fields of [GC_INFO]).  The root buffer is a
    block of tagged machine words.  The three traversals of the code repeat one text; here it is
    written once, as [traverse], and a [pass] says in what they differ.  The segmented stack is a list.
    Definitions only: the theorems are in [ZendGcBuffer], [ZendGcTrace], [ZendGcScan],
    [ZendGcCollect] and [ZendGcGarbage]. *)
From S2P Require Import Prelude.

(** ** Values *)
Inductive gc_color := GC_BLACK | GC_WHITE | GC_GREY | GC_PURPLE.
#[export] Instance gc_color_eq_dec : EqDecision gc_color.
Proof. solve_decision. Defined.

(** A [zval]: a value without a reference count, a pointer to a counted one, or the indirection to a
    variable that symbol tables use. *)
Inductive zval := IS_PLAIN | IS_COUNTED (ref : Z) | IS_INDIRECT (var : Z).

(** What the collector reads of an object: its flags, whether releasing it runs user code, and what
    its [get_gc] handler returns, a property table and an array of values. *)
Record zend_object := {
  IS_OBJ_FREE_CALLED : bool; IS_OBJ_DESTRUCTOR_CALLED : bool; runs_destructor : bool;
  gc_table : option Z; gc_zvals : list zval }.

Inductive gc_value :=
  | IS_OBJECT (obj : zend_object)
  | IS_ARRAY (arData : list zval)
  | IS_REFERENCE (val : zval)
  | IS_OTHER.

Record zend_refcounted := { refcount : Z; color : gc_color; address : Z; value : gc_value }.

Abbreviation heap := (gmap Z zend_refcounted).

(** What [GC_ADDREF] and [GC_DELREF] do to a count, an [uint32_t]. *)
Definition GC_ADDREF (rc : Z) : Z := u32 (rc + 1).
Definition GC_DELREF (rc : Z) : Z := u32 (rc - 1).
Definition set_count (f : Z -> Z) (n : zend_refcounted) : zend_refcounted :=
  {| n with refcount := f (refcount n) |}.
Definition GC_REF_SET_COLOR (c : gc_color) (n : zend_refcounted) : zend_refcounted :=
  {| n with color := c |}.
Definition GC_REF_SET_INFO (idx : Z) (c : gc_color) (n : zend_refcounted) : zend_refcounted :=
  {| n with color := c; address := idx |}.
(** [GC_INFO(ref) == 0]: black is zero. *)
Definition no_info (n : zend_refcounted) : bool := (address n =? 0) && bool_decide (color n = GC_BLACK).

Definition set_node (h : heap) (ref : Z) (f : zend_refcounted -> zend_refcounted) : option heap :=
  n ← h !! ref; Some (<[ref := f n]> h).

(** ** The root buffer *)

(** The tags in the two low bits of a slot. *)
Definition GC_BITS : Z := 3.
Definition GC_ROOT : Z := 0.
Definition GC_UNUSED : Z := 1.
Definition GC_GARBAGE : Z := 2.
Definition GC_DTOR_GARBAGE : Z := 3.
Definition GC_GET_PTR (w : Z) : Z := Z.ldiff w GC_BITS.
Definition GC_IS_ROOT (w : Z) : bool := Z.land w GC_BITS =? GC_ROOT.
Definition GC_IS_UNUSED (w : Z) : bool := Z.land w GC_BITS =? GC_UNUSED.
Definition GC_MAKE_GARBAGE (w : Z) : Z := Z.lor w GC_GARBAGE.

(** A link of the list of unused slots; reading it back goes through [uint32_t]. *)
Definition GC_IDX2LIST (idx : Z) : Z := Z.lor (idx * 8) GC_UNUSED.
Definition GC_LIST2IDX (w : Z) : Z := u32 w / 8.

Definition GC_INVALID : Z := 0.
Definition GC_FIRST_ROOT : Z := 1.
Definition GC_DEFAULT_BUF_SIZE : Z := 16 * 1024.
Definition GC_BUF_GROW_STEP : Z := 128 * 1024.
Definition GC_MAX_UNCOMPRESSED : Z := 512 * 1024.
Definition GC_MAX_BUF_SIZE : Z := 0x40000000.
Definition GC_THRESHOLD_DEFAULT : Z := 10000.
Definition GC_THRESHOLD_STEP : Z := 10000.
Definition GC_THRESHOLD_MAX : Z := 1000000000.
Definition GC_THRESHOLD_TRIGGER : Z := 100.

Record zend_gc_globals := {
  buf : option (list (option Z));
  gc_enabled : bool; gc_active : bool; gc_protected : bool; gc_full : bool;
  unused : Z; first_unused : Z; gc_threshold : Z; buf_size : Z; num_roots : Z;
  gc_runs : Z; collected : Z }.

(** The state the collector works on; [slots] are the variables of [IS_INDIRECT] elements. *)
Record gc_state := { nodes : heap; slots : gmap Z zval; gc : zend_gc_globals }.

Definition set_gc (s : gc_state) (g : zend_gc_globals) : gc_state := {| s with gc := g |}.
Definition set_nodes (s : gc_state) (h : heap) : gc_state := {| s with nodes := h |}.

(** [GC_IDX2PTR(idx)->ref] *)
Definition slot_at (g : zend_gc_globals) (idx : Z) : option Z := cells ← buf g; c ← aget cells idx; c.
Definition set_slot (g : zend_gc_globals) (idx w : Z) : option zend_gc_globals :=
  cells ← buf g; cells ← aset cells idx (Some w); Some {| g with buf := Some cells |}.

Definition GC_HAS_UNUSED (g : zend_gc_globals) : bool := negb (unused g =? GC_INVALID).
Definition GC_HAS_NEXT_UNUSED_UNDER_THRESHOLD (g : zend_gc_globals) : bool := first_unused g <? gc_threshold g.
Definition GC_HAS_NEXT_UNUSED (g : zend_gc_globals) : bool := negb (first_unused g =? buf_size g).

Definition gc_compress (idx : Z) : Z :=
  if idx <? GC_MAX_UNCOMPRESSED then idx else Z.lor (idx mod GC_MAX_UNCOMPRESSED) GC_MAX_UNCOMPRESSED.

Fixpoint decompress_loop (fuel : nat) (g : zend_gc_globals) (ref idx : Z) : option Z :=
  match fuel with
  | O => None
  | S fuel =>
      let idx := u32 (idx + GC_MAX_UNCOMPRESSED) in
      w ← slot_at g idx;
      if GC_GET_PTR w =? ref then Some idx else decompress_loop fuel g ref idx
  end.

(** The index of the slot.  No buffer has more than [GC_MAX_BUF_SIZE / GC_MAX_UNCOMPRESSED] slots with
    the same compressed index. *)
Definition gc_decompress (g : zend_gc_globals) (ref idx : Z) : option Z :=
  w ← slot_at g idx;
  if GC_GET_PTR w =? ref then Some idx
  else decompress_loop (Z.to_nat (GC_MAX_BUF_SIZE / GC_MAX_UNCOMPRESSED)) g ref idx.

Definition gc_fetch_unused (g : zend_gc_globals) : option (Z * zend_gc_globals) :=
  let idx := unused g in
  w ← slot_at g idx;
  Some (idx, {| g with unused := GC_LIST2IDX w |}).

Definition gc_link_unused (g : zend_gc_globals) (root : Z) : option zend_gc_globals :=
  g ← set_slot g root (GC_IDX2LIST (unused g));
  Some {| g with unused := root |}.

Definition gc_fetch_next_unused (g : zend_gc_globals) : Z * zend_gc_globals :=
  (first_unused g, {| g with first_unused := u32 (first_unused g + 1) |}).

Definition gc_remove_from_roots (g : zend_gc_globals) (root : Z) : option zend_gc_globals :=
  g ← gc_link_unused g root;
  Some {| g with num_roots := u32 (num_roots g - 1) |}.

Definition root_buffer_dtor (g : zend_gc_globals) : zend_gc_globals := {| g with buf := None |}.

Definition gc_globals_ctor_ex : zend_gc_globals :=
  {| gc_enabled := false; gc_active := false; gc_protected := true; gc_full := false; buf := None;
     unused := GC_INVALID; first_unused := GC_INVALID; gc_threshold := GC_INVALID;
     buf_size := GC_INVALID; num_roots := 0; gc_runs := 0; collected := 0 |}.

Definition gc_reset (g : zend_gc_globals) : zend_gc_globals :=
  match buf g with
  | None => g
  | Some _ =>
      {| g with gc_active := false; gc_protected := false; gc_full := false; unused := GC_INVALID;
         first_unused := GC_FIRST_ROOT; num_roots := 0; gc_runs := 0; collected := 0 |}
  end.

(** The result is the old setting.  Slot 0 holds NULL. *)
Definition gc_enable (g : zend_gc_globals) (enable : bool) : bool * zend_gc_globals :=
  let g' := {| g with gc_enabled := enable |} in
  match buf g with
  | None =>
      if enable && negb (gc_enabled g) then
        (gc_enabled g,
         gc_reset {| g' with buf := Some (Some 0 :: replicate (Z.to_nat (GC_DEFAULT_BUF_SIZE - 1)) None);
                     buf_size := GC_DEFAULT_BUF_SIZE;
                     gc_threshold := GC_THRESHOLD_DEFAULT + GC_FIRST_ROOT |})
      else (gc_enabled g, g')
  | Some _ => (gc_enabled g, g')
  end.

Definition gc_protect (g : zend_gc_globals) (protect : bool) : bool * zend_gc_globals :=
  (gc_protected g, {| g with gc_protected := protect |}).

Definition gc_grow_root_buffer (g : zend_gc_globals) : option zend_gc_globals :=
  if (GC_MAX_BUF_SIZE <=? buf_size g) && negb (gc_full g) then
    Some {| g with gc_active := true; gc_protected := true; gc_full := true |}
  else
    let new_size := if buf_size g <? GC_BUF_GROW_STEP then buf_size g * 2
                    else buf_size g + GC_BUF_GROW_STEP in
    let new_size := if GC_MAX_BUF_SIZE <? new_size then GC_MAX_BUF_SIZE else new_size in
    cells ← buf g;
    Some {| g with buf := Some (resize (Z.to_nat new_size) None cells); buf_size := new_size |}.

Definition gc_adjust_threshold (g : zend_gc_globals) (count : Z) : option zend_gc_globals :=
  if count <? GC_THRESHOLD_TRIGGER then
    if gc_threshold g <? GC_THRESHOLD_MAX then
      let new_threshold := u32 (gc_threshold g + GC_THRESHOLD_STEP) in
      let new_threshold := if GC_THRESHOLD_MAX <? new_threshold then GC_THRESHOLD_MAX else new_threshold in
      g ← (if buf_size g <? new_threshold then gc_grow_root_buffer g else Some g);
      Some (if new_threshold <=? buf_size g then {| g with gc_threshold := new_threshold |} else g)
    else Some g
  else if GC_THRESHOLD_DEFAULT <? gc_threshold g then
    let new_threshold := u32 (gc_threshold g - GC_THRESHOLD_STEP) in
    let new_threshold := if new_threshold <? GC_THRESHOLD_DEFAULT then GC_THRESHOLD_DEFAULT else new_threshold in
    Some {| g with gc_threshold := new_threshold |}
  else Some g.

(** An index for a new root: [None] inside when the buffer cannot grow. *)
Definition fetch_or_grow (g : zend_gc_globals) : option (option Z * zend_gc_globals) :=
  if GC_HAS_UNUSED g then '(idx, g) ← gc_fetch_unused g; Some (Some idx, g)
  else if GC_HAS_NEXT_UNUSED g then let '(idx, g) := gc_fetch_next_unused g in Some (Some idx, g)
  else
    g ← gc_grow_root_buffer g;
    if negb (GC_HAS_NEXT_UNUSED g) then Some (None, g)
    else let '(idx, g) := gc_fetch_next_unused g in Some (Some idx, g).

(** Write [w], the tagged address of [ref], to slot [idx] and the index to the header of [ref]. *)
Definition occupy (s : gc_state) (idx ref w : Z) (c : gc_color) : option gc_state :=
  g ← set_slot (gc s) idx w;
  h ← set_node (nodes s) ref (GC_REF_SET_INFO (gc_compress idx) c);
  Some {| nodes := h; slots := slots s; gc := {| g with num_roots := u32 (num_roots g + 1) |} |}.

(** ** Reporting possible roots *)
Section Roots.
(** [gc_collect_cycles] is a function pointer; [rc_dtor_func] releases a value. *)
Context (gc_collect_cycles : gc_state -> option (gc_state * Z)) (rc_dtor_func : gc_state -> Z -> option gc_state).

Definition gc_possible_root_when_full (s : gc_state) (ref : Z) : option gc_state :=
  '(s, done) ←
    (if gc_enabled (gc s) && negb (gc_active (gc s)) then
       h ← set_node (nodes s) ref (set_count GC_ADDREF);
       '(s, count) ← gc_collect_cycles (set_nodes s h);
       g ← gc_adjust_threshold (gc s) count;
       h ← set_node (nodes s) ref (set_count GC_DELREF);
       let s := set_nodes (set_gc s g) h in
       n ← h !! ref;
       if refcount n =? 0 then s ← rc_dtor_func s ref; Some (s, true)
       else Some (s, negb (no_info n))
     else Some (s, false));
  if (done : bool) then Some s
  else
    '(idx, g) ← fetch_or_grow (gc s);
    match idx with
    | None => Some (set_gc s g)
    | Some idx => occupy (set_gc s g) idx ref ref GC_PURPLE
    end.

Definition gc_possible_root (s : gc_state) (ref : Z) : option gc_state :=
  if gc_protected (gc s) then Some s
  else if GC_HAS_UNUSED (gc s) then
    '(idx, g) ← gc_fetch_unused (gc s); occupy (set_gc s g) idx ref ref GC_PURPLE
  else if GC_HAS_NEXT_UNUSED_UNDER_THRESHOLD (gc s) then
    let '(idx, g) := gc_fetch_next_unused (gc s) in occupy (set_gc s g) idx ref ref GC_PURPLE
  else gc_possible_root_when_full s ref.

(** Reached when a count drops to a value that is not zero; [collectable] is the flag of the type. *)
Definition gc_check_possible_root (collectable : Z -> bool) (s : gc_state) (ref : Z) : option gc_state :=
  n ← nodes s !! ref;
  let ref := match value n with
             | IS_REFERENCE v =>
                 if no_info n
                 then match v with IS_COUNTED r => if collectable r then Some r else None | _ => None end
                 else Some ref
             | _ => Some ref
             end in
  match ref with
  | None => Some s
  | Some ref =>
      n ← nodes s !! ref;
      if collectable ref && no_info n then gc_possible_root s ref else Some s
  end.
End Roots.

Definition gc_remove_from_buffer (s : gc_state) (ref : Z) : option gc_state :=
  n ← nodes s !! ref;
  h ← set_node (nodes s) ref (GC_REF_SET_INFO 0 GC_BLACK);
  root ← (if GC_MAX_UNCOMPRESSED <=? first_unused (gc s) then gc_decompress (gc s) ref (address n)
          else Some (address n));
  g ← gc_remove_from_roots (gc s) root;
  Some (set_nodes (set_gc s g) h).

(** [GC_REMOVE_FROM_BUFFER] *)
Definition GC_REMOVE_FROM_BUFFER (s : gc_state) (ref : Z) : option gc_state :=
  n ← nodes s !! ref; if no_info n then Some s else gc_remove_from_buffer s ref.

(** ** Compaction with two fingers *)
Fixpoint free_up (fuel : nat) (g : zend_gc_globals) (free : Z) : option Z :=
  match fuel with
  | O => None
  | S fuel => w ← slot_at g free; if GC_IS_UNUSED w then Some free else free_up fuel g (free + 1)
  end.

Fixpoint scan_down (fuel : nat) (g : zend_gc_globals) (scan : Z) : option Z :=
  match fuel with
  | O => None
  | S fuel => w ← slot_at g scan; if GC_IS_UNUSED w then scan_down fuel g (scan - 1) else Some scan
  end.

Fixpoint compact_loop (fuel : nat) (s : gc_state) (free scan end' : Z) : option gc_state :=
  match fuel with
  | O => None
  | S fuel =>
      if free <? scan then
        let n := S (Z.to_nat (first_unused (gc s))) in
        free ← free_up n (gc s) free;
        scan ← scan_down n (gc s) scan;
        if free <? scan then
          p ← slot_at (gc s) scan;
          g ← set_slot (gc s) free p;
          let p := GC_GET_PTR p in
          n ← nodes s !! p;
          h ← set_node (nodes s) p (GC_REF_SET_INFO (gc_compress free) (color n));
          let s := set_nodes (set_gc s g) h in
          let free := free + 1 in
          let scan := scan - 1 in
          if scan <=? end' then Some s else compact_loop fuel s free scan end'
        else compact_loop fuel s free scan end'
      else Some s
  end.

Definition gc_compact (s : gc_state) : option gc_state :=
  if num_roots (gc s) + GC_FIRST_ROOT =? first_unused (gc s) then Some s
  else
    s ← (if num_roots (gc s) =? 0 then Some s
         else compact_loop (S (Z.to_nat (first_unused (gc s)))) s GC_FIRST_ROOT
                (first_unused (gc s) - 1) (num_roots (gc s)));
    let g := gc s in
    Some (set_gc s {| g with unused := GC_INVALID;
                      first_unused := num_roots g + GC_FIRST_ROOT |}).

(** ** Tracing *)

(** In what the traversals differ: what they do to the count of a value they come to ([on_count]),
    which values they visit ([is_fresh]) and the colour these get ([paint]), when they leave the
    property table of an object out ([skip_table]), and what they do with the global symbol table
    ([at_globals]: trace it like any array, leave it, or give it a colour and leave it). *)
Inductive globals_action := Trace | Leave | Paint (c : gc_color).

Record pass := {
  on_count : Z -> Z; is_fresh : gc_color -> bool; paint : gc_color;
  skip_table : gc_color -> bool; at_globals : globals_action }.

Definition is_color (c c' : gc_color) : bool := bool_decide (c' = c).

Definition mark_grey : pass :=
  {| on_count := GC_DELREF; is_fresh c := negb (is_color GC_GREY c); paint := GC_GREY;
     skip_table := is_color GC_GREY; at_globals := Paint GC_BLACK |}.
Definition scan_black : pass :=
  {| on_count := GC_ADDREF; is_fresh c := negb (is_color GC_BLACK c); paint := GC_BLACK;
     skip_table := is_color GC_BLACK; at_globals := Leave |}.
Definition scan_white : pass :=
  {| on_count rc := rc; is_fresh := is_color GC_GREY; paint := GC_WHITE;
     skip_table c := negb (is_color GC_GREY c); at_globals := Paint GC_BLACK |}.
Definition collect_white : pass :=
  {| on_count := GC_ADDREF; is_fresh := is_color GC_WHITE; paint := GC_BLACK;
     skip_table := is_color GC_BLACK; at_globals := Trace |}.

(** [Z_REFCOUNTED_P(zv)] and [Z_COUNTED_P(zv)]; for the elements of a table after following
    [IS_INDIRECT]. *)
Definition Z_COUNTED (zv : zval) : option Z := match zv with IS_COUNTED r => Some r | _ => None end.
Definition Z_COUNTED_INDIRECT (vars : gmap Z zval) (zv : zval) : option Z :=
  match zv with IS_INDIRECT v => zv ← vars !! v; Z_COUNTED zv | _ => Z_COUNTED zv end.

(** Come to a counted value: the heap afterwards, and whether it is to be visited. *)
Definition visit (p : pass) (h : heap) (ref : Z) : option (heap * bool) :=
  n ← h !! ref;
  let n := set_count (on_count p) n in
  if is_fresh p (color n) then Some (<[ref := GC_REF_SET_COLOR (paint p) n]> h, true)
  else Some (<[ref := n]> h, false).

(** All values pushed. *)
Fixpoint visit_push (p : pass) (h : heap) (stack refs : list Z) : option (heap * list Z) :=
  match refs with
  | [] => Some (h, stack)
  | ref :: refs =>
      '(h, fresh) ← visit p h ref;
      visit_push p h (if (fresh : bool) then ref :: stack else stack) refs
  end.

(** The last value is not pushed but visited next ([goto tail_call], [continue]); without one the
    stack is popped ([goto next]). *)
Fixpoint visit_tail (p : pass) (h : heap) (stack refs : list Z) : option (heap * list Z * option Z) :=
  match refs with
  | [] => Some (h, stack, None)
  | [ref] => '(h, fresh) ← visit p h ref; Some (h, stack, if (fresh : bool) then Some ref else None)
  | ref :: refs =>
      '(h, fresh) ← visit p h ref;
      visit_tail p h (if (fresh : bool) then ref :: stack else stack) refs
  end.

Section Trace.
(** The global symbol table, and the variables [IS_INDIRECT] elements point to. *)
Context (symbol_table : Z) (vars : gmap Z zval).

Definition table_refs (arData : list zval) : list Z := omap (Z_COUNTED_INDIRECT vars) arData.

(** One round: what [ref] refers to.  The result carries the value to visit next. *)
Definition traverse (p : pass) (h : heap) (stack : list Z) (ref : Z) :
  option (heap * list Z * option Z) :=
  n ← h !! ref;
  match value n with
  | IS_OBJECT obj =>
      if IS_OBJ_FREE_CALLED obj then Some (h, stack, None)
      else
        let zvs := omap Z_COUNTED (gc_zvals obj) in
        match gc_table obj with
        | None => visit_tail p h stack zvs
        | Some ht =>
            t ← h !! ht;
            if skip_table p (color t) then visit_tail p h stack zvs
            else
              h ← set_node h ht (GC_REF_SET_COLOR (paint p));
              '(h, stack) ← visit_push p h stack zvs;
              t ← h !! ht;
              match value t with IS_ARRAY arData => visit_tail p h stack (table_refs arData) | _ => None end
        end
  | IS_ARRAY arData =>
      let trace := visit_tail p h stack (table_refs arData) in
      if ref =? symbol_table then
        match at_globals p with
        | Trace => trace
        | Leave => Some (h, stack, None)
        | Paint c => h ← set_node h ref (GC_REF_SET_COLOR c); Some (h, stack, None)
        end
      else trace
  | IS_REFERENCE val => visit_tail p h stack (omap Z_COUNTED [val])
  | IS_OTHER => Some (h, stack, None)
  end.

(** The value to visit next, or the one on the stack. *)
Definition next_ref (next : option Z) (stack : list Z) : option (Z * list Z) :=
  match next with
  | Some ref => Some (ref, stack)
  | None => match stack with ref :: stack => Some (ref, stack) | [] => None end
  end.

(** The loop of [gc_mark_grey] and of [gc_scan_black]. *)
Fixpoint trace_loop (fuel : nat) (p : pass) (h : heap) (ref : Z) (stack : list Z) : option heap :=
  match fuel with
  | O => None
  | S fuel =>
      '(h, stack, next) ← traverse p h stack ref;
      match next_ref next stack with
      | Some (ref, stack) => trace_loop fuel p h ref stack
      | None => Some h
      end
  end.

(** A value is visited once, the symbol table at most once for every other value. *)
Definition trace_fuel (h : heap) : nat := S (2 * size h).

Definition gc_mark_grey (h : heap) (ref : Z) : option heap := trace_loop (trace_fuel h) mark_grey h ref [].
Definition gc_scan_black (h : heap) (ref : Z) : option heap := trace_loop (trace_fuel h) scan_black h ref [].

(** [gc_scan_black] gets an empty stack: the segments behind the top of this one. *)
Fixpoint scan_loop (fuel : nat) (h : heap) (ref : Z) (stack : list Z) : option heap :=
  match fuel with
  | O => None
  | S fuel =>
      n ← h !! ref;
      '(h, stack, next) ←
        (if is_color GC_WHITE (color n) then
           if 0 <? refcount n then
             h ← set_node h ref (GC_REF_SET_COLOR GC_BLACK);
             h ← gc_scan_black h ref;
             Some (h, stack, None)
           else traverse scan_white h stack ref
         else Some (h, stack, None));
      match next_ref next stack with
      | Some (ref, stack) => scan_loop fuel h ref stack
      | None => Some h
      end
  end.

Definition gc_scan (h : heap) (ref : Z) : option heap := scan_loop (trace_fuel h) h ref [].
End Trace.

(** ** The phases of a collection *)
Section Collect.
Context (symbol_table : Z).

(** [while (current != last)] over the slots: [n] are left. *)
Fixpoint mark_roots_loop (n : nat) (s : gc_state) (current : Z) : option gc_state :=
  match n with
  | O => Some s
  | S n =>
      w ← slot_at (gc s) current;
      s ← (if GC_IS_ROOT w then
             r ← nodes s !! w;
             if is_color GC_PURPLE (color r) then
               h ← set_node (nodes s) w (GC_REF_SET_COLOR GC_GREY);
               h ← gc_mark_grey symbol_table (slots s) h w;
               Some (set_nodes s h)
             else Some s
           else Some s);
      mark_roots_loop n s (current + 1)
  end.

(** The slots in use. *)
Definition slots_used (g : zend_gc_globals) : nat := Z.to_nat (first_unused g - GC_FIRST_ROOT).

Definition gc_mark_roots (s : gc_state) : option gc_state :=
  s ← gc_compact s; mark_roots_loop (slots_used (gc s)) s GC_FIRST_ROOT.

Fixpoint scan_roots_loop (n : nat) (s : gc_state) (current : Z) : option gc_state :=
  match n with
  | O => Some s
  | S n =>
      w ← slot_at (gc s) current;
      s ← (if GC_IS_ROOT w then
             r ← nodes s !! w;
             if is_color GC_GREY (color r) then
               h ← set_node (nodes s) w (GC_REF_SET_COLOR GC_WHITE);
               h ← gc_scan symbol_table (slots s) h w;
               Some (set_nodes s h)
             else Some s
           else Some s);
      scan_roots_loop n s (current + 1)
  end.

Definition gc_scan_roots (s : gc_state) : option gc_state :=
  scan_roots_loop (slots_used (gc s)) s GC_FIRST_ROOT.

(** Nothing happens when the buffer cannot grow. *)
Definition gc_add_garbage (s : gc_state) (ref : Z) : option gc_state :=
  '(idx, g) ← fetch_or_grow (gc s);
  match idx with
  | None => Some (set_gc s g)
  | Some idx => occupy (set_gc s g) idx ref (GC_MAKE_GARBAGE ref) GC_BLACK
  end.

(** What [gc_collect_white] does with a value before it follows its references: whether it counts,
    whether it has a destructor to run, and the state with the value on record as garbage. *)
Definition collect_one (s : gc_state) (ref : Z) : option (gc_state * Z * bool) :=
  n ← nodes s !! ref;
  let add s := if no_info n then gc_add_garbage s ref else Some s in
  match value n with
  | IS_OBJECT obj =>
      if IS_OBJ_FREE_CALLED obj then Some (s, 1, false)
      else s ← add s; Some (s, 1, negb (IS_OBJ_DESTRUCTOR_CALLED obj) && runs_destructor obj)
  | IS_ARRAY _ => s ← add s; Some (s, 1, false)
  | IS_REFERENCE _ => Some (s, 0, false)
  | IS_OTHER => Some (s, 1, false)
  end.

(** [count] is an [int]. *)
Fixpoint collect_white_loop (fuel : nat) (s : gc_state) (ref : Z) (stack : list Z) (count : Z) (flags : bool) :
  option (gc_state * Z * bool) :=
  match fuel with
  | O => None
  | S fuel =>
      '(s, one, dtor) ← collect_one s ref;
      count ← int (count + one);
      let flags := flags || dtor in
      '(h, stack, next) ← traverse symbol_table (slots s) collect_white (nodes s) stack ref;
      let s := set_nodes s h in
      match next_ref next stack with
      | Some (ref, stack) => collect_white_loop fuel s ref stack count flags
      | None => Some (s, count, flags)
      end
  end.

Definition gc_collect_white (s : gc_state) (ref : Z) (flags : bool) : option (gc_state * Z * bool) :=
  collect_white_loop (trace_fuel (nodes s)) s ref [] 0 flags.

(** Remove what is not garbage from the buffer. *)
Fixpoint remove_black_loop (n : nat) (s : gc_state) (current : Z) : option gc_state :=
  match n with
  | O => Some s
  | S n =>
      w ← slot_at (gc s) current;
      s ← (if GC_IS_ROOT w then
             r ← nodes s !! w;
             if is_color GC_BLACK (color r) then
               h ← set_node (nodes s) w (GC_REF_SET_INFO 0 GC_BLACK);
               g ← gc_remove_from_roots (gc s) current;
               Some (set_nodes (set_gc s g) h)
             else Some s
           else Some s);
      remove_black_loop n s (current + 1)
  end.

Fixpoint collect_roots_loop (n : nat) (s : gc_state) (idx count : Z) (flags : bool) :
  option (gc_state * Z * bool) :=
  match n with
  | O => Some (s, count, flags)
  | S n =>
      ref ← slot_at (gc s) idx;
      g ← set_slot (gc s) idx (GC_MAKE_GARBAGE ref);
      let s := set_gc s g in
      r ← nodes s !! ref;
      '(s, count, flags) ←
        (if is_color GC_WHITE (color r) then
           h ← set_node (nodes s) ref (GC_REF_SET_COLOR GC_BLACK);
           '(s, more, flags) ← gc_collect_white (set_nodes s h) ref flags;
           count ← int (count + more);
           Some (s, count, flags)
         else Some (s, count, flags));
      collect_roots_loop n s (idx + 1) count flags
  end.

Definition gc_collect_roots (s : gc_state) (flags : bool) : option (gc_state * Z * bool) :=
  s ← remove_black_loop (slots_used (gc s)) s GC_FIRST_ROOT;
  s ← gc_compact s;
  collect_roots_loop (slots_used (gc s)) s GC_FIRST_ROOT 0 flags.

(** The first half of [zend_gc_collect_cycles], up to the point where the garbage is known. *)
Definition find_garbage (s : gc_state) : option (gc_state * Z * bool) :=
  s ← gc_mark_roots s;
  s ← gc_scan_roots s;
  gc_collect_roots s false.
End Collect.
