(* ===== verification/ZendGcTrace.v ===== *)
(** * The traversals of the cycle collector

    What one traversal does, for any [pass]: [traced] relates the heap before and after it to the list
    of the values that were visited.  Every reference of a visited value is counted once, visited
    values and their property tables get the colour of the pass, and no reference of a visited value
    leads to a fresh one.  The loop always ends: [trace_fuel] rounds are enough. *)
From S2P Require Import Prelude ZendGc.

(** How often [a] is in a list. *)
Definition occurrences (a : Z) (l : list Z) : nat := length (filter (eq a) l).

Lemma occurrences_app a l1 l2 : occurrences a (l1 ++ l2) = (occurrences a l1 + occurrences a l2)%nat.
Proof. unfold occurrences. by rewrite filter_app, length_app. Qed.

Lemma occurrences_cons a b l :
  occurrences a (b :: l) = ((if decide (a = b) then 1 else 0) + occurrences a l)%nat.
Proof. unfold occurrences. rewrite filter_cons. by destruct (decide (a = b)). Qed.

Lemma occurrences_0 a l : a ∉ l -> occurrences a l = 0%nat.
Proof.
  induction l as [|b l IH]; [done|]. rewrite not_elem_of_cons. intros [Hb Hl].
  rewrite occurrences_cons, IH, decide_False by done. done.
Qed.

Lemma occurrences_Permutation a l1 l2 : l1 ≡ₚ l2 -> occurrences a l1 = occurrences a l2.
Proof. intros H. unfold occurrences. by rewrite H. Qed.

(** ** The reference graph *)
Section Graph.
Context (symbol_table : Z) (vars : gmap Z zval) (vals : gmap Z gc_value).

Definition own_table (a : Z) : option Z :=
  match vals !! a with
  | Some (IS_OBJECT obj) => if IS_OBJ_FREE_CALLED obj then None else gc_table obj
  | _ => None
  end.

Definition array_refs (t : Z) : list Z :=
  match vals !! t with Some (IS_ARRAY arData) => table_refs vars arData | _ => [] end.

(** The counted values that [a] refers to, with multiplicity; an object refers to what its property
    table holds. *)
Definition refs (a : Z) : list Z :=
  match vals !! a with
  | Some (IS_OBJECT obj) =>
      if IS_OBJ_FREE_CALLED obj then []
      else omap Z_COUNTED (gc_zvals obj) ++ match gc_table obj with Some t => array_refs t | None => [] end
  | Some (IS_ARRAY _) => if a =? symbol_table then [] else array_refs a
  | Some (IS_REFERENCE v) => omap Z_COUNTED [v]
  | _ => []
  end.

Definition edge (a b : Z) : Prop := b ∈ refs a.

(** References lead to values; the table of an object is an array that nothing else refers to (which
    [zend_std_get_gc] sees to: it separates a property table that is shared). *)
Record well_formed : Prop := {
  wf_refs : forall a b, edge a b -> is_Some (vals !! b);
  wf_table : forall a t, own_table a = Some t -> exists els, vals !! t = Some (IS_ARRAY els);
  wf_private : forall a t b, own_table a = Some t -> ~ edge b t;
  wf_unique : forall a b t, own_table a = Some t -> own_table b = Some t -> a = b;
  wf_globals : forall a, own_table a <> Some symbol_table;
  wf_globals_array : forall v, vals !! symbol_table = Some v -> exists els, v = IS_ARRAY els }.

Definition tables (l : list Z) : list Z := omap own_table l.

(** How many references to [a] the values of a list hold. *)
Definition nrefs (l : list Z) (a : Z) : nat := occurrences a (l ≫= refs).

Lemma own_table_eq a v : vals !! a = Some v -> own_table a =
  match v with IS_OBJECT obj => if IS_OBJ_FREE_CALLED obj then None else gc_table obj | _ => None end.
Proof. intros E. unfold own_table. by rewrite E. Qed.

Lemma refs_eq a v : vals !! a = Some v -> refs a =
  match v with
  | IS_OBJECT obj =>
      if IS_OBJ_FREE_CALLED obj then []
      else omap Z_COUNTED (gc_zvals obj) ++ match gc_table obj with Some t => array_refs t | None => [] end
  | IS_ARRAY els => if a =? symbol_table then [] else table_refs vars els
  | IS_REFERENCE v => omap Z_COUNTED [v]
  | IS_OTHER => []
  end.
Proof. intros E. unfold refs, array_refs. rewrite E. by destruct v. Qed.

Lemma array_refs_eq t els : vals !! t = Some (IS_ARRAY els) -> array_refs t = table_refs vars els.
Proof. intros E. unfold array_refs. by rewrite E. Qed.

Lemma tables_one a : tables [a] = option_list (own_table a).
Proof. unfold tables. cbn. by destruct (own_table a). Qed.

Lemma tables_app l1 l2 : tables (l1 ++ l2) = tables l1 ++ tables l2.
Proof. unfold tables. by rewrite omap_app. Qed.

Lemma elem_tables t l : t ∈ tables l <-> exists a, a ∈ l /\ own_table a = Some t.
Proof. unfold tables. rewrite list_elem_of_omap. naive_solver. Qed.

Lemma nrefs_app l1 l2 a : nrefs (l1 ++ l2) a = (nrefs l1 a + nrefs l2 a)%nat.
Proof. unfold nrefs. by rewrite bind_app, occurrences_app. Qed.

Lemma nrefs_one b a : nrefs [b] a = occurrences a (refs b).
Proof. unfold nrefs. cbn. by rewrite app_nil_r. Qed.

Lemma nrefs_0 l a : (forall b, b ∈ l -> ~ edge b a) -> nrefs l a = 0%nat.
Proof.
  intros H. unfold nrefs. apply occurrences_0. rewrite list_elem_of_bind. intros (b & Hb & Hl). by apply (H b).
Qed.

Lemma nrefs_Permutation l1 l2 a : l1 ≡ₚ l2 -> nrefs l1 a = nrefs l2 a.
Proof. intros H. unfold nrefs. apply occurrences_Permutation. by rewrite H. Qed.

Lemma refs_globals els : vals !! symbol_table = Some (IS_ARRAY els) -> refs symbol_table = [].
Proof. intros E. unfold refs. by rewrite E, Z.eqb_refl. Qed.
End Graph.

(** ** The effect of a pass on one value *)

(** The part of a header a traversal may change, with the contents. *)
Definition core (n : zend_refcounted) : Z * gc_color * gc_value := (refcount n, color n, value n).

Section Pass.
Context (p : pass).

(** [k] references counted, and the colour of the pass if it was visited. *)
Definition touch (k : nat) (visited : bool) (n : zend_refcounted) : zend_refcounted :=
  {| refcount := Nat.iter k (on_count p) (refcount n); color := if visited then paint p else color n;
     address := address n; value := value n |}.

Lemma touch_touch k1 b1 k2 b2 n : touch k2 b2 (touch k1 b1 n) = touch (k1 + k2) (b1 || b2) n.
Proof.
  unfold touch. cbn. f_equal; [|by destruct b1, b2].
  by rewrite Nat.add_comm, Nat.iter_add.
Qed.

Lemma touch_0 n : touch 0 false n = n.
Proof. by destruct n. Qed.

Lemma core_touch k b n n' : core n = core n' -> core (touch k b n) = core (touch k b n').
Proof. unfold core, touch. cbn. by intros [= -> -> ->]. Qed.
End Pass.

Definition fresh (p : pass) (h : heap) (a : Z) : Prop := exists n, h !! a = Some n /\ is_fresh p (color n) = true.

Lemma set_node_lookup h a f n : h !! a = Some n -> exists h', set_node h a f = Some h' /\
  forall b, h' !! b = (if decide (a = b) then f else id) <$> h !! b.
Proof.
  intros Ha. unfold set_node. rewrite Ha. cbn. eexists. split; [done|]. intros b.
  destruct (decide (a = b)) as [<-|]; [by rewrite lookup_insert_eq, Ha|].
  rewrite lookup_insert_ne by done. by destruct (h !! b).
Qed.

Section Visit.
Context (p : pass) (Hpaint : is_fresh p (paint p) = false).

Lemma visit_ok h a : is_Some (h !! a) -> exists h' f, visit p h a = Some (h', f) /\
  (f = true <-> fresh p h a) /\
  forall b, h' !! b = (if decide (a = b) then touch p 1 f else id) <$> h !! b.
Proof.
  intros [n Hn]. unfold visit. rewrite Hn. cbn.
  assert (Hlook : forall m b, <[a := m]> h !! b = (if decide (a = b) then (fun _ => m) else id) <$> h !! b).
  { intros m b. destruct (decide (a = b)) as [<-|]; [by rewrite lookup_insert_eq, Hn|].
    rewrite lookup_insert_ne by done. by destruct (h !! b). }
  destruct (is_fresh p (color n)) eqn:Ef; eexists _, _; (split; [done|]); split.
  - split; [|done]. intros _. by exists n.
  - intros b. rewrite Hlook. destruct (decide (a = b)) as [<-|]; [|done]. by rewrite Hn.
  - split; [done|]. intros (n' & Hn' & E). congruence.
  - intros b. rewrite Hlook. destruct (decide (a = b)) as [<-|]; [|done]. by rewrite Hn.
Qed.

(** What [visit_push] and [visit_tail] have in common: [new] are the values to be visited. *)
Definition visited (h : heap) (cs : list Z) (h' : heap) (new : list Z) : Prop :=
  (forall a, h' !! a = touch p (occurrences a cs) (bool_decide (a ∈ new)) <$> h !! a) /\
  NoDup new /\ (forall a, a ∈ new <-> a ∈ cs /\ fresh p h a).

Lemma visited_cons h a h1 (f : bool) cs h' new :
  (f = true <-> fresh p h a) ->
  (forall b, h1 !! b = (if decide (a = b) then touch p 1 f else id) <$> h !! b) ->
  visited h1 cs h' new -> visited h (a :: cs) h' (new ++ if f then [a] else []).
Proof.
  intros Hf Hh1 (Hh' & Hnd & Hnew).
  assert (Hfresh : forall b, fresh p h1 b <-> fresh p h b /\ (a = b -> f = false)).
  { intros b. unfold fresh. rewrite Hh1. destruct (decide (a = b)) as [<-|Hab].
    - split.
      + intros (n & Hn & E). rewrite fmap_Some in Hn. destruct Hn as (n0 & Hn0 & ->).
        destruct f; cbn in E; [congruence|]. split; [by exists n0|done].
      + intros [(n & Hn & E) Hff]. rewrite Hff by done. rewrite Hn. by exists (touch p 1 false n).
    - rewrite option_fmap_id. naive_solver. }
  assert (Ha : f = true -> a ∉ new).
  { intros -> [_ [_ ?]%Hfresh]%Hnew. naive_solver. }
  assert (Hlast : forall b, b ∈ new ++ (if f then [a] else []) <-> b ∈ new \/ (f = true /\ b = a)).
  { intros b. rewrite elem_of_app. destruct f; rewrite ?list_elem_of_singleton, ?elem_of_nil; naive_solver. }
  split; [|split].
  - intros b. rewrite Hh', Hh1, occurrences_cons.
    destruct (h !! b) as [n|]; cbn; [|by destruct (decide (a = b))].
    destruct (decide (a = b)) as [<-|Hab]; [rewrite decide_True by done|rewrite decide_False by congruence]; cbn.
    + rewrite touch_touch. do 2 f_equal. destruct f; cbn.
      * symmetry. apply bool_decide_eq_true_2, Hlast. by right.
      * apply bool_decide_ext. rewrite Hlast. naive_solver.
    + do 2 f_equal. apply bool_decide_ext. rewrite Hlast. naive_solver.
  - destruct f; [|by rewrite app_nil_r]. apply NoDup_app. split; [done|]. split; [|apply NoDup_singleton].
    intros b Hb ->%list_elem_of_singleton. by apply Ha.
  - intros b. rewrite Hlast, Hnew, Hfresh, elem_of_cons.
    destruct (decide (a = b)) as [<-|]; destruct f; naive_solver.
Qed.

Lemma visit_push_ok cs : forall h st, (forall a, a ∈ cs -> is_Some (h !! a)) ->
  exists h' new, visit_push p h st cs = Some (h', new ++ st) /\ visited h cs h' new.
Proof.
  induction cs as [|a cs IH]; intros h st Hdom.
  - exists h, []. split; [done|]. split; [|split; [constructor|set_solver]].
    intros a. destruct (h !! a) as [n|]; [|done]. cbn. by rewrite touch_0.
  - destruct (visit_ok h a) as (h1 & f & E & Hf & Hh1); [by apply Hdom; left|].
    destruct (IH h1 (if f then a :: st else st)) as (h' & new & E2 & Hv).
    { intros b Hb. rewrite Hh1, fmap_is_Some. apply Hdom. by right. }
    exists h', (new ++ if f then [a] else []). split; [|by eapply visited_cons].
    cbn. rewrite E. cbn. rewrite E2. by destruct f; rewrite <- ?app_assoc, ?app_nil_r.
Qed.

(** The value to visit next is one that [visit_push] would have pushed last. *)
Definition pending (next : option Z) (stack : list Z) : list Z := option_list next ++ stack.

Lemma visit_tail_push cs : forall h st, cs <> [] ->
  visit_push p h st cs = '(h', st', next) ← visit_tail p h st cs; Some (h', pending next st').
Proof.
  induction cs as [|a cs IH]; intros h st Hne; [done|]. destruct cs as [|b cs].
  - cbn. destruct (visit p h a) as [[h1 [|]]|]; done.
  - cbn [visit_push]. change (visit_tail p h st (a :: b :: cs)) with
      ('(h, fresh) ← visit p h a; visit_tail p h (if (fresh : bool) then a :: st else st) (b :: cs)).
    destruct (visit p h a) as [[h1 f]|]; [|done]. cbn [mbind option_bind].
    by rewrite <- IH by done.
Qed.

Lemma visit_tail_ok cs h st : (forall a, a ∈ cs -> is_Some (h !! a)) ->
  exists h' st' next new, visit_tail p h st cs = Some (h', st', next) /\
    pending next st' = new ++ st /\ visited h cs h' new.
Proof.
  intros Hdom. destruct (decide (cs = [])) as [->|Hne].
  - destruct (visit_push_ok [] h st Hdom) as (h' & new & [= <- E] & Hv). by exists h, st, None, new.
  - destruct (visit_push_ok cs h st Hdom) as (h' & new & E & Hv). rewrite visit_tail_push in E by done.
    destruct (visit_tail p h st cs) as [[[h1 st1] next]|] eqn:E2; [|done]. cbn in E. injection E as -> E.
    by exists h', st1, next, new.
Qed.

Lemma visited_app h cs1 h1 new1 cs2 h2 new2 :
  visited h cs1 h1 new1 -> visited h1 cs2 h2 new2 -> visited h (cs1 ++ cs2) h2 (new2 ++ new1).
Proof.
  intros (H1 & Hnd1 & Hn1) (H2 & Hnd2 & Hn2).
  assert (Hf : forall a, fresh p h1 a <-> fresh p h a /\ a ∉ new1).
  { intros a. unfold fresh. rewrite H1. destruct (h !! a) as [n|]; cbn.
    - case_bool_decide as E; split; [intros (? & [= <-] & ?); cbn in *; congruence|naive_solver| |];
        [intros (? & [= <-] & ?); naive_solver|intros ((? & [= <-] & ?) & _); by eexists].
    - split; [by intros (? & ? & _)|by intros ((? & ? & _) & _)]. }
  split; [|split].
  - intros a. rewrite H2, H1, occurrences_app. destruct (h !! a) as [n|]; [|done]. cbn. rewrite touch_touch.
    do 2 f_equal. rewrite orb_comm. symmetry. rewrite (bool_decide_ext _ (a ∈ new2 \/ a ∈ new1)) by apply elem_of_app.
    apply bool_decide_or.
  - apply NoDup_app. split; [done|]. split; [|done]. intros a [_ [_ Ha]%Hf]%Hn2. done.
  - intros a. rewrite !elem_of_app, Hn2, Hf, Hn1. destruct (decide (a ∈ cs1)); tauto.
Qed.
End Visit.

(** ** One round *)
Section Step.
Context (symbol_table : Z) (vars : gmap Z zval) (vals : gmap Z gc_value).
Context (wf : well_formed symbol_table vars vals).
Context (p : pass) (Hpaint : is_fresh p (paint p) = false).
Local Abbreviation refs := (refs symbol_table vars vals).
Local Abbreviation edge := (edge symbol_table vars vals).
Local Abbreviation own_table := (own_table vals).
Local Abbreviation tables := (tables vals).
Local Abbreviation nrefs := (nrefs symbol_table vars vals).
Local Abbreviation traverse := (traverse symbol_table vars).

Lemma vals_lookup h a n : value <$> h = vals -> h !! a = Some n -> vals !! a = Some (value n).
Proof. intros <- Hn. by rewrite lookup_fmap, Hn. Qed.

Lemma vals_is_Some h a : value <$> h = vals -> is_Some (h !! a) <-> is_Some (vals !! a).
Proof. intros <-. by rewrite lookup_fmap, fmap_is_Some. Qed.

Lemma touched_values h h' k b : value <$> h = vals ->
  (forall a, h' !! a = touch p (k a) (b a) <$> h !! a) -> value <$> h' = vals.
Proof.
  intros <- Hh. apply map_eq. intros a. rewrite !lookup_fmap, Hh. by destruct (h !! a).
Qed.

(** What a round that visits the values of [cs] and paints the table [ts] does. *)
Definition stepped h (ref : Z) (st : list Z) (r : option (heap * list Z * option Z)) : Prop :=
  exists h' st' next new, r = Some (h', st', next) /\ pending next st' = new ++ st /\ NoDup new /\
    (forall a, a ∈ new <-> edge ref a /\ fresh p h a) /\
    forall a, h' !! a = touch p (nrefs [ref] a) (bool_decide (a ∈ new ++ tables [ref])) <$> h !! a.

Lemma stepped_visit h ref st : value <$> h = vals -> tables [ref] = [] ->
  stepped h ref st (visit_tail p h st (refs ref)).
Proof.
  intros Hv Ht. destruct (visit_tail_ok p Hpaint (refs ref) h st) as (h' & st' & next & new & E & Ep & Hh & Hnd & Hn).
  { intros a Ha. apply (vals_is_Some h a Hv), (wf_refs _ _ _ wf ref), Ha. }
  exists h', st', next, new. split_and!; try done.
  intros a. rewrite Ht, app_nil_r, nrefs_one. apply Hh.
Qed.

Lemma stepped_table h ref st t els zvs n : value <$> h = vals -> own_table ref = Some t ->
  refs ref = zvs ++ table_refs vars els -> h !! t = Some n -> value n = IS_ARRAY els ->
  stepped h ref st
    (h ← set_node h t (GC_REF_SET_COLOR (paint p));
     '(h, st) ← visit_push p h st zvs;
     t ← h !! t;
     match value t with IS_ARRAY els => visit_tail p h st (table_refs vars els) | _ => None end).
Proof.
  intros Hv Ht Hrefs Hn Hels.
  destruct (set_node_lookup h t (GC_REF_SET_COLOR (paint p)) n Hn) as (h1 & -> & Hh1). cbn.
  assert (Hdom : forall a, edge ref a -> is_Some (h1 !! a)).
  { intros a Ha. rewrite Hh1, fmap_is_Some. by apply (vals_is_Some h a Hv), (wf_refs _ _ _ wf ref). }
  destruct (visit_push_ok p Hpaint zvs h1 st) as (h2 & new1 & -> & Hv1).
  { intros a Ha. apply Hdom. unfold edge. rewrite Hrefs. set_solver. }
  cbn. assert (Ht2 : value <$> h2 !! t = Some (IS_ARRAY els)).
  { rewrite (proj1 Hv1), Hh1, decide_True, Hn by done. cbn. by rewrite Hels. }
  destruct (h2 !! t) as [n2|] eqn:E2; [|done]. injection Ht2 as Ht2. cbn. rewrite Ht2.
  destruct (visit_tail_ok p Hpaint (table_refs vars els) h2 (new1 ++ st)) as (h' & st' & next & new2 & E & Ep & Hv2).
  { intros a Ha. rewrite (proj1 Hv1), fmap_is_Some. apply Hdom. unfold edge. rewrite Hrefs. set_solver. }
  destruct (visited_app p Hpaint _ _ _ _ _ _ _ Hv1 Hv2) as (Hh & Hnd & Hnew). rewrite <- Hrefs in *.
  assert (Hpriv : ~ edge ref t) by (by eapply wf_private).
  assert (Hfresh : forall a, a <> t -> fresh p h1 a <-> fresh p h a).
  { intros a Ha. unfold fresh. rewrite Hh1, decide_False by done. by rewrite option_fmap_id. }
  exists h', st', next, (new2 ++ new1). rewrite E, Ep, app_assoc. split_and!; try done.
  - intros a. rewrite Hnew. split; intros [Ha Hf]; (split; [done|]); apply Hfresh; try done; by intros ->.
  - intros a. rewrite Hh, Hh1, nrefs_one. rewrite (tables_one vals), Ht. cbn.
    destruct (decide (t = a)) as [<-|Hta].
    + rewrite Hn. cbn. rewrite (occurrences_0 t) by done. unfold touch, GC_REF_SET_COLOR. cbn.
      rewrite (bool_decide_eq_true_2 (t ∈ _ ++ [t])) by set_solver. by destruct (bool_decide _).
    + rewrite option_fmap_id. destruct (h !! a) as [m|]; [|done]. cbn. do 2 f_equal. apply bool_decide_ext.
      rewrite (elem_of_app _ [t]), list_elem_of_singleton. naive_solver.
Qed.

(** An ordinary value whose table the pass does not leave out. *)
Lemma traverse_ok h st ref : value <$> h = vals -> is_Some (h !! ref) -> ref <> symbol_table ->
  (forall t n, own_table ref = Some t -> h !! t = Some n -> skip_table p (color n) = false) ->
  stepped h ref st (traverse p h st ref).
Proof.
  intros Hv [n Hn] Hsym Hskip. pose proof (vals_lookup h ref n Hv Hn) as Hval.
  pose proof (refs_eq symbol_table vars vals ref _ Hval) as Hr.
  pose proof (own_table_eq vals ref _ Hval) as Ho.
  pose proof (tables_one vals ref) as Ht. rewrite Ho in Ht.
  pose proof (stepped_visit h ref st Hv) as Hvisit. rewrite Hr, Ht in Hvisit.
  unfold ZendGc.traverse. rewrite Hn. cbn [mbind option_bind].
  destruct (value n) as [obj|els|v|]; [|by rewrite (proj2 (Z.eqb_neq _ _)) in * by done; auto|by auto|by auto].
  destruct (IS_OBJ_FREE_CALLED obj); [by auto|].
  destruct (gc_table obj) as [t|] eqn:Et; [|rewrite app_nil_r in Hvisit; by auto].
  destruct (wf_table _ _ _ wf ref t Ho) as [els Hels]. rewrite (array_refs_eq _ _ t els Hels) in Hr.
  assert (Em : exists m, h !! t = Some m /\ value m = IS_ARRAY els).
  { rewrite <- Hv, lookup_fmap in Hels. destruct (h !! t) as [m|]; [|done]. exists m. by injection Hels. }
  destruct Em as (m & Em & Hm). rewrite Em. cbn. rewrite (Hskip t m) by done.
  by eapply stepped_table with (n := m).
Qed.

(** The symbol table is given its colour. *)
Lemma traverse_globals h st c n : value <$> h = vals -> h !! symbol_table = Some n -> at_globals p = Paint c ->
  exists h', traverse p h st symbol_table = Some (h', st, None) /\
    forall a, h' !! a = (if decide (symbol_table = a) then GC_REF_SET_COLOR c else id) <$> h !! a.
Proof.
  intros Hv Hn Hg. destruct (set_node_lookup h symbol_table (GC_REF_SET_COLOR c) n Hn) as (h' & E & Hh).
  exists h'. split; [|done].
  destruct (wf_globals_array _ _ _ wf _ (vals_lookup h _ n Hv Hn)) as [els Hels].
  unfold ZendGc.traverse. rewrite Hn. cbn. rewrite Hels, Z.eqb_refl, Hg, E. done.
Qed.

(** ** The loop *)

Implicit Types (h hc : heap) (l w : list Z).

(** The values other than the symbol table. *)
Definition ordinary (l : list Z) : list Z := filter (fun a => a <> symbol_table) l.

Definition content (n : zend_refcounted) : Z * gc_value := (refcount n, value n).

(** From [h] to [h'] the references the values of [l] hold were counted, and the values of [painted]
    got the colour of the pass; the colour of the symbol table is left open. *)
Definition moved h (h' : heap) (l painted : list Z) : Prop :=
  (forall a, a <> symbol_table ->
     core <$> h' !! a = core <$> (touch p (nrefs l a) (bool_decide (a ∈ painted)) <$> h !! a)) /\
  content <$> h' !! symbol_table = content <$> (touch p (nrefs l symbol_table) false <$> h !! symbol_table).

(** A reference to a fresh value. *)
Definition fresh_edge h (a b : Z) : Prop := edge a b /\ fresh p h b.

Definition globals_color h (c : gc_color) : Prop := forall n, h !! symbol_table = Some n -> color n = c.

(** The pass started at [r] in heap [h]; [l] was visited, [w] is still to be visited. *)
Record tracing h (r : Z) hc (l w : list Z) : Prop := {
  tr_moved : moved h hc l ((l ++ w) ++ tables l);
  tr_nodup : NoDup (l ++ ordinary w);
  tr_ordinary : symbol_table ∉ l;
  tr_from : forall a, a ∈ l ++ ordinary w -> is_Some (h !! a) /\ (a = r \/ fresh p h a) /\ rtc (fresh_edge h) r a;
  tr_edge : forall a, a ∈ l ++ w -> a = r \/ exists b, edge b a;
  tr_closed : forall a b, a ∈ l -> edge a b -> fresh p h b -> b <> symbol_table -> b ∈ l ++ w;
  tr_globals : match at_globals p with
               | Paint c => symbol_table ∈ w \/ globals_color hc c \/
                   (r <> symbol_table /\ color <$> hc !! symbol_table = color <$> h !! symbol_table)
               | _ => symbol_table ∉ w /\ color <$> hc !! symbol_table = color <$> h !! symbol_table
               end;
  tr_root : r <> symbol_table -> r ∈ l ++ w }.

Lemma moved_core h hc (hc' : heap) l q : core <$> hc = core <$> hc' -> moved h hc l q -> moved h hc' l q.
Proof.
  intros E [H1 H2].
  assert (Ea : forall a, core <$> hc' !! a = core <$> hc !! a) by (intros a; by rewrite <- !lookup_fmap, E).
  split; [intros a Ha; by rewrite Ea, H1|]. rewrite <- H2.
  specialize (Ea symbol_table). destruct (hc' !! symbol_table), (hc !! symbol_table); try done.
  cbn in *. unfold core, content in *. congruence.
Qed.

Lemma moved_lookup h hc l q a : moved h hc l q -> is_Some (hc !! a) <-> is_Some (h !! a).
Proof.
  intros [H1 H2]. destruct (decide (a = symbol_table)) as [->|Ha].
  - destruct (hc !! symbol_table), (h !! symbol_table); split; intros [? ?]; try done; by eexists.
  - specialize (H1 a Ha). destruct (hc !! a), (h !! a); split; intros [? ?]; try done; by eexists.
Qed.

Lemma moved_values h hc l q : value <$> h = vals -> moved h hc l q -> value <$> hc = vals.
Proof.
  intros <- [H1 H2]. apply map_eq. intros a. rewrite !lookup_fmap.
  destruct (decide (a = symbol_table)) as [->|Ha]; [|specialize (H1 a Ha)].
  - destruct (hc !! symbol_table), (h !! symbol_table); try done. cbn in *. unfold content in *. cbn in *. congruence.
  - destruct (hc !! a), (h !! a); try done. cbn in *. unfold core in *. cbn in *. congruence.
Qed.

Lemma moved_color h hc l q a n : moved h hc l q -> a <> symbol_table -> hc !! a = Some n ->
  exists m, h !! a = Some m /\ color n = if bool_decide (a ∈ q) then paint p else color m.
Proof.
  intros [H1 _] Ha Hn. specialize (H1 a Ha). rewrite Hn in H1. destruct (h !! a) as [m|]; [|done].
  exists m. split; [done|]. unfold core in H1. cbn in H1. by injection H1.
Qed.

Lemma moved_count h hc l q a n m : moved h hc l q -> hc !! a = Some n -> h !! a = Some m ->
  refcount n = Nat.iter (nrefs l a) (on_count p) (refcount m).
Proof.
  intros [H1 H2] Hn Hm. destruct (decide (a = symbol_table)) as [->|Ha].
  - rewrite Hn, Hm in H2. unfold content in H2. cbn in H2. by injection H2.
  - specialize (H1 a Ha). rewrite Hn, Hm in H1. unfold core in H1. cbn in H1. by injection H1.
Qed.

(** What is fresh now was fresh before and was not painted. *)
Lemma moved_fresh h hc l q a : moved h hc l q -> a <> symbol_table ->
  fresh p hc a <-> fresh p h a /\ a ∉ q.
Proof.
  intros Hm Ha. split.
  - intros (n & Hn & Hf). destruct (moved_color _ _ _ _ _ _ Hm Ha Hn) as (m & Hh & Hc).
    rewrite Hc in Hf. case_bool_decide; [congruence|]. split; [by exists m|done].
  - intros [(m & Hh & Hf) Hq]. destruct (proj2 (moved_lookup _ _ _ _ a Hm)) as [n Hn]; [by eexists|].
    exists n. split; [done|]. destruct (moved_color _ _ _ _ _ _ Hm Ha Hn) as (m' & Hh' & Hc).
    rewrite bool_decide_eq_false_2 in Hc by done. congruence.
Qed.

Lemma touched_moved h h' l q : (forall a, h' !! a = touch p (nrefs l a) (bool_decide (a ∈ q)) <$> h !! a) ->
  moved h h' l q.
Proof.
  intros Hh. split; [intros a _; by rewrite Hh|]. rewrite Hh. by destruct (h !! symbol_table).
Qed.

Lemma moved_trans h h1 (h2 : heap) l1 l2 q1 q2 q : moved h h1 l1 q1 -> moved h1 h2 l2 q2 ->
  (forall a, a <> symbol_table -> a ∈ q <-> a ∈ q1 \/ a ∈ q2) -> moved h h2 (l1 ++ l2) q.
Proof.
  intros [H1 S1] [H2 S2] Hq. split.
  - intros a Ha. specialize (H1 a Ha). specialize (H2 a Ha). rewrite H2, nrefs_app.
    destruct (h1 !! a) as [n1|], (h !! a) as [n|]; try done. cbn in *. injection H1 as Hr Hc Hv.
    unfold core, touch. cbn. rewrite Hr, Hc, Hv, Nat.add_comm, Nat.iter_add. do 3 f_equal.
    rewrite (bool_decide_ext _ _ (Hq a Ha)), bool_decide_or.
    by destruct (bool_decide (a ∈ q1)), (bool_decide (a ∈ q2)).
  - rewrite S2, nrefs_app. destruct (h1 !! symbol_table) as [n1|], (h !! symbol_table) as [n|]; try done.
    cbn in *. unfold content, touch in *. cbn in *. injection S1 as Hr Hv.
    by rewrite Hr, Hv, Nat.add_comm, Nat.iter_add.
Qed.

Lemma ordinary_app l1 l2 : ordinary (l1 ++ l2) = ordinary l1 ++ ordinary l2.
Proof. apply filter_app. Qed.

Lemma elem_ordinary a l : a ∈ ordinary l <-> a <> symbol_table /\ a ∈ l.
Proof. unfold ordinary. by rewrite list_elem_of_filter. Qed.

Lemma ordinary_id l : symbol_table ∉ l -> ordinary l = l.
Proof.
  intros Hs. induction l as [|a l IH]; [done|]. unfold ordinary. rewrite filter_cons_True by set_solver.
  f_equal. apply IH. set_solver.
Qed.

Section Loop.
Context (h : heap) (r : Z) (Hv : value <$> h = vals) (Hdom : is_Some (h !! r)).
(** The tables of the values that may be visited are not left out, and [r] is no such table. *)
Context (Hskip : forall a t n, a = r \/ fresh p h a -> own_table a = Some t -> h !! t = Some n ->
  skip_table p (color n) = false).
Context (Hr : forall b, own_table b <> Some r).
Context (Hglob : match at_globals p with Paint _ => True | _ => ~ fresh p h symbol_table /\ r <> symbol_table end).

Lemma tracing_ordinary hc l w a : tracing h r hc l w -> a <> symbol_table -> a ∈ w -> a ∈ l ++ ordinary w.
Proof. intros _ Ha Hw. rewrite elem_of_app, elem_ordinary. by right. Qed.

Lemma tracing_skip hc l w ref : tracing h r hc l (ref :: w) -> ref <> symbol_table ->
  forall t n, own_table ref = Some t -> hc !! t = Some n -> skip_table p (color n) = false.
Proof.
  intros T Hs t n Ht Hn. assert (Hts : t <> symbol_table) by (intros ->; by eapply wf_globals).
  destruct (moved_color _ _ _ _ _ _ (tr_moved _ _ _ _ _ T) Hts Hn) as (m & Hm & ->).
  assert (Href : ref ∈ l ++ ordinary (ref :: w)) by (eapply tracing_ordinary; [done..|by left]).
  rewrite bool_decide_eq_false_2; [by eapply Hskip; [apply (tr_from _ _ _ _ _ T)|..]|].
  rewrite elem_of_app, elem_tables. intros [Hin|(a & Ha & Hta)].
  - destruct (tr_edge _ _ _ _ _ T t Hin) as [->|[b Hb]]; [by eapply Hr|]. by eapply wf_private.
  - assert (a = ref) as -> by (by eapply wf_unique).
    pose proof (tr_nodup _ _ _ _ _ T) as Hnd. unfold ordinary in Hnd.
    rewrite filter_cons_True in Hnd by done. apply NoDup_app in Hnd as (_ & Hd & _).
    apply (Hd ref Ha). by left.
Qed.

Lemma tracing_step hc l w ref : tracing h r hc l (ref :: w) -> ref <> symbol_table ->
  exists hc' st' next new, traverse p hc w ref = Some (hc', st', next) /\ pending next st' = new ++ w /\
    NoDup new /\ tracing h r hc' (l ++ [ref]) (new ++ w).
Proof.
  intros T Hs. pose proof (tr_moved _ _ _ _ _ T) as Hm.
  assert (Href : ref ∈ l ++ ordinary (ref :: w)) by (eapply tracing_ordinary; [done..|by left]).
  destruct (traverse_ok hc w ref) as (hc' & st' & next & new & E & Ep & Hnd & Hnew & Hh).
  { by eapply moved_values. } { apply (moved_lookup _ _ _ _ _ Hm). apply (tr_from _ _ _ _ _ T ref Href). } { done. }
  { by eapply tracing_skip. }
  exists hc', st', next, new. split_and!; try done.
  assert (Hfresh : forall a, a ∈ new -> a <> symbol_table -> fresh p h a /\ a ∉ l ++ ref :: w).
  { intros a Ha Has. apply Hnew in Ha as [_ Hf]. apply (moved_fresh _ _ _ _ _ Hm Has) in Hf as [Hf Hq].
    split; [done|]. set_solver. }
  assert (Hmem : forall a, a ∈ (l ++ [ref]) ++ ordinary (new ++ w) <->
            a ∈ l ++ ordinary (ref :: w) \/ (a ∈ new /\ a <> symbol_table)).
  { intros a. rewrite !elem_of_app, !elem_ordinary, elem_of_app, !elem_of_cons, elem_of_nil.
    destruct (decide (a = ref)) as [->|]; tauto. }
  constructor.
  - eapply moved_trans; [done|by apply touched_moved|]. intros a Ha. rewrite tables_app. set_solver.
  - pose proof (tr_nodup _ _ _ _ _ T) as Hn. unfold ordinary in Hn. rewrite filter_cons_True in Hn by done.
    rewrite ordinary_app, <- app_assoc. change (NoDup (l ++ ref :: ordinary w)) in Hn.
    rewrite (Permutation_app_comm (ordinary new)). cbn.
    change (ref :: ordinary w ++ ordinary new) with ((ref :: ordinary w) ++ ordinary new).
    rewrite app_assoc. apply NoDup_app. split; [done|]. split; [|by apply NoDup_filter].
    intros a Ha [Has Han]%elem_ordinary. destruct (Hfresh a Han Has) as [_ Hnot]. apply Hnot.
    rewrite elem_of_app, elem_of_cons in *. rewrite elem_ordinary in Ha. tauto.
  - rewrite not_elem_of_app, list_elem_of_singleton. split; [apply T|done].
  - intros a [Ha|[Ha Has]]%Hmem; [by apply (tr_from _ _ _ _ _ T)|].
    destruct (Hfresh a Ha Has) as [Hf _]. split_and!; [by destruct Hf as (n & Hn & _); eexists|by right|].
    eapply rtc_r; [apply (tr_from _ _ _ _ _ T ref Href)|]. split; [by apply Hnew|done].
  - intros a Ha. assert (a ∈ l ++ ref :: w \/ a ∈ new) as [Hin|Hin] by set_solver.
    + by apply (tr_edge _ _ _ _ _ T).
    + right. exists ref. by apply Hnew.
  - intros a b Ha Hab Hf Hb. apply elem_of_app in Ha as [Ha| ->%list_elem_of_singleton].
    + pose proof (tr_closed _ _ _ _ _ T a b Ha Hab Hf Hb). set_solver.
    + destruct (decide (b ∈ l ++ ref :: w)) as [Hin|Hout]; [set_solver|].
      assert (b ∈ new); [|set_solver]. apply Hnew. split; [done|]. apply (moved_fresh _ _ _ _ _ Hm Hb).
      split; [done|]. rewrite elem_of_app, elem_tables. intros [?|(o & _ & Ho)]; [done|]. by eapply wf_private.
  - pose proof (tr_globals _ _ _ _ _ T) as Hg.
    assert (Hcol : symbol_table ∉ new -> color <$> hc' !! symbol_table = color <$> hc !! symbol_table).
    { intros Hn. rewrite Hh, bool_decide_eq_false_2; [by destruct (hc !! symbol_table)|].
      rewrite elem_of_app, elem_tables. intros [?|(o & _ & Ho)]; [done|]. by eapply wf_globals. }
    destruct (at_globals p) as [| |c].
    1,2: destruct Hg as [Hg1 Hg2], Hglob as [Hf _]; assert (Hn : symbol_table ∉ new);
      [intros (_ & n & Hn & Hfr)%Hnew; rewrite Hn in Hg2; destruct (h !! symbol_table) as [m|] eqn:Em; [|done];
       apply Hf; exists m; injection Hg2 as <-; done
      |split; [set_solver|by rewrite Hcol]].
    destruct (decide (symbol_table ∈ new)); [left; set_solver|].
    specialize (Hcol ltac:(done)).
    destruct Hg as [[?|?]%elem_of_cons|[Hg|[Hrs Hg]]]; [congruence|left; set_solver|right; left|right; right].
    + intros m' Hm'. rewrite Hm' in Hcol.
      destruct (hc !! symbol_table) as [m|] eqn:Em; [|done]. injection Hcol as ->. by apply Hg.
    + by rewrite Hcol.
  - intros Hrs. pose proof (tr_root _ _ _ _ _ T Hrs). set_solver.
Qed.

(** The symbol table itself refers to nothing. *)
Lemma tracing_globals hc l w : tracing h r hc l (symbol_table :: w) ->
  exists hc', traverse p hc w symbol_table = Some (hc', w, None) /\ tracing h r hc' l w.
Proof.
  intros T. pose proof (tr_moved _ _ _ _ _ T) as Hm. pose proof (tr_globals _ _ _ _ _ T) as Hg.
  destruct (at_globals p) as [| |c] eqn:Ep; [by destruct Hg as [[] _]; left..|].
  assert (Hsome : is_Some (hc !! symbol_table)).
  { apply (moved_lookup _ _ _ _ _ Hm).
    destruct (tr_edge _ _ _ _ _ T symbol_table) as [->|[b Hb]]; [set_solver|done|].
    apply (vals_is_Some h _ Hv). by apply (wf_refs _ _ _ wf b). }
  destruct Hsome as [n Hn].
  destruct (traverse_globals hc w c n) as (hc' & E & Hh); [by eapply moved_values|done|done|].
  exists hc'. split; [done|].
  assert (Hord : ordinary (symbol_table :: w) = ordinary w) by (unfold ordinary; by rewrite filter_cons_False by tauto).
  pose proof (tr_nodup _ _ _ _ _ T) as Hnd. rewrite Hord in Hnd.
  assert (Hm' : moved h hc' l ((l ++ w) ++ tables l)).
  { destruct Hm as [H1 H2]. split.
    - intros a Ha. rewrite Hh, decide_False, option_fmap_id, H1 by congruence. destruct (h !! a); [|done]. cbn.
      do 2 f_equal. f_equal. apply bool_decide_ext. rewrite !elem_of_app, elem_of_cons. tauto.
    - rewrite Hh, decide_True, <- H2 by done. by destruct (hc !! symbol_table). }
  constructor; try done; try apply T.
  - intros a Ha. apply (tr_from _ _ _ _ _ T). by rewrite Hord.
  - intros a Ha. apply (tr_edge _ _ _ _ _ T). set_solver.
  - intros a b Ha Hab Hf Hb. pose proof (tr_closed _ _ _ _ _ T a b Ha Hab Hf Hb). set_solver.
  - rewrite Ep. right; left. intros m. rewrite Hh, decide_True, Hn by done. by intros [= <-].
  - intros Hrs. pose proof (tr_root _ _ _ _ _ T Hrs). set_solver.
Qed.

Lemma tracing_size hc l w : tracing h r hc l w -> (length (l ++ ordinary w) <= size h)%nat.
Proof.
  intros T. rewrite <- (size_list_to_set (C := gset Z)) by apply T. rewrite <- size_dom.
  apply subseteq_size. intros a Ha%elem_of_list_to_set. apply elem_of_dom. by apply (tr_from _ _ _ _ _ T).
Qed.

Lemma occurrences_nodup a l : NoDup l -> (occurrences a l <= 1)%nat.
Proof.
  induction 1 as [|b l Hb Hl IH]; [cbn; lia|]. rewrite occurrences_cons.
  destruct (decide (a = b)) as [->|]; [|lia]. rewrite (occurrences_0 b) by done. lia.
Qed.

(** Rounds left: two for every value not visited, since it can bring up the symbol table again. *)
Definition rounds l w : nat := 2 * (size h - length l) + occurrences symbol_table w.

Lemma trace_loop_S fuel hc ref w (hc' : heap) (st : list Z) next : traverse p hc w ref = Some (hc', st, next) ->
  trace_loop symbol_table vars (S fuel) p hc ref w =
  match pending next st with ref :: w' => trace_loop symbol_table vars fuel p hc' ref w' | [] => Some hc' end.
Proof. intros E. cbn [trace_loop]. rewrite E. by destruct next, st. Qed.

Lemma trace_loop_tracing fuel : forall hc l w ref, tracing h r hc l (ref :: w) -> (rounds l (ref :: w) <= fuel)%nat ->
  exists hc' l', trace_loop symbol_table vars fuel p hc ref w = Some hc' /\ tracing h r hc' l' [].
Proof.
  induction fuel as [|fuel IH]; intros hc l w ref T Hf; pose proof (tracing_size _ _ _ T) as Hsz; unfold rounds in Hf;
    rewrite length_app in Hsz; rewrite occurrences_cons in Hf.
  { destruct (decide (symbol_table = ref)); [lia|]. unfold ordinary in Hsz.
    rewrite filter_cons_True in Hsz by congruence. cbn in Hsz. lia. }
  assert (Hgo : forall hc' l' w', tracing h r hc' l' w' -> (rounds l' w' <= fuel)%nat ->
            exists hc2 l2, (match w' with ref :: w' => trace_loop symbol_table vars fuel p hc' ref w' | [] => Some hc' end)
              = Some hc2 /\ tracing h r hc2 l2 []).
  { intros hc' l' [|ref' w'] T' Hf'; [by exists hc', l'|by eapply IH]. }
  destruct (decide (symbol_table = ref)) as [<-|Hs].
  - destruct (tracing_globals hc l w T) as (hc' & E & T'). rewrite (trace_loop_S _ _ _ _ _ _ _ E).
    apply (Hgo _ _ _ T'). unfold rounds. lia.
  - destruct (tracing_step hc l w ref T) as (hc' & st' & next & new & E & Ep & Hnd & T'); [congruence|].
    rewrite (trace_loop_S _ _ _ _ _ _ _ E), Ep. apply (Hgo _ _ _ T'). unfold rounds.
    rewrite length_app, occurrences_app. pose proof (occurrences_nodup symbol_table new Hnd).
    unfold ordinary in Hsz. rewrite filter_cons_True in Hsz by congruence. cbn in *. lia.
Qed.

(** What a traversal from [r] does, after [r] was given the colour of the pass. *)
Record traced (h' : heap) l : Prop := {
  td_moved : moved h h' l (l ++ tables l);
  td_nodup : NoDup l;
  td_ordinary : symbol_table ∉ l;
  td_root : r <> symbol_table -> r ∈ l;
  td_from : forall a, a ∈ l -> is_Some (h !! a) /\ (a = r \/ fresh p h a) /\ rtc (fresh_edge h) r a;
  td_closed : forall a b, a ∈ l -> edge a b -> fresh p h b -> b <> symbol_table -> b ∈ l;
  td_globals : match at_globals p with
               | Paint c => globals_color h' c \/
                   (r <> symbol_table /\ color <$> h' !! symbol_table = color <$> h !! symbol_table)
               | _ => color <$> h' !! symbol_table = color <$> h !! symbol_table
               end }.

Lemma tracing_traced hc l : tracing h r hc l [] -> traced hc l.
Proof.
  intros T. destruct T as [Hm Hnd Ho Hf He Hc Hg Hrt]. rewrite ?app_nil_r in *. constructor; try done.
  destruct (at_globals p); [by destruct Hg..|]. by destruct Hg as [[]%not_elem_of_nil|].
Qed.

Lemma tracing_start h1 : set_node h r (GC_REF_SET_COLOR (paint p)) = Some h1 ->
  tracing h r h1 [] [r].
Proof.
  intros E. destruct Hdom as [n Hn].
  destruct (set_node_lookup h r (GC_REF_SET_COLOR (paint p)) n Hn) as (h1' & E' & Hh).
  rewrite E in E'. injection E' as <-.
  assert (Hord : forall a, a ∈ ordinary [r] -> a = r).
  { intros a [_ ->%list_elem_of_singleton]%elem_ordinary. done. }
  constructor; cbn [app].
  - split.
    + intros a Ha. rewrite Hh. cbn. destruct (decide (r = a)) as [<-|Hra].
      * rewrite bool_decide_eq_true_2 by set_solver. by rewrite Hn.
      * rewrite bool_decide_eq_false_2 by set_solver. by destruct (h !! a).
    + rewrite Hh. cbn. destruct (decide _); by destruct (h !! symbol_table).
  - apply NoDup_filter, NoDup_singleton.
  - apply not_elem_of_nil.
  - intros a ->%Hord. split_and!; [by eexists|by left|done].
  - intros a ->%list_elem_of_singleton. by left.
  - by intros a b []%not_elem_of_nil.
  - destruct (at_globals p) as [| |c].
    1,2: destruct Hglob as [_ Hrs]; split; [set_solver|by rewrite Hh, decide_False, option_fmap_id by done].
    destruct (decide (r = symbol_table)) as [->|Hrs]; [left; set_solver|].
    right; right. split; [done|]. by rewrite Hh, decide_False, option_fmap_id by done.
  - set_solver.
Qed.

Lemma trace_loop_ok h1 : set_node h r (GC_REF_SET_COLOR (paint p)) = Some h1 ->
  exists h' l, trace_loop symbol_table vars (trace_fuel h1) p h1 r [] = Some h' /\ traced h' l.
Proof.
  intros E. pose proof (tracing_start h1 E) as T.
  destruct (trace_loop_tracing (trace_fuel h1) h1 [] [] r T) as (h' & l & E' & T').
  { assert (size h1 = size h) as Hsz.
    { rewrite <- (map_size_fmap value h1), <- (map_size_fmap value h), Hv. f_equal.
      by apply (moved_values h h1 _ _ Hv (tr_moved _ _ _ _ _ T)). }
    pose proof (occurrences_nodup symbol_table [r] (NoDup_singleton r)). unfold rounds, trace_fuel. cbn [length]. lia. }
  exists h', l. split; [done|by apply tracing_traced].
Qed.
End Loop.
End Step.

(** ** Addresses

    No traversal changes which slot of the root buffer a value has. *)
Definition same_addresses (h h' : heap) : Prop := address <$> h' = address <$> h.

#[export] Instance same_addresses_preorder : PreOrder same_addresses.
Proof. split; [done|]. intros h1 h2 h3 H1 H2. unfold same_addresses in *. congruence. Qed.

Lemma insert_address (h : heap) a n m : h !! a = Some n -> address m = address n -> same_addresses h (<[a := m]> h).
Proof.
  intros Hn E. unfold same_addresses. rewrite fmap_insert, E. apply insert_id. by rewrite lookup_fmap, Hn.
Qed.

Lemma set_node_address h a f h' : (forall n, address (f n) = address n) -> set_node h a f = Some h' -> same_addresses h h'.
Proof.
  intros Hf E. unfold set_node in E. destruct (h !! a) as [n|] eqn:Hn; [|done]. injection E as <-.
  by apply (insert_address h a n).
Qed.

Lemma visit_address p h a r : visit p h a = Some r -> same_addresses h r.1.
Proof.
  unfold visit. destruct (h !! a) as [n|] eqn:Hn; [|done]. cbn.
  destruct (is_fresh _ _); intros [= <-]; by apply (insert_address h a n).
Qed.

Lemma visit_push_address p refs : forall h st r, visit_push p h st refs = Some r -> same_addresses h r.1.
Proof.
  induction refs as [|a refs IH]; intros h st r; cbn; [by intros [= <-]|].
  destruct (visit p h a) as [[h1 f]|] eqn:E; [|done]. intros H%IH. etrans; [|exact H].
  apply (visit_address _ _ _ _ E).
Qed.

Lemma visit_tail_address p refs h st r : visit_tail p h st refs = Some r -> same_addresses h r.1.1.
Proof.
  intros E. destruct (decide (refs = [])) as [->|Hne]; [by injection E as <-|].
  pose proof (visit_tail_push p refs h st Hne) as Hp. rewrite E in Hp. destruct r as [[h' st'] next].
  apply (visit_push_address _ _ _ _ _ Hp).
Qed.

Lemma traverse_address g vars p h st ref r : traverse g vars p h st ref = Some r -> same_addresses h r.1.1.
Proof.
  unfold traverse. destruct (h !! ref) as [n|]; [|done]. cbn.
  destruct (value n) as [obj|els|v|].
  - destruct (IS_OBJ_FREE_CALLED obj); [by intros [= <-]|].
    destruct (gc_table obj) as [t|]; [|apply visit_tail_address].
    destruct (h !! t) as [m|]; [|done]. cbn. destruct (skip_table _ _); [apply visit_tail_address|].
    destruct (set_node _ _ _) as [h1|] eqn:E1; [|done]. cbn.
    destruct (visit_push _ _ _ _) as [[h2 st2]|] eqn:E2; [|done]. cbn.
    destruct (h2 !! t) as [m2|]; [|done]. cbn. destruct (value m2) as [|els| |]; [done| |done..].
    intros E3. apply set_node_address in E1; [|done]. apply visit_push_address in E2. apply visit_tail_address in E3.
    etrans; [exact E1|]. etrans; [exact E2|exact E3].
  - destruct (ref =? g); [|apply visit_tail_address].
    destruct (at_globals p); [apply visit_tail_address|by intros [= <-]|].
    destruct (set_node _ _ _) as [h1|] eqn:E1; [|done]. cbn. intros [= <-]. by eapply set_node_address; [|exact E1].
  - apply visit_tail_address.
  - by intros [= <-].
Qed.

Lemma trace_loop_address g vars p fuel : forall h ref st h', trace_loop g vars fuel p h ref st = Some h' ->
  same_addresses h h'.
Proof.
  induction fuel as [|fuel IH]; intros h ref st h'; [done|]. cbn.
  destruct (traverse _ _ _ _ _ _) as [[[h1 st1] next]|] eqn:E; [|done]. apply traverse_address in E. cbn.
  destruct (next_ref next st1) as [[ref' st']|]; [intros H%IH; by etrans|by intros [= <-]].
Qed.

Lemma gc_mark_grey_address g vars h ref h' : gc_mark_grey g vars h ref = Some h' -> same_addresses h h'.
Proof. unfold gc_mark_grey. apply trace_loop_address. Qed.

Lemma gc_scan_black_address g vars h ref h' : gc_scan_black g vars h ref = Some h' -> same_addresses h h'.
Proof. unfold gc_scan_black. apply trace_loop_address. Qed.
