(* ===== verification/ZendGcScan.v ===== *)
(** * Marking and scanning

    [gc_mark_roots] makes grey what the possible roots reach and takes off every reference these values
    hold; [gc_scan_roots] then turns black what is held from outside and white what is not.  The result
    is [scan_complete]: black is what a value with a reference left over leads to, white is the rest. *)
From S2P Require Import Prelude ZendGc ZendGcTrace.

Section Scan.
Context (symbol_table : Z) (vars : gmap Z zval) (vals : gmap Z gc_value).
Context (wf : well_formed symbol_table vars vals).
Local Abbreviation refs := (refs symbol_table vars vals).
Local Abbreviation edge := (edge symbol_table vars vals).
Local Abbreviation own_table := (own_table vals).
Local Abbreviation tables := (tables vals).
Local Abbreviation nrefs := (nrefs symbol_table vars vals).
Local Abbreviation moved := (moved symbol_table vars vals).
Local Abbreviation traced := (traced symbol_table vars vals).
Implicit Types (h : heap) (l w rs : list Z).

(** ** Marking *)

(** Before a collection every value is black, or purple and one of the possible roots; no root is the
    property table of an object. *)
Record start h rs : Prop := {
  st_values : value <$> h = vals;
  st_roots : forall r, r ∈ rs -> exists n, h !! r = Some n /\ color n = GC_PURPLE;
  st_no_table : forall r b, r ∈ rs -> own_table b <> Some r;
  st_colors : forall a n, h !! a = Some n -> color n = GC_BLACK \/ (color n = GC_PURPLE /\ a ∈ rs) }.

Definition mark_root h (r : Z) : option heap :=
  n ← h !! r;
  if is_color GC_PURPLE (color n) then
    h ← set_node h r (GC_REF_SET_COLOR GC_GREY); gc_mark_grey symbol_table vars h r
  else Some h.

Fixpoint mark_list h rs : option heap :=
  match rs with [] => Some h | r :: rs => h ← mark_root h r; mark_list h rs end.

(** The roots [done] were marked, which reached [l]. *)
Record marked h0 (done : list Z) h l : Prop := {
  mk_moved : moved mark_grey h0 h l (l ++ tables l);
  mk_nodup : NoDup l;
  mk_ordinary : symbol_table ∉ l;
  mk_dom : forall a, a ∈ l -> is_Some (h0 !! a);
  mk_from : forall a, a ∈ l -> exists r, r ∈ done /\ rtc edge r a;
  mk_edge : forall a, a ∈ l -> a ∈ done \/ exists b, edge b a;
  mk_closed : forall a b, a ∈ l -> edge a b -> b <> symbol_table -> b ∈ l;
  mk_roots : forall r, r ∈ done -> r <> symbol_table -> r ∈ l;
  mk_globals : globals_color symbol_table h GC_BLACK \/
               (symbol_table ∉ done /\ color <$> h !! symbol_table = color <$> h0 !! symbol_table) }.

Lemma marked_start h rs : start h rs -> marked h [] h [].
Proof.
  intros S. constructor; try (intros ? []%not_elem_of_nil).
  - apply touched_moved. intros a. cbn. destruct (h !! a) as [n|]; [cbn; by rewrite touch_0|done].
  - apply NoDup_nil_2.
  - apply not_elem_of_nil.
  - by intros a b []%not_elem_of_nil.
  - right. split; [apply not_elem_of_nil|done].
Qed.

Lemma is_color_iff c c' : is_color c c' = true <-> c' = c.
Proof. apply bool_decide_eq_true. Qed.

(** A table of [l] is no value of [l], for it is neither a root nor referred to. *)
Lemma marked_no_table h0 rs done h l t : start h0 rs -> (forall r, r ∈ done -> r ∈ rs) -> marked h0 done h l ->
  t ∈ tables l -> t ∉ l.
Proof.
  intros S Hd M Ht Hl. apply elem_tables in Ht as (o & _ & Ho).
  destruct (mk_edge _ _ _ _ M t Hl) as [Hr|[b Hb]]; [by eapply st_no_table; eauto|by eapply wf_private].
Qed.

Lemma marked_color h0 done h l a n : marked h0 done h l -> a <> symbol_table -> h !! a = Some n ->
  exists m, h0 !! a = Some m /\ color n = if bool_decide (a ∈ l ++ tables l) then GC_GREY else color m.
Proof. intros M. apply (moved_color _ _ _ _ _ _ _ _ _ _ (mk_moved _ _ _ _ M)). Qed.

Lemma marked_start_color h0 rs done h l a n : start h0 rs -> marked h0 done h l -> a <> symbol_table ->
  h !! a = Some n -> color n = GC_GREY <-> a ∈ l ++ tables l.
Proof.
  intros S M Ha Hn. destruct (marked_color _ _ _ _ _ _ M Ha Hn) as (m & Hm & ->).
  case_bool_decide as Hin; [done|]. split; [|done]. destruct (st_colors _ _ S a m Hm) as [->|[-> _]]; done.
Qed.

Lemma trace_edges p h a b : rtc (fresh_edge symbol_table vars vals p h) a b -> rtc edge a b.
Proof. induction 1 as [|x y z [H _] _ IH]; [done|]. by eapply rtc_l. Qed.

(** One traversal from a purple root. *)
Lemma mark_grey_ok h0 rs done h l r n : start h0 rs -> r ∈ rs -> (forall a, a ∈ done -> a ∈ rs) ->
  marked h0 done h l -> h !! r = Some n -> color n = GC_PURPLE ->
  exists h' l', mark_root h r = Some h' /\ traced mark_grey h r h' l' /\ l ## l'.
Proof.
  intros S Hr Hd M Hn Hc. pose proof (mk_moved _ _ _ _ M) as Hm.
  pose proof (moved_values _ _ _ wf _ _ _ _ _ (st_values _ _ S) Hm) as Hv.
  destruct (set_node_lookup h r (GC_REF_SET_COLOR GC_GREY) n Hn) as (h1 & E & _).
  destruct (trace_loop_ok symbol_table vars vals wf mark_grey eq_refl h r Hv) with (h1 := h1) as (h' & l' & E' & T).
  - by eexists.
  - intros a t m Ha Ht Hmt. cbn. apply bool_decide_eq_false_2. intros Hg.
    assert (Hts : t <> symbol_table) by (intros ->; by eapply wf_globals).
    apply (marked_start_color _ _ _ _ _ _ _ S M Hts Hmt) in Hg. apply elem_of_app in Hg as [Hl|(o & Ho & Hot)%elem_tables].
    + destruct (mk_edge _ _ _ _ M t Hl) as [Hin|[b Hb]]; [by apply (st_no_table _ _ S t a (Hd t Hin))|by eapply wf_private].
    + assert (o = a) as -> by (by eapply wf_unique).
      assert (Has : a <> symbol_table) by (intros ->; by apply (mk_ordinary _ _ _ _ M)).
      assert (Hgrey : forall k, h !! a = Some k -> color k = GC_GREY).
      { intros k Hk. apply (marked_start_color _ _ _ _ _ _ _ S M Has Hk). set_solver. }
      destruct Ha as [->|(k & Hk & Hf)]; [by rewrite (Hgrey n) in Hc|]. by rewrite (Hgrey k Hk) in Hf.
  - intros b. by apply (st_no_table _ _ S r b).
  - done.
  - exact E.
  - exists h', l'. split_and!; [|done|].
    + unfold mark_root. rewrite Hn. cbn. rewrite Hc. cbn. rewrite E. cbn. exact E'.
    + intros a Ha Ha'. assert (Has : a <> symbol_table) by (intros ->; by apply (mk_ordinary _ _ _ _ M)).
      destruct (td_from _ _ _ _ _ _ _ _ T a Ha') as ([k Hk] & Hf & _).
      assert (Hg : color k = GC_GREY) by (apply (marked_start_color _ _ _ _ _ _ _ S M Has Hk); set_solver).
      destruct Hf as [->|(k' & Hk' & Hf)]; [congruence|]. rewrite Hk in Hk'. injection Hk' as <-. by rewrite Hg in Hf.
Qed.

Lemma marked_more h0 rs done h l r h' l' : start h0 rs -> r ∈ rs -> (forall a, a ∈ done -> a ∈ rs) ->
  marked h0 done h l -> traced mark_grey h r h' l' -> l ## l' -> marked h0 (done ++ [r]) h' (l ++ l').
Proof.
  intros S Hr Hd M T Hdis. constructor.
  - eapply moved_trans; [apply M|apply T|]. intros a _. rewrite tables_app. set_solver.
  - apply NoDup_app. split_and!; [apply M|set_solver|apply T].
  - rewrite not_elem_of_app. split; [apply M|apply T].
  - intros a [Ha|Ha]%elem_of_app; [by apply M|].
    destruct (td_from _ _ _ _ _ _ _ _ T a Ha) as (Hs & _). by apply (moved_lookup _ _ _ _ _ _ _ _ _ (mk_moved _ _ _ _ M)).
  - intros a [Ha|Ha]%elem_of_app; [destruct (mk_from _ _ _ _ M a Ha) as (x & Hx & ?); exists x; set_solver|].
    exists r. split; [set_solver|]. eapply trace_edges. by apply T.
  - intros a [Ha|Ha]%elem_of_app; [destruct (mk_edge _ _ _ _ M a Ha); set_solver|].
    destruct (td_from _ _ _ _ _ _ _ _ T a Ha) as (_ & _ & Hp). apply trace_edges, rtc_inv_r in Hp as [<-|(b & _ & Hb)].
    + left. set_solver.
    + right. by exists b.
  - intros a b [Ha|Ha]%elem_of_app Hab Hb; apply elem_of_app; [left; by eapply (mk_closed _ _ _ _ M)|].
    destruct (decide (b ∈ l)) as [|Hl]; [by left|right]. eapply (td_closed _ _ _ _ _ _ _ _ T); try done.
    assert (is_Some (h !! b)) as [k Hk].
    { apply (moved_lookup _ _ _ _ _ _ _ _ _ (mk_moved _ _ _ _ M)), (vals_is_Some _ _ _ wf _ _ (st_values _ _ S)), (wf_refs _ _ _ wf a b Hab). }
    exists k. split; [done|]. cbn. apply negb_true_iff, bool_decide_eq_false_2.
    rewrite (marked_start_color _ _ _ _ _ _ _ S M Hb Hk), elem_of_app, elem_tables.
    intros [?|(o & _ & Ho)]; [done|by eapply wf_private].
  - intros x [Hx|Hx]%elem_of_app Hs; apply elem_of_app; [left; by apply M|right].
    apply list_elem_of_singleton in Hx as ->. by apply T.
  - destruct (td_globals _ _ _ _ _ _ _ _ T) as [Hg|[Hrs Hg]]; [by left|].
    destruct (mk_globals _ _ _ _ M) as [Hg0|[Hs0 Hg0]].
    + left. intros k Hk. rewrite Hk in Hg. destruct (h !! symbol_table) as [m|] eqn:Em; [|done].
      injection Hg as ->. by apply Hg0.
    + right. split; [|congruence]. rewrite not_elem_of_app, list_elem_of_singleton. naive_solver.
Qed.

Lemma mark_root_ok h0 rs done h l r : start h0 rs -> r ∈ rs -> (forall a, a ∈ done -> a ∈ rs) ->
  marked h0 done h l -> exists h' l', mark_root h r = Some h' /\ marked h0 (done ++ [r]) h' l'.
Proof.
  intros S Hr Hd M. pose proof (mk_moved _ _ _ _ M) as Hm.
  destruct (st_roots _ _ S r Hr) as (m & Hm0 & Hmc).
  destruct (proj2 (moved_lookup _ _ _ _ _ _ _ _ r Hm)) as [n Hn]; [by eexists|].
  destruct (decide (color n = GC_PURPLE)) as [Hc|Hc].
  { destruct (mark_grey_ok _ _ _ _ _ _ _ S Hr Hd M Hn Hc) as (h' & l' & E & T & Hdis).
    exists h', (l ++ l'). split; [done|by eapply marked_more]. }
  exists h, l. split.
  { unfold mark_root. rewrite Hn. cbn. unfold is_color. by rewrite bool_decide_eq_false_2. }
  assert (Hrl : r <> symbol_table -> r ∈ l).
  { intros Hrs. destruct (marked_color _ _ _ _ _ _ M Hrs Hn) as (m' & Hm' & Hcol).
    case_bool_decide as Hin; [|congruence].
    apply elem_of_app in Hin as [|(o & _ & Ho)%elem_tables]; [done|by eapply st_no_table in Ho]. }
  destruct M as [M1 M2 M3 M4 M5 M6 M7 M8 M9]. constructor; try done.
  - intros a Ha. destruct (M5 a Ha) as (x & Hx & ?). exists x. set_solver.
  - intros a Ha. destruct (M6 a Ha); set_solver.
  - intros x [Hx|Hx%list_elem_of_singleton]%elem_of_app Hs; [by apply M8|]. subst. by apply Hrl.
  - destruct M9 as [?|[Hs Hg]]; [by left|right]. split; [|done]. rewrite not_elem_of_app, list_elem_of_singleton.
    split; [done|]. intros <-. rewrite Hn, Hm0 in Hg. cbn in Hg. congruence.
Qed.

Lemma mark_list_ok h0 rs : start h0 rs -> exists h l, mark_list h0 rs = Some h /\ marked h0 rs h l.
Proof.
  intros S.
  assert (Hgo : forall todo done h l, rs = done ++ todo -> marked h0 done h l ->
            exists h' l', mark_list h todo = Some h' /\ marked h0 rs h' l').
  { induction todo as [|r todo IH]; intros done h l Hrs M.
    - rewrite app_nil_r in Hrs. subst. by exists h, l.
    - destruct (mark_root_ok h0 rs done h l r) as (h' & l' & E & M'); try done; [set_solver..|].
      cbn. rewrite E. cbn. eapply IH; [|exact M']. by rewrite <- app_assoc. }
  apply (Hgo rs [] h0 [] eq_refl). by eapply marked_start.
Qed.

(** ** Scanning *)

(** What marking leaves: grey are the values of [l] and their tables, everything else is black. *)
Record greyed h l : Prop := {
  gr_values : value <$> h = vals;
  gr_nodup : NoDup l;
  gr_ordinary : symbol_table ∉ l;
  gr_dom : forall a, a ∈ l -> is_Some (h !! a);
  gr_closed : forall a b, a ∈ l -> edge a b -> b <> symbol_table -> b ∈ l;
  gr_no_table : forall a b, a ∈ l -> own_table b <> Some a;
  gr_color : forall a n, h !! a = Some n ->
    color n = if bool_decide (a ∈ l ++ tables l) then GC_GREY else GC_BLACK }.

Lemma marked_greyed h0 rs h l : start h0 rs -> marked h0 rs h l -> greyed h l.
Proof.
  intros S M. constructor; try apply M.
  - by apply (moved_values _ _ _ wf _ _ _ _ _ (st_values _ _ S) (mk_moved _ _ _ _ M)).
  - intros a Ha. by apply (moved_lookup _ _ _ _ _ _ _ _ _ (mk_moved _ _ _ _ M)), (mk_dom _ _ _ _ M).
  - intros a b Ha Hb. destruct (mk_edge _ _ _ _ M a Ha) as [Hr|[c Hc]]; [by eapply st_no_table|by eapply wf_private].
  - intros a n Hn. destruct (decide (a = symbol_table)) as [->|Ha].
    + rewrite bool_decide_eq_false_2.
      2: { rewrite elem_of_app, elem_tables. intros [?|(o & _ & Ho)]; [by apply (mk_ordinary _ _ _ _ M)|by eapply wf_globals]. }
      destruct (mk_globals _ _ _ _ M) as [Hg|[Hs Hg]]; [by apply Hg|].
      rewrite Hn in Hg. destruct (h0 !! symbol_table) as [m|] eqn:Em; [|done]. injection Hg as ->.
      by destruct (st_colors _ _ S _ _ Em) as [|[_ ?]].
    + destruct (marked_color _ _ _ _ _ _ M Ha Hn) as (m & Hm & ->). case_bool_decide as Hin; [done|].
      destruct (st_colors _ _ S _ _ Hm) as [|[_ Hr]]; [done|]. destruct Hin. apply elem_of_app. left. by apply M.
Qed.

Definition col h (a : Z) : option gc_color := color <$> h !! a.

Lemma fresh_col p h a : fresh p h a <-> exists c, col h a = Some c /\ is_fresh p c = true.
Proof.
  unfold fresh, col. split.
  - intros (n & -> & Hf). by exists (color n).
  - intros (c & Hc & Hf). apply fmap_Some in Hc as (n & Hn & ->). by exists n.
Qed.

Lemma table_no_table a t : own_table a = Some t -> own_table t = None.
Proof.
  intros Ht. destruct (wf_table _ _ _ wf a t Ht) as [els Hels]. by rewrite (own_table_eq _ _ _ Hels).
Qed.

(** The values of [hm] that hold a count which no value of the marked part accounts for. *)
Definition held (hm : heap) (a : Z) : Prop := exists m, hm !! a = Some m /\ 0 < refcount m.

(** Between two rounds of [gc_scan] on the marked heap [hm], with the black values [bs] and the stack
    [w]: a white value that is not on the stack any more is done. *)
Record scanning (hm : heap) l h bs w : Prop := {
  sn_values : value <$> h = vals;
  sn_count : forall a n m, h !! a = Some n -> hm !! a = Some m ->
    refcount n = Nat.iter (nrefs bs a) GC_ADDREF (refcount m);
  sn_nodup : NoDup bs;
  sn_black : forall a, a ∈ l -> col h a = Some GC_BLACK <-> a ∈ bs;
  sn_sub : forall a, a ∈ bs -> a ∈ l;
  sn_purple : forall a, col h a <> Some GC_PURPLE;
  sn_closed : forall a b, a ∈ bs -> edge a b -> b <> symbol_table -> b ∈ bs;
  sn_held : forall b, b ∈ bs -> exists u, u ∈ l /\ held hm u /\ rtc edge u b;
  sn_white : forall a, a ∈ l -> col h a = Some GC_WHITE -> a ∉ w ->
    ~ held hm a /\ forall b, edge a b -> b <> symbol_table -> col h b <> Some GC_GREY;
  sn_stack : NoDup w /\ forall a, a ∈ w -> a ∈ l /\ col h a <> Some GC_GREY;
  sn_tables : forall a t c, a ∈ l -> own_table a = Some t -> col h a = Some c ->
    col h t = Some (match c with GC_WHITE => if decide (a ∈ w) then GC_GREY else GC_WHITE | _ => c end);
  sn_out : forall a c, a ∉ l ++ tables l -> col h a = Some c -> c = GC_BLACK }.

Section Rounds.
Context (hm : heap) (l : list Z) (G : greyed hm l).

Lemma scanning_start : scanning hm l hm [] [].
Proof.
  pose proof (gr_color _ _ G) as Hc.
  assert (Hcol : forall a c, col hm a = Some c -> c = if bool_decide (a ∈ l ++ tables l) then GC_GREY else GC_BLACK).
  { intros a c (n & Hn & ->)%fmap_Some. by apply Hc. }
  assert (Hgrey : forall a c, a ∈ l -> col hm a = Some c -> c = GC_GREY).
  { intros a c Ha ->%Hcol. by rewrite bool_decide_eq_true_2 by set_solver. }
  constructor; try apply G.
  - intros a n m Hn Hm. cbn. congruence.
  - apply NoDup_nil_2.
  - intros a Ha. split; [|by intros []%not_elem_of_nil]. intros Hb%Hgrey; done.
  - by intros a []%not_elem_of_nil.
  - intros a Ha%Hcol. by destruct (bool_decide _).
  - by intros a b []%not_elem_of_nil.
  - by intros b []%not_elem_of_nil.
  - intros a Ha Hw%Hgrey; done.
  - split; [apply NoDup_nil_2|]. by intros a []%not_elem_of_nil.
  - intros a t c Ha Ht Hca. rewrite (Hgrey a c Ha Hca). destruct (wf_table _ _ _ wf a t Ht) as [els Hels].
    rewrite <- (gr_values _ _ G), lookup_fmap in Hels. unfold col. destruct (hm !! t) as [n|] eqn:En; [|done].
    cbn. rewrite (Hc t n En), bool_decide_eq_true_2; [done|]. rewrite elem_of_app, elem_tables. right. by exists a.
  - intros a c Ha ->%Hcol. by rewrite bool_decide_eq_false_2.
Qed.

Lemma scanning_globals h bs w c : scanning hm l h bs w -> col h symbol_table = Some c -> c = GC_BLACK.
Proof.
  intros S Hc. apply (sn_out _ _ _ _ _ S symbol_table); [|done]. rewrite elem_of_app, elem_tables.
  intros [?|(o & _ & Ho)]; [by apply (gr_ordinary _ _ G)|by eapply wf_globals].
Qed.

Lemma scanning_dom h bs w a : scanning hm l h bs w -> is_Some (h !! a) <-> is_Some (hm !! a).
Proof.
  intros S. by rewrite (vals_is_Some _ _ _ wf _ _ (sn_values _ _ _ _ _ S)), (vals_is_Some _ _ _ wf _ _ (gr_values _ _ G)).
Qed.

(** Nothing black refers to a value that is not. *)
Lemma scanning_unheld h bs w a n m : scanning hm l h bs w -> a ∈ l -> a ∉ bs ->
  h !! a = Some n -> hm !! a = Some m -> refcount n = refcount m.
Proof.
  intros S Ha Hb Hn Hm. rewrite (sn_count _ _ _ _ _ S a n m Hn Hm).
  rewrite nrefs_0; [done|]. intros b Hbs Hba. apply Hb. eapply (sn_closed _ _ _ _ _ S); try done.
  intros ->. by apply (gr_ordinary _ _ G).
Qed.

(** A value that became black while it was on the stack. *)
Lemma scanning_skip h bs a w : scanning hm l h bs (a :: w) -> col h a = Some GC_BLACK -> scanning hm l h bs w.
Proof.
  intros S Ha. destruct S as [S1 S2 S3 S4 S5 S6 S7 S8 S9 [Snd Sw] S11 S12].
  apply NoDup_cons in Snd as [Haw Snd]. constructor; try done.
  - intros x Hx Hc Hxw. apply S9; try done. apply not_elem_of_cons. split; [congruence|done].
  - split; [done|]. intros x Hx. apply Sw. by right.
  - intros x t c Hx Ht Hc. rewrite (S11 x t c Hx Ht Hc). destruct c; try done.
    destruct (decide (x = a)) as [->|Hxa]; [congruence|].
    do 2 f_equal. destruct (decide (x ∈ w)), (decide (x ∈ a :: w)) as [Hin|]; try done; set_solver.
Qed.

(** ** A value that is held: everything it reaches becomes black *)
Lemma scan_black_traced h bs a w n : scanning hm l h bs (a :: w) -> h !! a = Some n -> color n = GC_WHITE ->
  exists h1 h' more, set_node h a (GC_REF_SET_COLOR GC_BLACK) = Some h1 /\
    gc_scan_black symbol_table vars h1 a = Some h' /\ traced scan_black h a h' more.
Proof.
  intros S Hn Hw. destruct (proj2 (sn_stack _ _ _ _ _ S) a) as [Hal _]; [by left|].
  assert (Has : a <> symbol_table) by (intros ->; by apply (gr_ordinary _ _ G)).
  destruct (set_node_lookup h a (GC_REF_SET_COLOR GC_BLACK) n Hn) as (h1 & E & _).
  assert (Hfs : ~ fresh scan_black h symbol_table).
  { rewrite fresh_col. intros (c & Hc & Hf). by rewrite (scanning_globals _ _ _ _ S Hc) in Hf. }
  destruct (trace_loop_ok symbol_table vars vals wf scan_black eq_refl h a) with (h1 := h1)
    as (h' & more & E' & T); [apply S|by eexists| | |by split|exact E|].
  - intros x t m Hx Ht Hm. cbn. apply bool_decide_eq_false_2. intros Hb.
    assert (Hc : exists c, col h x = Some c /\ c <> GC_BLACK).
    { destruct Hx as [->|Hx]; [exists GC_WHITE; split; [unfold col; rewrite Hn; cbn; by rewrite Hw|done]|].
      apply fresh_col in Hx as (c & Hc & Hf). exists c. split; [done|]. by intros ->. }
    destruct Hc as (c & Hc & Hcb).
    assert (Hxl : x ∈ l).
    { destruct (decide (x ∈ l)) as [|Hxl]; [done|]. destruct Hcb. apply (sn_out _ _ _ _ _ S x c); [|done].
      rewrite elem_of_app, elem_tables. intros [?|(o & _ & Ho)]; [done|].
      by rewrite (table_no_table o x Ho) in Ht. }
    pose proof (sn_tables _ _ _ _ _ S x t c Hxl Ht Hc) as Hcol. unfold col in Hcol. rewrite Hm in Hcol. cbn in Hcol.
    injection Hcol as Hcol. rewrite Hb in Hcol. destruct c; try done. by destruct (decide _).
  - intros b. by apply (gr_no_table _ _ G).
  - by exists h1, h', more.
Qed.

Lemma scan_black_reach h bs w a x : scanning hm l h bs w -> a ∈ l ->
  rtc (fresh_edge symbol_table vars vals scan_black h) a x -> x ∈ l.
Proof.
  intros S Ha Hp. revert x Hp. apply rtc_ind_r; [done|]. intros x y _ [He Hf] Hx.
  apply (gr_closed _ _ G x y Hx He). intros ->. apply fresh_col in Hf as (c & Hc & Hf).
  by rewrite (scanning_globals _ _ _ _ S Hc) in Hf.
Qed.

(** What the traversal visits, in terms of the invariant. *)
Lemma scan_black_sub h bs a w h' more x : scanning hm l h bs (a :: w) -> col h a = Some GC_WHITE ->
  traced scan_black h a h' more -> x ∈ more -> x ∈ l /\ x ∉ bs /\ rtc edge a x.
Proof.
  intros S Hw T Hx. destruct (proj2 (sn_stack _ _ _ _ _ S) a) as [Hal _]; [by left|].
  destruct (td_from _ _ _ _ _ _ _ _ T x Hx) as (_ & Hf & Hp).
  pose proof (scan_black_reach _ _ _ _ _ S Hal Hp) as Hxl. split_and!; [done| |by eapply trace_edges].
  intros Hb. apply (sn_black _ _ _ _ _ S x Hxl) in Hb.
  destruct Hf as [->|Hf]; [congruence|]. apply fresh_col in Hf as (c & Hc & Hf). rewrite Hb in Hc. by injection Hc as <-.
Qed.

Lemma scan_black_col h a h' more x : traced scan_black h a h' more -> x <> symbol_table ->
  col h' x = if bool_decide (x ∈ more ++ tables more) then (fun _ => GC_BLACK) <$> col h x else col h x.
Proof.
  intros T Hx. unfold col. destruct (h' !! x) as [n|] eqn:En.
  - destruct (moved_color _ _ _ _ _ _ _ _ _ _ (td_moved _ _ _ _ _ _ _ _ T) Hx En) as (m & -> & Hc).
    cbn. rewrite Hc. by case_bool_decide.
  - destruct (h !! x) as [m|] eqn:Em; [|by case_bool_decide].
    destruct (proj2 (moved_lookup _ _ _ _ _ _ _ _ x (td_moved _ _ _ _ _ _ _ _ T))) as [? ?]; [by eexists|congruence].
Qed.

Lemma scan_black_col_globals h a h' more : traced scan_black h a h' more ->
  col h' symbol_table = col h symbol_table.
Proof. intros T. apply (td_globals _ _ _ _ _ _ _ _ T). Qed.

(** The colours after the traversal: what it visited is black, and so are its tables. *)
Lemma scan_black_same h bs a w h' more x : scanning hm l h bs (a :: w) -> col h a = Some GC_WHITE ->
  traced scan_black h a h' more -> x ∉ more -> x ∉ tables more -> col h' x = col h x.
Proof.
  intros S Hw T Hx Ht. destruct (decide (x = symbol_table)) as [->|Hs]; [by eapply scan_black_col_globals|].
  rewrite (scan_black_col _ _ _ _ _ T Hs), bool_decide_eq_false_2; [done|]. set_solver.
Qed.

Lemma scan_black_painted h bs a w h' more x c : scanning hm l h bs (a :: w) -> col h a = Some GC_WHITE ->
  traced scan_black h a h' more -> x ∈ more ++ tables more -> col h x = Some c -> col h' x = Some GC_BLACK.
Proof.
  intros S Hw T Hx Hc. destruct (decide (x = symbol_table)) as [->|Hs].
  - apply elem_of_app in Hx as [Hx|(o & _ & Ho)%elem_tables]; [by apply (td_ordinary _ _ _ _ _ _ _ _ T) in Hx|].
    by eapply wf_globals in Ho.
  - by rewrite (scan_black_col _ _ _ _ _ T Hs), bool_decide_eq_true_2, Hc.
Qed.

Lemma scan_black_not h bs a w h' more x c : scanning hm l h bs (a :: w) -> col h a = Some GC_WHITE ->
  traced scan_black h a h' more -> col h' x = Some c -> c <> GC_BLACK ->
  x ∉ more /\ x ∉ tables more /\ col h x = Some c.
Proof.
  intros S Hw T Hc Hcb. destruct (decide (x ∈ more ++ tables more)) as [Hin|Hout].
  - destruct (col h x) as [c0|] eqn:E0.
    + rewrite (scan_black_painted _ _ _ _ _ _ _ _ S Hw T Hin E0) in Hc. congruence.
    + unfold col in *. destruct (h !! x) eqn:Eh; [done|].
      destruct (h' !! x) eqn:Eh'; [|done].
      destruct (proj1 (moved_lookup _ _ _ _ _ _ _ _ x (td_moved _ _ _ _ _ _ _ _ T))) as [? ?]; [by eexists|congruence].
  - apply not_elem_of_app in Hout as [H1 H2]. split_and!; try done. by rewrite <- (scan_black_same _ _ _ _ _ _ _ S Hw T).
Qed.

Lemma scanning_black h bs a w h' more n : scanning hm l h bs (a :: w) -> h !! a = Some n ->
  color n = GC_WHITE -> 0 < refcount n -> traced scan_black h a h' more -> scanning hm l h' (bs ++ more) w.
Proof.
  intros S Hn Hw Hrc T. assert (Hcw : col h a = Some GC_WHITE) by (unfold col; rewrite Hn; cbn; by rewrite Hw).
  destruct (proj2 (sn_stack _ _ _ _ _ S) a) as [Hal _]; [by left|].
  assert (Hls : forall x, x ∈ l -> x <> symbol_table) by (intros x Hx ->; by apply (gr_ordinary _ _ G)).
  assert (Ham : a ∈ more) by (apply T, Hls, Hal).
  assert (Hsub : forall x, x ∈ more -> x ∈ l /\ x ∉ bs /\ rtc edge a x) by (intros x; by eapply scan_black_sub).
  assert (Hcol : forall x, x ∈ l -> exists c, col h x = Some c).
  { intros x Hx. destruct (proj2 (scanning_dom _ _ _ x S) (gr_dom _ _ G x Hx)) as [k Hk].
    exists (color k). unfold col. by rewrite Hk. }
  assert (Hnt : forall x, x ∈ l -> x ∉ tables more).
  { intros x Hx (o & _ & Ho)%elem_tables. by apply (gr_no_table _ _ G x o Hx). }
  constructor.
  - by apply (moved_values _ _ _ wf _ _ _ _ _ (sn_values _ _ _ _ _ S) (td_moved _ _ _ _ _ _ _ _ T)).
  - intros x k m Hk Hm. destruct (proj2 (scanning_dom _ _ _ x S)) as [k0 Hk0]; [by eexists|].
    rewrite (moved_count _ _ _ _ _ _ _ _ _ _ _ (td_moved _ _ _ _ _ _ _ _ T) Hk Hk0), (sn_count _ _ _ _ _ S x k0 m Hk0 Hm).
    by rewrite nrefs_app, Nat.add_comm, Nat.iter_add.
  - apply NoDup_app. split_and!; [apply S| |apply T]. intros x Hx Hx'. by apply (Hsub x Hx').
  - intros x Hx. rewrite elem_of_app, <- (sn_black _ _ _ _ _ S x Hx). destruct (decide (x ∈ more)) as [Hm|Hm].
    + destruct (Hcol x Hx) as [c Hc]. split; [by right|]. intros _.
      eapply scan_black_painted; try done. set_solver.
    + rewrite (scan_black_same _ _ _ _ _ _ x S Hcw T Hm (Hnt x Hx)). tauto.
  - intros x [Hx|Hx]%elem_of_app; [by apply S|by apply Hsub].
  - intros x Hp. destruct (scan_black_not _ _ _ _ _ _ _ _ S Hcw T Hp) as (_ & _ & Hp'); [done|]. by apply (sn_purple _ _ _ _ _ S x).
  - intros x y [Hx|Hx]%elem_of_app He Hy; apply elem_of_app; [left; by eapply (sn_closed _ _ _ _ _ S)|].
    assert (Hyl : y ∈ l) by (apply (gr_closed _ _ G x y); [by apply Hsub|done|done]).
    destruct (decide (y ∈ bs)) as [|Hyb]; [by left|right]. eapply (td_closed _ _ _ _ _ _ _ _ T); try done.
    destruct (Hcol y Hyl) as [c Hc]. apply fresh_col. exists c. split; [done|]. cbn.
    apply negb_true_iff, bool_decide_eq_false_2. intros ->. by apply Hyb, (sn_black _ _ _ _ _ S).
  - intros x [Hx|Hx]%elem_of_app; [by apply S|]. exists a. split_and!; [done| |by apply Hsub].
    destruct (proj1 (scanning_dom _ _ _ a S)) as [m Hm]; [by eexists|]. exists m. split; [done|].
    rewrite <- (scanning_unheld _ _ _ a n m S Hal); try done. by apply (Hsub a Ham).
  - intros x Hx Hc Hxw. destruct (scan_black_not _ _ _ _ _ _ _ _ S Hcw T Hc) as (Hxm & _ & Hc'); [done|].
    destruct (sn_white _ _ _ _ _ S x Hx Hc') as [Hh Hch].
    { apply not_elem_of_cons. split; [by intros ->|done]. }
    split; [done|]. intros y He Hy Hg. destruct (scan_black_not _ _ _ _ _ _ _ _ S Hcw T Hg) as (_ & _ & Hg'); [done|]. by apply (Hch y He Hy).
  - destruct (sn_stack _ _ _ _ _ S) as [[_ Hnd]%NoDup_cons Hst]. split; [done|]. intros x Hx.
    destruct (Hst x) as [Hxl Hxg]; [by right|]. split; [done|]. intros Hg.
    by destruct (scan_black_not _ _ _ _ _ _ _ _ S Hcw T Hg) as (_ & _ & Hg').
  - intros x t c Hx Ht Hc. assert (Htl : t ∉ more) by (intros Htm; by eapply (gr_no_table _ _ G t x), Ht; apply Hsub).
    destruct (Hcol x Hx) as [c0 Hc0]. pose proof (sn_tables _ _ _ _ _ S x t c0 Hx Ht Hc0) as Htc.
    destruct (decide (x ∈ more)) as [Hm|Hm].
    + assert (c = GC_BLACK) as ->.
      { rewrite (scan_black_painted _ _ _ _ _ _ x c0 S Hcw T) in Hc; [by injection Hc|set_solver|done]. }
      eapply scan_black_painted; try done. rewrite elem_of_app, elem_tables. right. by exists x.
    + rewrite (scan_black_same _ _ _ _ _ _ x S Hcw T Hm (Hnt x Hx)) in Hc. rewrite Hc in Hc0. injection Hc0 as <-.
      rewrite (scan_black_same _ _ _ _ _ _ t S Hcw T Htl), Htc.
      * destruct c; try done. do 2 f_equal. assert (x <> a) by (by intros ->).
        destruct (decide (x ∈ a :: w)), (decide (x ∈ w)); try done; set_solver.
      * intros (o & Ho & Hot)%elem_tables. by rewrite (wf_unique _ _ _ wf x o t Ht Hot) in Hm.
  - intros x c Hx Hc. apply not_elem_of_app in Hx as [Hx1 Hx2]. apply (sn_out _ _ _ _ _ S x c).
    + by apply not_elem_of_app.
    + rewrite <- (scan_black_same _ _ _ _ _ _ x S Hcw T); [done| |].
      * intros Hm. by apply Hx1, Hsub.
      * intros (o & Ho & Hot)%elem_tables. apply Hx2, elem_tables. exists o. split; [by apply Hsub|done].
Qed.

(** ** A value that is not held: what it refers to becomes white *)
Lemma scan_white_step h bs a w n : scanning hm l h bs (a :: w) -> h !! a = Some n -> color n = GC_WHITE ->
  exists h' st' next new, traverse symbol_table vars scan_white h w a = Some (h', st', next) /\
    pending next st' = new ++ w /\ NoDup new /\
    (forall x, x ∈ new <-> edge a x /\ col h x = Some GC_GREY) /\
    (forall x m, h !! x = Some m -> exists m', h' !! x = Some m' /\ refcount m' = refcount m /\ value m' = value m) /\
    (forall x, col h' x = if bool_decide (x ∈ new ++ tables [a]) then (fun _ => GC_WHITE) <$> col h x else col h x).
Proof.
  intros S Hn Hw. destruct (proj2 (sn_stack _ _ _ _ _ S) a) as [Hal _]; [by left|].
  assert (Has : a <> symbol_table) by (intros ->; by apply (gr_ordinary _ _ G)).
  destruct (traverse_ok symbol_table vars vals wf scan_white eq_refl h w a) as (h' & st' & next & new & E & Ep & Hnd & Hnew & Hh).
  - apply S.
  - by eexists.
  - done.
  - intros t m Ht Hm. pose proof (sn_tables _ _ _ _ _ S a t GC_WHITE Hal Ht) as Hc.
    unfold col in Hc. rewrite Hn, Hm in Hc. cbn in Hc. rewrite Hw, decide_True in Hc by by left.
    injection (Hc eq_refl) as ->. done.
  - exists h', st', next, new. split_and!; try done.
    + intros x. rewrite Hnew, fresh_col. unfold scan_white. cbn. split.
      * intros [He (c & Hc & ->%is_color_iff)]. done.
      * intros [He Hc]. split; [done|]. by exists GC_GREY.
    + intros x m Hm. rewrite Hh, Hm. eexists. split; [done|]. cbn. split; [|done].
      generalize (length (filter (eq x) (refs a ++ []))). intros k. induction k as [|k IH]; [done|exact IH].
    + intros x. unfold col. rewrite Hh. destruct (h !! x); cbn; by case_bool_decide.
Qed.

Lemma scanning_white h bs a w n h' new : scanning hm l h bs (a :: w) -> h !! a = Some n ->
  color n = GC_WHITE -> ~ 0 < refcount n -> NoDup new ->
  (forall x, x ∈ new <-> edge a x /\ col h x = Some GC_GREY) ->
  (forall x m, h !! x = Some m -> exists m', h' !! x = Some m' /\ refcount m' = refcount m /\ value m' = value m) ->
  (forall x, col h' x = if bool_decide (x ∈ new ++ tables [a]) then (fun _ => GC_WHITE) <$> col h x else col h x) ->
  scanning hm l h' bs (new ++ w).
Proof.
  intros S Hn Hw Hrc Hnd Hnew Hh Hc. assert (Hcw : col h a = Some GC_WHITE) by (unfold col; rewrite Hn; cbn; by rewrite Hw).
  destruct (sn_stack _ _ _ _ _ S) as [[Haw Hndw]%NoDup_cons Hst]. destruct (Hst a) as [Hal _]; [by left|].
  assert (Hdom : forall x, is_Some (h' !! x) <-> is_Some (h !! x)).
  { intros x. specialize (Hc x). unfold col in Hc. destruct (h' !! x), (h !! x); case_bool_decide; split;
      intros [? ?]; try done; by eexists. }
  assert (Hta : forall t, t ∈ tables [a] <-> own_table a = Some t).
  { intros t. rewrite elem_tables. split; [by intros (o & ->%list_elem_of_singleton & ?)|].
    intros Ht. exists a. split; [by left|done]. }
  assert (Hnl : forall x, x ∈ new -> x ∈ l).
  { intros x [He Hg]%Hnew. apply (gr_closed _ _ G a x Hal He). intros ->.
    discriminate (scanning_globals _ _ _ _ S Hg). }
  assert (Hnt : forall x, x ∈ l -> x ∉ tables [a]) by (intros x Hx Ht%Hta; by eapply (gr_no_table _ _ G)).
  assert (Hpaint : forall x c, x ∈ new ++ tables [a] -> col h' x = Some c -> c = GC_WHITE).
  { intros x c Hx. rewrite Hc, bool_decide_eq_true_2 by done. destruct (col h x); [|done]. by intros [= <-]. }
  assert (Hkeep : forall x, x ∉ new -> x ∉ tables [a] -> col h' x = col h x).
  { intros x H1 H2. rewrite Hc, bool_decide_eq_false_2; [done|]. by apply not_elem_of_app. }
  assert (Hnw : forall x c, col h' x = Some c -> c <> GC_WHITE -> col h x = Some c /\ x ∉ new /\ x ∉ tables [a]).
  { intros x c Hx Hcn. destruct (decide (x ∈ new ++ tables [a])) as [Hin|Hout]; [by destruct (Hcn (Hpaint _ _ Hin Hx))|].
    apply not_elem_of_app in Hout as [H1 H2]. split_and!; try done. by rewrite <- Hkeep. }
  assert (Hb : forall x, x ∈ l -> col h' x = Some GC_BLACK <-> col h x = Some GC_BLACK).
  { intros x Hx. split; [by intros [? _]%Hnw|]. intros Hxb. rewrite Hkeep; [done| |by apply Hnt].
    intros [_ Hg]%Hnew. congruence. }
  constructor; try apply S.
  - rewrite <- (sn_values _ _ _ _ _ S). apply map_eq. intros x. rewrite !lookup_fmap.
    destruct (h !! x) as [m|] eqn:Em; [destruct (Hh x m Em) as (m' & -> & _ & Ev); cbn; by rewrite Ev|].
    destruct (h' !! x) eqn:Em'; [|done]. destruct (proj1 (Hdom x)); [by eexists|congruence].
  - intros x k m Hk Hm. destruct (proj1 (Hdom x)) as [k0 Hk0]; [by eexists|].
    destruct (Hh x k0 Hk0) as (m' & Hm' & Er & _). assert (k = m') as -> by congruence. rewrite Er.
    by apply (sn_count _ _ _ _ _ S x).
  - intros x Hx. rewrite Hb by done. by apply S.
  - intros x [Hp _]%Hnw; [by apply (sn_purple _ _ _ _ _ S x)|done].
  - intros x Hx Hxw [Hxn Hxw']%not_elem_of_app. destruct (decide (x = a)) as [->|Hxa].
    + split.
      * intros (m & Hm & Hpos). apply Hrc. rewrite (scanning_unheld _ _ _ a n m S Hal); try done.
        intros Hab. apply (sn_black _ _ _ _ _ S a Hal) in Hab. congruence.
      * intros y He Hy Hg. destruct (Hnw y _ Hg) as (Hyg & Hyn & _); [done|]. by apply Hyn, Hnew.
    + rewrite Hkeep in Hxw; [|done|by apply Hnt].
      destruct (sn_white _ _ _ _ _ S x Hx Hxw) as [Hu Hch]; [by apply not_elem_of_cons|]. split; [done|].
      intros y He Hy [Hg _]%Hnw; [by apply (Hch y He Hy)|done].
  - split.
    + apply NoDup_app. split_and!; [done| |done]. intros x [_ Hg]%Hnew Hx. by destruct (Hst x) as [_ []]; [right|].
    + intros x [Hx|Hx]%elem_of_app.
      * split; [by apply Hnl|]. intros [_ [Hxn _]]%Hnw; done.
      * destruct (Hst x) as [Hxl Hxg]; [by right|]. split; [done|]. by intros [? _]%Hnw.
  - intros x t c Hx Ht Hcx.
    assert (Htn : t ∉ new) by (intros Htn; by apply (gr_no_table _ _ G t x), Ht; apply Hnl).
    destruct (decide (x = a)) as [->|Hxa].
    + rewrite Hkeep in Hcx; [|intros [_ Hg]%Hnew; congruence|by apply Hnt]. rewrite Hcw in Hcx. injection Hcx as <-.
      rewrite decide_False.
      2: { apply not_elem_of_app. split; [intros [_ Hg]%Hnew; congruence|done]. }
      rewrite Hc, bool_decide_eq_true_2 by (apply elem_of_app; right; by apply Hta).
      by rewrite (sn_tables _ _ _ _ _ S a t GC_WHITE Hal Ht Hcw).
    + rewrite (Hkeep t Htn) by (intros Hta'%Hta; by apply Hxa, (wf_unique _ _ _ wf x a t)).
      destruct (decide (x ∈ new)) as [Hxn|Hxn].
      * rewrite (Hpaint x c) by (set_solver || done). rewrite decide_True by set_solver.
        apply Hnew in Hxn as [_ Hg]. by rewrite (sn_tables _ _ _ _ _ S x t GC_GREY Hx Ht Hg).
      * rewrite Hkeep in Hcx; [|done|by apply Hnt]. rewrite (sn_tables _ _ _ _ _ S x t c Hx Ht Hcx).
        destruct c; try done. do 2 f_equal. apply decide_ext. rewrite elem_of_app, elem_of_cons. tauto.
  - intros x c Hx Hcx. apply not_elem_of_app in Hx as [Hx1 Hx2]. apply (sn_out _ _ _ _ _ S x c).
    + by apply not_elem_of_app.
    + rewrite <- Hkeep; [done|intros Hn'; by apply Hx1, Hnl|].
      intros Ht%Hta. apply Hx2, elem_tables. by exists a.
Qed.

(** ** The loop *)
Local Abbreviation scan_loop := (scan_loop symbol_table vars).
Local Abbreviation gc_scan := (gc_scan symbol_table vars).

Definition greys h : list Z := filter (fun x => col h x = Some GC_GREY) l.

Lemma elem_greys h x : x ∈ greys h <-> col h x = Some GC_GREY /\ x ∈ l.
Proof. unfold greys. by rewrite list_elem_of_filter. Qed.

Lemma greys_less h (h' : heap) new : NoDup new -> (forall x, x ∈ new -> x ∈ greys h /\ x ∉ greys h') ->
  (forall x, x ∈ greys h' -> x ∈ greys h) -> (length (greys h') + length new <= length (greys h))%nat.
Proof.
  intros Hnd Hnew Hsub. rewrite <- length_app. apply submseteq_length, NoDup_submseteq.
  - apply NoDup_app. split_and!; [apply NoDup_filter, G| |done]. intros x Hx Hn. by apply (Hnew x Hn).
  - intros x [Hx|Hx]%elem_of_app; [by apply Hsub|by apply Hnew].
Qed.

(** One round: the stack afterwards, and the values that are no longer grey. *)
Lemma scan_round h bs a w : scanning hm l h bs (a :: w) -> exists h' bs' new,
  (forall fuel, scan_loop (S fuel) h a w = match new ++ w with ref :: w => scan_loop fuel h' ref w | [] => Some h' end) /\
  scanning hm l h' bs' (new ++ w) /\ (length (greys h') + length new <= length (greys h))%nat /\
  (forall x, x ∈ l -> col h' x = Some GC_GREY -> col h x = Some GC_GREY).
Proof.
  intros S. destruct (proj2 (sn_stack _ _ _ _ _ S) a) as [Hal Hag]; [by left|].
  destruct (proj2 (scanning_dom _ _ _ a S) (gr_dom _ _ G a Hal)) as [n Hn].
  assert (Hca : col h a = Some (color n)) by (unfold col; by rewrite Hn).
  destruct (decide (color n = GC_WHITE)) as [Hw|Hw]; [rewrite Hw in Hca; destruct (decide (0 < refcount n)) as [Hrc|Hrc]|].
  - destruct (scan_black_traced _ _ _ _ _ S Hn Hw) as (h1 & h' & more & E1 & E2 & T).
    assert (Hg : forall x, col h' x = Some GC_GREY -> col h x = Some GC_GREY).
    { intros x Hx. by destruct (scan_black_not _ _ _ _ _ _ _ _ S Hca T Hx) as (_ & _ & ?). }
    exists h', (bs ++ more), []. split_and!; [|by eapply scanning_black| |by auto].
    + intros fuel. cbn -[gc_scan_black traverse]. rewrite Hn. cbn -[gc_scan_black traverse]. rewrite Hw. cbn -[gc_scan_black traverse]. rewrite (proj2 (Z.ltb_lt _ _) Hrc), E1. cbn -[gc_scan_black traverse].
      rewrite E2. by destruct w.
    + apply greys_less; [apply NoDup_nil_2|by intros x []%not_elem_of_nil|].
      intros x. rewrite !elem_greys. naive_solver.
  - destruct (scan_white_step _ _ _ _ _ S Hn Hw) as (h' & st' & next & new & E & Ep & Hnd & Hnew & Hh & Hc).
    pose proof (scanning_white _ _ _ _ _ _ _ S Hn Hw Hrc Hnd Hnew Hh Hc) as S'.
    assert (Hg : forall x, col h' x = Some GC_GREY -> col h x = Some GC_GREY).
    { intros x. rewrite Hc. case_bool_decide; [|done]. by destruct (col h x). }
    exists h', bs, new. split_and!; [|done| |by auto].
    + intros fuel. cbn -[gc_scan_black traverse]. rewrite Hn. cbn -[gc_scan_black traverse]. rewrite Hw. cbn -[gc_scan_black traverse]. rewrite (proj2 (Z.ltb_ge _ _)) by lia.
      rewrite E, <- Ep. by destruct next, st'.
    + apply greys_less; [done| |]; intros x; rewrite !elem_greys; [|naive_solver].
      intros Hx. destruct (proj2 (sn_stack _ _ _ _ _ S') x) as [Hxl Hxg]; [apply elem_of_app; by left|].
      apply Hnew in Hx as [_ Hx]. split; [done|]. by intros [? _].
  - assert (Hb : color n = GC_BLACK).
    { pose proof (sn_purple _ _ _ _ _ S a) as Hp. destruct (color n); try done; congruence. }
    rewrite Hb in Hca. exists h, bs, []. split_and!; [|by eapply scanning_skip|cbn; lia|done].
    intros fuel. cbn -[gc_scan_black traverse]. rewrite Hn. cbn -[gc_scan_black traverse]. rewrite Hb. cbn -[gc_scan_black traverse]. by destruct w.
Qed.

Lemma scan_loop_ok fuel : forall h bs a w, scanning hm l h bs (a :: w) ->
  (length (greys h) + length (a :: w) <= fuel)%nat ->
  exists h' bs', scan_loop fuel h a w = Some h' /\ scanning hm l h' bs' [] /\
    forall x, x ∈ l -> col h' x = Some GC_GREY -> col h x = Some GC_GREY.
Proof.
  induction fuel as [|fuel IH]; intros h bs a w S Hf; [cbn in Hf; lia|].
  destruct (scan_round _ _ _ _ S) as (h1 & bs1 & new & E & S1 & Hlen & Hg). rewrite E.
  pose proof (length_app new w) as Hw. cbn in Hf.
  destruct (new ++ w) as [|b w'] eqn:Ew; [by exists h1, bs1|].
  destruct (IH h1 bs1 b w' S1) as (h' & bs' & E' & S' & Hg'); [lia|].
  exists h', bs'. split_and!; try done. intros x Hx Hgr. by apply Hg, Hg'.
Qed.

(** ** The roots *)
Definition scan_root h (r : Z) : option heap :=
  n ← h !! r;
  if is_color GC_GREY (color n) then h ← set_node h r (GC_REF_SET_COLOR GC_WHITE); gc_scan h r else Some h.

Fixpoint scan_list h rs : option heap :=
  match rs with [] => Some h | r :: rs => h ← scan_root h r; scan_list h rs end.

Lemma scanning_push h bs r n h1 : scanning hm l h bs [] -> r ∈ l -> h !! r = Some n -> color n = GC_GREY ->
  set_node h r (GC_REF_SET_COLOR GC_WHITE) = Some h1 ->
  scanning hm l h1 bs [r] /\ (forall x, x <> r -> col h1 x = col h x) /\ col h1 r = Some GC_WHITE.
Proof.
  intros S Hr Hn Hg E. destruct (set_node_lookup h r (GC_REF_SET_COLOR GC_WHITE) n Hn) as (h1' & E' & Hh).
  rewrite E in E'. injection E' as <-.
  assert (Hcr : col h r = Some GC_GREY) by (unfold col; rewrite Hn; cbn; by rewrite Hg).
  assert (Hkeep : forall x, x <> r -> col h1 x = col h x).
  { intros x Hx. unfold col. by rewrite Hh, decide_False, option_fmap_id by congruence. }
  assert (Hcr1 : col h1 r = Some GC_WHITE) by (unfold col; by rewrite Hh, decide_True, Hn by done).
  split_and!; [|done|done].
  assert (Hiff : forall x c, c <> GC_WHITE -> col h1 x = Some c -> col h x = Some c /\ x <> r).
  { intros x c Hcw Hx. destruct (decide (x = r)) as [->|Hxr]; [congruence|]. by rewrite <- Hkeep. }
  constructor; try apply S.
  - rewrite <- (sn_values _ _ _ _ _ S). apply map_eq. intros x. rewrite !lookup_fmap, Hh.
    destruct (decide (r = x)), (h !! x); done.
  - intros x k m Hk Hm. rewrite Hh in Hk. apply fmap_Some in Hk as (k0 & Hk0 & ->).
    transitivity (refcount k0); [by destruct (decide (r = x))|]. by apply (sn_count _ _ _ _ _ S x).
  - intros x Hx. rewrite <- (sn_black _ _ _ _ _ S x Hx). destruct (decide (x = r)) as [->|Hxr]; [|by rewrite Hkeep].
    split; congruence.
  - intros x [Hp _]%Hiff; [by apply (sn_purple _ _ _ _ _ S x)|done].
  - intros x Hx Hc Hxr. rewrite list_elem_of_singleton in Hxr. rewrite Hkeep in Hc by done.
    destruct (sn_white _ _ _ _ _ S x Hx Hc) as [Hu Hch]; [apply not_elem_of_nil|]. split; [done|].
    intros y He Hy [Hgy _]%Hiff; [by apply (Hch y He Hy)|done].
  - split; [apply NoDup_singleton|]. intros x ->%list_elem_of_singleton. split; [done|]. congruence.
  - intros x t c Hx Ht Hc. assert (Htr : t <> r) by (intros ->; by apply (gr_no_table _ _ G r x)).
    rewrite Hkeep by done. destruct (decide (x = r)) as [->|Hxr].
    + rewrite Hcr1 in Hc. injection Hc as <-. rewrite (sn_tables _ _ _ _ _ S r t GC_GREY Hr Ht Hcr).
      by rewrite decide_True by by left.
    + rewrite Hkeep in Hc by done. rewrite (sn_tables _ _ _ _ _ S x t c Hx Ht Hc). destruct c; try done.
      by rewrite (decide_False (P := x ∈ [r])) by (by rewrite list_elem_of_singleton).
  - intros x c Hx Hc. destruct (decide (x = r)) as [->|Hxr]; [destruct Hx; apply elem_of_app; by left|].
    apply (sn_out _ _ _ _ _ S x c Hx). by rewrite <- Hkeep.
Qed.

Lemma scan_root_ok h bs r : scanning hm l h bs [] -> is_Some (hm !! r) -> (forall b, own_table b <> Some r) ->
  exists h' bs', scan_root h r = Some h' /\ scanning hm l h' bs' [] /\
    (forall x, x ∈ l -> col h' x = Some GC_GREY -> col h x = Some GC_GREY) /\ col h' r <> Some GC_GREY.
Proof.
  intros S Hdom Hnt. destruct (proj2 (scanning_dom _ _ _ r S) Hdom) as [n Hn].
  assert (Hcr : col h r = Some (color n)) by (unfold col; by rewrite Hn).
  unfold scan_root. rewrite Hn. cbn -[gc_scan]. destruct (decide (color n = GC_GREY)) as [Hg|Hg].
  - assert (Hr : r ∈ l).
    { destruct (decide (r ∈ l ++ tables l)) as [[?|(o & _ & Ho)%elem_tables]%elem_of_app|Hout]; [done|by eapply Hnt in Ho|].
      pose proof (sn_out _ _ _ _ _ S r _ Hout Hcr). congruence. }
    destruct (set_node_lookup h r (GC_REF_SET_COLOR GC_WHITE) n Hn) as (h1 & E & _).
    destruct (scanning_push _ _ _ _ _ S Hr Hn Hg E) as (S1 & Hk & Hw).
    destruct (scan_loop_ok (trace_fuel h1) _ _ _ _ S1) as (h' & bs' & E' & S' & Hgr).
    { pose proof (greys_less h1 h1 [] (NoDup_nil_2)) as Hlen. cbn. unfold trace_fuel.
      assert (length (greys h1) <= size h1)%nat; [|lia].
      rewrite <- (size_list_to_set (C := gset Z)) by (apply NoDup_filter, G). rewrite <- size_dom.
      apply subseteq_size. intros x Hx%elem_of_list_to_set%elem_greys. apply elem_of_dom.
      apply (scanning_dom _ _ _ x S1), (gr_dom _ _ G x), Hx. }
    exists h', bs'. rewrite (proj2 (is_color_iff _ _) Hg), E. split_and!; [exact E'|done| |].
    + intros x Hx Hx'. destruct (decide (x = r)) as [->|Hxr]; [congruence|]. rewrite <- Hk by done. by apply Hgr.
    + intros Hr'. apply Hgr in Hr'; [congruence|done].
  - exists h, bs. unfold is_color. rewrite bool_decide_eq_false_2 by done. split_and!; try done. congruence.
Qed.

Lemma scan_list_ok rs : forall h bs, scanning hm l h bs [] ->
  (forall r, r ∈ rs -> is_Some (hm !! r) /\ forall b, own_table b <> Some r) ->
  exists h' bs', scan_list h rs = Some h' /\ scanning hm l h' bs' [] /\
    (forall x, x ∈ l -> col h' x = Some GC_GREY -> col h x = Some GC_GREY) /\
    (forall r, r ∈ rs -> r ∈ l -> col h' r <> Some GC_GREY).
Proof.
  induction rs as [|r rs IH]; intros h bs S Hrs.
  { exists h, bs. split_and!; try done. by intros r []%not_elem_of_nil. }
  destruct (Hrs r) as [Hd Hn]; [by left|].
  destruct (scan_root_ok h bs r S Hd Hn) as (h1 & bs1 & E & S1 & Hg1 & Hr1). cbn. rewrite E. cbn.
  destruct (IH h1 bs1 S1) as (h' & bs' & E' & S' & Hg' & Hr'); [intros r' ?; apply Hrs; by right|].
  exists h', bs'. split_and!; try done; [by auto|].
  intros x [->|Hx]%elem_of_cons Hxl; [|by apply Hr']. intros Hx'. by apply Hr1, Hg'.
Qed.

(** After scanning from all roots, the values of [l] that some value with a count left over reaches are
    black, and the others white. *)
Record scanned h' bs : Prop := {
  sd_scanning : scanning hm l h' bs [];
  sd_white : forall x, x ∈ l -> x ∉ bs <-> col h' x = Some GC_WHITE;
  sd_held : forall x, x ∈ l -> x ∈ bs <-> exists u, u ∈ l /\ held hm u /\ rtc edge u x }.

Lemma edge_globals b : ~ edge symbol_table b.
Proof.
  unfold edge. destruct (vals !! symbol_table) as [v|] eqn:Ev; [|unfold ZendGcTrace.refs; by rewrite Ev; apply not_elem_of_nil].
  destruct (wf_globals_array _ _ _ wf v Ev) as [els ->]. rewrite (refs_globals _ _ _ els Ev). apply not_elem_of_nil.
Qed.

Lemma scan_complete rs h : (forall x, x ∈ l -> exists r, r ∈ rs /\ rtc edge r x) ->
  (forall r, r ∈ rs -> r <> symbol_table -> r ∈ l) ->
  scan_list hm rs = Some h -> (forall r, r ∈ rs -> is_Some (hm !! r) /\ forall b, own_table b <> Some r) ->
  exists bs, scanned h bs.
Proof.
  intros Hreach Hroots E Hrs.
  destruct (scan_list_ok rs hm [] scanning_start Hrs) as (h' & bs & E' & S & _ & Hr). rewrite E in E'. injection E' as <-.
  exists bs.
  assert (Hng : forall x, x ∈ l -> col h x <> Some GC_GREY).
  { intros x Hx. destruct (Hreach x Hx) as (r & Hrr & Hp).
    assert (Hgo : x = symbol_table \/ (x ∈ l /\ col h x <> Some GC_GREY)).
    { clear Hx. revert x Hp. apply rtc_ind_r.
      - destruct (decide (r = symbol_table)) as [|Hrs']; [by left|right]. pose proof (Hroots r Hrr Hrs'). by auto.
      - intros y x _ He [->|[Hy Hyg]]; [by apply edge_globals in He|].
        destruct (decide (x = symbol_table)) as [|Hxs]; [by left|right].
        assert (Hxl : x ∈ l) by (by apply (gr_closed _ _ G y)). split; [done|]. intros Hxg.
        destruct (proj2 (scanning_dom _ _ _ y S) (gr_dom _ _ G y Hy)) as [n Hn].
        assert (Hcy : col h y = Some (color n)) by (unfold col; by rewrite Hn).
        destruct (color n) eqn:Ec; [| |congruence|by apply (sn_purple _ _ _ _ _ S y)].
        + apply (sn_black _ _ _ _ _ S y Hy) in Hcy. pose proof (sn_closed _ _ _ _ _ S y x Hcy He Hxs) as Hb.
          apply (sn_black _ _ _ _ _ S x Hxl) in Hb. congruence.
        + by apply (proj2 (sn_white _ _ _ _ _ S y Hy Hcy (not_elem_of_nil y)) x He Hxs). }
    destruct Hgo as [->|[_ ?]]; [by destruct (gr_ordinary _ _ G)|done]. }
  assert (Hwhite : forall x, x ∈ l -> x ∉ bs <-> col h x = Some GC_WHITE).
  { intros x Hx. rewrite <- (sn_black _ _ _ _ _ S x Hx).
    destruct (proj2 (scanning_dom _ _ _ x S) (gr_dom _ _ G x Hx)) as [n Hn].
    assert (Hc : col h x = Some (color n)) by (unfold col; by rewrite Hn). rewrite Hc.
    pose proof (Hng x Hx) as H1. pose proof (sn_purple _ _ _ _ _ S x) as H2. rewrite Hc in *.
    destruct (color n); split; congruence. }
  constructor; try done. intros x Hx. split; [by apply S|]. intros (u & Hu & Hh & Hp).
  assert (Hub : u ∈ bs).
  { destruct (decide (u ∈ bs)) as [|Hn]; [done|]. apply Hwhite in Hn; [|done].
    by destruct (sn_white _ _ _ _ _ S u Hu Hn (not_elem_of_nil u)). }
  assert (Hgo : x = symbol_table \/ x ∈ bs); [|destruct Hgo as [->|]; [by destruct (gr_ordinary _ _ G)|done]].
  clear Hx. revert x Hp. apply rtc_ind_r; [by right|]. intros y x _ He [->|Hy]; [by apply edge_globals in He|].
  destruct (decide (x = symbol_table)); [by left|right]. by eapply (sn_closed _ _ _ _ _ S).
Qed.
End Rounds.
End Scan.
