(* ===== verification/ZendGcBuffer.v ===== *)
(** * The root buffer of the cycle collector

    The invariant [buffer_ok] ties the slots in use to the addresses in the headers, and the other slots
    to the linked list of unused ones.  Under it the buffer is a set of values: [gc_possible_root] adds
    one, [gc_remove_from_buffer] removes one, through the compressed address, and [gc_compact] changes
    nothing but moves the values into the first slots. *)
From S2P Require Import Prelude ZendGc ZendGcTrace.

(** ** Words *)

(** An address the allocator gives: aligned, and above any link of the list of unused slots. *)
Definition pointer (a : Z) : Prop := 2 ^ 32 <= a < 2 ^ 64 /\ a mod 8 = 0.

(** The indices a link can hold: [GC_LIST2IDX] keeps 32 bits of eight times the index. *)
Definition MAX_INDEX : Z := 2 ^ 29.

Lemma low_bits a k : a mod 8 = 0 -> 0 <= k < 8 -> Z.lor a k = a + k.
Proof. intros Ha Hk. by apply (lor_disjoint _ _ 3). Qed.

Lemma land_3 a k : a mod 8 = 0 -> 0 <= k < 4 -> Z.land (a + k) 3 = k.
Proof. intros Ha Hk. change 3 with (Z.ones 2). rewrite Z.land_ones by lia. Z.to_euclidean_division_equations; lia. Qed.

Lemma ldiff_3 a k : a mod 8 = 0 -> 0 <= k < 4 -> Z.ldiff (a + k) 3 = a.
Proof.
  intros Ha Hk. change 3 with (Z.ones 2). rewrite Z.ldiff_ones_r, Z.shiftr_div_pow2, Z.shiftl_mul_pow2 by lia.
  change (2 ^ 2) with 4. Z.to_euclidean_division_equations; lia.
Qed.

(** The tag of a slot that holds a value: [tag] is 0, 2 or 3. *)
Lemma tagged_ptr a tag : pointer a -> 0 <= tag < 4 -> GC_GET_PTR (a + tag) = a.
Proof. intros [_ Ha] Ht. by apply ldiff_3. Qed.

Lemma root_ptr a : pointer a -> GC_GET_PTR a = a /\ GC_IS_ROOT a = true /\ GC_IS_UNUSED a = false.
Proof.
  intros Ha. unfold GC_IS_ROOT, GC_IS_UNUSED, GC_BITS.
  pose proof (land_3 a 0 (proj2 Ha) ltac:(lia)) as E. rewrite Z.add_0_r in E. rewrite E.
  split; [|done]. rewrite <- (tagged_ptr a 0 Ha ltac:(lia)) at 2. by rewrite Z.add_0_r.
Qed.

Lemma garbage_word a : pointer a -> GC_MAKE_GARBAGE a = a + 2.
Proof. intros [_ Ha]. by apply low_bits. Qed.

Lemma idx2list_word i : 0 <= i -> GC_IDX2LIST i = i * 8 + 1.
Proof. intros Hi. apply low_bits; [|lia]. by rewrite Z.mod_mul. Qed.

Lemma list2idx i : 0 <= i < MAX_INDEX -> GC_LIST2IDX (GC_IDX2LIST i) = i.
Proof.
  unfold MAX_INDEX, GC_LIST2IDX, u32, uwrap. intros Hi. rewrite idx2list_word, Z.mod_small by lia.
  Z.to_euclidean_division_equations; lia.
Qed.

Lemma link_word i : 0 <= i -> GC_IS_UNUSED (GC_IDX2LIST i) = true /\ GC_GET_PTR (GC_IDX2LIST i) = i * 8.
Proof.
  intros Hi. unfold GC_IS_UNUSED, GC_GET_PTR, GC_BITS. rewrite idx2list_word by done.
  rewrite land_3, ldiff_3 by (rewrite ?Z.mod_mul; lia). done.
Qed.

(** ** Compressed indices *)
Lemma compress_range i : 0 < i -> 0 < gc_compress i < 2 ^ 20.
Proof.
  intros Hi. unfold gc_compress, GC_MAX_UNCOMPRESSED. destruct (Z.ltb_spec i (512 * 1024)); [lia|].
  assert (0 <= i mod (512 * 1024) < 2 ^ 19) by (apply Z.mod_pos_bound; lia).
  assert (0 <= Z.lor (i mod (512 * 1024)) (512 * 1024) < 2 ^ 20) by (apply lor_range; lia).
  split; [|lia]. assert (Z.lor (i mod (512 * 1024)) (512 * 1024) <> 0); [|lia].
  intros [_ ?]%Z.lor_eq_0_iff. lia.
Qed.

(** Decompression tries the indices [gc_compress i], [gc_compress i + 2^19], ... and so meets [i]. *)
Lemma compress_steps i : 0 < i -> exists k, 0 <= k /\ i = gc_compress i + k * GC_MAX_UNCOMPRESSED.
Proof.
  intros Hi. unfold gc_compress, GC_MAX_UNCOMPRESSED. destruct (Z.ltb_spec i (512 * 1024)); [exists 0; lia|].
  assert (E : Z.lor (i mod (512 * 1024)) (512 * 1024) = i mod (512 * 1024) + 512 * 1024).
  { symmetry. change (512 * 1024) with (2 ^ 19). rewrite Z.add_nocarry_lxor, Z.lxor_lor; try done.
    all: apply Z.bits_inj'; intros n Hn; rewrite Z.land_spec, Z.bits_0, Z.pow2_bits_eqb by lia;
      destruct (Z.eqb_spec 19 n) as [<-|]; [by rewrite Z.mod_pow2_bits_high by lia|by rewrite andb_false_r]. }
  rewrite E. exists (i / (512 * 1024) - 1). Z.to_euclidean_division_equations; lia.
Qed.

(** ** Slots *)

(** The list of unused slots from [head] on. *)
Fixpoint chain (g : zend_gc_globals) (head : Z) (us : list Z) : Prop :=
  match us with
  | [] => head = GC_INVALID
  | i :: us =>
      head = i /\ exists next, 0 <= next < MAX_INDEX /\ slot_at g i = Some (GC_IDX2LIST next) /\ chain g next us
  end.

(** The word of a slot in use. *)
Definition entry (w : Z) : Prop := pointer (GC_GET_PTR w) /\ GC_IS_UNUSED w = false.

(** [m] are the slots in use with their words, [us] the unused ones in the order of their list; the
    slots of [hole] are reserved. *)
Record slots_ok (g : zend_gc_globals) (m : gmap Z Z) (us hole : list Z) : Prop := {
  so_buf : exists cells, buf g = Some cells /\ Z.of_nat (length cells) = buf_size g;
  so_range : 1 <= first_unused g <= buf_size g /\ first_unused g <= MAX_INDEX /\ buf_size g <= GC_MAX_BUF_SIZE;
  so_threshold : gc_threshold g <= buf_size g;
  so_live : forall i w, m !! i = Some w -> 1 <= i < first_unused g /\ slot_at g i = Some w /\ entry w;
  so_inj : forall i j w w', m !! i = Some w -> m !! j = Some w' -> GC_GET_PTR w = GC_GET_PTR w' -> i = j;
  so_chain : chain g (unused g) us;
  so_nodup : NoDup us;
  so_unused : forall i, i ∈ us -> 1 <= i < first_unused g /\ m !! i = None /\ i ∉ hole;
  so_hole : forall i, i ∈ hole -> 1 <= i < first_unused g /\ m !! i = None;
  so_all : forall i, 1 <= i < first_unused g -> i ∈ us \/ i ∈ hole \/ is_Some (m !! i);
  so_count : num_roots g = Z.of_nat (size m) }.

Lemma chain_ext g g' us : forall head, (forall i, i ∈ us -> slot_at g' i = slot_at g i) ->
  chain g head us -> chain g' head us.
Proof.
  induction us as [|i us IH]; intros head He; [done|]. cbn. intros (-> & next & Hr & Hs & Hc).
  split; [done|]. exists next. split_and!; try lia.
  - rewrite He; [done|by left].
  - apply IH; [|done]. intros j Hj. apply He. by right.
Qed.

Lemma chain_head g head us : chain g head us -> (forall i, i ∈ us -> 1 <= i) -> head = GC_INVALID <-> us = [].
Proof.
  destruct us as [|i us]; cbn; [done|]. intros (-> & _) Hr. unfold GC_INVALID.
  split; [|done]. intros ->. specialize (Hr 0 (list_elem_of_here _ _)). lia.
Qed.

Lemma set_slot_ok g i w cells : buf g = Some cells -> 0 <= i < Z.of_nat (length cells) ->
  exists g', set_slot g i w = Some g' /\ g' = {| g with buf := buf g' |} /\
    (exists cells', buf g' = Some cells' /\ length cells' = length cells) /\
    (forall j, slot_at g' j = if decide (j = i) then Some w else slot_at g j).
Proof.
  intros Hb Hi. unfold set_slot, slot_at. rewrite Hb. cbn. unfold aset.
  rewrite (proj2 (in_range_iff _ _ _)) by lia. cbn.
  eexists. split; [done|]. split_and!; [done| |].
  - eexists. split; [done|]. apply length_insert.
  - intros j. cbn. unfold aget. destruct (Z.leb_spec 0 j); [|by rewrite decide_False by lia].
    destruct (decide (j = i)) as [->|Hj].
    + by rewrite list_lookup_insert_eq by lia.
    + by rewrite list_lookup_insert_ne by lia.
Qed.

Section Slots.
Implicit Types (g : zend_gc_globals) (m : gmap Z Z) (us hole : list Z).

Lemma slots_size g m us hole : slots_ok g m us hole -> Z.of_nat (size m) < first_unused g.
Proof.
  intros S. rewrite <- size_dom.
  assert (dom m ⊆ (list_to_set (seqZ 1 (first_unused g - 1)) : gset Z)) as Hs.
  { intros i [w Hw]%elem_of_dom. apply elem_of_list_to_set, elem_of_seqZ.
    destruct (so_live _ _ _ _ S i w Hw). lia. }
  apply subseteq_size in Hs. rewrite size_list_to_set, length_seqZ in Hs by apply NoDup_seqZ.
  pose proof (so_range _ _ _ _ S). lia.
Qed.

(** Slots below the end can be written. *)
Lemma slots_write g m us hole i w : slots_ok g m us hole -> 0 <= i < first_unused g ->
  exists g', set_slot g i w = Some g' /\ g' = {| g with buf := buf g' |} /\
    (exists cells', buf g' = Some cells' /\ Z.of_nat (length cells') = buf_size g) /\
    (forall j, slot_at g' j = if decide (j = i) then Some w else slot_at g j).
Proof.
  intros S Hi. destruct (so_buf _ _ _ _ S) as (cells & Hb & Hlen). pose proof (so_range _ _ _ _ S).
  destruct (set_slot_ok g i w cells Hb) as (g' & E & Eg & (cells' & Hb' & Hlen') & Hs); [lia|].
  exists g'. split_and!; try done. exists cells'. split; [done|lia].
Qed.

(** A reserved slot is filled. *)
Lemma slots_fill g m us i w : slots_ok g m us [i] -> entry w ->
  (forall j w', m !! j = Some w' -> GC_GET_PTR w' <> GC_GET_PTR w) ->
  exists g', set_slot g i w = Some g' /\ g' = {| g with buf := buf g' |} /\
    slots_ok {| g' with num_roots := u32 (num_roots g' + 1) |} (<[i := w]> m) us [].
Proof.
  intros S He Hnew. destruct (so_hole _ _ _ _ S i) as [Hi Hm]; [by left|].
  destruct (slots_write g m us [i] i w S) as (g' & E & Eg & Hb & Hs); [lia|].
  exists g'. split_and!; [done|done|]. pose proof (slots_size _ _ _ _ S) as Hsz.
  pose proof (so_range _ _ _ _ S) as (Hr1 & Hr2 & Hr3). rewrite Eg in *. clear Eg.
  assert (Hs' : forall j, j <> i -> slot_at {| g with buf := buf g' |} j = slot_at g j)
    by (intros j Hj; by rewrite Hs, decide_False).
  constructor; cbn in *.
  - done.
  - done.
  - apply S.
  - intros j w' Hj. destruct (decide (j = i)) as [->|Hji].
    + rewrite lookup_insert_eq in Hj. injection Hj as <-. split_and!; [lia..| |done].
      specialize (Hs i). by rewrite decide_True in Hs.
    + rewrite lookup_insert_ne in Hj by done. destruct (so_live _ _ _ _ S j w' Hj) as (H1 & H2 & H3).
      split_and!; try done; try lia. rewrite <- H2. by apply Hs'.
  - intros j k w1 w2 Hj Hk Hp. destruct (decide (j = i)) as [->|Hji], (decide (k = i)) as [->|Hki]; [done| | |];
      rewrite ?lookup_insert_eq, ?lookup_insert_ne in * by done.
    + injection Hj as <-. by destruct (Hnew k w2 Hk).
    + injection Hk as <-. by destruct (Hnew j w1 Hj).
    + by apply (so_inj _ _ _ _ S j k w1 w2).
  - eapply chain_ext; [|apply S]. intros j Hj. apply Hs'. intros ->.
    destruct (so_unused _ _ _ _ S i Hj) as (_ & _ & Hh). apply Hh. by left.
  - apply S.
  - intros j Hj. destruct (so_unused _ _ _ _ S j Hj) as (H1 & H2 & H3). split_and!; [lia..| |apply not_elem_of_nil].
    rewrite lookup_insert_ne; [done|]. intros ->. apply H3. by left.
  - by intros j []%not_elem_of_nil.
  - intros j Hj. destruct (so_all _ _ _ _ S j Hj) as [?|[->%list_elem_of_singleton|Hsome]]; [by left| |]; right; right.
    + by rewrite lookup_insert_eq.
    + by apply lookup_insert_is_Some'; right.
  - rewrite (so_count _ _ _ _ S), map_size_insert_None by done. unfold u32. rewrite uwrap_small by (unfold MAX_INDEX in *; lia).
    lia.
Qed.

(** The settings an operation on the slots leaves alone. *)
Definition settings g : bool * bool * Z * Z * Z := (gc_enabled g, gc_active g, gc_threshold g, gc_runs g, collected g).

Lemma slots_unused g m us : slots_ok g m us [] -> GC_HAS_UNUSED g = true <-> us <> [].
Proof.
  intros S. pose proof (chain_head g (unused g) us (so_chain _ _ _ _ S)) as Hc. unfold GC_HAS_UNUSED.
  destruct (Z.eqb_spec (unused g) GC_INVALID) as [E|E]; cbn; split; try done.
  - intros []. apply Hc; [|done]. intros i Hi. by apply (so_unused _ _ _ _ S i).
  - intros _ ->. apply E, Hc; [|done]. by intros i []%not_elem_of_nil.
Qed.

(** A slot is taken off the list of unused ones. *)
Lemma fetch_unused_ok g m i us : slots_ok g m (i :: us) [] ->
  exists g', gc_fetch_unused g = Some (i, g') /\ slots_ok g' m us [i] /\ settings g' = settings g /\
    first_unused g' = first_unused g.
Proof.
  intros S. destruct (so_chain _ _ _ _ S) as (Hu & next & Hn & Hs & Hc).
  unfold gc_fetch_unused. rewrite Hu, Hs. cbn. rewrite list2idx by done.
  eexists. split; [done|]. split; [|done]. pose proof (so_nodup _ _ _ _ S) as [Hiu Hnd]%NoDup_cons.
  constructor; cbn; try apply S; [by eapply chain_ext; [|exact Hc]|exact Hnd| | |].
  - intros j Hj. destruct (so_unused _ _ _ _ S j) as (H1 & H2 & _); [by right|]. split_and!; [lia..|done|].
    intros ->%list_elem_of_singleton. done.
  - intros j ->%list_elem_of_singleton. destruct (so_unused _ _ _ _ S i) as (H1 & H2 & _); [by left|]. done.
  - intros j Hj. destruct (so_all _ _ _ _ S j Hj) as [[->|?]%elem_of_cons|[[]%not_elem_of_nil|?]]; [right; left; by left|by left|by right; right].
Qed.

(** The first slot never used is taken. *)
Lemma fetch_next_ok g m us : slots_ok g m us [] -> first_unused g < buf_size g -> first_unused g < MAX_INDEX ->
  let i := first_unused g in let g' := snd (gc_fetch_next_unused g) in
  fst (gc_fetch_next_unused g) = i /\ slots_ok g' m us [i] /\ settings g' = settings g /\ first_unused g' = i + 1.
Proof.
  intros S Hb Hm. pose proof (so_range _ _ _ _ S) as (Hr1 & Hr2 & Hr3). cbn. unfold MAX_INDEX, GC_MAX_BUF_SIZE in *.
  assert (Hu : u32 (first_unused g + 1) = first_unused g + 1) by (apply uwrap_small; lia).
  rewrite Hu. split; [done|]. split; [|done].
  assert (Hfree : m !! first_unused g = None).
  { destruct (m !! first_unused g) as [w|] eqn:E; [|done]. destruct (so_live _ _ _ _ S _ w E). lia. }
  constructor; cbn; try apply S; try (unfold MAX_INDEX, GC_MAX_BUF_SIZE in *; lia).
  - intros i w Hi. destruct (so_live _ _ _ _ S i w Hi) as (H1 & H2 & H3). split_and!; try done; lia.
  - by eapply chain_ext; [|apply S].
  - intros i Hi. destruct (so_unused _ _ _ _ S i Hi) as (H1 & H2 & _). split_and!; try done; try lia.
    intros ->%list_elem_of_singleton. lia.
  - intros i ->%list_elem_of_singleton. split; [lia|done].
  - intros i Hi. destruct (decide (i = first_unused g)) as [->|]; [right; left; by left|].
    destruct (so_all _ _ _ _ S i) as [?|[[]%not_elem_of_nil|?]]; [lia|by left|by right; right].
Qed.

Lemma grow_ok g m us : slots_ok g m us [] -> buf_size g < GC_MAX_BUF_SIZE ->
  exists g', gc_grow_root_buffer g = Some g' /\ slots_ok g' m us [] /\ settings g' = settings g /\
    first_unused g' = first_unused g /\ buf_size g < buf_size g'.
Proof.
  intros S Hlt. unfold gc_grow_root_buffer. rewrite (proj2 (Z.leb_gt _ _)) by done. cbn [andb].
  destruct (so_buf _ _ _ _ S) as (cells & Hb & Hlen). rewrite Hb. cbn [mbind option_bind].
  pose proof (so_range _ _ _ _ S) as (Hr1 & Hr2 & Hr3).
  assert (Hsize : exists size, size = (let new_size := if buf_size g <? GC_BUF_GROW_STEP then buf_size g * 2
                    else buf_size g + GC_BUF_GROW_STEP in
      if GC_MAX_BUF_SIZE <? new_size then GC_MAX_BUF_SIZE else new_size) /\ buf_size g < size <= GC_MAX_BUF_SIZE).
  { eexists. split; [done|]. unfold GC_BUF_GROW_STEP, GC_MAX_BUF_SIZE in *. cbv zeta. repeat zcase; lia. }
  destruct Hsize as (size & Es & Hsize). cbv zeta in Es. rewrite <- Es. eexists. split; [done|].
  split; [|split; [done|split; [done|cbn; lia]]].
  assert (Hs : forall i, i < buf_size g -> slot_at {| g with buf := Some (resize (Z.to_nat size) None cells); buf_size := size |} i = slot_at g i).
  { intros i Hi. unfold slot_at. cbn. rewrite Hb. cbn. unfold aget. destruct (Z.leb_spec 0 i); [|done].
    rewrite lookup_resize by lia. done. }
  pose proof (so_threshold _ _ _ _ S). constructor; cbn; try apply S; try lia.
  - eexists. split; [done|]. rewrite length_resize. lia.
  - intros i w Hi. destruct (so_live _ _ _ _ S i w Hi) as (H1 & H2 & H3). split_and!; try done; try lia.
    rewrite <- H2. apply Hs. lia.
  - eapply chain_ext; [|apply S]. intros i Hi. destruct (so_unused _ _ _ _ S i Hi) as (H1 & _). apply Hs. lia.
Qed.

Lemma fetch_or_grow_ok g m us : slots_ok g m us [] -> first_unused g < MAX_INDEX ->
  exists i g' us', fetch_or_grow g = Some (Some i, g') /\ slots_ok g' m us' [i] /\ settings g' = settings g /\
    (us' = us /\ i = first_unused g /\ first_unused g' = i + 1 \/ us = i :: us' /\ first_unused g' = first_unused g).
Proof.
  intros S Hm. pose proof (slots_unused g m us S) as Hu. unfold fetch_or_grow.
  destruct us as [|i us].
  - destruct (GC_HAS_UNUSED g); [by destruct (proj1 Hu eq_refl)|].
    pose proof (so_range _ _ _ _ S) as (Hr1 & Hr2 & Hr3). unfold GC_HAS_NEXT_UNUSED.
    destruct (Z.eqb_spec (first_unused g) (buf_size g)) as [E|E]; cbn [negb].
    + destruct (grow_ok g m [] S) as (g1 & E1 & S1 & Hset & Hf & Hb); [unfold MAX_INDEX, GC_MAX_BUF_SIZE in *; lia|].
      rewrite E1. cbn [mbind option_bind]. rewrite (proj2 (Z.eqb_neq _ _)) by lia. cbn [negb].
      destruct (fetch_next_ok g1 m [] S1) as (F1 & F2 & F3 & F4); [lia..|]. destruct (gc_fetch_next_unused g1) as [i g'].
      cbn in F1, F2, F3, F4. subst i. exists (first_unused g1), g', []. split_and!; try done; [congruence|].
      left. split_and!; [done|congruence|done].
    + destruct (fetch_next_ok g m [] S) as (F1 & F2 & F3 & F4); [lia..|]. destruct (gc_fetch_next_unused g) as [i g'].
      cbn in F1, F2, F3, F4. subst i. exists (first_unused g), g', []. split_and!; try done. by left.
  - destruct (GC_HAS_UNUSED g); [|by discriminate (proj2 Hu)].
    destruct (fetch_unused_ok g m i us S) as (g' & E & S' & Hset & Hf). rewrite E. cbn.
    exists i, g', us. split_and!; try done. by right.
Qed.

(** A slot in use goes to the front of the list of unused ones. *)
Lemma remove_from_roots_ok g m us i w : slots_ok g m us [] -> m !! i = Some w ->
  exists g', gc_remove_from_roots g i = Some g' /\ slots_ok g' (delete i m) (i :: us) [] /\
    settings g' = settings g /\ first_unused g' = first_unused g.
Proof.
  intros S Hi. destruct (so_live _ _ _ _ S i w Hi) as (Hri & Hsi & _).
  pose proof (so_range _ _ _ _ S) as (Hr1 & Hr2 & Hr3). pose proof (slots_size _ _ _ _ S) as Hsz.
  destruct (slots_write g m us [] i (GC_IDX2LIST (unused g)) S) as (g1 & E & Eg & Hb & Hs); [lia|].
  unfold gc_remove_from_roots, gc_link_unused. rewrite E. cbn. eexists. split; [done|].
  rewrite Eg in *. clear E Eg.
  assert (Hs' : forall u n j, j <> i -> slot_at {| g with buf := buf g1; unused := u; num_roots := n |} j = slot_at g j).
  { intros u n j Hj. specialize (Hs j). rewrite decide_False in Hs by done. exact Hs. }
  assert (Hhead : 0 <= unused g < MAX_INDEX).
  { pose proof (so_chain _ _ _ _ S) as Hc. destruct us as [|j us]; cbn in Hc; [rewrite Hc; unfold GC_INVALID, MAX_INDEX; lia|].
    destruct Hc as (-> & _). destruct (so_unused _ _ _ _ S j) as (Hj & _); [by left|]. lia. }
  assert (Hiu : i ∉ us) by (intros Hu; destruct (so_unused _ _ _ _ S i Hu) as (_ & Hn & _); congruence).
  split; [|done]. constructor; cbn in *.
  - done.
  - done.
  - apply S.
  - intros j w' [Hji Hj]%lookup_delete_Some. destruct (so_live _ _ _ _ S j w' Hj) as (H1 & H2 & H3).
    split_and!; try done; try lia. rewrite <- H2. by apply Hs'.
  - intros j k w1 w2 [_ Hj]%lookup_delete_Some [_ Hk]%lookup_delete_Some. by apply (so_inj _ _ _ _ S).
  - split; [done|]. exists (unused g). split; [done|]. split.
    + specialize (Hs i). by rewrite decide_True in Hs.
    + apply (chain_ext g); [|apply S]. intros j Hj. apply (Hs' 0 0). by intros ->.
  - apply NoDup_cons. split; [done|apply S].
  - intros j [->|Hj]%elem_of_cons.
    + split_and!; [lia..|apply lookup_delete_eq|apply not_elem_of_nil].
    + destruct (so_unused _ _ _ _ S j Hj) as (H1 & H2 & _). split_and!; [lia..| |apply not_elem_of_nil].
      by apply lookup_delete_None; right.
  - by intros j []%not_elem_of_nil.
  - intros j Hj. destruct (decide (j = i)) as [->|Hji]; [left; by left|].
    destruct (so_all _ _ _ _ S j Hj) as [?|[[]%not_elem_of_nil|?]]; [left; by right|right; right].
    by rewrite lookup_delete_ne.
  - rewrite (so_count _ _ _ _ S), map_size_delete_Some by done. unfold MAX_INDEX in *.
    assert (0 < size m)%nat by (apply Nat.neq_0_lt_0; intros ->%map_size_empty_inv; done).
    unfold u32. rewrite uwrap_small by lia. lia.
Qed.
End Slots.

Lemma chain_slot g us : forall head i, chain g head us -> i ∈ us ->
  exists next, 0 <= next < MAX_INDEX /\ slot_at g i = Some (GC_IDX2LIST next).
Proof.
  induction us as [|j us IH]; intros head i; cbn; [by intros _ []%not_elem_of_nil|].
  intros (-> & next & Hn & Hs & Hc) [->|Hi]%elem_of_cons; [by exists next|by eapply IH].
Qed.

(** ** Slots and headers *)

(** The header of a value in the buffer has the compressed index of its slot, any other has none. *)
Record linked (h : heap) (m : gmap Z Z) : Prop := {
  lk_entry : forall i w, m !! i = Some w -> exists n, h !! GC_GET_PTR w = Some n /\ address n = gc_compress i;
  lk_rest : forall a n, h !! a = Some n -> address n <> 0 -> exists i w, m !! i = Some w /\ GC_GET_PTR w = a }.

Record buffer_ok (s : gc_state) (m : gmap Z Z) (us : list Z) : Prop := {
  bo_slots : slots_ok (gc s) m us [];
  bo_linked : linked (nodes s) m }.

Section Buffer.
Implicit Types (s : gc_state) (m : gmap Z Z) (us : list Z).

Lemma linked_new h m a n : linked h m -> h !! a = Some n -> address n = 0 ->
  forall i w, m !! i = Some w -> 0 < i -> GC_GET_PTR w <> a.
Proof.
  intros L Hn H0 i w Hi Hpos E. destruct (lk_entry _ _ L i w Hi) as (n' & Hn' & Ha).
  pose proof (compress_range i Hpos). rewrite E, Hn in Hn'. injection Hn' as <-. lia.
Qed.

Lemma occupy_ok s m us i ref w c n : slots_ok (gc s) m us [i] -> linked (nodes s) m -> entry w ->
  GC_GET_PTR w = ref -> nodes s !! ref = Some n -> address n = 0 ->
  exists s', occupy s i ref w c = Some s' /\ buffer_ok s' (<[i := w]> m) us /\
    nodes s' = <[ref := GC_REF_SET_INFO (gc_compress i) c n]> (nodes s) /\ slots s' = slots s /\
    settings (gc s') = settings (gc s) /\ first_unused (gc s') = first_unused (gc s).
Proof.
  intros S L He Hp Hn H0. destruct (so_hole _ _ _ _ S i) as [Hi Hm]; [by left|].
  assert (Hnew : forall j w', m !! j = Some w' -> GC_GET_PTR w' <> GC_GET_PTR w).
  { intros j w' Hj. rewrite Hp. apply (linked_new _ _ ref n L Hn H0 j w' Hj).
    destruct (so_live _ _ _ _ S j w' Hj). lia. }
  destruct (slots_fill _ _ _ _ _ S He Hnew) as (g & E & Eg & S').
  unfold occupy. rewrite E. cbn. unfold set_node. rewrite Hn. cbn. eexists. split; [done|].
  split_and!; try done; [|by rewrite Eg..]. constructor; [exact S'|]. cbn. constructor.
  - intros j w' Hj. destruct (decide (j = i)) as [->|Hji].
    + rewrite lookup_insert_eq in Hj. injection Hj as <-. rewrite Hp, lookup_insert_eq. by eexists.
    + rewrite lookup_insert_ne in Hj by done. rewrite lookup_insert_ne by (rewrite <- Hp; by apply not_eq_sym, (Hnew j)).
      by apply (lk_entry _ _ L).
  - intros a k Ha Hk. destruct (decide (a = ref)) as [->|Har].
    + exists i, w. by rewrite lookup_insert_eq.
    + rewrite lookup_insert_ne in Ha by done. destruct (lk_rest _ _ L a k Ha Hk) as (j & w' & Hj & Hw).
      exists j, w'. split; [|done]. rewrite lookup_insert_ne; [done|]. intros ->. congruence.
Qed.

(** ** Adding a possible root *)
Lemma gc_possible_root_ok collect rc_dtor s m us ref n : buffer_ok s m us -> gc_protected (gc s) = false ->
  first_unused (gc s) < MAX_INDEX ->
  us <> [] \/ first_unused (gc s) < gc_threshold (gc s) \/ gc_enabled (gc s) && negb (gc_active (gc s)) = false ->
  pointer ref -> nodes s !! ref = Some n -> address n = 0 ->
  exists s' i us', gc_possible_root collect rc_dtor s ref = Some s' /\ m !! i = None /\
    buffer_ok s' (<[i := ref]> m) us' /\ nodes s' = <[ref := GC_REF_SET_INFO (gc_compress i) GC_PURPLE n]> (nodes s) /\
    slots s' = slots s.
Proof.
  intros [S L] Hprot Hmax Hroom Hp Hn H0. destruct (root_ptr ref Hp) as (Hptr & _ & Hun).
  assert (He : entry ref) by (split; [by rewrite Hptr|done]).
  pose proof (slots_unused _ _ _ S) as Hu. pose proof (so_threshold _ _ _ _ S) as Ht.
  assert (Hgo : forall i g us', slots_ok g m us' [i] -> exists s' j us2, occupy (set_gc s g) i ref ref GC_PURPLE = Some s' /\
    m !! j = None /\ buffer_ok s' (<[j := ref]> m) us2 /\
    nodes s' = <[ref := GC_REF_SET_INFO (gc_compress j) GC_PURPLE n]> (nodes s) /\ slots s' = slots s).
  { intros i g us' S'. destruct (occupy_ok (set_gc s g) m us' i ref ref GC_PURPLE n) as (s' & E & B & N & V & _); try done.
    exists s', i, us'. split_and!; try done. apply (so_hole _ _ _ _ S' i). by left. }
  unfold gc_possible_root. rewrite Hprot. destruct us as [|i us].
  - destruct (GC_HAS_UNUSED (gc s)); [by destruct (proj1 Hu eq_refl)|].
    unfold GC_HAS_NEXT_UNUSED_UNDER_THRESHOLD. destruct (Z.ltb_spec (first_unused (gc s)) (gc_threshold (gc s))) as [Hlt|Hge].
    + destruct (fetch_next_ok (gc s) m [] S) as (F1 & F2 & _); [lia..|].
      destruct (gc_fetch_next_unused (gc s)) as [i g]. cbn in F1, F2. subst i. by apply (Hgo _ _ []).
    + destruct Hroom as [[]|[?|Hoff]]; [done|lia|]. unfold gc_possible_root_when_full. rewrite Hoff. cbn [mbind option_bind].
      destruct (fetch_or_grow_ok (gc s) m [] S Hmax) as (i & g & us' & E & S' & _). rewrite E. cbn. by apply (Hgo _ _ us').
  - destruct (GC_HAS_UNUSED (gc s)); [|by discriminate (proj2 Hu)].
    destruct (fetch_unused_ok (gc s) m i us S) as (g & E & S' & _). rewrite E. cbn. by apply (Hgo _ _ us).
Qed.

(** ** Removing a value *)

(** Below the end every slot has a word; those that do not hold [ref] do not look as if they did. *)
Lemma slot_word s m us j : buffer_ok s m us -> 1 <= j < first_unused (gc s) ->
  exists w, slot_at (gc s) j = Some w /\ (m !! j = Some w \/ exists next, 0 <= next < MAX_INDEX /\ w = GC_IDX2LIST next).
Proof.
  intros [S _] Hj. destruct (so_all _ _ _ _ S j Hj) as [Hu|[[]%not_elem_of_nil|[w Hw]]].
  - destruct (chain_slot _ _ _ _ (so_chain _ _ _ _ S) Hu) as (next & Hn & Hs). exists (GC_IDX2LIST next).
    split; [done|right]. by exists next.
  - exists w. split; [|by left]. by destruct (so_live _ _ _ _ S j w Hw) as (_ & ? & _).
Qed.

Lemma slot_other s m us i w j w' : buffer_ok s m us -> m !! i = Some w -> j <> i -> 1 <= j < first_unused (gc s) ->
  slot_at (gc s) j = Some w' -> GC_GET_PTR w' <> GC_GET_PTR w.
Proof.
  intros B Hi Hji Hj Hs E. destruct (slot_word s m us j B Hj) as (w2 & Hw2 & Hcase).
  rewrite Hs in Hw2. injection Hw2 as <-. destruct B as [S _]. destruct Hcase as [Hm|(next & Hn & ->)].
  - by apply Hji, (so_inj _ _ _ _ S j i w' w).
  - destruct (so_live _ _ _ _ S i w Hi) as (_ & _ & [[Hp _] _]).
    rewrite (proj2 (link_word next (proj1 Hn))) in E. unfold MAX_INDEX in *. lia.
Qed.

Lemma gc_decompress_ok s m us i w : buffer_ok s m us -> m !! i = Some w ->
  gc_decompress (gc s) (GC_GET_PTR w) (gc_compress i) = Some i.
Proof.
  intros B Hi. destruct (so_live _ _ _ _ (bo_slots _ _ _ B) i w Hi) as (Hri & Hsi & _).
  pose proof (so_range _ _ _ _ (bo_slots _ _ _ B)) as (Hr1 & Hr2 & Hr3).
  destruct (compress_steps i) as (k & Hk & Ei); [lia|]. pose proof (compress_range i ltac:(lia)) as Hc.
  assert (Hloop : forall fuel k' c, (Z.to_nat k' <= fuel)%nat -> 0 < k' -> 1 <= c -> i = c + k' * GC_MAX_UNCOMPRESSED ->
            decompress_loop fuel (gc s) (GC_GET_PTR w) c = Some i).
  { unfold GC_MAX_UNCOMPRESSED, MAX_INDEX in *.
    induction fuel as [|fuel IH]; intros k' c Hf Hk' Hc' E; [lia|]. cbn [decompress_loop].
    unfold GC_MAX_UNCOMPRESSED. unfold u32. rewrite uwrap_small by lia.
    destruct (decide (k' = 1)) as [->|Hk1].
    - replace (c + 512 * 1024) with i by lia. rewrite Hsi. cbn. by rewrite Z.eqb_refl.
    - destruct (slot_word s m us (c + 512 * 1024) B) as (w' & Hw' & _); [lia|]. rewrite Hw'. cbn [mbind option_bind].
      rewrite (proj2 (Z.eqb_neq _ _)) by (apply (slot_other s m us i w (c + 512 * 1024) w' B Hi); [lia|lia|exact Hw']).
      apply (IH (k' - 1)); lia. }
  unfold gc_decompress. destruct (decide (k = 0)) as [->|Hk0].
  - replace (gc_compress i) with i by lia. rewrite Hsi. cbn. by rewrite Z.eqb_refl.
  - unfold GC_MAX_UNCOMPRESSED, MAX_INDEX in *.
    destruct (slot_word s m us (gc_compress i) B) as (w' & Hw' & _); [lia|]. rewrite Hw'. cbn [mbind option_bind].
    rewrite (proj2 (Z.eqb_neq _ _)) by (apply (slot_other s m us i w (gc_compress i) w' B Hi); [lia|lia|exact Hw']).
    apply (Hloop _ k); try lia. change (Z.to_nat (GC_MAX_BUF_SIZE / (512 * 1024))) with (Z.to_nat 2048). lia.
Qed.

Lemma linked_remove h m i w n : (forall j k w w', m !! j = Some w -> m !! k = Some w' -> GC_GET_PTR w = GC_GET_PTR w' -> j = k) ->
  linked h m -> m !! i = Some w -> h !! GC_GET_PTR w = Some n ->
  linked (<[GC_GET_PTR w := GC_REF_SET_INFO 0 GC_BLACK n]> h) (delete i m).
Proof.
  intros Hinj L Hi Hn. constructor.
  - intros j w' [Hij Hj]%lookup_delete_Some. rewrite lookup_insert_ne; [by apply L|].
    intros E. by apply Hij, (Hinj i j w w').
  - intros a k Ha Hk. destruct (decide (a = GC_GET_PTR w)) as [->|Hne].
    + rewrite lookup_insert_eq in Ha. by injection Ha as <-.
    + rewrite lookup_insert_ne in Ha by done. destruct (lk_rest _ _ L a k Ha Hk) as (j & w' & Hj & Hw).
      exists j, w'. split; [|done]. rewrite lookup_delete_ne; [done|]. intros <-. congruence.
Qed.

Lemma gc_remove_from_buffer_ok s m us i w : buffer_ok s m us -> m !! i = Some w ->
  exists s' n, gc_remove_from_buffer s (GC_GET_PTR w) = Some s' /\ nodes s !! GC_GET_PTR w = Some n /\
    buffer_ok s' (delete i m) (i :: us) /\
    nodes s' = <[GC_GET_PTR w := GC_REF_SET_INFO 0 GC_BLACK n]> (nodes s) /\ slots s' = slots s.
Proof.
  intros B Hi. pose proof B as [S L]. destruct (lk_entry _ _ L i w Hi) as (n & Hn & Ha).
  destruct (remove_from_roots_ok _ _ _ _ _ S Hi) as (g' & E & S' & _).
  unfold gc_remove_from_buffer, set_node. rewrite Hn. cbn [mbind option_bind]. rewrite Ha.
  assert (Hroot : (if GC_MAX_UNCOMPRESSED <=? first_unused (gc s) then gc_decompress (gc s) (GC_GET_PTR w) (gc_compress i)
                   else Some (gc_compress i)) = Some i).
  { destruct (Z.leb_spec GC_MAX_UNCOMPRESSED (first_unused (gc s))); [by eapply gc_decompress_ok|].
    destruct (so_live _ _ _ _ S i w Hi) as (Hri & _). unfold gc_compress. by rewrite (proj2 (Z.ltb_lt _ _)) by lia. }
  rewrite Hroot. cbn [mbind option_bind]. rewrite E. cbn. eexists _, n. split_and!; try done.
  constructor; [done|]. apply linked_remove; try done. intros j k w1 w2. apply (so_inj _ _ _ _ S).
Qed.

(** ** Compaction *)

(** Between two rounds: the values are in [m]; every slot in front of [free] holds one, no slot behind
    [scan] does, and those between hold one or are marked unused. *)
Record compacting s m (free scan : Z) : Prop := {
  cp_buf : exists cells, buf (gc s) = Some cells /\ Z.of_nat (length cells) = buf_size (gc s);
  cp_range : 1 <= first_unused (gc s) <= buf_size (gc s) /\ first_unused (gc s) <= MAX_INDEX /\ buf_size (gc s) <= GC_MAX_BUF_SIZE;
  cp_threshold : gc_threshold (gc s) <= buf_size (gc s);
  cp_fingers : 1 <= free /\ 0 <= scan < first_unused (gc s);
  cp_live : forall i w, m !! i = Some w -> 1 <= i <= scan /\ slot_at (gc s) i = Some w /\ entry w;
  cp_inj : forall i j w w', m !! i = Some w -> m !! j = Some w' -> GC_GET_PTR w = GC_GET_PTR w' -> i = j;
  cp_full : forall i, 1 <= i < free -> is_Some (m !! i);
  cp_gaps : forall i, free <= i <= scan -> m !! i = None -> exists w, slot_at (gc s) i = Some w /\ GC_IS_UNUSED w = true;
  cp_count : num_roots (gc s) = Z.of_nat (size m);
  cp_linked : linked (nodes s) m }.

Lemma compacting_start s m us : buffer_ok s m us -> compacting s m GC_FIRST_ROOT (first_unused (gc s) - 1).
Proof.
  intros B. pose proof B as [S L]. pose proof (so_range _ _ _ _ S). unfold GC_FIRST_ROOT.
  constructor; try apply S; try done; try lia.
  - intros i w Hi. destruct (so_live _ _ _ _ S i w Hi) as (H1 & H2 & H3). split_and!; try done; lia.
  - intros i Hi Hm. destruct (slot_word s m us i B) as (w & Hw & [?|(next & Hn & ->)]); [lia|congruence|].
    exists (GC_IDX2LIST next). split; [done|]. apply (link_word next); lia.
Qed.

(** How many slots the values fill. *)
Lemma live_bounds m lo hi : (forall i w, m !! i = Some w -> 1 <= i <= hi) -> (forall i, 1 <= i < lo -> is_Some (m !! i)) ->
  1 <= lo -> 0 <= hi -> lo - 1 <= Z.of_nat (size m) <= hi.
Proof.
  intros Hhi Hlo H1 H0. rewrite <- size_dom. split.
  - assert ((list_to_set (seqZ 1 (lo - 1)) : gset Z) ⊆ dom m) as Hs.
    { intros i Hi%elem_of_list_to_set%elem_of_seqZ. apply elem_of_dom, Hlo. lia. }
    apply subseteq_size in Hs. rewrite size_list_to_set, length_seqZ in Hs by apply NoDup_seqZ. lia.
  - assert (dom m ⊆ (list_to_set (seqZ 1 hi) : gset Z)) as Hs.
    { intros i [w Hw]%elem_of_dom. apply elem_of_list_to_set, elem_of_seqZ. specialize (Hhi i w Hw). lia. }
    apply subseteq_size in Hs. rewrite size_list_to_set, length_seqZ in Hs by apply NoDup_seqZ. lia.
Qed.

(** All slots up to a bound are in use when there are as many values. *)
Lemma live_dense m hi : (forall i w, m !! i = Some w -> 1 <= i <= hi) -> hi <= Z.of_nat (size m) ->
  forall i, 1 <= i <= hi -> is_Some (m !! i).
Proof.
  intros Hhi Hsz i Hi. destruct (m !! i) as [w|] eqn:E; [by eexists|exfalso].
  assert (dom m ⊆ (list_to_set (seqZ 1 hi) : gset Z) ∖ {[i]}) as Hs.
  { intros j [w Hw]%elem_of_dom. apply elem_of_difference. rewrite elem_of_list_to_set, elem_of_seqZ, elem_of_singleton.
    specialize (Hhi j w Hw). split; [lia|]. intros ->. congruence. }
  apply subseteq_size in Hs. rewrite size_difference, size_singleton, size_list_to_set, length_seqZ, size_dom in Hs.
  - lia.
  - apply NoDup_seqZ.
  - intros j ->%elem_of_singleton. apply elem_of_list_to_set, elem_of_seqZ. lia.
Qed.

Lemma live_tight m lo : (forall i, 1 <= i < lo -> is_Some (m !! i)) -> 1 <= lo -> Z.of_nat (size m) <= lo - 1 ->
  forall i w, m !! i = Some w -> 1 <= i -> i < lo.
Proof.
  intros Hlo H1 Hsz i w Hi Hi1. destruct (Z.lt_ge_cases i lo) as [|Hge]; [done|exfalso].
  assert ({[i]} ∪ (list_to_set (seqZ 1 (lo - 1)) : gset Z) ⊆ dom m) as Hs.
  { apply union_subseteq. split; [apply singleton_subseteq_l, elem_of_dom; by eexists|].
    intros j Hj%elem_of_list_to_set%elem_of_seqZ. apply elem_of_dom, Hlo. lia. }
  apply subseteq_size in Hs. rewrite size_union, size_singleton, size_list_to_set, length_seqZ, size_dom in Hs.
  - lia.
  - apply NoDup_seqZ.
  - intros j ->%elem_of_singleton. rewrite elem_of_list_to_set, elem_of_seqZ. lia.
Qed.

Section Fingers.
Context (s : gc_state) (m : gmap Z Z).

Lemma free_up_ok free0 scan : compacting s m free0 scan -> forall fuel free, free0 <= free ->
  (exists i, free <= i <= scan /\ m !! i = None) -> (Z.to_nat (scan - free) < fuel)%nat ->
  exists f, free_up fuel (gc s) free = Some f /\ free <= f <= scan /\ m !! f = None /\
    forall i, free <= i < f -> is_Some (m !! i).
Proof.
  intros C. induction fuel as [|fuel IH]; intros free Hf (u & Hu & Hmu) Hfuel; [lia|]. cbn [free_up].
  destruct (m !! free) as [w|] eqn:E.
  - destruct (cp_live _ _ _ _ C free w E) as (_ & Hs & [_ Hw]). rewrite Hs. cbn [mbind option_bind]. rewrite Hw.
    assert (u <> free) by congruence.
    destruct (IH (free + 1)) as (f & Ef & Hr & Hn & Hfull); [lia|exists u; split; [lia|done]|lia|].
    exists f. split_and!; try done; try lia. intros i Hi. destruct (decide (i = free)) as [->|]; [by eexists|apply Hfull; lia].
  - destruct (cp_gaps _ _ _ _ C free) as (w & Hs & Hw); [lia|done|]. rewrite Hs. cbn [mbind option_bind]. rewrite Hw.
    exists free. split_and!; try done; try lia.
Qed.

Lemma scan_down_ok free scan0 : compacting s m free scan0 -> forall fuel scan, scan <= scan0 ->
  (exists i, 1 <= i <= scan /\ is_Some (m !! i)) -> (Z.to_nat scan < fuel)%nat ->
  exists d, scan_down fuel (gc s) scan = Some d /\ 1 <= d <= scan /\ is_Some (m !! d) /\
    forall i, d < i <= scan -> m !! i = None.
Proof.
  intros C. induction fuel as [|fuel IH]; intros scan Hsc (u & Hu & Hmu) Hfuel; [lia|]. cbn [scan_down].
  destruct (m !! scan) as [w|] eqn:E.
  - destruct (cp_live _ _ _ _ C scan w E) as (_ & Hs & [_ Hw]). rewrite Hs. cbn [mbind option_bind]. rewrite Hw.
    exists scan. split_and!; try done; try lia.
  - assert (Hfree : free <= scan).
    { destruct (Z.le_gt_cases free scan) as [|Hlt]; [done|]. destruct (cp_full _ _ _ _ C scan) as [? ?]; [lia|congruence]. }
    destruct (cp_gaps _ _ _ _ C scan) as (w & Hs & Hw); [lia|done|]. rewrite Hs. cbn [mbind option_bind]. rewrite Hw.
    assert (u <> scan) by (intros ->; destruct Hmu; congruence).
    destruct (IH (scan - 1)) as (d & Ed & Hr & Hn & Hnone); [lia|exists u; split; [lia|done]|lia|].
    exists d. split_and!; try done; try lia. intros i Hi. destruct (decide (i = scan)) as [->|]; [done|apply Hnone; lia].
Qed.
End Fingers.

(** Moving the value of slot [d] to slot [f]. *)
Definition move_slot s (f d w : Z) (n : zend_refcounted) (g : zend_gc_globals) : gc_state :=
  set_nodes (set_gc s g) (<[GC_GET_PTR w := GC_REF_SET_INFO (gc_compress f) (color n) n]> (nodes s)).

Lemma compacting_move s m free scan f d w n : compacting s m free scan -> free <= f -> f < d <= scan ->
  m !! f = None -> (forall i, free <= i < f -> is_Some (m !! i)) -> m !! d = Some w ->
  (forall i, d < i <= scan -> m !! i = None) -> nodes s !! GC_GET_PTR w = Some n ->
  exists g, set_slot (gc s) f w = Some g /\ g = (let g0 := gc s in {| g0 with buf := buf g |}) /\
    compacting (move_slot s f d w n g) (<[f := w]> (delete d m)) (f + 1) (d - 1).
Proof.
  intros C Hf Hd Hmf Hfull Hmd Hnone Hn.
  destruct (cp_buf _ _ _ _ C) as (cells & Hb & Hlen). pose proof (cp_range _ _ _ _ C) as (Hr1 & Hr2 & Hr3).
  pose proof (cp_fingers _ _ _ _ C) as (Hfi & Hsi). pose proof (cp_linked _ _ _ _ C) as L.
  destruct (set_slot_ok (gc s) f w cells Hb) as (g & E & Eg & (cells' & Hb' & Hlen') & Hs); [lia|].
  exists g. split_and!; [done|done|]. unfold move_slot. rewrite Eg. clear E.
  destruct (cp_live _ _ _ _ C d w Hmd) as (_ & Hsd & Hew).
  assert (Hs' : forall i, i <> f -> slot_at (let g0 := gc s in {| g0 with buf := buf g |}) i = slot_at (gc s) i).
  { intros i Hi. specialize (Hs i). rewrite decide_False in Hs by done. by rewrite Eg in Hs. }
  assert (Hsf : slot_at (let g0 := gc s in {| g0 with buf := buf g |}) f = Some w).
  { specialize (Hs f). rewrite decide_True in Hs by done. by rewrite Eg in Hs. }
  assert (Hm : forall i w', (<[f := w]> (delete d m)) !! i = Some w' -> i = f /\ w' = w \/ i <> f /\ i <> d /\ m !! i = Some w').
  { intros i w' [[<- <-]|[Hif [Hdi Hi]%lookup_delete_Some]]%lookup_insert_Some; [by left|right]. split_and!; congruence. }
  assert (Hsome : forall i, i <> d -> is_Some (m !! i) -> is_Some ((<[f := w]> (delete d m)) !! i)).
  { intros i Hi Hsome. destruct (decide (i = f)) as [->|]; [by rewrite lookup_insert_eq|].
    by rewrite lookup_insert_ne, lookup_delete_ne. }
  assert (Hkeep : forall i w', i <> d -> m !! i = Some w' -> GC_GET_PTR w' <> GC_GET_PTR w).
  { intros i w' Hi Hmi Ep. by apply Hi, (cp_inj _ _ _ _ C i d w' w). }
  constructor; cbn [gc set_nodes set_gc nodes].
  - exists cells'. split; [done|]. cbn. lia.
  - done.
  - apply C.
  - cbn. lia.
  - intros i w' [[-> ->]|(Hif & Hid & Hi)]%Hm.
    + split_and!; [lia..|exact Hsf|done].
    + destruct (cp_live _ _ _ _ C i w' Hi) as (H1 & H2 & H3). split_and!; try done; try lia.
      * destruct (Z.le_gt_cases i (d - 1)); [done|]. rewrite Hnone in Hi by lia. done.
      * by rewrite Hs'.
  - intros i j w1 w2 [[-> ->]|(Hif & Hid & Hi)]%Hm [[-> ->]|(Hjf & Hjd & Hj)]%Hm Ep; try done.
    + by destruct (Hkeep j w2 Hjd Hj).
    + by destruct (Hkeep i w1 Hid Hi).
    + by apply (cp_inj _ _ _ _ C i j w1 w2).
  - intros i Hi. destruct (decide (i = f)) as [->|]; [by rewrite lookup_insert_eq|]. apply Hsome; [lia|].
    destruct (Z.lt_ge_cases i free); [apply C; lia|apply Hfull; lia].
  - intros i Hi Hmi. rewrite lookup_insert_ne, lookup_delete_ne in Hmi by lia.
    rewrite Hs' by lia. apply (cp_gaps _ _ _ _ C); [lia|done].
  - cbn. rewrite (cp_count _ _ _ _ C), map_size_insert_None by by (rewrite lookup_delete_ne by lia).
    rewrite map_size_delete_Some by done.
    assert (0 < size m)%nat by (apply Nat.neq_0_lt_0; intros ->%map_size_empty_inv; done). lia.
  - constructor.
    + intros i w' [[-> ->]|(Hif & Hid & Hi)]%Hm; [rewrite lookup_insert_eq; by eexists|].
      rewrite lookup_insert_ne by by apply not_eq_sym, (Hkeep i). by apply L.
    + intros a k Ha Hk. destruct (decide (a = GC_GET_PTR w)) as [->|Hne].
      * exists f, w. by rewrite lookup_insert_eq.
      * rewrite lookup_insert_ne in Ha by done. destruct (lk_rest _ _ L a k Ha Hk) as (i & w' & Hi & Hw).
        exists i, w'. split; [|done]. rewrite lookup_insert_ne, lookup_delete_ne; [done| |]; congruence.
Qed.

(** The words of the slots in use. *)
Definition holds_word m (w : Z) : Prop := exists i, m !! i = Some w.

(** What compaction leaves alone: the words, everything of the headers but the addresses, the settings. *)
Record compacted s m s' m' : Prop := {
  ct_words : forall w, holds_word m' w <-> holds_word m w;
  ct_core : core <$> nodes s' = core <$> nodes s;
  ct_slots : slots s' = slots s;
  ct_gc : gc s' = (let g0 := gc s in {| g0 with buf := buf (gc s') |}) }.

Lemma compacted_refl s m : compacted s m s m.
Proof. constructor; try done. by destruct (gc s). Qed.

Lemma compacted_trans s m s1 m1 s2 m2 : compacted s m s1 m1 -> compacted s1 m1 s2 m2 -> compacted s m s2 m2.
Proof.
  intros [W1 C1 V1 G1] [W2 C2 V2 G2]. constructor; [|congruence..|].
  - intros w. by rewrite W2.
  - rewrite G2, G1. done.
Qed.

Lemma move_compacted s m f d w n g : m !! f = None -> m !! d = Some w -> nodes s !! GC_GET_PTR w = Some n ->
  g = (let g0 := gc s in {| g0 with buf := buf g |}) ->
  compacted s m (move_slot s f d w n g) (<[f := w]> (delete d m)).
Proof.
  intros Hf Hd Hn Hg. constructor; cbn; [| |done|done].
  - intros x. split.
    + intros [i [[<- <-]|[_ [_ Hi]%lookup_delete_Some]]%lookup_insert_Some]; [by exists d|by exists i].
    + intros [i Hi]. destruct (decide (i = d)) as [->|Hid].
      * exists f. rewrite lookup_insert_eq. congruence.
      * exists i. rewrite lookup_insert_ne by congruence. by rewrite lookup_delete_ne.
  - rewrite fmap_insert. apply insert_id. by rewrite lookup_fmap, Hn.
Qed.

Lemma gap_exists m free scan : (forall i, 1 <= i < free -> is_Some (m !! i)) -> Z.of_nat (size m) < scan -> 1 <= free <= scan ->
  exists i, free <= i <= scan /\ m !! i = None.
Proof.
  intros Hfull Hsz Hr. destruct (decide (Forall (fun i => is_Some (m !! i)) (seqZ free (scan - free + 1)))) as [Hall|Hno].
  - exfalso. assert ((list_to_set (seqZ 1 scan) : gset Z) ⊆ dom m) as Hs.
    { intros i Hi%elem_of_list_to_set%elem_of_seqZ. apply elem_of_dom.
      destruct (Z.lt_ge_cases i free); [apply Hfull; lia|]. rewrite Forall_forall in Hall. apply Hall, elem_of_seqZ. lia. }
    apply subseteq_size in Hs. rewrite size_list_to_set, length_seqZ, size_dom in Hs by apply NoDup_seqZ. lia.
  - apply not_Forall_Exists in Hno; [|intros i; apply _]. apply Exists_exists in Hno as (i & Hi%elem_of_seqZ & Hn).
    exists i. split; [lia|]. by apply eq_None_not_Some.
Qed.

Lemma live_exists m : (0 < size m)%nat -> exists i w, m !! i = Some w.
Proof.
  intros Hsz. destruct (map_choose m) as (i & w & Hi); [intros ->; by rewrite map_size_empty in Hsz; lia|]. by exists i, w.
Qed.

(** The loop ends with the values in the first slots. *)
Lemma compact_exit s m free scan : compacting s m free scan -> scan <= free -> num_roots (gc s) < scan ->
  forall i w, m !! i = Some w -> i <= num_roots (gc s).
Proof.
  intros C Hge Hlt i w Hi. pose proof (cp_fingers _ _ _ _ C) as (Hfi & Hsi). rewrite (cp_count _ _ _ _ C) in *.
  assert (Hfull : forall j, 1 <= j < scan -> is_Some (m !! j)) by (intros j Hj; apply C; lia).
  assert (Hlo : scan - 1 <= Z.of_nat (size m)).
  { apply (live_bounds m scan scan); [|done|lia..]. intros j x Hj. destruct (cp_live _ _ _ _ C j x Hj). lia. }
  pose proof (live_tight m scan Hfull ltac:(lia) ltac:(lia) i w Hi). destruct (cp_live _ _ _ _ C i w Hi) as (? & _). lia.
Qed.

Lemma compact_loop_ok fuel : forall s m free scan, compacting s m free scan ->
  0 < num_roots (gc s) < scan -> (Z.to_nat scan + 2 <= fuel)%nat ->
  exists s' m', compact_loop fuel s free scan (num_roots (gc s)) = Some s' /\ compacted s m s' m' /\
    (exists free' scan', compacting s' m' free' scan') /\ (forall i w, m' !! i = Some w -> i <= num_roots (gc s)).
Proof.
  induction fuel as [|fuel IH]; intros s m free scan C Hpre Hfuel; [lia|].
  cbn [compact_loop]. destruct (Z.ltb_spec free scan) as [Hlt|Hge].
  2: { exists s, m. split_and!; [done|apply compacted_refl|by exists free, scan|]. apply (compact_exit s m free scan C); lia. }
  pose proof (cp_fingers _ _ _ _ C) as (Hfi & Hsi). pose proof (cp_count _ _ _ _ C) as Hcount.
  destruct (free_up_ok s m free scan C (S (Z.to_nat (first_unused (gc s)))) free) as (f & Ef & Hf & Hmf & Hfull); [lia| |lia|].
  { apply gap_exists; [apply C|lia..]. }
  rewrite Ef. cbn [mbind option_bind].
  destruct (live_exists m) as (k & wk & Hk); [lia|]. destruct (cp_live _ _ _ _ C k wk Hk) as (Hkr & _).
  destruct (scan_down_ok s m free scan C (S (Z.to_nat (first_unused (gc s)))) scan) as (d & Ed & Hd & [w Hmd] & Hnone);
    [lia|exists k; split; [lia|by eexists]|lia|].
  rewrite Ed. cbn [mbind option_bind]. destruct (Z.ltb_spec f d) as [Hfd|Hdf].
  - destruct (cp_live _ _ _ _ C d w Hmd) as (_ & Hsd & Hew). rewrite Hsd. cbn [mbind option_bind].
    destruct (lk_entry _ _ (cp_linked _ _ _ _ C) d w Hmd) as (n & Hn & _).
    destruct (compacting_move s m free scan f d w n C) as (g & Eg & Hg & C'); try done; try lia.
    pose proof (move_compacted s m f d w n g Hmf Hmd Hn Hg) as Ct.
    rewrite Eg. cbn [mbind option_bind]. rewrite Hn. unfold set_node. rewrite Hn. cbn [mbind option_bind].
    fold (move_slot s f d w n g). destruct (Z.leb_spec (d - 1) (num_roots (gc s))) as [Hle|Hgt].
    + eexists _, _. split_and!; [done|exact Ct|by exists (f + 1), (d - 1)|].
      intros i x Hi. destruct (cp_live _ _ _ _ C' i x Hi) as (? & _). lia.
    + assert (Hnr : num_roots (gc (move_slot s f d w n g)) = num_roots (gc s)) by (cbn; by rewrite Hg).
      destruct (IH _ _ _ _ C') as (s' & m' & E' & Ct' & Hc' & Hk'); [rewrite Hnr; lia|lia|]. rewrite Hnr in *.
      exists s', m'. split_and!; try done. by eapply compacted_trans.
  - assert (f <> d) by congruence.
    assert (C' : compacting s m f d).
    { destruct C as [C1 C2 C3 C4 C5 C6 C7 C8 C9 C10]. constructor; try done; try lia.
      - intros i x Hi. destruct (C5 i x Hi) as (H1 & H2 & H3). split_and!; try done; try lia.
        destruct (Z.le_gt_cases i d); [done|]. rewrite Hnone in Hi by lia. done.
      - intros i Hi. destruct (Z.lt_ge_cases i free); [apply C7; lia|apply Hfull; lia]. }
    destruct fuel as [|fuel]; [lia|]. cbn [compact_loop]. rewrite (proj2 (Z.ltb_ge _ _)) by lia.
    exists s, m. split_and!; [done|apply compacted_refl|by exists f, d|]. intros i x Hi. rewrite Hcount.
    assert (Hsz : d <= Z.of_nat (size m)).
    { destruct (live_bounds m (d + 1) d) as [Hb _]; [intros j y Hj; destruct (cp_live _ _ _ _ C' j y Hj); lia|intros j Hj; apply C'; lia|lia..]. }
    destruct (cp_live _ _ _ _ C' i x Hi) as (? & _). lia.
Qed.

(** [gc_compact] keeps the values and leaves no slot unused. *)
Lemma gc_compact_ok s m us : buffer_ok s m us -> exists s' m', gc_compact s = Some s' /\ buffer_ok s' m' [] /\
  (forall w, holds_word m' w <-> holds_word m w) /\ core <$> nodes s' = core <$> nodes s /\ slots s' = slots s /\
  settings (gc s') = settings (gc s) /\ first_unused (gc s') = num_roots (gc s') + GC_FIRST_ROOT /\
  num_roots (gc s') = num_roots (gc s).
Proof.
  intros B. pose proof B as [S L]. pose proof (slots_size _ _ _ _ S) as Hsz. pose proof (so_count _ _ _ _ S) as Hcount.
  pose proof (so_range _ _ _ _ S) as (Hr1 & Hr2 & Hr3).
  unfold gc_compact, GC_FIRST_ROOT. destruct (Z.eqb_spec (num_roots (gc s) + 1) (first_unused (gc s))) as [E|E].
  { exists s, m. split_and!; try done. assert (us = []) as ->; [|done]. destruct us as [|u us]; [done|exfalso].
    destruct (so_unused _ _ _ _ S u) as (Hu & Hmu & _); [by left|].
    destruct (live_dense m (first_unused (gc s) - 1)) with (i := u) as [? ?]; [|lia|lia|congruence].
    intros i w Hi. destruct (so_live _ _ _ _ S i w Hi). lia. }
  assert (Hgo : exists s1 m1, (if num_roots (gc s) =? 0 then Some s
                 else compact_loop (Datatypes.S (Z.to_nat (first_unused (gc s)))) s 1 (first_unused (gc s) - 1) (num_roots (gc s))) = Some s1 /\
            compacted s m s1 m1 /\ (exists free scan, compacting s1 m1 free scan) /\
            forall i w, m1 !! i = Some w -> i <= num_roots (gc s)).
  { pose proof (compacting_start s m us B) as C. destruct (Z.eqb_spec (num_roots (gc s)) 0) as [E0|E0].
    - exists s, m. split_and!; [done|apply compacted_refl|by eexists _, _|]. intros i w Hi.
      assert (m = ∅) as -> by (apply map_size_empty_inv; lia). done.
    - apply compact_loop_ok; [done|lia..]. }
  destruct Hgo as (s1 & m1 & E1 & [W1 C1 V1 G1] & (free & scan & C) & Hk). rewrite E1. cbn [mbind option_bind].
  assert (Hf : num_roots (gc s1) = num_roots (gc s) /\ first_unused (gc s1) = first_unused (gc s) /\
            settings (gc s1) = settings (gc s)) by (rewrite G1; done).
  destruct Hf as (Hn1 & Hf1 & Hset). clear G1.
  pose proof (cp_count _ _ _ _ C) as Hc1. pose proof (cp_range _ _ _ _ C) as (Hs1 & Hs2 & Hs3).
  eexists _, m1. split; [done|]. cbn. split_and!; try done. constructor; cbn; [|apply C].
  assert (Hlive : forall i w, m1 !! i = Some w -> 1 <= i <= num_roots (gc s1)).
  { intros i w Hi. destruct (cp_live _ _ _ _ C i w Hi) as (? & _). specialize (Hk i w Hi). lia. }
  constructor; cbn; try apply C; try done; try lia.
  - intros i w Hi. destruct (cp_live _ _ _ _ C i w Hi) as (_ & H2 & H3). specialize (Hlive i w Hi).
    split_and!; try done; lia.
  - apply NoDup_nil_2.
  - by intros i []%not_elem_of_nil.
  - by intros i []%not_elem_of_nil.
  - intros i Hi. right; right. apply (live_dense m1 (num_roots (gc s1)) Hlive); lia.
Qed.
End Buffer.

(** ** The buffer as a set *)

Implicit Types (s : gc_state).

(** The possible roots are the values of [R]: every slot in use holds the plain address of one. *)
Definition root_set (s : gc_state) (R : gset Z) : Prop :=
  exists m us, buffer_ok s m us /\ (forall i w, m !! i = Some w -> pointer w) /\ forall a, a ∈ R <-> holds_word m a.

Lemma map_img_size (m : gmap Z Z) (R : gset Z) : (forall i j w, m !! i = Some w -> m !! j = Some w -> i = j) ->
  (forall a, a ∈ R <-> holds_word m a) -> size R = size m.
Proof.
  revert R. induction m as [|i w m Hi IH] using map_ind; intros R Hinj HR.
  - rewrite map_size_empty. apply size_empty_iff. intros a. rewrite HR. split; [by intros [j ?]|set_solver].
  - rewrite map_size_insert_None by done.
    assert (Hw : ~ holds_word m w).
    { intros [j Hj]. assert (i = j); [|congruence]. apply (Hinj i j w); [apply lookup_insert_eq|].
      rewrite lookup_insert_ne; [done|]. intros ->. congruence. }
    assert (HRw : w ∈ R) by (apply HR; exists i; apply lookup_insert_eq).
    rewrite <- (IH (R ∖ {[w]})).
    + rewrite size_difference by by apply singleton_subseteq_l. rewrite size_singleton.
      assert (0 < size R)%nat; [|lia]. apply Nat.neq_0_lt_0. intros H0%size_empty_inv. set_solver.
    + intros j k x Hj Hk. apply (Hinj j k x); rewrite lookup_insert_ne; try done; intros ->; congruence.
    + intros a. rewrite elem_of_difference, elem_of_singleton, HR. split.
      * intros [[j [[_ <-]|[_ Hj]]%lookup_insert_Some] Hne]; [done|by exists j].
      * intros [j Hj]. split; [|intros ->; apply Hw; by exists j].
        exists j. rewrite lookup_insert_ne; [done|]. intros ->. congruence.
Qed.

Lemma root_set_count s R : root_set s R -> num_roots (gc s) = Z.of_nat (size R).
Proof.
  intros (m & us & [S L] & Hp & HR). rewrite (so_count _ _ _ _ S). f_equal. symmetry. apply map_img_size; [|done].
  intros i j w Hi Hj. by apply (so_inj _ _ _ _ S i j w w).
Qed.

(** Only values in the buffer have an address. *)
Lemma root_set_address s R a n : root_set s R -> nodes s !! a = Some n -> a ∉ R -> address n = 0.
Proof.
  intros (m & us & [S L] & Hp & HR) Hn Ha. destruct (Z.eq_dec (address n) 0) as [|H0]; [done|].
  destruct (lk_rest _ _ L a n Hn H0) as (i & w & Hi & Hw). destruct Ha. apply HR. exists i.
  by rewrite <- Hw, (proj1 (root_ptr w (Hp i w Hi))).
Qed.

Lemma root_set_add s R s' i us' m ref : (forall i w, m !! i = Some w -> pointer w) -> (forall a, a ∈ R <-> holds_word m a) ->
  buffer_ok s' (<[i := ref]> m) us' -> m !! i = None -> pointer ref -> root_set s' ({[ref]} ∪ R).
Proof.
  intros Hp HR B Hi Href. exists (<[i := ref]> m), us'. split_and!; [done| |].
  - intros j w [[_ <-]|[_ Hj]]%lookup_insert_Some; [done|by eapply Hp].
  - intros a. rewrite elem_of_union, elem_of_singleton, HR. split.
    + intros [->|[j Hj]]; [exists i; apply lookup_insert_eq|].
      exists j. rewrite lookup_insert_ne; [done|]. intros ->. congruence.
    + intros [j [[_ <-]|[_ Hj]]%lookup_insert_Some]; [by left|right; by exists j].
Qed.

Lemma root_set_remove s R ref : root_set s R -> ref ∈ R ->
  exists s' n, gc_remove_from_buffer s ref = Some s' /\ root_set s' (R ∖ {[ref]}) /\ nodes s !! ref = Some n /\
    nodes s' = <[ref := GC_REF_SET_INFO 0 GC_BLACK n]> (nodes s).
Proof.
  intros (m & us & B & Hp & HR) Href. destruct (proj1 (HR ref) Href) as [i Hi].
  pose proof (root_ptr ref (Hp i ref Hi)) as (Hptr & _).
  destruct (gc_remove_from_buffer_ok s m us i ref B Hi) as (s' & n & E & Hn & B' & N & _). rewrite Hptr in *.
  exists s', n. split_and!; try done. exists (delete i m), (i :: us). split_and!; [done| |].
  - intros j w [_ Hj]%lookup_delete_Some. by eapply Hp.
  - intros a. rewrite elem_of_difference, elem_of_singleton, HR. split.
    + intros [[j Hj] Ha]. exists j. rewrite lookup_delete_ne; [done|]. intros ->. congruence.
    + intros [j [Hij Hj]%lookup_delete_Some]. split; [by exists j|]. intros ->.
      apply Hij, (so_inj _ _ _ _ (bo_slots _ _ _ B) i j ref ref Hi Hj eq_refl).
Qed.

Lemma root_set_compact s R : root_set s R ->
  exists s', gc_compact s = Some s' /\ root_set s' R /\ core <$> nodes s' = core <$> nodes s /\
    first_unused (gc s') = Z.of_nat (size R) + 1 /\ slots s' = slots s.
Proof.
  intros RS. pose proof (root_set_count s R RS) as Hc. destruct RS as (m & us & B & Hp & HR).
  destruct (gc_compact_ok s m us B) as (s' & m' & E & B' & W & C & V & _ & Hf & Hn).
  exists s'. split_and!; [done| |done|unfold GC_FIRST_ROOT in Hf; lia|done].
  exists m', []. split_and!; [done| |].
  - intros i w Hi. destruct (proj1 (W w)) as [j Hj]; [by exists i|by eapply Hp].
  - intros a. by rewrite HR, W.
Qed.

(** Turning the collector on makes an empty buffer. *)
Lemma gc_enable_root_set s : buf (gc s) = None -> gc_enabled (gc s) = false ->
  (forall a n, nodes s !! a = Some n -> address n = 0) -> root_set (set_gc s (snd (gc_enable (gc s) true))) ∅.
Proof.
  intros Hb He H0. exists ∅, []. unfold gc_enable. rewrite Hb, He. cbn [andb negb snd gc_reset buf].
  split_and!; [|done|intros a; split; [by intros []%not_elem_of_empty|by intros [i ?]]].
  constructor; [|constructor; [done|intros a n Hn Hne; by destruct Hne, (H0 a n Hn)]].
  unfold gc_reset. cbn [buf]. set (cells := Some 0 :: _).
  assert (Hlen : Z.of_nat (length cells) = GC_DEFAULT_BUF_SIZE).
  { unfold cells. cbn [length]. rewrite length_replicate. unfold GC_DEFAULT_BUF_SIZE. lia. }
  clearbody cells. constructor; cbn; try done; try (intros i []%not_elem_of_nil).
  - by exists cells.
  - apply NoDup_nil_2.
  - intros i Hi. unfold GC_FIRST_ROOT in Hi. lia.
Qed.

Section Refinement.
Context (gc_collect_cycles : gc_state -> option (gc_state * Z)) (rc_dtor_func : gc_state -> Z -> option gc_state).

(** C27: the root buffer is a set of values.  [gc_possible_root] adds a value that is not in it (as long
    as the collector is not protected against new roots and there is room, or the buffer may grow instead of
    starting a collection), [gc_remove_from_buffer]
    finds a value again through the 20-bit address in its header and takes it out, and [gc_compact]
    changes nothing but moves the values into the first slots; [num_roots] is always their number. *)
Theorem gc_root_buffer_refines_set s R : root_set s R ->
  num_roots (gc s) = Z.of_nat (size R) /\
  (forall ref n, gc_protected (gc s) = false -> first_unused (gc s) < MAX_INDEX ->
     GC_HAS_UNUSED (gc s) = true \/ first_unused (gc s) < gc_threshold (gc s) \/
       gc_enabled (gc s) && negb (gc_active (gc s)) = false ->
     pointer ref -> ref ∉ R -> nodes s !! ref = Some n ->
     exists s' idx, gc_possible_root gc_collect_cycles rc_dtor_func s ref = Some s' /\ root_set s' ({[ref]} ∪ R) /\
       nodes s' = <[ref := GC_REF_SET_INFO idx GC_PURPLE n]> (nodes s)) /\
  (forall ref, ref ∈ R -> exists s' n, gc_remove_from_buffer s ref = Some s' /\ root_set s' (R ∖ {[ref]}) /\
     nodes s !! ref = Some n /\ nodes s' = <[ref := GC_REF_SET_INFO 0 GC_BLACK n]> (nodes s)) /\
  (exists s', gc_compact s = Some s' /\ root_set s' R /\ core <$> nodes s' = core <$> nodes s /\
     first_unused (gc s') = Z.of_nat (size R) + 1).
Proof.
  intros RS. split_and!; [by apply root_set_count| |by intros ref; apply root_set_remove|].
  2: { destruct (root_set_compact s R RS) as (s' & ? & ? & ? & ? & _). by exists s'. }
  intros ref n Hprot Hmax Hroom Href HR Hn. pose proof (root_set_address s R ref n RS Hn HR) as H0.
  destruct RS as (m & us & B & Hp & HRm).
  destruct (gc_possible_root_ok gc_collect_cycles rc_dtor_func s m us ref n B) as (s' & i & us' & E & Hi & B' & N & _); try done.
  { destruct Hroom as [Hu|?]; [left|by right]. by apply (slots_unused _ _ _ (bo_slots _ _ _ B)). }
  exists s', (gc_compress i). split_and!; try done. by eapply root_set_add.
Qed.
End Refinement.

Definition ex_root : Z := 2 ^ 33.
Definition ex_gc_state : gc_state :=
  {| nodes := {[ ex_root := {| refcount := 1; color := GC_BLACK; address := 0; value := IS_ARRAY [IS_COUNTED ex_root] |} ]};
     slots := ∅; gc := gc_globals_ctor_ex |}.

Definition ex_gc_on : gc_state := set_gc ex_gc_state (snd (gc_enable (gc ex_gc_state) true)).

Lemma gc_root_buffer_refines_set_witness :
  root_set ex_gc_on ∅ /\
  exists s', gc_possible_root (fun _ => None) (fun _ _ => None) ex_gc_on ex_root = Some s' /\ root_set s' {[ex_root]}.
Proof.
  assert (RS : root_set ex_gc_on ∅).
  { apply gc_enable_root_set; [reflexivity..|]. intros a n Hn. unfold ex_gc_state in Hn. cbn [nodes] in Hn.
    by apply lookup_singleton_Some in Hn as [_ <-]. }
  split; [exact RS|].
  destruct (gc_root_buffer_refines_set (fun _ => None) (fun _ _ => None) ex_gc_on ∅ RS) as (_ & Hadd & _).
  destruct (Hadd ex_root {| refcount := 1; color := GC_BLACK; address := 0; value := IS_ARRAY [IS_COUNTED ex_root] |})
    as (s' & idx & E & RS' & _).
  - reflexivity.
  - reflexivity.
  - right; left. reflexivity.
  - unfold pointer, ex_root. split; [lia|reflexivity].
  - apply not_elem_of_empty.
  - apply lookup_singleton_eq.
  - exists s'. split; [exact E|]. by rewrite union_empty_r_L in RS'.
Defined.
