(* ===== verification/ZendGcCollect.v ===== *)
(** * A collection, from the root buffer to the garbage

    The loops over the root buffer are the list versions [mark_list] and [scan_list]; with
    [scan_complete] this says which values are white after [gc_mark_roots] and [gc_scan_roots]: the
    [garbage], what possible roots reach and nothing else holds. *)
From S2P Require Import Prelude ZendGc ZendGcTrace ZendGcScan ZendGcBuffer.

Section Collect.
Context (symbol_table : Z).
Implicit Types (s : gc_state) (R : gset Z) (rs : list Z).

(** ** The loops over the buffer *)

(** The slots from [cur] on hold the roots [rs]. *)
Definition slots_hold (g : zend_gc_globals) (cur : Z) rs : Prop :=
  forall k r, rs !! k = Some r -> slot_at g (cur + Z.of_nat k) = Some r /\ pointer r.

Lemma slots_hold_cons g cur r rs : slots_hold g cur (r :: rs) ->
  slot_at g cur = Some r /\ GC_IS_ROOT r = true /\ slots_hold g (cur + 1) rs.
Proof.
  intros H. destruct (H 0%nat r eq_refl) as [Hs Hp]. rewrite Z.add_0_r in Hs.
  split_and!; [done|by apply root_ptr|]. intros k r' Hk. destruct (H (S k) r' Hk) as [Hs' Hp'].
  split; [|done]. rewrite <- Hs'. f_equal. lia.
Qed.

Lemma mark_roots_list rs : forall s cur, slots_hold (gc s) cur rs ->
  mark_roots_loop symbol_table (length rs) s cur = set_nodes s <$> mark_list symbol_table (slots s) (nodes s) rs.
Proof.
  induction rs as [|r rs IH]; intros s cur H; [by destruct s|].
  apply slots_hold_cons in H as (Hs & Hr & H). cbn [mark_roots_loop length mark_list]. rewrite Hs. cbn [mbind option_bind].
  rewrite Hr. unfold mark_root. destruct (nodes s !! r) as [n|]; [|done]. cbn [mbind option_bind].
  destruct (is_color GC_PURPLE (color n)); [|cbn [mbind option_bind]; by apply IH].
  destruct (set_node _ _ _) as [h1|]; [|done]. cbn [mbind option_bind].
  destruct (gc_mark_grey _ _ _ _) as [h2|]; [|done]. cbn [mbind option_bind].
  by rewrite (IH (set_nodes s h2) (cur + 1)).
Qed.

Lemma scan_roots_list rs : forall s cur, slots_hold (gc s) cur rs ->
  scan_roots_loop symbol_table (length rs) s cur = set_nodes s <$> scan_list symbol_table (slots s) (nodes s) rs.
Proof.
  induction rs as [|r rs IH]; intros s cur H; [by destruct s|].
  apply slots_hold_cons in H as (Hs & Hr & H). cbn [scan_roots_loop length scan_list]. rewrite Hs. cbn [mbind option_bind].
  rewrite Hr. unfold scan_root. destruct (nodes s !! r) as [n|]; [|done]. cbn [mbind option_bind].
  destruct (is_color GC_GREY (color n)); [|cbn [mbind option_bind]; by apply IH].
  destruct (set_node _ _ _) as [h1|]; [|done]. cbn [mbind option_bind].
  destruct (gc_scan _ _ _ _) as [h2|]; [|done]. cbn [mbind option_bind].
  by rewrite (IH (set_nodes s h2) (cur + 1)).
Qed.

Lemma mark_list_address rs : forall vars h h', mark_list symbol_table vars h rs = Some h' -> same_addresses h h'.
Proof.
  induction rs as [|r rs IH]; intros vars h h'; [by intros [= <-]|]. cbn -[gc_mark_grey]. unfold mark_root.
  destruct (h !! r) as [n|]; [|done]. cbn -[gc_mark_grey]. destruct (is_color _ _); [|apply IH].
  destruct (set_node _ _ _) as [h1|] eqn:E1; [|done]. cbn -[gc_mark_grey].
  destruct (gc_mark_grey _ _ _ _) as [h2|] eqn:E2; [|done]. intros H%IH.
  apply set_node_address in E1; [|done]. apply gc_mark_grey_address in E2. etrans; [exact E1|]. by etrans.
Qed.

Lemma scan_loop_address vars fuel : forall h ref st h', scan_loop symbol_table vars fuel h ref st = Some h' -> same_addresses h h'.
Proof.
  induction fuel as [|fuel IH]; intros h ref st h'; [done|]. cbn -[gc_scan_black traverse].
  destruct (h !! ref) as [n|]; [|done]. cbn -[gc_scan_black traverse].
  set (round := if is_color GC_WHITE (color n) then _ else _). destruct round as [[[h1 st1] next]|] eqn:E; [|done]. cbn.
  assert (same_addresses h h1).
  { unfold round in E. destruct (is_color _ _); [|by injection E as <-]. destruct (0 <? refcount n).
    - destruct (set_node _ _ _) as [h2|] eqn:E1; [|done]. cbn -[gc_scan_black] in E.
      destruct (gc_scan_black _ _ _ _) as [h3|] eqn:E2; [|done]. injection E as <-.
      apply set_node_address in E1; [|done]. apply gc_scan_black_address in E2. by etrans.
    - by apply traverse_address in E. }
  destruct (next_ref next st1) as [[ref' st']|]; [intros H'%IH; by etrans|by intros [= <-]].
Qed.

Lemma scan_list_address rs : forall vars h h', scan_list symbol_table vars h rs = Some h' -> same_addresses h h'.
Proof.
  induction rs as [|r rs IH]; intros vars h h'; [by intros [= <-]|]. cbn -[gc_scan]. unfold scan_root.
  destruct (h !! r) as [n|]; [|done]. cbn -[gc_scan]. destruct (is_color _ _); [|apply IH].
  destruct (set_node _ _ _) as [h1|] eqn:E1; [|done]. cbn -[gc_scan].
  destruct (gc_scan _ _ _ _) as [h2|] eqn:E2; [|done]. intros H%IH.
  apply set_node_address in E1; [|done]. unfold gc_scan in E2. apply scan_loop_address in E2. etrans; [exact E1|]. by etrans.
Qed.

(** ** The slots of a compact buffer *)
Lemma compact_slots s R : root_set s R -> first_unused (gc s) = Z.of_nat (size R) + 1 ->
  exists rs, slots_hold (gc s) 1 rs /\ length rs = slots_used (gc s) /\ NoDup rs /\ forall a, a ∈ rs <-> a ∈ R.
Proof.
  intros RS Hf. pose proof (root_set_count s R RS) as Hc. destruct RS as (m & us & [S L] & Hp & HR).
  pose proof (so_count _ _ _ _ S) as Hm. pose proof (so_range _ _ _ _ S) as (Hr1 & _).
  assert (Hkeys : forall i w, m !! i = Some w -> 1 <= i <= Z.of_nat (size m)).
  { intros i w Hi. destruct (so_live _ _ _ _ S i w Hi). lia. }
  pose proof (live_dense m (Z.of_nat (size m)) Hkeys ltac:(lia)) as Hdense.
  set (rs := omap (fun i => m !! i) (seqZ 1 (Z.of_nat (size m)))).
  assert (Hrs : forall k r, rs !! k = Some r <-> (k < size m)%nat /\ m !! (1 + Z.of_nat k) = Some r).
  { assert (Hgen : forall n lo, (forall i, lo <= i < lo + Z.of_nat n -> is_Some (m !! i)) ->
              forall k r, omap (fun i => m !! i) (seqZ lo (Z.of_nat n)) !! k = Some r <-> (k < n)%nat /\ m !! (lo + Z.of_nat k) = Some r).
    { clear. induction n as [|n IH]; intros lo Hall k r.
      - change (Z.of_nat 0) with 0. cbn. split; [done|lia].
      - rewrite Nat2Z.inj_succ, seqZ_cons by lia. cbn. destruct (Hall lo) as [w Hw]; [lia|]. rewrite Hw.
        replace (Z.pred (Z.succ (Z.of_nat n))) with (Z.of_nat n) by lia. destruct k as [|k]; cbn.
        + rewrite Z.add_0_r, Hw. split; [by intros [= ->]; split; [lia|]|by intros [_ [= ->]]].
        + rewrite IH by (intros i Hi; apply Hall; lia). replace (Z.succ lo + Z.of_nat k) with (lo + Z.of_nat (S k)) by lia.
          split; intros [? ?]; (split; [lia|done]). }
    apply Hgen. intros i Hi. apply Hdense. lia. }
  assert (Hlen : length rs = size m).
  { apply Nat.le_antisymm.
    - destruct (decide (length rs = 0)%nat); [lia|]. destruct (lookup_lt_is_Some_2 rs (pred (length rs))) as [r Hr]; [lia|].
      apply Hrs in Hr. lia.
    - destruct (decide (size m = 0)%nat); [lia|]. destruct (Hdense (Z.of_nat (size m))) as [w Hw]; [lia|].
      assert (H : rs !! pred (size m) = Some w); [|apply lookup_lt_Some in H; lia].
      apply Hrs. split; [lia|]. by replace (1 + Z.of_nat (pred (size m))) with (Z.of_nat (size m)) by lia. }
  exists rs. split_and!.
  - intros k r [_ Hk]%Hrs. split; [by apply (so_live _ _ _ _ S)|by eapply Hp].
  - unfold slots_used, GC_FIRST_ROOT. rewrite Hlen. lia.
  - apply NoDup_alt. intros j k r [_ Hj]%Hrs [_ Hk]%Hrs.
    pose proof (so_inj _ _ _ _ S _ _ _ _ Hj Hk eq_refl). lia.
  - intros a. rewrite HR, list_elem_of_lookup. split.
    + intros [k [_ Hk]%Hrs]. by eexists.
    + intros [i Hi]. exists (Z.to_nat (i - 1)). pose proof (Hkeys i a Hi). apply Hrs. split; [lia|].
      by replace (1 + Z.of_nat (Z.to_nat (i - 1))) with i by lia.
Qed.
End Collect.

(** ** Garbage *)
Section Garbage.
Context (symbol_table : Z) (vars : gmap Z zval) (h : heap).
Local Abbreviation vals := (value <$> h).
Local Abbreviation edge := (edge symbol_table vars vals).
Local Abbreviation nrefs := (nrefs symbol_table vars vals).

(** The values of the heap that are not the property table of an object. *)
Definition values : list Z :=
  filter (fun a => a ∉ tables vals (elements (dom h))) (elements (dom h)).

Lemma elem_values a : a ∈ values <-> is_Some (h !! a) /\ forall b, own_table vals b <> Some a.
Proof.
  unfold values. rewrite list_elem_of_filter, elem_of_elements, elem_of_dom, elem_tables. split.
  - intros [Hn Hs]. split; [done|]. intros b Hb. apply Hn. exists b. split; [|done].
    apply elem_of_elements, elem_of_dom. unfold own_table in Hb. rewrite lookup_fmap in Hb. by destruct (h !! b).
  - intros [Hs Hn]. split; [|done]. intros (b & _ & Hb). by apply (Hn b).
Qed.

Lemma NoDup_values : NoDup values.
Proof. apply NoDup_filter, NoDup_elements. Qed.

Definition reached (R : gset Z) (a : Z) : Prop := a <> symbol_table /\ exists r, r ∈ R /\ rtc edge r a.

(** The count of [a] is the number of references the values of the heap hold to it: nothing else (no
    variable, no argument, no handler) refers to it. *)
Definition accounted (a : Z) : Prop := exists n, h !! a = Some n /\ refcount n = Z.of_nat (nrefs values a).

(** Garbage is what possible roots reach and nothing else does: every value that leads to it is itself
    reached from a possible root, and accounted for. *)
Definition garbage (R : gset Z) (a : Z) : Prop :=
  reached R a /\ forall u, u ∈ values -> rtc edge u a -> reached R u /\ accounted u.

(** Every reference a value holds is counted. *)
Definition counts_ok : Prop :=
  forall a n, h !! a = Some n -> Z.of_nat (nrefs values a) <= refcount n < 2 ^ 32.

Lemma nrefs_split l a : NoDup l -> (forall x, x ∈ l -> x ∈ values) ->
  nrefs values a = (nrefs l a + nrefs (filter (fun x => x ∉ l) values) a)%nat.
Proof.
  intros Hnd Hsub. rewrite <- nrefs_app. apply nrefs_Permutation, NoDup_Permutation.
  - apply NoDup_values.
  - apply NoDup_app. split_and!; [done| |apply NoDup_filter, NoDup_values].
    intros x Hx [Hn _]%list_elem_of_filter. done.
  - intros x. rewrite elem_of_app, list_elem_of_filter. split; [intros Hx; destruct (decide (x ∈ l)); tauto|].
    intros [?|[_ ?]]; [by apply Hsub|done].
Qed.

Lemma nrefs_pos l a b : b ∈ l -> edge b a -> (0 < nrefs l a)%nat.
Proof.
  intros Hb He. apply list_elem_of_split in Hb as (l1 & l2 & ->).
  change (b :: l2) with ([b] ++ l2). rewrite !nrefs_app, nrefs_one.
  assert (0 < occurrences a (ZendGcTrace.refs symbol_table vars vals b))%nat; [|lia].
  apply list_elem_of_split in He as (r1 & r2 & ->). rewrite occurrences_app, occurrences_cons, decide_True by done. lia.
Qed.
End Garbage.

Lemma iter_delref k rc : 0 <= rc < 2 ^ 32 -> Z.of_nat k <= rc -> Nat.iter k GC_DELREF rc = rc - Z.of_nat k.
Proof.
  induction k as [|k IH]; intros Hr Hk; [cbn; lia|]. rewrite Nat.iter_succ, IH by lia.
  unfold GC_DELREF, u32. rewrite uwrap_small by lia. lia.
Qed.

Lemma iter_addref k rc : 0 <= rc -> rc + Z.of_nat k < 2 ^ 32 -> Nat.iter k GC_ADDREF rc = rc + Z.of_nat k.
Proof.
  induction k as [|k IH]; intros Hr Hk; [cbn; lia|]. rewrite Nat.iter_succ, IH by lia.
  unfold GC_ADDREF, u32. rewrite uwrap_small by lia. lia.
Qed.

(** ** Marking and scanning *)

Lemma core_lookup (h h' : heap) a n : core <$> h = core <$> h' -> h !! a = Some n ->
  exists n', h' !! a = Some n' /\ refcount n' = refcount n /\ color n' = color n /\ value n' = value n.
Proof.
  intros E Hn. assert (Ea : core <$> h !! a = core <$> h' !! a) by (by rewrite <- !lookup_fmap, E).
  rewrite Hn in Ea. destruct (h' !! a) as [n'|]; [|done]. exists n'. unfold core in Ea. cbn in Ea. by injection Ea as -> -> ->.
Qed.

Lemma core_values (h h' : heap) : core <$> h = core <$> h' -> value <$> h = value <$> h'.
Proof.
  intros E. apply map_eq. intros a. rewrite !lookup_fmap.
  assert (Ea : core <$> h !! a = core <$> h' !! a) by (by rewrite <- !lookup_fmap, E).
  destruct (h !! a), (h' !! a); try done. unfold core in Ea. cbn in *. by injection Ea as _ _ ->.
Qed.

Lemma values_same (h h' : heap) : value <$> h = value <$> h' -> values h = values h'.
Proof.
  intros E. unfold values. rewrite E. assert (dom h = dom h') as ->; [|done].
  by rewrite <- (dom_fmap_L value h), E, dom_fmap_L.
Qed.

Lemma linked_addresses (h h' : heap) m : same_addresses h h' -> linked h m -> linked h' m.
Proof.
  intros E L. assert (Ea : forall a, address <$> h' !! a = address <$> h !! a) by (intros a; by rewrite <- !lookup_fmap, E).
  constructor.
  - intros i w Hi. destruct (lk_entry _ _ L i w Hi) as (n & Hn & Ha). specialize (Ea (GC_GET_PTR w)). rewrite Hn in Ea.
    destruct (h' !! GC_GET_PTR w) as [n'|]; [|done]. exists n'. injection Ea as ->. by split.
  - intros a n Hn H0. specialize (Ea a). rewrite Hn in Ea. destruct (h !! a) as [n'|] eqn:E'; [|done]. injection Ea as Ea.
    apply (lk_rest _ _ L a n' E'). by rewrite <- Ea.
Qed.

Lemma root_set_addresses (s : gc_state) h R : same_addresses (nodes s) h -> root_set s R -> root_set (set_nodes s h) R.
Proof.
  intros E (m & us & [S L] & H). exists m, us. split; [|done]. constructor; [exact S|]. by apply (linked_addresses (nodes s)).
Qed.

(** A state in which a collection may start: the buffer holds the purple values of [R], everything else
    is black, and the counts cover the references. *)
Record ready (symbol_table : Z) (s : gc_state) (R : gset Z) : Prop := {
  rd_wf : well_formed symbol_table (slots s) (value <$> nodes s);
  rd_roots : root_set s R;
  rd_start : start (value <$> nodes s) (nodes s) (elements R);
  rd_counts : counts_ok symbol_table (slots s) (nodes s) }.

Section Phases.
Context (symbol_table : Z) (s : gc_state) (R : gset Z).
Local Abbreviation vals := (value <$> nodes s).
Local Abbreviation edge := (edge symbol_table (slots s) vals).
Local Abbreviation nrefs := (nrefs symbol_table (slots s) vals).
Local Abbreviation reached := (reached symbol_table (slots s) (nodes s) R).
Local Abbreviation garbage := (garbage symbol_table (slots s) (nodes s) R).

(** What marking and scanning leave in [s']: [l] are the values reached, [bs] the black ones of them,
    and [hm] is the heap between the two. *)
Record traced_garbage (s' : gc_state) (hm : heap) (l bs : list Z) : Prop := {
  tg_slots : slots s' = slots s;
  tg_roots : root_set s' R;
  tg_first : first_unused (gc s') = Z.of_nat (size R) + 1;
  tg_reached : forall a, a ∈ l <-> reached a;
  tg_count : forall a n m, nodes s !! a = Some n -> hm !! a = Some m ->
    refcount m = Nat.iter (nrefs l a) GC_DELREF (refcount n);
  tg_dom : forall a, is_Some (hm !! a) <-> is_Some (nodes s !! a);
  tg_greyed : greyed symbol_table (slots s) vals hm l;
  tg_scanned : scanned symbol_table (slots s) vals hm l (nodes s') bs }.

Lemma start_core (h h' : heap) rs rs' v : core <$> h = core <$> h' -> (forall r, r ∈ rs <-> r ∈ rs') -> start v h rs -> start v h' rs'.
Proof.
  intros E Hrs S. constructor.
  - by rewrite <- (st_values _ _ _ S), (core_values h h' E).
  - intros r Hr%Hrs. destruct (st_roots _ _ _ S r Hr) as (n & Hn & Hc).
    destruct (core_lookup h h' r n E Hn) as (n' & Hn' & _ & Hc' & _). exists n'. split; [done|congruence].
  - intros r b Hr%Hrs. by apply (st_no_table _ _ _ S).
  - intros a n Hn. destruct (core_lookup h' h a n (eq_sym E) Hn) as (n' & Hn' & _ & Hc & _).
    rewrite <- Hc, <- Hrs. by apply (st_colors _ _ _ S a n').
Qed.

(** The values marked are those the roots reach. *)
Lemma marked_reached v h0 rs h l : well_formed symbol_table (slots s) v -> marked symbol_table (slots s) v h0 rs h l ->
  forall a, a ∈ l <-> a <> symbol_table /\ exists r, r ∈ rs /\ rtc (ZendGcTrace.edge symbol_table (slots s) v) r a.
Proof.
  intros wf M a. split.
  - intros Ha. split; [intros ->; by apply (mk_ordinary _ _ _ _ _ _ _ M)|by apply M].
  - intros (Ha & r & Hr & Hp). assert (Hgo : a = symbol_table \/ a ∈ l); [|tauto]. clear Ha. revert a Hp. apply rtc_ind_r.
    + destruct (decide (r = symbol_table)); [by left|right; by apply M].
    + intros y z _ He [->|Hy]; [by apply (edge_globals symbol_table (slots s) v wf) in He|].
      destruct (decide (z = symbol_table)); [by left|right; by eapply (mk_closed _ _ _ _ _ _ _ M)].
Qed.

Lemma elem_elements_R (rs : list Z) : (forall a, a ∈ rs <-> a ∈ R) -> forall a, a ∈ elements R <-> a ∈ rs.
Proof. intros H a. by rewrite elem_of_elements, H. Qed.

Lemma mark_scan_ok : ready symbol_table s R -> exists s1 s2 hm l bs, gc_mark_roots symbol_table s = Some s1 /\
  gc_scan_roots symbol_table s1 = Some s2 /\ traced_garbage s2 hm l bs.
Proof.
  intros [wf RS S _]. destruct (root_set_compact s R RS) as (s0 & E0 & RS0 & C0 & F0 & V0).
  destruct (compact_slots s0 R RS0 F0) as (rs & Hslots & Hlen & _ & Hrs).
  pose proof (start_core (nodes s) (nodes s0) (elements R) rs vals (eq_sym C0) (elem_elements_R rs Hrs) S) as S0.
  destruct (mark_list_ok symbol_table (slots s) vals wf (nodes s0) rs S0) as (hm & l & E1 & M).
  pose proof (marked_greyed symbol_table (slots s) vals wf _ _ _ _ S0 M) as G.
  assert (Hdom : forall r, r ∈ rs -> is_Some (hm !! r) /\ forall b, own_table vals b <> Some r).
  { intros r Hr. split; [|by intros b; apply (st_no_table _ _ _ S0)].
    apply (moved_lookup _ _ _ _ _ _ _ _ _ (mk_moved _ _ _ _ _ _ _ M)).
    destruct (st_roots _ _ _ S0 r Hr) as (n & Hn & _). by eexists. }
  destruct (scan_list_ok symbol_table (slots s) vals wf hm l G rs hm []
    (scanning_start symbol_table (slots s) vals wf hm l G) Hdom) as (h & _ & E2 & _).
  destruct (scan_complete symbol_table (slots s) vals wf hm l G rs h (mk_from _ _ _ _ _ _ _ M) (mk_roots _ _ _ _ _ _ _ M) E2 Hdom)
    as (bs & D).
  exists (set_nodes s0 hm), (set_nodes s0 h), hm, l, bs. split_and!.
  - unfold gc_mark_roots. rewrite E0. cbn [mbind option_bind]. unfold GC_FIRST_ROOT.
    rewrite <- Hlen, (mark_roots_list symbol_table rs s0 1 Hslots), V0, E1. done.
  - unfold gc_scan_roots. change (gc (set_nodes s0 hm)) with (gc s0). unfold GC_FIRST_ROOT.
    rewrite <- Hlen, (scan_roots_list symbol_table rs (set_nodes s0 hm) 1 Hslots). cbn [slots set_nodes nodes]. by rewrite V0, E2.
  - constructor; try done.
    + apply root_set_addresses; [|done]. etrans; [by eapply mark_list_address|by eapply scan_list_address].
    + intros a. rewrite (marked_reached vals _ _ _ _ wf M). unfold ZendGcCollect.reached.
      split; intros (Ha & r & Hr & Hp); (split; [done|]); exists r; (split; [by apply Hrs|done]).
    + intros a n m Hn Hm. destruct (core_lookup _ _ _ _ (eq_sym C0) Hn) as (n' & Hn' & <- & _).
      apply (moved_count _ _ _ _ _ _ _ _ _ _ _ (mk_moved _ _ _ _ _ _ _ M) Hm Hn').
    + intros a. rewrite (moved_lookup _ _ _ _ _ _ _ _ _ (mk_moved _ _ _ _ _ _ _ M)).
      by rewrite <- !elem_of_dom, <- !(dom_fmap_L core), C0.
Qed.

Section Garbage.
Context (s' : gc_state) (hm : heap) (l bs : list Z) (Hready : ready symbol_table s R) (T : traced_garbage s' hm l bs).

Lemma tg_values x : x ∈ l -> x ∈ values (nodes s).
Proof.
  intros Hx. apply elem_values. split; [|by intros b; apply (gr_no_table _ _ _ _ _ (tg_greyed _ _ _ _ T))].
  by apply (tg_dom _ _ _ _ T), (gr_dom _ _ _ _ _ (tg_greyed _ _ _ _ T)).
Qed.

(** A value is held when it has more references than the values reached account for. *)
Lemma held_iff x n : x ∈ l -> nodes s !! x = Some n ->
  (Z.of_nat (nrefs l x) <= refcount n) /\ (held hm x <-> Z.of_nat (nrefs l x) < refcount n).
Proof.
  intros Hx Hn. destruct (proj2 (tg_dom _ _ _ _ T x)) as [m Hm]; [by eexists|].
  pose proof (rd_counts _ _ _ Hready x n Hn) as Hc.
  rewrite (nrefs_split symbol_table (slots s) (nodes s) l x (gr_nodup _ _ _ _ _ (tg_greyed _ _ _ _ T)) tg_values) in Hc.
  split; [lia|]. pose proof (tg_count _ _ _ _ T x n m Hn Hm) as E. rewrite iter_delref in E by lia.
  unfold held. split; [intros (m' & Hm' & H)|intros H; exists m; split; [done|lia]]. rewrite Hm in Hm'. injection Hm' as <-. lia.
Qed.

(** Nothing but values reached refers to [x] when [x] is not held, or when all that leads to it is reached. *)
Lemma outside_none x u : x ∈ l -> ~ held hm x -> u ∈ values (nodes s) -> edge u x -> u ∈ l.
Proof.
  intros Hx Hh Hu He. destruct (decide (u ∈ l)) as [|Hul]; [done|exfalso].
  destruct (proj1 (elem_values _ _) (tg_values x Hx)) as [[n Hn] _].
  destruct (held_iff x n Hx Hn) as [_ Hiff]. pose proof (rd_counts _ _ _ Hready x n Hn) as Hc.
  rewrite (nrefs_split symbol_table (slots s) (nodes s) l x (gr_nodup _ _ _ _ _ (tg_greyed _ _ _ _ T)) tg_values) in Hc.
  pose proof (nrefs_pos symbol_table (slots s) (nodes s) (filter (fun y => y ∉ l) (values (nodes s))) x u) as Hp.
  rewrite list_elem_of_filter in Hp. specialize (Hp (conj Hul Hu) He). destruct Hh. apply Hiff. lia.
Qed.

Lemma edge_source_value u x y : edge u x -> edge x y -> x ∈ values (nodes s).
Proof.
  intros Hu Hx. apply elem_values. split; [|intros b Hb; by eapply (wf_private _ _ _ (rd_wf _ _ _ Hready))].
  rewrite <- (fmap_is_Some value), <- lookup_fmap. by apply (wf_refs _ _ _ (rd_wf _ _ _ Hready) u).
Qed.

Lemma black_closed u x : u ∈ bs -> x ∈ l -> edge u x -> x ∈ bs.
Proof.
  intros Hu Hx He. eapply (sn_closed _ _ _ _ _ _ _ _ (sd_scanning _ _ _ _ _ _ _ (tg_scanned _ _ _ _ T))); [done..|].
  intros ->. by apply (gr_ordinary _ _ _ _ _ (tg_greyed _ _ _ _ T)).
Qed.

Lemma white_not_held x : x ∈ l -> x ∉ bs -> ~ held hm x.
Proof. intros Hx Hb Hh. apply Hb, (sd_held _ _ _ _ _ _ _ (tg_scanned _ _ _ _ T)); [done|]. by exists x. Qed.

(** Whatever leads to a white value is white. *)
Lemma white_sources x u : x ∈ l -> x ∉ bs -> u ∈ values (nodes s) -> rtc edge u x -> u ∈ l /\ u ∉ bs.
Proof.
  intros Hx Hb Hu Hp. revert Hu. induction Hp as [x|u y x He Hp IH]; [done|]. intros Hu.
  assert (Hy : y ∈ l /\ y ∉ bs).
  { destruct (rtc_inv _ _ Hp) as [->|(z & Hz & _)]; [done|]. apply IH; [done..|]. by eapply edge_source_value. }
  destruct Hy as [Hyl Hyb]. split; [|by intros Hub; apply Hyb, (black_closed u)].
  apply (outside_none y); try done. by apply white_not_held.
Qed.

Lemma not_held_accounted x : x ∈ l -> ~ held hm x -> accounted symbol_table (slots s) (nodes s) x.
Proof.
  intros Hx Hh. destruct (proj1 (elem_values _ _) (tg_values x Hx)) as [[n Hn] _]. exists n. split; [done|].
  destruct (held_iff x n Hx Hn) as [Hle Hiff]. pose proof (rd_counts _ _ _ Hready x n Hn) as Hc.
  rewrite (nrefs_split symbol_table (slots s) (nodes s) l x (gr_nodup _ _ _ _ _ (tg_greyed _ _ _ _ T)) tg_values) in *.
  assert (~ Z.of_nat (nrefs l x) < refcount n) by tauto. lia.
Qed.

Lemma white_iff_garbage x : (x ∈ l /\ x ∉ bs) <-> garbage x.
Proof.
  split.
  - intros [Hx Hb]. split; [by apply (tg_reached _ _ _ _ T)|]. intros u Hu Hp.
    destruct (white_sources x u Hx Hb Hu Hp) as [Hul Hub]. split; [by apply (tg_reached _ _ _ _ T)|].
    apply not_held_accounted; [done|]. by apply white_not_held.
  - intros [Hr Hall]. assert (Hx : x ∈ l) by by apply (tg_reached _ _ _ _ T). split; [done|]. intros Hb.
    apply (sd_held _ _ _ _ _ _ _ (tg_scanned _ _ _ _ T) x Hx) in Hb as (u & Hu & Hh & Hp).
    destruct (Hall u (tg_values u Hu) Hp) as [_ (n & Hn & Hc)].
    apply (held_iff u n Hu Hn) in Hh.
    rewrite (nrefs_split symbol_table (slots s) (nodes s) l u (gr_nodup _ _ _ _ _ (tg_greyed _ _ _ _ T)) tg_values) in Hc.
    rewrite (nrefs_0 _ _ _ (filter _ _)) in Hc; [lia|].
    intros b [Hbl Hbv]%list_elem_of_filter He. apply Hbl, (tg_reached _ _ _ _ T).
    apply (Hall b Hbv). by eapply rtc_l.
Qed.

(** The colours: white is the garbage, and of the other values none is. *)
Lemma traced_color x n : x ∈ values (nodes s) -> nodes s' !! x = Some n ->
  (color n = GC_WHITE <-> garbage x) /\ (color n = GC_WHITE \/ color n = GC_BLACK).
Proof.
  intros Hx Hn. pose proof (tg_scanned _ _ _ _ T) as D. rewrite <- white_iff_garbage.
  assert (Hcol : col (nodes s') x = Some (color n)) by (unfold col; by rewrite Hn).
  destruct (decide (x ∈ l)) as [Hxl|Hxl].
  - rewrite (sd_white _ _ _ _ _ _ _ D x Hxl), Hcol. split; [split; [by intros ->|intros [? [= ?]]; done]|].
    destruct (decide (x ∈ bs)) as [Hb|Hb].
    + apply (sn_black _ _ _ _ _ _ _ _ (sd_scanning _ _ _ _ _ _ _ D) x Hxl) in Hb. right. congruence.
    + apply (sd_white _ _ _ _ _ _ _ D x Hxl) in Hb. left. congruence.
  - assert (Hblack : color n = GC_BLACK); [|rewrite Hblack; split; [split; [done|tauto]|by right]].
    apply (sn_out _ _ _ _ _ _ _ _ (sd_scanning _ _ _ _ _ _ _ D) x (color n)); [|done].
    rewrite elem_of_app, elem_tables. intros [?|(o & _ & Ho)]; [done|].
    by apply (proj2 (proj1 (elem_values _ _) Hx) o).
Qed.
End Garbage.
End Phases.

(** C10: after [gc_mark_roots] and [gc_scan_roots], both of which end, the white values are exactly the
    garbage: what a possible root reaches, when every value that leads to it is itself reached and has no
    reference from outside.  All other values are black, so nothing that is still in use is collected and
    every cycle that hangs on a possible root alone is found. *)
Theorem gc_white_is_garbage symbol_table s R : ready symbol_table s R ->
  exists s1 s2, gc_mark_roots symbol_table s = Some s1 /\ gc_scan_roots symbol_table s1 = Some s2 /\
    value <$> nodes s2 = value <$> nodes s /\
    forall a, a ∈ values (nodes s) -> exists n, nodes s2 !! a = Some n /\
      (color n = GC_WHITE <-> garbage symbol_table (slots s) (nodes s) R a) /\
      (color n = GC_WHITE \/ color n = GC_BLACK).
Proof.
  intros H. destruct (mark_scan_ok symbol_table s R H) as (s1 & s2 & hm & l & bs & E1 & E2 & T).
  pose proof (sn_values _ _ _ _ _ _ _ _ (sd_scanning _ _ _ _ _ _ _ (tg_scanned _ _ _ _ _ _ _ T))) as Hv.
  exists s1, s2. split_and!; [done..|]. intros a Ha.
  assert (is_Some (nodes s2 !! a)) as [n Hn].
  { rewrite <- (fmap_is_Some value), <- lookup_fmap, Hv, lookup_fmap, fmap_is_Some. by apply elem_values. }
  exists n. split; [done|]. by apply (traced_color symbol_table s R s2 hm l bs H T).
Qed.

(** An array that holds the only reference to itself, reported as a possible root. *)
Definition ex_cycle : zend_refcounted :=
  {| refcount := 1; color := GC_BLACK; address := 0; value := IS_ARRAY [IS_COUNTED ex_root] |}.

Lemma ex_ready : exists s', gc_possible_root (fun _ => None) (fun _ _ => None) ex_gc_on ex_root = Some s' /\
  ready 0 s' {[ex_root]} /\ slots s' = ∅ /\ exists idx, nodes s' = {[ex_root := GC_REF_SET_INFO idx GC_PURPLE ex_cycle]}.
Proof.
  assert (RS : root_set ex_gc_on ∅).
  { apply gc_enable_root_set; [reflexivity..|]. intros a n Hn. unfold ex_gc_state in Hn. cbn [nodes] in Hn.
    by apply lookup_singleton_Some in Hn as [_ <-]. }
  destruct RS as (m & us & B & Hp & HR).
  assert (Hptr : pointer ex_root) by (split; [unfold ex_root; lia|reflexivity]).
  destruct (gc_possible_root_ok (fun _ => None) (fun _ _ => None) ex_gc_on m us ex_root ex_cycle B)
    as (s' & i & us' & E & Hi & B' & N & V); [reflexivity..|right; left; reflexivity|done|apply lookup_singleton_eq|done|].
  assert (N' : nodes s' = {[ex_root := GC_REF_SET_INFO (gc_compress i) GC_PURPLE ex_cycle]}).
  { rewrite N. unfold ex_gc_on, ex_gc_state. cbn [nodes set_gc]. apply insert_singleton_eq. }
  exists s'. split_and!; [done| |by rewrite V|by eexists].
  assert (Hvals : forall a v, (value <$> nodes s') !! a = Some v -> a = ex_root /\ v = IS_ARRAY [IS_COUNTED ex_root]).
  { intros a v. rewrite N', map_fmap_singleton. by intros [<- <-]%lookup_singleton_Some. }
  assert (Hrefs : forall a b, edge 0 (slots s') (value <$> nodes s') a b -> b = ex_root).
  { intros a b He. unfold edge, refs in He. destruct ((value <$> nodes s') !! a) as [v|] eqn:Ea; [|by apply not_elem_of_nil in He].
    apply Hvals in Ea as [-> ->]. unfold array_refs in He. rewrite N', map_fmap_singleton, lookup_singleton_eq in He. cbn in He.
    by apply list_elem_of_singleton in He. }
  assert (Htab : forall a, own_table (value <$> nodes s') a = None).
  { intros a. unfold own_table. destruct ((value <$> nodes s') !! a) as [v|] eqn:Ea; [|done]. by apply Hvals in Ea as [_ ->]. }
  constructor.
  - constructor; try (intros a; intros; rewrite Htab in *; done).
    + intros a b ->%Hrefs. rewrite N', map_fmap_singleton, lookup_singleton_eq. by eexists.
    + intros v Hv%Hvals. by destruct Hv as [? _].
  - rewrite <- (union_empty_r_L {[ex_root]}). by eapply root_set_add.
  - constructor; [done| |intros; by rewrite Htab|].
    + intros r Hr. rewrite elem_of_elements, elem_of_singleton in Hr. rewrite Hr, N', lookup_singleton_eq. by eexists.
    + intros a n. rewrite N'. intros [<- <-]%lookup_singleton_Some. right. split; [done|]. by apply elem_of_elements, elem_of_singleton.
  - intros a n. rewrite N'. intros [<- <-]%lookup_singleton_Some.
    assert (Hval : values {[ex_root := GC_REF_SET_INFO (gc_compress i) GC_PURPLE ex_cycle]} = [ex_root]).
    { unfold values. rewrite map_fmap_singleton, dom_singleton_L, elements_singleton. by vm_compute. }
    rewrite Hval, nrefs_one. unfold refs, array_refs. rewrite map_fmap_singleton, lookup_singleton_eq. vm_compute. split; [discriminate|reflexivity].
Qed.

Lemma gc_white_is_garbage_witness : exists s s1 s2, gc_mark_roots 0 s = Some s1 /\ gc_scan_roots 0 s1 = Some s2 /\
  color <$> nodes s2 !! ex_root = Some GC_WHITE.
Proof.
  destruct ex_ready as (s & _ & H & Hsl & idx & N). destruct (gc_white_is_garbage 0 s {[ex_root]} H) as (s1 & s2 & E1 & E2 & _ & Hc).
  assert (Hval : values (nodes s) = [ex_root]).
  { rewrite N. unfold values. rewrite map_fmap_singleton, dom_singleton_L, elements_singleton. by vm_compute. }
  destruct (Hc ex_root) as (n & Hn & Hw & _); [rewrite Hval; by left|].
  exists s, s1, s2. split; [exact E1|]. split; [exact E2|]. rewrite Hn. cbn. f_equal. apply Hw.
  assert (Hr : reached 0 (slots s) (nodes s) {[ex_root]} ex_root).
  { split; [done|]. exists ex_root. split; [by apply elem_of_singleton|apply rtc_refl]. }
  split; [exact Hr|]. rewrite Hval. intros u Hu _. apply list_elem_of_singleton in Hu. subst u. split; [exact Hr|].
  unfold accounted. rewrite Hval, Hsl, N. eexists. split; [apply lookup_singleton_eq|].
  unfold nrefs. cbn. unfold refs, array_refs. rewrite map_fmap_singleton, lookup_singleton_eq. vm_compute. reflexivity.
Defined.
