(* ===== verification/ZendGcGarbage.v ===== *)
(** * Collecting the garbage

    [gc_collect_roots] takes the black roots out of the buffer, compacts it and puts the white values in
    it, tagged; on the way every reference they hold is counted again.  [holding] is the state of the
    buffer meanwhile, [collecting] that of the heap. *)
From S2P Require Import Prelude ZendGc ZendGcTrace ZendGcScan ZendGcBuffer ZendGcCollect.

(** What [gc_collect_white] counts, puts in the buffer, and finds a destructor to run for. *)
Definition counted (v : gc_value) : bool := match v with IS_REFERENCE _ => false | _ => true end.
Definition stored (v : gc_value) : bool :=
  match v with IS_OBJECT obj => negb (IS_OBJ_FREE_CALLED obj) | IS_ARRAY _ => true | _ => false end.
Definition destructs (v : gc_value) : bool :=
  match v with
  | IS_OBJECT obj => negb (IS_OBJ_FREE_CALLED obj) && (negb (IS_OBJ_DESTRUCTOR_CALLED obj) && runs_destructor obj)
  | _ => false
  end.

(** ** Removing the black roots *)
Section Black.
Implicit Types (s : gc_state) (m : gmap Z Z) (us : list Z).

Lemma remove_black_step s m us cur ref : buffer_ok s m us -> m !! cur = Some ref -> pointer ref ->
  color <$> nodes s !! ref = Some GC_BLACK ->
  exists h g us', set_node (nodes s) ref (GC_REF_SET_INFO 0 GC_BLACK) = Some h /\
    gc_remove_from_roots (gc s) cur = Some g /\ buffer_ok (set_nodes (set_gc s g) h) (delete cur m) us' /\
    core <$> h = core <$> nodes s /\ first_unused g = first_unused (gc s).
Proof.
  intros B Hm Hp Hc. pose proof B as [S L]. destruct (lk_entry _ _ L cur ref Hm) as (n & Hn & _).
  destruct (root_ptr ref Hp) as [Hptr _]. rewrite Hptr in Hn.
  destruct (remove_from_roots_ok _ _ _ _ _ S Hm) as (g & E & S' & _ & Hf). rewrite Hn in Hc. injection Hc as Hc.
  exists (<[ref := GC_REF_SET_INFO 0 GC_BLACK n]> (nodes s)), g, (cur :: us). unfold set_node. rewrite Hn. split_and!; try done.
  - constructor; [done|]. cbn. rewrite <- Hptr at 1. apply linked_remove; try done; [apply (so_inj _ _ _ _ S)|by rewrite Hptr].
  - rewrite fmap_insert. apply insert_id. rewrite lookup_fmap, Hn. cbn. by rewrite <- Hc.
Qed.

(** The loop takes out the roots that are black. *)
Lemma remove_black_ok k : forall s m us cur, buffer_ok s m us ->
  (forall i, cur <= i < cur + Z.of_nat k -> exists w, m !! i = Some w /\ pointer w) ->
  exists s' m' us', remove_black_loop k s cur = Some s' /\ buffer_ok s' m' us' /\
    core <$> nodes s' = core <$> nodes s /\ slots s' = slots s /\
    forall i w, m' !! i = Some w <->
      m !! i = Some w /\ ~ (cur <= i < cur + Z.of_nat k /\ color <$> nodes s !! w = Some GC_BLACK).
Proof.
  induction k as [|k IH]; intros s m us cur B Hr.
  { exists s, m, us. split_and!; try done. intros i w. split; [intros ?; split; [done|lia]|tauto]. }
  destruct (Hr cur ltac:(lia)) as (ref & Hm & Hp). destruct (root_ptr ref Hp) as (Hptr & Hroot & _).
  destruct (so_live _ _ _ _ (bo_slots _ _ _ B) cur ref Hm) as (_ & Hs & _).
  destruct (lk_entry _ _ (bo_linked _ _ _ B) cur ref Hm) as (n & Hn & _). rewrite Hptr in Hn.
  cbn [remove_black_loop]. rewrite Hs. cbn [mbind option_bind]. rewrite Hroot, Hn. cbn [mbind option_bind].
  unfold is_color. case_bool_decide as Hc.
  - destruct (remove_black_step s m us cur ref B Hm Hp) as (h & g & us1 & E1 & E2 & B1 & C1 & _); [by rewrite Hn, <- Hc|].
    rewrite E1. cbn [mbind option_bind]. rewrite E2. cbn [mbind option_bind].
    destruct (IH _ _ _ (cur + 1) B1) as (s' & m' & us' & E & B' & C' & V & Hm').
    { intros i Hi. destruct (Hr i ltac:(lia)) as (w & Hw & Hpw). exists w. rewrite lookup_delete_ne by lia. done. }
    exists s', m', us'. split_and!; try done; [by rewrite C'|]. intros i w. rewrite Hm', lookup_delete_Some.
    cbn [nodes set_nodes]. assert (Ec : forall a, color <$> h !! a = color <$> nodes s !! a).
    { intros a. assert (Ea : core <$> h !! a = core <$> nodes s !! a) by (by rewrite <- !lookup_fmap, C1).
      destruct (h !! a), (nodes s !! a); try done. unfold core in Ea. cbn in *. by injection Ea as _ -> _. }
    rewrite Ec. split.
    + intros [[Hne Hi] Hno]. split; [done|]. intros [? ?]. apply Hno. split; [lia|done].
    + intros [Hi Hno]. assert (cur <> i).
      { intros <-. apply Hno. split; [lia|]. rewrite Hi in Hm. injection Hm as ->. by rewrite Hn, <- Hc. }
      split; [done|]. intros [? ?]. apply Hno. split; [lia|done].
  - destruct (IH s m us (cur + 1) B) as (s' & m' & us' & E & B' & C' & V & Hm').
    { intros i Hi. apply Hr. lia. }
    exists s', m', us'. split_and!; try done. intros i w. rewrite Hm'. split.
    + intros [Hi Hno]. split; [done|]. intros [? Hcw]. destruct (decide (i = cur)) as [->|].
      * rewrite Hi in Hm. injection Hm as ->. rewrite Hn in Hcw. injection Hcw as Hcw. by destruct Hc.
      * apply Hno. split; [lia|done].
    + intros [Hi Hno]. split; [done|]. intros [? ?]. apply Hno. split; [lia|done].
Qed.
End Black.

(** ** The buffer while garbage is collected *)
Section Holding.
Context (symbol_table : Z) (vars : gmap Z zval) (vals : gmap Z gc_value).
Context (Hptr : forall a, is_Some (vals !! a) -> pointer a) (Hsize : Z.of_nat (size vals) < MAX_INDEX).
Context (RW : Z -> Prop) (last : Z).
Implicit Types (s : gc_state) (m : gmap Z Z) (L : list Z).

Definition is_stored (a : Z) : Prop := exists v, vals !! a = Some v /\ stored v = true.

(** The buffer holds the roots [RW] and, of the values of [L], those to be stored; the slots from [cur]
    up to [last] hold plain roots and all others tagged values. *)
Record holding s m L (cur : Z) : Prop := {
  hd_values : value <$> nodes s = vals;
  hd_buffer : buffer_ok s m [];
  hd_in : forall a, (exists i w, m !! i = Some w /\ GC_GET_PTR w = a) <-> RW a \/ (a ∈ L /\ is_stored a);
  hd_tagged : forall i w, m !! i = Some w -> ~ cur <= i < last -> w = GC_MAKE_GARBAGE (GC_GET_PTR w);
  hd_plain : forall i, cur <= i < last -> exists r, m !! i = Some r /\ pointer r }.

(** No slot is free below the end, so there are as many values as slots. *)
Lemma full_count g m : slots_ok g m [] [] -> first_unused g = Z.of_nat (size m) + 1.
Proof.
  intros S. pose proof (so_range _ _ _ _ S) as (Hr & _). pose proof (slots_size _ _ _ _ S) as Hsz.
  pose proof (live_bounds m (first_unused g) (first_unused g - 1)) as Hb.
  assert (first_unused g - 1 <= Z.of_nat (size m)); [|lia]. apply Hb; [|..|lia|lia].
  - intros i w Hi. destruct (so_live _ _ _ _ S i w Hi). lia.
  - intros i Hi. by destruct (so_all _ _ _ _ S i Hi) as [[]%not_elem_of_nil|[[]%not_elem_of_nil|?]].
Qed.

(** Every slot belongs to a different value. *)
Lemma buffer_small s m us a : value <$> nodes s = vals -> buffer_ok s m us -> is_Some (vals !! a) ->
  (forall i w, m !! i = Some w -> GC_GET_PTR w <> a) -> (size m < size vals)%nat.
Proof.
  intros Hv [S L] Ha Hno. rewrite <- (size_dom vals).
  assert (Hsub : ({[a]} ∪ (map_to_set (C := gset Z) (fun _ w => GC_GET_PTR w) m)) ⊆ dom vals).
  { intros x [->%elem_of_singleton|(i & w & Hi & <-)%elem_of_map_to_set]%elem_of_union; apply elem_of_dom; [done|].
    destruct (lk_entry _ _ L i w Hi) as (n & Hn & _). rewrite <- Hv, lookup_fmap, Hn. by eexists. }
  apply subseteq_size in Hsub. rewrite size_union, size_singleton in Hsub.
  - assert (size (map_to_set (C := gset Z) (fun _ w => GC_GET_PTR w) m) = size m); [|lia].
    unfold map_to_set. rewrite size_list_to_set.
    + by rewrite length_fmap, length_map_to_list.
    + apply NoDup_alt. intros j k x Hj Hk. rewrite list_lookup_fmap in Hj, Hk.
      apply fmap_Some in Hj as ([i w] & Hj & ->). apply fmap_Some in Hk as ([i' w'] & Hk & E). cbn in E.
      pose proof (list_elem_of_lookup_2 _ _ _ Hj) as Hj'%elem_of_map_to_list.
      pose proof (list_elem_of_lookup_2 _ _ _ Hk) as Hk'%elem_of_map_to_list.
      assert (i = i') as <- by (by apply (so_inj _ _ _ _ S i i' w w')). assert (w = w') as <- by congruence.
      by apply (NoDup_lookup (map_to_list m) j k (i, w)); [apply NoDup_map_to_list|..].
  - intros x ->%elem_of_singleton (i & w & Hi & E)%elem_of_map_to_set. by apply (Hno i w Hi).
Qed.

(** The address of a header tells whether the value is in the buffer. *)
Lemma address_0 s m us a n : buffer_ok s m us -> nodes s !! a = Some n ->
  address n = 0 <-> forall i w, m !! i = Some w -> GC_GET_PTR w <> a.
Proof.
  intros [S L] Hn. split.
  - intros H0 i w Hi E. destruct (lk_entry _ _ L i w Hi) as (n' & Hn' & Ha). rewrite E, Hn in Hn'. injection Hn' as <-.
    destruct (so_live _ _ _ _ S i w Hi) as (Hi1 & _). pose proof (compress_range i ltac:(lia)). lia.
  - intros Hno. destruct (Z.eq_dec (address n) 0) as [|H0]; [done|].
    destruct (lk_rest _ _ L a n Hn H0) as (i & w & Hi & Hw). by destruct (Hno i w Hi).
Qed.

(** [gc_add_garbage] uses the next slot. *)
Lemma gc_add_garbage_ok s m ref n : value <$> nodes s = vals -> buffer_ok s m [] -> nodes s !! ref = Some n -> address n = 0 ->
  exists s' i, gc_add_garbage s ref = Some s' /\ m !! i = None /\ i = Z.of_nat (size m) + 1 /\
    buffer_ok s' (<[i := GC_MAKE_GARBAGE ref]> m) [] /\
    nodes s' = <[ref := GC_REF_SET_INFO (gc_compress i) GC_BLACK n]> (nodes s) /\ slots s' = slots s.
Proof.
  intros Hv B Hn H0. pose proof B as [S L]. pose proof (full_count _ _ S) as Hf.
  assert (Hval : is_Some (vals !! ref)) by (rewrite <- Hv, lookup_fmap, Hn; by eexists).
  pose proof (buffer_small s m [] ref Hv B Hval (proj1 (address_0 s m [] ref n B Hn) H0)) as Hlt.
  destruct (fetch_or_grow_ok _ _ _ S) as (i & g & us & E & S' & _ & [(-> & Hi & Hf')|[? _]]); [lia| |done].
  pose proof (Hptr ref Hval) as Hp. pose proof (garbage_word ref Hp) as Hw.
  assert (Hget : GC_GET_PTR (GC_MAKE_GARBAGE ref) = ref) by (rewrite Hw; apply tagged_ptr; [done|lia]).
  assert (He : entry (GC_MAKE_GARBAGE ref)).
  { split; [by rewrite Hget|]. rewrite Hw. unfold GC_IS_UNUSED, GC_BITS. rewrite land_3; [done|apply Hp|lia]. }
  destruct (occupy_ok (set_gc s g) m [] i ref (GC_MAKE_GARBAGE ref) GC_BLACK n S' L He Hget Hn H0)
    as (s' & E' & B' & N & V & _).
  exists s', i. unfold gc_add_garbage. rewrite E. cbn [mbind option_bind]. split_and!; try done; [|lia].
  by apply (so_hole _ _ _ _ S' i); left.
Qed.

Lemma holding_add s m L cur ref n : holding s m L cur -> nodes s !! ref = Some n ->
  color n = GC_BLACK -> stored (value n) = true ->
  exists s' m', (if no_info n then gc_add_garbage s ref else Some s) = Some s' /\ holding s' m' (L ++ [ref]) cur /\
    m ⊆ m' /\ core <$> nodes s' = core <$> nodes s /\ slots s' = slots s.
Proof.
  intros [Hv B Hin Ht Hp] Hn Hc Hst.
  assert (Hval : vals !! ref = Some (value n)) by (by rewrite <- Hv, lookup_fmap, Hn).
  assert (Hs : is_stored ref) by (by exists (value n)).
  unfold no_info. rewrite Hc, bool_decide_eq_true_2, andb_true_r by done. destruct (Z.eqb_spec (address n) 0) as [H0|H0].
  - destruct (gc_add_garbage_ok s m ref n Hv B Hn H0) as (s' & i & E & Hi & Ei & B' & N & V).
    assert (Hget : GC_GET_PTR (GC_MAKE_GARBAGE ref) = ref).
    { assert (pointer ref) by (by apply Hptr; eexists). rewrite garbage_word by done. apply tagged_ptr; [done|lia]. }
    assert (Hcore : core <$> nodes s' = core <$> nodes s).
    { rewrite N, fmap_insert. apply insert_id. rewrite lookup_fmap, Hn. cbn. by rewrite <- Hc. }
    exists s', (<[i := GC_MAKE_GARBAGE ref]> m). split_and!; try done.
    + constructor; [by rewrite <- Hv; apply core_values|done| | |].
      * intros a. rewrite elem_of_app, list_elem_of_singleton. split.
        -- intros (j & w & [[_ <-]|[_ Hj]]%lookup_insert_Some & Hw); [right; rewrite Hget in Hw; subst; tauto|].
           assert (H : RW a \/ (a ∈ L /\ is_stored a)) by (apply Hin; by exists j, w). tauto.
        -- intros Ha. destruct (decide (a = ref)) as [->|Hne].
           { exists i, (GC_MAKE_GARBAGE ref). by rewrite lookup_insert_eq. }
           destruct (proj2 (Hin a)) as (j & w & Hj & Hw); [tauto|]. exists j, w.
           rewrite lookup_insert_ne; [done|]. intros ->. congruence.
      * intros j w [[_ <-]|[_ Hj]]%lookup_insert_Some Hr; [by rewrite Hget|by eapply Ht].
      * intros j Hj. destruct (Hp j Hj) as (r & Hr & Hpr). exists r. rewrite lookup_insert_ne; [done|]. intros ->. congruence.
    + by apply insert_subseteq.
  - exists s, m. split_and!; try done. constructor; try done. intros a. rewrite Hin, elem_of_app, list_elem_of_singleton.
    split; [tauto|]. intros [?|[[?| ->] ?]]; [by left|by right|]. apply Hin.
    destruct (lk_rest _ _ (bo_linked _ _ _ B) ref n Hn H0) as (i & w & ?). by exists i, w.
Qed.

(** A value that is not to be stored leaves the buffer alone. *)
Lemma holding_skip s m L cur ref v : holding s m L cur -> vals !! ref = Some v -> stored v = false -> holding s m (L ++ [ref]) cur.
Proof.
  intros [Hv B Hin Ht Hp] Hval Hst. constructor; try done. intros a. rewrite Hin, elem_of_app, list_elem_of_singleton.
  split; [tauto|]. intros [?|[[?| ->] (v' & Hv' & ?)]]; [by left|right; split; [done|by exists v']|congruence].
Qed.

Lemma collect_one_ok s m L cur ref n : holding s m L cur -> nodes s !! ref = Some n ->
  color n = GC_BLACK ->
  exists s' m', collect_one s ref = Some (s', if counted (value n) then 1 else 0, destructs (value n)) /\
    holding s' m' (L ++ [ref]) cur /\ m ⊆ m' /\ core <$> nodes s' = core <$> nodes s /\ slots s' = slots s.
Proof.
  intros H Hn Hc. unfold collect_one. rewrite Hn. cbn [mbind option_bind].
  assert (Hval : vals !! ref = Some (value n)) by (by rewrite <- (hd_values _ _ _ _ H), lookup_fmap, Hn).
  pose proof (holding_add s m L cur ref n H Hn Hc) as Hadd. pose proof (holding_skip s m L cur ref _ H Hval) as Hskip.
  destruct (value n) as [obj|els|v|]; cbn [stored counted destructs] in *.
  - destruct (IS_OBJ_FREE_CALLED obj); cbn [negb andb] in *; [exists s, m; by split_and!; auto|].
    destruct (Hadd eq_refl) as (s' & m' & E & R). exists s', m'. by rewrite E.
  - destruct (Hadd eq_refl) as (s' & m' & E & R). exists s', m'. by rewrite E.
  - exists s, m. by split_and!; auto.
  - exists s, m. by split_and!; auto.
Qed.
End Holding.

(** ** One traversal *)
Definition tally (vals : gmap Z gc_value) (L : list Z) : Z :=
  Z.of_nat (length (filter (fun a => counted <$> vals !! a = Some true) L)).
Definition any_destructs (vals : gmap Z gc_value) (L : list Z) : bool :=
  existsb (fun a => match vals !! a with Some v => destructs v | None => false end) L.

Lemma tally_app vals l1 l2 : tally vals (l1 ++ l2) = tally vals l1 + tally vals l2.
Proof. unfold tally. rewrite filter_app, length_app. lia. Qed.

Lemma tally_one vals a v : vals !! a = Some v -> tally vals [a] = if counted v then 1 else 0.
Proof.
  intros E. unfold tally. destruct (counted v) eqn:Ec; [rewrite filter_cons_True by (by rewrite E; cbn; rewrite Ec)|rewrite filter_cons_False].
  1,2: done. rewrite E. cbn. by rewrite Ec.
Qed.

Lemma tally_le vals l : 0 <= tally vals l <= Z.of_nat (length l).
Proof. unfold tally. pose proof (length_filter (fun a => counted <$> vals !! a = Some true) l). lia. Qed.

Lemma any_destructs_app vals l1 l2 : any_destructs vals (l1 ++ l2) = any_destructs vals l1 || any_destructs vals l2.
Proof. apply existsb_app. Qed.

Lemma any_destructs_one vals a v : vals !! a = Some v -> any_destructs vals [a] = destructs v.
Proof. intros E. unfold any_destructs. cbn. by rewrite E, orb_false_r. Qed.

Lemma next_ref_pending next st : next_ref next st = match pending next st with ref :: w => Some (ref, w) | [] => None end.
Proof. by destruct next, st. Qed.

Section Traversal.
Context (symbol_table : Z) (vars : gmap Z zval) (vals : gmap Z gc_value) (wf : well_formed symbol_table vars vals).
Context (Hptr : forall a, is_Some (vals !! a) -> pointer a) (Hsize : Z.of_nat (size vals) < MAX_INDEX).
Context (RW : Z -> Prop) (last : Z).
Local Abbreviation tracing := (tracing symbol_table vars vals collect_white).
Local Abbreviation moved := (moved symbol_table vars vals collect_white).
Local Abbreviation holding := (holding vals RW last).
Local Abbreviation white := (fresh collect_white).
Implicit Types (s : gc_state) (h : heap) (m : gmap Z Z) (l w L : list Z).

Lemma tracing_core h r hc (hc' : heap) l w : core <$> hc = core <$> hc' -> tracing h r hc l w -> tracing h r hc' l w.
Proof.
  intros E T. destruct T as [Hm ? ? ? ? ? Hg ?]. constructor; try done; [by eapply moved_core|].
  cbn in *. destruct Hg as [? Hg]. split; [done|]. rewrite <- Hg.
  assert (Ea : core <$> hc !! symbol_table = core <$> hc' !! symbol_table) by (by rewrite <- !lookup_fmap, E).
  destruct (hc !! symbol_table), (hc' !! symbol_table); try done. unfold core in Ea. cbn in *. by injection Ea as _ -> _.
Qed.

Lemma holding_heap s m L cur h : value <$> h = vals -> same_addresses (nodes s) h -> holding s m L cur ->
  holding (set_nodes s h) m L cur.
Proof.
  intros Hv E [_ [S Lk] ? ? ?]. constructor; try done. constructor; [done|]. by apply (linked_addresses (nodes s)).
Qed.

Section Loop.
Context (h : heap) (r : Z) (Hv : value <$> h = vals) (Hdom : is_Some (h !! r)).
Context (Hskip : forall a t n, a = r \/ white h a -> own_table vals a = Some t -> h !! t = Some n -> color n <> GC_BLACK).
Context (Hr : forall b, own_table vals b <> Some r) (Hglob : ~ white h symbol_table /\ r <> symbol_table).

Lemma tracing_top hc l w ref : tracing h r hc l (ref :: w) -> ref <> symbol_table /\
  exists n, hc !! ref = Some n /\ color n = GC_BLACK /\ vals !! ref = Some (value n).
Proof.
  intros T. pose proof (tr_globals _ _ _ _ _ _ _ _ _ T) as [Hg _].
  assert (Hs : ref <> symbol_table) by (intros ->; apply Hg; by left). split; [done|].
  pose proof (tr_moved _ _ _ _ _ _ _ _ _ T) as Hm.
  destruct (proj2 (moved_lookup _ _ _ _ _ _ _ _ ref Hm)) as [n Hn].
  { apply (tr_from _ _ _ _ _ _ _ _ _ T ref). rewrite elem_of_app, elem_ordinary. right. split; [done|by left]. }
  exists n. destruct (moved_color _ _ _ _ _ _ _ _ _ _ Hm Hs Hn) as (n' & _ & Hc).
  rewrite bool_decide_eq_true_2 in Hc by set_solver. split_and!; try done.
  by rewrite <- (moved_values _ _ _ wf _ _ _ _ _ Hv Hm), lookup_fmap, Hn.
Qed.

Lemma length_visited hc l w ref : tracing h r hc l (ref :: w) -> (length l < size h)%nat.
Proof.
  intros T. pose proof (tracing_size _ _ _ _ _ _ _ _ _ T) as Hsz. destruct (tracing_top _ _ _ _ T) as [Hs _].
  rewrite length_app in Hsz. unfold ordinary in Hsz. rewrite filter_cons_True in Hsz by done. cbn in Hsz. lia.
Qed.

Lemma collect_white_loop_ok fuel : forall s m L l w ref flags cur, slots s = vars ->
  tracing h r (nodes s) l (ref :: w) -> holding s m (L ++ l) cur ->
  (size h - length l <= fuel)%nat ->
  exists s' m' l', collect_white_loop symbol_table fuel s ref w (tally vals l) flags =
      Some (s', tally vals l', flags || any_destructs vals (drop (length l) l')) /\
    slots s' = vars /\ tracing h r (nodes s') l' [] /\ holding s' m' (L ++ l') cur /\ m ⊆ m' /\
    l `prefix_of` l'.
Proof.
  induction fuel as [|fuel IH]; intros s m L l w ref flags cur Hsl T H Hf; pose proof (length_visited _ _ _ _ T) as Hlen.
  { lia. }
  destruct (tracing_top _ _ _ _ T) as (Hs & n & Hn & Hc & Hval). cbn [collect_white_loop].
  destruct (collect_one_ok vals Hptr Hsize RW last s m (L ++ l) cur ref n H Hn Hc) as (s1 & m1 & E1 & H1 & Hsub & C1 & V1).
  rewrite E1. cbn [mbind option_bind]. rewrite <- (tally_one vals ref _ Hval), <- tally_app.
  rewrite int_ok.
  2: { pose proof (tally_le vals (l ++ [ref])) as Hle. rewrite length_app in Hle. cbn in Hle. unfold is_i32.
       rewrite <- Hv, map_size_fmap in Hsize. unfold MAX_INDEX in Hsize. lia. }
  cbn [mbind option_bind]. apply (tracing_core h r _ (nodes s1)) in T; [|done]. rewrite V1, Hsl.
  assert (Hskip' : forall a t n, a = r \/ white h a -> own_table vals a = Some t -> h !! t = Some n ->
    skip_table collect_white (color n) = false).
  { intros a t k Ha Ht Hk. apply bool_decide_eq_false_2. by eapply Hskip. }
  destruct (tracing_step symbol_table vars vals wf collect_white eq_refl h r Hv Hdom Hskip' Hr Hglob (nodes s1) l w ref T Hs)
    as (hc & st & next & new & E2 & Ep & _ & T2).
  rewrite E2. cbn [mbind option_bind].
  pose proof (moved_values _ _ _ wf _ _ _ _ _ Hv (tr_moved _ _ _ _ _ _ _ _ _ T2)) as Hvc.
  pose proof (holding_heap s1 m1 _ cur hc Hvc (traverse_address _ _ _ _ _ _ _ E2) H1) as H2. rewrite <- app_assoc in H2.
  rewrite next_ref_pending, Ep.
  assert (Hd : forall l', l ++ [ref] `prefix_of` l' -> l `prefix_of` l' /\
    destructs (value n) || any_destructs vals (drop (length (l ++ [ref])) l') = any_destructs vals (drop (length l) l')).
  { intros l' [k ->]. split; [rewrite <- app_assoc; by eexists|]. rewrite drop_app_length, <- app_assoc, drop_app_length.
    by rewrite any_destructs_app, (any_destructs_one vals ref _ Hval). }
  destruct (new ++ w) as [|ref' w'] eqn:Enew.
  - exists (set_nodes s1 hc), m1, (l ++ [ref]). destruct (Hd (l ++ [ref])) as [Hp Ed]; [done|].
    rewrite <- Ed, drop_all, orb_false_r. split_and!; try done. cbn. congruence.
  - destruct (IH (set_nodes s1 hc) m1 L (l ++ [ref]) w' ref' (flags || destructs (value n)) cur)
      as (s' & m' & l' & E & V' & T' & H' & Hl' & Hp'); try done; [cbn; congruence|rewrite length_app; cbn; lia|].
    exists s', m', l'. destruct (Hd l' Hp') as [Hp Ed]. rewrite <- Ed, orb_assoc. split_and!; try done. by etrans.
Qed.
End Loop.

(** ** The roots *)
Section Roots.
(** The heap after scanning: all roots are white, and so are the tables of white objects. *)
Context (h2 : heap) (Hv2 : value <$> h2 = vals) (Hsym : ~ white h2 symbol_table).
Context (HRW : forall a, RW a -> white h2 a /\ forall b, own_table vals b <> Some a).
Context (Htables : forall a t, white h2 a -> own_table vals a = Some t -> white h2 t).
Local Abbreviation edge := (edge symbol_table vars vals).

(** Of the roots those before slot [cur] are done, and [L] was collected. *)
Record collecting s m L (cur : Z) : Prop := {
  cl_holding : holding s m L cur;
  cl_slots : slots s = vars;
  cl_moved : moved h2 (nodes s) L (L ++ tables vals L);
  cl_nodup : NoDup L;
  cl_white : forall a, a ∈ L -> white h2 a /\ forall b, own_table vals b <> Some a;
  cl_from : forall a, a ∈ L -> exists r, RW r /\ rtc edge r a;
  cl_closed : forall a b, a ∈ L -> edge a b -> white h2 b -> b ∈ L;
  cl_todo : forall a, RW a -> a ∈ L \/ exists i, cur <= i < last /\ m !! i = Some a;
  cl_globals : color <$> nodes s !! symbol_table = color <$> h2 !! symbol_table }.

Lemma white_ordinary a : white h2 a -> a <> symbol_table.
Proof. by intros Ha ->. Qed.

Lemma slots_retag s m us i r : buffer_ok s m us -> m !! i = Some r -> pointer r ->
  exists g, set_slot (gc s) i (GC_MAKE_GARBAGE r) = Some g /\ buffer_ok (set_gc s g) (<[i := GC_MAKE_GARBAGE r]> m) us.
Proof.
  intros [S Lk] Hi Hp. destruct (so_live _ _ _ _ S i r Hi) as (Hri & Hsi & _).
  destruct (slots_write _ _ _ _ i (GC_MAKE_GARBAGE r) S) as (g & E & Eg & Hb & Hs); [lia|]. exists g. split; [done|].
  assert (Hget : GC_GET_PTR (GC_MAKE_GARBAGE r) = GC_GET_PTR r).
  { rewrite (garbage_word r Hp), (tagged_ptr r 2 Hp) by lia. symmetry. by apply root_ptr. }
  assert (Hm : forall j (w : Z), <[i := GC_MAKE_GARBAGE r]> m !! j = Some w -> exists (w' : Z), m !! j = Some w' /\ GC_GET_PTR w' = GC_GET_PTR w).
  { intros j w [[<- <-]|[_ Hj]]%lookup_insert_Some; [exists r; by rewrite Hget|by exists w]. }
  assert (Hnone : forall j, m !! j = None -> <[i := GC_MAKE_GARBAGE r]> m !! j = None).
  { intros j Hj. rewrite lookup_insert_ne; [done|]. intros ->. congruence. }
  constructor; cbn [gc set_gc nodes].
  - rewrite Eg in Hs |- *. constructor; cbn -[slot_at]; try apply S; try done.
    + intros j w [[<- <-]|[Hne Hj]]%lookup_insert_Some; [rewrite Hs, decide_True by done|rewrite Hs, decide_False by done; by apply S].
      split_and!; [lia..|done|]. split; [rewrite Hget, (proj1 (root_ptr r Hp)); done|].
      rewrite garbage_word by done. unfold GC_IS_UNUSED, GC_BITS. rewrite land_3; [done|apply Hp|lia].
    + intros j k w w' (x & Hj & Ex)%Hm (y & Hk & Ey)%Hm Ew. apply (so_inj _ _ _ _ S j k x y Hj Hk). congruence.
    + eapply chain_ext; [|apply S]. intros j Hj. rewrite Hs, decide_False; [done|]. intros ->.
      destruct (so_unused _ _ _ _ S i Hj) as (_ & ? & _). congruence.
    + intros j Hj. destruct (so_unused _ _ _ _ S j Hj) as (? & ? & ?). by auto.
    + by intros j []%not_elem_of_nil.
    + intros j Hj. destruct (so_all _ _ _ _ S j Hj) as [?|[?|[x Hx]]]; [by left|by right; left|right; right].
      destruct (decide (i = j)) as [->|]; [rewrite lookup_insert_eq|rewrite lookup_insert_ne by done]; by eexists.
    + rewrite map_size_insert_Some by (by eexists). apply S.
  - constructor.
    + intros j w (x & Hj & <-)%Hm. by apply Lk.
    + intros a n Ha Hn. destruct (lk_rest _ _ Lk a n Ha Hn) as (j & w & Hj & Hw). destruct (decide (i = j)) as [<-|].
      * exists i, (GC_MAKE_GARBAGE r). rewrite lookup_insert_eq. split; [done|congruence].
      * exists j, w. by rewrite lookup_insert_ne.
Qed.

(** The tag is set: the root is no longer one of those to come, but it still has to be collected. *)
Lemma holding_retag s m L cur : holding s m L cur -> cur < last ->
  exists r g, m !! cur = Some r /\ pointer r /\ set_slot (gc s) cur (GC_MAKE_GARBAGE r) = Some g /\
    holding (set_gc s g) (<[cur := GC_MAKE_GARBAGE r]> m) L (cur + 1) /\ (RW r \/ r ∈ L).
Proof.
  intros [Hv B Hin Ht Hp] Hcur. destruct (Hp cur ltac:(lia)) as (r & Hr & Hpr).
  destruct (slots_retag s m [] cur r B Hr Hpr) as (g & E & B'). exists r, g.
  pose proof (proj1 (root_ptr r Hpr)) as Hget.
  assert (Hget' : GC_GET_PTR (GC_MAKE_GARBAGE r) = r) by (rewrite garbage_word by done; apply tagged_ptr; [done|lia]).
  split_and!; try done.
  - constructor; try done.
    + intros a. rewrite <- Hin. split; intros (i & w & Hi & Hw).
      * apply lookup_insert_Some in Hi as [[<- <-]|[_ Hi]]; [exists cur, r; split; [done|congruence]|by exists i, w].
      * destruct (decide (cur = i)) as [<-|]; [exists cur, (GC_MAKE_GARBAGE r)|by exists i, w; rewrite lookup_insert_ne].
        rewrite lookup_insert_eq. split; [done|congruence].
    + intros i w [[<- <-]|[Hne Hi]]%lookup_insert_Some Hn; [by rewrite Hget'|]. apply (Ht i w Hi). lia.
    + intros i Hi. destruct (Hp i ltac:(lia)) as (x & Hx & Hpx). exists x. by rewrite lookup_insert_ne by lia.
  - assert (H : RW r \/ (r ∈ L /\ is_stored vals r)) by (apply Hin; by exists cur, r). tauto.
Qed.

Lemma collecting_size s m L cur : collecting s m L cur -> (length L <= size vals)%nat.
Proof.
  intros C. rewrite <- (size_list_to_set (C := gset Z)) by apply C. rewrite <- size_dom.
  apply subseteq_size. intros a (( n & Hn & _) & _)%elem_of_list_to_set%(cl_white _ _ _ _ C). apply elem_of_dom.
  rewrite <- Hv2, lookup_fmap, Hn. by eexists.
Qed.

(** White in the current heap is what was white and is not collected yet. *)
Lemma white_now s m L cur a : collecting s m L cur -> a <> symbol_table -> (forall b, own_table vals b <> Some a) ->
  white (nodes s) a <-> white h2 a /\ a ∉ L.
Proof.
  intros C Ha Hb. rewrite (moved_fresh _ _ _ collect_white eq_refl _ _ _ _ _ (cl_moved _ _ _ _ C) Ha), elem_of_app, elem_tables.
  split; [tauto|]. intros [? ?]. split; [done|]. intros [?|(o & _ & Ho)]; [done|by apply (Hb o)].
Qed.

Lemma collecting_retag s m L cur : collecting s m L cur -> cur < last ->
  exists r g, m !! cur = Some r /\ pointer r /\ set_slot (gc s) cur (GC_MAKE_GARBAGE r) = Some g /\
    (RW r \/ r ∈ L) /\ (r ∈ L -> collecting (set_gc s g) (<[cur := GC_MAKE_GARBAGE r]> m) L (cur + 1)) /\
    holding (set_gc s g) (<[cur := GC_MAKE_GARBAGE r]> m) L (cur + 1) /\
    (forall a, RW a -> a = r \/ a ∈ L \/ exists i, cur + 1 <= i < last /\ <[cur := GC_MAKE_GARBAGE r]> m !! i = Some a).
Proof.
  intros C Hcur. destruct (holding_retag s m L cur (cl_holding _ _ _ _ C) Hcur) as (r & g & Hr & Hpr & E & H & Hin).
  assert (Htodo : forall a, RW a -> a = r \/ a ∈ L \/ exists i, cur + 1 <= i < last /\ <[cur := GC_MAKE_GARBAGE r]> m !! i = Some a).
  { intros a Ha. destruct (cl_todo _ _ _ _ C a Ha) as [?|(i & Hi & Hm)]; [tauto|].
    destruct (decide (i = cur)) as [->|Hne]; [left; congruence|right; right]. exists i. rewrite lookup_insert_ne by done. split; [lia|done]. }
  exists r, g. split_and!; try done. intros HL. destruct C as [C1 C2 C3 C4 C5 C6 C7 C8 C9]. constructor; try done.
  intros a Ha. destruct (Htodo a Ha) as [->|?]; [by left|done].
Qed.

(** A root that is still white starts a traversal. *)
Lemma collect_white_root s1 m1 L cur r flags : slots s1 = vars -> moved h2 (nodes s1) L (L ++ tables vals L) ->
  color <$> nodes s1 !! symbol_table = color <$> h2 !! symbol_table -> (forall a, a ∈ L -> forall b, own_table vals b <> Some a) ->
  holding s1 m1 L cur -> RW r -> white (nodes s1) r ->
  exists h s' m' l, set_node (nodes s1) r (GC_REF_SET_COLOR GC_BLACK) = Some h /\
    gc_collect_white symbol_table (set_nodes s1 h) r flags = Some (s', tally vals l, flags || any_destructs vals l) /\
    slots s' = vars /\ traced symbol_table vars vals collect_white (nodes s1) r (nodes s') l /\ holding s' m' (L ++ l) cur /\
    m1 ⊆ m'.
Proof.
  intros Hsl Hm Hg HL H Hr Hw. pose proof (moved_values _ _ _ wf _ _ _ _ _ Hv2 Hm) as Hv.
  destruct (HRW r Hr) as [Hw2 Hrt]. pose proof Hw as (n & Hn & _).
  assert (Hsym' : ~ white (nodes s1) symbol_table).
  { intros (k & Hk & Hf). rewrite Hk in Hg. destruct (h2 !! symbol_table) as [k2|] eqn:E2; [|done]. injection Hg as Hg.
    apply Hsym. exists k2. by rewrite <- Hg. }
  assert (Hskip : forall a t k, a = r \/ white (nodes s1) a -> own_table vals a = Some t -> nodes s1 !! t = Some k -> color k <> GC_BLACK).
  { intros a t k Ha Ht Hk. assert (Hwa : white (nodes s1) a) by (by destruct Ha as [->|]).
    assert (Has : a <> symbol_table) by (by intros ->).
    assert (Hts : t <> symbol_table) by (intros ->; by eapply wf_globals).
    apply (moved_fresh _ _ _ collect_white eq_refl _ _ _ _ _ Hm Has) in Hwa as [Hwa Hout].
    assert (Hwt : white (nodes s1) t).
    { apply (moved_fresh _ _ _ collect_white eq_refl _ _ _ _ _ Hm Hts). split; [by eapply Htables|].
      rewrite elem_of_app, elem_tables. intros [Hl|(o & Ho & Hot)]; [by apply (HL t Hl a)|].
      assert (o = a) as -> by (by eapply wf_unique). apply Hout, elem_of_app. by left. }
    destruct Hwt as (k' & Hk' & Hf). rewrite Hk in Hk'. injection Hk' as <-. by intros Hb; rewrite Hb in Hf. }
  assert (Hglob : ~ white (nodes s1) symbol_table /\ r <> symbol_table) by (split; [done|by intros ->]).
  destruct (set_node_lookup (nodes s1) r (GC_REF_SET_COLOR GC_BLACK) n Hn) as (h & E & _).
  assert (Hskip' : forall a t k, a = r \/ white (nodes s1) a -> own_table vals a = Some t -> nodes s1 !! t = Some k ->
    skip_table collect_white (color k) = false).
  { intros a t k Ha Ht Hk. apply bool_decide_eq_false_2. by eapply Hskip. }
  pose proof (tracing_start symbol_table vars vals wf collect_white eq_refl (nodes s1) r Hv (ex_intro _ n Hn) Hskip' Hrt Hglob h E) as T.
  pose proof (holding_heap s1 m1 L cur h (moved_values _ _ _ wf _ _ _ _ _ Hv (tr_moved _ _ _ _ _ _ _ _ _ T))
    (set_node_address (nodes s1) r (GC_REF_SET_COLOR GC_BLACK) h (fun _ => eq_refl) E) H) as H1.
  rewrite <- (app_nil_r L) in H1.
  destruct (collect_white_loop_ok (nodes s1) r Hv (ex_intro _ n Hn) Hskip Hrt Hglob (trace_fuel h) (set_nodes s1 h) m1 L [] [] r flags cur Hsl T H1)
    as (s' & m' & l & E' & V' & T' & H' & Hl' & _).
  { unfold trace_fuel. rewrite <- (map_size_fmap value (nodes s1)), Hv.
    rewrite <- (map_size_fmap value h), (moved_values _ _ _ wf _ _ _ _ _ Hv (tr_moved _ _ _ _ _ _ _ _ _ T)). lia. }
  exists h, s', m', l. cbn [length drop] in E'. split_and!; try done. by apply tracing_traced.
Qed.

Lemma collecting_more h L r (h' : heap) l : moved h2 h L (L ++ tables vals L) -> RW r ->
  NoDup L -> (forall a, a ∈ L -> white h2 a /\ forall b, own_table vals b <> Some a) ->
  traced symbol_table vars vals collect_white h r h' l -> white h r ->
  moved h2 h' (L ++ l) ((L ++ l) ++ tables vals (L ++ l)) /\ NoDup (L ++ l) /\
  (forall a, a ∈ l -> white h2 a /\ a ∉ L /\ forall b, own_table vals b <> Some a).
Proof.
  intros Hm Hr Hnd HL T Hw.
  assert (Hl : forall a, a ∈ l -> white h2 a /\ a ∉ L /\ forall b, own_table vals b <> Some a).
  { intros a Ha. destruct (td_from _ _ _ _ _ _ _ _ T a Ha) as (_ & Hf & Hp).
    assert (Hwa : white h a) by (by destruct Hf as [->|]).
    assert (Has : a <> symbol_table) by (intros ->; by apply (td_ordinary _ _ _ _ _ _ _ _ T)).
    apply (moved_fresh _ _ _ collect_white eq_refl _ _ _ _ _ Hm Has) in Hwa as [Hw2 Hout].
    split_and!; [done|set_solver|]. apply trace_edges, rtc_inv_r in Hp as [<-|(b & _ & Hb)]; [by apply HRW|].
    intros o Ho. by eapply wf_private. }
  split_and!; [|apply NoDup_app; split_and!; [done| |apply T]; intros a Ha Ha'; by destruct (Hl a Ha') as (_ & ? & _)|done].
  eapply moved_trans; [done|apply T|]. intros a _. rewrite tables_app. set_solver.
Qed.

Lemma collect_roots_step s m L cur flags n : collecting s m L cur -> cur < last ->
  exists s' m' L', collecting s' m' L' (cur + 1) /\ L `prefix_of` L' /\
    collect_roots_loop symbol_table (S n) s cur (tally vals L) flags =
    collect_roots_loop symbol_table n s' (cur + 1) (tally vals L') (flags || any_destructs vals (drop (length L) L')).
Proof.
  intros C Hcur. destruct (collecting_retag s m L cur C Hcur) as (r & g & Hr & Hpr & E & Hin & Hold & H1 & Htodo).
  pose proof (so_live _ _ _ _ (bo_slots _ _ _ (hd_buffer _ _ _ _ _ _ _ (cl_holding _ _ _ _ C))) cur r Hr) as (_ & Hs & _).
  assert (Hwr : white h2 r /\ forall b, own_table vals b <> Some r) by (destruct Hin; [by apply HRW|by apply (cl_white _ _ _ _ C)]).
  destruct Hwr as [Hwr Hrt]. pose proof (white_ordinary r Hwr) as Hrs.
  destruct (proj2 (moved_lookup _ _ _ _ _ _ _ _ r (cl_moved _ _ _ _ C))) as [k Hk]; [destruct Hwr as (k & Hk & _); by eexists|].
  assert (Hwk : is_color GC_WHITE (color k) = true <-> white (nodes s) r).
  { split; [intros Hc; by exists k|]. intros (k' & Hk' & Hf). rewrite Hk in Hk'. by injection Hk' as <-. }
  cbn [collect_roots_loop]. rewrite Hs. cbn [mbind option_bind]. rewrite E. cbn [mbind option_bind nodes set_gc]. rewrite Hk.
  cbn [mbind option_bind]. pose proof (white_now s m L cur r C Hrs Hrt) as Hnow.
  destruct (is_color GC_WHITE (color k)) eqn:Ec.
  - destruct (proj1 Hnow (proj1 Hwk eq_refl)) as [_ HrL]. assert (HRr : RW r) by tauto.
    pose proof C as [_ Csl Cm Cnd Cw Cf Ccl _ Cg].
    destruct (collect_white_root (set_gc s g) _ L (cur + 1) r flags Csl Cm Cg (fun a Ha => proj2 (Cw a Ha)) H1 HRr (proj1 Hwk eq_refl))
      as (h & s' & m' & l & E1 & E2 & V' & T & H' & Hl').
    cbn [nodes set_gc] in E1. rewrite E1. cbn [mbind option_bind]. rewrite E2. cbn [mbind option_bind].
    destruct (collecting_more (nodes s) L r (nodes s') l Cm HRr Cnd Cw T (proj1 Hwk eq_refl)) as (Hm2 & Hnd2 & Hl2).
    assert (C' : collecting s' m' (L ++ l) (cur + 1)).
    { constructor; try done.
      - intros a [Ha|Ha]%elem_of_app; [by apply Cw|]. by destruct (Hl2 a Ha) as (? & _ & ?).
      - intros a [Ha|Ha]%elem_of_app; [by apply Cf|]. exists r. split; [done|]. eapply trace_edges. by apply T.
      - intros a b [Ha|Ha]%elem_of_app He Hb; apply elem_of_app; [left; by eapply Ccl|].
        destruct (decide (b ∈ L)) as [|Hb']; [by left|right]. pose proof (white_ordinary b Hb) as Hbs.
        eapply (td_closed _ _ _ _ _ _ _ _ T); try done. apply (white_now s m L cur b C Hbs); [|done].
        intros o Ho. by eapply wf_private.
      - intros a Ha. rewrite elem_of_app. destruct (Htodo a Ha) as [->|[?|(i & Hi & Hmi)]]; [left; right; by apply T|tauto|right].
        exists i. split; [done|]. by eapply lookup_weaken.
      - rewrite (td_globals _ _ _ _ _ _ _ _ T). exact Cg. }
    exists s', m', (L ++ l). split_and!; [done|by eexists|]. rewrite <- tally_app, drop_app_length. rewrite int_ok.
    + done.
    + pose proof (collecting_size _ _ _ _ C') as Hsz. pose proof (tally_le vals (L ++ l)). unfold is_i32. unfold MAX_INDEX in Hsize. lia.
  - assert (HrL : r ∈ L).
    { destruct (decide (r ∈ L)) as [|HrL]; [done|]. assert (Hw : white (nodes s) r) by tauto. apply Hwk in Hw. done. }
    exists (set_gc s g), (<[cur := GC_MAKE_GARBAGE r]> m), L. rewrite drop_all, orb_false_r. split_and!; [by apply Hold|done|done].
Qed.

Lemma collect_roots_loop_ok n : forall s m L cur flags, collecting s m L cur -> cur + Z.of_nat n = last ->
  exists s' m' L', collect_roots_loop symbol_table n s cur (tally vals L) flags =
      Some (s', tally vals L', flags || any_destructs vals (drop (length L) L')) /\
    collecting s' m' L' last /\ L `prefix_of` L'.
Proof.
  induction n as [|n IH]; intros s m L cur flags C Hn.
  - exists s, m, L. rewrite drop_all, orb_false_r. replace last with cur by lia. done.
  - destruct (collect_roots_step s m L cur flags n C) as (s1 & m1 & L1 & C1 & Hp1 & E); [lia|]. rewrite E.
    destruct (IH s1 m1 L1 (cur + 1) (flags || any_destructs vals (drop (length L) L1)) C1) as (s' & m' & L' & E' & C' & Hp'); [lia|].
    exists s', m', L'. split_and!; [|done|by etrans]. rewrite E'. do 2 f_equal. rewrite <- orb_assoc. f_equal.
    destruct Hp1 as [k1 ->]. destruct Hp' as [k2 ->].
    by rewrite drop_app_length, <- app_assoc, !drop_app_length, any_destructs_app, app_assoc, drop_app_length.
Qed.
End Roots.
End Traversal.

(** ** The garbage *)
Section Collected.
Context (symbol_table : Z) (s : gc_state) (R : gset Z) (Hready : ready symbol_table s R).
Context (Hptr : forall a, is_Some (nodes s !! a) -> pointer a) (Hsize : Z.of_nat (size (nodes s)) < MAX_INDEX).
Local Abbreviation vals := (value <$> nodes s).
Local Abbreviation edge := (edge symbol_table (slots s) vals).
Local Abbreviation nrefs := (nrefs symbol_table (slots s) vals).
Local Abbreviation garbage := (garbage symbol_table (slots s) (nodes s) R).
Local Abbreviation white := (fresh collect_white).

Section Scanned.
Context (s2 : gc_state) (hm : heap) (l bs : list Z) (T : traced_garbage symbol_table s R s2 hm l bs).
Local Abbreviation collecting := (collecting symbol_table (slots s) vals).

Lemma white_col a : white (nodes s2) a <-> col (nodes s2) a = Some GC_WHITE.
Proof.
  rewrite fresh_col. split; [intros (c & -> & Hc)|intros ->; by eexists]. by apply is_color_iff in Hc as ->.
Qed.

Lemma scanned_values : value <$> nodes s2 = vals.
Proof. apply (sn_values _ _ _ _ _ _ _ _ (sd_scanning _ _ _ _ _ _ _ (tg_scanned _ _ _ _ _ _ _ T))). Qed.

Lemma white_garbage a : a ∈ values (nodes s) -> white (nodes s2) a <-> garbage a.
Proof.
  intros Ha. assert (is_Some (nodes s2 !! a)) as [n Hn].
  { rewrite <- (fmap_is_Some value), <- lookup_fmap, scanned_values, lookup_fmap, fmap_is_Some. by apply elem_values. }
  destruct (traced_color symbol_table s R s2 hm l bs Hready T a n Ha Hn) as [Hiff _].
  rewrite white_col, <- Hiff. unfold col. rewrite Hn. cbn. split; [by intros [= ->]|by intros ->].
Qed.

Lemma reached_values a : reached symbol_table (slots s) (nodes s) R a -> a ∈ values (nodes s).
Proof. intros Ha. apply (tg_values symbol_table s R s2 hm l bs T). by apply (tg_reached _ _ _ _ _ _ _ T). Qed.

Lemma scanned_out a c : a ∉ l ++ tables vals l -> col (nodes s2) a = Some c -> c = GC_BLACK.
Proof. apply (sn_out _ _ _ _ _ _ _ _ (sd_scanning _ _ _ _ _ _ _ (tg_scanned _ _ _ _ _ _ _ T))). Qed.

Lemma globals_out : symbol_table ∉ l ++ tables vals l.
Proof.
  rewrite elem_of_app, elem_tables. intros [Hl|(o & _ & Ho)]; [by apply (gr_ordinary _ _ _ _ _ (tg_greyed _ _ _ _ _ _ _ T))|].
  by apply (wf_globals _ _ _ (rd_wf _ _ _ Hready) o).
Qed.

Lemma white_table a t : white (nodes s2) a -> own_table vals a = Some t -> white (nodes s2) t.
Proof.
  rewrite !white_col. intros Ha Ht. destruct (decide (a ∈ l ++ tables vals l)) as [[Hl|(o & _ & Ho)%elem_tables]%elem_of_app|Hout].
  - by rewrite (sn_tables _ _ _ _ _ _ _ _ (sd_scanning _ _ _ _ _ _ _ (tg_scanned _ _ _ _ _ _ _ T)) a t GC_WHITE Hl Ht Ha).
  - by rewrite (table_no_table symbol_table (slots s) vals (rd_wf _ _ _ Hready) o a Ho) in Ht.
  - by apply scanned_out in Ha.
Qed.

Definition white_root (a : Z) : Prop := a ∈ R /\ white (nodes s2) a.

Lemma white_root_ok a : white_root a -> white (nodes s2) a /\ forall b, own_table vals b <> Some a.
Proof.
  intros [Ha Hw]. split; [done|]. intros b. apply (st_no_table _ _ _ (rd_start _ _ _ Hready)). by apply elem_of_elements.
Qed.

(** At the end [L] is the garbage. *)
Lemma collecting_garbage last s' m L : collecting white_root last (nodes s2) s' m L last -> forall a, a ∈ L <-> garbage a.
Proof.
  intros C a. split.
  - intros Ha. destruct (cl_white _ _ _ _ _ _ _ _ _ _ C a Ha) as [Hw Hn]. apply white_garbage; [|done].
    apply elem_values. split; [|done]. destruct Hw as (n & Hn2 & _).
    rewrite <- (fmap_is_Some value), <- lookup_fmap, <- scanned_values, lookup_fmap, Hn2. by eexists.
  - intros Ha. pose proof Ha as [(Has & r & Hr & Hp) _].
    destruct (proj2 (white_iff_garbage symbol_table s R s2 hm l bs Hready T a) Ha) as [Hal Hab].
    assert (Hall : forall u, u ∈ values (nodes s) -> rtc edge u a -> white (nodes s2) u).
    { intros u Hu Hua. destruct (white_sources symbol_table s R s2 hm l bs Hready T a u Hal Hab Hu Hua) as [Hul Hub].
      apply white_garbage; [done|]. by apply (white_iff_garbage symbol_table s R s2 hm l bs Hready T u). }
    assert (HrL : r ∈ L).
    { destruct (cl_todo _ _ _ _ _ _ _ _ _ _ C r) as [?|(i & Hi & _)]; [|done|lia]. split; [done|]. apply Hall; [|done].
      apply elem_values. destruct (st_roots _ _ _ (rd_start _ _ _ Hready) r) as (n & Hn & _); [by apply elem_of_elements|].
      split; [by eexists|]. intros b. apply (st_no_table _ _ _ (rd_start _ _ _ Hready)). by apply elem_of_elements. }
    clear Hr. induction Hp as [|r y a He Hp IH]; [done|]. apply IH; try done.
    apply (cl_closed _ _ _ _ _ _ _ _ _ _ C r y HrL He). apply Hall; [|done].
    apply elem_values. split; [|intros b Hb; by eapply (wf_private _ _ _ (rd_wf _ _ _ Hready))].
    rewrite <- (fmap_is_Some value), <- lookup_fmap. by apply (wf_refs _ _ _ (rd_wf _ _ _ Hready) r).
Qed.

(** Every count and colour is what it was. *)
Lemma collecting_restores last s' m L a n : collecting white_root last (nodes s2) s' m L last -> nodes s !! a = Some n ->
  exists n', nodes s' !! a = Some n' /\ refcount n' = refcount n /\ color n' = GC_BLACK /\ value n' = value n.
Proof.
  intros C Hn. pose proof (sd_scanning _ _ _ _ _ _ _ (tg_scanned _ _ _ _ _ _ _ T)) as S.
  pose proof (collecting_garbage last s' m L C) as HL. pose proof (cl_moved _ _ _ _ _ _ _ _ _ _ C) as Hm.
  destruct (proj2 (tg_dom _ _ _ _ _ _ _ T a)) as [nm Hnm]; [by eexists|].
  destruct (proj2 (scanning_dom symbol_table (slots s) vals (rd_wf _ _ _ Hready) hm l (tg_greyed _ _ _ _ _ _ _ T) _ _ _ a S)) as [n2 Hn2]; [by eexists|].
  destruct (proj2 (moved_lookup _ _ _ _ _ _ _ _ a Hm)) as [n' Hn']; [by eexists|]. exists n'. split_and!; [done| | |].
  - rewrite (moved_count _ _ _ _ _ _ _ _ _ _ _ Hm Hn' Hn2), (sn_count _ _ _ _ _ _ _ _ S a n2 nm Hn2 Hnm), (tg_count _ _ _ _ _ _ _ T a n nm Hn Hnm).
    assert (Hperm : nrefs l a = (nrefs bs a + nrefs L a)%nat).
    { rewrite <- nrefs_app. apply nrefs_Permutation, NoDup_Permutation; [apply (gr_nodup _ _ _ _ _ (tg_greyed _ _ _ _ _ _ _ T))| |].
      - apply NoDup_app. split_and!; [apply S| |apply C]. intros x Hx Hx'%HL.
        by apply (white_iff_garbage symbol_table s R s2 hm l bs Hready T x) in Hx' as [_ ?].
      - intros x. rewrite elem_of_app, HL, <- (white_iff_garbage symbol_table s R s2 hm l bs Hready T x).
        split; [destruct (decide (x ∈ bs)); tauto|]. intros [Hx|[? _]]; [by apply S|done]. }
    assert (Hle : Z.of_nat (nrefs l a) <= refcount n < 2 ^ 32).
    { pose proof (rd_counts _ _ _ Hready a n Hn) as Hc.
      rewrite (nrefs_split symbol_table (slots s) (nodes s) l a (gr_nodup _ _ _ _ _ (tg_greyed _ _ _ _ _ _ _ T)) (tg_values symbol_table s R s2 hm l bs T)) in Hc. lia. }
    cbn [on_count collect_white]. rewrite iter_delref, !iter_addref by (rewrite ?iter_addref; lia). lia.
  - destruct (decide (a = symbol_table)) as [->|Has].
    + pose proof (cl_globals _ _ _ _ _ _ _ _ _ _ C) as Hg. rewrite Hn', Hn2 in Hg. injection Hg as ->.
      apply (scanned_out symbol_table); [apply globals_out|]. unfold col. by rewrite Hn2.
    + destruct (moved_color _ _ _ _ _ _ _ _ _ _ Hm Has Hn') as (k & Hk & ->). rewrite Hn2 in Hk. injection Hk as <-.
      case_bool_decide as Hout; [done|]. rewrite elem_of_app in Hout.
      assert (Hcol : col (nodes s2) a = Some (color n2)) by (unfold col; by rewrite Hn2).
      destruct (decide (a ∈ l ++ tables vals l)) as [[Hl|(o & Ho & Hoa)%elem_tables]%elem_of_app|Hno]; [| |by apply scanned_out in Hcol].
      * destruct (decide (a ∈ bs)) as [Hb|Hb]; [apply (sn_black _ _ _ _ _ _ _ _ S a Hl) in Hb; congruence|].
        destruct Hout. left. apply HL. by apply (white_iff_garbage symbol_table s R s2 hm l bs Hready T a).
      * destruct (decide (o ∈ bs)) as [Hb|Hb].
        -- apply (sn_black _ _ _ _ _ _ _ _ S o Ho) in Hb. pose proof (sn_tables _ _ _ _ _ _ _ _ S o a GC_BLACK Ho Hoa Hb) as Ht.
           cbn in Ht. congruence.
        -- destruct Hout. right. apply elem_tables. exists o. split; [|done]. apply HL.
           by apply (white_iff_garbage symbol_table s R s2 hm l bs Hready T o).
  - pose proof (hd_values _ _ _ _ _ _ _ (cl_holding _ _ _ _ _ _ _ _ _ _ C)) as Hv.
    assert (Ea : value <$> nodes s' !! a = value <$> nodes s !! a) by (by rewrite <- !lookup_fmap, Hv).
    rewrite Hn', Hn in Ea. by injection Ea.
Qed.

(** From the buffer after scanning to the one in which only white roots are left, at the front. *)
Lemma white_roots_left : exists s4 m4,
  (s ← remove_black_loop (slots_used (gc s2)) s2 GC_FIRST_ROOT; gc_compact s) = Some s4 /\
  slots_used (gc s4) = size m4 /\ collecting white_root (1 + Z.of_nat (size m4)) (nodes s2) s4 m4 [] 1.
Proof.
  pose proof (tg_roots _ _ _ _ _ _ _ T) as RS. pose proof (root_set_count s2 R RS) as Hcount. pose proof (tg_first _ _ _ _ _ _ _ T) as Hf.
  destruct RS as (m & us & B & Hp & HR). pose proof (so_count _ _ _ _ (bo_slots _ _ _ B)) as Hsz.
  assert (Hdense : forall i, 1 <= i < 1 + Z.of_nat (slots_used (gc s2)) -> exists w, m !! i = Some w /\ pointer w).
  { intros i Hi. unfold slots_used, GC_FIRST_ROOT in Hi. destruct (live_dense m (first_unused (gc s2) - 1)) with (i := i) as [w Hw].
    - intros j w Hj. destruct (so_live _ _ _ _ (bo_slots _ _ _ B) j w Hj). lia.
    - lia.
    - lia.
    - exists w. split; [done|by eapply Hp]. }
  destruct (remove_black_ok (slots_used (gc s2)) s2 m us 1 B Hdense) as (s3 & m3 & us3 & E3 & B3 & C3 & V3 & Hm3).
  destruct (gc_compact_ok s3 m3 us3 B3) as (s4 & m4 & E4 & B4 & Hw4 & C4 & V4 & _ & Hf4 & _).
  pose proof (so_count _ _ _ _ (bo_slots _ _ _ B4)) as Hsz4. unfold GC_FIRST_ROOT in *.
  assert (Hroot : forall w, holds_word m4 w <-> white_root w).
  { intros w. rewrite Hw4. unfold white_root. rewrite HR, white_col. unfold col.
    assert (Hcol : w ∈ R -> color <$> nodes s2 !! w = Some GC_WHITE \/ color <$> nodes s2 !! w = Some GC_BLACK).
    { intros Hw. destruct (st_roots _ _ _ (rd_start _ _ _ Hready) w) as (n & Hn & _); [by apply elem_of_elements|].
      assert (Hv : w ∈ values (nodes s)).
      { apply elem_values. split; [by eexists|]. intros b. apply (st_no_table _ _ _ (rd_start _ _ _ Hready)). by apply elem_of_elements. }
      assert (is_Some (nodes s2 !! w)) as [n2 Hn2].
      { rewrite <- (fmap_is_Some value), <- lookup_fmap, scanned_values, lookup_fmap, Hn. by eexists. }
      rewrite Hn2. destruct (traced_color symbol_table s R s2 hm l bs Hready T w n2 Hv Hn2) as [_ [E|E]]; cbn; rewrite E; [by left|by right]. }
    split.
    - intros [i [Hi Hno]%Hm3]. split; [by exists i|]. destruct Hcol as [?|Hb]; [apply HR; by exists i|done|].
      destruct Hno. destruct (so_live _ _ _ _ (bo_slots _ _ _ B) i w Hi). unfold slots_used, GC_FIRST_ROOT. split; [lia|done].
    - intros [[i Hi] Hw]. exists i. apply Hm3. split; [done|]. intros [_ Hb]. congruence. }
  assert (Hlive : forall i w, m4 !! i = Some w -> 1 <= i < 1 + Z.of_nat (size m4) /\ pointer w).
  { intros i w Hi. destruct (so_live _ _ _ _ (bo_slots _ _ _ B4) i w Hi). split; [lia|].
    destruct (proj1 (Hw4 w)) as [j [Hj _]%Hm3]; [by exists i|by eapply Hp]. }
  pose proof (core_values (nodes s4) (nodes s2) ltac:(by rewrite C4, C3)) as Hv4.
  exists s4, m4. split_and!.
  - rewrite E3. exact E4.
  - unfold slots_used, GC_FIRST_ROOT. lia.
  - constructor; try (intros ? []%not_elem_of_nil).
    + constructor; [by rewrite Hv4, scanned_values|done| |by intros i w [? _]%Hlive|].
      * intros a. rewrite <- Hroot. split; [|intros [[i Hi]|[[]%not_elem_of_nil _]]].
        -- intros (i & w & Hi & Hw). left. destruct (Hlive i w Hi) as [_ Hpw]. rewrite (proj1 (root_ptr w Hpw)) in Hw. subst. by exists i.
        -- exists i, a. split; [done|]. by apply root_ptr, (Hlive i a Hi).
      * intros i Hi. destruct (live_dense m4 (Z.of_nat (size m4))) with (i := i) as [w Hw]; [|lia..|exists w; split; [done|by eapply Hlive]].
        intros j w [? _]%Hlive. lia.
    + rewrite V4, V3. apply (tg_slots _ _ _ _ _ _ _ T).
    + apply (moved_core _ _ _ _ _ (nodes s2)); [by rewrite C4, C3|]. apply touched_moved. intros a.
      destruct (nodes s2 !! a); [cbn; by rewrite touch_0|done].
    + apply NoDup_nil_2.
    + by intros a b []%not_elem_of_nil.
    + intros a Ha. right. apply Hroot in Ha as [i Hi]. exists i. by destruct (Hlive i a Hi).
    + assert (Ea : core <$> nodes s4 !! symbol_table = core <$> nodes s2 !! symbol_table) by (by rewrite <- !lookup_fmap, C4, C3).
      destruct (nodes s4 !! symbol_table), (nodes s2 !! symbol_table); try done. unfold core in Ea. cbn in *. by injection Ea as _ -> _.
Qed.
End Scanned.
End Collected.

(** The buffer holds the tagged addresses of the values of [G], and its list of unused slots is empty. *)
Definition garbage_buffer (s : gc_state) (G : Z -> Prop) : Prop :=
  exists m, buffer_ok s m [] /\ forall w, holds_word m w <-> exists a, w = GC_MAKE_GARBAGE a /\ G a.

Lemma collecting_buffer (vals : gmap Z gc_value) (s : gc_state) RW last m L :
  (forall a, is_Some (vals !! a) -> pointer a) -> (forall a, RW a -> is_Some (vals !! a)) ->
  holding vals RW last s m L last -> garbage_buffer s (fun a => RW a \/ (a ∈ L /\ is_stored vals a)).
Proof.
  intros Hptr HRW H. exists m. split; [apply H|]. intros w. split.
  - intros [i Hi]. exists (GC_GET_PTR w). split; [apply (hd_tagged _ _ _ _ _ _ _ H i w Hi); lia|].
    apply (hd_in _ _ _ _ _ _ _ H). by exists i, w.
  - intros (a & -> & Ha). destruct (proj2 (hd_in _ _ _ _ _ _ _ H a) Ha) as (i & w & Hi & Hw). exists i.
    rewrite Hi. f_equal. rewrite <- Hw. apply (hd_tagged _ _ _ _ _ _ _ H i w Hi). lia.
Qed.

(** C11: [zend_gc_collect_cycles] finds the garbage and leaves the heap as it was.  Up to the point where
    destructors run it always comes to an end; afterwards every reference count is what it was before, every
    value is black, the buffer holds exactly the garbage, tagged (arrays, objects that were not freed, and
    what was a possible root), and the count returned is the number of values in the garbage
    but references; the flag says whether there is a destructor to run. *)
Theorem gc_finds_garbage symbol_table s R : ready symbol_table s R ->
  (forall a, is_Some (nodes s !! a) -> pointer a) -> Z.of_nat (size (nodes s)) < MAX_INDEX ->
  exists s' L, find_garbage symbol_table s = Some (s', tally (value <$> nodes s) L, any_destructs (value <$> nodes s) L) /\
    NoDup L /\ (forall a, a ∈ L <-> garbage symbol_table (slots s) (nodes s) R a) /\
    (forall a n, nodes s !! a = Some n -> exists n', nodes s' !! a = Some n' /\ refcount n' = refcount n /\
       color n' = GC_BLACK /\ value n' = value n) /\
    garbage_buffer s' (fun a => a ∈ L /\ (a ∈ R \/ is_stored (value <$> nodes s) a)).
Proof.
  intros H Hptr Hsize. destruct (mark_scan_ok symbol_table s R H) as (s1 & s2 & hm & l & bs & E1 & E2 & T).
  destruct (white_roots_left symbol_table s R H s2 hm l bs T) as (s4 & m4 & E4 & Hn & C).
  assert (Hptr' : forall a, is_Some ((value <$> nodes s) !! a) -> pointer a).
  { intros a. rewrite lookup_fmap, fmap_is_Some. apply Hptr. }
  assert (Hsize' : Z.of_nat (size (value <$> nodes s)) < MAX_INDEX) by (by rewrite map_size_fmap).
  assert (Hs : ~ fresh collect_white (nodes s2) symbol_table).
  { rewrite (white_col s2). intros Hc. by apply (scanned_out symbol_table s R s2 hm l bs T) in Hc; [|apply (globals_out symbol_table s R H s2 hm l bs T)]. }
  destruct (collect_roots_loop_ok symbol_table (slots s) (value <$> nodes s) (rd_wf _ _ _ H) Hptr' Hsize' (white_root R s2) _ (nodes s2)
    (scanned_values symbol_table s R s2 hm l bs T) Hs (white_root_ok symbol_table s R H s2)
    (white_table symbol_table s R H s2 hm l bs T) (size m4) s4 m4 [] 1 false C eq_refl) as (s' & m' & L & E & C' & _).
  pose proof (collecting_garbage symbol_table s R H s2 hm l bs T _ s' m' L C') as HL.
  exists s', L. split_and!; [|apply C'|done| |].
  - unfold find_garbage, gc_collect_roots. rewrite E1. cbn [mbind option_bind]. rewrite E2. cbn [mbind option_bind].
    destruct (remove_black_loop _ _ _) as [s3|]; [|done]. cbn [mbind option_bind] in *. rewrite E4. cbn [mbind option_bind].
    rewrite Hn. exact E.
  - intros a n Hn'. by eapply (collecting_restores symbol_table s R H s2 hm l bs T _ s' m' L).
  - assert (Hroots : forall a, white_root R s2 a -> is_Some ((value <$> nodes s) !! a)).
    { intros a [_ (n & Hn2 & _)]. rewrite <- (scanned_values symbol_table s R s2 hm l bs T), lookup_fmap, Hn2. by eexists. }
    destruct (collecting_buffer _ _ _ _ _ _ Hptr' Hroots (cl_holding _ _ _ _ _ _ _ _ _ _ C')) as (m & B & Hw).
    exists m. split; [done|]. intros w. rewrite Hw. split; intros (a & -> & Ha); exists a; (split; [done|]).
    + destruct Ha as [Ha|[Ha Hst]]; [|tauto]. split; [|left; apply Ha].
      destruct (cl_todo _ _ _ _ _ _ _ _ _ _ C' a Ha) as [?|(i & Hi & _)]; [done|lia].
    + destruct Ha as [Ha [HR|Hst]]; [left|by right]. split; [done|]. by apply (cl_white _ _ _ _ _ _ _ _ _ _ C').
Qed.

Lemma gc_finds_garbage_witness : exists s s' count flags, find_garbage 0 s = Some (s', count, flags) /\
  num_roots (gc s) = 1 /\ refcount <$> nodes s' !! ex_root = Some 1 /\ color <$> nodes s' !! ex_root = Some GC_BLACK.
Proof.
  destruct ex_ready as (s & _ & H & _ & idx & N).
  destruct (gc_finds_garbage 0 s {[ex_root]} H) as (s' & L & E & _ & _ & Hr & _).
  - intros a. rewrite N. intros [n Hn]. apply lookup_singleton_Some in Hn as [<- _].
    split; [unfold ex_root; lia|reflexivity].
  - rewrite N, map_size_singleton. reflexivity.
  - destruct (Hr ex_root (GC_REF_SET_INFO idx GC_PURPLE ex_cycle)) as (n' & Hn' & Hc & Hcol & _); [rewrite N; apply lookup_singleton_eq|].
    exists s, s', (tally (value <$> nodes s) L), (any_destructs (value <$> nodes s) L). split; [exact E|]. split.
    + rewrite (root_set_count s {[ex_root]} (rd_roots _ _ _ H)), size_singleton. reflexivity.
    + rewrite Hn'. cbn. rewrite Hc, Hcol. by split.
Defined.
