(* ===== verification/ZendMmBitset.v ===== *)
(** * The page map of the memory manager ([zend_alloc.c], [zend_bitset.h])

    A chunk keeps a bit for each of its pages, in an array of 64-bit words.  The range operations work
    word by word with masks; they are shown to change or test exactly the bits of the range. *)
From S2P Require Import Prelude.

Definition ZEND_MM_BITSET_LEN : Z := 64.
(** [(zend_mm_bitset)-1] *)
Definition ALL_SET : Z := 2 ^ 64 - 1.

(** ** Bits of a word *)

(** The halving steps of the two bit scans. *)
Definition skip_ones (w : Z) (s : Z * Z) : Z * Z :=
  let '(n, bitset) := s in
  if Z.land bitset (Z.ones w) =? Z.ones w then (n + w, Z.shiftr bitset w) else (n, bitset).
Definition skip_zeros (w : Z) (s : Z * Z) : Z * Z :=
  let '(n, num) := s in
  if Z.land num (Z.ones w) =? 0 then (n + w, Z.shiftr num w) else (n, num).

Definition zend_mm_bitset_nts (bitset : Z) : Z :=
  if bitset =? ALL_SET then ZEND_MM_BITSET_LEN
  else
    let '(n, bitset) := skip_ones 2 (skip_ones 4 (skip_ones 8 (skip_ones 16 (skip_ones 32 (0, bitset))))) in
    n + Z.land bitset 1.

Definition zend_ulong_ntz (num : Z) : Z :=
  if num =? 0 then 64
  else
    let '(n, num) := skip_zeros 2 (skip_zeros 4 (skip_zeros 8 (skip_zeros 16 (skip_zeros 32 (1, num))))) in
    n - Z.land num 1.

(** ** The operations *)
Definition shl (a n : Z) : Z := u64 (Z.shiftl a n).

Definition zend_mm_bitset_is_set (bitset : list Z) (bit : Z) : option bool :=
  w ← aget bitset (bit / ZEND_MM_BITSET_LEN);
  Some (Z.land (Z.shiftr w (Z.land bit (ZEND_MM_BITSET_LEN - 1))) 1 =? 1).

Definition zend_mm_bitset_set_bit (bitset : list Z) (bit : Z) : option (list Z) :=
  w ← aget bitset (bit / ZEND_MM_BITSET_LEN);
  aset bitset (bit / ZEND_MM_BITSET_LEN) (Z.lor w (shl 1 (Z.land bit (ZEND_MM_BITSET_LEN - 1)))).

Definition zend_mm_bitset_reset_bit (bitset : list Z) (bit : Z) : option (list Z) :=
  w ← aget bitset (bit / ZEND_MM_BITSET_LEN);
  aset bitset (bit / ZEND_MM_BITSET_LEN) (Z.ldiff w (shl 1 (Z.land bit (ZEND_MM_BITSET_LEN - 1)))).

(** The masks for the bits from [bit] up, written in two ways, and for those up to [last]. *)
Definition mask_from (bit : Z) : Z := shl ALL_SET bit.
Definition not_below (bit : Z) : Z := u64 (Z.lnot (shl 1 bit - 1)).
Definition mask_to (last : Z) : Z := Z.shiftr ALL_SET (ZEND_MM_BITSET_LEN - 1 - last).

(** [while (pos != end) bitset[pos++] = v] *)
Fixpoint fill_words (n : nat) (bitset : list Z) (pos v : Z) : option (list Z) :=
  match n with
  | O => Some bitset
  | S n => bitset ← aset bitset pos v; fill_words n bitset (pos + 1) v
  end.

(** The common shape of the two range operations: [f] puts a mask on a word, [v] is a full word, [from] the
    mask for the first of several words. *)
Definition update_range (f : Z -> Z -> Z) (from : Z -> Z) (v : Z) (bitset : list Z) (start len : Z) : option (list Z) :=
  let pos := start / ZEND_MM_BITSET_LEN in
  let end' := (start + len - 1) / ZEND_MM_BITSET_LEN in
  let bit := Z.land start (ZEND_MM_BITSET_LEN - 1) in
  let last := Z.land (start + len - 1) (ZEND_MM_BITSET_LEN - 1) in
  if pos =? end' then
    w ← aget bitset pos;
    aset bitset pos (f w (Z.land (mask_from bit) (mask_to last)))
  else
    w ← aget bitset pos;
    bitset ← aset bitset pos (f w (from bit));
    bitset ← fill_words (Z.to_nat (end' - (pos + 1))) bitset (pos + 1) v;
    w ← aget bitset end';
    aset bitset end' (f w (mask_to last)).

Definition zend_mm_bitset_set_range (bitset : list Z) (start len : Z) : option (list Z) :=
  if len =? 1 then zend_mm_bitset_set_bit bitset start else update_range Z.lor mask_from ALL_SET bitset start len.

Definition zend_mm_bitset_reset_range (bitset : list Z) (start len : Z) : option (list Z) :=
  if len =? 1 then zend_mm_bitset_reset_bit bitset start else update_range Z.ldiff not_below 0 bitset start len.

Fixpoint words_clear (n : nat) (bitset : list Z) (pos : Z) : option bool :=
  match n with
  | O => Some true
  | S n => w ← aget bitset pos; if w =? 0 then words_clear n bitset (pos + 1) else Some false
  end.

Definition zend_mm_bitset_is_free_range (bitset : list Z) (start len : Z) : option bool :=
  if len =? 1 then negb <$> zend_mm_bitset_is_set bitset start
  else
    let pos := start / ZEND_MM_BITSET_LEN in
    let end' := (start + len - 1) / ZEND_MM_BITSET_LEN in
    let bit := Z.land start (ZEND_MM_BITSET_LEN - 1) in
    let last := Z.land (start + len - 1) (ZEND_MM_BITSET_LEN - 1) in
    w ← aget bitset pos;
    if pos =? end' then Some (Z.land w (Z.land (mask_from bit) (mask_to last)) =? 0)
    else if negb (Z.land w (mask_from bit) =? 0) then Some false
    else
      free ← words_clear (Z.to_nat (end' - (pos + 1))) bitset (pos + 1);
      if (free : bool) then w ← aget bitset end'; Some (Z.land w (mask_to last) =? 0) else Some false.

(** ** What the bit scans find *)

(** [k] is the lowest bit of [x] with the value [c]. *)
Definition first_bit (c : bool) (x k : Z) : Prop := Z.testbit x k = c /\ forall j, 0 <= j < k -> Z.testbit x j = negb c.

(** The low [w] bits of [x] all have the value [c]. *)
Lemma ones_test w x : 0 <= w -> Z.land x (Z.ones w) = Z.ones w <-> forall j, 0 <= j < w -> Z.testbit x j = true.
Proof.
  intros Hw. split.
  - intros E j Hj. assert (Ht : Z.testbit (Z.land x (Z.ones w)) j = true) by (rewrite E; by apply Z.ones_spec_low).
    rewrite Z.land_spec in Ht. by apply andb_true_iff in Ht as [? _].
  - intros H. apply Z.bits_inj'. intros j Hj. rewrite Z.land_spec. destruct (Z.lt_ge_cases j w).
    + rewrite H, Z.ones_spec_low by lia. done.
    + rewrite Z.ones_spec_high by lia. apply andb_false_r.
Qed.

Lemma zeros_test w x : 0 <= w -> Z.land x (Z.ones w) = 0 <-> forall j, 0 <= j < w -> Z.testbit x j = false.
Proof.
  intros Hw. split.
  - intros E j Hj. assert (Ht : Z.testbit (Z.land x (Z.ones w)) j = false) by (rewrite E; apply Z.bits_0).
    rewrite Z.land_spec, Z.ones_spec_low, andb_true_r in Ht by lia. done.
  - intros H. apply Z.bits_inj'. intros j Hj. rewrite Z.land_spec, Z.bits_0. destruct (Z.lt_ge_cases j w).
    + rewrite H by lia. done.
    + rewrite Z.ones_spec_high by lia. apply andb_false_r.
Qed.

(** The first bit with value [c] of [x] is [n - n0] places above the current one, and less than [2 w]. *)
Definition scan_state (c : bool) (x k n0 w : Z) (s : Z * Z) : Prop :=
  let '(n, y) := s in first_bit c y (k - (n - n0)) /\ 0 <= k - (n - n0) < w.

Lemma first_bit_shift c y k w : 0 <= w <= k -> first_bit c y k -> first_bit c (Z.shiftr y w) (k - w).
Proof.
  intros Hw [Hk Hlow]. split.
  - rewrite Z.shiftr_spec by lia. by replace (k - w + w) with k by lia.
  - intros j Hj. rewrite Z.shiftr_spec by lia. apply Hlow. lia.
Qed.

Lemma skip_ones_step x k n0 w s : 0 < w -> scan_state false x k n0 (2 * w) s -> scan_state false x k n0 w (skip_ones w s).
Proof.
  destruct s as [n y]. intros Hw [Hf Hr]. unfold skip_ones. destruct (Z.eqb_spec (Z.land y (Z.ones w)) (Z.ones w)) as [E|E].
  - rewrite ones_test in E by lia. cbn. replace (k - (n + w - n0)) with (k - (n - n0) - w) by lia.
    assert (w <= k - (n - n0)).
    { destruct (Z.lt_ge_cases (k - (n - n0)) w); [|done]. destruct Hf as [Hf _]. rewrite E in Hf by lia. done. }
    split; [apply first_bit_shift; [lia|done]|lia].
  - rewrite ones_test in E by lia. split; [done|]. destruct (Z.lt_ge_cases (k - (n - n0)) w); [lia|].
    destruct E. intros j Hj. destruct Hf as [_ Hf]. apply Hf. lia.
Qed.

Lemma skip_zeros_step x k n0 w s : 0 < w -> scan_state true x k n0 (2 * w) s -> scan_state true x k n0 w (skip_zeros w s).
Proof.
  destruct s as [n y]. intros Hw [Hf Hr]. unfold skip_zeros. destruct (Z.eqb_spec (Z.land y (Z.ones w)) 0) as [E|E].
  - rewrite zeros_test in E by lia. cbn. replace (k - (n + w - n0)) with (k - (n - n0) - w) by lia.
    assert (w <= k - (n - n0)).
    { destruct (Z.lt_ge_cases (k - (n - n0)) w); [|done]. destruct Hf as [Hf _]. rewrite E in Hf by lia. done. }
    split; [apply first_bit_shift; [lia|done]|lia].
  - rewrite zeros_test in E by lia. split; [done|]. destruct (Z.lt_ge_cases (k - (n - n0)) w); [lia|].
    destruct E. intros j Hj. destruct Hf as [_ Hf]. apply Hf. lia.
Qed.

Lemma land_1 y : Z.land y 1 = Z.b2z (Z.testbit y 0).
Proof. rewrite Z.bit0_mod. change 1 with (Z.ones 1). by rewrite Z.land_ones. Qed.

(** A word that does not have all bits equal to [negb c] has a first bit [c]. *)
Lemma first_bit_exists c x : (exists j, 0 <= j < 64 /\ Z.testbit x j = c) -> exists k, 0 <= k < 64 /\ first_bit c x k.
Proof.
  intros (j & Hj & Hc).
  assert (Hgo : forall n, (n <= 64)%nat -> (exists k, 0 <= k < Z.of_nat n /\ first_bit c x k) \/
                     forall i, 0 <= i < Z.of_nat n -> Z.testbit x i = negb c).
  { induction n as [|n IH]; intros Hn; [right; lia|]. destruct IH as [(k & Hk & ?)|IH]; [lia|left; exists k; split; [lia|done]|].
    destruct (decide (Z.testbit x (Z.of_nat n) = c)) as [E|E].
    - left. exists (Z.of_nat n). split; [lia|]. by split.
    - right. intros i Hi. destruct (decide (i = Z.of_nat n)) as [->|]; [by destruct (Z.testbit x (Z.of_nat n)), c|apply IH; lia]. }
  destruct (Hgo 64%nat) as [?|Hno]; [lia|done|]. rewrite Hno in Hc by lia. by destruct c.
Qed.

Lemma not_all_set x : 0 <= x < 2 ^ 64 -> x <> ALL_SET -> exists j, 0 <= j < 64 /\ Z.testbit x j = false.
Proof.
  intros Hx Hne. destruct (decide (Forall (fun j => Z.testbit x j = true) (seqZ 0 64))) as [Hall|Hno].
  - destruct Hne. rewrite Forall_forall in Hall. change ALL_SET with (Z.ones 64).
    rewrite <- (Z.mod_small x (2 ^ 64)), <- Z.land_ones by lia. apply ones_test; [lia|]. intros j Hj.
    apply Hall, elem_of_seqZ. lia.
  - apply not_Forall_Exists in Hno; [|intros j; apply _]. apply Exists_exists in Hno as (j & Hj%elem_of_seqZ & Hc).
    exists j. split; [lia|by apply not_true_iff_false].
Qed.

Lemma not_zero x : 0 <= x < 2 ^ 64 -> x <> 0 -> exists j, 0 <= j < 64 /\ Z.testbit x j = true.
Proof.
  intros Hx Hne. exists (Z.log2 x). split; [split; [apply Z.log2_nonneg|apply Z.log2_lt_pow2; lia]|apply Z.bit_log2; lia].
Qed.

(** The number of trailing ones, of zeros. *)
Lemma zend_mm_bitset_nts_ok x : 0 <= x < 2 ^ 64 -> x <> ALL_SET ->
  0 <= zend_mm_bitset_nts x < 64 /\ first_bit false x (zend_mm_bitset_nts x).
Proof.
  intros Hx Hne. destruct (first_bit_exists false x) as (k & Hk & Hf); [by apply not_all_set|].
  assert (zend_mm_bitset_nts x = k) as ->; [|done]. unfold zend_mm_bitset_nts. rewrite (proj2 (Z.eqb_neq _ _)) by done.
  assert (S : scan_state false x k 0 2 (skip_ones 2 (skip_ones 4 (skip_ones 8 (skip_ones 16 (skip_ones 32 (0, x))))))).
  { do 5 (apply skip_ones_step; [lia|]). split; [by replace (k - (0 - 0)) with k by lia|lia]. }
  destruct (skip_ones _ _) as [n y]. destruct S as [[Hb Hlow] Hr]. rewrite land_1.
  destruct (Z.testbit y 0) eqn:E0; cbn [Z.b2z].
  - assert (k - (n - 0) <> 0) by (intros E'; rewrite E' in Hb; congruence). lia.
  - destruct (Z.eq_dec (k - (n - 0)) 0); [lia|]. rewrite Hlow in E0 by lia. done.
Qed.

Lemma zend_ulong_ntz_ok x : 0 <= x < 2 ^ 64 -> x <> 0 -> 0 <= zend_ulong_ntz x < 64 /\ first_bit true x (zend_ulong_ntz x).
Proof.
  intros Hx Hne. destruct (first_bit_exists true x) as (k & Hk & Hf); [by apply not_zero|].
  assert (zend_ulong_ntz x = k) as ->; [|done]. unfold zend_ulong_ntz. rewrite (proj2 (Z.eqb_neq _ _)) by done.
  assert (S : scan_state true x k 1 2 (skip_zeros 2 (skip_zeros 4 (skip_zeros 8 (skip_zeros 16 (skip_zeros 32 (1, x))))))).
  { do 5 (apply skip_zeros_step; [lia|]). split; [by replace (k - (1 - 1)) with k by lia|lia]. }
  destruct (skip_zeros _ _) as [n y]. destruct S as [[Hb Hlow] Hr]. rewrite land_1.
  destruct (Z.testbit y 0) eqn:E0; cbn [Z.b2z].
  - destruct (Z.eq_dec (k - (n - 1)) 0); [lia|]. rewrite Hlow in E0 by lia. done.
  - assert (k - (n - 1) <> 0) by (intros E'; rewrite E' in Hb; congruence). lia.
Qed.

(** ** What the range operations change *)

(** The bit of page [p]. *)
Definition mapbit (m : list Z) (p : Z) : bool :=
  match aget m (p / 64) with Some w => Z.testbit w (p mod 64) | None => false end.

Definition words_ok (m : list Z) : Prop := forall i w, aget m i = Some w -> 0 <= w < 2 ^ 64.

Lemma page_split p : p = 64 * (p / 64) + p mod 64 /\ 0 <= p mod 64 < 64.
Proof. pose proof (Z.mod_pos_bound p 64 ltac:(lia)). split; [|lia]. apply Z.div_mod. lia. Qed.

Lemma page_of pos j : 0 <= j < 64 -> (64 * pos + j) / 64 = pos /\ (64 * pos + j) mod 64 = j.
Proof. intros Hj. split; Z.to_euclidean_division_equations; lia. Qed.

Lemma land_63 x : Z.land x (ZEND_MM_BITSET_LEN - 1) = x mod 64.
Proof. unfold ZEND_MM_BITSET_LEN. change (64 - 1) with (Z.ones 6). by rewrite Z.land_ones. Qed.

Lemma mask_from_spec b j : 0 <= b < 64 -> 0 <= j < 64 -> Z.testbit (mask_from b) j = (b <=? j).
Proof.
  intros Hb Hj. unfold mask_from, shl, u64, uwrap, ALL_SET. change (2 ^ 64 - 1) with (Z.ones 64).
  rewrite Z.mod_pow2_bits_low, Z.shiftl_spec by lia. destruct (Z.leb_spec b j).
  - apply Z.ones_spec_low. lia.
  - apply Z.testbit_neg_r. lia.
Qed.

Lemma not_below_spec b j : 0 <= b < 64 -> 0 <= j < 64 -> Z.testbit (not_below b) j = (b <=? j).
Proof.
  intros Hb Hj. unfold not_below, shl, u64 at 2. rewrite Z.shiftl_1_l, uwrap_small by (split; [lia|apply Z.pow_lt_mono_r; lia]).
  unfold u64, uwrap. rewrite Z.mod_pow2_bits_low, Z.lnot_spec by lia. replace (2 ^ b - 1) with (Z.ones b) by (rewrite Z.ones_equiv; lia). destruct (Z.leb_spec b j).
  - by rewrite Z.ones_spec_high by lia.
  - by rewrite Z.ones_spec_low by lia.
Qed.

Lemma mask_to_spec l j : 0 <= l < 64 -> 0 <= j < 64 -> Z.testbit (mask_to l) j = (j <=? l).
Proof.
  intros Hl Hj. unfold mask_to, ALL_SET, ZEND_MM_BITSET_LEN. change (2 ^ 64 - 1) with (Z.ones 64).
  rewrite Z.shiftr_spec by lia. destruct (Z.leb_spec j l); [apply Z.ones_spec_low|apply Z.ones_spec_high]; lia.
Qed.

Lemma bit_spec b j : 0 <= b < 64 -> 0 <= j < 64 -> Z.testbit (shl 1 b) j = (j =? b).
Proof.
  intros Hb Hj. unfold shl, u64, uwrap. rewrite Z.mod_pow2_bits_low, Z.shiftl_1_l, Z.pow2_bits_eqb by lia. apply Z.eqb_sym.
Qed.

Lemma word_range x : (forall j, 64 <= j -> Z.testbit x j = false) -> 0 <= x -> 0 <= x < 2 ^ 64.
Proof.
  intros H Hx. split; [done|]. destruct (Z.eq_dec x 0) as [->|]; [lia|]. apply Z.log2_lt_pow2; [lia|].
  destruct (Z.lt_ge_cases (Z.log2 x) 64) as [|Hge]; [done|]. pose proof (H _ Hge) as Hb. rewrite Z.bit_log2 in Hb by lia. done.
Qed.

Lemma shl_range a n : 0 <= shl a n < 2 ^ 64.
Proof. apply uwrap_range. lia. Qed.

Lemma mask_to_range l : 0 <= l < 64 -> 0 <= mask_to l < 2 ^ 64.
Proof.
  intros Hl. apply word_range.
  - intros j Hj. unfold mask_to, ALL_SET, ZEND_MM_BITSET_LEN. change (2 ^ 64 - 1) with (Z.ones 64).
    rewrite Z.shiftr_spec by lia. apply Z.ones_spec_high. lia.
  - apply Z.shiftr_nonneg. by compute.
Qed.

Lemma land_range a b : 0 <= a < 2 ^ 64 -> 0 <= b < 2 ^ 64 -> 0 <= Z.land a b < 2 ^ 64.
Proof.
  intros Ha Hb. apply word_range; [|apply Z.land_nonneg; lia]. intros j Hj. rewrite Z.land_spec.
  rewrite <- (Z.mod_small a (2 ^ 64)), Z.mod_pow2_bits_high by lia. done.
Qed.

Lemma ldiff_range a b : 0 <= a < 2 ^ 64 -> 0 <= b -> 0 <= Z.ldiff a b < 2 ^ 64.
Proof.
  intros Ha Hb. apply word_range; [|apply Z.ldiff_nonneg; lia]. intros j Hj. rewrite Z.ldiff_spec.
  rewrite <- (Z.mod_small a (2 ^ 64)), Z.mod_pow2_bits_high by lia. done.
Qed.

Section Words.
Implicit Types (m : list Z).

Lemma aget_is_Some m pos : 0 <= pos < Z.of_nat (length m) -> exists w, aget m pos = Some w.
Proof. intros Hp. unfold aget. rewrite (proj2 (Z.leb_le _ _)) by lia. apply lookup_lt_is_Some. lia. Qed.

Lemma aget_insert m pos w' q : 0 <= pos < Z.of_nat (length m) ->
  aget (<[Z.to_nat pos := w']> m) q = if q =? pos then Some w' else aget m q.
Proof.
  intros Hp. unfold aget. destruct (Z.eqb_spec q pos) as [->|Hne].
  - rewrite (proj2 (Z.leb_le _ _)) by lia. apply list_lookup_insert_eq. lia.
  - destruct (Z.leb_spec 0 q); [|done]. apply list_lookup_insert_ne. lia.
Qed.

(** A word is written: its bits are those of [g], all others stay. *)
Lemma write_word m pos w' (g : Z -> bool) : words_ok m -> 0 <= pos < Z.of_nat (length m) -> 0 <= w' < 2 ^ 64 ->
  (forall j, 0 <= j < 64 -> Z.testbit w' j = g (64 * pos + j)) ->
  exists m', aset m pos w' = Some m' /\ words_ok m' /\ length m' = length m /\
    (forall q, q <> pos -> aget m' q = aget m q) /\
    forall p, mapbit m' p = if p / 64 =? pos then g p else mapbit m p.
Proof.
  intros Hok Hp Hw Hg. unfold aset. rewrite (proj2 (in_range_iff _ _ _)) by lia. eexists. split; [done|]. split_and!.
  - intros i w. rewrite aget_insert by done. destruct (Z.eqb_spec i pos); [by intros [= <-]|apply Hok].
  - apply length_insert.
  - intros q Hq. rewrite aget_insert by done. by rewrite (proj2 (Z.eqb_neq _ _)).
  - intros p. unfold mapbit. rewrite aget_insert by done. destruct (Z.eqb_spec (p / 64) pos) as [<-|]; [|done].
    destruct (page_split p) as [Hs Hr]. rewrite Hg by done. by rewrite <- Hs.
Qed.

Lemma mapbit_word m pos w j : aget m pos = Some w -> 0 <= j < 64 -> mapbit m (64 * pos + j) = Z.testbit w j.
Proof. intros E Hj. unfold mapbit. destruct (page_of pos j Hj) as [-> ->]. by rewrite E. Qed.
End Words.

Section Update.
Context (f : Z -> Z -> Z) (v : Z) (c : bool).
Context (Hf : forall w t j, 0 <= j < 64 -> Z.testbit (f w t) j = if Z.testbit t j then c else Z.testbit w j).
Context (Hr : forall w t, 0 <= w < 2 ^ 64 -> 0 <= t < 2 ^ 64 -> 0 <= f w t < 2 ^ 64).
Context (Hv : forall j, 0 <= j < 64 -> Z.testbit v j = c) (Hv64 : 0 <= v < 2 ^ 64).
Context (from : Z -> Z) (Hfrom_spec : forall b j, 0 <= b < 64 -> 0 <= j < 64 -> Z.testbit (from b) j = (b <=? j)).
Context (Hfrom_range : forall b, 0 <= from b < 2 ^ 64).
Implicit Types (m : list Z).

(** A mask is put on word [pos]. *)
Lemma update_word m pos t : words_ok m -> 0 <= pos < Z.of_nat (length m) -> 0 <= t < 2 ^ 64 ->
  exists m', (w ← aget m pos; aset m pos (f w t)) = Some m' /\ words_ok m' /\ length m' = length m /\
    forall p, mapbit m' p = if (p / 64 =? pos) && Z.testbit t (p mod 64) then c else mapbit m p.
Proof.
  intros Hok Hp Ht. destruct (aget_is_Some m pos Hp) as [w Hw]. rewrite Hw. cbn [mbind option_bind].
  destruct (write_word m pos (f w t) (fun p => if Z.testbit t (p mod 64) then c else mapbit m p) Hok Hp) as (m' & E & Hok' & Hl & _ & Hm).
  - apply Hr; [by eapply Hok|done].
  - intros j Hj. rewrite Hf by done. rewrite (proj2 (page_of pos j Hj)). by rewrite (mapbit_word m pos w j).
  - exists m'. split_and!; try done. intros p. rewrite Hm. by destruct (p / 64 =? pos).
Qed.

Lemma fill_words_ok n : forall m pos, words_ok m -> 0 <= pos -> pos + Z.of_nat n <= Z.of_nat (length m) ->
  exists m', fill_words n m pos v = Some m' /\ words_ok m' /\ length m' = length m /\
    forall p, mapbit m' p = if in_range pos (pos + Z.of_nat n) (p / 64) then c else mapbit m p.
Proof.
  induction n as [|n IH]; intros m pos Hok Hp Hn.
  - exists m. split_and!; try done. intros p. unfold in_range. by zbool; destruct (pos <=? p / 64) eqn:E; zbool.
  - cbn [fill_words]. destruct (write_word m pos v (fun _ => c) Hok) as (m1 & E1 & Hok1 & Hl1 & _ & Hm1); [lia|done|done|].
    rewrite E1. cbn [mbind option_bind]. destruct (IH m1 (pos + 1) Hok1) as (m' & E & Hok' & Hl & Hm); [lia..|].
    exists m'. split_and!; [done|done|congruence|]. intros p. rewrite Hm, Hm1. unfold in_range.
    destruct (Z.eqb_spec (p / 64) pos) as [->|]; repeat zcase; try done; lia.
Qed.

Lemma update_range_ok m start len : words_ok m -> 0 <= start -> 1 <= len -> start + len <= 64 * Z.of_nat (length m) ->
  exists m', update_range f from v m start len = Some m' /\ words_ok m' /\ length m' = length m /\
    forall p, mapbit m' p = if in_range start (start + len) p then c else mapbit m p.
Proof.
  intros Hok Hs Hl Hn. unfold update_range. rewrite !land_63. change ZEND_MM_BITSET_LEN with 64.
  set (e := start + len - 1). cbv zeta.
  destruct (page_split start) as [Es Rs]. destruct (page_split e) as [Ee Re].
  assert (Hle : start / 64 <= e / 64) by (apply Z.div_le_mono; lia).
  assert (Hpos : 0 <= start / 64) by (apply Z.div_pos; lia).
  assert (Hend : e / 64 < Z.of_nat (length m)) by (apply Z.div_lt_upper_bound; lia).
  assert (Hto : 0 <= mask_to (e mod 64) < 2 ^ 64) by by apply mask_to_range.
  assert (Hfrom : 0 <= mask_from (start mod 64) < 2 ^ 64) by apply shl_range.
  destruct (Z.eqb_spec (start / 64) (e / 64)) as [Eq|Ne].
  - destruct (update_word m (start / 64) (Z.land (mask_from (start mod 64)) (mask_to (e mod 64))) Hok) as (m' & E & Hok' & Hl' & Hm);
      [lia|by apply land_range|].
    rewrite E. exists m'. split_and!; try done. intros p. rewrite Hm. destruct (page_split p) as [Ep Rp].
    rewrite Z.land_spec, mask_from_spec, mask_to_spec by done. unfold in_range.
    destruct (Z.eqb_spec (p / 64) (start / 64)); repeat zcase; try done; exfalso; subst e; lia.
  - destruct (update_word m (start / 64) (from (start mod 64)) Hok) as (m1 & E1 & Hok1 & Hl1 & Hm1); [lia|done|].
    destruct (aget m (start / 64)) as [w|]; [|done]. cbn [mbind option_bind] in *. rewrite E1. cbn [mbind option_bind].
    destruct (fill_words_ok (Z.to_nat (e / 64 - (start / 64 + 1))) m1 (start / 64 + 1) Hok1) as (m2 & E2 & Hok2 & Hl2 & Hm2); [lia..|].
    rewrite E2. cbn [mbind option_bind].
    destruct (update_word m2 (e / 64) (mask_to (e mod 64)) Hok2) as (m3 & E3 & Hok3 & Hl3 & Hm3); [lia|done|].
    rewrite E3. exists m3. split_and!; [done|done|congruence|]. intros p. rewrite Hm3, Hm2, Hm1.
    destruct (page_split p) as [Ep Rp]. rewrite Hfrom_spec, mask_to_spec by done. unfold in_range.
    destruct (Z.eqb_spec (p / 64) (start / 64)), (Z.eqb_spec (p / 64) (e / 64)); repeat zcase; try done; exfalso; subst e; lia.
Qed.
End Update.

(** The single bit operations are the range operations on one bit. *)
Lemma one_bit (f : Z -> Z -> Z) (v : Z) (c : bool) m start :
  (forall w t j, 0 <= j < 64 -> Z.testbit (f w t) j = if Z.testbit t j then c else Z.testbit w j) ->
  (forall w t, 0 <= w < 2 ^ 64 -> 0 <= t < 2 ^ 64 -> 0 <= f w t < 2 ^ 64) ->
  words_ok m -> 0 <= start -> start + 1 <= 64 * Z.of_nat (length m) ->
  exists m', (w ← aget m (start / 64); aset m (start / 64) (f w (shl 1 (start mod 64)))) = Some m' /\ words_ok m' /\
    length m' = length m /\ forall p, mapbit m' p = if in_range start (start + 1) p then c else mapbit m p.
Proof.
  intros Hf Hr Hok Hs Hl. destruct (page_split start) as [Es Rs].
  destruct (update_word f c Hf Hr m (start / 64) (shl 1 (start mod 64)) Hok) as (m' & E & Hok' & Hl' & Hm).
  { split; [apply Z.div_pos; lia|apply Z.div_lt_upper_bound; lia]. }
  { apply shl_range. }
  exists m'. split_and!; try done. intros p. rewrite Hm. destruct (page_split p) as [Ep Rp]. rewrite bit_spec by done.
  unfold in_range. destruct (Z.eqb_spec (p / 64) (start / 64)); repeat zcase; try done; exfalso; lia.
Qed.

Lemma lor_bit w t j : 0 <= j < 64 -> Z.testbit (Z.lor w t) j = if Z.testbit t j then true else Z.testbit w j.
Proof. intros _. rewrite Z.lor_spec. by destruct (Z.testbit t j), (Z.testbit w j). Qed.

Lemma ldiff_bit w t j : 0 <= j < 64 -> Z.testbit (Z.ldiff w t) j = if Z.testbit t j then false else Z.testbit w j.
Proof. intros _. rewrite Z.ldiff_spec. by destruct (Z.testbit t j), (Z.testbit w j). Qed.

Lemma zend_mm_bitset_set_range_ok m start len : words_ok m -> 0 <= start -> 1 <= len -> start + len <= 64 * Z.of_nat (length m) ->
  exists m', zend_mm_bitset_set_range m start len = Some m' /\ words_ok m' /\ length m' = length m /\
    forall p, mapbit m' p = if in_range start (start + len) p then true else mapbit m p.
Proof.
  intros Hok Hs Hl Hn. unfold zend_mm_bitset_set_range.
  assert (Hr : forall w t, 0 <= w < 2 ^ 64 -> 0 <= t < 2 ^ 64 -> 0 <= Z.lor w t < 2 ^ 64) by (intros; by apply lor_range).
  destruct (Z.eqb_spec len 1) as [->|].
  - unfold zend_mm_bitset_set_bit. rewrite land_63. by apply (one_bit Z.lor 0 true m start lor_bit Hr).
  - apply (update_range_ok Z.lor ALL_SET true lor_bit Hr); try done; [|by apply mask_from_spec|intros b; apply shl_range]. intros j Hj.
    unfold ALL_SET. change (2 ^ 64 - 1) with (Z.ones 64). by apply Z.ones_spec_low.
Qed.

Lemma zend_mm_bitset_reset_range_ok m start len : words_ok m -> 0 <= start -> 1 <= len -> start + len <= 64 * Z.of_nat (length m) ->
  exists m', zend_mm_bitset_reset_range m start len = Some m' /\ words_ok m' /\ length m' = length m /\
    forall p, mapbit m' p = if in_range start (start + len) p then false else mapbit m p.
Proof.
  intros Hok Hs Hl Hn. unfold zend_mm_bitset_reset_range.
  assert (Hr : forall w t, 0 <= w < 2 ^ 64 -> 0 <= t < 2 ^ 64 -> 0 <= Z.ldiff w t < 2 ^ 64) by (intros; apply ldiff_range; lia).
  destruct (Z.eqb_spec len 1) as [->|].
  - unfold zend_mm_bitset_reset_bit. rewrite land_63. by apply (one_bit Z.ldiff 0 false m start ldiff_bit Hr).
  - apply (update_range_ok Z.ldiff 0 false ldiff_bit Hr); try done; [|by apply not_below_spec|intros b; apply uwrap_range; lia].
    intros j Hj. apply Z.bits_0.
Qed.

(** ** Testing *)
Lemma zend_mm_bitset_is_set_ok m p : 0 <= p < 64 * Z.of_nat (length m) -> zend_mm_bitset_is_set m p = Some (mapbit m p).
Proof.
  intros Hp. unfold zend_mm_bitset_is_set, mapbit. rewrite land_63. change ZEND_MM_BITSET_LEN with 64.
  destruct (aget_is_Some m (p / 64)) as [w Hw].
  { split; [apply Z.div_pos; lia|apply Z.div_lt_upper_bound; lia]. }
  rewrite Hw. cbn. f_equal. rewrite land_1, Z.shiftr_spec, Z.add_0_l by lia. by destruct (Z.testbit w _).
Qed.

Lemma masked_clear m pos w t : aget m pos = Some w -> 0 <= t < 2 ^ 64 ->
  Z.land w t = 0 <-> forall j, 0 <= j < 64 -> Z.testbit t j = true -> mapbit m (64 * pos + j) = false.
Proof.
  intros Hw Ht. split.
  - intros E j Hj Htj. rewrite (mapbit_word m pos w) by done. assert (H : Z.testbit (Z.land w t) j = false) by (rewrite E; apply Z.bits_0).
    by rewrite Z.land_spec, Htj, andb_true_r in H.
  - intros H. apply Z.bits_inj'. intros j Hj. rewrite Z.land_spec, Z.bits_0. destruct (Z.lt_ge_cases j 64).
    + destruct (Z.testbit t j) eqn:Et; [|apply andb_false_r]. rewrite <- (mapbit_word m pos w), H by (lia || done). done.
    + rewrite <- (Z.mod_small t (2 ^ 64)), Z.mod_pow2_bits_high by lia. apply andb_false_r.
Qed.

Lemma words_clear_ok n : forall m pos, words_ok m -> 0 <= pos -> pos + Z.of_nat n <= Z.of_nat (length m) ->
  exists b, words_clear n m pos = Some b /\
    (b = true <-> forall p, pos <= p / 64 < pos + Z.of_nat n -> mapbit m p = false).
Proof.
  induction n as [|n IH]; intros m pos Hok Hp Hn.
  { exists true. split; [done|]. split; [|done]. intros _ p Hr. lia. }
  cbn [words_clear]. destruct (aget_is_Some m pos) as [w Hw]; [lia|]. rewrite Hw. cbn [mbind option_bind].
  pose proof (masked_clear m pos w ALL_SET Hw ltac:(done)) as Hclear.
  assert (Hones : forall j, 0 <= j < 64 -> Z.testbit ALL_SET j = true).
  { intros j Hj. unfold ALL_SET. change (2 ^ 64 - 1) with (Z.ones 64). by apply Z.ones_spec_low. }
  assert (Hland : Z.land w ALL_SET = w).
  { unfold ALL_SET. change (2 ^ 64 - 1) with (Z.ones 64). rewrite Z.land_ones by lia. apply Z.mod_small. by eapply Hok. }
  rewrite Hland in Hclear. destruct (Z.eqb_spec w 0) as [E|E].
  - destruct (IH m (pos + 1) Hok) as (b & Eb & Hb); [lia..|]. exists b. split; [done|]. rewrite Hb. split.
    + intros H p Hr. destruct (Z.eq_dec (p / 64) pos) as [<-|]; [|apply H; lia].
      destruct (page_split p) as [Es Hj]. rewrite Es. apply Hclear; auto.
    + intros H p Hr. apply H. lia.
  - exists false. split; [done|]. split; [done|]. intros H. destruct E. apply Hclear. intros j Hj _. apply H.
    rewrite (proj1 (page_of pos j Hj)). lia.
Qed.

Lemma zend_mm_bitset_is_free_range_ok m start len : words_ok m -> 0 <= start -> 1 <= len -> start + len <= 64 * Z.of_nat (length m) ->
  exists b, zend_mm_bitset_is_free_range m start len = Some b /\
    (b = true <-> forall p, start <= p < start + len -> mapbit m p = false).
Proof.
  intros Hok Hs Hl Hn. unfold zend_mm_bitset_is_free_range. destruct (Z.eqb_spec len 1) as [->|].
  { rewrite zend_mm_bitset_is_set_ok by lia. eexists. split; [done|]. rewrite negb_true_iff. split; [|intros H; apply H; lia].
    intros H p Hp. by replace p with start by lia. }
  rewrite !land_63. change ZEND_MM_BITSET_LEN with 64. set (e := start + len - 1). cbv zeta.
  destruct (page_split start) as [Es Rs]. destruct (page_split e) as [Ee Re].
  assert (Hle : start / 64 <= e / 64) by (apply Z.div_le_mono; lia).
  assert (Hpos : 0 <= start / 64) by (apply Z.div_pos; lia).
  assert (Hend : e / 64 < Z.of_nat (length m)) by (apply Z.div_lt_upper_bound; lia).
  assert (Hto : 0 <= mask_to (e mod 64) < 2 ^ 64) by by apply mask_to_range.
  assert (Hfrom : 0 <= mask_from (start mod 64) < 2 ^ 64) by apply shl_range.
  destruct (aget_is_Some m (start / 64)) as [w Hw]; [lia|]. rewrite Hw. cbn [mbind option_bind].
  destruct (aget_is_Some m (e / 64)) as [w' Hw']; [lia|].
  destruct (Z.eqb_spec (start / 64) (e / 64)) as [Eq|Ne].
  - eexists. split; [done|]. rewrite Z.eqb_eq, (masked_clear m (start / 64)) by (done || by apply land_range). split.
    + intros H p Hp. destruct (page_split p) as [Ep Rp]. assert (p / 64 = start / 64) as Epp.
      { assert (start / 64 <= p / 64) by (apply Z.div_le_mono; lia). assert (p / 64 <= e / 64) by (apply Z.div_le_mono; lia). lia. }
      rewrite Ep, Epp. apply H; [done|]. rewrite Z.land_spec, mask_from_spec, mask_to_spec by done. zbool. done.
    + intros H j Hj. rewrite Z.land_spec, mask_from_spec, mask_to_spec by done. intros [?%Z.leb_le ?%Z.leb_le]%andb_true_iff.
      apply H. subst e. lia.
  - destruct (words_clear_ok (Z.to_nat (e / 64 - (start / 64 + 1))) m (start / 64 + 1) Hok) as (b & Eb & Hb); [lia..|].
    rewrite Eb, Hw'. cbn [mbind option_bind].
    pose proof (masked_clear m (start / 64) w (mask_from (start mod 64)) Hw Hfrom) as H1.
    pose proof (masked_clear m (e / 64) w' (mask_to (e mod 64)) Hw' Hto) as H2.
    assert (Hall : (forall p, start <= p < start + len -> mapbit m p = false) <->
      Z.land w (mask_from (start mod 64)) = 0 /\ b = true /\ Z.land w' (mask_to (e mod 64)) = 0).
    { rewrite H1, H2, Hb. split.
      - intros H. split_and!.
        + intros j Hj. rewrite mask_from_spec by done. intros ?%Z.leb_le. apply H. subst e. lia.
        + intros p Hp. destruct (page_split p) as [Ep Rp]. apply H. subst e. lia.
        + intros j Hj. rewrite mask_to_spec by done. intros ?%Z.leb_le. apply H. subst e. lia.
      - intros (Ha & Hc & Hd) p Hp. destruct (page_split p) as [Ep Rp].
        assert (start / 64 <= p / 64) by (apply Z.div_le_mono; lia). assert (p / 64 <= e / 64) by (apply Z.div_le_mono; lia).
        destruct (Z.eq_dec (p / 64) (start / 64)) as [E|]; [rewrite Ep, E; apply Ha; [done|rewrite mask_from_spec by done; zbool; done]|].
        destruct (Z.eq_dec (p / 64) (e / 64)) as [E|]; [rewrite Ep, E; apply Hd; [done|rewrite mask_to_spec by done; zbool; done]|].
        apply Hc. lia. }
    setoid_rewrite Hall. destruct (Z.eqb_spec (Z.land w (mask_from (start mod 64))) 0); cbn [negb].
    + destruct b; [eexists; split; [done|]; rewrite Z.eqb_eq; tauto|]. exists false. split; [done|]. split; [done|]. by intros (_ & ? & _).
    + exists false. split; [done|]. split; [done|]. by intros (? & _).
Qed.
