(* ===== verification/ZendMmBins.v ===== *)
(** * Size classes of small blocks ([zend_alloc_sizes.h], [zend_alloc.c])

    Blocks of up to 3072 bytes are cut from runs of pages that hold elements of one of 30 sizes.  The class
    of a size is computed with shifts; it is shown to be the first one of the table that is large enough. *)
From S2P Require Import Prelude.

Definition ZEND_MM_PAGE_SIZE : Z := 4 * 1024.
Definition ZEND_MM_MIN_SMALL_SIZE : Z := 8.
Definition ZEND_MM_MAX_SMALL_SIZE : Z := 3072.

(** The rows [(size, count, pages)] of the table, in the order of their numbers. *)
Definition ZEND_MM_BINS_INFO : list (Z * Z * Z) :=
  [ (8, 512, 1); (16, 256, 1); (24, 170, 1); (32, 128, 1); (40, 102, 1); (48, 85, 1); (56, 73, 1); (64, 64, 1);
    (80, 51, 1); (96, 42, 1); (112, 36, 1); (128, 32, 1); (160, 25, 1); (192, 21, 1); (224, 18, 1); (256, 16, 1);
    (320, 64, 5); (384, 32, 3); (448, 9, 1); (512, 8, 1); (640, 32, 5); (768, 16, 3); (896, 9, 2); (1024, 8, 2);
    (1280, 16, 5); (1536, 8, 3); (1792, 16, 7); (2048, 8, 4); (2560, 8, 5); (3072, 4, 3) ].
Definition ZEND_MM_BINS : Z := 30.

Definition bin_data_size : list Z := (fun row => row.1.1) <$> ZEND_MM_BINS_INFO.
Definition bin_elements : list Z := (fun row => row.1.2) <$> ZEND_MM_BINS_INFO.
Definition bin_pages : list Z := (fun row => row.2) <$> ZEND_MM_BINS_INFO.

(** The number of the highest set bit, from 1: with the builtin, and without it. *)
Definition clz (size : Z) : Z := 31 - Z.log2 size.
Definition zend_mm_small_size_to_bit (size : Z) : Z := Z.lxor (clz size) 0x1f + 1.
Definition zend_mm_small_size_to_bit_portable (size : Z) : Z :=
  let n := 16 in
  let '(n, size) := if size <=? 0x00ff then (n - 8, Z.shiftl size 8) else (n, size) in
  let '(n, size) := if size <=? 0x0fff then (n - 4, Z.shiftl size 4) else (n, size) in
  let '(n, size) := if size <=? 0x3fff then (n - 2, Z.shiftl size 2) else (n, size) in
  if size <=? 0x7fff then n - 1 else n.

Definition zend_mm_small_size_to_bin (size : Z) : Z :=
  if size <=? 64 then Z.shiftr (size - (if size =? 0 then 0 else 1)) 3
  else
    let t1 := u32 (size - 1) in
    let t2 := u32 (zend_mm_small_size_to_bit t1 - 3) in
    let t1 := Z.shiftr t1 t2 in
    let t2 := u32 (t2 - 3) in
    let t2 := u32 (Z.shiftl t2 2) in
    u32 (t1 + t2).

(** ** The table *)
Lemma bins_row bin : 0 <= bin < ZEND_MM_BINS -> exists size count pages,
  ZEND_MM_BINS_INFO !! Z.to_nat bin = Some (size, count, pages) /\
  aget bin_data_size bin = Some size /\ aget bin_elements bin = Some count /\ aget bin_pages bin = Some pages.
Proof.
  intros Hb. destruct (lookup_lt_is_Some_2 ZEND_MM_BINS_INFO (Z.to_nat bin)) as [[[size count] pages] E].
  { change (length ZEND_MM_BINS_INFO) with 30%nat. unfold ZEND_MM_BINS in Hb. lia. }
  exists size, count, pages. unfold bin_data_size, bin_elements, bin_pages, aget. rewrite (proj2 (Z.leb_le _ _)) by lia.
  by rewrite !list_lookup_fmap, E.
Qed.

(** The elements of a run lie in its pages, and there are at least two of them. *)
Definition row_ok (row : Z * Z * Z) : bool :=
  let '(size, count, pages) := row in
  (8 <=? size) && (2 <=? count) && (1 <=? pages) && (size * count <=? ZEND_MM_PAGE_SIZE * pages) && (pages <=? 7).

Lemma rows_ok bin size count pages : ZEND_MM_BINS_INFO !! Z.to_nat bin = Some (size, count, pages) ->
  8 <= size /\ 2 <= count /\ 1 <= pages <= 7 /\ size * count <= ZEND_MM_PAGE_SIZE * pages.
Proof.
  intros E. assert (H : Forall (fun row => row_ok row = true) ZEND_MM_BINS_INFO) by (by repeat constructor).
  rewrite Forall_lookup in H. specialize (H _ _ E). unfold row_ok in H. lia.
Qed.

(** ** The class of a size *)
Lemma zend_mm_small_size_to_bit_same size : 1 <= size < 2 ^ 16 ->
  zend_mm_small_size_to_bit_portable size = zend_mm_small_size_to_bit size /\ zend_mm_small_size_to_bit size = Z.log2 size + 1.
Proof.
  intros Hs. assert (Hl : 0 <= Z.log2 size < 16) by (split; [apply Z.log2_nonneg|apply Z.log2_lt_pow2; lia]).
  assert (E : zend_mm_small_size_to_bit size = Z.log2 size + 1).
  { unfold zend_mm_small_size_to_bit, clz. assert (Hx : forall l, In l (seqZ 0 16) -> Z.lxor (31 - l) 31 = l).
    { intros l Hin. vm_compute in Hin. repeat (destruct Hin as [<-|Hin]; [reflexivity|]). done. }
    rewrite Hx; [done|]. apply list_elem_of_In, elem_of_seqZ. lia. }
  split; [|done]. rewrite E. pose proof (Z.log2_spec size ltac:(lia)) as Hspec.
  clear E. set (l := Z.log2 size) in *. clearbody l. assert (Hc : In l (seqZ 0 16)) by (apply list_elem_of_In, elem_of_seqZ; lia). vm_compute in Hc.
  unfold zend_mm_small_size_to_bit_portable. rewrite !Z.shiftl_mul_pow2 by lia.
  change (2 ^ 8) with 256. change (2 ^ 4) with 16. change (2 ^ 2) with 4.
  destruct (Z.leb_spec size 0xff);
    match goal with |- context [?a <=? 0xfff] => destruct (Z.leb_spec a 0xfff) end;
    match goal with |- context [?a <=? 0x3fff] => destruct (Z.leb_spec a 0x3fff) end;
    match goal with |- context [?a <=? 0x7fff] => destruct (Z.leb_spec a 0x7fff) end;
    (repeat destruct Hc as [<-|Hc]); try done; rewrite ?Z.shiftl_mul_pow2 in * by lia; cbn -[Z.pow Z.le Z.lt] in Hspec; lia.
Qed.

(** The first class of the table that is large enough for [size]. *)
Fixpoint first_fitting (rows : list (Z * Z * Z)) (size : Z) : Z :=
  match rows with
  | [] => 0
  | (data_size, _, _) :: rows => if size <=? data_size then 0 else 1 + first_fitting rows size
  end.

Lemma first_fitting_nonneg rows size : 0 <= first_fitting rows size.
Proof. induction rows as [|[[data_size count] pages] rows IH]; cbn; [lia|]. destruct (Z.leb_spec size data_size); lia. Qed.

Lemma first_fitting_spec rows size bin : 0 <= bin < Z.of_nat (length rows) -> first_fitting rows size = bin ->
  (exists row, rows !! Z.to_nat bin = Some row /\ size <= row.1.1) /\
  forall i row, 0 <= i < bin -> rows !! Z.to_nat i = Some row -> row.1.1 < size.
Proof.
  revert bin. induction rows as [|[[data_size count] pages] rows IH]; intros bin Hb E; cbn in *; [lia|].
  destruct (Z.leb_spec size data_size); [subst bin; split; [by eexists|intros; lia]|].
  pose proof (first_fitting_nonneg rows size). destruct (IH (bin - 1)) as ((row & Hrow & Hs) & Hbefore); [lia..|].
  replace (Z.to_nat bin) with (S (Z.to_nat (bin - 1))) by lia. split; [by exists row|].
  intros i row' Hi. destruct (Z.to_nat i) as [|k] eqn:Ek; [by intros [= <-]|]. intros Hrow'. apply (Hbefore (i - 1)); [lia|].
  by replace (Z.to_nat (i - 1)) with k by lia.
Qed.

Lemma bins_checked : forallb (fun size => zend_mm_small_size_to_bin size =? first_fitting ZEND_MM_BINS_INFO size) (seqZ 0 3073) = true.
Proof. vm_compute. reflexivity. Qed.

Lemma zend_mm_small_size_to_bin_first size : 0 <= size <= ZEND_MM_MAX_SMALL_SIZE ->
  zend_mm_small_size_to_bin size = first_fitting ZEND_MM_BINS_INFO size.
Proof.
  intros Hs. pose proof bins_checked as H. rewrite forallb_forall in H. apply Z.eqb_eq, H, list_elem_of_In, elem_of_seqZ.
  unfold ZEND_MM_MAX_SMALL_SIZE in Hs. lia.
Qed.

Lemma size_to_bin_range size : 0 <= size <= ZEND_MM_MAX_SMALL_SIZE -> 0 <= zend_mm_small_size_to_bin size < ZEND_MM_BINS.
Proof.
  intros Hs. rewrite zend_mm_small_size_to_bin_first by done. unfold ZEND_MM_BINS, ZEND_MM_MAX_SMALL_SIZE in *.
  unfold ZEND_MM_BINS_INFO. cbn [first_fitting]. repeat (zcase; [lia|]). lia.
Qed.

Lemma size_to_bin_fits size : 0 <= size <= ZEND_MM_MAX_SMALL_SIZE -> exists data_size, 0 <= zend_mm_small_size_to_bin size < ZEND_MM_BINS /\
  aget bin_data_size (zend_mm_small_size_to_bin size) = Some data_size /\ size <= data_size.
Proof.
  intros Hs. pose proof (size_to_bin_range size Hs) as Hr. destruct (bins_row _ Hr) as (data_size & count & pages & Erow & Ed & _).
  destruct (first_fitting_spec ZEND_MM_BINS_INFO size (zend_mm_small_size_to_bin size)) as ((row & Erow' & Hfit) & _);
    [exact Hr|by rewrite <- zend_mm_small_size_to_bin_first|].
  rewrite Erow in Erow'. injection Erow' as <-. by exists data_size.
Qed.

(** C38: For every size of at most 3072 bytes the shifts give the number of a class of the table: the first
    one whose elements are large enough, so no smaller class would do.  A run of that class has at least two
    elements, and they all lie in its pages.  So class 0 has all sizes up to 8: the comment at [srun_bin_num], which gives
    it the sizes up to 2, and 1 to the sizes 3 and 4, is about other classes. *)
Theorem zend_mm_small_size_to_bin_smallest size : 0 <= size <= ZEND_MM_MAX_SMALL_SIZE ->
  exists data_size count pages,
    0 <= zend_mm_small_size_to_bin size < ZEND_MM_BINS /\
    aget bin_data_size (zend_mm_small_size_to_bin size) = Some data_size /\ size <= data_size /\
    (forall i smaller, 0 <= i < zend_mm_small_size_to_bin size -> aget bin_data_size i = Some smaller -> smaller < size) /\
    aget bin_elements (zend_mm_small_size_to_bin size) = Some count /\ 2 <= count /\
    aget bin_pages (zend_mm_small_size_to_bin size) = Some pages /\ data_size * count <= ZEND_MM_PAGE_SIZE * pages.
Proof.
  intros Hs. pose proof (size_to_bin_range size Hs) as Hr. set (bin := zend_mm_small_size_to_bin size) in *.
  destruct (bins_row bin Hr) as (data_size & count & pages & Erow & Ed & Ec & Ep). pose proof (rows_ok _ _ _ _ Erow).
  destruct (first_fitting_spec ZEND_MM_BINS_INFO size bin) as ((row & Erow' & Hfit) & Hbefore).
  { exact Hr. }
  { by rewrite <- zend_mm_small_size_to_bin_first. }
  rewrite Erow in Erow'. injection Erow' as <-. exists data_size, count, pages. split_and!; try done; try lia.
  intros i smaller Hi Hsm. destruct (bins_row i) as (d & c & p & Ei & Edi & _); [lia|]. rewrite Edi in Hsm. injection Hsm as <-.
  by apply (Hbefore i (d, c, p)).
Qed.

Lemma zend_mm_small_size_to_bin_smallest_witness :
  0 <= 65 <= ZEND_MM_MAX_SMALL_SIZE /\ aget bin_data_size (zend_mm_small_size_to_bin 65) = Some 80.
Proof.
  assert (H : 0 <= 65 <= ZEND_MM_MAX_SMALL_SIZE) by (unfold ZEND_MM_MAX_SMALL_SIZE; lia). split; [exact H|].
  destruct (zend_mm_small_size_to_bin_smallest 65 H) as (d & c & p & _ & E & _). rewrite E. vm_compute in E. by injection E as <-.
Defined.
