(* ===== verification/ZendMmChunk.v ===== *)
(** * Pages of a chunk ([zend_alloc.c])

    A chunk is 512 pages; the first holds its header.  [search_chunk] is the body of the loop of
    [zend_mm_alloc_pages] for one chunk, a best-fit search over the bits of the page map; [mark_run] and
    [release_run] are what allocating and freeing a run of pages do to its chunk.  A chunk is shown to be
    a set of disjoint runs: the search finds a shortest free run that is long enough, and fails only when
    there is none. *)
From S2P Require Import Prelude ZendMmBitset ZendMmBins.

Definition ZEND_MM_CHUNK_SIZE : Z := 2 * 1024 * 1024.
Definition ZEND_MM_PAGES : Z := ZEND_MM_CHUNK_SIZE / ZEND_MM_PAGE_SIZE.
Definition ZEND_MM_FIRST_PAGE : Z := 1.

(** ** The words of [map] *)
Definition ZEND_MM_IS_LRUN : Z := 0x40000000.
Definition ZEND_MM_IS_SRUN : Z := 0x80000000.
Definition ZEND_MM_LRUN_PAGES (info : Z) : Z := Z.land info 0x3ff.
Definition ZEND_MM_SRUN_BIN_NUM (info : Z) : Z := Z.land info 0x1f.
Definition ZEND_MM_SRUN_FREE_COUNTER (info : Z) : Z := Z.shiftr (Z.land info 0x01ff0000) 16.
Definition ZEND_MM_NRUN_OFFSET (info : Z) : Z := Z.shiftr (Z.land info 0x01ff0000) 16.
Definition ZEND_MM_LRUN (count : Z) : Z := Z.lor ZEND_MM_IS_LRUN count.
Definition ZEND_MM_SRUN (bin_num : Z) : Z := Z.lor ZEND_MM_IS_SRUN bin_num.
Definition ZEND_MM_SRUN_EX (bin_num count : Z) : Z := Z.lor (ZEND_MM_SRUN bin_num) (u32 (Z.shiftl count 16)).
Definition ZEND_MM_NRUN (bin_num offset : Z) : Z :=
  Z.lor (Z.lor (Z.lor ZEND_MM_IS_SRUN ZEND_MM_IS_LRUN) bin_num) (u32 (Z.shiftl offset 16)).

(** The pages a chunk starts from come zeroed from the system. *)
Record zend_mm_chunk := {
  next : Z; prev : Z;
  free_pages : Z; free_tail : Z; num : Z;
  free_map : list Z; map : list Z }.

(** ** Best fit *)

(** [while (tmp == (zend_mm_bitset)-1)]; [None] inside is the end of the map, [rest] the words that
    [bitset] points to. *)
Fixpoint skip_allocated (rest : list Z) (tmp i : Z) : option (option (Z * Z * list Z)) :=
  if tmp =? ALL_SET then
    let i := u32 (i + ZEND_MM_BITSET_LEN) in
    if i =? ZEND_MM_PAGES then Some None
    else match rest with [] => None | w :: rest => skip_allocated rest w i end
  else Some (Some (tmp, i, rest)).

(** [while (tmp == 0)] *)
Fixpoint skip_free (tail : Z) (rest : list Z) (tmp i : Z) : option (option (Z * Z * list Z)) :=
  if tmp =? 0 then
    let i := u32 (i + ZEND_MM_BITSET_LEN) in
    if (tail <=? i) || (i =? ZEND_MM_PAGES) then Some None
    else match rest with [] => None | w :: rest => skip_free tail rest w i end
  else Some (Some (tmp, i, rest)).

Definition best_found (best : Z) : option Z := if 0 <? best then Some best else None.

(** The result is the page, if there is one, and the new [free_tail]. *)
Fixpoint best_fit (fuel : nat) (pages_count tail : Z) (rest : list Z) (tmp i best best_len : Z) :
  option (option Z * Z) :=
  match fuel with
  | O => None
  | S fuel =>
      r ← skip_allocated rest tmp i;
      match r with
      | None => Some (best_found best, tail)
      | Some (tmp, i, rest) =>
          let page_num := u32 (i + zend_mm_bitset_nts tmp) in
          let tmp := Z.land tmp (u64 (tmp + 1)) in
          r ← skip_free tail rest tmp i;
          match r with
          | None =>
              let len := u32 (ZEND_MM_PAGES - page_num) in
              if (pages_count <=? len) && (len <? best_len) then Some (Some page_num, u32 (page_num + pages_count))
              else Some (best_found best, page_num)
          | Some (tmp, i, rest) =>
              let len := u32 (i + zend_ulong_ntz tmp - page_num) in
              if (pages_count <=? len) && (len =? pages_count) then Some (Some page_num, tail)
              else
                let '(best, best_len) :=
                  if (pages_count <=? len) && (len <? best_len) then (page_num, len) else (best, best_len) in
                best_fit fuel pages_count tail rest (Z.lor tmp (u64 (tmp - 1))) i best best_len
          end
      end
  end.

(** Every round of the search leaves at least two pages behind. *)
Definition search_fuel : nat := 513.

Definition search_chunk (chunk : zend_mm_chunk) (pages_count : Z) : option (option Z * zend_mm_chunk) :=
  if free_pages chunk <? pages_count then Some (None, chunk)
  else
    match free_map chunk with
    | [] => None
    | tmp :: rest =>
        '(page_num, tail) ← best_fit search_fuel pages_count (free_tail chunk) rest tmp 0 (-1) ZEND_MM_PAGES;
        Some (page_num, {| chunk with free_tail := tail |})
    end.

(** ** Runs *)
Definition mark_run (chunk : zend_mm_chunk) (page_num pages_count : Z) : option zend_mm_chunk :=
  bits ← zend_mm_bitset_set_range (free_map chunk) page_num pages_count;
  infos ← aset (map chunk) page_num (ZEND_MM_LRUN pages_count);
  Some {| chunk with free_pages := u32 (free_pages chunk - pages_count); free_map := bits; map := infos;
          free_tail := if page_num =? free_tail chunk then u32 (page_num + pages_count) else free_tail chunk |}.

Definition release_run (chunk : zend_mm_chunk) (page_num pages_count : Z) : option zend_mm_chunk :=
  bits ← zend_mm_bitset_reset_range (free_map chunk) page_num pages_count;
  infos ← aset (map chunk) page_num 0;
  Some {| chunk with free_pages := u32 (free_pages chunk + pages_count); free_map := bits; map := infos;
          free_tail := if free_tail chunk =? u32 (page_num + pages_count) then page_num else free_tail chunk |}.

(** [chunk->map[page_num+i] = ZEND_MM_NRUN(bin_num, i)] for the pages from [i] on *)
Fixpoint mark_rest (n : nat) (infos : list Z) (page_num bin_num i : Z) : option (list Z) :=
  match n with
  | O => Some infos
  | S n => infos ← aset infos (page_num + i) (ZEND_MM_NRUN bin_num i); mark_rest n infos page_num bin_num (i + 1)
  end.

Definition mark_bin (c : zend_mm_chunk) (page_num bin_num pages : Z) : option zend_mm_chunk :=
  infos ← aset (map c) page_num (ZEND_MM_SRUN bin_num);
  infos ← (if 1 <? pages then mark_rest (Z.to_nat (pages - 1)) infos page_num bin_num 1 else Some infos);
  Some {| c with map := infos |}.

(** The fields [zend_mm_chunk_init] sets apart from the links. *)
Definition init_pages (chunk : zend_mm_chunk) : option zend_mm_chunk :=
  bits ← aset (free_map chunk) 0 (shl 1 ZEND_MM_FIRST_PAGE - 1);
  infos ← aset (map chunk) 0 (ZEND_MM_LRUN ZEND_MM_FIRST_PAGE);
  Some {| chunk with free_pages := ZEND_MM_PAGES - ZEND_MM_FIRST_PAGE; free_tail := ZEND_MM_FIRST_PAGE;
          free_map := bits; map := infos |}.

(** ** Words with their low bits cleared and set *)
Lemma testbit_split n q r j : 0 <= n -> 0 <= r < 2 ^ n -> 0 <= j ->
  Z.testbit (2 ^ n * q + r) j = if j <? n then Z.testbit r j else Z.testbit q (j - n).
Proof.
  intros Hn Hr Hj. destruct (Z.ltb_spec j n).
  - rewrite <- (Z.mod_pow2_bits_low _ n) by lia. f_equal. rewrite Z.add_comm, Z.mul_comm, Z.mod_add by lia. by apply Z.mod_small.
  - replace j with ((j - n) + n) at 1 by lia. rewrite <- Z.div_pow2_bits by lia. f_equal.
    rewrite Z.add_comm, Z.mul_comm, Z.div_add by lia. rewrite Z.div_small by lia. lia.
Qed.

Lemma low_part x k r : 0 <= k -> 0 <= r < 2 ^ (k + 1) -> (forall j, 0 <= j <= k -> Z.testbit x j = Z.testbit r j) ->
  x = 2 ^ (k + 1) * (x / 2 ^ (k + 1)) + r.
Proof.
  intros Hk Hr Hb. rewrite (Z.div_mod x (2 ^ (k + 1))) at 1 by lia. f_equal.
  rewrite <- (Z.mod_small r (2 ^ (k + 1))) by done. apply Z.bits_inj'. intros j Hj.
  destruct (Z.lt_ge_cases j (k + 1)); [rewrite !Z.mod_pow2_bits_low by lia; apply Hb; lia|by rewrite !Z.mod_pow2_bits_high by lia].
Qed.

Lemma pow_succ k : 0 <= k -> 2 ^ (k + 1) = 2 * 2 ^ k /\ 0 < 2 ^ k.
Proof. intros Hk. split; [by rewrite Z.pow_add_r, Z.mul_comm by lia|by apply Z.pow_pos_nonneg]. Qed.

(** [tmp &= tmp + 1] clears the trailing ones. *)
Lemma clear_ones x k j : 0 <= x < 2 ^ 64 -> x <> ALL_SET -> 0 <= k < 64 -> first_bit false x k -> 0 <= j ->
  Z.testbit (Z.land x (u64 (x + 1))) j = if j <? k then false else Z.testbit x j.
Proof.
  intros Hx Hne Hk [Hb Hlow] Hj. destruct (pow_succ k) as [Hs Hp]; [lia|].
  unfold u64. rewrite uwrap_small by (unfold ALL_SET in Hne; lia).
  assert (E : x = 2 ^ (k + 1) * (x / 2 ^ (k + 1)) + Z.ones k).
  { apply low_part; [lia|rewrite Z.ones_equiv; lia|]. intros i Hi. destruct (Z.eq_dec i k) as [->|].
    - by rewrite Hb, Z.ones_spec_high by lia.
    - by rewrite Hlow, Z.ones_spec_low by lia. }
  set (q := x / 2 ^ (k + 1)) in *. assert (E1 : x + 1 = 2 ^ (k + 1) * q + 2 ^ k) by (rewrite Z.ones_equiv in E; lia).
  rewrite Z.land_spec, E1, testbit_split by lia. rewrite E, testbit_split by (rewrite ?Z.ones_equiv; lia).
  destruct (Z.ltb_spec j (k + 1)) as [Hjk|Hjk].
  - rewrite Z.pow2_bits_eqb by lia. destruct (Z.ltb_spec j k), (Z.eqb_spec k j); try lia; rewrite ?andb_false_r, ?andb_true_r; done.
  - zbool. apply andb_diag.
Qed.

(** [tmp |= tmp - 1] sets the bits up to the first one. *)
Lemma set_low x k j : 0 < x < 2 ^ 64 -> 0 <= k < 64 -> first_bit true x k -> 0 <= j ->
  Z.testbit (Z.lor x (u64 (x - 1))) j = if j <=? k then true else Z.testbit x j.
Proof.
  intros Hx Hk [Hb Hlow] Hj. destruct (pow_succ k) as [Hs Hp]; [lia|].
  unfold u64. rewrite uwrap_small by lia.
  assert (E : x = 2 ^ (k + 1) * (x / 2 ^ (k + 1)) + 2 ^ k).
  { apply low_part; [lia|lia|]. intros i Hi. rewrite Z.pow2_bits_eqb by lia. destruct (Z.eqb_spec k i) as [<-|]; [done|apply Hlow; lia]. }
  set (q := x / 2 ^ (k + 1)) in *. assert (E1 : x - 1 = 2 ^ (k + 1) * q + Z.ones k) by (rewrite Z.ones_equiv; lia).
  rewrite Z.lor_spec, E1, testbit_split by (rewrite ?Z.ones_equiv; lia). rewrite E, testbit_split by lia.
  destruct (Z.ltb_spec j (k + 1)) as [Hjk|Hjk].
  - rewrite Z.pow2_bits_eqb by lia. zbool. destruct (Z.eqb_spec k j); rewrite ?orb_true_r; [done|]. rewrite Z.ones_spec_low by lia. by rewrite ?orb_true_r.
  - zbool. apply orb_diag.
Qed.

(** ** The search *)
Section Search.
(** The bits of the map; its first page is taken. *)
Context (m : list Z) (Hlen : length m = 8%nat) (Hwords : words_ok m) (H0 : mapbit m 0 = true).
Context (pages_count tail : Z) (Hcount : 1 <= pages_count) (Htail : 1 <= tail <= 512)
  (Hfree : forall q, tail <= q < 512 -> mapbit m q = false).
Local Abbreviation bit := (mapbit m).

(** A maximal run of [len] free pages that starts at [p]. *)
Definition run (p len : Z) : Prop :=
  0 < p /\ 0 < len /\ p + len <= 512 /\ (forall q, p <= q < p + len -> bit q = false) /\
  bit (p - 1) = true /\ (p + len = 512 \/ bit (p + len) = true).

(** Two maximal runs are the same or apart. *)
Lemma run_unique p len len' : run p len -> run p len' -> len = len'.
Proof.
  intros (_ & Hl & He & Hf & _ & Hend) (_ & Hl' & He' & Hf' & _ & Hend').
  destruct (Z.lt_trichotomy len len') as [Hlt|[?|Hlt]]; [|done|].
  - destruct Hend as [?|Hb]; [lia|]. rewrite Hf' in Hb by lia. done.
  - destruct Hend' as [?|Hb]; [lia|]. rewrite Hf in Hb by lia. done.
Qed.

(** The scan stands in word [i / 64] of which [tmp] is left: the pages from [pos] on.  The word has the
    value [c] below. *)
Record at_word (c : bool) (rest : list Z) (tmp i pos : Z) : Prop := {
  aw_word : exists q : nat, i = 64 * Z.of_nat q /\ (q < 8)%nat /\ rest = drop (S q) m;
  aw_tmp : 0 <= tmp < 2 ^ 64;
  aw_bits : forall j, 0 <= j < 64 -> Z.testbit tmp j = if i + j <? pos then c else bit (i + j) }.

Lemma next_index q : (q < 8)%nat -> u32 (64 * Z.of_nat q + ZEND_MM_BITSET_LEN) = 64 * Z.of_nat (S q).
Proof. intros Hq. unfold u32, ZEND_MM_BITSET_LEN. rewrite uwrap_small by lia. lia. Qed.

Lemma next_word c (q : nat) : (S q < 8)%nat ->
  exists w, drop (S q) m = w :: drop (S (S q)) m /\ at_word c (drop (S (S q)) m) w (64 * Z.of_nat (S q)) (64 * Z.of_nat (S q)).
Proof.
  intros Hq. destruct (lookup_lt_is_Some_2 m (S q)) as [w Hw]; [lia|]. exists w. split; [by apply drop_S|].
  assert (Hg : aget m (Z.of_nat (S q)) = Some w) by by rewrite aget_nat.
  constructor; [by exists (S q)|by eapply Hwords|]. intros j Hj. rewrite (mapbit_word m _ w) by done. by zbool.
Qed.

(** A word without clear bits, and one without set bits. *)
Lemma full_word rest q pos p : at_word true rest ALL_SET (64 * Z.of_nat q) pos -> 64 * Z.of_nat q <= pos <= p -> p < 64 * Z.of_nat (S q) ->
  bit p = true.
Proof.
  intros A Hp Hq. pose proof (aw_bits _ _ _ _ _ A (p - 64 * Z.of_nat q) ltac:(lia)) as Hb.
  replace (64 * Z.of_nat q + (p - 64 * Z.of_nat q)) with p in Hb by lia. rewrite (proj2 (Z.ltb_ge _ _)) in Hb by lia.
  rewrite <- Hb. unfold ALL_SET. change (2 ^ 64 - 1) with (Z.ones 64). apply Z.ones_spec_low. lia.
Qed.

Lemma empty_word rest q pos p : at_word false rest 0 (64 * Z.of_nat q) pos -> 64 * Z.of_nat q <= p -> pos <= p -> p < 64 * Z.of_nat (S q) ->
  bit p = false.
Proof.
  intros A H1 Hp Hq. pose proof (aw_bits _ _ _ _ _ A (p - 64 * Z.of_nat q) ltac:(lia)) as Hb.
  replace (64 * Z.of_nat q + (p - 64 * Z.of_nat q)) with p in Hb by lia. rewrite (proj2 (Z.ltb_ge _ _)) in Hb by lia.
  rewrite <- Hb. apply Z.bits_0.
Qed.

(** The scan leaves words behind only whole, so it stands in the word of page [pos]. *)
Lemma skip_allocated_ok rest : forall tmp i pos, at_word true rest tmp i pos -> i <= pos <= i + 64 ->
  exists r, skip_allocated rest tmp i = Some r /\
  match r with
  | None => forall q, pos <= q < 512 -> bit q = true
  | Some (tmp', i', rest') => exists pos', tmp' <> ALL_SET /\ at_word true rest' tmp' i' pos' /\ i' <= pos' <= i' + 64 /\ pos <= pos' /\
      (forall q, pos <= q < pos' -> bit q = true)
  end.
Proof.
  induction rest as [|w rest IH]; intros tmp i pos A Hi; pose proof A as [(q & -> & Hq & Hrest) _ _]; cbn [skip_allocated];
    (destruct (Z.eqb_spec tmp ALL_SET) as [->|Hne]; [|eexists; split; [done|]; exists pos; split_and!; try done; lia]);
    rewrite next_index by done; change ZEND_MM_PAGES with 512;
    (destruct (Z.eqb_spec (64 * Z.of_nat (S q)) 512) as [E|E]; [eexists; split; [done|]; intros p Hp; eapply full_word; [exact A|lia..]|]).
  - assert (length (drop (S q) m) = 0%nat) by by rewrite <- Hrest. rewrite length_drop in *. lia.
  - destruct (next_word true q) as (w' & Ew & A'); [lia|]. rewrite <- Hrest in Ew. injection Ew as <- ->.
    destruct (IH _ _ _ A' ltac:(lia)) as (r & Er & Hr). exists r. split; [done|]. destruct r as [[[tmp' i'] rest']|].
    + destruct Hr as (pos' & H1 & H2 & H3 & H4 & H5). exists pos'. split_and!; try done; try lia.
      intros p Hp. destruct (Z.lt_ge_cases p (64 * Z.of_nat (S q))); [eapply full_word; [exact A|lia..]|apply H5; lia].
    + intros p Hp. destruct (Z.lt_ge_cases p (64 * Z.of_nat (S q))); [eapply full_word; [exact A|lia..]|apply Hr; lia].
Qed.

Lemma skip_free_ok rest : forall tmp i pos, at_word false rest tmp i pos -> pos < i + 64 ->
  (forall q, pos <= q < i -> bit q = false) ->
  exists r, skip_free tail rest tmp i = Some r /\
  match r with
  | None => forall q, pos <= q < 512 -> bit q = false
  | Some (tmp', i', rest') => tmp' <> 0 /\ at_word false rest' tmp' i' pos /\ pos < i' + 64 /\ (forall q, pos <= q < i' -> bit q = false)
  end.
Proof.
  induction rest as [|w rest IH]; intros tmp i pos A Hi Hbefore; pose proof A as [(q & -> & Hq & Hrest) _ _]; cbn [skip_free];
    (destruct (Z.eqb_spec tmp 0) as [->|Hne]; [|eexists; split; [done|]; split_and!; done]);
    rewrite next_index by done; change ZEND_MM_PAGES with 512;
    (assert (Hall : forall p, pos <= p < 64 * Z.of_nat (S q) -> bit p = false) by
       (intros p Hp; destruct (Z.lt_ge_cases p (64 * Z.of_nat q)); [apply Hbefore; lia|eapply empty_word; [exact A|lia..]]));
    (destruct (Z.leb_spec tail (64 * Z.of_nat (S q))) as [Et|Et]; cbn [orb];
      [eexists; split; [done|]; intros p Hp; destruct (Z.lt_ge_cases p (64 * Z.of_nat (S q))); [apply Hall; lia|apply Hfree; lia]|]);
    (destruct (Z.eqb_spec (64 * Z.of_nat (S q)) 512) as [E|E]; [eexists; split; [done|]; intros p Hp; apply Hall; lia|]).
  - assert (length (drop (S q) m) = 0%nat) by by rewrite <- Hrest. rewrite length_drop in *. lia.
  - destruct (next_word false q) as (w' & Ew & A'); [lia|]. rewrite <- Hrest in Ew. injection Ew as <- ->.
    assert (A2 : at_word false (drop (S (S q)) m) w (64 * Z.of_nat (S q)) pos).
    { destruct A' as [Aw At Ab]. constructor; [done|done|]. intros j Hj. rewrite Ab by done. zbool. by zbool. }
    apply (IH _ _ _ A2); [lia|done].
Qed.

(** The first free page from [pos] on. *)
Lemma first_free rest tmp i pos : at_word true rest tmp i pos -> i <= pos <= i + 64 -> (pos = 0 \/ bit (pos - 1) = true) -> tmp <> ALL_SET ->
  let p := u32 (i + zend_mm_bitset_nts tmp) in
  pos <= p < 512 /\ i <= p < i + 64 /\ 0 < p /\ bit p = false /\ bit (p - 1) = true /\ (forall q, pos <= q < p -> bit q = true) /\
  at_word false rest (Z.land tmp (u64 (tmp + 1))) i p.
Proof.
  intros [(q & Ei & Hq & Hrest) Ht Hb] Hi Hpos Hne. destruct (zend_mm_bitset_nts_ok tmp Ht Hne) as [Hk Hf].
  set (k := zend_mm_bitset_nts tmp) in *. unfold u32. rewrite uwrap_small by lia. cbn zeta. pose proof Hf as [Hk0 Hlow].
  pose proof (Hb k Hk) as Ek. rewrite Hk0 in Ek. destruct (Z.ltb_spec (i + k) pos) as [?|Hge]; [done|].
  assert (Hall : forall p, pos <= p < i + k -> bit p = true).
  { intros p Hp. specialize (Hb (p - i) ltac:(lia)). rewrite Hlow in Hb by lia. replace (i + (p - i)) with p in Hb by lia.
    rewrite (proj2 (Z.ltb_ge _ _)) in Hb by lia. done. }
  assert (0 < i + k) by (destruct (Z.eq_dec (i + k) 0) as [E|]; [rewrite E in Ek; congruence|lia]).
  split_and!; [lia..|done| |done|].
  - destruct (Z.eq_dec (i + k) pos) as [E|]; [destruct Hpos; [lia|by rewrite E]|apply Hall; lia].
  - constructor; [eauto|apply land_range; [done|apply uwrap_range; lia]|]. intros j Hj. rewrite (clear_ones tmp k) by done || lia.
    rewrite Hb by done. destruct (Z.ltb_spec j k), (Z.ltb_spec (i + j) (i + k)); try done; try lia. by rewrite (proj2 (Z.ltb_ge _ _)) by lia.
Qed.

(** The first taken page after the free page [p]. *)
Lemma first_taken rest tmp i p : at_word false rest tmp i p -> p < i + 64 -> (forall q, p <= q < i -> bit q = false) -> tmp <> 0 -> bit p = false -> 0 <= p ->
  let e := i + zend_ulong_ntz tmp in
  p < e < 512 /\ i <= e < i + 64 /\ bit e = true /\ (forall q, p <= q < e -> bit q = false) /\
  at_word true rest (Z.lor tmp (u64 (tmp - 1))) i (e + 1).
Proof.
  intros [(q & Ei & Hq & Hrest) Ht Hb] Hi Hbefore Hne Hp H0p. destruct (zend_ulong_ntz_ok tmp Ht Hne) as [Hk Hf].
  set (k := zend_ulong_ntz tmp) in *. cbn zeta. pose proof Hf as [Hk1 Hlow].
  pose proof (Hb k Hk) as Ek. rewrite Hk1 in Ek. destruct (Z.ltb_spec (i + k) p) as [?|Hge]; [done|].
  assert (Hall : forall r, p <= r < i + k -> bit r = false).
  { intros r Hr. destruct (Z.lt_ge_cases r i); [apply Hbefore; lia|]. specialize (Hb (r - i) ltac:(lia)). rewrite Hlow in Hb by lia.
    replace (i + (r - i)) with r in Hb by lia. rewrite (proj2 (Z.ltb_ge _ _)) in Hb by lia. done. }
  split_and!; [|lia..|done|done|].
  - destruct (Z.eq_dec (i + k) p) as [E|]; [rewrite E in Ek; congruence|lia].
  - constructor; [eauto|apply lor_range; [lia|done|apply uwrap_range; lia]|]. intros j Hj. rewrite (set_low tmp k) by done || lia.
    rewrite Hb by done. destruct (Z.leb_spec j k), (Z.ltb_spec (i + j) (i + k + 1)); try done; try lia. by rewrite (proj2 (Z.ltb_ge _ _)) by lia.
Qed.

(** The best run among those that start before [pos]. *)
Definition best_ok (pos best best_len : Z) : Prop :=
  (best = -1 /\ best_len = 512 /\ forall p len, run p len -> p < pos -> len < pages_count) \/
  (run best best_len /\ best + best_len < 512 /\ pages_count <= best_len /\
   forall p len, run p len -> p < pos -> pages_count <= len -> best_len <= len).

(** A shortest run that is long enough. *)
Definition best_run (p : Z) : Prop :=
  exists len, run p len /\ pages_count <= len /\ forall p' len', run p' len' -> pages_count <= len' -> len <= len'.

Definition search_result (r : option Z) (t : Z) : Prop :=
  1 <= t <= 512 /\ (forall q, t <= q < 512 -> bit q = false) /\
  match r with
  | Some p => best_run p /\ p + pages_count <= t
  | None => forall p len, run p len -> len < pages_count
  end.

Lemma run_before_taken p len t : run p len -> p + len < 512 -> (forall q, t <= q < 512 -> bit q = false) -> p + len < t.
Proof.
  intros (Hp & _ & _ & _ & _ & [?|Hb]) Hlt Ht; [lia|]. destruct (Z.lt_ge_cases (p + len) t) as [|Hge]; [done|].
  rewrite Ht in Hb by lia. done.
Qed.

Lemma best_found_ok pos best best_len t : best_ok pos best best_len -> (forall p len, run p len -> pages_count <= len -> p < pos) ->
  1 <= t <= 512 -> (forall q, t <= q < 512 -> bit q = false) -> search_result (best_found best) t.
Proof.
  intros Hbest Hall Ht Hfr. split; [done|split; [done|]]. unfold best_found. destruct Hbest as [(-> & _ & Hno)|(Hrun & He & Hc & Hmin)]; cbn.
  - intros p len Hr. destruct (Z.lt_ge_cases len pages_count) as [|Hge]; [done|]. apply (Hno p); [done|by eapply Hall].
  - pose proof Hrun as (Hpos & _). rewrite (proj2 (Z.ltb_lt _ _)) by lia. pose proof (run_before_taken _ _ t Hrun He Hfr).
    split; [|lia]. exists best_len. split_and!; [done|done|]. intros p len Hr Hl. apply (Hmin p); eauto.
Qed.

(** The runs that start up to the end of the run [p]: those before [pos], and this one. *)
Lemma runs_up_to pos p len p' len' : run p len -> (forall q, pos <= q < p -> bit q = true) -> run p' len' -> p' <= p + len ->
  p' < pos \/ (p' = p /\ len' = len).
Proof.
  intros Hr Htaken Hr' Hle. destruct (Z.lt_ge_cases p' pos) as [|Hge]; [by left|right].
  destruct (Z.eq_dec p' p) as [->|Hne]; [split; [done|by eapply run_unique]|]. exfalso.
  destruct Hr as (_ & _ & _ & Hfr & _ & Hend). destruct Hr' as (_ & Hl' & He' & Hfr' & Hb' & _).
  specialize (Hfr' p' ltac:(lia)). destruct (Z.lt_ge_cases p' p); [rewrite Htaken in Hfr' by lia; done|].
  destruct (Z.eq_dec p' (p + len)) as [->|]; [destruct Hend; [lia|congruence]|]. rewrite Hfr in Hb' by lia. done.
Qed.

(** The best run up to the end of the run [p]. *)
Lemma best_update pos p len best best_len : best_ok pos best best_len -> run p len -> p + len < 512 ->
  (forall q, pos <= q < p -> bit q = true) ->
  let '(best, best_len) := if (pages_count <=? len) && (len <? best_len) then (p, len) else (best, best_len) in
  best_ok (p + len + 1) best best_len.
Proof.
  intros Hbest Hr He Htaken.
  assert (Hup : forall p' len', run p' len' -> p' < p + len + 1 -> p' < pos \/ (p' = p /\ len' = len)).
  { intros p' len' Hr' Hlt. eapply runs_up_to; [done..|lia]. }
  destruct (Z.leb_spec pages_count len) as [Hc|Hc], (Z.ltb_spec len best_len) as [Hb|Hb]; cbn [andb].
  - right. split_and!; [done|done|done|]. intros p' len' Hr' Hlt Hc'. destruct (Hup _ _ Hr' Hlt) as [Hpos|[-> ->]]; [|done].
    destruct Hbest as [(_ & _ & Hno)|(_ & _ & _ & Hmin)]; [specialize (Hno _ _ Hr' Hpos)|specialize (Hmin _ _ Hr' Hpos Hc')]; lia.
  - destruct Hbest as [(_ & -> & _)|(Hbr & Hbe & Hbc & Hmin)]; [destruct Hr; lia|]. right. split_and!; [done..|].
    intros p' len' Hr' Hlt Hc'. destruct (Hup _ _ Hr' Hlt) as [Hpos|[-> ->]]; [eauto|done].
  - destruct Hbest as [(-> & -> & Hno)|(Hbr & Hbe & Hbc & Hmin)]; [left|right]; (split_and!; [done..|]); intros p' len' Hr' Hlt;
      destruct (Hup _ _ Hr' Hlt) as [Hpos|[-> ->]]; eauto; lia.
  - destruct Hbest as [(-> & -> & Hno)|(Hbr & Hbe & Hbc & Hmin)]; [left|right]; (split_and!; [done..|]); intros p' len' Hr' Hlt;
      destruct (Hup _ _ Hr' Hlt) as [Hpos|[-> ->]]; eauto; lia.
Qed.

(** The run at the end of the chunk is taken if it is better, and else the best before it. *)
Lemma last_run pos p best best_len : best_ok pos best best_len -> run p (512 - p) -> (forall q, pos <= q < p -> bit q = true) ->
  exists r t, (if (pages_count <=? 512 - p) && (512 - p <? best_len) then Some (Some p, u32 (p + pages_count))
               else Some (best_found best, p)) = Some (r, t) /\ search_result r t.
Proof.
  intros Hbest Hr Htaken. pose proof Hr as (Hp & Hl & _ & Hfr & _ & _).
  assert (Hup : forall p' len', run p' len' -> p' < pos \/ (p' = p /\ len' = 512 - p)).
  { intros p' len' Hr'. eapply runs_up_to; [done..|]. destruct Hr'. lia. }
  assert (Hfr' : forall t, p <= t -> forall q, t <= q < 512 -> bit q = false) by (intros t Ht q Hq; apply Hfr; lia).
  destruct (_ && _) eqn:E; do 2 (eexists; try (split; [done|])).
  - apply andb_true_iff in E as [Hc%Z.leb_le Hb%Z.ltb_lt]. unfold u32. rewrite uwrap_small by lia.
    split; [lia|split; [apply Hfr'; lia|]]. split; [|lia]. exists (512 - p). split_and!; [done|done|]. intros p' len' Hr' Hc'.
    destruct (Hup _ _ Hr') as [Hpos|[-> ->]]; [|lia].
    destruct Hbest as [(_ & _ & Hno)|(_ & _ & _ & Hmin)]; [specialize (Hno _ _ Hr' Hpos)|specialize (Hmin _ _ Hr' Hpos Hc')]; lia.
  - split; [lia|split; [by apply Hfr'|]]. unfold best_found.
    destruct Hbest as [(-> & -> & Hno)|(Hbr & Hbe & Hbc & Hmin)].
    + cbn. intros p' len' Hr'. destruct (Hup _ _ Hr') as [Hpos|[-> ->]]; [eauto|]. apply andb_false_iff in E as [?%Z.leb_gt|?%Z.ltb_ge]; lia.
    + pose proof Hbr as (Hb0 & _). rewrite (proj2 (Z.ltb_lt _ _)) by lia. pose proof (run_before_taken _ _ p Hbr Hbe (Hfr' p ltac:(lia))).
      split; [|lia]. exists best_len. split_and!; [done|done|]. intros p' len' Hr' Hc'.
      destruct (Hup _ _ Hr') as [Hpos|[-> ->]]; [eauto|]. apply andb_false_iff in E as [?%Z.leb_gt|?%Z.ltb_ge]; lia.
Qed.

Lemma best_fit_ok fuel : forall rest tmp i pos best best_len, at_word true rest tmp i pos -> i <= pos <= i + 64 ->
  (pos = 0 \/ bit (pos - 1) = true) -> best_ok pos best best_len -> 512 < Z.of_nat fuel + pos ->
  exists r t, best_fit fuel pages_count tail rest tmp i best best_len = Some (r, t) /\ search_result r t.
Proof.
  induction fuel as [|fuel IH]; intros rest tmp i pos best best_len A Hi Hpos Hbest Hfuel; cbn [best_fit].
  { destruct A as [(q & ? & ? & _) _ _]. lia. }
  destruct (skip_allocated_ok rest tmp i pos A Hi) as (r & -> & Hr). cbn [mbind option_bind]. destruct r as [[[tmp1 i1] rest1]|].
  2:{ do 2 eexists. split; [done|]. eapply best_found_ok; [done| |done|done]. intros p len (Hp & Hl & He & Hfr & _) _.
      destruct (Z.lt_ge_cases p pos) as [|Hge]; [done|]. specialize (Hfr p ltac:(lia)). rewrite Hr in Hfr by lia. done. }
  destruct Hr as (pos1 & Hne1 & A1 & Hi1 & Hle1 & Htaken1).
  assert (Hpos1 : pos1 = 0 \/ bit (pos1 - 1) = true).
  { destruct (Z.eq_dec pos1 pos) as [->|]; [done|]. right. apply Htaken1. lia. }
  destruct (first_free _ _ _ _ A1 Hi1 Hpos1 Hne1) as (Hp1 & Hp2 & Hp3 & Hpf & Hpb & Htaken2 & A2). cbn zeta in *.
  set (p := u32 (i1 + zend_mm_bitset_nts tmp1)) in *.
  assert (Htaken : forall q, pos <= q < p -> bit q = true).
  { intros q Hq. destruct (Z.lt_ge_cases q pos1); [apply Htaken1|apply Htaken2]; lia. }
  destruct (skip_free_ok _ _ _ _ A2) as (r & -> & Hr); [lia|lia|]. cbn [mbind option_bind]. destruct r as [[[tmp2 i2] rest2]|].
  - destruct Hr as (Hne2 & A3 & Hi2 & Hfr2). destruct (first_taken _ _ _ _ A3 Hi2 Hfr2 Hne2 Hpf) as (He1 & He2 & Heb & Hfr & A4); [lia|].
    set (e := i2 + zend_ulong_ntz tmp2) in *. unfold u32. rewrite uwrap_small by lia.
    assert (Hr : run p (e - p)).
    { split_and!; [lia..| |done|right]; [intros q Hq; apply Hfr; lia|]. by replace (p + (e - p)) with e by lia. }
    pose proof (best_update pos p (e - p) best best_len Hbest Hr ltac:(lia) Htaken) as Hbest'.
    destruct (Z.eqb_spec (e - p) pages_count) as [Eq|_]; [rewrite (proj2 (Z.leb_le _ _)) by lia; cbn [andb]|rewrite andb_false_r].
    + do 2 eexists. split; [done|]. split; [done|split; [done|]]. pose proof (run_before_taken _ _ tail Hr ltac:(lia) Hfree).
      split; [|lia]. exists (e - p). split_and!; [done|lia|lia].
    + destruct (if (_ <=? _) && (_ <? _) then (p, e - p) else (best, best_len)) as [best' best_len']. replace (p + (e - p) + 1) with (e + 1) in Hbest' by lia.
      apply (IH _ _ _ (e + 1)); [done|lia| |done|lia]. right. by replace (e + 1 - 1) with e by lia.
  - change ZEND_MM_PAGES with 512. replace (u32 (512 - p)) with (512 - p) by (unfold u32; rewrite uwrap_small; lia).
    apply (last_run pos); [done| |done]. split_and!; [lia..| |done|lia]. intros q Hq. apply Hr. lia.
Qed.
End Search.
