(* ===== verification/ZendMmRuns.v ===== *)
(** * A chunk as a set of runs ([zend_alloc.c])

    What a chunk of 512 pages stands for is a finite map from the first page of every allocated run to what
    the run holds: one large block, or the elements of a size class.  Searching for pages, marking a run and
    releasing one are shown to be the operations on this map: a best fit, an insertion and a deletion. *)
From S2P Require Import Prelude ZendMmBitset ZendMmBins ZendMmChunk.

(** ** Counting free pages *)
Fixpoint clear_in (bits : list Z) (start : Z) (n : nat) : Z :=
  match n with
  | O => 0
  | S n => (if mapbit bits start then 0 else 1) + clear_in bits (start + 1) n
  end.

Definition free_count (bits : list Z) : Z := clear_in bits 0 512.

Lemma clear_in_app bits n1 : forall s n2, clear_in bits s (n1 + n2) = clear_in bits s n1 + clear_in bits (s + Z.of_nat n1) n2.
Proof.
  induction n1 as [|n1 IH]; intros s n2; cbn [clear_in Nat.add]; [by rewrite Z.add_0_r|]. rewrite IH.
  replace (s + 1 + Z.of_nat n1) with (s + Z.of_nat (S n1)) by lia. lia.
Qed.

Lemma clear_in_ext bits bits' n : forall s, (forall q, s <= q < s + Z.of_nat n -> mapbit bits q = mapbit bits' q) ->
  clear_in bits s n = clear_in bits' s n.
Proof.
  induction n as [|n IH]; intros s H; cbn [clear_in]; [done|]. rewrite (H s), (IH (s + 1)) by (intros; try apply H; lia). done.
Qed.

Lemma clear_in_const bits b n : forall s, (forall q, s <= q < s + Z.of_nat n -> mapbit bits q = b) ->
  clear_in bits s n = if b then 0 else Z.of_nat n.
Proof.
  induction n as [|n IH]; intros s H; cbn [clear_in]; [by destruct b|]. rewrite (H s), (IH (s + 1)) by (intros; try apply H; lia).
  destruct b; lia.
Qed.

Lemma clear_in_range bits n s : 0 <= clear_in bits s n <= Z.of_nat n.
Proof. revert s. induction n as [|n IH]; intros s; cbn [clear_in]; [lia|]. specialize (IH (s + 1)). destruct (mapbit bits s); lia. Qed.

(** The pages before, in and after an interval. *)
Lemma free_count_split bits p n : 0 <= p -> 0 <= n -> p + n <= 512 ->
  free_count bits = clear_in bits 0 (Z.to_nat p) + clear_in bits p (Z.to_nat n) + clear_in bits (p + n) (Z.to_nat (512 - (p + n))).
Proof.
  intros Hp Hn Hle. unfold free_count.
  replace 512%nat with (Z.to_nat p + (Z.to_nat n + Z.to_nat (512 - (p + n))))%nat at 1 by lia.
  rewrite !clear_in_app. replace (0 + Z.of_nat (Z.to_nat p)) with p by lia. replace (p + Z.of_nat (Z.to_nat n)) with (p + n) by lia. lia.
Qed.

Lemma free_count_interval bits p n : 0 <= p -> 0 <= n -> p + n <= 512 -> (forall q, p <= q < p + n -> mapbit bits q = false) ->
  n <= free_count bits.
Proof.
  intros Hp Hn Hle Hf. rewrite (free_count_split bits p n) by done.
  rewrite (clear_in_const bits false (Z.to_nat n) p) by (intros q Hq; apply Hf; lia).
  pose proof (clear_in_range bits (Z.to_nat p) 0). pose proof (clear_in_range bits (Z.to_nat (512 - (p + n))) (p + n)). lia.
Qed.

(** An interval whose pages all change their value from [negb b] to [b]. *)
Lemma free_count_change bits bits' b p n : 0 <= p -> 0 <= n -> p + n <= 512 ->
  (forall q, p <= q < p + n -> mapbit bits q = negb b) -> (forall q, mapbit bits' q = if in_range p (p + n) q then b else mapbit bits q) ->
  free_count bits' = free_count bits + (if b then - n else n).
Proof.
  intros Hp Hn Hle Ho Hc. rewrite !(free_count_split _ p n) by done.
  assert (Hout : forall s k, (forall q, s <= q < s + Z.of_nat k -> ~ p <= q < p + n) -> clear_in bits' s k = clear_in bits s k).
  { intros s k H. apply clear_in_ext. intros q Hq. rewrite Hc. destruct (in_range _ _ _) eqn:E; [|done].
    apply in_range_iff in E. by destruct (H q Hq). }
  rewrite !(Hout 0) by lia. rewrite (Hout (p + n)) by lia. rewrite (clear_in_const bits (negb b) (Z.to_nat n) p) by (intros q Hq; apply Ho; lia).
  rewrite (clear_in_const bits' b (Z.to_nat n) p); [destruct b; cbn; lia|].
  intros q Hq. rewrite Hc, (proj2 (in_range_iff _ _ _)) by lia. done.
Qed.

(** ** Runs *)
Inductive run_kind := LargeRun (pages_count : Z) | SmallRun (bin_num : Z).

Definition run_pages (k : run_kind) : Z :=
  match k with LargeRun n => n | SmallRun bin => default 0 (aget bin_pages bin) end.

(** Page [q] belongs to a run. *)
Definition taken (runs : gmap Z run_kind) (q : Z) : Prop := exists p k, runs !! p = Some k /\ p <= q < p + run_pages k.

(** What the map words say of a run. *)
Definition run_info (infos : list Z) (p : Z) (k : run_kind) : Prop :=
  match k with
  | LargeRun n => aget infos p = Some (ZEND_MM_LRUN n)
  | SmallRun bin => 0 <= bin < ZEND_MM_BINS /\ aget infos p = Some (ZEND_MM_SRUN bin) /\
      forall i, 1 <= i < run_pages k -> aget infos (p + i) = Some (ZEND_MM_NRUN bin i)
  end.

Record runs_ok (runs : gmap Z run_kind) : Prop := {
  ro_header : runs !! 0 = Some (LargeRun ZEND_MM_FIRST_PAGE);
  ro_range : forall p k, runs !! p = Some k -> 0 <= p /\ 1 <= run_pages k /\ p + run_pages k <= ZEND_MM_PAGES;
  ro_apart : forall p k p' k', runs !! p = Some k -> runs !! p' = Some k' -> p < p' -> p + run_pages k <= p' }.

Record chunk_ok (c : zend_mm_chunk) (runs : gmap Z run_kind) : Prop := {
  co_runs : runs_ok runs;
  co_words : words_ok (free_map c);
  co_len : length (free_map c) = 8%nat;
  co_bits : forall q, 0 <= q < ZEND_MM_PAGES -> mapbit (free_map c) q = true <-> taken runs q;
  co_len_map : length (map c) = 512%nat;
  co_infos : forall p k, runs !! p = Some k -> run_info (map c) p k;
  co_count : free_pages c = free_count (free_map c);
  co_tail : 1 <= free_tail c <= ZEND_MM_PAGES;
  co_tail_free : forall q, free_tail c <= q < ZEND_MM_PAGES -> mapbit (free_map c) q = false }.

(** The pages from [p] to [p + n] are in no run. *)
Definition fits (runs : gmap Z run_kind) (p n : Z) : Prop :=
  0 <= p /\ 1 <= n /\ p + n <= ZEND_MM_PAGES /\ forall q, p <= q < p + n -> ~ taken runs q.

(** ... and the pages next to them are. *)
Definition gap (runs : gmap Z run_kind) (p n : Z) : Prop :=
  fits runs p n /\ taken runs (p - 1) /\ (p + n = ZEND_MM_PAGES \/ taken runs (p + n)).

Lemma runs_unique runs p k p' k' q : runs_ok runs -> runs !! p = Some k -> runs !! p' = Some k' ->
  p <= q < p + run_pages k -> p' <= q < p' + run_pages k' -> p = p'.
Proof.
  intros R E E' Hq Hq'. destruct (Z.lt_trichotomy p p') as [Hlt|[?|Hlt]]; [|done|].
  - pose proof (ro_apart _ R _ _ _ _ E E' Hlt). lia.
  - pose proof (ro_apart _ R _ _ _ _ E' E Hlt). lia.
Qed.

Lemma taken_0 runs : runs_ok runs -> taken runs 0.
Proof. intros R. eexists _, _. split; [apply R|]. cbn. unfold ZEND_MM_FIRST_PAGE. lia. Qed.

Lemma fits_pos runs p n : runs_ok runs -> fits runs p n -> 0 < p.
Proof. intros R (Hp & Hn & _ & Hf). destruct (Z.eq_dec p 0) as [->|]; [|lia]. destruct (Hf 0); [lia|by apply taken_0]. Qed.

(** A run put into free pages, and one taken out. *)
Lemma taken_insert runs p k q : runs !! p = None -> taken (<[p := k]> runs) q <-> p <= q < p + run_pages k \/ taken runs q.
Proof.
  intros Hn. split.
  - intros (p' & k' & E & Hq). destruct (decide (p' = p)) as [->|].
    + rewrite lookup_insert_eq in E. injection E as <-. by left.
    + rewrite lookup_insert_ne in E by done. right. by exists p', k'.
  - intros [Hq|(p' & k' & E & Hq)]; [exists p, k; by rewrite lookup_insert_eq|].
    exists p', k'. rewrite lookup_insert_ne by congruence. done.
Qed.

Lemma taken_delete runs p k q : runs_ok runs -> runs !! p = Some k -> taken (delete p runs) q <-> taken runs q /\ ~ p <= q < p + run_pages k.
Proof.
  intros R E. split.
  - intros (p' & k' & E' & Hq). apply lookup_delete_Some in E' as [Hne E']. split; [by exists p', k'|]. intros Hq'.
    by destruct Hne; eapply runs_unique.
  - intros [(p' & k' & E' & Hq) Hno]. exists p', k'. split; [|done]. apply lookup_delete_Some. split; [|done]. intros ->. congruence.
Qed.

Lemma fits_fresh runs p n : runs_ok runs -> fits runs p n -> runs !! p = None.
Proof.
  intros R (_ & Hn & _ & Hf). destruct (runs !! p) as [k|] eqn:E; [|done]. destruct (Hf p); [lia|]. exists p, k.
  destruct (ro_range _ R _ _ E). split; [done|lia].
Qed.

Lemma runs_ok_insert runs p k : runs_ok runs -> fits runs p (run_pages k) -> runs_ok (<[p := k]> runs).
Proof.
  intros R Hfit. pose proof (fits_pos _ _ _ R Hfit) as Hp0. destruct Hfit as (Hp & Hn & Hle & Hf). constructor.
  - rewrite lookup_insert_ne by lia. apply R.
  - intros p' k' E. destruct (decide (p' = p)) as [->|].
    + rewrite lookup_insert_eq in E. by injection E as <-.
    + rewrite lookup_insert_ne in E by done. exact (ro_range _ R _ _ E).
  - intros p1 k1 p2 k2 E1 E2 Hlt. destruct (decide (p1 = p)) as [->|]; [|destruct (decide (p2 = p)) as [->|]].
    + rewrite lookup_insert_eq in E1. injection E1 as <-. rewrite lookup_insert_ne in E2 by lia.
      destruct (Z.le_gt_cases (p + run_pages k) p2) as [|Hgt]; [done|]. destruct (Hf p2); [lia|]. exists p2, k2.
      destruct (ro_range _ R _ _ E2). split; [done|lia].
    + rewrite lookup_insert_ne in E1 by lia.
      destruct (Z.le_gt_cases (p1 + run_pages k1) p) as [|Hgt]; [done|]. destruct (Hf p); [lia|]. exists p1, k1. split; [done|lia].
    + rewrite lookup_insert_ne in E1, E2 by done. exact (ro_apart _ R _ _ _ _ E1 E2 Hlt).
Qed.

Lemma runs_ok_delete runs p : runs_ok runs -> p <> 0 -> runs_ok (delete p runs).
Proof.
  intros R Hp. constructor.
  - rewrite lookup_delete_ne by done. apply R.
  - intros p' k' [_ E]%lookup_delete_Some. exact (ro_range _ R _ _ E).
  - intros p1 k1 p2 k2 [_ E1]%lookup_delete_Some [_ E2]%lookup_delete_Some. exact (ro_apart _ R _ _ _ _ E1 E2).
Qed.

(** ** Maximal free intervals *)
Lemma extend_left bits k : forall p, p = Z.of_nat k -> mapbit bits 0 = true -> mapbit bits p = false ->
  exists p', 0 < p' <= p /\ mapbit bits (p' - 1) = true /\ forall q, p' <= q <= p -> mapbit bits q = false.
Proof.
  induction k as [|k IH]; intros p Ep H0 Hp; [assert (p = 0) as -> by lia; congruence|]. destruct (mapbit bits (p - 1)) eqn:E.
  - exists p. split_and!; [lia|lia|done|]. intros q Hq. by replace q with p by lia.
  - destruct (IH (p - 1)) as (p' & Hp' & Hb & Hf); [lia|done..|]. exists p'. split_and!; [lia|lia|done|]. intros q Hq.
    destruct (Z.eq_dec q p) as [->|]; [done|]. apply Hf. lia.
Qed.

Lemma extend_right bits k : forall e, e = 512 - Z.of_nat k ->
  exists e', e <= e' <= 512 /\ (e' = 512 \/ mapbit bits e' = true) /\ forall q, e <= q < e' -> mapbit bits q = false.
Proof.
  induction k as [|k IH]; intros e Ee; [exists e; split_and!; lia|]. destruct (mapbit bits e) eqn:E.
  - exists e. split_and!; [lia|lia|by right|lia].
  - destruct (IH (e + 1)) as (e' & He & Hb & Hf); [lia|]. exists e'. split_and!; [lia|lia|done|]. intros q Hq.
    destruct (Z.eq_dec q e) as [->|]; [done|]. apply Hf. lia.
Qed.

Lemma free_maximal bits p n : mapbit bits 0 = true -> 0 <= p -> 1 <= n -> p + n <= 512 ->
  (forall q, p <= q < p + n -> mapbit bits q = false) -> exists p' n', run bits p' n' /\ n <= n'.
Proof.
  intros H0 Hp Hn Hle Hf. destruct (extend_left bits (Z.to_nat p) p) as (p' & Hp' & Hb & Hl); [lia|done|apply Hf; lia|].
  destruct (extend_right bits (Z.to_nat (512 - (p + n))) (p + n)) as (e & He & Hend & Hr); [lia|].
  exists p', (e - p'). split; [|lia]. split_and!; [lia..| |done|]; replace (p' + (e - p')) with e by lia; [|done].
  intros q Hq. destruct (Z.le_gt_cases q p); [apply Hl; lia|]. destruct (Z.lt_ge_cases q (p + n)); [apply Hf|apply Hr]; lia.
Qed.

(** ** The operations *)
Section Chunk.
Context (c : zend_mm_chunk) (runs : gmap Z run_kind) (C : chunk_ok c runs).
Local Abbreviation bits := (free_map c).

Lemma bit_free q : 0 <= q < 512 -> mapbit bits q = false <-> ~ taken runs q.
Proof. intros Hq. rewrite <- (co_bits _ _ C) by done. by rewrite not_true_iff_false. Qed.

Lemma fits_bits p n : fits runs p n <-> 0 <= p /\ 1 <= n /\ p + n <= 512 /\ forall q, p <= q < p + n -> mapbit bits q = false.
Proof.
  unfold fits. change ZEND_MM_PAGES with 512. split; intros (Hp & Hn & Hle & Hf); split_and!; try done; intros q Hq; apply bit_free; try lia; by apply Hf.
Qed.

Lemma header_bit : mapbit bits 0 = true.
Proof. apply (co_bits _ _ C); [by change ZEND_MM_PAGES with 512|apply taken_0, C]. Qed.

Lemma run_gap p n : run bits p n <-> gap runs p n.
Proof.
  unfold gap. rewrite fits_bits. change ZEND_MM_PAGES with 512. unfold run. split.
  - intros (Hp & Hn & Hle & Hf & Hb & Hend). split_and!; [lia..|done| |].
    + by apply (co_bits _ _ C); [change ZEND_MM_PAGES with 512; lia|].
    + destruct Hend as [|Hend]; [by left|]. destruct (Z.eq_dec (p + n) 512); [by left|right].
      by apply (co_bits _ _ C); [change ZEND_MM_PAGES with 512; lia|].
  - intros ((Hp & Hn & Hle & Hf) & Hb & Hend). assert (p <> 0) by (intros ->; specialize (Hf 0 ltac:(lia)); rewrite header_bit in Hf; done).
    split_and!; [lia..|done| |].
    + by apply (co_bits _ _ C); [change ZEND_MM_PAGES with 512; lia|].
    + destruct Hend as [|Hend]; [by left|]. destruct (Z.eq_dec (p + n) 512); [by left|right].
      by apply (co_bits _ _ C); [change ZEND_MM_PAGES with 512; lia|].
Qed.

(** The search: a shortest gap that is long enough, or there is none. *)
Lemma search_chunk_ok count : 1 <= count ->
  exists r c', search_chunk c count = Some (r, c') /\ chunk_ok c' runs /\ c' = {| c with free_tail := free_tail c' |} /\
  match r with
  | Some p => (exists len, gap runs p len /\ count <= len /\ forall p' len', gap runs p' len' -> count <= len' -> len <= len') /\
              p + count <= free_tail c'
  | None => forall p, ~ fits runs p count
  end.
Proof.
  intros Hc. pose proof header_bit as H0. unfold search_chunk. destruct (Z.ltb_spec (free_pages c) count) as [Hlt|Hge].
  { exists None, c. split; [done|]. split; [done|]. split; [by destruct c|]. intros p Hfit. apply fits_bits in Hfit as (Hp & Hn & Hle & Hf).
    pose proof (free_count_interval bits p count Hp ltac:(lia) Hle Hf). rewrite (co_count _ _ C) in Hlt. lia. }
  pose proof (co_len _ _ C) as Hlen. pose proof (co_words _ _ C) as Hw.
  destruct bits as [|tmp rest] eqn:Em; [done|]. rewrite <- Em in *.
  destruct (best_fit_ok bits Hlen Hw H0 count (free_tail c) Hc (co_tail _ _ C) (co_tail_free _ _ C) search_fuel rest tmp 0 0 (-1) ZEND_MM_PAGES)
    as (r & t & -> & Ht & Hfree & Hr).
  { assert (Eg : aget bits 0 = Some tmp) by by rewrite Em. constructor.
    - exists 0%nat. split_and!; [done|lia|by rewrite Em].
    - by apply (Hw 0).
    - intros j Hj. rewrite <- (mapbit_word bits 0 tmp j Eg Hj). by zbool. }
  { lia. }
  { by left. }
  { left. split_and!; [done|done|]. intros p len (Hp & _) ?. lia. }
  { by vm_compute. }
  cbn [mbind option_bind]. exists r, {| c with free_tail := t |}. split; [done|]. cbn [free_tail]. split; [|split; [done|]].
  - destruct C. constructor; done.
  - destruct r as [p|].
    + destruct Hr as [(len & Hrun & Hl & Hmin) Hpt]. split; [|done]. exists len. split_and!; [by apply run_gap|done|].
      intros p' len' Hg Hl'. apply (Hmin p'); [by apply run_gap|done].
    + intros p Hfit. apply fits_bits in Hfit as (Hp & Hn & Hle & Hf). destruct (free_maximal bits p count H0 Hp Hn Hle Hf) as (p' & n' & Hrun & Hl).
      specialize (Hr _ _ Hrun). lia.
Qed.

(** The words of the map that belong to runs other than [p] are not at [p]. *)
Lemma infos_kept p v p' k : runs !! p' = Some k -> p' <> p -> 0 <= p < 512 -> (taken runs p -> exists k0, runs !! p = Some k0) ->
  run_info (<[Z.to_nat p := v]> (map c)) p' k.
Proof.
  intros E Hne Hp Hstart. pose proof (co_len_map _ _ C) as Hlen. pose proof (co_infos _ _ C _ _ E) as Hi.
  destruct k as [n|bin]; cbn [run_info] in *.
  - by rewrite aget_insert, (proj2 (Z.eqb_neq _ _)) by lia.
  - destruct Hi as (Hb & Hs & Hn). split; [done|]. split; [by rewrite aget_insert, (proj2 (Z.eqb_neq _ _)) by lia|].
    intros i Hi. rewrite aget_insert by lia. destruct (Z.eqb_spec (p' + i) p) as [Ep|]; [|by apply Hn].
    assert (Ht : p' <= p < p' + run_pages (SmallRun bin)) by lia. destruct Hstart as [k0 E0]; [by exists p', (SmallRun bin)|].
    destruct (ro_range _ (co_runs _ _ C) _ _ E0). destruct Hne. eapply (runs_unique runs); [apply C|done|done|exact Ht|lia].
Qed.

Lemma mark_run_ok p n : fits runs p n -> p + n <= free_tail c \/ p = free_tail c ->
  exists c', mark_run c p n = Some c' /\ chunk_ok c' (<[p := LargeRun n]> runs).
Proof.
  intros Hfit Htail. pose proof (co_runs _ _ C) as R. pose proof (fits_pos _ _ _ R Hfit) as Hp0. pose proof (fits_fresh _ _ _ R Hfit) as Hn0.
  pose proof (proj1 (fits_bits p n) Hfit) as (Hp & Hn & Hle & Hf). pose proof (co_len_map _ _ C) as Hlm. pose proof (co_tail _ _ C) as Ht.
  destruct (zend_mm_bitset_set_range_ok bits p n (co_words _ _ C) Hp Hn) as (bits' & Eb & Hw & Hl & Hb); [rewrite (co_len _ _ C); lia|].
  unfold mark_run. rewrite Eb. cbn [mbind option_bind]. unfold aset. rewrite (proj2 (in_range_iff _ _ _)) by lia. cbn [mbind option_bind].
  eexists. split; [done|]. constructor; cbn [free_map map free_pages free_tail].
  - by apply runs_ok_insert.
  - done.
  - by rewrite Hl, (co_len _ _ C).
  - intros q Hq. rewrite Hb, taken_insert, <- (co_bits _ _ C) by done. cbn [run_pages]. destruct (in_range _ _ _) eqn:E.
    + apply in_range_iff in E. split; [by left|done].
    + assert (~ p <= q < p + n) by (rewrite <- in_range_iff; by rewrite E). naive_solver.
  - by rewrite length_insert.
  - intros p' k E. destruct (decide (p' = p)) as [->|Hne].
    + rewrite lookup_insert_eq in E. injection E as <-. cbn [run_info]. by rewrite aget_insert, Z.eqb_refl by lia.
    + rewrite lookup_insert_ne in E by done. apply infos_kept; [done|done|lia|]. intros Htk. destruct Hfit as (_ & _ & _ & Hno). destruct (Hno p); [lia|done].
  - pose proof (free_count_change bits bits' true p n Hp ltac:(lia) Hle Hf Hb) as Ec. cbn iota in Ec.
    pose proof (clear_in_range bits' 512 0) as Hr. fold (free_count bits') in Hr. rewrite (co_count _ _ C). unfold u32. rewrite uwrap_small; lia.
  - change ZEND_MM_PAGES with 512 in *. zcase; [unfold u32; rewrite uwrap_small; lia|lia].
  - change ZEND_MM_PAGES with 512 in *. intros q Hq. rewrite Hb. destruct (Z.eqb_spec p (free_tail c)) as [Ep|Ep].
    + unfold u32 in Hq. rewrite uwrap_small in Hq by lia. destruct (in_range _ _ _) eqn:E; [apply in_range_iff in E; lia|].
      apply (co_tail_free _ _ C). change ZEND_MM_PAGES with 512. lia.
    + destruct (in_range _ _ _) eqn:E; [apply in_range_iff in E; lia|]. by apply (co_tail_free _ _ C).
Qed.

Lemma release_run_ok p k : runs !! p = Some k -> p <> 0 ->
  exists c', release_run c p (run_pages k) = Some c' /\ chunk_ok c' (delete p runs).
Proof.
  intros E Hp0. pose proof (co_runs _ _ C) as R. destruct (ro_range _ R _ _ E) as (Hp & Hn & Hle). set (n := run_pages k) in *.
  change ZEND_MM_PAGES with 512 in Hle. pose proof (co_len_map _ _ C) as Hlm. pose proof (co_tail _ _ C) as Ht.
  assert (Hset : forall q, p <= q < p + n -> mapbit bits q = true).
  { intros q Hq. apply (co_bits _ _ C); [change ZEND_MM_PAGES with 512; lia|]. by exists p, k. }
  destruct (zend_mm_bitset_reset_range_ok bits p n (co_words _ _ C) Hp Hn) as (bits' & Eb & Hw & Hl & Hb); [rewrite (co_len _ _ C); lia|].
  unfold release_run. rewrite Eb. cbn [mbind option_bind]. unfold aset. rewrite (proj2 (in_range_iff _ _ _)) by lia. cbn [mbind option_bind].
  eexists. split; [done|]. constructor; cbn [free_map map free_pages free_tail].
  - by apply runs_ok_delete.
  - done.
  - by rewrite Hl, (co_len _ _ C).
  - intros q Hq. rewrite Hb, (taken_delete _ _ k), <- (co_bits _ _ C) by done. fold n. destruct (in_range _ _ _) eqn:Eq.
    + apply in_range_iff in Eq. naive_solver.
    + assert (~ p <= q < p + n) by (rewrite <- in_range_iff; by rewrite Eq). naive_solver.
  - by rewrite length_insert.
  - intros p' k' [Hne E']%lookup_delete_Some. apply infos_kept; [done|done|lia|by exists k].
  - pose proof (free_count_change bits bits' false p n Hp ltac:(lia) Hle Hset Hb) as Ec. cbn iota in Ec.
    pose proof (clear_in_range bits' 512 0) as Hr. fold (free_count bits') in Hr. rewrite (co_count _ _ C). unfold u32. rewrite uwrap_small; lia.
  - change ZEND_MM_PAGES with 512 in *. unfold u32. rewrite uwrap_small by lia. zcase; lia.
  - change ZEND_MM_PAGES with 512 in *. intros q Hq. rewrite Hb. destruct (in_range _ _ _) eqn:Eq; [done|].
    assert (~ p <= q < p + n) by (rewrite <- in_range_iff; by rewrite Eq). apply (co_tail_free _ _ C).
    change ZEND_MM_PAGES with 512. unfold u32 in Hq. rewrite uwrap_small in Hq by lia. destruct (Z.eqb_spec (free_tail c) (p + n)); lia.
Qed.
End Chunk.

(** The state of a chunk after [zend_mm_chunk_init]. *)
Definition no_runs : gmap Z run_kind := {[0 := LargeRun ZEND_MM_FIRST_PAGE]}.

(** A chunk that has no page in use but the first. *)
Record blank (c : zend_mm_chunk) : Prop := {
  bl_words : words_ok (free_map c);
  bl_len : length (free_map c) = 8%nat;
  bl_len_map : length (map c) = 512%nat;
  bl_bits : forall q, 1 <= q < 512 -> mapbit (free_map c) q = false }.

Lemma runs_ok_none : runs_ok no_runs.
Proof.
  constructor; unfold no_runs.
  - by rewrite lookup_singleton_eq.
  - intros p k [<- <-]%lookup_singleton_Some. by vm_compute.
  - intros p k p' k' [<- <-]%lookup_singleton_Some [<- <-]%lookup_singleton_Some. lia.
Qed.

Lemma taken_none q : taken no_runs q <-> q = 0.
Proof.
  unfold taken, no_runs. split.
  - intros (p & k & [<- <-]%lookup_singleton_Some & H). cbn in H. unfold ZEND_MM_FIRST_PAGE in H. lia.
  - intros ->. exists 0, (LargeRun ZEND_MM_FIRST_PAGE). rewrite lookup_singleton_eq. split; [done|]. cbn. unfold ZEND_MM_FIRST_PAGE. lia.
Qed.

Lemma free_count_header bits : mapbit bits 0 = true -> (forall q, 1 <= q < 512 -> mapbit bits q = false) -> free_count bits = 511.
Proof.
  intros H0 Hf. rewrite (free_count_split bits 0 1) by lia.
  rewrite (clear_in_const bits true (Z.to_nat 1) 0) by (intros q Hq; replace q with 0 by lia; done).
  rewrite (clear_in_const bits false (Z.to_nat (512 - (0 + 1)))) by (intros q Hq; apply Hf; lia). by vm_compute.
Qed.

Lemma init_pages_ok c : blank c -> exists c', init_pages c = Some c' /\ chunk_ok c' no_runs /\ next c' = next c /\ prev c' = prev c /\
  free_tail c' = ZEND_MM_FIRST_PAGE.
Proof.
  intros [Hw Hl Hlm Hb]. unfold init_pages. change (shl 1 ZEND_MM_FIRST_PAGE - 1) with 1.
  destruct (write_word (free_map c) 0 1 (fun q => q =? 0) Hw) as (bits & -> & Hw' & Hl' & _ & Hb'); [lia|lia| |].
  { intros j Hj. change 1 with (2 ^ 0) at 1. rewrite Z.pow2_bits_eqb by lia. destruct (Z.eqb_spec 0 j), (Z.eqb_spec (64 * 0 + j) 0); lia. }
  cbn [mbind option_bind]. unfold aset. rewrite (proj2 (in_range_iff _ _ _)) by lia. cbn [mbind option_bind].
  assert (Hbit : forall q, 0 <= q < 512 -> mapbit bits q = (q =? 0)).
  { intros q Hq. rewrite Hb'. destruct (Z.eqb_spec (q / 64) 0) as [|Hne]; [done|].
    assert (q <> 0) by (intros ->; done). rewrite Hb by lia. by zbool. }
  eexists. split; [done|]. split; [|done]. constructor; cbn [free_map map free_pages free_tail]; change ZEND_MM_PAGES with 512 in *.
  - apply runs_ok_none.
  - done.
  - congruence.
  - intros q Hq. by rewrite Hbit, Z.eqb_eq, taken_none by done.
  - by rewrite length_insert.
  - unfold no_runs. intros p k [<- <-]%lookup_singleton_Some. cbn [run_info]. by rewrite aget_insert, Z.eqb_refl by lia.
  - rewrite free_count_header; [done|by rewrite Hbit by lia|]. intros q Hq. rewrite Hbit by lia. by zbool.
  - unfold ZEND_MM_FIRST_PAGE. lia.
  - unfold ZEND_MM_FIRST_PAGE. intros q Hq. rewrite Hbit by lia. by zbool.
Qed.

(** Only the first page is in use when the counter says so. *)
Lemma all_free c runs : chunk_ok c runs -> free_pages c = ZEND_MM_PAGES - ZEND_MM_FIRST_PAGE ->
  blank c /\ forall p k, runs !! p = Some k -> p = 0.
Proof.
  intros C Hfree. rewrite (co_count _ _ C) in Hfree. change (ZEND_MM_PAGES - ZEND_MM_FIRST_PAGE) with 511 in Hfree.
  assert (Hb : forall q, 1 <= q < 512 -> mapbit (free_map c) q = false).
  { intros q Hq. destruct (mapbit (free_map c) q) eqn:E; [|done]. rewrite (free_count_split (free_map c) q 1) in Hfree by lia.
    replace (Z.to_nat q) with (1 + Z.to_nat (q - 1))%nat in Hfree by lia. rewrite clear_in_app in Hfree.
    rewrite (clear_in_const (free_map c) true 1 0) in Hfree by (intros x Hx; replace x with 0 by lia; by eapply header_bit).
    rewrite (clear_in_const (free_map c) true (Z.to_nat 1) q) in Hfree by (intros x Hx; replace x with q by lia; done).
    pose proof (clear_in_range (free_map c) (Z.to_nat (q - 1)) (0 + Z.of_nat 1)).
    pose proof (clear_in_range (free_map c) (Z.to_nat (512 - (q + 1))) (q + 1)). lia. }
  split; [by constructor; try apply C|]. intros p k E. destruct (ro_range _ (co_runs _ _ C) _ _ E) as (Hp & Hn & Hle).
  change ZEND_MM_PAGES with 512 in Hle. destruct (Z.eq_dec p 0) as [|Hne]; [done|].
  assert (Ht : mapbit (free_map c) p = true).
  { apply (co_bits _ _ C); [change ZEND_MM_PAGES with 512; lia|]. exists p, k. split; [done|lia]. }
  rewrite Hb in Ht by lia. done.
Qed.

Lemma zero_chunk_blank c : free_map c = replicate 8 0 -> length (map c) = 512%nat -> blank c.
Proof.
  intros Em Hl. assert (Hbit : forall q, mapbit (replicate 8 0) q = false).
  { intros q. unfold mapbit. destruct (aget _ _) as [w|] eqn:E; [|done].
    assert (w = 0) as ->; [|apply Z.bits_0]. unfold aget in E. destruct (0 <=? _); [|done].
    by apply lookup_replicate_1 in E as [? _]. }
  constructor; rewrite ?Em; [|done|done|done]. intros i w E. assert (w = 0) as ->; [|lia].
  unfold aget in E. destruct (0 <=? _); [|done]. by apply lookup_replicate_1 in E as [? _].
Qed.

(** ** A run becomes one of a size class *)

(** The words from page [page_num + i] on. *)
Lemma mark_rest_ok bin_num n : forall infos page_num i, 0 <= page_num + i -> page_num + i + Z.of_nat n <= Z.of_nat (length infos) ->
  exists infos', mark_rest n infos page_num bin_num i = Some infos' /\ length infos' = length infos /\
    (forall j, i <= j < i + Z.of_nat n -> aget infos' (page_num + j) = Some (ZEND_MM_NRUN bin_num j)) /\
    forall q, ~ page_num + i <= q < page_num + i + Z.of_nat n -> aget infos' q = aget infos q.
Proof.
  induction n as [|n IH]; intros infos page_num i H0 Hn; cbn [mark_rest]; [exists infos; split_and!; [done|done|lia|done]|].
  unfold aset. rewrite (proj2 (in_range_iff _ _ _)) by lia. cbn [mbind option_bind].
  set (infos1 := <[Z.to_nat (page_num + i) := ZEND_MM_NRUN bin_num i]> infos).
  assert (Hl1 : length infos1 = length infos) by apply length_insert.
  destruct (IH infos1 page_num (i + 1)) as (infos' & E & Hl & Hin & Hout); [lia|lia|]. exists infos'. rewrite E. split_and!; [done|congruence| |].
  - intros j Hj. destruct (Z.eq_dec j i) as [->|]; [|apply Hin; lia]. rewrite Hout by lia. unfold infos1. by rewrite aget_insert, Z.eqb_refl by lia.
  - intros q Hq. rewrite Hout by lia. unfold infos1. rewrite aget_insert by lia. by zbool.
Qed.

Lemma mark_bin_ok c runs p bin n : chunk_ok c runs -> runs !! p = Some (LargeRun n) -> p <> 0 -> 0 <= bin < ZEND_MM_BINS ->
  aget bin_pages bin = Some n ->
  exists c', mark_bin c p bin n = Some c' /\ chunk_ok c' (<[p := SmallRun bin]> runs) /\ next c' = next c /\ prev c' = prev c.
Proof.
  intros C E Hp0 Hbin Hn. pose proof (co_runs _ _ C) as R. destruct (ro_range _ R _ _ E) as (Hp & Hn1 & Hle). cbn [run_pages] in Hn1, Hle.
  assert (En : run_pages (SmallRun bin) = n) by (unfold run_pages; by rewrite Hn).
  pose proof (co_len_map _ _ C) as Hlm. change ZEND_MM_PAGES with 512 in Hle.
  unfold mark_bin, aset. rewrite (proj2 (in_range_iff _ _ _)) by lia. cbn [mbind option_bind].
  set (infos1 := <[Z.to_nat p := ZEND_MM_SRUN bin]> (map c)). assert (Hl1 : length infos1 = 512%nat) by (unfold infos1; by rewrite length_insert).
  assert (Hgo : exists infos, (if 1 <? n then mark_rest (Z.to_nat (n - 1)) infos1 p bin 1 else Some infos1) = Some infos /\ length infos = 512%nat /\
    (forall j, 1 <= j < n -> aget infos (p + j) = Some (ZEND_MM_NRUN bin j)) /\ (forall q, ~ p + 1 <= q < p + n -> aget infos q = aget infos1 q)).
  { destruct (Z.ltb_spec 1 n); [|exists infos1; split_and!; [done|done|lia|done]].
    destruct (mark_rest_ok bin (Z.to_nat (n - 1)) infos1 p 1) as (infos & -> & Hl & Hin & Hout); [lia|lia|].
    exists infos. split_and!; [done|congruence|intros j Hj; apply Hin; lia|intros q Hq; apply Hout; lia]. }
  destruct Hgo as (infos & -> & Hl & Hin & Hout). cbn [mbind option_bind]. eexists. split; [done|]. split; [|done].
  assert (Hkeep : forall q, ~ p <= q < p + n -> aget infos q = aget (map c) q).
  { intros q Hq. rewrite Hout by lia. unfold infos1. rewrite aget_insert by lia. by zbool. }
  assert (Htaken : forall q, taken (<[p := SmallRun bin]> runs) q <-> taken runs q).
  { intros q. split; intros (p' & k & Ek & Hq); (destruct (decide (p' = p)) as [->|Hne]).
    - exists p, (LargeRun n). rewrite lookup_insert_eq in Ek. injection Ek as <-. rewrite En in Hq. done.
    - exists p', k. by rewrite lookup_insert_ne in Ek.
    - exists p, (SmallRun bin). assert (k = LargeRun n) as -> by congruence. by rewrite lookup_insert_eq, En.
    - exists p', k. by rewrite lookup_insert_ne. }
  constructor; cbn [free_map map free_pages free_tail]; try apply C; try done.
  - constructor.
    + rewrite lookup_insert_ne by done. apply R.
    + intros p' k Ek. destruct (decide (p' = p)) as [->|]; [|rewrite lookup_insert_ne in Ek by done; exact (ro_range _ R _ _ Ek)].
      rewrite lookup_insert_eq in Ek. injection Ek as <-. rewrite En. exact (ro_range _ R _ _ E).
    + intros p1 k1 p2 k2 E1 E2 Hlt.
      assert (Ho : forall q k, <[p := SmallRun bin]> runs !! q = Some k -> exists k0, runs !! q = Some k0 /\ run_pages k0 = run_pages k).
      { intros q k Ek. destruct (decide (q = p)) as [->|]; [|rewrite lookup_insert_ne in Ek by done; by exists k].
        rewrite lookup_insert_eq in Ek. injection Ek as <-. by exists (LargeRun n). }
      destruct (Ho _ _ E1) as (k1' & E1' & <-), (Ho _ _ E2) as (k2' & E2' & _). exact (ro_apart _ R _ _ _ _ E1' E2' Hlt).
  - intros q Hq. rewrite Htaken. by apply C.
  - intros p' k Ek. destruct (decide (p' = p)) as [->|Hne].
    + rewrite lookup_insert_eq in Ek. injection Ek as <-. cbn [run_info]. split; [done|]. rewrite En. split; [|done].
      rewrite Hout by lia. unfold infos1. by rewrite aget_insert, Z.eqb_refl by lia.
    + rewrite lookup_insert_ne in Ek by done. pose proof (co_infos _ _ C _ _ Ek) as Hi. pose proof (ro_range _ R _ _ Ek) as (_ & Hk & _).
      assert (Hsep : forall q, p' <= q < p' + run_pages k -> ~ p <= q < p + n).
      { intros q Hq Hq'. apply Hne. exact (runs_unique runs p' k p (LargeRun n) q R Ek E Hq Hq'). }
      destruct k as [m|b]; cbn [run_info] in *; [by rewrite Hkeep by (apply Hsep; lia)|].
      destruct Hi as (Hb & Hs & Hr). split; [done|]. split; [by rewrite Hkeep by (apply Hsep; lia)|].
      intros i Hi. rewrite Hkeep by (apply Hsep; lia). by apply Hr.
Qed.

(** C28: A chunk is a set of disjoint runs of pages.  A request for [n] pages is answered with the start of a
    shortest gap that is long enough, and marking it adds exactly this run; it is refused only if no [n] free
    pages lie next to each other.  Releasing a run removes exactly this run. *)
Theorem zend_mm_chunk_refines_runs c runs : chunk_ok c runs ->
  (forall n, 1 <= n -> exists r c', search_chunk c n = Some (r, c') /\ chunk_ok c' runs /\
     match r with
     | Some p =>
         (exists len, gap runs p len /\ n <= len /\ forall p' len', gap runs p' len' -> n <= len' -> len <= len') /\
         exists c'', mark_run c' p n = Some c'' /\ chunk_ok c'' (<[p := LargeRun n]> runs)
     | None => forall p, ~ fits runs p n
     end) /\
  (forall p k, runs !! p = Some k -> p <> 0 ->
     exists c', release_run c p (run_pages k) = Some c' /\ chunk_ok c' (delete p runs)).
Proof.
  intros C. split; [|intros p k E Hp; by eapply release_run_ok]. intros n Hn.
  destruct (search_chunk_ok c runs C n Hn) as (r & c' & E & C' & _ & Hr). exists r, c'. split_and!; [done|done|].
  destruct r as [p|]; [|done]. destruct Hr as [(len & Hgap & Hl & Hmin) Hpt]. split; [by exists len|].
  apply mark_run_ok; [done| |by left]. destruct Hgap as [(Hp & _ & Hle & Hf) _]. split_and!; [done|done|lia|].
  intros q Hq. apply Hf. lia.
Qed.

(** A fresh chunk. *)
Definition ex_chunk : zend_mm_chunk :=
  {| next := 0; prev := 0; free_pages := 511; free_tail := 1; num := 0; free_map := 1 :: replicate 7 0;
     map := ZEND_MM_LRUN 1 :: replicate 511 0 |}.

Lemma ex_chunk_ok : chunk_ok ex_chunk no_runs.
Proof.
  set (z := {| next := 0; prev := 0; free_pages := 0; free_tail := 0; num := 0; free_map := replicate 8 0; map := replicate 512 0 |}).
  destruct (init_pages_ok z) as (c & E & C & _); [by apply zero_chunk_blank|]. vm_compute in E. injection E as <-. exact C.
Qed.

Lemma zend_mm_chunk_refines_runs_witness :
  exists c, search_chunk ex_chunk 3 = Some (Some 1, c) /\
  exists c', mark_run c 1 3 = Some c' /\ chunk_ok c' (<[1 := LargeRun 3]> no_runs).
Proof.
  destruct (zend_mm_chunk_refines_runs ex_chunk no_runs ex_chunk_ok) as [H _].
  destruct (H 3) as (r & c & E & _ & Hr); [lia|].
  assert (Er : r = Some 1) by (vm_compute in E; congruence). subst r. exists c. split; [exact E|apply Hr].
Defined.
