(* ===== verification/ZendMmHeap.v ===== *)
(** * The heap of the memory manager ([zend_alloc.c])

    The active chunks form a ring that starts at [main_chunk]; unused ones are kept in a list.  Small blocks
    come from lists of free slots, which are threaded through the slots themselves, large ones are runs of
    pages.  The system is represented by the addresses that its next calls of [mmap] return. *)
From Stdlib Require Import Floats.SpecFloat.
From S2P Require Import Prelude ZendMmBitset ZendMmBins ZendMmChunk.

Definition ZEND_MM_MAX_LARGE_SIZE : Z := ZEND_MM_CHUNK_SIZE - ZEND_MM_PAGE_SIZE * ZEND_MM_FIRST_PAGE.
Definition ZEND_MM_ALIGNED_OFFSET (size alignment : Z) : Z := Z.land size (alignment - 1).
Definition ZEND_MM_ALIGNED_BASE (size alignment : Z) : Z := Z.land size (u64 (Z.lnot (alignment - 1))).
Definition ZEND_MM_SIZE_TO_NUM (size alignment : Z) : Z := u64 (size + (alignment - 1)) / alignment.
Definition ZEND_MM_PAGE_ADDR (chunk page_num : Z) : Z := chunk + ZEND_MM_PAGE_SIZE * page_num.

Record zend_mm_heap := {
  size : Z; peak : Z;
  free_slot : list Z;
  real_size : Z; real_peak : Z;
  limit : Z; overflow : Z;
  main_chunk : Z; cached_chunks : Z;
  chunks_count : Z; peak_chunks_count : Z; cached_chunks_count : Z; avg_chunks_count : spec_float;
  last_chunks_delete_boundary : Z; last_chunks_delete_count : Z }.

(** The heap, the headers of the chunks, the links in the free slots, and the answers of the system to come:
    when there are none left, there is no more memory. *)
Record mm := { heap : zend_mm_heap; chunks : gmap Z zend_mm_chunk; slots : gmap Z Z; os : list Z }.

(** An allocation gives a block or ends the request with a fatal error. *)
Inductive outcome := Ptr (p : Z) | Bailout.

Definition set_heap (s : mm) (h : zend_mm_heap) : mm := {| s with heap := h |}.
Definition set_chunk (s : mm) (a : Z) (c : zend_mm_chunk) : mm := {| s with chunks := <[a := c]> (chunks s) |}.
Definition set_next (s : mm) (a b : Z) : option mm := c ← chunks s !! a; Some (set_chunk s a {| c with next := b |}).
Definition set_prev (s : mm) (a b : Z) : option mm := c ← chunks s !! a; Some (set_chunk s a {| c with prev := b |}).

(** ** Chunks *)
Definition zero_chunk : zend_mm_chunk :=
  {| next := 0; prev := 0; free_pages := 0; free_tail := 0; num := 0; free_map := replicate 8 0; map := replicate 512 0 |}.

(** Without a storage of its own the heap asks the system; the memory it gets is zeroed. *)
Definition zend_mm_chunk_alloc (s : mm) : Z * mm :=
  match os s with
  | [] => (0, s)
  | p :: rest => (p, {| s with os := rest; chunks := if p =? 0 then chunks s else <[p := zero_chunk]> (chunks s) |})
  end.

Definition zend_mm_chunk_free (s : mm) (addr : Z) : mm := {| s with chunks := delete addr (chunks s) |}.

Definition zend_mm_chunk_init (s : mm) (chunk : Z) : option mm :=
  s ← set_next s chunk (main_chunk (heap s));
  m ← chunks s !! main_chunk (heap s);
  s ← set_prev s chunk (prev m);
  c ← chunks s !! chunk;
  s ← set_next s (prev c) chunk;
  c ← chunks s !! chunk;
  s ← set_prev s (next c) chunk;
  c ← chunks s !! chunk;
  before ← chunks s !! prev c;
  c ← init_pages c;
  Some (set_chunk s chunk {| c with num := u32 (num before + 1) |}).

(** [chunks_count + cached_chunks_count < avg_chunks_count + 0.1], in binary64 *)
Definition double_of_int (n : Z) : spec_float := binary_normalize 53 1024 n 0 false.
Definition tenth : spec_float := S754_finite false 7205759403792794 (-56).
Definition few_chunks (h : zend_mm_heap) (count : Z) : bool :=
  SFltb (double_of_int count) (SFadd 53 1024 (avg_chunks_count h) tenth).

(** [if (!heap->cached_chunks) { ... }] *)
Definition count_deletion (h : zend_mm_heap) : option zend_mm_heap :=
  if cached_chunks h =? 0 then
    if negb (chunks_count h =? last_chunks_delete_boundary h) then
      Some {| h with last_chunks_delete_boundary := chunks_count h; last_chunks_delete_count := 0 |}
    else
      n ← int (last_chunks_delete_count h + 1);
      Some {| h with last_chunks_delete_count := n |}
  else Some h.

(** What becomes of a chunk that is out of the ring: it is kept, or given back to the system, or kept in
    place of the first one of the list if that is younger. *)
Definition retire_chunk (s : mm) (chunk : Z) : option mm :=
  let h := heap s in
  total ← int (chunks_count h + cached_chunks_count h);
  if few_chunks h total || (chunks_count h =? last_chunks_delete_boundary h) && (4 <=? last_chunks_delete_count h) then
    n ← int (cached_chunks_count h + 1);
    s ← set_next s chunk (cached_chunks h);
    Some (set_heap s {| h with cached_chunks_count := n; cached_chunks := chunk |})
  else
    h ← count_deletion {| h with real_size := u64 (real_size h - ZEND_MM_CHUNK_SIZE) |};
    c ← chunks s !! chunk;
    if cached_chunks h =? 0 then Some (zend_mm_chunk_free (set_heap s h) chunk)
    else
      k ← chunks s !! cached_chunks h;
      if num k <? num c then Some (zend_mm_chunk_free (set_heap s h) chunk)
      else
        s ← set_next s chunk (next k);
        Some (set_heap (zend_mm_chunk_free s (cached_chunks h)) {| h with cached_chunks := chunk |}).

Definition zend_mm_delete_chunk (s : mm) (chunk : Z) : option mm :=
  c ← chunks s !! chunk;
  s ← set_prev s (next c) (prev c);
  c ← chunks s !! chunk;
  s ← set_next s (prev c) (next c);
  let h := heap s in
  n ← int (chunks_count h - 1);
  retire_chunk (set_heap s {| h with chunks_count := n |}) chunk.

Definition zend_mm_free_pages_ex (s : mm) (chunk page_num pages_count : Z) (free_chunk : bool) : option mm :=
  c ← chunks s !! chunk;
  c ← release_run c page_num pages_count;
  let s := set_chunk s chunk c in
  if free_chunk && negb (chunk =? main_chunk (heap s)) && (free_pages c =? ZEND_MM_PAGES - ZEND_MM_FIRST_PAGE) then
    zend_mm_delete_chunk s chunk
  else Some s.

Definition zend_mm_free_pages (s : mm) (chunk page_num pages_count : Z) : option mm :=
  zend_mm_free_pages_ex s chunk page_num pages_count true.

(** ** Giving unused memory back *)

(** The chunk, the first page and the map word of the small run that the slot [p] is in. *)
Definition srun_of (s : mm) (p : Z) : option (Z * Z * Z) :=
  let chunk := ZEND_MM_ALIGNED_BASE p ZEND_MM_CHUNK_SIZE in
  let page_num := ZEND_MM_ALIGNED_OFFSET p ZEND_MM_CHUNK_SIZE / ZEND_MM_PAGE_SIZE in
  c ← chunks s !! chunk;
  info ← aget (map c) page_num;
  if negb (Z.land info ZEND_MM_IS_LRUN =? 0) then
    let page_num := page_num - ZEND_MM_NRUN_OFFSET info in
    info ← aget (map c) page_num;
    Some (chunk, page_num, info)
  else Some (chunk, page_num, info).

Definition set_info (s : mm) (chunk page_num info : Z) : option mm :=
  c ← chunks s !! chunk;
  infos ← aset (map c) page_num info;
  Some (set_chunk s chunk {| c with map := infos |}).

(** The free slots are counted in the map words of their runs. *)
Fixpoint count_free (fuel : nat) (s : mm) (i p : Z) (has_free_pages : bool) : option (mm * bool) :=
  match fuel with
  | O => None
  | S fuel =>
      if p =? 0 then Some (s, has_free_pages)
      else
        '(chunk, page_num, info) ← srun_of s p;
        let free_counter := u32 (ZEND_MM_SRUN_FREE_COUNTER info + 1) in
        elements ← aget bin_elements i;
        s ← set_info s chunk page_num (ZEND_MM_SRUN_EX i free_counter);
        p ← slots s !! p;
        count_free fuel s i p (has_free_pages || (free_counter =? elements))
  end.

(** [*q = p], where [q] points to the head of the list or to the link of a slot *)
Definition set_link (s : mm) (i : Z) (q : option Z) (p : Z) : option mm :=
  match q with
  | None => l ← aset (free_slot (heap s)) i p; let h := heap s in Some (set_heap s {| h with free_slot := l |})
  | Some a => Some {| s with slots := <[a := p]> (slots s) |}
  end.

Fixpoint drop_free (fuel : nat) (s : mm) (i : Z) (q : option Z) (p : Z) : option mm :=
  match fuel with
  | O => None
  | S fuel =>
      if p =? 0 then Some s
      else
        '(chunk, page_num, info) ← srun_of s p;
        elements ← aget bin_elements i;
        after ← slots s !! p;
        if ZEND_MM_SRUN_FREE_COUNTER info =? elements then
          s ← set_link s i q after;
          drop_free fuel s i q after
        else drop_free fuel s i (Some p) after
  end.

Definition gc_bin (s : mm) (i : Z) : option mm :=
  let fuel := S (base.size (slots s)) in
  p ← aget (free_slot (heap s)) i;
  '(s, has_free_pages) ← count_free fuel s i p false;
  if (has_free_pages : bool) then p ← aget (free_slot (heap s)) i; drop_free fuel s i None p else Some s.

(** The pages of a chunk; the second result is the number of pages given back. *)
Fixpoint gc_pages (fuel : nat) (s : mm) (chunk i collected : Z) : option (mm * Z) :=
  match fuel with
  | O => None
  | S fuel =>
      c ← chunks s !! chunk;
      if i <? free_tail c then
        set ← zend_mm_bitset_is_set (free_map c) i;
        if (set : bool) then
          info ← aget (map c) i;
          if negb (Z.land info ZEND_MM_IS_SRUN =? 0) then
            let bin_num := ZEND_MM_SRUN_BIN_NUM info in
            pages_count ← aget bin_pages bin_num;
            elements ← aget bin_elements bin_num;
            if ZEND_MM_SRUN_FREE_COUNTER info =? elements then
              s ← zend_mm_free_pages_ex s chunk i pages_count false;
              gc_pages fuel s chunk (u32 (i + pages_count)) (u64 (collected + pages_count))
            else
              s ← set_info s chunk i (ZEND_MM_SRUN bin_num);
              gc_pages fuel s chunk (u32 (i + pages_count)) collected
          else gc_pages fuel s chunk (u32 (i + ZEND_MM_LRUN_PAGES info)) collected
        else gc_pages fuel s chunk (i + 1) collected
      else Some (s, collected)
  end.

Fixpoint gc_chunks (fuel : nat) (s : mm) (chunk collected : Z) : option (mm * Z) :=
  match fuel with
  | O => None
  | S fuel =>
      '(s, collected) ← gc_pages (S (Z.to_nat ZEND_MM_PAGES)) s chunk ZEND_MM_FIRST_PAGE collected;
      c ← chunks s !! chunk;
      let next_chunk := next c in
      s ← (if free_pages c =? ZEND_MM_PAGES - ZEND_MM_FIRST_PAGE then zend_mm_delete_chunk s chunk else Some s);
      if next_chunk =? main_chunk (heap s) then Some (s, collected) else gc_chunks fuel s next_chunk collected
  end.

Fixpoint gc_bins (bins : list Z) (s : mm) : option mm :=
  match bins with [] => Some s | i :: bins => s ← gc_bin s i; gc_bins bins s end.

Definition zend_mm_gc (s : mm) : option (mm * Z) :=
  s ← gc_bins (seqZ 0 ZEND_MM_BINS) s;
  '(s, collected) ← gc_chunks (S (base.size (chunks s))) s (main_chunk (heap s)) 0;
  Some (s, u64 (collected * ZEND_MM_PAGE_SIZE)).

(** ** Pages *)

Definition count_chunk_size (h : zend_mm_heap) : zend_mm_heap :=
  let real := u64 (real_size h + ZEND_MM_CHUNK_SIZE) in
  {| h with real_size := real; real_peak := Z.max (real_peak h) real |}.

(** A chunk from the system, after a collection if need be; [None] inside is a fatal error. *)
Definition chunk_from_system (s : mm) : option (option Z * mm) :=
  let '(chunk, s) := zend_mm_chunk_alloc s in
  if negb (chunk =? 0) then Some (Some chunk, set_heap s (count_chunk_size (heap s)))
  else
    '(s, collected) ← zend_mm_gc s;
    if collected =? 0 then Some (None, s)
    else
      let '(chunk, s) := zend_mm_chunk_alloc s in
      if chunk =? 0 then Some (None, s) else Some (Some chunk, set_heap s (count_chunk_size (heap s))).

(** [get_chunk:] *)
Fixpoint get_chunk (fuel : nat) (s : mm) : option (option Z * mm) :=
  match fuel with
  | O => None
  | S fuel =>
      let h := heap s in
      if negb (cached_chunks h =? 0) then
        n ← int (cached_chunks_count h - 1);
        c ← chunks s !! cached_chunks h;
        Some (Some (cached_chunks h), set_heap s {| h with cached_chunks_count := n; cached_chunks := next c |})
      else if u64 (limit h - real_size h) <? ZEND_MM_CHUNK_SIZE then
        '(s, collected) ← zend_mm_gc s;
        if negb (collected =? 0) then get_chunk fuel s
        else if overflow (heap s) =? 0 then Some (None, s)
        else chunk_from_system s
      else chunk_from_system s
  end.

(** Every collection that gives something back leaves fewer pages in use. *)
Definition get_chunk_fuel (s : mm) : nat := S (512 * base.size (chunks s)).

(** A new chunk for the ring, and the page in it. *)
Definition new_chunk (s : mm) : option (option (Z * Z) * mm) :=
  '(r, s) ← get_chunk (get_chunk_fuel s) s;
  match r with
  | None => Some (None, s)
  | Some chunk =>
      let h := heap s in
      n ← int (chunks_count h + 1);
      let s := set_heap s {| h with chunks_count := n; peak_chunks_count := if peak_chunks_count h <? n then n else peak_chunks_count h |} in
      s ← zend_mm_chunk_init s chunk;
      Some (Some (chunk, ZEND_MM_FIRST_PAGE), s)
  end.

(** The chunks of the ring are searched in turn. *)
Fixpoint find_pages (fuel : nat) (s : mm) (chunk pages_count steps : Z) : option (option (Z * Z) * Z * mm) :=
  match fuel with
  | O => None
  | S fuel =>
      c ← chunks s !! chunk;
      '(r, c) ← search_chunk c pages_count;
      let s := set_chunk s chunk c in
      match r with
      | Some page_num => Some (Some (chunk, page_num), steps, s)
      | None =>
          if next c =? main_chunk (heap s) then
            '(r, s) ← new_chunk s;
            Some (r, steps, s)
          else steps ← int (steps + 1); find_pages fuel s (next c) pages_count steps
      end
  end.

(** The error is raised with [overflow] set, and then the request is left. *)
Definition zend_mm_safe_error (s : mm) : mm := let h := heap s in set_heap s {| h with overflow := 0 |}.

(** [chunk] becomes the second of the ring. *)
Definition move_to_head (s : mm) (chunk : Z) : option mm :=
  c ← chunks s !! chunk;
  s ← set_next s (prev c) (next c);
  c ← chunks s !! chunk;
  s ← set_prev s (next c) (prev c);
  m ← chunks s !! main_chunk (heap s);
  s ← set_next s chunk (next m);
  s ← set_prev s chunk (main_chunk (heap s));
  c ← chunks s !! chunk;
  s ← set_next s (prev c) chunk;
  c ← chunks s !! chunk;
  set_prev s (next c) chunk.

Definition zend_mm_alloc_pages (s : mm) (pages_count : Z) : option (outcome * mm) :=
  '(r, steps, s) ← find_pages (S (base.size (chunks s))) s (main_chunk (heap s)) pages_count 0;
  match r with
  | None => Some (Bailout, zend_mm_safe_error s)
  | Some (chunk, page_num) =>
      s ← (if (2 <? steps) && (pages_count <? 8) then move_to_head s chunk else Some s);
      c ← chunks s !! chunk;
      c ← mark_run c page_num pages_count;
      Some (Ptr (ZEND_MM_PAGE_ADDR chunk page_num), set_chunk s chunk c)
  end.

(** ** Large blocks *)
Definition add_size (h : zend_mm_heap) (n : Z) : zend_mm_heap :=
  let used := u64 (size h + n) in {| h with size := used; peak := Z.max (peak h) used |}.
Definition sub_size (h : zend_mm_heap) (n : Z) : zend_mm_heap := {| h with size := u64 (size h - n) |}.

Definition zend_mm_alloc_large_ex (s : mm) (n : Z) : option (outcome * mm) :=
  let pages_count := ZEND_MM_SIZE_TO_NUM n ZEND_MM_PAGE_SIZE in
  '(r, s) ← zend_mm_alloc_pages s pages_count;
  match r with
  | Bailout => Some (Bailout, s)
  | Ptr p => Some (Ptr p, set_heap s (add_size (heap s) (pages_count * ZEND_MM_PAGE_SIZE)))
  end.

Definition zend_mm_free_large (s : mm) (chunk page_num pages_count : Z) : option mm :=
  zend_mm_free_pages (set_heap s (sub_size (heap s) (pages_count * ZEND_MM_PAGE_SIZE))) chunk page_num pages_count.

(** ** Small blocks *)

(** The links of the slots from [p] on, [n] of them before the last. *)
Fixpoint link_slots (n : nat) (m : gmap Z Z) (p data_size : Z) : gmap Z Z :=
  match n with
  | O => <[p := 0]> m
  | S n => link_slots n (<[p := p + data_size]> m) (p + data_size) data_size
  end.

Definition zend_mm_alloc_small_slow (s : mm) (bin_num : Z) : option (outcome * mm) :=
  pages ← aget bin_pages bin_num;
  data_size ← aget bin_data_size bin_num;
  elements ← aget bin_elements bin_num;
  '(r, s) ← zend_mm_alloc_pages s pages;
  match r with
  | Bailout => Some (Bailout, s)
  | Ptr bin =>
      let chunk := ZEND_MM_ALIGNED_BASE bin ZEND_MM_CHUNK_SIZE in
      let page_num := ZEND_MM_ALIGNED_OFFSET bin ZEND_MM_CHUNK_SIZE / ZEND_MM_PAGE_SIZE in
      c ← chunks s !! chunk;
      c ← mark_bin c page_num bin_num pages;
      let s := set_chunk s chunk c in
      let p := bin + data_size in
      s ← set_link s bin_num None p;
      Some (Ptr bin, {| s with slots := link_slots (Z.to_nat (elements - 2)) (slots s) p data_size |})
  end.

Definition zend_mm_alloc_small (s : mm) (bin_num : Z) : option (outcome * mm) :=
  data_size ← aget bin_data_size bin_num;
  let s := set_heap s (add_size (heap s) data_size) in
  p ← aget (free_slot (heap s)) bin_num;
  if negb (p =? 0) then
    after ← slots s !! p;
    s ← set_link s bin_num None after;
    Some (Ptr p, s)
  else zend_mm_alloc_small_slow s bin_num.

Definition zend_mm_free_small (s : mm) (ptr bin_num : Z) : option mm :=
  data_size ← aget bin_data_size bin_num;
  let s := set_heap s (sub_size (heap s) data_size) in
  first ← aget (free_slot (heap s)) bin_num;
  s ← set_link s bin_num (Some ptr) first;
  set_link s bin_num None ptr.

(** ** Blocks inside chunks: [zend_mm_alloc_heap] and [zend_mm_free_heap] for all but huge ones *)
Definition alloc_block (s : mm) (n : Z) : option (outcome * mm) :=
  if n <=? ZEND_MM_MAX_SMALL_SIZE then zend_mm_alloc_small s (zend_mm_small_size_to_bin n)
  else zend_mm_alloc_large_ex s n.

Definition free_block (s : mm) (ptr : Z) : option mm :=
  let page_offset := ZEND_MM_ALIGNED_OFFSET ptr ZEND_MM_CHUNK_SIZE in
  let chunk := ZEND_MM_ALIGNED_BASE ptr ZEND_MM_CHUNK_SIZE in
  let page_num := page_offset / ZEND_MM_PAGE_SIZE in
  c ← chunks s !! chunk;
  info ← aget (map c) page_num;
  if negb (Z.land info ZEND_MM_IS_SRUN =? 0) then zend_mm_free_small s ptr (ZEND_MM_SRUN_BIN_NUM info)
  else if ZEND_MM_ALIGNED_OFFSET page_offset ZEND_MM_PAGE_SIZE =? 0 then
    zend_mm_free_large s chunk page_num (ZEND_MM_LRUN_PAGES info)
  else None.

Definition zend_mm_size (s : mm) (ptr : Z) : option Z :=
  let page_offset := ZEND_MM_ALIGNED_OFFSET ptr ZEND_MM_CHUNK_SIZE in
  c ← chunks s !! ZEND_MM_ALIGNED_BASE ptr ZEND_MM_CHUNK_SIZE;
  info ← aget (map c) (page_offset / ZEND_MM_PAGE_SIZE);
  if negb (Z.land info ZEND_MM_IS_SRUN =? 0) then aget bin_data_size (ZEND_MM_SRUN_BIN_NUM info)
  else Some (ZEND_MM_LRUN_PAGES info * ZEND_MM_PAGE_SIZE).

(** ** The first chunk *)
Definition zend_mm_init (os : list Z) : option mm :=
  match os with
  | chunk :: os =>
      c ← init_pages zero_chunk;
      Some {| heap := {| size := 0; peak := 0; free_slot := replicate 30 0; real_size := ZEND_MM_CHUNK_SIZE;
                         real_peak := ZEND_MM_CHUNK_SIZE; limit := 2 ^ 63 - 1; overflow := 0; main_chunk := chunk;
                         cached_chunks := 0; chunks_count := 1; peak_chunks_count := 1; cached_chunks_count := 0;
                         avg_chunks_count := double_of_int 1; last_chunks_delete_boundary := 0;
                         last_chunks_delete_count := 0 |};
              chunks := {[chunk := {| c with next := chunk; prev := chunk; num := 0 |}]}; slots := ∅; os := os |}
  | [] => None
  end.

(** ** Two faults of [zend_mm_gc] *)

(** A heap that has handed out one small block and has it back, after a collection, and the bytes collected. *)
Definition ex_collected (n : Z) : option (mm * Z) :=
  s ← zend_mm_init [0x200000; 0xa00000];
  '(r, s) ← alloc_block s n;
  match r with Ptr p => s ← free_block s p; zend_mm_gc s | Bailout => None end.

(** The answers to two requests that need a whole chunk each; [None] inside is a NULL pointer followed. *)
Definition two_chunks (s : mm) : option (outcome * option outcome) :=
  '(r, s) ← alloc_block s ZEND_MM_MAX_LARGE_SIZE;
  Some (r, fst <$> alloc_block s ZEND_MM_MAX_LARGE_SIZE).

(** Two faults of [zend_mm_gc], on concrete runs.  When no block is left it retires the main chunk too, which then is both
    the head of the ring and in the list of unused chunks, without a successor: the next request but one that
    needs a whole chunk follows a NULL pointer, where a heap without the collection serves both.  And the page
    of an 8-byte block is never given back, while that of a 16-byte block is: the free counter of a run does
    not hold 512. *)
Example zend_mm_gc_faults :
  ('(s, n) ← ex_collected 40; Some (n, main_chunk (heap s), cached_chunks (heap s), next <$> chunks s !! main_chunk (heap s))) =
    Some (ZEND_MM_PAGE_SIZE, 0x200000, 0x200000, Some 0) /\
  ('(s, _) ← ex_collected 40; two_chunks s) = Some (Ptr 0x201000, None) /\
  (s ← zend_mm_init [0x200000; 0xa00000]; two_chunks s) = Some (Ptr 0x201000, Some (Ptr 0xa01000)) /\
  snd <$> ex_collected 8 = Some 0 /\ snd <$> ex_collected 16 = Some ZEND_MM_PAGE_SIZE.
Proof. split_and!; vm_compute; reflexivity. Qed.
