(* ===== verification/ZendMmRing.v ===== *)
(** * The ring of chunks ([zend_alloc.c])

    Rings of doubly linked cells that start at a given one: taking a cell out, and putting one in behind
    another.  The links are functions here; [ZendMmPages] reads them off the chunks. *)
From S2P Require Import Prelude.

Section Chain.
Implicit Types (nx pv : Z -> option Z) (l : list Z).

(** Every cell of [l] points to the next one, and that one back. *)
Fixpoint chain nx pv l : Prop :=
  match l with
  | a :: l' => match l' with [] => True | b :: _ => nx a = Some b /\ pv b = Some a end /\ chain nx pv l'
  | [] => True
  end.

Lemma links_app nx pv l1 a l2 : chain nx pv (l1 ++ a :: l2) <-> chain nx pv (l1 ++ [a]) /\ chain nx pv (a :: l2).
Proof.
  induction l1 as [|b l1 IH]; [by cbn; destruct l2; naive_solver|]. cbn [app chain]. rewrite IH. destruct l1; cbn; naive_solver.
Qed.

Lemma chain_mid nx pv l1 a b l2 : chain nx pv (l1 ++ a :: b :: l2) -> nx a = Some b /\ pv b = Some a.
Proof. intros H. apply links_app in H as [_ [H _]]. done. Qed.

Lemma chain_frame nx pv nx' pv' l : chain nx pv l -> (forall x, x ∈ removelast l -> nx' x = nx x) ->
  (forall x, x ∈ tail l -> pv' x = pv x) -> chain nx' pv' l.
Proof.
  induction l as [|a [|b l] IH]; [done..|]. intros [[Hn Hp] H] Hnx Hpv. split.
  - rewrite Hnx, Hpv by (cbn; set_solver). done.
  - apply IH; [done| |]; intros x Hx; [apply Hnx|apply Hpv]; cbn in *; set_solver.
Qed.

(** A ring: the cells of [m :: rest], the last of which points to the first again. *)
Definition ring nx pv m rest : Prop := chain nx pv (m :: rest ++ [m]) /\ NoDup (m :: rest).

Lemma ring_split_before m r : exists l a, m :: r = l ++ [a].
Proof. destruct (exists_last (l := m :: r)) as (l & a & E); [done|by exists l, a]. Qed.

Lemma ring_split_after m r : exists b l, r ++ [m] = b :: l.
Proof. destruct r as [|b r]; [by exists m, []|by exists b, (r ++ [m])]. Qed.

(** The neighbours of a place in the ring: [a] before it, [b] after it. *)
Record neighbours m r1 r2 l1 a b l2 : Prop := {
  nb_before : m :: r1 = l1 ++ [a];
  nb_after : r2 ++ [m] = b :: l2;
  nb_a : a ∈ m :: r1;
  nb_b : b ∈ m :: r2;
  nb_a_last : a ∉ l1;
  nb_l1 : forall x, x ∈ l1 -> x ∈ m :: r1;
  nb_b_first : b ∉ l2;
  nb_l2 : forall x, x ∈ l2 -> x ∈ m :: r2 }.

Lemma ring_neighbours m r1 r2 : NoDup (m :: r1 ++ r2) -> exists l1 a b l2, neighbours m r1 r2 l1 a b l2.
Proof.
  intros Hnd. destruct (ring_split_before m r1) as (l1 & a & E1), (ring_split_after m r2) as (b & l2 & E2).
  exists l1, a, b, l2. apply NoDup_cons in Hnd as [Hm Hnd]. apply NoDup_app in Hnd as (Hr1 & Hr12 & Hr2).
  assert (N1 : NoDup (l1 ++ [a])) by (rewrite <- E1; apply NoDup_cons; set_solver).
  assert (N2 : NoDup (b :: l2)).
  { rewrite <- E2. apply NoDup_app. split_and!; [done| |apply NoDup_singleton]. set_solver. }
  apply NoDup_app in N1 as (_ & N1 & _). apply NoDup_cons in N2 as [N2 _].
  constructor; try done.
  - rewrite E1. set_solver.
  - assert (b ∈ r2 ++ [m]) by (rewrite E2; set_solver). set_solver.
  - set_solver.
  - intros x Hx. rewrite E1. set_solver.
  - intros x Hx. assert (x ∈ r2 ++ [m]) by (rewrite E2; set_solver). set_solver.
Qed.

Lemma removelast_snoc (l : list Z) a : removelast (l ++ [a]) = l.
Proof. apply removelast_last. Qed.

(** The links of the ring on the two sides of a place do not change when only those across it do. *)
Lemma ring_sides nx pv nx' pv' m r1 r2 l1 a b l2 : neighbours m r1 r2 l1 a b l2 -> NoDup (m :: r1 ++ r2) ->
  chain nx pv (l1 ++ [a]) -> chain nx pv (b :: l2) ->
  (forall x, x ∈ m :: r1 ++ r2 -> x <> a -> nx' x = nx x) -> (forall x, x ∈ m :: r1 ++ r2 -> x <> b -> pv' x = pv x) ->
  chain nx' pv' (l1 ++ [a]) /\ chain nx' pv' (b :: l2).
Proof.
  intros [E1 E2 Ha Hb Ha1 Hl1 Hb2 Hl2] Hnd C1 C2 Hnx Hpv. apply NoDup_cons in Hnd as [Hm Hnd]. apply NoDup_app in Hnd as (Hr1 & Hr12 & Hr2).
  split; (eapply chain_frame; [done| |]).
  - intros x Hx. rewrite removelast_snoc in Hx. apply Hnx; [specialize (Hl1 x Hx); set_solver|by intros ->].
  - intros x Hx. rewrite <- E1 in Hx. cbn in Hx. apply Hpv; [set_solver|]. intros ->. set_solver.
  - intros x Hx. rewrite <- E2, removelast_snoc in Hx. apply Hnx; [set_solver|]. intros ->. set_solver.
  - intros x Hx. cbn in Hx. apply Hpv; [specialize (Hl2 x Hx); set_solver|by intros ->].
Qed.

Lemma ring_list m r1 c r2 l1 a b l2 : neighbours m r1 r2 l1 a b l2 -> m :: (r1 ++ c :: r2) ++ [m] = l1 ++ a :: c :: b :: l2.
Proof.
  intros [E1 E2 _ _ _ _ _ _]. rewrite <- app_assoc. cbn. rewrite E2, app_comm_cons, E1, <- app_assoc. done.
Qed.

Lemma ring_list_closed m r1 r2 l1 a b l2 : neighbours m r1 r2 l1 a b l2 -> m :: (r1 ++ r2) ++ [m] = l1 ++ a :: b :: l2.
Proof. intros [E1 E2 _ _ _ _ _ _]. rewrite <- app_assoc, E2, app_comm_cons, E1, <- app_assoc. done. Qed.

Lemma chain_three nx pv l1 a c b l2 : chain nx pv (l1 ++ a :: c :: b :: l2) <->
  chain nx pv (l1 ++ [a]) /\ (nx a = Some c /\ pv c = Some a) /\ (nx c = Some b /\ pv b = Some c) /\ chain nx pv (b :: l2).
Proof. rewrite links_app. cbn [chain]. naive_solver. Qed.

Lemma chain_two nx pv l1 a b l2 : chain nx pv (l1 ++ a :: b :: l2) <->
  chain nx pv (l1 ++ [a]) /\ (nx a = Some b /\ pv b = Some a) /\ chain nx pv (b :: l2).
Proof. rewrite links_app. cbn [chain]. naive_solver. Qed.

(** The neighbours of [c] in the ring, as its links tell them. *)
Lemma ring_links nx pv m r1 c r2 : ring nx pv m (r1 ++ c :: r2) -> exists l1 a b l2, neighbours m r1 r2 l1 a b l2 /\ c ∉ m :: r1 ++ r2 /\
  NoDup (m :: r1 ++ r2) /\ nx c = Some b /\ pv c = Some a.
Proof.
  intros [Hc Hnd]. assert (Hp : m :: r1 ++ c :: r2 ≡ₚ c :: m :: r1 ++ r2) by by rewrite <- Permutation_middle; constructor.
  rewrite Hp in Hnd. apply NoDup_cons in Hnd as [Hnc Hnd]. destruct (ring_neighbours m r1 r2 Hnd) as (l1 & a & b & l2 & N).
  exists l1, a, b, l2. rewrite (ring_list _ _ _ _ _ _ _ _ N), chain_three in Hc. naive_solver.
Qed.

(** Taking [c] out from between its neighbours. *)
Lemma ring_unlink nx pv nx' pv' m r1 c r2 a b : ring nx pv m (r1 ++ c :: r2) -> nx c = Some b -> pv c = Some a ->
  (forall x, x <> c -> nx' x = if decide (x = a) then Some b else nx x) ->
  (forall x, x <> c -> pv' x = if decide (x = b) then Some a else pv x) -> ring nx' pv' m (r1 ++ r2).
Proof.
  intros R Ha Hb Hnx Hpv. destruct (ring_links _ _ _ _ _ _ R) as (l1 & a' & b' & l2 & N & Hc & Hnd & Hb' & Ha').
  assert (a' = a) as -> by congruence. assert (b' = b) as -> by congruence. split; [|done].
  destruct R as [R _]. rewrite (ring_list _ _ _ _ _ _ _ _ N), chain_three in R. destruct R as (C1 & _ & _ & C2).
  rewrite (ring_list_closed _ _ _ _ _ _ _ N), chain_two. pose proof (nb_a _ _ _ _ _ _ _ N) as Hina. pose proof (nb_b _ _ _ _ _ _ _ N) as Hinb.
  destruct (ring_sides nx pv nx' pv' _ _ _ _ _ _ _ N Hnd C1 C2) as [C1' C2'].
  - intros x Hx Hne. rewrite Hnx by (intros ->; done). by rewrite decide_False.
  - intros x Hx Hne. rewrite Hpv by (intros ->; done). by rewrite decide_False.
  - split_and!; [done| | |done].
    + rewrite Hnx, decide_True by (done || set_solver). done.
    + rewrite Hpv, decide_True by (done || set_solver). done.
Qed.

(** Putting [c] in. *)
Lemma ring_insert nx pv nx' pv' m r1 c r2 l1 a b l2 : ring nx pv m (r1 ++ r2) -> neighbours m r1 r2 l1 a b l2 -> c ∉ m :: r1 ++ r2 ->
  nx' c = Some b -> pv' c = Some a ->
  (forall x, x <> c -> nx' x = if decide (x = a) then Some c else nx x) ->
  (forall x, x <> c -> pv' x = if decide (x = b) then Some c else pv x) -> ring nx' pv' m (r1 ++ c :: r2).
Proof.
  intros [R Hnd] N Hc Hcb Hca Hnx Hpv. pose proof (nb_a _ _ _ _ _ _ _ N) as Hina. pose proof (nb_b _ _ _ _ _ _ _ N) as Hinb.
  rewrite (ring_list_closed _ _ _ _ _ _ _ N), chain_two in R. destruct R as (C1 & _ & C2). split.
  2:{ rewrite <- Permutation_middle. change (NoDup ([m] ++ c :: r1 ++ r2)). rewrite <- Permutation_middle. by apply NoDup_cons. }
  rewrite (ring_list _ _ _ _ _ _ _ _ N), chain_three.
  destruct (ring_sides nx pv nx' pv' _ _ _ _ _ _ _ N Hnd C1 C2) as [C1' C2'].
  - intros x Hx Hne. rewrite Hnx by (intros ->; done). by rewrite decide_False.
  - intros x Hx Hne. rewrite Hpv by (intros ->; done). by rewrite decide_False.
  - split_and!; try done.
    + rewrite Hnx, decide_True by (done || set_solver). done.
    + rewrite Hpv, decide_True by (done || set_solver). done.
Qed.
End Chain.
