(* ===== verification/ZendMmPages.v ===== *)
(** * Pages of the heap ([zend_alloc.c])

    The heap at the level of pages: the chunks in use form a ring, each of them is a set of runs
    ([ZendMmRuns]), and the chunks kept for later use form a list and are blank.  Allocating pages adds one
    run to one chunk, a new one if need be; freeing them takes the run out, and the chunk with its last run. *)
From S2P Require Import Prelude ZendMmBitset ZendMmBins ZendMmChunk ZendMmRuns ZendMmHeap ZendMmRing.

Definition nextf (s : mm) (a : Z) : option Z := next <$> chunks s !! a.
Definition prevf (s : mm) (a : Z) : option Z := prev <$> chunks s !! a.

(** What a chunk says of its pages. *)
Definition pages_of (c : zend_mm_chunk) : Z * Z * list Z * list Z := (free_pages c, free_tail c, free_map c, map c).

Lemma chunk_ok_pages c c' runs : pages_of c' = pages_of c -> chunk_ok c runs -> chunk_ok c' runs.
Proof. intros [= E1 E2 E3 E4] [? ? ? ? ? ? ? ? ?]. constructor; rewrite ?E1, ?E2, ?E3, ?E4; done. Qed.

Lemma blank_pages c c' : pages_of c' = pages_of c -> blank c -> blank c'.
Proof. intros [= E1 E2 E3 E4] [? ? ? ?]. constructor; rewrite ?E3, ?E4; done. Qed.

(** ** Steps that only change links *)
Record links_only (s s' : mm) : Prop := {
  lo_heap : heap s' = heap s;
  lo_slots : slots s' = slots s;
  lo_os : os s' = os s;
  lo_pages : forall x, pages_of <$> chunks s' !! x = pages_of <$> chunks s !! x }.

Lemma links_only_trans s1 s2 s3 : links_only s1 s2 -> links_only s2 s3 -> links_only s1 s3.
Proof. intros [? ? ? H1] [? ? ? H2]. constructor; [congruence..|]. intros x. by rewrite H2, H1. Qed.


Lemma links_only_dom s s' x : links_only s s' -> is_Some (chunks s' !! x) <-> is_Some (chunks s !! x).
Proof. intros L. rewrite <- !(fmap_is_Some pages_of). by rewrite (lo_pages _ _ L). Qed.

Lemma links_only_lookup s s' x c : links_only s s' -> chunks s !! x = Some c ->
  exists c', chunks s' !! x = Some c' /\ pages_of c' = pages_of c.
Proof.
  intros L E. pose proof (lo_pages _ _ L x) as Hp. rewrite E in Hp. destruct (chunks s' !! x) as [c'|]; [|done].
  injection Hp as Hp. exists c'. split; [done|]. unfold pages_of. congruence.
Qed.

Lemma set_chunk_links s a c c' : chunks s !! a = Some c -> pages_of c' = pages_of c -> links_only s (set_chunk s a c').
Proof.
  intros E Hp. constructor; try done. intros x. cbn. destruct (decide (x = a)) as [->|].
  - rewrite lookup_insert_eq, E. cbn. by rewrite Hp.
  - by rewrite lookup_insert_ne.
Qed.

Lemma set_next_ok s a b : is_Some (chunks s !! a) -> exists s', set_next s a b = Some s' /\ links_only s s' /\
  (forall x, nextf s' x = if decide (x = a) then Some b else nextf s x) /\ (forall x, prevf s' x = prevf s x).
Proof.
  intros [c E]. unfold set_next. rewrite E. eexists. split; [done|]. split; [by eapply set_chunk_links|]. unfold nextf, prevf.
  split; intros x; cbn; (destruct (decide (x = a)) as [->|]; [rewrite lookup_insert_eq, ?E|rewrite lookup_insert_ne]; done).
Qed.

Lemma set_prev_ok s a b : is_Some (chunks s !! a) -> exists s', set_prev s a b = Some s' /\ links_only s s' /\
  (forall x, prevf s' x = if decide (x = a) then Some b else prevf s x) /\ (forall x, nextf s' x = nextf s x).
Proof.
  intros [c E]. unfold set_prev. rewrite E. eexists. split; [done|]. split; [by eapply set_chunk_links|]. unfold nextf, prevf.
  split; intros x; cbn; (destruct (decide (x = a)) as [->|]; [rewrite lookup_insert_eq, ?E|rewrite lookup_insert_ne]; done).
Qed.

Lemma nextf_Some s a b : nextf s a = Some b <-> exists c, chunks s !! a = Some c /\ next c = b.
Proof. unfold nextf. rewrite fmap_Some. naive_solver. Qed.
Lemma prevf_Some s a b : prevf s a = Some b <-> exists c, chunks s !! a = Some c /\ prev c = b.
Proof. unfold prevf. rewrite fmap_Some. naive_solver. Qed.

(** ** The invariant *)

(** A list linked by [nx], which ends with NULL. *)
Fixpoint linked_list (nx : Z -> option Z) (p : Z) (l : list Z) : Prop :=
  match l with
  | [] => p = 0
  | a :: l => p = a /\ exists b, nx a = Some b /\ linked_list nx b l
  end.

Lemma linked_list_frame nx nx' p l : linked_list nx p l -> (forall x, x ∈ l -> nx' x = nx x) -> linked_list nx' p l.
Proof.
  revert p. induction l as [|a l IH]; intros p; cbn; [done|]. intros [-> (b & Hb & Hl)] H. split; [done|]. exists b.
  split; [rewrite H; [done|set_solver]|]. apply IH; [done|]. set_solver.
Qed.

Definition chunk_addr (a : Z) : Prop := 0 < a /\ a mod ZEND_MM_CHUNK_SIZE = 0 /\ a + ZEND_MM_CHUNK_SIZE <= 2 ^ 64.

(** The chunks in use, [A], and the ones kept, [K]. *)
Record contents_ok (s : mm) (A K : list Z) (R : gmap Z (gmap Z run_kind)) : Prop := {
  ct_nodup : NoDup (A ++ K);
  ct_dom : forall a, is_Some (chunks s !! a) <-> a ∈ A ++ K;
  ct_active : forall a c, a ∈ A -> chunks s !! a = Some c -> exists runs, R !! a = Some runs /\ chunk_ok c runs;
  ct_runs : forall a, is_Some (R !! a) -> a ∈ A;
  ct_blank : forall a c, a ∈ K -> chunks s !! a = Some c -> blank c;
  ct_addr : forall a, is_Some (chunks s !! a) -> chunk_addr a }.

Record pages_ok (s : mm) (rest kl : list Z) (R : gmap Z (gmap Z run_kind)) : Prop := {
  po_contents : contents_ok s (main_chunk (heap s) :: rest) kl R;
  po_ring : ring (nextf s) (prevf s) (main_chunk (heap s)) rest;
  po_cached : linked_list (nextf s) (cached_chunks (heap s)) kl;
  po_count : chunks_count (heap s) = Z.of_nat (length (main_chunk (heap s) :: rest));
  po_cached_count : cached_chunks_count (heap s) = Z.of_nat (length kl);
  po_few : chunks_count (heap s) + cached_chunks_count (heap s) < 2 ^ 31;
  po_deletes : 0 <= last_chunks_delete_count (heap s) <= 4 }.

(** There is memory for one more chunk: one was kept, or the limit admits one and the system has one. *)
Definition available (s : mm) : Prop :=
  cached_chunks (heap s) <> 0 \/
  (ZEND_MM_CHUNK_SIZE <= u64 (limit (heap s) - real_size (heap s)) /\
   chunks_count (heap s) + cached_chunks_count (heap s) < 2 ^ 31 - 1 /\
   exists p rest, os s = p :: rest /\ chunk_addr p /\ chunks s !! p = None).

(** What the blocks depend on stays the same. *)
Record same_blocks (s s' : mm) : Prop := {
  sb_slots : slots s' = slots s;
  sb_free_slot : free_slot (heap s') = free_slot (heap s);
  sb_size : size (heap s') = size (heap s) }.

Section Contents.
Implicit Types (s : mm) (A K : list Z) (R : gmap Z (gmap Z run_kind)).

Lemma contents_links s s' A K R : links_only s s' -> contents_ok s A K R -> contents_ok s' A K R.
Proof.
  intros L [Hnd Hdom Hact Hruns Hblank Haddr]. constructor; try done.
  - intros a. by rewrite (links_only_dom _ _ _ L).
  - intros a c Ha E. destruct (chunks s !! a) as [c0|] eqn:E0; [|apply (links_only_dom _ _ a) in L; rewrite E, E0 in L; destruct L as [L _]; by destruct L].
    destruct (links_only_lookup _ _ _ _ L E0) as (c' & E' & Hp). assert (c' = c) as -> by congruence.
    destruct (Hact a c0 Ha E0) as (runs & Er & C). exists runs. split; [done|by eapply chunk_ok_pages].
  - intros a c Ha E. destruct (chunks s !! a) as [c0|] eqn:E0; [|apply (links_only_dom _ _ a) in L; rewrite E, E0 in L; destruct L as [L _]; by destruct L].
    destruct (links_only_lookup _ _ _ _ L E0) as (c' & E' & Hp). assert (c' = c) as -> by congruence. eapply blank_pages; [done|by eapply Hblank].
  - intros a Ha. apply Haddr. by rewrite <- (links_only_dom _ _ _ L).
Qed.

Lemma contents_chunks s s' A K R : chunks s' = chunks s -> contents_ok s A K R -> contents_ok s' A K R.
Proof. intros E [? ? ? ? ? ?]. constructor; rewrite ?E; done. Qed.

Lemma contents_perm s A A' K K' R : A ≡ₚ A' -> K ≡ₚ K' -> contents_ok s A K R -> contents_ok s A' K' R.
Proof.
  intros HA HK [Hnd Hdom Hact Hruns Hblank Haddr].
  constructor; [by rewrite <- HA, <- HK| | | | |done]; intros a; rewrite <- ?HA, <- ?HK; [apply Hdom|intros c; rewrite <- HA; apply Hact|apply Hruns|intros c; rewrite <- HK; apply Hblank].
Qed.

(** A chunk in use changes. *)
Lemma contents_put s a c A K R runs : a ∈ A -> contents_ok s A K R -> chunk_ok c runs -> contents_ok (set_chunk s a c) A K (<[a := runs]> R).
Proof.
  intros Ha [Hnd Hdom Hact Hruns Hblank Haddr] C.
  assert (Hs : is_Some (chunks s !! a)) by (apply Hdom; set_solver).
  assert (Hd : forall x, is_Some (<[a := c]> (chunks s) !! x) <-> is_Some (chunks s !! x)).
  { intros x. rewrite lookup_insert_is_Some. destruct (decide (a = x)) as [->|]; naive_solver. }
  constructor; cbn; [done|intros x; by rewrite Hd| | | |intros x; rewrite Hd; apply Haddr].
  - intros x c' Hx E. destruct (decide (x = a)) as [->|].
    + rewrite lookup_insert_eq in E. injection E as <-. exists runs. by rewrite lookup_insert_eq.
    + rewrite lookup_insert_ne in E by done. rewrite lookup_insert_ne by done. by apply (Hact x).
  - intros x [->|[_ Hx]]%lookup_insert_is_Some; [done|by apply Hruns].
  - intros x c' Hx E. apply NoDup_app in Hnd as (_ & Hd' & _). rewrite lookup_insert_ne in E by (intros ->; by apply (Hd' x)). by apply (Hblank x).
Qed.

(** A chunk without runs is taken out of use. *)
Lemma contents_retire s c A K R : contents_ok s (c :: A) K R -> (forall h, chunks s !! c = Some h -> blank h) -> contents_ok s A (c :: K) (delete c R).
Proof.
  intros [Hnd Hdom Hact Hruns Hblank Haddr] Hb. cbn in Hnd. pose proof Hnd as Hnd'. apply NoDup_cons in Hnd' as [Hc Hnd'].
  constructor; [by rewrite <- Permutation_middle| | | | |done].
  - intros a. rewrite Hdom. by rewrite <- Permutation_middle.
  - intros a h Ha E. destruct (Hact a h) as (runs & Er & C); [set_solver|done|]. exists runs. split; [|done].
    apply lookup_delete_Some. split; [|done]. set_solver.
  - intros a [r [Hne E]%lookup_delete_Some]. specialize (Hruns a (mk_is_Some _ _ E)). set_solver.
  - intros a h [->|Ha]%elem_of_cons E; [by apply Hb|by apply (Hblank a)].
Qed.

(** A chunk that was kept goes back to the system. *)
Lemma contents_free s c A K R : contents_ok s A (c :: K) R -> contents_ok (zend_mm_chunk_free s c) A K R.
Proof.
  intros [Hnd Hdom Hact Hruns Hblank Haddr]. rewrite <- Permutation_middle in Hnd. apply NoDup_cons in Hnd as [Hc Hnd].
  assert (Hd : forall x, is_Some (delete c (chunks s) !! x) <-> x <> c /\ is_Some (chunks s !! x)).
  { intros x. rewrite lookup_delete_is_Some. naive_solver. }
  constructor; cbn; [done| | |done| |].
  - intros x. rewrite Hd, Hdom, <- Permutation_middle. set_solver.
  - intros x h Hx [_ E]%lookup_delete_Some. by apply (Hact x).
  - intros x h Hx [_ E]%lookup_delete_Some. apply (Hblank x); [set_solver|done].
  - intros x [_ Hx]%Hd. by apply Haddr.
Qed.

(** A chunk that was kept is put to use. *)
Lemma contents_use s a c A K R : contents_ok s A (a :: K) R -> chunk_ok c no_runs ->
  contents_ok (set_chunk s a c) (a :: A) K (<[a := no_runs]> R).
Proof.
  intros [Hnd Hdom Hact Hruns Hblank Haddr] C. rewrite <- Permutation_middle in Hnd. pose proof Hnd as Hnd'. apply NoDup_cons in Hnd' as [Hc Hnd'].
  assert (Hs : is_Some (chunks s !! a)) by (apply Hdom; set_solver).
  assert (Hd : forall x, is_Some (<[a := c]> (chunks s) !! x) <-> is_Some (chunks s !! x)).
  { intros x. rewrite lookup_insert_is_Some. destruct (decide (a = x)) as [->|]; naive_solver. }
  constructor; cbn; [done| | | | |intros x; rewrite Hd; apply Haddr].
  - intros x. by rewrite Hd, Hdom, <- Permutation_middle.
  - intros x c' Hx E. destruct (decide (x = a)) as [->|].
    + rewrite lookup_insert_eq in E. injection E as <-. exists no_runs. by rewrite lookup_insert_eq.
    + rewrite lookup_insert_ne in E by done. rewrite lookup_insert_ne by done. apply (Hact x); [set_solver|done].
  - intros x [->|[_ Hx]]%lookup_insert_is_Some; [set_solver|]. apply elem_of_cons. right. by apply Hruns.
  - intros x c' Hx E. rewrite lookup_insert_ne in E by (intros ->; set_solver). apply (Hblank x); [set_solver|done].
Qed.

(** The system gives a new chunk. *)
Lemma contents_alloc s p rest A K R : contents_ok s A K R -> os s = p :: rest -> chunk_addr p -> chunks s !! p = None ->
  exists s', zend_mm_chunk_alloc s = (p, s') /\ contents_ok s' A (p :: K) R /\ heap s' = heap s /\ slots s' = slots s /\ p <> 0 /\
    (forall x, x <> p -> chunks s' !! x = chunks s !! x).
Proof.
  intros [Hnd Hdom Hact Hruns Hblank Haddr] Eo Hp En. unfold zend_mm_chunk_alloc. rewrite Eo.
  assert (Hp0 : p <> 0) by (destruct Hp; lia). rewrite (proj2 (Z.eqb_neq _ _)) by done. eexists. split; [done|].
  assert (Hpn : p ∉ A ++ K) by (rewrite <- Hdom, En; by intros [? ?]).
  split; [|split_and!; try done; intros x Hx; cbn; by rewrite lookup_insert_ne].
  constructor; cbn.
  - rewrite <- Permutation_middle. by apply NoDup_cons.
  - intros x. rewrite lookup_insert_is_Some', Hdom, <- Permutation_middle. set_solver.
  - intros x c Hx E. rewrite lookup_insert_ne in E by (intros ->; set_solver). by apply (Hact x).
  - done.
  - intros x c [->|Hx]%elem_of_cons E.
    + rewrite lookup_insert_eq in E. injection E as <-. by apply zero_chunk_blank.
    + rewrite lookup_insert_ne in E by (intros ->; set_solver). by apply (Hblank x).
  - intros x [->|Hx]%lookup_insert_is_Some'; [done|by apply Haddr].
Qed.
End Contents.

(** ** The ring and the list of chunks *)
Lemma ring_frame nx pv nx' pv' m rest : ring nx pv m rest -> (forall x, x ∈ m :: rest -> nx' x = nx x) ->
  (forall x, x ∈ m :: rest -> pv' x = pv x) -> ring nx' pv' m rest.
Proof.
  intros [C Hnd] Hn Hp. split; [|done]. eapply chain_frame; [done| |].
  - intros x Hx. apply Hn. by rewrite app_comm_cons, removelast_snoc in Hx.
  - intros x Hx. apply Hp. cbn in Hx. set_solver.
Qed.

Lemma nextf_None s a : nextf s a = None <-> chunks s !! a = None.
Proof. unfold nextf. apply fmap_None. Qed.

Lemma nextf_free s c x : x <> c -> nextf (zend_mm_chunk_free s c) x = nextf s x.
Proof. intros Hx. unfold nextf, zend_mm_chunk_free. cbn. by rewrite lookup_delete_ne. Qed.
Lemma prevf_free s c x : x <> c -> prevf (zend_mm_chunk_free s c) x = prevf s x.
Proof. intros Hx. unfold prevf, zend_mm_chunk_free. cbn. by rewrite lookup_delete_ne. Qed.

(** A member of the ring, its links and its neighbours. *)
Lemma ring_member s m r1 c r2 : ring (nextf s) (prevf s) m (r1 ++ c :: r2) -> exists a b c0, chunks s !! c = Some c0 /\ next c0 = b /\ prev c0 = a /\
  nextf s c = Some b /\ prevf s c = Some a /\ a <> c /\ b <> c /\ c ∉ m :: r1 ++ r2 /\ a ∈ m :: r1 ++ r2 /\ b ∈ m :: r1 ++ r2.
Proof.
  intros R. destruct (ring_links _ _ _ _ _ _ R) as (l1 & a & b & l2 & N & Hc & Hnd & Hb & Ha).
  pose proof (nb_a _ _ _ _ _ _ _ N) as Hina. pose proof (nb_b _ _ _ _ _ _ _ N) as Hinb.
  assert (a ∈ m :: r1 ++ r2) by set_solver. assert (b ∈ m :: r1 ++ r2) by set_solver.
  pose proof Hb as Hb'. pose proof Ha as Ha'. apply nextf_Some in Hb as (c0 & E & Eb). apply prevf_Some in Ha as (c0' & E' & Ea).
  assert (c0' = c0) as -> by congruence. exists a, b, c0. split_and!; try done; intros ->; done.
Qed.

(** The two stores that take [c] out of the ring. *)
Lemma unlink_ok s m r1 c r2 a b : ring (nextf s) (prevf s) m (r1 ++ c :: r2) -> (forall x, x ∈ m :: r1 ++ c :: r2 -> is_Some (chunks s !! x)) ->
  nextf s c = Some b -> prevf s c = Some a -> a <> c -> b <> c -> a ∈ m :: r1 ++ r2 -> b ∈ m :: r1 ++ r2 ->
  (exists s1 s2, set_prev s b a = Some s1 /\ set_next s1 a b = Some s2 /\ links_only s s1 /\ links_only s s2 /\
     nextf s1 c = Some b /\ prevf s1 c = Some a /\ nextf s2 c = Some b /\ prevf s2 c = Some a /\ ring (nextf s2) (prevf s2) m (r1 ++ r2) /\
     forall x, x ∉ m :: r1 ++ c :: r2 -> nextf s2 x = nextf s x) /\
  (exists s1 s2, set_next s a b = Some s1 /\ set_prev s1 b a = Some s2 /\ links_only s s1 /\ links_only s s2 /\
     nextf s1 c = Some b /\ prevf s1 c = Some a /\ nextf s2 c = Some b /\ prevf s2 c = Some a /\ ring (nextf s2) (prevf s2) m (r1 ++ r2) /\
     forall x, x ∉ m :: r1 ++ c :: r2 -> nextf s2 x = nextf s x).
Proof.
  intros R Hdom Hb Ha Hac Hbc Hina Hinb.
  assert (Hsub : forall x, x ∈ m :: r1 ++ r2 -> is_Some (chunks s !! x)) by (intros x Hx; apply Hdom; set_solver).
  split.
  - destruct (set_prev_ok s b a (Hsub b Hinb)) as (s1 & E1 & L1 & Hp1 & Hn1).
    destruct (set_next_ok s1 a b) as (s2 & E2 & L2 & Hn2 & Hp2); [rewrite (links_only_dom _ _ _ L1); by apply Hsub|].
    exists s1, s2. split_and!; try done; [by eapply links_only_trans|..]; rewrite ?Hn2, ?Hp2, ?Hn1, ?Hp1, ?decide_False by done; try done.
    + eapply ring_unlink; [exact R|exact Hb|exact Ha|intros x Hx; by rewrite Hn2, Hn1|intros x Hx; by rewrite Hp2, Hp1].
    + intros x Hx. rewrite Hn2, decide_False, Hn1 by (intros ->; set_solver). done.
  - destruct (set_next_ok s a b (Hsub a Hina)) as (s1 & E1 & L1 & Hn1 & Hp1).
    destruct (set_prev_ok s1 b a) as (s2 & E2 & L2 & Hp2 & Hn2); [rewrite (links_only_dom _ _ _ L1); by apply Hsub|].
    exists s1, s2. split_and!; try done; [by eapply links_only_trans|..]; rewrite ?Hn2, ?Hp2, ?Hn1, ?Hp1, ?decide_False by done; try done.
    + eapply ring_unlink; [exact R|exact Hb|exact Ha|intros x Hx; by rewrite Hn2, Hn1|intros x Hx; by rewrite Hp2, Hp1].
    + intros x Hx. rewrite Hn2, Hn1, decide_False by (intros ->; set_solver). done.
Qed.

(** ** Deleting a chunk *)

(** The heap fields that pages do not depend on. *)
Record same_heap (h h' : zend_mm_heap) : Prop := {
  sh_main : main_chunk h' = main_chunk h;
  sh_free_slot : free_slot h' = free_slot h;
  sh_size : size h' = size h;
  sh_limit : limit h' = limit h }.

Lemma same_heap_refl h : same_heap h h.
Proof. by constructor. Qed.
Lemma same_heap_trans h1 h2 h3 : same_heap h1 h2 -> same_heap h2 h3 -> same_heap h1 h3.
Proof. intros [? ? ? ?] [? ? ? ?]. constructor; congruence. Qed.

Lemma count_deletion_ok h : 0 <= last_chunks_delete_count h <= 4 ->
  (chunks_count h =? last_chunks_delete_boundary h) && (4 <=? last_chunks_delete_count h) = false ->
  exists h', count_deletion h = Some h' /\ same_heap h h' /\ cached_chunks h' = cached_chunks h /\ chunks_count h' = chunks_count h /\
    cached_chunks_count h' = cached_chunks_count h /\ 0 <= last_chunks_delete_count h' <= 4.
Proof.
  intros Hd E. unfold count_deletion. destruct (cached_chunks h =? 0); [|exists h; split_and!; try done; lia].
  destruct (chunks_count h =? last_chunks_delete_boundary h); cbn [negb andb] in *.
  - rewrite int_ok by (unfold is_i32; lia). cbn [mbind option_bind]. eexists. split; [done|]. split_and!; try done; cbn; lia.
  - eexists. split; [done|]. split_and!; try done; cbn; lia.
Qed.

(** A state whose heap changes in other places. *)
Lemma nextf_heap s h x : nextf (set_heap s h) x = nextf s x.
Proof. done. Qed.
Lemma contents_heap s h A K R : contents_ok s A K R -> contents_ok (set_heap s h) A K R.
Proof. by apply contents_chunks. Qed.

Lemma retire_chunk_ok s c rest kl R : contents_ok s (main_chunk (heap s) :: rest) (c :: kl) R -> ring (nextf s) (prevf s) (main_chunk (heap s)) rest ->
  linked_list (nextf s) (cached_chunks (heap s)) kl -> chunks_count (heap s) = Z.of_nat (length (main_chunk (heap s) :: rest)) ->
  cached_chunks_count (heap s) = Z.of_nat (length kl) -> chunks_count (heap s) + cached_chunks_count (heap s) + 1 < 2 ^ 31 ->
  0 <= last_chunks_delete_count (heap s) <= 4 ->
  exists s' kl', retire_chunk s c = Some s' /\ pages_ok s' rest kl' R /\ same_heap (heap s) (heap s') /\ slots s' = slots s.
Proof.
  intros Hcont Hring Hcached Hcount Hkcount Hfew Hdel. pose proof (ct_nodup _ _ _ _ Hcont) as Hnd.
  apply NoDup_app in Hnd as (_ & Hdisj & Hnd). apply NoDup_cons in Hnd as [Hck Hnd].
  assert (Hcr : forall x, x ∈ main_chunk (heap s) :: rest -> x <> c) by (intros x Hx ->; apply (Hdisj _ Hx); set_solver).
  assert (Hs : is_Some (chunks s !! c)) by (apply (ct_dom _ _ _ _ Hcont); set_solver).
  unfold retire_chunk. rewrite !int_ok by (unfold is_i32; lia). cbn [mbind option_bind].
  match goal with |- context [orb ?a ?b] => destruct (orb a b) eqn:E end.
  - cbn [mbind option_bind].
    destruct (set_next_ok s c (cached_chunks (heap s)) Hs) as (s1 & -> & L & Hn & Hp). cbn [mbind option_bind].
    eexists _, (c :: kl). split; [done|]. split; [|split; [done|apply L]]. constructor; cbn; try done; try lia.
    + apply contents_heap. by eapply contents_links.
    + eapply ring_frame; [exact Hring|intros x Hx; rewrite <- (decide_False (P := x = c) (Some (cached_chunks (heap s))) (nextf s x)) by auto; apply Hn|intros x Hx; apply Hp].
    + split; [done|]. exists (cached_chunks (heap s)). rewrite nextf_heap, Hn, decide_True by done. split; [done|].
      eapply linked_list_frame; [exact Hcached|]. intros x Hx. rewrite nextf_heap, Hn, decide_False; [done|by intros ->].
  - apply orb_false_iff in E as [_ E].
    match goal with |- context [count_deletion ?h0] => destruct (count_deletion_ok h0 Hdel E) as (h & -> & SH & Ec & En & Ek & Hd) end.
    cbn [mbind option_bind]. cbn in Ec, En, Ek. destruct SH as [SH1 SH2 SH3 SH4]. cbn in SH1, SH2, SH3, SH4.
    destruct Hs as [c0 E0]. rewrite E0. cbn [mbind option_bind]. rewrite Ec.
    (* the chunk is freed *)
    assert (Hgo : pages_ok (zend_mm_chunk_free (set_heap s h) c) rest kl R).
    { constructor; cbn; rewrite ?SH1, ?Ec, ?En, ?Ek; try done; try lia.
      - by apply contents_free, contents_heap.
      - eapply ring_frame; [exact Hring|intros x Hx; by rewrite nextf_free by auto|intros x Hx; by rewrite prevf_free by auto].
      - eapply linked_list_frame; [exact Hcached|]. intros x Hx. by rewrite nextf_free by (intros ->; done). }
    assert (Hdone : exists s' kl', Some (zend_mm_chunk_free (set_heap s h) c) = Some s' /\ pages_ok s' rest kl' R /\ same_heap (heap s) (heap s') /\ slots s' = slots s).
    { eexists _, kl. split; [done|]. split; [exact Hgo|]. split; [by constructor|done]. }
    destruct (Z.eqb_spec (cached_chunks (heap s)) 0) as [Ez|Hne]; [exact Hdone|].
    destruct kl as [|k kl]; [done|]. destruct Hcached as [Eck (b & Hb & Hkl)]. pose proof Hb as Hb'. apply nextf_Some in Hb' as (k0 & Ek0 & Ekb).
    rewrite Eck, Ek0. cbn [mbind option_bind]. destruct (num k0 <? num c0); [exact Hdone|].
    rewrite Ekb. destruct (set_next_ok s c b) as (s1 & -> & L & Hn & Hp); [by exists c0|]. cbn [mbind option_bind].
    assert (Hkc : k <> c) by (intros ->; set_solver).
    assert (Hkr : forall x, x ∈ main_chunk (heap s) :: rest -> x <> k) by (intros x Hx ->; apply (Hdisj _ Hx); set_solver).
    apply NoDup_cons in Hnd as [Hkk Hnd].
    eexists _, (c :: kl). split; [done|]. split; [|split; [by constructor|apply L]].
    constructor; cbn; rewrite ?SH1, ?En, ?Ek; try done; try lia.
    + apply contents_heap, contents_free. eapply contents_links; [exact L|]. eapply contents_perm; [reflexivity|apply perm_swap|exact Hcont].
    + eapply ring_frame; [exact Hring| |]; intros x Hx.
      * change (nextf (zend_mm_chunk_free s1 k) x = nextf s x). rewrite nextf_free, Hn, decide_False by auto. done.
      * change (prevf (zend_mm_chunk_free s1 k) x = prevf s x). rewrite prevf_free, Hp by auto. done.
    + split; [done|]. exists b. change (nextf (zend_mm_chunk_free s1 k) c = Some b /\ linked_list (nextf (zend_mm_chunk_free s1 k)) b kl).
      rewrite nextf_free, Hn, decide_True by auto. split; [done|]. eapply linked_list_frame; [exact Hkl|]. intros x Hx.
      rewrite nextf_free, Hn, decide_False by (intros ->; set_solver). done.
Qed.

Lemma zend_mm_delete_chunk_ok s r1 c r2 kl R : pages_ok s (r1 ++ c :: r2) kl R -> (forall h, chunks s !! c = Some h -> blank h) ->
  exists s' kl', zend_mm_delete_chunk s c = Some s' /\ pages_ok s' (r1 ++ r2) kl' (delete c R) /\ same_heap (heap s) (heap s') /\ slots s' = slots s.
Proof.
  intros [Hcont Hring Hcached Hcount Hkcount Hfew Hdel] Hblank.
  destruct (ring_member _ _ _ _ _ Hring) as (a & b & c0 & E0 & Eb & Ea & Hb & Ha & Hac & Hbc & Hc & Hina & Hinb).
  assert (Hdom : forall x, x ∈ main_chunk (heap s) :: r1 ++ c :: r2 -> is_Some (chunks s !! x)).
  { intros x Hx. apply (ct_dom _ _ _ _ Hcont), elem_of_app. by left. }
  destruct (unlink_ok _ _ _ _ _ a b Hring Hdom Hb Ha Hac Hbc Hina Hinb) as
    [(s1 & s2 & E1 & E2 & L1 & L2 & Hn1 & Hp1 & Hn2 & Hp2 & Hring2 & Hn2') _].
  unfold zend_mm_delete_chunk. rewrite E0. cbn [mbind option_bind]. rewrite Eb, Ea, E1. cbn [mbind option_bind].
  apply nextf_Some in Hn1 as (c1 & Ec1 & <-). rewrite Ec1. cbn [mbind option_bind].
  apply prevf_Some in Hp1 as (c1' & Ec1' & Ep1). assert (c1' = c1) as -> by congruence. rewrite Ep1, E2. cbn [mbind option_bind].
  rewrite (lo_heap _ _ L2). cbn [length] in Hcount. rewrite length_app in Hcount. cbn in Hcount.
  rewrite int_ok by (unfold is_i32; lia). cbn [mbind option_bind].
  pose proof (ct_nodup _ _ _ _ Hcont) as Hnd. apply NoDup_app in Hnd as (_ & Hdisj & _).
  match goal with |- context [retire_chunk ?st c] => set (s3 := st) end.
  destruct (retire_chunk_ok s3 c (r1 ++ r2) kl (delete c R)) as (s' & kl' & E & P & SH & Hs); try done.
  - apply contents_heap, contents_retire.
    + eapply contents_links; [exact L2|]. eapply contents_perm; [|reflexivity|exact Hcont]. rewrite <- Permutation_middle. apply perm_swap.
    + intros h Eh. destruct (links_only_lookup _ _ _ _ L2 E0) as (c2 & Ec2 & Hpc). assert (c2 = h) as -> by congruence.
      eapply blank_pages; [exact Hpc|by apply Hblank].
  - eapply linked_list_frame; [exact Hcached|]. intros x Hx. apply Hn2'. intros Hx'. by apply (Hdisj x).
  - cbn. rewrite length_app. lia.
  - cbn. lia.
  - exists s', kl'. split; [done|]. split; [done|]. split; [|by rewrite Hs; apply L2].
    eapply same_heap_trans; [|exact SH]. by constructor.
Qed.

(** ** A new chunk, and one moved to the head *)
Lemma set_chunk_nextf s a c c' : chunks s !! a = Some c -> next c' = next c -> prev c' = prev c ->
  (forall x, nextf (set_chunk s a c') x = nextf s x) /\ (forall x, prevf (set_chunk s a c') x = prevf s x).
Proof.
  intros E Hn Hp. unfold nextf, prevf. split; intros x; cbn; (destruct (decide (x = a)) as [->|];
    [rewrite lookup_insert_eq, E; cbn; congruence|by rewrite lookup_insert_ne]).
Qed.

Lemma ring_last s m rest l1 a b l2 : ring (nextf s) (prevf s) m rest -> neighbours m rest [] l1 a b l2 -> b = m /\ l2 = [] /\ prevf s m = Some a.
Proof.
  intros [C _] N. pose proof (ring_list_closed _ _ _ _ _ _ _ N) as El. rewrite app_nil_r in El.
  pose proof (nb_after _ _ _ _ _ _ _ N) as Ea. injection Ea as <- <-. rewrite El in C. apply chain_mid in C as [_ C]. done.
Qed.

Lemma zend_mm_chunk_init_ok s c rest K R : contents_ok s (main_chunk (heap s) :: rest) (c :: K) R -> ring (nextf s) (prevf s) (main_chunk (heap s)) rest ->
  exists s', zend_mm_chunk_init s c = Some s' /\ contents_ok s' (main_chunk (heap s) :: rest ++ [c]) K (<[c := no_runs]> R) /\
    ring (nextf s') (prevf s') (main_chunk (heap s)) (rest ++ [c]) /\ heap s' = heap s /\ slots s' = slots s /\ os s' = os s /\
    (forall x, x ∉ c :: main_chunk (heap s) :: rest -> nextf s' x = nextf s x) /\
    exists cc, chunks s' !! c = Some cc /\ free_tail cc = ZEND_MM_FIRST_PAGE.
Proof.
  intros Hcont Hring. pose proof Hring as [_ Hnd]. set (m := main_chunk (heap s)) in *.
  destruct (ring_neighbours m rest []) as (l1 & a & b & l2 & N); [by rewrite app_nil_r|].
  destruct (ring_last _ _ _ _ _ _ _ Hring N) as (-> & -> & Hpm). pose proof (nb_a _ _ _ _ _ _ _ N) as Hina.
  pose proof (ct_nodup _ _ _ _ Hcont) as Hnd'. apply NoDup_app in Hnd' as (_ & Hdisj & _).
  assert (Hc : c ∉ m :: rest) by (intros Hin; apply (Hdisj _ Hin); set_solver).
  assert (Hcm : c <> m) by set_solver. assert (Hca : c <> a) by (intros ->; done).
  assert (Hdom : forall x, x ∈ c :: m :: rest -> is_Some (chunks s !! x)) by (intros x Hx; apply (ct_dom _ _ _ _ Hcont); set_solver).
  unfold zend_mm_chunk_init. fold m.
  destruct (set_next_ok s c m) as (s1 & -> & L1 & Hn1 & Hp1); [apply Hdom; set_solver|]. cbn [mbind option_bind]. rewrite (lo_heap _ _ L1). fold m.
  assert (Hpm1 : prevf s1 m = Some a) by by rewrite Hp1. apply prevf_Some in Hpm1 as (m1 & -> & Ex). cbn [mbind option_bind]. rewrite Ex. clear Ex.
  destruct (set_prev_ok s1 c a) as (s2 & -> & L2 & Hp2 & Hn2); [rewrite (links_only_dom _ _ _ L1); apply Hdom; set_solver|]. cbn [mbind option_bind].
  assert (Hpc2 : prevf s2 c = Some a) by by rewrite Hp2, decide_True. apply prevf_Some in Hpc2 as (c2 & -> & Ex). cbn [mbind option_bind]. rewrite Ex. clear Ex.
  pose proof (links_only_trans _ _ _ L1 L2) as L12.
  destruct (set_next_ok s2 a c) as (s3 & -> & L3 & Hn3 & Hp3); [rewrite (links_only_dom _ _ _ L12); apply Hdom; set_solver|]. cbn [mbind option_bind].
  assert (Hnc3 : nextf s3 c = Some m) by by rewrite Hn3, decide_False, Hn2, Hn1, decide_True.
  apply nextf_Some in Hnc3 as (c3 & -> & Ex). cbn [mbind option_bind]. rewrite Ex. clear Ex. pose proof (links_only_trans _ _ _ L12 L3) as L123.
  destruct (set_prev_ok s3 m c) as (s4 & -> & L4 & Hp4 & Hn4); [rewrite (links_only_dom _ _ _ L123); apply Hdom; set_solver|]. cbn [mbind option_bind].
  pose proof (links_only_trans _ _ _ L123 L4) as L. 
  assert (Hpc4 : prevf s4 c = Some a) by by rewrite Hp4, decide_False, Hp3, Hp2, decide_True.
  assert (Hnc4 : nextf s4 c = Some m) by by rewrite Hn4, Hn3, decide_False, Hn2, Hn1, decide_True.
  pose proof Hpc4 as Hpc4'. apply prevf_Some in Hpc4' as (c4 & Ec4 & Ep4). rewrite Ec4. cbn [mbind option_bind]. rewrite Ep4.
  destruct (proj2 (links_only_dom s s4 a L)) as [a4 ->]; [apply Hdom; set_solver|]. cbn [mbind option_bind].
  assert (Hcont4 : contents_ok s4 (m :: rest) (c :: K) R) by by eapply contents_links.
  destruct (init_pages_ok c4) as (c5 & -> & C5 & En5 & Ep5 & Et5); [apply (ct_blank _ _ _ _ Hcont4 c); [set_solver|done]|]. cbn [mbind option_bind].
  match goal with |- context [set_chunk s4 c ?x] => set (c6 := x) end.
  destruct (set_chunk_nextf s4 c c4 c6 Ec4 En5 Ep5) as [Hn6 Hp6].
  eexists. split; [done|]. split_and!; try apply L.
  - eapply contents_perm; [|reflexivity|apply contents_use; [exact Hcont4|by apply (chunk_ok_pages c5)]].
    change (m :: rest ++ [c]) with ((m :: rest) ++ [c]). apply Permutation_cons_append.
  - apply (ring_insert (nextf s) (prevf s) _ _ m rest c [] l1 a m []); rewrite ?app_nil_r, ?Hn6, ?Hp6; try done.
    + intros x Hx. rewrite Hn6, Hn4, Hn3, Hn2, Hn1. by rewrite (decide_False (P := x = c)).
    + intros x Hx. rewrite Hp6, Hp4, Hp3, Hp2, Hp1. by rewrite (decide_False (P := x = c)).
  - intros x Hx. rewrite Hn6, Hn4, Hn3, Hn2, Hn1, !decide_False by (intros ->; set_solver). done.
  - exists c6. cbn. by rewrite lookup_insert_eq.
Qed.

Lemma move_to_head_ok s r1 c r2 K R : contents_ok s (main_chunk (heap s) :: r1 ++ c :: r2) K R ->
  ring (nextf s) (prevf s) (main_chunk (heap s)) (r1 ++ c :: r2) ->
  exists s', move_to_head s c = Some s' /\ links_only s s' /\ ring (nextf s') (prevf s') (main_chunk (heap s)) (c :: r1 ++ r2) /\
    forall x, x ∉ main_chunk (heap s) :: r1 ++ c :: r2 -> nextf s' x = nextf s x.
Proof.
  intros Hcont Hring. set (m := main_chunk (heap s)) in *.
  destruct (ring_member _ _ _ _ _ Hring) as (a & b & c0 & E0 & Eb & Ea & Hb & Ha & Hac & Hbc & Hc & Hina & Hinb).
  assert (Hdom : forall x, x ∈ m :: r1 ++ c :: r2 -> is_Some (chunks s !! x)).
  { intros x Hx. apply (ct_dom _ _ _ _ Hcont), elem_of_app. by left. }
  destruct (unlink_ok _ _ _ _ _ a b Hring Hdom Hb Ha Hac Hbc Hina Hinb) as
    [_ (s1 & s2 & E1 & E2 & L1 & L2 & Hn1 & Hp1 & Hn2 & Hp2 & Hring2 & Hn2')].
  unfold move_to_head. rewrite E0. cbn [mbind option_bind]. rewrite Eb, Ea, E1. cbn [mbind option_bind].
  apply nextf_Some in Hn1 as (c1 & Ec1 & En1). rewrite Ec1. cbn [mbind option_bind].
  apply prevf_Some in Hp1 as (c1' & Ec1' & Ep1). assert (c1' = c1) as -> by congruence. rewrite En1, Ep1, E2. cbn [mbind option_bind].
  rewrite (lo_heap _ _ L2). fold m. pose proof Hring2 as [Hch2 Hnd2].
  destruct (ring_neighbours m [] (r1 ++ r2) Hnd2) as (l1 & a' & b' & l2 & N). pose proof (nb_before _ _ _ _ _ _ _ N) as Eb1.
  destruct l1 as [|x0 [|]]; [injection Eb1 as <-|done|done].
  assert (Hnm : nextf s2 m = Some b').
  { pose proof (ring_list_closed _ _ _ _ _ _ _ N) as El. cbn [app] in El. rewrite El in Hch2. by apply (chain_mid _ _ [] m b' l2) in Hch2 as [? _]. }
  pose proof (nb_b _ _ _ _ _ _ _ N) as Hinb'.
  apply nextf_Some in Hnm as (m2 & -> & Enm). cbn [mbind option_bind]. rewrite Enm.
  assert (Hcm : c <> m) by set_solver. assert (Hcb' : c <> b') by (intros ->; done).
  destruct (set_next_ok s2 c b') as (s3 & -> & L3 & Hn3 & Hp3); [rewrite (links_only_dom _ _ _ L2); by eexists|]. cbn [mbind option_bind].
  pose proof (links_only_trans _ _ _ L2 L3) as L23. rewrite (lo_heap _ _ L23). fold m.
  destruct (set_prev_ok s3 c m) as (s4 & -> & L4 & Hp4 & Hn4); [rewrite (links_only_dom _ _ _ L23); by eexists|]. cbn [mbind option_bind].
  pose proof (links_only_trans _ _ _ L23 L4) as L24.
  assert (Hpc4 : prevf s4 c = Some m) by by rewrite Hp4, decide_True. apply prevf_Some in Hpc4 as (c4 & -> & Ex). cbn [mbind option_bind]. rewrite Ex. clear Ex.
  destruct (set_next_ok s4 m c) as (s5 & -> & L5 & Hn5 & Hp5); [rewrite (links_only_dom _ _ _ L24); apply Hdom; set_solver|]. cbn [mbind option_bind].
  pose proof (links_only_trans _ _ _ L24 L5) as L25.
  assert (Hnc5 : nextf s5 c = Some b') by by rewrite Hn5, decide_False, Hn4, Hn3, decide_True.
  apply nextf_Some in Hnc5 as (c5 & -> & Ex). cbn [mbind option_bind]. rewrite Ex. clear Ex.
  destruct (set_prev_ok s5 b' c) as (s6 & -> & L6 & Hp6 & Hn6); [rewrite (links_only_dom _ _ _ L25); apply Hdom; set_solver|].
  eexists. split; [done|]. split; [by eapply links_only_trans|]. split.
  - apply (ring_insert (nextf s2) (prevf s2) _ _ m [] c (r1 ++ r2) [] m b' l2); try done.
    + by rewrite Hn6, Hn5, decide_False, Hn4, Hn3, decide_True.
    + by rewrite Hp6, decide_False, Hp5, Hp4, decide_True.
    + intros x Hx. rewrite Hn6, Hn5, Hn4, Hn3. by rewrite (decide_False (P := x = c)).
    + intros x Hx. rewrite Hp6, Hp5, Hp4, Hp3. by rewrite (decide_False (P := x = c)).
  - intros x Hx. rewrite Hn6, Hn5, Hn4, Hn3, !decide_False by (intros ->; set_solver). by apply Hn2'.
Qed.

(** ** Finding pages *)
Lemma pages_put s rest kl R a c c' runs : pages_ok s rest kl R -> a ∈ main_chunk (heap s) :: rest -> chunks s !! a = Some c ->
  next c' = next c -> prev c' = prev c -> chunk_ok c' runs -> pages_ok (set_chunk s a c') rest kl (<[a := runs]> R).
Proof.
  intros [Hcont Hring Hcached Hcount Hkcount Hfew Hdel] Ha E En Ep C. destruct (set_chunk_nextf s a c c' E En Ep) as [Hn Hp].
  constructor; try done.
  - by apply contents_put.
  - eapply ring_frame; [exact Hring|intros x Hx; apply Hn|intros x Hx; apply Hp].
  - eapply linked_list_frame; [exact Hcached|]. intros x Hx. apply Hn.
Qed.

Lemma available_put s a c c' : chunks s !! a = Some c -> available s -> available (set_chunk s a c').
Proof.
  intros E [Hk|(Hlim & Hfew & p & rest & Eo & Hp & En)]; [by left|right]. split_and!; [done|done|]. exists p, rest. split_and!; [done|done|].
  cbn. rewrite lookup_insert_ne; [done|]. intros ->. congruence.
Qed.

(** The runs of a chunk; a chunk that is not in use yet has none. *)
Definition runs_of (R : gmap Z (gmap Z run_kind)) (chunk : Z) : gmap Z run_kind := default no_runs (R !! chunk).

(** A place for [n] pages in [chunk]. *)
Definition found (s : mm) (R : gmap Z (gmap Z run_kind)) (chunk p n : Z) : Prop :=
  exists c, chunks s !! chunk = Some c /\ fits (runs_of R chunk) p n /\ (p + n <= free_tail c \/ p = free_tail c).

Lemma fits_none n : 1 <= n < ZEND_MM_PAGES -> fits no_runs ZEND_MM_FIRST_PAGE n.
Proof.
  change ZEND_MM_PAGES with 512. intros Hn. split_and!; unfold ZEND_MM_FIRST_PAGE; change ZEND_MM_PAGES with 512; try lia.
  intros q Hq. rewrite taken_none. lia.
Qed.

Lemma get_chunk_ok s rest kl R : pages_ok s rest kl R -> available s ->
  exists c s' kl', get_chunk (get_chunk_fuel s) s = Some (Some c, s') /\ contents_ok s' (main_chunk (heap s) :: rest) (c :: kl') R /\
    ring (nextf s') (prevf s') (main_chunk (heap s)) rest /\ linked_list (nextf s') (cached_chunks (heap s')) kl' /\
    same_heap (heap s) (heap s') /\ slots s' = slots s /\ chunks_count (heap s') = chunks_count (heap s) /\
    cached_chunks_count (heap s') = Z.of_nat (length kl') /\ chunks_count (heap s) + Z.of_nat (length kl') + 1 < 2 ^ 31 /\
    last_chunks_delete_count (heap s') = last_chunks_delete_count (heap s).
Proof.
  intros [Hcont Hring Hcached Hcount Hkcount Hfew Hdel] Hav. unfold get_chunk_fuel. cbn [get_chunk].
  destruct (Z.eqb_spec (cached_chunks (heap s)) 0) as [Ez|Hne]; cbn [negb].
  - destruct Hav as [?|(Hlim & Hfew' & p & os' & Eo & Hp & En)]; [done|]. rewrite (proj2 (Z.ltb_ge _ _)) by done.
    destruct (contents_alloc s p os' _ _ _ Hcont Eo Hp En) as (s1 & E1 & Hcont1 & Hh1 & Hs1 & Hp0 & Hother).
    unfold chunk_from_system. rewrite E1, (proj2 (Z.eqb_neq _ _)) by done. cbn [negb]. eexists p, _, kl. split; [done|].
    assert (Hdisj : forall x, is_Some (chunks s !! x) -> x <> p) by (intros x [? Hx] ->; congruence).
    assert (Hn : forall x, is_Some (chunks s !! x) -> nextf s1 x = nextf s x) by (intros x Hx; unfold nextf; by rewrite Hother by auto).
    assert (Hpv : forall x, is_Some (chunks s !! x) -> prevf s1 x = prevf s x) by (intros x Hx; unfold prevf; by rewrite Hother by auto).
    pose proof (ct_dom _ _ _ _ Hcont) as Hdom.
    split_and!; cbn; rewrite ?Hh1; try done; try lia.
    + by apply contents_heap.
    + eapply ring_frame; [exact Hring|intros x Hx; apply Hn|intros x Hx; apply Hpv]; apply Hdom, elem_of_app; by left.
    + eapply linked_list_frame; [exact Hcached|]. intros x Hx. apply Hn, Hdom, elem_of_app. by right.
  - destruct kl as [|k kl]; [done|]. destruct Hcached as [Ek (b & Hb & Hkl)]. cbn [length] in Hkcount.
    rewrite int_ok by (unfold is_i32; lia). cbn [mbind option_bind]. apply nextf_Some in Hb as (k0 & Ek0 & <-). rewrite Ek, Ek0. cbn [mbind option_bind].
    eexists k, _, kl. split; [done|]. split_and!; cbn; try done; try lia. by apply contents_heap.
Qed.

Lemma new_chunk_ok s rest kl R n : pages_ok s rest kl R -> available s -> 1 <= n < ZEND_MM_PAGES ->
  exists c s' kl', new_chunk s = Some (Some (c, ZEND_MM_FIRST_PAGE), s') /\ pages_ok s' (rest ++ [c]) kl' (<[c := no_runs]> R) /\ R !! c = None /\
    found s' R c ZEND_MM_FIRST_PAGE n /\ same_heap (heap s) (heap s') /\ slots s' = slots s.
Proof.
  intros P Hav Hn. destruct (get_chunk_ok s rest kl R P Hav) as (c & s1 & kl1 & E & Hcont & Hring & Hcached & SH & Hs & Hc1 & Hk1 & Hfew & Hd1).
  destruct P as [_ _ _ Hcount _ _ Hdel]. unfold new_chunk. rewrite E. cbn [mbind option_bind]. rewrite Hc1.
  rewrite int_ok by (unfold is_i32; lia). cbn [mbind option_bind]. destruct SH as [SH1 SH2 SH3 SH4].
  match goal with |- context [zend_mm_chunk_init ?st c] => set (s2 := st) end.
  assert (Em : main_chunk (heap s2) = main_chunk (heap s)) by exact SH1.
  destruct (zend_mm_chunk_init_ok s2 c rest kl1 R) as (s3 & -> & Hcont3 & Hring3 & Hh3 & Hs3 & _ & Hn3 & cc & Ecc & Etc).
  { rewrite Em. by apply contents_heap. }
  { by rewrite Em. }
  cbn [mbind option_bind]. exists c, s3, kl1. split; [done|].
  pose proof (ct_nodup _ _ _ _ Hcont) as Hnd. apply NoDup_app in Hnd as (_ & Hdisj & Hnd). apply NoDup_cons in Hnd as [Hck Hnd].
  assert (Hcn : R !! c = None).
  { apply eq_None_not_Some. intros Hc. apply (ct_runs _ _ _ _ Hcont) in Hc. apply (Hdisj _ Hc). set_solver. }
  split; [|split; [done|split; [|split; [constructor; rewrite Hh3; done|by rewrite Hs3]]]].
  - constructor; rewrite ?Hh3; cbn -[Z.of_nat]; rewrite ?SH1; try done; try lia.
    + by rewrite <- Em.
    + by rewrite <- Em.
    + eapply linked_list_frame; [exact Hcached|]. intros x Hx. rewrite Hn3; [done|]. rewrite Em. intros Hin.
      apply elem_of_cons in Hin as [->|Hin]; [done|]. apply (Hdisj _ Hin). set_solver.
    + cbn in Hcount. rewrite length_app. cbn. lia.
  - exists cc. split; [done|]. unfold runs_of. rewrite Hcn. cbn. split; [by apply fits_none|by right].
Qed.

Lemma ring_next s m rest l1 c l2 : ring (nextf s) (prevf s) m rest -> m :: rest = l1 ++ c :: l2 ->
  nextf s c = Some (match l2 with [] => m | x :: _ => x end).
Proof.
  intros [C _] E. rewrite app_comm_cons, E, <- app_assoc in C. cbn [app] in C. destruct l2 as [|x l2]; by apply (chain_mid _ _ l1) in C as [? _].
Qed.

(** One chunk is searched. *)
Lemma search_step s rest kl R chunk n : pages_ok s rest kl R -> available s -> 1 <= n -> chunk ∈ main_chunk (heap s) :: rest ->
  exists c r c', chunks s !! chunk = Some c /\ search_chunk c n = Some (r, c') /\ next c' = next c /\
    R !! chunk = Some (runs_of R chunk) /\ pages_ok (set_chunk s chunk c') rest kl R /\ available (set_chunk s chunk c') /\
    (forall p, r = Some p -> found (set_chunk s chunk c') R chunk p n).
Proof.
  intros P Hav Hn Hin. pose proof P as [Hcont _ _ _ _ _ _].
  destruct (proj2 (ct_dom _ _ _ _ Hcont chunk)) as [c E]; [apply elem_of_app; by left|].
  destruct (ct_active _ _ _ _ Hcont chunk c Hin E) as (runs & Er & C).
  destruct (search_chunk_ok c runs C n Hn) as (r & c' & Es & C' & Ec' & Hr). exists c, r, c'.
  assert (Hruns : runs_of R chunk = runs) by (unfold runs_of; by rewrite Er).
  assert (Enx : next c' = next c) by by rewrite Ec'. assert (Epv : prev c' = prev c) by by rewrite Ec'.
  split_and!; [done..|by rewrite Hruns| |by eapply available_put|].
  - rewrite <- (insert_id R chunk runs Er). by apply (pages_put s rest kl R chunk c).
  - intros p ->. destruct Hr as [(len & [(Hp & _ & Hle & Hf) _] & Hl & _) Hpt]. exists c'. cbn. rewrite lookup_insert_eq.
    split; [done|]. rewrite Hruns. split; [|by left]. split_and!; [done|done|lia|]. intros q Hq. apply Hf. lia.
Qed.

(** The search goes on from [chunk], which comes after [l1] in the ring. *)
Lemma find_pages_ok fuel : forall s rest kl R chunk l1 l2 n, pages_ok s rest kl R -> available s -> 1 <= n < ZEND_MM_PAGES ->
  main_chunk (heap s) :: rest = l1 ++ chunk :: l2 -> (length l2 < fuel)%nat ->
  exists s' rest' kl' c p steps', find_pages fuel s chunk n (Z.of_nat (length l1)) = Some (Some (c, p), steps', s') /\
    pages_ok s' rest' kl' (<[c := runs_of R c]> R) /\ found s' R c p n /\ same_heap (heap s) (heap s') /\ slots s' = slots s /\
    (0 < steps' -> c ∈ rest').
Proof.
  induction fuel as [|fuel IH]; intros s rest kl R chunk l1 l2 n P Hav Hn El Hfuel; [lia|]. cbn [find_pages].
  assert (Hin : chunk ∈ main_chunk (heap s) :: rest) by (rewrite El; set_solver).
  destruct (search_step s rest kl R chunk n P Hav ltac:(lia) Hin) as (c & r & c' & E & Esr & Enx & Er & P' & Hav' & Hr).
  rewrite E. cbn [mbind option_bind]. rewrite Esr. cbn [mbind option_bind].
  pose proof P as [_ Hring _ Hcount Hkc Hfew _]. pose proof (ring_next _ _ _ _ _ _ Hring El) as Hnx. apply nextf_Some in Hnx as (c0 & E0 & Hnx).
  assert (c0 = c) as -> by congruence. rewrite Enx, Hnx. pose proof Hring as [_ Hnd].
  assert (Hlen : length (main_chunk (heap s) :: rest) = (length l1 + S (length l2))%nat) by by rewrite El, length_app.
  destruct r as [p|].
  - do 6 eexists. split; [done|]. split; [by rewrite (insert_id R chunk)|]. split; [by apply Hr|]. split; [apply same_heap_refl|]. split; [done|].
    intros Hs. destruct l1 as [|x l1]; [cbn in Hs; lia|]. injection El as _ ->. apply elem_of_app. right. apply elem_of_cons. by left.
  - destruct l2 as [|c2 l2].
    + change (heap (set_chunk s chunk c')) with (heap s). rewrite Z.eqb_refl.
      destruct (new_chunk_ok _ rest kl R n P' Hav' Hn) as (a & s2 & kl2 & -> & P2 & Ha & Hf & SH & Hs2). cbn [mbind option_bind].
      do 6 eexists. split; [done|]. unfold runs_of at 1. rewrite Ha. cbn [default]. split; [exact P2|]. split; [exact Hf|]. split; [exact SH|]. split; [exact Hs2|]. intros _. apply elem_of_app. right. by apply list_elem_of_singleton.
    + change (heap (set_chunk s chunk c')) with (heap s).
      assert (Hne : c2 <> main_chunk (heap s)).
      { intros ->. rewrite El in Hnd. destruct l1 as [|x l1]; injection El as <- ->; apply NoDup_cons in Hnd as [Hx _]; set_solver. }
      rewrite (proj2 (Z.eqb_neq _ _)) by done. cbn in Hcount, Hlen. rewrite int_ok by (unfold is_i32; lia). cbn [mbind option_bind].
      destruct (IH (set_chunk s chunk c') rest kl R c2 (l1 ++ [chunk]) l2 n P' Hav' Hn) as (s2 & rest2 & kl2 & a & p & st & E2 & P2 & Hf & SH & Hs2 & Hst).
      { cbn. rewrite El, <- app_assoc. done. }
      { cbn in Hfuel. lia. }
      rewrite length_app in E2. cbn [length] in E2. replace (Z.of_nat (length l1 + 1)) with (Z.of_nat (length l1) + 1) in E2 by lia.
      rewrite E2. do 6 eexists. split; [done|]. split_and!; try done.
Qed.

Lemma mark_run_links c p n c' : mark_run c p n = Some c' -> next c' = next c /\ prev c' = prev c.
Proof.
  unfold mark_run. destruct (zend_mm_bitset_set_range _ _ _); [|done]. cbn [mbind option_bind].
  destruct (aset _ _ _); [|done]. cbn [mbind option_bind]. by intros [= <-].
Qed.

Lemma release_run_links c p n c' : release_run c p n = Some c' -> next c' = next c /\ prev c' = prev c.
Proof.
  unfold release_run. destruct (zend_mm_bitset_reset_range _ _ _); [|done]. cbn [mbind option_bind].
  destruct (aset _ _ _); [|done]. cbn [mbind option_bind]. by intros [= <-].
Qed.

(** Some chunk gets one more run. *)
Lemma zend_mm_alloc_pages_ok s rest kl R n : pages_ok s rest kl R -> available s -> 1 <= n < ZEND_MM_PAGES ->
  exists s' rest' kl' c p, zend_mm_alloc_pages s n = Some (Ptr (ZEND_MM_PAGE_ADDR c p), s') /\ fits (runs_of R c) p n /\
    pages_ok s' rest' kl' (<[c := <[p := LargeRun n]> (runs_of R c)]> R) /\ c ∈ main_chunk (heap s') :: rest' /\
    same_heap (heap s) (heap s') /\ slots s' = slots s.
Proof.
  intros P Hav Hn. pose proof P as [Hcont Hring _ _ _ _ _]. unfold zend_mm_alloc_pages.
  destruct (find_pages_ok (S (base.size (chunks s))) s rest kl R (main_chunk (heap s)) [] rest n P Hav Hn) as
    (s1 & rest1 & kl1 & c & p & steps & E & P1 & (cc & Ecc & Hfit & Ht) & SH & Hs & Hst); [done| |].
  { pose proof (ct_nodup _ _ _ _ Hcont) as Hnd. apply NoDup_app in Hnd as (Hnd & _).
    assert (Hsz : (base.size (list_to_set (main_chunk (heap s) :: rest) : gset Z) <= base.size (dom (chunks s)))%nat).
    { apply subseteq_size. intros x Hx. rewrite elem_of_list_to_set in Hx. apply elem_of_dom, (ct_dom _ _ _ _ Hcont), elem_of_app. by left. }
    rewrite size_list_to_set, size_dom in Hsz by done. cbn in Hsz. lia. }
  cbn [length] in E. change (Z.of_nat 0) with 0 in E. rewrite E. cbn [mbind option_bind].
  assert (Hgo : exists s2 rest2, (if (2 <? steps) && (n <? 8) then move_to_head s1 c else Some s1) = Some s2 /\
    pages_ok s2 rest2 kl1 (<[c := runs_of R c]> R) /\ same_heap (heap s1) (heap s2) /\ slots s2 = slots s1 /\
    exists c2, chunks s2 !! c = Some c2 /\ free_tail c2 = free_tail cc).
  { destruct (_ && _) eqn:Em.
    - apply andb_true_iff in Em as [Hsteps%Z.ltb_lt _]. destruct (list_elem_of_split _ _ (Hst ltac:(lia))) as (r1 & r2 & ->).
      pose proof P1 as [Hcont1 Hring1 Hcached1 Hcount1 Hkc1 Hfew1 Hd1].
      destruct (move_to_head_ok s1 r1 c r2 kl1 _ Hcont1 Hring1) as (s2 & E2 & L & Hring2 & Hn2). exists s2, (c :: r1 ++ r2). split; [done|].
      pose proof (lo_heap _ _ L) as Hh. split; [|split; [rewrite Hh; apply same_heap_refl|split; [apply L|]]].
      + constructor; rewrite ?Hh; try done.
        * eapply contents_perm; [|reflexivity|eapply contents_links; [exact L|exact Hcont1]]. by rewrite <- Permutation_middle.
        * eapply linked_list_frame; [exact Hcached1|]. intros x Hx. apply Hn2. intros Hin.
          pose proof (ct_nodup _ _ _ _ Hcont1) as Hnd. apply NoDup_app in Hnd as (_ & Hdisj & _). by apply (Hdisj x).
        * rewrite Hcount1. cbn. rewrite !length_app. cbn. lia.
      + destruct (links_only_lookup _ _ _ _ L Ecc) as (c2 & Ec2 & [= _ Et _ _]). by exists c2.
    - exists s1, rest1. split; [done|]. split; [done|]. split; [apply same_heap_refl|]. split; [done|]. by exists cc. }
  destruct Hgo as (s2 & rest2 & -> & P2 & SH2 & Hs2 & c2 & Ec2 & Et). cbn [mbind option_bind]. rewrite Ec2. cbn [mbind option_bind].
  pose proof P2 as [Hcont2 _ _ _ _ _ _]. assert (Hin : c ∈ main_chunk (heap s2) :: rest2) by (apply (ct_runs _ _ _ _ Hcont2); by rewrite lookup_insert_eq).
  destruct (ct_active _ _ _ _ Hcont2 c c2 Hin Ec2) as (runs & Er & C2). rewrite lookup_insert_eq in Er. injection Er as <-.
  destruct (mark_run_ok c2 _ C2 p n Hfit) as (c3 & Em & C3); [by rewrite Et|]. rewrite Em. cbn [mbind option_bind].
  destruct (mark_run_links _ _ _ _ Em) as [En Ep]. do 5 eexists. split; [done|]. split; [done|].
  split; [|split; [done|split; [by eapply same_heap_trans|by cbn; rewrite Hs2]]].
  rewrite <- (insert_insert_eq R c _ (runs_of R c)). by apply (pages_put s2 rest2 kl1 _ c c2).
Qed.

(** A run is taken out of its chunk, and the chunk with its last run. *)
Lemma zend_mm_free_pages_ok s rest kl R c p k : pages_ok s rest kl R -> R !! c = Some (runs_of R c) -> runs_of R c !! p = Some k -> p <> 0 ->
  exists s' rest' kl' R', zend_mm_free_pages s c p (run_pages k) = Some s' /\ pages_ok s' rest' kl' R' /\
    (R' = <[c := delete p (runs_of R c)]> R \/ R' = delete c R /\ forall q k', delete p (runs_of R c) !! q = Some k' -> q = 0) /\
    same_heap (heap s) (heap s') /\ slots s' = slots s.
Proof.
  intros P Er Ek Hp. pose proof P as [Hcont _ _ _ _ _ _]. assert (Hin : c ∈ main_chunk (heap s) :: rest) by (apply (ct_runs _ _ _ _ Hcont); by rewrite Er).
  destruct (proj2 (ct_dom _ _ _ _ Hcont c)) as [c0 E]; [apply elem_of_app; by left|].
  destruct (ct_active _ _ _ _ Hcont c c0 Hin E) as (runs & Er' & C). assert (runs = runs_of R c) as -> by congruence.
  unfold zend_mm_free_pages, zend_mm_free_pages_ex. rewrite E. cbn [mbind option_bind].
  destruct (release_run_ok c0 _ C p k Ek Hp) as (c1 & Em & C1). rewrite Em. cbn [mbind option_bind].
  destruct (release_run_links _ _ _ _ Em) as [En Ep]. pose proof (pages_put s rest kl R c c0 c1 _ P Hin E En Ep C1) as P1.
  destruct (_ && _) eqn:Ec.
  - apply andb_true_iff in Ec as [Hne Hfree]. cbn in Hne. apply negb_true_iff, Z.eqb_neq in Hne. apply Z.eqb_eq in Hfree.
    destruct (all_free _ _ C1 Hfree) as [Hblank Hnone].
    apply elem_of_cons in Hin as [?|Hin]; [done|]. destruct (list_elem_of_split _ _ Hin) as (r1 & r2 & ->).
    destruct (zend_mm_delete_chunk_ok _ _ _ _ _ _ P1) as (s' & kl' & -> & P' & SH & Hs).
    { intros h Eh. cbn in Eh. rewrite lookup_insert_eq in Eh. by injection Eh as <-. }
    rewrite delete_insert_eq in P'. do 4 eexists. split; [done|]. split; [exact P'|]. split; [by right|]. split; [exact SH|exact Hs].
  - do 4 eexists. split; [done|]. split; [exact P1|]. split; [by left|]. split; [apply same_heap_refl|done].
Qed.
