(* ===== verification/ZendMmBlocks.v ===== *)
(** * Blocks of the heap ([zend_alloc.c])

    The heap as its users see it: a set of blocks that do not overlap.  A block is a large run or a slot of a
    small run that is not in the list of free slots of its class. *)
From S2P Require Import Prelude ZendMmBitset ZendMmBins ZendMmChunk ZendMmRuns ZendMmHeap ZendMmRing ZendMmPages.

(** ** Addresses *)
Lemma aligned_offset x : ZEND_MM_ALIGNED_OFFSET x ZEND_MM_CHUNK_SIZE = x mod ZEND_MM_CHUNK_SIZE.
Proof. unfold ZEND_MM_ALIGNED_OFFSET. change (ZEND_MM_CHUNK_SIZE - 1) with (Z.ones 21). rewrite Z.land_ones by lia. done. Qed.

Lemma aligned_base x : 0 <= x < 2 ^ 64 -> ZEND_MM_ALIGNED_BASE x ZEND_MM_CHUNK_SIZE = x - x mod ZEND_MM_CHUNK_SIZE.
Proof.
  intros Hx. unfold ZEND_MM_ALIGNED_BASE. change (ZEND_MM_CHUNK_SIZE - 1) with (Z.ones 21).
  replace (x - x mod ZEND_MM_CHUNK_SIZE) with (Z.shiftl (Z.shiftr x 21) 21).
  2:{ rewrite Z.shiftl_mul_pow2, Z.shiftr_div_pow2 by lia. change ZEND_MM_CHUNK_SIZE with (2 ^ 21). pose proof (Z.div_mod x (2 ^ 21)). lia. }
  apply Z.bits_inj'. intros j Hj. rewrite Z.land_spec. unfold u64, uwrap. rewrite Z.shiftl_spec by lia.
  destruct (Z.lt_ge_cases j 64).
  - rewrite Z.mod_pow2_bits_low, Z.lnot_spec by lia. destruct (Z.lt_ge_cases j 21).
    + rewrite Z.ones_spec_low, (Z.testbit_neg_r _ (j - 21)) by lia. apply andb_false_r.
    + rewrite Z.ones_spec_high, Z.shiftr_spec by lia. rewrite andb_true_r. f_equal. lia.
  - rewrite Z.mod_pow2_bits_high by lia. rewrite andb_false_r, Z.shiftr_spec by lia. replace (j - 21 + 21) with j by lia.
    rewrite <- (Z.mod_small x (2 ^ 64)), Z.mod_pow2_bits_high by lia. done.
Qed.

Lemma aligned_parts c off : chunk_addr c -> 0 <= off < ZEND_MM_CHUNK_SIZE ->
  ZEND_MM_ALIGNED_BASE (c + off) ZEND_MM_CHUNK_SIZE = c /\ ZEND_MM_ALIGNED_OFFSET (c + off) ZEND_MM_CHUNK_SIZE = off.
Proof.
  intros (Hc & Hm & Hle) Ho. assert (E : (c + off) mod ZEND_MM_CHUNK_SIZE = off).
  { rewrite <- Z.add_mod_idemp_l, Hm by done. by apply Z.mod_small. }
  rewrite aligned_offset, aligned_base, E by (unfold ZEND_MM_CHUNK_SIZE in *; lia). lia.
Qed.

(** ** Runs and slots *)

(** [k] is a run of chunk [c], at page [p] behind the header. *)
Definition run_in (R : gmap Z (gmap Z run_kind)) (c p : Z) (k : run_kind) : Prop := p <> 0 /\ exists runs, R !! c = Some runs /\ runs !! p = Some k.

(** How runs lie in memory. *)
Record layout (R : gmap Z (gmap Z run_kind)) : Prop := {
  ly_addr : forall c, is_Some (R !! c) -> chunk_addr c;
  ly_runs : forall c runs, R !! c = Some runs -> runs_ok runs }.

Lemma layout_pages s rest kl R : pages_ok s rest kl R -> layout R.
Proof.
  intros [Hcont _ _ _ _ _ _]. assert (Hd : forall c, is_Some (R !! c) -> c ∈ main_chunk (heap s) :: rest /\ is_Some (chunks s !! c)).
  { intros c Hc. apply (ct_runs _ _ _ _ Hcont) in Hc. split; [done|]. apply (ct_dom _ _ _ _ Hcont), elem_of_app. by left. }
  constructor.
  - intros c Hc. apply (ct_addr _ _ _ _ Hcont). by apply Hd.
  - intros c runs E. destruct (Hd c) as [Hin [c0 E0]]; [by eexists|]. destruct (ct_active _ _ _ _ Hcont c c0 Hin E0) as (runs' & E' & C).
    assert (runs' = runs) as -> by congruence. apply C.
Qed.

(** Address [a] is in the pages of the run. *)
Definition in_region (c p : Z) (k : run_kind) (a : Z) : Prop :=
  ZEND_MM_PAGE_ADDR c p <= a < ZEND_MM_PAGE_ADDR c p + ZEND_MM_PAGE_SIZE * run_pages k.

Lemma run_in_range R c p k : layout R -> run_in R c p k -> chunk_addr c /\ 1 <= p /\ 1 <= run_pages k /\ p + run_pages k <= 512.
Proof.
  intros L (Hp & runs & E & Ek). split; [eapply ly_addr; [done|by eexists]|]. pose proof (ro_range _ (ly_runs _ L _ _ E) _ _ Ek).
  change ZEND_MM_PAGES with 512 in *. lia.
Qed.

Lemma in_region_parts c p k a : chunk_addr c -> 1 <= p -> p + run_pages k <= 512 -> in_region c p k a ->
  exists off, a = c + off /\ 0 < off < ZEND_MM_CHUNK_SIZE /\ p <= off / ZEND_MM_PAGE_SIZE < p + run_pages k.
Proof.
  intros Hc Hp Hle H. unfold in_region, ZEND_MM_PAGE_ADDR, ZEND_MM_PAGE_SIZE, ZEND_MM_CHUNK_SIZE in *. exists (a - c).
  split_and!; try lia; [apply Z.div_le_lower_bound; lia|apply Z.div_lt_upper_bound; lia].
Qed.

(** An address is in one run only. *)
Lemma region_unique R c p k c' p' k' a : layout R -> run_in R c p k -> run_in R c' p' k' -> in_region c p k a -> in_region c' p' k' a ->
  c = c' /\ p = p' /\ k = k'.
Proof.
  intros L T T' H H'. destruct (run_in_range _ _ _ _ L T) as (Hc & Hp & Hn & Hle), (run_in_range _ _ _ _ L T') as (Hc' & Hp' & Hn' & Hle').
  destruct (in_region_parts _ _ _ _ Hc Hp Hle H) as (off & Ea & Ho & Hq), (in_region_parts _ _ _ _ Hc' Hp' Hle' H') as (off' & Ea' & Ho' & Hq').
  destruct (aligned_parts c off Hc ltac:(lia)) as [Eb Eo], (aligned_parts c' off' Hc' ltac:(lia)) as [Eb' Eo'].
  assert (c = c') as -> by congruence. assert (off = off') as -> by congruence. destruct T as (_ & runs & E & Ek), T' as (_ & runs' & E' & Ek').
  assert (runs' = runs) as -> by congruence. assert (p = p') as -> by (eapply (runs_unique runs); [by eapply ly_runs|done..]). split_and!; congruence.
Qed.

(** [a] is the [i]th slot of a small run. *)
Record slot_at (R : gmap Z (gmap Z run_kind)) (bin c p i a : Z) : Prop := {
  sl_run : run_in R c p (SmallRun bin);
  sl_slot : exists sz cnt pg, ZEND_MM_BINS_INFO !! Z.to_nat bin = Some (sz, cnt, pg) /\ 0 <= i < cnt /\ a = ZEND_MM_PAGE_ADDR c p + sz * i;
  sl_bin : 0 <= bin < ZEND_MM_BINS }.

Definition is_slot (R : gmap Z (gmap Z run_kind)) (bin a : Z) : Prop := exists c p i, slot_at R bin c p i a.

Lemma slot_region R bin c p i a sz : slot_at R bin c p i a -> aget bin_data_size bin = Some sz ->
  forall x, a <= x < a + sz -> in_region c p (SmallRun bin) x.
Proof.
  intros [_ (sz' & cnt & pg & Er & Hi & ->) Hb] Es x Hx. destruct (bins_row bin Hb) as (s0 & c0 & p0 & Er' & Es' & _ & Ep').
  rewrite Er in Er'. injection Er' as <- <- <-. assert (sz' = sz) as -> by congruence. pose proof (rows_ok _ _ _ _ Er) as (Hsz & _ & _ & Hfit).
  unfold in_region. unfold run_pages. rewrite Ep'. cbn [default]. unfold id. nia.
Qed.

Lemma slot_size R bin c p i a : slot_at R bin c p i a -> exists sz, aget bin_data_size bin = Some sz /\ 8 <= sz.
Proof.
  intros [_ _ Hb]. destruct (bins_row bin Hb) as (sz & cnt & pg & Er & Es & _). pose proof (rows_ok _ _ _ _ Er). exists sz. split; [done|lia].
Qed.

Lemma slot_first R bin c p i a : slot_at R bin c p i a -> in_region c p (SmallRun bin) a.
Proof. intros S. destruct (slot_size _ _ _ _ _ _ S) as (sz & E & H). apply (slot_region _ _ _ _ _ _ sz S E). lia. Qed.

Lemma slot_unique R bin c p i a bin' c' p' i' a' sz sz' x : layout R -> slot_at R bin c p i a -> slot_at R bin' c' p' i' a' ->
  aget bin_data_size bin = Some sz -> aget bin_data_size bin' = Some sz' -> a <= x < a + sz -> a' <= x < a' + sz' -> bin = bin' /\ a = a'.
Proof.
  intros L S S' E E' Hx Hx'.
  destruct (region_unique R c p (SmallRun bin) c' p' (SmallRun bin') x L) as (-> & -> & Eb); [apply S|apply S'|by eapply slot_region..|].
  injection Eb as ->. split; [done|]. destruct S as [_ (s1 & n1 & p1 & R1 & Hi & ->) Hb], S' as [_ (s2 & n2 & p2 & R2 & Hi' & ->) _].
  rewrite R1 in R2. injection R2 as <- <- <-. destruct (bins_row _ Hb) as (s0 & c0 & p0 & Er & Es & _). rewrite R1 in Er. injection Er as <- <- <-.
  assert (s1 = sz) as -> by congruence. assert (sz' = sz) as -> by congruence.
  destruct (Z.lt_trichotomy i i') as [Hlt|[->|Hlt]]; [|done|]; nia.
Qed.

Lemma is_slot_pos R bin a : layout R -> is_slot R bin a -> 0 < a < 2 ^ 64.
Proof.
  intros L (c & p & i & S). pose proof (slot_first _ _ _ _ _ _ S) as H. destruct (run_in_range _ _ _ _ L (sl_run _ _ _ _ _ _ S)) as (Hc & Hp & Hn & Hle).
  destruct (in_region_parts _ _ _ _ Hc Hp Hle H) as (off & -> & Ho & _). destruct Hc. lia.
Qed.

(** ** Blocks *)

(** The bytes of all blocks. *)
Definition total (L : gmap Z Z) : Z := map_fold (fun _ n acc => n + acc) 0 L.

Lemma total_insert L a n : L !! a = None -> total (<[a := n]> L) = n + total L.
Proof. intros H. unfold total. rewrite map_fold_insert_L; [done|intros; lia|done]. Qed.

Lemma total_delete L a n : L !! a = Some n -> total (delete a L) = total L - n.
Proof. intros H. rewrite <- (insert_delete_id L a n H) at 2. rewrite total_insert by apply lookup_delete_eq. lia. Qed.

Section Blocks.
Implicit Types (R : gmap Z (gmap Z run_kind)) (F : Z -> list Z) (L : gmap Z Z).

(** The free slots of every class. *)
Record free_ok (s : mm) R F : Prop := {
  fr_len : length (free_slot (heap s)) = 30%nat;
  fr_list : forall bin p, aget (free_slot (heap s)) bin = Some p -> linked_list (fun x => slots s !! x) p (F bin);
  fr_nodup : forall bin, 0 <= bin < ZEND_MM_BINS -> NoDup (F bin);
  fr_slots : forall bin a, 0 <= bin < ZEND_MM_BINS -> a ∈ F bin -> is_slot R bin a }.

Inductive block R F : Z -> Z -> Prop :=
  | large_block c p m : run_in R c p (LargeRun m) -> block R F (ZEND_MM_PAGE_ADDR c p) (m * ZEND_MM_PAGE_SIZE)
  | small_block bin a sz : is_slot R bin a -> a ∉ F bin -> aget bin_data_size bin = Some sz -> block R F a sz.

(** The state represents the blocks [L]. *)
Definition heap_ok (s : mm) L : Prop :=
  exists rest kl R F, pages_ok s rest kl R /\ free_ok s R F /\ (forall a n, L !! a = Some n <-> block R F a n) /\ size (heap s) = u64 (total L).

(** Every block lies in a run, which determines its kind. *)
Lemma block_region R F a n : layout R -> block R F a n -> 1 <= n /\ exists c p k, run_in R c p k /\ forall x, a <= x < a + n -> in_region c p k x.
Proof.
  intros Ly [c p m T|bin a' sz (c & p & i & S) Hn E].
  - destruct (run_in_range _ _ _ _ Ly T) as (Hc & Hp & Hm & Hle). cbn in Hm. split; [unfold ZEND_MM_PAGE_SIZE; lia|].
    exists c, p, (LargeRun m). split; [done|]. intros x Hx. unfold in_region. cbn. lia.
  - destruct (slot_size _ _ _ _ _ _ S) as (sz' & E' & Hs). assert (sz' = sz) as -> by congruence. split; [lia|].
    exists c, p, (SmallRun bin). split; [apply S|]. intros x Hx. by eapply slot_region.
Qed.

(** Two blocks that share a byte are the same. *)
Lemma blocks_apart R F a n a' n' x : layout R -> block R F a n -> block R F a' n' -> a <= x < a + n -> a' <= x < a' + n' -> a = a' /\ n = n'.
Proof.
  intros Ly B B' Hx Hx'. destruct B as [c p m T|bin a sz (c & p & i & S) Hn E], B' as [c' p' m' T'|bin' a' sz' (c' & p' & i' & S') Hn' E'].
  - destruct (region_unique R c p (LargeRun m) c' p' (LargeRun m') x Ly T T') as (-> & -> & [= ->]); [unfold in_region; cbn; lia..|done].
  - destruct (region_unique R c p (LargeRun m) c' p' (SmallRun bin') x Ly T (sl_run _ _ _ _ _ _ S')) as (_ & _ & [=]); [unfold in_region; cbn; lia|by eapply slot_region].
  - destruct (region_unique R c p (SmallRun bin) c' p' (LargeRun m') x Ly (sl_run _ _ _ _ _ _ S) T') as (_ & _ & [=]); [by eapply slot_region|unfold in_region; cbn; lia].
  - destruct (slot_unique R bin c p i a bin' c' p' i' a' sz sz' x Ly S S' E E' Hx Hx') as [<- <-]. split; [done|congruence].
Qed.

Lemma block_det R F a n n' : layout R -> block R F a n -> block R F a n' -> n = n'.
Proof.
  intros Ly B B'. destruct (block_region _ _ _ _ Ly B) as [Hn _], (block_region _ _ _ _ Ly B') as [Hn' _].
  by apply (blocks_apart R F a n a n' a Ly B B'); lia.
Qed.

(** ** One run more or less *)

(** [R'] has the runs of [R] and [k] in addition. *)
Definition run_added R R' (c p : Z) (k : run_kind) : Prop :=
  forall c' p' k', run_in R' c' p' k' <-> (c' = c /\ p' = p /\ k' = k) \/ run_in R c' p' k'.

Lemma insert_run_in R c p k : p <> 0 -> layout R -> (forall k', ~ run_in R c p k') -> run_added R (<[c := <[p := k]> (runs_of R c)]> R) c p k.
Proof.
  intros Hp Ly Hno c' p' k'. unfold run_in, runs_of. split.
  - intros (Hp' & runs & E & Ek). destruct (decide (c' = c)) as [->|Hne].
    + rewrite lookup_insert_eq in E. injection E as <-. destruct (decide (p' = p)) as [->|Hnp].
      * rewrite lookup_insert_eq in Ek. injection Ek as <-. by left.
      * rewrite lookup_insert_ne in Ek by done. right. split; [done|]. destruct (R !! c) as [runs|]; [by exists runs|].
        cbn in Ek. unfold no_runs in Ek. rewrite lookup_singleton_ne in Ek by done. done.
    + rewrite lookup_insert_ne in E by done. right. split; [done|]. by exists runs.
  - intros [(-> & -> & ->)|(Hp' & runs & E & Ek)].
    + split; [done|]. eexists. rewrite lookup_insert_eq. split; [done|]. by rewrite lookup_insert_eq.
    + split; [done|]. destruct (decide (c' = c)) as [->|Hne].
      * eexists. rewrite lookup_insert_eq. split; [done|]. rewrite E. cbn. rewrite lookup_insert_ne; [done|].
        intros ->. destruct (Hno k'). split; [done|]. by exists runs.
      * exists runs. by rewrite lookup_insert_ne.
Qed.

Lemma fits_no_run R c p n k : layout R -> fits (runs_of R c) p n -> ~ run_in R c p k.
Proof.
  intros Ly (Hp & Hn & Hle & Hf) T. destruct (run_in_range _ _ _ _ Ly T) as (_ & _ & Hk & _). destruct T as (_ & runs & E & Ek).
  apply (Hf p); [lia|]. unfold runs_of. rewrite E. cbn. exists p, k. split; [done|lia].
Qed.

Lemma fits_nonzero R c p n : layout R -> fits (runs_of R c) p n -> p <> 0.
Proof.
  intros Ly Hfit. assert (Ro : runs_ok (runs_of R c)).
  { unfold runs_of. destruct (R !! c) as [runs|] eqn:E; [by eapply ly_runs|apply runs_ok_none]. }
  pose proof (fits_pos _ _ _ Ro Hfit). lia.
Qed.

Lemma slot_added R R' c p k : run_added R R' c p k -> forall bin c' p' i a,
  slot_at R' bin c' p' i a <-> (c' = c /\ p' = p /\ k = SmallRun bin /\ exists sz cnt pg, ZEND_MM_BINS_INFO !! Z.to_nat bin = Some (sz, cnt, pg) /\
     0 <= i < cnt /\ a = ZEND_MM_PAGE_ADDR c p + sz * i /\ 0 <= bin < ZEND_MM_BINS) \/ slot_at R bin c' p' i a.
Proof.
  intros Hadd bin c' p' i a. split.
  - intros [T (sz & cnt & pg & Er & Hi & Ea) Hb]. apply Hadd in T as [(-> & -> & <-)|T]; [|right; constructor; eauto 10].
    left. split_and!; try done. by exists sz, cnt, pg.
  - intros [(-> & -> & -> & sz & cnt & pg & Er & Hi & Ea & Hb)|[T (sz & cnt & pg & Er & Hi & Ea) Hb]].
    + constructor; [apply Hadd; by left|by exists sz, cnt, pg|done].
    + constructor; [apply Hadd; by right|by exists sz, cnt, pg|done].
Qed.

Lemma is_slot_large R R' c p m bin a : run_added R R' c p (LargeRun m) -> is_slot R' bin a <-> is_slot R bin a.
Proof.
  intros Hadd. unfold is_slot. split; intros (c' & p' & i & S); exists c', p', i; rewrite (slot_added _ _ _ _ _ Hadd) in *; naive_solver.
Qed.

(** ** The invariant after an operation *)
Lemma heap_insert s' rest kl R R' F F' L a n : layout R -> pages_ok s' rest kl R' -> free_ok s' R' F' ->
  (forall a n, L !! a = Some n <-> block R F a n) -> (forall b m, block R' F' b m <-> (b = a /\ m = n) \/ block R F b m) ->
  (forall m, ~ block R F a m) -> size (heap s') = u64 (total L + n) -> L !! a = None /\ heap_ok s' (<[a := n]> L).
Proof.
  intros Ly P Fr HL Hb Hno Hs. assert (Hn : L !! a = None).
  { apply eq_None_not_Some. intros [m E]. apply HL in E. by apply (Hno m). }
  split; [done|]. exists rest, kl, R', F'. split_and!; [done|done| |rewrite total_insert by done; rewrite Hs; f_equal; lia].
  intros b m. rewrite Hb. destruct (decide (b = a)) as [->|Hne].
  - rewrite lookup_insert_eq. split; [intros [= ->]; by left|]. intros [[_ ->]|B]; [done|by destruct (Hno m)].
  - rewrite lookup_insert_ne, HL by done. naive_solver.
Qed.

Lemma heap_delete s' rest kl R R' F F' L a n : layout R -> pages_ok s' rest kl R' -> free_ok s' R' F' ->
  (forall a n, L !! a = Some n <-> block R F a n) -> (forall b m, block R' F' b m <-> block R F b m /\ b <> a) ->
  L !! a = Some n -> size (heap s') = u64 (total L - n) -> heap_ok s' (delete a L).
Proof.
  intros Ly P Fr HL Hb E Hs. exists rest, kl, R', F'. split_and!; [done|done| |by rewrite (total_delete _ _ n)].
  intros b m. rewrite Hb, lookup_delete_Some, HL. naive_solver.
Qed.

Lemma free_frame s s' R R' F : free_ok s R F -> free_slot (heap s') = free_slot (heap s) -> slots s' = slots s ->
  (forall bin a, 0 <= bin < ZEND_MM_BINS -> a ∈ F bin -> is_slot R bin a -> is_slot R' bin a) -> free_ok s' R' F.
Proof. intros [Hl Hp Hnd Hs] Ef Es Hsl. constructor; rewrite ?Ef, ?Es; eauto. Qed.

(** ** Large blocks *)
Lemma block_large_added R R' F c p m : run_added R R' c p (LargeRun m) -> forall b n,
  block R' F b n <-> (b = ZEND_MM_PAGE_ADDR c p /\ n = m * ZEND_MM_PAGE_SIZE) \/ block R F b n.
Proof.
  intros Hadd b n. split.
  - intros [c' p' m' T|bin a sz S Hn E].
    + apply Hadd in T as [(-> & -> & [= ->])|T]; [by left|right; by constructor].
    + right. econstructor; [by apply (is_slot_large _ _ _ _ _ _ _ Hadd)|done|done].
  - intros [[-> ->]|[c' p' m' T|bin a sz S Hn E]].
    + constructor. apply Hadd. by left.
    + constructor. apply Hadd. by right.
    + econstructor; [by apply (is_slot_large _ _ _ _ _ _ _ Hadd)|done|done].
Qed.

(** No block begins in a run that is new. *)
Lemma no_block_added R R' F c p k a m : layout R -> layout R' -> run_added R R' c p k -> (forall k', ~ run_in R c p k') -> in_region c p k a ->
  ~ block R F a m.
Proof.
  intros Ly Ly' Hadd Hno Hin B. destruct (block_region _ _ _ _ Ly B) as (Hm & c' & p' & k' & T & Hreg).
  assert (T' : run_in R' c' p' k') by (apply Hadd; by right). assert (T0 : run_in R' c p k) by (apply Hadd; by left).
  destruct (region_unique R' c p k c' p' k' a Ly' T0 T' Hin) as (<- & <- & <-); [apply Hreg; lia|]. by apply (Hno k).
Qed.

Lemma size_to_pages n : 1 <= n <= ZEND_MM_MAX_LARGE_SIZE ->
  1 <= ZEND_MM_SIZE_TO_NUM n ZEND_MM_PAGE_SIZE < ZEND_MM_PAGES /\ n <= ZEND_MM_SIZE_TO_NUM n ZEND_MM_PAGE_SIZE * ZEND_MM_PAGE_SIZE.
Proof.
  intros Hn. change ZEND_MM_MAX_LARGE_SIZE with 2093056 in Hn. change ZEND_MM_PAGES with 512. unfold ZEND_MM_SIZE_TO_NUM, u64, ZEND_MM_PAGE_SIZE.
  rewrite uwrap_small by lia. Z.to_euclidean_division_equations. lia.
Qed.

Lemma u64_add a b : u64 (u64 a + b) = u64 (a + b).
Proof. unfold u64, uwrap. by rewrite Z.add_mod_idemp_l by lia. Qed.
Lemma u64_sub a b : u64 (u64 a - b) = u64 (a - b).
Proof. unfold u64, uwrap. by rewrite Zminus_mod_idemp_l. Qed.

(** The pages depend on the chunks and a few fields of the heap. *)
Lemma pages_frame s s' rest kl R : pages_ok s rest kl R -> chunks s' = chunks s -> main_chunk (heap s') = main_chunk (heap s) ->
  cached_chunks (heap s') = cached_chunks (heap s) -> chunks_count (heap s') = chunks_count (heap s) ->
  cached_chunks_count (heap s') = cached_chunks_count (heap s) -> last_chunks_delete_count (heap s') = last_chunks_delete_count (heap s) ->
  pages_ok s' rest kl R.
Proof.
  intros [Hcont Hring Hcached Hcount Hkc Hfew Hdel] Ec E1 E2 E3 E4 E5.
  assert (Hn : nextf s' = nextf s) by (unfold nextf; by rewrite Ec). assert (Hp : prevf s' = prevf s) by (unfold prevf; by rewrite Ec).
  constructor; rewrite ?E1, ?E2, ?E3, ?E4, ?E5, ?Hn, ?Hp; try done. by apply (contents_chunks s).
Qed.

Lemma zend_mm_alloc_large_ok s L n : heap_ok s L -> available s -> 1 <= n <= ZEND_MM_MAX_LARGE_SIZE ->
  exists a s' sz, zend_mm_alloc_large_ex s n = Some (Ptr a, s') /\ n <= sz /\ L !! a = None /\ heap_ok s' (<[a := sz]> L).
Proof.
  intros (rest & kl & R & F & P & Fr & HL & Hsz) Hav Hn. destruct (size_to_pages n Hn) as [Hpg Hfit]. set (pg := ZEND_MM_SIZE_TO_NUM n ZEND_MM_PAGE_SIZE) in *.
  pose proof (layout_pages _ _ _ _ P) as Ly.
  destruct (zend_mm_alloc_pages_ok s rest kl R pg P Hav Hpg) as (s1 & rest1 & kl1 & c & p & E & Hf & P1 & Hin & [SH1 SH2 SH3 SH4] & Hs1).
  unfold zend_mm_alloc_large_ex. fold pg. rewrite E. cbn [mbind option_bind]. do 3 eexists. split; [done|]. split; [exact Hfit|].
  pose proof (layout_pages _ _ _ _ P1) as Ly1. assert (Hno : forall k', ~ run_in R c p k') by (intros k'; by apply (fits_no_run _ _ _ pg)).
  assert (Hadd : run_added R (<[c := <[p := LargeRun pg]> (runs_of R c)]> R) c p (LargeRun pg)) by (apply insert_run_in; [by apply (fits_nonzero R c p pg)|done|done]).
  eapply (heap_insert _ _ _ R _ F F); [exact Ly|by eapply (pages_frame _ _ _ _ _ P1)| |exact HL|by apply block_large_added| |].
  - eapply free_frame; [exact Fr|exact SH2|exact Hs1|]. intros bin a _ _ S. by apply (is_slot_large _ _ _ _ _ _ _ Hadd).
  - intros m. eapply no_block_added; [exact Ly|exact Ly1|exact Hadd|exact Hno|]. unfold in_region. cbn. unfold ZEND_MM_PAGE_SIZE. lia.
  - cbn. rewrite SH3, Hsz. apply u64_add.
Qed.

(** [R'] has the runs of [R] but one. *)
Definition run_removed R R' (c p : Z) : Prop := forall c' p' k', run_in R' c' p' k' <-> run_in R c' p' k' /\ ~ (c' = c /\ p' = p).

Lemma delete_run_in R R' c p : R !! c = Some (runs_of R c) ->
  (R' = <[c := delete p (runs_of R c)]> R \/ R' = delete c R /\ forall q k', delete p (runs_of R c) !! q = Some k' -> q = 0) -> run_removed R R' c p.
Proof.
  intros Er HR' c' p' k'. unfold run_in. destruct (decide (c' = c)) as [->|Hne].
  - destruct HR' as [->|[-> Hnone]].
    + rewrite lookup_insert_eq, Er. split.
      * intros (Hp' & runs & [= <-] & [Hpp Ek]%lookup_delete_Some). split; [split; [done|by eexists]|naive_solver].
      * intros [(Hp' & runs & [= <-] & Ek) Hno]. split; [done|]. eexists. split; [done|]. apply lookup_delete_Some. split; [|done]. naive_solver.
    + rewrite lookup_delete_eq. split; [intros (_ & ? & ? & _); done|]. intros [(Hp' & runs & E & Ek) Hno]. exfalso. apply Hp', (Hnone p' k').
      apply lookup_delete_Some. split; [naive_solver|]. congruence.
  - assert (E : R' !! c' = R !! c') by (destruct HR' as [->|[-> _]]; [by rewrite lookup_insert_ne|by rewrite lookup_delete_ne]).
    rewrite E. naive_solver.
Qed.

Lemma zend_mm_free_large_ok s L c p m rest kl R F : pages_ok s rest kl R -> free_ok s R F -> (forall a n, L !! a = Some n <-> block R F a n) ->
  size (heap s) = u64 (total L) -> run_in R c p (LargeRun m) ->
  exists s', zend_mm_free_large s c p m = Some s' /\ heap_ok s' (delete (ZEND_MM_PAGE_ADDR c p) L).
Proof.
  intros P Fr HL Hsz T. pose proof T as (Hp & runs & Er & Ek). assert (runs = runs_of R c) as -> by (unfold runs_of; by rewrite Er).
  pose proof (layout_pages _ _ _ _ P) as Ly. unfold zend_mm_free_large.
  match goal with |- context [zend_mm_free_pages ?st c p m] => assert (P0 : pages_ok st rest kl R) by (by eapply (pages_frame _ _ _ _ _ P)) end.
  destruct (zend_mm_free_pages_ok _ rest kl R c p (LargeRun m) P0 Er Ek Hp) as (s' & rest' & kl' & R' & E & P' & HR' & [SH1 SH2 SH3 SH4] & Hs').
  cbn [run_pages] in E. exists s'. split; [exact E|]. pose proof (delete_run_in R R' c p Er HR') as Hrem.
  assert (Hsl : forall bin a, is_slot R' bin a <-> is_slot R bin a).
  { intros bin a. unfold is_slot. split; intros (c' & p' & i & [T' Hsl Hb]); exists c', p', i; (constructor; [|done..]).
    - by apply Hrem in T' as [? _].
    - apply Hrem. split; [done|]. intros [-> ->]. destruct T' as (_ & r' & Er' & Ek'). congruence. }
  eapply (heap_delete s' rest' kl' R R' F F L _ (m * ZEND_MM_PAGE_SIZE)); [exact Ly|exact P'| |exact HL| | |].
  - eapply free_frame; [exact Fr|exact SH2|exact Hs'|]. intros bin a _ _ S. by apply Hsl.
  - assert (Hreg : forall c' p' k', run_in R c' p' k' -> in_region c' p' k' (ZEND_MM_PAGE_ADDR c p) -> c' = c /\ p' = p /\ k' = LargeRun m).
    { intros c' p' k' T' Hin. destruct (run_in_range _ _ _ _ Ly T) as (_ & _ & Hm & _).
      destruct (region_unique R c' p' k' c p (LargeRun m) (ZEND_MM_PAGE_ADDR c p) Ly T' T Hin) as (-> & -> & ->); [|done].
      unfold in_region. unfold ZEND_MM_PAGE_SIZE. lia. }
    intros b n. split.
    + intros [c' p' m' T'|bin a sz S Hn E'].
      * apply Hrem in T' as [T' Hne]. split; [by constructor|]. intros Eb. destruct (run_in_range _ _ _ _ Ly T') as (_ & _ & Hm & _).
        destruct (Hreg c' p' _ T') as (-> & -> & _); [|by apply Hne]. rewrite <- Eb. unfold in_region, ZEND_MM_PAGE_SIZE. lia.
      * apply Hsl in S. split; [by econstructor|]. intros ->. destruct S as (c' & p' & i & S).
        by destruct (Hreg c' p' _ (sl_run _ _ _ _ _ _ S) (slot_first _ _ _ _ _ _ S)) as (_ & _ & [=]).
    + intros [[c' p' m' T'|bin a sz S Hn E'] Hne].
      * constructor. apply Hrem. split; [done|]. by intros [-> ->].
      * econstructor; [by apply Hsl|done|done].
  - apply HL. by constructor.
  - rewrite SH3. cbn. rewrite Hsz. apply u64_sub.
Qed.

(** ** Small blocks *)
Lemma set_free_slot (fs : list Z) bin p : length fs = 30%nat -> 0 <= bin < ZEND_MM_BINS ->
  exists fs', aset fs bin p = Some fs' /\ length fs' = 30%nat /\ forall b, aget fs' b = if b =? bin then Some p else aget fs b.
Proof.
  intros Hl Hb. unfold ZEND_MM_BINS in Hb. unfold aset. rewrite (proj2 (in_range_iff _ _ _)) by lia. eexists. split; [done|].
  split; [by rewrite length_insert|]. intros b. apply aget_insert. lia.
Qed.

Definition update_free F bin l : Z -> list Z := fun b => if decide (b = bin) then l else F b.

Lemma update_free_eq F bin l : update_free F bin l bin = l.
Proof. unfold update_free. by rewrite decide_True. Qed.
Lemma update_free_ne F bin l b : b <> bin -> update_free F bin l b = F b.
Proof. intros H. unfold update_free. by rewrite decide_False. Qed.

(** The list of one class changes, in memory too. *)
Lemma free_update s s' R R' F bin l p : free_ok s R F -> 0 <= bin < ZEND_MM_BINS ->
  aset (free_slot (heap s)) bin p = Some (free_slot (heap s')) ->
  linked_list (fun x => slots s' !! x) p l -> NoDup l -> (forall a, a ∈ l -> is_slot R' bin a) ->
  (forall b a, 0 <= b < ZEND_MM_BINS -> b <> bin -> a ∈ F b -> is_slot R' b a /\ slots s' !! a = slots s !! a) ->
  free_ok s' R' (update_free F bin l).
Proof.
  intros [Hl Hp Hnd Hs] Hb Efs Hll Hndl Hsl Hother. destruct (set_free_slot _ bin p Hl Hb) as (fs' & Efs' & Hl' & Hfs).
  rewrite Efs in Efs'. injection Efs' as <-. constructor; [done| | |].
  - intros b q Eq. rewrite Hfs in Eq. destruct (Z.eqb_spec b bin) as [->|Hne].
    + injection Eq as <-. by rewrite update_free_eq.
    + rewrite update_free_ne by done. eapply linked_list_frame; [by apply Hp|]. intros x Hx. apply (Hother b); [|done|done].
      apply aget_Some in Eq. unfold ZEND_MM_BINS. lia.
  - intros b Hbb. destruct (decide (b = bin)) as [->|Hne]; [by rewrite update_free_eq|]. rewrite update_free_ne by done. by apply Hnd.
  - intros b a Hbb Ha. destruct (decide (b = bin)) as [->|Hne]; [rewrite update_free_eq in Ha; by apply Hsl|]. rewrite update_free_ne in Ha by done.
    by apply Hother.
Qed.

Lemma linked_head (f : Z -> option Z) p l : linked_list f p l -> p <> 0 -> exists l' after, l = p :: l' /\ f p = Some after /\ linked_list f after l'.
Proof. destruct l as [|a l]; cbn; [done|]. intros [-> (b & Hb & Hl)] _. by exists l, b. Qed.

Lemma linked_null (f : Z -> option Z) l : linked_list f 0 l -> (forall a, a ∈ l -> a <> 0) -> l = [].
Proof. destruct l as [|a l]; cbn; [done|]. intros [E _] H. destruct (H a); [set_solver|done]. Qed.

Lemma slot_in_one_class R bin bin' a : layout R -> is_slot R bin a -> is_slot R bin' a -> bin = bin'.
Proof.
  intros Ly (c & p & i & S) (c' & p' & i' & S'). destruct (slot_size _ _ _ _ _ _ S) as (sz & E & H), (slot_size _ _ _ _ _ _ S') as (sz' & E' & H').
  by destruct (slot_unique R bin c p i a bin' c' p' i' a sz sz' a Ly S S' E E') as [-> _]; [lia..|].
Qed.

(** No block begins at a free slot. *)
Lemma free_slot_no_block R F bin p m : layout R -> is_slot R bin p -> p ∈ F bin -> ~ block R F p m.
Proof.
  intros Ly (c & q & i & S) Hin B. inversion B as [c' p' m' T Ea|bin' a sz S' Hn E]; subst.
  - destruct (run_in_range _ _ _ _ Ly T) as (_ & _ & Hm & _).
    destruct (region_unique R c q (SmallRun bin) c' p' (LargeRun m') (ZEND_MM_PAGE_ADDR c' p') Ly (sl_run _ _ _ _ _ _ S) T) as (_ & _ & [=]);
      [by eapply slot_first|unfold in_region, ZEND_MM_PAGE_SIZE; lia].
  - assert (bin' = bin) as -> by (eapply (slot_in_one_class R); [done|done|by exists c, q, i]). done.
Qed.

(** A free slot is taken. *)
Lemma alloc_small_from_list s L bin rest kl R F p data_size : pages_ok s rest kl R -> free_ok s R F -> (forall a n, L !! a = Some n <-> block R F a n) ->
  size (heap s) = u64 (total L + data_size) -> 0 <= bin < ZEND_MM_BINS -> aget bin_data_size bin = Some data_size ->
  aget (free_slot (heap s)) bin = Some p -> p <> 0 ->
  exists s' after, slots s !! p = Some after /\ set_link s bin None after = Some s' /\ L !! p = None /\ heap_ok s' (<[p := data_size]> L).
Proof.
  intros P Fr HL Hsz Hb Ed Ep Hp0. pose proof (layout_pages _ _ _ _ P) as Ly.
  destruct (linked_head _ _ _ (fr_list _ _ _ Fr bin p Ep) Hp0) as (l & after & EF & Ea & Hl).
  pose proof (fr_nodup _ _ _ Fr bin Hb) as Hnd. rewrite EF in Hnd. apply NoDup_cons in Hnd as [Hpl Hnd].
  assert (Hsp : is_slot R bin p) by (apply (fr_slots _ _ _ Fr); [done|rewrite EF; set_solver]).
  destruct (set_free_slot _ bin after (fr_len _ _ _ Fr) Hb) as (fs & Efs & _ & _).
  do 2 eexists. split; [exact Ea|]. unfold set_link. rewrite Efs. cbn [mbind option_bind]. split; [done|].
  eapply (heap_insert _ rest kl R R F (update_free F bin l)); [exact Ly|by eapply (pages_frame _ _ _ _ _ P)| |exact HL| | |exact Hsz].
  - eapply (free_update s _ R R F bin l after Fr Hb); [exact Efs|exact Hl|exact Hnd| |].
    + intros a Ha. apply (fr_slots _ _ _ Fr); [done|rewrite EF; set_solver].
    + intros b a Hbb _ Ha. split; [by apply (fr_slots _ _ _ Fr)|done].
  - intros b m. split.
    + intros [c' p' m' T|bin' a sz S Hn E]; [right; by constructor|]. destruct (decide (bin' = bin)) as [->|Hne].
      * rewrite update_free_eq in Hn. destruct (decide (a = p)) as [->|Hap]; [left; split; [done|congruence]|].
        right. econstructor; [done| |done]. rewrite EF. set_solver.
      * rewrite update_free_ne in Hn by done. right. by econstructor.
    + intros [[-> ->]|[c' p' m' T|bin' a sz S Hn E]]; [|by constructor|].
      * econstructor; [exact Hsp|by rewrite update_free_eq|done].
      * econstructor; [done| |done]. destruct (decide (bin' = bin)) as [->|Hne]; [|by rewrite update_free_ne].
        rewrite update_free_eq. rewrite EF in Hn. set_solver.
  - intros m. apply (free_slot_no_block R F bin p m Ly Hsp). rewrite EF. set_solver.
Qed.


(** A slot goes back to the list of its class. *)
Lemma zend_mm_free_small_ok s L bin rest kl R F ptr data_size : pages_ok s rest kl R -> free_ok s R F -> (forall a n, L !! a = Some n <-> block R F a n) ->
  size (heap s) = u64 (total L) -> is_slot R bin ptr -> ptr ∉ F bin -> 0 <= bin < ZEND_MM_BINS -> aget bin_data_size bin = Some data_size ->
  exists s', zend_mm_free_small s ptr bin = Some s' /\ heap_ok s' (delete ptr L).
Proof.
  intros P Fr HL Hsz Hs Hn Hb Ed. pose proof (layout_pages _ _ _ _ P) as Ly. unfold zend_mm_free_small. rewrite Ed. cbn [mbind option_bind].
  assert (Hfirst : exists first, aget (free_slot (heap s)) bin = Some first).
  { apply aget_is_Some. rewrite (fr_len _ _ _ Fr). unfold ZEND_MM_BINS in Hb. lia. }
  destruct Hfirst as [first Ef]. change (free_slot (heap (set_heap s (sub_size (heap s) data_size)))) with (free_slot (heap s)).
  rewrite Ef. cbn [mbind option_bind]. unfold set_link at 2. cbn [mbind option_bind]. 
  destruct (set_free_slot _ bin ptr (fr_len _ _ _ Fr) Hb) as (fs & Efs & _ & _). unfold set_link. cbn [heap set_heap sub_size free_slot].
  rewrite Efs. cbn [mbind option_bind]. eexists. split; [done|].
  eapply (heap_delete _ rest kl R R F (update_free F bin (ptr :: F bin)) L ptr data_size); [exact Ly| | |exact HL| | |].
  - by eapply (pages_frame _ _ _ _ _ P).
  - eapply (free_update s _ R R F bin (ptr :: F bin) ptr Fr Hb); [exact Efs| | | |].
    + cbn [linked_list slots set_heap]. split; [done|]. exists first. rewrite lookup_insert_eq. split; [done|].
      eapply linked_list_frame; [by apply (fr_list _ _ _ Fr)|]. intros x Hx. cbn. rewrite lookup_insert_ne; [done|]. by intros ->.
    + apply NoDup_cons. split; [done|]. by apply (fr_nodup _ _ _ Fr).
    + intros a [->|Ha]%elem_of_cons; [done|]. by apply (fr_slots _ _ _ Fr).
    + intros b a Hbb Hne Ha. pose proof (fr_slots _ _ _ Fr b a Hbb Ha) as Ha'. split; [done|]. cbn. rewrite lookup_insert_ne; [done|].
      intros ->. by apply Hne, (slot_in_one_class R b bin a).
  - intros b m. split.
    + intros [c' p' m' T|bin' a sz S Hn' E].
      * split; [by constructor|]. intros Eb. destruct Hs as (c & p & i & S). destruct (run_in_range _ _ _ _ Ly T) as (_ & _ & Hm & _).
        destruct (region_unique R c p (SmallRun bin) c' p' (LargeRun m') ptr Ly (sl_run _ _ _ _ _ _ S) T) as (_ & _ & [=]);
          [by eapply slot_first|rewrite <- Eb; unfold in_region, ZEND_MM_PAGE_SIZE; lia].
      * destruct (decide (bin' = bin)) as [->|Hne].
        -- rewrite update_free_eq in Hn'. split; [econstructor; [done| |done]|]; set_solver.
        -- rewrite update_free_ne in Hn' by done. split; [by econstructor|]. intros ->. by apply Hne, (slot_in_one_class R bin' bin ptr).
    + intros [[c' p' m' T|bin' a sz S Hn' E] Hne]; [by constructor|]. econstructor; [done| |done].
      destruct (decide (bin' = bin)) as [->|Hbb]; [rewrite update_free_eq; set_solver|by rewrite update_free_ne].
  - apply HL. by econstructor.
  - cbn. rewrite Hsz. apply u64_sub.
Qed.

(** ** New slots *)
Fixpoint slot_list (n : nat) (p data_size : Z) : list Z :=
  match n with O => [] | S n => p :: slot_list n (p + data_size) data_size end.

Lemma elem_of_slot_list n p sz x : x ∈ slot_list n p sz <-> exists i, 0 <= i < Z.of_nat n /\ x = p + sz * i.
Proof.
  revert p. induction n as [|n IH]; intros p; cbn [slot_list]; [split; [set_solver|intros (i & ? & _); lia]|].
  rewrite elem_of_cons, IH. split.
  - intros [->|(i & Hi & ->)]; [exists 0; lia|exists (i + 1); split; lia].
  - intros (i & Hi & ->). destruct (Z.eq_dec i 0) as [->|]; [left; lia|]. right. exists (i - 1). split; lia.
Qed.

Lemma NoDup_slot_list n p sz : 0 < sz -> NoDup (slot_list n p sz).
Proof.
  intros Hsz. revert p. induction n as [|n IH]; intros p; cbn [slot_list]; [constructor|]. apply NoDup_cons. split; [|done].
  rewrite elem_of_slot_list. intros (i & Hi & E). nia.
Qed.

Lemma link_slots_out n sz x : forall m p, x ∉ slot_list (S n) p sz -> link_slots n m p sz !! x = m !! x.
Proof.
  induction n as [|n IH]; intros m p Hx; cbn [link_slots].
  - rewrite lookup_insert_ne; [done|]. cbn in Hx. set_solver.
  - change (slot_list (S (S n)) p sz) with (p :: slot_list (S n) (p + sz) sz) in Hx. apply not_elem_of_cons in Hx as [Hne Hx].
    rewrite IH by done. by rewrite lookup_insert_ne.
Qed.

Lemma link_slots_linked n sz : 0 < sz -> forall m p, linked_list (fun x => link_slots n m p sz !! x) p (slot_list (S n) p sz).
Proof.
  intros Hsz. induction n as [|n IH]; intros m p.
  - cbn. split; [done|]. exists 0. by rewrite lookup_insert_eq.
  - change (slot_list (S (S n)) p sz) with (p :: slot_list (S n) (p + sz) sz). split; [done|]. exists (p + sz). cbn [link_slots]. split; [|apply IH].
    rewrite link_slots_out; [by rewrite lookup_insert_eq|]. rewrite elem_of_slot_list. intros (i & Hi & E). nia.
Qed.

(** The slots of a new small run: the first is handed out, the others are free. *)
Lemma block_small_added R R' F c p bin data_size elements pages : layout R -> layout R' -> run_added R R' c p (SmallRun bin) -> (forall k', ~ run_in R c p k') ->
  ZEND_MM_BINS_INFO !! Z.to_nat bin = Some (data_size, elements, pages) -> aget bin_data_size bin = Some data_size -> 0 <= bin < ZEND_MM_BINS -> F bin = [] ->
  forall b n, block R' (update_free F bin (slot_list (Z.to_nat (elements - 1)) (ZEND_MM_PAGE_ADDR c p + data_size) data_size)) b n <->
    (b = ZEND_MM_PAGE_ADDR c p /\ n = data_size) \/ block R F b n.
Proof.
  intros Ly Ly' Hadd Hno Er Ed Hb EF b n. set (new := slot_list _ _ _). pose proof (rows_ok _ _ _ _ Er) as (Hsz & Hcnt & _ & _).
  assert (Hnew : forall x, x ∈ new <-> exists i, 1 <= i < elements /\ x = ZEND_MM_PAGE_ADDR c p + data_size * i).
  { intros x. unfold new. rewrite elem_of_slot_list. split; intros (i & Hi & ->); [exists (i + 1)|exists (i - 1)]; split; lia. }
  assert (Hslot : forall i, 0 <= i < elements -> slot_at R' bin c p i (ZEND_MM_PAGE_ADDR c p + data_size * i)).
  { intros i Hi. apply (slot_added _ _ _ _ _ Hadd). left. split_and!; [done..|]. exists data_size, elements, pages. split_and!; try done; lia. }
  split.
  - intros [c' p' m' T|bin' a sz (c' & p' & i & S) Hn E].
    + apply Hadd in T as [(_ & _ & [=])|T]. right. by constructor.
    + apply (slot_added _ _ _ _ _ Hadd) in S as [(-> & -> & [= <-] & sz' & cnt & pg & Er' & Hi & -> & _)|S].
      * rewrite Er in Er'. injection Er' as <- <- <-. rewrite update_free_eq, Hnew in Hn. left.
        destruct (Z.eq_dec i 0) as [->|]; [split; [lia|congruence]|]. destruct Hn. exists i. split; [lia|done].
      * right. econstructor; [by exists c', p', i| |done]. destruct (decide (bin' = bin)) as [->|Hne]; [rewrite EF; apply not_elem_of_nil|].
        by rewrite update_free_ne in Hn.
  - intros [[-> ->]|[c' p' m' T|bin' a sz (c' & p' & i & S) Hn E]].
    + econstructor; [| |exact Ed].
      * exists c, p, 0. pose proof (Hslot 0 ltac:(lia)) as H0. by rewrite Z.mul_0_r, Z.add_0_r in H0.
      * rewrite update_free_eq, Hnew. intros (i & Hi & Ei). nia.
    + constructor. apply Hadd. by right.
    + econstructor; [|  |exact E].
      * exists c', p', i. apply (slot_added _ _ _ _ _ Hadd). by right.
      * destruct (decide (bin' = bin)) as [->|Hne]; [|by rewrite update_free_ne]. rewrite update_free_eq, Hnew. intros (j & Hj & ->).
        pose proof (slot_first _ _ _ _ _ _ (Hslot j ltac:(lia))) as H1. pose proof (slot_first _ _ _ _ _ _ S) as H2.
        assert (T' : run_in R' c' p' (SmallRun bin)) by (apply Hadd; right; apply S).
        assert (T0 : run_in R' c p (SmallRun bin)) by (apply Hadd; by left).
        destruct (region_unique R' _ _ _ _ _ _ _ Ly' T0 T' H1 H2) as (<- & <- & _). destruct (Hno (SmallRun bin)). apply S.
Qed.

Lemma zend_mm_alloc_small_slow_ok s L bin rest kl R F data_size : pages_ok s rest kl R -> free_ok s R F -> (forall a n, L !! a = Some n <-> block R F a n) ->
  size (heap s) = u64 (total L + data_size) -> available s -> 0 <= bin < ZEND_MM_BINS -> aget bin_data_size bin = Some data_size -> F bin = [] ->
  exists a s', zend_mm_alloc_small_slow s bin = Some (Ptr a, s') /\ L !! a = None /\ heap_ok s' (<[a := data_size]> L).
Proof.
  intros P Fr HL Hsz Hav Hb Ed EF. pose proof (layout_pages _ _ _ _ P) as Ly.
  destruct (bins_row bin Hb) as (sz & cnt & pg & Er & Es & Ec & Ep). assert (sz = data_size) as -> by congruence.
  pose proof (rows_ok _ _ _ _ Er) as (Hsz8 & Hcnt & Hpg & Hfit). unfold zend_mm_alloc_small_slow. rewrite Ep, Ed, Ec. cbn [mbind option_bind].
  destruct (zend_mm_alloc_pages_ok s rest kl R pg P Hav) as (s1 & rest1 & kl1 & c & p & E & Hf & P1 & Hin & [SH1 SH2 SH3 SH4] & Hs1).
  { change ZEND_MM_PAGES with 512. lia. }
  rewrite E. cbn [mbind option_bind]. pose proof (layout_pages _ _ _ _ P1) as Ly1.
  assert (Hp0 : p <> 0) by by apply (fits_nonzero R c p pg). assert (Hno : forall k', ~ run_in R c p k') by (intros k'; by apply (fits_no_run _ _ _ pg)).
  pose proof P1 as [Hcont1 _ _ _ _ _ _]. destruct (proj2 (ct_dom _ _ _ _ Hcont1 c)) as [c1 E1]; [apply elem_of_app; by left|].
  destruct (ct_active _ _ _ _ Hcont1 c c1 Hin E1) as (runs1 & Er1 & C1). rewrite lookup_insert_eq in Er1. injection Er1 as <-.
  assert (Hca : chunk_addr c) by (apply (ly_addr _ Ly1); by rewrite lookup_insert_eq).
  destruct Hf as (Hp & _ & Hle & _). change ZEND_MM_PAGES with 512 in Hle.
  destruct (aligned_parts c (ZEND_MM_PAGE_SIZE * p) Hca) as [Ebase Eoff]; [unfold ZEND_MM_PAGE_SIZE, ZEND_MM_CHUNK_SIZE; lia|].
  change (c + ZEND_MM_PAGE_SIZE * p) with (ZEND_MM_PAGE_ADDR c p) in Ebase, Eoff. rewrite Ebase, Eoff, E1. cbn [mbind option_bind].
  replace (ZEND_MM_PAGE_SIZE * p / ZEND_MM_PAGE_SIZE) with p by (rewrite Z.mul_comm, Z.div_mul; [done|unfold ZEND_MM_PAGE_SIZE; lia]).
  destruct (mark_bin_ok c1 _ p bin pg C1) as (c2 & -> & C2 & En2 & Ep2); [by rewrite lookup_insert_eq|done..|]. cbn [mbind option_bind].
  rewrite insert_insert_eq in C2. pose proof (pages_put s1 rest1 kl1 _ c c1 c2 _ P1 Hin E1 En2 Ep2 C2) as P2. rewrite insert_insert_eq in P2.
  pose proof (layout_pages _ _ _ _ P2) as Ly2.
  assert (Hadd : run_added R (<[c := <[p := SmallRun bin]> (runs_of R c)]> R) c p (SmallRun bin)) by by apply insert_run_in.
  set (bp := ZEND_MM_PAGE_ADDR c p) in *. set (new := slot_list (Z.to_nat (cnt - 1)) (bp + data_size) data_size).
  destruct (set_free_slot (free_slot (heap s)) bin (bp + data_size) (fr_len _ _ _ Fr) Hb) as (fs & Efs & _ & _).
  unfold set_link. change (free_slot (heap (set_chunk s1 c c2))) with (free_slot (heap s1)). rewrite SH2, Efs. cbn [mbind option_bind].
  do 2 eexists. split; [done|].
  assert (Hnewin : forall x, x ∈ new -> is_slot (<[c := <[p := SmallRun bin]> (runs_of R c)]> R) bin x /\ in_region c p (SmallRun bin) x).
  { intros x Hx. unfold new in Hx. apply elem_of_slot_list in Hx as (i & Hi & ->).
    assert (S : slot_at (<[c := <[p := SmallRun bin]> (runs_of R c)]> R) bin c p (i + 1) (bp + data_size + data_size * i)).
    { apply (slot_added _ _ _ _ _ Hadd). left. split_and!; [done..|]. exists data_size, cnt, pg. split_and!; try done; try lia. }
    split; [by exists c, p, (i + 1)|by eapply slot_first]. }
  eapply (heap_insert _ rest1 kl1 R _ F (update_free F bin new)); [exact Ly|by eapply (pages_frame _ _ _ _ _ P2)| |exact HL| | |].
  - eapply (free_update s _ R _ F bin new (bp + data_size) Fr Hb); [cbn; exact Efs| | | |].
    + cbn [slots set_heap]. unfold new. replace (Z.to_nat (cnt - 1)) with (S (Z.to_nat (cnt - 2))) by lia. apply link_slots_linked. lia.
    + apply NoDup_slot_list. lia.
    + intros a Ha. by apply Hnewin.
    + intros b a Hbb Hne Ha. destruct (fr_slots _ _ _ Fr b a Hbb Ha) as (c' & p' & i & Sl).
      assert (S' : slot_at (<[c := <[p := SmallRun bin]> (runs_of R c)]> R) b c' p' i a) by (apply (slot_added _ _ _ _ _ Hadd); by right).
      split; [by exists c', p', i|]. cbn [slots set_heap set_chunk]. rewrite link_slots_out, Hs1; [done|].
      replace (S (Z.to_nat (cnt - 2))) with (Z.to_nat (cnt - 1)) by lia. intros Hx. destruct (Hnewin a Hx) as [Sx _].
      apply Hne. apply (slot_in_one_class _ b bin a Ly2); [by exists c', p', i|done].
  - by apply (block_small_added R _ F c p bin data_size cnt pg).
  - intros m. eapply no_block_added; [exact Ly|exact Ly2|exact Hadd|exact Hno|]. unfold in_region. fold bp.
    assert (En : run_pages (SmallRun bin) = pg) by (unfold run_pages; by rewrite Ep). rewrite En. unfold ZEND_MM_PAGE_SIZE. lia.
  - cbn. rewrite SH3. exact Hsz.
Qed.

Lemma zend_mm_alloc_small_ok s L bin data_size : heap_ok s L -> available s -> 0 <= bin < ZEND_MM_BINS -> aget bin_data_size bin = Some data_size ->
  exists a s', zend_mm_alloc_small s bin = Some (Ptr a, s') /\ L !! a = None /\ heap_ok s' (<[a := data_size]> L).
Proof.
  intros (rest & kl & R & F & P & Fr & HL & Hsz) Hav Hb Ed. unfold zend_mm_alloc_small. rewrite Ed. cbn [mbind option_bind].
  set (s0 := set_heap s (add_size (heap s) data_size)). assert (P0 : pages_ok s0 rest kl R) by by eapply (pages_frame _ _ _ _ _ P).
  assert (Fr0 : free_ok s0 R F) by (eapply free_frame; [exact Fr|done..]).
  assert (Hsz0 : size (heap s0) = u64 (total L + data_size)) by (cbn; rewrite Hsz; apply u64_add).
  assert (Hp : exists p, aget (free_slot (heap s0)) bin = Some p).
  { apply aget_is_Some. rewrite (fr_len _ _ _ Fr0). unfold ZEND_MM_BINS in Hb. lia. }
  destruct Hp as [p Ep]. rewrite Ep. cbn [mbind option_bind]. destruct (Z.eqb_spec p 0) as [->|Hne]; cbn [negb].
  - apply (zend_mm_alloc_small_slow_ok s0 L bin rest kl R F data_size); try done.
    apply (linked_null (fun x => slots s0 !! x)); [by apply (fr_list _ _ _ Fr0)|]. intros a Ha ->.
    pose proof (is_slot_pos R bin 0 (layout_pages _ _ _ _ P) (fr_slots _ _ _ Fr0 bin 0 Hb Ha)). lia.
  - destruct (alloc_small_from_list s0 L bin rest kl R F p data_size P0 Fr0 HL Hsz0 Hb Ed Ep Hne) as (s' & after & Ea & El & Hn & Hok).
    rewrite Ea. cbn [mbind option_bind]. rewrite El. by exists p, s'.
Qed.

(** ** What the map says of a block *)
Lemma lrun_word m : 1 <= m <= 512 -> Z.land (ZEND_MM_LRUN m) ZEND_MM_IS_SRUN = 0 /\ ZEND_MM_LRUN_PAGES (ZEND_MM_LRUN m) = m.
Proof.
  intros Hm. assert (H : forallb (fun m => (Z.land (ZEND_MM_LRUN m) ZEND_MM_IS_SRUN =? 0) && (ZEND_MM_LRUN_PAGES (ZEND_MM_LRUN m) =? m)) (seqZ 1 512) = true)
    by (vm_compute; reflexivity).
  rewrite forallb_forall in H. specialize (H m ltac:(apply list_elem_of_In, elem_of_seqZ; lia)). lia.
Qed.

Definition small_word (info bin : Z) : bool := negb (Z.land info ZEND_MM_IS_SRUN =? 0) && (ZEND_MM_SRUN_BIN_NUM info =? bin).

Lemma srun_word bin : 0 <= bin < ZEND_MM_BINS -> small_word (ZEND_MM_SRUN bin) bin = true.
Proof.
  intros Hb. assert (H : forallb (fun bin => small_word (ZEND_MM_SRUN bin) bin) (seqZ 0 30) = true) by (vm_compute; reflexivity).
  rewrite forallb_forall in H. apply H, list_elem_of_In, elem_of_seqZ. unfold ZEND_MM_BINS in Hb. lia.
Qed.

Lemma nrun_word bin i : 0 <= bin < ZEND_MM_BINS -> 0 <= i < 8 -> small_word (ZEND_MM_NRUN bin i) bin = true.
Proof.
  intros Hb Hi. assert (H : forallb (fun bin => forallb (fun i => small_word (ZEND_MM_NRUN bin i) bin) (seqZ 0 8)) (seqZ 0 30) = true) by (vm_compute; reflexivity).
  rewrite forallb_forall in H. specialize (H bin ltac:(apply list_elem_of_In, elem_of_seqZ; unfold ZEND_MM_BINS in Hb; lia)).
  rewrite forallb_forall in H. apply H, list_elem_of_In, elem_of_seqZ. lia.
Qed.

Lemma run_chunk s rest kl R c p k : pages_ok s rest kl R -> run_in R c p k -> exists c0, chunks s !! c = Some c0 /\ run_info (map c0) p k.
Proof.
  intros [Hcont _ _ _ _ _ _] (_ & runs & E & Ek). assert (Hin : c ∈ main_chunk (heap s) :: rest) by (apply (ct_runs _ _ _ _ Hcont); by eexists).
  destruct (proj2 (ct_dom _ _ _ _ Hcont c)) as [c0 E0]; [apply elem_of_app; by left|].
  destruct (ct_active _ _ _ _ Hcont c c0 Hin E0) as (runs' & E' & C). assert (runs' = runs) as -> by congruence.
  exists c0. split; [done|]. by apply (co_infos _ _ C).
Qed.

Lemma large_word s rest kl R c p m : pages_ok s rest kl R -> run_in R c p (LargeRun m) ->
  ZEND_MM_ALIGNED_BASE (ZEND_MM_PAGE_ADDR c p) ZEND_MM_CHUNK_SIZE = c /\ ZEND_MM_ALIGNED_OFFSET (ZEND_MM_PAGE_ADDR c p) ZEND_MM_CHUNK_SIZE = ZEND_MM_PAGE_SIZE * p /\
  exists c0 info, chunks s !! c = Some c0 /\ aget (map c0) p = Some info /\ Z.land info ZEND_MM_IS_SRUN = 0 /\ ZEND_MM_LRUN_PAGES info = m.
Proof.
  intros P T. pose proof (layout_pages _ _ _ _ P) as Ly. destruct (run_in_range _ _ _ _ Ly T) as (Hc & Hp & Hm & Hle). cbn [run_pages] in Hm, Hle.
  destruct (aligned_parts c (ZEND_MM_PAGE_SIZE * p) Hc) as [Eb Eo]; [unfold ZEND_MM_PAGE_SIZE, ZEND_MM_CHUNK_SIZE; lia|].
  split; [done|]. split; [done|]. destruct (run_chunk _ _ _ _ _ _ _ P T) as (c0 & E0 & Hi). exists c0, (ZEND_MM_LRUN m).
  destruct (lrun_word m ltac:(lia)). by split_and!.
Qed.

Lemma slot_info s rest kl R bin a : pages_ok s rest kl R -> is_slot R bin a -> exists c0 info,
  chunks s !! ZEND_MM_ALIGNED_BASE a ZEND_MM_CHUNK_SIZE = Some c0 /\
  aget (map c0) (ZEND_MM_ALIGNED_OFFSET a ZEND_MM_CHUNK_SIZE / ZEND_MM_PAGE_SIZE) = Some info /\ small_word info bin = true.
Proof.
  intros P (c & p & i & Sl). pose proof (layout_pages _ _ _ _ P) as Ly. pose proof (sl_run _ _ _ _ _ _ Sl) as T. pose proof (sl_bin _ _ _ _ _ _ Sl) as Hb.
  destruct (run_in_range _ _ _ _ Ly T) as (Hc & Hp & Hm & Hle).
  destruct (in_region_parts c p _ a Hc Hp Hle (slot_first _ _ _ _ _ _ Sl)) as (off & -> & Ho & Hq).
  destruct (aligned_parts c off Hc ltac:(lia)) as [-> ->]. destruct (run_chunk _ _ _ _ _ _ _ P T) as (c0 & E0 & _ & Hs & Hn). exists c0.
  set (q := off / ZEND_MM_PAGE_SIZE) in *. destruct (Z.eq_dec q p) as [->|Hne].
  - exists (ZEND_MM_SRUN bin). split_and!; [done|done|by apply srun_word].
  - exists (ZEND_MM_NRUN bin (q - p)). split_and!; [done| |].
    + rewrite <- Hn by lia. f_equal. lia.
    + apply nrun_word; [done|]. destruct (bins_row bin Hb) as (sz & cnt & pg & Er & _ & _ & Ep). pose proof (rows_ok _ _ _ _ Er).
      assert (En : run_pages (SmallRun bin) = pg) by (unfold run_pages; by rewrite Ep). lia.
Qed.

(** ** All blocks *)
Lemma alloc_block_ok s L n : heap_ok s L -> available s -> 0 <= n <= ZEND_MM_MAX_LARGE_SIZE ->
  exists a s' sz, alloc_block s n = Some (Ptr a, s') /\ n <= sz /\ L !! a = None /\ heap_ok s' (<[a := sz]> L).
Proof.
  intros H Hav Hn. unfold alloc_block. destruct (Z.leb_spec n ZEND_MM_MAX_SMALL_SIZE) as [Hle|Hgt].
  - destruct (size_to_bin_fits n) as (sz & Hb & Ed & Hfit); [lia|]. destruct (zend_mm_alloc_small_ok s L _ sz H Hav Hb Ed) as (a & s' & E & Hno & H').
    by exists a, s', sz.
  - apply zend_mm_alloc_large_ok; try done. unfold ZEND_MM_MAX_SMALL_SIZE in Hgt. lia.
Qed.

Lemma free_block_ok s L a n : heap_ok s L -> L !! a = Some n -> zend_mm_size s a = Some n /\ exists s', free_block s a = Some s' /\ heap_ok s' (delete a L).
Proof.
  intros (rest & kl & R & F & P & Fr & HL & Hsz) E. apply HL in E. unfold free_block, zend_mm_size. destruct E as [c p m T|bin a sz Sl Hn Ed].
  - destruct (large_word _ _ _ _ _ _ _ P T) as (-> & -> & c0 & info & E0 & Ei & Hs & Hm). rewrite E0. cbn [mbind option_bind].
    replace (ZEND_MM_PAGE_SIZE * p / ZEND_MM_PAGE_SIZE) with p by (rewrite Z.mul_comm, Z.div_mul; [done|unfold ZEND_MM_PAGE_SIZE; lia]).
    rewrite Ei. cbn [mbind option_bind]. rewrite Hs. cbn [Z.eqb negb]. rewrite Hm. split; [done|].
    replace (ZEND_MM_ALIGNED_OFFSET (ZEND_MM_PAGE_SIZE * p) ZEND_MM_PAGE_SIZE) with 0; [by eapply zend_mm_free_large_ok|].
    unfold ZEND_MM_ALIGNED_OFFSET. change (ZEND_MM_PAGE_SIZE - 1) with (Z.ones 12). rewrite Z.land_ones by lia.
    change (2 ^ 12) with ZEND_MM_PAGE_SIZE. symmetry. rewrite Z.mul_comm. apply Z.mod_mul. by unfold ZEND_MM_PAGE_SIZE.
  - destruct (slot_info _ _ _ _ _ _ P Sl) as (c0 & info & E0 & Ei & [Hs Hbn]%andb_true_iff). rewrite E0. cbn [mbind option_bind].
    rewrite Ei. cbn [mbind option_bind]. rewrite Hs. apply Z.eqb_eq in Hbn. rewrite Hbn. split; [done|].
    assert (Hb : 0 <= bin < ZEND_MM_BINS) by (destruct Sl as (? & ? & ? & Sl); apply Sl). by eapply zend_mm_free_small_ok.
Qed.

(** Blocks lie in chunks and do not overlap. *)
Lemma heap_ok_blocks s L : heap_ok s L -> (forall a n, L !! a = Some n -> 1 <= n) /\
  forall a n a' n' x, L !! a = Some n -> L !! a' = Some n' -> a <= x < a + n -> a' <= x < a' + n' -> a = a'.
Proof.
  intros (rest & kl & R & F & P & _ & HL & _). pose proof (layout_pages _ _ _ _ P) as Ly. split.
  - intros a n E. apply HL in E. by destruct (block_region _ _ _ _ Ly E).
  - intros a n a' n' x E E' Hx Hx'. apply HL in E, E'. by destruct (blocks_apart R F a n a' n' x Ly E E' Hx Hx').
Qed.
End Blocks.

(** ** The heap at its start *)
Lemma zend_mm_init_ok p os : chunk_addr p -> exists s, zend_mm_init (p :: os) = Some s /\ heap_ok s ∅ /\ ZendMmHeap.os s = os.
Proof.
  intros Hp. destruct (init_pages_ok zero_chunk) as (c & E & C & _ & _ & _); [by apply zero_chunk_blank|].
  unfold zend_mm_init. rewrite E. cbn [mbind option_bind]. eexists. split; [done|]. split; [|done].
  exists [], [], {[p := no_runs]}, (fun _ => []). split_and!.
  - constructor; cbn; try done; try lia.
    + constructor; cbn.
      * apply NoDup_singleton.
      * intros a. rewrite lookup_singleton_is_Some. set_solver.
      * intros a c0 Ha%list_elem_of_singleton [_ <-]%lookup_singleton_Some. subst a. exists no_runs. rewrite lookup_singleton_eq.
        split; [done|]. by apply (chunk_ok_pages c).
      * intros a [x [<- _]%lookup_singleton_Some]. set_solver.
      * intros a c0 Ha. by apply not_elem_of_nil in Ha.
      * intros a [x [<- _]%lookup_singleton_Some]. done.
    + split; [|apply NoDup_singleton]. cbn. unfold nextf, prevf. cbn. by rewrite lookup_singleton_eq.
  - constructor; cbn [heap free_slot slots]; [done| | |].
    + intros bin q Eq. assert (q = 0) as ->; [|done]. unfold aget in Eq. destruct (0 <=? bin); [|done]. by apply lookup_replicate_1 in Eq as [-> _].
    + intros bin _. constructor.
    + intros bin a _ Ha. by apply not_elem_of_nil in Ha.
  - intros a n. rewrite lookup_empty. split; [done|]. intros B. exfalso. unfold no_runs in B.
    assert (Hno : forall c0 q k, ~ run_in {[p := {[0 := LargeRun ZEND_MM_FIRST_PAGE]}]} c0 q k).
    { intros c0 q k (Hq & runs & [<- <-]%lookup_singleton_Some & [<- _]%lookup_singleton_Some). done. }
    destruct B as [c0 q m T|bin a sz (c0 & q & i & Sl) _ _]; [by apply Hno in T|]. apply sl_run in Sl. by apply Hno in Sl.
  - done.
Qed.

(** C8: The heap hands out blocks of memory that do not overlap.  It starts without blocks.  When memory is to
    be had, a request for at most 2 MB less a page gets a block that is new and large enough, and the other
    blocks stay what they are; giving a block back removes it, and [zend_mm_size] knows its size before that.
    This goes for small blocks, which are slots of shared pages, and for large ones, which have pages of their own. *)
Theorem zend_mm_heap_refines_blocks :
  (forall p os, chunk_addr p -> exists s, zend_mm_init (p :: os) = Some s /\ heap_ok s ∅) /\
  forall s L, heap_ok s L ->
    (forall n, 0 <= n <= ZEND_MM_MAX_LARGE_SIZE -> available s ->
       exists a s' sz, alloc_block s n = Some (Ptr a, s') /\ n <= sz /\ L !! a = None /\ heap_ok s' (<[a := sz]> L)) /\
    (forall a n, L !! a = Some n -> zend_mm_size s a = Some n /\ exists s', free_block s a = Some s' /\ heap_ok s' (delete a L)) /\
    (forall a n, L !! a = Some n -> 1 <= n) /\
    (forall a n a' n' x, L !! a = Some n -> L !! a' = Some n' -> a <= x < a + n -> a' <= x < a' + n' -> a = a').
Proof.
  split; [intros p os Hp; destruct (zend_mm_init_ok p os Hp) as (s & E & H & _); by exists s|]. intros s L H. split_and!.
  - intros n Hn Hav. by apply alloc_block_ok.
  - intros a n E. by apply free_block_ok.
  - exact (proj1 (heap_ok_blocks s L H)).
  - exact (proj2 (heap_ok_blocks s L H)).
Qed.

(** A heap with two chunks to come. *)
Definition ex_heap : option mm := zend_mm_init [0x200000; 0xa00000].

Lemma zend_mm_heap_refines_blocks_witness :
  exists s a s1, ex_heap = Some s /\ alloc_block s 40 = Some (Ptr a, s1) /\ heap_ok s1 {[a := 40]} /\
  exists s2, free_block s1 a = Some s2 /\ heap_ok s2 ∅.
Proof.
  destruct zend_mm_heap_refines_blocks as [Hinit Hops].
  assert (Hp : chunk_addr 0x200000) by (split_and!; vm_compute; congruence).
  destruct (Hinit 0x200000 [0xa00000] Hp) as (s & E & H). exists s.
  assert (Hav : available s).
  { injection E as <-. right. split_and!; [vm_compute; congruence|vm_compute; reflexivity|].
    exists 0xa00000, []. split_and!; [reflexivity|split_and!; vm_compute; congruence|reflexivity]. }
  destruct (Hops s ∅ H) as (Halloc & _). destruct (Halloc 40) as (a & s1 & sz & Ea & Hsz & _ & H1); [vm_compute; split; congruence|exact Hav|].
  assert (Esz : sz = 40).
  { destruct (Hops s1 _ H1) as (_ & Hfree & _). destruct (Hfree a sz) as [Es _]; [apply lookup_insert_eq|].
    assert (Eg : forall s, Some s = ex_heap -> forall a s1, alloc_block s 40 = Some (Ptr a, s1) -> zend_mm_size s1 a = Some 40).
    { intros s0 E0. vm_compute in E0. injection E0 as ->. intros a0 s0 Ea0. vm_compute in Ea0. injection Ea0 as <- <-. reflexivity. }
    rewrite (Eg s (eq_sym E) a s1 Ea) in Es. congruence. }
  subst sz. exists a, s1. split; [exact E|]. split; [exact Ea|]. split; [exact H1|].
  destruct (Hops s1 _ H1) as (_ & Hfree & _). destruct (Hfree a 40) as [_ (s2 & E2 & H2)]; [apply lookup_insert_eq|].
  exists s2. split; [exact E2|]. rewrite delete_insert_eq, delete_empty in H2. exact H2.
Defined.
