(* ===== verification/FastcgiEnv.v ===== *)
(** * The environment of a FastCGI request ([php_headers/fastcgi.c], [fastcgi.h])

    Names and values of a request live in a hash table of its own: 128 chains, buckets handed out from
    blocks of 128, strings copied into data segments, nothing freed before the request ends.  A bucket is
    addressed by its place in the blocks, the oldest block first; a string by its segment, the oldest
    first, and its offset there.  Both are lists of cells that may be uninitialised, so a string that runs
    out of its segment or is overwritten by another shows.  [malloc] always succeeds. *)
From S2P Require Import Prelude OrderedMap.

(** ** Data *)
Definition FCGI_HASH_TABLE_SIZE : Z := 128.
Definition FCGI_HASH_TABLE_MASK : Z := FCGI_HASH_TABLE_SIZE - 1.
Definition FCGI_HASH_SEG_SIZE : Z := 4096.

(** [char *]: a segment and an offset. *)
Record char_ptr := { in_seg : nat; offset : Z }.

(** A NULL [val] means deleted. *)
Record fcgi_hash_bucket := {
  hash_value : Z; var_len : Z; var : char_ptr; val_len : Z; val : option char_ptr;
  next : option Z; list_next : option Z }.

Record fcgi_data_seg := { pos : Z; data : list (option Z) }.

(** [vars] is the field [list]: the buckets from the newest on.  [buckets] are the cells of all blocks, [idx] counts in the newest one; the last of [segs] is the
    segment in use. *)
Record fcgi_hash := {
  hash_table : list (option Z); vars : option Z;
  buckets : list (option fcgi_hash_bucket); idx : Z; segs : list fcgi_data_seg }.

Implicit Types (s : list Z) (g : fcgi_hash).

(** ** The code *)
Definition new_block : list (option fcgi_hash_bucket) := replicate (Z.to_nat FCGI_HASH_TABLE_SIZE) None.

Definition new_seg (size : Z) : fcgi_data_seg := {| pos := 0; data := replicate (Z.to_nat size) None |}.

Definition fcgi_hash_init : fcgi_hash :=
  {| hash_table := replicate (Z.to_nat FCGI_HASH_TABLE_SIZE) None; vars := None;
     buckets := new_block; idx := 0; segs := [new_seg FCGI_HASH_SEG_SIZE] |}.

(** The oldest block and the oldest segment stay. *)
Definition fcgi_hash_clean g : fcgi_hash :=
  {| hash_table := replicate (Z.to_nat FCGI_HASH_TABLE_SIZE) None; vars := None;
     buckets := take (Z.to_nat FCGI_HASH_TABLE_SIZE) (buckets g); idx := 0;
     segs := (fun d => {| d with pos := 0 |}) <$> take 1 (segs g) |}.

Definition fcgi_hash_strndup g s : option (fcgi_hash * char_ptr) :=
  let str_len := Z.of_nat (length s) in
  d ← last (segs g);
  let segs :=
    if Z.of_nat (length (data d)) <=? pos d + str_len + 1 then
      segs g ++ [new_seg (if FCGI_HASH_SEG_SIZE <? u32 (str_len + 1) then u32 (str_len + 1) else FCGI_HASH_SEG_SIZE)]
    else segs g in
  d ← last segs;
  cells ← copy_to (data d) (pos d) s;
  cells ← aset cells (pos d + str_len) (Some 0);
  let d' := {| pos := pos d + str_len + 1; data := cells |} in
  Some ({| g with segs := removelast segs ++ [d'] |}, {| in_seg := pred (length segs); offset := pos d |}).

(** The [len] bytes at a pointer. *)
Definition chars g (p : char_ptr) (len : Z) : option (list Z) :=
  d ← segs g !! in_seg p; read_from (data d) (offset p) len.

Definition bucket_at g (i : Z) : option fcgi_hash_bucket := c ← aget (buckets g) i; c.

(** The test of the three loops. *)
Definition is_var g (p : fcgi_hash_bucket) (hash : Z) s : option bool :=
  if (hash_value p =? hash) && (var_len p =? Z.of_nat (length s)) then
    v ← chars g (var p) (var_len p); Some (bool_decide (v = s))
  else Some false.

(** From [p], the first bucket of the chain with that name, and the bucket in front of it. *)
Fixpoint find_var (fuel : nat) g (prev p : option Z) (hash : Z) s : option (option (option Z * Z)) :=
  match fuel with
  | O => None
  | S fuel =>
      match p with
      | None => Some None
      | Some i =>
          b ← bucket_at g i;
          found ← is_var g b hash s;
          if (found : bool) then Some (Some (prev, i)) else find_var fuel g (Some i) (next b) hash s
      end
  end.

Definition table_idx (hash : Z) : Z := Z.land hash FCGI_HASH_TABLE_MASK.

Definition lookup_var g (hash : Z) s : option (option (option Z * Z)) :=
  p ← aget (hash_table g) (table_idx hash); find_var (S (length (buckets g))) g None p hash s.

Definition set_bucket g (i : Z) (b : fcgi_hash_bucket) : option fcgi_hash :=
  l ← aset (buckets g) i (Some b); Some {| g with buckets := l |}.

(** The pointer returned is that of the copy of the value. *)
Definition fcgi_hash_set g (hash : Z) s_var s_val : option (fcgi_hash * char_ptr) :=
  found ← lookup_var g hash s_var;
  let val_len := Z.of_nat (length s_val) in
  match found with
  | Some (_, i) =>
      b ← bucket_at g i;
      g ← set_bucket g i {| b with val_len := val_len |};
      '(g, v) ← fcgi_hash_strndup g s_val;
      b ← bucket_at g i;
      g ← set_bucket g i {| b with val := Some v |};
      Some (g, v)
  | None =>
      let g := if FCGI_HASH_TABLE_SIZE <=? idx g then {| g with buckets := buckets g ++ new_block; idx := 0 |} else g in
      let i := Z.of_nat (length (buckets g)) - FCGI_HASH_TABLE_SIZE + idx g in
      head ← aget (hash_table g) (table_idx hash);
      '(g1, n) ← fcgi_hash_strndup {| g with idx := idx g + 1 |} s_var;
      '(g2, v) ← fcgi_hash_strndup g1 s_val;
      table ← aset (hash_table g2) (table_idx hash) (Some i);
      g3 ← set_bucket {| g2 with hash_table := table; vars := Some i |} i
        {| hash_value := hash; var_len := Z.of_nat (length s_var); var := n; val_len := val_len; val := Some v;
           next := head; list_next := vars g |};
      Some (g3, v)
  end.

Definition fcgi_hash_del g (hash : Z) s : option fcgi_hash :=
  found ← lookup_var g hash s;
  match found with
  | Some (prev, i) =>
      b ← bucket_at g i;
      g ← set_bucket g i {| b with val := None; val_len := 0 |};
      match prev with
      | None =>
          table ← aset (hash_table g) (table_idx hash) (next b); Some {| g with hash_table := table |}
      | Some q => p ← bucket_at g q; set_bucket g q {| p with next := next b |}
      end
  | None => Some g
  end.

(** The bytes of the value, [None] for NULL. *)
Definition fcgi_hash_get g (hash : Z) s : option (option (list Z)) :=
  found ← lookup_var g hash s;
  match found with
  | Some (_, i) =>
      b ← bucket_at g i;
      match val b with
      | Some v => s ← chars g v (val_len b); Some (Some s)
      | None => Some None
      end
  | None => Some None
  end.

(** [func] gets the name and the value. *)
Fixpoint apply_loop {A} (fuel : nat) g (func : list Z -> list Z -> A -> A) (p : option Z) (arg : A) :
  option A :=
  match fuel with
  | O => None
  | S fuel =>
      match p with
      | None => Some arg
      | Some i =>
          b ← bucket_at g i;
          arg ← (match val b with
                 | Some v => n ← chars g (var b) (var_len b); v ← chars g v (val_len b); Some (func n v arg)
                 | None => Some arg
                 end);
          apply_loop fuel g func (list_next b) arg
      end
  end.

Definition fcgi_hash_apply {A} g (func : list Z -> list Z -> A -> A) (arg : A) : option A :=
  apply_loop (S (length (buckets g))) g func (vars g) arg.

(** ** Segments *)

(** [s] lies in the used part of a segment. *)
Definition holds_str g (p : char_ptr) s : Prop := exists d l1 l2,
  segs g !! in_seg p = Some d /\ data d = l1 ++ (Some <$> s) ++ l2 /\ offset p = Z.of_nat (length l1) /\
  Z.of_nat (length (l1 ++ (Some <$> s))) <= pos d.

Definition seg_ok (d : fcgi_data_seg) : Prop := 0 <= pos d <= Z.of_nat (length (data d)).

Definition segs_ok g : Prop := segs g <> [] /\ Forall seg_ok (segs g).

Lemma holds_chars g p s : holds_str g p s -> chars g p (Z.of_nat (length s)) = Some s.
Proof.
  intros (d & l1 & l2 & Hd & E & Ho & _). unfold chars. rewrite Hd. cbn [mbind option_bind].
  rewrite E. by apply read_from_mid.
Qed.

(** A segment whose used part is as before keeps its strings. *)
Lemma holds_ext g g' p s : (forall d, segs g !! in_seg p = Some d -> exists d', segs g' !! in_seg p = Some d' /\
    pos d <= pos d' /\ take (Z.to_nat (pos d)) (data d') = take (Z.to_nat (pos d)) (data d)) ->
  holds_str g p s -> holds_str g' p s.
Proof.
  intros Hext (d & l1 & l2 & Hd & E & Ho & Hp). destruct (Hext _ Hd) as (d' & Hd' & Hpos & Ht).
  exists d', l1, (drop (length (l1 ++ (Some <$> s))) (data d')). split; [done|].
  assert (take (length (l1 ++ (Some <$> s))) (data d') = l1 ++ (Some <$> s)) as E'.
  { replace (length (l1 ++ (Some <$> s))) with (min (length (l1 ++ (Some <$> s))) (Z.to_nat (pos d))) by lia.
    rewrite <- take_take, Ht, take_take, E, app_assoc, take_app_le by lia. apply take_ge. lia. }
  split_and!; [|done|lia]. rewrite app_assoc. rewrite <- E' at 1. by rewrite take_drop.
Qed.

Definition new_size (n : Z) : Z :=
  if FCGI_HASH_SEG_SIZE <? u32 (n + 1) then u32 (n + 1) else FCGI_HASH_SEG_SIZE.

(** The string is copied to the end of a segment with room for it and for its terminator. *)
Lemma strndup_ok g s : segs_ok g -> Z.of_nat (length s) < 2 ^ 32 - 1 ->
  exists g' p, fcgi_hash_strndup g s = Some (g', p) /\ g' = {| g with segs := segs g' |} /\ segs_ok g' /\
    holds_str g' p s /\ forall p' s', holds_str g p' s' -> holds_str g' p' s'.
Proof.
  intros [Hne Hok] Hs. unfold fcgi_hash_strndup.
  destruct (last (segs g)) as [d0|] eqn:Hl0; [|by apply last_None in Hl0]. cbn [mbind option_bind].
  apply last_Some in Hl0 as [ds Eds]. fold (new_size (Z.of_nat (length s))).
  assert (exists ds' d, (if Z.of_nat (length (data d0)) <=? pos d0 + Z.of_nat (length s) + 1
             then segs g ++ [new_seg (new_size (Z.of_nat (length s)))] else segs g) = ds' ++ [d] /\
           seg_ok d /\ Forall seg_ok ds' /\ pos d + Z.of_nat (length s) + 1 <= Z.of_nat (length (data d)) /\
           (forall i x, segs g !! i = Some x -> (ds' ++ [d]) !! i = Some x))
    as (ds' & d & -> & Hd & Hds & Hroom & Hold).
  { rewrite Eds in Hok |- *. apply Forall_app in Hok as [Hds [Hd0 _]%Forall_cons]. zcase.
    - exists (ds ++ [d0]), (new_seg (new_size (Z.of_nat (length s)))). split; [done|]. split_and!.
      + unfold seg_ok, new_seg. cbn [pos data]. lia.
      + apply Forall_app. split; [done|]. by apply Forall_singleton.
      + unfold new_seg, new_size. cbn [pos data]. rewrite length_replicate. unfold u32.
        rewrite uwrap_small by lia. unfold FCGI_HASH_SEG_SIZE. zcase; lia.
      + intros i x. apply lookup_app_l_Some.
    - exists ds, d0. split; [done|]. split_and!; try done. lia. }
  rewrite last_snoc, length_app. cbn [mbind option_bind length].
  destruct Hd as [Hp0 Hp1].
  rewrite <- (take_drop (Z.to_nat (pos d)) (data d)).
  assert (length (take (Z.to_nat (pos d)) (data d)) = Z.to_nat (pos d)) as Hlt by (apply length_take_le; lia).
  rewrite copy_to_end by (rewrite ?length_drop; lia). cbn [mbind option_bind].
  destruct (drop (length s) (drop (Z.to_nat (pos d)) (data d))) as [|c rest] eqn:Er.
  { apply (f_equal length) in Er. rewrite !length_drop in Er. cbn in Er. lia. }
  rewrite app_assoc, aset_app_mid by (rewrite length_app, length_fmap; lia). cbn [mbind option_bind].
  rewrite removelast_last, Nat.add_1_r. cbn [pred].
  eexists _, _. split; [done|]. split; [done|].
  assert (length (data d) = (Z.to_nat (pos d) + length s + S (length rest))%nat) as Hlen.
  { apply (f_equal length) in Er. rewrite !length_drop in Er. cbn in Er. lia. }
  split_and!.
  - split; [by destruct ds'|]. cbn [segs]. apply Forall_app. rewrite Forall_singleton. split; [done|].
    unfold seg_ok. cbn [pos data]. rewrite !length_app, length_fmap. cbn. lia.
  - exists {| pos := pos d + Z.of_nat (length s) + 1;
              data := (take (Z.to_nat (pos d)) (data d) ++ (Some <$> s)) ++ Some 0 :: rest |},
      (take (Z.to_nat (pos d)) (data d)), (Some 0 :: rest). cbn [segs in_seg offset pos data].
    rewrite list_lookup_middle, <- app_assoc by done. split_and!; [done..|lia|].
    rewrite length_app, length_fmap. lia.
  - intros p' s'. apply holds_ext. cbn [segs]. intros x Hx. apply Hold in Hx.
    destruct (decide (in_seg p' = length ds')) as [Ei|Ei].
    + rewrite Ei in *. rewrite list_lookup_middle in Hx |- * by done. injection Hx as <-.
      eexists. split; [done|]. cbn [pos data]. split; [lia|]. rewrite <- app_assoc. rewrite take_app_le by lia.
      by rewrite take_take, Nat.min_id.
    + exists x. split; [|split; [lia|done]]. pose proof (lookup_lt_Some _ _ _ Hx) as Hxl.
      rewrite length_app in Hxl. cbn in Hxl. rewrite lookup_app_l in Hx |- * by lia. done.
Qed.

(** ** The invariant

    The buckets handed out are the entries made so far, deleted ones included, the oldest first. *)
Record entry := { e_hash : Z; e_var : list Z; e_val : option (list Z) }.
Implicit Types (e : entry) (E : list entry).

Definition e_key e : Z * list Z := (e_hash e, e_var e).
Definition on_chain (t : nat) e : bool :=
  match e_val e with Some _ => Z.to_nat (table_idx (e_hash e)) =? t | None => false end%nat.

(** The ordered map the entries stand for. *)
Definition live E : list ((Z * list Z) * list Z) := omap (fun e => (fun v => (e_key e, v)) <$> e_val e) E.

Fixpoint links (bs : list (option fcgi_hash_bucket)) (st : option Z) (l : list nat) : Prop :=
  match l with
  | [] => st = None
  | i :: l => st = Some (Z.of_nat i) /\ exists b, bs !! i = Some (Some b) /\ links bs (next b) l
  end.

Definition stores g (b : fcgi_hash_bucket) e : Prop :=
  hash_value b = e_hash e /\ var_len b = Z.of_nat (length (e_var e)) /\ holds_str g (var b) (e_var e) /\
  match e_val e with
  | Some v => exists p, val b = Some p /\ val_len b = Z.of_nat (length v) /\ holds_str g p v
  | None => val b = None
  end.

Definition top (n : nat) : option Z := match n with O => None | S n => Some (Z.of_nat n) end.

Record env_ok g E : Prop := {
  ok_blocks : exists n, length (buckets g) = (128 * S n)%nat;
  ok_idx : 0 <= idx g <= 128;
  ok_used : Z.of_nat (length E) = Z.of_nat (length (buckets g)) - 128 + idx g;
  ok_vars : vars g = top (length E);
  ok_segs : segs_ok g;
  ok_entries : forall i e, E !! i = Some e ->
    exists b, buckets g !! i = Some (Some b) /\ stores g b e /\ list_next b = top i;
  ok_table : length (hash_table g) = 128%nat;
  ok_chains : forall t st, hash_table g !! t = Some st -> links (buckets g) st (places (on_chain t) E);
  ok_keys : NoDup (live E).*1 }.

Lemma live_app E1 E2 : live (E1 ++ E2) = live E1 ++ live E2.
Proof. apply omap_app. Qed.

Lemma elem_of_live k E : k ∈ (live E).*1 <-> exists i e v, E !! i = Some e /\ e_val e = Some v /\ e_key e = k.
Proof.
  rewrite list_elem_of_fmap. split.
  - intros ([k' v] & -> & (e & He & Hv)%list_elem_of_omap). apply list_elem_of_lookup in He as [i Hi].
    destruct (e_val e) as [v'|] eqn:Ev; [|done]. injection Hv as <- <-. by exists i, e, v'.
  - intros (i & e & v & Hi & Hv & <-). exists (e_key e, v). split; [done|]. apply list_elem_of_omap.
    exists e. rewrite Hv. split; [by apply list_elem_of_lookup_2 in Hi|done].
Qed.

(** ** Finding a bucket *)
Lemma bucket_at_nat g i b : buckets g !! i = Some (Some b) -> bucket_at g (Z.of_nat i) = Some b.
Proof. unfold bucket_at. rewrite aget_nat. by intros ->. Qed.

Lemma is_var_ok g b e hash s : stores g b e -> is_var g b hash s = Some (bool_decide (e_key e = (hash, s))).
Proof.
  intros (Hh & Hl & Hv & _). unfold is_var, e_key. rewrite Hh, Hl.
  destruct (Z.eqb_spec (e_hash e) hash) as [->|Hne]; cbn [andb].
  2: { rewrite bool_decide_false; [done|]. by intros [= ? _]. }
  destruct (Z.eqb_spec (Z.of_nat (length (e_var e))) (Z.of_nat (length s))) as [El|Hne].
  - rewrite (holds_chars _ _ _ Hv). cbn [mbind option_bind]. f_equal. apply bool_decide_ext. split; congruence.
  - rewrite bool_decide_false; [done|]. intros [= Es]. by rewrite Es in Hne.
Qed.

Lemma links_ext bs bs' st l :
  (forall j b, j ∈ l -> bs !! j = Some (Some b) -> exists b', bs' !! j = Some (Some b') /\ next b' = next b) ->
  links bs st l -> links bs' st l.
Proof.
  revert st. induction l as [|i l IH]; intros st Hext; [done|]. intros [-> (b & Hb & Hc)]. split; [done|].
  destruct (Hext i b) as (b' & Hb' & E); [left|done|]. exists b'. split; [done|]. rewrite E.
  apply IH; [|done]. intros j bj Hj. apply Hext. by right.
Qed.

Section Find.
Context (g : fcgi_hash) (E : list entry) (hash : Z) (s : list Z).
Hypothesis Hstored : forall i e, E !! i = Some e -> exists b, buckets g !! i = Some (Some b) /\ stores g b e.

Lemma find_var_none l : forall fuel prev st, links (buckets g) st l -> (length l < fuel)%nat ->
  (forall i, i ∈ l -> exists e, E !! i = Some e /\ e_key e <> (hash, s)) ->
  find_var fuel g prev st hash s = Some None.
Proof using Hstored.
  induction l as [|i l IH]; intros [|fuel] prev st Hl Hf Hk; cbn in Hf; try lia; cbn [find_var].
  - cbn in Hl. by subst st.
  - destruct Hl as [-> (b & Hb & Hl)]. destruct (Hk i) as (e & He & Hne); [left|].
    destruct (Hstored i e He) as (b' & Hb' & Hs). simplify_eq.
    rewrite (bucket_at_nat _ _ _ Hb). cbn [mbind option_bind]. rewrite (is_var_ok _ _ _ _ _ Hs).
    cbn [mbind option_bind]. rewrite bool_decide_false by done. apply IH; [done|lia|].
    intros j Hj. apply Hk. by right.
Qed.

Lemma find_var_found hi i lo e : forall fuel prev st, links (buckets g) st (hi ++ i :: lo) ->
  (length hi < fuel)%nat -> E !! i = Some e -> e_key e = (hash, s) ->
  (forall j, j ∈ hi -> exists e, E !! j = Some e /\ e_key e <> (hash, s)) ->
  find_var fuel g prev st hash s
  = Some (Some (match last hi with Some q => Some (Z.of_nat q) | None => prev end, Z.of_nat i)).
Proof using Hstored.
  induction hi as [|j hi IH]; intros [|fuel] prev st Hl Hf He Hk Hhi; cbn in Hf; try lia; cbn [find_var].
  - destruct Hl as [-> (b & Hb & _)]. destruct (Hstored i e He) as (b' & Hb' & Hs). simplify_eq.
    rewrite (bucket_at_nat _ _ _ Hb). cbn [mbind option_bind]. rewrite (is_var_ok _ _ _ _ _ Hs).
    cbn [mbind option_bind]. by rewrite bool_decide_true.
  - destruct Hl as [-> (b & Hb & Hl)]. destruct (Hhi j) as (ej & Hj & Hne); [left|].
    destruct (Hstored j ej Hj) as (b' & Hb' & Hs). simplify_eq.
    rewrite (bucket_at_nat _ _ _ Hb). cbn [mbind option_bind]. rewrite (is_var_ok _ _ _ _ _ Hs).
    cbn [mbind option_bind]. rewrite bool_decide_false by done.
    rewrite (IH _ (Some (Z.of_nat j)) _ Hl); [|lia|done|done|].
    + rewrite last_cons. by destruct (last hi).
    + intros k Hk'. apply Hhi. by right.
Qed.
End Find.

Lemma table_idx_range hash : 0 <= table_idx hash < 128.
Proof.
  unfold table_idx. change FCGI_HASH_TABLE_MASK with (Z.ones 7). rewrite Z.land_ones by lia.
  by apply Z.mod_pos_bound.
Qed.

Definition slot (hash : Z) : nat := Z.to_nat (table_idx hash).

Lemma table_head g E hash : env_ok g E -> exists st, hash_table g !! slot hash = Some st /\
  aget (hash_table g) (table_idx hash) = Some st /\ links (buckets g) st (places (on_chain (slot hash)) E).
Proof.
  intros Hok. pose proof (table_idx_range hash). pose proof (ok_table _ _ Hok).
  destruct (lookup_lt_is_Some_2 (hash_table g) (slot hash)) as [st Hst]; [unfold slot; lia|].
  exists st. split; [done|]. split; [|by apply (ok_chains _ _ Hok)].
  unfold aget. by rewrite (proj2 (Z.leb_le _ _)) by lia.
Qed.

Lemma on_chain_slot e v hash s : e_val e = Some v -> e_key e = (hash, s) -> on_chain (slot hash) e = true.
Proof. unfold on_chain, e_key, slot. intros -> [= -> _]. apply Nat.eqb_refl. Qed.

Lemma elem_on_chain E t i : i ∈ places (on_chain t) E -> exists e v, E !! i = Some e /\ e_val e = Some v.
Proof.
  intros (e & He & Ho)%elem_of_places. unfold on_chain in Ho. destruct (e_val e) as [v|] eqn:Ev; [|done].
  by exists e, v.
Qed.

(** [E] has the name in entry [e], after the entries [E1]. *)
Definition holds E (k : Z * list Z) E1 e E2 (v : list Z) : Prop :=
  E = E1 ++ e :: E2 /\ e_val e = Some v /\ e_key e = k /\ k ∉ (live E1).*1 /\ k ∉ (live E2).*1.

Lemma live_middle E1 e E2 v : e_val e = Some v -> live (E1 ++ e :: E2) = live E1 ++ (e_key e, v) :: live E2.
Proof. intros Hv. rewrite live_app. unfold live at 2. cbn. by rewrite Hv. Qed.

Lemma env_key_cases g E k : env_ok g E -> (exists E1 e E2 v, holds E k E1 e E2 v) \/ k ∉ (live E).*1.
Proof.
  intros Hok. destruct (decide (k ∈ (live E).*1)) as [(i & e & v & Hi & Hv & Hk)%elem_of_live|]; [left|by right].
  exists (take i E), e, (drop (S i) E), v. pose proof (take_drop_middle E i e Hi) as Et.
  pose proof (ok_keys _ _ Hok) as Hnd. rewrite <- Et in Hnd. rewrite (live_middle _ _ _ _ Hv) in Hnd.
  rewrite fmap_app, fmap_cons in Hnd. apply NoDup_app in Hnd as (_ & H1 & [H2 _]%NoDup_cons).
  cbn in H1, H2. rewrite Hk in *. split_and!; try done. intros Hin. apply (H1 _ Hin). by left.
Qed.

(** What the search of a well-formed table finds. *)
Lemma lookup_var_ok g E hash s : env_ok g E ->
  ((hash, s) ∉ (live E).*1 -> lookup_var g hash s = Some None) /\
  forall E1 e E2 v, holds E (hash, s) E1 e E2 v ->
    lookup_var g hash s
    = Some (Some (Z.of_nat <$> last (places_from (on_chain (slot hash)) (S (length E1)) E2), Z.of_nat (length E1))).
Proof.
  intros Hok. destruct (table_head g E hash Hok) as (st & _ & Ha & Hl). unfold lookup_var. rewrite Ha.
  cbn [mbind option_bind]. pose proof (length_places_from (on_chain (slot hash)) 0 E) as Hlen.
  fold (places (on_chain (slot hash)) E) in Hlen. pose proof (ok_used _ _ Hok). pose proof (ok_idx _ _ Hok).
  assert (forall i e, E !! i = Some e -> exists b, buckets g !! i = Some (Some b) /\ stores g b e) as Hst.
  { intros i e He. destruct (ok_entries _ _ Hok _ _ He) as (b & ? & ? & _). by exists b. }
  split.
  - intros Hk. eapply (find_var_none g E hash s Hst); [exact Hl|lia|].
    intros i (e & v & He & Hv)%elem_on_chain. exists e. split; [done|]. intros Hke.
    apply Hk, elem_of_live. by exists i, e, v.
  - intros E1 e E2 v (-> & Hv & Hk & _ & Hk2).
    rewrite places_split, (on_chain_slot _ _ _ _ Hv Hk) in Hl, Hlen. rewrite length_app in Hlen.
    rewrite (find_var_found g (E1 ++ e :: E2) hash s Hst _ _ _ e _ None st Hl); [|lia|by apply list_lookup_middle|done|].
    + by destruct (last _).
    + intros j (Hj & ej & Hej & Ho)%elem_of_places_from. unfold on_chain in Ho.
      destruct (e_val ej) as [vj|] eqn:Evj; [|done]. exists ej.
      rewrite lookup_app_r by lia. replace (j - length E1)%nat with (S (j - S (length E1))) by lia.
      split; [done|]. intros Hkj. apply Hk2, elem_of_live. by exists (j - S (length E1))%nat, ej, vj.
Qed.

(** ** The operations *)
Lemma stores_ext g g' b e : (forall p s, holds_str g p s -> holds_str g' p s) -> stores g b e -> stores g' b e.
Proof.
  intros Hs (H1 & H2 & H3 & H4). split_and!; [done|done|by apply Hs|].
  destruct (e_val e); [|done]. destruct H4 as (p & ? & ? & ?). exists p. split_and!; auto.
Qed.

Lemma holds_entry g E k E1 e E2 v : env_ok g E -> holds E k E1 e E2 v ->
  exists b, buckets g !! length E1 = Some (Some b) /\ bucket_at g (Z.of_nat (length E1)) = Some b /\
    stores g b e /\ list_next b = top (length E1).
Proof.
  intros Hok (-> & _). destruct (ok_entries _ _ Hok (length E1) e) as (b & Hb & Hs & Hn); [by apply list_lookup_middle|].
  exists b. split_and!; try done. by apply bucket_at_nat.
Qed.

Lemma get_ok g E hash s : env_ok g E -> fcgi_hash_get g hash s = Some (om_lookup (hash, s) (live E)).
Proof.
  intros Hok. unfold fcgi_hash_get. destruct (lookup_var_ok g E hash s Hok) as [Hno Hyes].
  destruct (env_key_cases g E (hash, s) Hok) as [(E1 & e & E2 & v & Hh)|Hk].
  - rewrite (Hyes _ _ _ _ Hh). cbn [mbind option_bind].
    destruct (holds_entry _ _ _ _ _ _ _ Hok Hh) as (b & _ & -> & (_ & _ & _ & Hv) & _). cbn [mbind option_bind].
    destruct Hh as (-> & Ev & Hk & H1 & _). rewrite Ev in Hv. destruct Hv as (p & -> & -> & Hp).
    rewrite (holds_chars _ _ _ Hp). cbn [mbind option_bind].
    by rewrite (live_middle _ _ _ _ Ev), Hk, om_lookup_middle.
  - rewrite (Hno Hk). cbn. f_equal. symmetry. by apply om_lookup_None.
Qed.

Definition set_val v e : entry := {| e with e_val := v |}.

Lemma env_set_bucket_ok g (i : nat) b : (i < length (buckets g))%nat ->
  set_bucket g (Z.of_nat i) b = Some {| g with buckets := <[i := Some b]> (buckets g) |}.
Proof.
  intros Hi. unfold set_bucket, aset. by rewrite (proj2 (in_range_iff _ _ _)), Nat2Z.id by lia.
Qed.

Lemma env_bound g E : env_ok g E -> (length E <= length (buckets g))%nat.
Proof. intros Hok. pose proof (ok_used _ _ Hok). pose proof (ok_idx _ _ Hok). lia. Qed.

(** A table that differs in the bucket of one entry. *)
Lemma replaced_ok g g' E1 e e' E2 b :
  env_ok g (E1 ++ e :: E2) -> idx g' = idx g -> vars g' = vars g -> length (hash_table g') = 128%nat ->
  length (buckets g') = length (buckets g) -> segs_ok g' ->
  (forall p s, holds_str g p s -> holds_str g' p s) ->
  (forall i b, i <> length E1 -> buckets g !! i = Some (Some b) -> exists n, buckets g' !! i = Some (Some {| b with next := n |})) ->
  buckets g' !! length E1 = Some (Some b) -> stores g' b e' -> list_next b = top (length E1) ->
  (forall t st, hash_table g' !! t = Some st -> links (buckets g') st (places (on_chain t) (E1 ++ e' :: E2))) ->
  NoDup (live (E1 ++ e' :: E2)).*1 -> env_ok g' (E1 ++ e' :: E2).
Proof.
  intros [H1 H2 H3 H4 H5 H6 H7 H8 H9] Hidx Hvars Htab Hlen Hseg Hext Hother Hb Hst Hn Hch Hnd.
  assert (length (E1 ++ e' :: E2) = length (E1 ++ e :: E2)) as Hl by (by rewrite !length_app).
  split; try done; try (rewrite ?Hlen, ?Hidx, ?Hl, ?Hvars; done).
  intros i x Hi. destruct (decide (i = length E1)) as [->|Hne].
  - rewrite list_lookup_middle in Hi by done. injection Hi as <-. by exists b.
  - assert ((E1 ++ e :: E2) !! i = Some x) as Hi'.
    { destruct (decide (i < length E1)%nat) as [Hlt|Hge]; [rewrite lookup_app_l in Hi |- * by lia; done|].
      rewrite lookup_app_r in Hi |- * by lia. by destruct (i - length E1)%nat eqn:Ed; [lia|]. }
    destruct (H6 i x Hi') as (bi & Hbi & Hsi & Hni). destruct (Hother i bi Hne Hbi) as (n & Hn').
    exists {| bi with next := n |}. split_and!; [done| |done]. by apply (stores_ext g g' bi).
Qed.

Lemma set_old_ok g E hash s E1 e E2 v v' : env_ok g E -> holds E (hash, s) E1 e E2 v ->
  Z.of_nat (length v') < 2 ^ 32 - 1 ->
  exists g' p, fcgi_hash_set g hash s v' = Some (g', p) /\ env_ok g' (E1 ++ set_val (Some v') e :: E2) /\ holds_str g' p v'.
Proof.
  intros Hok Hh Hv'. unfold fcgi_hash_set. destruct (lookup_var_ok g E hash s Hok) as [_ Hyes].
  rewrite (Hyes _ _ _ _ Hh). cbn [mbind option_bind].
  destruct (holds_entry _ _ _ _ _ _ _ Hok Hh) as (b & Hb & -> & Hs & Hn). cbn [mbind option_bind].
  pose proof (lookup_lt_Some _ _ _ Hb) as Hlt. rewrite env_set_bucket_ok by done. cbn [mbind option_bind].
  set (b1 := {| b with val_len := _ |}). set (g1 := {| g with buckets := _ |}).
  destruct (strndup_ok g1 v') as (g2 & p & -> & E2' & Hseg & Hp & Hext); [apply (ok_segs _ _ Hok)|done|].
  cbn [mbind option_bind]. assert (buckets g2 = buckets g1) as Eb by (by rewrite E2').
  assert (buckets g2 !! length E1 = Some (Some b1)) as Hb2 by (rewrite Eb; by apply list_lookup_insert_eq).
  rewrite (bucket_at_nat _ _ _ Hb2). cbn [mbind option_bind]. rewrite env_set_bucket_ok by (by apply lookup_lt_Some in Hb2).
  cbn [mbind option_bind]. eexists _, p. split; [done|]. split; [|exact Hp].
  pose proof Hh as (-> & Hev & Hk & Hk1 & Hk2).
  eapply (replaced_ok g _ E1 e _ E2 {| b1 with val := Some p |} Hok); cbn [idx vars buckets hash_table segs].
  - by rewrite E2'.
  - by rewrite E2'.
  - rewrite E2'. apply (ok_table _ _ Hok).
  - rewrite length_insert, Eb. apply length_insert.
  - exact Hseg.
  - exact Hext.
  - intros i bi Hne Hbi. exists (next bi). rewrite Eb. cbn. rewrite !list_lookup_insert_ne by done. rewrite Hbi. by destruct bi.
  - apply list_lookup_insert_eq. by apply lookup_lt_Some in Hb2.
  - destruct Hs as (A1 & A2 & A3 & _). split_and!; [done|done|by apply Hext|]. by exists p.
  - done.
  - intros t st Hst. rewrite E2' in Hst. cbn in Hst. pose proof (ok_chains _ _ Hok t st Hst) as Hc.
    replace (places (on_chain t) (E1 ++ set_val (Some v') e :: E2)) with (places (on_chain t) (E1 ++ e :: E2)).
    2: { apply places_from_ext. rewrite !fmap_app, !fmap_cons. do 2 f_equal. unfold on_chain. cbn. by rewrite Hev. }
    revert Hc. apply links_ext. intros j bj _ Hj. rewrite Eb. cbn. rewrite list_insert_insert_eq.
    destruct (decide (length E1 = j)) as [<-|Hne].
    + exists {| b1 with val := Some p |}. rewrite list_lookup_insert_eq by done. split; [done|].
      rewrite Hb in Hj. by injection Hj as <-.
    + exists bj. by rewrite list_lookup_insert_ne.
  - pose proof (ok_keys _ _ Hok) as Hnd. rewrite (live_middle _ _ _ _ Hev) in Hnd.
    rewrite (live_middle _ (set_val (Some v') e) _ v') by done. by rewrite fmap_app, fmap_cons in *.
Qed.

(** A new block when the newest is full. *)
Lemma env_grow_ok g E : env_ok g E ->
  let g' := if FCGI_HASH_TABLE_SIZE <=? idx g then {| g with buckets := buckets g ++ new_block; idx := 0 |} else g in
  env_ok g' E /\ idx g' < 128 /\ hash_table g' = hash_table g /\ (length E < length (buckets g'))%nat /\
  forall p s, holds_str g p s -> holds_str g' p s.
Proof.
  intros Hok. pose proof Hok as [(n & H1) H2 H3 H4 H5 H6 H7 H8 H9]. unfold FCGI_HASH_TABLE_SIZE. zcase; cbn [idx buckets hash_table].
  2: { split_and!; try done; lia. }
  assert (length new_block = 128%nat) as Hb by (by apply length_replicate).
  split_and!; try done; [|rewrite length_app, Hb; lia]. split; cbn; try done.
  - exists (S n). rewrite length_app, Hb. lia.
  - rewrite length_app, Hb. lia.
  - intros i e He. destruct (H6 i e He) as (b & Hb' & Hs & Hn). exists b. split_and!; try done. by apply lookup_app_l_Some.
  - intros t st Hst. specialize (H8 t st Hst). revert H8. apply links_ext. intros j b _ Hj. exists b.
    split; [by apply lookup_app_l_Some|done].
Qed.

Lemma env_slot_lt g E hash : env_ok g E -> (slot hash < length (hash_table g))%nat.
Proof. intros Hok. pose proof (table_idx_range hash). rewrite (ok_table _ _ Hok). unfold slot. lia. Qed.

Lemma aset_slot g E hash x : env_ok g E ->
  aset (hash_table g) (table_idx hash) x = Some (<[slot hash := x]> (hash_table g)).
Proof.
  intros Hok. pose proof (table_idx_range hash). pose proof (ok_table _ _ Hok). unfold aset.
  by rewrite (proj2 (in_range_iff _ _ _)) by lia.
Qed.

(** A table with one more bucket, which is the head of its chain. *)
Lemma appended_ok g g' E e b st : env_ok g E -> idx g < 128 -> (length E < length (buckets g))%nat ->
  hash_table g !! slot (e_hash e) = Some st -> e_key e ∉ (live E).*1 -> e_val e <> None ->
  idx g' = idx g + 1 -> vars g' = Some (Z.of_nat (length E)) ->
  hash_table g' = <[slot (e_hash e) := Some (Z.of_nat (length E))]> (hash_table g) ->
  buckets g' = <[length E := Some b]> (buckets g) -> segs_ok g' ->
  (forall p s, holds_str g p s -> holds_str g' p s) ->
  stores g' b e -> next b = st -> list_next b = vars g -> env_ok g' (E ++ [e]).
Proof.
  intros [H1 H2 H3 H4 H5 H6 H7 H8 H9] Hidx Hlen Hst Hk Hv Ei Ev Et Eb Hseg Hext Hs Hn Hln.
  assert (forall j x, j <> length E -> buckets g !! j = x -> buckets g' !! j = x) as Hkeep.
  { intros j x Hne <-. rewrite Eb. by rewrite list_lookup_insert_ne. }
  split.
  - by rewrite Eb, length_insert.
  - lia.
  - rewrite Eb, length_insert, Ei, length_app. cbn. lia.
  - rewrite Ev, length_app, Nat.add_1_r. done.
  - done.
  - intros i x Hi. destruct (decide (i = length E)) as [->|Hne].
    + rewrite list_lookup_middle in Hi by done. injection Hi as <-. exists b.
      split_and!; [|done|by rewrite Hln]. rewrite Eb. by apply list_lookup_insert_eq.
    + rewrite lookup_app_l in Hi by (apply lookup_lt_Some in Hi; rewrite length_app in Hi; cbn in Hi; lia).
      destruct (H6 i x Hi) as (bi & Hbi & Hsi & Hni). exists bi. split_and!; [by apply Hkeep| |done].
      by apply (stores_ext g g').
  - by rewrite Et, length_insert.
  - assert (forall t st', hash_table g !! t = Some st' -> links (buckets g') st' (places (on_chain t) E)) as Hold.
    { intros t st' Hst'. specialize (H8 t st' Hst'). revert H8. apply links_ext.
      intros j bj (x & Hx & _)%elem_of_places Hj. exists bj. split; [|done]. apply Hkeep; [|done].
      apply lookup_lt_Some in Hx. lia. }
    intros t st'. rewrite Et, places_snoc. rewrite list_lookup_insert_Some. intros [(<- & <- & _)|[Hne Hst']].
    + unfold on_chain at 1. destruct (e_val e); [|done]. unfold slot. rewrite Nat.eqb_refl. split; [done|].
      exists b. rewrite Eb. split; [by apply list_lookup_insert_eq|]. rewrite <- Eb, Hn. by apply Hold.
    + unfold on_chain at 1. destruct (e_val e); [|done].
      rewrite (proj2 (Nat.eqb_neq _ _)) by (unfold slot in Hne; congruence). by apply Hold.
  - rewrite live_app. destruct (e_val e) as [v|] eqn:Eev; [|done]. unfold live at 2. cbn. rewrite Eev. cbn.
    rewrite fmap_app. apply NoDup_app. split_and!; [done| |apply NoDup_singleton].
    intros k Hk1 ->%list_elem_of_singleton. done.
Qed.

Lemma set_new_ok g E hash s v : env_ok g E -> (hash, s) ∉ (live E).*1 ->
  Z.of_nat (length s) < 2 ^ 32 - 1 -> Z.of_nat (length v) < 2 ^ 32 - 1 ->
  exists g' p, fcgi_hash_set g hash s v = Some (g', p) /\
    env_ok g' (E ++ [{| e_hash := hash; e_var := s; e_val := Some v |}]) /\ holds_str g' p v.
Proof.
  intros Hok Hk Hls Hlv. unfold fcgi_hash_set. destruct (lookup_var_ok g E hash s Hok) as [Hno _].
  rewrite (Hno Hk). cbn [mbind option_bind]. destruct (env_grow_ok g E Hok) as (Hok0 & Hi0 & Ht0 & Hl0 & Hx0).
  revert Hok0 Hi0 Ht0 Hl0 Hx0. generalize (if FCGI_HASH_TABLE_SIZE <=? idx g then {| g with buckets := buckets g ++ new_block; idx := 0 |} else g).
  intros g0 Hok0 Hi0 _ Hl0 _. cbn beta.
  destruct (table_head g0 E hash Hok0) as (st & Hst & -> & _). cbn [mbind option_bind].
  set (g1 := {| g0 with idx := _ |}).
  destruct (strndup_ok g1 s) as (g2 & n & -> & E2 & Hseg2 & Hp2 & Hx2); [apply (ok_segs _ _ Hok0)|done|]. cbn [mbind option_bind].
  destruct (strndup_ok g2 v) as (g3 & p & -> & E3 & Hseg3 & Hp3 & Hx3); [done..|]. cbn [mbind option_bind].
  assert (hash_table g3 = hash_table g0 /\ buckets g3 = buckets g0 /\ idx g3 = idx g0 + 1) as (Eh & Eb & Ei).
  { rewrite E3, E2. done. }
  rewrite Eh, (aset_slot g0 E) by done. cbn [mbind option_bind].
  replace (Z.of_nat (length (buckets g0)) - FCGI_HASH_TABLE_SIZE + idx g0) with (Z.of_nat (length E))
    by (rewrite (ok_used _ _ Hok0); unfold FCGI_HASH_TABLE_SIZE; lia).
  rewrite env_set_bucket_ok by (cbn; by rewrite Eb). cbn [mbind option_bind].
  eexists _, p. split; [done|]. split; [|exact Hp3].
  eapply (appended_ok g0 _ E {| e_hash := hash; e_var := s; e_val := Some v |} _ st Hok0 Hi0 Hl0 Hst); cbn; try done.
  - by rewrite Eb.
  - intros p' s' H. apply Hx3, Hx2. exact H.
  - split_and!; [done|done|by apply Hx3|]. by exists p.
  - done.
  - done.
Qed.

(** The chain that visited [q] and then [i] goes past [i]. *)
Lemma links_bypass bs hi q i lo st bq bi b : links bs st (hi ++ q :: i :: lo) -> NoDup (hi ++ q :: i :: lo) ->
  bs !! q = Some (Some bq) -> bs !! i = Some (Some bi) -> next b = next bi ->
  links (<[q := Some {| bq with next := next bi |}]> (<[i := Some b]> bs)) st (hi ++ q :: lo).
Proof.
  intros Hc Hnd Hq Hi Hb. revert st Hc. induction hi as [|j hi IH]; intros st Hc.
  - destruct Hc as [-> (bq' & Hq' & E & bi' & Hi' & Hc)]. simplify_eq. cbn [app] in Hnd.
    apply NoDup_cons in Hnd as [Hqi Hnd]. apply NoDup_cons in Hnd as [Hil _].
    apply not_elem_of_cons in Hqi as [Hne Hql]. split; [done|]. eexists.
    rewrite list_lookup_insert_eq by (rewrite length_insert; by apply lookup_lt_Some in Hq).
    split; [done|]. cbn. revert Hc. apply links_ext. intros j bj Hj Hbj. exists bj.
    by rewrite !list_lookup_insert_ne by (intros ->; done).
  - destruct Hc as [-> (bj & Hbj & Hc)]. cbn [app] in Hnd. apply NoDup_cons in Hnd as [Hj Hnd].
    split; [done|]. exists bj. rewrite !list_lookup_insert_ne.
    + split; [done|]. by apply IH.
    + intros ->. apply Hj, elem_of_app. right. right. by left.
    + intros ->. apply Hj, elem_of_app. right. by left.
Qed.

Lemma places_dead t E1 e E2 : places (on_chain t) (E1 ++ set_val None e :: E2)
  = places_from (on_chain t) (S (length E1)) E2 ++ places (on_chain t) E1.
Proof. by rewrite places_split. Qed.

(** The deleted entry's own chain, around it; the others do not visit it. *)
Lemma places_around t E1 e E2 v : e_val e = Some v -> places (on_chain t) (E1 ++ e :: E2)
  = places_from (on_chain t) (S (length E1)) E2 ++ (if decide (t = slot (e_hash e)) then [length E1] else [])
    ++ places (on_chain t) E1.
Proof.
  intros Hv. rewrite places_split. do 2 f_equal. unfold on_chain. rewrite Hv. unfold slot.
  by destruct (decide _) as [->|Hne]; [rewrite Nat.eqb_refl|rewrite (proj2 (Nat.eqb_neq _ _)) by congruence].
Qed.

(** What [fcgi_hash_del] makes of the heads and the buckets. *)
Lemma unlink_links g E1 e E2 v b t st : env_ok g (E1 ++ e :: E2) -> e_val e = Some v ->
  buckets g !! length E1 = Some (Some b) -> hash_table g !! t = Some st ->
  let b' := {| b with val := None; val_len := 0 |} in
  match last (places_from (on_chain (slot (e_hash e))) (S (length E1)) E2) with
  | None => links (<[length E1 := Some b']> (buckets g)) (if decide (t = slot (e_hash e)) then next b else st)
              (places (on_chain t) (E1 ++ set_val None e :: E2))
  | Some q => exists bq, buckets g !! q = Some (Some bq) /\ q <> length E1 /\
      links (<[q := Some {| bq with next := next b |}]> (<[length E1 := Some b']> (buckets g))) st
        (places (on_chain t) (E1 ++ set_val None e :: E2))
  end.
Proof.
  intros Hok Hv Hb Hst b'. pose proof (ok_chains _ _ Hok t st Hst) as Hc.
  pose proof (NoDup_places_from (on_chain t) 0 (E1 ++ e :: E2)) as Hnd. fold (places (on_chain t) (E1 ++ e :: E2)) in Hnd.
  rewrite (places_around _ _ _ _ _ Hv) in Hc, Hnd. rewrite places_dead.
  assert (forall st l, links (buckets g) st l -> links (<[length E1 := Some b']> (buckets g)) st l) as Hval.
  { intros st' l. apply links_ext. intros j bj _ Hj. destruct (decide (length E1 = j)) as [<-|Hne].
    - exists b'. rewrite list_lookup_insert_eq by (by apply lookup_lt_Some in Hb). split; [done|].
      rewrite Hb in Hj. by injection Hj as <-.
    - exists bj. by rewrite list_lookup_insert_ne. }
  destruct (last (places_from (on_chain (slot (e_hash e))) (S (length E1)) E2)) as [q|] eqn:Hq.
  - apply last_Some in Hq as [hi Hhi].
    assert (q ∈ places_from (on_chain (slot (e_hash e))) (S (length E1)) E2) as Hin by (rewrite Hhi; apply elem_of_app; right; by left).
    pose proof Hin as (Hqi & eq & Heq & Hoq)%elem_of_places_from.
    destruct (ok_entries _ _ Hok q eq) as (bq & Hbq & _).
    { rewrite lookup_app_r by lia. by replace (q - length E1)%nat with (S (q - S (length E1))) by lia. }
    exists bq. split; [done|]. split; [lia|]. destruct (decide (t = slot (e_hash e))) as [->|Hne].
    + rewrite Hhi, <- app_assoc in Hc, Hnd |- *. by apply (links_bypass _ _ _ (length E1) _ _ bq b b').
    + apply Hval in Hc. cbn [app] in Hc. revert Hc. apply links_ext. intros j bj Hj Hbj. exists bj.
      split; [|done]. rewrite list_lookup_insert_ne; [done|]. intros ->.
      assert ((E1 ++ e :: E2) !! j = Some eq) as Hje.
      { rewrite lookup_app_r by lia. by replace (j - length E1)%nat with (S (j - S (length E1))) by lia. }
      assert (on_chain t eq = true) as Hot.
      { rewrite <- (places_dead t E1 e E2) in Hj. apply elem_of_places in Hj as (x & Hx & Ho).
        rewrite lookup_app_r in Hx, Hje by lia. replace (j - length E1)%nat with (S (j - S (length E1))) in Hx, Hje by lia.
        cbn in Hx, Hje. congruence. }
      unfold on_chain in Hoq, Hot. destruct (e_val eq); [|done]. apply Nat.eqb_eq in Hoq, Hot. congruence.
  - apply last_None in Hq. destruct (decide (t = slot (e_hash e))) as [->|Hne].
    + rewrite Hq in Hc |- *. destruct Hc as [_ (b0 & Hb0 & Hc)]. cbn [app] in Hc |- *.
      rewrite Hb in Hb0. injection Hb0 as <-. by apply Hval.
    + by apply Hval.
Qed.

Lemma del_ok g E hash s E1 e E2 v : env_ok g E -> holds E (hash, s) E1 e E2 v ->
  exists g', fcgi_hash_del g hash s = Some g' /\ env_ok g' (E1 ++ set_val None e :: E2).
Proof.
  intros Hok Hh. unfold fcgi_hash_del. destruct (lookup_var_ok g E hash s Hok) as [_ Hyes].
  rewrite (Hyes _ _ _ _ Hh). cbn [mbind option_bind].
  destruct (holds_entry _ _ _ _ _ _ _ Hok Hh) as (b & Hb & -> & Hs & Hn). cbn [mbind option_bind].
  pose proof (lookup_lt_Some _ _ _ Hb) as Hlt. rewrite env_set_bucket_ok by done. cbn [mbind option_bind].
  destruct Hh as (-> & Hev & Hk & Hk1 & Hk2). assert (e_hash e = hash) as He by (unfold e_key in Hk; congruence).
  set (b' := {| b with val := None; val_len := 0 |}).
  pose proof (fun t st => unlink_links g E1 e E2 v b t st Hok Hev Hb) as Hun. rewrite He in Hun.
  assert (forall g', idx g' = idx g -> vars g' = vars g -> segs g' = segs g -> length (hash_table g') = 128%nat ->
    length (buckets g') = length (buckets g) ->
    (forall i bi, i <> length E1 -> buckets g !! i = Some (Some bi) -> exists n, buckets g' !! i = Some (Some {| bi with next := n |})) ->
    buckets g' !! length E1 = Some (Some b') ->
    (forall t st, hash_table g' !! t = Some st -> links (buckets g') st (places (on_chain t) (E1 ++ set_val None e :: E2))) ->
    env_ok g' (E1 ++ set_val None e :: E2)) as Hrep.
  { intros g' A1 A2 A3 A4 A5 A6 A7 A8.
    assert (forall p s', holds_str g p s' -> holds_str g' p s') as Hx by (unfold holds_str; by rewrite A3).
    eapply (replaced_ok g g' E1 e _ E2 b' Hok); try done.
    - unfold segs_ok. rewrite A3. apply (ok_segs _ _ Hok).
    - destruct Hs as (B1 & B2 & B3 & _). split_and!; [done|done|by apply Hx|done].
    - pose proof (ok_keys _ _ Hok) as Hnd. rewrite (live_middle _ _ _ _ Hev), fmap_app, fmap_cons in Hnd.
      rewrite live_app. unfold live at 2. cbn. fold (live E2). rewrite fmap_app.
      rewrite <- Permutation_middle in Hnd. by apply NoDup_cons in Hnd as [_ Hnd]. }
  destruct (last (places_from (on_chain (slot hash)) (S (length E1)) E2)) as [q|]; cbn [fmap option_fmap option_map].
  - destruct (table_head g _ hash Hok) as (st0 & Hst0 & _). destruct (Hun _ _ Hst0) as (bq & Hbq & Hqi & _).
    rewrite (bucket_at_nat _ q bq) by (cbn; by rewrite list_lookup_insert_ne). cbn [mbind option_bind].
    rewrite env_set_bucket_ok by (cbn; rewrite length_insert; by apply lookup_lt_Some in Hbq).
    eexists. split; [done|]. apply Hrep; cbn; try done.
    + apply (ok_table _ _ Hok).
    + by rewrite !length_insert.
    + intros i bi Hne Hbi. destruct (decide (q = i)) as [<-|Hqn].
      * exists (next b). rewrite list_lookup_insert_eq by (rewrite length_insert; by apply lookup_lt_Some in Hbq).
        rewrite Hbi in Hbq. by injection Hbq as <-.
      * exists (next bi). rewrite !list_lookup_insert_ne by done. rewrite Hbi. by destruct bi.
    + rewrite list_lookup_insert_ne by done. by apply list_lookup_insert_eq.
    + intros t st Hst. destruct (Hun _ _ Hst) as (bq' & Hbq' & _ & Hl).
      rewrite Hbq in Hbq'. by injection Hbq' as <-.
  - rewrite (aset_slot g (E1 ++ e :: E2)) by done. cbn [mbind option_bind]. eexists. split; [done|].
    apply Hrep; cbn; try done.
    + rewrite length_insert. apply (ok_table _ _ Hok).
    + by rewrite !length_insert.
    + intros i bi Hne Hbi. exists (next bi). rewrite !list_lookup_insert_ne by done. rewrite Hbi. by destruct bi.
    + by apply list_lookup_insert_eq.
    + intros t st. rewrite list_lookup_insert_Some. intros [(<- & <- & _)|[Hne Hst]].
      * destruct (table_head g _ hash Hok) as (st0 & Hst0 & _). specialize (Hun _ _ Hst0). by rewrite decide_True in Hun.
      * specialize (Hun _ _ Hst). by rewrite decide_False in Hun.
Qed.

Lemma apply_loop_ok {A} g E (func : list Z -> list Z -> A -> A) : env_ok g E ->
  forall n arg fuel, (n <= length E)%nat -> (n < fuel)%nat ->
  apply_loop fuel g func (top n) arg = Some (foldr (fun p => func p.1.2 p.2) arg (live (take n E))).
Proof.
  intros Hok. induction n as [|n IH]; intros arg [|fuel] Hn Hf; try lia; [done|]. cbn [apply_loop top].
  destruct (lookup_lt_is_Some_2 E n) as [e He]; [lia|].
  destruct (ok_entries _ _ Hok n e He) as (b & Hb & (_ & H2 & H3 & H4) & Hn').
  rewrite (bucket_at_nat _ _ _ Hb), (take_S_r _ _ _ He), live_app. cbn [mbind option_bind].
  unfold live at 2. cbn. rewrite foldr_app. destruct (e_val e) as [v|].
  - destruct H4 as (p & -> & -> & Hp). rewrite H2, (holds_chars _ _ _ H3), (holds_chars _ _ _ Hp). cbn.
    rewrite Hn'. apply IH; lia.
  - rewrite H4, Hn'. cbn. apply IH; lia.
Qed.

Lemma apply_ok {A} g E (func : list Z -> list Z -> A -> A) arg : env_ok g E ->
  fcgi_hash_apply g func arg = Some (foldr (fun p => func p.1.2 p.2) arg (live E)).
Proof.
  intros Hok. unfold fcgi_hash_apply. rewrite (ok_vars _ _ Hok).
  rewrite (apply_loop_ok g E func Hok); [|lia|pose proof (env_bound _ _ Hok); lia].
  by rewrite take_ge by lia.
Qed.

Lemma no_links t st : replicate (Z.to_nat FCGI_HASH_TABLE_SIZE) (@None Z) !! t = Some st -> forall bs, links bs st [].
Proof. by intros [-> _]%lookup_replicate. Qed.

Lemma init_ok : env_ok fcgi_hash_init [].
Proof.
  split; cbn [buckets idx vars hash_table fcgi_hash_init]; try done.
  - by exists O.
  - split; [done|]. apply Forall_singleton. unfold seg_ok, new_seg. cbn [pos data]. lia.
  - intros t st Hst. exact (no_links t st Hst []).
  - constructor.
Qed.

Lemma clean_ok g E : env_ok g E -> env_ok (fcgi_hash_clean g) [].
Proof.
  intros [(n & H1) H2 H3 H4 [H5 H5'] H6 H7 H8 H9].
  assert (length (take (Z.to_nat FCGI_HASH_TABLE_SIZE) (buckets g)) = 128%nat) as Hlen.
  { rewrite length_take, H1. change (Z.to_nat FCGI_HASH_TABLE_SIZE) with 128%nat. lia. }
  split; cbn [buckets idx vars hash_table fcgi_hash_clean]; try done.
  - exists O. by rewrite Hlen.
  - by rewrite Hlen.
  - unfold segs_ok. cbn [segs fcgi_hash_clean]. destruct (segs g) as [|d ds]; [done|]. cbn. split; [done|].
    apply Forall_singleton. unfold seg_ok. cbn. lia.
  - intros t st Hst. exact (no_links t st Hst []).
  - constructor.
Qed.

(** ** Refinement *)
Inductive env_op := Put_var (hash : Z) (s v : list Z) | Del_var (hash : Z) (s : list Z) | Get_var (hash : Z) (s : list Z) | Clean.

(** A step of the code; what it answers is the string a returned pointer stands for. *)
Definition env_step g (op : env_op) : option (fcgi_hash * option (list Z)) :=
  match op with
  | Put_var hash s v => '(g, p) ← fcgi_hash_set g hash s v; r ← chars g p (Z.of_nat (length v)); Some (g, Some r)
  | Del_var hash s => g ← fcgi_hash_del g hash s; Some (g, None)
  | Get_var hash s => r ← fcgi_hash_get g hash s; Some (g, r)
  | Clean => Some (fcgi_hash_clean g, None)
  end.

(** The same on the ordered map. *)
Definition env_spec (m : list ((Z * list Z) * list Z)) (op : env_op) : list ((Z * list Z) * list Z) * option (list Z) :=
  match op with
  | Put_var hash s v => (om_insert (hash, s) v m, Some v)
  | Del_var hash s => (om_delete (hash, s) m, None)
  | Get_var hash s => (m, om_lookup (hash, s) m)
  | Clean => ([], None)
  end.

Fixpoint env_run g (ops : list env_op) : option (fcgi_hash * list (option (list Z))) :=
  match ops with
  | [] => Some (g, [])
  | op :: ops => '(g, r) ← env_step g op; '(g, rs) ← env_run g ops; Some (g, r :: rs)
  end.

Fixpoint env_spec_run m (ops : list env_op) : list ((Z * list Z) * list Z) * list (option (list Z)) :=
  match ops with
  | [] => (m, [])
  | op :: ops => let '(m, r) := env_spec m op in let '(m, rs) := env_spec_run m ops in (m, r :: rs)
  end.

(** Lengths are [unsigned int], and the terminator needs a byte. *)
Definition op_fits (op : env_op) : Prop :=
  match op with
  | Put_var _ s v => Z.of_nat (length s) < 2 ^ 32 - 1 /\ Z.of_nat (length v) < 2 ^ 32 - 1
  | _ => True
  end.

Lemma set_ok g E hash s v : env_ok g E -> Z.of_nat (length s) < 2 ^ 32 - 1 -> Z.of_nat (length v) < 2 ^ 32 - 1 ->
  exists g' p E', fcgi_hash_set g hash s v = Some (g', p) /\ env_ok g' E' /\ holds_str g' p v /\
    live E' = om_insert (hash, s) v (live E).
Proof.
  intros Hok Hs Hv. destruct (env_key_cases g E (hash, s) Hok) as [(E1 & e & E2 & v0 & Hh)|Hk].
  - destruct (set_old_ok _ _ _ _ _ _ _ _ v Hok Hh Hv) as (g' & p & -> & Hok' & Hp). eexists g', p, _.
    split_and!; try done. destruct Hh as (-> & Hev & Hk & H1 & _).
    rewrite (live_middle _ _ _ _ Hev), (live_middle _ (set_val (Some v) e) _ v) by done.
    change (e_key (set_val (Some v) e)) with (e_key e). by rewrite Hk, om_insert_middle.
  - destruct (set_new_ok _ _ _ _ v Hok Hk Hs Hv) as (g' & p & -> & Hok' & Hp). eexists g', p, _.
    split_and!; try done. by rewrite live_app, om_insert_new.
Qed.

Lemma env_step_ok g E op : env_ok g E -> op_fits op ->
  exists g' E' r, env_step g op = Some (g', r) /\ env_ok g' E' /\ (live E', r) = env_spec (live E) op.
Proof.
  intros Hok Hf. destruct op as [hash s v|hash s|hash s|]; cbn [env_step env_spec].
  - destruct Hf as [Hs Hv]. destruct (set_ok g E hash s v Hok Hs Hv) as (g' & p & E' & -> & Hok' & Hp & El).
    cbn [mbind option_bind]. rewrite (holds_chars _ _ _ Hp). cbn. exists g', E', (Some v). by rewrite El.
  - destruct (env_key_cases g E (hash, s) Hok) as [(E1 & e & E2 & v & Hh)|Hk].
    + destruct (del_ok _ _ _ _ _ _ _ _ Hok Hh) as (g' & -> & Hok'). cbn. eexists g', _, None. split; [done|]. split; [done|].
      destruct Hh as (-> & Hev & Hk & H1 & _). rewrite (live_middle _ _ _ _ Hev), Hk, om_delete_middle by done.
      by rewrite live_app.
    + unfold fcgi_hash_del. destruct (lookup_var_ok g E hash s Hok) as [Hno _]. rewrite (Hno Hk). cbn.
      exists g, E, None. by rewrite om_delete_new.
  - rewrite (get_ok g E hash s Hok). cbn. by eexists g, E, _.
  - eexists _, [], None. split; [done|]. split; [by apply (clean_ok g E)|done].
Qed.

Lemma env_run_ok ops : forall g E, env_ok g E -> Forall op_fits ops ->
  exists g' E' rs, env_run g ops = Some (g', rs) /\ env_ok g' E' /\ (live E', rs) = env_spec_run (live E) ops.
Proof.
  induction ops as [|op ops IH]; intros g E Hok Hf; cbn [env_run env_spec_run]; [by eexists g, E, _|].
  apply Forall_cons in Hf as [Hop Hf]. destruct (env_step_ok g E op Hok Hop) as (g1 & E1 & r & -> & Hok1 & <-).
  cbn [mbind option_bind]. destruct (IH g1 E1 Hok1 Hf) as (g2 & E2 & rs & -> & Hok2 & <-). cbn.
  by exists g2, E2, (r :: rs).
Qed.

(** C13: the environment of a request is an ordered map.  Whatever names, values and hashes are set, deleted,
    read and cleaned away, in any order and any number, no string leaves its segment or is overwritten by
    another, every read gives the last value set under the same name and hash, and [fcgi_hash_apply] visits
    exactly the pairs that are left, the latest new name first. *)
Theorem fcgi_hash_refines_map ops : Forall op_fits ops ->
  exists g rs, env_run fcgi_hash_init ops = Some (g, rs) /\ rs = (env_spec_run [] ops).2 /\
    forall A (func : list Z -> list Z -> A -> A) arg,
      fcgi_hash_apply g func arg = Some (foldr (fun p => func p.1.2 p.2) arg (env_spec_run [] ops).1).
Proof.
  intros Hf. destruct (env_run_ok ops _ _ init_ok Hf) as (g & E & rs & Hr & Hok & Hs).
  exists g, rs. change (live []) with (@nil ((Z * list Z) * list Z)) in Hs. rewrite <- Hs. split_and!; [done..|].
  intros A func arg. by apply apply_ok.
Qed.

(** Two names in one chain, one of them deleted and set again, behind a value that fills a segment. *)
Definition ex_ops : list env_op :=
  [Put_var 1 [65] (replicate 5000 120); Put_var 129 [66] [1; 2]; Del_var 1 [65]; Put_var 1 [65] [3]; Get_var 129 [66]; Get_var 1 [65]; Get_var 2 [65]].

Lemma fcgi_hash_refines_map_witness :
  exists g rs, env_run fcgi_hash_init ex_ops = Some (g, rs) /\ rs = (env_spec_run [] ex_ops).2 /\
    forall A (func : list Z -> list Z -> A -> A) arg,
      fcgi_hash_apply g func arg = Some (foldr (fun p => func p.1.2 p.2) arg (env_spec_run [] ex_ops).1).
Proof. apply (fcgi_hash_refines_map ex_ops). repeat constructor; cbn; lia. Defined.
