(* ===== verification/Fastcgi.v ===== *)
(** * FastCGI requests ([php_headers/fastcgi.c])

    The code of a connection to the web server: records, the parameters of a request, its body, the
    buffered answer.  The variables of a request are those of [FastcgiEnv], the management variables a
    table of [ZendHash].

    The peer is what the system calls answer: a [write] takes a number of bytes, is interrupted or fails, a
    [read] delivers some bytes, is interrupted or fails, and gives the end of the file when nothing is
    left.  A loop that waits for a peer that does not answer is [None].  Buffers are cells: an access
    outside them, or to a byte that was never written, is [None] too. *)
From Stdlib Require Import Ascii String.
From S2P Require Import Prelude ZendString ZendHash FastcgiEnv.

(** ** Protocol constants ([fastcgi.h]) *)
Definition FCGI_VERSION_1 : Z := 1.
Definition FCGI_MAX_LENGTH : Z := 65535.
Definition FCGI_KEEP_CONN : Z := 1.

Definition FCGI_RESPONDER : Z := 1.
Definition FCGI_AUTHORIZER : Z := 2.
Definition FCGI_FILTER : Z := 3.

Definition FCGI_BEGIN_REQUEST : Z := 1.
Definition FCGI_END_REQUEST : Z := 3.
Definition FCGI_PARAMS : Z := 4.
Definition FCGI_STDIN : Z := 5.
Definition FCGI_STDOUT : Z := 6.
Definition FCGI_STDERR : Z := 7.
Definition FCGI_GET_VALUES : Z := 9.
Definition FCGI_GET_VALUES_RESULT : Z := 10.

Definition FCGI_REQUEST_COMPLETE : Z := 0.

(** ** The peer *)
Inductive write_result := Accepted (n : nat) | Write_interrupted | Write_failed.
Inductive read_result := Delivered (bs : list Z) | Read_interrupted | Read_failed.
Inductive event := Shutdown (fd : Z) | Close (fd : Z) | On_close.

Record peer := { sent : list Z; writes : list write_result; reads : list read_result; events : list event }.

(** [n] bytes are written, [buf] is left.  The result is that of the function, or -1. *)
Fixpoint write_loop (ws : list write_result) (sent : list Z) (n : Z) (buf : list Z) :
  option (Z * list Z * list write_result) :=
  match ws with
  | [] => None
  | Write_failed :: ws => Some (-1, sent, ws)
  | w :: ws =>
      let m := match w with Accepted k => Nat.min k (length buf) | _ => O end in
      let n := n + Z.of_nat m in
      let sent := sent ++ take m buf in
      match drop m buf with
      | [] => Some (n, sent, ws)
      | buf => write_loop ws sent n buf
      end
  end.

Definition safe_write (c : peer) (buf : list Z) : option (Z * peer) :=
  '(n, sent, ws) ← write_loop (writes c) (sent c) 0 buf;
  Some (n, {| c with sent := sent; writes := ws |}).

(** [count] bytes are wanted yet, [got] are read. *)
Fixpoint read_loop (rs : list read_result) (count : nat) (got : list Z) : Z * list Z * list read_result :=
  match rs with
  | [] => (Z.of_nat (length got), got, [])
  | Read_failed :: rs => (-1, got, rs)
  | Read_interrupted :: rs =>
      if Nat.eqb count 0 then (Z.of_nat (length got), got, rs) else read_loop rs count got
  | Delivered bs :: rs =>
      let m := Nat.min count (length bs) in
      let got := got ++ take m bs in
      let rest := match drop m bs with [] => rs | bs => Delivered bs :: rs end in
      if Nat.eqb m 0 || Nat.eqb m count then (Z.of_nat (length got), got, rest) else read_loop rs (count - m) got
  end.

Definition safe_read (c : peer) (count : Z) : Z * list Z * peer :=
  let '(n, got, rs) := read_loop (reads c) (Z.to_nat count) [] in (n, got, {| c with reads := rs |}).

(** [while (recv(...) > 0)] *)
Fixpoint drain (rs : list read_result) : list read_result :=
  match rs with
  | Delivered (_ :: _) :: rs => drain rs
  | _ :: rs => rs
  | [] => []
  end.

(** How many bytes there are to read: fuel for the loops that read records. *)
Fixpoint available (rs : list read_result) : nat :=
  match rs with
  | [] => O
  | Delivered bs :: rs => length bs + available rs
  | _ :: rs => available rs
  end.

(** ** Requests *)

(** [out_buf] and the [reserved] bytes behind it are one array here; [out_hdr] and [out_pos] are
    offsets in it. *)
Definition OUT_BUF_SIZE : Z := 1024 * 8.
Definition RESERVED : Z := 16.

Record fcgi_request := {
  fd : Z; id : Z; keep : Z; tcp : bool; nodelay : bool; ended : bool; in_len : Z; in_pad : Z;
  out_hdr : option Z; out_pos : Z; out_buf : list (option Z); has_env : bool; env : fcgi_hash; conn : peer }.

Implicit Types (req : fcgi_request) (buf : list (option Z)) (str : list Z).

(** [calloc] fills with zeros. *)
Definition fcgi_init_request (c : peer) : fcgi_request :=
  {| fd := -1; id := -1; keep := 0; tcp := false; nodelay := false; ended := false; in_len := 0; in_pad := 0;
     out_hdr := None; out_pos := 0; out_buf := replicate (Z.to_nat (OUT_BUF_SIZE + RESERVED)) (Some 0);
     has_env := false; env := fcgi_hash_init; conn := c |}.

(** ** Records *)
Record fcgi_header := {
  version : Z; type : Z; requestIdB1 : Z; requestIdB0 : Z; contentLengthB1 : Z; contentLengthB0 : Z;
  paddingLength : Z; reserved : Z }.

Definition header_bytes (t req_id len pad : Z) : list Z :=
  [FCGI_VERSION_1; t; Z.land (Z.shiftr req_id 8) 255; Z.land req_id 255;
   Z.land (Z.shiftr len 8) 255; Z.land len 255; u8 pad; 0].

(** [((len + 7) & ~7) - len] *)
Definition padding (len : Z) : Z := Z.land (len + 7) (Z.lnot 7) - len.

(** The header goes to offset [off] of [buf], the padding behind the contents. *)
Definition fcgi_make_header buf (off t req_id len : Z) : option (list (option Z) * Z) :=
  let pad := padding len in
  buf ← copy_to buf off (header_bytes t req_id len pad);
  buf ← (if pad =? 0 then Some buf else copy_to buf (off + 8 + len) (replicate (Z.to_nat pad) 0));
  Some (buf, pad).

Definition header_of (bs : list Z) : option fcgi_header :=
  match bs with
  | [v; t; i1; i0; l1; l0; p; r] =>
      Some {| version := v; type := t; requestIdB1 := i1; requestIdB0 := i0; contentLengthB1 := l1;
              contentLengthB0 := l0; paddingLength := p; reserved := r |}
  | _ => None
  end.

Definition content_length (hdr : fcgi_header) : Z :=
  Z.lor (Z.shiftl (contentLengthB1 hdr) 8) (contentLengthB0 hdr).

(** [safe_read(req, &hdr, sizeof(fcgi_header)) != sizeof(fcgi_header) || hdr.version < FCGI_VERSION_1] *)
Definition read_header req : fcgi_request * option fcgi_header :=
  let '(ret, got, c) := safe_read (conn req) 8 in
  let req := {| req with conn := c |} in
  if negb (ret =? 8) then (req, None)
  else match header_of got with
       | Some hdr => (req, if version hdr <? FCGI_VERSION_1 then None else Some hdr)
       | None => (req, None)
       end.

(** ** Parameters *)

(** [FCGI_HASH_FUNC]: [char] is what a byte is as an [unsigned int]. *)
Definition byte_at buf (i : Z) : option Z := c ← aget buf i; c.

Definition FCGI_HASH_FUNC (char : Z -> Z) buf (off var_len : Z) : option Z :=
  if var_len <? 3 then Some var_len
  else
    c3 ← byte_at buf (off + 3);
    c2 ← byte_at buf (off + (var_len - 2));
    c1 ← byte_at buf (off + (var_len - 1));
    Some (u32 (Z.shiftl (char c3) 2 + Z.shiftl (char c2) 4 + Z.shiftl (char c1) 2 + var_len)).

Definition unsigned_char (c : Z) : Z := c.
Definition signed_char (c : Z) : Z := u32 (swrap 8 c).

(** A length at [p]: the length and the place behind it, or [None] where the function returns 0. *)
Definition param_len buf (p end_ : Z) : option (option (Z * Z)) :=
  l ← byte_at buf p;
  if 128 <=? l then
    if end_ <=? p + 1 + 3 then Some None
    else
      b2 ← byte_at buf (p + 1); b1 ← byte_at buf (p + 2); b0 ← byte_at buf (p + 3);
      Some (Some (Z.lor (Z.lor (Z.lor (Z.shiftl (Z.land l 127) 24) (Z.shiftl b2 16)) (Z.shiftl b1 8)) b0, p + 4))
  else Some (Some (l, p + 1)).

Fixpoint params_loop (fuel : nat) (g : fcgi_hash) buf (p end_ : Z) : option (fcgi_hash * bool) :=
  match fuel with
  | O => None
  | S fuel =>
      if end_ <=? p then Some (g, true)
      else
        r ← param_len buf p end_;
        match r with
        | None => Some (g, false)
        | Some (name_len, p) =>
            if end_ <=? p then Some (g, false)
            else
              r ← param_len buf p end_;
              match r with
              | None => Some (g, false)
              | Some (val_len, p) =>
                  if end_ - p <? u32 (name_len + val_len) then Some (g, false)
                  else
                    hash ← FCGI_HASH_FUNC unsigned_char buf p name_len;
                    var ← read_from buf p name_len;
                    val ← read_from buf (p + name_len) val_len;
                    '(g, _) ← fcgi_hash_set g hash var val;
                    params_loop fuel g buf (p + (name_len + val_len)) end_
              end
        end
  end.

Definition fcgi_get_params (g : fcgi_hash) buf (p end_ : Z) : option (fcgi_hash * bool) :=
  params_loop (S (Z.to_nat (end_ - p))) g buf p end_.

(** ** The variables of a request *)

(** A name as the caller has it, a string with its terminator, hashed as [char]s. *)
Definition name_hash str : option Z := FCGI_HASH_FUNC signed_char ((Some <$> str) ++ [Some 0]) 0 (Z.of_nat (length str)).

Definition fcgi_has_env req : bool := has_env req.

Definition fcgi_quick_getenv req var (hash : Z) : option (option (list Z)) := fcgi_hash_get (env req) hash var.

Definition fcgi_getenv req var : option (option (list Z)) :=
  hash ← name_hash var; fcgi_quick_getenv req var hash.

(** A NULL [val] deletes. *)
Definition fcgi_quick_putenv req var (hash : Z) (val : option (list Z)) : option fcgi_request :=
  g ← (match val with
       | None => fcgi_hash_del (env req) hash var
       | Some val => '(g, _) ← fcgi_hash_set (env req) hash var val; Some g
       end);
  Some {| req with env := g |}.

Definition fcgi_putenv req var (val : option (list Z)) : option fcgi_request :=
  hash ← name_hash var; fcgi_quick_putenv req var hash val.

Definition fcgi_loadenv {A} req (func : list Z -> list Z -> A -> A) (array : A) : option A :=
  fcgi_hash_apply (env req) func array.

(** ** Reading a request *)
Definition chars_of (s : String.string) : list Z := (fun c => Z.of_nat (Ascii.nat_of_ascii c)) <$> String.list_ascii_of_string s.

Definition FCGI_ROLE : list Z := Eval vm_compute in chars_of "FCGI_ROLE"%string.

Definition role_name (role : Z) : option (list Z) :=
  if role =? FCGI_RESPONDER then Some (chars_of "RESPONDER"%string)
  else if role =? FCGI_AUTHORIZER then Some (chars_of "AUTHORIZER"%string)
  else if role =? FCGI_FILTER then Some (chars_of "FILTER"%string)
  else None.

(** [while (hdr.type == FCGI_STDIN && len == 0)]; [None] in the result is that the function returns 0. *)
Fixpoint skip_stdin (fuel : nat) req (hdr : fcgi_header) : option (fcgi_request * option fcgi_header) :=
  match fuel with
  | O => None
  | S fuel =>
      if (type hdr =? FCGI_STDIN) && (content_length hdr =? 0) then
        let '(req, r) := read_header req in
        match r with Some hdr => skip_stdin fuel req hdr | None => Some (req, None) end
      else Some (req, Some hdr)
  end.

(** [safe_read(req, buf, len+padding) != len+padding]; [buf] is as long as the bytes that were read or
    longer. *)
Definition read_body req buf (n : Z) : option (fcgi_request * list (option Z) * bool) :=
  let '(ret, got, c) := safe_read (conn req) n in
  buf ← copy_to buf 0 got;
  Some ({| req with conn := c |}, buf, ret =? n).

(** [while (hdr.type == FCGI_PARAMS && len > 0)]; the result is whether the request is complete. *)
Fixpoint read_params (fuel : nat) req buf (hdr : fcgi_header) : option (fcgi_request * bool) :=
  match fuel with
  | O => None
  | S fuel =>
      let len := content_length hdr in
      let padding := paddingLength hdr in
      if (type hdr =? FCGI_PARAMS) && (0 <? len) then
        if FCGI_MAX_LENGTH <? len + padding then Some (req, false)
        else
          '(req, buf, ok) ← read_body req buf (len + padding);
          if negb ok then Some ({| req with keep := 0 |}, false)
          else
            '(g, ok) ← fcgi_get_params (env req) buf 0 len;
            let req := {| req with env := g |} in
            if negb ok then Some ({| req with keep := 0 |}, false)
            else
              let '(req, r) := read_header req in
              match r with
              | Some hdr => read_params fuel req buf hdr
              | None => Some ({| req with keep := 0 |}, false)
              end
      else Some (req, true)
  end.

Definition length_bytes (n : Z) : list Z :=
  if n <? 128 then [n]
  else [Z.lor (Z.land (Z.shiftr n 24) 255) 128; Z.land (Z.shiftr n 16) 255; Z.land (Z.shiftr n 8) 255; Z.land n 255].

Section Values.
(** [fcgi_mgmt_vars], whose values are strings. *)
Variable fcgi_mgmt_vars : HashTable (list Z).
Variable EG : executor_globals (list Z).

(** The answer to FCGI_GET_VALUES: the pairs go to [p], as long as they fit. *)
Fixpoint values_loop (fuel : nat) (g : fcgi_hash) buf (p : Z) (q : option Z) : option (list (option Z) * Z) :=
  match fuel with
  | O => None
  | S fuel =>
      match q with
      | None => Some (buf, p)
      | Some i =>
          b ← bucket_at g i;
          name ← chars g (var b) (var_len b);
          r ← zend_hash_str_find fcgi_mgmt_vars name;
          match r with
          | None => values_loop fuel g buf p (list_next b)
          | Some ref =>
              z ← zread EG fcgi_mgmt_vars ref;
              value ← (match z with IS_VAL v => Some v | _ => None end);
              let zlen := u32 (Z.of_nat (length value)) in
              if Z.of_nat (length buf) <=? p + 4 + 4 + var_len b + zlen then Some (buf, p)
              else
                let bytes := length_bytes (var_len b) ++ length_bytes zlen ++ name ++ take (Z.to_nat zlen) value in
                buf ← copy_to buf p bytes;
                values_loop fuel g buf (p + Z.of_nat (length bytes)) (list_next b)
          end
      end
  end.

Definition answer_values req buf : option fcgi_request :=
  '(buf, p) ← values_loop (S (length (buckets (env req)))) (env req) buf 8 (vars (env req));
  let len := p - 8 in
  '(buf, pad) ← fcgi_make_header buf 0 FCGI_GET_VALUES_RESULT 0 len;
  let len := len + pad in
  bytes ← read_from buf 0 (8 + len);
  '(ret, c) ← safe_write (conn req) bytes;
  let req := {| req with conn := c |} in
  Some (if negb (ret =? 8 + len) then {| req with keep := 0 |} else req).

(** [setsockopt] has no other effect here. *)
Definition set_keep req (flags : Z) : fcgi_request :=
  let req := {| req with keep := Z.land flags FCGI_KEEP_CONN |} in
  if negb (keep req =? 0) && tcp req && negb (nodelay req) then {| req with nodelay := true |} else req.

(** The branch of FCGI_BEGIN_REQUEST, and whether the function returns 1. *)
Definition begin_request req buf (hdr : fcgi_header) : option (fcgi_request * bool) :=
  '(req, buf, ok) ← read_body req buf (content_length hdr + paddingLength hdr);
  if negb ok then Some (req, false)
  else
    roleB1 ← byte_at buf 0; roleB0 ← byte_at buf 1; flags ← byte_at buf 2;
    let req := set_keep req flags in
    match role_name (Z.shiftl roleB1 8 + roleB0) with
    | None => Some (req, false)
    | Some role =>
        hash ← name_hash FCGI_ROLE;
        '(g, _) ← fcgi_hash_set (env req) hash FCGI_ROLE role;
        let '(req, r) := read_header {| req with env := g |} in
        match r with
        | None => Some (req, false)
        | Some hdr => read_params (S (available (reads (conn req)))) req buf hdr
        end
    end.

Definition fcgi_read_request req : option (fcgi_request * Z) :=
  let buf := replicate (Z.to_nat (FCGI_MAX_LENGTH + 8)) (@None Z) in
  let req := {| req with keep := 0; ended := false; in_len := 0; out_hdr := None; out_pos := 0 |} in
  let req := if has_env req then {| req with env := fcgi_hash_clean (env req) |} else {| req with has_env := true |} in
  let '(req, r) := read_header req in
  match r with
  | None => Some (req, 0)
  | Some hdr =>
      '(req, r) ← skip_stdin (S (available (reads (conn req)))) req hdr;
      match r with
      | None => Some (req, 0)
      | Some hdr =>
          let len := content_length hdr in
          let padding := paddingLength hdr in
          if FCGI_MAX_LENGTH <? len + padding then Some (req, 0)
          else
            let req := {| req with id := Z.shiftl (requestIdB1 hdr) 8 + requestIdB0 hdr |} in
            if (type hdr =? FCGI_BEGIN_REQUEST) && (len =? 8) then
              '(req, ok) ← begin_request req buf hdr; Some (req, if (ok : bool) then 1 else 0)
            else if type hdr =? FCGI_GET_VALUES then
              '(req, buf, ok) ← read_body req buf (len + padding);
              if negb ok then Some ({| req with keep := 0 |}, 0)
              else
                '(g, ok) ← fcgi_get_params (env req) buf 0 len;
                let req := {| req with env := g |} in
                if negb ok then Some ({| req with keep := 0 |}, 0)
                else req ← answer_values req buf; Some (req, 0)
            else Some (req, 0)
      end
  end.
End Values.

(** [fcgi_set_mgmt_var] *)
Definition fcgi_set_mgmt_var (EG : executor_globals (list Z)) (mgmt : HashTable (list Z)) (name value : list Z) :
  option (executor_globals (list Z) * HashTable (list Z)) :=
  '(EG, mgmt, _) ← zend_hash_add EG mgmt {| ZSTR_VAL := name; ZSTR_IS_INTERNED := false |} (IS_VAL value);
  Some (EG, mgmt).

(** ** The body of a request *)

(** The next record is begun where the last one is read; a result is what the function returns, [n] at the
    end of the body. *)
Definition next_stdin req (n : Z) : fcgi_request * option Z :=
  if in_len req =? 0 then
    let '(req, r) := read_header req in
    match r with
    | Some hdr =>
        if negb (type hdr =? FCGI_STDIN) then ({| req with keep := 0 |}, Some 0)
        else
          let req := {| req with in_len := content_length hdr; in_pad := paddingLength hdr |} in
          (req, if in_len req =? 0 then Some n else None)
    | None => ({| req with keep := 0 |}, Some 0)
    end
  else (req, None).

(** [str] holds the bytes read so far, [rest] are wanted; the number returned comes last. *)
Fixpoint read_rest (fuel : nat) req str (rest : Z) : option (fcgi_request * list Z * Z) :=
  match fuel with
  | O => None
  | S fuel =>
      let n := Z.of_nat (length str) in
      if rest <=? 0 then Some (req, str, n)
      else
        let '(req, r) := next_stdin req n in
        match r with
        | Some ret => Some (req, str, ret)
        | None =>
            let '(ret, got, c) := safe_read (conn req) (if rest <=? in_len req then rest else in_len req) in
            let req := {| req with conn := c |} in
            let str := str ++ got in
            if ret <? 0 then Some ({| req with keep := 0 |}, str, ret)
            else if 0 <? ret then
              let req := {| req with in_len := in_len req - ret |} in
              let n := n + ret in
              if in_len req =? 0 then
                let '(req, ok) :=
                  if negb (in_pad req =? 0) then
                    let '(ret, _, c) := safe_read (conn req) (in_pad req) in ({| req with conn := c |}, ret =? in_pad req)
                  else (req, true) in
                if (ok : bool) then read_rest fuel req str (rest - ret) else Some ({| req with keep := 0 |}, str, ret)
              else Some (req, str, n)
            else Some (req, str, n)
        end
  end.

Definition fcgi_read req (len : Z) : option (fcgi_request * list Z * Z) :=
  read_rest (S (S (available (reads (conn req))))) req [] len.

(** ** The answer *)
Definition open_packet req (t : Z) : option fcgi_request :=
  buf ← aset (out_buf req) (out_pos req + 1) (Some t);
  Some {| req with out_hdr := Some (out_pos req); out_buf := buf; out_pos := out_pos req + 8 |}.

Definition close_packet req : option fcgi_request :=
  match out_hdr req with
  | None => Some req
  | Some hdr =>
      let len := out_pos req - (hdr + 8) in
      t ← byte_at (out_buf req) (hdr + 1);
      '(buf, pad) ← fcgi_make_header (out_buf req) hdr t (id req) len;
      Some {| req with out_buf := buf; out_pos := out_pos req + pad; out_hdr := None |}
  end.

(** The five fields of [fcgi_end_request] that are set; its [reserved] bytes are what lies there. *)
Definition end_body : list Z := [0; 0; 0; 0; FCGI_REQUEST_COMPLETE].

Definition fcgi_flush req (end_ : bool) : option (fcgi_request * Z) :=
  req ← close_packet req;
  let len := out_pos req in
  buf ← (if end_ then
           '(buf, _) ← fcgi_make_header (out_buf req) (out_pos req) FCGI_END_REQUEST (id req) 8;
           copy_to buf (out_pos req + 8) end_body
         else Some (out_buf req));
  let len := if end_ then len + 16 else len in
  bytes ← read_from buf 0 len;
  '(ret, c) ← safe_write (conn req) bytes;
  let req := {| req with out_buf := buf; conn := c; out_pos := 0 |} in
  Some (if negb (ret =? len) then ({| req with keep := 0 |}, 0) else (req, 1)).

(** [memcpy(req->out_pos, str, n); req->out_pos += n] *)
Definition put req str : option fcgi_request :=
  buf ← copy_to (out_buf req) (out_pos req) str;
  Some {| req with out_buf := buf; out_pos := out_pos req + Z.of_nat (length str) |}.

(** A record of the bytes [str], written past the buffer: the header goes there and is flushed with it.
    The result is -1 where the function returns it. *)
Definition write_through req (t : Z) str : option (fcgi_request * Z) :=
  req ← open_packet req t;
  hdr ← out_hdr req;
  '(buf, _) ← fcgi_make_header (out_buf req) hdr t (id req) (Z.of_nat (length str));
  '(req, ok) ← fcgi_flush {| req with out_buf := buf; out_hdr := None |} false;
  if ok =? 0 then Some (req, -1)
  else
    '(ret, c) ← safe_write (conn req) str;
    let req := {| req with conn := c |} in
    Some (if negb (ret =? Z.of_nat (length str)) then ({| req with keep := 0 |}, -1) else (req, 0)).

(** [while ((len - pos) > 0xffff)], and what is left of the string. *)
Fixpoint write_large (fuel : nat) req (t : Z) str : option (fcgi_request * list Z * Z) :=
  match fuel with
  | O => None
  | S fuel =>
      if 65535 <? Z.of_nat (length str) then
        '(req, r) ← write_through req t (take (Z.to_nat 65528) str);
        if r <? 0 then Some (req, str, r) else write_large fuel req t (drop (Z.to_nat 65528) str)
      else Some (req, str, 0)
  end.

Definition is_open req : bool := match out_hdr req with Some _ => true | None => false end.

Definition fcgi_write req (t : Z) str : option (fcgi_request * Z) :=
  let len := Z.of_nat (length str) in
  if len <=? 0 then Some (req, 0)
  else
    t' ← (match out_hdr req with Some hdr => byte_at (out_buf req) (hdr + 1) | None => Some t end);
    req ← (if negb (t' =? t) then close_packet req else Some req);
    let limit := OUT_BUF_SIZE - out_pos req in
    let limit := if is_open req then limit else Z.max (limit - 8) 0 in
    let open req := if is_open req then Some req else open_packet req t in
    if len <? limit then
      req ← open req; req ← put req str; Some (req, len)
    else if len - limit <? OUT_BUF_SIZE - 8 then
      req ← open req;
      req ← (if 0 <? limit then put req (take (Z.to_nat limit) str) else Some req);
      '(req, ok) ← fcgi_flush req false;
      if ok =? 0 then Some (req, -1)
      else if limit <? len then
        req ← open_packet req t; req ← put req (drop (Z.to_nat limit) str); Some (req, len)
      else Some (req, len)
    else
      req ← close_packet req;
      '(req, str, r) ← write_large (S (length str)) req t str;
      if r <? 0 then Some (req, -1)
      else
        let n := Z.of_nat (length str) in
        let pad := padding n in
        let rest := if negb (pad =? 0) then 8 - pad else 0 in
        '(req, r) ← write_through req t (take (Z.to_nat (n - rest)) str);
        if r <? 0 then Some (req, -1)
        else if negb (pad =? 0) then
          req ← open_packet req t; req ← put req (drop (Z.to_nat (n - rest)) str); Some (req, len)
        else Some (req, len).

Definition fcgi_end req : option (fcgi_request * Z) :=
  if negb (ended req) then
    '(req, ret) ← fcgi_flush req true; Some ({| req with ended := true |}, ret)
  else Some (req, 1).

(** ** Closing *)
Definition fcgi_close req (force destroy : bool) : fcgi_request :=
  let req := if destroy && has_env req then {| req with env := fcgi_hash_clean (env req); has_env := false |} else req in
  if (force || (keep req =? 0)) && (0 <=? fd req) then
    let c := conn req in
    let c := if negb force then {| c with reads := drain (reads c); events := events c ++ [Shutdown (fd req)] |} else c in
    {| req with conn := {| c with events := events c ++ [Close (fd req); On_close] |}; nodelay := false; fd := -1 |}
  else req.

Definition fcgi_is_closed req : bool := fd req <? 0.

Definition fcgi_finish_request req (force_close : bool) : option (fcgi_request * Z) :=
  if 0 <=? fd req then
    '(req, ret) ← fcgi_end req; Some (fcgi_close req force_close true, ret)
  else Some (req, 1).

(** ** Who may connect *)

(** Addresses by family; the bytes of an IPv6 address are sixteen. *)
Inductive sa_t := sa_unix | sa_inet (sin_addr : list Z) | sa_inet6 (sin6_addr : list Z).

Definition IN6_IS_ADDR_V4MAPPED (a : list Z) : bool := bool_decide (take 12 a = replicate 10 0 ++ [255; 255]).

(** [allowed_clients] up to the entry without a family; [None] is NULL. *)
Definition fcgi_is_allowed (client_sa : sa_t) (allowed_clients : option (list sa_t)) : bool :=
  match client_sa, allowed_clients with
  | sa_unix, _ => true
  | _, None => true
  | sa_inet a, Some l =>
      existsb (fun c => match c with sa_inet a' => bool_decide (take 4 a = take 4 a') | _ => false end) l
  | sa_inet6 a, Some l =>
      existsb (fun c => match c with
                        | sa_inet6 a' => bool_decide (take 12 a = take 12 a')
                        | sa_inet a' => IN6_IS_ADDR_V4MAPPED a && bool_decide (take 4 (drop 12 a) = take 4 a')
                        | _ => false
                        end) l
  end.

(** Of sixteen bytes twelve are compared: an address of the same /96 is allowed. *)
Example other_address_allowed :
  fcgi_is_allowed (sa_inet6 (replicate 12 1 ++ [0; 0; 0; 1])) (Some [sa_inet6 (replicate 12 1 ++ [9; 9; 9; 9])]) = true.
Proof. done. Qed.
