(* ===== verification/FastcgiRecords.v ===== *)
(** * FastCGI records and the peer

    The reference encoding of records and of parameters, the decoder that a web server would use, and what
    the loops around [read] and [write] do with a peer that answers. *)
From S2P Require Import Prelude FastcgiEnv Fastcgi.

(** ** Bits *)
Lemma land_255 x : Z.land x 255 = x mod 256.
Proof. change 255 with (Z.ones 8). by rewrite Z.land_ones by lia. Qed.

Lemma shift_byte x n : 0 <= n -> Z.shiftr x n = x / 2 ^ n.
Proof. intros. by apply Z.shiftr_div_pow2. Qed.

Lemma join_bytes hi lo : 0 <= lo < 256 -> Z.lor (Z.shiftl hi 8) lo = hi * 256 + lo.
Proof.
  intros Hlo. rewrite Z.shiftl_mul_pow2 by lia. change (2 ^ 8) with 256.
  apply (lor_disjoint _ _ 8); [lia| |done]. change (2 ^ 8) with 256. apply Z.mod_mul. lia.
Qed.

Lemma padding_spec len : 0 <= len -> 0 <= padding len < 8 /\ (len + padding len) mod 8 = 0.
Proof.
  intros Hlen. unfold padding. change (Z.lnot 7) with (Z.lnot (Z.ones 3)).
  rewrite <- Z.ldiff_land, Z.ldiff_ones_r, Z.shiftl_mul_pow2, Z.shiftr_div_pow2 by lia.
  change (2 ^ 3) with 8. pose proof (Z.div_mod (len + 7) 8 ltac:(lia)). pose proof (Z.mod_pos_bound (len + 7) 8 ltac:(lia)).
  split; [lia|]. replace (len + ((len + 7) / 8 * 8 - len)) with ((len + 7) / 8 * 8) by lia. apply Z.mod_mul. lia.
Qed.

(** ** Records *)
Record rec := { r_type : Z; r_id : Z; r_data : list Z }.

Definition zeros (n : Z) : list Z := replicate (Z.to_nat n) 0.

Definition encode (r : rec) : list Z :=
  let len := Z.of_nat (length (r_data r)) in
  header_bytes (r_type r) (r_id r) len (padding len) ++ r_data r ++ zeros (padding len).

(** A record at the beginning of a stream, and the rest. *)
Definition decode (bs : list Z) : option (rec * list Z) :=
  hdr ← header_of (take 8 bs);
  let len := content_length hdr in
  let n := 8 + len + paddingLength hdr in
  if negb (version hdr =? FCGI_VERSION_1) || (Z.of_nat (length bs) <? n) then None
  else Some ({| r_type := type hdr; r_id := requestIdB1 hdr * 256 + requestIdB0 hdr;
                r_data := take (Z.to_nat len) (drop 8 bs) |}, drop (Z.to_nat n) bs).

(** A stream of records, to its end. *)
Fixpoint decode_all (fuel : nat) (bs : list Z) : option (list rec) :=
  match bs, fuel with
  | [], _ => Some []
  | _, O => None
  | bs, S fuel => '(r, bs) ← decode bs; rs ← decode_all fuel bs; Some (r :: rs)
  end.

Definition decode_stream (bs : list Z) : option (list rec) := decode_all (length bs) bs.

Definition rec_ok (r : rec) : Prop := 0 <= r_id r < 2 ^ 16 /\ Z.of_nat (length (r_data r)) < 2 ^ 16.

Lemma header_of_bytes t i len pad : exists hdr, header_of (header_bytes t i len pad) = Some hdr /\
  version hdr = 1 /\ type hdr = t /\
  (0 <= i < 2 ^ 16 -> requestIdB1 hdr * 256 + requestIdB0 hdr = i) /\
  (0 <= i < 2 ^ 16 -> Z.shiftl (requestIdB1 hdr) 8 + requestIdB0 hdr = i) /\
  (0 <= len < 2 ^ 16 -> content_length hdr = len) /\ (0 <= pad < 256 -> paddingLength hdr = pad).
Proof.
  eexists. split; [reflexivity|]. unfold content_length. cbn [version type requestIdB1 requestIdB0 paddingLength contentLengthB1 contentLengthB0].
  assert (forall x, 0 <= x < 2 ^ 16 -> Z.land (Z.shiftr x 8) 255 * 256 + Z.land x 255 = x) as Hx.
  { intros x Hx. rewrite !land_255, shift_byte by lia. change (2 ^ 8) with 256.
    rewrite (Z.mod_small (x / 256)) by (split; [apply Z.div_pos; lia|apply Z.div_lt_upper_bound; lia]).
    pose proof (Z.div_mod x 256). lia. }
  split_and!; [done|done|apply Hx| | |].
  - intros Hi. rewrite Z.shiftl_mul_pow2 by lia. by apply Hx.
  - intros Hl. rewrite join_bytes by (rewrite land_255; apply Z.mod_pos_bound; lia). by apply Hx.
  - intros Hp. unfold u8. by apply uwrap_small.
Qed.

Lemma length_header t i len pad : length (header_bytes t i len pad) = 8%nat.
Proof. done. Qed.

Lemma length_encode r : Z.of_nat (length (encode r))
  = 8 + Z.of_nat (length (r_data r)) + padding (Z.of_nat (length (r_data r))).
Proof.
  unfold encode, zeros. rewrite !length_app, length_header, length_replicate.
  pose proof (padding_spec (Z.of_nat (length (r_data r)))). lia.
Qed.

Lemma decode_record r rest : rec_ok r -> decode (encode r ++ rest) = Some (r, rest).
Proof.
  intros [Hi Hl]. unfold decode. pose proof (length_encode r) as Hlen.
  set (len := Z.of_nat (length (r_data r))) in *.
  destruct (padding_spec len) as [Hp _]; [lia|].
  destruct (header_of_bytes (r_type r) (r_id r) len (padding len)) as (hdr & Eh & Ev & Et & Ei & _ & El & Ep).
  assert (take 8 (encode r ++ rest) = header_bytes (r_type r) (r_id r) len (padding len)) as ->.
  { unfold encode. rewrite <- app_assoc. by rewrite take_app_length' by done. }
  rewrite Eh. cbn [mbind option_bind]. rewrite Ev, Et, Ei, El, Ep by lia.
  rewrite length_app, Nat2Z.inj_add, Hlen. unfold FCGI_VERSION_1. zbool. do 2 f_equal; [|].
  - assert (take (Z.to_nat len) (drop 8 (encode r ++ rest)) = r_data r) as ->; [|by destruct r].
    unfold encode. rewrite <- !app_assoc, drop_app_length' by done. apply take_app_length'. lia.
  - rewrite drop_app_length'; [done|]. lia.
Qed.

Lemma decode_concat rs : Forall rec_ok rs -> forall fuel, (length (concat (encode <$> rs)) <= fuel)%nat ->
  decode_all fuel (concat (encode <$> rs)) = Some rs.
Proof.
  induction rs as [|r rs IH]; intros Hok fuel Hf; cbn [fmap list_fmap concat] in *.
  { by destruct fuel. }
  apply Forall_cons in Hok as [Hr Hok]. pose proof (length_encode r) as Hlen.
  pose proof (padding_spec (Z.of_nat (length (r_data r)))).
  rewrite length_app in Hf. destruct fuel as [|fuel]; [lia|].
  destruct (encode r ++ concat (encode <$> rs)) as [|b bs] eqn:E.
  { apply (f_equal length) in E. rewrite length_app in E. cbn in E. lia. }
  cbn [decode_all]. rewrite <- E, decode_record by done. cbn [mbind option_bind].
  by rewrite IH by (done || lia).
Qed.

Lemma decode_stream_concat rs : Forall rec_ok rs -> decode_stream (concat (encode <$> rs)) = Some rs.
Proof. intros. by apply decode_concat. Qed.

(** ** A peer that takes what is written *)
Definition takes (w : write_result) : bool := match w with Accepted (S _) => true | _ => false end.

(** None of its answers is a failure, and [n] of them take at least a byte. *)
Definition willing (ws : list write_result) (n : Z) : Prop :=
  Forall (fun w => w <> Write_failed) ws /\ n <= Z.of_nat (length (List.filter takes ws)).

Lemma write_loop_ok ws : forall sent n buf m, buf <> [] -> willing ws (Z.of_nat (length buf) + m) -> 0 <= m ->
  exists ws', write_loop ws sent n buf = Some (n + Z.of_nat (length buf), sent ++ buf, ws') /\ willing ws' m.
Proof.
  induction ws as [|w ws IH]; intros sent n buf m Hne [Hf Hn] Hm.
  { cbn in Hn. destruct buf; [done|]. cbn in Hn. lia. }
  apply Forall_cons in Hf as [Hw Hf]. cbn [List.filter] in Hn.
  assert (forall k, (match w with Accepted k => Nat.min k (length buf) | _ => O end) = k ->
    (drop k buf = [] /\ k = length buf) \/
    (drop k buf <> [] /\ willing ws (Z.of_nat (length (drop k buf)) + m) /\ (k <= length buf)%nat)) as Hk.
  { intros k Hk. assert (k <= length buf)%nat as Hkl by (subst k; destruct w; lia).
    destruct (decide (k = length buf)) as [->|Hne'].
    - left. split; [by apply drop_ge|done].
    - right. split; [|split; [|done]].
      + intros Ed. apply (f_equal length) in Ed. rewrite length_drop in Ed. cbn in Ed. lia.
      + split; [done|]. rewrite length_drop. destruct w as [[|j]| |]; cbn [takes length] in Hn; try done; subst k; lia. }
  destruct w as [j| |]; [| |done]; cbn [write_loop].
  all: destruct (Hk _ eq_refl) as [[Hd El]|(Hd & Hw' & Hle)]; rewrite ?Hd.
  - exists ws. rewrite El, take_ge by lia. split; [done|]. split; [done|]. destruct buf; [done|].
    destruct j as [|j]; cbn in El, Hn; lia.
  - destruct (IH (sent ++ take (Nat.min j (length buf)) buf) (n + Z.of_nat (Nat.min j (length buf))) (drop (Nat.min j (length buf)) buf) m)
      as (ws' & E & Hws); [done..|]. exists ws'. split; [|done].
    destruct (drop (Nat.min j (length buf)) buf) as [|b bs] eqn:Eb; [done|].
    rewrite E. rewrite <- app_assoc, <- Eb, take_drop, length_drop. do 3 f_equal. lia.
  - destruct buf; done.
  - destruct (IH (sent ++ []) (n + Z.of_nat 0) buf m) as (ws' & E & Hws); [done..|]. exists ws'. split; [|done].
    cbn [drop take] in *. destruct buf as [|b bs]; [done|]. cbn [drop take]. rewrite E, app_nil_r. do 3 f_equal. lia.
Qed.

Lemma safe_write_ok c buf m : buf <> [] -> willing (writes c) (Z.of_nat (length buf) + m) -> 0 <= m ->
  exists ws, safe_write c buf = Some (Z.of_nat (length buf), {| c with sent := sent c ++ buf; writes := ws |}) /\ willing ws m.
Proof.
  intros Hne Hw Hm. unfold safe_write.
  destruct (write_loop_ok (writes c) (sent c) 0 buf m Hne Hw Hm) as (ws & -> & Hws). cbn [mbind option_bind]. by exists ws.
Qed.

(** ** A peer that delivers *)

(** No answer is a failure or the end of the file. *)
Definition delivering (rs : list read_result) : Prop :=
  Forall (fun r => r <> Read_failed /\ r <> Delivered []) rs.

Fixpoint stream (rs : list read_result) : list Z :=
  match rs with
  | [] => []
  | Delivered bs :: rs => bs ++ stream rs
  | _ :: rs => stream rs
  end.

Lemma length_stream rs : length (stream rs) = available rs.
Proof. induction rs as [|[bs| |] rs IH]; cbn; rewrite ?length_app; lia. Qed.

(** However the bytes come in, they are read in order, up to the end of the file. *)
Lemma read_loop_ok rs : forall count got, delivering rs -> exists rs',
  read_loop rs count got = (Z.of_nat (length got + length (take count (stream rs))), got ++ take count (stream rs), rs') /\
  delivering rs' /\ stream rs' = drop count (stream rs).
Proof.
  induction rs as [|r rs IH]; intros count got Hd; cbn [read_loop stream].
  { exists []. rewrite take_nil, drop_nil, app_nil_r. cbn. rewrite Nat.add_0_r. done. }
  apply Forall_cons in Hd as [[Hf Hne] Hd]. destruct r as [bs| |]; [| |done].
  - destruct (Nat.eqb_spec (Nat.min count (length bs)) 0) as [E0|E0]; cbn [orb].
    { assert (bs <> []) by congruence. assert (count = O) as -> by (destruct bs; cbn in *; [done|lia]).
      destruct bs as [|b bs]; [done|]. exists (Delivered (b :: bs) :: rs). cbn.
      rewrite app_nil_r, Nat.add_0_r. split; [done|]. split; [by constructor|done]. }
    destruct (Nat.eqb_spec (Nat.min count (length bs)) count) as [Ec|Ec].
    + rewrite Ec. rewrite take_app_le, drop_app_le by lia. rewrite length_app. eexists. split; [done|].
      destruct (drop count bs) as [|b bs'] eqn:Eb; [by rewrite app_nil_l|]. split; [by constructor|done].
    + assert (Nat.min count (length bs) = length bs) as Em by lia. rewrite Em, take_ge by lia.
      destruct (IH (count - length bs)%nat (got ++ bs) Hd) as (rs' & -> & Hd' & Es). exists rs'.
      rewrite take_app_ge, drop_app_ge by lia. rewrite !length_app, <- app_assoc. split; [|done]. do 3 f_equal. lia.
  - destruct (Nat.eqb_spec count 0) as [->|Hc]; [|by apply IH].
    exists rs. cbn. rewrite app_nil_r, Nat.add_0_r. by rewrite drop_0.
Qed.

Lemma safe_read_ok c bs rest : delivering (reads c) -> stream (reads c) = bs ++ rest ->
  exists rs, safe_read c (Z.of_nat (length bs)) = (Z.of_nat (length bs), bs, {| c with reads := rs |}) /\
    delivering rs /\ stream rs = rest.
Proof.
  intros Hd Es. unfold safe_read. rewrite Nat2Z.id.
  destruct (read_loop_ok (reads c) (length bs) [] Hd) as (rs & -> & Hd' & Es'). exists rs.
  rewrite Es in *. rewrite take_app_length in *. rewrite drop_app_length in Es'. done.
Qed.
