(* ===== verification/FastcgiOut.v ===== *)
(** * The answer of a FastCGI request

    [fcgi_write] collects small writes in a buffer, sends large ones past it, and cuts both into records.  What
    arrives is a stream of records whose contents are exactly the bytes written, in order. *)
From S2P Require Import Prelude FastcgiEnv Fastcgi FastcgiRecords.

Implicit Types (req : fcgi_request) (rs : list rec) (open : option (Z * list Z)).

(** The bytes of a stream of records, each with the type of its record. *)
Definition tagged rs : list (Z * Z) := concat ((fun r => pair (r_type r) <$> r_data r) <$> rs).

(** The record of an open packet. *)
Definition open_rec (id : Z) open : list rec :=
  match open with Some (t, c) => [{| r_type := t; r_id := id; r_data := c |}] | None => [] end.

Definition wire rs : list Z := concat (encode <$> rs).

Lemma wire_app rs1 rs2 : wire (rs1 ++ rs2) = wire rs1 ++ wire rs2.
Proof. unfold wire. by rewrite fmap_app, concat_app. Qed.

Lemma wire_one r : wire [r] = encode r.
Proof. apply app_nil_r. Qed.

Lemma tagged_app rs1 rs2 : tagged (rs1 ++ rs2) = tagged rs1 ++ tagged rs2.
Proof. unfold tagged. by rewrite fmap_app, concat_app. Qed.

Lemma wire_aligned rs : Z.of_nat (length (wire rs)) mod 8 = 0.
Proof.
  induction rs as [|r rs IH]; [done|]. change (wire (r :: rs)) with (encode r ++ wire rs).
  rewrite length_app, Nat2Z.inj_add, length_encode. set (n := Z.of_nat (length (r_data r))).
  destruct (padding_spec n) as [_ Hp]; [lia|]. Z.to_euclidean_division_equations; lia.
Qed.

(** ** The invariant

    The buffer holds the closed records [rs] and, behind a header that is not filled in yet, the contents of
    the open packet. *)
Definition buffered req rs open : Prop :=
  match open with
  | None => out_hdr req = None /\ out_pos req = Z.of_nat (length (wire rs)) /\
      exists rest, out_buf req = (Some <$> wire rs) ++ rest
  | Some (t, c) =>
      out_hdr req = Some (Z.of_nat (length (wire rs))) /\
      out_pos req = Z.of_nat (length (wire rs)) + 8 + Z.of_nat (length c) /\
      exists hdr rest, length hdr = 8%nat /\ hdr !! 1%nat = Some (Some t) /\
        out_buf req = (Some <$> wire rs) ++ hdr ++ (Some <$> c) ++ rest
  end.

Record out_ok req rs open : Prop := {
  out_room : Z.of_nat (length (out_buf req)) = OUT_BUF_SIZE + RESERVED;
  out_filled : Forall is_Some (out_buf req);
  out_pos_le : out_pos req <= OUT_BUF_SIZE + 8;
  out_id : 0 <= id req < 2 ^ 16;
  out_recs : Forall (fun r => rec_ok r /\ r_id r = id req) rs;
  out_buffered : buffered req rs open }.

(** The fields that sending does not touch, the answers of the peer apart. *)
Definition kept req req' : Prop :=
  id req' = id req /\ ended req' = ended req /\ has_env req' = has_env req /\ env req' = env req /\ fd req' = fd req /\
  keep req' = keep req /\ reads (conn req') = reads (conn req) /\ events (conn req') = events (conn req).

Lemma kept_refl req : kept req req.
Proof. done. Qed.

Lemma kept_trans req1 req2 req3 : kept req1 req2 -> kept req2 req3 -> kept req1 req3.
Proof. unfold kept. intuition congruence. Qed.

Lemma copy_filled buf off src buf' : Forall is_Some buf -> copy_to buf off src = Some buf' -> Forall is_Some buf'.
Proof.
  unfold copy_to. destruct (_ && _); [|done]. intros Hb [= <-]. apply Forall_app. split; [by apply Forall_take|].
  apply Forall_app. split; [|by apply Forall_drop]. apply Forall_fmap, Forall_true. by intros ?; eexists.
Qed.

Lemma copy_length buf off src buf' : copy_to buf off src = Some buf' -> length buf' = length buf.
Proof.
  unfold copy_to. destruct (_ && _) eqn:E; [|done]. apply andb_true_iff in E as [E1%Z.leb_le E2%Z.leb_le].
  intros [= <-]. rewrite !length_app, length_take, length_fmap, length_drop. lia.
Qed.

Lemma packet_open_ok req rs t : out_ok req rs None -> out_pos req <= OUT_BUF_SIZE ->
  exists req', open_packet req t = Some req' /\ out_ok req' rs (Some (t, [])) /\ out_pos req' = out_pos req + 8 /\
    kept req req' /\ conn req' = conn req.
Proof.
  intros [Hr Hf _ Hi Hrs (Hh & Hp & rest & Hb)] Hle. unfold OUT_BUF_SIZE, RESERVED in *.
  assert (exists h0 h1 h2 h3 h4 h5 h6 h7 rest', rest = [h0; h1; h2; h3; h4; h5; h6; h7] ++ rest')
    as (h0 & h1 & h2 & h3 & h4 & h5 & h6 & h7 & rest' & ->).
  { assert (8 <= length rest)%nat as Hl by (rewrite Hb, length_app, length_fmap in Hr; rewrite Hp in Hle; lia).
    do 8 (destruct rest as [|? rest]; [cbn in Hl; lia|]). by repeat eexists. }
  unfold open_packet. rewrite Hb. cbn [app]. rewrite (cons_middle h0), app_assoc.
  rewrite aset_app_mid by (rewrite length_app, length_fmap; cbn; lia). cbn [mbind option_bind].
  eexists. split; [done|]. split; [|done]. split; cbn; try done.
  - rewrite Hb in Hr. unfold OUT_BUF_SIZE, RESERVED. rewrite !length_app in *. cbn in *. lia.
  - rewrite Hb in Hf. apply Forall_app in Hf as [Hw Hf]. cbn in Hf. rewrite !Forall_cons in Hf.
    apply Forall_app. split; [apply Forall_app; split; [done|]|]; rewrite ?Forall_cons; naive_solver.
  - unfold OUT_BUF_SIZE. lia.
  - split; [by rewrite Hp|]. split; [cbn; lia|]. exists [h0; Some t; h2; h3; h4; h5; h6; h7], rest'.
    split_and!; [done|done|]. by rewrite <- app_assoc.
Qed.

Lemma put_ok req rs t c str : out_ok req rs (Some (t, c)) -> out_pos req + Z.of_nat (length str) <= OUT_BUF_SIZE ->
  exists req', put req str = Some req' /\ out_ok req' rs (Some (t, c ++ str)) /\
    out_pos req' = out_pos req + Z.of_nat (length str) /\ kept req req' /\ conn req' = conn req.
Proof.
  intros [Hr Hf _ Hi Hrs (Hh & Hp & hdr & rest & Hl & H1 & Hb)] Hle. unfold put, OUT_BUF_SIZE, RESERVED in *.
  assert (exists buf, copy_to (out_buf req) (out_pos req) str = Some buf /\
    buf = (Some <$> wire rs) ++ hdr ++ (Some <$> c ++ str) ++ drop (length str) rest) as (buf & Hc & Eb).
  { eexists. split; [|done]. rewrite Hb, !app_assoc. rewrite copy_to_end.
    - by rewrite fmap_app, <- !app_assoc.
    - rewrite !length_app, !length_fmap, Hl. lia.
    - rewrite Hb, !length_app, !length_fmap, Hl in Hr. lia. }
  rewrite Hc. cbn [mbind option_bind]. eexists. split; [done|]. split; [|done]. split; cbn; try done.
  - by rewrite (copy_length _ _ _ _ Hc).
  - by apply (copy_filled _ _ _ _ Hf Hc).
  - unfold OUT_BUF_SIZE. lia.
  - split; [done|]. split; [rewrite length_app; lia|]. exists hdr, (drop (length str) rest). by rewrite Eb.
Qed.

Lemma make_header_ok (l1 hdr l2 : list (option Z)) (c : list Z) off t i len :
  off = Z.of_nat (length l1) -> length hdr = 8%nat -> len = Z.of_nat (length c) ->
  padding len <= Z.of_nat (length l2) ->
  fcgi_make_header (l1 ++ hdr ++ (Some <$> c) ++ l2) off t i len
  = Some (l1 ++ (Some <$> header_bytes t i len (padding len) ++ c ++ zeros (padding len)) ++ drop (Z.to_nat (padding len)) l2, padding len).
Proof.
  intros -> Hh -> Hl. set (len := Z.of_nat (length c)) in *. destruct (padding_spec len) as [Hp _]; [lia|].
  unfold fcgi_make_header. rewrite copy_to_mid by done. cbn [mbind option_bind].
  destruct (Z.eqb_spec (padding len) 0) as [E|E]; cbn [mbind option_bind].
  - unfold zeros. rewrite E. change (Z.to_nat 0) with O. cbn [replicate drop].
    by rewrite app_nil_r, fmap_app, <- !app_assoc.
  - rewrite !app_assoc. rewrite copy_to_end.
    + unfold zeros. rewrite length_replicate, !fmap_app, <- !app_assoc. done.
    + rewrite !length_app, !length_fmap, length_header. unfold len. lia.
    + rewrite length_replicate. lia.
Qed.

Lemma make_header_filled buf off t i len buf' pad : fcgi_make_header buf off t i len = Some (buf', pad) ->
  Forall is_Some buf -> Forall is_Some buf' /\ length buf' = length buf.
Proof.
  unfold fcgi_make_header. intros E Hf. destruct (copy_to buf off _) as [b1|] eqn:E1; [|done]. cbn [mbind option_bind] in E.
  pose proof (copy_filled _ _ _ _ Hf E1). pose proof (copy_length _ _ _ _ E1). destruct (padding len =? 0).
  - cbn in E. by injection E as <- <-.
  - destruct (copy_to b1 _ _) as [b2|] eqn:E2; [|done]. cbn in E. injection E as <- <-.
    split; [by apply (copy_filled b1 _ _ _ H E2)|]. apply copy_length in E2. congruence.
Qed.

(** ** Closing and flushing *)
Lemma wire_snoc rs r : wire (rs ++ [r]) = wire rs ++ encode r.
Proof. by rewrite wire_app, wire_one. Qed.

Lemma room_for_padding req rs t c : out_ok req rs (Some (t, c)) ->
  let pad := padding (Z.of_nat (length c)) in
  0 <= pad < 8 /\ (out_pos req + pad) mod 8 = 0 /\ out_pos req + pad <= OUT_BUF_SIZE + 8 /\
  (out_pos req <= OUT_BUF_SIZE -> out_pos req + pad <= OUT_BUF_SIZE).
Proof.
  intros [Hr Hf Hle Hi Hrs (Hh & Hp & _)] pad. destruct (padding_spec (Z.of_nat (length c))) as [Hp1 Hp2]; [lia|].
  fold pad in Hp1, Hp2. pose proof (wire_aligned rs). unfold OUT_BUF_SIZE in *.
  split; [done|]. rewrite Hp in *. Z.to_euclidean_division_equations; lia.
Qed.

Lemma close_ok req rs open : out_ok req rs open -> exists req', close_packet req = Some req' /\
  out_ok req' (rs ++ open_rec (id req) open) None /\ out_pos req <= out_pos req' <= out_pos req + 7 /\
  (out_pos req <= OUT_BUF_SIZE -> out_pos req' <= OUT_BUF_SIZE) /\ kept req req' /\ conn req' = conn req.
Proof.
  intros Hok. destruct open as [[t c]|].
  2: { exists req. unfold close_packet. pose proof (out_buffered _ _ _ Hok) as (-> & _). rewrite app_nil_r. split_and!; done || lia. }
  destruct (room_for_padding _ _ _ _ Hok) as (Hp1 & Hp2 & Hp3 & Hp4).
  destruct Hok as [Hr Hf Hle Hi Hrs (Hh & Hp & hdr & rest & Hl & H1 & Hb)].
  unfold close_packet. rewrite Hh. set (D := Z.of_nat (length (wire rs))) in *.
  replace (out_pos req - (D + 8)) with (Z.of_nat (length c)) in * by lia.
  assert (byte_at (out_buf req) (D + 1) = Some t) as ->.
  { unfold byte_at. rewrite Hb. replace (D + 1) with (Z.of_nat (length (wire rs) + 1)) by lia.
    rewrite aget_nat, lookup_app_r by (rewrite length_fmap; lia). rewrite length_fmap.
    replace (length (wire rs) + 1 - length (wire rs))%nat with 1%nat by lia.
    rewrite lookup_app_l by lia. by rewrite H1. }
  cbn [mbind option_bind]. set (pad := padding (Z.of_nat (length c))) in *.
  assert (pad <= Z.of_nat (length rest)) as Hrest.
  { rewrite Hb, !length_app, !length_fmap, Hl in Hr. unfold OUT_BUF_SIZE, RESERVED in *. lia. }
  destruct (fcgi_make_header (out_buf req) D t (id req) (Z.of_nat (length c))) as [[buf p]|] eqn:E.
  2: { rewrite Hb, make_header_ok in E; try done. unfold D. by rewrite length_fmap. }
  destruct (make_header_filled _ _ _ _ _ _ _ E Hf) as [Hf' Hl'].
  rewrite Hb, make_header_ok in E by (try done; unfold D; by rewrite length_fmap).
  fold pad in E. assert (p = pad) as -> by congruence. cbn [mbind option_bind].
  eexists. split; [done|]. split; [|split_and!; cbn; try done; lia]. split; cbn; try done.
  - by rewrite Hl'.
  - apply Forall_app. split; [done|]. apply Forall_singleton. split; [|done]. split; [done|]. cbn [r_data].
    unfold OUT_BUF_SIZE in *. lia.
  - split; [done|]. rewrite wire_snoc. split.
    + rewrite length_app, Nat2Z.inj_add, length_encode. cbn [r_data]. fold pad. lia.
    + exists (drop (Z.to_nat pad) rest). injection E as <-. by rewrite (fmap_app Some (wire rs)), <- app_assoc.
Qed.

Definition sent_after req req' (bs : list Z) (m : Z) : Prop :=
  sent (conn req') = sent (conn req) ++ bs /\ willing (writes (conn req')) m.

Lemma willing_le ws n n' : willing ws n -> n' <= n -> willing ws n'.
Proof. intros [Hf Hn] Hle. split; [done|lia]. Qed.

Lemma flush_ok req rs open m : out_ok req rs open -> rs ++ open_rec (id req) open <> [] -> 0 <= m ->
  willing (writes (conn req)) (out_pos req + 7 + m) ->
  exists req', fcgi_flush req false = Some (req', 1) /\ out_ok req' [] None /\ out_pos req' = 0 /\ kept req req' /\
    sent_after req req' (wire (rs ++ open_rec (id req) open)) m.
Proof.
  intros Hok Hne Hm Hw. unfold fcgi_flush. destruct (close_ok _ _ _ Hok) as (req1 & -> & Hok1 & Hle & _ & Hk & Hcn).
  cbn [mbind option_bind]. destruct Hok1 as [Hr Hf Hle1 Hi Hrs (Hh & Hp & rest & Hb)].
  rewrite Hb, read_from_start by done. cbn [mbind option_bind]. set (rs' := rs ++ open_rec (id req) open) in *.
  rewrite Hp. destruct (safe_write_ok (conn req1) (wire rs') m) as (ws & -> & Hws).
  - intros E. destruct rs' as [|r rs']; [done|]. apply (f_equal length) in E. pose proof (length_encode r).
    pose proof (padding_spec (Z.of_nat (length (r_data r)))). change (wire (r :: rs')) with (encode r ++ wire rs') in E.
    rewrite length_app in E. cbn in E. lia.
  - rewrite Hcn. apply (willing_le _ _ _ Hw). lia.
  - done.
  - cbn [mbind option_bind]. rewrite Z.eqb_refl. cbn [negb]. eexists. split; [done|]. split.
    + split; cbn; try done; try lia; [by rewrite <- Hb|by rewrite <- Hb|]. split; [done|]. split; [done|].
      exists ((Some <$> wire rs') ++ rest). done.
    + split; [done|]. split; [|split; [cbn; by rewrite Hcn|done]].
      apply (kept_trans _ _ _ Hk). done.
Qed.

(** A whole record past the buffer. *)
Lemma through_ok req rs t str m : out_ok req rs None -> out_pos req <= OUT_BUF_SIZE -> str <> [] ->
  Z.of_nat (length str) < 2 ^ 16 -> padding (Z.of_nat (length str)) = 0 -> 0 <= m ->
  willing (writes (conn req)) (out_pos req + 15 + Z.of_nat (length str) + m) ->
  exists req', write_through req t str = Some (req', 0) /\ out_ok req' [] None /\ out_pos req' = 0 /\ kept req req' /\
    sent_after req req' (wire (rs ++ [{| r_type := t; r_id := id req; r_data := str |}])) m.
Proof.
  intros Hok Hle Hs Hl Hpad Hm Hw. unfold write_through.
  destruct (packet_open_ok _ _ t Hok Hle) as (req1 & -> & Hok1 & Hp1 & Hk1 & Hc1). cbn [mbind option_bind].
  pose proof Hok1 as [Hr Hf Hle1 Hi Hrs (Hh & Hp & hdr & rest & Hlh & H1 & Hb)]. rewrite Hh. cbn [mbind option_bind].
  set (D := Z.of_nat (length (wire rs))) in *.
  assert (fcgi_make_header (out_buf req1) D t (id req1) (Z.of_nat (length str))
          = Some ((Some <$> wire rs ++ header_bytes t (id req1) (Z.of_nat (length str)) 0) ++ rest, 0)) as E.
  { unfold fcgi_make_header. rewrite Hpad, Hb, copy_to_mid; [|unfold D; by rewrite length_fmap|done].
    cbn [mbind option_bind]. by rewrite fmap_app, <- app_assoc. }
  destruct (make_header_filled _ _ _ _ _ _ _ E Hf) as [Hf' Hl']. rewrite E. cbn [mbind option_bind].
  (* the flush sends the buffered records and the header *)
  unfold fcgi_flush, close_packet. cbn [out_hdr mbind option_bind out_buf out_pos conn].
  rewrite read_from_start by (rewrite length_app, length_header; cbn in Hp; unfold D in *; lia). cbn [mbind option_bind].
  destruct (safe_write_ok (conn req1) (wire rs ++ header_bytes t (id req1) (Z.of_nat (length str)) 0) (Z.of_nat (length str) + m))
    as (ws & -> & Hws); [by destruct (wire rs)| |lia|].
  { rewrite Hc1. apply (willing_le _ _ _ Hw). rewrite length_app, length_header. cbn in Hp. unfold D in *. lia. }
  cbn [mbind option_bind]. rewrite (proj2 (Z.eqb_eq _ _)).
  2: { rewrite length_app, length_header. cbn in Hp. unfold D in *. lia. }
  cbn [negb]. change (1 =? 0) with false. cbn [mbind option_bind conn].
  match goal with |- context [safe_write ?c str] => destruct (safe_write_ok c str m) as (ws' & -> & Hws'); [done|exact Hws|done|] end.
  cbn [mbind option_bind]. rewrite Z.eqb_refl. cbn [negb]. eexists. split; [done|]. split.
  - split; cbn; try done; try lia. split; [done|]. split; [done|]. by eexists.
  - split; [done|]. split; [apply (kept_trans _ _ _ Hk1); done|]. split; [|done]. cbn. rewrite Hc1, <- !app_assoc. f_equal.
    rewrite wire_snoc. f_equal. unfold encode, zeros. cbn [r_data r_type r_id]. rewrite Hpad. cbn [Z.to_nat replicate].
    destruct Hk1 as (-> & _). by rewrite app_nil_r.
Qed.

(** ** Sending a stream

    [rs] are the records sent since [s0] and those in the buffer; the peer takes [m] bytes more than the buffer
    holds. *)
Definition sending req (s0 : list Z) rs open (m : Z) : Prop := exists rs1 rs2,
  rs = rs1 ++ rs2 /\ sent (conn req) = s0 ++ wire rs1 /\ Forall (fun r => rec_ok r /\ r_id r = id req) rs1 /\
  out_ok req rs2 open /\ willing (writes (conn req)) (out_pos req + m).

(** What is sent so far and what will be. *)
Definition content (req : fcgi_request) rs open : list (Z * Z) := tagged (rs ++ open_rec (id req) open).

Lemma sending_close req s0 rs open m : sending req s0 rs open (7 + m) ->
  exists req', close_packet req = Some req' /\ sending req' s0 (rs ++ open_rec (id req) open) None m /\ kept req req' /\
    (out_pos req <= OUT_BUF_SIZE -> out_pos req' <= OUT_BUF_SIZE).
Proof.
  intros (rs1 & rs2 & -> & Hs & Hr1 & Hok & Hw). destruct (close_ok _ _ _ Hok) as (req' & -> & Hok' & Hp & Hp' & Hk & Hc).
  exists req'. split; [done|]. split; [|done]. exists rs1, (rs2 ++ open_rec (id req) open). rewrite Hc, app_assoc.
  pose proof Hk as (-> & _). split_and!; try done. apply (willing_le _ _ _ Hw). lia.
Qed.

Lemma sending_open req s0 rs t m : sending req s0 rs None (8 + m) -> out_pos req <= OUT_BUF_SIZE ->
  exists req', open_packet req t = Some req' /\ sending req' s0 rs (Some (t, [])) m /\ kept req req' /\
    out_pos req' = out_pos req + 8.
Proof.
  intros (rs1 & rs2 & -> & Hs & Hr1 & Hok & Hw) Hle. destruct (packet_open_ok _ _ t Hok Hle) as (req' & -> & Hok' & Hp & Hk & Hc).
  exists req'. split; [done|]. split; [|done]. exists rs1, rs2. rewrite Hc. pose proof Hk as (-> & _). split_and!; try done.
  apply (willing_le _ _ _ Hw). lia.
Qed.

Lemma sending_put req s0 rs t c str m : sending req s0 rs (Some (t, c)) (Z.of_nat (length str) + m) ->
  out_pos req + Z.of_nat (length str) <= OUT_BUF_SIZE ->
  exists req', put req str = Some req' /\ sending req' s0 rs (Some (t, c ++ str)) m /\ kept req req' /\
    out_pos req' = out_pos req + Z.of_nat (length str).
Proof.
  intros (rs1 & rs2 & -> & Hs & Hr1 & Hok & Hw) Hle. destruct (put_ok _ _ _ _ str Hok Hle) as (req' & -> & Hok' & Hp & Hk & Hc).
  exists req'. split; [done|]. split; [|done]. exists rs1, rs2. rewrite Hc. pose proof Hk as (-> & _). split_and!; try done.
  apply (willing_le _ _ _ Hw). lia.
Qed.

Lemma open_rec_ok req rs open : out_ok req rs open -> Forall (fun r => rec_ok r /\ r_id r = id req) (open_rec (id req) open).
Proof.
  intros [Hr Hf Hle Hi Hrs Hb]. destruct open as [[t c]|]; [|done]. apply Forall_singleton. split; [|done].
  destruct Hb as (_ & Hp & _). split; [done|]. cbn [r_data]. unfold OUT_BUF_SIZE in *. lia.
Qed.

Lemma sending_flush req s0 rs t c m : sending req s0 rs (Some (t, c)) (7 + m) -> 0 <= m ->
  exists req', fcgi_flush req false = Some (req', 1) /\ sending req' s0 (rs ++ open_rec (id req) (Some (t, c))) None m /\
    kept req req' /\ out_pos req' = 0.
Proof.
  intros (rs1 & rs2 & -> & Hs & Hr1 & Hok & Hw) Hm.
  destruct (flush_ok req rs2 (Some (t, c)) m Hok) as (req' & -> & Hok' & Hp & Hk & Hst & Hw'); [by destruct rs2|done| |].
  { apply (willing_le _ _ _ Hw). lia. }
  exists req'. split; [done|]. split; [|done]. exists (rs1 ++ rs2 ++ open_rec (id req) (Some (t, c))), [].
  pose proof Hk as (-> & _). split_and!; try done.
  - by rewrite app_nil_r, app_assoc.
  - by rewrite Hst, Hs, (wire_app rs1), <- app_assoc.
  - apply Forall_app. split; [done|]. apply Forall_app. split; [apply (out_recs _ _ _ Hok)|by apply (open_rec_ok req rs2)].
  - by rewrite Hp.
Qed.

Lemma sending_through req s0 rs t str m : sending req s0 rs None (15 + Z.of_nat (length str) + m) ->
  out_pos req <= OUT_BUF_SIZE -> str <> [] -> Z.of_nat (length str) < 2 ^ 16 -> padding (Z.of_nat (length str)) = 0 -> 0 <= m ->
  exists req', write_through req t str = Some (req', 0) /\
    sending req' s0 (rs ++ [{| r_type := t; r_id := id req; r_data := str |}]) None m /\ kept req req' /\ out_pos req' = 0.
Proof.
  intros (rs1 & rs2 & -> & Hs & Hr1 & Hok & Hw) Hle Hne Hl Hpad Hm.
  destruct (through_ok req rs2 t str m Hok) as (req' & -> & Hok' & Hp & Hk & Hst & Hw'); try done.
  { apply (willing_le _ _ _ Hw). lia. }
  exists req'. split; [done|]. split; [|done]. exists (rs1 ++ rs2 ++ [{| r_type := t; r_id := id req; r_data := str |}]), [].
  pose proof Hk as (-> & _). split_and!; try done.
  - by rewrite app_nil_r, app_assoc.
  - by rewrite Hst, Hs, (wire_app rs1), <- app_assoc.
  - apply Forall_app. split; [done|]. apply Forall_app. split; [apply (out_recs _ _ _ Hok)|].
    apply Forall_singleton. split; [|done]. split; [apply (out_id _ _ _ Hok)|done].
  - by rewrite Hp.
Qed.

Lemma tagged_one t i str : tagged [{| r_type := t; r_id := i; r_data := str |}] = pair t <$> str.
Proof. apply app_nil_r. Qed.

Lemma take_drop_tags (t : Z) (n : nat) (str : list Z) : (pair t <$> take n str) ++ (pair t <$> drop n str) = pair t <$> str.
Proof. by rewrite <- fmap_app, take_drop. Qed.

(** ** Large writes *)
Lemma write_large_ok t m : 0 <= m -> forall fuel req s0 rs str,
  sending req s0 rs None (2 * Z.of_nat (length str) + m) -> out_pos req <= OUT_BUF_SIZE ->
  8 <= Z.of_nat (length str) -> (length str < fuel)%nat ->
  exists req' rs' str', write_large fuel req t str = Some (req', str', 0) /\
    sending req' s0 rs' None (2 * Z.of_nat (length str') + m) /\ kept req req' /\ out_pos req' <= OUT_BUF_SIZE /\
    8 <= Z.of_nat (length str') <= 65535 /\ tagged rs' ++ (pair t <$> str') = tagged rs ++ (pair t <$> str).
Proof.
  intros Hm. induction fuel as [|fuel IH]; intros req s0 rs str Hs Hp Hl Hf; [lia|]. cbn [write_large].
  destruct (Z.ltb_spec 65535 (Z.of_nat (length str))) as [Hgt|Hle].
  2: { exists req, rs, str. split_and!; done || lia. }
  assert (Z.of_nat (length (take (Z.to_nat 65528) str)) = 65528) as Hlt by (rewrite length_take; lia).
  pose proof (length_drop str (Z.to_nat 65528)) as Hld.
  destruct (sending_through req s0 rs t (take (Z.to_nat 65528) str) (2 * Z.of_nat (length (drop (Z.to_nat 65528) str)) + m))
    as (req1 & -> & Hs1 & Hk1 & Hp1); rewrite ?Hlt; try done; try lia.
  - destruct Hs as (rs1 & rs2 & ? & ? & ? & ? & Hw). exists rs1, rs2. split_and!; try done. apply (willing_le _ _ _ Hw). lia.
  - intros E. rewrite E in Hlt. done.
  - cbn [mbind option_bind]. change (0 <? 0) with false. cbn match.
    destruct (IH req1 s0 _ _ Hs1) as (req' & rs' & str' & -> & Hs' & Hk' & Hp' & Hl' & Et); [rewrite Hp1; done|lia|lia|].
    exists req', rs', str'. split_and!; try done; [by apply (kept_trans _ _ _ Hk1)|lia|lia|].
    rewrite Et, tagged_app, tagged_one, <- app_assoc. f_equal. apply take_drop_tags.
Qed.

(** ** One write *)
Lemma sending_le req s0 rs open m m' : sending req s0 rs open m -> m' <= m -> sending req s0 rs open m'.
Proof.
  intros (rs1 & rs2 & ? & ? & ? & ? & Hw) Hle. exists rs1, rs2. split_and!; try done. apply (willing_le _ _ _ Hw). lia.
Qed.

Lemma sending_open_pos req s0 rs t c m : sending req s0 rs (Some (t, c)) m ->
  is_open req = true /\ (hdr ← out_hdr req; byte_at (out_buf req) (hdr + 1)) = Some t /\ 8 <= out_pos req.
Proof.
  intros (rs1 & rs2 & _ & _ & _ & [Hr Hf Hle Hi Hrs (Hh & Hp & hdr & rest & Hl & H1 & Hb)] & _).
  unfold is_open. rewrite Hh. split; [done|]. split; [|lia]. cbn [mbind option_bind]. unfold byte_at. rewrite Hb.
  replace (Z.of_nat (length (wire rs2)) + 1) with (Z.of_nat (length (wire rs2) + 1)) by lia.
  rewrite aget_nat, lookup_app_r by (rewrite length_fmap; lia). rewrite length_fmap.
  replace (length (wire rs2) + 1 - length (wire rs2))%nat with 1%nat by lia.
  rewrite lookup_app_l by lia. by rewrite H1.
Qed.

Lemma sending_closed req s0 rs m : sending req s0 rs None m -> out_hdr req = None.
Proof. intros (rs1 & rs2 & _ & _ & _ & [_ _ _ _ _ (Hh & _)] & _). exact Hh. Qed.

(** The state in which the bytes go to the buffer: what [open] gives in [fcgi_write]. *)
Lemma sending_ready req s0 rs open t m : sending req s0 rs open (8 + m) -> out_pos req <= OUT_BUF_SIZE ->
  match open with Some (t', _) => t' = t | None => True end ->
  exists req' c, (if is_open req then Some req else open_packet req t) = Some req' /\
    sending req' s0 rs (Some (t, c)) m /\ kept req req' /\ out_pos req' = out_pos req + (if is_open req then 0 else 8) /\
    content req' rs (Some (t, c)) = content req rs open.
Proof.
  intros Hs Hp Ht. destruct open as [[t' c]|].
  - subst t'. destruct (sending_open_pos _ _ _ _ _ _ Hs) as (-> & _). exists req, c.
    split_and!; [done| |done|lia|done]. apply (sending_le _ _ _ _ _ _ Hs). lia.
  - unfold is_open. rewrite (sending_closed _ _ _ _ Hs).
    destruct (sending_open _ _ _ t _ Hs Hp) as (req' & -> & Hs' & Hk & Hp'). exists req', [].
    split_and!; try done. unfold content. cbn [open_rec]. by rewrite tagged_app, tagged_one, !app_nil_r.
Qed.

Lemma content_put req req' rs t c str : id req' = id req ->
  content req' rs (Some (t, c ++ str)) = content req rs (Some (t, c)) ++ (pair t <$> str).
Proof. intros Hi. unfold content. cbn [open_rec]. by rewrite !tagged_app, !tagged_one, fmap_app, app_assoc. Qed.

(** A write that the buffer takes, or fills once. *)
Lemma write_small req s0 rs open t str m : let len := Z.of_nat (length str) in
  let limit := OUT_BUF_SIZE - out_pos req in let limit := if is_open req then limit else Z.max (limit - 8) 0 in
  sending req s0 rs open (len + 40 + m) -> out_pos req <= OUT_BUF_SIZE -> 0 <= m ->
  match open with Some (t', _) => t' = t | None => True end -> 0 < len -> len - limit < OUT_BUF_SIZE - 8 ->
  exists req' rs' open',
    (if len <? limit then
       req ← (if is_open req then Some req else open_packet req t); req ← put req str; Some (req, len)
     else
       req ← (if is_open req then Some req else open_packet req t);
       req ← (if 0 <? limit then put req (take (Z.to_nat limit) str) else Some req);
       '(req, ok) ← fcgi_flush req false;
       if ok =? 0 then Some (req, -1)
       else if limit <? len then
         req ← open_packet req t; req ← put req (drop (Z.to_nat limit) str); Some (req, len)
       else Some (req, len)) = Some (req', len) /\
    sending req' s0 rs' open' m /\ out_pos req' <= OUT_BUF_SIZE /\ kept req req' /\
    content req' rs' open' = content req rs open ++ (pair t <$> str).
Proof.
  intros len limit0 limit Hs Hp Hm Ht Hlen Hfit. unfold OUT_BUF_SIZE in *.
  destruct (sending_ready req s0 rs open t (len + 32 + m)) as (req1 & c & -> & Hs1 & Hk1 & Hp1 & Hc1); [|done..|].
  { apply (sending_le _ _ _ _ _ _ Hs). lia. }
  assert (0 <= limit /\ (0 < limit -> out_pos req1 + limit = 1024 * 8)) as [Hl0 Hl1].
  { unfold limit, limit0. rewrite Hp1. destruct (is_open req); lia. }
  cbn [mbind option_bind]. destruct (Z.ltb_spec len limit) as [Hlt|Hge].
  - destruct (sending_put _ _ _ _ _ str (32 + m) (sending_le _ _ _ _ _ (len + (32 + m)) Hs1 ltac:(lia))) as (req2 & -> & Hs2 & Hk2 & Hp2);
      [unfold OUT_BUF_SIZE, len in *; lia|]. cbn [mbind option_bind].
    exists req2, rs, (Some (t, c ++ str)). split_and!; [done| |unfold len in *; lia|by apply (kept_trans _ _ _ Hk1)|].
    + apply (sending_le _ _ _ _ _ _ Hs2). lia.
    + rewrite <- Hc1. apply content_put. by destruct Hk2.
  - assert (Z.of_nat (length (take (Z.to_nat limit) str)) = limit) as Htl by (rewrite length_take; unfold len in *; lia).
    assert (exists req2, (if 0 <? limit then put req1 (take (Z.to_nat limit) str) else Some req1) = Some req2 /\
      sending req2 s0 rs (Some (t, c ++ take (Z.to_nat limit) str)) (len - limit + 32 + m) /\ kept req1 req2)
      as (req2 & -> & Hs2 & Hk2).
    { destruct (Z.ltb_spec 0 limit) as [Hpos|Hz].
      - destruct (sending_put req1 s0 rs t c (take (Z.to_nat limit) str) (len - limit + 32 + m)) as (req2 & -> & Hs2 & Hk2 & _).
        + apply (sending_le _ _ _ _ _ _ Hs1). rewrite Htl. lia.
        + unfold OUT_BUF_SIZE. rewrite Htl. lia.
        + by exists req2.
      - exists req1. replace limit with 0 in * by lia. cbn [Z.to_nat take]. rewrite app_nil_r. split; [done|]. split; [|done].
        apply (sending_le _ _ _ _ _ _ Hs1). lia. }
    cbn [mbind option_bind].
    destruct (sending_flush _ _ _ _ _ (len - limit + 25 + m) (sending_le _ _ _ _ _ (7 + (len - limit + 25 + m)) Hs2 ltac:(lia))) as (req3 & -> & Hs3 & Hk3 & Hp3); [lia|].
    cbn [mbind option_bind]. change (1 =? 0) with false. cbn match.
    assert (tagged (rs ++ open_rec (id req2) (Some (t, c ++ take (Z.to_nat limit) str)))
            = content req rs open ++ (pair t <$> take (Z.to_nat limit) str)) as Hc3.
    { rewrite <- Hc1. apply (content_put req1 req2). by destruct Hk2. }
    pose proof (kept_trans _ _ _ (kept_trans _ _ _ Hk1 Hk2) Hk3) as Hk.
    destruct (Z.ltb_spec limit len) as [Hmore|Hend].
    + destruct (sending_open _ _ _ t _ (sending_le _ _ _ _ _ (8 + (len - limit + 17 + m)) Hs3 ltac:(lia))) as (req4 & -> & Hs4 & Hk4 & Hp4);
        [unfold OUT_BUF_SIZE; lia|]. cbn [mbind option_bind].
      assert (Z.of_nat (length (drop (Z.to_nat limit) str)) = len - limit) as Hdl by (rewrite length_drop; unfold len in *; lia).
      destruct (sending_put _ _ _ _ _ (drop (Z.to_nat limit) str) (17 + m)
        (sending_le _ _ _ _ _ (Z.of_nat (length (drop (Z.to_nat limit) str)) + (17 + m)) Hs4 ltac:(lia)))
        as (req5 & -> & Hs5 & Hk5 & Hp5); [unfold OUT_BUF_SIZE; lia|].
      cbn [mbind option_bind]. eexists req5, _, _. split; [done|]. split; [apply (sending_le _ _ _ _ _ _ Hs5); lia|].
      split; [lia|]. split; [by apply (kept_trans _ _ _ Hk), (kept_trans _ _ _ Hk4)|].
      unfold content. rewrite tagged_app, Hc3. cbn [open_rec app]. rewrite tagged_one, <- app_assoc. f_equal. apply take_drop_tags.
    + eexists req3, _, _. split; [done|]. split; [apply (sending_le _ _ _ _ _ _ Hs3); lia|]. split; [lia|]. split; [done|].
      unfold content. rewrite tagged_app, Hc3. cbn [open_rec]. rewrite app_nil_r. do 2 f_equal. apply take_ge. unfold len in *. lia.
Qed.

(** What a write may cost beyond what is buffered, headers and padding included. *)
Definition cost (str : list Z) : Z := 2 * Z.of_nat (length str) + 64.

(** A write that goes past the buffer. *)
Lemma write_past req s0 rs t str m : sending req s0 rs None (2 * Z.of_nat (length str) + 40 + m) ->
  out_pos req <= OUT_BUF_SIZE -> 0 <= m -> 8 <= Z.of_nat (length str) ->
  exists req' rs' open',
    ('(req, str, r) ← write_large (S (length str)) req t str;
     if r <? 0 then Some (req, -1)
     else
       let n := Z.of_nat (length str) in
       let pad := padding n in
       let rest := if negb (pad =? 0) then 8 - pad else 0 in
       '(req, r) ← write_through req t (take (Z.to_nat (n - rest)) str);
       if r <? 0 then Some (req, -1)
       else if negb (pad =? 0) then
         req ← open_packet req t; req ← put req (drop (Z.to_nat (n - rest)) str); Some (req, 0)
       else Some (req, 0)) = Some (req', 0) /\
    sending req' s0 rs' open' m /\ out_pos req' <= OUT_BUF_SIZE /\ kept req req' /\
    content req' rs' open' = tagged rs ++ (pair t <$> str).
Proof.
  intros Hs Hp Hm Hl.
  destruct (write_large_ok t (40 + m) ltac:(lia) (S (length str)) req s0 rs str) as (req1 & rs1 & str1 & -> & Hs1 & Hk1 & Hp1 & Hl1 & Hc1);
    [by apply (sending_le _ _ _ _ _ _ Hs); lia|done|done|lia|].
  cbn [mbind option_bind]. change (0 <? 0) with false. cbn match.
  set (n := Z.of_nat (length str1)) in *. destruct (padding_spec n) as [Hpad Hmod]; [lia|].
  set (rest := if negb (padding n =? 0) then 8 - padding n else 0).
  assert (0 <= rest < 8 /\ (n - rest) mod 8 = 0 /\ (padding n =? 0 = false -> 0 < rest) /\ (padding n =? 0 = true -> rest = 0)) as (Hr & Hnr & Hr1 & Hr2).
  { unfold rest. destruct (Z.eqb_spec (padding n) 0) as [E|E]; cbn [negb]; rewrite ?E in *;
      (split; [lia|split; [|split; [done || lia|done || lia]]]); Z.to_euclidean_division_equations; lia. }
  assert (Z.of_nat (length (take (Z.to_nat (n - rest)) str1)) = n - rest) as Htl by (rewrite length_take; unfold n in *; lia).
  assert (Z.of_nat (length (drop (Z.to_nat (n - rest)) str1)) = rest) as Hdl by (rewrite length_drop; unfold n in *; lia).
  destruct (sending_through req1 s0 rs1 t (take (Z.to_nat (n - rest)) str1) (25 + rest + m)) as (req2 & -> & Hs2 & Hk2 & Hp2); rewrite ?Htl; try done; try lia.
  { apply (sending_le _ _ _ _ _ _ Hs1). lia. }
  { intros E. rewrite E in Htl. cbn in Htl. Z.to_euclidean_division_equations; lia. }
  { destruct (padding_spec (n - rest)) as [Hp0 Hm0]; [lia|]. Z.to_euclidean_division_equations; lia. }
  cbn [mbind option_bind]. change (0 <? 0) with false. cbn match.
  pose proof (kept_trans _ _ _ Hk1 Hk2) as Hk.
  assert (tagged (rs1 ++ [{| r_type := t; r_id := id req1; r_data := take (Z.to_nat (n - rest)) str1 |}])
          = tagged rs1 ++ (pair t <$> take (Z.to_nat (n - rest)) str1)) as Hc2 by (by rewrite tagged_app, tagged_one).
  set (rs2 := rs1 ++ [{| r_type := t; r_id := id req1; r_data := take (Z.to_nat (n - rest)) str1 |}]) in *.
  destruct (padding n =? 0) eqn:Ep; cbn [negb].
  - exists req2, rs2, None. split; [done|]. split; [apply (sending_le _ _ _ _ _ _ Hs2); lia|]. split; [unfold OUT_BUF_SIZE; lia|]. split; [done|].
    unfold content. cbn [open_rec]. rewrite app_nil_r, Hc2, <- Hc1. do 2 f_equal. apply take_ge. rewrite Hr2 by done. unfold n. lia.
  - destruct (sending_open req2 s0 rs2 t (17 + rest + m) (sending_le _ _ _ _ _ (8 + (17 + rest + m)) Hs2 ltac:(lia))) as (req3 & -> & Hs3 & Hk3 & Hp3);
      [unfold OUT_BUF_SIZE; lia|]. cbn [mbind option_bind].
    destruct (sending_put req3 s0 rs2 t [] (drop (Z.to_nat (n - rest)) str1) (17 + m)) as (req4 & -> & Hs4 & Hk4 & Hp4).
    { apply (sending_le _ _ _ _ _ _ Hs3). lia. }
    { unfold OUT_BUF_SIZE. lia. }
    cbn [mbind option_bind]. eexists req4, _, _. split; [done|]. split; [apply (sending_le _ _ _ _ _ _ Hs4); lia|].
    split; [unfold OUT_BUF_SIZE; lia|]. split; [by apply (kept_trans _ _ _ Hk), (kept_trans _ _ _ Hk3)|].
    unfold content. rewrite tagged_app, Hc2. cbn [open_rec app]. rewrite tagged_one, <- app_assoc, <- Hc1. f_equal. apply take_drop_tags.
Qed.

Lemma fcgi_write_ok req s0 rs open t str m : sending req s0 rs open (cost str + m) ->
  out_pos req <= OUT_BUF_SIZE -> 0 <= m ->
  exists req' rs' open', fcgi_write req t str = Some (req', Z.of_nat (length str)) /\
    sending req' s0 rs' open' m /\ out_pos req' <= OUT_BUF_SIZE /\ kept req req' /\
    content req' rs' open' = content req rs open ++ (pair t <$> str).
Proof.
  intros Hs Hp Hm. unfold fcgi_write, cost in *. destruct (Z.leb_spec (Z.of_nat (length str)) 0) as [Hz|Hpos].
  { exists req, rs, open. destruct str; [|cbn in Hz; lia]. rewrite app_nil_r. split_and!; try done. apply (sending_le _ _ _ _ _ _ Hs). lia. }
  assert (exists t' req1 rs1 open1, (match out_hdr req with Some hdr => byte_at (out_buf req) (hdr + 1) | None => Some t end) = Some t' /\
    (if negb (t' =? t) then close_packet req else Some req) = Some req1 /\
    sending req1 s0 rs1 open1 (2 * Z.of_nat (length str) + 57 + m) /\ out_pos req1 <= OUT_BUF_SIZE /\ kept req req1 /\
    content req1 rs1 open1 = content req rs open /\ match open1 with Some (t', _) => t' = t | None => True end)
    as (t' & req1 & rs1 & open1 & -> & E1 & Hs1 & Hp1 & Hk1 & Hc1 & Ht1).
  { destruct open as [[t0 c]|].
    - destruct (sending_open_pos _ _ _ _ _ _ Hs) as (_ & Ht & _). exists t0. destruct (out_hdr req); [|done]. cbn in Ht. rewrite Ht.
      destruct (Z.eqb_spec t0 t) as [->|Hne]; cbn [negb].
      + exists req, rs, (Some (t, c)). split_and!; try done. apply (sending_le _ _ _ _ _ _ Hs). lia.
      + destruct (sending_close _ _ _ _ (2 * Z.of_nat (length str) + 57 + m) (sending_le _ _ _ _ _ (7 + (2 * Z.of_nat (length str) + 57 + m)) Hs ltac:(lia)))
          as (req1 & E & Hs1 & Hk1 & Hp1). eexists req1, _, None. split; [done|]. split; [done|]. split; [done|].
        split; [by apply Hp1|]. split; [done|]. split; [|done]. unfold content. by rewrite app_nil_r.
    - exists t, req, rs, None. rewrite (sending_closed _ _ _ _ Hs), Z.eqb_refl. split_and!; try done. apply (sending_le _ _ _ _ _ _ Hs). lia. }
  cbn [mbind option_bind]. rewrite E1. cbn [mbind option_bind]. rewrite <- Hc1. clear E1 Hc1.
  set (len := Z.of_nat (length str)) in *.
  set (limit := if is_open req1 then OUT_BUF_SIZE - out_pos req1 else Z.max (OUT_BUF_SIZE - out_pos req1 - 8) 0).
  assert (0 <= limit) as Hl0 by (unfold limit; destruct (is_open req1); lia).
  destruct (decide (len - limit < OUT_BUF_SIZE - 8)) as [Hsmall|Hlarge].
  - destruct (write_small req1 s0 rs1 open1 t str m) as (req' & rs' & open' & E & Hs' & Hp' & Hk' & Hc'); try done.
    { apply (sending_le _ _ _ _ _ _ Hs1). unfold len. lia. }
    exists req', rs', open'. split; [|split_and!; try done; by apply (kept_trans _ _ _ Hk1)].
    rewrite (proj2 (Z.ltb_lt (len - limit) _)) by done. exact E.
  - rewrite (proj2 (Z.ltb_ge len limit)), (proj2 (Z.ltb_ge (len - limit) _)) by (unfold OUT_BUF_SIZE in *; lia).
    destruct (sending_close _ _ _ _ (2 * len + 50 + m) (sending_le _ _ _ _ _ (7 + (2 * len + 50 + m)) Hs1 ltac:(lia))) as (req2 & -> & Hs2 & Hk2 & Hp2).
    cbn [mbind option_bind].
    destruct (write_past req2 s0 _ t str m (sending_le _ _ _ _ _ (2 * Z.of_nat (length str) + 40 + m) Hs2 ltac:(unfold len; lia))) as (req' & rs' & open' & E & Hs' & Hp' & Hk' & Hc');
      [by apply Hp2|done|unfold len, OUT_BUF_SIZE in *; lia|].
    exists req', rs', open'. split; [|split_and!; try done; by apply (kept_trans _ _ _ Hk1), (kept_trans _ _ _ Hk2)].
    destruct (write_large (S (length str)) req2 t str) as [[[req3 str3] r3]|]; [|done]. cbn [mbind option_bind] in E |- *.
    destruct (r3 <? 0); [done|]. destruct (write_through req3 t _) as [[req4 r4]|]; [|done]. cbn [mbind option_bind] in E |- *.
    destruct (r4 <? 0); [done|]. destruct (negb _); [|by injection E as <-].
    destruct (open_packet req4 t) as [req5|]; [|done]. cbn [mbind option_bind] in E |- *.
    destruct (put req5 _) as [req6|]; [|done]. cbn [mbind option_bind] in E |- *. by injection E as <-.
Qed.

(** ** The end of the request *)
Lemma filled_bytes (l : list (option Z)) : Forall is_Some l -> exists bs, l = Some <$> bs.
Proof.
  induction 1 as [|x l [b ->] _ (bs & ->)]; [by exists []|]. by exists (b :: bs).
Qed.

Definition end_rec (id : Z) (stale : list Z) : rec :=
  {| r_type := FCGI_END_REQUEST; r_id := id; r_data := end_body ++ stale |}.

Lemma flush_end_ok req rs open m : out_ok req rs open -> out_pos req <= OUT_BUF_SIZE -> 0 <= m ->
  willing (writes (conn req)) (out_pos req + 23 + m) ->
  exists req' stale, fcgi_flush req true = Some (req', 1) /\ length stale = 3%nat /\ kept req req' /\
    sent_after req req' (wire (rs ++ open_rec (id req) open ++ [end_rec (id req) stale])) m.
Proof.
  intros Hok Hpos Hm Hw. unfold fcgi_flush. destruct (close_ok _ _ _ Hok) as (req1 & -> & Hok1 & Hle & Hle1 & Hk & Hcn).
  specialize (Hle1 Hpos). cbn [mbind option_bind]. destruct Hok1 as [Hr Hf _ Hi Hrs (Hh & Hp & rest & Hb)].
  set (rs' := rs ++ open_rec (id req) open) in *. unfold OUT_BUF_SIZE, RESERVED in *.
  destruct (filled_bytes rest) as [rb ->]; [rewrite Hb in Hf; by apply Forall_app in Hf as [_ ?]|].
  assert (exists h b stale tl, rb = h ++ b ++ stale ++ tl /\ length h = 8%nat /\ length b = 5%nat /\ length stale = 3%nat)
    as (h & b & stale & tl & -> & Lh & Lb & Ls).
  { exists (take 8 rb), (take 5 (drop 8 rb)), (take 3 (drop 13 rb)), (drop 16 rb).
    rewrite Hb, !length_app, !length_fmap in Hr. rewrite !length_take, !length_drop.
    split; [|lia]. rewrite <- (take_drop 8 rb) at 1. f_equal. rewrite <- (take_drop 5 (drop 8 rb)) at 1. f_equal.
    rewrite drop_drop. rewrite <- (take_drop 3 (drop _ rb)) at 1. by rewrite drop_drop. }
  set (hdr := header_bytes FCGI_END_REQUEST (id req1) 8 0).
  assert (fcgi_make_header (out_buf req1) (out_pos req1) FCGI_END_REQUEST (id req1) 8
          = Some ((Some <$> wire rs' ++ hdr) ++ (Some <$> b) ++ (Some <$> stale ++ tl), 0)) as ->.
  { unfold fcgi_make_header. change (padding 8) with 0. rewrite Hb, fmap_app, copy_to_mid; [|by rewrite length_fmap|by rewrite length_fmap].
    cbn [mbind option_bind]. change (0 =? 0) with true. cbn [mbind option_bind]. by rewrite !fmap_app, <- !app_assoc. }
  cbn [mbind option_bind]. rewrite copy_to_mid; [|rewrite length_fmap, length_app; unfold hdr; rewrite length_header; lia|by rewrite length_fmap].
  cbn [mbind option_bind].
  assert ((Some <$> wire rs' ++ hdr) ++ (Some <$> end_body) ++ (Some <$> stale ++ tl)
          = (Some <$> wire (rs' ++ [end_rec (id req) stale])) ++ (Some <$> tl)) as ->.
  { rewrite wire_snoc. unfold encode, end_rec. cbn [r_data r_type r_id].
    replace (Z.of_nat (length (end_body ++ stale))) with 8 by (rewrite length_app, Ls; done). change (padding 8) with 0.
    destruct Hk as (Ei & _). unfold hdr. rewrite Ei. unfold zeros. change (Z.to_nat 0) with O. cbn [replicate].
    rewrite app_nil_r, !fmap_app, <- !app_assoc. done. }
  set (bs := wire (rs' ++ [end_rec (id req) stale])).
  assert (Z.of_nat (length bs) = out_pos req1 + 16) as Lbs.
  { unfold bs. rewrite wire_snoc, length_app, Nat2Z.inj_add, length_encode. unfold end_rec. cbn [r_data].
    replace (Z.of_nat (length (end_body ++ stale))) with 8 by (rewrite length_app, Ls; done). change (padding 8) with 0. lia. }
  rewrite read_from_start by lia. cbn [mbind option_bind].
  destruct (safe_write_ok (conn req1) bs m) as (ws & -> & Hws).
  - intros E. rewrite E in Lbs. cbn in Lbs. lia.
  - rewrite Hcn. apply (willing_le _ _ _ Hw). lia.
  - done.
  - cbn [mbind option_bind]. rewrite Lbs, Z.eqb_refl. cbn [negb]. eexists _, stale. split; [done|]. split; [done|].
    split; [by apply (kept_trans _ _ _ Hk)|]. split; [|done]. cbn. by rewrite Hcn, app_assoc.
Qed.

(** ** The property *)

(** Before the first write of a request. *)
Record idle req : Prop := {
  idle_hdr : out_hdr req = None;
  idle_pos : out_pos req = 0;
  idle_room : Z.of_nat (length (out_buf req)) = OUT_BUF_SIZE + RESERVED;
  idle_filled : Forall is_Some (out_buf req);
  idle_id : 0 <= id req < 2 ^ 16;
  idle_ended : ended req = false }.

(** A sequence of writes, and what they return. *)
Fixpoint fcgi_writes req (ws : list (Z * list Z)) : option (fcgi_request * list Z) :=
  match ws with
  | [] => Some (req, [])
  | (t, str) :: ws => '(req, n) ← fcgi_write req t str; '(req, ns) ← fcgi_writes req ws; Some (req, n :: ns)
  end.

Definition lengths (ws : list (Z * list Z)) : list Z := (fun w : Z * list Z => Z.of_nat (length w.2)) <$> ws.

Definition written (ws : list (Z * list Z)) : list (Z * Z) :=
  concat ((fun w : Z * list Z => pair w.1 <$> w.2) <$> ws).

Definition costs (ws : list (Z * list Z)) : Z := foldr (fun w n => cost w.2 + n) 0 ws.

Lemma costs_pos ws : 0 <= costs ws.
Proof.
  induction ws as [|w ws IH]; [done|]. change (costs (w :: ws)) with (cost w.2 + costs ws). unfold cost. lia.
Qed.

Lemma writes_ok ws : forall req s0 rs open m, sending req s0 rs open (costs ws + m) -> out_pos req <= OUT_BUF_SIZE -> 0 <= m ->
  exists req' rs' open', fcgi_writes req ws = Some (req', lengths ws) /\
    sending req' s0 rs' open' m /\ out_pos req' <= OUT_BUF_SIZE /\ kept req req' /\
    content req' rs' open' = content req rs open ++ written ws.
Proof.
  induction ws as [|[t str] ws IH]; intros req s0 rs open m Hs Hp Hm; cbn [fcgi_writes].
  { exists req, rs, open. by rewrite app_nil_r. }
  pose proof (costs_pos ws) as H0.
  destruct (fcgi_write_ok req s0 rs open t str (costs ws + m)) as (req1 & rs1 & open1 & -> & Hs1 & Hp1 & Hk1 & Hc1); [|done|lia|].
  { apply (sending_le _ _ _ _ _ _ Hs). change (costs ((t, str) :: ws)) with (cost str + costs ws). lia. }
  cbn [mbind option_bind]. destruct (IH req1 s0 rs1 open1 m Hs1 Hp1 Hm) as (req' & rs' & open' & -> & Hs' & Hp' & Hk' & Hc').
  cbn. exists req', rs', open'. split_and!; try done; [by apply (kept_trans _ _ _ Hk1)|]. rewrite Hc', Hc1, <- app_assoc. done.
Qed.

(** C9: whatever is written to the web server, in pieces of any size, as output or errors, to a peer that takes
    the bytes in portions of its own: every write is accepted, no byte lands outside the buffer, and what arrives is
    a sequence of complete FastCGI records of this request, ended by FCGI_END_REQUEST, whose contents are
    exactly the bytes written, of the same type and in the same order. *)
Theorem fcgi_write_frames req ws : idle req -> willing (writes (conn req)) (costs ws + 23) ->
  exists req1 req2 bytes rs stale,
    fcgi_writes req ws = Some (req1, lengths ws) /\
    fcgi_end req1 = Some (req2, 1) /\ sent (conn req2) = sent (conn req) ++ bytes /\
    decode_stream bytes = Some (rs ++ [end_rec (id req) stale]) /\ length stale = 3%nat /\
    tagged rs = written ws /\ Forall (fun r => r_id r = id req) rs.
Proof.
  intros [H1 H2 H3 H4 H5 H6] Hw.
  assert (sending req (sent (conn req)) [] None (costs ws + 23)) as Hs.
  { exists [], []. split; [done|]. split; [by rewrite app_nil_r|]. split; [done|]. split; [|by rewrite H2].
    split; try done; [rewrite H2; unfold OUT_BUF_SIZE; lia|]. split; [done|]. split; [done|]. by exists (out_buf req). }
  destruct (writes_ok ws req _ _ _ 23 Hs) as (req1 & rs1 & open1 & -> & Hs1 & Hp1 & Hk1 & Hc1); [rewrite H2; unfold OUT_BUF_SIZE; lia|lia|].
  destruct Hs1 as (rsa & rsb & -> & Hsent & Hra & Hok & Hw1). pose proof Hk1 as (Ei & Ee & _).
  destruct (flush_end_ok req1 rsb open1 0 Hok Hp1) as (req2 & stale & E2 & Hst & _ & Hs2 & _); [lia|apply (willing_le _ _ _ Hw1); lia|].
  assert (Forall (fun r => rec_ok r /\ r_id r = id req) ((rsa ++ rsb) ++ open_rec (id req1) open1)) as Hall.
  { rewrite <- Ei. apply Forall_app. split; [apply Forall_app; split; [done|apply (out_recs _ _ _ Hok)]|by apply (open_rec_ok req1 rsb)]. }
  eexists req1, _, _, ((rsa ++ rsb) ++ open_rec (id req1) open1), stale. split; [done|]. split.
  { unfold fcgi_end. rewrite Ee, H6. cbn [negb]. rewrite E2. done. }
  cbn [conn]. split; [|split; [|split; [done|split]]].
  - rewrite Hs2, Hsent, <- app_assoc. reflexivity.
  - rewrite <- wire_app, !app_assoc, Ei. apply decode_stream_concat. apply Forall_app. split.
    + eapply Forall_impl; [rewrite <- Ei; exact Hall|]. by intros r [? _].
    + apply Forall_singleton. split; [done|]. unfold end_rec. cbn [r_data]. rewrite length_app, Hst. cbn. lia.
  - exact Hc1.
  - eapply Forall_impl; [exact Hall|]. by intros r [_ ?].
Qed.

(** A connection whose peer takes seven bytes at a time, or one, or none when it is interrupted: a small piece, an
    error, and a piece that does not fit the buffer. *)
Definition ex_peer : peer :=
  {| sent := []; writes := concat (replicate 2200 [Accepted 7; Write_interrupted; Accepted 0; Accepted 1]); reads := []; events := [] |}.

Definition ex_req : fcgi_request :=
  let req := fcgi_init_request ex_peer in {| req with id := 1; fd := 5 |}.

Definition ex_writes : list (Z * list Z) :=
  [(FCGI_STDOUT, [104; 105]); (FCGI_STDERR, [33]); (FCGI_STDOUT, replicate 2000 120)].

Example ex_sent :
  ('(req, _) ← fcgi_writes ex_req [(FCGI_STDOUT, [104; 105]); (FCGI_STDERR, [33])]; '(req, _) ← fcgi_end req; Some (sent (conn req)))
  = Some ([1; 6; 0; 1; 0; 2; 6; 0; 104; 105; 0; 0; 0; 0; 0; 0] ++ [1; 7; 0; 1; 0; 1; 7; 0; 33; 0; 0; 0; 0; 0; 0; 0] ++
          [1; 3; 0; 1; 0; 8; 0; 0; 0; 0; 0; 0; 0; 0; 0; 0]).
Proof. vm_compute. reflexivity. Qed.

Lemma fcgi_write_frames_witness :
  exists req1 req2 bytes rs stale,
    fcgi_writes ex_req ex_writes = Some (req1, lengths ex_writes) /\
    fcgi_end req1 = Some (req2, 1) /\ sent (conn req2) = sent (conn ex_req) ++ bytes /\
    decode_stream bytes = Some (rs ++ [end_rec (id ex_req) stale]) /\ length stale = 3%nat /\
    tagged rs = written ex_writes /\ Forall (fun r => r_id r = id ex_req) rs.
Proof.
  apply (fcgi_write_frames ex_req ex_writes).
  - split; try done. cbn [out_buf ex_req fcgi_init_request]. apply Forall_replicate. by eexists.
  - split; [|vm_compute; discriminate]. apply Forall_concat, Forall_replicate. repeat constructor; discriminate.
Defined.
