(* ===== verification/FastcgiIn.v ===== *)
(** * The request of a FastCGI connection

    [fcgi_read_request] decodes the beginning and the parameters of a request, [fcgi_read] its body.  Both
    are inverse to the encoding of the protocol, in whatever portions the bytes come in. *)
From Stdlib Require Import String.
From S2P Require Import Prelude OrderedMap ZendString ZendHash FastcgiEnv Fastcgi FastcgiRecords.

Implicit Types (req : fcgi_request) (buf l : list (option Z)) (c : peer).

(** ** The hash of a name *)
Definition char_at (s : list Z) (i : Z) : Z := default 0 (aget s i).

(** [FCGI_HASH_FUNC] on the bytes of the name alone. *)
Definition hash_of (char : Z -> Z) (s : list Z) : Z :=
  let n := Z.of_nat (length s) in
  if n <? 3 then n
  else u32 (Z.shiftl (char (char_at s 3)) 2 + Z.shiftl (char (char_at s (n - 2))) 4 + Z.shiftl (char (char_at s (n - 1))) 2 + n).

Lemma byte_at_inside l1 (s : list Z) l2 i : 0 <= i < Z.of_nat (length s) ->
  byte_at (l1 ++ (Some <$> s) ++ l2) (Z.of_nat (length l1) + i) = Some (char_at s i).
Proof.
  intros Hi. unfold byte_at, char_at. replace i with (Z.of_nat (Z.to_nat i)) by lia. rewrite <- Nat2Z.inj_add, !aget_nat.
  rewrite lookup_app_r, Nat.add_comm, Nat.add_sub by lia. rewrite lookup_app_l by (rewrite length_fmap; lia).
  rewrite list_lookup_fmap. destruct (lookup_lt_is_Some_2 s (Z.to_nat i)) as [x ->]; [lia|]. done.
Qed.

(** Of a name with three bytes the macro reads a fourth. *)
Lemma hash_func_ok char l1 (s : list Z) l2 : length s <> 3%nat ->
  FCGI_HASH_FUNC char (l1 ++ (Some <$> s) ++ l2) (Z.of_nat (length l1)) (Z.of_nat (length s)) = Some (hash_of char s).
Proof.
  intros H3. unfold FCGI_HASH_FUNC, hash_of. destruct (Z.ltb_spec (Z.of_nat (length s)) 3); [done|].
  by rewrite !byte_at_inside by lia.
Qed.

(** Names of other lengths, in ASCII. *)
Definition plain_name (s : list Z) : Prop := length s <> 3%nat /\ Forall (fun b => 0 <= b < 128) s.

Lemma char_at_ascii s i : Forall (fun b => 0 <= b < 128) s -> 0 <= char_at s i < 128.
Proof.
  intros Hs. unfold char_at, aget. destruct (0 <=? i); [|cbn; lia].
  destruct (s !! Z.to_nat i) as [x|] eqn:E; [|cbn; lia]. rewrite Forall_lookup in Hs. by apply (Hs _ _ E).
Qed.

Lemma signed_ascii b : 0 <= b < 128 -> signed_char b = b.
Proof.
  intros Hb. unfold signed_char, swrap, u32. change (2 ^ (8 - 1)) with 128. change (2 ^ 8) with 256.
  rewrite Z.mod_small by lia. rewrite Z.add_simpl_r. apply uwrap_small. lia.
Qed.

Lemma hash_signed s : plain_name s -> hash_of signed_char s = hash_of unsigned_char s.
Proof.
  intros [_ Hs]. unfold hash_of, unsigned_char. by rewrite !signed_ascii by by apply char_at_ascii.
Qed.

Lemma name_hash_ok s : plain_name s -> name_hash s = Some (hash_of unsigned_char s).
Proof.
  intros Hs. unfold name_hash. rewrite <- (hash_signed s Hs). destruct Hs as [H3 _].
  by apply (hash_func_ok signed_char [] s [Some 0]).
Qed.

(** ** Parameters *)
Definition encode_pair (p : list Z * list Z) : list Z :=
  length_bytes (Z.of_nat (length p.1)) ++ length_bytes (Z.of_nat (length p.2)) ++ p.1 ++ p.2.

Definition encode_pairs (ps : list (list Z * list Z)) : list Z := concat (encode_pair <$> ps).

Lemma length_bytes_long n : 0 <= n < 2 ^ 31 -> 128 <= n ->
  let b k := Z.land (Z.shiftr n (8 * k)) 255 in
  128 <= Z.lor (b 3) 128 /\
  Z.lor (Z.lor (Z.lor (Z.shiftl (Z.land (Z.lor (b 3) 128) 127) 24) (Z.shiftl (b 2) 16)) (Z.shiftl (b 1) 8)) (Z.land n 255) = n.
Proof.
  intros Hn _ b. assert (forall k, 0 <= k -> b k = n / 2 ^ (8 * k) mod 256) as Hb.
  { intros k Hk. unfold b. rewrite land_255, shift_byte by lia. done. }
  assert (0 <= b 3 < 128) as H3.
  { rewrite Hb by lia. change (2 ^ (8 * 3)) with 16777216. Z.to_euclidean_division_equations; lia. }
  assert (Z.lor (b 3) 128 = b 3 + 128) as ->.
  { rewrite Z.lor_comm, (lor_disjoint 128 (b 3) 7); [lia|lia|done|done]. }
  split; [lia|]. change 127 with (Z.ones 7) at 1. rewrite Z.land_ones by lia. change (2 ^ 7) with 128.
  replace ((b 3 + 128) mod 128) with (b 3) by (Z.to_euclidean_division_equations; lia).
  rewrite !Z.shiftl_mul_pow2 by lia. change (2 ^ 24) with 16777216. change (2 ^ 16) with 65536. change (2 ^ 8) with 256.
  assert (0 <= b 2 < 256 /\ 0 <= b 1 < 256 /\ 0 <= Z.land n 255 < 256) as (H2 & H1 & H0).
  { rewrite !Hb, land_255 by lia. split_and!; apply Z.mod_pos_bound; lia. }
  rewrite (lor_disjoint _ (b 2 * 65536) 24); [|lia|change (2 ^ 24) with 16777216; Z.to_euclidean_division_equations; lia|lia].
  rewrite (lor_disjoint _ (b 1 * 256) 16); [|lia|change (2 ^ 16) with 65536; Z.to_euclidean_division_equations; lia|lia].
  rewrite (lor_disjoint _ (Z.land n 255) 8); [|lia|change (2 ^ 8) with 256; Z.to_euclidean_division_equations; lia|lia].
  rewrite !Hb, land_255 by lia. change (2 ^ (8 * 3)) with 16777216. change (2 ^ (8 * 2)) with 65536. change (2 ^ (8 * 1)) with 256.
  Z.to_euclidean_division_equations; lia.
Qed.

(** A length, and a byte behind it where it takes four. *)
Lemma param_len_ok l1 n (bs : list Z) l2 end_ : 0 <= n < 2 ^ 31 ->
  end_ = Z.of_nat (length l1 + length (length_bytes n ++ bs)) -> (128 <= n -> bs <> []) ->
  param_len (l1 ++ (Some <$> length_bytes n ++ bs) ++ l2) (Z.of_nat (length l1)) end_
  = Some (Some (n, Z.of_nat (length l1 + length (length_bytes n)))).
Proof.
  intros Hn -> Hbs. unfold param_len.
  assert (forall i x, 0 <= i -> (length_bytes n ++ bs) !! Z.to_nat i = Some x ->
    byte_at (l1 ++ (Some <$> length_bytes n ++ bs) ++ l2) (Z.of_nat (length l1) + i) = Some x) as Hat.
  { intros i x Hi Hx. rewrite byte_at_inside by (apply lookup_lt_Some in Hx; lia). unfold char_at, aget. zbool. by rewrite Hx. }
  unfold length_bytes in *. destruct (Z.ltb_spec n 128) as [Hs|Hl].
  - rewrite <- (Z.add_0_r (Z.of_nat (length l1))) at 1. rewrite (Hat 0 n) by done. cbn [mbind option_bind].
    zbool. cbn [length]. do 3 f_equal. lia.
  - destruct (length_bytes_long n Hn Hl) as [H1 H2]. destruct bs as [|x bs]; [by destruct Hbs|].
    rewrite <- (Z.add_0_r (Z.of_nat (length l1))) at 1. erewrite (Hat 0) by done. cbn [mbind option_bind].
    rewrite (proj2 (Z.leb_le _ _)) by exact H1. rewrite (proj2 (Z.leb_gt _ _)) by (cbn [length app]; lia).
    erewrite (Hat 1), (Hat 2), (Hat 3) by done. cbn [mbind option_bind].
    do 3 f_equal; [exact H2|]. cbn [length]. lia.
Qed.

Lemma param_len_at l1 n lb (bs : list Z) l2 p end_ : 0 <= n < 2 ^ 31 -> lb = length_bytes n -> p = Z.of_nat (length l1) ->
  end_ = Z.of_nat (length l1 + length (lb ++ bs)) -> (128 <= n -> bs <> []) ->
  param_len (l1 ++ (Some <$> lb ++ bs) ++ l2) p end_ = Some (Some (n, Z.of_nat (length l1 + length lb))).
Proof. intros ? -> -> ? ?. by apply param_len_ok. Qed.

(** A pair whose name is hashed alike by everybody, and whose lengths can be encoded. *)
Definition pair_ok (p : list Z * list Z) : Prop :=
  plain_name p.1 /\ Z.of_nat (length p.1) < 2 ^ 31 /\ Z.of_nat (length p.2) < 2 ^ 31.

(** What a table holds when the pairs are set in order. *)
Definition with_pairs (m : list ((Z * list Z) * list Z)) (ps : list (list Z * list Z)) : list ((Z * list Z) * list Z) :=
  foldl (fun m p => om_insert (hash_of unsigned_char p.1, p.1) p.2 m) m ps.

Lemma length_bytes_pos n : (0 < length (length_bytes n))%nat.
Proof. unfold length_bytes. destruct (n <? 128); cbn; lia. Qed.

Lemma fmap_at l1 (a b : list Z) l2 : l1 ++ (Some <$> a ++ b) ++ l2 = (l1 ++ (Some <$> a)) ++ (Some <$> b) ++ l2.
Proof. by rewrite fmap_app, <- !app_assoc. Qed.

(** One pair, with more of them behind it. *)
Lemma params_loop_pair fuel g E l1 (p : list Z * list Z) more l2 end_ : env_ok g E -> pair_ok p ->
  end_ = Z.of_nat (length l1 + length (encode_pair p ++ more)) ->
  exists g' E', env_ok g' E' /\ live E' = om_insert (hash_of unsigned_char p.1, p.1) p.2 (live E) /\
    params_loop (S fuel) g (l1 ++ (Some <$> encode_pair p ++ more) ++ l2) (Z.of_nat (length l1)) end_
    = params_loop fuel g' (l1 ++ (Some <$> encode_pair p ++ more) ++ l2) (Z.of_nat (length l1 + length (encode_pair p))) end_.
Proof.
  intros Hok ([H3 Hp] & Hn & Hv) Hend. destruct p as [n v]. cbn [fst snd] in *. unfold encode_pair in *. cbn [fst snd] in *.
  set (ln := length_bytes (Z.of_nat (length n))) in *. set (lv := length_bytes (Z.of_nat (length v))) in *.
  pose proof (length_bytes_pos (Z.of_nat (length n)) : (0 < length ln)%nat) as Hln.
  pose proof (length_bytes_pos (Z.of_nat (length v)) : (0 < length lv)%nat) as Hlv.
  destruct (set_ok g E (hash_of unsigned_char n) n v Hok) as (g' & q & E' & Hset & Hok' & _ & Hl); [lia..|].
  exists g', E'. split; [done|]. split; [done|]. cbn [params_loop].
  rewrite <- !app_assoc in *. rewrite !length_app in Hend.
  rewrite (proj2 (Z.leb_gt _ _)) by lia. rewrite (param_len_at _ (Z.of_nat (length n)) ln); [|lia|done..|rewrite !length_app; lia|].
  2: intros _ H0; apply (f_equal length) in H0; rewrite length_app in H0; cbn in H0; lia.
  cbn [mbind option_bind]. rewrite (proj2 (Z.leb_gt _ _)) by lia.
  rewrite fmap_at. replace (length l1 + length ln)%nat with (length (l1 ++ (Some <$> ln))) by (by rewrite length_app, length_fmap).
  rewrite (param_len_at _ (Z.of_nat (length v)) lv); [|lia|done..|rewrite !length_app, length_fmap; lia|].
  2: intros ? H0; apply (f_equal length) in H0; rewrite !length_app in H0; cbn in H0; lia.
  cbn [mbind option_bind]. unfold u32; rewrite uwrap_small by lia. rewrite (proj2 (Z.ltb_ge _ _)) by (rewrite length_app, length_fmap; lia).
  rewrite fmap_at. set (l3 := (l1 ++ (Some <$> ln)) ++ (Some <$> lv)).
  replace (length (l1 ++ (Some <$> ln)) + length lv)%nat with (length l3) by (unfold l3; by rewrite !length_app, !length_fmap).
  assert (forall (a : list (option Z)) (b : list Z) d, a ++ (Some <$> n ++ b) ++ d = a ++ (Some <$> n) ++ (Some <$> b) ++ d) as Hsp
    by (intros; by rewrite fmap_app, <- app_assoc).
  rewrite (Hsp l3), hash_func_ok by done. cbn [mbind option_bind].
  rewrite (read_from_mid l3 n _ _ _ eq_refl eq_refl). cbn [mbind option_bind].
  rewrite (fmap_app Some v more), <- (app_assoc (Some <$> v)), (app_assoc l3).
  rewrite (read_from_mid (l3 ++ (Some <$> n)) v) by (done || rewrite length_app, length_fmap; lia). cbn [mbind option_bind].
  rewrite Hset. cbn [mbind option_bind]. f_equal.
  unfold l3. rewrite !length_app, !length_fmap. lia.
Qed.

Lemma encode_pair_pos p : (0 < length (encode_pair p))%nat.
Proof. unfold encode_pair. rewrite length_app. pose proof (length_bytes_pos (Z.of_nat (length p.1))). lia. Qed.

Lemma params_loop_ok ps : Forall pair_ok ps -> forall fuel g E l1 l2 end_, env_ok g E ->
  end_ = Z.of_nat (length l1 + length (encode_pairs ps)) -> (length (encode_pairs ps) < fuel)%nat ->
  exists g' E', params_loop fuel g (l1 ++ (Some <$> encode_pairs ps) ++ l2) (Z.of_nat (length l1)) end_ = Some (g', true) /\
    env_ok g' E' /\ live E' = with_pairs (live E) ps.
Proof.
  induction ps as [|p ps IH]; intros Hps [|fuel] g E l1 l2 end_ Hok Hend Hf; try lia.
  { exists g, E. cbn [params_loop]. cbn in Hend. rewrite (proj2 (Z.leb_le _ _)) by lia. done. }
  apply Forall_cons in Hps as [Hp Hps]. unfold encode_pairs in *. cbn [fmap list_fmap concat] in *.
  fold (encode_pair <$> ps) in *. pose proof (encode_pair_pos p). rewrite length_app in Hf.
  destruct (params_loop_pair fuel g E l1 p (concat (encode_pair <$> ps)) l2 end_ Hok Hp Hend) as (g1 & E1 & Hok1 & Hl1 & ->).
  rewrite fmap_at. replace (length l1 + length (encode_pair p))%nat with (length (l1 ++ (Some <$> encode_pair p)))
    by (by rewrite length_app, length_fmap).
  destruct (IH Hps fuel g1 E1 (l1 ++ (Some <$> encode_pair p)) l2 end_ Hok1) as (g2 & E2 & -> & Hok2 & Hl2).
  - rewrite Hend, !length_app, length_fmap. lia.
  - lia.
  - exists g2, E2. split; [done|]. split; [done|]. rewrite Hl2, Hl1. done.
Qed.

(** ** What is read of a record *)
Definition reading req (rs : list read_result) : fcgi_request :=
  let c := conn req in let c := {| c with reads := rs |} in {| req with conn := c |}.

Definition pending req (bs : list Z) : Prop := delivering (reads (conn req)) /\ stream (reads (conn req)) = bs.

Lemma read_header_ok req t i len pad rest : pending req (header_bytes t i len pad ++ rest) ->
  0 <= i < 2 ^ 16 -> 0 <= len < 2 ^ 16 -> 0 <= pad < 256 ->
  exists rs hdr, read_header req = (reading req rs, Some hdr) /\ pending (reading req rs) rest /\
    type hdr = t /\ content_length hdr = len /\ paddingLength hdr = pad /\
    Z.shiftl (requestIdB1 hdr) 8 + requestIdB0 hdr = i.
Proof.
  intros [Hd Es] Hi Hl Hp. unfold read_header.
  destruct (safe_read_ok (conn req) _ rest Hd Es) as (rs & Er & Hd' & Es').
  change (Z.of_nat (length (header_bytes t i len pad))) with 8 in Er. rewrite Er. cbn [Z.eqb negb Pos.eqb].
  destruct (header_of_bytes t i len pad) as (hdr & -> & Hv & Ht & _ & Hid & Hcl & Hpl). exists rs, hdr.
  rewrite Hv. unfold FCGI_VERSION_1. cbn [Z.ltb Z.compare Pos.compare Pos.compare_cont].
  split_and!; [done|done|done|auto..].
Qed.

Lemma read_header_available req bs : pending req bs ->
  available (reads (conn (read_header req).1)) = (length bs - 8)%nat.
Proof.
  intros [Hd Es]. unfold read_header, safe_read. destruct (read_loop_ok (reads (conn req)) (Z.to_nat 8) [] Hd) as (rs & -> & _ & Hs).
  rewrite <- length_drop, <- Es. change 8%nat with (Z.to_nat 8). rewrite <- Hs, length_stream.
  repeat case_match; by simplify_eq.
Qed.

(** The buffer of the function holds the longest record. *)
Definition buf_ok buf : Prop := length buf = Z.to_nat (FCGI_MAX_LENGTH + 8).

Lemma read_body_ok req buf bs n rest : pending req (bs ++ rest) ->
  n = Z.of_nat (length bs) -> buf_ok buf -> n <= FCGI_MAX_LENGTH ->
  exists rs l2, read_body req buf n = Some (reading req rs, (Some <$> bs) ++ l2, true) /\
    pending (reading req rs) rest /\ buf_ok ((Some <$> bs) ++ l2).
Proof.
  intros [Hd Es] -> Hb Hn. unfold read_body. destruct (safe_read_ok (conn req) bs rest Hd Es) as (rs & -> & Hd' & Es').
  exists rs, (drop (length bs) buf). unfold buf_ok, FCGI_MAX_LENGTH in *.
  assert (copy_to buf 0 bs = Some ((Some <$> bs) ++ drop (length bs) buf)) as -> by (apply (copy_to_end []); [done|lia]). cbn [mbind option_bind app]. rewrite Z.eqb_refl. split; [done|].
  split; [done|]. rewrite length_app, length_fmap, length_drop. lia.
Qed.

(** ** The records of a request *)

(** A record with any padding. *)
Definition framed (t i : Z) (data pad : list Z) : list Z :=
  header_bytes t i (Z.of_nat (length data)) (Z.of_nat (length pad)) ++ data ++ pad.

(** The pairs and the padding of one PARAMS record; none of them is the last, empty, one. *)
Definition part_ok (part : list (list Z * list Z) * list Z) : Prop :=
  part.1 <> [] /\ Forall pair_ok part.1 /\ Z.of_nat (length part.2) < 256 /\
  Z.of_nat (length (encode_pairs part.1) + length part.2) <= FCGI_MAX_LENGTH.

Definition params_wire (i : Z) (parts : list (list (list Z * list Z) * list Z)) : list Z :=
  concat ((fun part => framed FCGI_PARAMS i (encode_pairs part.1) part.2) <$> parts) ++ framed FCGI_PARAMS i [] [].

Lemma length_framed t i data pad : length (framed t i data pad) = (8 + length data + length pad)%nat.
Proof. unfold framed. rewrite !length_app, length_header. lia. Qed.

Lemma encode_pairs_pos ps : ps <> [] -> (0 < length (encode_pairs ps))%nat.
Proof.
  intros Hps. destruct ps as [|p ps]; [done|]. unfold encode_pairs. cbn. rewrite length_app. pose proof (encode_pair_pos p). lia.
Qed.

Lemma get_params_ok g E ps (pad : list Z) l2 : env_ok g E -> Forall pair_ok ps ->
  exists g' E', fcgi_get_params g ((Some <$> encode_pairs ps ++ pad) ++ l2) 0 (Z.of_nat (length (encode_pairs ps))) = Some (g', true) /\
    env_ok g' E' /\ live E' = with_pairs (live E) ps.
Proof.
  intros Hok Hps. unfold fcgi_get_params. rewrite fmap_app, <- app_assoc.
  apply (params_loop_ok ps Hps _ g E [] ((Some <$> pad) ++ l2)); [done|done|lia].
Qed.

(** The header of the first of the records is read by the caller. *)
Lemma read_params_ok i parts : 0 <= i < 2 ^ 16 -> Forall part_ok parts -> forall fuel req buf E rest,
  pending req (params_wire i parts ++ rest) -> buf_ok buf -> env_ok (env req) E -> (length parts < fuel)%nat ->
  exists rs hdr, read_header req = (reading req rs, Some hdr) /\
  exists g E' rs', read_params fuel (reading req rs) buf hdr = Some (reading {| req with env := g |} rs', true) /\
    pending (reading req rs') rest /\ env_ok g E' /\ live E' = with_pairs (live E) (concat parts.*1).
Proof.
  intros Hi. induction parts as [|[ps pad] parts IH]; intros Hparts [|fuel] req buf E rest Hp Hb Hok Hf; try (cbn in Hf; lia).
  - unfold params_wire, framed in Hp. cbn [fmap list_fmap concat app] in Hp.
    destruct (read_header_ok req FCGI_PARAMS i 0 0 rest Hp) as (rs & hdr & -> & Hp' & Et & El & _); [lia..|].
    exists rs, hdr. split; [done|]. exists (env req), E, rs. cbn [read_params]. rewrite Et, El. cbn.
    split; [by destruct req|]. done.
  - apply Forall_cons in Hparts as [(Hne & Hps & Hpad & Hlen) Hparts]. cbn [fst snd] in *.
    pose proof (encode_pairs_pos ps Hne) as Hpos. unfold FCGI_MAX_LENGTH in Hlen.
    unfold params_wire in Hp. cbn [fmap list_fmap concat] in Hp.
    rewrite <- !app_assoc in Hp. unfold framed at 1 in Hp. cbn [fst snd] in Hp. rewrite <- app_assoc in Hp.
    destruct (read_header_ok req FCGI_PARAMS i _ _ _ Hp) as (rs & hdr & -> & Hp' & Et & El & Epad & _); [lia..|].
    exists rs, hdr. split; [done|]. cbn [read_params]. rewrite Et, El, Epad. change (FCGI_PARAMS =? FCGI_PARAMS) with true. cbn [andb].
    rewrite (proj2 (Z.ltb_lt _ _)) by lia. unfold FCGI_MAX_LENGTH. rewrite (proj2 (Z.ltb_ge _ _)) by lia.
    destruct (read_body_ok (reading req rs) buf (encode_pairs ps ++ pad) (Z.of_nat (length (encode_pairs ps)) + Z.of_nat (length pad)) _ Hp')
      as (rs1 & l2 & -> & Hp1 & Hb1); [rewrite length_app; lia|done|unfold FCGI_MAX_LENGTH; lia|]. cbn [mbind option_bind negb].
    destruct (get_params_ok (env req) E ps pad l2 Hok Hps) as (g1 & E1 & Eg & Hok1 & Hl1).
    change (env (reading (reading req rs) rs1)) with (env req). rewrite Eg. cbn [mbind option_bind negb].
    change {| fd := fd (reading (reading req rs) rs1); id := _; keep := _; tcp := _; nodelay := _; ended := _; in_len := _;
      in_pad := _; out_hdr := _; out_pos := _; out_buf := _; has_env := _; env := g1; conn := _ |}
      with (reading {| req with env := g1 |} rs1).
    destruct (IH Hparts fuel (reading {| req with env := g1 |} rs1) ((Some <$> encode_pairs ps ++ pad) ++ l2) E1 rest) as
      (rs2 & hdr2 & -> & g2 & E2 & rs3 & Er & Hp3 & Hok3 & Hl3); [|done|done|cbn [length] in Hf; lia|].
    { unfold params_wire. rewrite <- app_assoc. exact Hp1. }
    exists g2, E2, rs3. split; [exact Er|]. split; [exact Hp3|]. split; [done|].
    rewrite Hl3, Hl1. unfold with_pairs. cbn. by rewrite foldl_app.
Qed.

Lemma length_params_wire i parts : (8 * S (length parts) <= length (params_wire i parts))%nat.
Proof.
  unfold params_wire. rewrite length_app, length_framed. induction parts as [|part parts IH]; cbn [fmap list_fmap concat length] in *; [cbn; lia|].
  rewrite length_app, length_framed. lia.
Qed.

(** ** The variables, without the hashes *)
Definition set_all (vs : list (list Z * list Z)) : list (list Z * list Z) :=
  foldl (fun m p => om_insert p.1 p.2 m) [] vs.

Definition hashed (p : list Z * list Z) : (Z * list Z) * list Z := ((hash_of unsigned_char p.1, p.1), p.2).

Lemma insert_hashed n v m : om_insert (hash_of unsigned_char n, n) v (hashed <$> m) = hashed <$> om_insert n v m.
Proof.
  induction m as [|[n' v'] m IH]; [done|]. cbn. destruct (decide (n = n')) as [<-|Hne].
  - by rewrite decide_True.
  - rewrite decide_False by congruence. cbn. f_equal. exact IH.
Qed.

Lemma lookup_hashed n m : om_lookup (hash_of unsigned_char n, n) (hashed <$> m) = om_lookup n m.
Proof.
  induction m as [|[n' v'] m IH]; [done|]. cbn. destruct (decide (n = n')) as [<-|Hne].
  - by rewrite decide_True.
  - rewrite decide_False by congruence. exact IH.
Qed.

Lemma with_pairs_hashed vs : forall m, with_pairs (hashed <$> m) vs = hashed <$> foldl (fun m p => om_insert p.1 p.2 m) m vs.
Proof.
  unfold with_pairs. induction vs as [|[n v] vs IH]; intros m; [done|]. cbn [foldl fst snd].
  by rewrite insert_hashed, IH.
Qed.

(** ** The beginning of a request *)
Definition begin_data (role flags : Z) (five : list Z) : list Z := 0 :: role :: flags :: five.

(** What a connection carries up to the body: the empty STDIN records a request before may have left, the
    BEGIN_REQUEST record, the parameters. *)
Definition request_wire (skips : list Z) (i role flags : Z) (five pad : list Z) (parts : list (list (list Z * list Z) * list Z)) : list Z :=
  concat ((fun j => framed FCGI_STDIN j [] []) <$> skips)
  ++ framed FCGI_BEGIN_REQUEST i (begin_data role flags five) pad ++ params_wire i parts.

(** The variables of a request are in order, and none are left where [has_env] says so. *)
Definition env_wf req : Prop := exists E, env_ok (env req) E /\ (has_env req = false -> E = []).

Lemma skip_stdin_ok skips t i len pad rest : Forall (fun j => 0 <= j < 2 ^ 16) skips -> t <> FCGI_STDIN ->
  0 <= i < 2 ^ 16 -> 0 <= len < 2 ^ 16 -> 0 <= pad < 256 ->
  forall fuel req, (length skips < fuel)%nat ->
  pending req (concat ((fun j => framed FCGI_STDIN j [] []) <$> skips) ++ header_bytes t i len pad ++ rest) ->
  exists rs hdr, read_header req = (reading req rs, Some hdr) /\ exists rs' hdr',
    skip_stdin fuel (reading req rs) hdr = Some (reading req rs', Some hdr') /\ pending (reading req rs') rest /\
    type hdr' = t /\ content_length hdr' = len /\ paddingLength hdr' = pad /\
    Z.shiftl (requestIdB1 hdr') 8 + requestIdB0 hdr' = i.
Proof.
  intros Hs Ht Hi Hl Hpad. induction skips as [|j skips IH]; intros [|fuel] req Hf Hp; try (cbn in Hf; lia); cbn [fmap list_fmap concat app] in Hp.
  - destruct (read_header_ok req t i len pad rest Hp) as (rs & hdr & -> & Hp' & Et & El & Epad & Ei); [done..|].
    exists rs, hdr. split; [done|]. exists rs, hdr. cbn [skip_stdin]. rewrite Et.
    rewrite (proj2 (Z.eqb_neq _ _)) by done. done.
  - apply Forall_cons in Hs as [Hj Hs]. unfold framed at 1 in Hp. cbn [app length] in Hp. rewrite <- app_assoc, app_nil_r in Hp.
    destruct (read_header_ok req FCGI_STDIN j 0 0 _ Hp) as (rs & hdr & -> & Hp' & Et & El & _); [lia..|].
    exists rs, hdr. split; [done|]. cbn [skip_stdin]. rewrite Et, El. cbn [andb]. change ((FCGI_STDIN =? FCGI_STDIN) && (0 =? 0)) with true.
    cbn iota. destruct (IH Hs fuel (reading req rs)) as (rs1 & hdr1 & -> & rs2 & hdr2 & E & Hp2); [cbn in Hf; lia|done|].
    exists rs2, hdr2. split; [exact E|exact Hp2].
Qed.

Definition keeping req (flags : Z) (nd : bool) : fcgi_request := {| req with keep := Z.land flags FCGI_KEEP_CONN; nodelay := nd |}.

Lemma set_keep_is req flags : exists nd, set_keep req flags = keeping req flags nd.
Proof. unfold set_keep, keeping. destruct (_ && _); [by exists true|by exists (nodelay req)]. Qed.

Lemma role_name_short role name : role_name role = Some name -> (length name <= 10)%nat.
Proof. unfold role_name. intros H. repeat case_match; simplify_eq; cbn; lia. Qed.

Definition begun req (flags : Z) (nd : bool) (g : fcgi_hash) (rs : list read_result) : fcgi_request :=
  let req := keeping req flags nd in reading {| req with env := g |} rs.

Lemma begin_request_ok req buf hdr role flags five name pad i parts rest E :
  buf_ok buf -> env_ok (env req) E -> pending req ((begin_data role flags five ++ pad) ++ params_wire i parts ++ rest) ->
  content_length hdr = 8 -> paddingLength hdr = Z.of_nat (length pad) ->
  length five = 5%nat -> Z.of_nat (length pad) < 256 -> role_name role = Some name -> 0 <= i < 2 ^ 16 -> Forall part_ok parts ->
  exists nd g E' rs, begin_request req buf hdr = Some (begun req flags nd g rs, true) /\
    pending (reading req rs) rest /\ env_ok g E' /\ live E' = with_pairs (live E) ((FCGI_ROLE, name) :: concat parts.*1).
Proof.
  intros Hb Hok Hp Hl Hpad H5 Hpl Hrole Hi Hparts. unfold begin_request. rewrite Hl, Hpad.
  destruct (read_body_ok req buf _ (8 + Z.of_nat (length pad)) _ Hp) as (rs & l2 & -> & Hp1 & Hb1).
  { rewrite length_app. cbn. lia. } { done. } { unfold FCGI_MAX_LENGTH. lia. }
  cbn [mbind option_bind negb].
  match goal with |- context [byte_at ?b 0] => set (buf1 := b) in * end.
  assert (byte_at buf1 0 = Some 0 /\ byte_at buf1 1 = Some role /\ byte_at buf1 2 = Some flags) as (E0 & E1 & E2) by done.
  rewrite E0, E1, E2. cbn [mbind option_bind negb]. rewrite Z.shiftl_0_l, Z.add_0_l, Hrole.
  assert (plain_name FCGI_ROLE) as Hplain by (split; [done|repeat constructor; lia]).
  rewrite (name_hash_ok _ Hplain). cbn [mbind option_bind].
  destruct (set_keep_is (reading req rs) flags) as [nd ->].
  change (env (keeping (reading req rs) flags nd)) with (env req). pose proof (role_name_short _ _ Hrole) as Hshort.
  destruct (set_ok (env req) E (hash_of unsigned_char FCGI_ROLE) FCGI_ROLE name Hok) as (g & p & E3 & -> & Hok3 & _ & Hl3);
    [done|lia|]. cbn [mbind option_bind].
  change {| fd := fd (keeping (reading req rs) flags nd); id := _; keep := _; tcp := _; nodelay := _; ended := _; in_len := _;
    in_pad := _; out_hdr := _; out_pos := _; out_buf := _; has_env := _; env := g; conn := _ |} with (begun req flags nd g rs).
  assert (pending (begun req flags nd g rs) (params_wire i parts ++ rest)) as Hp2 by exact Hp1.
  pose proof (read_header_available _ _ Hp2) as Hav. pose proof (length_params_wire i parts).
  destruct (read_header (begun req flags nd g rs)) as [req0 r] eqn:Er. cbn [fst] in Hav. rewrite length_app in Hav.
  destruct (read_params_ok i parts Hi Hparts (S (available (reads (conn req0)))) _ buf1 E3 rest Hp2 Hb1 Hok3) as
    (rs1 & hdr1 & Er' & g' & E' & rs' & Epar & Hp3 & Hok' & Hl'); [lia|].
  rewrite Er in Er'. injection Er' as -> ->. rewrite Epar.
  exists nd, g', E', rs'. split; [done|]. split; [exact Hp3|]. split; [done|]. by rewrite Hl', Hl3.
Qed.

(** The request before its first record is read. *)
Definition fresh req : fcgi_request :=
  let req := {| req with keep := 0; ended := false; in_len := 0; out_hdr := None; out_pos := 0 |} in
  if has_env req then {| req with env := fcgi_hash_clean (env req) |} else {| req with has_env := true |}.

Lemma fresh_ok req : env_wf req -> env_ok (env (fresh req)) [] /\ conn (fresh req) = conn req /\ has_env (fresh req) = true /\ in_len (fresh req) = 0.
Proof.
  intros (E & Hok & Hno). unfold fresh. cbn. destruct (has_env req) eqn:Eh; cbn.
  - split_and!; [by apply (clean_ok _ E)|done..].
  - rewrite (Hno eq_refl) in Hok. done.
Qed.

Definition with_id req (i : Z) : fcgi_request := {| req with id := i |}.

Lemma request_done req i flags nd g rs E vs rest :
  has_env req = true -> in_len req = 0 -> pending (reading req rs) rest -> env_ok g E -> live E = with_pairs [] vs ->
  let req' := begun (with_id req i) flags nd g rs in
  pending req' rest /\ id req' = i /\ keep req' = Z.land flags 1 /\ in_len req' = 0 /\ env_wf req' /\
  (forall s, plain_name s -> fcgi_getenv req' s = Some (om_lookup s (set_all vs))) /\
  (forall A (func : list Z -> list Z -> A -> A) arg,
     fcgi_loadenv req' func arg = Some (foldr (fun p => func p.1 p.2) arg (set_all vs))).
Proof.
  intros Hh Hi Hp Hok Hl req'. pose proof (with_pairs_hashed vs []) as Hw. cbn [fmap list_fmap] in Hw. rewrite Hw in Hl.
  fold (set_all vs) in Hl. split_and!; [exact Hp|done|done|done| | |].
  - exists E. split; [exact Hok|]. cbn. congruence.
  - intros s Hs. unfold fcgi_getenv, fcgi_quick_getenv. rewrite (name_hash_ok s Hs). cbn [mbind option_bind].
    change (env req') with g. rewrite (get_ok g E _ s Hok), Hl. by rewrite lookup_hashed.
  - intros A func arg. unfold fcgi_loadenv. change (env req') with g. rewrite (apply_ok g E func arg Hok), Hl.
    f_equal. by rewrite foldr_fmap.
Qed.


(** ** The body *)

(** What a call does not touch. *)
Definition untouched req req' : Prop := env req' = env req /\ keep req' = keep req /\ id req' = id req.

(** A record of the body is read, up to what is wanted. *)
Lemma read_chunk_ok fuel req0 req str want cur (cpad tail : list Z) :
  next_stdin req0 (Z.of_nat (length str)) = (req, None) -> 0 < want -> cur <> [] ->
  in_len req = Z.of_nat (length cur) -> in_pad req = Z.of_nat (length cpad) -> pending req (cur ++ cpad ++ tail) ->
  exists req', untouched req req' /\
    if want <? Z.of_nat (length cur) then
      read_rest (S fuel) req0 str want = Some (req', str ++ take (Z.to_nat want) cur, Z.of_nat (length str) + want) /\
      in_len req' = Z.of_nat (length (drop (Z.to_nat want) cur)) /\ in_pad req' = Z.of_nat (length cpad) /\
      pending req' (drop (Z.to_nat want) cur ++ cpad ++ tail)
    else
      read_rest (S fuel) req0 str want = read_rest fuel req' (str ++ cur) (want - Z.of_nat (length cur)) /\
      in_len req' = 0 /\ pending req' tail.
Proof.
  intros Hnext Hw Hcur Hlen Hpad Hp. cbn [read_rest]. rewrite (proj2 (Z.leb_gt _ _)) by done. rewrite Hnext.
  assert (0 < Z.of_nat (length cur)) as Hpos by (destruct cur; cbn [length]; [done|lia]).
  destruct (Z.ltb_spec want (Z.of_nat (length cur))) as [Hlt|Hge].
  - rewrite Hlen, (proj2 (Z.leb_le _ _)) by lia.
    destruct Hp as [Hd Es]. rewrite <- (take_drop (Z.to_nat want) cur), <- app_assoc in Es.
    assert (length (take (Z.to_nat want) cur) = Z.to_nat want) as Elen by (rewrite length_take; lia).
    destruct (safe_read_ok (conn req) (take (Z.to_nat want) cur) _ Hd Es) as (rs & Er & Hd' & Es').
    rewrite Elen, Z2Nat.id in Er by lia. rewrite Er.
    rewrite (proj2 (Z.ltb_ge want 0)) by lia. rewrite (proj2 (Z.ltb_lt 0 want)) by lia.
    cbn [in_len]. rewrite (proj2 (Z.eqb_neq _ _)) by lia.
    eexists. split; [|split; [done|]]; [done|]. cbn. rewrite length_drop. split; [lia|]. done.
  - rewrite Hlen. assert ((if want <=? Z.of_nat (length cur) then want else Z.of_nat (length cur)) = Z.of_nat (length cur)) as ->
      by (destruct (Z.leb_spec want (Z.of_nat (length cur))); lia).
    destruct Hp as [Hd Es]. destruct (safe_read_ok (conn req) cur _ Hd Es) as (rs & Er & Hd' & Es'). rewrite Er.
    rewrite (proj2 (Z.ltb_ge _ 0)) by lia. rewrite (proj2 (Z.ltb_lt 0 _)) by lia.
    cbn [in_len in_pad conn]. rewrite Z.sub_diag. cbn [Z.eqb]. rewrite Hpad.
    destruct cpad as [|b cpad].
    + cbn [length Z.of_nat Z.eqb negb]. eexists. split; [|split; [done|]]; [done|]. done.
    + rewrite (proj2 (Z.eqb_neq (Z.of_nat (length (b :: cpad))) 0)) by (cbn [length]; lia). cbn [negb].
      destruct (safe_read_ok {| sent := sent (conn req); writes := writes (conn req); reads := rs; events := events (conn req) |}
        (b :: cpad) tail Hd' Es') as (rs' & Er' & Hd2 & Es2). cbn [reads] in Er'. rewrite Er', Z.eqb_refl.
      eexists. split; [|split; [done|]]; [done|]. done.
Qed.

(** The contents and the padding of a STDIN record that is not the last. *)
Definition chunk_ok (r : list Z * list Z) : Prop :=
  r.1 <> [] /\ Z.of_nat (length r.1) < 2 ^ 16 /\ Z.of_nat (length r.2) < 256.

Definition stdin_wire (i : Z) (recs : list (list Z * list Z)) : list Z :=
  concat ((fun r => framed FCGI_STDIN i r.1 r.2) <$> recs) ++ framed FCGI_STDIN i [] [].

Lemma length_stdin_wire i recs : (8 * S (length recs) <= length (stdin_wire i recs))%nat.
Proof.
  unfold stdin_wire. rewrite length_app, length_framed. induction recs as [|r recs IH]; cbn [fmap list_fmap concat length] in *; [cbn; lia|].
  rewrite length_app, length_framed. lia.
Qed.

(** [s] is left of the body, the beginning of it in a record that is begun, and [rest] lies behind it. *)
Definition body (i : Z) req (s rest : list Z) : Prop := exists cur cpad recs,
  s = cur ++ concat recs.*1 /\ Forall chunk_ok recs /\ in_len req = Z.of_nat (length cur) /\
  (if decide (cur = []) then cpad = [] else in_pad req = Z.of_nat (length cpad)) /\
  pending req (cur ++ cpad ++ stdin_wire i recs ++ rest).

(** The next record, if the last one is read. *)
Lemma next_stdin_ok req i r recs rest n : 0 <= i < 2 ^ 16 -> chunk_ok r -> in_len req = 0 -> pending req (stdin_wire i (r :: recs) ++ rest) ->
  exists req', next_stdin req n = (req', None) /\ untouched req req' /\ in_len req' = Z.of_nat (length r.1) /\
    in_pad req' = Z.of_nat (length r.2) /\ pending req' (r.1 ++ r.2 ++ stdin_wire i recs ++ rest).
Proof.
  intros Hi (Hne & Hl & Hpad) H0 Hp. unfold next_stdin. rewrite H0. cbn [Z.eqb].
  unfold stdin_wire in Hp. cbn [fmap list_fmap concat] in Hp. unfold framed at 1 in Hp. rewrite <- !app_assoc in Hp.
  destruct (read_header_ok req FCGI_STDIN i _ _ _ Hp) as (rs & hdr & -> & Hp' & Et & El & Epad & _); [lia..|].
  rewrite Et. change (negb (FCGI_STDIN =? FCGI_STDIN)) with false. cbn [in_len]. rewrite El, Epad.
  assert (0 < Z.of_nat (length r.1)) by (destruct r.1; cbn [length]; [done|lia]).
  rewrite (proj2 (Z.eqb_neq _ _)) by lia. eexists. split; [done|]. split; [done|]. split; [done|]. split; [done|].
  unfold stdin_wire. rewrite <- !app_assoc. exact Hp'.
Qed.

Lemma last_stdin_ok req i rest n : 0 <= i < 2 ^ 16 -> in_len req = 0 -> pending req (stdin_wire i [] ++ rest) ->
  exists req', next_stdin req n = (req', Some n) /\ untouched req req' /\ in_len req' = 0 /\ pending req' rest.
Proof.
  intros Hi H0 Hp. unfold next_stdin. rewrite H0. cbn [Z.eqb].
  destruct (read_header_ok req FCGI_STDIN i 0 0 rest Hp) as (rs & hdr & -> & Hp' & Et & El & Epad & _); [lia..|].
  rewrite Et. change (negb (FCGI_STDIN =? FCGI_STDIN)) with false. cbn [in_len]. rewrite El. cbn [Z.eqb].
  by eexists.
Qed.

(** What a read of [want] bytes of [s] leaves. *)
Definition read_leaves (i : Z) req req' (s rest : list Z) (want : Z) : Prop :=
  untouched req req' /\
  if want <=? Z.of_nat (length s) then body i req' (drop (Z.to_nat want) s) rest
  else in_len req' = 0 /\ pending req' rest.

Lemma untouched_trans req1 req2 req3 : untouched req1 req2 -> untouched req2 req3 -> untouched req1 req3.
Proof. unfold untouched. intuition congruence. Qed.

(** The loop, from a record that is begun: [IH] is the loop from the next. *)
Lemma read_rest_chunk i fuel req0 req str want cur cpad recs rest : Forall chunk_ok recs ->
  (forall req str want, in_len req = 0 -> pending req (stdin_wire i recs ++ rest) -> 0 <= want ->
     exists req', read_rest fuel req str want
       = Some (req', str ++ take (Z.to_nat want) (concat recs.*1), Z.of_nat (length str + length (take (Z.to_nat want) (concat recs.*1)))) /\
       read_leaves i req req' (concat recs.*1) rest want) ->
  next_stdin req0 (Z.of_nat (length str)) = (req, None) -> 0 < want -> cur <> [] ->
  in_len req = Z.of_nat (length cur) -> in_pad req = Z.of_nat (length cpad) -> pending req (cur ++ cpad ++ stdin_wire i recs ++ rest) ->
  exists req', read_rest (S fuel) req0 str want
    = Some (req', str ++ take (Z.to_nat want) (cur ++ concat recs.*1),
        Z.of_nat (length str + length (take (Z.to_nat want) (cur ++ concat recs.*1)))) /\
    read_leaves i req req' (cur ++ concat recs.*1) rest want.
Proof.
  intros Hrecs IH Hnext Hw Hcur Hlen Hpad Hp.
  destruct (read_chunk_ok fuel req0 req str want cur cpad (stdin_wire i recs ++ rest)) as (req1 & Hu & Hr); [done..|].
  unfold read_leaves. rewrite length_app. destruct (Z.ltb_spec want (Z.of_nat (length cur))) as [Hlt|Hge].
  - destruct Hr as (-> & Hl1 & Hp1 & Hpd1). exists req1. rewrite take_app_le, drop_app_le by lia. split.
    { do 3 f_equal. rewrite length_take. lia. }
    split; [done|]. rewrite (proj2 (Z.leb_le _ _)) by lia. exists (drop (Z.to_nat want) cur), cpad, recs.
    split_and!; try done. rewrite decide_False; [done|]. intros E. apply (f_equal length) in E. rewrite length_drop in E. cbn in E. lia.
  - destruct Hr as (-> & Hl1 & Hp1). destruct (IH req1 (str ++ cur) (want - Z.of_nat (length cur)) Hl1 Hp1) as (req2 & -> & Hu2 & Hb2); [lia|].
    exists req2. rewrite take_app_ge, drop_app_ge by lia. rewrite !length_app, <- app_assoc.
    replace (Z.to_nat (want - Z.of_nat (length cur))) with (Z.to_nat want - length cur)%nat in * by lia. split.
    { do 3 f_equal. lia. }
    split; [by apply (untouched_trans _ req1)|].
    destruct (Z.leb_spec (want - Z.of_nat (length cur)) (Z.of_nat (length (concat recs.*1)))); [|by zbool].
    rewrite (proj2 (Z.leb_le _ _)) by lia. exact Hb2.
Qed.

Lemma read_rest_ok i rest recs : 0 <= i < 2 ^ 16 -> Forall chunk_ok recs -> forall fuel req str want,
  (length recs + 1 < fuel)%nat -> in_len req = 0 -> pending req (stdin_wire i recs ++ rest) -> 0 <= want ->
  exists req', read_rest fuel req str want
    = Some (req', str ++ take (Z.to_nat want) (concat recs.*1), Z.of_nat (length str + length (take (Z.to_nat want) (concat recs.*1)))) /\
    read_leaves i req req' (concat recs.*1) rest want.
Proof.
  intros Hi. induction recs as [|r recs IH]; intros Hrecs [|fuel] req str want Hf H0 Hp Hw; try lia.
  all: destruct (decide (want = 0)) as [->|Hne].
  1, 3: exists req; cbn [read_rest Z.leb Z.compare]; change (Z.to_nat 0) with O; rewrite take_0, app_nil_r, Nat.add_0_r; split; [done|]; split; [done|];
    rewrite (proj2 (Z.leb_le _ _)) by lia; eexists [], [], _; split_and!; done.
  - cbn [read_rest]. rewrite (proj2 (Z.leb_gt _ _)) by lia.
    destruct (last_stdin_ok req i rest (Z.of_nat (length str)) Hi H0 Hp) as (req1 & -> & Hu & Hl & Hp1).
    exists req1. cbn [fmap list_fmap concat]. rewrite take_nil, app_nil_r, Nat.add_0_r. split; [done|]. split; [done|].
    cbn [length]. rewrite (proj2 (Z.leb_gt _ _)) by lia. done.
  - apply Forall_cons in Hrecs as [Hr Hrecs].
    destruct (next_stdin_ok req i r recs rest (Z.of_nat (length str)) Hi Hr H0 Hp) as (req1 & Hn & Hu & Hl & Hpad & Hp1).
    destruct (read_rest_chunk i fuel req req1 str want r.1 r.2 recs rest) as (req2 & E & Hu2 & Hb); try done; [|lia|by destruct Hr|].
    { intros. apply IH; try done. cbn [length] in Hf. lia. }
    exists req2. split; [exact E|]. split; [by apply (untouched_trans _ req1)|]. exact Hb.
Qed.

(** C18: the body of a request is read in order and completely.  However it is cut into STDIN records with
    whatever padding, and in whatever portions and interruptions the bytes come in, [fcgi_read] gives the next
    [len] bytes of it, or all that are left before the empty record that ends it, counts them, leaves the
    variables and the connection's [keep] alone, and a later call goes on where it stopped. *)
Theorem fcgi_read_body i req s rest len : 0 <= i < 2 ^ 16 -> body i req s rest -> 0 <= len ->
  exists req', fcgi_read req len = Some (req', take (Z.to_nat len) s, Z.of_nat (length (take (Z.to_nat len) s))) /\
    env req' = env req /\ keep req' = keep req /\
    if len <=? Z.of_nat (length s) then body i req' (drop (Z.to_nat len) s) rest
    else in_len req' = 0 /\ pending req' rest.
Proof.
  intros Hi (cur & cpad & recs & -> & Hrecs & Hlen & Hpad & Hp) Hw.
  assert (length recs + 2 < S (S (available (reads (conn req)))))%nat as Hfuel.
  { destruct Hp as [_ Hs]. rewrite <- length_stream, Hs, !length_app. pose proof (length_stdin_wire i recs). lia. }
  assert (exists req', fcgi_read req len = Some (req', take (Z.to_nat len) (cur ++ concat recs.*1),
    Z.of_nat (length (take (Z.to_nat len) (cur ++ concat recs.*1)))) /\ read_leaves i req req' (cur ++ concat recs.*1) rest len)
    as (req' & E & (Hu & Hk & _) & Hb); [|by exists req'].
  unfold fcgi_read. destruct (decide (cur = [])) as [->|Hcur].
  - subst cpad. apply (read_rest_ok i rest recs Hi Hrecs _ req [] len); [lia|done|done|done].
  - destruct (decide (len = 0)) as [->|Hne].
    + exists req. cbn [read_rest Z.leb Z.compare]. split; [done|]. split; [done|]. rewrite (proj2 (Z.leb_le _ _)) by lia.
      exists cur, cpad, recs. rewrite decide_False by done. done.
    + apply (read_rest_chunk i (S (available (reads (conn req)))) req req [] len cur cpad recs rest); try done; [| |lia].
      * intros. apply read_rest_ok; try done. lia.
      * unfold next_stdin. rewrite Hlen, (proj2 (Z.eqb_neq _ _)); [done|]. destruct cur; cbn; [done|lia].
Qed.

(** ** Examples *)
Definition a_peer (rs : list read_result) : peer := {| sent := []; writes := []; reads := rs; events := [] |}.

Definition ex_name : list Z := [72; 79; 83; 84].

Definition ex_parts : list (list (list Z * list Z) * list Z) :=
  [([(ex_name, [97]); ([80; 65; 84; 72], replicate 200 47)], [0; 0; 0]); ([(ex_name, [98; 99])], [])].

Definition ex_request : list Z := request_wire [7; 7] 258 1 1 [0; 0; 0; 0; 0] [] ex_parts.

Definition ex_stdin : list Z := stdin_wire 258 [([1; 2; 3], [0; 0; 0; 0; 0]); ([4], [])].

(** The bytes come in two portions, with an interruption between them. *)
Definition ex_req : fcgi_request :=
  fcgi_init_request (a_peer [Delivered (take 20 ex_request); Read_interrupted; Delivered (drop 20 ex_request ++ ex_stdin)]).

(** No management variables. *)
Definition no_vars : HashTable (list Z) :=
  {| addr := 0; IS_ARRAY_PERSISTENT := true; HASH_FLAG_PACKED := false; HASH_FLAG_UNINITIALIZED := true;
     HASH_FLAG_STATIC_KEYS := false; HASH_FLAG_HAS_EMPTY_IND := false; nIteratorsCount := 0; nTableMask := HT_MIN_MASK;
     arHash := [HT_INVALID_IDX; HT_INVALID_IDX]; arData := []; nNumUsed := 0; nNumOfElements := 0; nTableSize := 8;
     nInternalPointer := 0; nNextFreeElement := 0; pDestructor := false |}.

Definition no_globals : executor_globals (list Z) :=
  {| ht_iterators := []; ht_iterators_used := 0; slots := ∅; destroyed := [] |}.

Lemma ex_pending : pending ex_req (ex_request ++ ex_stdin).
Proof. split; [repeat constructor; vm_compute; congruence|by vm_compute]. Qed.

Lemma ex_parts_ok : Forall part_ok ex_parts.
Proof.
  assert (pair_ok (ex_name, [97]) /\ pair_ok ([80; 65; 84; 72], replicate 200 47) /\ pair_ok (ex_name, [98; 99])) as (H1 & H2 & H3).
  { split_and!; (split; [split; [done|repeat constructor; lia]|split; cbn; lia]). }
  repeat constructor; try done; cbn; lia.
Qed.


(** A body of two records, the first of them padded; four bytes are read, then what is left. *)
Definition ex_body_req : fcgi_request := fcgi_init_request (a_peer [Delivered (take 9 ex_stdin); Read_interrupted; Delivered (drop 9 ex_stdin)]).

Lemma fcgi_read_body_witness :
  exists req', fcgi_read ex_body_req 4 = Some (req', take (Z.to_nat 4) [1; 2; 3; 4], Z.of_nat (length (take (Z.to_nat 4) [1; 2; 3; 4]))) /\
    env req' = env ex_body_req /\ keep req' = keep ex_body_req /\
    if 4 <=? Z.of_nat (length [1; 2; 3; 4]) then body 258 req' (drop (Z.to_nat 4) [1; 2; 3; 4]) []
    else in_len req' = 0 /\ pending req' [].
Proof.
  apply (fcgi_read_body 258 ex_body_req [1; 2; 3; 4] [] 4); [lia| |lia].
  exists [], [], [([1; 2; 3], [0; 0; 0; 0; 0]); ([4], [])]. split; [done|]. split; [repeat constructor; cbn; try done; lia|].
  split; [done|]. split; [done|]. split; [repeat constructor; vm_compute; congruence|by vm_compute].
Defined.

(** ** What the hash macro costs

    A name of three bytes is hashed with the byte behind it: in a record that is the value's, for
    [fcgi_getenv] the terminator.  The variable is there and is not found. *)
Definition ex_short_name : list Z := framed FCGI_BEGIN_REQUEST 1 (begin_data 1 0 [0; 0; 0; 0; 0]) []
  ++ params_wire 1 [([([70; 79; 79], [97])], [])].

Example three_byte_name_lost :
  (r ← fcgi_read_request no_vars no_globals (fcgi_init_request (a_peer [Delivered ex_short_name]));
   v ← fcgi_getenv r.1 [70; 79; 79];
   l ← fcgi_loadenv r.1 (fun n x acc => (n, x) :: acc) [];
   Some (r.2, v, om_lookup [70; 79; 79] l)) = Some (1, None, Some [97]).
Proof. by vm_compute. Qed.

(** A byte above 127 is an [unsigned char] in a record and a [char] for [fcgi_getenv]. *)
Definition ex_high_name : list Z := framed FCGI_BEGIN_REQUEST 1 (begin_data 1 0 [0; 0; 0; 0; 0]) []
  ++ params_wire 1 [([([70; 79; 79; 200], [97])], [])].

Example high_byte_name_lost :
  (r ← fcgi_read_request no_vars no_globals (fcgi_init_request (a_peer [Delivered ex_high_name]));
   v ← fcgi_getenv r.1 [70; 79; 79; 200];
   l ← fcgi_loadenv r.1 (fun n x acc => (n, x) :: acc) [];
   Some (r.2, v, om_lookup [70; 79; 79; 200] l)) = Some (1, None, Some [97]).
Proof. by vm_compute. Qed.
