(* ===== verification/Output.v ===== *)
(** * Output buffering ([php_headers/output.c])

    Everything a script prints goes through a stack of handlers, each with a buffer; what the lowest one
    passes on goes to the server.  Handlers live in a store and are named by their place there, as [OG(active)],
    [OG(running)] and the stack, a [zend_stack] of pointers, share them.

    A handler that the script defines is a function of the calls made to it so far: it prints something,
    which comes back into this code, and answers.  Such a function that calls this code in another way ends
    the script with a fatal error.  What a context points to is held as bytes: the buffer that an internal
    handler passes on without a copy is not written before they are used.  [size_t] sums do not wrap: blocks
    are smaller than 2^63 bytes and [safe_erealloc] stops the process when the sum overflows. *)
From S2P Require Import Prelude ZendStack.
Import Stack.

(** ** Flags ([php_output.h]) *)
Definition PHP_OUTPUT_HANDLER_WRITE : Z := 0x00.
Definition PHP_OUTPUT_HANDLER_START : Z := 0x01.
Definition PHP_OUTPUT_HANDLER_CLEAN : Z := 0x02.
Definition PHP_OUTPUT_HANDLER_FLUSH : Z := 0x04.
Definition PHP_OUTPUT_HANDLER_FINAL : Z := 0x08.

Definition PHP_OUTPUT_HANDLER_INTERNAL : Z := 0x0000.
Definition PHP_OUTPUT_HANDLER_USER : Z := 0x0001.

Definition PHP_OUTPUT_HANDLER_CLEANABLE : Z := 0x0010.
Definition PHP_OUTPUT_HANDLER_FLUSHABLE : Z := 0x0020.
Definition PHP_OUTPUT_HANDLER_REMOVABLE : Z := 0x0040.
Definition PHP_OUTPUT_HANDLER_STDFLAGS : Z := 0x0070.

Definition PHP_OUTPUT_HANDLER_STARTED : Z := 0x1000.
Definition PHP_OUTPUT_HANDLER_DISABLED : Z := 0x2000.
Definition PHP_OUTPUT_HANDLER_PROCESSED : Z := 0x4000.

Inductive php_output_handler_status_t := PHP_OUTPUT_HANDLER_FAILURE | PHP_OUTPUT_HANDLER_SUCCESS | PHP_OUTPUT_HANDLER_NO_DATA.

Definition PHP_OUTPUT_POP_TRY : Z := 0x000.
Definition PHP_OUTPUT_POP_FORCE : Z := 0x001.
Definition PHP_OUTPUT_POP_DISCARD : Z := 0x010.
Definition PHP_OUTPUT_POP_SILENT : Z := 0x100.

Definition PHP_OUTPUT_IMPLICITFLUSH : Z := 0x01.
Definition PHP_OUTPUT_DISABLED : Z := 0x02.
Definition PHP_OUTPUT_WRITTEN : Z := 0x04.
Definition PHP_OUTPUT_SENT : Z := 0x08.
Definition PHP_OUTPUT_ACTIVE : Z := 0x10.
Definition PHP_OUTPUT_LOCKED : Z := 0x20.
Definition PHP_OUTPUT_ACTIVATED : Z := 0x100000.

Definition PHP_OUTPUT_HANDLER_ALIGNTO_SIZE : Z := 0x1000.
Definition PHP_OUTPUT_HANDLER_DEFAULT_SIZE : Z := 0x4000.
Definition PHP_OUTPUT_HANDLER_INITBUF_SIZE (s : Z) : Z :=
  if 1 <? s then s + PHP_OUTPUT_HANDLER_ALIGNTO_SIZE - s mod PHP_OUTPUT_HANDLER_ALIGNTO_SIZE else PHP_OUTPUT_HANDLER_DEFAULT_SIZE.

(** ** Data *)

(** [data] is empty when it is NULL; [size] is its length. *)
Record php_output_buffer := { data : list (option Z); used : Z }.

Definition bsize (b : php_output_buffer) : Z := Z.of_nat (length (data b)).

(** [in] and [out] of a context: NULL, or the used bytes. *)
Record php_output_context := { op : Z; cin : option (list Z); cout : option (list Z) }.

(** The functions behind a handler; [php_output_handler_compat_func] has the function it calls in [opaq]. *)
Inductive handler_func := Default_func | Devnull_func | Compat_func (opaq : option Z) | User_func (zoh : Z).

(** [hsize] is the chunk size, the field [size]. *)
Record php_output_handler := {
  name : list Z; hflags : Z; level : Z; hsize : Z; buffer : php_output_buffer; func : handler_func }.

(** A call of a script's handler. *)
Record call := { callee : Z; ob_data : list Z; ob_mode : Z }.

(** What it answers: the call fails, or [false], [true], or a value with that string. *)
Inductive answer := Call_failed | Returns_false | Returns_true | Returns (s : list Z).

(** [written], [flushes] and [SG(headers_sent)] are the server's, [direct] is the standard output, [calls] what
    was called; [store] has the handlers that are not freed. *)
Record output_globals := {
  handlers : zend_stack (E:=Z); active : option Z; running : option Z; flags : Z;
  store : gmap Z php_output_handler; fresh_id : Z;
  written : list Z; flushes : Z; headers_sent : bool; direct : list Z; calls : list call }.

Implicit Types (G : output_globals) (h : Z) (hd : php_output_handler) (c : php_output_context) (str : list Z).

Definition handler_at G h : option php_output_handler := store G !! h.
Definition set_handler G h hd : output_globals := {| G with store := <[h := hd]> (store G) |}.
Definition set_flag G (bit : Z) : output_globals := {| G with flags := Z.lor (flags G) bit |}.
Definition set_hflag hd (bit : Z) : php_output_handler := {| hd with hflags := Z.lor (hflags hd) bit |}.
Definition set_running G (r : option Z) : output_globals := {| G with running := r |}.
Definition is_running G : bool := match running G with Some _ => true | None => false end.
Definition is_active G : bool := match active G with Some _ => true | None => false end.

(** [data && used] *)
Definition nonempty (b : option (list Z)) : option (list Z) := match b with Some (x :: s) => Some (x :: s) | _ => None end.

(** ** Contexts *)
Definition php_output_context_init (op : Z) : php_output_context := {| op := op; cin := None; cout := None |}.
Definition with_op c (o : Z) : php_output_context := {| c with op := o |}.
Definition php_output_context_reset c : php_output_context := {| c with cin := None; cout := None |}.
Definition php_output_context_feed c str : php_output_context := {| c with cin := Some str |}.
Definition php_output_context_swap c : php_output_context := {| c with cin := cout c; cout := None |}.
Definition php_output_context_pass c : php_output_context := {| c with cin := None; cout := cin c |}.

Section Server.
(** [php_header]: whether the headers are sent then, and whether output is allowed. *)
Variable php_header : bool -> bool * bool.
(** The functions of internal handlers that extensions register: what they make of the bytes, or NULL. *)
Variable compat : Z -> list Z -> Z -> option (list Z).
(** The functions of the script: what they print, and answer. *)
Variable script : list call -> list (list Z) * answer.
(** The conflict checks of extensions for a name. *)
Variable conflicting : output_globals -> list Z -> bool.

Definition php_output_header G : output_globals :=
  if negb (headers_sent G) then
    let '(sent, ok) := php_header (headers_sent G) in
    let G := {| G with headers_sent := sent |} in
    if ok then G else set_flag G PHP_OUTPUT_DISABLED
  else G.

(** ** Life cycle *)
Definition php_output_activate G : output_globals :=
  {| G with handlers := snd (zend_stack_init 8); active := None; running := None; flags := Z.lor 0 PHP_OUTPUT_ACTIVATED |}.

Definition php_output_handler_free G h : output_globals := {| G with store := delete h (store G) |}.

(** The handlers are freed from the top. *)
Fixpoint free_handlers (fuel : nat) G : option output_globals :=
  match zend_stack_top (handlers G), fuel with
  | None, _ => Some G
  | Some _, O => None
  | Some i, S fuel =>
      h ← ZEND_STACK_ELEMENT (handlers G) i;
      '(_, st) ← zend_stack_del_top (handlers G);
      let G := php_output_handler_free G h in free_handlers fuel {| G with handlers := st |}
  end.

Definition php_output_deactivate G : option output_globals :=
  if has (flags G) PHP_OUTPUT_ACTIVATED then
    let G := php_output_header G in
    let G := {| G with flags := Z.lxor (flags G) PHP_OUTPUT_ACTIVATED; active := None; running := None |} in
    G ← (match elements (handlers G) with
         | Some _ => free_handlers (Z.to_nat (top (handlers G))) G
         | None => Some G
         end);
    Some {| G with handlers := snd (zend_stack_destroy (handlers G)) |}
  else Some G.

Definition php_output_set_status G (status : Z) : output_globals :=
  {| G with flags := Z.lor (Z.land (flags G) (Z.lnot 0xf)) (Z.land status 0xf) |}.

Definition php_output_get_status G : Z :=
  Z.land (Z.lor (Z.lor (flags G) (if is_active G then PHP_OUTPUT_ACTIVE else 0)) (if is_running G then PHP_OUTPUT_LOCKED else 0)) 0xff.

Definition php_output_set_implicit_flush G (flush : bool) : output_globals :=
  {| G with flags := if flush then Z.lor (flags G) PHP_OUTPUT_IMPLICITFLUSH
                     else Z.land (flags G) (Z.lnot PHP_OUTPUT_IMPLICITFLUSH) |}.

(** The fatal error that follows ends the script. *)
Definition php_output_lock_error G (op : Z) : option (output_globals * bool) :=
  if negb (op =? 0) && is_active G && is_running G then G ← php_output_deactivate G; Some (G, true) else Some (G, false).

(** [sapi_module.ub_write] *)
Definition ub_write G str : output_globals := {| G with written := written G ++ str |}.

Definition php_output_direct G str : output_globals := {| G with direct := direct G ++ str |}.

Definition php_output_write_unbuffered G str : output_globals :=
  if has (flags G) PHP_OUTPUT_ACTIVATED then ub_write G str else php_output_direct G str.

(** ** Handlers *)

(** Whether the buffer need not be processed. *)
Definition php_output_handler_append G h (buf : option (list Z)) : option (output_globals * bool) :=
  hd ← handler_at G h;
  match nonempty buf with
  | Some str =>
      let G := set_flag G PHP_OUTPUT_WRITTEN in
      let b := buffer hd in
      let n := Z.of_nat (length str) in
      let cells :=
        if bsize b - used b <=? n then
          let grow_int := PHP_OUTPUT_HANDLER_INITBUF_SIZE (hsize hd) in
          let grow_buf := PHP_OUTPUT_HANDLER_INITBUF_SIZE (n - (bsize b - used b)) in
          realloc (Some (data b)) (bsize b + Z.max grow_int grow_buf)
        else data b in
      cells ← copy_to cells (used b) str;
      let b := {| data := cells; used := used b + n |} in
      let G := set_handler G h {| hd with buffer := b |} in
      if negb (hsize hd =? 0) && (hsize hd <=? used b) then Some (G, is_running G) else Some (G, true)
  | None => Some (G, true)
  end.

(** An internal handler: the context, and whether it succeeds. *)
Definition php_output_handler_default_func c : php_output_context * bool := (php_output_context_pass c, true).
Definition php_output_handler_devnull_func c : php_output_context * bool := (c, true).
Definition php_output_handler_compat_func (f : option Z) c : php_output_context * bool :=
  match f with
  | Some f =>
      match compat f (default [] (cin c)) (op c) with
      | Some out => ({| c with cout := Some out |}, true)
      | None => (php_output_context_pass c, true)
      end
  | None => (c, false)
  end.

Section Echo.
(** [php_output_write], as the script's functions call it. *)
Variable echo : output_globals -> list Z -> option output_globals.

Fixpoint echo_all G (strs : list (list Z)) : option output_globals :=
  match strs with
  | [] => Some G
  | s :: strs => G ← echo G s; echo_all G strs
  end.

(** The function of a handler, with the bytes of its buffer. *)
Definition call_handler G h hd c : option (output_globals * php_output_context * php_output_handler_status_t) :=
  str ← read_from (data (buffer hd)) 0 (used (buffer hd));
  match func hd, has (hflags hd) PHP_OUTPUT_HANDLER_USER with
  | User_func zoh, true =>
      let G := {| G with calls := calls G ++ [{| callee := zoh; ob_data := str; ob_mode := op c |}] |} in
      let '(strs, a) := script (calls G) in
      G ← echo_all G strs;
      Some (match a with
            | Returns (x :: s) => (G, {| c with cout := Some (x :: s) |}, PHP_OUTPUT_HANDLER_SUCCESS)
            | Returns [] | Returns_true => (G, c, PHP_OUTPUT_HANDLER_NO_DATA)
            | Call_failed | Returns_false => (G, c, PHP_OUTPUT_HANDLER_FAILURE)
            end)
  | User_func _, false => None
  | _, true => None
  | f, false =>
      let c := php_output_context_feed c str in
      let '(c, ok) := match f with
                      | Compat_func f => php_output_handler_compat_func f c
                      | Devnull_func => php_output_handler_devnull_func c
                      | _ => php_output_handler_default_func c
                      end in
      Some (G, c, if (ok : bool) then match nonempty (cout c) with
                            | Some _ => PHP_OUTPUT_HANDLER_SUCCESS
                            | None => PHP_OUTPUT_HANDLER_NO_DATA
                            end
                  else PHP_OUTPUT_HANDLER_FAILURE)
  end.

(** What becomes of the buffer and of the answer. *)
Definition handler_done G h c (status : php_output_handler_status_t) : option (output_globals * php_output_context) :=
  hd ← handler_at G h;
  let emptied hd := let b := buffer hd in
    set_hflag {| hd with buffer := {| b with used := 0 |} |} PHP_OUTPUT_HANDLER_PROCESSED in
  match status with
  | PHP_OUTPUT_HANDLER_FAILURE =>
      str ← read_from (data (buffer hd)) 0 (used (buffer hd));
      let hd := set_hflag hd PHP_OUTPUT_HANDLER_DISABLED in
      Some (set_handler G h {| hd with buffer := {| data := []; used := 0 |} |}, {| c with cout := Some str |})
  | PHP_OUTPUT_HANDLER_NO_DATA => Some (set_handler G h (emptied hd), php_output_context_reset c)
  | PHP_OUTPUT_HANDLER_SUCCESS => Some (set_handler G h (emptied hd), c)
  end.

Definition php_output_handler_op G h c : option (output_globals * php_output_context * php_output_handler_status_t) :=
  let original_op := op c in
  '(G, locked) ← php_output_lock_error G (op c);
  if (locked : bool) then Some (G, c, PHP_OUTPUT_HANDLER_FAILURE)
  else
    '(G, stored) ← php_output_handler_append G h (cin c);
    if stored && (op c =? 0) then Some (G, c, PHP_OUTPUT_HANDLER_NO_DATA)
    else
      hd ← handler_at G h;
      let c := if negb (has (hflags hd) PHP_OUTPUT_HANDLER_STARTED)
               then with_op c (Z.lor (op c) PHP_OUTPUT_HANDLER_START) else c in
      '(G, c, status) ← call_handler (set_running G (Some h)) h hd c;
      hd ← handler_at G h;
      let G := set_handler G h (set_hflag hd PHP_OUTPUT_HANDLER_STARTED) in
      '(G, c) ← handler_done (set_running G None) h c status;
      Some (G, with_op c original_op, status).

(** The result is that of the callback: 1 stops the walk over the stack. *)
Definition php_output_stack_apply_op G h c : option (Z * output_globals * php_output_context) :=
  hd ← handler_at G h;
  if has (hflags hd) PHP_OUTPUT_HANDLER_DISABLED then
    Some (0, G, if level hd =? 0 then php_output_context_pass c else c)
  else
    '(G, c, status) ← php_output_handler_op G h c;
    match status with
    | PHP_OUTPUT_HANDLER_NO_DATA => Some (1, G, c)
    | PHP_OUTPUT_HANDLER_SUCCESS | PHP_OUTPUT_HANDLER_FAILURE =>
        hd ← handler_at G h; Some (0, G, if level hd =? 0 then c else php_output_context_swap c)
    end.

(** A callback of [zend_stack_apply_with_argument] over the globals and the context; a bad access ends it. *)
Definition as_callback (f : output_globals -> Z -> php_output_context -> option (Z * output_globals * php_output_context))
  (s : option (output_globals * php_output_context)) h (_ : unit) : Z * Z * option (output_globals * php_output_context) :=
  match s with
  | Some (G, c) => match f G h c with Some (r, G, c) => (r, h, Some (G, c)) | None => (1, h, None) end
  | None => (1, h, None)
  end.

Definition apply_handlers (f : output_globals -> Z -> php_output_context -> option (Z * output_globals * php_output_context)) G c :
  option (output_globals * php_output_context) :=
  '(_, s) ← zend_stack_apply_with_argument (handlers G) ZEND_STACK_APPLY_TOPDOWN (as_callback f) tt (Some (G, c)); s.

(** The bytes leave for the server. *)
Definition pass_on G (out : option (list Z)) : output_globals :=
  match nonempty out with
  | Some str =>
      let G := php_output_header G in
      if negb (has (flags G) PHP_OUTPUT_DISABLED) then
        let G := ub_write G str in
        let G := if has (flags G) PHP_OUTPUT_IMPLICITFLUSH then {| G with flushes := flushes G + 1 |} else G in
        set_flag G PHP_OUTPUT_SENT
      else G
  | None => G
  end.

Definition php_output_op G (op : Z) (str : option (list Z)) : option output_globals :=
  '(G, locked) ← php_output_lock_error G op;
  if (locked : bool) then Some G
  else
    let c := php_output_context_init op in
    let obh_cnt := zend_stack_count (handlers G) in
    '(G, c) ← (if is_active G && negb (obh_cnt =? 0) then
                 let c := {| c with cin := str |} in
                 if 1 <? obh_cnt then apply_handlers php_output_stack_apply_op G c
                 else
                   i ← zend_stack_top (handlers G);
                   h ← ZEND_STACK_ELEMENT (handlers G) i;
                   hd ← handler_at G h;
                   if negb (has (hflags hd) PHP_OUTPUT_HANDLER_DISABLED)
                   then '(G, c, _) ← php_output_handler_op G h c; Some (G, c)
                   else Some (G, php_output_context_pass c)
               else Some (G, {| c with cout := str |}));
    Some (pass_on G (cout c)).

(** The number of bytes comes with it. *)
Definition php_output_write G str : option (output_globals * Z) :=
  let len := Z.of_nat (length str) in
  if has (flags G) PHP_OUTPUT_ACTIVATED then G ← php_output_op G PHP_OUTPUT_HANDLER_WRITE (Some str); Some (G, len)
  else if has (flags G) PHP_OUTPUT_DISABLED then Some (G, 0)
  else Some (php_output_direct G str, len).
End Echo.
End Server.

Section Api.
Context (php_header : bool -> bool * bool) (compat : Z -> list Z -> Z -> option (list Z))
  (script : list call -> list (list Z) * answer) (conflicting : output_globals -> list Z -> bool).

(** What a function of the script prints is only stored, so no other function runs then. *)
Definition echo G str : option output_globals :=
  '(G, _) ← php_output_write php_header compat script (fun _ _ => None) G str; Some G.

Definition output_write G str : option (output_globals * Z) := php_output_write php_header compat script echo G str.
Definition output_op G (op : Z) (str : option (list Z)) : option output_globals := php_output_op php_header compat script echo G op str.
Definition handler_op G h c : option (output_globals * php_output_context * php_output_handler_status_t) :=
  php_output_handler_op php_header compat script echo G h c.

Definition php_output_flush G : option (output_globals * Z) :=
  match active G with
  | None => Some (G, FAILURE)
  | Some h =>
      hd ← handler_at G h;
      if has (hflags hd) PHP_OUTPUT_HANDLER_FLUSHABLE then
        '(G, c, _) ← handler_op G h (php_output_context_init PHP_OUTPUT_HANDLER_FLUSH);
        match nonempty (cout c) with
        | None => Some (G, SUCCESS)
        | Some str =>
            '(_, st) ← zend_stack_del_top (handlers G);
            '(G, _) ← output_write {| G with handlers := st |} str;
            h ← active G;
            '(_, st) ← zend_stack_push (handlers G) h;
            Some ({| G with handlers := st |}, SUCCESS)
        end
      else Some (G, FAILURE)
  end.

Definition php_output_flush_all G : option output_globals :=
  if is_active G then output_op G PHP_OUTPUT_HANDLER_FLUSH None else Some G.

Definition php_output_clean G : option (output_globals * Z) :=
  match active G with
  | None => Some (G, FAILURE)
  | Some h =>
      hd ← handler_at G h;
      if has (hflags hd) PHP_OUTPUT_HANDLER_CLEANABLE then
        '(G, _, _) ← handler_op G h (php_output_context_init PHP_OUTPUT_HANDLER_CLEAN); Some (G, SUCCESS)
      else Some (G, FAILURE)
  end.

Definition php_output_stack_apply_clean G h c : option (Z * output_globals * php_output_context) :=
  hd ← handler_at G h;
  let b := buffer hd in
  '(G, c, _) ← handler_op (set_handler G h {| hd with buffer := {| b with used := 0 |} |}) h c;
  Some (0, G, php_output_context_reset c).

Definition php_output_clean_all G : option output_globals :=
  if is_active G then
    '(G, _) ← apply_handlers php_output_stack_apply_clean G (php_output_context_init PHP_OUTPUT_HANDLER_CLEAN); Some G
  else Some G.

(** The notices are left out; the result is whether a handler was popped. *)
Definition php_output_stack_pop G (fl : Z) : option (output_globals * bool) :=
  match active G with
  | None => Some (G, false)
  | Some orphan =>
      hd ← handler_at G orphan;
      if negb (has fl PHP_OUTPUT_POP_FORCE) && negb (has (hflags hd) PHP_OUTPUT_HANDLER_REMOVABLE) then Some (G, false)
      else
        let c := php_output_context_init PHP_OUTPUT_HANDLER_FINAL in
        '(G, c) ← (if negb (has (hflags hd) PHP_OUTPUT_HANDLER_DISABLED) then
                     let c := if negb (has (hflags hd) PHP_OUTPUT_HANDLER_STARTED)
                              then with_op c (Z.lor (op c) PHP_OUTPUT_HANDLER_START) else c in
                     let c := if has fl PHP_OUTPUT_POP_DISCARD then with_op c (Z.lor (op c) PHP_OUTPUT_HANDLER_CLEAN) else c in
                     '(G, c, _) ← handler_op G orphan c; Some (G, c)
                   else Some (G, c));
        '(_, st) ← zend_stack_del_top (handlers G);
        current ← (match zend_stack_top st with Some i => h ← ZEND_STACK_ELEMENT st i; Some (Some h) | None => Some None end);
        let G := {| G with handlers := st; active := current |} in
        G ← (match nonempty (cout c) with
             | Some str => if negb (has fl PHP_OUTPUT_POP_DISCARD) then '(G, _) ← output_write G str; Some G else Some G
             | None => Some G
             end);
        Some (php_output_handler_free G orphan, true)
  end.

Definition status_of (popped : bool) : Z := if popped then SUCCESS else FAILURE.

Definition php_output_end G : option (output_globals * Z) :=
  '(G, r) ← php_output_stack_pop G PHP_OUTPUT_POP_TRY; Some (G, status_of r).

Definition php_output_discard G : option (output_globals * Z) :=
  '(G, r) ← php_output_stack_pop G (Z.lor PHP_OUTPUT_POP_DISCARD PHP_OUTPUT_POP_TRY); Some (G, status_of r).

(** Every round pops a handler. *)
Fixpoint end_loop (fuel : nat) G (fl : Z) : option output_globals :=
  if is_active G then
    match fuel with
    | O => None
    | S fuel => '(G, r) ← php_output_stack_pop G fl; if (r : bool) then end_loop fuel G fl else Some G
    end
  else Some G.

Definition php_output_end_all G : option output_globals := end_loop (Z.to_nat (zend_stack_count (handlers G))) G PHP_OUTPUT_POP_FORCE.

Fixpoint discard_loop (fuel : nat) G : option output_globals :=
  if is_active G then
    match fuel with
    | O => None
    | S fuel => '(G, _) ← php_output_stack_pop G (Z.lor PHP_OUTPUT_POP_DISCARD PHP_OUTPUT_POP_FORCE); discard_loop fuel G
    end
  else Some G.

Definition php_output_discard_all G : option output_globals := discard_loop (Z.to_nat (zend_stack_count (handlers G))) G.

Definition php_output_get_level G : Z := if is_active G then zend_stack_count (handlers G) else 0.

(** The string, or NULL with FAILURE. *)
Definition php_output_get_contents G : option (option (list Z)) :=
  match active G with
  | Some h => hd ← handler_at G h; str ← read_from (data (buffer hd)) 0 (used (buffer hd)); Some (Some str)
  | None => Some None
  end.

Definition php_output_get_length G : option (option Z) :=
  match active G with
  | Some h => hd ← handler_at G h; Some (Some (used (buffer hd)))
  | None => Some None
  end.

(** ** Starting *)
Definition php_output_handler_init (nm : list Z) (chunk_size fl : Z) (f : handler_func) : php_output_handler :=
  {| name := nm; hflags := fl; level := 0; hsize := chunk_size;
     buffer := {| data := replicate (Z.to_nat (PHP_OUTPUT_HANDLER_INITBUF_SIZE chunk_size)) None; used := 0 |}; func := f |}.

Definition php_output_handler_create_internal (nm : list Z) (f : handler_func) (chunk_size fl : Z) : php_output_handler :=
  php_output_handler_init nm chunk_size (Z.lor (Z.land fl (Z.lnot 0xf)) PHP_OUTPUT_HANDLER_INTERNAL) f.

(** The argument of [ob_start]: none, [null], something callable with its name, something else. *)
Inductive output_handler_arg := No_handler | Null_handler | Callable (zoh : Z) (nm : list Z) | Not_callable.

Variable php_output_default_handler_name : list Z.
Variable php_output_devnull_handler_name : list Z.

(** [None] is NULL. *)
Definition php_output_handler_create_user (arg : output_handler_arg) (chunk_size fl : Z) : option php_output_handler :=
  match arg with
  | No_handler | Null_handler => Some (php_output_handler_create_internal php_output_default_handler_name Default_func chunk_size fl)
  | Callable zoh nm =>
      Some (php_output_handler_init nm chunk_size (Z.lor (Z.land fl (Z.lnot 0xf)) PHP_OUTPUT_HANDLER_USER) (User_func zoh))
  | Not_callable => None
  end.

(** The handler is allocated; where it cannot be started it is freed again. *)
Definition php_output_handler_start G (handler : option php_output_handler) : option (output_globals * Z) :=
  '(G, locked) ← php_output_lock_error php_header G PHP_OUTPUT_HANDLER_START;
  match handler with
  | Some hd =>
      if (locked : bool) || conflicting G (name hd) then Some (G, FAILURE)
      else
        let h := fresh_id G in
        '(lvl, st) ← zend_stack_push (handlers G) h;
        let G := set_handler G h {| hd with level := lvl |} in
        Some ({| G with handlers := st; active := Some h; fresh_id := h + 1 |}, SUCCESS)
  | None => Some (G, FAILURE)
  end.

Definition php_output_start_default G : option (output_globals * Z) :=
  php_output_handler_start G (Some (php_output_handler_create_internal php_output_default_handler_name Default_func 0 PHP_OUTPUT_HANDLER_STDFLAGS)).

Definition php_output_start_devnull G : option (output_globals * Z) :=
  php_output_handler_start G
    (Some (php_output_handler_create_internal php_output_devnull_handler_name Devnull_func PHP_OUTPUT_HANDLER_DEFAULT_SIZE 0)).

Definition php_output_start_user G (arg : output_handler_arg) (chunk_size fl : Z) : option (output_globals * Z) :=
  php_output_handler_start G (php_output_handler_create_user arg chunk_size fl).

Definition php_output_start_internal G (nm : list Z) (f : option Z) (chunk_size fl : Z) : option (output_globals * Z) :=
  php_output_handler_start G (Some (php_output_handler_create_internal nm (Compat_func f) chunk_size fl)).

(** Whether a handler of that name is in use. *)
Fixpoint any_named G (els : list (option Z)) (nm : list Z) : option bool :=
  match els with
  | [] => Some false
  | e :: els => h ← e; hd ← handler_at G h; if bool_decide (name hd = nm) then Some true else any_named G els nm
  end.

Definition php_output_handler_started G (nm : list Z) : option bool :=
  let count := php_output_get_level G in
  if count =? 0 then Some false
  else els ← zend_stack_base (handlers G); any_named G (take (Z.to_nat count) els) nm.

(** ** The functions of PHP *)
Inductive value := VBool (b : bool) | VLong (z : Z) | VString (s : list Z).

Definition ob_start G (arg : output_handler_arg) (chunk_size fl : Z) : option (output_globals * value) :=
  '(G, r) ← php_output_start_user G arg (if chunk_size <? 0 then 0 else chunk_size) fl; Some (G, VBool (r =? SUCCESS)).

Definition succeeds (r : option (output_globals * Z)) : option (output_globals * value) :=
  '(G, r) ← r; Some (G, VBool (r =? SUCCESS)).

Definition ob_flush G : option (output_globals * value) :=
  if negb (is_active G) then Some (G, VBool false) else succeeds (php_output_flush G).
Definition ob_clean G : option (output_globals * value) :=
  if negb (is_active G) then Some (G, VBool false) else succeeds (php_output_clean G).
Definition ob_end_flush G : option (output_globals * value) :=
  if negb (is_active G) then Some (G, VBool false) else succeeds (php_output_end G).
Definition ob_end_clean G : option (output_globals * value) :=
  if negb (is_active G) then Some (G, VBool false) else succeeds (php_output_discard G).

Definition ob_get_flush G : option (output_globals * value) :=
  s ← php_output_get_contents G;
  match s with
  | Some s => '(G, _) ← php_output_end G; Some (G, VString s)
  | None => Some (G, VBool false)
  end.

Definition ob_get_clean G : option (output_globals * value) :=
  if negb (is_active G) then Some (G, VBool false)
  else
    s ← php_output_get_contents G;
    match s with
    | Some s => '(G, _) ← php_output_discard G; Some (G, VString s)
    | None => Some (G, VBool false)
    end.

Definition ob_get_contents G : option (output_globals * value) :=
  s ← php_output_get_contents G; Some (G, match s with Some s => VString s | None => VBool false end).
Definition ob_get_level G : option (output_globals * value) := Some (G, VLong (php_output_get_level G)).
Definition ob_get_length G : option (output_globals * value) :=
  n ← php_output_get_length G; Some (G, match n with Some n => VLong n | None => VBool false end).
Definition ob_implicit_flush G (flag : Z) : output_globals := php_output_set_implicit_flush G (negb (flag =? 0)).
End Api.
