(* ===== verification/OutputSpec.v ===== *)
(** * Output buffers as a stack of strings

    Where the handlers are those that pass everything on, the code of [Output] is a stack of strings, and a
    chunk size says when one of them spills into the next.  The service captures what a function prints in
    such a buffer: the last section is its use of them. *)
From S2P Require Import Prelude ZendStack Output.
Import Stack.

(** ** The specification *)

(** A buffer: what [ob_start] was called with, and its contents. *)
Record ob := { chunk : Z; abilities : Z; bytes : list Z }.

Definition with_bytes (b : ob) (s : list Z) : ob := {| b with bytes := s |}.

Definition spills (b : ob) (s : list Z) : bool :=
  match s with
  | [] => false
  | _ => negb (chunk b =? 0) && (chunk b <=? Z.of_nat (length (bytes b ++ s)))
  end.

(** [s] goes into the buffers, the top one first; a buffer that spills, or each of them when [all] is set, is
    emptied into the next, unless it has nothing.  The second result is for the server. *)
Fixpoint sink (all : bool) (st : list ob) (s : list Z) : list ob * list Z :=
  match st with
  | [] => ([], s)
  | b :: st =>
      let t := bytes b ++ s in
      if all || spills b s then
        match t with
        | [] => (with_bytes b [] :: st, [])
        | _ => let '(st, out) := sink all st t in (with_bytes b [] :: st, out)
        end
      else (with_bytes b t :: st, [])
  end.

Lemma sink_nil st : sink false st [] = (st, []).
Proof. destruct st as [|b st]; cbn; [done|]. rewrite app_nil_r. by destruct b. Qed.

(** The buffers, the top one first, and what the server has. *)
Definition outs : Type := list ob * list Z.

(** Bytes that leave the buffers get to the server where the headers allow output. *)
Definition keep (allowed : bool) (s : list Z) : list Z := if allowed then s else [].

Lemma keep_nil allowed : keep allowed [] = [].
Proof. by destruct allowed. Qed.

Section Spec.
Context (allowed : bool).

Definition spec_write (all : bool) (x : outs) (s : list Z) : outs :=
  let '(st, out) := sink all x.1 s in (st, x.2 ++ keep allowed out).

Definition can (b : ob) (bit : Z) : bool := has (abilities b) bit.

Inductive ob_op :=
  | Echo (s : list Z) | Unbuffered (s : list Z) | Ob_start (chunk_size fl : Z) | Ob_flush | Ob_clean | Ob_end_flush | Ob_end_clean
  | Ob_get_flush | Ob_get_clean | Ob_get_contents | Ob_get_length | Ob_get_level | Flush_all | Clean_all | End_all | Discard_all.

Definition no_value : value := VBool true.

(** Popping all of them, each into the next. *)
Fixpoint spec_end_all (st : list ob) (fuel : nat) (out : list Z) : list Z :=
  match fuel, st with
  | S fuel, b :: st => let '(st, o) := sink false st (bytes b) in spec_end_all st fuel (out ++ keep allowed o)
  | _, _ => out
  end.

Definition spec_op (x : outs) (o : ob_op) : outs * value :=
  match o, x.1 with
  | Echo s, _ => (spec_write false x s, VLong (Z.of_nat (length s)))
  | Unbuffered s, _ => ((x.1, x.2 ++ s), no_value)
  | Ob_start n fl, st => (({| chunk := if n <? 0 then 0 else n; abilities := fl; bytes := [] |} :: st, x.2), VBool true)
  | Ob_flush, b :: st =>
      if can b PHP_OUTPUT_HANDLER_FLUSHABLE then
        let '(st, out) := spec_write false (st, x.2) (bytes b) in ((with_bytes b [] :: st, out), VBool true)
      else (x, VBool false)
  | Ob_clean, b :: st =>
      if can b PHP_OUTPUT_HANDLER_CLEANABLE then ((with_bytes b [] :: st, x.2), VBool true) else (x, VBool false)
  | Ob_end_flush, b :: st =>
      if can b PHP_OUTPUT_HANDLER_REMOVABLE then (spec_write false (st, x.2) (bytes b), VBool true) else (x, VBool false)
  | Ob_end_clean, b :: st => if can b PHP_OUTPUT_HANDLER_REMOVABLE then ((st, x.2), VBool true) else (x, VBool false)
  | Ob_get_flush, b :: st =>
      (if can b PHP_OUTPUT_HANDLER_REMOVABLE then spec_write false (st, x.2) (bytes b) else x, VString (bytes b))
  | Ob_get_clean, b :: st => (if can b PHP_OUTPUT_HANDLER_REMOVABLE then (st, x.2) else x, VString (bytes b))
  | Ob_get_contents, b :: _ => (x, VString (bytes b))
  | Ob_get_length, b :: _ => (x, VLong (Z.of_nat (length (bytes b))))
  | Ob_get_level, st => (x, VLong (Z.of_nat (length st)))
  | Flush_all, _ :: _ => (spec_write true x [], no_value)
  | Clean_all, st => (((fun b => with_bytes b []) <$> st, x.2), no_value)
  | End_all, st => (([], spec_end_all st (length st) x.2), no_value)
  | Discard_all, _ => (([], x.2), no_value)
  | Flush_all, [] => (x, no_value)
  | _, [] => (x, VBool false)
  end.

Fixpoint spec_run (x : outs) (ops : list ob_op) : outs * list value :=
  match ops with
  | [] => (x, [])
  | o :: ops => let '(x, v) := spec_op x o in let '(x, vs) := spec_run x ops in (x, v :: vs)
  end.
End Spec.

(** ** What a handler holds *)
Definition holds_bytes (b : php_output_buffer) (s : list Z) : Prop :=
  exists rest, data b = (Some <$> s) ++ rest /\ used b = Z.of_nat (length s).

Record holds_ob (hd : php_output_handler) (lvl : nat) (b : ob) : Prop := {
  ho_func : func hd = Default_func;
  ho_user : has (hflags hd) PHP_OUTPUT_HANDLER_USER = false;
  ho_enabled : has (hflags hd) PHP_OUTPUT_HANDLER_DISABLED = false;
  ho_can : forall bit, bit ∈ [PHP_OUTPUT_HANDLER_CLEANABLE; PHP_OUTPUT_HANDLER_FLUSHABLE; PHP_OUTPUT_HANDLER_REMOVABLE] ->
    has (hflags hd) bit = can b bit;
  ho_level : level hd = Z.of_nat lvl;
  ho_size : hsize hd = chunk b;
  ho_bytes : holds_bytes (buffer hd) (bytes b) }.

(** The handlers [hs], the top one first. *)
Fixpoint stack_ok (m : gmap Z php_output_handler) (hs : list Z) (st : list ob) : Prop :=
  match hs, st with
  | [], [] => True
  | h :: hs, b :: st => (exists hd, m !! h = Some hd /\ holds_ob hd (length hs) b) /\ stack_ok m hs st
  | _, _ => False
  end.

Lemma stack_ok_ext m m' hs : forall st, (forall h, h ∈ hs -> m' !! h = m !! h) -> stack_ok m hs st -> stack_ok m' hs st.
Proof.
  induction hs as [|h hs IH]; intros [|b st] He; try done. intros [(hd & Hh & Ho) Hs]. split.
  - exists hd. rewrite He by by left. done.
  - apply IH; [|done]. intros h' Hh'. apply He. by right.
Qed.

Lemma stack_ok_length m hs : forall st, stack_ok m hs st -> length hs = length st.
Proof. induction hs as [|h hs IH]; intros [|b st]; try done. intros [_ Hs]. cbn. f_equal. by apply IH. Qed.

(** What the server answers to the headers, and what that means for output. *)
Class Headers := { header_fn : bool -> bool * bool; allowed : bool }.

(** Output is allowed, for good, or it is not: the layer was disabled, or will be before the first byte leaves. *)
Definition header_state `{Headers} (G : output_globals) : Prop :=
  if allowed then has (flags G) PHP_OUTPUT_DISABLED = false /\ (headers_sent G = true \/ (header_fn false).2 = true)
  else has (flags G) PHP_OUTPUT_DISABLED = true \/ (headers_sent G = false /\ (header_fn false).2 = false).

Lemma header_state_flag `{Headers} G bit : has bit PHP_OUTPUT_DISABLED = false -> header_state G ->
  header_state (set_flag G bit).
Proof. intros Hb. unfold header_state. cbn [flags set_flag headers_sent]. by rewrite has_set. Qed.

(** What operations on handlers leave alone; of the flags only those that say that something was written
    change, and the one that says that output is disabled. *)
Record frame `{Headers} (G G' : output_globals) : Prop := {
  fr_handlers : handlers G' = handlers G;
  fr_active : active G' = active G;
  fr_running : running G' = running G;
  fr_flags : forall bit, has PHP_OUTPUT_WRITTEN bit = false -> has PHP_OUTPUT_SENT bit = false ->
    has PHP_OUTPUT_DISABLED bit = false -> has (flags G') bit = has (flags G) bit;
  fr_header : header_state G -> header_state G';
  fr_fresh : fresh_id G' = fresh_id G;
  fr_calls : calls G' = calls G }.

Section Frames.
Context {HD : Headers}.

Lemma frame_refl G : frame G G.
Proof. by split. Qed.

Lemma frame_trans G1 G2 G3 : frame G1 G2 -> frame G2 G3 -> frame G1 G3.
Proof. intros [A1 A2 A3 A4 A5 A6 A7] [B1 B2 B3 B4 B5 B6 B7]. split; try congruence; [intros bit H1 H2 H3; by rewrite B4, A4|auto]. Qed.

Lemma read_held b s : holds_bytes b s -> read_from (data b) 0 (used b) = Some s.
Proof. intros (rest & -> & ->). by apply read_from_start. Qed.

Lemma initbuf_larger x : 0 <= x -> x < PHP_OUTPUT_HANDLER_INITBUF_SIZE x.
Proof.
  intros Hx. unfold PHP_OUTPUT_HANDLER_INITBUF_SIZE, PHP_OUTPUT_HANDLER_ALIGNTO_SIZE, PHP_OUTPUT_HANDLER_DEFAULT_SIZE.
  destruct (Z.ltb_spec 1 x); [|lia]. pose proof (Z.mod_pos_bound x 0x1000). lia.
Qed.

Lemma set_handler_frame G h hd : frame G (set_handler G h hd).
Proof. by split. Qed.

Lemma set_flag_frame G bit : bit = PHP_OUTPUT_WRITTEN \/ bit = PHP_OUTPUT_SENT -> frame G (set_flag G bit).
Proof.
  intros Hb. split; try done; [|by destruct Hb as [-> | ->]; apply header_state_flag].
  intros b H1 H2 H3. cbn. apply has_set. destruct Hb as [-> | ->]; done.
Qed.

(** The buffer grows where it has to. *)
Lemma append_holds hd t str cells : holds_bytes (buffer hd) t -> str <> [] ->
  let b := buffer hd in let n := Z.of_nat (length str) in
  cells = (if bsize b - used b <=? n then
             realloc (Some (data b)) (bsize b + Z.max (PHP_OUTPUT_HANDLER_INITBUF_SIZE (hsize hd))
               (PHP_OUTPUT_HANDLER_INITBUF_SIZE (n - (bsize b - used b))))
           else data b) ->
  exists cells', copy_to cells (used b) str = Some cells' /\ holds_bytes {| data := cells'; used := used b + n |} (t ++ str).
Proof.
  intros (rest & Hd & Hu) Hne b n ->. subst b n. unfold bsize. rewrite Hd, Hu, !length_app, length_fmap.
  assert (exists rest', (if Z.of_nat (length t + length rest) - Z.of_nat (length t) <=? Z.of_nat (length str) then
    realloc (Some ((Some <$> t) ++ rest)) (Z.of_nat (length t + length rest) + Z.max (PHP_OUTPUT_HANDLER_INITBUF_SIZE (hsize hd))
      (PHP_OUTPUT_HANDLER_INITBUF_SIZE (Z.of_nat (length str) - (Z.of_nat (length t + length rest) - Z.of_nat (length t)))))
    else (Some <$> t) ++ rest) = (Some <$> t) ++ rest' /\ (length str <= length rest')%nat) as (rest' & -> & Hl).
  { destruct (Z.leb_spec (Z.of_nat (length t + length rest) - Z.of_nat (length t)) (Z.of_nat (length str))); [|exists rest; split; [done|lia]].
    match goal with |- context [realloc _ ?n] => set (m := n) end.
    assert (Z.of_nat (length t + length str) < m) as Hm.
    { unfold m. pose proof (initbuf_larger (Z.of_nat (length str) - (Z.of_nat (length t + length rest) - Z.of_nat (length t)))). lia. }
    destruct (realloc_grow ((Some <$> t) ++ rest) m) as [more E]; [rewrite length_app, length_fmap; lia|].
    exists (rest ++ more). rewrite E, <- app_assoc. split; [done|].
    pose proof (realloc_length (Some ((Some <$> t) ++ rest)) m ltac:(lia)) as Hlen. rewrite E, !length_app, length_fmap in Hlen.
    rewrite length_app. lia. }
  rewrite copy_to_end by (rewrite ?length_fmap; done). eexists. split; [done|].
  exists (drop (length str) rest'). cbn. rewrite fmap_app, <- app_assoc, length_app. split; [done|lia].
Qed.

Lemma append_ok G h hd lvl b s : handler_at G h = Some hd -> holds_ob hd lvl b -> running G = None ->
  exists G' hd', php_output_handler_append G h (Some s) = Some (G', negb (spills b s)) /\ frame G G' /\
    store G' = <[h := hd']> (store G) /\ holds_ob hd' lvl (with_bytes b (bytes b ++ s)) /\ hflags hd' = hflags hd /\
    written G' = written G.
Proof.
  intros Hh [A1 A2 A3 A4 A5 A6 A7] Hrun. unfold php_output_handler_append. rewrite Hh. cbn [mbind option_bind].
  destruct s as [|x s]; cbn [nonempty].
  { exists G, hd. split; [done|]. split; [apply frame_refl|]. rewrite app_nil_r, insert_id by done. by split_and!. }
  destruct (append_holds hd (bytes b) (x :: s) _ A7 ltac:(done) eq_refl) as (cells & -> & Hb). cbn [mbind option_bind].
  unfold spills. destruct Hb as (rest & Hrest). rewrite A6.
  assert (used (buffer hd) + Z.of_nat (length (x :: s)) = Z.of_nat (length (bytes b ++ x :: s))) as Hu by (by destruct Hrest).
  cbn [used]. rewrite Hu. unfold is_running. cbn [running set_handler set_flag]. rewrite Hrun.
  match goal with |- context [set_handler _ h ?x] => set (hd' := x) end.
  assert (frame G (set_handler (set_flag G PHP_OUTPUT_WRITTEN) h hd')) as Hfr.
  { eapply frame_trans; [apply (set_flag_frame G PHP_OUTPUT_WRITTEN); by left|apply set_handler_frame]. }
  exists (set_handler (set_flag G PHP_OUTPUT_WRITTEN) h hd'), hd'. split; [by destruct (_ && _)|]. split; [exact Hfr|].
  split; [done|]. split; [split; try done|done]. exists rest. split; [apply Hrest|done].
Qed.

Lemma set_hflag_has hd bit bit' : has bit bit' = false -> has (hflags (set_hflag hd bit)) bit' = has (hflags hd) bit'.
Proof. intros. by apply has_set. Qed.

End Frames.

Section Refinement.
Context {HD : Headers} (compat : Z -> list Z -> Z -> option (list Z)) (script : list call -> list (list Z) * answer).
Local Notation php_header := header_fn.

Lemma append_none G h : php_output_handler_append G h None = php_output_handler_append G h (Some []).
Proof. done. Qed.

Lemma not_locked G o : running G = None -> php_output_lock_error php_header G o = Some (G, false).
Proof. intros H. unfold php_output_lock_error, is_running. by rewrite H, andb_false_r. Qed.

Lemma call_default echo G h hd b c : func hd = Default_func -> has (hflags hd) PHP_OUTPUT_HANDLER_USER = false ->
  holds_bytes (buffer hd) b ->
  call_handler compat script echo G h hd c = Some (G, {| op := op c; cin := None; cout := Some b |},
    match b with [] => PHP_OUTPUT_HANDLER_NO_DATA | _ => PHP_OUTPUT_HANDLER_SUCCESS end).
Proof.
  intros Hf Hu Hb. unfold call_handler. rewrite (read_held _ _ Hb). cbn [mbind option_bind]. rewrite Hf, Hu. cbn.
  by destruct b.
Qed.

(** The handler has passed on what it had, and is empty. *)
Lemma done_ok G h hd lvl b c (t : list Z) : handler_at G h = Some hd -> holds_ob hd lvl b -> cin c = None -> cout c = Some t ->
  exists hd' c', handler_done G h c (match t with [] => PHP_OUTPUT_HANDLER_NO_DATA | _ => PHP_OUTPUT_HANDLER_SUCCESS end)
      = Some (set_handler G h hd', c') /\
    holds_ob hd' lvl (with_bytes b []) /\ cin c' = None /\ cout c' = match t with [] => None | _ => Some t end.
Proof.
  intros Hh [A1 A2 A3 A4 A5 A6 A7] Hin Hout. unfold handler_done. rewrite Hh. cbn [mbind option_bind].
  match goal with |- context [set_hflag ?x PHP_OUTPUT_HANDLER_PROCESSED] => set (hd' := set_hflag x PHP_OUTPUT_HANDLER_PROCESSED) end.
  assert (holds_ob hd' lvl (with_bytes b [])) as Hho.
  { unfold hd'. split; try done; try (by rewrite set_hflag_has).
    - intros bit Hbit. rewrite set_hflag_has; [by apply A4|]. set_unfold. destruct Hbit as [-> | [-> | [-> | []]]]; done.
    - by exists (data (buffer hd)). }
  destruct t as [|x t]; eexists hd', _; split_and!; try done.
Qed.

Lemma started_ok hd lvl b : holds_ob hd lvl b -> holds_ob (set_hflag hd PHP_OUTPUT_HANDLER_STARTED) lvl b.
Proof.
  intros [A1 A2 A3 A4 A5 A6 A7]. split; try done; try (by rewrite set_hflag_has).
  intros bit Hbit. rewrite set_hflag_has; [by apply A4|]. set_unfold. destruct Hbit as [-> | [-> | [-> | []]]]; done.
Qed.

(** An operation on a handler: it stores what comes in, or passes on all it has. *)
Lemma handler_op_ok echo G h hd lvl b c : handler_at G h = Some hd -> holds_ob hd lvl b -> running G = None ->
  let s := default [] (cin c) in let t := bytes b ++ s in let runs := negb (op c =? 0) || spills b s in
  exists G' hd' c', php_output_handler_op php_header compat script echo G h c
      = Some (G', c', if runs then match t with [] => PHP_OUTPUT_HANDLER_NO_DATA | _ => PHP_OUTPUT_HANDLER_SUCCESS end
                      else PHP_OUTPUT_HANDLER_NO_DATA) /\
    frame G G' /\ store G' = <[h := hd']> (store G) /\ written G' = written G /\
    holds_ob hd' lvl (with_bytes b (if runs then [] else t)) /\ op c' = op c /\
    if runs then cin c' = None /\ cout c' = match t with [] => None | _ => Some t end else c' = c.
Proof.
  intros Hh Ho Hrun s t runs. unfold php_output_handler_op. rewrite not_locked by done. cbn [mbind option_bind].
  assert (php_output_handler_append G h (cin c) = php_output_handler_append G h (Some s)) as -> by (subst s; by destruct (cin c)).
  destruct (append_ok G h hd lvl b s Hh Ho Hrun) as (G1 & hd1 & -> & Hfr & Hst & Ho1 & Hfl & Hw). cbn [mbind option_bind].
  assert (negb (spills b s) && (op c =? 0) = negb runs) as -> by (unfold runs; by destruct (spills b s), (op c =? 0)).
  destruct runs; cbn [negb].
  2: { exists G1, hd1, c. by split_and!. }
  assert (handler_at G1 h = Some hd1) as Hh1 by (unfold handler_at; rewrite Hst; apply lookup_insert_eq).
  rewrite Hh1. cbn [mbind option_bind]. set (c1 := if negb _ then _ else c).
  pose proof Ho1 as [A1 A2 A3 A4 A5 A6 A7]. cbn [bytes with_bytes] in A7. fold t in A7.
  rewrite (call_default _ _ _ _ t) by done. cbn [mbind option_bind].
  assert (handler_at (set_running G1 (Some h)) h = Some hd1) as -> by exact Hh1. cbn [mbind option_bind].
  match goal with |- context [handler_done ?G ?h ?c ?s] => set (G2 := G);
    destruct (done_ok G2 h (set_hflag hd1 PHP_OUTPUT_HANDLER_STARTED) lvl (with_bytes b t) c t) as (hd' & c' & E & Hho & Hin & Hout) end.
  { apply lookup_insert_eq. } { by apply started_ok. } { done. } { done. }
  rewrite E. cbn [mbind option_bind]. eexists _, hd', (with_op c' (op c)). split; [done|].
  destruct Hfr as [F1 F2 F3 F4 F5 F6 F7]. split; [by split; cbn; rewrite ?Hrun|].
  split; [unfold G2; cbn; by rewrite !insert_insert_eq, Hst, insert_insert_eq|]. by split_and!.
Qed.

(** The walk over the stack. *)
Lemma apply_op_ok echo G h hd lvl b c : handler_at G h = Some hd -> holds_ob hd lvl b -> running G = None -> cout c = None ->
  let s := default [] (cin c) in let t := bytes b ++ s in let runs := negb (op c =? 0) || spills b s in
  exists G' hd' c', php_output_stack_apply_op php_header compat script echo G h c
      = Some (if runs && negb (bool_decide (t = [])) then 0 else 1, G', c') /\
    frame G G' /\ store G' = <[h := hd']> (store G) /\ written G' = written G /\
    holds_ob hd' lvl (with_bytes b (if runs then [] else t)) /\ op c' = op c /\
    if runs && negb (bool_decide (t = [])) then
      if decide (lvl = O) then cout c' = Some t else cin c' = Some t /\ cout c' = None
    else cout c' = None.
Proof.
  intros Hh Ho Hrun Hout s t runs. unfold php_output_stack_apply_op. rewrite Hh. cbn [mbind option_bind].
  rewrite (ho_enabled _ _ _ Ho).
  destruct (handler_op_ok echo G h hd lvl b c Hh Ho Hrun) as (G' & hd' & c' & -> & Hfr & Hst & Hw & Ho' & Hop & Hc).
  fold s in Ho', Hc |- *. fold t in Ho', Hc |- *. fold runs in Ho', Hc |- *. cbn [mbind option_bind].
  assert (handler_at G' h = Some hd') as Hh' by (unfold handler_at; rewrite Hst; apply lookup_insert_eq).
  destruct runs; cbn [andb].
  - destruct Hc as [Hci Hco]. destruct t as [|x t]; cbn [bool_decide negb].
    + rewrite bool_decide_true by done. cbn [negb]. exists G', hd', c'. by split_and!.
    + rewrite bool_decide_false by done. cbn [negb]. rewrite Hh'. cbn [mbind option_bind]. rewrite (ho_level _ _ _ Ho').
      destruct (decide (lvl = O)) as [->|Hl].
      * cbn [Z.of_nat Z.eqb]. exists G', hd', c'. by split_and!.
      * rewrite (proj2 (Z.eqb_neq _ _)) by lia. exists G', hd', (php_output_context_swap c'). by split_and!.
  - subst c'. exists G', hd', c. by split_and!.
Qed.

Lemma walk_ok echo hs : forall st G c, stack_ok (store G) hs st -> NoDup hs -> running G = None -> cout c = None -> hs <> [] ->
  exists G' c', snd (visit (fun s h => as_callback (php_output_stack_apply_op php_header compat script echo) s h tt) hs (Some (G, c)))
      = Some (G', c') /\
    frame G G' /\ written G' = written G /\ (forall h, h ∉ hs -> store G' !! h = store G !! h) /\
    let '(st', out) := sink (negb (op c =? 0)) st (default [] (cin c)) in
    stack_ok (store G') hs st' /\ default [] (cout c') = out.
Proof.
  induction hs as [|h hs IH]; intros [|b st] G c Hs Hnd Hrun Hout Hne; try done.
  destruct Hs as [(hd & Hh & Ho) Hs]. apply NoDup_cons in Hnd as [Hni Hnd]. cbn [visit as_callback].
  destruct (apply_op_ok echo G h hd _ b c Hh Ho Hrun Hout) as (G1 & hd1 & c1 & -> & Hfr & Hst & Hw & Ho1 & Hop & Hc).
  cbn [sink]. set (s := default [] (cin c)) in *. set (runs := negb (op c =? 0) || spills b s) in *.
  assert (stack_ok (store G1) hs st) as Hs1.
  { apply (stack_ok_ext (store G)); [|done]. intros h' Hh'. rewrite Hst. apply lookup_insert_ne. intros ->. done. }
  assert (exists hd', store G1 !! h = Some hd' /\ holds_ob hd' (length hs) (with_bytes b (if runs then [] else bytes b ++ s))) as Hh1.
  { exists hd1. by rewrite Hst, lookup_insert_eq. }
  assert (forall h', h' ∉ h :: hs -> store G1 !! h' = store G !! h') as Hother.
  { intros h' [Hh' _]%not_elem_of_cons. rewrite Hst. by apply lookup_insert_ne. }
  destruct runs; cbn [andb] in *; [|exists G1, c1; cbn; by rewrite Hc].
  destruct (bytes b ++ s) as [|x t] eqn:Et.
  { rewrite bool_decide_true in * by done. exists G1, c1. cbn in *. by rewrite Hc. }
  rewrite bool_decide_false in * by done. cbn [negb Z.eqb] in *.
  destruct hs as [|h2 hs].
  - destruct st; [|done]. cbn in *. rewrite decide_True in Hc by done. exists G1, c1. cbn. by rewrite Hc.
  - rewrite decide_False in Hc by done. destruct Hc as [Hci Hco].
    destruct (IH st G1 c1 Hs1 Hnd) as (G2 & c2 & E & Hfr2 & Hw2 & Hst2 & Hsink); [by rewrite (fr_running _ _ Hfr)|done|done|].
    rewrite Hop, Hci in Hsink. cbn [default] in Hsink.
    destruct (visit _ (h2 :: hs) _) as [ys s2]. cbn [snd] in E |- *. subst s2. exists G2, c2.
    split; [done|]. split; [by apply (frame_trans _ G1)|]. split; [congruence|].
    split; [intros h' Hh'; rewrite Hst2, Hother; [done|done|]; by apply not_elem_of_cons in Hh' as [_ ?]|].
    change (id (x :: t)) with (x :: t) in Hsink. destruct (sink _ st (x :: t)) as [st' out]. destruct Hsink as [Hs2 Ho2].
    split; [|done]. split; [|done]. destruct Hh1 as (hd' & Hh' & Ho'). exists hd'. by rewrite Hst2.
Qed.

(** ** The state of the output layer

    The handlers [hs], the top one first, hold the buffers [st], and the server has [out].  While a buffer is flushed the
    active handler [act] is not on the stack. *)
Record layer G hs st (out : list Z) (act : option Z) : Prop := {
  ly_stack : repr (handlers G) (reverse hs);
  ly_active : active G = act;
  ly_some : hs <> [] -> act <> None;
  ly_running : running G = None;
  ly_activated : has (flags G) PHP_OUTPUT_ACTIVATED = true;
  ly_header : header_state G;
  ly_held : stack_ok (store G) hs st;
  ly_nodup : NoDup hs;
  ly_fresh : Forall (fun h => h < fresh_id G) hs;
  ly_out : written G = out }.

Lemma layer_frame G G' hs st st' out out' act : layer G hs st out act -> frame G G' -> stack_ok (store G') hs st' ->
  written G' = out' -> layer G' hs st' out' act.
Proof.
  intros [A1 A2 A3 A4 A5 A6 A7 A8 A9 A10] [F1 F2 F3 F4 F5 F6 F7] Hs Hw.
  split; rewrite ?F1, ?F2, ?F3, ?F6, ?F4 by done; try done. by apply F5.
Qed.

(** Asking for the headers settles whether output is allowed. *)
Lemma header_ok G : header_state G -> frame G (php_output_header php_header G) /\
  store (php_output_header php_header G) = store G /\ written (php_output_header php_header G) = written G /\
  has (flags (php_output_header php_header G)) PHP_OUTPUT_DISABLED = negb allowed.
Proof.
  unfold php_output_header, header_state. intros Hs.
  assert (forall G', handlers G' = handlers G -> active G' = active G -> running G' = running G -> fresh_id G' = fresh_id G ->
    calls G' = calls G -> flags G' = flags G \/ flags G' = Z.lor (flags G) PHP_OUTPUT_DISABLED -> header_state G' -> frame G G') as Hfr.
  { intros G' F1 F2 F3 F5 F6 F4 F7. split; try done. intros bit _ _ Hb. destruct F4 as [-> | ->]; [done|]. by apply has_set. }
  unfold header_state in Hfr. destruct (headers_sent G) eqn:Esent; cbn [negb].
  { split; [apply frame_refl|]. destruct allowed; cbn [negb]; [by destruct Hs|]. by destruct Hs as [?|[? _]]. }
  destruct (php_header false) as [sent ok] eqn:E. cbn [snd] in *. destruct allowed; cbn [negb].
  - destruct Hs as [Hd [?| ->]]; [done|]. split; [|done]. apply Hfr; try done; [by left|]. split; [done|by right].
  - assert (forall f, has (Z.lor f PHP_OUTPUT_DISABLED) PHP_OUTPUT_DISABLED = true) as Hset.
    { intros f. unfold has. change PHP_OUTPUT_DISABLED with (2 ^ 1). apply negb_true_iff, Z.eqb_neq. intros Hz.
      assert (Z.testbit (Z.land (Z.lor f (2 ^ 1)) (2 ^ 1)) 1 = true) as Ht by
        (rewrite Z.land_spec, Z.lor_spec, !Z.pow2_bits_true by lia; by rewrite orb_true_r). by rewrite Hz in Ht. }
    destruct ok.
    + destruct Hs as [Hd|[_ ?]]; [|done]. split; [|done]. apply Hfr; try done; [by left|by left].
    + split; [|split; [done|split; [done|apply Hset]]]. apply Hfr; try done; [by right|left; apply Hset].
Qed.

Lemma pass_on_ok G o : header_state G ->
  frame G (pass_on php_header G o) /\ store (pass_on php_header G o) = store G /\
  written (pass_on php_header G o) = written G ++ keep allowed (default [] o).
Proof.
  intros Hs. unfold pass_on. destruct o as [[|x s]|]; cbn [nonempty default id]; rewrite ?keep_nil, ?app_nil_r; [by split; [apply frame_refl|]| |by split; [apply frame_refl|]].
  destruct (header_ok G Hs) as (Hfr & Hst & Hw & Hd). set (G1 := php_output_header php_header G) in *. rewrite Hd, negb_involutive.
  unfold keep. destruct allowed; [|by rewrite app_nil_r].
  assert (forall G', frame G G1 -> handlers G' = handlers G1 -> active G' = active G1 -> running G' = running G1 -> flags G' = flags G1 ->
    fresh_id G' = fresh_id G1 -> calls G' = calls G1 -> headers_sent G' = headers_sent G1 -> frame G (set_flag G' PHP_OUTPUT_SENT)) as Hend.
  { intros G' F E1 E2 E3 E4 E5 E6 E7. apply (frame_trans _ G1); [done|]. apply (frame_trans _ G'); [|apply set_flag_frame; by right].
    split; try done; [by rewrite E4|]. unfold header_state. by rewrite E4, E7. }
  destruct (has (flags (ub_write G1 (x :: s))) PHP_OUTPUT_IMPLICITFLUSH); (split; [by apply Hend|]); cbn; by rewrite Hst, Hw.
Qed.

Lemma op_ok echo G hs st out act o str : layer G hs st out act ->
  exists G', php_output_op php_header compat script echo G o str = Some G' /\
    frame G G' /\ (forall h, h ∉ hs -> store G' !! h = store G !! h) /\
    let '(st', d) := sink (negb (o =? 0)) st (default [] str) in layer G' hs st' (out ++ keep allowed d) act.
Proof.
  intros Hly. pose proof Hly as [A1 A2 A3 A4 A5 A6 A7 A8 A9 A10].
  unfold php_output_op, php_output_context_init. cbn [op cin cout].
  rewrite not_locked by done. cbn [mbind option_bind]. pose proof A1 as (Htop & _). rewrite length_reverse in Htop.
  unfold zend_stack_count. rewrite Htop.
  assert (forall G1 c1 st' d, frame G G1 -> written G1 = written G -> (forall h, h ∉ hs -> store G1 !! h = store G !! h) ->
    stack_ok (store G1) hs st' -> default [] (cout c1) = d ->
    exists G', Some (pass_on php_header G1 (cout c1)) = Some G' /\ frame G G' /\
      (forall h, h ∉ hs -> store G' !! h = store G !! h) /\ layer G' hs st' (out ++ keep allowed d) act) as Hend.
  { intros G1 c1 st' d Hfr Hw Ho Hs Hd. eexists. split; [done|].
    destruct (pass_on_ok G1 (cout c1)) as (P1 & P2 & P3); [by apply (fr_header _ _ Hfr)|].
    split; [by apply (frame_trans _ G1)|]. split; [intros h Hh; rewrite P2; by apply Ho|].
    apply (layer_frame G _ _ st _ out); [done|by apply (frame_trans _ G1)|by rewrite P2|by rewrite P3, Hw, A10, Hd]. }
  destruct hs as [|h hs].
  { destruct st; [|done]. rewrite andb_false_r. cbn [mbind option_bind sink]. by apply Hend. }
  assert (is_active G = true) as Hact by (unfold is_active; rewrite A2; destruct act; [done|by destruct A3]).
  rewrite Hact. rewrite (proj2 (Z.eqb_neq _ 0)) by (cbn; lia). cbn [andb negb].
  destruct hs as [|h2 hs].
  - cbn [length Z.of_nat Z.ltb Z.compare Pos.compare Pos.compare_cont Pos.of_succ_nat].
    destruct st as [|b [|? ?]]; [done| |by destruct A7]. destruct A7 as [(hd & Hh & Ho) _].
    destruct (top_repr _ _ A1) as [Hel _]. change (reverse [h]) with [h] in Hel.
    destruct (zend_stack_top (handlers G)) as [i|]; [|done]. cbn [mbind option_bind last] in Hel |- *. rewrite Hel.
    cbn [mbind option_bind]. change (store G !! h) with (handler_at G h) in Hh. rewrite Hh. cbn [mbind option_bind].
    rewrite (ho_enabled _ _ _ Ho). cbn [negb].
    destruct (handler_op_ok echo G h hd _ b {| op := o; cin := str; cout := None |} Hh Ho A4)
      as (G1 & hd1 & c1 & -> & Hfr & Hst & Hw & Ho1 & _ & Hc). cbn [op cin cout] in *. cbn [mbind option_bind sink].
    assert (forall h', h' ∉ [h] -> store G1 !! h' = store G !! h') as Hother.
    { intros h' Hh'. rewrite Hst. apply lookup_insert_ne. intros ->. apply Hh'. by left. }
    assert (forall b', holds_ob hd1 0 b' -> stack_ok (store G1) [h] [b']) as Hone.
    { intros b' Hb'. split; [|done]. exists hd1. by rewrite Hst, lookup_insert_eq. }
    destruct (negb (o =? 0) || spills b (default [] str)).
    + destruct Hc as [_ Hc]. destruct (bytes b ++ default [] str); apply Hend; try done; try (by apply Hone); by rewrite Hc.
    + subst c1. apply Hend; try done. by apply Hone.
  - rewrite (proj2 (Z.ltb_lt 1 _)) by (cbn; lia). unfold apply_handlers, zend_stack_apply_with_argument.
    cbn [ZEND_STACK_APPLY_TOPDOWN Z.eqb Pos.eqb]. rewrite Htop, Nat2Z.id.
    destruct (topdown_visit (fun s h => as_callback (php_output_stack_apply_op php_header compat script echo) s h tt) (h :: h2 :: hs) []
      (handlers G) (Some (G, {| op := o; cin := str; cout := None |})) (length (h :: h2 :: hs))) as (stk & E & _);
      [by rewrite app_nil_r|done|].
    rewrite E. cbn [mbind option_bind].
    destruct (walk_ok echo (h :: h2 :: hs) st G {| op := o; cin := str; cout := None |} A7 A8 A4) as (G1 & c1 & -> & Hfr & Hw & Hother & Hs); [done|done|].
    cbn [op cin mbind option_bind] in *. destruct (sink _ st (default [] str)) as [st' d]. destruct Hs as [Hs Hd]. by apply Hend.
Qed.
End Refinement.
