(* ===== verification/OutputLayer.v ===== *)
(** * The operations of the output layer against their specification

    Every function of [Output] is taken to the stack of strings of [OutputSpec], and so is any sequence of them. *)
From S2P Require Import Prelude ZendStack Output OutputSpec.
Import Stack.

Section Runs.
Context (php_header : bool -> bool * bool) (compat : Z -> list Z -> Z -> option (list Z))
  (script : list call -> list (list Z) * answer) (conflicting : output_globals -> list Z -> bool) (dname : list Z).
Implicit Types (G : output_globals).

(** The operation in the code; those that have no result of their own give [true]. *)
Definition run_op G (o : ob_op) : option (output_globals * value) :=
  match o with
  | Echo s => '(G, n) ← output_write php_header compat script G s; Some (G, VLong n)
  | Unbuffered s => Some (php_output_write_unbuffered G s, no_value)
  | Ob_start n fl => ob_start php_header conflicting dname G No_handler n fl
  | Ob_flush => ob_flush php_header compat script G
  | Ob_clean => ob_clean php_header compat script G
  | Ob_end_flush => ob_end_flush php_header compat script G
  | Ob_end_clean => ob_end_clean php_header compat script G
  | Ob_get_flush => ob_get_flush php_header compat script G
  | Ob_get_clean => ob_get_clean php_header compat script G
  | Ob_get_contents => ob_get_contents G
  | Ob_get_length => ob_get_length G
  | Ob_get_level => ob_get_level G
  | Flush_all => G ← php_output_flush_all php_header compat script G; Some (G, no_value)
  | Clean_all => G ← php_output_clean_all php_header compat script G; Some (G, no_value)
  | End_all => G ← php_output_end_all php_header compat script G; Some (G, no_value)
  | Discard_all => G ← php_output_discard_all php_header compat script G; Some (G, no_value)
  end.

Fixpoint run_ops G (ops : list ob_op) : option (output_globals * list value) :=
  match ops with
  | [] => Some (G, [])
  | o :: ops => '(G, v) ← run_op G o; '(G, vs) ← run_ops G ops; Some (G, v :: vs)
  end.

(** A script may not start a buffer that is disabled already. *)
Definition op_fits (o : ob_op) : Prop :=
  match o with Ob_start _ fl => has fl PHP_OUTPUT_HANDLER_DISABLED = false | _ => True end.
End Runs.

Section Operations.
Context {HD : Headers} (compat : Z -> list Z -> Z -> option (list Z))
  (script : list call -> list (list Z) * answer) (conflicting : output_globals -> list Z -> bool) (dname : list Z).
Hypothesis no_conflicts : forall G, conflicting G dname = false.
Local Notation php_header := header_fn.
Local Notation run_one := (run_op header_fn compat script conflicting dname).
Local Notation run_all := (run_ops header_fn compat script conflicting dname).

Implicit Types (G : output_globals) (st : list ob) (out str : list Z).

(** Room for [n] more handlers. *)
Definition room G (n : Z) : Prop := max (handlers G) + STACK_BLOCK_SIZE * n < 2 ^ 31.

Lemma room_frame G G' n : frame G G' -> room G n -> room G' n.
Proof. intros Hfr. unfold room. by rewrite (fr_handlers _ _ Hfr). Qed.

Lemma write_ok G hs st out act str : layer G hs st out act ->
  exists G', output_write php_header compat script G str = Some (G', Z.of_nat (length str)) /\
    frame G G' /\ (forall h, h ∉ hs -> store G' !! h = store G !! h) /\
    let '(st', d) := sink false st str in layer G' hs st' (out ++ keep allowed d) act.
Proof.
  intros Hly. unfold output_write, php_output_write. rewrite (ly_activated _ _ _ _ _ Hly).
  destruct (op_ok compat script (echo php_header compat script) G hs st out act PHP_OUTPUT_HANDLER_WRITE (Some str) Hly)
    as (G' & -> & Hfr & Hst & Hs). cbn [mbind option_bind]. by exists G'.
Qed.

(** The top handler is made to pass on what it has. *)
Lemma top_op_ok G h hs b st out act o : layer G (h :: hs) (b :: st) out act -> o <> 0 ->
  exists G' c' status, handler_op php_header compat script G h {| op := o; cin := None; cout := None |} = Some (G', c', status) /\
    frame G G' /\ layer G' (h :: hs) (with_bytes b [] :: st) out act /\ nonempty (cout c') = nonempty (Some (bytes b)).
Proof.
  intros Hly Ho. pose proof Hly as [A1 A2 A3 A4 A5 A6 [(hd & Hh & Hho) A7] A8 A9 A10].
  destruct (handler_op_ok compat script (echo php_header compat script) G h hd _ b
    {| op := o; cin := None; cout := None |} Hh Hho A4) as (G' & hd' & c' & E & Hfr & Hst & Hw & Ho' & _ & Hc).
  cbn [op cin default] in *. rewrite (proj2 (Z.eqb_neq _ _)) in * by done. cbn [negb orb] in *. rewrite app_nil_r in *.
  eexists G', c', _. split; [exact E|]. split; [done|]. split.
  - apply (layer_frame G _ _ (b :: st) _ out); [done|done| |congruence]. split; [exists hd'; by rewrite Hst, lookup_insert_eq|].
    apply (stack_ok_ext (store G)); [|done]. intros h' Hh'. rewrite Hst. apply lookup_insert_ne. intros ->.
    by apply NoDup_cons in A8 as [A8 _].
  - destruct Hc as [_ ->]. by destruct (bytes b).
Qed.

Lemma layer_top G h hs b st out act : layer G (h :: hs) (b :: st) out act -> exists hd, handler_at G h = Some hd /\ holds_ob hd (length hs) b.
Proof. intros Hly. apply (ly_held _ _ _ _ _ Hly). Qed.

(** The top handler leaves the stack; what it held is still there. *)
Lemma layer_pop G h hs b st out act act' : layer G (h :: hs) (b :: st) out act -> (hs <> [] -> act' <> None) ->
  exists stk, zend_stack_del_top (handlers G) = Some (SUCCESS, stk) /\ max stk = max (handlers G) /\
    layer {| G with handlers := stk; active := act' |} hs st out act'.
Proof.
  intros [A1 A2 A3 A4 A5 A6 [A7 A7'] A8 A9 A10] Hact. rewrite reverse_cons in A1.
  destruct (del_top_repr _ _ _ A1) as (stk & -> & Hr & Hm). exists stk. split; [done|]. split; [done|].
  apply NoDup_cons in A8 as [_ A8]. apply Forall_cons in A9 as [_ A9]. by split.
Qed.

Lemma layer_push G h hs b st out act : layer G hs st out act -> (exists hd, store G !! h = Some hd /\ holds_ob hd (length hs) b) ->
  h ∉ hs -> h < fresh_id G -> room G 1 ->
  exists stk, zend_stack_push (handlers G) h = Some (Z.of_nat (length hs), stk) /\ max stk <= max (handlers G) + STACK_BLOCK_SIZE /\
    forall act', act' <> None -> layer {| G with handlers := stk; active := act' |} (h :: hs) (b :: st) out act'.
Proof.
  intros [A1 A2 A3 A4 A5 A6 A7 A8 A9 A10] Hh Hni Hf Hroom.
  destruct (push_repr (handlers G) (reverse hs) h A1) as (stk & E & Hr & Hm).
  { destruct A1 as (_ & Hm & Hb). pose proof (block_holds_length _ _ _ Hb). unfold room, is_i32, STACK_BLOCK_SIZE in *. lia. }
  exists stk. rewrite E, length_reverse. split; [done|]. split; [done|]. intros act' Hact'. split; try done.
  - by rewrite reverse_cons.
  - by apply NoDup_cons.
  - by apply Forall_cons.
Qed.

Lemma del_top_layer G h hs b st out act : layer G (h :: hs) (b :: st) out act ->
  exists stk, zend_stack_del_top (handlers G) = Some (SUCCESS, stk) /\ max stk = max (handlers G) /\
    (match zend_stack_top stk with Some i => x ← ZEND_STACK_ELEMENT stk i; Some (Some x) | None => Some None end) = Some (head hs) /\
    layer {| G with handlers := stk; active := head hs |} hs st out (head hs).
Proof.
  intros Hly. destruct (layer_pop G h hs b st out act (head hs) Hly) as (stk & E & Hm & Hly'); [by destruct hs|].
  exists stk. split; [done|]. split; [done|]. split; [|done].
  destruct (top_repr _ _ (ly_stack _ _ _ _ _ Hly')) as [Hel Hnil]. cbn [handlers] in *.
  destruct hs as [|h2 hs].
  - by rewrite (proj2 Hnil).
  - rewrite reverse_cons, last_snoc in Hel. destruct (zend_stack_top stk) as [i|]; [|done]. cbn in Hel. by rewrite Hel.
Qed.

Lemma free_ok G h hs st out act : layer G hs st out act -> h ∉ hs -> layer (php_output_handler_free G h) hs st out act.
Proof.
  intros [A1 A2 A3 A4 A5 A6 A7 A8 A9 A10] Hni. split; try done. cbn. apply (stack_ok_ext (store G)); [|done].
  intros h' Hh'. apply lookup_delete_ne. intros ->. done.
Qed.

(** Popping the top handler. *)
Lemma pop_ok G h hs b st out fl : layer G (h :: hs) (b :: st) out (Some h) ->
  has fl PHP_OUTPUT_POP_FORCE || can b PHP_OUTPUT_HANDLER_REMOVABLE = true ->
  exists G', php_output_stack_pop php_header compat script G fl = Some (G', true) /\ max (handlers G') = max (handlers G) /\
    let '(st', d) := if has fl PHP_OUTPUT_POP_DISCARD then (st, []) else sink false st (bytes b) in
    layer G' hs st' (out ++ keep allowed d) (head hs).
Proof.
  intros Hly Hcan. unfold php_output_stack_pop. rewrite (ly_active _ _ _ _ _ Hly).
  destruct (layer_top _ _ _ _ _ _ _ Hly) as (hd & Hh & Ho). rewrite Hh. cbn [mbind option_bind].
  rewrite (ho_can _ _ _ Ho) by (clear; set_solver). rewrite <- negb_orb, Hcan. cbn [negb].
  rewrite (ho_enabled _ _ _ Ho). cbn [negb]. unfold php_output_context_init, with_op. cbn [op cin cout].
  match goal with |- context [handler_op _ _ _ G h ?c] => set (c0 := c) end.
  assert (exists o, c0 = {| op := o; cin := None; cout := None |} /\ o <> 0) as (o & -> & Hne).
  { subst c0. destruct (negb (has (hflags hd) _)), (has fl PHP_OUTPUT_POP_DISCARD); eexists; (split; [reflexivity|done]). }
  destruct (top_op_ok G h hs b st out _ o Hly Hne) as (G1 & c1 & status & -> & Hfr & Hly1 & Hc). cbn [mbind option_bind].
  destruct (del_top_layer _ _ _ _ _ _ _ Hly1) as (stk & -> & Hm & Hcur & Hly2). cbn [mbind option_bind]. rewrite Hcur. cbn [mbind option_bind].
  assert (max stk = max (handlers G)) as Hm2 by (by rewrite Hm, (fr_handlers _ _ Hfr)).
  assert (h ∉ hs) as Hni by (pose proof (ly_nodup _ _ _ _ _ Hly) as Hnd; by apply NoDup_cons in Hnd as [? _]).
  rewrite Hc. destruct (has fl PHP_OUTPUT_POP_DISCARD) eqn:Ed; cbn [negb].
  - rewrite keep_nil, app_nil_r. eexists. split; [destruct (bytes b); reflexivity|]. split; [exact Hm2|]. by apply free_ok.
  - destruct (bytes b) as [|x s] eqn:Eb; cbn [nonempty].
    + cbn [mbind option_bind]. eexists. split; [done|]. split; [exact Hm2|].
      rewrite sink_nil, keep_nil, app_nil_r. by apply free_ok.
    + destruct (write_ok _ _ _ _ _ (x :: s) Hly2) as (G3 & -> & Hfr3 & _ & Hs3). cbn [mbind option_bind].
      eexists. split; [done|]. split; [cbn; rewrite (fr_handlers _ _ Hfr3); exact Hm2|].
      destruct (sink false st (x :: s)) as [st' d]. by apply free_ok.
Qed.

Lemma ob_flush_ok G h hs b st out : layer G (h :: hs) (b :: st) out (Some h) -> can b PHP_OUTPUT_HANDLER_FLUSHABLE = true -> room G 1 ->
  exists G', php_output_flush php_header compat script G = Some (G', SUCCESS) /\
    max (handlers G') <= max (handlers G) + STACK_BLOCK_SIZE /\
    let '(st', d) := sink false st (bytes b) in layer G' (h :: hs) (with_bytes b [] :: st') (out ++ keep allowed d) (Some h).
Proof.
  intros Hly Hcan Hroom. unfold php_output_flush. rewrite (ly_active _ _ _ _ _ Hly).
  destruct (layer_top _ _ _ _ _ _ _ Hly) as (hd & Hh & Ho). rewrite Hh. cbn [mbind option_bind].
  rewrite (ho_can _ _ _ Ho) by (clear; set_solver). rewrite Hcan. unfold php_output_context_init.
  destruct (top_op_ok G h hs b st out _ PHP_OUTPUT_HANDLER_FLUSH Hly ltac:(done)) as (G1 & c1 & status & -> & Hfr & Hly1 & Hc).
  cbn [mbind option_bind]. rewrite Hc. destruct (bytes b) as [|x s] eqn:Eb; cbn [nonempty].
  { exists G1. split; [done|]. rewrite (fr_handlers _ _ Hfr). split; [unfold STACK_BLOCK_SIZE; lia|].
    rewrite sink_nil, keep_nil, app_nil_r. exact Hly1. }
  destruct (layer_top _ _ _ _ _ _ _ Hly1) as (hd1 & Hh1 & Ho1).
  destruct (layer_pop _ _ _ _ _ _ _ (Some h) Hly1) as (stk & -> & Hm & Hly2); [done|]. cbn [mbind option_bind].
  assert ({| handlers := stk; active := Some h; running := running G1; flags := flags G1; store := store G1; fresh_id := fresh_id G1;
    written := written G1; flushes := flushes G1; headers_sent := headers_sent G1; direct := direct G1; calls := calls G1 |}
    = {| G1 with handlers := stk |}) as E by (by rewrite <- (ly_active _ _ _ _ _ Hly1)).
  rewrite E in Hly2. clear E. destruct (write_ok _ _ _ _ _ (x :: s) Hly2) as (G3 & -> & Hfr3 & Hst3 & Hs3). cbn [mbind option_bind].
  rewrite (fr_active _ _ Hfr3). cbn [active]. rewrite (ly_active _ _ _ _ _ Hly1). cbn [mbind option_bind].
  destruct (sink false st (x :: s)) as [st' d].
  pose proof (ly_nodup _ _ _ _ _ Hly) as Hnd. apply NoDup_cons in Hnd as [Hni _].
  pose proof (ly_fresh _ _ _ _ _ Hly1) as Hf. apply Forall_cons in Hf as [Hf _].
  destruct (layer_push G3 h hs (with_bytes b []) st' (out ++ keep allowed d) (Some h) Hs3) as (stk3 & -> & Hm3 & Hly3).
  { exists hd1. rewrite Hst3 by done. done. } { done. } { rewrite (fr_fresh _ _ Hfr3). exact Hf. }
  { apply (room_frame _ _ _ Hfr3). unfold room in *. cbn [handlers]. rewrite Hm, (fr_handlers _ _ Hfr). done. }
  cbn [mbind option_bind]. eexists. split; [done|]. cbn [handlers]. split.
  { rewrite (fr_handlers _ _ Hfr3) in Hm3. cbn [handlers] in Hm3. rewrite Hm, (fr_handlers _ _ Hfr) in Hm3. exact Hm3. }
  exact (Hly3 (Some h) ltac:(done)).
Qed.

Lemma ob_clean_ok G h hs b st out : layer G (h :: hs) (b :: st) out (Some h) -> can b PHP_OUTPUT_HANDLER_CLEANABLE = true ->
  exists G', php_output_clean php_header compat script G = Some (G', SUCCESS) /\ max (handlers G') = max (handlers G) /\
    layer G' (h :: hs) (with_bytes b [] :: st) out (Some h).
Proof.
  intros Hly Hcan. unfold php_output_clean. rewrite (ly_active _ _ _ _ _ Hly).
  destruct (layer_top _ _ _ _ _ _ _ Hly) as (hd & Hh & Ho). rewrite Hh. cbn [mbind option_bind].
  rewrite (ho_can _ _ _ Ho) by (clear; set_solver). rewrite Hcan. unfold php_output_context_init.
  destruct (top_op_ok G h hs b st out _ PHP_OUTPUT_HANDLER_CLEAN Hly ltac:(done)) as (G1 & c1 & status & -> & Hfr & Hly1 & _).
  cbn [mbind option_bind]. exists G1. by rewrite (fr_handlers _ _ Hfr).
Qed.

(** A failing call leaves everything as it is. *)
Lemma refused G h hs b st out : layer G (h :: hs) (b :: st) out (Some h) ->
  (can b PHP_OUTPUT_HANDLER_FLUSHABLE = false -> php_output_flush php_header compat script G = Some (G, FAILURE)) /\
  (can b PHP_OUTPUT_HANDLER_CLEANABLE = false -> php_output_clean php_header compat script G = Some (G, FAILURE)) /\
  (can b PHP_OUTPUT_HANDLER_REMOVABLE = false ->
     php_output_end php_header compat script G = Some (G, FAILURE) /\ php_output_discard php_header compat script G = Some (G, FAILURE)).
Proof.
  intros Hly. unfold php_output_flush, php_output_clean, php_output_end, php_output_discard, php_output_stack_pop.
  rewrite (ly_active _ _ _ _ _ Hly). destruct (layer_top _ _ _ _ _ _ _ Hly) as (hd & Hh & Ho). rewrite Hh. cbn [mbind option_bind].
  rewrite !(ho_can _ _ _ Ho) by (clear; set_solver). split_and!; intros ->; done.
Qed.

Lemma start_ok G hs st out n fl : layer G hs st out (head hs) -> has fl PHP_OUTPUT_HANDLER_DISABLED = false -> room G 1 ->
  exists G' h, ob_start php_header conflicting dname G No_handler n fl = Some (G', VBool true) /\
    max (handlers G') <= max (handlers G) + STACK_BLOCK_SIZE /\
    layer G' (h :: hs) ({| chunk := if n <? 0 then 0 else n; abilities := fl; bytes := [] |} :: st) out (Some h).
Proof.
  intros Hly Hfl Hroom. pose proof Hly as [A1 A2 A3 A4 A5 A6 A7 A8 A9 A10].
  unfold ob_start, php_output_start_user, php_output_handler_start. rewrite not_locked by done. cbn [mbind option_bind php_output_handler_create_user].
  rewrite no_conflicts. cbn [orb]. set (n' := if n <? 0 then 0 else n). set (hd := php_output_handler_create_internal dname Default_func n' fl).
  set (b := {| chunk := n'; abilities := fl; bytes := [] |}). set (h := fresh_id G).
  assert (h ∉ hs) as Hni by (intros Hin; rewrite Forall_forall in A9; specialize (A9 h Hin); cbn in A9; lia).
  set (hd' := {| name := name hd; hflags := hflags hd; level := Z.of_nat (length hs); hsize := hsize hd; buffer := buffer hd; func := func hd |}).
  assert (forall bit, has (hflags hd) bit = negb (Z.land fl (Z.land (Z.lnot 0xf) bit) =? 0)) as Hhas.
  { intros bit. unfold hd, has. cbn [hflags php_output_handler_create_internal php_output_handler_init].
    unfold PHP_OUTPUT_HANDLER_INTERNAL. by rewrite Z.lor_0_r, <- Z.land_assoc. }
  assert (holds_ob hd' (length hs) b) as Ho.
  { split; try done.
    - cbn. rewrite Hhas. by rewrite Z.land_0_r.
    - cbn. by rewrite Hhas.
    - intros bit Hbit. cbn. rewrite Hhas. set_unfold. by destruct Hbit as [-> | [-> | [-> | []]]].
    - eexists. by split. }
  assert (layer {| G with store := <[h := hd']> (store G); fresh_id := h + 1 |} hs st out (head hs)) as Hly1.
  { split; try done.
    - cbn. apply (stack_ok_ext (store G)); [|done]. intros h' Hh'. apply lookup_insert_ne. intros ->. done.
    - cbn. eapply Forall_impl; [exact A9|]. cbn. lia. }
  destruct (layer_push _ h hs b st out _ Hly1) as (stk & E & Hm & Hly2).
  { exists hd'. split; [apply lookup_insert_eq|done]. } { done. } { cbn. lia. } { exact Hroom. }
  cbn [handlers] in E, Hm. rewrite E. cbn [mbind option_bind]. eexists _, h. split; [done|]. split; [exact Hm|].
  exact (Hly2 (Some h) ltac:(done)).
Qed.

Lemma apply_clean_ok G h hd lvl b c : handler_at G h = Some hd -> holds_ob hd lvl b -> running G = None -> cin c = None -> op c <> 0 ->
  exists G' hd', php_output_stack_apply_clean php_header compat script G h c
      = Some (0, G', {| op := op c; cin := None; cout := None |}) /\
    frame G G' /\ store G' = <[h := hd']> (store G) /\ written G' = written G /\ holds_ob hd' lvl (with_bytes b []).
Proof.
  intros Hh Ho Hrun Hin Hop. unfold php_output_stack_apply_clean. rewrite Hh. cbn [mbind option_bind].
  match goal with |- context [set_handler G h ?x] => set (hd0 := x) end.
  assert (holds_ob hd0 lvl (with_bytes b [])) as Ho0.
  { destruct Ho as [A1 A2 A3 A4 A5 A6 A7]. split; try done. by exists (data (buffer hd)). }
  destruct (handler_op_ok compat script (echo php_header compat script) (set_handler G h hd0) h hd0 lvl (with_bytes b []) c)
    as (G1 & hd1 & c1 & E & Hfr & Hst & Hw & Ho1 & Hop1 & _); [apply lookup_insert_eq|done|done|].
  rewrite Hin in E, Ho1. cbn [default bytes with_bytes app] in E, Ho1. unfold handler_op. rewrite E. cbn [mbind option_bind].
  rewrite (proj2 (Z.eqb_neq _ _)) in Ho1 by done. cbn [negb orb] in Ho1.
  eexists G1, hd1. split; [unfold php_output_context_reset; by rewrite Hop1|].
  split; [by apply (frame_trans _ (set_handler G h hd0)); [apply set_handler_frame|]|].
  split; [by rewrite Hst; cbn; rewrite insert_insert_eq|]. by split.
Qed.

Lemma clean_walk_ok hs : forall st G o, stack_ok (store G) hs st -> NoDup hs -> running G = None -> o <> 0 ->
  exists G' c', snd (visit (fun s h => as_callback (php_output_stack_apply_clean php_header compat script) s h tt) hs
      (Some (G, {| op := o; cin := None; cout := None |}))) = Some (G', c') /\
    frame G G' /\ written G' = written G /\ stack_ok (store G') hs ((fun b => with_bytes b []) <$> st) /\
    forall h, h ∉ hs -> store G' !! h = store G !! h.
Proof.
  induction hs as [|h hs IH]; intros [|b st] G o Hs Hnd Hrun Hop; try done.
  { eexists G, _. split; [done|]. by split; [apply frame_refl|]. }
  destruct Hs as [(hd & Hh & Ho) Hs]. apply NoDup_cons in Hnd as [Hni Hnd]. cbn [visit as_callback].
  destruct (apply_clean_ok G h hd _ b {| op := o; cin := None; cout := None |} Hh Ho Hrun) as (G1 & hd1 & -> & Hfr & Hst & Hw & Ho1); [done|done|].
  cbn [Z.eqb op]. assert (forall h', h' <> h -> store G1 !! h' = store G !! h') as Hother.
  { intros h' Hne. rewrite Hst. by apply lookup_insert_ne. }
  destruct (IH st G1 o) as (G2 & c2 & E & Hfr2 & Hw2 & Hs2 & Hst2); [|done|by rewrite (fr_running _ _ Hfr)|done|].
  { apply (stack_ok_ext (store G)); [|done]. intros h' Hh'. apply Hother. by intros ->. }
  destruct (visit _ hs _) as [ys s2]. cbn [snd] in E |- *. subst s2. exists G2, c2.
  split; [done|]. split; [by apply (frame_trans _ G1)|]. split; [congruence|]. split.
  - split; [|exact Hs2]. exists hd1. by rewrite Hst2, Hst, lookup_insert_eq.
  - intros h' [Hne Hh']%not_elem_of_cons. by rewrite Hst2, Hother.
Qed.

Lemma clean_all_ok G hs st out : layer G hs st out (head hs) ->
  exists G', php_output_clean_all php_header compat script G = Some G' /\ max (handlers G') = max (handlers G) /\
    layer G' hs ((fun b => with_bytes b []) <$> st) out (head hs).
Proof.
  intros Hly. pose proof Hly as [A1 A2 A3 A4 A5 A6 A7 A8 A9 A10]. unfold php_output_clean_all, is_active. rewrite A2.
  destruct hs as [|h hs]; [destruct st; [|done]; by exists G|]. cbn [head].
  unfold apply_handlers, zend_stack_apply_with_argument. cbn [ZEND_STACK_APPLY_TOPDOWN Z.eqb Pos.eqb].
  pose proof A1 as (Htop & _). rewrite length_reverse in Htop. rewrite Htop, Nat2Z.id.
  destruct (topdown_visit (fun s h => as_callback (php_output_stack_apply_clean php_header compat script) s h tt) (h :: hs) []
    (handlers G) (Some (G, {| op := PHP_OUTPUT_HANDLER_CLEAN; cin := None; cout := None |})) (length (h :: hs))) as (stk & E & _);
    [by rewrite app_nil_r|done|]. unfold php_output_context_init. rewrite E. cbn [mbind option_bind].
  destruct (clean_walk_ok (h :: hs) st G PHP_OUTPUT_HANDLER_CLEAN A7 A8 A4) as (G1 & c1 & -> & Hfr & Hw & Hs & _); [done|].
  cbn [mbind option_bind]. exists G1. split; [done|]. split; [by rewrite (fr_handlers _ _ Hfr)|].
  apply (layer_frame G _ _ st _ out); try done. congruence.
Qed.

Lemma flush_all_ok G hs st out : layer G hs st out (head hs) ->
  exists G', php_output_flush_all php_header compat script G = Some G' /\ max (handlers G') = max (handlers G) /\
    match st with
    | [] => layer G' hs st out (head hs)
    | _ => let '(st', d) := sink true st [] in layer G' hs st' (out ++ keep allowed d) (head hs)
    end.
Proof.
  intros Hly. unfold php_output_flush_all, is_active. rewrite (ly_active _ _ _ _ _ Hly).
  pose proof (stack_ok_length _ _ _ (ly_held _ _ _ _ _ Hly)) as Hlen.
  destruct hs as [|h hs], st as [|b st]; try done; [by exists G|]. cbn [head].
  destruct (op_ok compat script (echo php_header compat script) G _ _ _ _ PHP_OUTPUT_HANDLER_FLUSH None Hly)
    as (G' & E & Hfr & _ & Hs). exists G'. split; [exact E|]. split; [by rewrite (fr_handlers _ _ Hfr)|]. exact Hs.
Qed.

Lemma sink_length all st : forall s, length (sink all st s).1 = length st.
Proof.
  induction st as [|b st IH]; intros s; cbn [sink]; [done|]. destruct (all || spills b s); [|done].
  destruct (bytes b ++ s) as [|x t]; [done|]. specialize (IH (x :: t)). destruct (sink all st (x :: t)). cbn in *. by f_equal.
Qed.

Lemma end_all_ok n : forall G hs st out, layer G hs st out (head hs) -> n = length st ->
  exists G', end_loop php_header compat script n G PHP_OUTPUT_POP_FORCE = Some G' /\ max (handlers G') = max (handlers G) /\
    layer G' [] [] (spec_end_all allowed st n out) None.
Proof.
  induction n as [|n IH]; intros G hs st out Hly Hn; cbn [end_loop]; unfold is_active; rewrite (ly_active _ _ _ _ _ Hly);
    pose proof (stack_ok_length _ _ _ (ly_held _ _ _ _ _ Hly)) as Hlen; destruct st as [|b st]; try done; destruct hs as [|h hs]; try done.
  { by exists G. }
  cbn [head]. destruct (pop_ok G h hs b st out PHP_OUTPUT_POP_FORCE Hly) as (G1 & -> & Hm & Hly1); [done|]. cbn [mbind option_bind].
  change (has PHP_OUTPUT_POP_FORCE PHP_OUTPUT_POP_DISCARD) with false in Hly1. cbn [spec_end_all].
  pose proof (sink_length false st (bytes b)) as Hsl. destruct (sink false st (bytes b)) as [st' d]. cbn in Hsl.
  destruct (IH G1 hs st' (out ++ keep allowed d) Hly1) as (G2 & -> & Hm2 & Hly2); [cbn in Hn; lia|]. exists G2. split; [done|]. split; [congruence|done].
Qed.

Lemma discard_all_ok n : forall G hs st out, layer G hs st out (head hs) -> n = length st ->
  exists G', discard_loop php_header compat script n G = Some G' /\ max (handlers G') = max (handlers G) /\ layer G' [] [] out None.
Proof.
  induction n as [|n IH]; intros G hs st out Hly Hn; cbn [discard_loop]; unfold is_active; rewrite (ly_active _ _ _ _ _ Hly);
    pose proof (stack_ok_length _ _ _ (ly_held _ _ _ _ _ Hly)) as Hlen; destruct st as [|b st]; try done; destruct hs as [|h hs]; try done.
  { by exists G. }
  cbn [head]. destruct (pop_ok G h hs b st out (Z.lor PHP_OUTPUT_POP_DISCARD PHP_OUTPUT_POP_FORCE) Hly) as (G1 & -> & Hm & Hly1); [done|].
  cbn [mbind option_bind]. change (has (Z.lor PHP_OUTPUT_POP_DISCARD PHP_OUTPUT_POP_FORCE) PHP_OUTPUT_POP_DISCARD) with true in Hly1.
  cbn iota in Hly1. rewrite keep_nil, app_nil_r in Hly1.
  destruct (IH G1 hs st out Hly1) as (G2 & -> & Hm2 & Hly2); [cbn in Hn; lia|]. exists G2. split; [done|]. split; [congruence|done].
Qed.

(** ** Sequences of operations *)

Lemma contents_ok G h hs b st out : layer G (h :: hs) (b :: st) out (Some h) ->
  php_output_get_contents G = Some (Some (bytes b)) /\ php_output_get_length G = Some (Some (Z.of_nat (length (bytes b)))).
Proof.
  intros Hly. unfold php_output_get_contents, php_output_get_length. rewrite (ly_active _ _ _ _ _ Hly).
  destruct (layer_top _ _ _ _ _ _ _ Hly) as (hd & Hh & Ho). rewrite Hh. cbn [mbind option_bind].
  rewrite (read_held _ _ (ho_bytes _ _ _ Ho)). destruct (ho_bytes _ _ _ Ho) as (rest & _ & ->). done.
Qed.

Lemma end_ok G h hs b st out : layer G (h :: hs) (b :: st) out (Some h) -> can b PHP_OUTPUT_HANDLER_REMOVABLE = true ->
  exists G', php_output_end php_header compat script G = Some (G', SUCCESS) /\ max (handlers G') = max (handlers G) /\
    let '(st', d) := sink false st (bytes b) in layer G' hs st' (out ++ keep allowed d) (head hs).
Proof.
  intros Hly Hcan. destruct (pop_ok G h hs b st out PHP_OUTPUT_POP_TRY Hly) as (G1 & E & Hm & Hs); [by rewrite Hcan|].
  unfold php_output_end. rewrite E. by exists G1.
Qed.

Lemma discard_ok G h hs b st out : layer G (h :: hs) (b :: st) out (Some h) -> can b PHP_OUTPUT_HANDLER_REMOVABLE = true ->
  exists G', php_output_discard php_header compat script G = Some (G', SUCCESS) /\ max (handlers G') = max (handlers G) /\
    layer G' hs st out (head hs).
Proof.
  intros Hly Hcan. destruct (pop_ok G h hs b st out (Z.lor PHP_OUTPUT_POP_DISCARD PHP_OUTPUT_POP_TRY) Hly) as (G1 & E & Hm & Hs); [by rewrite Hcan|].
  unfold php_output_discard. rewrite E. exists G1. change (has (Z.lor PHP_OUTPUT_POP_DISCARD PHP_OUTPUT_POP_TRY) PHP_OUTPUT_POP_DISCARD) with true in Hs.
  cbn iota in Hs. by rewrite keep_nil, app_nil_r in Hs.
Qed.

(** What one operation does: its value, and the layer it leaves. *)
Definition step_ok G (r : option (output_globals * value)) (x : outs * value) : Prop := exists G' hs',
  r = Some (G', x.2) /\ layer G' hs' x.1.1 x.1.2 (head hs') /\ max (handlers G') <= max (handlers G) + STACK_BLOCK_SIZE.

Lemma step_same G hs st out v : layer G hs st out (head hs) -> step_ok G (Some (G, v)) ((st, out), v).
Proof. intros Hly. exists G, hs. split; [done|]. split; [done|]. unfold STACK_BLOCK_SIZE. lia. Qed.

Lemma step_to G G' hs st out v : layer G' hs st out (head hs) -> max (handlers G') = max (handlers G) -> step_ok G (Some (G', v)) ((st, out), v).
Proof. intros Hly Hm. exists G', hs. split; [done|]. split; [done|]. unfold STACK_BLOCK_SIZE. lia. Qed.

Lemma count_ok G hs st out act : layer G hs st out act -> zend_stack_count (handlers G) = Z.of_nat (length st).
Proof.
  intros Hly. destruct (ly_stack _ _ _ _ _ Hly) as (Ht & _). unfold zend_stack_count.
  by rewrite Ht, length_reverse, (stack_ok_length _ _ _ (ly_held _ _ _ _ _ Hly)).
Qed.

(** The functions that fail without a buffer. *)
Lemma run_op_empty G out o : layer G [] [] out None -> op_fits o -> room G 1 -> step_ok G (run_one G o) (spec_op allowed ([], out) o).
Proof.
  intros Hly Hfit Hroom. pose proof (ly_active _ _ _ _ _ Hly) as Hact. destruct o; cbn [run_op spec_op fst snd].
  all: unfold ob_flush, ob_clean, ob_end_flush, ob_end_clean, ob_get_flush, ob_get_clean, ob_get_contents, ob_get_length, ob_get_level,
    php_output_get_contents, php_output_get_length, php_output_get_level, php_output_flush_all, php_output_clean_all, is_active;
    rewrite ?Hact; cbn [negb mbind option_bind]; try (by apply (step_same G [])).
  - destruct (write_ok _ _ _ _ _ s Hly) as (G1 & -> & Hfr & _ & Hs). cbn [mbind option_bind]. apply (step_to G G1 []); [exact Hs|].
    by rewrite (fr_handlers _ _ Hfr).
  - unfold php_output_write_unbuffered. rewrite (ly_activated _ _ _ _ _ Hly). apply (step_to G _ []); [|done].
    destruct Hly as [A1 A2 A3 A4 A5 A6 A7 A8 A9 A10]. split; try done. cbn. by rewrite A10.
  - destruct (start_ok G [] [] out chunk_size fl Hly Hfit Hroom) as (G1 & h & -> & Hm & Hly1). by exists G1, [h].
  - unfold php_output_end_all. rewrite (count_ok _ _ _ _ _ Hly), Nat2Z.id. cbn [length].
    destruct (end_all_ok O G [] [] out Hly) as (G1 & -> & Hm & Hly1); [done|]. by apply (step_to G G1 []).
  - unfold php_output_discard_all. rewrite (count_ok _ _ _ _ _ Hly), Nat2Z.id. cbn [length].
    destruct (discard_all_ok O G [] [] out Hly) as (G1 & -> & Hm & Hly1); [done|]. by apply (step_to G G1 []).
Qed.

Lemma run_op_ok G hs st out o : layer G hs st out (head hs) -> op_fits o -> room G 1 ->
  step_ok G (run_one G o) (spec_op allowed (st, out) o).
Proof.
  intros Hly Hfit Hroom. pose proof (stack_ok_length _ _ _ (ly_held _ _ _ _ _ Hly)) as Hlen.
  destruct hs as [|h hs], st as [|b st]; try done; [by apply run_op_empty|]. cbn [head] in Hly.
  pose proof (ly_active _ _ _ _ _ Hly) as Hact. destruct (contents_ok _ _ _ _ _ _ Hly) as [Hc Hl].
  destruct (refused _ _ _ _ _ _ Hly) as (Rf & Rc & Rr).
  assert (is_active G = true) as Hia by (unfold is_active; by rewrite Hact).
  destruct o; cbn [run_op spec_op fst snd];
    unfold ob_flush, ob_clean, ob_end_flush, ob_end_clean, ob_get_flush, ob_get_clean, ob_get_contents, ob_get_length, ob_get_level,
    succeeds, php_output_get_level; rewrite ?Hc, ?Hl, ?Hia; cbn [negb mbind option_bind].
  all: try (by apply (step_same G (h :: hs))).
  - destruct (write_ok _ _ _ _ _ s Hly) as (G1 & -> & Hfr & _ & Hs). cbn [mbind option_bind]. unfold spec_write. cbn [fst snd].
    destruct (sink false (b :: st) s) as [st' d]. apply (step_to G G1 (h :: hs)); [exact Hs|]. by rewrite (fr_handlers _ _ Hfr).
  - unfold php_output_write_unbuffered. rewrite (ly_activated _ _ _ _ _ Hly). apply (step_to G _ (h :: hs)); [|done].
    destruct Hly as [A1 A2 A3 A4 A5 A6 A7 A8 A9 A10]. split; try done. cbn. by rewrite A10.
  - destruct (start_ok G (h :: hs) (b :: st) out chunk_size fl Hly Hfit Hroom) as (G1 & h1 & -> & Hm & Hly1). by exists G1, (h1 :: h :: hs).
  - destruct (can b PHP_OUTPUT_HANDLER_FLUSHABLE) eqn:Ecan; [|rewrite Rf by done; by apply (step_same G (h :: hs))].
    destruct (ob_flush_ok _ _ _ _ _ _ Hly Ecan Hroom) as (G1 & -> & Hm & Hs). cbn [mbind option_bind]. unfold spec_write. cbn [fst snd].
    destruct (sink false st (bytes b)) as [st' d]. by exists G1, (h :: hs).
  - destruct (can b PHP_OUTPUT_HANDLER_CLEANABLE) eqn:Ecan; [|rewrite Rc by done; by apply (step_same G (h :: hs))].
    destruct (ob_clean_ok _ _ _ _ _ _ Hly Ecan) as (G1 & -> & Hm & Hs). by apply (step_to G G1 (h :: hs)).
  - destruct (can b PHP_OUTPUT_HANDLER_REMOVABLE) eqn:Ecan; [|destruct Rr as [-> _]; [done|]; by apply (step_same G (h :: hs))].
    destruct (end_ok _ _ _ _ _ _ Hly Ecan) as (G1 & -> & Hm & Hs). cbn [mbind option_bind]. unfold spec_write. cbn [fst snd].
    destruct (sink false st (bytes b)) as [st' d]. by apply (step_to G G1 hs).
  - destruct (can b PHP_OUTPUT_HANDLER_REMOVABLE) eqn:Ecan; [|destruct Rr as [_ ->]; [done|]; by apply (step_same G (h :: hs))].
    destruct (discard_ok _ _ _ _ _ _ Hly Ecan) as (G1 & -> & Hm & Hs). by apply (step_to G G1 hs).
  - destruct (can b PHP_OUTPUT_HANDLER_REMOVABLE) eqn:Ecan; [|destruct Rr as [-> _]; [done|]; by apply (step_same G (h :: hs))].
    destruct (end_ok _ _ _ _ _ _ Hly Ecan) as (G1 & -> & Hm & Hs). cbn [mbind option_bind]. unfold spec_write. cbn [fst snd].
    destruct (sink false st (bytes b)) as [st' d]. by apply (step_to G G1 hs).
  - destruct (can b PHP_OUTPUT_HANDLER_REMOVABLE) eqn:Ecan; [|destruct Rr as [_ ->]; [done|]; by apply (step_same G (h :: hs))].
    destruct (discard_ok _ _ _ _ _ _ Hly Ecan) as (G1 & -> & Hm & Hs). by apply (step_to G G1 hs).
  - rewrite (count_ok _ _ _ _ _ Hly). by apply (step_same G (h :: hs)).
  - destruct (flush_all_ok G (h :: hs) (b :: st) out Hly) as (G1 & -> & Hm & Hs). cbn [mbind option_bind]. unfold spec_write. cbn [fst snd].
    destruct (sink true (b :: st) []) as [st' d]. by apply (step_to G G1 (h :: hs)).
  - destruct (clean_all_ok G (h :: hs) (b :: st) out Hly) as (G1 & -> & Hm & Hs). by apply (step_to G G1 (h :: hs)).
  - unfold php_output_end_all. rewrite (count_ok _ _ _ _ _ Hly), Nat2Z.id. cbn [length].
    destruct (end_all_ok (S (length st)) G (h :: hs) (b :: st) out Hly) as (G1 & -> & Hm & Hly1); [done|]. by apply (step_to G G1 []).
  - unfold php_output_discard_all. rewrite (count_ok _ _ _ _ _ Hly), Nat2Z.id. cbn [length].
    destruct (discard_all_ok (S (length st)) G (h :: hs) (b :: st) out Hly) as (G1 & -> & Hm & Hly1); [done|]. by apply (step_to G G1 []).
Qed.

Lemma run_ops_ok ops : forall G hs st out, layer G hs st out (head hs) -> Forall op_fits ops -> room G (Z.of_nat (length ops)) ->
  exists G' hs', run_all G ops = Some (G', (spec_run allowed (st, out) ops).2) /\
    layer G' hs' (spec_run allowed (st, out) ops).1.1 (spec_run allowed (st, out) ops).1.2 (head hs') /\
    max (handlers G') <= max (handlers G) + STACK_BLOCK_SIZE * Z.of_nat (length ops).
Proof.
  unfold room, STACK_BLOCK_SIZE. induction ops as [|o ops IH]; intros G hs st out Hly Hfit Hroom; cbn [run_ops spec_run].
  { exists G, hs. split; [done|]. split; [done|]. cbn. lia. }
  apply Forall_cons in Hfit as [Ho Hfit]. cbn [length] in Hroom.
  destruct (run_op_ok G hs st out o Hly Ho) as (G1 & hs1 & -> & Hly1 & Hm); [unfold room, STACK_BLOCK_SIZE; lia|].
  unfold STACK_BLOCK_SIZE in Hm. destruct (spec_op allowed (st, out) o) as [[st1 out1] v]. cbn [fst snd mbind option_bind] in *.
  destruct (IH G1 hs1 st1 out1 Hly1 Hfit) as (G2 & hs2 & -> & Hly2 & Hm2); [lia|]. cbn [mbind option_bind].
  destruct (spec_run allowed (st1, out1) ops) as [[st2 out2] vs]. exists G2, hs2. split; [done|]. split; [done|]. cbn [length]. lia.
Qed.
End Operations.

Lemma activate_ok `{Headers} G : allowed = headers_sent G || (header_fn false).2 ->
  layer (php_output_activate G) [] [] (written G) None /\ room (php_output_activate G) (2 ^ 26).
Proof.
  intros Ha. split; [|done]. split; try done; [|constructor].
  unfold header_state. rewrite Ha. cbn [php_output_activate flags headers_sent].
  destruct (headers_sent G), (header_fn false) as [sent []]; cbn [orb snd]; auto.
Qed.

Lemma run_from_activation `{Headers} compat script conflicting dname G ops :
  allowed = headers_sent G || (header_fn false).2 -> (forall G, conflicting G dname = false) ->
  Forall op_fits ops -> Z.of_nat (length ops) < 2 ^ 26 ->
  exists G', run_ops header_fn compat script conflicting dname (php_output_activate G) ops
      = Some (G', (spec_run allowed ([], written G) ops).2) /\
    written G' = (spec_run allowed ([], written G) ops).1.2 /\
    php_output_get_level G' = Z.of_nat (length (spec_run allowed ([], written G) ops).1.1).
Proof.
  intros Ha Hc Hfit Hlen. destruct (activate_ok G Ha) as [Hly Hroom].
  destruct (run_ops_ok compat script conflicting dname Hc ops _ [] [] (written G) Hly Hfit) as (G' & hs & E & Hly' & _).
  { unfold room, STACK_BLOCK_SIZE in *. lia. }
  exists G'. split; [exact E|]. split; [apply (ly_out _ _ _ _ _ Hly')|].
  unfold php_output_get_level, is_active. rewrite (ly_active _ _ _ _ _ Hly'), (count_ok _ _ _ _ _ Hly').
  pose proof (stack_ok_length _ _ _ (ly_held _ _ _ _ _ Hly')) as Hl. rewrite <- Hl. by destruct hs.
Qed.

(** C2: the output layer is a stack of strings.  From its activation on, for every sequence of fewer than 2^26 prints,
    unbuffered writes, and starts, flushes, cleans, ends and reads of buffers with any chunk sizes and abilities, no buffer
    is overrun and no freed handler is used, every function gives the value the specification gives, and the server has got
    exactly the unbuffered writes and, where output is allowed, the bytes that left the lowest buffer, in order.  Output is
    allowed when the headers were sent before or [php_header] lets it through; otherwise, as for a HEAD request, these bytes
    are dropped and all else is the same.  Flushing all, against its comment, stops at a buffer that has nothing to pass on,
    so what the buffers below it hold stays there (see [flush_all_stops]).  The buffers are started without a callback, with
    flags that do not include the status bit of a disabled handler, and no extension has registered a conflict for the name
    of the default handler. *)
Theorem output_layer_refines_buffers php_header compat script conflicting dname G ops :
  (forall G, conflicting G dname = false) -> Forall op_fits ops -> Z.of_nat (length ops) < 2 ^ 26 ->
  let allowed := headers_sent G || (php_header false).2 in
  exists G', run_ops php_header compat script conflicting dname (php_output_activate G) ops
      = Some (G', (spec_run allowed ([], written G) ops).2) /\
    written G' = (spec_run allowed ([], written G) ops).1.2 /\
    php_output_get_level G' = Z.of_nat (length (spec_run allowed ([], written G) ops).1.1).
Proof.
  intros Hc Hfit Hlen allowed.
  exact (run_from_activation (H := {| header_fn := php_header; OutputSpec.allowed := allowed |})
    compat script conflicting dname G ops eq_refl Hc Hfit Hlen).
Qed.

(** Nested buffers, a chunked one that spills, and one that may not be flushed. *)
Definition ex_header (sent : bool) : bool * bool := (true, true).
Definition ex_compat (f : Z) (s : list Z) (mode : Z) : option (list Z) := None.
Definition ex_script (cs : list call) : list (list Z) * answer := ([], Returns_true).
Definition ex_conflicts (G : output_globals) (nm : list Z) : bool := false.
Definition ex_globals : output_globals :=
  {| handlers := snd (zend_stack_init 8); active := None; running := None; flags := 0; store := ∅; fresh_id := 0;
     written := []; flushes := 0; headers_sent := false; direct := []; calls := [] |}.

Definition ex_ops : list ob_op :=
  [Echo [1]; Ob_start 0 PHP_OUTPUT_HANDLER_STDFLAGS; Echo [2; 3]; Ob_start 3 PHP_OUTPUT_HANDLER_REMOVABLE; Echo [4; 5]; Ob_flush;
   Echo [6]; Ob_get_contents; Ob_end_flush; Ob_get_length; Unbuffered [7]; Ob_get_flush; Ob_get_level].

(** [php_header] for a HEAD request. *)
Definition ex_head (sent : bool) : bool * bool := (true, false).

Lemma output_layer_refines_buffers_witness :
  (exists G', run_ops ex_header ex_compat ex_script ex_conflicts [] (php_output_activate ex_globals) ex_ops
      = Some (G', (spec_run true ([], written ex_globals) ex_ops).2) /\
    written G' = (spec_run true ([], written ex_globals) ex_ops).1.2 /\
    php_output_get_level G' = Z.of_nat (length (spec_run true ([], written ex_globals) ex_ops).1.1)) /\
  exists G', run_ops ex_head ex_compat ex_script ex_conflicts [] (php_output_activate ex_globals) ex_ops
      = Some (G', (spec_run false ([], written ex_globals) ex_ops).2) /\
    written G' = (spec_run false ([], written ex_globals) ex_ops).1.2 /\
    php_output_get_level G' = Z.of_nat (length (spec_run false ([], written ex_globals) ex_ops).1.1).
Proof.
  split.
  - apply (output_layer_refines_buffers ex_header ex_compat ex_script ex_conflicts [] ex_globals ex_ops); [done| |vm_compute; done].
    repeat constructor.
  - apply (output_layer_refines_buffers ex_head ex_compat ex_script ex_conflicts [] ex_globals ex_ops); [done| |vm_compute; done].
    repeat constructor.
Defined.

Example bytes_of_the_witness :
  (spec_run true ([], []) ex_ops).1.2 = [1; 7; 2; 3; 4; 5; 6] /\ (spec_run false ([], []) ex_ops).1.2 = [7].
Proof. by vm_compute. Qed.

(** [php_output_flush_all] stops at a buffer without contents: what lies below stays. *)
Example flush_all_stops :
  (spec_run true ([], []) [Ob_start 0 PHP_OUTPUT_HANDLER_STDFLAGS; Echo [1]; Ob_start 0 PHP_OUTPUT_HANDLER_STDFLAGS; Flush_all]).1.2 = [].
Proof. done. Qed.

(** A handler of the script gets everything in the buffer and its answer goes on; what it prints itself is lost. *)
Example user_handler_filters :
  (G ← run_op ex_header ex_compat (fun cs => ([[9]], match last cs with Some k => Returns (reverse (ob_data k)) | None => Call_failed end))
         ex_conflicts [] (php_output_activate ex_globals) (Echo [1]);
   G ← ob_start ex_header ex_conflicts [] G.1 (Callable 5 [70]) 0 PHP_OUTPUT_HANDLER_STDFLAGS;
   G ← run_ops ex_header ex_compat (fun cs => ([[9]], match last cs with Some k => Returns (reverse (ob_data k)) | None => Call_failed end))
         ex_conflicts [] G.1 [Echo [2; 3]; Echo [4]; Ob_end_flush; Echo [5]];
   Some (written G.1, calls G.1)) = Some ([1; 4; 3; 2; 5], [{| callee := 5; ob_data := [2; 3; 4]; ob_mode := 9 |}]).
Proof. by vm_compute. Qed.
