(* ===== verification/OutputUser.v ===== *)
(** * Handlers that a script defines

    [ob_start] with a callback puts a function of the script between the buffer and what lies below.  While it runs,
    what it prints comes back into the output layer. *)
From S2P Require Import Prelude ZendStack Output OutputSpec OutputLayer.
Import Stack.

Section User.
Context {HD : Headers} (compat : Z -> list Z -> Z -> option (list Z))
  (script : list call -> list (list Z) * answer) (conflicting : output_globals -> list Z -> bool) (dname : list Z).
Local Notation php_header := header_fn.

Implicit Types (G : output_globals) (h : Z) (st : list ob) (out str : list Z).

Record holds_user (hd : php_output_handler) (zoh : Z) (lvl : nat) (t : list Z) : Prop := {
  hu_func : func hd = User_func zoh;
  hu_user : has (hflags hd) PHP_OUTPUT_HANDLER_USER = true;
  hu_enabled : has (hflags hd) PHP_OUTPUT_HANDLER_DISABLED = false;
  hu_removable : has (hflags hd) PHP_OUTPUT_HANDLER_REMOVABLE = true;
  hu_fresh : has (hflags hd) PHP_OUTPUT_HANDLER_STARTED = false;
  hu_level : level hd = Z.of_nat lvl;
  hu_size : hsize hd = 0;
  hu_bytes : holds_bytes (buffer hd) t }.

(** The handler [h] is on top of the buffers [st]; [r] is running. *)
Record above G (r : option Z) h hs st out : Prop := {
  ab_stack : repr (handlers G) (reverse (h :: hs));
  ab_active : active G = Some h;
  ab_running : running G = r;
  ab_activated : has (flags G) PHP_OUTPUT_ACTIVATED = true;
  ab_header : header_state G;
  ab_below : stack_ok (store G) hs st;
  ab_nodup : NoDup (h :: hs);
  ab_fresh : Forall (fun h => h < fresh_id G) (h :: hs);
  ab_out : written G = out }.

(** It is the function [zoh] of the script, and has the bytes [t]. *)
Definition user_top G (r : option Z) h zoh (t : list Z) hs st out : Prop :=
  above G r h hs st out /\ exists hd, handler_at G h = Some hd /\ holds_user hd zoh (length hs) t.

Lemma above_set G r h hs st out hd : above G r h hs st out -> above (set_handler G h hd) r h hs st out.
Proof.
  intros [A1 A2 A3 A4 A5 A6 A7 A8 A9]. split; try done. apply (stack_ok_ext (store G)); [|done].
  intros h' Hh'. cbn. apply lookup_insert_ne. apply NoDup_cons in A7 as [A7 _]. by intros ->.
Qed.

Lemma above_running G r r' h hs st out : above G r h hs st out -> above (set_running G r') r' h hs st out.
Proof. intros [A1 A2 A3 A4 A5 A6 A7 A8 A9]. by split. Qed.

Lemma above_written G r h hs st out : above G r h hs st out -> above (set_flag G PHP_OUTPUT_WRITTEN) r h hs st out.
Proof. intros [A1 A2 A3 A4 A5 A6 A7 A8 A9]. split; try done; [cbn; by rewrite has_set|by apply header_state_flag]. Qed.

Lemma above_calls G r h hs st out cs : above G r h hs st out -> above {| G with calls := cs |} r h hs st out.
Proof. intros [A1 A2 A3 A4 A5 A6 A7 A8 A9]. by split. Qed.

(** It leaves the stack, and the buffers below are the layer. *)
Lemma above_pop G h hs st out : above G None h hs st out ->
  exists stk, zend_stack_del_top (handlers G) = Some (SUCCESS, stk) /\
    (match zend_stack_top stk with Some i => x ← ZEND_STACK_ELEMENT stk i; Some (Some x) | None => Some None end) = Some (head hs) /\
    layer {| G with handlers := stk; active := head hs |} hs st out (head hs).
Proof.
  intros [A1 A2 A3 A4 A5 A6 A7 A8 A9]. rewrite reverse_cons in A1. destruct (del_top_repr _ _ _ A1) as (stk & -> & Hr & _).
  exists stk. split; [done|]. apply NoDup_cons in A7 as [_ A7]. apply Forall_cons in A8 as [_ A8]. split; [|split; try done; by destruct hs].
  destruct (top_repr _ _ Hr) as [Hel Hnil]. destruct hs as [|h2 hs]; [by rewrite (proj2 Hnil)|].
  rewrite reverse_cons, last_snoc in Hel. destruct (zend_stack_top stk) as [i|]; [|done]. cbn in Hel. by rewrite Hel.
Qed.

(** What is printed is stored, whoever runs. *)
Lemma user_append_ok G r h zoh t hs st out c : user_top G r h zoh t hs st out -> op c = 0 ->
  exists G', (forall echo, php_output_handler_op php_header compat script echo G h c = Some (G', c, PHP_OUTPUT_HANDLER_NO_DATA)) /\
    user_top G' r h zoh (t ++ default [] (cin c)) hs st out /\ calls G' = calls G /\ handlers G' = handlers G.
Proof.
  intros [Hab (hd & Hh & Ho)] Hop. unfold php_output_handler_op, php_output_lock_error. rewrite Hop.
  cbn [Z.eqb negb andb mbind option_bind]. unfold php_output_handler_append. rewrite Hh.
  cbn [mbind option_bind]. destruct (nonempty (cin c)) as [[|x s]|] eqn:Ec.
  - destruct (cin c) as [[|? ?]|]; cbn in *; congruence.
  - assert (default [] (cin c) = x :: s) as -> by (destruct (cin c) as [[|? ?]|]; cbn in *; congruence).
    destruct (append_holds hd t (x :: s) _ (hu_bytes _ _ _ _ Ho) ltac:(done) eq_refl) as (cells & -> & Hb). cbn [mbind option_bind].
    rewrite (hu_size _ _ _ _ Ho). cbn [Z.eqb negb andb]. eexists. split; [done|]. split; [|done]. split.
    + by apply above_set, above_written.
    + eexists. split; [apply lookup_insert_eq|]. destruct Ho as [B1 B2 B3 B4 B5 B6 B7 B8]. by split.
  - exists G. split; [done|]. split; [|done]. assert (default [] (cin c) = []) as -> by (destruct (cin c) as [[|? ?]|]; cbn in *; congruence).
    rewrite app_nil_r. split; [done|]. by exists hd.
Qed.

Lemma user_write_ok G r h zoh t hs st out str : user_top G r h zoh t hs st out ->
  exists G', (forall echo, php_output_write php_header compat script echo G str = Some (G', Z.of_nat (length str))) /\
    user_top G' r h zoh (t ++ str) hs st out /\ calls G' = calls G /\ handlers G' = handlers G.
Proof.
  intros Hut. pose proof Hut as [[A1 A2 A3 A4 A5 A6 A7 A8 A9] (hd & Hh & Ho)].
  destruct (user_append_ok G r h zoh t hs st out {| op := 0; cin := Some str; cout := None |} Hut eq_refl) as (G' & Hop & Hut' & Hc & Hhs).
  exists G'. split; [|done]. intros echo. unfold php_output_write, php_output_op, php_output_lock_error, php_output_context_init. rewrite A4.
  change PHP_OUTPUT_HANDLER_WRITE with 0. cbn [Z.eqb negb andb mbind option_bind op cin cout]. unfold is_active. rewrite A2.
  pose proof A1 as (Htop & _). rewrite length_reverse in Htop. unfold zend_stack_count. rewrite Htop.
  rewrite (proj2 (Z.eqb_neq _ 0)) by (cbn; lia). cbn [andb negb].
  destruct hs as [|h2 hs].
  - cbn [length Z.of_nat Z.ltb Z.compare Pos.compare Pos.compare_cont Pos.of_succ_nat].
    destruct (top_repr _ _ A1) as [Hel _]. change (reverse [h]) with [h] in Hel.
    destruct (zend_stack_top (handlers G)) as [i|]; [|done]. cbn [mbind option_bind last] in Hel |- *. rewrite Hel.
    cbn [mbind option_bind]. rewrite Hh. cbn [mbind option_bind]. rewrite (hu_enabled _ _ _ _ Ho). cbn [negb].
    rewrite Hop. done.
  - rewrite (proj2 (Z.ltb_lt 1 _)) by (cbn; lia). unfold apply_handlers, zend_stack_apply_with_argument.
    cbn [ZEND_STACK_APPLY_TOPDOWN Z.eqb Pos.eqb]. rewrite Htop, Nat2Z.id.
    destruct (topdown_visit (fun s h => as_callback (php_output_stack_apply_op php_header compat script echo) s h tt) (h :: h2 :: hs) []
      (handlers G) (Some (G, {| op := 0; cin := Some str; cout := None |})) (length (h :: h2 :: hs))) as (stk & E & _);
      [by rewrite app_nil_r|done|]. rewrite E. cbn [mbind option_bind visit as_callback].
    unfold php_output_stack_apply_op. rewrite Hh. cbn [mbind option_bind]. rewrite (hu_enabled _ _ _ _ Ho), Hop. done.
Qed.

Lemma echo_all_ok strs : forall G r h zoh t hs st out, user_top G r h zoh t hs st out ->
  exists G', echo_all (echo php_header compat script) G strs = Some G' /\
    user_top G' r h zoh (t ++ concat strs) hs st out /\ calls G' = calls G.
Proof.
  induction strs as [|s strs IH]; intros G r h zoh t hs st out Hut; cbn [echo_all concat].
  { exists G. by rewrite app_nil_r. }
  destruct (user_write_ok G r h zoh t hs st out s Hut) as (G1 & E & Hut1 & Hc1 & _). assert (echo php_header compat script G s = Some G1) as -> by (unfold echo; by rewrite E). cbn [mbind option_bind].
  destruct (IH _ _ _ _ _ _ _ _ Hut1) as (G2 & -> & Hut2 & Hc2). exists G2. rewrite <- app_assoc in Hut2. split; [done|]. split; [done|congruence].
Qed.

(** What goes on in place of the bytes [t]: where the function fails, all that is in the buffer. *)
Definition answered (a : answer) (t : list Z) (strs : list (list Z)) : list Z :=
  match a with Returns s => s | Returns_true => [] | Call_failed | Returns_false => t ++ concat strs end.

(** The mode of a handler that is called for the first and last time. *)
Definition once : Z := Z.lor PHP_OUTPUT_HANDLER_FINAL PHP_OUTPUT_HANDLER_START.

Lemma done_above G h hs st out hd c (status : php_output_handler_status_t) t : above G None h hs st out -> handler_at G h = Some hd ->
  holds_bytes (buffer hd) t ->
  exists G' c', handler_done G h c status = Some (G', c') /\ above G' None h hs st out /\ calls G' = calls G /\
    cout c' = match status with PHP_OUTPUT_HANDLER_FAILURE => Some t | PHP_OUTPUT_HANDLER_NO_DATA => None | PHP_OUTPUT_HANDLER_SUCCESS => cout c end.
Proof.
  intros Hab Hh Hb. unfold handler_done. rewrite Hh. cbn [mbind option_bind].
  destruct status; rewrite ?(read_held _ _ Hb); cbn [mbind option_bind]; eexists _, _; (split; [done|]); (split; [by apply above_set|done]).
Qed.

Definition answer_out (a : answer) c : php_output_context := match a with Returns (x :: s) => {| c with cout := Some (x :: s) |} | _ => c end.

Definition answer_status (a : answer) : php_output_handler_status_t :=
  match a with
  | Returns (_ :: _) => PHP_OUTPUT_HANDLER_SUCCESS
  | Returns [] | Returns_true => PHP_OUTPUT_HANDLER_NO_DATA
  | Call_failed | Returns_false => PHP_OUTPUT_HANDLER_FAILURE
  end.

Lemma call_user_ok G G2 h hd zoh lvl t c strs a : holds_user hd zoh lvl t ->
  let cs := calls G ++ [{| callee := zoh; ob_data := t; ob_mode := op c |}] in
  script cs = (strs, a) -> echo_all (echo php_header compat script) {| G with calls := cs |} strs = Some G2 ->
  call_handler compat script (echo php_header compat script) G h hd c = Some (G2, answer_out a c, answer_status a).
Proof.
  intros Ho cs Hs He. unfold call_handler. rewrite (read_held _ _ (hu_bytes _ _ _ _ Ho)). cbn [mbind option_bind].
  rewrite (hu_func _ _ _ _ Ho), (hu_user _ _ _ _ Ho). cbn [calls]. fold cs. rewrite Hs, He. cbn [mbind option_bind].
  by destruct a as [| | |[|x s]].
Qed.

Lemma user_op_ok G h zoh t hs st out strs a : user_top G None h zoh t hs st out ->
  let cs := calls G ++ [{| callee := zoh; ob_data := t; ob_mode := once |}] in
  script cs = (strs, a) ->
  exists G' c' status, handler_op php_header compat script G h {| op := once; cin := None; cout := None |} = Some (G', c', status) /\
    above G' None h hs st out /\ calls G' = cs /\ default [] (cout c') = answered a t strs.
Proof.
  intros [Hab (hd & Hh & Ho)] cs Hscript. unfold handler_op, php_output_handler_op. rewrite not_locked by apply Hab. cbn [mbind option_bind op cin].
  unfold php_output_handler_append. rewrite Hh. cbn [mbind option_bind nonempty andb]. change (once =? 0) with false. cbn [andb]. rewrite Hh.
  cbn [mbind option_bind]. rewrite (hu_fresh _ _ _ _ Ho). cbn [negb].
  set (c0 := with_op {| op := once; cin := None; cout := None |} (Z.lor once PHP_OUTPUT_HANDLER_START)).
  set (G0 := set_running G (Some h)). assert (user_top {| G0 with calls := cs |} (Some h) h zoh t hs st out) as Hut1.
  { split; [apply above_calls; by apply (above_running G None)|]. by exists hd. }
  destruct (echo_all_ok strs _ _ _ _ _ _ _ _ Hut1) as (G2 & He & [Hab2 (hd2 & Hh2 & Ho2)] & Hc2).
  rewrite (call_user_ok G0 G2 h hd zoh _ t c0 strs a Ho Hscript He). cbn [mbind option_bind]. rewrite Hh2. cbn [mbind option_bind].
  destruct (done_above (set_running (set_handler G2 h (set_hflag hd2 PHP_OUTPUT_HANDLER_STARTED)) None) h hs st out
    (set_hflag hd2 PHP_OUTPUT_HANDLER_STARTED) (answer_out a c0) (answer_status a) (t ++ concat strs)) as (G3 & c3 & -> & Hab3 & Hc3 & Hout).
  { by apply (above_running _ (Some h)), above_set. } { apply lookup_insert_eq. } { apply Ho2. }
  cbn [mbind option_bind]. eexists G3, _, _. split; [done|]. split; [done|]. split; [by rewrite Hc3|].
  cbn [cout with_op]. rewrite Hout. by destruct a as [| | |[|x s]].
Qed.

(** The end of the buffer. *)
Lemma user_end_ok G h zoh t hs st out strs a : user_top G None h zoh t hs st out ->
  let cs := calls G ++ [{| callee := zoh; ob_data := t; ob_mode := once |}] in
  script cs = (strs, a) ->
  exists G', ob_end_flush php_header compat script G = Some (G', VBool true) /\ calls G' = cs /\
    let '(st', d) := sink false st (answered a t strs) in layer G' hs st' (out ++ keep allowed d) (head hs).
Proof.
  intros Hut cs Hscript. pose proof Hut as [Hab (hd & Hh & Ho)].
  unfold ob_end_flush, is_active, succeeds, php_output_end, php_output_stack_pop. rewrite (ab_active _ _ _ _ _ _ Hab). cbn [negb]. rewrite Hh.
  cbn [mbind option_bind]. rewrite (hu_removable _ _ _ _ Ho), (hu_enabled _ _ _ _ Ho), (hu_fresh _ _ _ _ Ho). cbn [negb andb].
  rewrite andb_false_r. change (has PHP_OUTPUT_POP_TRY PHP_OUTPUT_POP_DISCARD) with false. cbn iota.
  destruct (user_op_ok G h zoh t hs st out strs a Hut Hscript) as (G1 & c1 & status & E & Hab1 & Hc1 & Hout).
  match goal with |- context [handler_op _ _ _ G h ?c] => change (handler_op php_header compat script G h c) with
    (handler_op php_header compat script G h {| op := once; cin := None; cout := None |}) end. rewrite E. cbn [mbind option_bind].
  destruct (above_pop G1 h hs st out Hab1) as (stk & -> & Hcur & Hly). cbn [mbind option_bind]. rewrite Hcur. cbn [mbind option_bind].
  assert (h ∉ hs) as Hni by (pose proof (ab_nodup _ _ _ _ _ _ Hab) as Hnd; by apply NoDup_cons in Hnd as [? _]).
  rewrite <- Hout. destruct (cout c1) as [[|x s]|]; cbn [nonempty default negb id].
  1, 3: cbn [mbind option_bind]; eexists; (split; [done|]); (split; [exact Hc1|]); rewrite sink_nil, keep_nil, app_nil_r; by apply free_ok.
  destruct (write_ok compat script _ _ _ _ _ (x :: s) Hly) as (G3 & E3 & Hfr3 & _ & Hs3). rewrite E3.
  cbn [mbind option_bind]. eexists. split; [done|]. split; [etrans; [apply (fr_calls _ _ Hfr3)|exact Hc1]|].
  destruct (sink false st (x :: s)) as [st' d]. by apply free_ok.
Qed.

Lemma user_start_ok G hs st out zoh nm : (forall G, conflicting G nm = false) -> layer G hs st out (head hs) -> room G 1 ->
  exists G' h, ob_start php_header conflicting dname G (Callable zoh nm) 0 PHP_OUTPUT_HANDLER_STDFLAGS = Some (G', VBool true) /\
    user_top G' None h zoh [] hs st out /\ calls G' = calls G.
Proof.
  intros no_conflicts [A1 A2 A3 A4 A5 A6 A7 A8 A9 A10] Hroom.
  unfold ob_start, php_output_start_user, php_output_handler_start. rewrite not_locked by done. cbn [mbind option_bind php_output_handler_create_user].
  rewrite no_conflicts. cbn [orb]. set (h := fresh_id G).
  assert (h ∉ hs) as Hni by (intros Hin; rewrite Forall_forall in A9; specialize (A9 h Hin); cbn in A9; lia).
  destruct (push_repr (handlers G) (reverse hs) h A1) as (stk & -> & Hr & _).
  { destruct A1 as (_ & Hm & Hb). pose proof (block_holds_length _ _ _ Hb). unfold room, is_i32, STACK_BLOCK_SIZE in *. lia. }
  cbn [mbind option_bind]. rewrite length_reverse. eexists _, h. split; [done|]. split; [|done]. split.
  - split; try done; cbn.
    + change (repr stk (reverse (h :: hs))). by rewrite reverse_cons.
    + apply (stack_ok_ext (store G)); [|done]. intros h' Hh'. apply lookup_insert_ne. by intros ->.
    + by apply NoDup_cons.
    + apply Forall_cons. split; [lia|]. eapply Forall_impl; [exact A9|]. cbn. lia.
  - eexists. split; [apply lookup_insert_eq|]. split; try done. eexists. by split.
Qed.

Lemma user_echoes_ok ss : forall G h zoh t hs st out, user_top G None h zoh t hs st out ->
  exists G' vs, run_ops php_header compat script conflicting dname G (Echo <$> ss) = Some (G', vs) /\
    user_top G' None h zoh (t ++ concat ss) hs st out /\ calls G' = calls G.
Proof.
  induction ss as [|s ss IH]; intros G h zoh t hs st out Hut.
  { exists G, []. cbn. by rewrite app_nil_r. }
  rewrite fmap_cons. cbn [run_ops run_op concat].
  destruct (user_write_ok G None h zoh t hs st out s Hut) as (G1 & E & Hut1 & Hc1 & _). unfold output_write. rewrite E. cbn [mbind option_bind].
  destruct (IH _ _ _ _ _ _ _ Hut1) as (G2 & vs & E2 & Hut2 & Hc2). rewrite E2. rewrite <- app_assoc in Hut2.
  eexists G2, _. split; [done|]. split; [done|congruence].
Qed.
End User.

(** [ob_start(f); echo s1; ...; ob_end_flush();] *)
Definition filtered php_header compat script conflicting dname G (zoh : Z) (nm : list Z) (ss : list (list Z)) : option (output_globals * value) :=
  '(G, _) ← ob_start php_header conflicting dname G (Callable zoh nm) 0 PHP_OUTPUT_HANDLER_STDFLAGS;
  '(G, _) ← run_ops php_header compat script conflicting dname G (Echo <$> ss);
  ob_end_flush php_header compat script G.

(** C19: what [ob_start(f)], any number of prints and [ob_end_flush()] do, [f] being a function of the script, the buffer
    having no chunk size and the standard abilities: [f] is called once, at the end, with all that was printed and the mode
    of a first and last call, and what it answers goes in place of it into the buffers below, or to the server where output
    is allowed: nothing for [true], and where [f] fails or gives [false] the buffer as it is, to which the own prints of [f]
    were added.  Those prints are otherwise lost, and never reach [f] or the buffers below.  (A chunk size or [ob_flush] would
    call [f] more often; they are outside.)  No extension has registered a conflict for the name of [f]. *)
Theorem user_handler_filters_once {HD : Headers} compat script conflicting dname G hs st out zoh nm ss strs a :
  (forall G, conflicting G nm = false) -> layer G hs st out (head hs) -> room G 1 ->
  script (calls G ++ [{| callee := zoh; ob_data := concat ss; ob_mode := once |}]) = (strs, a) ->
  exists G', filtered header_fn compat script conflicting dname G zoh nm ss = Some (G', VBool true) /\
    calls G' = calls G ++ [{| callee := zoh; ob_data := concat ss; ob_mode := once |}] /\
    layer G' hs (sink false st (answered a (concat ss) strs)).1
      (out ++ keep allowed (sink false st (answered a (concat ss) strs)).2) (head hs).
Proof.
  intros Hc Hly Hroom Hs. unfold filtered.
  destruct (user_start_ok conflicting dname G hs st out zoh nm Hc Hly Hroom) as (G1 & h & -> & Hut1 & Hc1). cbn [mbind option_bind].
  destruct (user_echoes_ok compat script conflicting dname ss G1 h zoh [] hs st out Hut1) as (G2 & vs & -> & Hut2 & Hc2).
  cbn [mbind option_bind app] in *. rewrite <- Hc1, <- Hc2 in Hs |- *.
  destruct (user_end_ok compat script G2 h zoh (concat ss) hs st out strs a Hut2 Hs) as (G3 & -> & Hc3 & Hs3).
  exists G3. split; [done|]. split; [done|]. by destruct (sink false st _).
Qed.

(** A function that prints and fails, over an empty layer. *)
Definition ex_failing (cs : list call) : list (list Z) * answer := ([[9]], Returns_false).

Definition ex_headers : Headers := {| header_fn := ex_header; allowed := true |}.

Lemma user_handler_filters_once_witness :
  let G := php_output_activate ex_globals in
  exists G', filtered ex_header ex_compat ex_failing ex_conflicts [] G 5 [70] [[1]; [2; 3]] = Some (G', VBool true) /\
    calls G' = calls G ++ [{| callee := 5; ob_data := [1; 2; 3]; ob_mode := once |}] /\
    layer (HD := ex_headers) G' [] (sink false [] (answered Returns_false [1; 2; 3] [[9]])).1
      (written G ++ (sink false [] (answered Returns_false [1; 2; 3] [[9]])).2) None.
Proof.
  intros G. destruct (activate_ok (H := ex_headers) ex_globals eq_refl) as [Hly Hroom].
  apply (user_handler_filters_once (HD := ex_headers) ex_compat ex_failing ex_conflicts [] G [] [] (written ex_globals) 5 [70] [[1]; [2; 3]] [[9]] Returns_false);
    [done|exact Hly|done|done].
Defined.
