(* ===== verification/CodeExecutor.v ===== *)
(** * The code executor of the service ([index.php])

    The service runs a function that it is sent: it starts an output buffer, evaluates the function with a call that
    prints its result, and takes what was printed for the answer.  What the function does to the output layer is the list
    of its operations, and it returns or throws; the interpreter is not modelled.  The answer leaves through the same layer
    ([respond]), and the end of the request flushes what is left. *)
From S2P Require Import Prelude ZendStack Output OutputSpec OutputLayer.
Import Stack.

Section Executor.
Context (php_header : bool -> bool * bool) (compat : Z -> list Z -> Z -> option (list Z))
  (script : list call -> list (list Z) * answer) (conflicting : output_globals -> list Z -> bool) (dname : list Z).

Implicit Types (G : output_globals) (st : list ob) (code : list ob_op).

(** [CodeExecutor::execute]; [None] in the result is that the exception is thrown on. *)
Definition execute G code (throws : bool) : option (output_globals * option value) :=
  '(G, _) ← ob_start php_header conflicting dname G No_handler 0 PHP_OUTPUT_HANDLER_STDFLAGS;
  '(G, _) ← run_ops php_header compat script conflicting dname G code;
  if throws then Some (G, None)
  else '(G, output) ← ob_get_clean php_header compat script G; Some (G, Some output).

(** [handleRequestExecutor] and the rest of the request: [body] is the JSON made of the result or of the error. *)
Definition respond G code (throws : bool) (body : option value -> list Z) : option output_globals :=
  '(G, result) ← execute (php_output_activate G) code throws;
  '(G, _) ← output_write php_header compat script G (body result);
  G ← php_output_end_all php_header compat script G;
  php_output_deactivate php_header G.

(** ** Code that keeps to its own buffers *)

(** [own] are the abilities of the buffers that the code has started and not ended, the last one first. *)
Fixpoint confined (own : list Z) code : option (list Z) :=
  match code with
  | [] => Some own
  | o :: code =>
      match o, own with
      | Echo _, _ | Ob_clean, _ | Ob_get_contents, _ | Ob_get_length, _ | Ob_get_level, _ => confined own code
      | Ob_start _ fl, _ => confined (fl :: own) code
      | Ob_flush, _ :: _ => confined own code
      | (Ob_end_flush | Ob_end_clean | Ob_get_flush | Ob_get_clean), fl :: own' =>
          confined (if has fl PHP_OUTPUT_HANDLER_REMOVABLE then own' else own) code
      | _, _ => None
      end
  end.

(** The buffer of the executor. *)
Definition executor_buffer (s : list Z) : ob := {| chunk := 0; abilities := PHP_OUTPUT_HANDLER_STDFLAGS; bytes := s |}.

(** What the code leaves in it, by the specification. *)
Definition captured code : list Z :=
  match (spec_run true ([executor_buffer []], []) code).1.1 with b :: _ => bytes b | [] => [] end.
End Executor.

(** Prints go into the buffers of the code and at most into that of the executor. *)
Lemma sink_confined upper : forall s t, exists upper' s', abilities <$> upper' = abilities <$> upper /\
  forall st, sink false (upper ++ executor_buffer t :: st) s = (upper' ++ executor_buffer s' :: st, []).
Proof.
  induction upper as [|b upper IH]; intros s t.
  { exists [], (t ++ s). split; [done|]. intros st. cbn. by destruct s. }
  cbn [app sink orb]. destruct (spills b s).
  - destruct (bytes b ++ s) as [|x r].
    + exists (with_bytes b [] :: upper), t. done.
    + destruct (IH (x :: r) t) as (upper' & s' & Ha & Hs). exists (with_bytes b [] :: upper'), s'.
      split; [by rewrite !fmap_cons, Ha|]. intros st. by rewrite Hs.
  - exists (with_bytes b (bytes b ++ s) :: upper), t. done.
Qed.

(** One operation of confined code: what lies below the executor's buffer does not matter, but for [ob_get_level]. *)
Lemma spec_op_confined o code upper t own' : confined (abilities <$> upper) (o :: code) = Some own' ->
  exists upper' t', confined (abilities <$> upper') code = Some own' /\
    forall st out, (spec_op true (upper ++ executor_buffer t :: st, out) o).1 = (upper' ++ executor_buffer t' :: st, out).
Proof.
  intros Hc. cbn [confined] in Hc. destruct o; try done.
  - destruct (sink_confined upper s t) as (upper' & s' & Ha & Hs). exists upper', s'. rewrite Ha. split; [done|].
    intros st out. cbn [spec_op fst snd]. unfold spec_write. cbn [fst snd]. rewrite Hs. by rewrite app_nil_r.
  - by exists ({| chunk := if chunk_size <? 0 then 0 else chunk_size; abilities := fl; bytes := [] |} :: upper), t.
  - destruct upper as [|b upper]; [done|]. cbn [fmap list_fmap] in Hc.
    destruct (sink_confined upper (bytes b) t) as (upper' & s' & Ha & Hs). unfold spec_op. cbn [fst snd app]. unfold spec_write, can. cbn [fst snd].
    destruct (has (abilities b) PHP_OUTPUT_HANDLER_FLUSHABLE).
    + exists (with_bytes b [] :: upper'), s'. rewrite fmap_cons, Ha. split; [done|]. intros st out. by rewrite Hs, app_nil_r.
    + by exists (b :: upper), t.
  - destruct upper as [|b upper]; cbn.
    + by exists [], [].
    + unfold can. destruct (has (abilities b) PHP_OUTPUT_HANDLER_CLEANABLE); [by exists (with_bytes b [] :: upper), t|by exists (b :: upper), t].
  - destruct upper as [|b upper]; [done|]. cbn [fmap list_fmap] in Hc.
    destruct (sink_confined upper (bytes b) t) as (upper' & s' & Ha & Hs). unfold spec_op. cbn [fst snd app]. unfold spec_write, can. cbn [fst snd].
    destruct (has (abilities b) PHP_OUTPUT_HANDLER_REMOVABLE).
    + exists upper', s'. rewrite Ha. split; [done|]. intros st out. by rewrite Hs, app_nil_r.
    + by exists (b :: upper), t.
  - destruct upper as [|b upper]; [done|]. cbn [fmap list_fmap] in Hc. unfold spec_op. cbn [fst snd app]. unfold can.
    destruct (has (abilities b) PHP_OUTPUT_HANDLER_REMOVABLE); [by exists upper, t|by exists (b :: upper), t].
  - destruct upper as [|b upper]; [done|]. cbn [fmap list_fmap] in Hc.
    destruct (sink_confined upper (bytes b) t) as (upper' & s' & Ha & Hs). unfold spec_op. cbn [fst snd app]. unfold spec_write, can. cbn [fst snd].
    destruct (has (abilities b) PHP_OUTPUT_HANDLER_REMOVABLE).
    + exists upper', s'. rewrite Ha. split; [done|]. intros st out. by rewrite Hs, app_nil_r.
    + by exists (b :: upper), t.
  - destruct upper as [|b upper]; [done|]. cbn [fmap list_fmap] in Hc. unfold spec_op. cbn [fst snd app]. unfold can.
    destruct (has (abilities b) PHP_OUTPUT_HANDLER_REMOVABLE); [by exists upper, t|by exists (b :: upper), t].
  - exists upper, t. split; [done|]. by destruct upper.
  - exists upper, t. split; [done|]. by destruct upper.
  - exists upper, t. split; [done|]. by destruct upper.
Qed.

Lemma spec_run_confined code : forall upper t own, confined (abilities <$> upper) code = Some own ->
  exists upper' t', abilities <$> upper' = own /\
    forall st out, (spec_run true (upper ++ executor_buffer t :: st, out) code).1 = (upper' ++ executor_buffer t' :: st, out).
Proof.
  induction code as [|o code IH]; intros upper t own Hc.
  { exists upper, t. split; [by injection Hc|]. done. }
  destruct (spec_op_confined o code upper t own Hc) as (upper1 & t1 & Hc1 & Ho).
  destruct (IH upper1 t1 own Hc1) as (upper2 & t2 & Ha & Hr). exists upper2, t2. split; [done|].
  intros st out. cbn [spec_run]. specialize (Ho st out). destruct (spec_op true _ o) as [x v]. cbn in Ho. subst x.
  specialize (Hr st out). destruct (spec_run true _ code) as [x vs]. exact Hr.
Qed.

(** Confined code leaves what it printed in the executor's buffer, and nothing anywhere else. *)
Lemma captured_ok code st out : confined [] code = Some [] ->
  (spec_run true (executor_buffer [] :: st, out) code).1 = (executor_buffer (captured code) :: st, out).
Proof.
  intros Hc. destruct (spec_run_confined code [] [] [] Hc) as (upper & t & Ha & Hr).
  destruct upper; [|done]. cbn [app] in Hr. unfold captured. by rewrite !Hr.
Qed.

Lemma deactivate_ok `{Headers} php_header G out : layer G [] [] out None ->
  exists G', php_output_deactivate php_header G = Some G' /\ written G' = out.
Proof.
  intros [A1 A2 A3 A4 A5 A6 A7 A8 A9 A10]. unfold php_output_deactivate. rewrite A5.
  assert (handlers (php_output_header php_header G) = handlers G /\ written (php_output_header php_header G) = out) as [Hh Hw].
  { unfold php_output_header. destruct (headers_sent G); cbn [negb]; [done|]. destruct (php_header false) as [sent []]; done. }
  destruct A1 as (Htop & _). cbn in Htop. cbn [handlers]. rewrite Hh, Htop. cbn [Z.to_nat length Z.of_nat].
  destruct (elements (handlers G)).
  - change (Z.to_nat (Z.of_nat 0)) with O. cbn [free_handlers]. unfold zend_stack_top. cbn [handlers]. rewrite Htop. cbn. by eexists.
  - cbn. by eexists.
Qed.

Lemma respond_ok `{Headers} compat script conflicting dname G code throws body :
  allowed = true -> (header_fn false).2 = true -> (forall G, conflicting G dname = false) ->
  confined [] code = Some [] -> Forall op_fits code -> Z.of_nat (length code) < 2 ^ 25 ->
  exists G', respond header_fn compat script conflicting dname G code throws body = Some G' /\
    written G' = written G ++ (if throws then captured code ++ body None else body (Some (VString (captured code)))).
Proof.
  intros Hal Hh Hc Hconf Hfit Hlen. destruct (activate_ok G) as [Hly Hroom]; [by rewrite Hal, Hh, orb_true_r|]. unfold respond, execute.
  destruct (start_ok conflicting dname Hc _ [] [] (written G) 0 PHP_OUTPUT_HANDLER_STDFLAGS Hly) as (G1 & h & -> & Hm & Hly1); [done|done|].
  cbn [mbind option_bind Z.ltb Z.compare] in *. fold (executor_buffer []) in Hly1.
  destruct (run_ops_ok compat script conflicting dname Hc code G1 [h] _ _ Hly1 Hfit) as (G2 & hs2 & E & Hly2 & Hm2).
  { unfold room, STACK_BLOCK_SIZE in *. lia. }
  rewrite E. cbn [mbind option_bind]. rewrite Hal in Hly2. rewrite (captured_ok code [] (written G) Hconf) in Hly2. cbn [fst snd] in Hly2.
  pose proof (stack_ok_length _ _ _ (ly_held _ _ _ _ _ Hly2)) as Hl. destruct hs2 as [|h2 [|? ?]]; try done. cbn [head] in Hly2.
  assert (forall G3 hs st s, layer G3 hs st (written G) (head hs) -> spec_end_all true (sink false st s).1 (length st) (written G ++ (sink false st s).2) = written G ++ concat (reverse (bytes <$> st)) ++ s ->
    exists G', ('(G, _) ← output_write header_fn compat script G3 s; G ← php_output_end_all header_fn compat script G; php_output_deactivate header_fn G) = Some G' /\
      written G' = written G ++ concat (reverse (bytes <$> st)) ++ s) as Hend.
  { intros G3 hs st s Hly3 Hs. destruct (write_ok compat script G3 hs st (written G) _ s Hly3) as (G4 & -> & _ & _ & Hly4).
    cbn [mbind option_bind]. pose proof (sink_length false st s) as Hsl. destruct (sink false st s) as [st' d]. rewrite Hal in Hly4. cbn [fst snd keep] in *.
    unfold php_output_end_all. rewrite (count_ok _ _ _ _ _ Hly4), Nat2Z.id.
    destruct (end_all_ok compat script (length st') G4 hs st' _ Hly4 eq_refl) as (G5 & -> & _ & Hly5). cbn [mbind option_bind].
    rewrite Hsl, Hal, Hs in Hly5. by apply (deactivate_ok header_fn). }
  destruct throws; cbn [mbind option_bind].
  - destruct (Hend G2 [h2] [executor_buffer (captured code)] (body None) Hly2) as (G3 & E3 & Hw).
    + cbn. rewrite app_nil_r. destruct (body None); cbn; rewrite ?app_nil_r; done.
    + exists G3. split; [exact E3|]. rewrite Hw. cbn. by rewrite app_nil_r.
  - unfold ob_get_clean, is_active. rewrite (ly_active _ _ _ _ _ Hly2). cbn [negb].
    destruct (contents_ok _ _ _ _ _ _ Hly2) as [-> _]. cbn [mbind option_bind].
    destruct (discard_ok compat script _ _ _ _ _ _ Hly2) as (G3 & -> & _ & Hly3); [done|]. cbn [mbind option_bind bytes executor_buffer].
    destruct (Hend G3 [] [] (body (Some (VString (captured code)))) Hly3) as (G4 & E4 & Hw); [done|]. by exists G4.
Qed.

(** C1: the service answers with what the function printed, and nothing else.  For every function that ends the buffers it starts and
    leaves that of the executor alone, the result is exactly what it printed, and the server gets only the body made of it.
    When the function throws, what it had printed before comes out in front of the body.  [php_header] lets output through,
    as it does for the POST requests of the service. *)
Theorem respond_sends php_header compat script conflicting dname G code throws body :
  (forall sent, (php_header sent).2 = true) -> (forall G nm, conflicting G nm = false) ->
  confined [] code = Some [] -> Forall op_fits code -> Z.of_nat (length code) < 2 ^ 25 ->
  exists G', respond php_header compat script conflicting dname G code throws body = Some G' /\
    written G' = written G ++ (if throws then captured code ++ body None else body (Some (VString (captured code)))).
Proof.
  intros Hh Hc. exact (respond_ok (H := {| header_fn := php_header; allowed := true |})
    compat script conflicting dname G code throws body eq_refl (Hh false) (fun G => Hc G dname)).
Qed.

(** A function that prints, captures something in a buffer of its own and prints its length. *)
Definition ex_code : list ob_op :=
  [Echo [104; 105]; Ob_start 0 PHP_OUTPUT_HANDLER_STDFLAGS; Echo [1; 2; 3]; Ob_get_length; Ob_end_clean; Echo [33]].

Definition ex_body (r : option value) : list Z := match r with Some (VString s) => [34] ++ s ++ [34] | _ => [69] end.

Lemma respond_sends_witness :
  exists G', respond ex_header ex_compat ex_script ex_conflicts [] ex_globals ex_code true ex_body = Some G' /\
    written G' = written ex_globals ++ (captured ex_code ++ ex_body None).
Proof.
  apply (respond_sends ex_header ex_compat ex_script ex_conflicts [] ex_globals ex_code true ex_body);
    [done|done|done|repeat constructor|vm_compute; done].
Defined.

Example respond_runs :
  written <$> respond ex_header ex_compat ex_script ex_conflicts [] ex_globals ex_code false ex_body = Some [34; 104; 105; 33; 34] /\
  written <$> respond ex_header ex_compat ex_script ex_conflicts [] ex_globals ex_code true ex_body = Some [104; 105; 33; 69].
Proof. by vm_compute. Qed.
